(* ===== verification/_CoqProject ===== *)
-Q . S2P
Prelude.v
Float64.v
Model.v
Store.v
Fixtures.v
Claims.v
WorkItems.v
WorkItemFacts.v
Lifecycle.v
Automation.v
Allocation.v
Invariants.v
Witnesses.v
Registry.v
RegistryFacts.v
Supervisor.v
SupervisorFacts.v
SupervisorRuns.v
SupervisorTick.v
SupervisorWitnesses.v
RateLimit.v
RateLimitFacts.v
Printing.v
PrintingFacts.v
PrintScheduleFacts.v
Scheduler.v
SchedulerGraphFacts.v
SchedulerFacts.v
SchedulerWitnesses.v
Pagination.v
PaginationFacts.v
Observations.v
Entities.v
Locations.v
ManagedState.v
ManagedStateFacts.v
ClientWitnesses.v
MiningPlanner.v
BootstrapPlanner.v
BootstrapFacts.v
BeltFacts.v
PlannerWitnesses.v
RelayGraph.v
RelaySolver.v
RelayTravel.v
RelayDiagnostics.v
RelayPlan.v
RelayClosureFacts.v
RelayTableFacts.v
RelayTreeFacts.v
RelaySolutionFacts.v
RelayGraphFacts.v
RelayGreedyFacts.v
RelayOrientFacts.v
RelayPlanFacts.v
RelayTravelFacts.v
RelayCorridorFacts.v
RelayWitnesses.v
Json.v
Mutations.v
Operations.v
OperationLogic.v
OperationFacts.v
OperationOutcomes.v
OperationEvidence.v
OperationWitnesses.v
EventLog.v
EventReducers.v
EventPipeline.v
EventLogFacts.v
EventReducerFacts.v
EventEffectFacts.v
EventPipelineFacts.v
EventPipelineWitnesses.v
Transport.v
TransportFacts.v
EventPlanner.v
EventFacts.v
EventScheduleFacts.v
EventWitnesses.v
