(* ===== verification/Prelude.v ===== *)
(** * A verification of the replicant client: workflow store, pacing, state and planners

    ** The program

    [replicant-client] is a durable client for an online game.  Long-running jobs are
    workflows; a daemon ([crates/replicant-runtime], [crates/replicant-server]) drives
    them and keeps everything it must not forget in one SQLite database, through
    [WorkflowRepository] of [crates/replicant-workflow].  Its scheduler decides which
    campaign gets workers, and pure planners ([crates/replicant-*-planner],
    [crates/replicant-printing]) decide what to print, carry and settle.  Game requests go
    through the raw HTTP client ([src/raw]), which paces them with [RateLimitCoordinator]
    and reads long answers page by page; the managed client ([src/managed], [src/domain])
    merges what it observes into a published state that survives restarts.

    The development models:

    - every operation of the workflow repository that writes, over one record of tables;
    - the workflow registry and the supervisor, as clients of the repository;
    - the scheduler, as a client of the repository and of the broker's matching;
    - the rate limiter, as a step function over the lock sections of its calls, and the
      cursor streams;
    - the merge of observations, the state engine with the store it writes through, and the
      event pipeline that feeds them from the account's event log;
    - the printing, mining, bootstrap, relay, event and transport planners, and the cargo
      trips of a delivery.

    ** Files

    - [Prelude.v]: results and transactions ([tx], a state-and-error monad whose error
      leaves the store as it was, as a dropped SQLite transaction does), machine
      integers, table queries and sums on [gmap], sorting, the [respects] automation that
      proves a frame property of a whole operation from its pieces.
    - [Float64.v]: IEEE binary64 with [total_cmp] and [partial_cmp], for distances, times
      and urgencies.
    - [Model.v]: [model.rs], [work.rs], [allocation.rs], [target.rs]: statuses, keys,
      requirements, targets and the rows of each table.
    - [Store.v]: the database as the record [DB], reads and row updates used by all
      components, the SQL triggers of migration 14 ([bump_intelligence]).
    - [Claims.v]: custody of resources.  [claim_matches] is the SQL predicate that
      identifies the rows of one physical resource; [same_resource] is the equivalence
      it defines.
    - [WorkItems.v], [WorkItemFacts.v]: items, attempts, the transition machine,
      back-off, assignments, orphan recovery, campaign results.
    - [Lifecycle.v]: creation, optimistic updates, what finishing releases, pruning.
    - [Automation.v]: triggers, documents, executions, activity, targets.
    - [Allocation.v]: the broker that matches candidates to requirements.
    - [Registry.v], [RegistryFacts.v]: [registry.rs] and the intent types of [model.rs]:
      factories by kind, migration, and the evidence of services and placements the
      registry projects from the stored workflows.
    - [Supervisor.v]: [supervisor.rs]: what an executor may do to its workflow ([Op]), the
      supervisor's methods as programs ([Prog]) of repository transactions, critical
      sections, spawns and joins, and [config_step], which interleaves a tick, control
      calls, executors and other users of the repository; [solo] runs one program alone.
      [SupervisorFacts.v] proves its invariant, [SupervisorRuns.v] and [SupervisorTick.v]
      what single programs do, [SupervisorWitnesses.v] has the concrete inputs.
    - [Invariants.v]: [operation] lists every writing operation; [step] commits one and
      [reachable] is what any sequence of them can produce from an empty database.
    - [Fixtures.v], [Witnesses.v]: a JSON instance, a sample database built with the
      operations themselves, and the theorems applied to it.
    - [RateLimit.v], [RateLimitFacts.v]: [src/raw/rate_limit.rs].
    - [Printing.v], [PrintingFacts.v], [PrintScheduleFacts.v]:
      [crates/replicant-printing/src/lib.rs], expansion into waves and distribution.
    - [Scheduler.v], [SchedulerGraphFacts.v], [SchedulerFacts.v], [SchedulerWitnesses.v]:
      [crates/replicant-runtime/src/scheduler.rs], over the repository of the files above.
    - [Pagination.v], [PaginationFacts.v]: [src/raw/pagination.rs].
    - [Observations.v], [Entities.v], [Locations.v]: [src/domain], what is observed and how
      observations merge.
    - [ManagedState.v], [ManagedStateFacts.v]: [src/managed/state.rs] with the tables of
      [src/managed/store.rs] it writes; [Event] is an operation or a restart.
    - [MiningPlanner.v], [BootstrapPlanner.v], [BootstrapFacts.v], [BeltFacts.v]:
      [crates/replicant-mining-planner] and [crates/replicant-bootstrap-planner].
    - [RelayGraph.v], [RelaySolver.v], [RelayTravel.v], [RelayDiagnostics.v],
      [RelayPlan.v]: [crates/replicant-route-planner/src/lib.rs], the star graph, the
      search for a relay tree over subsets of terminals, the deployment trip, the
      explanation of a disconnected request, and the plan.  [RelayClosureFacts.v],
      [RelayTableFacts.v], [RelayTreeFacts.v], [RelaySolutionFacts.v] prove the search exact; [RelayGraphFacts.v],
      [RelayGreedyFacts.v], [RelayCorridorFacts.v], [RelayOrientFacts.v],
      [RelayPlanFacts.v] and [RelayTravelFacts.v] prove the rest of the plan.
    - [Json.v]: [serde_json::Value] with its accessors, insertion and decidable equality.
    - [Mutations.v], [Operations.v]: [src/managed/operation.rs] with the
      journal tables of [src/managed/store.rs]: the typed mutations, their durable form and
      evidence, and the async functions as programs ([Prog]) of store transactions,
      requests and notifications; [run] executes one, [step] interleaves many.
      [OperationLogic.v] is a program logic for invariants of the interleavings,
      [OperationFacts.v] uses it, [OperationOutcomes.v] and [OperationEvidence.v] say what
      a single program does.
    - [EventLog.v]: the event part of [src/managed/store.rs]: history, cursor, projection
      batches and the reconciliation queue.  [EventReducers.v]: the reducers of
      [src/managed/events/projection.rs] and the table that assigns them to event names.
      [EventPipeline.v]: [src/managed/events.rs] with the publication of
      [src/managed/state.rs]; [apply_event] is one application, [step] takes it apart and
      interleaves it with failures, crashes and restarts.  [EventLogFacts.v],
      [EventReducerFacts.v], [EventEffectFacts.v], [EventPipelineFacts.v] and
      [EventPipelineWitnesses.v] are their theorems.
    - [EventPlanner.v], [EventFacts.v], [EventScheduleFacts.v]:
      [crates/replicant-event-planner/src/lib.rs].
    - [Transport.v], [TransportFacts.v]: [crates/replicant-transport/src/lib.rs]: [turn] is one
      step of one of the transports that share a pickup.
    - [ClientWitnesses.v], [PlannerWitnesses.v], [RelayWitnesses.v], [OperationWitnesses.v],
      [EventWitnesses.v]: the theorems on concrete inputs.

    A definition has the name of the Rust item it models.  An operation of the repository
    is one transaction: reads, guards and writes in the order of the code, with the errors
    of the code ([RepositoryError]) and the constraint violations of the schema ([Sql]).

    ** What the theorems show

    - Over all reachable databases ([Invariants.v]): a physical resource has one live
      owner, whatever its spelling; a running item has exactly one open attempt and
      attempts are numbered without gaps; a finished workflow holds nothing; no worker
      serves two items; the start-up reconciliation of claims finds nothing to do.
      Each operation preserves the component invariants ([claims_ok], [items_ok]),
      never lowers a revision, never reopens what is terminal, and never changes
      targets or allocations without advancing the intelligence revision.
    - Of single operations: when acquisition, update, transition and firing succeed and
      with which error they fail otherwise; no lost update; handoff moves custody and
      nothing else; the reserve survives; finishing releases everything in the same
      transaction; pruning terminates and deletes exactly what may go; the broker
      satisfies each requirement within capacity; firing is at most once per key;
      reconciliation is idempotent; documents, keys and names read back.
    - Of the registry: an absent service is a proof that no live workflow provides it, and
      the placement snapshot accounts for every retained workflow, known or unknown.
    - Of the supervisor: over all interleavings a workflow has at most one executor; a tick
      starts every workflow that may run and says what it does to each other; an executor
      that was overtaken cannot write; a shutdown stops every executor and leaves the
      database alone; and the two ways in which a workflow is failed by mistake, a resume
      before the paused executor is reaped and a refused cancellation.
    - Of the rate limiter: the budget of a bucket for any sequence of requests, and that
      it is tight; what a response enforces; bounded waiting of both queue classes;
      that no ticket is lost while a bucket serves one class, and the interleaving in
      which one is lost when it serves both; spacing and blocks across processes.
    - Of the scheduler: grants never exceed the workforce, floors come first and in order
      of deadline, elastic grants stay below the ceilings; its components are the classes
      of mutual reachability; its eligibility is the broker's; and the case in which a
      campaign reclaims from itself.
    - Of pagination: a stream ends and is a bounded walk along the cursors.
    - Of the managed state: the newest observation wins in every order of arrival; the
      merge of locations is a monoid; restarts at any points are invisible, which is a
      refinement of the engine with its store by the engine without restarts; no fact
      about a star is lost; and where the owner's fields of a device, a batch that repeats
      a device, and a catalogue without a generation time are not kept.
    - Of the operation journal: over all interleavings of clients, crashes and restarts an
      operation is sent at most once, what is sent was recorded without credentials, and
      the state of a row tells whether it may have been sent; of single programs, the row
      each outcome leaves, the reuse of an identity, what recovery submits and where it
      gives up, the rows an event resolves; and that an operation reconciled before its
      evidence is never resolved.
    - Of the events: through all failures, crashes and restarts events are committed at most
      once and in the order of the stream, the journal and the watchers see committed
      events only, and the history follows the cursor; an event changes nothing outside
      its realm, and what it publishes is what a restart restores.  Also where this ends:
      what the cursor has passed is lost to the journal and the watchers, a catch-up reads
      one page, and an event of an unknown realm counts as one of the game.
    - Of the planners: print waves supply what later waves consume, schedules print what
      was asked, a blueprint's cost is its bill of materials, carriers hold the payload
      with none to spare, valid profiles have a convoy, the selected belts are the closest,
      mission tags fit the server's limit.
    - Of the relay planner: a [network] is a connected set of systems with every terminal
      in it.  The closure of a row is the cost of a shortest walk; the tables over
      subsets, read back and trimmed, give a network with the fewest new relays and then
      the fewest hops; the search fails exactly when there is none; the corridor keeps a
      network as good as any; the plan describes the network; the deployment trip visits
      every stop after the one it hangs on, with the fewest hops when it is exact.
    - Of the event planner: an assessment reuses and prints exactly what the event still
      needs, its transports take the load in the fewest trips, it is feasible exactly when
      the stock pays for it; its schedule is that of the printing crate; its tags are
      bounded when the preserved suffix is; and where a required beacon is given up, or a
      beacon claimed twice.

    - Of deliveries: an allocation asks for exactly what was requested, within the stock, or
      names what is short; the transports of a pickup carry every unit once in every order of
      their turns and every run ends, so a delivery that succeeds has delivered the request;
      selected transports are fit and few; the name of an operation identity is unambiguous;
      and a second equal load of a namespaced delivery is never sent on its way.

    ** Parameters, bounds and fuel

    - [Serde] stands for [serde_json]: values, their text, and the two decoders the
      repository needs.  It assumes that the JSON text of a resource determines the
      resource; [Fixtures.sample_serde] is an instance.  [SchedulerSerde] adds the
      decoders of the scheduler's documents, with no assumption.
    - [RowOrder] is the order in which SQLite returns rows when a query names none; it
      is only assumed to list each row once.
    - A page request ([fetch]) is a function of the number of the request and the cursor.
      The outcome of a commit of the managed store is an argument of the operation.  A
      JSON value of an observation is an element of any type with decidable equality; the
      event planner reads JSON, whose number type is [JsonNumber] with its accessors.
    - The event reducers take [scan_report_location], which decodes a scan report and
      normalises it as a location, assumed to place it in the realm of the scan, and the
      parser of timestamps.  The outcomes of the store calls and of the journal, and the
      pages of the log, are arguments of the pipeline ([World]).
    - The digest of an operation identity ([new_v5]) and the planner of a route are arguments
      of the transport model.
    - The journal takes the decoder of a stored mutation and of an error body as arguments,
      and the answers of the network from the step relation or an [Environment].
    - Clocks and fresh identifiers are arguments of the operations.  An identifier that
      is already in use fails with [Sql], as the primary key does.
    - Integers are [Z] with the ranges of the code checked or saturated where the code
      does so; [InstantRange] gives the instants a platform represents.  An unchecked
      addition of the planners that leaves the range is an error value, as it panics in a
      build with overflow checks.  The theorems on the relay search assume a catalogue
      of fewer than [u32::MAX / 8] stars, below which no cost reaches the infinite one.
    - [prune_loop] has fuel: one more than the number of instances suffices since every
      round but the last deletes one; [prune_terminal_before_correct] proves it returns.
      The expansions of blueprints have one more than the number of blueprints, the search
      of the scheduler's graph ([search_fuel]) one more than its edges, a stream
      its bounds on pages and items; the loops of the relay planner are bounded by the
      vertices and edges of the graph, the masks and the stops: in each case the theorem on the function shows that
      the fuel does not run out.  All other recursions are structural.

    ** What is not modelled

    Opening, migrating and backing up database files, decoding of corrupt rows and lock
    poisoning; the text of shortage diagnostics; telemetry and log lines; the waiting of an
    executor for events ([wait_until]); the workflows that call the repository, which are
    long procedures over the answers of the game; of the managed client accounts,
    inventories and message reads, the connection loop of the event stream, the requests of
    the reconciliation worker and the replay of old projections; of a delivery the loops that
    wait for a device and the handling of attached payload; the summary text of a route
    around; the HTTP endpoints and the user interfaces, whose behaviour is
    input and output. *)

From stdpp Require Export base tactics numbers list sorting strings gmap.
#[global] Open Scope Z_scope.

(** ** Results and transactions *)

(** Rust's [Result<A, E>]. *)
Inductive result (E A : Type) : Type :=
| Ok (a : A)
| Err (e : E).
Arguments Ok {E A} a.
Arguments Err {E A} e.

#[global] Instance result_ret {E} : MRet (result E) := λ A a, Ok a.
#[global] Instance result_bind {E} : MBind (result E) := λ A B f m,
  match m with Ok a => f a | Err e => Err e end.

(** [Option::ok_or]. *)
Definition ok_or {E A} (o : option A) (e : E) : result E A :=
  match o with Some a => Ok a | None => Err e end.

(** A write transaction over a store [S]: a function of the store that either
    commits a value with a new store, or fails with an error. *)
Definition tx (S E A : Type) : Type := S → result E (A * S).

#[global] Instance tx_ret {S E} : MRet (tx S E) := λ A a s, Ok (a, s).
#[global] Instance tx_bind {S E} : MBind (tx S E) := λ A B f m s,
  match m s with Ok (a, s') => f a s' | Err e => Err e end.

Section Tx.
Context {S E : Type}.

Definition get : tx S E S := λ s, Ok (s, s).
Definition gets {A} (f : S → A) : tx S E A := λ s, Ok (f s, s).
Definition modify (f : S → S) : tx S E unit := λ s, Ok (tt, f s).
Definition fail {A} (e : E) : tx S E A := λ _, Err e.
Definition lift {A} (r : result E A) : tx S E A := λ s,
  match r with Ok a => Ok (a, s) | Err e => Err e end.

(** [for x in xs { f(x)?; }] *)
Fixpoint for_each {A} (f : A → tx S E unit) (xs : list A) : tx S E unit :=
  match xs with
  | [] => mret tt
  | x :: xs => _ ← f x; for_each f xs
  end.

(** [xs.iter().map(f).collect::<Result<Vec<_>, _>>()] *)
Fixpoint map_each {A B} (f : A → tx S E B) (xs : list A) : tx S E (list B) :=
  match xs with
  | [] => mret []
  | x :: xs => y ← f x; ys ← map_each f xs; mret (y :: ys)
  end.

(** Loops that thread an accumulator. *)
Fixpoint fold_each {A B} (f : B → A → tx S E B) (acc : B) (xs : list A) : tx S E B :=
  match xs with
  | [] => mret acc
  | x :: xs => acc ← f acc x; fold_each f acc xs
  end.

(** Dropping an uncommitted transaction rolls it back: an operation that
    returns an error leaves the store as it was. *)
Definition run {A} (m : tx S E A) (s : S) : result E A * S :=
  match m s with Ok (a, s') => (Ok a, s') | Err e => (Err e, s) end.
End Tx.

Section TxLemmas.
Context {S E : Type}.
Implicit Types s : S.

Lemma tx_bind_Ok {A B} (m : tx S E A) (k : A → tx S E B) s r :
  (m ≫= k) s = Ok r ↔ ∃ a s', m s = Ok (a, s') ∧ k a s' = Ok r.
Proof.
  unfold mbind, tx_bind. destruct (m s) as [[a s']|e]; naive_solver.
Qed.

Lemma tx_bind_Err {A B} (m : tx S E A) (k : A → tx S E B) s e :
  (m ≫= k) s = Err e ↔ m s = Err e ∨ ∃ a s', m s = Ok (a, s') ∧ k a s' = Err e.
Proof. unfold mbind, tx_bind. destruct (m s) as [[a s']|e']; naive_solver. Qed.

Lemma tx_bind_step {A B} (m : tx S E A) (k : A → tx S E B) s a s' :
  m s = Ok (a, s') → (m ≫= k) s = k a s'.
Proof. unfold mbind, tx_bind. by intros ->. Qed.

Lemma lift_Ok {A} (x : result E A) s a s' :
  lift x s = Ok (a, s') ↔ x = Ok a ∧ s' = s.
Proof. destruct x; unfold lift; naive_solver. Qed.

(** An invariant that every iteration preserves holds after the loop. *)
Lemma for_each_inv {A} (P : S → Prop) (f : A → tx S E unit) xs s u s' :
  (∀ x s u s', x ∈ xs → P s → f x s = Ok (u, s') → P s') →
  P s → for_each f xs s = Ok (u, s') → P s'.
Proof.
  revert s. induction xs as [|x xs IH]; intros s Hf Hs H; simpl in H.
  - unfold mret, tx_ret in H. naive_solver.
  - apply tx_bind_Ok in H as ([]&s1&H1&H2). eapply IH; [|eapply Hf|eassumption].
    + intros; eapply Hf; eauto; by constructor.
    + constructor.
    + done.
    + done.
Qed.

Lemma map_each_inv {A B} (P : S → Prop) (f : A → tx S E B) xs s ys s' :
  (∀ x s y s', x ∈ xs → P s → f x s = Ok (y, s') → P s') →
  P s → map_each f xs s = Ok (ys, s') → P s'.
Proof.
  revert s ys. induction xs as [|x xs IH]; intros s ys Hf Hs H; simpl in H.
  - unfold mret, tx_ret in H. naive_solver.
  - apply tx_bind_Ok in H as (y&s1&H1&H2). apply tx_bind_Ok in H2 as (ys'&s2&H2&H3).
    unfold mret, tx_ret in H3. simplify_eq. eapply IH; [|eapply Hf|eassumption].
    + intros; eapply Hf; eauto; by constructor.
    + constructor.
    + done.
    + done.
Qed.

Lemma fold_each_inv {A B} (P : B → S → Prop) (f : B → A → tx S E B) xs acc s acc' s' :
  (∀ x b s b' s', x ∈ xs → P b s → f b x s = Ok (b', s') → P b' s') →
  P acc s → fold_each f acc xs s = Ok (acc', s') → P acc' s'.
Proof.
  revert acc s. induction xs as [|x xs IH]; intros acc s Hf Hs H; simpl in H.
  - unfold mret, tx_ret in H. naive_solver.
  - apply tx_bind_Ok in H as (b&s1&H1&H2). eapply IH; [|eapply Hf|eassumption].
    + intros; eapply Hf; eauto; by constructor.
    + constructor.
    + done.
    + done.
Qed.

(** A failed operation changes nothing. *)
Lemma run_Err {A} (m : tx S E A) s e s' : run m s = (Err e, s') → s' = s.
Proof. unfold run. destruct (m s) as [[]|]; naive_solver. Qed.
End TxLemmas.

(** ** Relations every committed run satisfies *)

Section Respects.
Context {S E : Type} (R : relation S) `{!PreOrder R}.

(** Whenever [m] commits, the stores before and after are related by [R]. *)
Definition respects {A} (m : tx S E A) : Prop := ∀ s a s', m s = Ok (a, s') → R s s'.

Lemma respects_ret {A} (a : A) : respects (mret a).
Proof. intros s b s'. unfold mret, tx_ret. by intros [= _ <-]. Qed.
Lemma respects_get : respects get.
Proof. intros s b s'. unfold get. by intros [= _ <-]. Qed.
Lemma respects_gets {A} (f : S → A) : respects (gets f).
Proof. intros s b s'. unfold gets. by intros [= _ <-]. Qed.
Lemma respects_fail {A} (e : E) : respects (fail (A := A) e).
Proof. by intros s b s'. Qed.
Lemma respects_lift {A} (r : result E A) : respects (lift r).
Proof. intros s b s' [_ ->]%lift_Ok. done. Qed.
Lemma respects_modify (f : S → S) : (∀ s, R s (f s)) → respects (modify f).
Proof. intros Hf s b s'. unfold modify. by intros [= _ <-]. Qed.
Lemma respects_bind {A B} (m : tx S E A) (k : A → tx S E B) :
  respects m → (∀ a, respects (k a)) → respects (m ≫= k).
Proof. intros Hm Hk s b s' (a&s1&H1&H2)%tx_bind_Ok. etrans; [by eapply Hm|by eapply Hk]. Qed.
Lemma respects_for_each {A} (f : A → tx S E unit) xs :
  (∀ x, respects (f x)) → respects (for_each f xs).
Proof.
  intros Hf. induction xs; simpl; [apply respects_ret|]. apply respects_bind; auto.
Qed.
Lemma respects_map_each {A B} (f : A → tx S E B) xs :
  (∀ x, respects (f x)) → respects (map_each f xs).
Proof.
  intros Hf. induction xs; simpl; [apply respects_ret|].
  apply respects_bind; [done|]. intros. apply respects_bind; [done|]. intros. apply respects_ret.
Qed.
Lemma respects_fold_each {A B} (f : B → A → tx S E B) xs acc :
  (∀ acc x, respects (f acc x)) → respects (fold_each f acc xs).
Proof.
  intros Hf. revert acc. induction xs; intros; simpl; [apply respects_ret|].
  apply respects_bind; auto.
Qed.
End Respects.

(** Proves [respects R m] by the structure of [m]; the leaves are the lemmas of
    the hint database [respects]. *)
Create HintDb respects.
#[export] Hint Resolve respects_ret respects_get respects_gets respects_fail respects_lift
  : respects.
#[export] Hint Extern 0 (PreOrder _) => apply _ : respects.
Ltac respects_step :=
  match goal with
  | |- respects _ (_ ≫= _) => apply respects_bind; [apply _| |intros]
  | |- respects _ (for_each _ _) => apply respects_for_each; [apply _|intros]
  | |- respects _ (map_each _ _) => apply respects_map_each; [apply _|intros]
  | |- respects _ (fold_each _ _ _) => apply respects_fold_each; [apply _|intros]
  | |- respects _ (let '(_, _) := ?p in _) => destruct p
  | |- respects _ (match ?x with _ => _ end) => destruct x
  | |- respects _ _ => solve [eauto with respects]
  end.
Ltac solve_respects := cbv beta zeta; repeat (respects_step; cbv beta zeta).

(** Decomposes every hypothesis that says a transaction committed. *)
Ltac tx_step :=
  match goal with
  | H : (_ ≫= _) _ = Ok _ |- _ =>
      apply tx_bind_Ok in H; destruct H as (?&?&?&H)
  | H : get _ = Ok _ |- _ => unfold get in H; first [injection H as <- <- | simplify_eq]
  | H : gets _ _ = Ok _ |- _ => unfold gets in H; simplify_eq
  | H : modify _ _ = Ok _ |- _ => unfold modify in H; simplify_eq
  | H : fail _ _ = Ok _ |- _ => discriminate H
  | H : lift _ _ = Ok _ |- _ => apply lift_Ok in H; destruct H as [H ->]
  | H : mret _ _ = Ok _ |- _ => unfold mret, tx_ret in H; simplify_eq
  | H : ok_or ?o _ = Ok _ |- _ =>
      destruct o eqn:?; simpl in H; [simplify_eq | discriminate H]
  | H : (if ?b then _ else _) _ = Ok _ |- _ => destruct b eqn:?
  | H : (if ?b then _ else _) = Ok _ |- _ => destruct b eqn:?
  | H : (match ?o with Some _ => _ | None => _ end) _ = Ok _ |- _ => destruct o eqn:?
  | H : (match ?o with Some _ => _ | None => _ end) = Ok _ |- _ => destruct o eqn:?
  | H : (let '(_, _) := ?p in _) _ = Ok _ |- _ => destruct p eqn:?
  | H : Ok _ = Ok _ |- _ => injection H as H
  | H1 : ?a = Ok _, H2 : ?a = Ok _ |- _ => rewrite H1 in H2; injection H2 as H2
  | H : Err _ = Ok _ |- _ => discriminate H
  | H : _ = Ok _ |- _ => progress cbv beta zeta in H
  end.
Ltac tx_inv := repeat tx_step; simplify_eq/=.

(** ** Machine integers *)

Definition i64_min : Z := -9223372036854775808.
Definition i64_max : Z := 9223372036854775807.
Definition u64_max : Z := 18446744073709551615.
Definition u32_max : Z := 4294967295.
Definition usize_max : Z := u64_max.

Definition in_i64 (z : Z) : Prop := i64_min ≤ z ≤ i64_max.
Definition in_u64 (z : Z) : Prop := 0 ≤ z ≤ u64_max.
Definition in_u32 (z : Z) : Prop := 0 ≤ z ≤ u32_max.
#[global] Instance in_i64_dec z : Decision (in_i64 z).
Proof. unfold in_i64. apply _. Defined.
#[global] Instance in_u64_dec z : Decision (in_u64 z).
Proof. unfold in_u64. apply _. Defined.
#[global] Instance in_u32_dec z : Decision (in_u32 z).
Proof. unfold in_u32. apply _. Defined.

Definition clamp_i64 (z : Z) : Z := Z.max i64_min (Z.min i64_max z).
Definition saturating_add_i64 (a b : Z) : Z := clamp_i64 (a + b).
Definition saturating_sub_i64 (a b : Z) : Z := clamp_i64 (a - b).
Definition saturating_mul_i64 (a b : Z) : Z := clamp_i64 (a * b).

(** [i64::try_from(u64)], [u32::try_from(i64)] and the like: [None] out of range. *)
Definition i64_try_from (z : Z) : option Z := if decide (in_i64 z) then Some z else None.
Definition u64_try_from (z : Z) : option Z := if decide (in_u64 z) then Some z else None.
Definition u32_try_from (z : Z) : option Z := if decide (in_u32 z) then Some z else None.

(** [u64::wrapping_mul]. *)
Definition wrapping_mul_u64 (a b : Z) : Z := (a * b) mod 2 ^ 64.

(** The FNV-1a hash of a byte string, as the code writes it out. *)
Definition fnv1a (bytes : list Z) : Z :=
  foldl (λ hash byte, wrapping_mul_u64 (Z.lxor hash byte) 0x100000001b3)
    0xcbf29ce484222325 bytes.

Ltac machine_ints :=
  unfold saturating_add_i64, saturating_sub_i64, saturating_mul_i64, clamp_i64,
    i64_try_from, u64_try_from, u32_try_from, in_i64, in_u64, in_u32,
    i64_min, i64_max, u64_max, u32_max, usize_max in *.

Lemma clamp_i64_in z : in_i64 (clamp_i64 z).
Proof. machine_ints. lia. Qed.
Lemma clamp_i64_id z : in_i64 z → clamp_i64 z = z.
Proof. machine_ints. lia. Qed.
Lemma i64_try_from_Some z v : i64_try_from z = Some v ↔ v = z ∧ in_i64 z.
Proof. unfold i64_try_from. case_decide; naive_solver. Qed.

(** ** Bytes and ASCII *)

(** Rust strings are byte strings here; the ASCII operations act bytewise. *)
Definition ascii_map (f : Z → Z) (c : Ascii.ascii) : Ascii.ascii :=
  Ascii.ascii_of_N (Z.to_N (f (Z.of_N (Ascii.N_of_ascii c)))).
Definition byte_to_upper (b : Z) : Z := if decide (97 ≤ b ≤ 122) then b - 32 else b.
Definition byte_to_lower (b : Z) : Z := if decide (65 ≤ b ≤ 90) then b + 32 else b.

Fixpoint string_map (f : Ascii.ascii → Ascii.ascii) (s : string) : string :=
  match s with
  | EmptyString => EmptyString
  | String.String c s => String.String (f c) (string_map f s)
  end.
Definition to_ascii_uppercase : string → string := string_map (ascii_map byte_to_upper).
Definition to_ascii_lowercase : string → string := string_map (ascii_map byte_to_lower).

(** [str::eq_ignore_ascii_case], and SQLite's [NOCASE] collation. *)
Definition eq_ignore_ascii_case (a b : string) : bool :=
  bool_decide (to_ascii_uppercase a = to_ascii_uppercase b).

Fixpoint all_bytes (p : Z → bool) (s : string) : bool :=
  match s with
  | EmptyString => true
  | String.String c s => p (Z.of_N (Ascii.N_of_ascii c)) && all_bytes p s
  end.

(** [str::strip_prefix]. *)
Fixpoint strip_prefix (prefix s : string) : option string :=
  match prefix, s with
  | EmptyString, _ => Some s
  | String.String a p, String.String b s =>
      if decide (a = b) then strip_prefix p s else None
  | _, EmptyString => None
  end.

Definition str_len (s : string) : Z := Z.of_nat (String.length s).

(** [is_ascii_lowercase() || is_ascii_digit() || b"._-".contains(&byte)] *)
Definition identifier_byte (b : Z) : bool :=
  bool_decide (97 ≤ b ≤ 122) || bool_decide (48 ≤ b ≤ 57)
  || bool_decide (b = 46) || bool_decide (b = 95) || bool_decide (b = 45).

(** ** Tables *)

Section Tables.
Context {K V : Type} `{Countable K}.
Implicit Types (m : gmap K V) (p : K → V → bool).

(** [UPDATE t SET f WHERE p] *)
Definition update_where p (f : V → V) m : gmap K V :=
  map_imap (λ k v, Some (if p k v then f v else v)) m.
(** [DELETE FROM t WHERE p] *)
Definition delete_where p m : gmap K V :=
  map_imap (λ k v, if p k v then None else Some v) m.
(** [SELECT * FROM t WHERE p], in an order that is not specified. *)
Definition select p m : list (K * V) :=
  filter (λ kv, p kv.1 kv.2 = true) (map_to_list m).
(** The number of rows a statement affects. *)
Definition count p m : Z := Z.of_nat (length (select p m)).
(** [EXISTS (SELECT 1 FROM t WHERE p)] *)
Definition exists_row p m : bool :=
  match select p m with [] => false | _ => true end.

Lemma lookup_update_where p f m k :
  update_where p f m !! k = (λ v, if p k v then f v else v) <$> m !! k.
Proof. unfold update_where. rewrite map_lookup_imap. by destruct (m !! k). Qed.

Lemma lookup_delete_where p m k :
  delete_where p m !! k = (v ← m !! k; if p k v then None else Some v).
Proof. unfold delete_where. by rewrite map_lookup_imap. Qed.

Lemma lookup_update_where_Some p f m k v :
  update_where p f m !! k = Some v ↔
  ∃ v0, m !! k = Some v0 ∧ v = if p k v0 then f v0 else v0.
Proof.
  rewrite lookup_update_where, fmap_Some. split; intros (v0&?&?); exists v0; naive_solver.
Qed.

Lemma lookup_delete_where_Some p m k v :
  delete_where p m !! k = Some v ↔ m !! k = Some v ∧ p k v = false.
Proof.
  rewrite lookup_delete_where. destruct (m !! k) as [v0|]; simpl; [|naive_solver].
  destruct (p k v0) eqn:Hp; split.
  - done.
  - intros [? ?]. simplify_eq. congruence.
  - by intros [= ->].
  - by intros [[= ->] _].
Qed.

Lemma elem_of_select p m k v :
  (k, v) ∈ select p m ↔ m !! k = Some v ∧ p k v = true.
Proof.
  unfold select. rewrite list_elem_of_filter, elem_of_map_to_list. simpl. tauto.
Qed.

Lemma exists_row_true p m :
  exists_row p m = true ↔ ∃ k v, m !! k = Some v ∧ p k v = true.
Proof.
  unfold exists_row. split.
  - destruct (select p m) as [|[k v] l] eqn:E; [done|]. intros _.
    exists k, v. apply elem_of_select. rewrite E. by left.
  - intros (k&v&Hk). apply elem_of_select in Hk. destruct (select p m); [|done].
    by apply elem_of_nil in Hk.
Qed.

Lemma exists_row_false p m :
  exists_row p m = false ↔ ∀ k v, m !! k = Some v → p k v = false.
Proof.
  split.
  - intros Hf k v Hk. destruct (p k v) eqn:Hp; [|done].
    assert (exists_row p m = true) by (apply exists_row_true; eauto). congruence.
  - intros Hall. destruct (exists_row p m) eqn:Hx; [|done].
    apply exists_row_true in Hx as (k&v&Hk&Hp). rewrite (Hall k v Hk) in Hp. done.
Qed.

Lemma dom_update_where p f m : dom (update_where p f m) = dom m.
Proof.
  apply set_eq. intros k. rewrite !elem_of_dom, lookup_update_where.
  by rewrite fmap_is_Some.
Qed.

Lemma update_where_none p f m :
  (∀ k v, m !! k = Some v → p k v = false) → update_where p f m = m.
Proof.
  intros Hp. apply map_eq. intros k. rewrite lookup_update_where.
  destruct (m !! k) eqn:E; simpl; [|done]. by rewrite (Hp _ _ E).
Qed.

Lemma delete_where_none p m :
  (∀ k v, m !! k = Some v → p k v = false) → delete_where p m = m.
Proof.
  intros Hp. apply map_eq. intros k. rewrite lookup_delete_where.
  destruct (m !! k) eqn:E; simpl; [|done]. by rewrite (Hp _ _ E).
Qed.

Lemma count_0 p m :
  count p m = 0 ↔ ∀ k v, m !! k = Some v → p k v = false.
Proof.
  rewrite <-exists_row_false. unfold count, exists_row.
  destruct (select p m); simpl; split; try done; lia.
Qed.
End Tables.

(** ** Sums over tables *)

Section MapSum.
Context `{Countable K} {A : Type}.
Implicit Types (f g : K → A → Z) (m : gmap K A).

Definition map_sum f m : Z := map_fold (λ k a acc, f k a + acc) 0 m.

Lemma map_sum_empty f : map_sum f ∅ = 0.
Proof. done. Qed.

Lemma map_sum_insert f m k a :
  m !! k = None → map_sum f (<[k := a]> m) = f k a + map_sum f m.
Proof.
  intros Hk. apply (map_fold_insert_L (λ k a acc, f k a + acc) 0 k a m); [intros; lia|done].
Qed.

Lemma map_sum_update f m k a :
  map_sum f (<[k := a]> m) = map_sum f m + f k a - from_option (f k) 0 (m !! k).
Proof.
  destruct (m !! k) as [b|] eqn:E; simpl; [|rewrite map_sum_insert by done; lia].
  rewrite <-(insert_delete_id _ _ _ E) at 2. rewrite <-insert_delete_eq.
  rewrite !map_sum_insert by apply lookup_delete_eq. lia.
Qed.

Lemma map_sum_ext f g m :
  (∀ k a, m !! k = Some a → f k a = g k a) → map_sum f m = map_sum g m.
Proof.
  induction m as [|k a m Hk IH] using map_ind; intros Hfg; [done|].
  rewrite !map_sum_insert, IH by
    (try done; intros k' a' ?; apply Hfg; by rewrite lookup_insert_ne by congruence).
  f_equal. apply Hfg. by rewrite lookup_insert_eq.
Qed.

Lemma map_sum_nonneg f m : (∀ k a, m !! k = Some a → 0 ≤ f k a) → 0 ≤ map_sum f m.
Proof.
  induction m as [|k a m Hk IH] using map_ind; intros Hf; [done|].
  rewrite map_sum_insert by done. apply Z.add_nonneg_nonneg.
  - apply Hf. by rewrite lookup_insert_eq.
  - apply IH. intros k' a' ?. apply Hf. by rewrite lookup_insert_ne by congruence.
Qed.

Lemma map_sum_list f m :
  map_sum f m = foldr Z.add 0 (uncurry f <$> map_to_list m).
Proof.
  unfold map_sum. rewrite map_fold_foldr.
  induction (map_to_list m) as [|[k a] l IH]; [done|]. simpl. by rewrite IH.
Qed.
End MapSum.

Lemma sum_list_perm (l1 l2 : list Z) : l1 ≡ₚ l2 → foldr Z.add 0 l1 = foldr Z.add 0 l2.
Proof. intros Hp. apply foldr_permutation; [apply _..|intros; lia|done]. Qed.

(** ** Orders *)

(** [ORDER BY a, b] on text columns: byte order, then the next column. *)
Definition str_pair_leb (a b : string * string) : bool :=
  String.ltb a.1 b.1 || (bool_decide (a.1 = b.1) && String.leb a.2 b.2).

(** A stable sort by a boolean order: Rust's [sort_by] and SQL's [ORDER BY]. *)
Definition sort_by {A} (leb : A → A → bool) : list A → list A :=
  @merge_sort A (λ x y, leb x y = true) (λ x y, bool_eq_dec (leb x y) true).

Lemma sort_by_perm {A} (leb : A → A → bool) l : sort_by leb l ≡ₚ l.
Proof. apply merge_sort_Permutation. Qed.

Lemma elem_of_sort_by {A} (leb : A → A → bool) l x : x ∈ sort_by leb l ↔ x ∈ l.
Proof. by rewrite sort_by_perm. Qed.

Lemma Sorted_sort_by {A} (leb : A → A → bool) l :
  (∀ x y, leb x y = true ∨ leb y x = true) →
  Sorted (λ x y, leb x y = true) (sort_by leb l).
Proof.
  intros Htot. assert (Total (λ x y, leb x y = true)) by exact Htot.
  by apply Sorted_merge_sort.
Qed.

(** Boolean total orders, as the sorts use them. *)
Class TotalLeb {A} (leb : A → A → bool) := {
  leb_total : ∀ x y, leb x y = true ∨ leb y x = true;
  leb_trans : ∀ x y z, leb x y = true → leb y z = true → leb x z = true;
}.
Class AntisymLeb {A} (leb : A → A → bool) :=
  leb_antisym : ∀ x y, leb x y = true → leb y x = true → x = y.

#[global] Instance string_leb_total : TotalLeb String.leb.
Proof.
  split; [apply String.leb_total|]. intros x y z Hxy Hyz.
  apply Is_true_true. transitivity y; by apply Is_true_true.
Qed.
#[global] Instance string_leb_antisym : AntisymLeb String.leb.
Proof. intros x y. apply String.leb_antisym. Qed.
#[global] Instance N_leb_total : TotalLeb N.leb.
Proof. split; intros; rewrite ?N.leb_le in *; lia. Qed.

Lemma string_ltb_leb a b : String.ltb a b = negb (String.leb b a).
Proof. unfold String.ltb, String.leb. rewrite String.compare_antisym. by destruct (b ?= a)%string. Qed.

Lemma str_pair_leb_spec a b :
  str_pair_leb a b = true ↔
  (String.leb a.1 b.1 = true ∧ (a.1 = b.1 → String.leb a.2 b.2 = true)).
Proof.
  unfold str_pair_leb. rewrite orb_true_iff, andb_true_iff, bool_decide_eq_true, string_ltb_leb.
  destruct (String.leb b.1 a.1) eqn:E; simpl; split.
  - intros [|[-> ?]]; [done|]. by destruct (leb_total b.1 b.1).
  - intros [Hl Hk]. right. assert (a.1 = b.1) by by apply leb_antisym. auto.
  - intros _. destruct (leb_total a.1 b.1) as [Hl|Hl]; [|congruence]. split; [done|].
    intros Heq. rewrite Heq in *. congruence.
  - by left.
Qed.

#[global] Instance str_pair_leb_total : TotalLeb str_pair_leb.
Proof.
  split.
  - intros [a1 a2] [b1 b2]. rewrite !str_pair_leb_spec; simpl.
    destruct (decide (a1 = b1)) as [->|].
    + destruct (leb_total a2 b2), (leb_total b1 b1); auto.
    + destruct (leb_total a1 b1); [left|right]; split; congruence.
  - intros [a1 a2] [b1 b2] [c1 c2]. rewrite !str_pair_leb_spec; simpl. intros [H1 K1] [H2 K2].
    split; [by eapply leb_trans|]. intros ->. assert (c1 = b1) as -> by by apply leb_antisym.
    eapply leb_trans; eauto.
Qed.
#[global] Instance str_pair_leb_antisym : AntisymLeb str_pair_leb.
Proof.
  intros [a1 a2] [b1 b2]. rewrite !str_pair_leb_spec; simpl. intros [H1 K1] [H2 K2].
  assert (a1 = b1) as -> by by apply leb_antisym. f_equal. apply leb_antisym; auto.
Qed.

(** Ordering by a key, then by a second order. *)
Lemma lex_leb_total {A K} `{EqDecision K} (f : A → K) (leb1 : K → K → bool)
    (leb2 : A → A → bool) :
  TotalLeb leb1 → AntisymLeb leb1 → TotalLeb leb2 →
  TotalLeb (λ a b, if decide (f a = f b) then leb2 a b else leb1 (f a) (f b)).
Proof.
  intros T1 A1 T2. split.
  - intros x y. destruct (decide (f x = f y)), (decide (f y = f x)); try congruence;
      apply leb_total.
  - intros x y z. destruct (decide (f x = f y)) as [E|N], (decide (f y = f z)) as [E'|N'],
      (decide (f x = f z)) as [E''|N'']; try congruence; intros H1 H2.
    + by eapply leb_trans.
    + rewrite E'' in H1. by destruct N'; apply leb_antisym.
    + by eapply leb_trans.
Qed.

(** [ORDER BY ... LIMIT 1] finds the least row. *)
Lemma head_sort_by_elem {A} (leb : A → A → bool) l x :
  head (sort_by leb l) = Some x → x ∈ l.
Proof.
  intros Hx. apply (elem_of_sort_by leb). destruct (sort_by leb l); simplify_eq/=. by left.
Qed.

Lemma StronglySorted_sort_by {A} (leb : A → A → bool) `{!TotalLeb leb} l :
  StronglySorted (λ x y, leb x y = true) (sort_by leb l).
Proof.
  assert (Transitive (λ x y, leb x y = true)) by exact leb_trans.
  apply Sorted_StronglySorted; [done|]. apply Sorted_sort_by, leb_total.
Qed.

Lemma head_sort_by_least {A} (leb : A → A → bool) `{!TotalLeb leb} l x :
  head (sort_by leb l) = Some x → ∀ y, y ∈ l → leb x y = true.
Proof.
  intros Hx y Hy. apply (elem_of_sort_by leb) in Hy.
  assert (Hs := StronglySorted_sort_by leb l).
  destruct (sort_by leb l) as [|z l']; simplify_eq/=.
  apply StronglySorted_inv in Hs as [_ Hall].
  apply elem_of_cons in Hy as [->|Hy].
  - by destruct (leb_total x x).
  - rewrite Forall_forall in Hall. by apply Hall.
Qed.

Lemma head_sort_by_None {A} (leb : A → A → bool) l : head (sort_by leb l) = None → l = [].
Proof.
  intros Hx. apply Permutation_nil_r. rewrite <-(sort_by_perm leb l).
  by destruct (sort_by leb l).
Qed.

(** [Iterator::min_by]: the first of the least elements. *)
Definition min_by {A} (leb : A → A → bool) (l : list A) : option A :=
  foldl (λ best x, match best with
    | None => Some x
    | Some y => if leb y x then Some y else Some x
    end) None l.

Lemma min_by_from {A} (leb : A → A → bool) `{!TotalLeb leb} y l :
  ∃ x, foldl (λ best x, match best with
      | None => Some x
      | Some y => if leb y x then Some y else Some x
      end) (Some y) l = Some x ∧ x ∈ y :: l ∧ ∀ z, z ∈ y :: l → leb x z = true.
Proof.
  revert y. induction l as [|a l IH]; intros y; cbn [foldl].
  { exists y. split_and!; [done|by left|]. intros z ->%list_elem_of_singleton.
    by destruct (leb_total y y). }
  destruct (leb y a) eqn:E.
  - destruct (IH y) as (x&->&Hx&Hmin). exists x. split_and!; [done|set_solver|].
    assert (leb x a = true) by (eapply leb_trans; [apply Hmin; by left|done]). set_solver.
  - destruct (IH a) as (x&->&Hx&Hmin). exists x. split_and!; [done|set_solver|].
    assert (leb a y = true) by (by destruct (leb_total y a); congruence).
    assert (leb x y = true) by (eapply leb_trans; [apply Hmin; by left|done]). set_solver.
Qed.

Lemma min_by_spec {A} (leb : A → A → bool) `{!TotalLeb leb} l :
  match min_by leb l with
  | Some x => x ∈ l ∧ ∀ z, z ∈ l → leb x z = true
  | None => l = []
  end.
Proof.
  destruct l as [|y l]; [done|]. unfold min_by. cbn [foldl].
  by destruct (min_by_from leb y l) as (x&->&?&?).
Qed.

(** The row order of a query without [ORDER BY] is not specified: it is a
    parameter of the model, of which only the law that it permutes the rows is
    used. *)
Class RowOrder := {
  row_order : ∀ {A : Type}, list A → list A;
  row_order_perm : ∀ {A : Type} (l : list A), row_order l ≡ₚ l;
}.

(** The order of the key-value map, a possible instance. *)
Definition table_order : RowOrder.
Proof. refine {| row_order := λ A l, l |}. done. Defined.

Section RowOrder.
Context `{RO : RowOrder}.

Lemma elem_of_row_order {A} (l : list A) x : x ∈ row_order l ↔ x ∈ l.
Proof. by rewrite row_order_perm. Qed.

Lemma row_order_nil {A} : row_order ([] : list A) = [].
Proof. apply Permutation_nil_r, row_order_perm. Qed.

(** [SELECT ... LIMIT 1] *)
Definition limit_1 {A} (l : list A) : option A := head (row_order l).

Lemma limit_1_Some {A} (l : list A) x : limit_1 l = Some x → x ∈ l.
Proof.
  unfold limit_1. intros Hx. apply elem_of_row_order.
  destruct (row_order l); simplify_eq/=. by left.
Qed.

Lemma limit_1_None {A} (l : list A) : limit_1 l = None ↔ l = [].
Proof.
  unfold limit_1. split.
  - intros Hx. apply Permutation_nil_r. rewrite <-(row_order_perm l).
    by destruct (row_order l).
  - intros ->. by rewrite row_order_nil.
Qed.
End RowOrder.

Create HintDb replicant.
#[export] Hint Resolve clamp_i64_in : replicant.
Create Rewrite HintDb tables.
#[export] Hint Rewrite @lookup_update_where @lookup_delete_where : tables.
