(* ===== verification/Float64.v ===== *)
(** * IEEE 754 double precision values

    Rust's [f64] as the Standard Library's specification floats (precision 53,
    exponent bound 1024), which compute.  The operations are the ones the
    planners use: arithmetic with [sqrt], [abs] and [floor], the numeric comparisons, [max], [is_finite],
    [partial_cmp], [total_cmp] and the conversions from and to integers.  The specification
    floats have one (positive) NaN, so the NaNs of one sign and payload stand for all. *)

From S2P Require Import Prelude.
From Stdlib Require Import SpecFloat.

Module F64.

Definition t : Type := spec_float.

Definition zero : t := S754_zero false.
Definition negative_zero : t := S754_zero true.
Definition add : t → t → t := SFadd 53 1024.

Definition sub : t → t → t := SFsub 53 1024.
Definition mul : t → t → t := SFmul 53 1024.
Definition div : t → t → t := SFdiv 53 1024.
Definition sqrt : t → t := SFsqrt 53 1024.
Definition abs : t → t := SFabs.
Definition infinity : t := S754_infinity false.

(** [z as f64]: the nearest value. *)
Definition of_Z (z : Z) : t := binary_normalize 53 1024 z 0 false.

(** [x.round() as i64] before saturation: the nearest integer, halves away from zero. *)
Definition round_magnitude (m e : Z) : Z :=
  if decide (0 ≤ e) then m * 2 ^ e else (m + 2 ^ (- e - 1)) / 2 ^ (- e).
Definition round_Z (x : t) : Z :=
  match x with
  | S754_finite s m e =>
      let r := round_magnitude (Zpos m) e in if s then - r else r
  | S754_infinity s => if s then i64_min else i64_max
  | _ => 0
  end.

(** [x.floor() as i64]: saturating, and 0 for NaN. *)
Definition floor_i64 (x : t) : Z :=
  match x with
  | S754_finite s m e =>
      let z := if s then Zneg m else Zpos m in
      clamp_i64 (if decide (0 ≤ e) then z * 2 ^ e else z / 2 ^ (- e))
  | S754_infinity s => if s then i64_min else i64_max
  | _ => 0
  end.

Definition is_nan (x : t) : bool := match x with S754_nan => true | _ => false end.
Definition is_finite (x : t) : bool :=
  match x with S754_nan | S754_infinity _ => false | _ => true end.

(** [<=], [<] and [>=] on [f64]: false when an operand is NaN. *)
Definition leb (x y : t) : bool := SFleb x y.
Definition ltb (x y : t) : bool := SFltb x y.
Definition geb (x y : t) : bool := SFleb y x.
Definition eqb (x y : t) : bool := SFeqb x y.

(** [f64::partial_cmp]: [None] when an operand is NaN. *)
Definition partial_cmp (x y : t) : option comparison := SFcompare x y.

(** [f64::max]: the other operand when one is NaN. *)
Definition max (x y : t) : t :=
  if is_nan x then y else if is_nan y then x else if ltb x y then y else x.

(** [f64::total_cmp] orders negative infinity, the negative values, both zeros,
    the positive values, positive infinity and NaN. *)
Definition rank (x : t) : Z * Z * Z :=
  match x with
  | S754_infinity true => (-2, 0, 0)
  | S754_finite true m e => (-1, -e, Zneg m)
  | S754_zero true => (0, 0, 0)
  | S754_zero false => (1, 0, 0)
  | S754_finite false m e => (2, e, Zpos m)
  | S754_infinity false => (3, 0, 0)
  | S754_nan => (4, 0, 0)
  end.

Definition rank_leb (a b : Z * Z * Z) : bool :=
  let '(a1, a2, a3) := a in
  let '(b1, b2, b3) := b in
  (a1 <? b1) || ((a1 =? b1) && ((a2 <? b2) || ((a2 =? b2) && (a3 <=? b3)))).

(** [left.total_cmp(right) != Greater] *)
Definition total_leb (x y : t) : bool := rank_leb (rank x) (rank y).
Definition total_le (x y : t) : Prop := total_leb x y = true.

#[global] Instance t_eq_dec : EqDecision t.
Proof. solve_decision. Defined.
#[global] Instance total_le_dec : RelDecision total_le.
Proof. intros x y. unfold total_le. apply _. Defined.

Lemma rank_inj : Inj (=) (=) rank.
Proof. intros [[]|[]| |[]] [[]|[]| |[]]; simpl; intros [=]; subst; f_equal; lia. Qed.

Lemma rank_leb_spec a1 a2 a3 b1 b2 b3 :
  rank_leb (a1, a2, a3) (b1, b2, b3) = true ↔
  a1 < b1 ∨ (a1 = b1 ∧ (a2 < b2 ∨ (a2 = b2 ∧ a3 ≤ b3))).
Proof. unfold rank_leb. lia. Qed.

#[global] Instance total_le_total : Total total_le.
Proof.
  intros x y. unfold total_le, total_leb.
  destruct (rank x) as [[a1 a2] a3], (rank y) as [[b1 b2] b3].
  rewrite !rank_leb_spec. lia.
Qed.

#[global] Instance total_le_po : PartialOrder total_le.
Proof.
  unfold total_le, total_leb. repeat split.
  - intros x. destruct (rank x) as [[a1 a2] a3]. rewrite rank_leb_spec. lia.
  - intros x y z. destruct (rank x) as [[a1 a2] a3], (rank y) as [[b1 b2] b3],
      (rank z) as [[c1 c2] c3]. rewrite !rank_leb_spec. lia.
  - intros x y Hxy Hyx. apply rank_inj. revert Hxy Hyx.
    destruct (rank x) as [[a1 a2] a3], (rank y) as [[b1 b2] b3].
    rewrite !rank_leb_spec. intros. repeat f_equal; lia.
Qed.

Lemma total_leb_false x y : total_leb x y = false → total_le y x.
Proof.
  intros Hf. destruct (total_le_total x y) as [Hl|]; [|done].
  unfold total_le in Hl. congruence.
Qed.

(** The numeric order as an order of integers: as [rank], with the zeros equal. *)
Definition key (x : t) : Z * Z * Z := match x with S754_zero _ => (0, 0, 0) | _ => rank x end.
Definition key_lt (a b : Z * Z * Z) : Prop :=
  a.1.1 < b.1.1 ∨ (a.1.1 = b.1.1 ∧ (a.1.2 < b.1.2 ∨ (a.1.2 = b.1.2 ∧ a.2 < b.2))).

Lemma key_lt_trichotomy a b : key_lt a b ∨ a = b ∨ key_lt b a.
Proof.
  destruct a as [[a1 a2] a3], b as [[b1 b2] b3]. unfold key_lt. simpl.
  destruct (decide (a1 = b1)), (decide (a2 = b2)), (decide (a3 = b3)); subst; try lia. auto.
Qed.
Lemma key_lt_trans a b c : key_lt a b → key_lt b c → key_lt a c.
Proof. unfold key_lt. lia. Qed.
Lemma key_lt_irrefl a : ¬ key_lt a a.
Proof. unfold key_lt. lia. Qed.

Lemma partial_cmp_key x y :
  is_nan x = false → is_nan y = false →
  match partial_cmp x y with
  | Some Lt => key_lt (key x) (key y)
  | Some Eq => key x = key y
  | Some Gt => key_lt (key y) (key x)
  | None => False
  end.
Proof.
  unfold partial_cmp, key, key_lt.
  destruct x as [[]|[]| |[] m e], y as [[]|[]| |[] m' e']; simpl; try done; intros _ _; try lia;
    destruct (Z.compare_spec e e'); subst; simpl; try lia;
    change (Pos.compare_cont Eq m m') with (Pos.compare m m');
    destruct (Pos.compare_spec m m'); subst; simpl; try lia; done.
Qed.

Lemma partial_cmp_swap x y : partial_cmp x y = CompOpp <$> partial_cmp y x.
Proof.
  unfold partial_cmp. destruct x as [[]|[]| |[] m e], y as [[]|[]| |[] m' e']; simpl; try done;
    rewrite (Z.compare_antisym e' e); destruct (e' ?= e); simpl; try done;
    change (Pos.compare_cont Eq m m') with (Pos.compare m m');
    change (Pos.compare_cont Eq m' m) with (Pos.compare m' m);
    rewrite (Pos.compare_antisym m' m); by destruct (Pos.compare m' m).
Qed.

Lemma ltb_key x y :
  is_nan x = false → is_nan y = false → ltb x y = true ↔ key_lt (key x) (key y).
Proof.
  intros Hx Hy. pose proof (partial_cmp_key x y Hx Hy) as Hc.
  unfold ltb, SFltb. fold (partial_cmp x y).
  destruct (partial_cmp x y) as [[]|]; [..|done]; split; try done.
  - rewrite Hc. by intros ?%key_lt_irrefl.
  - intros Hl. destruct (key_lt_irrefl (key x)). by eapply key_lt_trans.
Qed.

End F64.

(** ** [total_cmp] as an order to sort by *)

#[global] Instance total_leb_total : TotalLeb F64.total_leb.
Proof.
  split.
  - intros x y. exact (F64.total_le_total x y).
  - intros x y z. exact (PreOrder_Transitive (R := F64.total_le) x y z).
Qed.
#[global] Instance total_leb_antisym : AntisymLeb F64.total_leb.
Proof. intros x y Hxy Hyx. by apply (anti_symm F64.total_le). Qed.

(** Descending. *)
Lemma flip_leb_total {A} (leb : A → A → bool) : TotalLeb leb → TotalLeb (flip leb).
Proof.
  intros H. split; unfold flip; intros.
  - apply leb_total.
  - by eapply leb_trans.
Qed.
#[global] Instance Z_leb_total : TotalLeb Z.leb.
Proof. split; intros; rewrite ?Z.leb_le in *; lia. Qed.
#[global] Instance Z_leb_antisym : AntisymLeb Z.leb.
Proof. intros x y. rewrite !Z.leb_le. lia. Qed.
