(* ===== verification/Model.v ===== *)
(** * Workflow data model

    The types of [crates/replicant-workflow/src/model.rs], [work.rs],
    [allocation.rs] and [target.rs], the repository's error type, and the pure
    operations on them: the lifecycle status machine, the persisted names of the
    statuses, and the identity of exclusive resources.  A UUID is its 128-bit
    number, whose order is the order of its fixed-width text.  JSON values and
    their codec are the [Serde] parameter. *)

From S2P Require Import Prelude Float64.

(** ** Identifiers *)

Abbreviation WorkflowId := N (only parsing).
Abbreviation WorkItemId := N (only parsing).
Abbreviation AllocationId := N (only parsing).
Abbreviation TriggerId := N (only parsing).

(** ** Lifecycle statuses *)

Inductive WorkflowStatus :=
| Queued | Running | Waiting | Paused | Reconciling | Succeeded | Failed | Cancelled.
#[global] Instance WorkflowStatus_eq : EqDecision WorkflowStatus.
Proof. solve_decision. Defined.

Inductive WorkflowFailureDisposition := Retryable | Permanent.
#[global] Instance WorkflowFailureDisposition_eq : EqDecision WorkflowFailureDisposition.
Proof. solve_decision. Defined.

Module WorkItemStatus.
Inductive t :=
| Pending | Assigned | Running | Waiting | Succeeded | Skipped | Failed | Abandoned.
#[global] Instance eq : EqDecision t.
Proof. solve_decision. Defined.

Definition is_terminal (s : t) : bool :=
  match s with Succeeded | Skipped | Failed | Abandoned => true | _ => false end.

Definition as_str (s : t) : string :=
  match s with
  | Pending => "pending" | Assigned => "assigned" | Running => "running"
  | Waiting => "waiting" | Succeeded => "succeeded" | Skipped => "skipped"
  | Failed => "failed" | Abandoned => "abandoned"
  end.
End WorkItemStatus.

Module WorkItemAttemptOutcome.
Inductive t := Succeeded | Failed | Reclaimed | Cancelled.
#[global] Instance eq : EqDecision t.
Proof. solve_decision. Defined.

Definition as_str (o : t) : string :=
  match o with
  | Succeeded => "succeeded" | Failed => "failed"
  | Reclaimed => "reclaimed" | Cancelled => "cancelled"
  end.
End WorkItemAttemptOutcome.

Module WorkflowStatus.
Definition is_terminal (s : WorkflowStatus) : bool :=
  match s with Succeeded | Failed | Cancelled => true | _ => false end.

Definition can_transition_to (self next : WorkflowStatus) : bool :=
  bool_decide (self = next) ||
  match self, next with
  | Queued, (Running | Paused | Failed | Cancelled) => true
  | Running, (Waiting | Paused | Reconciling | Succeeded | Failed | Cancelled) => true
  | Waiting, (Running | Paused | Reconciling | Failed | Cancelled) => true
  | Paused, (Running | Reconciling | Cancelled) => true
  | Reconciling, (Running | Waiting | Paused | Succeeded | Failed | Cancelled) => true
  | _, _ => false
  end.

Definition as_str (s : WorkflowStatus) : string :=
  match s with
  | Queued => "queued" | Running => "running" | Waiting => "waiting"
  | Paused => "paused" | Reconciling => "reconciling" | Succeeded => "succeeded"
  | Failed => "failed" | Cancelled => "cancelled"
  end.
End WorkflowStatus.

(** ** Resources *)

Inductive ResourceKey :=
| Replicant (key : string)
| Device (key : string)
| Autofactory (key : string)
| Namespaced (namespace key : string).
#[global] Instance ResourceKey_eq : EqDecision ResourceKey.
Proof. solve_decision. Defined.

(** ** Repository errors *)

Inductive RepositoryError :=
| Sql
| Io
| Serialization
| Compatibility (message : string)
| ReserveUnavailable (minimum : Z)
| InvalidKind (value : string)
| InvalidResourceKey (resource : ResourceKey)
| InvalidWorkflowTarget (kind key : string)
| InvalidStoredStatus (value : string)
| InvalidStoredFailureDisposition (value : string)
| InvalidStoredId (value : string)
| InvalidStoredTriggerId (value : string)
| InvalidStoredRevision (value : Z)
| InvalidStoredWorkItemId (value : string)
| InvalidStoredWorkItemStatus (value : string)
| InvalidStoredWorkItemAttemptOutcome (value : string)
| InvalidStoredWorkItemRevision (value : Z)
| InvalidStoredWorkItemCount (field : string) (value : Z)
| InvalidWorkflowSchemaVersion
| UnsupportedDatabaseSchema (found supported : Z)
| InvalidMigrationHistory (versions : list Z)
| DatabaseIntegrity (message : string)
| NotFound (id : WorkflowId)
| WorkItemNotFound (id : WorkItemId)
| TerminalWorkItemOwner (id : WorkflowId)
| WorkItemSpecConflict (workflow_id : WorkflowId) (dedupe_key : string)
| ConcurrentWorkItemUpdate (id : WorkItemId) (expected : Z)
| InvalidWorkItemTransition (from to : WorkItemStatus.t)
| AllocationShortage (requirement_key : string) (missing_count : Z)
| InvalidWorkItemAssignment (message : string)
| TerminalClaimOwner (workflow_id : WorkflowId)
| ClaimConflict (resource : ResourceKey) (owner : WorkflowId)
| InvalidTransition (from to : WorkflowStatus)
| ConcurrentUpdate (id : WorkflowId) (expected : Z)
| TriggerNotFound (id : TriggerId)
| ConcurrentTriggerUpdate (id : TriggerId) (expected : Z)
| RevisionOutOfRange (revision : Z)
| Clock
| LockPoisoned.

Abbreviation res := (result RepositoryError).

(** ** Parsing what the tables store *)

Definition WorkflowStatus_from_str (value : string) : res WorkflowStatus :=
  if decide (value = "queued") then Ok Queued
  else if decide (value = "running") then Ok Running
  else if decide (value = "waiting") then Ok Waiting
  else if decide (value = "paused") then Ok Paused
  else if decide (value = "reconciling") then Ok Reconciling
  else if decide (value = "succeeded") then Ok Succeeded
  else if decide (value = "failed") then Ok Failed
  else if decide (value = "cancelled") then Ok Cancelled
  else Err (InvalidStoredStatus value).

Definition WorkflowFailureDisposition_as_str (d : WorkflowFailureDisposition) : string :=
  match d with Retryable => "retryable" | Permanent => "permanent" end.

Definition WorkflowFailureDisposition_from_str (value : string)
    : res WorkflowFailureDisposition :=
  if decide (value = "retryable") then Ok Retryable
  else if decide (value = "permanent") then Ok Permanent
  else Err (InvalidStoredFailureDisposition value).

Definition parse_work_item_status (value : string) : res WorkItemStatus.t :=
  if decide (value = "pending") then Ok WorkItemStatus.Pending
  else if decide (value = "assigned") then Ok WorkItemStatus.Assigned
  else if decide (value = "running") then Ok WorkItemStatus.Running
  else if decide (value = "waiting") then Ok WorkItemStatus.Waiting
  else if decide (value = "succeeded") then Ok WorkItemStatus.Succeeded
  else if decide (value = "skipped") then Ok WorkItemStatus.Skipped
  else if decide (value = "failed") then Ok WorkItemStatus.Failed
  else if decide (value = "abandoned") then Ok WorkItemStatus.Abandoned
  else Err (InvalidStoredWorkItemStatus value).

Definition parse_work_item_attempt_outcome (value : string)
    : res WorkItemAttemptOutcome.t :=
  if decide (value = "succeeded") then Ok WorkItemAttemptOutcome.Succeeded
  else if decide (value = "failed") then Ok WorkItemAttemptOutcome.Failed
  else if decide (value = "reclaimed") then Ok WorkItemAttemptOutcome.Reclaimed
  else if decide (value = "cancelled") then Ok WorkItemAttemptOutcome.Cancelled
  else Err (InvalidStoredWorkItemAttemptOutcome value).

(** ** Validated names *)

(** The shared shape test of workflow kinds, namespaces and target kinds. *)
Definition identifier_ok (value : string) : bool :=
  negb (bool_decide (value = "")) && bool_decide (str_len value ≤ 128)
  && all_bytes identifier_byte value.

(** [WorkflowKind::new]. *)
Definition WorkflowKind_new (value : string) : res string :=
  if bool_decide (value = "") || bool_decide (str_len value > 128)
     || negb (all_bytes identifier_byte value)
  then Err (InvalidKind value)
  else Ok value.

(** [ResourceKey::persisted_parts]: the namespace and key columns of a resource. *)
Definition persisted_parts (self : ResourceKey) : res (string * string) :=
  parts ← match self with
          | Replicant key => Ok ("replicant", key)
          | Device key => Ok ("device", key)
          | Autofactory key => Ok ("autofactory", key)
          | Namespaced namespace key =>
              if bool_decide (namespace = "") || bool_decide (str_len namespace > 128)
                 || negb (all_bytes identifier_byte namespace)
              then Err (InvalidResourceKey self)
              else Ok ("custom:" +:+ namespace, key)
          end;
  let '(namespace, key) := parts in
  if bool_decide (key = "") || bool_decide (str_len key > 256)
  then Err (InvalidResourceKey self)
  else Ok (namespace, key).

(** [resource_key]: the resource two columns denote. *)
Definition resource_key (namespace key : string) : ResourceKey :=
  if decide (namespace = "replicant") then Replicant key
  else if decide (namespace = "device") then Device key
  else if decide (namespace = "autofactory") then Autofactory key
  else Namespaced (default namespace (strip_prefix "custom:" namespace)) key.

Definition is_exclusive_namespace (namespace : string) : bool :=
  bool_decide (namespace = "replicant") || bool_decide (namespace = "device")
  || bool_decide (namespace = "autofactory").

Definition resource_identity_key (resource : ResourceKey) : string :=
  match resource with
  | Replicant key | Device key | Autofactory key => key
  | Namespaced _ key => key
  end.

(** ** Requirements and candidates *)

Inductive RequirementScope :=
| Anywhere
| Region (region : string)
| System (system : string)
| Location (designation : string)
| WithinLy (origin : string) (range_ly : F64.t).

Record ResourceRequirement := {
  rq_key : string;
  rq_kind : string;
  rq_capabilities : list string;
  rq_scope : RequirementScope;
  rq_count : Z;      (* u32 *)
  rq_quantity : Z;   (* u64 *)
}.

Record AllocationLocation := {
  al_region : option string;
  al_system : option string;
  al_designation : option string;
  al_distances_ly : gmap string F64.t;
}.

Record AllocationCandidate := {
  ac_resource : ResourceKey;
  ac_kind : string;
  ac_capabilities : list string;
  ac_location : option AllocationLocation;
  ac_available_quantity : Z;  (* u64 *)
  ac_observed_revision : Z;   (* u64 *)
  ac_observed_at_ms : Z;
}.

Inductive AllocationState := AllocActive | AllocDead | AllocReleased.
#[global] Instance AllocationState_eq : EqDecision AllocationState.
Proof. solve_decision. Defined.

Record ResourceAllocation := {
  ra_id : AllocationId;
  ra_requirement_key : string;
  ra_resource : ResourceKey;
  ra_quantity : Z;
  ra_state : AllocationState;
}.

(** [AllocationSet::by_requirement]. *)
Abbreviation AllocationSet := (gmap string (list ResourceAllocation)).

Inductive ReplacementOutcome :=
| Replaced (allocation : ResourceAllocation)
| ReplacementWaiting
| Unavailable.

(** ** Targets *)

Inductive WorkflowTarget :=
| TEvent (event_id system location : string)
| TSystem (system : string)
| TLocation (location : string)
| TDevice (device : string)
| TResource (resource : string)
| TBlueprint (blueprint : string)
| TCustom (namespace key : string) (metadata : gmap string string).
#[global] Instance WorkflowTarget_eq : EqDecision WorkflowTarget.
Proof. solve_decision. Defined.

Definition target_kind (self : WorkflowTarget) : string :=
  match self with
  | TEvent _ _ _ => "event"
  | TSystem _ => "system"
  | TLocation _ => "location"
  | TDevice _ => "device"
  | TResource _ => "resource"
  | TBlueprint _ => "blueprint"
  | TCustom namespace _ _ => namespace
  end.

Definition target_key (self : WorkflowTarget) : string :=
  match self with
  | TEvent event_id _ _ => event_id
  | TSystem system => system
  | TLocation location => location
  | TDevice device => device
  | TResource resource => resource
  | TBlueprint blueprint => blueprint
  | TCustom _ key _ => key
  end.

Definition validate_target_parts (kind key : string) : res unit :=
  let valid_kind := identifier_ok kind in
  if negb valid_kind || bool_decide (key = "") || bool_decide (str_len key > 512)
  then Err (InvalidWorkflowTarget kind key)
  else Ok tt.

Definition validate_workflow_target (target : WorkflowTarget) : res unit :=
  validate_target_parts (target_kind target) (target_key target).

Definition validate_document_identity (namespace key : string) : res unit :=
  let valid_namespace := identifier_ok namespace in
  if negb valid_namespace || bool_decide (key = "") || bool_decide (str_len key > 256)
  then Err (InvalidKind (namespace +:+ ":" +:+ key))
  else Ok tt.

(** ** JSON *)

(** [serde_json] and SQLite's JSON functions, as the repository uses them. *)
Class Serde := {
  (** [serde_json::Value] *)
  Value : Type;
  Value_eq :: EqDecision Value;
  (** [serde_json::to_string] of a value and of a [ResourceKey] *)
  to_string : Value → string;
  resource_to_string : ResourceKey → string;
  (** [serde_json::from_value::<Vec<ResourceRequirement>>] *)
  requirements_from_value : Value → option (list ResourceRequirement);
  (** [json_extract(dependency.value, '$.parameters.dedupe_key')] of the elements
      of [json_each(preconditions_json)] whose ['$.kind'] is
      ['work_item.succeeded']; [None] is SQL's [NULL] *)
  succeeded_dependencies : Value → list (option string);
  (** the JSON text of a resource decodes to that resource *)
  resource_to_string_inj :: Inj (=) (=) resource_to_string;
}.

(** ** Workflow rows *)

Record WorkflowInstance := {
  wf_kind : string;
  wf_schema_version : Z;
  wf_status : WorkflowStatus;
  wf_failure_disposition : option WorkflowFailureDisposition;
  wf_current_step : option string;
  wf_created_at : Z;
  wf_updated_at : Z;
  wf_last_error : option string;
  wf_parent_id : option WorkflowId;
  wf_revision : Z;
  wf_config_json : string;
  wf_checkpoint_json : string;
  wf_result_json : option string;
  wf_wait_intent_json : option string;
}.

Record WorkflowActivity := {
  act_workflow_id : WorkflowId;
  act_created_at : Z;
  act_message : string;
}.

(** A row of [workflow_resource_claims] under its namespace and key. *)
Record ClaimRow := {
  cl_workflow_id : WorkflowId;
  cl_acquired_at : Z;
  cl_updated_at : Z;
}.

Record ResourceClaim := {
  rc_resource : ResourceKey;
  rc_workflow_id : WorkflowId;
  rc_acquired_at : Z;
  rc_updated_at : Z;
}.

Inductive ClaimAcquireOutcome :=
| Acquired (claim : ResourceClaim)
| AlreadyOwned (claim : ResourceClaim).

Section Rows.
Context `{SD : Serde}.

Record NewWorkflow := {
  nw_kind : string;
  nw_schema_version : Z;
  nw_config : Value;
  nw_checkpoint : Value;
  nw_current_step : option string;
  nw_parent_id : option WorkflowId;
}.

Record WorkflowState := {
  ws_status : WorkflowStatus;
  ws_current_step : option string;
  ws_checkpoint : Value;
  ws_last_error : option string;
  ws_result : option Value;
}.

(** ** Work items *)

Record WorkItemSpec := {
  sp_workflow_id : WorkflowId;
  sp_dedupe_key : string;
  sp_kind : string;
  sp_sort_key : string;
  sp_payload_json : Value;
  sp_preconditions_json : Value;
  sp_requirements_json : Value;
  sp_deadline_at_ms : option Z;
}.
#[global] Instance WorkItemSpec_eq : EqDecision WorkItemSpec.
Proof. solve_decision. Defined.

Record WorkItemState := {
  st_status : WorkItemStatus.t;
  st_checkpoint_json : option Value;
  st_result_json : option Value;
  st_last_error : option string;
  st_attempt_count : Z;               (* u32 *)
  st_consecutive_failure_count : Z;   (* u32 *)
  st_next_attempt_at_ms : option Z;
  st_ever_started : bool;
  st_created_at_ms : Z;
  st_updated_at_ms : Z;
  st_revision : Z;
}.

Record WorkItem := { it_spec : WorkItemSpec; it_state : WorkItemState }.

Inductive WorkItemTransition :=
| CheckpointCommitted (checkpoint_json : Value)
| TWaiting (checkpoint_json : option Value) (reason : string) (retry_at_ms : option Z)
| RetryableFailure (checkpoint_json : option Value) (error : string)
| TSucceeded (checkpoint_json result_json : option Value)
| TSkipped (reason : string) (result_json : option Value)
| TFailed (error : string) (result_json : option Value)
| TAbandoned (reason : string)
| TReclaimed (checkpoint_json : option Value).
End Rows.

Record WorkItemAttempt := {
  at_assignment_id : string;
  at_worker_identity : string;
  at_started_at_ms : Z;
  at_ended_at_ms : option Z;
  at_outcome : option WorkItemAttemptOutcome.t;
  at_error : option string;
}.

(** A row of [workflow_resource_pools] under its pool key. *)
Record PoolRow := {
  pl_namespace : string;
  pl_key : string;
  pl_kind : string;
  pl_capabilities : list string;
  pl_location : option AllocationLocation;
  pl_available_quantity : Z;
  pl_observed_revision : Z;
  pl_observed_at_ms : Z;
}.

(** A row of [workflow_resource_allocations] under its identifier. *)
Record AllocationRow := {
  ar_item_id : WorkItemId;
  ar_requirement_key : string;
  ar_pool_key : string;
  ar_namespace : string;
  ar_key : string;
  ar_quantity : Z;
  ar_state : AllocationState;
  ar_created_at_ms : Z;
  ar_updated_at_ms : Z;
}.

Inductive AssignmentState := AsgActive | AsgReclaimRequested | AsgReleased.
#[global] Instance AssignmentState_eq : EqDecision AssignmentState.
Proof. solve_decision. Defined.

(** A row of [workflow_assignments] under its identifier. *)
Record AssignmentRow := {
  as_item_id : WorkItemId;
  as_worker_namespace : string;
  as_worker_key : string;
  as_state : AssignmentState;
  as_reclaim_requested_at_ms : option Z;
  as_created_at_ms : Z;
  as_updated_at_ms : Z;
}.

(** A row of [workflow_targets] under its workflow, kind and key. *)
Record TargetRow := {
  tg_target : WorkflowTarget;
  tg_active : bool;
  tg_created_at_ms : Z;
  tg_updated_at_ms : Z;
}.

(** ** Campaign results *)

Inductive CampaignOutcome := AllSucceeded | PartialSuccess | NothingCouldStart | NoSuccess.

Record CampaignCounts := {
  cc_total : Z; cc_pending : Z; cc_assigned : Z; cc_running : Z; cc_waiting : Z;
  cc_succeeded : Z; cc_skipped : Z; cc_failed : Z; cc_abandoned : Z;
}.

(** ** Automation triggers and policy *)

Record AutomationPolicy := {
  po_automatic_triggers_enabled : bool;
  po_workflows_paused : bool;
}.

Inductive TriggerTargetClass := ClassAction | ClassWorkflow.

Inductive TriggerCondition :=
| Manual
| Schedule (interval_millis : Z)
| GameEvent (event_name : string) (device_code : option string)
| StateCondition (minimum_revision : Z)
| ParentWorkflow (parent_kind : option string) (status : WorkflowStatus).

Section Triggers.
Context `{SD : Serde}.

Record TriggerTarget := {
  tt_operation_class : TriggerTargetClass;
  tt_kind : string;
  tt_parameters : gmap string Value;
}.

(** The input of [create_trigger] and of [update_trigger] ([NewTrigger] and
    [TriggerState] have the same fields). *)
Record TriggerState := {
  ts_name : string;
  ts_condition : TriggerCondition;
  ts_target : TriggerTarget;
  ts_enabled : bool;
  ts_next_run_at : option Z;
  ts_event_cursor : option string;
}.

Record AutomationTrigger := {
  tr_name : string;
  tr_condition : TriggerCondition;
  tr_target : TriggerTarget;
  tr_enabled : bool;
  tr_created_at : Z;
  tr_updated_at : Z;
  tr_last_fired_at : option Z;
  tr_next_run_at : option Z;
  tr_last_error : option string;
  tr_event_cursor : option string;
  tr_revision : Z;
}.
End Triggers.

(** ** Finite executions and documents *)

Inductive FiniteExecutionClass := Report | Action.
Inductive FiniteExecutionStatus := FxRunning | FxSucceeded | FxSkipped | FxFailed | FxCancelled.

Section Documents.
Context `{SD : Serde}.

Record FiniteExecution := {
  fx_operation_class : FiniteExecutionClass;
  fx_kind : string;
  fx_status : FiniteExecutionStatus;
  fx_started_at : Z;
  fx_finished_at : Z;
  fx_result : option Value;
  fx_error : option string;
}.

Record DocumentRow := {
  do_value : Value;
  do_revision : Z;
  do_created_at : Z;
  do_updated_at : Z;
}.
End Documents.

(** * Facts about the data model *)

(** the lifecycle machine never leaves a terminal status and never returns to
    the queue; every live status can still be cancelled. *)
Theorem workflow_status_machine s s' :
  WorkflowStatus.can_transition_to s s' = true →
  (WorkflowStatus.is_terminal s = true → s' = s) ∧
  (s' = Queued → s = Queued) ∧
  (WorkflowStatus.is_terminal s = false → WorkflowStatus.can_transition_to s Cancelled = true) ∧
  (s' = Succeeded → s = s' ∨ s = Running ∨ s = Reconciling).
Proof. destruct s, s'; intros [=]; naive_solver. Qed.

Lemma can_transition_terminal s s' :
  WorkflowStatus.can_transition_to s s' = true → WorkflowStatus.is_terminal s = true → s' = s.
Proof. by destruct s, s'. Qed.

(** the stored name of every status, attempt outcome and failure disposition
    reads back as itself, and nothing else reads as one: a parse that succeeds
    returns the value with that name. *)
Theorem stored_names_round_trip :
  (∀ s value, WorkflowStatus_from_str value = Ok s ↔ value = WorkflowStatus.as_str s) ∧
  (∀ s value, parse_work_item_status value = Ok s ↔ value = WorkItemStatus.as_str s) ∧
  (∀ o value, parse_work_item_attempt_outcome value = Ok o ↔
              value = WorkItemAttemptOutcome.as_str o) ∧
  (∀ f value, WorkflowFailureDisposition_from_str value = Ok f ↔
              value = WorkflowFailureDisposition_as_str f).
Proof.
  unfold WorkflowStatus_from_str, parse_work_item_status, parse_work_item_attempt_outcome,
    WorkflowFailureDisposition_from_str.
  split_and!; intros x value; split.
  1,3,5,7: repeat case_decide; by intros [= <-].
  all: intros ->; by destruct x.
Qed.

(** ** Persisted resources *)

(** The columns of a resource read back as that resource. *)
Lemma persisted_parts_resource_key resource ns key :
  persisted_parts resource = Ok (ns, key) → resource_key ns key = resource.
Proof.
  unfold persisted_parts, mbind, result_bind. destruct resource as [k|k|k|n k]; simpl.
  4: destruct (_ || negb _); [done|].
  all: destruct (_ || bool_decide (str_len k > 256)); [done|]; by intros [= <- <-].
Qed.

Lemma persisted_parts_inj r1 r2 k :
  persisted_parts r1 = Ok k → persisted_parts r2 = Ok k → r1 = r2.
Proof. destruct k. by intros <-%persisted_parts_resource_key <-%persisted_parts_resource_key. Qed.

Lemma key_length k :
  if bool_decide (k = "") || bool_decide (str_len k > 256)
  then str_len k = 0 ∨ 256 < str_len k else 0 < str_len k ≤ 256.
Proof.
  destruct (_ || _) eqn:B.
  - apply orb_true_iff in B as [->%bool_decide_eq_true| ?%bool_decide_eq_true]; [by left|lia].
  - apply orb_false_iff in B as [B1%bool_decide_eq_false B2%bool_decide_eq_false].
    destruct k; [done|]. unfold str_len in *. simpl in *. lia.
Qed.

(** persisting a resource and reading its columns is the identity, so two
    resources never share a row; a resource is refused exactly when its key or its
    namespace is malformed. *)
Theorem resource_key_round_trip resource :
  match persisted_parts resource with
  | Ok (ns, key) => resource_key ns key = resource ∧ key = resource_identity_key resource
      ∧ 0 < str_len key ≤ 256
      ∧ (∀ other, persisted_parts other = Ok (ns, key) → other = resource)
  | Err e => e = InvalidResourceKey resource
      ∧ (str_len (resource_identity_key resource) = 0
         ∨ 256 < str_len (resource_identity_key resource)
         ∨ ∃ ns key, resource = Namespaced ns key ∧ identifier_ok ns = false)
  end.
Proof.
  destruct (persisted_parts resource) as [[ns key]|e] eqn:E.
  - split_and!; [by apply persisted_parts_resource_key| | | |
      by intros other Ho; eapply persisted_parts_inj].
    all: revert E; unfold persisted_parts, mbind, result_bind;
      destruct resource as [k|k|k|n k]; simpl; try (destruct (_ || negb _); [done|]);
      assert (Hk := key_length k);
      destruct (bool_decide (k = "") || bool_decide (str_len k > 256));
      intros [= <- <-]; (done || lia).
  - revert E. unfold persisted_parts, mbind, result_bind.
    destruct resource as [k|k|k|n k]; simpl.
    4: destruct (_ || negb _) eqn:N; [intros [= <-]; split; [done|]; right; right;
         exists n, k; split; [done|]; unfold identifier_ok; revert N;
         rewrite !orb_true_iff, !andb_false_iff, !negb_true_iff, !negb_false_iff,
           !bool_decide_eq_true, bool_decide_eq_false; intuition lia|].
    all: assert (Hk := key_length k);
      destruct (bool_decide (k = "") || bool_decide (str_len k > 256)); [|done];
      intros [= <-]; split; [done|tauto].
Qed.
