(* ===== verification/Store.v ===== *)
(** * The runtime database

    The tables of [crates/replicant-workflow/migrations] as one record of finite
    maps keyed by their primary keys, with a setter per table, and the row-level
    helpers of [repository.rs] that every operation uses.  Every operation of
    the repository is one immediate SQLite transaction, so it is a [tx] over this
    record: it commits a new database or fails and leaves the old one.  The
    wall clock and the freshly generated UUIDs are arguments. *)

From S2P Require Import Prelude Model.

Section Store.
Context `{SD : Serde}.

Record DB := mkDB {
  instances : gmap N WorkflowInstance;
  activity_log : gmap Z WorkflowActivity;
  activity_seq : Z;
  claims_table : gmap (string * string) ClaimRow;
  executions : gmap string FiniteExecution;
  triggers : gmap N AutomationTrigger;
  firings : gmap (N * string) Z;
  policy : AutomationPolicy;
  documents : gmap (string * string) DocumentRow;
  work_items : gmap N WorkItem;
  attempts : gmap (N * Z) WorkItemAttempt;
  pools : gmap string PoolRow;
  allocations : gmap N AllocationRow;
  assignments : gmap string AssignmentRow;
  targets : gmap (N * (string * string)) TargetRow;
  intelligence_revision : Z;
}.

(** The database a migration of an empty file leaves. *)
Definition empty_db : DB := {|
  instances := ∅; activity_log := ∅; activity_seq := 0; claims_table := ∅;
  executions := ∅; triggers := ∅; firings := ∅;
  policy := {| po_automatic_triggers_enabled := true; po_workflows_paused := false |};
  documents := ∅; work_items := ∅; attempts := ∅; pools := ∅; allocations := ∅;
  assignments := ∅; targets := ∅; intelligence_revision := 0;
|}.

(** ** Setters *)

Definition with_instances (f : gmap N WorkflowInstance → gmap N WorkflowInstance) (d : DB) : DB :=
  mkDB (f (instances d)) (activity_log d) (activity_seq d) (claims_table d) (executions d)
    (triggers d) (firings d) (policy d) (documents d) (work_items d) (attempts d) (pools d)
    (allocations d) (assignments d) (targets d) (intelligence_revision d).
Definition with_activity (f : gmap Z WorkflowActivity → gmap Z WorkflowActivity) (d : DB) : DB :=
  mkDB (instances d) (f (activity_log d)) (activity_seq d) (claims_table d) (executions d)
    (triggers d) (firings d) (policy d) (documents d) (work_items d) (attempts d) (pools d)
    (allocations d) (assignments d) (targets d) (intelligence_revision d).
Definition with_activity_seq (n : Z) (d : DB) : DB :=
  mkDB (instances d) (activity_log d) n (claims_table d) (executions d)
    (triggers d) (firings d) (policy d) (documents d) (work_items d) (attempts d) (pools d)
    (allocations d) (assignments d) (targets d) (intelligence_revision d).
Definition with_claims (f : gmap (string * string) ClaimRow → gmap (string * string) ClaimRow)
    (d : DB) : DB :=
  mkDB (instances d) (activity_log d) (activity_seq d) (f (claims_table d)) (executions d)
    (triggers d) (firings d) (policy d) (documents d) (work_items d) (attempts d) (pools d)
    (allocations d) (assignments d) (targets d) (intelligence_revision d).
Definition with_executions (f : gmap string FiniteExecution → gmap string FiniteExecution)
    (d : DB) : DB :=
  mkDB (instances d) (activity_log d) (activity_seq d) (claims_table d) (f (executions d))
    (triggers d) (firings d) (policy d) (documents d) (work_items d) (attempts d) (pools d)
    (allocations d) (assignments d) (targets d) (intelligence_revision d).
Definition with_triggers (f : gmap N AutomationTrigger → gmap N AutomationTrigger) (d : DB) : DB :=
  mkDB (instances d) (activity_log d) (activity_seq d) (claims_table d) (executions d)
    (f (triggers d)) (firings d) (policy d) (documents d) (work_items d) (attempts d) (pools d)
    (allocations d) (assignments d) (targets d) (intelligence_revision d).
Definition with_firings (f : gmap (N * string) Z → gmap (N * string) Z) (d : DB) : DB :=
  mkDB (instances d) (activity_log d) (activity_seq d) (claims_table d) (executions d)
    (triggers d) (f (firings d)) (policy d) (documents d) (work_items d) (attempts d) (pools d)
    (allocations d) (assignments d) (targets d) (intelligence_revision d).
Definition with_policy (p : AutomationPolicy) (d : DB) : DB :=
  mkDB (instances d) (activity_log d) (activity_seq d) (claims_table d) (executions d)
    (triggers d) (firings d) p (documents d) (work_items d) (attempts d) (pools d)
    (allocations d) (assignments d) (targets d) (intelligence_revision d).
Definition with_documents (f : gmap (string * string) DocumentRow → gmap (string * string) DocumentRow)
    (d : DB) : DB :=
  mkDB (instances d) (activity_log d) (activity_seq d) (claims_table d) (executions d)
    (triggers d) (firings d) (policy d) (f (documents d)) (work_items d) (attempts d) (pools d)
    (allocations d) (assignments d) (targets d) (intelligence_revision d).
Definition with_work_items (f : gmap N WorkItem → gmap N WorkItem) (d : DB) : DB :=
  mkDB (instances d) (activity_log d) (activity_seq d) (claims_table d) (executions d)
    (triggers d) (firings d) (policy d) (documents d) (f (work_items d)) (attempts d) (pools d)
    (allocations d) (assignments d) (targets d) (intelligence_revision d).
Definition with_attempts (f : gmap (N * Z) WorkItemAttempt → gmap (N * Z) WorkItemAttempt)
    (d : DB) : DB :=
  mkDB (instances d) (activity_log d) (activity_seq d) (claims_table d) (executions d)
    (triggers d) (firings d) (policy d) (documents d) (work_items d) (f (attempts d)) (pools d)
    (allocations d) (assignments d) (targets d) (intelligence_revision d).
Definition with_pools (f : gmap string PoolRow → gmap string PoolRow) (d : DB) : DB :=
  mkDB (instances d) (activity_log d) (activity_seq d) (claims_table d) (executions d)
    (triggers d) (firings d) (policy d) (documents d) (work_items d) (attempts d) (f (pools d))
    (allocations d) (assignments d) (targets d) (intelligence_revision d).
Definition with_allocations (f : gmap N AllocationRow → gmap N AllocationRow) (d : DB) : DB :=
  mkDB (instances d) (activity_log d) (activity_seq d) (claims_table d) (executions d)
    (triggers d) (firings d) (policy d) (documents d) (work_items d) (attempts d) (pools d)
    (f (allocations d)) (assignments d) (targets d) (intelligence_revision d).
Definition with_assignments (f : gmap string AssignmentRow → gmap string AssignmentRow)
    (d : DB) : DB :=
  mkDB (instances d) (activity_log d) (activity_seq d) (claims_table d) (executions d)
    (triggers d) (firings d) (policy d) (documents d) (work_items d) (attempts d) (pools d)
    (allocations d) (f (assignments d)) (targets d) (intelligence_revision d).
Definition with_targets (f : gmap (N * (string * string)) TargetRow → gmap (N * (string * string)) TargetRow)
    (d : DB) : DB :=
  mkDB (instances d) (activity_log d) (activity_seq d) (claims_table d) (executions d)
    (triggers d) (firings d) (policy d) (documents d) (work_items d) (attempts d) (pools d)
    (allocations d) (assignments d) (f (targets d)) (intelligence_revision d).
Definition with_intelligence_revision (n : Z) (d : DB) : DB :=
  mkDB (instances d) (activity_log d) (activity_seq d) (claims_table d) (executions d)
    (triggers d) (firings d) (policy d) (documents d) (work_items d) (attempts d) (pools d)
    (allocations d) (assignments d) (targets d) n.

#[local] Abbreviation rtx := (tx DB RepositoryError).

(** ** The clock *)

(** [now_millis], of a clock reading in milliseconds since the Unix epoch. *)
Definition now_millis (clock : Z) : res Z :=
  if decide (clock < 0) then Err Clock
  else ok_or (i64_try_from clock) Clock.

(** ** Row access *)

(** [read_in] *)
Definition read_in (id : WorkflowId) : rtx (option WorkflowInstance) :=
  gets (λ d, instances d !! id).

(** [read_in(...)?.ok_or(NotFound(id))?] *)
Definition require_workflow (id : WorkflowId) : rtx WorkflowInstance :=
  w ← read_in id; lift (ok_or w (NotFound id)).

(** [read_work_item_in] *)
Definition read_work_item_in (id : WorkItemId) : rtx (option WorkItem) :=
  gets (λ d, work_items d !! id).

Definition require_work_item (id : WorkItemId) : rtx WorkItem :=
  i ← read_work_item_in id; lift (ok_or i (WorkItemNotFound id)).

(** [read_trigger_in] *)
Definition read_trigger_in (id : TriggerId) : rtx (option AutomationTrigger) :=
  gets (λ d, triggers d !! id).

(** ** Audited tables *)

(** The migration's triggers count every row inserted into, updated in or deleted
    from the allocation and target tables. *)
Definition bump_intelligence (rows : Z) : rtx unit :=
  modify (λ d, with_intelligence_revision (intelligence_revision d + rows) d).

Definition update_allocations (p : N → AllocationRow → bool) (f : AllocationRow → AllocationRow)
    : rtx unit :=
  n ← gets (λ d, count p (allocations d));
  _ ← modify (with_allocations (update_where p f));
  bump_intelligence n.

Definition update_assignments (p : string → AssignmentRow → bool)
    (f : AssignmentRow → AssignmentRow) : rtx Z :=
  n ← gets (λ d, count p (assignments d));
  _ ← modify (with_assignments (update_where p f));
  mret n.

(** ** Row updates *)

Definition release_allocation_row (now_ms : Z) (a : AllocationRow) : AllocationRow :=
  {| ar_item_id := ar_item_id a; ar_requirement_key := ar_requirement_key a;
     ar_pool_key := ar_pool_key a; ar_namespace := ar_namespace a; ar_key := ar_key a;
     ar_quantity := ar_quantity a; ar_state := AllocReleased;
     ar_created_at_ms := ar_created_at_ms a; ar_updated_at_ms := now_ms |}.

Definition release_assignment_row (now_ms : Z) (a : AssignmentRow) : AssignmentRow :=
  {| as_item_id := as_item_id a; as_worker_namespace := as_worker_namespace a;
     as_worker_key := as_worker_key a; as_state := AsgReleased;
     as_reclaim_requested_at_ms := None;
     as_created_at_ms := as_created_at_ms a; as_updated_at_ms := now_ms |}.

Definition is_active_allocation (a : AllocationRow) : bool :=
  bool_decide (ar_state a = AllocActive).
Definition is_unreleased_assignment (a : AssignmentRow) : bool :=
  bool_decide (as_state a ≠ AsgReleased).
Definition is_open_attempt (a : WorkItemAttempt) : bool :=
  bool_decide (at_ended_at_ms a = None).

Definition close_attempt_row (ended_at_ms : Z) (outcome : WorkItemAttemptOutcome.t)
    (error : option string) (a : WorkItemAttempt) : WorkItemAttempt :=
  {| at_assignment_id := at_assignment_id a; at_worker_identity := at_worker_identity a;
     at_started_at_ms := at_started_at_ms a; at_ended_at_ms := Some ended_at_ms;
     at_outcome := Some outcome; at_error := error |}.

Definition with_state (f : WorkItemState → WorkItemState) (i : WorkItem) : WorkItem :=
  {| it_spec := it_spec i; it_state := f (it_state i) |}.

(** Whether a row of [workflow_work_items] belongs to workflow [id]. *)
Definition owned_by (d : DB) (id : WorkflowId) (item : WorkItemId) : bool :=
  match work_items d !! item with
  | Some i => bool_decide (sp_workflow_id (it_spec i) = id)
  | None => false
  end.

End Store.

Arguments DB {_}.
Abbreviation rtx := (tx DB RepositoryError).
