(* ===== verification/Fixtures.v ===== *)
(** * A concrete codec and sample rows

    An instance of the [Serde] parameter, over a small value type, with which the
    model evaluates on concrete data, and the sample workflows, items and
    resources that the evaluations share. *)

From stdpp Require Import pretty.
From S2P Require Import Prelude Model Store.

Inductive sample_value :=
| VNull
| VText (text : string)
| VDependencies (keys : list string)
| VRequirements (requirements : list ResourceRequirement).

#[global] Instance RequirementScope_eq : EqDecision RequirementScope.
Proof. solve_decision. Defined.
#[global] Instance ResourceRequirement_eq : EqDecision ResourceRequirement.
Proof. solve_decision. Defined.
#[global] Instance sample_value_eq : EqDecision sample_value.
Proof. solve_decision. Defined.

#[global] Instance ResourceKey_countable : Countable ResourceKey.
Proof.
  refine (inj_countable'
    (λ r, match r with
          | Replicant k => inl (inl k) | Device k => inl (inr k)
          | Autofactory k => inr (inl k) | Namespaced n k => inr (inr (n, k)) end)
    (λ s, match s with
          | inl (inl k) => Replicant k | inl (inr k) => Device k
          | inr (inl k) => Autofactory k | inr (inr (n, k)) => Namespaced n k end) _).
  by intros [].
Defined.

Definition sample_resource_text (r : ResourceKey) : string := pretty (Npos (encode r)).

Lemma sample_resource_text_inj : Inj (=) (=) sample_resource_text.
Proof.
  intros r1 r2 H. unfold sample_resource_text in H.
  apply (inj (pretty (A := N))) in H. by apply (inj encode); simplify_eq.
Qed.

Definition sample_serde : Serde := {|
  Value := sample_value;
  to_string := λ v, match v with VText t => t | _ => "null" end;
  resource_to_string := sample_resource_text;
  requirements_from_value := λ v,
    match v with VRequirements rs => Some rs | VNull => Some [] | _ => None end;
  succeeded_dependencies := λ v,
    match v with VDependencies ks => Some <$> ks | _ => [] end;
  resource_to_string_inj := sample_resource_text_inj;
|}.

(** The value a committed transaction returned and the database it left. *)
Definition committed {S E A} (r : result E (A * S)) (s0 : S) : S :=
  match r with Ok (_, s) => s | Err _ => s0 end.
