(* ===== verification/Claims.v ===== *)
(** * Exclusive resource claims

    The custody operations of [WorkflowRepository]: a claim row is keyed by the
    namespace and key of its resource, and devices, autofactories and replicants
    are compared without regard to ASCII case, a device and an autofactory with
    the same key being one physical resource.  The invariants say that one
    physical resource never has two owners and that every owner is a live
    workflow. *)

From S2P Require Import Prelude Model Store.

(** ** Physical identity *)

Definition is_hardware_namespace (namespace : string) : bool :=
  bool_decide (namespace = "device") || bool_decide (namespace = "autofactory").

(** The [WHERE] clause the claim queries share: the stored row [b] denotes the
    resource of the parameters [a]. *)
Definition claim_matches (a b : string * string) : bool :=
  (bool_decide (b.2 = a.2)
   || (is_exclusive_namespace a.1 && eq_ignore_ascii_case b.2 a.2))
  && (bool_decide (b.1 = a.1)
      || (is_hardware_namespace a.1 && is_hardware_namespace b.1)).

Section Claims.
Context `{SD : Serde} `{RO : RowOrder}.

(** ** Row operations *)

(** [INSERT INTO workflow_resource_claims]: the primary key and the foreign key
    constraint. *)
Definition insert_claim (k : string * string) (row : ClaimRow) : rtx unit :=
  d ← get;
  if decide (claims_table d !! k = None ∧ is_Some (instances d !! cl_workflow_id row))
  then modify (with_claims (<[k := row]>))
  else fail Sql.

Definition touch_claim (now : Z) (row : ClaimRow) : ClaimRow :=
  {| cl_workflow_id := cl_workflow_id row; cl_acquired_at := cl_acquired_at row;
     cl_updated_at := now |}.

Definition hand_over_claim (to : WorkflowId) (now : Z) (row : ClaimRow) : ClaimRow :=
  {| cl_workflow_id := to; cl_acquired_at := cl_acquired_at row; cl_updated_at := now |}.

(** [physical_claim_conflict_in] *)
Definition physical_claim_conflict_in (resource : ResourceKey) (workflow_id : WorkflowId)
    : rtx (option WorkflowId) :=
  parts ← lift (persisted_parts resource);
  gets (λ d, cl_workflow_id ∘ snd <$>
    limit_1 (select (λ k row, claim_matches parts k
                              && bool_decide (cl_workflow_id row ≠ workflow_id))
               (claims_table d))).

(** [acquire_claim_in] *)
Definition acquire_claim_in (workflow_id : WorkflowId) (resource : ResourceKey) (now : Z)
    : rtx ClaimAcquireOutcome :=
  parts ← lift (persisted_parts resource);
  conflict ← physical_claim_conflict_in resource workflow_id;
  match conflict with
  | Some owner => fail (ClaimConflict resource owner)
  | None =>
      existing ← gets (λ d,
        limit_1 (select (λ k _, claim_matches parts k) (claims_table d)));
      match existing with
      | Some (stored, row) =>
          if decide (cl_workflow_id row ≠ workflow_id)
          then fail (ClaimConflict resource (cl_workflow_id row))
          else
            _ ← modify (with_claims (update_where (λ k _, bool_decide (k = stored)) (touch_claim now)));
            mret (AlreadyOwned {| rc_resource := resource; rc_workflow_id := workflow_id;
                                  rc_acquired_at := cl_acquired_at row; rc_updated_at := now |})
      | None =>
          _ ← insert_claim parts {| cl_workflow_id := workflow_id; cl_acquired_at := now;
                                    cl_updated_at := now |};
          mret (Acquired {| rc_resource := resource; rc_workflow_id := workflow_id;
                            rc_acquired_at := now; rc_updated_at := now |})
      end
  end.

(** The owner test of the acquisition operations. *)
Definition require_live_owner (workflow_id : WorkflowId) : rtx WorkflowInstance :=
  owner ← require_workflow workflow_id;
  if WorkflowStatus.is_terminal (wf_status owner)
  then fail (TerminalClaimOwner workflow_id)
  else mret owner.

(** [acquire_claims] *)
Definition acquire_claims (workflow_id : WorkflowId) (resources : list ResourceKey) (clock : Z)
    : rtx (list ClaimAcquireOutcome) :=
  now ← lift (now_millis clock);
  _ ← require_live_owner workflow_id;
  map_each (λ resource, acquire_claim_in workflow_id resource now) resources.

(** [acquire_claim] *)
Definition acquire_claim (workflow_id : WorkflowId) (resource : ResourceKey) (clock : Z)
    : rtx ClaimAcquireOutcome :=
  outcomes ← acquire_claims workflow_id [resource] clock;
  lift (ok_or (head outcomes) (Compatibility "claim acquisition returned no result")).

(** The reserve loop of [acquire_claim_preserving_reserve]: the physical
    identities of the candidates, other than the requested one, with no claim. *)
Definition available_reserve (parts : string * string) (reserve : list ResourceKey)
    : rtx (gset (string * string)) :=
  fold_each (λ available candidate,
    cand ← lift (persisted_parts candidate);
    let physical := is_exclusive_namespace cand.1 in
    let same_namespace := bool_decide (cand.1 = parts.1)
      || (is_hardware_namespace cand.1 && is_hardware_namespace parts.1) in
    if same_namespace && (bool_decide (cand.2 = parts.2)
                          || (physical && eq_ignore_ascii_case cand.2 parts.2))
    then mret available
    else
      claimed ← gets (λ d, exists_row (λ k _, claim_matches cand k) (claims_table d));
      if (claimed : bool) then mret available
      else
        let identity := if physical then to_ascii_uppercase cand.2 else cand.2 in
        mret ({[ (cand.1, identity) ]} ∪ available)) ∅ reserve.

(** [acquire_claim_preserving_reserve] *)
Definition acquire_claim_preserving_reserve (workflow_id : WorkflowId) (resource : ResourceKey)
    (reserve : list ResourceKey) (minimum : Z) (clock : Z) : rtx ClaimAcquireOutcome :=
  parts ← lift (persisted_parts resource);
  now ← lift (now_millis clock);
  _ ← require_live_owner workflow_id;
  conflict ← physical_claim_conflict_in resource workflow_id;
  match conflict with
  | Some owner => fail (ClaimConflict resource owner)
  | None =>
      _ ← (if decide (0 < minimum) then
             available ← available_reserve parts reserve;
             if decide (Z.of_nat (size available) < minimum)
             then fail (ReserveUnavailable minimum) else mret tt
           else mret tt);
      existing ← gets (λ d, claims_table d !! parts);
      match existing with
      | Some row =>
          if decide (cl_workflow_id row ≠ workflow_id)
          then fail (ClaimConflict resource (cl_workflow_id row))
          else
            _ ← modify (with_claims (update_where (λ k _, bool_decide (k = parts)) (touch_claim now)));
            mret (AlreadyOwned {| rc_resource := resource; rc_workflow_id := workflow_id;
                                  rc_acquired_at := cl_acquired_at row; rc_updated_at := now |})
      | None =>
          _ ← insert_claim parts {| cl_workflow_id := workflow_id; cl_acquired_at := now;
                                    cl_updated_at := now |};
          mret (Acquired {| rc_resource := resource; rc_workflow_id := workflow_id;
                            rc_acquired_at := now; rc_updated_at := now |})
      end
  end.

(** The owner scan of [transfer_claims_in]: does the source, and does the
    destination, hold a row of this resource?  Any other owner is a conflict. *)
Fixpoint scan_owners (from to : WorkflowId) (resource : ResourceKey) (owners : list WorkflowId)
    (source_owns destination_owns : bool) : res (bool * bool) :=
  match owners with
  | [] => Ok (source_owns, destination_owns)
  | owner :: owners =>
      if decide (owner = from) then scan_owners from to resource owners true destination_owns
      else if decide (owner = to) then scan_owners from to resource owners source_owns true
      else Err (ClaimConflict resource owner)
  end.

(** One iteration of [transfer_claims_in]. *)
Definition transfer_claim_in (from to : WorkflowId) (now : Z) (resource : ResourceKey) : rtx unit :=
  parts ← lift (persisted_parts resource);
  owners ← gets (λ d, cl_workflow_id ∘ snd <$>
    row_order (select (λ k _, claim_matches parts k) (claims_table d)));
  owns ← lift (scan_owners from to resource owners false false);
  let '(source_owns, destination_owns) := owns in
  if destination_owns && negb source_owns then mret tt
  else if negb source_owns
  then fail (Compatibility "claim handoff requires source custody")
  else
    allocated ← gets (λ d,
      exists_row (λ _ a, claim_matches parts (ar_namespace a, ar_key a) && is_active_allocation a)
        (allocations d));
    if (allocated : bool)
    then fail (Compatibility "allocated resources cannot be handed off as direct claims")
    else modify (with_claims (update_where
           (λ k row, claim_matches parts k && bool_decide (cl_workflow_id row = from))
           (hand_over_claim to now))).

(** [transfer_claims_in] *)
Definition transfer_claims_in (from to : WorkflowId) (resources : list ResourceKey) (now : Z)
    : rtx unit :=
  source ← require_workflow from;
  destination ← require_workflow to;
  if WorkflowStatus.is_terminal (wf_status destination)
  then fail (TerminalClaimOwner to)
  else if decide (wf_parent_id source ≠ Some to ∧ wf_parent_id destination ≠ Some from)
  then fail (Compatibility "claim handoff requires a direct parent-child relationship")
  else for_each (transfer_claim_in from to now) resources.

(** [transfer_claims] *)
Definition transfer_claims (from to : WorkflowId) (resources : list ResourceKey) (clock : Z)
    : rtx unit :=
  now ← lift (now_millis clock);
  transfer_claims_in from to resources now.

(** [release_claim] *)
Definition release_claim (workflow_id : WorkflowId) (resource : ResourceKey) : rtx bool :=
  parts ← lift (persisted_parts resource);
  let p := λ (k : string * string) row,
    bool_decide (k = parts) && bool_decide (cl_workflow_id row = workflow_id) in
  n ← gets (λ d, count p (claims_table d));
  _ ← modify (with_claims (delete_where p));
  mret (bool_decide (n ≠ 0)).

(** [release_claims] *)
Definition release_claims (workflow_id : WorkflowId) : rtx Z :=
  let p := λ (_ : string * string) row, bool_decide (cl_workflow_id row = workflow_id) in
  n ← gets (λ d, count p (claims_table d));
  _ ← modify (with_claims (delete_where p));
  mret n.

(** [reconcile_claims]: the start-up deletion of the claims of missing or
    terminal owners. *)
Definition reconcile_claims : rtx Z :=
  d ← get;
  let p := λ (_ : string * string) row,
    match instances d !! cl_workflow_id row with
    | Some w => WorkflowStatus.is_terminal (wf_status w)
    | None => true
    end in
  _ ← modify (with_claims (delete_where p));
  mret (count p (claims_table d)).

(** ** Listings *)

Definition claim_of_row (kr : (string * string) * ClaimRow) : ResourceClaim :=
  {| rc_resource := resource_key kr.1.1 kr.1.2; rc_workflow_id := cl_workflow_id kr.2;
     rc_acquired_at := cl_acquired_at kr.2; rc_updated_at := cl_updated_at kr.2 |}.

(** [claims] *)
Definition claims (workflow_id : WorkflowId) : rtx (list ResourceClaim) :=
  gets (λ d, claim_of_row <$>
    sort_by (λ a b, str_pair_leb a.1 b.1)
      (select (λ _ row, bool_decide (cl_workflow_id row = workflow_id)) (claims_table d))).

(** [device_claims] *)
Definition device_claims : rtx (list ResourceClaim) :=
  gets (λ d, (λ kr, {| rc_resource := Device kr.1.2; rc_workflow_id := cl_workflow_id kr.2;
                       rc_acquired_at := cl_acquired_at kr.2;
                       rc_updated_at := cl_updated_at kr.2 |}) <$>
    sort_by (λ a b, String.leb a.1.2 b.1.2)
      (select (λ k _, bool_decide (k.1 = "device")) (claims_table d))).

(** [autofactory_claims] *)
Definition autofactory_claims : rtx (list ResourceClaim) :=
  gets (λ d, (λ kr, {| rc_resource := Autofactory kr.1.2; rc_workflow_id := cl_workflow_id kr.2;
                       rc_acquired_at := cl_acquired_at kr.2;
                       rc_updated_at := cl_updated_at kr.2 |}) <$>
    sort_by (λ a b, String.leb a.1.2 b.1.2)
      (select (λ k _, bool_decide (k.1 = "autofactory")) (claims_table d))).

End Claims.

(** * Facts about physical identity *)

Lemma eq_ignore_ascii_case_refl a : eq_ignore_ascii_case a a = true.
Proof. by apply bool_decide_eq_true. Qed.
Lemma eq_ignore_ascii_case_sym a b :
  eq_ignore_ascii_case a b = true → eq_ignore_ascii_case b a = true.
Proof. unfold eq_ignore_ascii_case. rewrite !bool_decide_eq_true. done. Qed.
Lemma eq_ignore_ascii_case_trans a b c :
  eq_ignore_ascii_case a b = true → eq_ignore_ascii_case b c = true →
  eq_ignore_ascii_case a c = true.
Proof. unfold eq_ignore_ascii_case. rewrite !bool_decide_eq_true. congruence. Qed.

Lemma hardware_exclusive ns : is_hardware_namespace ns = true → is_exclusive_namespace ns = true.
Proof. unfold is_hardware_namespace, is_exclusive_namespace. rewrite !orb_true_iff. tauto. Qed.

(** Two claim keys denote one physical resource. *)
Definition same_resource (a b : string * string) : Prop := claim_matches a b = true.

Lemma same_resource_spec a b :
  same_resource a b ↔
  (a.2 = b.2 ∨ (is_exclusive_namespace a.1 = true ∧ eq_ignore_ascii_case a.2 b.2 = true)) ∧
  (a.1 = b.1 ∨ (is_hardware_namespace a.1 = true ∧ is_hardware_namespace b.1 = true)).
Proof.
  unfold same_resource, claim_matches.
  rewrite andb_true_iff, !orb_true_iff, !andb_true_iff, !bool_decide_eq_true.
  assert (eq_ignore_ascii_case b.2 a.2 = true ↔ eq_ignore_ascii_case a.2 b.2 = true)
    by (split; apply eq_ignore_ascii_case_sym).
  intuition auto.
Qed.

#[global] Instance same_resource_equiv : Equivalence same_resource.
Proof.
  split.
  - intros a. apply same_resource_spec. tauto.
  - intros a b. rewrite !same_resource_spec. intros [Hk Hn]. split.
    + destruct Hk as [->|[Hx Hc]]; [by left|right]. split; [|by apply eq_ignore_ascii_case_sym].
      destruct Hn as [<-|[_ Hb]]; [done|by apply hardware_exclusive].
    + destruct Hn as [->|[? ?]]; tauto.
  - intros a b c. rewrite !same_resource_spec. intros [Hk Hn] [Hk' Hn']. split.
    + destruct Hk as [->|[Hx Hc]], Hk' as [Hk'|[Hx' Hc']].
      * by left.
      * right. split; [|done]. destruct Hn as [->|[? ?]]; [done|by apply hardware_exclusive].
      * right. split; [done|]. by rewrite <-Hk'.
      * right. split; [done|]. by eapply eq_ignore_ascii_case_trans.
    + destruct Hn as [->|[? ?]], Hn' as [Hn'|[? ?]]; rewrite <-?Hn'; tauto.
Qed.

#[global] Instance claim_matches_proper :
  Proper (same_resource ==> same_resource ==> (=)) claim_matches.
Proof.
  intros a a' Ha b b' Hb. apply eq_true_iff_eq. change (same_resource a b ↔ same_resource a' b').
  by rewrite Ha, Hb.
Qed.

(** * Custody invariants *)

Section Custody.
Context `{SD : Serde} `{RO : RowOrder}.
Implicit Types d : DB.

(** One physical resource has at most one owner. *)
Definition custody_exclusive d : Prop :=
  ∀ k1 k2 r1 r2, claims_table d !! k1 = Some r1 → claims_table d !! k2 = Some r2 →
    same_resource k1 k2 → cl_workflow_id r1 = cl_workflow_id r2.

(** The workflows that may own something: they exist and are not terminal. *)
Definition live d (id : WorkflowId) : Prop :=
  ∃ w, instances d !! id = Some w ∧ WorkflowStatus.is_terminal (wf_status w) = false.

(** The claims are in order with respect to a set of acceptable owners: custody is
    exclusive, every owner is acceptable and every key is the persisted form of a
    resource. *)
Record claims_ok_at (owner_ok : WorkflowId → Prop) d : Prop := {
  ok_custody : custody_exclusive d;
  ok_live : ∀ k r, claims_table d !! k = Some r → owner_ok (cl_workflow_id r);
  ok_keys : ∀ k r, claims_table d !! k = Some r → ∃ resource, persisted_parts resource = Ok k;
}.

Definition claims_ok d : Prop := claims_ok_at (live d) d.

(** ** Claim tables up to their owners *)

(** [claims_sub t t']: every row of [t'] is a row of [t] with the same owner. *)
Definition claims_sub (t t' : gmap (string * string) ClaimRow) : Prop :=
  ∀ k r', t' !! k = Some r' → ∃ r, t !! k = Some r ∧ cl_workflow_id r' = cl_workflow_id r.

#[global] Instance claims_sub_preorder : PreOrder claims_sub.
Proof.
  split.
  - intros t k r Hr. eauto.
  - intros t1 t2 t3 H12 H23 k r3 H3. apply H23 in H3 as (r2&H2&?).
    apply H12 in H2 as (r1&?&?). exists r1. split; [done|congruence].
Qed.

Lemma claims_sub_touch p now t : claims_sub t (update_where p (touch_claim now) t).
Proof.
  intros k r' Hr. apply lookup_update_where_Some in Hr as (r&?&->).
  exists r. split; [done|]. by destruct (p k r).
Qed.

Lemma claims_sub_delete p t : claims_sub t (delete_where p t).
Proof. intros k r' [Hr _]%lookup_delete_where_Some. eauto. Qed.

Lemma claims_ok_sub L d d' :
  claims_sub (claims_table d) (claims_table d') → claims_ok_at L d → claims_ok_at L d'.
Proof.
  intros Hsub [Hc Hl Hk]. split.
  - intros k1 k2 r1 r2 H1 H2 Hs. apply Hsub in H1 as (r1'&H1&->).
    apply Hsub in H2 as (r2'&H2&->). eauto.
  - intros k r Hr. apply Hsub in Hr as (r0&Hr&->). eauto.
  - intros k r Hr. apply Hsub in Hr as (r0&Hr&_). eauto.
Qed.

(** Inserting a row whose resource nobody else owns. *)
Lemma claims_ok_insert L d k row :
  claims_ok_at L d →
  (∀ k' r', claims_table d !! k' = Some r' → same_resource k k' →
     cl_workflow_id r' = cl_workflow_id row) →
  L (cl_workflow_id row) →
  (∃ resource, persisted_parts resource = Ok k) →
  claims_ok_at L (with_claims (<[k := row]>) d).
Proof.
  intros [Hc Hl Hk] Hown Hw Hres. split.
  - intros k1 k2 r1 r2 H1 H2 Hs; simpl in *.
    apply lookup_insert_Some in H1 as [[<- <-]|[? H1]];
    apply lookup_insert_Some in H2 as [[<- <-]|[? H2]]; [done| | |eauto].
    + symmetry. eapply Hown; eauto.
    + eapply Hown; eauto. by symmetry.
  - intros k' r Hr; simpl in *. apply lookup_insert_Some in Hr as [[<- <-]|[? Hr]]; eauto.
  - intros k' r Hr; simpl in *. apply lookup_insert_Some in Hr as [[<- <-]|[? Hr]]; eauto.
Qed.

(** ** The queries *)

Lemma conflict_None resource wid d d' k :
  persisted_parts resource = Ok k →
  physical_claim_conflict_in resource wid d = Ok (None, d') →
  d' = d ∧ ∀ k' r', claims_table d !! k' = Some r' → same_resource k k' →
    cl_workflow_id r' = wid.
Proof.
  intros Hp H. unfold physical_claim_conflict_in in H. tx_inv. split; [done|].
  intros k' r' Hr Hs.
  match goal with H : _ <$> limit_1 _ = None |- _ =>
    apply fmap_None, limit_1_None in H; rename H into Hnone end.
  destruct (decide (cl_workflow_id r' = wid)) as [|Hne]; [done|].
  assert ((k', r') ∈ ([] : list ((string * string) * ClaimRow))) as Hin.
  { rewrite <-Hnone. apply elem_of_select. split; [done|].
    rewrite andb_true_iff, bool_decide_eq_true. done. }
  by apply elem_of_nil in Hin.
Qed.

Lemma conflict_read_only resource wid d o d' :
  physical_claim_conflict_in resource wid d = Ok (o, d') → d' = d.
Proof. unfold physical_claim_conflict_in. intros. by tx_inv. Qed.

Lemma conflict_Some resource wid d owner d' :
  physical_claim_conflict_in resource wid d = Ok (Some owner, d') →
  owner ≠ wid ∧ ∃ k k' r', persisted_parts resource = Ok k ∧
    claims_table d !! k' = Some r' ∧ same_resource k k' ∧ cl_workflow_id r' = owner.
Proof.
  unfold physical_claim_conflict_in. intros. tx_inv.
  match goal with H : _ <$> limit_1 _ = Some _ |- _ =>
    apply fmap_Some in H as ([k' r']&Hl&->) end.
  apply limit_1_Some, elem_of_select in Hl as [Hr Hp].
  apply andb_true_iff in Hp as [Hm Hne]. apply bool_decide_eq_true in Hne.
  simpl. split; [done|]. eauto 10.
Qed.

(** ** Preservation *)

Lemma require_live_owner_Ok wid d w d' :
  require_live_owner wid d = Ok (w, d') →
  d' = d ∧ instances d !! wid = Some w ∧ WorkflowStatus.is_terminal (wf_status w) = false.
Proof. unfold require_live_owner, require_workflow, read_in. intros. by tx_inv. Qed.

(** What a claim insertion does. *)
Lemma insert_claim_Ok k row d u d' :
  insert_claim k row d = Ok (u, d') →
  d' = with_claims (<[k := row]>) d ∧ claims_table d !! k = None.
Proof. unfold insert_claim. intros. tx_inv. naive_solver. Qed.

(** The claim operations change no table but the claims, which stay in order for
    every set of owners that accepts the live workflows. *)
Definition claims_step d d' : Prop :=
  (∃ t, d' = with_claims (λ _, t) d) ∧
  (∀ L : WorkflowId → Prop, (∀ id, live d id → L id) → claims_ok_at L d → claims_ok_at L d').

Lemma claims_step_refl d : claims_step d d.
Proof. split; [|done]. exists (claims_table d). by destruct d. Qed.
#[local] Hint Resolve claims_step_refl : core.

Lemma claims_step_trans d1 d2 d3 : claims_step d1 d2 → claims_step d2 d3 → claims_step d1 d3.
Proof.
  intros [[t1 ->] H1] [[t2 ->] H2]. split; [by exists t2|]. intros L HL Hok.
  apply H2; [done|]. by apply H1.
Qed.

Lemma claims_step_sub d t :
  claims_sub (claims_table d) t → claims_step d (with_claims (λ _, t) d).
Proof. intros Hsub. split; [eauto|]. intros L _. by apply claims_ok_sub. Qed.

Lemma claims_step_ok d d' : claims_step d d' → claims_ok d → claims_ok d'.
Proof. intros [[t ->] H] Hok. by apply H. Qed.

Lemma claims_step_live d d' wid w :
  claims_step d d' → instances d !! wid = Some w → instances d' !! wid = Some w.
Proof. by intros [[t ->] _]. Qed.

Lemma claims_step_insert d k row w :
  (∀ k' r', claims_table d !! k' = Some r' → same_resource k k' →
     cl_workflow_id r' = cl_workflow_id row) →
  instances d !! cl_workflow_id row = Some w →
  WorkflowStatus.is_terminal (wf_status w) = false →
  (∃ resource, persisted_parts resource = Ok k) →
  claims_step d (with_claims (<[k := row]>) d).
Proof.
  intros Hown Hw Ht Hres. split; [by eexists|]. intros L HL Hok.
  apply claims_ok_insert; auto. apply HL. by exists w.
Qed.

Lemma acquire_claim_in_step wid resource now d o d' w :
  instances d !! wid = Some w → WorkflowStatus.is_terminal (wf_status w) = false →
  acquire_claim_in wid resource now d = Ok (o, d') → claims_step d d'.
Proof.
  intros Hw Ht H. unfold acquire_claim_in in H. tx_inv.
  - match goal with H : physical_claim_conflict_in _ _ _ = _ |- _ =>
      apply conflict_read_only in H; subst end.
    apply claims_step_sub, claims_sub_touch.
  - match goal with H : physical_claim_conflict_in _ _ _ = _, Hp : persisted_parts _ = _ |- _ =>
      apply (conflict_None _ _ _ _ _ Hp) in H as [-> Hown] end.
    match goal with H : insert_claim _ _ _ = _ |- _ =>
      apply insert_claim_Ok in H as [-> _] end.
    eapply claims_step_insert; eauto.
Qed.

Lemma acquire_claims_step wid resources clock d os d' :
  acquire_claims wid resources clock d = Ok (os, d') → claims_step d d'.
Proof.
  unfold acquire_claims. intros. tx_inv.
  match goal with H : require_live_owner _ _ = _ |- _ =>
    apply require_live_owner_Ok in H as (->&Hw&Ht) end.
  match goal with H : map_each _ _ _ = _ |- _ => revert H end.
  apply map_each_inv; [|done]. intros r d1 y d2 _ Hs Ha.
  eapply claims_step_trans; [done|]. eapply acquire_claim_in_step; eauto using claims_step_live.
Qed.

Lemma acquire_claim_step wid resource clock d o d' :
  acquire_claim wid resource clock d = Ok (o, d') → claims_step d d'.
Proof. unfold acquire_claim. intros. tx_inv. eauto using acquire_claims_step. Qed.

Lemma available_reserve_read_only parts reserve d a d' :
  available_reserve parts reserve d = Ok (a, d') → d' = d.
Proof.
  apply (fold_each_inv (λ _ d', d' = d)); [|done].
  intros x b d1 b' d2 _ -> H. tx_inv; done.
Qed.

Lemma acquire_claim_preserving_reserve_step wid resource reserve minimum clock d o d' :
  acquire_claim_preserving_reserve wid resource reserve minimum clock d = Ok (o, d') →
  claims_step d d'.
Proof.
  unfold acquire_claim_preserving_reserve. intros.
  repeat (tx_step; try match goal with
    | H : require_live_owner _ _ = _ |- _ => apply require_live_owner_Ok in H as (->&Hw&Ht)
    | H : available_reserve _ _ _ = _ |- _ => apply available_reserve_read_only in H; subst
    end); simplify_eq.
  all: match goal with H : physical_claim_conflict_in _ _ _ = _, Hp : persisted_parts _ = _ |- _ =>
      apply (conflict_None _ _ _ _ _ Hp) in H as [-> Hown] end.
  all: try match goal with H : insert_claim _ _ _ = _ |- _ =>
      apply insert_claim_Ok in H as [-> _] end.
  all: first [ apply claims_step_sub, claims_sub_touch | eapply claims_step_insert; eauto ].
Qed.

(** A successful owner scan met no third owner. *)
Lemma scan_owners_Ok from to resource owners b1 b2 c :
  scan_owners from to resource owners b1 b2 = Ok c → ∀ o, o ∈ owners → o = from ∨ o = to.
Proof.
  revert b1 b2. induction owners as [|o owners IH]; intros b1 b2 H o' Ho; simpl in *.
  - by apply elem_of_nil in Ho.
  - repeat case_decide; simplify_eq; apply elem_of_cons in Ho as [->|?]; eauto.
Qed.

Lemma transfer_claim_in_step from to now resource d u d' w :
  instances d !! to = Some w → WorkflowStatus.is_terminal (wf_status w) = false →
  transfer_claim_in from to now resource d = Ok (u, d') → claims_step d d'.
Proof.
  intros Hw Ht H. unfold transfer_claim_in in H. tx_step.
  rename x into parts. tx_inv; [done|].
  split; [by eexists|]. intros L HL [Hc Hl Hk]. split.
  - intros k1 k2 r1 r2 E1 E2 Hs; simpl in *.
    apply lookup_update_where_Some in E1 as (s1&E1&->).
    apply lookup_update_where_Some in E2 as (s2&E2&->).
    assert (Heq := Hc _ _ _ _ E1 E2 Hs). rewrite (claim_matches_proper _ _ (reflexivity parts) _ _ Hs), Heq.
    by destruct (claim_matches parts k2 && _).
  - intros k r Hr; simpl in *. apply lookup_update_where_Some in Hr as (s0&Hs0&->).
    destruct (claim_matches parts k && _); simpl; eauto. apply HL. by exists w.
  - intros k r Hr; simpl in *. apply lookup_update_where_Some in Hr as (s0&Hs0&_). eauto.
Qed.

Lemma transfer_claims_in_step from to resources now d u d' :
  transfer_claims_in from to resources now d = Ok (u, d') → claims_step d d'.
Proof.
  unfold transfer_claims_in, require_workflow, read_in. intros. tx_inv.
  match goal with H : for_each _ _ _ = _ |- _ => revert H end.
  apply for_each_inv; [|done]. intros r d1 y d2 _ Hs Ha.
  eapply claims_step_trans; [done|]. eapply transfer_claim_in_step; eauto using claims_step_live.
Qed.

Lemma release_claim_step wid resource d b d' :
  release_claim wid resource d = Ok (b, d') → claims_step d d'.
Proof. unfold release_claim. intros. tx_inv. apply claims_step_sub, claims_sub_delete. Qed.

Lemma release_claims_step wid d n d' :
  release_claims wid d = Ok (n, d') → claims_step d d'.
Proof. unfold release_claims. intros. tx_inv. apply claims_step_sub, claims_sub_delete. Qed.

Lemma reconcile_claims_step d n d' :
  reconcile_claims d = Ok (n, d') → claims_step d d'.
Proof. unfold reconcile_claims. intros. tx_inv. apply claims_step_sub, claims_sub_delete. Qed.

End Custody.

#[export] Hint Resolve claims_step_refl acquire_claims_step acquire_claim_step
  acquire_claim_preserving_reserve_step transfer_claims_in_step release_claim_step
  release_claims_step reconcile_claims_step : replicant.

(** * What the claim operations do *)

Section ClaimOperations.
Context `{SD : Serde} `{RO : RowOrder}.
Implicit Types d : DB.

(** [id] has custody of the physical resource with columns [k]. *)
Definition holds d (id : WorkflowId) (k : string * string) : Prop :=
  ∃ k' r, claims_table d !! k' = Some r ∧ same_resource k k' ∧ cl_workflow_id r = id.

(** Claims of workflows other than [id] are untouched. *)
Definition others_kept (id : WorkflowId) d d' : Prop :=
  ∀ k r, cl_workflow_id r ≠ id → claims_table d !! k = Some r ↔ claims_table d' !! k = Some r.

Lemma now_millis_Ok clock : in_i64 clock → 0 ≤ clock → now_millis clock = Ok clock.
Proof.
  intros Hc Hp. unfold now_millis. rewrite decide_False by lia.
  unfold i64_try_from. by rewrite decide_True.
Qed.

Lemma touch_holds p now t id k d :
  (∃ k' r, t !! k' = Some r ∧ same_resource k k' ∧ cl_workflow_id r = id) →
  holds (with_claims (λ _, update_where p (touch_claim now) t) d) id k.
Proof.
  intros (k'&r&Hk&Hs&Ho). exists k', (if p k' r then touch_claim now r else r). simpl.
  rewrite lookup_update_where, Hk. split_and!; [done..|]. by destruct (p k' r).
Qed.

(** What one successful acquisition does. *)
Lemma acquire_claim_in_Ok wid resource now d o d' k :
  persisted_parts resource = Ok k → acquire_claim_in wid resource now d = Ok (o, d') →
  (∃ t, d' = with_claims (λ _, t) d) ∧ holds d' wid k ∧ others_kept wid d d' ∧
  (∀ k', holds d wid k' → holds d' wid k').
Proof.
  intros Hk H. unfold acquire_claim_in in H. tx_inv.
  - match goal with H : physical_claim_conflict_in _ _ _ = _ |- _ =>
      apply conflict_read_only in H; subst end.
    match goal with H : limit_1 _ = Some (?p, ?c) |- _ =>
      rename p into k', c into r; apply limit_1_Some, elem_of_select in H as [Hr Hm] end.
    assert (Ho : cl_workflow_id r = wid) by by apply dec_stable.
    split_and!.
    + by eexists.
    + apply (touch_holds _ _ (claims_table _)). by exists k', r.
    + intros k0 r0 Hne. simpl. rewrite lookup_update_where_Some. split.
      * intros Hr0. exists r0. split; [done|]. rewrite bool_decide_eq_false_2; [done|].
        intros ->. naive_solver.
      * intros (r1&Hr1&->). case_bool_decide; simplify_eq/=; done.
    + intros k0 Hh. by apply (touch_holds _ _ (claims_table _)).
  - match goal with H : physical_claim_conflict_in _ _ _ = _ |- _ =>
      apply conflict_read_only in H; subst end.
    match goal with H : insert_claim _ _ _ = _ |- _ =>
      apply insert_claim_Ok in H as [-> Hnone] end.
    split_and!.
    + by eexists.
    + eexists _, _. simpl. rewrite lookup_insert_eq. split_and!; done.
    + intros k0 r0 Hne. simpl. rewrite lookup_insert_Some. split.
      * intros Hr0. right. split; [congruence|done].
      * intros [[<- <-]|[? ?]]; [|done]. done.
    + intros k0 (k1&r1&Hr1&?&?). exists k1, r1. simpl.
      rewrite lookup_insert_ne by congruence. done.
Qed.

(** a batch acquisition that commits gives the workflow custody of every
    requested resource and touches no claim of any other workflow. *)
Theorem acquire_claims_custody wid resources clock d os d' :
  acquire_claims wid resources clock d = Ok (os, d') →
  (∀ resource k, resource ∈ resources → persisted_parts resource = Ok k → holds d' wid k) ∧
  others_kept wid d d' ∧ (∀ k, holds d wid k → holds d' wid k).
Proof.
  unfold acquire_claims. intros. tx_inv.
  match goal with H : require_live_owner _ _ = _ |- _ =>
    apply require_live_owner_Ok in H as (->&_&_) end.
  match goal with H : map_each _ _ _ = _ |- _ => rename H into Hmap end. revert os d Hmap.
  induction resources as [|resource resources IH]; intros os d H.
  - cbn [map_each] in H. tx_inv. split_and!; [by intros ?? ?%elem_of_nil|done|done].
  - cbn [map_each] in H. tx_inv.
    match goal with H : acquire_claim_in _ _ _ _ = _ |- _ =>
      assert (Hk : ∃ k, persisted_parts resource = Ok k)
        by (unfold acquire_claim_in in H; tx_inv; eauto); destruct Hk as [k Hk];
      apply (acquire_claim_in_Ok _ _ _ _ _ _ _ Hk) in H as (_&Hh&Hot&Hkeep) end.
    match goal with H : map_each _ _ _ = _ |- _ => apply IH in H as (Hall&Hot'&Hkeep') end.
    split_and!.
    + intros r' k' [->|?]%elem_of_cons Hk'; [|eauto].
      apply Hkeep'. by assert (k' = k) as -> by congruence.
    + intros k0 r0 Hne. rewrite (Hot k0 r0 Hne). by apply Hot'.
    + auto.
Qed.

(** For a live owner and a good clock a single acquisition is the inner one. *)
Lemma acquire_claim_live wid resource clock d w :
  instances d !! wid = Some w → WorkflowStatus.is_terminal (wf_status w) = false →
  in_i64 clock → 0 ≤ clock →
  acquire_claim wid resource clock d = acquire_claim_in wid resource clock d.
Proof.
  intros Hw Ht Hc Hp. unfold acquire_claim, acquire_claims. rewrite (now_millis_Ok _ Hc Hp).
  assert (Hlive : require_live_owner wid d = Ok (w, d)).
  { unfold require_live_owner, require_workflow, read_in, mbind, tx_bind, gets, lift. simpl.
    rewrite Hw. simpl. by rewrite Ht. }
  unfold mbind, tx_bind, lift, mret, tx_ret in *. cbn [map_each]. rewrite Hlive.
  unfold mbind, tx_bind. by destruct (acquire_claim_in wid resource clock d) as [[o d']|e].
Qed.

(** The only error of an inner acquisition on a live owner is a real conflict. *)
Lemma acquire_claim_in_Err wid resource now d e k :
  is_Some (instances d !! wid) → persisted_parts resource = Ok k →
  acquire_claim_in wid resource now d = Err e →
  ∃ owner, e = ClaimConflict resource owner ∧ owner ≠ wid ∧ holds d owner k.
Proof.
  intros Hw Hk E. unfold acquire_claim_in in E. rewrite Hk in E.
  rewrite (tx_bind_step _ _ d k d) in E by done.
  destruct (physical_claim_conflict_in resource wid d) as [[[owner|] d1]|e'] eqn:Ec.
  - rewrite (tx_bind_step _ _ _ _ _ Ec) in E. unfold fail in E. simplify_eq.
    apply conflict_Some in Ec as (?&k0&k'&r'&Hk0&?&?&?). simplify_eq.
    assert (k0 = k) as -> by congruence.
    exists (cl_workflow_id r'). split_and!; [done..|]. by exists k', r'.
  - rewrite (tx_bind_step _ _ _ _ _ Ec) in E.
    apply (conflict_None _ _ _ _ _ Hk) in Ec as [-> Hown]. erewrite tx_bind_step in E by done.
    destruct (limit_1 _) as [[k' r]|] eqn:El.
    + apply limit_1_Some, elem_of_select in El as [Hr Hm]. case_decide as Hne; [|done].
      destruct Hne. by eapply Hown.
    + apply tx_bind_Err in E as [E|E]; [|naive_solver].
      unfold insert_claim in E. erewrite tx_bind_step in E by done.
      case_decide as Hd; [done|]. destruct Hd. split; [|done].
      destruct (claims_table d !! k) as [r|] eqn:Er; [|done]. apply limit_1_None in El.
      assert (Hin : (k, r) ∈ ([] : list ((string * string) * ClaimRow))).
      { rewrite <-El. apply elem_of_select. split; [done|]. by apply same_resource_equiv. }
      by apply elem_of_nil in Hin.
  - unfold physical_claim_conflict_in in Ec. rewrite Hk in Ec.
    by rewrite (tx_bind_step _ _ d k d) in Ec.
Qed.

(** acquisition is decided by custody alone.  For a live workflow and a
    well-formed resource it succeeds when no other workflow holds the physical
    resource, whatever the spelling or namespace of the stored row, and otherwise
    reports a workflow that does hold it. *)
Theorem acquire_claim_decided_by_custody wid resource clock d w k :
  instances d !! wid = Some w → WorkflowStatus.is_terminal (wf_status w) = false →
  persisted_parts resource = Ok k → in_i64 clock → 0 ≤ clock →
  match acquire_claim wid resource clock d with
  | Ok (_, d') => holds d' wid k ∧ (∀ other, holds d other k → other = wid)
  | Err e => ∃ owner, e = ClaimConflict resource owner ∧ owner ≠ wid ∧ holds d owner k
  end.
Proof.
  intros Hw Ht Hk Hc Hp. rewrite (acquire_claim_live _ _ _ _ _ Hw Ht Hc Hp).
  destruct (acquire_claim_in wid resource clock d) as [[o d']|e] eqn:E.
  - destruct (acquire_claim_in_Ok _ _ _ _ _ _ _ Hk E) as (_&Hh&_&_). split; [done|].
    intros other (k'&r&Hr&Hs&<-). unfold acquire_claim_in in E. tx_inv.
    all: match goal with H : physical_claim_conflict_in _ _ _ = _ |- _ =>
      apply (conflict_None _ _ _ _ _ Hk) in H as [_ Hown] end; eauto.
  - by apply acquire_claim_in_Err with clock.
Qed.

(** ** Handoff *)

Lemma scan_owners_source from to resource owners b1 b2 c1 c2 :
  scan_owners from to resource owners b1 b2 = Ok (c1, c2) →
  (c1 = true ↔ b1 = true ∨ from ∈ owners) ∧
  (from ≠ to → c2 = true ↔ b2 = true ∨ to ∈ owners).
Proof.
  revert b1 b2. induction owners as [|o owners IH]; intros b1 b2 H; simpl in H.
  - simplify_eq. rewrite !elem_of_nil. naive_solver.
  - rewrite !elem_of_cons. repeat case_decide; simplify_eq; apply IH in H as [H1 H2].
    all: split; [rewrite H1|intros Hne; rewrite (H2 Hne)]; naive_solver.
Qed.

(** Rows stay where they are, with their owner or the destination's. *)
Definition handed_over (to : WorkflowId) (t t' : gmap (string * string) ClaimRow) : Prop :=
  ∀ k, match t !! k, t' !! k with
       | Some r, Some r' => cl_workflow_id r' = cl_workflow_id r ∨ cl_workflow_id r' = to
       | None, None => True
       | _, _ => False
       end.

Lemma handed_over_refl to t : handed_over to t t.
Proof. intros k. destruct (t !! k); auto. Qed.

Lemma handed_over_update p to now t : handed_over to t (update_where p (hand_over_claim to now) t).
Proof.
  intros k. rewrite lookup_update_where. destruct (t !! k) as [r|]; [|done]. simpl.
  destruct (p k r); auto.
Qed.

(** Custody the destination has exclusively survives further handoffs to it. *)
Lemma handed_over_keeps to t t' k :
  handed_over to t t' →
  (∀ k' r, t !! k' = Some r → same_resource k k' → cl_workflow_id r = to) →
  (∀ k' r, t' !! k' = Some r → same_resource k k' → cl_workflow_id r = to) ∧
  ((∃ k' r, t !! k' = Some r ∧ same_resource k k' ∧ cl_workflow_id r = to) →
   (∃ k' r, t' !! k' = Some r ∧ same_resource k k' ∧ cl_workflow_id r = to)).
Proof.
  intros Hh Hto. split.
  - intros k' r' Hr' Hs. specialize (Hh k'). rewrite Hr' in Hh.
    destruct (t !! k') as [r|] eqn:E; [|done]. specialize (Hto _ _ E Hs).
    destruct Hh; congruence.
  - intros (k'&r&Hr&Hs&Ho). specialize (Hh k'). rewrite Hr in Hh.
    destruct (t' !! k') as [r'|] eqn:E; [|done]. exists k', r'. split_and!; [done..|].
    destruct Hh; congruence.
Qed.

Lemma handed_over_trans to t1 t2 t3 :
  handed_over to t1 t2 → handed_over to t2 t3 → handed_over to t1 t3.
Proof.
  intros H12 H23 k. specialize (H12 k). specialize (H23 k).
  destruct (t1 !! k), (t2 !! k), (t3 !! k); try done. intuition congruence.
Qed.

(** What one handoff does to the claim table. *)
Lemma transfer_claim_in_Ok from to now resource d u d' k :
  from ≠ to → persisted_parts resource = Ok k →
  transfer_claim_in from to now resource d = Ok (u, d') →
  (∃ t, d' = with_claims (λ _, t) d) ∧
  (∀ k' r, claims_table d' !! k' = Some r → same_resource k k' → cl_workflow_id r = to) ∧
  holds d' to k ∧ handed_over to (claims_table d) (claims_table d') ∧
  (∀ k', ¬ same_resource k k' → claims_table d' !! k' = claims_table d !! k').
Proof.
  intros Hne Hk H. unfold transfer_claim_in in H. rewrite Hk in H.
  rewrite (tx_bind_step _ _ d k d) in H by done. erewrite tx_bind_step in H by done.
  apply tx_bind_Ok in H as ([c1 c2]&d1&Hs&H). apply lift_Ok in Hs as [Hs ->].
  assert (Hmem : ∀ o, o ∈ (cl_workflow_id ∘ snd <$> row_order (select (λ k' _, claim_matches k k')
      (claims_table d))) ↔ holds d o k).
  { intros o. rewrite list_elem_of_fmap. unfold holds. split.
    - intros ([k' r]&->&[? ?]%elem_of_row_order%elem_of_select). by exists k', r.
    - intros (k'&r&?&?&<-). exists (k', r). split; [done|].
      by apply elem_of_row_order, elem_of_select. }
  assert (Hthird := scan_owners_Ok _ _ _ _ _ _ _ Hs).
  apply scan_owners_source in Hs as [H1 H2]. specialize (H2 Hne). rewrite Hmem in H1, H2.
  assert (Hown : ∀ o, holds d o k → o = from ∨ o = to) by (intros; by apply Hthird, Hmem).
  destruct (c2 && negb c1) eqn:Hb.
  - apply andb_true_iff in Hb as [-> Hc1%negb_true_iff]. tx_inv. split_and!; [| | |apply handed_over_refl|done].
    + exists (claims_table d'). by destruct d'.
    + intros k' r Hr Hsr. assert (Hh : holds d' (cl_workflow_id r) k) by by exists k', r.
      destruct (Hown _ Hh) as [Heq|]; [|done]. rewrite Heq in Hh. intuition congruence.
    + destruct H2 as [[|] _]; done.
  - destruct c1; simpl in H; [|done]. tx_inv. destruct H1 as [[|(k1&r1&Hr1&Hs1&Ho1)] _]; [done..|].
    split_and!.
    + by eexists.
    + intros k' r Hr Hsr; simpl in Hr. apply lookup_update_where_Some in Hr as (r0&Hr0&->).
      rewrite (Hsr : claim_matches k k' = true). simpl. case_bool_decide; [done|].
      destruct (Hown (cl_workflow_id r0)) as [?|?]; [by exists k', r0|done|done].
    + exists k1, (hand_over_claim to now r1). simpl. split_and!; [|done..].
      rewrite lookup_update_where, Hr1. simpl.
      by rewrite (Hs1 : claim_matches k k1 = true), bool_decide_eq_true_2.
    + apply handed_over_update.
    + intros k' Hns. simpl. rewrite lookup_update_where. destruct (claims_table _ !! k'); [|done].
      simpl. by destruct (claim_matches k k') eqn:E; [destruct (Hns E)|].
Qed.

Lemma transfer_loop_Ok from to now resources d u d' :
  from ≠ to → for_each (transfer_claim_in from to now) resources d = Ok (u, d') →
  (∀ resource k, resource ∈ resources → persisted_parts resource = Ok k →
     holds d' to k ∧ ∀ k' r, claims_table d' !! k' = Some r → same_resource k k' →
       cl_workflow_id r = to) ∧
  handed_over to (claims_table d) (claims_table d') ∧
  (∀ k', (∀ resource k, resource ∈ resources → persisted_parts resource = Ok k →
     ¬ same_resource k k') → claims_table d' !! k' = claims_table d !! k').
Proof.
  intros Hne. revert d. induction resources as [|resource resources IH]; intros d H;
    cbn [for_each] in H.
  { tx_inv. split_and!; [by intros ?? ?%elem_of_nil|apply handed_over_refl|done]. }
  apply tx_bind_Ok in H as ([]&d1&H1&H2). apply IH in H2 as (Hall&Hh&Hframe).
  assert (Hk : ∃ k, persisted_parts resource = Ok k)
    by (apply tx_bind_Ok in H1 as (k&?&[Hk _]%lift_Ok&_); eauto).
  destruct Hk as [k Hk].
  apply (transfer_claim_in_Ok _ _ _ _ _ _ _ _ Hne Hk) in H1 as (_&Hto&Hhold&Hh1&Hfr1).
  split_and!.
  - intros resource' k' [->|Hin]%elem_of_cons Hk'; [|eauto].
    assert (k' = k) as -> by congruence.
    destruct (handed_over_keeps _ _ _ k Hh Hto) as [Hto' Hhold']. split; [|done].
    by apply Hhold'.
  - by eapply handed_over_trans.
  - intros k' Hk'. rewrite Hframe.
    + apply Hfr1. apply (Hk' resource); [by left|done].
    + intros r k0 Hin. apply (Hk' r). by right.
Qed.

(** a handoff between a parent and its child that commits moves custody of every
    named resource to the destination, with no row of it left to the source, and
    leaves every other resource's claims as they were. *)
Theorem transfer_claims_moves_custody from to resources clock d u d' :
  from ≠ to → transfer_claims from to resources clock d = Ok (u, d') →
  (∀ resource k, resource ∈ resources → persisted_parts resource = Ok k →
     holds d' to k ∧ ¬ holds d' from k) ∧
  (∀ k', (∀ resource k, resource ∈ resources → persisted_parts resource = Ok k →
            ¬ same_resource k k') →
     claims_table d' !! k' = claims_table d !! k').
Proof.
  intros Hne H. unfold transfer_claims, transfer_claims_in, require_workflow, read_in in H. tx_inv.
  match goal with H : for_each _ _ _ = _ |- _ =>
    apply (transfer_loop_Ok _ _ _ _ _ _ _ Hne) in H as (Hall&_&Hframe) end.
  split; [|done]. intros resource k Hin Hk. destruct (Hall _ _ Hin Hk) as [Hh Hto].
  split; [done|]. intros (k'&r&Hr&Hs&Ho). rewrite (Hto _ _ Hr Hs) in Ho. done.
Qed.

(** ** Reserve *)

(** The physical identity a reserve candidate is counted under. *)
Definition reserve_identity (k : string * string) : string * string :=
  (k.1, if is_exclusive_namespace k.1 then to_ascii_uppercase k.2 else k.2).

Lemma available_reserve_Ok parts reserve d available d' :
  available_reserve parts reserve d = Ok (available, d') →
  ∀ id, id ∈ available → ∃ candidate k, candidate ∈ reserve ∧
    persisted_parts candidate = Ok k ∧ id = reserve_identity k ∧
    ¬ same_resource k parts ∧ ∀ owner, ¬ holds d owner k.
Proof.
  intros H. cut (d' = d ∧ ∀ id, id ∈ available → ∃ candidate k, candidate ∈ reserve ∧
    persisted_parts candidate = Ok k ∧ id = reserve_identity k ∧
    ¬ same_resource k parts ∧ ∀ owner, ¬ holds d owner k); [tauto|].
  revert H. apply (fold_each_inv (λ available d', d' = d ∧ ∀ id, id ∈ available →
    ∃ candidate k, candidate ∈ reserve ∧ persisted_parts candidate = Ok k ∧
    id = reserve_identity k ∧ ¬ same_resource k parts ∧ ∀ owner, ¬ holds d owner k)).
  2: { split; [done|]. by intros id ?%elem_of_empty. }
  intros candidate acc d1 acc' d2 Hin [-> Hacc] H.
  apply tx_bind_Ok in H as (k&d3&Hk&H). apply lift_Ok in Hk as [Hk ->].
  cbv zeta in H. destruct ((bool_decide (k.1 = parts.1) || _) && _) eqn:Hsame; [tx_inv; by split|].
  apply tx_bind_Ok in H as (claimed&d3&Hg&H). unfold gets in Hg. simplify_eq.
  destruct (exists_row _ _) eqn:Hex; tx_inv; [by split|]. split; [done|].
  intros id [->%elem_of_singleton|?]%elem_of_union; [|eauto].
  exists candidate, k. split_and!; [done..| |].
  - intros Hs. apply same_resource_spec in Hs as [Hkey Hns].
    apply andb_false_iff in Hsame as [Hsame|Hsame];
      rewrite orb_false_iff, ?andb_false_iff, bool_decide_eq_false in Hsame;
      intuition congruence.
  - intros owner (k'&r&Hr&Hs&_). apply (proj1 (exists_row_false _ _) Hex) in Hr.
    unfold same_resource in Hs. congruence.
Qed.

(** acquiring a resource under a reserve leaves at least the required number of
    reserve identities, none of them the acquired resource, with no claim by
    anyone. *)
Theorem acquire_preserving_reserve_keeps_reserve wid resource reserve minimum clock d o d' :
  0 < minimum →
  acquire_claim_preserving_reserve wid resource reserve minimum clock d = Ok (o, d') →
  ∃ available : gset (string * string), minimum ≤ Z.of_nat (size available) ∧
    ∀ id, id ∈ available → ∃ candidate k, candidate ∈ reserve ∧
      persisted_parts candidate = Ok k ∧ id = reserve_identity k ∧
      ∀ owner, ¬ holds d' owner k.
Proof.
  intros Hmin H. unfold acquire_claim_preserving_reserve in H.
  apply tx_bind_Ok in H as (parts&d0&Hparts&H). apply lift_Ok in Hparts as [Hparts ->].
  apply tx_bind_Ok in H as (now&d0&Hnow&H). apply lift_Ok in Hnow as [_ ->].
  apply tx_bind_Ok in H as (w&d0&Hw&H). apply require_live_owner_Ok in Hw as (->&_&_).
  apply tx_bind_Ok in H as (c&d0&Hc&H). apply conflict_read_only in Hc as ->.
  destruct c; [done|]. rewrite decide_True in H by done.
  apply tx_bind_Ok in H as ([]&d0&Hres&H).
  apply tx_bind_Ok in Hres as (available&d1&Ha&Hres).
  assert (d1 = d) as -> by by eapply available_reserve_read_only.
  assert (Hall := available_reserve_Ok _ _ _ _ _ Ha). case_decide; [done|]. tx_inv.
  all: exists available; split; [lia|]; intros id Hid;
    destruct (Hall id Hid) as (candidate&k&?&?&?&Hns&Hfree); exists candidate, k;
    split_and!; [done..|]; intros owner (k'&r&Hr&Hs&Ho); simpl in Hr.
  - apply lookup_update_where_Some in Hr as (r0&Hr0&->).
    apply (Hfree (cl_workflow_id r0)). by exists k', r0.
  - match goal with H : insert_claim _ _ _ = _ |- _ =>
      apply insert_claim_Ok in H as [-> _]; simpl in Hr end.
    apply lookup_insert_Some in Hr as [[<- <-]|[_ Hr]]; [done|].
    apply (Hfree owner). by exists k', r.
Qed.

(** ** Listing *)

(** on claims in order, [claims] lists exactly the rows the workflow owns, and the
    resource of every listed claim persists to that row's key. *)
Theorem claims_lists_owned wid d :
  claims_ok d → ∃ l, claims wid d = Ok (l, d) ∧
    ∀ c, c ∈ l ↔ ∃ k r, claims_table d !! k = Some r ∧ cl_workflow_id r = wid ∧
      persisted_parts (rc_resource c) = Ok k ∧ rc_workflow_id c = wid ∧
      rc_acquired_at c = cl_acquired_at r ∧ rc_updated_at c = cl_updated_at r.
Proof.
  intros Hok. eexists. split; [done|]. intros c. rewrite list_elem_of_fmap. split.
  - intros ([[ns key] r]&->&[Hr Ho]%elem_of_sort_by%elem_of_select).
    apply bool_decide_eq_true in Ho. exists (ns, key), r. simpl.
    destruct (ok_keys _ _ Hok _ _ Hr) as [resource Hres].
    rewrite (persisted_parts_resource_key _ _ _ Hres). done.
  - intros ([ns key]&r&Hr&Ho&Hp&Hw&Ha&Hu). exists ((ns, key), r). split.
    + unfold claim_of_row. simpl. rewrite (persisted_parts_resource_key _ _ _ Hp).
      destruct c; simpl in *; congruence.
    + apply elem_of_sort_by, elem_of_select. split; [done|]. by apply bool_decide_eq_true.
Qed.

End ClaimOperations.
