(* ===== verification/WorkItems.v ===== *)
(** * Campaign work items

    The work-item operations of [WorkflowRepository]: reconciliation of the
    desired set, claiming, starting and transitioning items, attempt intervals,
    worker assignments, start-up reclamation and campaign aggregation. *)

From S2P Require Import Prelude Model Store Claims.

Section WorkItems.
Context `{SD : Serde}.

(** ** Retry delay *)

(** [Uuid::as_bytes]: the sixteen bytes, most significant first. *)
Definition uuid_bytes (id : N) : list Z :=
  (λ i : nat, Z.land (Z.shiftr (Z.of_N id) (8 * (15 - Z.of_nat i))) 255) <$> seq 0 16.

(** [u32::to_le_bytes] *)
Definition u32_to_le_bytes (n : Z) : list Z :=
  (λ i : nat, Z.land (Z.shiftr n (8 * Z.of_nat i)) 255) <$> seq 0 4.

Definition retry_base_ms : Z := 300000.
Definition retry_cap_ms : Z := 21600000.

Definition unjittered_delay_ms (consecutive_failure_count : Z) : Z :=
  let exponent := Z.max 0 (consecutive_failure_count - 1) in
  if decide (7 ≤ exponent) then retry_cap_ms
  else Z.min (Z.min u64_max (retry_base_ms * Z.shiftl 1 exponent)) retry_cap_ms.

(** [work_item_retry_delay_ms] *)
Definition work_item_retry_delay_ms (item_id : WorkItemId) (attempt_ordinal : Z)
    (consecutive_failure_count : Z) : Z :=
  let unjittered := unjittered_delay_ms consecutive_failure_count in
  let hash := fnv1a (uuid_bytes item_id ++ u32_to_le_bytes attempt_ordinal) in
  let jitter_basis_points := default 0 (i64_try_from (hash mod 2001)) - 1000 in
  let factor := default 10000 (u64_try_from (10000 + jitter_basis_points)) in
  let jittered :=
    Z.min (default retry_cap_ms (u64_try_from (unjittered * factor / 10000))) retry_cap_ms in
  default i64_max (i64_try_from jittered).

(** ** Row helpers *)

(** [verify_work_item_revision] *)
Definition verify_work_item_revision (id : WorkItemId) (item : WorkItem) (expected_revision : Z)
    : res unit :=
  if decide (st_revision (it_state item) = expected_revision) then Ok tt
  else Err (ConcurrentWorkItemUpdate id expected_revision).

(** [work_item_revision_to_sql] *)
Definition work_item_revision_to_sql (revision : Z) : res Z :=
  ok_or (i64_try_from revision) (RevisionOutOfRange revision).

(** [invalid_work_item_transition] *)
Definition invalid_work_item_transition (item : WorkItem) (to : WorkItemStatus.t)
    : RepositoryError :=
  InvalidWorkItemTransition (st_status (it_state item)) to.

(** [ORDER BY sort_key, dedupe_key, id] *)
Definition item_leb (a b : N * WorkItem) : bool :=
  let ka := (sp_sort_key (it_spec a.2), sp_dedupe_key (it_spec a.2)) in
  let kb := (sp_sort_key (it_spec b.2), sp_dedupe_key (it_spec b.2)) in
  if decide (ka = kb) then (a.1 <=? b.1)%N else str_pair_leb ka kb.

(** [list_work_items_in] *)
Definition list_work_items_in (workflow_id : WorkflowId) : rtx (list (N * WorkItem)) :=
  gets (λ d, sort_by item_leb
    (select (λ _ i, bool_decide (sp_workflow_id (it_spec i) = workflow_id)) (work_items d))).

(** [close_open_attempt] *)
Definition close_open_attempt (item_id : WorkItemId) (outcome : WorkItemAttemptOutcome.t)
    (error : option string) (ended_at_ms : Z) : rtx unit :=
  let p := λ (k : N * Z) a, bool_decide (k.1 = item_id) && is_open_attempt a in
  changed ← gets (λ d, count p (attempts d));
  _ ← modify (with_attempts (update_where p (close_attempt_row ended_at_ms outcome error)));
  if decide (changed = 1) then mret tt
  else fail (InvalidWorkItemAssignment "running item must have exactly one open attempt").

(** ** Reconciling the desired set *)

(** [read_work_item_by_key_in] *)
Definition read_work_item_by_key_in (workflow_id : WorkflowId) (dedupe_key : string)
    : rtx (option WorkItem) :=
  gets (λ d, snd <$> head (select (λ _ i,
    bool_decide (sp_workflow_id (it_spec i) = workflow_id)
    && bool_decide (sp_dedupe_key (it_spec i) = dedupe_key)) (work_items d))).

(** The first loop of [reconcile_work_items]: one specification per key. *)
Fixpoint desired_specs (workflow_id : WorkflowId) (desired : list WorkItemSpec)
    (acc : gmap string WorkItemSpec) : res (gmap string WorkItemSpec) :=
  match desired with
  | [] => Ok acc
  | spec :: desired =>
      let conflict := bool_decide (sp_workflow_id spec ≠ workflow_id)
        || match acc !! sp_dedupe_key spec with
           | Some existing => bool_decide (existing ≠ spec)
           | None => false
           end in
      if conflict then Err (WorkItemSpecConflict workflow_id (sp_dedupe_key spec))
      else desired_specs workflow_id desired
             (match acc !! sp_dedupe_key spec with
              | Some _ => acc
              | None => <[sp_dedupe_key spec := spec]> acc
              end)
  end.

Definition pending_state (now_ms : Z) : WorkItemState :=
  {| st_status := WorkItemStatus.Pending; st_checkpoint_json := None; st_result_json := None;
     st_last_error := None; st_attempt_count := 0; st_consecutive_failure_count := 0;
     st_next_attempt_at_ms := None; st_ever_started := false; st_created_at_ms := now_ms;
     st_updated_at_ms := now_ms; st_revision := 0 |}.

(** [INSERT INTO workflow_work_items]: the primary key, the unique key of a
    campaign and the foreign key. *)
Definition insert_work_item (id : WorkItemId) (spec : WorkItemSpec) (now_ms : Z) : rtx unit :=
  d ← get;
  if decide (work_items d !! id = None ∧ is_Some (instances d !! sp_workflow_id spec) ∧
             exists_row (λ _ i, bool_decide (sp_workflow_id (it_spec i) = sp_workflow_id spec)
               && bool_decide (sp_dedupe_key (it_spec i) = sp_dedupe_key spec))
               (work_items d) = false)
  then modify (with_work_items (<[id := {| it_spec := spec; it_state := pending_state now_ms |}]>))
  else fail Sql.

(** One iteration of the insertion loop of [reconcile_work_items]; [fresh] gives
    the identifier generated for a key. *)
Definition reconcile_one (workflow_id : WorkflowId) (now_ms : Z) (fresh : string → WorkItemId)
    (ks : string * WorkItemSpec) : rtx unit :=
  existing ← read_work_item_by_key_in workflow_id ks.1;
  match existing with
  | Some existing =>
      if decide (it_spec existing ≠ ks.2)
      then fail (WorkItemSpecConflict workflow_id ks.1)
      else mret tt
  | None => insert_work_item (fresh ks.1) ks.2 now_ms
  end.

(** [reconcile_work_items] *)
Definition reconcile_work_items (workflow_id : WorkflowId) (desired : list WorkItemSpec)
    (now_ms : Z) (fresh : string → WorkItemId) : rtx (list (N * WorkItem)) :=
  desired_by_key ← lift (desired_specs workflow_id desired ∅);
  owner ← require_workflow workflow_id;
  if WorkflowStatus.is_terminal (wf_status owner)
  then fail (TerminalWorkItemOwner workflow_id)
  else
    _ ← for_each (reconcile_one workflow_id now_ms fresh)
         (sort_by (λ a b, String.leb a.1 b.1) (map_to_list desired_by_key));
    list_work_items_in workflow_id.

(** ** Claiming and starting *)

Definition dependencies_met (d : DB) (i : WorkItem) : bool :=
  forallb (λ dep : option string, match dep with
    | None => false
    | Some key => exists_row (λ _ p,
        bool_decide (sp_workflow_id (it_spec p) = sp_workflow_id (it_spec i))
        && bool_decide (sp_dedupe_key (it_spec p) = key)
        && (bool_decide (st_status (it_state p) = WorkItemStatus.Succeeded)
            || bool_decide (st_status (it_state p) = WorkItemStatus.Skipped))) (work_items d)
    end) (succeeded_dependencies (sp_preconditions_json (it_spec i))).

(** The [WHERE] clause of [claim_next_work_item]. *)
Definition eligible (d : DB) (workflow_id : WorkflowId) (now_ms : Z) (i : WorkItem) : bool :=
  let s := it_state i in
  bool_decide (sp_workflow_id (it_spec i) = workflow_id)
  && ((bool_decide (st_status s = WorkItemStatus.Pending)
       && match st_next_attempt_at_ms s with
          | None => true
          | Some t => bool_decide (t ≤ now_ms)
          end)
      || (bool_decide (st_status s = WorkItemStatus.Waiting)
          && match st_next_attempt_at_ms s with
             | None => false
             | Some t => bool_decide (t ≤ now_ms)
             end))
  && dependencies_met d i.

Definition assign_state (now_ms : Z) (s : WorkItemState) : WorkItemState :=
  {| st_status := WorkItemStatus.Assigned; st_checkpoint_json := st_checkpoint_json s;
     st_result_json := st_result_json s; st_last_error := st_last_error s;
     st_attempt_count := st_attempt_count s;
     st_consecutive_failure_count := st_consecutive_failure_count s;
     st_next_attempt_at_ms := None; st_ever_started := st_ever_started s;
     st_created_at_ms := st_created_at_ms s; st_updated_at_ms := now_ms;
     st_revision := st_revision s + 1 |}.

(** [claim_next_work_item] *)
Definition claim_next_work_item (workflow_id : WorkflowId) (now_ms : Z)
    : rtx (option (N * WorkItem)) :=
  owner ← require_workflow workflow_id;
  if WorkflowStatus.is_terminal (wf_status owner)
  then fail (TerminalWorkItemOwner workflow_id)
  else
    next ← gets (λ d, head (sort_by item_leb
             (select (λ _ i, eligible d workflow_id now_ms i) (work_items d))));
    match next with
    | None => mret None
    | Some (id, _) =>
        _ ← modify (with_work_items
              (update_where (λ k _, bool_decide (k = id)) (with_state (assign_state now_ms))));
        claimed ← require_work_item id;
        mret (Some (id, claimed))
    end.

Definition start_state (attempt_ordinal started_at_ms : Z) (s : WorkItemState) : WorkItemState :=
  {| st_status := WorkItemStatus.Running; st_checkpoint_json := st_checkpoint_json s;
     st_result_json := st_result_json s; st_last_error := st_last_error s;
     st_attempt_count := attempt_ordinal;
     st_consecutive_failure_count := st_consecutive_failure_count s;
     st_next_attempt_at_ms := st_next_attempt_at_ms s; st_ever_started := true;
     st_created_at_ms := st_created_at_ms s; st_updated_at_ms := started_at_ms;
     st_revision := st_revision s + 1 |}.

(** [INSERT INTO workflow_work_item_attempts]: the primary key, the unique index
    on open attempts and the foreign key. *)
Definition insert_attempt (item_id : WorkItemId) (ordinal : Z) (a : WorkItemAttempt) : rtx unit :=
  d ← get;
  if decide (attempts d !! (item_id, ordinal) = None ∧ is_Some (work_items d !! item_id) ∧
             (is_open_attempt a = true →
              exists_row (λ k a, bool_decide (k.1 = item_id) && is_open_attempt a)
                (attempts d) = false))
  then modify (with_attempts (<[(item_id, ordinal) := a]>))
  else fail Sql.

(** [start_work_item] *)
Definition start_work_item (id : WorkItemId) (expected_revision : Z)
    (worker_identity assignment_id : string) (started_at_ms : Z) : rtx WorkItem :=
  if decide (assignment_id = "")
  then fail (InvalidWorkItemAssignment "assignment_id must not be empty")
  else if decide (worker_identity = "")
  then fail (InvalidWorkItemAssignment "worker_identity must not be empty")
  else
    expected ← lift (work_item_revision_to_sql expected_revision);
    current ← require_work_item id;
    _ ← lift (verify_work_item_revision id current expected_revision);
    if decide (st_status (it_state current) ≠ WorkItemStatus.Assigned)
    then fail (InvalidWorkItemTransition (st_status (it_state current)) WorkItemStatus.Running)
    else
      attempt_ordinal ← lift (ok_or (u32_try_from (st_attempt_count (it_state current) + 1))
        (InvalidStoredWorkItemCount "attempt" (st_attempt_count (it_state current))));
      _ ← insert_attempt id attempt_ordinal
            {| at_assignment_id := assignment_id; at_worker_identity := worker_identity;
               at_started_at_ms := started_at_ms; at_ended_at_ms := None; at_outcome := None;
               at_error := None |};
      let p := λ k i, bool_decide (k = id) && bool_decide (st_revision (it_state i) = expected) in
      changed ← gets (λ d, count p (work_items d));
      _ ← modify (with_work_items
            (update_where p (with_state (start_state attempt_ordinal started_at_ms))));
      if decide (changed = 0) then fail (ConcurrentWorkItemUpdate id expected_revision)
      else require_work_item id.

(** ** Transitions *)

(** The local variables [transition_work_item_in] computes before it writes. *)
Record TransitionPlan := {
  pn_status : WorkItemStatus.t;
  pn_checkpoint : option Value;
  pn_result : option Value;
  pn_last_error : option string;
  pn_consecutive_failures : Z;
  pn_next_attempt_at_ms : option Z;
  pn_attempt_close : option (WorkItemAttemptOutcome.t * option string);
  pn_release_allocations : bool;
}.

Definition close_if_running (s : WorkItemStatus.t) (outcome : WorkItemAttemptOutcome.t)
    (error : option string) : option (WorkItemAttemptOutcome.t * option string) :=
  if decide (s = WorkItemStatus.Running) then Some (outcome, error) else None.

(** [a.or(b)] *)
Definition option_or {A} (a b : option A) : option A :=
  match a with Some _ => a | None => b end.

(** The [match transition] of [transition_work_item_in]. *)
Definition plan_transition (id : WorkItemId) (current : WorkItem)
    (transition : WorkItemTransition) (now_ms : Z) : res TransitionPlan :=
  let s := it_state current in
  match transition with
  | CheckpointCommitted checkpoint_json =>
      if decide (st_status s ≠ WorkItemStatus.Running)
      then Err (invalid_work_item_transition current WorkItemStatus.Running)
      else Ok {| pn_status := st_status s; pn_checkpoint := Some checkpoint_json;
                 pn_result := st_result_json s; pn_last_error := None;
                 pn_consecutive_failures := 0; pn_next_attempt_at_ms := None;
                 pn_attempt_close := None; pn_release_allocations := false |}
  | TWaiting checkpoint_json reason retry_at_ms =>
      match st_status s with
      | WorkItemStatus.Pending | WorkItemStatus.Assigned
      | WorkItemStatus.Running | WorkItemStatus.Waiting =>
          Ok {| pn_status := WorkItemStatus.Waiting;
                pn_checkpoint := option_or checkpoint_json (st_checkpoint_json s);
                pn_result := st_result_json s; pn_last_error := Some reason;
                pn_consecutive_failures := st_consecutive_failure_count s;
                pn_next_attempt_at_ms := retry_at_ms;
                pn_attempt_close :=
                  close_if_running (st_status s) WorkItemAttemptOutcome.Reclaimed None;
                pn_release_allocations := false |}
      | _ => Err (invalid_work_item_transition current WorkItemStatus.Waiting)
      end
  | RetryableFailure checkpoint_json error =>
      if decide (st_status s ≠ WorkItemStatus.Running)
      then Err (invalid_work_item_transition current WorkItemStatus.Pending)
      else
        failures ← ok_or (u32_try_from (st_consecutive_failure_count s + 1))
          (InvalidStoredWorkItemCount "consecutive failure" (st_consecutive_failure_count s));
        let delay := work_item_retry_delay_ms id (st_attempt_count s) failures in
        Ok {| pn_status := WorkItemStatus.Pending;
              pn_checkpoint := option_or checkpoint_json (st_checkpoint_json s);
              pn_result := st_result_json s; pn_last_error := Some error;
              pn_consecutive_failures := failures;
              pn_next_attempt_at_ms := Some (saturating_add_i64 now_ms delay);
              pn_attempt_close := Some (WorkItemAttemptOutcome.Failed, Some error);
              pn_release_allocations := false |}
  | TSucceeded checkpoint_json result_json =>
      if decide (st_status s ≠ WorkItemStatus.Running)
      then Err (invalid_work_item_transition current WorkItemStatus.Succeeded)
      else Ok {| pn_status := WorkItemStatus.Succeeded;
                 pn_checkpoint := option_or checkpoint_json (st_checkpoint_json s);
                 pn_result := result_json; pn_last_error := None;
                 pn_consecutive_failures := 0; pn_next_attempt_at_ms := None;
                 pn_attempt_close := Some (WorkItemAttemptOutcome.Succeeded, None);
                 pn_release_allocations := false |}
  | TSkipped reason result_json =>
      Ok {| pn_status := WorkItemStatus.Skipped; pn_checkpoint := st_checkpoint_json s;
            pn_result := result_json; pn_last_error := Some reason;
            pn_consecutive_failures := 0; pn_next_attempt_at_ms := None;
            pn_attempt_close :=
              close_if_running (st_status s) WorkItemAttemptOutcome.Succeeded None;
            pn_release_allocations := false |}
  | TFailed error result_json =>
      Ok {| pn_status := WorkItemStatus.Failed; pn_checkpoint := st_checkpoint_json s;
            pn_result := result_json; pn_last_error := Some error;
            pn_consecutive_failures := 0; pn_next_attempt_at_ms := None;
            pn_attempt_close :=
              close_if_running (st_status s) WorkItemAttemptOutcome.Failed (Some error);
            pn_release_allocations := false |}
  | TAbandoned reason =>
      Ok {| pn_status := WorkItemStatus.Abandoned; pn_checkpoint := st_checkpoint_json s;
            pn_result := st_result_json s; pn_last_error := Some reason;
            pn_consecutive_failures := 0; pn_next_attempt_at_ms := None;
            pn_attempt_close :=
              close_if_running (st_status s) WorkItemAttemptOutcome.Cancelled None;
            pn_release_allocations := false |}
  | TReclaimed checkpoint_json =>
      match st_status s with
      | WorkItemStatus.Assigned | WorkItemStatus.Running =>
          Ok {| pn_status := WorkItemStatus.Pending;
                pn_checkpoint := option_or checkpoint_json (st_checkpoint_json s);
                pn_result := st_result_json s; pn_last_error := st_last_error s;
                pn_consecutive_failures := st_consecutive_failure_count s;
                pn_next_attempt_at_ms := None;
                pn_attempt_close :=
                  close_if_running (st_status s) WorkItemAttemptOutcome.Reclaimed None;
                pn_release_allocations := true |}
      | _ => Err (invalid_work_item_transition current WorkItemStatus.Pending)
      end
  end.

(** The release of an item's active allocations and of the claims that back them. *)
Definition release_item_allocations (workflow_id : WorkflowId) (item_id : WorkItemId)
    (now_ms : Z) : rtx unit :=
  d ← get;
  _ ← modify (with_claims (delete_where (λ (k : string * string) row,
        bool_decide (cl_workflow_id row = workflow_id)
        && exists_row (λ _ a, bool_decide (ar_item_id a = item_id) && is_active_allocation a
             && bool_decide (ar_namespace a = k.1) && bool_decide (ar_key a = k.2))
             (allocations d))));
  update_allocations (λ _ a, bool_decide (ar_item_id a = item_id) && is_active_allocation a)
    (release_allocation_row now_ms).

Definition apply_plan (plan : TransitionPlan) (now_ms : Z) (s : WorkItemState) : WorkItemState :=
  {| st_status := pn_status plan; st_checkpoint_json := pn_checkpoint plan;
     st_result_json := pn_result plan; st_last_error := pn_last_error plan;
     st_attempt_count := st_attempt_count s;
     st_consecutive_failure_count := pn_consecutive_failures plan;
     st_next_attempt_at_ms := pn_next_attempt_at_ms plan; st_ever_started := st_ever_started s;
     st_created_at_ms := st_created_at_ms s; st_updated_at_ms := now_ms;
     st_revision := st_revision s + 1 |}.

(** [transition_work_item_in] *)
Definition transition_work_item_in (id : WorkItemId) (current : WorkItem)
    (transition : WorkItemTransition) (now_ms : Z) : rtx unit :=
  if WorkItemStatus.is_terminal (st_status (it_state current))
  then fail (invalid_work_item_transition current (st_status (it_state current)))
  else
    plan ← lift (plan_transition id current transition now_ms);
    _ ← match pn_attempt_close plan with
        | Some (outcome, error) => close_open_attempt id outcome error now_ms
        | None => mret tt
        end;
    _ ← (if WorkItemStatus.is_terminal (pn_status plan)
         then release_item_allocations (sp_workflow_id (it_spec current)) id now_ms
         else if pn_release_allocations plan
         then release_item_allocations (sp_workflow_id (it_spec current)) id now_ms
         else mret tt);
    _ ← match pn_status plan with
        | WorkItemStatus.Assigned | WorkItemStatus.Running => mret 0
        | _ => update_assignments
                 (λ _ a, bool_decide (as_item_id a = id) && is_unreleased_assignment a)
                 (release_assignment_row now_ms)
        end;
    expected_revision ← lift (work_item_revision_to_sql (st_revision (it_state current)));
    let p := λ k i, bool_decide (k = id)
                    && bool_decide (st_revision (it_state i) = expected_revision) in
    changed ← gets (λ d, count p (work_items d));
    _ ← modify (with_work_items (update_where p (with_state (apply_plan plan now_ms))));
    if decide (changed = 0)
    then fail (ConcurrentWorkItemUpdate id (st_revision (it_state current)))
    else mret tt.

(** [transition_work_item] *)
Definition transition_work_item (id : WorkItemId) (expected_revision : Z)
    (transition : WorkItemTransition) (now_ms : Z) : rtx WorkItem :=
  current ← require_work_item id;
  _ ← lift (verify_work_item_revision id current expected_revision);
  _ ← transition_work_item_in id current transition now_ms;
  require_work_item id.

(** ** Assignments *)

(** [INSERT INTO workflow_assignments]: the primary key, the foreign key and the
    two unique indexes on assignments that are not released. *)
Definition insert_assignment (id : string) (a : AssignmentRow) : rtx unit :=
  d ← get;
  if decide (assignments d !! id = None ∧ is_Some (work_items d !! as_item_id a) ∧
             exists_row (λ _ b, is_unreleased_assignment b
               && (bool_decide (as_item_id b = as_item_id a)
                   || (bool_decide (as_worker_namespace b = as_worker_namespace a)
                       && bool_decide (as_worker_key b = as_worker_key a))))
               (assignments d) = false)
  then modify (with_assignments (<[id := a]>))
  else fail Sql.

(** [assign_work_item] *)
Definition assign_work_item (item_id : WorkItemId) (expected_revision : Z)
    (assignment_id : string) (worker : ResourceKey) (now_ms : Z) : rtx unit :=
  if decide (assignment_id = "")
  then fail (InvalidWorkItemAssignment "assignment_id must not be empty")
  else
    parts ← lift (persisted_parts worker);
    item ← require_work_item item_id;
    _ ← lift (verify_work_item_revision item_id item expected_revision);
    if decide (st_status (it_state item) ≠ WorkItemStatus.Assigned)
    then fail (invalid_work_item_transition item WorkItemStatus.Assigned)
    else insert_assignment assignment_id
           {| as_item_id := item_id; as_worker_namespace := parts.1; as_worker_key := parts.2;
              as_state := AsgActive; as_reclaim_requested_at_ms := None;
              as_created_at_ms := now_ms; as_updated_at_ms := now_ms |}.

Definition request_reclaim_row (now_ms : Z) (a : AssignmentRow) : AssignmentRow :=
  {| as_item_id := as_item_id a; as_worker_namespace := as_worker_namespace a;
     as_worker_key := as_worker_key a; as_state := AsgReclaimRequested;
     as_reclaim_requested_at_ms := Some now_ms;
     as_created_at_ms := as_created_at_ms a; as_updated_at_ms := now_ms |}.

(** [request_work_item_reclaim] *)
Definition request_work_item_reclaim (item_id : WorkItemId) (now_ms : Z) : rtx bool :=
  changed ← update_assignments
    (λ _ a, bool_decide (as_item_id a = item_id) && bool_decide (as_state a = AsgActive))
    (request_reclaim_row now_ms);
  mret (bool_decide (changed ≠ 0)).

(** [work_item_reclaim_requested] *)
Definition work_item_reclaim_requested (item_id : WorkItemId) : rtx bool :=
  gets (λ d, exists_row (λ _ a, bool_decide (as_item_id a = item_id)
                                && bool_decide (as_state a = AsgReclaimRequested))
               (assignments d)).

(** ** Start-up reclamation *)

Definition reclaim_state (now_ms : Z) (s : WorkItemState) : WorkItemState :=
  {| st_status := WorkItemStatus.Pending; st_checkpoint_json := st_checkpoint_json s;
     st_result_json := st_result_json s; st_last_error := st_last_error s;
     st_attempt_count := st_attempt_count s;
     st_consecutive_failure_count := st_consecutive_failure_count s;
     st_next_attempt_at_ms := None; st_ever_started := st_ever_started s;
     st_created_at_ms := st_created_at_ms s; st_updated_at_ms := now_ms;
     st_revision := st_revision s + 1 |}.

(** The [SELECT] of [reconcile_orphaned_work_items]. *)
Definition orphaned (d : DB) (workflow_id : option WorkflowId) (i : WorkItem) : bool :=
  (bool_decide (st_status (it_state i) = WorkItemStatus.Assigned)
   || bool_decide (st_status (it_state i) = WorkItemStatus.Running))
  && match instances d !! sp_workflow_id (it_spec i) with
     | None => false
     | Some w =>
         match wf_status w with
         | Queued | Running | Waiting | Reconciling => true
         | Paused => bool_decide (workflow_id ≠ None)
         | _ => false
         end
     end
  && match workflow_id with
     | None => true
     | Some id => bool_decide (sp_workflow_id (it_spec i) = id)
     end.

(** One iteration of [reconcile_orphaned_work_items]. *)
Definition reclaim_orphan (now_ms : Z) (row : N * WorkItem) : rtx unit :=
  let '(id, i) := row in
  _ ← (if decide (st_status (it_state i) = WorkItemStatus.Running)
       then close_open_attempt id WorkItemAttemptOutcome.Reclaimed None now_ms
       else mret tt);
  d ← get;
  _ ← modify (with_claims (delete_where (λ (k : string * string) claim,
        exists_row (λ _ a, bool_decide (ar_item_id a = id) && is_active_allocation a
          && match work_items d !! ar_item_id a with
             | Some item => bool_decide (sp_workflow_id (it_spec item) = cl_workflow_id claim)
             | None => false
             end
          && bool_decide (ar_namespace a = k.1) && bool_decide (ar_key a = k.2))
          (allocations d))));
  _ ← update_allocations (λ _ a, bool_decide (ar_item_id a = id) && is_active_allocation a)
        (release_allocation_row now_ms);
  _ ← update_assignments (λ _ a, bool_decide (as_item_id a = id) && is_unreleased_assignment a)
        (release_assignment_row now_ms);
  modify (with_work_items
    (update_where (λ k _, bool_decide (k = id)) (with_state (reclaim_state now_ms)))).

(** [reconcile_orphaned_work_items] *)
Definition reconcile_orphaned_work_items (workflow_id : option WorkflowId) (now_ms : Z) : rtx Z :=
  rows ← gets (λ d, sort_by (λ a b : N * WorkItem, (a.1 <=? b.1)%N)
           (select (λ _ i, orphaned d workflow_id i) (work_items d)));
  _ ← for_each (reclaim_orphan now_ms) rows;
  mret (Z.of_nat (length rows)).

(** ** Campaign aggregation *)

Record CampaignItemResult := {
  ci_item_id : WorkItemId;
  ci_dedupe_key : string;
  ci_status : WorkItemStatus.t;
  ci_result_json : option Value;
  ci_error : option string;
}.

Record CampaignResult := {
  cr_outcome : CampaignOutcome;
  cr_counts : CampaignCounts;
  cr_items : list CampaignItemResult;
}.

Definition count_status (s : WorkItemStatus.t) (items : list (N * WorkItem)) : Z :=
  Z.of_nat (length (filter (λ i : N * WorkItem, st_status (it_state i.2) = s) items)).

Definition campaign_counts (items : list (N * WorkItem)) : CampaignCounts :=
  {| cc_total := Z.of_nat (length items);
     cc_pending := count_status WorkItemStatus.Pending items;
     cc_assigned := count_status WorkItemStatus.Assigned items;
     cc_running := count_status WorkItemStatus.Running items;
     cc_waiting := count_status WorkItemStatus.Waiting items;
     cc_succeeded := count_status WorkItemStatus.Succeeded items;
     cc_skipped := count_status WorkItemStatus.Skipped items;
     cc_failed := count_status WorkItemStatus.Failed items;
     cc_abandoned := count_status WorkItemStatus.Abandoned items |}.

Definition campaign_outcome (counts : CampaignCounts) (any_started : bool) : CampaignOutcome :=
  let has_terminal_failure :=
    bool_decide (cc_failed counts ≠ 0) || bool_decide (cc_abandoned counts ≠ 0) in
  let all_safely_skipped :=
    negb has_terminal_failure && bool_decide (cc_skipped counts = cc_total counts) in
  if bool_decide (cc_succeeded counts ≠ 0) && has_terminal_failure then PartialSuccess
  else if bool_decide (cc_succeeded counts ≠ 0) then AllSucceeded
  else if all_safely_skipped || negb any_started then NothingCouldStart
  else NoSuccess.

Definition campaign_item_result (i : N * WorkItem) : CampaignItemResult :=
  {| ci_item_id := i.1; ci_dedupe_key := sp_dedupe_key (it_spec i.2);
     ci_status := st_status (it_state i.2); ci_result_json := st_result_json (it_state i.2);
     ci_error := st_last_error (it_state i.2) |}.

(** [aggregate_campaign_result] *)
Definition aggregate_campaign_result (workflow_id : WorkflowId) : rtx (option CampaignResult) :=
  items ← list_work_items_in workflow_id;
  if existsb (λ i : N * WorkItem, negb (WorkItemStatus.is_terminal (st_status (it_state i.2)))) items
  then mret None
  else
    _ ← lift (ok_or (u32_try_from (Z.of_nat (length items)))
                (InvalidStoredWorkItemCount "total" i64_max));
    let counts := campaign_counts items in
    let any_started := existsb (λ i : N * WorkItem, st_ever_started (it_state i.2)) items in
    mret (Some {| cr_outcome := campaign_outcome counts any_started; cr_counts := counts;
                  cr_items := campaign_item_result <$> items |}).

(** [CampaignResult::workflow_status] *)
Definition campaign_workflow_status (self : CampaignResult) : WorkflowStatus :=
  match cr_outcome self with
  | AllSucceeded | PartialSuccess => Succeeded
  | NoSuccess => Failed
  | NothingCouldStart =>
      if bool_decide (cc_failed (cr_counts self) ≠ 0)
         || bool_decide (cc_abandoned (cr_counts self) ≠ 0)
      then Failed else Succeeded
  end.

End WorkItems.
