(* ===== verification/WorkItemFacts.v ===== *)
(** * Invariants of the work-item tables

    The well-formedness of items, attempts, allocations and assignments, that
    every work-item operation preserves it, and what the operations do: how an
    item may evolve, which transitions are accepted, which item is claimed next,
    how long a retry waits, and how a campaign is summarised. *)

From S2P Require Import Prelude Model Store Claims WorkItems Fixtures.

(** * Facts about retry delays *)

Lemma unjittered_delay_bounds failures :
  retry_base_ms ≤ unjittered_delay_ms failures ≤ retry_cap_ms.
Proof.
  unfold unjittered_delay_ms, retry_base_ms, retry_cap_ms.
  case_decide; [lia|]. rewrite Z.shiftl_1_l.
  assert (1 ≤ 2 ^ Z.max 0 (failures - 1)) by (apply Z.pow_le_mono_r with (b := 0); lia).
  unfold u64_max. lia.
Qed.

Lemma unjittered_delay_doubles failures :
  1 ≤ failures ≤ 6 → unjittered_delay_ms (failures + 1) = 2 * unjittered_delay_ms failures.
Proof.
  intros. assert (failures ∈ [1;2;3;4;5;6]) as Hin by (rewrite !elem_of_cons; lia).
  repeat (apply elem_of_cons in Hin as [->|Hin]; [reflexivity|]).
  by apply elem_of_nil in Hin.
Qed.

(** * Invariants of the work-item tables *)

Definition in_progress (s : WorkItemStatus.t) : bool :=
  match s with WorkItemStatus.Assigned | WorkItemStatus.Running => true | _ => false end.

(** ** Row reads *)

Section Reads.
Context `{SD : Serde}.
Implicit Types d : DB.

Lemma require_work_item_Ok id d i d' :
  require_work_item id d = Ok (i, d') → d' = d ∧ work_items d !! id = Some i.
Proof. unfold require_work_item, read_work_item_in. intros. by tx_inv. Qed.

Lemma require_workflow_Ok id d w d' :
  require_workflow id d = Ok (w, d') → d' = d ∧ instances d !! id = Some w.
Proof. unfold require_workflow, read_in. intros. by tx_inv. Qed.

Lemma verify_revision_Ok id i r u :
  verify_work_item_revision id i r = Ok u → st_revision (it_state i) = r.
Proof. unfold verify_work_item_revision. by case_decide. Qed.

Lemma revision_to_sql_Ok r e : work_item_revision_to_sql r = Ok e → e = r.
Proof.
  unfold work_item_revision_to_sql. destruct (i64_try_from r) eqn:E; simpl; [|done].
  apply i64_try_from_Some in E. naive_solver.
Qed.

End Reads.

(** Decomposes the row reads the operations start with. *)
Ltac read_step :=
  match goal with
  | H : require_work_item _ _ = Ok _ |- _ =>
      let E := fresh in apply require_work_item_Ok in H as [E H]; try subst
  | H : require_workflow _ _ = Ok _ |- _ =>
      let E := fresh in apply require_workflow_Ok in H as [E H]; try subst
  | H : verify_work_item_revision _ _ _ = Ok _ |- _ => apply verify_revision_Ok in H
  | H : work_item_revision_to_sql _ = Ok _ |- _ => apply revision_to_sql_Ok in H; subst
  end.
Ltac op_inv := repeat first [tx_step | read_step]; simplify_eq/=.

Section Items.
Context `{SD : Serde} `{RO : RowOrder}.
Implicit Types (d : DB) (i : WorkItem).

(** The attempt rows of item [id] are numbered from 1 to its attempt count, and an
    attempt is open exactly when it is the last one of a running item. *)
Record attempts_ok_at (t : gmap (N * Z) WorkItemAttempt) (id : N) (i : WorkItem) : Prop := {
  ok_count : 0 ≤ st_attempt_count (it_state i);
  ok_dense : ∀ n, is_Some (t !! (id, n)) ↔ 1 ≤ n ≤ st_attempt_count (it_state i);
  ok_open : ∀ n a, t !! (id, n) = Some a → is_open_attempt a = true →
    st_status (it_state i) = WorkItemStatus.Running ∧ n = st_attempt_count (it_state i);
  ok_running : st_status (it_state i) = WorkItemStatus.Running →
    ∃ a, t !! (id, st_attempt_count (it_state i)) = Some a ∧ is_open_attempt a = true;
  ok_outcome : ∀ n a, t !! (id, n) = Some a → (at_outcome a = None ↔ at_ended_at_ms a = None);
}.

(** Active allocations that serve the same requirement of one item with the same
    resource are one row. *)
Definition allocations_unique (t : gmap N AllocationRow) : Prop :=
  ∀ k1 k2 a1 a2, t !! k1 = Some a1 → t !! k2 = Some a2 →
    is_active_allocation a1 = true → is_active_allocation a2 = true →
    ar_item_id a1 = ar_item_id a2 → ar_requirement_key a1 = ar_requirement_key a2 →
    ar_namespace a1 = ar_namespace a2 → ar_key a1 = ar_key a2 → k1 = k2.

(** Unreleased assignments have pairwise different items and workers. *)
Definition assignments_unique (t : gmap string AssignmentRow) : Prop :=
  ∀ k1 k2 a1 a2, t !! k1 = Some a1 → t !! k2 = Some a2 →
    is_unreleased_assignment a1 = true → is_unreleased_assignment a2 = true →
    as_item_id a1 = as_item_id a2
    ∨ (as_worker_namespace a1 = as_worker_namespace a2 ∧ as_worker_key a1 = as_worker_key a2) →
    k1 = k2.

Record items_ok d : Prop := {
  ok_owner : ∀ id i, work_items d !! id = Some i →
    ∃ w, instances d !! sp_workflow_id (it_spec i) = Some w ∧
      (WorkflowStatus.is_terminal (wf_status w) = true →
       WorkItemStatus.is_terminal (st_status (it_state i)) = true);
  ok_dedupe : ∀ id1 id2 i1 i2, work_items d !! id1 = Some i1 → work_items d !! id2 = Some i2 →
    sp_workflow_id (it_spec i1) = sp_workflow_id (it_spec i2) →
    sp_dedupe_key (it_spec i1) = sp_dedupe_key (it_spec i2) → id1 = id2;
  ok_attempts : ∀ id i, work_items d !! id = Some i → attempts_ok_at (attempts d) id i;
  ok_attempt_item : ∀ id n, is_Some (attempts d !! (id, n)) → is_Some (work_items d !! id);
  ok_allocation : ∀ k a, allocations d !! k = Some a →
    0 < ar_quantity a ∧ is_Some (pools d !! ar_pool_key a) ∧
    ∃ i, work_items d !! ar_item_id a = Some i ∧
      (is_active_allocation a = true → WorkItemStatus.is_terminal (st_status (it_state i)) = false);
  ok_allocations_unique : allocations_unique (allocations d);
  ok_assignment : ∀ k a, assignments d !! k = Some a →
    ∃ i, work_items d !! as_item_id a = Some i ∧
      (is_unreleased_assignment a = true → in_progress (st_status (it_state i)) = true);
  ok_assignments_unique : assignments_unique (assignments d);
}.

(** ** Rows that are only released *)

(** [t'] has the rows of [t], some of which are no longer active. *)
Definition allocations_shrink (t t' : gmap N AllocationRow) : Prop :=
  ∀ k a', t' !! k = Some a' → ∃ a, t !! k = Some a ∧
    ar_item_id a' = ar_item_id a ∧ ar_requirement_key a' = ar_requirement_key a ∧
    ar_pool_key a' = ar_pool_key a ∧ ar_namespace a' = ar_namespace a ∧
    ar_key a' = ar_key a ∧ ar_quantity a' = ar_quantity a ∧
    (is_active_allocation a' = true → is_active_allocation a = true).

Definition assignments_shrink (t t' : gmap string AssignmentRow) : Prop :=
  ∀ k a', t' !! k = Some a' → ∃ a, t !! k = Some a ∧
    as_item_id a' = as_item_id a ∧ as_worker_namespace a' = as_worker_namespace a ∧
    as_worker_key a' = as_worker_key a ∧
    (is_unreleased_assignment a' = true → is_unreleased_assignment a = true).

#[global] Instance allocations_shrink_preorder : PreOrder allocations_shrink.
Proof.
  split.
  - intros t k a Ha. exists a. naive_solver.
  - intros t1 t2 t3 H12 H23 k a3 H3. apply H23 in H3 as (a2&H2&?).
    apply H12 in H2 as (a1&?&?). exists a1. intuition congruence.
Qed.

#[global] Instance assignments_shrink_preorder : PreOrder assignments_shrink.
Proof.
  split.
  - intros t k a Ha. exists a. naive_solver.
  - intros t1 t2 t3 H12 H23 k a3 H3. apply H23 in H3 as (a2&H2&?).
    apply H12 in H2 as (a1&?&?). exists a1. intuition congruence.
Qed.

Lemma allocations_shrink_release p now t :
  allocations_shrink t (update_where p (release_allocation_row now) t).
Proof.
  intros k a' Ha. apply lookup_update_where_Some in Ha as (a&?&->).
  exists a. split; [done|]. destruct (p k a); simpl; naive_solver.
Qed.

Lemma allocations_shrink_delete p t : allocations_shrink t (delete_where p t).
Proof. intros k a [Ha _]%lookup_delete_where_Some. exists a. naive_solver. Qed.

Lemma assignments_shrink_release p now t :
  assignments_shrink t (update_where p (release_assignment_row now) t).
Proof.
  intros k a' Ha. apply lookup_update_where_Some in Ha as (a&?&->).
  exists a. split; [done|]. destruct (p k a); simpl; naive_solver.
Qed.

Lemma assignments_shrink_delete p t : assignments_shrink t (delete_where p t).
Proof. intros k a [Ha _]%lookup_delete_where_Some. exists a. naive_solver. Qed.

Lemma allocations_unique_shrink t t' :
  allocations_shrink t t' → allocations_unique t → allocations_unique t'.
Proof.
  intros Hs Hu k1 k2 a1 a2 H1 H2 ??????.
  apply Hs in H1 as (b1&?&?&?&?&?&?&?&?). apply Hs in H2 as (b2&?&?&?&?&?&?&?&?).
  eapply (Hu k1 k2 b1 b2); auto; congruence.
Qed.

Lemma assignments_unique_shrink t t' :
  assignments_shrink t t' → assignments_unique t → assignments_unique t'.
Proof.
  intros Hs Hu k1 k2 a1 a2 H1 H2 ???.
  apply Hs in H1 as (b1&?&?&?&?&?). apply Hs in H2 as (b2&?&?&?&?&?).
  eapply (Hu k1 k2 b1 b2); auto. intuition congruence.
Qed.

(** ** Changing one item *)

(** The invariant survives a change of one non-terminal item whose own attempts are
    in order afterwards, whose allocations are released when it becomes terminal
    and whose assignments are released when it is no longer in progress. *)
Lemma items_ok_update d d' id i i' :
  items_ok d → work_items d !! id = Some i →
  WorkItemStatus.is_terminal (st_status (it_state i)) = false →
  work_items d' = <[id := i']> (work_items d) → it_spec i' = it_spec i →
  instances d' = instances d → pools d' = pools d →
  (∀ id' n, id' ≠ id → attempts d' !! (id', n) = attempts d !! (id', n)) →
  attempts_ok_at (attempts d') id i' →
  allocations_shrink (allocations d) (allocations d') →
  (WorkItemStatus.is_terminal (st_status (it_state i')) = true →
   ∀ k a, allocations d' !! k = Some a → ar_item_id a = id → is_active_allocation a = false) →
  assignments_shrink (assignments d) (assignments d') →
  (in_progress (st_status (it_state i')) = false →
   ∀ k a, assignments d' !! k = Some a → as_item_id a = id → is_unreleased_assignment a = false) →
  items_ok d'.
Proof.
  intros [Ho Hd Ha Hai Hal Halu Has Hasu] Hi Ht Hit Hsp Hin Hpo Hat Hok Hals Halt Hass Hast.
  split; rewrite ?Hin, ?Hit, ?Hpo.
  - intros id' j [[<- <-]|[? Hj]]%lookup_insert_Some; [|eauto].
    rewrite Hsp. destruct (Ho _ _ Hi) as (w&?&Hw). exists w. split; [done|].
    intros Hwt. apply Hw in Hwt. congruence.
  - intros id1 id2 i1 i2 [[<- <-]|[? H1]]%lookup_insert_Some [[<- <-]|[? H2]]%lookup_insert_Some;
      rewrite ?Hsp; eauto.
  - intros id' j [[<- <-]|[? Hj]]%lookup_insert_Some; [done|].
    destruct (Ha _ _ Hj). split; intros; rewrite ?Hat in * by done; eauto.
  - intros id' n Hn. destruct (decide (id' = id)) as [->|].
    + rewrite lookup_insert_eq; eauto.
    + rewrite lookup_insert_ne by done. rewrite Hat in Hn by done. eauto.
  - intros k a' Hk. destruct (Hals _ _ Hk) as (a&Hka&E1&_&E2&_&_&E3&Hact).
    destruct (Hal _ _ Hka) as (?&?&j&Hj&Hjt). rewrite E1, E2, E3. split_and!; [done..|].
    destruct (decide (ar_item_id a = id)) as [Heq|].
    + rewrite Heq, lookup_insert_eq. exists i'. split; [done|]. intros Hact'.
      destruct (WorkItemStatus.is_terminal (st_status (it_state i'))); [|done].
      rewrite (Halt eq_refl _ _ Hk) in Hact' by congruence. done.
    + rewrite lookup_insert_ne by done. eauto.
  - by eapply allocations_unique_shrink.
  - intros k a' Hk. destruct (Hass _ _ Hk) as (a&Hka&E1&_&_&Hact).
    destruct (Has _ _ Hka) as (j&Hj&Hjt). rewrite E1.
    destruct (decide (as_item_id a = id)) as [Heq|].
    + rewrite Heq, lookup_insert_eq. exists i'. split; [done|]. intros Hact'.
      destruct (in_progress (st_status (it_state i'))); [done|].
      rewrite (Hast eq_refl _ _ Hk) in Hact' by congruence. done.
    + rewrite lookup_insert_ne by done. eauto.
  - by eapply assignments_unique_shrink.
Qed.

(** [UPDATE ... WHERE id = ?] on a row that exists and passes the test. *)
Lemma update_where_row {V} (t : gmap N V) p f id v :
  t !! id = Some v → (∀ k x, t !! k = Some x → p k x = bool_decide (k = id)) →
  update_where p f t = <[id := f v]> t.
Proof.
  intros Hv Hp. apply map_eq. intros k. rewrite lookup_update_where.
  destruct (decide (k = id)) as [->|Hk].
  - rewrite lookup_insert_eq, Hv. simpl. rewrite (Hp _ _ Hv), bool_decide_eq_true_2; done.
  - rewrite lookup_insert_ne by done. destruct (t !! k) as [x|] eqn:E; [|done]. simpl.
    by rewrite (Hp _ _ E), bool_decide_eq_false_2.
Qed.

Lemma update_where_id {V} (t : gmap N V) f id v :
  t !! id = Some v → update_where (λ k _, bool_decide (k = id)) f t = <[id := f v]> t.
Proof. intros Hv. by apply update_where_row. Qed.

(** ... guarded by the revision the row has. *)
Lemma update_where_revision (t : gmap N WorkItem) f id i r :
  t !! id = Some i → st_revision (it_state i) = r →
  update_where (λ k j, bool_decide (k = id) && bool_decide (st_revision (it_state j) = r)) f t
  = <[id := f i]> t.
Proof.
  intros Hi Hr. apply update_where_row; [done|]. intros k j Hj.
  destruct (decide (k = id)) as [->|].
  - simplify_eq. by rewrite !bool_decide_eq_true_2.
  - by rewrite (bool_decide_eq_false_2 (k = id)).
Qed.

Lemma count_revision (t : gmap N WorkItem) id i r :
  t !! id = Some i → st_revision (it_state i) = r →
  count (λ k j, bool_decide (k = id) && bool_decide (st_revision (it_state j) = r)) t ≠ 0.
Proof.
  intros Hi Hr Hc. assert (Hf := proj1 (count_0 _ _) Hc id i Hi). simpl in Hf.
  by rewrite !bool_decide_eq_true_2 in Hf.
Qed.

(** ** Attempts of one item *)

Lemma attempts_ok_same t id i i' :
  attempts_ok_at t id i → st_attempt_count (it_state i') = st_attempt_count (it_state i) →
  (st_status (it_state i') = WorkItemStatus.Running ↔
   st_status (it_state i) = WorkItemStatus.Running) →
  attempts_ok_at t id i'.
Proof.
  intros [Hn Hd Ho Hr Hoc] Hc Hs. split; intros; rewrite ?Hc in *; eauto.
  - destruct (Ho n a) as [??]; [done..|]. split; [by apply Hs|done].
  - by apply Hr, Hs.
Qed.

Definition open_of (id : N) (k : N * Z) (a : WorkItemAttempt) : bool :=
  bool_decide (k.1 = id) && is_open_attempt a.

Lemma open_of_true id n a : open_of id (id, n) a = is_open_attempt a.
Proof. unfold open_of. by rewrite bool_decide_eq_true_2. Qed.

(** A running item has exactly one open attempt. *)
Lemma count_open_running t id i :
  attempts_ok_at t id i → st_status (it_state i) = WorkItemStatus.Running →
  count (open_of id) t = 1.
Proof.
  intros [_ _ Ho Hr _] Hs. destruct (Hr Hs) as (a&Ha&Hopen). unfold count.
  assert (select (open_of id) t ≡ₚ [((id, st_attempt_count (it_state i)), a)]) as ->; [|done].
  apply NoDup_Permutation.
  - apply NoDup_filter, NoDup_map_to_list.
  - apply NoDup_singleton.
  - intros [[id' n] b]. rewrite elem_of_select, list_elem_of_singleton. split.
    + intros [Hb Hp]. apply andb_true_iff in Hp as [Hid Hb'].
      apply bool_decide_eq_true in Hid; simpl in Hid; subst.
      destruct (Ho _ _ Hb Hb') as [_ ->]. by simplify_eq.
    + intros [= -> -> ->]. by rewrite open_of_true.
Qed.

Lemma count_open_not_running t id i :
  attempts_ok_at t id i → st_status (it_state i) ≠ WorkItemStatus.Running →
  exists_row (open_of id) t = false.
Proof.
  intros [_ _ Ho _ _] Hs. apply exists_row_false. intros [id' n] b Hb.
  destruct (open_of id (id', n) b) eqn:Hp; [|done].
  apply andb_true_iff in Hp as [Hid Hb']. apply bool_decide_eq_true in Hid; simpl in Hid; subst.
  by destruct (Ho _ _ Hb Hb').
Qed.

(** Closing whatever is open at an item that no longer runs. *)
Lemma attempts_ok_close_with t id i i' p (f : WorkItemAttempt → WorkItemAttempt) :
  attempts_ok_at t id i → st_attempt_count (it_state i') = st_attempt_count (it_state i) →
  st_status (it_state i') ≠ WorkItemStatus.Running →
  (∀ n a, p (id, n) a = is_open_attempt a) →
  (∀ a, at_ended_at_ms (f a) ≠ None ∧ at_outcome (f a) ≠ None) →
  attempts_ok_at (update_where p f t) id i'.
Proof.
  intros [Hn Hd Ho Hr Hoc] Hc Hs Hp Hf. split.
  - by rewrite Hc.
  - intros n. rewrite lookup_update_where, fmap_is_Some, Hc. apply Hd.
  - intros n a Ha Hopen. apply lookup_update_where_Some in Ha as (b&Hb&->).
    rewrite Hp in *. destruct (is_open_attempt b) eqn:E; [|congruence].
    apply bool_decide_eq_true in Hopen. by destruct (Hf b).
  - done.
  - intros n a Ha. apply lookup_update_where_Some in Ha as (b&Hb&->).
    destruct (p (id, n) b); [|by eauto]. destruct (Hf b). by split.
Qed.

Lemma attempts_ok_close t id i i' ended outcome error :
  attempts_ok_at t id i → st_attempt_count (it_state i') = st_attempt_count (it_state i) →
  st_status (it_state i') ≠ WorkItemStatus.Running →
  attempts_ok_at (update_where (open_of id) (close_attempt_row ended outcome error) t) id i'.
Proof.
  intros Hok Hc Hs. eapply attempts_ok_close_with; [done..| |done].
  intros. apply open_of_true.
Qed.

(** The attempts of an item are its own rows. *)
Lemma attempts_ok_ext t t' id i :
  (∀ n, t' !! (id, n) = t !! (id, n)) → attempts_ok_at t id i → attempts_ok_at t' id i.
Proof. intros He [Hn Hd Ho Hr Hoc]. split; intros; rewrite ?He in *; eauto. Qed.

Lemma close_open_attempt_Ok id outcome error ended d u d' :
  close_open_attempt id outcome error ended d = Ok (u, d') →
  d' = with_attempts (update_where (open_of id) (close_attempt_row ended outcome error)) d.
Proof. unfold close_open_attempt, open_of. intros. tx_inv. done. Qed.

Lemma close_other_items id id' n ended outcome error t :
  id' ≠ id →
  update_where (open_of id) (close_attempt_row ended outcome error) t !! (id', n) = t !! (id', n).
Proof.
  intros Hne. rewrite lookup_update_where. destruct (t !! (id', n)); [|done]. simpl.
  unfold open_of. by rewrite bool_decide_eq_false_2.
Qed.

(** ** Steps of the work-item operations *)

(** How one item may change: its specification and creation time never do, its
    counters grow, and a terminal item stays as it is. *)
Record item_evolves i i' : Prop := {
  ev_spec : it_spec i' = it_spec i;
  ev_created : st_created_at_ms (it_state i') = st_created_at_ms (it_state i);
  ev_attempts : st_attempt_count (it_state i) ≤ st_attempt_count (it_state i');
  ev_started : st_ever_started (it_state i) = true → st_ever_started (it_state i') = true;
  ev_revision : i' = i ∨ st_revision (it_state i) < st_revision (it_state i');
  ev_terminal : WorkItemStatus.is_terminal (st_status (it_state i)) = true → i' = i;
}.

#[global] Instance item_evolves_preorder : PreOrder item_evolves.
Proof.
  split.
  - intros i. split; auto; lia.
  - intros i1 i2 i3 [? ? ? ? H1 T1] [? ? ? ? H2 T2]. split; try congruence; auto; [lia| |].
    + destruct H1 as [->|H1], H2 as [->|H2]; auto. right. lia.
    + intros Ht. pose proof (T1 Ht) as ->. auto.
Qed.

Record items_step d d' : Prop := {
  is_instances : instances d' = instances d;
  is_pools : pools d' = pools d;
  is_claims : claims_sub (claims_table d) (claims_table d');
  is_evolves : ∀ id i, work_items d !! id = Some i →
    ∃ i', work_items d' !! id = Some i' ∧ item_evolves i i';
  is_ok : items_ok d → items_ok d';
}.

#[global] Instance items_step_preorder : PreOrder items_step.
Proof.
  split.
  - intros d. split; [done..| |done]. intros id i Hi. exists i. by split.
  - intros d1 d2 d3 [? ? ? E1 ?] [? ? ? E2 ?]. split; [congruence..| | |auto].
    + by etrans.
    + intros id i (i2&H2&?)%E1. apply E2 in H2 as (i3&?&?). exists i3. split; [done|by etrans].
Qed.

Lemma evolves_insert (t : gmap N WorkItem) id i i' :
  t !! id = Some i → item_evolves i i' →
  ∀ k j, t !! k = Some j → ∃ j', <[id := i']> t !! k = Some j' ∧ item_evolves j j'.
Proof.
  intros Hi Hev k j Hj. destruct (decide (k = id)) as [->|].
  - simplify_eq. rewrite lookup_insert_eq. eauto.
  - rewrite lookup_insert_ne by done. exists j. by split.
Qed.

Lemma claim_next_step wid now d o d' :
  claim_next_work_item wid now d = Ok (o, d') → items_step d d'.
Proof.
  unfold claim_next_work_item. intros. op_inv; [|done].
  match goal with H : head _ = Some (?n, ?w) |- _ =>
    rename n into id, w into i; apply head_sort_by_elem, elem_of_select in H as [Hi Hel] end.
  unfold eligible in Hel. rewrite !andb_true_iff, orb_true_iff, !andb_true_iff,
    !bool_decide_eq_true in Hel.
  assert (Hev : item_evolves i (with_state (assign_state now) i)).
  { split; simpl; auto; [lia..|]. destruct Hel as [[_ [[-> _]|[-> _]]] _]; done. }
  assert (Hup : ∀ f, update_where (λ k (_ : WorkItem), bool_decide (k = id)) f (work_items d)
    = <[id := f i]> (work_items d)) by (intros; by apply update_where_row).
  split; simpl; [done..| |].
  - rewrite Hup. eapply evolves_insert; eauto.
  - intros Hok. assert (Hst : st_status (it_state i) = WorkItemStatus.Pending ∨
      st_status (it_state i) = WorkItemStatus.Waiting) by tauto.
    eapply (items_ok_update _ _ _ i (with_state (assign_state now) i)); simpl; eauto; try done.
    + by destruct Hst as [->| ->].
    + eapply attempts_ok_same; [by eapply ok_attempts|done|]. by destruct Hst as [->| ->].
Qed.

(** ** Starting an item *)

Lemma attempts_ok_start t id i started a :
  attempts_ok_at t id i → st_status (it_state i) ≠ WorkItemStatus.Running →
  at_ended_at_ms a = None → at_outcome a = None →
  attempts_ok_at (<[(id, st_attempt_count (it_state i) + 1) := a]> t) id
    (with_state (start_state (st_attempt_count (it_state i) + 1) started) i).
Proof.
  intros [Hpos Hd Ho Hr Hoc] Hs He Hout. split; simpl.
  - lia.
  - intros n. rewrite lookup_insert_is_Some. rewrite Hd. split.
    + intros [[=]|[_ ?]]; lia.
    + intros. destruct (decide (n = st_attempt_count (it_state i) + 1)) as [->|]; [by left|].
      right. split; [congruence|lia].
  - intros n b Hb Hopen. apply lookup_insert_Some in Hb as [[[= <-] <-]|[_ Hb]]; [done|].
    by destruct (Ho _ _ Hb Hopen).
  - intros _. exists a. split; [by rewrite lookup_insert_eq|].
    unfold is_open_attempt. by apply bool_decide_eq_true.
  - intros n b Hb. apply lookup_insert_Some in Hb as [[[= <-] <-]|[_ Hb]]; [done|eauto].
Qed.

Lemma insert_attempt_Ok id n a d u d' :
  insert_attempt id n a d = Ok (u, d') → d' = with_attempts (<[(id, n) := a]>) d.
Proof. unfold insert_attempt. intros. by tx_inv. Qed.

(** [u32::try_from(stored count + 1)] *)
Lemma u32_try_from_Some z v : u32_try_from z = Some v ↔ v = z ∧ in_u32 z.
Proof. unfold u32_try_from. case_decide; naive_solver. Qed.

Lemma start_work_item_step id r worker asg started d i d' :
  start_work_item id r worker asg started d = Ok (i, d') → items_step d d'.
Proof.
  unfold start_work_item. intros. op_inv.
  match goal with H : insert_attempt _ _ _ _ = _ |- _ => apply insert_attempt_Ok in H; subst end.
  match goal with H : u32_try_from _ = _ |- _ => apply u32_try_from_Some in H as [-> Hu] end.
  match goal with H : work_items _ !! id = Some ?j |- _ => rename j into i0, H into Hi end.
  simpl in *.
  set (i1 := with_state (start_state (st_attempt_count (it_state i0) + 1) started) i0) in *.
  assert (Hst : st_status (it_state i0) = WorkItemStatus.Assigned)
    by (by apply dec_stable).
  assert (Hup := λ f, update_where_revision _ f _ _ _ Hi eq_refl).
  split; simpl; [done..| |].
  - rewrite Hup. eapply evolves_insert; [done|]. split; simpl; auto; [lia..|]. by rewrite Hst.
  - intros Hok. eapply (items_ok_update _ _ _ i0 i1); simpl; eauto; try done.
    + by rewrite Hst.
    + intros. rewrite lookup_insert_ne; congruence.
    + apply attempts_ok_start; [by eapply ok_attempts|by rewrite Hst|done..].
Qed.

(** ** Transitions *)

(** A transition closes an attempt exactly when it leaves the running state. *)
Lemma plan_transition_close id i tr now plan :
  plan_transition id i tr now = Ok plan →
  match pn_attempt_close plan with
  | Some _ => st_status (it_state i) = WorkItemStatus.Running
              ∧ pn_status plan ≠ WorkItemStatus.Running
  | None => pn_status plan = WorkItemStatus.Running ↔
            st_status (it_state i) = WorkItemStatus.Running
  end.
Proof.
  unfold plan_transition, close_if_running, mbind, result_bind. intros H.
  destruct tr, (st_status (it_state i)) eqn:E; repeat case_decide; try destruct (ok_or _ _);
    simplify_eq/=; split; (done || congruence).
Qed.

(** What the tables of an item look like after its allocations are released. *)
Lemma release_item_allocations_Ok wid id now d u d' :
  release_item_allocations wid id now d = Ok (u, d') →
  ∃ p q n, d' = with_intelligence_revision n
    (with_allocations (update_where q (release_allocation_row now))
       (with_claims (delete_where p) d)) ∧
    (∀ k a, ar_item_id a = id → q k a = is_active_allocation a).
Proof.
  unfold release_item_allocations, update_allocations, bump_intelligence. intros. tx_inv.
  do 3 eexists. split; [done|]. intros k a <-. by rewrite bool_decide_eq_true_2.
Qed.

Lemma released_inactive q now (t : gmap N AllocationRow) id :
  (∀ k a, ar_item_id a = id → q k a = is_active_allocation a) →
  ∀ k a, update_where q (release_allocation_row now) t !! k = Some a →
    ar_item_id a = id → is_active_allocation a = false.
Proof.
  intros Hq k a Ha Hid. apply lookup_update_where_Some in Ha as (b&_&->).
  destruct (q k b) eqn:E; [done|]. rewrite Hq in E; done.
Qed.

Lemma released_assignments now (t : gmap string AssignmentRow) id :
  ∀ k a, update_where (λ _ a, bool_decide (as_item_id a = id) && is_unreleased_assignment a)
           (release_assignment_row now) t !! k = Some a →
    as_item_id a = id → is_unreleased_assignment a = false.
Proof.
  intros k a Ha Hid. apply lookup_update_where_Some in Ha as (b&_&->).
  destruct (bool_decide (as_item_id b = id) && is_unreleased_assignment b) eqn:E; [done|].
  by rewrite bool_decide_eq_true_2 in E.
Qed.

Lemma apply_plan_evolves id i tr plan now :
  plan_transition id i tr now = Ok plan →
  WorkItemStatus.is_terminal (st_status (it_state i)) = false →
  item_evolves i (with_state (apply_plan plan now) i).
Proof. intros Hp Ht. split; simpl; auto; [lia..|congruence]. Qed.

(** The database after the attempt of a transition is closed. *)
Definition close_tables (id : N) (plan : TransitionPlan) (now : Z) d : DB :=
  match pn_attempt_close plan with
  | Some (outcome, error) =>
      with_attempts (update_where (open_of id) (close_attempt_row now outcome error)) d
  | None => d
  end.

Lemma close_tables_attempts id i tr plan now d :
  plan_transition id i tr now = Ok plan → attempts_ok_at (attempts d) id i →
  attempts_ok_at (attempts (close_tables id plan now d)) id (with_state (apply_plan plan now) i).
Proof.
  intros Hp Hok. apply plan_transition_close in Hp. unfold close_tables.
  destruct (pn_attempt_close plan) as [[outcome error]|].
  - by apply attempts_ok_close with i; [|done|apply Hp].
  - by apply attempts_ok_same with i.
Qed.

Lemma close_tables_frame id plan now d :
  instances (close_tables id plan now d) = instances d ∧
  pools (close_tables id plan now d) = pools d ∧
  claims_table (close_tables id plan now d) = claims_table d ∧
  work_items (close_tables id plan now d) = work_items d ∧
  allocations (close_tables id plan now d) = allocations d ∧
  assignments (close_tables id plan now d) = assignments d ∧
  ∀ id' n, id' ≠ id →
    attempts (close_tables id plan now d) !! (id', n) = attempts d !! (id', n).
Proof.
  unfold close_tables. destruct (pn_attempt_close plan) as [[? ?]|]; [|done].
  split_and!; [done..|]. intros. by apply close_other_items.
Qed.

Lemma transition_close_Ok id plan now d u d' :
  (match pn_attempt_close plan with
   | Some (outcome, error) => close_open_attempt id outcome error now
   | None => mret tt
   end) d = Ok (u, d') → d' = close_tables id plan now d.
Proof.
  unfold close_tables. destruct (pn_attempt_close plan) as [[? ?]|].
  - apply close_open_attempt_Ok.
  - intros. by tx_inv.
Qed.

(** The release part: the allocations shrink, and none is active after a terminal
    status. *)
Lemma transition_release_Ok wid id plan now d u d' :
  (if WorkItemStatus.is_terminal (pn_status plan) then release_item_allocations wid id now
   else if pn_release_allocations plan then release_item_allocations wid id now
   else mret tt) d = Ok (u, d') →
  ∃ f c n, d' = with_intelligence_revision n (with_allocations f (with_claims c d)) ∧
    claims_sub (claims_table d) (c (claims_table d)) ∧
    allocations_shrink (allocations d) (f (allocations d)) ∧
    (WorkItemStatus.is_terminal (pn_status plan) = true → ∀ k a,
       f (allocations d) !! k = Some a → ar_item_id a = id → is_active_allocation a = false).
Proof.
  intros H. repeat case_match.
  1,2: apply release_item_allocations_Ok in H as (p&q&n&->&Hq);
    exists (update_where q (release_allocation_row now)), (delete_where p), n;
    split_and!; [done|apply claims_sub_delete|apply allocations_shrink_release|];
    intros _; by apply released_inactive.
  tx_inv. exists (λ t, t), (λ t, t), (intelligence_revision d'). by destruct d'.
Qed.

Lemma transition_assignments_Ok id (s : WorkItemStatus.t) now d n d' :
  (match s with
   | WorkItemStatus.Assigned | WorkItemStatus.Running => mret 0
   | _ => update_assignments
            (λ _ a, bool_decide (as_item_id a = id) && is_unreleased_assignment a)
            (release_assignment_row now)
   end) d = Ok (n, d') →
  ∃ f, d' = with_assignments f d ∧
    assignments_shrink (assignments d) (f (assignments d)) ∧
    (in_progress s = false → ∀ k a,
       f (assignments d) !! k = Some a → as_item_id a = id → is_unreleased_assignment a = false).
Proof.
  unfold update_assignments. intros H. destruct s; tx_inv.
  all: first
    [ eexists; split_and!; [done|apply assignments_shrink_release|];
      intros _; by apply released_assignments
    | exists (λ t, t); by destruct d' ].
Qed.

Lemma transition_work_item_in_step id i tr now d u d' :
  work_items d !! id = Some i →
  transition_work_item_in id i tr now d = Ok (u, d') → items_step d d'.
Proof.
  intros Hi H. unfold transition_work_item_in in H.
  destruct (WorkItemStatus.is_terminal (st_status (it_state i))) eqn:Ht; [done|].
  apply tx_bind_Ok in H as (plan&d0&Hplan&H). apply lift_Ok in Hplan as [Hplan ->].
  apply tx_bind_Ok in H as (?&d1&Hclose&H). apply transition_close_Ok in Hclose.
  apply tx_bind_Ok in H as (?&d2&Hrel&H).
  apply transition_release_Ok in Hrel as (f&c&n&->&Hc&Hal&Halt).
  apply tx_bind_Ok in H as (?&d3&Hasg&H).
  apply transition_assignments_Ok in Hasg as (g&->&Hass&Hast).
  destruct (close_tables_frame id plan now d) as (Fi&Fp&Fc&Fw&Fal&Fas&Fat).
  assert (Hat : items_ok d → attempts_ok_at (attempts d1) id (with_state (apply_plan plan now) i))
    by (intros; subst d1; eapply close_tables_attempts; [done|by apply ok_attempts]).
  rewrite <-Hclose in Fi, Fp, Fc, Fw, Fal, Fas, Fat. clear Hclose.
  simpl in Hass, Hast. rewrite Fc in Hc. rewrite Fal in Hal, Halt. rewrite Fas in Hass, Hast.
  op_inv.
  assert (Hup := λ f, update_where_revision _ f _ _ _ Hi eq_refl).
  assert (Hev := apply_plan_evolves _ _ _ _ _ Hplan Ht).
  split; simpl; rewrite ?Fi, ?Fp, ?Fw, ?Fc; [done..| |].
  - rewrite Hup. by eapply evolves_insert.
  - intros Hok. eapply (items_ok_update d _ id i _ Hok Hi Ht); simpl;
      rewrite ?Fw, ?Fi, ?Fp, ?Fal, ?Fas, ?Hup; auto.
Qed.

Lemma transition_work_item_step id r tr now d i d' :
  transition_work_item id r tr now d = Ok (i, d') → items_step d d'.
Proof. unfold transition_work_item. intros. op_inv. by eapply transition_work_item_in_step. Qed.

(** ** Start-up reclamation *)

Lemma reclaim_orphan_step now id i d u d' :
  work_items d !! id = Some i → in_progress (st_status (it_state i)) = true →
  reclaim_orphan now (id, i) d = Ok (u, d') → items_step d d'.
Proof.
  intros Hi Hp H. unfold reclaim_orphan in H.
  set (plan := {| pn_status := WorkItemStatus.Pending; pn_checkpoint := None; pn_result := None;
    pn_last_error := None; pn_consecutive_failures := 0; pn_next_attempt_at_ms := None;
    pn_attempt_close := close_if_running (st_status (it_state i))
                          WorkItemAttemptOutcome.Reclaimed None;
    pn_release_allocations := true |}).
  apply tx_bind_Ok in H as ([]&d1&Hclose&H).
  assert (d1 = close_tables id plan now d) as Hd1.
  { revert Hclose. unfold close_tables, plan, close_if_running; simpl. case_decide.
    - by intros ?%close_open_attempt_Ok.
    - intros. by tx_inv. }
  destruct (close_tables_frame id plan now d) as (Fi&Fp&Fc&Fw&Fal&Fas&Fat).
  assert (Hat : items_ok d → attempts_ok_at (attempts d1) id (with_state (reclaim_state now) i)).
  { intros Hok. unfold close_tables, plan, close_if_running in Hd1; simpl in Hd1.
    case_decide; subst d1.
    - by apply attempts_ok_close with i; [apply ok_attempts| |].
    - by apply attempts_ok_same with i; [apply ok_attempts| |]. }
  rewrite <-Hd1 in Fi, Fp, Fc, Fw, Fal, Fas, Fat. clear Hd1 Hclose.
  unfold update_allocations, update_assignments, bump_intelligence in H.
  tx_inv.
  assert (Hup : ∀ f, update_where (λ k (_ : WorkItem), bool_decide (k = id)) f (work_items d)
    = <[id := f i]> (work_items d)) by (intros; by apply update_where_row).
  assert (Hnt : WorkItemStatus.is_terminal (st_status (it_state i)) = false)
    by (by destruct (st_status (it_state i))).
  split; simpl; rewrite ?Fi, ?Fp, ?Fw, ?Fc; [done..|apply claims_sub_delete| |].
  - rewrite Hup. eapply evolves_insert; [done|]. split; simpl; auto; [lia..|congruence].
  - intros Hok. eapply (items_ok_update d _ id i (with_state (reclaim_state now) i) Hok Hi Hnt);
      simpl; rewrite ?Fw, ?Fi, ?Fp, ?Fal, ?Fas, ?Hup; try done.
    + auto.
    + apply allocations_shrink_release.
    + apply assignments_shrink_release.
    + intros _. apply released_assignments.
Qed.

Lemma reclaim_orphan_items now id i d u d' :
  reclaim_orphan now (id, i) d = Ok (u, d') →
  ∀ k, k ≠ id → work_items d' !! k = work_items d !! k.
Proof.
  unfold reclaim_orphan, close_open_attempt, update_allocations, update_assignments,
    bump_intelligence. intros H k Hk. tx_inv.
  all: rewrite lookup_update_where; destruct (work_items _ !! k); [|done]; simpl;
    by rewrite bool_decide_eq_false_2.
Qed.

Lemma reclaim_orphans_step now rows d u d' :
  NoDup rows.*1 →
  (∀ id i, (id, i) ∈ rows →
     work_items d !! id = Some i ∧ in_progress (st_status (it_state i)) = true) →
  for_each (reclaim_orphan now) rows d = Ok (u, d') → items_step d d'.
Proof.
  revert d. induction rows as [|[id i] rows IH]; intros d Hnd Hrows H; cbn [for_each] in H.
  - by tx_inv.
  - apply tx_bind_Ok in H as ([]&d1&H1&H2). simpl in Hnd. apply NoDup_cons in Hnd as [Hni Hnd].
    destruct (Hrows id i) as [Hi Hp]; [by left|].
    etrans; [by eapply reclaim_orphan_step|]. eapply IH; [done| |done].
    intros id' i' Hin. destruct (Hrows id' i') as [Hi' Hp']; [by right|].
    split; [|done]. rewrite (reclaim_orphan_items _ _ _ _ _ _ H1); [done|].
    intros ->. apply Hni. apply list_elem_of_fmap. by exists (id, i').
Qed.

Lemma orphaned_in_progress d wid i :
  orphaned d wid i = true → in_progress (st_status (it_state i)) = true.
Proof.
  unfold orphaned. rewrite !andb_true_iff, orb_true_iff, !bool_decide_eq_true.
  by intros [[[-> | ->] _] _].
Qed.

Lemma select_NoDup_keys {V} (p : N → V → bool) (t : gmap N V) : NoDup (select p t).*1.
Proof.
  apply NoDup_fmap_2_strong; [|apply NoDup_filter, NoDup_map_to_list].
  intros [k v] [k' v'] [Hk _]%elem_of_select [Hk' _]%elem_of_select E. by simplify_eq/=.
Qed.

Lemma reconcile_orphaned_step wid now d n d' :
  reconcile_orphaned_work_items wid now d = Ok (n, d') → items_step d d'.
Proof.
  unfold reconcile_orphaned_work_items. intros. tx_inv.
  eapply reclaim_orphans_step; [| |done].
  - rewrite sort_by_perm. apply select_NoDup_keys.
  - intros id i [Hi Ho]%elem_of_sort_by%elem_of_select. eauto using orphaned_in_progress.
Qed.

(** ** Assignments *)

Lemma insert_assignment_step id a d u d' i :
  work_items d !! as_item_id a = Some i → in_progress (st_status (it_state i)) = true →
  insert_assignment id a d = Ok (u, d') → items_step d d'.
Proof.
  intros Hi Hp H. unfold insert_assignment in H. tx_inv. destruct_and!.
  split; simpl; [done..|by intros; eexists|].
  intros [Ho Hd Ha Hai Hal Halu Has Hasu]. split; simpl; auto.
  - intros k b [[<- <-]|[_ Hb]]%lookup_insert_Some; eauto.
  - match goal with H : exists_row _ _ = false |- _ => rename H into Hex end.
    assert (Hfree : ∀ k b, assignments d !! k = Some b → is_unreleased_assignment b = true →
      as_item_id b = as_item_id a ∨ (as_worker_namespace b = as_worker_namespace a
        ∧ as_worker_key b = as_worker_key a) → False).
    { intros k b Hb Hu Hsame. apply (proj1 (exists_row_false _ _) Hex) in Hb.
      rewrite Hu in Hb. destruct Hsame as [E|[E1 E2]].
      - by rewrite (bool_decide_eq_true_2 _ E) in Hb.
      - rewrite (bool_decide_eq_true_2 _ E1), (bool_decide_eq_true_2 _ E2) in Hb.
        by rewrite orb_true_r in Hb. }
    intros k1 k2 a1 a2 [[<- <-]|[_ B1]]%lookup_insert_Some [[<- <-]|[_ B2]]%lookup_insert_Some
      U1 U2 E; [done| | |by eapply Hasu].
    + destruct (Hfree _ _ B2 U2). intuition congruence.
    + destruct (Hfree _ _ B1 U1). intuition congruence.
Qed.

Lemma assign_work_item_step id r asg worker now d u d' :
  assign_work_item id r asg worker now d = Ok (u, d') → items_step d d'.
Proof.
  unfold assign_work_item. intros. op_inv. eapply insert_assignment_step; [| |eassumption]; simpl; [eassumption|].
  match goal with |- in_progress ?s = true =>
    by assert (s = WorkItemStatus.Assigned) as -> by (by apply dec_stable) end.
Qed.

Lemma items_step_assignments f d :
  assignments_shrink (assignments d) (f (assignments d)) →
  items_step d (with_assignments f d).
Proof.
  intros Hs. split; simpl; [done..|by intros; eexists|].
  intros [Ho Hd Ha Hai Hal Halu Has Hasu]. split; simpl; auto.
  - intros k a' Ha'. apply Hs in Ha' as (a&Hk&->&_&_&Hu).
    destruct (Has _ _ Hk) as (i&?&?). exists i. auto.
  - by eapply assignments_unique_shrink.
Qed.

Lemma request_reclaim_step id now d b d' :
  request_work_item_reclaim id now d = Ok (b, d') → items_step d d'.
Proof.
  unfold request_work_item_reclaim, update_assignments. intros. tx_inv.
  apply items_step_assignments. intros k a' Ha. apply lookup_update_where_Some in Ha as (a&?&->).
  exists a. split; [done|].
  destruct (bool_decide (as_item_id a = id) && bool_decide (as_state a = AsgActive)) eqn:E;
    [|naive_solver].
  apply andb_true_iff in E as [_ E%bool_decide_eq_true]. unfold is_unreleased_assignment.
  rewrite E. naive_solver.
Qed.

(** ** Reconciling the desired set *)

Lemma insert_work_item_step id spec now d u d' w :
  instances d !! sp_workflow_id spec = Some w → WorkflowStatus.is_terminal (wf_status w) = false →
  insert_work_item id spec now d = Ok (u, d') → items_step d d'.
Proof.
  intros Hw Ht H. unfold insert_work_item in H. tx_inv. destruct_and!.
  match goal with H : exists_row _ _ = false |- _ => rename H into Hex end.
  match goal with H : work_items d !! id = None |- _ => rename H into Hnone end.
  split; simpl; [done..| |].
  - intros k i Hk. exists i. rewrite lookup_insert_ne by congruence. done.
  - intros [Ho Hd Ha Hai Hal Halu Has Hasu].
    assert (Hno : ∀ n, attempts d !! (id, n) = None).
    { intros n. destruct (attempts d !! (id, n)) eqn:E; [|done].
      destruct (Hai id n) as [? ?]; [by rewrite E|congruence]. }
    assert (Hkeep : ∀ k i, work_items d !! k = Some i →
      ∀ i', <[id := i']> (work_items d) !! k = Some i)
      by (intros; rewrite lookup_insert_ne; congruence).
    split; simpl; auto.
    + intros k i [[<- <-]|[_ Hk]]%lookup_insert_Some; [|eauto]. simpl. exists w.
      split; [done|congruence].
    + assert (Hnew : ∀ k i, work_items d !! k = Some i →
        sp_workflow_id (it_spec i) = sp_workflow_id spec →
        sp_dedupe_key (it_spec i) = sp_dedupe_key spec → False).
      { intros k i Hk E1 E2. apply (proj1 (exists_row_false _ _) Hex) in Hk.
        by rewrite !bool_decide_eq_true_2 in Hk. }
      intros k1 k2 i1 i2 [[<- <-]|[_ B1]]%lookup_insert_Some
        [[<- <-]|[_ B2]]%lookup_insert_Some ??; simpl in *; eauto; exfalso; eauto.
    + intros k i [[<- <-]|[_ Hk]]%lookup_insert_Some; [|eauto].
      split; simpl; intros; rewrite ?Hno in *; try done.
      split; [by intros [? ?]|lia].
    + intros k n Hk. rewrite lookup_insert_is_Some'. right. eauto.
    + intros k a Hk. destruct (Hal _ _ Hk) as (?&?&i&?&?). split_and!; eauto.
    + intros k a Hk. destruct (Has _ _ Hk) as (i&?&?). eauto.
Qed.

Lemma desired_specs_Ok wid desired acc m :
  desired_specs wid desired acc = Ok m →
  (∀ k s, acc !! k = Some s → k = sp_dedupe_key s ∧ sp_workflow_id s = wid) →
  (∀ k s, m !! k = Some s → k = sp_dedupe_key s ∧ sp_workflow_id s = wid) ∧
  acc ⊆ m ∧ (∀ s, s ∈ desired → m !! sp_dedupe_key s = Some s).
Proof.
  revert acc. induction desired as [|s desired IH]; intros acc H Hacc; simpl in H.
  { simplify_eq. split_and!; [done..|]. intros s []%elem_of_nil. }
  destruct (bool_decide (sp_workflow_id s ≠ wid) || _) eqn:Hc; [done|].
  apply orb_false_iff in Hc as [Hw Hc]. apply bool_decide_eq_false, dec_stable in Hw.
  assert (Hs : (match acc !! sp_dedupe_key s with
                | Some _ => acc | None => <[sp_dedupe_key s := s]> acc end)
               !! sp_dedupe_key s = Some s).
  { destruct (acc !! sp_dedupe_key s) as [s'|] eqn:E; [|by rewrite lookup_insert_eq].
    apply bool_decide_eq_false, dec_stable in Hc. by subst. }
  destruct (IH _ H) as (Hm&Hsub&Hin).
  { destruct (acc !! sp_dedupe_key s) eqn:E; [done|].
    intros k s' [[<- <-]|[_ ?]]%lookup_insert_Some; eauto. }
  split_and!; [done| |].
  - etrans; [|done]. destruct (acc !! sp_dedupe_key s) eqn:E; [done|]. by apply insert_subseteq.
  - intros s' [->|?]%elem_of_cons; [|by apply Hin]. by eapply lookup_weaken.
Qed.

(** The row a key read returns, if it returns one, is a row of that key. *)
Lemma read_by_key_Ok wid key d o d' :
  read_work_item_by_key_in wid key d = Ok (o, d') → d' = d ∧
  match o with
  | Some i => ∃ id, work_items d !! id = Some i ∧ sp_workflow_id (it_spec i) = wid ∧
                    sp_dedupe_key (it_spec i) = key
  | None => ∀ id i, work_items d !! id = Some i → sp_workflow_id (it_spec i) = wid →
                    sp_dedupe_key (it_spec i) ≠ key
  end.
Proof.
  unfold read_work_item_by_key_in. intros. tx_inv. split; [done|].
  destruct (select _ (work_items d')) as [|[id i] rows] eqn:E; simpl.
  - intros id i Hi Hw Hk. assert (Hin : (id, i) ∈ ([] : list (N * WorkItem))).
    { rewrite <-E. apply elem_of_select. by rewrite !bool_decide_eq_true_2. }
    by apply elem_of_nil in Hin.
  - exists id. assert (Hin : (id, i) ∈ (id, i) :: rows) by by left. rewrite <-E in Hin.
    apply elem_of_select in Hin as [? Hp]. apply andb_true_iff in Hp.
    by rewrite !bool_decide_eq_true in Hp.
Qed.

Lemma reconcile_one_Ok wid now fresh k s d u d' w :
  instances d !! wid = Some w → WorkflowStatus.is_terminal (wf_status w) = false →
  k = sp_dedupe_key s → sp_workflow_id s = wid →
  reconcile_one wid now fresh (k, s) d = Ok (u, d') →
  items_step d d' ∧ ∃ id i, work_items d' !! id = Some i ∧ it_spec i = s.
Proof.
  intros Hw Ht -> <- H. unfold reconcile_one in H. apply tx_bind_Ok in H as (o&d1&H1&H2).
  apply read_by_key_Ok in H1 as [-> Ho]. simpl in *. destruct o as [i|].
  - case_decide as Hs; [done|]. tx_inv. split; [done|].
    destruct Ho as (id&?&_). eauto.
  - split; [by eapply insert_work_item_step|]. unfold insert_work_item in H2. tx_inv.
    eexists _, _. rewrite lookup_insert_eq. done.
Qed.

Lemma reconcile_loop_Ok wid now fresh l d u d' w :
  instances d !! wid = Some w → WorkflowStatus.is_terminal (wf_status w) = false →
  (∀ k s, (k, s) ∈ l → k = sp_dedupe_key s ∧ sp_workflow_id s = wid) →
  for_each (reconcile_one wid now fresh) l d = Ok (u, d') →
  items_step d d' ∧ ∀ k s, (k, s) ∈ l → ∃ id i, work_items d' !! id = Some i ∧ it_spec i = s.
Proof.
  revert d. induction l as [|[k s] l IH]; intros d Hw Ht Hl H; cbn [for_each] in H.
  { tx_inv. split; [done|]. by intros k s ?%elem_of_nil. }
  apply tx_bind_Ok in H as ([]&d1&H1&H2). destruct (Hl k s) as [Hk Hs]; [by left|].
  destruct (reconcile_one_Ok _ _ _ _ _ _ _ _ _ Hw Ht Hk Hs H1) as [Hst (id&i&Hi&Hsp)].
  destruct (IH d1) as [Hst' Hrest]; [by rewrite (is_instances _ _ Hst)|done| |done|].
  { intros. apply Hl. by right. }
  split; [by etrans|]. intros k' s' [[= -> ->]|?]%elem_of_cons; [|eauto].
  destruct (is_evolves _ _ Hst' _ _ Hi) as (i'&?&Hev). exists id, i'. split; [done|].
  by rewrite (ev_spec _ _ Hev).
Qed.

(** What a successful reconciliation establishes. *)
Lemma reconcile_work_items_Ok wid desired now fresh d rows d' :
  reconcile_work_items wid desired now fresh d = Ok (rows, d') →
  items_step d d' ∧ ∃ m, desired_specs wid desired ∅ = Ok m ∧
    (∃ w, instances d' !! wid = Some w ∧ WorkflowStatus.is_terminal (wf_status w) = false) ∧
    (∀ k s, m !! k = Some s → k = sp_dedupe_key s ∧ sp_workflow_id s = wid ∧
       ∃ id i, work_items d' !! id = Some i ∧ it_spec i = s).
Proof.
  unfold reconcile_work_items. intros H.
  apply tx_bind_Ok in H as (m&d0&Hm&H). apply lift_Ok in Hm as [Hm ->].
  apply tx_bind_Ok in H as (w&d1&Hw&H). apply require_workflow_Ok in Hw as [-> Hw].
  destruct (WorkflowStatus.is_terminal (wf_status w)) eqn:Ht; [done|].
  apply tx_bind_Ok in H as (u&d2&Hloop&H). unfold list_work_items_in in H. tx_inv.
  destruct (desired_specs_Ok _ _ _ _ Hm) as (Hspec&_&_); [done|].
  apply (reconcile_loop_Ok _ _ _ _ _ _ _ _ Hw Ht) in Hloop as [Hst Hall].
  2:{ intros k s Hks. apply elem_of_sort_by, elem_of_map_to_list in Hks. auto. }
  split; [done|]. exists m. split_and!; [done| |].
  - exists w. by rewrite (is_instances _ _ Hst).
  - intros k s Hks. destruct (Hspec _ _ Hks). split_and!; [done..|]. eapply Hall.
    by apply elem_of_sort_by, elem_of_map_to_list.
Qed.

Lemma reconcile_work_items_step wid desired now fresh d rows d' :
  reconcile_work_items wid desired now fresh d = Ok (rows, d') → items_step d d'.
Proof. by intros [? _]%reconcile_work_items_Ok. Qed.

(** Reconciling what is already there changes nothing. *)
Lemma reconcile_loop_noop wid now fresh l d :
  items_ok d →
  (∀ k s, (k, s) ∈ l → k = sp_dedupe_key s ∧ sp_workflow_id s = wid ∧
     ∃ id i, work_items d !! id = Some i ∧ it_spec i = s) →
  for_each (reconcile_one wid now fresh) l d = Ok (tt, d).
Proof.
  intros Hok. induction l as [|[k s] l IH]; intros Hl; [done|]. cbn [for_each].
  destruct (Hl k s) as (->&<-&id&i&Hi&<-); [by left|].
  assert (H1 : reconcile_one (sp_workflow_id (it_spec i)) now fresh
    (sp_dedupe_key (it_spec i), it_spec i) d = Ok (tt, d)).
  { unfold reconcile_one. destruct (read_work_item_by_key_in (sp_workflow_id (it_spec i)) (sp_dedupe_key (it_spec i)) d)
      as [[o d1]|e] eqn:E; [|done].
    rewrite (tx_bind_step _ _ _ _ _ E). apply read_by_key_Ok in E as [-> Ho]. simpl.
    destruct o as [i'|]; [|by destruct (Ho _ _ Hi)].
    destruct Ho as (id'&Hi'&Hw&Hk).
    assert (id' = id) as -> by (by eapply (ok_dedupe _ Hok)). simplify_eq.
    by rewrite decide_False by naive_solver. }
  rewrite (tx_bind_step _ _ _ _ _ H1). apply IH. intros. apply Hl. by right.
Qed.

(** ** Claiming *)

#[global] Instance item_leb_total : TotalLeb item_leb.
Proof.
  pose (key := λ a : N * WorkItem,
    (sp_sort_key (it_spec a.2), sp_dedupe_key (it_spec a.2))).
  apply (lex_leb_total key str_pair_leb (λ a b : N * WorkItem, (a.1 <=? b.1)%N)); [apply _..|].
  split; intros; rewrite ?N.leb_le in *; lia.
Qed.

End Items.

#[export] Hint Resolve claim_next_step start_work_item_step transition_work_item_step
  reconcile_orphaned_step assign_work_item_step request_reclaim_step
  reconcile_work_items_step : replicant.


(** * What the operations do *)

Section Operations.
Context `{SD : Serde} `{RO : RowOrder}.
Implicit Types (d : DB) (i : WorkItem).

Lemma with_work_items_ext f g d :
  f (work_items d) = g (work_items d) → with_work_items f d = with_work_items g d.
Proof. unfold with_work_items. by intros ->. Qed.

(** [claim_next_work_item] hands out the least eligible item in sort-key, then
    deduplication-key order, marks exactly that row assigned, and returns nothing
    only when no item of the workflow is eligible. *)
Theorem claim_next_work_item_picks_least wid now d r d' :
  claim_next_work_item wid now d = Ok (r, d') →
  match r with
  | None => d' = d ∧ ∀ id i, work_items d !! id = Some i → eligible d wid now i = false
  | Some (id, i') =>
      ∃ i, work_items d !! id = Some i ∧ eligible d wid now i = true ∧
        (∀ k j, work_items d !! k = Some j → eligible d wid now j = true →
           item_leb (id, i) (k, j) = true) ∧
        i' = with_state (assign_state now) i ∧ d' = with_work_items (<[id := i']>) d
  end.
Proof.
  unfold claim_next_work_item. intros. op_inv.
  - match goal with H : head _ = Some (?n, ?w) |- _ => rename n into id, w into i, H into Hh end.
    assert (Hleast := head_sort_by_least _ _ _ Hh).
    apply head_sort_by_elem, elem_of_select in Hh as [Hi Hel].
    assert (Hup := update_where_id _ (with_state (assign_state now)) _ _ Hi).
    match goal with H : update_where _ _ _ !! id = Some _ |- _ =>
      rewrite Hup, lookup_insert_eq in H; simplify_eq end.
    exists i. split_and!; [done..| |done|by apply with_work_items_ext].
    intros k j Hj Hej. apply Hleast. by apply elem_of_select.
  - split; [done|]. intros id i Hi.
    match goal with H : head _ = None |- _ => apply head_sort_by_None in H; rename H into Hnil end.
    match goal with |- ?b = false => destruct b eqn:E; [|done] end.
    assert (Hin : (id, i) ∈ ([] : list (N * WorkItem)))
      by (rewrite <-Hnil; by apply elem_of_select).
    by apply elem_of_nil in Hin.
Qed.

(** the delay before the next attempt of a failed item is the doubling back-off
    within a tenth in either direction, and never above the six-hour cap. *)
Theorem work_item_retry_delay_bounds id ordinal failures :
  unjittered_delay_ms failures * 9 / 10 ≤ work_item_retry_delay_ms id ordinal failures ∧
  work_item_retry_delay_ms id ordinal failures
    ≤ Z.min retry_cap_ms (unjittered_delay_ms failures * 11 / 10) ∧
  retry_base_ms ≤ unjittered_delay_ms failures ≤ retry_cap_ms ∧
  (1 ≤ failures ≤ 6 → unjittered_delay_ms (failures + 1) = 2 * unjittered_delay_ms failures) ∧
  (8 ≤ failures → unjittered_delay_ms failures = retry_cap_ms).
Proof.
  assert (Hb := unjittered_delay_bounds failures).
  unfold work_item_retry_delay_ms. set (hash := fnv1a _ mod 2001).
  assert (0 ≤ hash < 2001) by (apply Z.mod_pos_bound; lia). clearbody hash.
  assert (i64_try_from hash = Some hash) as -> by (apply i64_try_from_Some; machine_ints; lia).
  simpl. assert (u64_try_from (10000 + (hash - 1000)) = Some (10000 + (hash - 1000))) as ->
    by (unfold u64_try_from; rewrite decide_True; [done|machine_ints; lia]).
  simpl. set (u := unjittered_delay_ms failures) in *.
  assert (Hlo : u * 9 / 10 ≤ u * (10000 + (hash - 1000)) / 10000).
  { transitivity (u * 9000 / 10000); [|apply Z.div_le_mono; unfold retry_base_ms in *; nia].
    replace (u * 9000) with ((u * 9) * 1000) by lia. by rewrite <-(Z.div_mul_cancel_r _ 10 1000). }
  assert (Hhi : u * (10000 + (hash - 1000)) / 10000 ≤ u * 11 / 10).
  { transitivity (u * 11000 / 10000); [apply Z.div_le_mono; unfold retry_base_ms in *; nia|].
    replace (u * 11000) with ((u * 11) * 1000) by lia. by rewrite <-(Z.div_mul_cancel_r _ 10 1000). }
  set (j := u * (10000 + (hash - 1000)) / 10000) in *.
  assert (0 ≤ u * 9 / 10) by (apply Z.div_pos; unfold retry_base_ms in *; lia).
  assert (u * 9 / 10 ≤ u) by (apply Z.div_le_upper_bound; unfold retry_base_ms in *; lia).
  assert (u * 11 / 10 ≤ 2 * u) by (apply Z.div_le_upper_bound; unfold retry_base_ms in *; lia).
  unfold retry_base_ms, retry_cap_ms in *.
  assert (u64_try_from j = Some j) as ->
    by (unfold u64_try_from; rewrite decide_True; [done|machine_ints; lia]).
  simpl. assert (i64_try_from (Z.min j 21600000) = Some (Z.min j 21600000)) as ->
    by (apply i64_try_from_Some; machine_ints; lia).
  simpl. split_and!; [lia..|apply unjittered_delay_doubles|].
  intros. subst u. unfold unjittered_delay_ms. rewrite decide_True; [done|lia].
Qed.

(** reconciling the same desired set again succeeds, returns the same rows and
    changes nothing, whatever the clock and the identifier source. *)
Theorem reconcile_work_items_idempotent wid desired now fresh d rows d' now' fresh' :
  items_ok d → reconcile_work_items wid desired now fresh d = Ok (rows, d') →
  reconcile_work_items wid desired now' fresh' d' = Ok (rows, d').
Proof.
  intros Hok H. destruct (reconcile_work_items_Ok _ _ _ _ _ _ _ H) as (Hst&m&Hm&(w&Hw&Ht)&Hall).
  assert (Hrows : list_work_items_in wid d' = Ok (rows, d')).
  { revert H. unfold reconcile_work_items, list_work_items_in. intros. by op_inv. }
  unfold reconcile_work_items.
  rewrite (tx_bind_step _ _ d' m d') by by rewrite Hm.
  rewrite (tx_bind_step _ _ d' w d') by (unfold require_workflow, read_in;
    rewrite (tx_bind_step _ _ d' (Some w) d'); [done|unfold gets; by rewrite Hw]).
  rewrite Ht. rewrite (tx_bind_step _ _ d' tt d'); [done|].
  apply reconcile_loop_noop; [by apply (is_ok _ _ Hst)|].
  intros k s Hks. apply Hall. by apply elem_of_sort_by, elem_of_map_to_list in Hks.
Qed.

(** ** Accepted transitions *)

Definition transition_allowed (s : WorkItemStatus.t) (tr : WorkItemTransition) : bool :=
  negb (WorkItemStatus.is_terminal s) &&
  match tr with
  | CheckpointCommitted _ | RetryableFailure _ _ | TSucceeded _ _ =>
      bool_decide (s = WorkItemStatus.Running)
  | TReclaimed _ => in_progress s
  | TWaiting _ _ _ | TSkipped _ _ | TFailed _ _ | TAbandoned _ => true
  end.

Definition transition_target (tr : WorkItemTransition) : WorkItemStatus.t :=
  match tr with
  | CheckpointCommitted _ => WorkItemStatus.Running
  | TWaiting _ _ _ => WorkItemStatus.Waiting
  | RetryableFailure _ _ | TReclaimed _ => WorkItemStatus.Pending
  | TSucceeded _ _ => WorkItemStatus.Succeeded
  | TSkipped _ _ => WorkItemStatus.Skipped
  | TFailed _ _ => WorkItemStatus.Failed
  | TAbandoned _ => WorkItemStatus.Abandoned
  end.

Lemma plan_transition_spec id i tr now :
  WorkItemStatus.is_terminal (st_status (it_state i)) = false →
  in_u32 (st_consecutive_failure_count (it_state i) + 1) →
  if transition_allowed (st_status (it_state i)) tr
  then ∃ plan, plan_transition id i tr now = Ok plan ∧ pn_status plan = transition_target tr
  else ∃ to, plan_transition id i tr now = Err (InvalidWorkItemTransition (st_status (it_state i)) to).
Proof.
  intros Ht Hu. unfold plan_transition, transition_allowed, mbind, result_bind.
  assert (u32_try_from (st_consecutive_failure_count (it_state i) + 1)
    = Some (st_consecutive_failure_count (it_state i) + 1)) as -> by by apply u32_try_from_Some.
  unfold invalid_work_item_transition.
  destruct tr, (st_status (it_state i)); simpl; try done; eauto.
Qed.

Lemma close_open_attempt_running id outcome error ended d i :
  items_ok d → work_items d !! id = Some i → st_status (it_state i) = WorkItemStatus.Running →
  close_open_attempt id outcome error ended d =
  Ok (tt, with_attempts (update_where (open_of id) (close_attempt_row ended outcome error)) d).
Proof.
  intros Hok Hi Hs.
  assert (Hc := count_open_running _ _ _ (ok_attempts _ Hok _ _ Hi) Hs).
  unfold close_open_attempt. fold (open_of id).
  erewrite tx_bind_step by done. erewrite tx_bind_step by done. rewrite Hc. done.
Qed.

Lemma transition_writes_succeed id i plan now d :
  items_ok d → work_items d !! id = Some i → in_i64 (st_revision (it_state i)) →
  (pn_attempt_close plan ≠ None → st_status (it_state i) = WorkItemStatus.Running) →
  ∀ tr, WorkItemStatus.is_terminal (st_status (it_state i)) = false →
  plan_transition id i tr now = Ok plan →
  ∃ d', transition_work_item_in id i tr now d = Ok (tt, d') ∧
    work_items d' !! id = Some (with_state (apply_plan plan now) i).
Proof.
  intros Hok Hi Hr Hclose tr Ht Hplan. unfold transition_work_item_in. rewrite Ht.
  rewrite (tx_bind_step _ _ d plan d) by by rewrite Hplan.
  rewrite (tx_bind_step _ _ d tt (close_tables id plan now d)).
  2:{ unfold close_tables. destruct (pn_attempt_close plan) as [[outcome error]|]; [|done].
      apply (close_open_attempt_running _ _ _ _ _ i); auto. }
  destruct (close_tables_frame id plan now d) as (_&_&_&Fw&_&_&_).
  set (d1 := close_tables id plan now d) in *.
  match goal with |- ∃ d', (?m ≫= ?k) d1 = _ ∧ _ =>
    assert (Hrel : ∃ d2, m d1 = Ok (tt, d2) ∧ work_items d2 = work_items d1) end.
  { repeat case_match; eexists; split; done. }
  destruct Hrel as (d2&Hrel&Hw2). rewrite (tx_bind_step _ _ _ _ _ Hrel).
  match goal with |- ∃ d', (?m ≫= ?k) d2 = _ ∧ _ =>
    assert (Hasg : ∃ n d3, m d2 = Ok (n, d3) ∧ work_items d3 = work_items d2) end.
  { destruct (pn_status plan); eexists _, _; split; reflexivity. }
  destruct Hasg as (n&d3&Hasg&Hw3). rewrite (tx_bind_step _ _ _ _ _ Hasg).
  assert (Hw : work_items d3 = work_items d) by congruence.
  assert (work_item_revision_to_sql (st_revision (it_state i)) = Ok (st_revision (it_state i)))
    as Hsql by (unfold work_item_revision_to_sql, i64_try_from; by rewrite decide_True).
  rewrite (tx_bind_step _ _ d3 (st_revision (it_state i)) d3) by by rewrite Hsql.
  cbv zeta. erewrite tx_bind_step by done. erewrite tx_bind_step by done. rewrite Hw.
  rewrite decide_False by by apply count_revision with i.
  eexists. split; [done|]. simpl. rewrite Hw, (update_where_revision _ _ _ _ _ Hi eq_refl).
  by rewrite lookup_insert_eq.
Qed.

(** C18: on well-formed tables a transition with the current revision is accepted
    exactly when its state machine allows it, moves the item to the transition's
    status and advances its revision by one; otherwise the error names the illegal
    transition, never a broken attempt table or a lost update. *)
Theorem transition_work_item_accepts id i tr now d :
  items_ok d → work_items d !! id = Some i → in_i64 (st_revision (it_state i)) →
  in_u32 (st_consecutive_failure_count (it_state i) + 1) →
  if transition_allowed (st_status (it_state i)) tr
  then ∃ i' d', transition_work_item id (st_revision (it_state i)) tr now d = Ok (i', d') ∧
         st_status (it_state i') = transition_target tr ∧
         st_revision (it_state i') = st_revision (it_state i) + 1 ∧
         work_items d' !! id = Some i'
  else ∃ to, transition_work_item id (st_revision (it_state i)) tr now d
         = Err (InvalidWorkItemTransition (st_status (it_state i)) to).
Proof.
  intros Hok Hi Hr Hu.
  assert (Hread : require_work_item id d = Ok (i, d))
    by (unfold require_work_item, read_work_item_in; erewrite tx_bind_step by done; by rewrite Hi).
  assert (Hver : verify_work_item_revision id i (st_revision (it_state i)) = Ok tt)
    by (unfold verify_work_item_revision; by rewrite decide_True).
  unfold transition_work_item. rewrite (tx_bind_step _ _ _ _ _ Hread).
  rewrite (tx_bind_step _ _ d tt d) by by rewrite Hver.
  destruct (WorkItemStatus.is_terminal (st_status (it_state i))) eqn:Ht.
  { unfold transition_allowed. rewrite Ht. simpl. eexists.
    unfold transition_work_item_in. rewrite Ht. done. }
  assert (Hspec := plan_transition_spec id i tr now Ht Hu).
  destruct (transition_allowed (st_status (it_state i)) tr).
  - destruct Hspec as (plan&Hplan&Hst).
    assert (Hcl := plan_transition_close _ _ _ _ _ Hplan).
    destruct (transition_writes_succeed id i plan now d Hok Hi Hr) with (tr := tr)
      as (d'&Hd'&Hi'); [|done..|].
    { intros Hne. by destruct (pn_attempt_close plan); [apply Hcl|]. }
    rewrite (tx_bind_step _ _ _ _ _ Hd').
    exists (with_state (apply_plan plan now) i), d'. split_and!; [|done..].
    unfold require_work_item, read_work_item_in. erewrite tx_bind_step by done. by rewrite Hi'.
  - destruct Hspec as (to&Hplan). exists to. unfold transition_work_item_in. rewrite Ht.
    apply tx_bind_Err. left. apply tx_bind_Err. left. by rewrite Hplan.
Qed.

(** on well-formed tables an assigned item with the expected revision and room
    for one more attempt always starts: no key or index constraint can fire, and
    the new open attempt has the next ordinal and names the worker. *)
Theorem start_work_item_succeeds id i worker asg started d :
  items_ok d → work_items d !! id = Some i →
  st_status (it_state i) = WorkItemStatus.Assigned → asg ≠ "" → worker ≠ "" →
  in_i64 (st_revision (it_state i)) → in_u32 (st_attempt_count (it_state i) + 1) →
  ∃ i' d', start_work_item id (st_revision (it_state i)) worker asg started d = Ok (i', d') ∧
    st_status (it_state i') = WorkItemStatus.Running ∧
    st_attempt_count (it_state i') = st_attempt_count (it_state i) + 1 ∧
    attempts d' !! (id, st_attempt_count (it_state i')) =
      Some {| at_assignment_id := asg; at_worker_identity := worker;
              at_started_at_ms := started; at_ended_at_ms := None; at_outcome := None;
              at_error := None |}.
Proof.
  intros Hok Hi Hs Hasg Hw Hr Hu. unfold start_work_item.
  rewrite !decide_False by done.
  assert (Hsql : work_item_revision_to_sql (st_revision (it_state i))
    = Ok (st_revision (it_state i)))
    by (unfold work_item_revision_to_sql, i64_try_from; by rewrite decide_True).
  assert (Hread : require_work_item id d = Ok (i, d))
    by (unfold require_work_item, read_work_item_in; erewrite tx_bind_step by done; by rewrite Hi).
  assert (Hver : verify_work_item_revision id i (st_revision (it_state i)) = Ok tt)
    by (unfold verify_work_item_revision; by rewrite decide_True).
  rewrite (tx_bind_step _ _ d (st_revision (it_state i)) d) by by rewrite Hsql.
  rewrite (tx_bind_step _ _ _ _ _ Hread).
  rewrite (tx_bind_step _ _ d tt d) by by rewrite Hver.
  rewrite decide_False by (intros Hne; by apply Hne).
  rewrite (proj2 (u32_try_from_Some _ _) (conj eq_refl Hu)).
  rewrite (tx_bind_step _ _ d (st_attempt_count (it_state i) + 1) d) by done.
  assert (Hat := ok_attempts _ Hok _ _ Hi).
  match goal with |- ∃ i' d', (insert_attempt _ _ ?a ≫= _) d = _ ∧ _ =>
    rewrite (tx_bind_step _ _ d tt
      (with_attempts (<[(id, st_attempt_count (it_state i) + 1) := a]>) d)) end.
  2:{ unfold insert_attempt. erewrite tx_bind_step by done. rewrite decide_True; [done|].
      split_and!; [|by eexists|].
      - apply eq_None_not_Some. rewrite (ok_dense _ _ _ Hat). lia.
      - intros _. apply (count_open_not_running _ _ _ Hat). by rewrite Hs. }
  cbv zeta. erewrite tx_bind_step by done. erewrite tx_bind_step by done.
  rewrite decide_False by by apply count_revision with i.
  set (i' := with_state (start_state (st_attempt_count (it_state i) + 1) started) i).
  exists i'. eexists. split.
  { unfold require_work_item, read_work_item_in. erewrite tx_bind_step by done. simpl.
    by rewrite (update_where_revision _ _ _ _ _ Hi eq_refl), lookup_insert_eq. }
  split_and!; [done..|]. simpl. by rewrite lookup_insert_eq.
Qed.

(** ** Campaign aggregation *)

Definition has_status (s : WorkItemStatus.t) (items : list (N * WorkItem)) : Prop :=
  ∃ row, row ∈ items ∧ st_status (it_state row.2) = s.

Lemma count_status_nonzero s items : count_status s items ≠ 0 ↔ has_status s items.
Proof.
  unfold count_status, has_status.
  destruct (filter _ items) as [|row l] eqn:E; simpl; split.
  - done.
  - intros (row&Hrow&Hs). assert (Hin : row ∈ ([] : list (N * WorkItem)))
      by (rewrite <-E; by apply list_elem_of_filter).
    by apply elem_of_nil in Hin.
  - intros _. exists row. assert (Hin : row ∈ row :: l) by by left. rewrite <-E in Hin.
    apply list_elem_of_filter in Hin. tauto.
  - intros _. lia.
Qed.

Lemma count_status_length (items : list (N * WorkItem)) (p : WorkItemStatus.t) :
  (∀ row, row ∈ items → st_status (it_state row.2) = p) ↔ count_status p items = Z.of_nat (length items).
Proof.
  unfold count_status. induction items as [|row items IH]; simpl.
  - split; [done|]. by intros _ row ?%elem_of_nil.
  - rewrite filter_cons. assert (Hle := length_filter (λ i : N * WorkItem, st_status (it_state i.2) = p) items).
    case_decide as Hr; simpl; split.
    + intros Hall. rewrite !Nat2Z.inj_succ. f_equal. apply IH. intros. apply Hall. by right.
    + intros Heq row' [->|?]%elem_of_cons; [done|]. apply IH; [lia|done].
    + intros Hall. destruct Hr. apply Hall. by left.
    + lia.
Qed.

Lemma existsb_false_elem {A} (f : A → bool) l :
  existsb f l = false ↔ ∀ x, x ∈ l → f x = false.
Proof.
  induction l as [|x l IH]; simpl; [split; [by intros _ x ?%elem_of_nil|done]|].
  rewrite orb_false_iff, IH. split.
  - intros [? ?] y [->|?]%elem_of_cons; auto.
  - intros H. split; [apply H; by left|]. intros. apply H. by right.
Qed.

(** a campaign is summarised only when every item is terminal, and the workflow
    status it maps to is success exactly when some item succeeded or no item
    failed or was abandoned. *)
Theorem aggregate_campaign_status wid d r d' :
  aggregate_campaign_result wid d = Ok (Some r, d') →
  ∃ items, list_work_items_in wid d = Ok (items, d) ∧ d' = d ∧
    (∀ row, row ∈ items → WorkItemStatus.is_terminal (st_status (it_state row.2)) = true) ∧
    length (cr_items r) = length items ∧
    (campaign_workflow_status r = Succeeded ↔
     has_status WorkItemStatus.Succeeded items ∨
     ¬ (has_status WorkItemStatus.Failed items ∨ has_status WorkItemStatus.Abandoned items)) ∧
    (campaign_workflow_status r ≠ Succeeded → campaign_workflow_status r = Failed).
Proof.
  unfold aggregate_campaign_result, list_work_items_in. intros. tx_inv.
  match goal with H : existsb _ ?l = false |- _ => set (items := l) in *; rename H into Hterm end.
  assert (Hall : ∀ row, row ∈ items →
    WorkItemStatus.is_terminal (st_status (it_state row.2)) = true).
  { intros row Hrow. apply (proj1 (existsb_false_elem _ _) Hterm) in Hrow.
    by apply negb_false_iff in Hrow. }
  exists items. split_and!; [done..|by rewrite length_fmap| |].
  all: unfold campaign_workflow_status, campaign_outcome; simpl.
  2: by repeat case_match.
  rewrite <-!count_status_nonzero.
  assert (Hskip : count_status WorkItemStatus.Succeeded items = 0 →
    count_status WorkItemStatus.Failed items = 0 →
    count_status WorkItemStatus.Abandoned items = 0 →
    count_status WorkItemStatus.Skipped items = Z.of_nat (length items)).
  { intros H1 H2 H3. apply count_status_length. intros row Hrow.
    assert (Hno : ∀ s, count_status s items = 0 → st_status (it_state row.2) ≠ s).
    { intros s Hs Heq. assert (count_status s items ≠ 0); [|done].
      apply count_status_nonzero. by exists row. }
    apply Hno in H1. apply Hno in H2. apply Hno in H3. apply Hall in Hrow.
    destruct (st_status (it_state row.2)); done. }
  destruct (decide (count_status WorkItemStatus.Succeeded items = 0)) as [E1|N1],
    (decide (count_status WorkItemStatus.Failed items = 0)) as [E2|N2],
    (decide (count_status WorkItemStatus.Abandoned items = 0)) as [E3|N3];
    rewrite ?E1, ?E2, ?E3, ?(bool_decide_eq_true_2 _ N1), ?(bool_decide_eq_true_2 _ N2),
      ?(bool_decide_eq_true_2 _ N3); simpl; rewrite ?orb_true_r; simpl.
  1: rewrite Hskip by done; rewrite bool_decide_eq_true_2 by done; simpl.
  2-4: match goal with |- context [negb ?b] => destruct b end; simpl.
  all: split; intros; first [done | lia | exfalso; lia].
Qed.

End Operations.
