(* ===== verification/Lifecycle.v ===== *)
(** * Workflow instances

    Creation, reuse, listing, state replacement, payload migration and pruning of
    workflow instances: the operations of [WorkflowRepository] on
    [workflow_instances], with everything a terminal state cleans up in the same
    transaction. *)

From S2P Require Import Prelude Model Store Claims WorkItems WorkItemFacts.

Section Lifecycle.
Context `{SD : Serde} `{RO : RowOrder}.

(** ** Creation *)

Definition queued_instance (workflow : NewWorkflow) (now : Z) : WorkflowInstance :=
  {| wf_kind := nw_kind workflow; wf_schema_version := nw_schema_version workflow;
     wf_status := Queued; wf_failure_disposition := None;
     wf_current_step := nw_current_step workflow; wf_created_at := now; wf_updated_at := now;
     wf_last_error := None; wf_parent_id := nw_parent_id workflow; wf_revision := 0;
     wf_config_json := to_string (nw_config workflow);
     wf_checkpoint_json := to_string (nw_checkpoint workflow);
     wf_result_json := None; wf_wait_intent_json := None |}.

(** [insert_workflow_in]: the primary key, the parent's foreign key and the check
    on the schema version. *)
Definition insert_workflow_in (workflow : NewWorkflow) (id : WorkflowId) (now : Z)
    : rtx WorkflowInstance :=
  d ← get;
  if decide (instances d !! id = None ∧ 0 < nw_schema_version workflow ∧
             match nw_parent_id workflow with
             | None => true
             | Some parent => bool_decide (is_Some (instances d !! parent)) || bool_decide (parent = id)
             end = true)
  then _ ← modify (with_instances (<[id := queued_instance workflow now]>));
       require_workflow id
  else fail Sql.

(** [create_with_parent_claims] *)
Definition create_with_parent_claims (workflow : NewWorkflow) (resources : list ResourceKey)
    (id : WorkflowId) (clock : Z) : rtx WorkflowInstance :=
  if decide (nw_schema_version workflow = 0) then fail InvalidWorkflowSchemaVersion
  else
    now ← lift (now_millis clock);
    instance ← insert_workflow_in workflow id now;
    _ ← match resources with
        | [] => mret tt
        | _ =>
            parent ← lift (ok_or (nw_parent_id workflow)
                             (Compatibility "claim handoff requires a parent"));
            transfer_claims_in parent id resources now
        end;
    mret instance.

(** [create] *)
Definition create (workflow : NewWorkflow) (id : WorkflowId) (clock : Z) : rtx WorkflowInstance :=
  create_with_parent_claims workflow [] id clock.

(** ** Listing *)

(** [ORDER BY created_at, id] *)
Definition instance_leb (a b : N * WorkflowInstance) : bool :=
  (wf_created_at a.2 <? wf_created_at b.2)
  || ((wf_created_at a.2 =? wf_created_at b.2) && (a.1 <=? b.1)%N).

(** [status IN ('queued', 'running', 'waiting', 'reconciling', 'paused')] *)
Definition is_active_status (s : WorkflowStatus) : bool :=
  match s with
  | Queued | Running | Waiting | Reconciling | Paused => true
  | _ => false
  end.

Definition list_where (p : N → WorkflowInstance → bool) : rtx (list (N * WorkflowInstance)) :=
  gets (λ d, sort_by instance_leb (select p (instances d))).

(** [list], [list_active] and [list_children] *)
Definition list_instances : rtx (list (N * WorkflowInstance)) := list_where (λ _ _, true).
Definition list_active : rtx (list (N * WorkflowInstance)) :=
  list_where (λ _ w, is_active_status (wf_status w)).
Definition list_children (parent_id : WorkflowId) : rtx (list (N * WorkflowInstance)) :=
  list_where (λ _ w, bool_decide (wf_parent_id w = Some parent_id)).

Record WorkflowSummary := {
  su_id : WorkflowId;
  su_kind : string;
  su_status : WorkflowStatus;
  su_current_step : option string;
  su_updated_at : Z;
  su_revision : Z;
}.

(** [row_to_summary] *)
Definition row_to_summary (row : N * WorkflowInstance) : WorkflowSummary :=
  {| su_id := row.1; su_kind := wf_kind row.2; su_status := wf_status row.2;
     su_current_step := wf_current_step row.2; su_updated_at := wf_updated_at row.2;
     su_revision := wf_revision row.2 |}.

(** [list_summaries] and [list_active_summaries] *)
Definition list_summaries : rtx (list WorkflowSummary) :=
  rows ← list_where (λ _ _, true); mret (row_to_summary <$> rows).
Definition list_active_summaries : rtx (list WorkflowSummary) :=
  rows ← list_where (λ _ w, is_active_status (wf_status w)); mret (row_to_summary <$> rows).

(** ** Reuse *)

(** The loop of [create_or_reuse_active]: the first accepted row. *)
Fixpoint find_compatible (compatible : N * WorkflowInstance → res bool)
    (active : list (N * WorkflowInstance)) : res (option (N * WorkflowInstance)) :=
  match active with
  | [] => Ok None
  | row :: active =>
      ok ← compatible row;
      if (ok : bool) then Ok (Some row) else find_compatible compatible active
  end.

(** [create_or_reuse_active]: the instance and whether it was created. *)
Definition create_or_reuse_active (workflow : NewWorkflow)
    (compatible : N * WorkflowInstance → res bool) (id : WorkflowId) (clock : Z)
    : rtx (N * WorkflowInstance * bool) :=
  if decide (nw_schema_version workflow = 0) then fail InvalidWorkflowSchemaVersion
  else
    now ← lift (now_millis clock);
    active ← list_active;
    found ← lift (find_compatible compatible active);
    match found with
    | Some row => mret (row, false)
    | None => instance ← insert_workflow_in workflow id now; mret ((id, instance), true)
    end.

(** ** State replacement *)

Definition replace_state (state : WorkflowState) (now : Z) (wait_intent : option Value)
    (failure_disposition : option WorkflowFailureDisposition) (w : WorkflowInstance)
    : WorkflowInstance :=
  {| wf_kind := wf_kind w; wf_schema_version := wf_schema_version w;
     wf_status := ws_status state; wf_failure_disposition := failure_disposition;
     wf_current_step := ws_current_step state; wf_created_at := wf_created_at w;
     wf_updated_at := now; wf_last_error := ws_last_error state;
     wf_parent_id := wf_parent_id w; wf_revision := wf_revision w + 1;
     wf_config_json := wf_config_json w;
     wf_checkpoint_json := to_string (ws_checkpoint state);
     wf_result_json := to_string <$> ws_result state;
     wf_wait_intent_json := to_string <$> wait_intent |}.

Definition abandon_state (now : Z) (s : WorkItemState) : WorkItemState :=
  {| st_status := WorkItemStatus.Abandoned; st_checkpoint_json := st_checkpoint_json s;
     st_result_json := st_result_json s; st_last_error := st_last_error s;
     st_attempt_count := st_attempt_count s; st_consecutive_failure_count := 0;
     st_next_attempt_at_ms := None; st_ever_started := st_ever_started s;
     st_created_at_ms := st_created_at_ms s; st_updated_at_ms := now;
     st_revision := st_revision s + 1 |}.

Definition cancel_attempt_row (now : Z) (a : WorkItemAttempt) : WorkItemAttempt :=
  close_attempt_row now WorkItemAttemptOutcome.Cancelled (at_error a) a.

(** The statements [update_state] runs after a terminal state: the payload return,
    then attempts, claims, allocations, assignments and items of the workflow. *)
Definition finish_workflow (id : WorkflowId) (current : WorkflowInstance)
    (return_to_parent : list ResourceKey) (now : Z) : rtx unit :=
  _ ← match return_to_parent, wf_parent_id current with
      | _ :: _, Some parent =>
          p ← read_in parent;
          match p with
          | Some w => if WorkflowStatus.is_terminal (wf_status w) then mret tt
                      else transfer_claims_in id parent return_to_parent now
          | None => mret tt
          end
      | _, _ => mret tt
      end;
  d ← get;
  _ ← modify (with_attempts (update_where
        (λ k a, is_open_attempt a && owned_by d id k.1) (cancel_attempt_row now)));
  _ ← modify (with_claims (delete_where (λ _ r, bool_decide (cl_workflow_id r = id))));
  _ ← update_allocations (λ _ a, is_active_allocation a && owned_by d id (ar_item_id a))
        (release_allocation_row now);
  _ ← update_assignments (λ _ a, is_unreleased_assignment a && owned_by d id (as_item_id a))
        (release_assignment_row now);
  modify (with_work_items (update_where
    (λ _ i, bool_decide (sp_workflow_id (it_spec i) = id)
            && negb (WorkItemStatus.is_terminal (st_status (it_state i))))
    (with_state (abandon_state now)))).

(** [update_state] *)
Definition update_state (id : WorkflowId) (expected_revision : Z) (state : WorkflowState)
    (wait_intent : option Value) (failure_disposition : option WorkflowFailureDisposition)
    (return_to_parent : list ResourceKey) (clock : Z) : rtx WorkflowInstance :=
  let failure_disposition :=
    if decide (ws_status state = Failed) then failure_disposition else None in
  expected ← lift (ok_or (i64_try_from expected_revision) (RevisionOutOfRange expected_revision));
  now ← lift (now_millis clock);
  current ← require_workflow id;
  if decide (wf_revision current ≠ expected) then fail (ConcurrentUpdate id expected)
  else if negb (WorkflowStatus.can_transition_to (wf_status current) (ws_status state))
  then fail (InvalidTransition (wf_status current) (ws_status state))
  else
    _ ← modify (with_instances (update_where
          (λ k w, bool_decide (k = id) && bool_decide (wf_revision w = expected))
          (replace_state state now wait_intent failure_disposition)));
    _ ← (if WorkflowStatus.is_terminal (ws_status state)
         then finish_workflow id current return_to_parent now else mret tt);
    require_workflow id.

Definition default_disposition (state : WorkflowState) : option WorkflowFailureDisposition :=
  if decide (ws_status state = Failed) then Some Retryable else None.

(** [update] *)
Definition update (id : WorkflowId) (expected_revision : Z) (state : WorkflowState) (clock : Z)
    : rtx WorkflowInstance :=
  update_state id expected_revision state None (default_disposition state) [] clock.

(** [update_with_wait] *)
Definition update_with_wait (id : WorkflowId) (expected_revision : Z) (state : WorkflowState)
    (wait_intent : option Value) (clock : Z) : rtx WorkflowInstance :=
  update_state id expected_revision state wait_intent (default_disposition state) [] clock.

(** [update_with_failure_disposition] *)
Definition update_with_failure_disposition (id : WorkflowId) (expected_revision : Z)
    (state : WorkflowState) (failure_disposition : WorkflowFailureDisposition) (clock : Z)
    : rtx WorkflowInstance :=
  update_state id expected_revision state None (Some failure_disposition) [] clock.

(** [complete_with_parent_claims] *)
Definition complete_with_parent_claims (id : WorkflowId) (expected_revision : Z)
    (state : WorkflowState) (resources : list ResourceKey) (clock : Z) : rtx WorkflowInstance :=
  if decide (ws_status state ≠ Succeeded)
  then fail (Compatibility "payload return requires success")
  else update_state id expected_revision state None None resources clock.

(** ** Migration *)

Definition migrate_payload (target_version : Z) (config checkpoint : Value) (now : Z)
    (w : WorkflowInstance) : WorkflowInstance :=
  {| wf_kind := wf_kind w; wf_schema_version := target_version; wf_status := wf_status w;
     wf_failure_disposition := wf_failure_disposition w; wf_current_step := wf_current_step w;
     wf_created_at := wf_created_at w; wf_updated_at := now; wf_last_error := wf_last_error w;
     wf_parent_id := wf_parent_id w; wf_revision := wf_revision w + 1;
     wf_config_json := to_string config; wf_checkpoint_json := to_string checkpoint;
     wf_result_json := wf_result_json w; wf_wait_intent_json := wf_wait_intent_json w |}.

(** [migrate_workflow] *)
Definition migrate_workflow (id : WorkflowId) (instance : WorkflowInstance)
    (target_version : Z) (config checkpoint : Value) (clock : Z) : rtx WorkflowInstance :=
  if decide (target_version ≤ wf_schema_version instance) then fail InvalidWorkflowSchemaVersion
  else
    revision ← lift (ok_or (i64_try_from (wf_revision instance))
                       (RevisionOutOfRange (wf_revision instance)));
    now ← lift (now_millis clock);
    let p := λ k w, bool_decide (k = id) && bool_decide (wf_revision w = revision)
                    && bool_decide (wf_schema_version w = wf_schema_version instance) in
    changed ← gets (λ d, count p (instances d));
    _ ← modify (with_instances (update_where p (migrate_payload target_version config checkpoint now)));
    if decide (changed = 0) then fail (ConcurrentUpdate id (wf_revision instance))
    else require_workflow id.

(** ** Pruning *)

(** The [SELECT] of [prune_terminal_before]: an old terminal row with no claim and
    no child. *)
Definition prunable (d : DB) (cutoff_millis : Z) (id : WorkflowId) (w : WorkflowInstance) : bool :=
  WorkflowStatus.is_terminal (wf_status w)
  && bool_decide (wf_updated_at w < cutoff_millis)
  && negb (exists_row (λ _ r, bool_decide (cl_workflow_id r = id)) (claims_table d))
  && negb (exists_row (λ _ c, bool_decide (wf_parent_id c = Some id)) (instances d)).

(** [DELETE FROM workflow_activity WHERE workflow_id = ?1] *)
Definition delete_activity (id : WorkflowId) : rtx unit :=
  modify (with_activity (delete_where (λ _ a, bool_decide (act_workflow_id a = id)))).

(** [DELETE FROM workflow_instances WHERE id = ?1]: refused while a claim, an
    activity row or a child refers to the row; work items and targets go with it,
    and attempts, allocations and assignments with the items. *)
Definition delete_instance (id : WorkflowId) : rtx unit :=
  d ← get;
  if exists_row (λ _ r, bool_decide (cl_workflow_id r = id)) (claims_table d)
     || exists_row (λ _ a, bool_decide (act_workflow_id a = id)) (activity_log d)
     || exists_row (λ k c, bool_decide (k ≠ id) && bool_decide (wf_parent_id c = Some id))
          (instances d)
  then fail Sql
  else
    let gone := owned_by d id in
    _ ← bump_intelligence (count (λ _ a, gone (ar_item_id a)) (allocations d)
                           + count (λ k _, bool_decide (k.1 = id)) (targets d));
    _ ← modify (with_attempts (delete_where (λ k _, gone k.1)));
    _ ← modify (with_allocations (delete_where (λ _ a, gone (ar_item_id a))));
    _ ← modify (with_assignments (delete_where (λ _ a, gone (as_item_id a))));
    _ ← modify (with_work_items (delete_where (λ _ i, bool_decide (sp_workflow_id (it_spec i) = id))));
    _ ← modify (with_targets (delete_where (λ k _, bool_decide (k.1 = id))));
    modify (with_instances (delete id)).

(** The loop of [prune_terminal_before].  Every round removes at least one row, so
    one more round than there are rows is enough; [None] is running out. *)
Fixpoint prune_loop (fuel : nat) (cutoff_millis removed : Z) : rtx (option Z) :=
  match fuel with
  | O => mret None
  | S fuel =>
      ids ← gets (λ d, fst <$> row_order (select (prunable d cutoff_millis) (instances d)));
      match ids with
      | [] => mret (Some removed)
      | _ =>
          _ ← for_each (λ id, _ ← delete_activity id; delete_instance id) ids;
          prune_loop fuel cutoff_millis (removed + Z.of_nat (length ids))
      end
  end.

(** [prune_terminal_before] *)
Definition prune_terminal_before (cutoff_millis : Z) : rtx Z :=
  d ← get;
  removed ← prune_loop (S (size (instances d))) cutoff_millis 0;
  lift (ok_or removed Sql).

End Lifecycle.

(** * The invariant of the database *)

Section LifecycleFacts.
Context `{SD : Serde} `{RO : RowOrder}.
Implicit Types (d : DB) (w : WorkflowInstance) (i : WorkItem).

Record db_ok d : Prop := { ok_claims : claims_ok d; ok_items : items_ok d }.

(** How one instance may change: its identity never does, its revision grows, and a
    terminal status is final. *)
Record instance_evolves w w' : Prop := {
  we_kind : wf_kind w' = wf_kind w;
  we_created : wf_created_at w' = wf_created_at w;
  we_parent : wf_parent_id w' = wf_parent_id w;
  we_revision : w' = w ∨ wf_revision w < wf_revision w';
  we_terminal : WorkflowStatus.is_terminal (wf_status w) = true → wf_status w' = wf_status w;
}.

Lemma instance_evolves_refl w : instance_evolves w w.
Proof. split; auto. Qed.

(** What every operation of the repository guarantees. *)
Record db_step d d' : Prop := {
  ds_ok : db_ok d → db_ok d';
  ds_instances : ∀ id w w', instances d !! id = Some w → instances d' !! id = Some w' →
    instance_evolves w w';
  ds_items : ∀ id i i', work_items d !! id = Some i → work_items d' !! id = Some i' →
    item_evolves i i';
}.

Lemma db_step_of_items d d' : items_step d d' → db_step d d'.
Proof.
  intros [Hi Hp Hc He Hok]. split.
  - intros [Hco Hio]. split; [|auto]. unfold claims_ok, live. rewrite Hi.
    by apply (claims_ok_sub _ _ _ Hc).
  - intros id w w' Hw Hw'. rewrite Hi in Hw'. simplify_eq. apply instance_evolves_refl.
  - intros id i i' Hi1 Hi2. apply He in Hi1 as (i2&?&?). by simplify_eq.
Qed.

(** ** Changes that leave the work-item tables alone *)

Definition same_items d d' : Prop :=
  work_items d' = work_items d ∧ attempts d' = attempts d ∧ pools d' = pools d ∧
  allocations d' = allocations d ∧ assignments d' = assignments d.

Lemma items_ok_same d d' :
  same_items d d' →
  (∀ id w, instances d !! id = Some w → ∃ w', instances d' !! id = Some w' ∧
     (WorkflowStatus.is_terminal (wf_status w') = true →
      WorkflowStatus.is_terminal (wf_status w) = true)) →
  items_ok d → items_ok d'.
Proof.
  intros (Ew&Ea&Ep&El&Es) Hin [Ho Hd Ha Hai Hal Halu Has Hasu].
  split; rewrite ?Ew, ?Ea, ?Ep, ?El, ?Es; auto.
  intros id i Hi. destruct (Ho _ _ Hi) as (w&Hw&Ht). destruct (Hin _ _ Hw) as (w'&?&?). eauto.
Qed.

Lemma db_step_of_claims d d' : claims_step d d' → db_step d d'.
Proof.
  intros Hs. assert (Hs' := Hs). destruct Hs' as [[t ->] _]. split.
  - intros [Hc Hi]. split; [by eapply claims_step_ok|].
    apply (items_ok_same d); [done|by eauto|done].
  - simpl. intros id w w' Hw Hw'. simplify_eq. apply instance_evolves_refl.
  - simpl. intros id i i' Hi Hi'. by simplify_eq.
Qed.

(** Operations on the tables the invariant does not mention. *)
Lemma db_step_frame d d' :
  instances d' = instances d → claims_table d' = claims_table d → same_items d d' →
  db_step d d'.
Proof.
  intros Ei Ec Hsame. split.
  - intros [Hc Hi]. split.
    + unfold claims_ok, live. rewrite Ei. apply (claims_ok_sub _ d); [by rewrite Ec|done].
    + apply (items_ok_same d); [done| |done]. rewrite Ei. eauto.
  - rewrite Ei. intros id w w' Hw Hw'. simplify_eq. apply instance_evolves_refl.
  - destruct Hsame as (->&_). intros id i i' Hi Hi'. by simplify_eq.
Qed.

(** ** Creation *)

Lemma insert_workflow_in_Ok workflow id now d w d' :
  insert_workflow_in workflow id now d = Ok (w, d') →
  d' = with_instances (<[id := queued_instance workflow now]>) d ∧
  w = queued_instance workflow now ∧ instances d !! id = None.
Proof.
  unfold insert_workflow_in. intros. op_inv. destruct_and!.
  match goal with H : _ !! id = Some w |- _ => rewrite lookup_insert_eq in H end.
  by simplify_eq.
Qed.

(** Changing instances without ending any. *)
Lemma db_step_instances d f :
  (∀ id w, instances d !! id = Some w → ∃ w', f (instances d) !! id = Some w' ∧
     instance_evolves w w' ∧
     WorkflowStatus.is_terminal (wf_status w') = WorkflowStatus.is_terminal (wf_status w)) →
  db_step d (with_instances f d).
Proof.
  intros Hf. split; simpl.
  - intros [[Hc Hl Hk] Hi]. split.
    + split; [done| |done]. intros k r Hr. destruct (Hl _ _ Hr) as (w&Hw&Ht).
      destruct (Hf _ _ Hw) as (w'&?&_&Heq). exists w'. by rewrite Heq.
    + apply (items_ok_same d); [done| |done]. intros id w Hw.
      destruct (Hf _ _ Hw) as (w'&?&_&Heq). exists w'. by rewrite Heq.
  - intros id w w' Hw Hw'. destruct (Hf _ _ Hw) as (w2&?&?&_). by simplify_eq.
  - intros id i i' Hi Hi'. by simplify_eq.
Qed.

Lemma insert_workflow_in_step workflow id now d w d' :
  insert_workflow_in workflow id now d = Ok (w, d') → db_step d d'.
Proof.
  intros (->&_&Hnone)%insert_workflow_in_Ok. apply db_step_instances. intros id' w' Hw'.
  exists w'. rewrite lookup_insert_ne by congruence.
  split_and!; [done|apply instance_evolves_refl|done].
Qed.

Lemma create_with_parent_claims_step workflow resources id clock d w d' :
  create_with_parent_claims workflow resources id clock d = Ok (w, d') → db_step d d'.
Proof.
  unfold create_with_parent_claims. intros H. case_decide; [done|].
  apply tx_bind_Ok in H as (now&d0&Hn&H). apply lift_Ok in Hn as [_ ->].
  apply tx_bind_Ok in H as (w0&d1&Hins&H).
  assert (H1 := insert_workflow_in_step _ _ _ _ _ _ Hins).
  apply tx_bind_Ok in H as ([]&d2&Htr&H).
  assert (Hcl : claims_step d1 d2).
  { clear H. destruct resources; tx_inv; [apply claims_step_refl|].
    by eapply transfer_claims_in_step. }
  unfold mret, tx_ret in H. injection H as <- <-. assert (H2 := db_step_of_claims _ _ Hcl). destruct Hcl as [[t ->] _].
  destruct H1 as [Ok1 Ev1 It1], H2 as [Ok2 _ _]. split; auto.
Qed.

Lemma create_or_reuse_active_step workflow compatible id clock d r d' :
  create_or_reuse_active workflow compatible id clock d = Ok (r, d') → db_step d d'.
Proof.
  unfold create_or_reuse_active, list_active, list_where. intros. tx_inv.
  - by apply db_step_frame.
  - by eapply insert_workflow_in_step.
Qed.

Lemma migrate_workflow_step id instance version config checkpoint clock d w d' :
  migrate_workflow id instance version config checkpoint clock d = Ok (w, d') → db_step d d'.
Proof.
  unfold migrate_workflow. intros. op_inv. apply db_step_instances. intros id' w' Hw'.
  rewrite lookup_update_where, Hw'. simpl. eexists. split; [done|].
  destruct (_ && _); [|by split; [apply instance_evolves_refl|]].
  split; [|done]. split; simpl; auto. right. lia.
Qed.

(** ** Ending a workflow *)

(** The tables after the clean-up statements of a terminal state. *)
Definition finish_tables (id : N) (now : Z) d : DB :=
  let release := λ (_ : N) a, is_active_allocation a && owned_by d id (ar_item_id a) in
  with_work_items (update_where
    (λ _ i, bool_decide (sp_workflow_id (it_spec i) = id)
            && negb (WorkItemStatus.is_terminal (st_status (it_state i))))
    (with_state (abandon_state now)))
  (with_assignments (update_where
    (λ _ a, is_unreleased_assignment a && owned_by d id (as_item_id a))
    (release_assignment_row now))
  (with_intelligence_revision (intelligence_revision d + count release (allocations d))
  (with_allocations (update_where release (release_allocation_row now))
  (with_claims (delete_where (λ _ r, bool_decide (cl_workflow_id r = id)))
  (with_attempts (update_where
    (λ k a, is_open_attempt a && owned_by d id k.1) (cancel_attempt_row now)) d))))).

Lemma finish_workflow_Ok id current ret now d u d' :
  finish_workflow id current ret now d = Ok (u, d') →
  ∃ d1, claims_step d d1 ∧ d' = finish_tables id now d1.
Proof.
  unfold finish_workflow. intros H. apply tx_bind_Ok in H as ([]&d1&Hret&H). exists d1. split.
  - clear H. destruct ret, (wf_parent_id current); unfold read_in in Hret; tx_inv;
      eauto using transfer_claims_in_step, claims_step_refl.
  - clear Hret. unfold update_allocations, update_assignments, bump_intelligence in H.
    by tx_inv.
Qed.

Lemma owned_by_true d id k i :
  work_items d !! k = Some i → owned_by d id k = bool_decide (sp_workflow_id (it_spec i) = id).
Proof. unfold owned_by. by intros ->. Qed.

(** An item after the clean-up. *)
Definition finished_item (id : N) (now : Z) i : WorkItem :=
  if bool_decide (sp_workflow_id (it_spec i) = id)
     && negb (WorkItemStatus.is_terminal (st_status (it_state i)))
  then with_state (abandon_state now) i else i.

Lemma finish_items id now d k i' :
  work_items (finish_tables id now d) !! k = Some i' ↔
  ∃ i, work_items d !! k = Some i ∧ i' = finished_item id now i.
Proof.
  simpl. rewrite lookup_update_where_Some. unfold finished_item. naive_solver.
Qed.

Lemma finished_item_spec id now i : it_spec (finished_item id now i) = it_spec i.
Proof. unfold finished_item. by destruct (_ && _). Qed.

Lemma finished_item_terminal id now i :
  sp_workflow_id (it_spec i) = id →
  WorkItemStatus.is_terminal (st_status (it_state (finished_item id now i))) = true.
Proof.
  intros <-. unfold finished_item. rewrite bool_decide_eq_true_2 by done. simpl.
  by destruct (WorkItemStatus.is_terminal (st_status (it_state i))) eqn:E.
Qed.

Lemma finished_item_other id now i :
  sp_workflow_id (it_spec i) ≠ id → finished_item id now i = i.
Proof. intros. unfold finished_item. by rewrite bool_decide_eq_false_2. Qed.

Lemma finished_item_evolves id now i : item_evolves i (finished_item id now i).
Proof.
  unfold finished_item. destruct (_ && _) eqn:E; [|done].
  apply andb_true_iff in E as [_ E%negb_true_iff]. split; simpl; auto; [lia..|congruence].
Qed.

Lemma finish_attempts id now d k i :
  work_items d !! k = Some i → attempts_ok_at (attempts d) k i →
  attempts_ok_at (attempts (finish_tables id now d)) k (finished_item id now i).
Proof.
  intros Hi Hok. simpl. unfold finished_item.
  destruct (bool_decide (sp_workflow_id (it_spec i) = id)) eqn:Eo; simpl;
    [destruct (WorkItemStatus.is_terminal _) eqn:Et; simpl|].
  - apply (attempts_ok_ext (attempts d)); [|done]. intros n. rewrite lookup_update_where.
    destruct (attempts d !! (k, n)) as [a|] eqn:Ea; [|done]. simpl.
    destruct (is_open_attempt a) eqn:Eop; [|done].
    destruct (ok_open _ _ _ Hok _ _ Ea Eop) as [Hr _]. by rewrite Hr in Et.
  - eapply attempts_ok_close_with; [done..| |done]. intros n a. simpl.
    by rewrite (owned_by_true _ _ _ _ Hi), Eo, andb_true_r.
  - apply (attempts_ok_ext (attempts d)); [|done]. intros n. rewrite lookup_update_where.
    destruct (attempts d !! (k, n)) as [a|] eqn:Ea; [|done]. simpl.
    by rewrite (owned_by_true _ _ _ _ Hi), Eo, andb_false_r.
Qed.

(** A resource of the ended workflow's items is no longer in use afterwards. *)
Lemma finish_released id now d k a i :
  allocations (finish_tables id now d) !! k = Some a → work_items d !! ar_item_id a = Some i →
  sp_workflow_id (it_spec i) = id → is_active_allocation a = false.
Proof.
  simpl. intros Ha Hi Ho. apply lookup_update_where_Some in Ha as (b&_&->).
  destruct (is_active_allocation b) eqn:Eb; simpl in *; [|done].
  destruct (owned_by d id (ar_item_id b)) eqn:Eo; simpl in *; [done|].
  rewrite (owned_by_true _ _ _ _ Hi), bool_decide_eq_true_2 in Eo; done.
Qed.

Lemma finish_unassigned id now d k a i :
  assignments (finish_tables id now d) !! k = Some a → work_items d !! as_item_id a = Some i →
  sp_workflow_id (it_spec i) = id → is_unreleased_assignment a = false.
Proof.
  simpl. intros Ha Hi Ho. apply lookup_update_where_Some in Ha as (b&_&->).
  destruct (is_unreleased_assignment b) eqn:Eb; simpl in *; [|done].
  destruct (owned_by d id (as_item_id b)) eqn:Eo; simpl in *; [done|].
  rewrite (owned_by_true _ _ _ _ Hi), bool_decide_eq_true_2 in Eo; done.
Qed.

(** Ending workflow [id] restores the invariant of the item tables, whatever its own
    row says. *)
Lemma finish_items_ok id now d0 d :
  items_ok d0 → same_items d0 d →
  (∀ k w, k ≠ id → instances d0 !! k = Some w → instances d !! k = Some w) →
  (is_Some (instances d0 !! id) → is_Some (instances d !! id)) →
  items_ok (finish_tables id now d).
Proof.
  intros [Ho Hd Ha Hai Hal Halu Has Hasu] (Ew&Ea&Ep&El&Es) Hin Hid.
  rewrite <-Ew in Ho, Hd, Ha, Hai, Hal, Has. rewrite <-Ea in Ha, Hai. rewrite <-Ep in Hal.
  rewrite <-El in Hal, Halu. rewrite <-Es in Has, Hasu.
  split.
  - intros k i' (i&Hi&->)%finish_items. rewrite finished_item_spec.
    destruct (Ho _ _ Hi) as (w&Hw&Ht). destruct (decide (sp_workflow_id (it_spec i) = id)) as [E|N].
    + rewrite E in Hw. destruct Hid as [w' Hw']; [by eexists|]. exists w'. rewrite E.
      split; [done|]. intros _. by apply finished_item_terminal.
    + exists w. split; [by apply Hin|]. by rewrite finished_item_other.
  - intros k1 k2 i1 i2 (j1&?&->)%finish_items (j2&?&->)%finish_items.
    rewrite !finished_item_spec. eauto.
  - intros k i' (i&Hi&->)%finish_items. apply finish_attempts; auto.
  - intros k n Hn. simpl in Hn. rewrite lookup_update_where, fmap_is_Some in Hn.
    destruct (Hai _ _ Hn) as [i Hi]. exists (finished_item id now i). apply finish_items. eauto.
  - intros k a Hk. destruct (allocations_shrink_release _ _ _ _ _ Hk)
      as (b&Hb&E1&_&E2&_&_&E3&Hact).
    destruct (Hal _ _ Hb) as (?&?&i&Hi&Ht). rewrite E1, E2, E3. split_and!; [done..|].
    exists (finished_item id now i). split; [apply finish_items; eauto|]. intros Hactive.
    destruct (decide (sp_workflow_id (it_spec i) = id)).
    + rewrite (finish_released _ _ _ _ _ i Hk) in Hactive; [done|by rewrite E1|done].
    + rewrite finished_item_other by done. auto.
  - eapply allocations_unique_shrink; [apply allocations_shrink_release|done].
  - intros k a Hk. destruct (assignments_shrink_release _ _ _ _ _ Hk) as (b&Hb&E1&_&_&Hact).
    destruct (Has _ _ Hb) as (i&Hi&Ht). rewrite E1.
    exists (finished_item id now i). split; [apply finish_items; eauto|]. intros Hactive.
    destruct (decide (sp_workflow_id (it_spec i) = id)).
    + rewrite (finish_unassigned _ _ _ _ _ i Hk) in Hactive; [done|by rewrite E1|done].
    + rewrite finished_item_other by done. auto.
  - eapply assignments_unique_shrink; [apply assignments_shrink_release|done].
Qed.

(** ** State replacement *)

Lemma count_instance_revision (t : gmap N WorkflowInstance) f id w r :
  t !! id = Some w → wf_revision w = r →
  update_where (λ k w, bool_decide (k = id) && bool_decide (wf_revision w = r)) f t
  = <[id := f w]> t.
Proof.
  intros Hw Hr. apply update_where_row; [done|]. intros k v Hv.
  destruct (decide (k = id)) as [->|].
  - simplify_eq. by rewrite !bool_decide_eq_true_2.
  - by rewrite (bool_decide_eq_false_2 (k = id)).
Qed.

Lemma with_instances_revision f id w r d :
  instances d !! id = Some w → wf_revision w = r →
  with_instances (update_where
    (λ k w, bool_decide (k = id) && bool_decide (wf_revision w = r)) f) d
  = with_instances (λ t, <[id := f w]> t) d.
Proof. intros Hw Hr. unfold with_instances. by rewrite (count_instance_revision _ _ _ w). Qed.

(** What a committed state replacement did: the row was replaced under its revision
    by an allowed transition, and a terminal state cleaned up after itself. *)
Lemma update_state_Ok id r state wait disp ret clock d w' d' :
  update_state id r state wait disp ret clock d = Ok (w', d') →
  ∃ w now, instances d !! id = Some w ∧ wf_revision w = r ∧
    WorkflowStatus.can_transition_to (wf_status w) (ws_status state) = true ∧
    w' = replace_state state now wait
           (if decide (ws_status state = Failed) then disp else None) w ∧
    let d1 := with_instances (λ t, <[id := w']> t) d in
    instances d' = instances d1 ∧
    if WorkflowStatus.is_terminal (ws_status state)
    then ∃ d2, claims_step d1 d2 ∧ d' = finish_tables id now d2
    else d' = d1.
Proof.
  unfold update_state. intros H. cbv zeta in H.
  set (disp' := if decide (ws_status state = Failed) then disp else None) in *.
  apply tx_bind_Ok in H as (e&d0&He&H). apply lift_Ok in He as [He ->].
  destruct (i64_try_from r) as [r'|] eqn:Er; [|done]. apply i64_try_from_Some in Er as [-> _].
  simpl in He. simplify_eq.
  apply tx_bind_Ok in H as (now&d0&Hn&H). apply lift_Ok in Hn as [_ ->].
  apply tx_bind_Ok in H as (w&d0&Hw&H). apply require_workflow_Ok in Hw as [-> Hw].
  case_decide as Hrev; [done|]. 
  destruct (WorkflowStatus.can_transition_to _ _) eqn:Hcan; simpl in H; [|done].
  apply tx_bind_Ok in H as ([]&d1&Hm&H). unfold modify in Hm. injection Hm as <-.
  rewrite (with_instances_revision _ _ _ _ _ Hw Hrev) in H. apply tx_bind_Ok in H as ([]&d2&Hfin&H).
  apply require_workflow_Ok in H as [-> Hw']. exists w, now.
  destruct (WorkflowStatus.is_terminal (ws_status state)).
  - apply finish_workflow_Ok in Hfin as (d3&Hcl&->).
    assert (Hi : instances (finish_tables id now d3) = <[id := replace_state state now wait disp' w]>
      (instances d)) by (by destruct Hcl as [[t ->] _]).
    rewrite Hi, lookup_insert_eq in Hw'. simplify_eq. split_and!; eauto.
  - tx_inv. rewrite lookup_insert_eq in Hw'. by simplify_eq.
Qed.

Lemma replace_state_evolves state now wait disp w :
  WorkflowStatus.can_transition_to (wf_status w) (ws_status state) = true →
  instance_evolves w (replace_state state now wait disp w).
Proof.
  intros Hc. split; simpl; auto; [right; lia|]. intros Ht. by eapply can_transition_terminal.
Qed.

Lemma evolves_insert_instance (t : gmap N WorkflowInstance) id w w' :
  t !! id = Some w → instance_evolves w w' →
  ∀ k v v', t !! k = Some v → <[id := w']> t !! k = Some v' → instance_evolves v v'.
Proof.
  intros Hw He k v v' Hk [[<- <-]|[_ Hk']]%lookup_insert_Some; simplify_eq; [done|].
  apply instance_evolves_refl.
Qed.

Lemma update_state_step id r state wait disp ret clock d w' d' :
  update_state id r state wait disp ret clock d = Ok (w', d') → db_step d d'.
Proof.
  intros (w&now&Hw&Hr&Hcan&->&Hi'&H)%update_state_Ok. simpl in Hi'.
  assert (Hev := replace_state_evolves state now wait
    (if decide (ws_status state = Failed) then disp else None) w Hcan).
  set (w' := replace_state _ _ _ _ w) in *.
  destruct (WorkflowStatus.is_terminal (ws_status state)) eqn:Ht.
  2: { subst d'. apply db_step_instances. intros k v Hv. destruct (decide (k = id)) as [->|].
       - simplify_eq. rewrite lookup_insert_eq. exists w'. split_and!; [done..|].
         simpl. rewrite Ht. destruct (WorkflowStatus.is_terminal (wf_status w)) eqn:E; [|done].
         rewrite (can_transition_terminal _ _ Hcan E) in Ht. congruence.
       - rewrite lookup_insert_ne by done. exists v.
         split_and!; [done|apply instance_evolves_refl|done]. }
  destruct H as (d2&Hcl&->). assert (Hcl' := Hcl). destruct Hcl' as [[t Hd2] Hkeep].
  split.
  - intros [Hc Hi]. split.
    + assert (Hc2 : claims_ok_at (live d) d2).
      { apply Hkeep; [|by apply (claims_ok_sub _ d)].
        intros k (v&Hv&Hvt). simpl in Hv.
        apply lookup_insert_Some in Hv as [[<- <-]|[_ Hv]]; [simpl in Hvt; congruence|by exists v]. }
      assert (Hc3 : claims_ok_at (live d) (finish_tables id now d2))
        by (apply (claims_ok_sub _ d2); [apply claims_sub_delete|done]).
      destruct Hc3 as [C3 L3 K3]. split; [done| |done].
      intros k x Hx. destruct (L3 _ _ Hx) as (v&Hv&Hvt). exists v. split; [|done]. rewrite Hi'.
      simpl in Hx. apply lookup_delete_where_Some in Hx as [_ Hne%bool_decide_eq_false].
      by rewrite lookup_insert_ne.
    + subst d2. apply (finish_items_ok _ _ d); [done|done| |].
      * simpl. intros k v Hne Hv. by rewrite lookup_insert_ne.
      * simpl. intros _. rewrite lookup_insert_eq. eauto.
  - rewrite Hi'. by apply evolves_insert_instance with w.
  - intros k i i' Hki. subst d2. intros (j&Hj&->)%finish_items. simpl in Hj. simplify_eq.
    apply finished_item_evolves.
Qed.

(** ** Pruning *)

(** What a sequence of prunings may do. *)
Record pruned (cutoff : Z) d d' : Prop := {
  pr_instances : instances d' ⊆ instances d;
  pr_claims : claims_table d' = claims_table d;
  pr_gone : ∀ id w, instances d !! id = Some w → instances d' !! id = None →
    WorkflowStatus.is_terminal (wf_status w) = true ∧ wf_updated_at w < cutoff;
  pr_items_sub : work_items d' ⊆ work_items d;
  pr_items : ∀ k i, work_items d !! k = Some i →
    is_Some (instances d' !! sp_workflow_id (it_spec i)) → work_items d' !! k = Some i;
  pr_ok : db_ok d → db_ok d';
}.

#[global] Instance pruned_preorder cutoff : PreOrder (pruned cutoff).
Proof.
  split.
  - intros d. split; auto; congruence.
  - intros d1 d2 d3 [I1 C1 G1 S1 W1 O1] [I2 C2 G2 S2 W2 O2]. split; [by etrans|congruence| |
      by etrans| |auto].
    + intros id w Hw Hn. destruct (instances d2 !! id) as [w2|] eqn:E; [|eauto].
      assert (w2 = w) as -> by (apply (lookup_weaken _ _ _ _ E) in I1; congruence). eauto.
    + intros k i Hi Hs. apply W2; [|done]. apply W1; [done|].
      destruct Hs as [w Hw]. exists w. by eapply lookup_weaken.
Qed.

Lemma pruned_step cutoff d d' : pruned cutoff d d' → db_step d d'.
Proof.
  intros [Hi Hc Hg Hw _ Hok]. split; [done| |].
  - intros id w w' H1 H2. eapply lookup_weaken in H2; [|done]. simplify_eq.
    apply instance_evolves_refl.
  - intros id i i' H1 H2. eapply lookup_weaken in H2; [|done]. by simplify_eq.
Qed.

(** The tables after one row and everything below it are deleted. *)
Definition delete_tables (id : N) d : DB :=
  let gone := owned_by d id in
  with_instances (delete id)
  (with_targets (delete_where (λ k _, bool_decide (k.1 = id)))
  (with_work_items (delete_where (λ _ i, bool_decide (sp_workflow_id (it_spec i) = id)))
  (with_assignments (delete_where (λ _ a, gone (as_item_id a)))
  (with_allocations (delete_where (λ _ a, gone (ar_item_id a)))
  (with_attempts (delete_where (λ k _, gone k.1))
  (with_intelligence_revision (intelligence_revision d
      + (count (λ _ a, gone (ar_item_id a)) (allocations d)
         + count (λ k _, bool_decide (k.1 = id)) (targets d)))
  (with_activity (delete_where (λ _ a, bool_decide (act_workflow_id a = id))) d))))))).

(** Nothing refers to the row of [id]. *)
Definition unreferenced d (id : N) : Prop :=
  (∀ k r, claims_table d !! k = Some r → cl_workflow_id r ≠ id) ∧
  (∀ k w, instances d !! k = Some w → wf_parent_id w ≠ Some id).

Lemma delete_one_Ok id d :
  unreferenced d id →
  (_ ← delete_activity id; delete_instance id) d = Ok (tt, delete_tables id d).
Proof.
  intros [Hcl Hch]. unfold delete_activity. erewrite tx_bind_step by done.
  unfold delete_instance. erewrite tx_bind_step by done.
  match goal with |- (if ?b then _ else _) _ = _ => assert (b = false) as -> end; [|done].
  rewrite !orb_false_iff. split_and!; apply exists_row_false; simpl.
  - intros k r Hr. apply bool_decide_eq_false. eauto.
  - by intros k a [_ Ha]%lookup_delete_where_Some.
  - intros k w Hw. rewrite (bool_decide_eq_false_2 (wf_parent_id w = _)); [|by eapply Hch].
    by rewrite andb_false_r.
Qed.

Lemma delete_items id d k i :
  work_items (delete_tables id d) !! k = Some i ↔
  work_items d !! k = Some i ∧ sp_workflow_id (it_spec i) ≠ id.
Proof. simpl. by rewrite lookup_delete_where_Some, bool_decide_eq_false. Qed.

Lemma delete_items_ok id d : items_ok d → items_ok (delete_tables id d).
Proof.
  intros [Ho Hd Ha Hai Hal Halu Has Hasu].
  assert (Hown : ∀ k i, work_items d !! k = Some i →
    owned_by d id k = false ↔ sp_workflow_id (it_spec i) ≠ id).
  { intros k i Hi. by rewrite (owned_by_true _ _ _ _ Hi), bool_decide_eq_false. }
  split.
  - intros k i [Hi Hne]%delete_items. destruct (Ho _ _ Hi) as (w&?&?). exists w. simpl.
    by rewrite lookup_delete_ne.
  - intros k1 k2 i1 i2 [? _]%delete_items [? _]%delete_items. eauto.
  - intros k i [Hi Hne]%delete_items. apply (attempts_ok_ext (attempts d)); [|auto].
    intros n. simpl. rewrite lookup_delete_where.
    destruct (attempts d !! (k, n)); [|done]. simpl. by rewrite (proj2 (Hown _ _ Hi) Hne).
  - intros k n [a Hk]. simpl in Hk. apply lookup_delete_where_Some in Hk as [Hk Hown'].
    destruct (Hai k n) as [i Hi]; [by eexists|]. exists i. apply delete_items.
    split; [done|]. by apply (Hown k i Hi).
  - intros k a Hk. simpl in Hk. apply lookup_delete_where_Some in Hk as [Hk Hown'].
    destruct (Hal _ _ Hk) as (?&?&i&Hi&?). split_and!; [done..|]. exists i.
    split; [|done]. apply delete_items. split; [done|]. by apply (Hown _ i Hi).
  - eapply allocations_unique_shrink; [apply allocations_shrink_delete|done].
  - intros k a Hk. simpl in Hk. apply lookup_delete_where_Some in Hk as [Hk Hown'].
    destruct (Has _ _ Hk) as (i&Hi&?). exists i.
    split; [|done]. apply delete_items. split; [done|]. by apply (Hown _ i Hi).
  - eapply assignments_unique_shrink; [apply assignments_shrink_delete|done].
Qed.

Lemma delete_tables_pruned cutoff id d w :
  instances d !! id = Some w → WorkflowStatus.is_terminal (wf_status w) = true →
  wf_updated_at w < cutoff → unreferenced d id → pruned cutoff d (delete_tables id d).
Proof.
  intros Hw Ht Hu [Hcl Hch]. split.
  - apply delete_subseteq.
  - done.
  - intros k v Hv Hn. simpl in Hn. destruct (decide (k = id)) as [->|].
    + by simplify_eq.
    + rewrite lookup_delete_ne in Hn by done. congruence.
  - apply map_subseteq_spec. by intros k i [? _]%delete_items.
  - intros k i Hi [v Hv]. apply delete_items. split; [done|]. intros Heq. simpl in Hv.
    by rewrite Heq, lookup_delete_eq in Hv.
  - intros [[C L K] Hi]. split; [|by apply delete_items_ok]. split; [done| |done].
    intros k r Hr. destruct (L _ _ Hr) as (v&Hv&?). exists v. split; [|done]. simpl.
    rewrite lookup_delete_ne; [done|]. intros ->. by eapply Hcl.
Qed.

(** One round deletes every row it selected. *)
Lemma prune_round_Ok cutoff ids d :
  NoDup ids →
  (∀ id, id ∈ ids → unreferenced d id ∧ ∃ w, instances d !! id = Some w ∧
     WorkflowStatus.is_terminal (wf_status w) = true ∧ wf_updated_at w < cutoff) →
  ∃ d', for_each (λ id, _ ← delete_activity id; delete_instance id) ids d = Ok (tt, d') ∧
    pruned cutoff d d' ∧
    Z.of_nat (size (instances d')) = Z.of_nat (size (instances d)) - Z.of_nat (length ids).
Proof.
  revert d. induction ids as [|id ids IH]; intros d Hnd Hids; cbn [for_each].
  { exists d. split_and!; [done..|]. simpl. lia. }
  apply NoDup_cons in Hnd as [Hni Hnd].
  destruct (Hids id) as (Hun&w&Hw&Ht&Hu); [by left|].
  rewrite (tx_bind_step _ _ _ _ _ (delete_one_Ok _ _ Hun)).
  assert (Hp := delete_tables_pruned cutoff id d w Hw Ht Hu Hun).
  destruct (IH (delete_tables id d) Hnd) as (d'&Hd'&Hp'&Hsz).
  { intros id' Hin. destruct (Hids id') as ([Hcl Hch]&w'&Hw'&?&?); [by right|]. split.
    - split; [done|]. intros k v Hv. apply (Hch k). simpl in Hv.
      by apply lookup_delete_Some in Hv as [_ Hv].
    - exists w'. split; [|done]. simpl. rewrite lookup_delete_ne; [done|]. by intros ->. }
  exists d'. split_and!; [done|by etrans|]. rewrite Hsz. simpl.
  rewrite map_size_delete_Some by eauto.
  assert (size (instances d) ≠ 0%nat) by (intros E%map_size_empty_inv; by rewrite E in Hw).
  lia.
Qed.

Lemma prunable_spec d cutoff id w :
  prunable d cutoff id w = true ↔
  WorkflowStatus.is_terminal (wf_status w) = true ∧ wf_updated_at w < cutoff ∧ unreferenced d id.
Proof.
  unfold prunable, unreferenced. rewrite !andb_true_iff, !negb_true_iff, bool_decide_eq_true,
    !exists_row_false.
  setoid_rewrite bool_decide_eq_false. tauto.
Qed.

(** With more fuel than rows the loop stops, and only when nothing is prunable. *)
Lemma prune_loop_Ok fuel cutoff removed d :
  (size (instances d) < fuel)%nat →
  ∃ n d', prune_loop fuel cutoff removed d = Ok (Some n, d') ∧ pruned cutoff d d' ∧
    n = removed + (Z.of_nat (size (instances d)) - Z.of_nat (size (instances d'))) ∧
    ∀ id w, instances d' !! id = Some w → prunable d' cutoff id w = false.
Proof.
  revert removed d. induction fuel as [|fuel IH]; intros removed d Hf; [lia|].
  cbn [prune_loop]. erewrite tx_bind_step by done.
  destruct (row_order _) as [|[id w] rows] eqn:Erows; simpl.
  - exists removed, d. split_and!; [done..|lia|]. intros id w Hw.
    destruct (prunable d cutoff id w) eqn:E; [|done].
    assert (Hin : (id, w) ∈ ([] : list (N * WorkflowInstance)))
      by (rewrite <-Erows; by apply elem_of_row_order, elem_of_select).
    by apply elem_of_nil in Hin.
  - assert (Hin : ∀ k v, (k, v) ∈ (id, w) :: rows ↔
      instances d !! k = Some v ∧ prunable d cutoff k v = true)
      by (intros; by rewrite <-Erows, elem_of_row_order, elem_of_select).
    destruct (prune_round_Ok cutoff (((id, w) :: rows).*1) d) as (d1&Hd1&Hp1&Hsz1).
    + rewrite <-Erows, row_order_perm. apply select_NoDup_keys.
    + intros k ([k' v]&->&[Hv (?&?&?)%prunable_spec]%Hin)%list_elem_of_fmap. eauto.
    + change (id :: rows.*1) with (((id, w) :: rows).*1).
      rewrite (tx_bind_step _ _ _ _ _ Hd1). rewrite length_fmap in Hsz1. simpl in Hsz1.
      destruct (IH (removed + Z.of_nat (S (length rows.*1))) d1) as (n&d'&Hl&Hp&->&Hdone);
        [lia|].
      eexists _, d'. split_and!; [exact Hl|by etrans| |done]. rewrite length_fmap. lia.
Qed.

Lemma prune_terminal_before_step cutoff d n d' :
  prune_terminal_before cutoff d = Ok (n, d') → db_step d d'.
Proof.
  unfold prune_terminal_before. erewrite tx_bind_step by done.
  destruct (prune_loop_Ok (S (size (instances d))) cutoff 0 d) as (m&d1&Hl&Hp&_&_); [lia|].
  rewrite (tx_bind_step _ _ _ _ _ Hl). intros. tx_inv. by eapply pruned_step.
Qed.

End LifecycleFacts.

#[export] Hint Resolve db_step_of_items db_step_of_claims create_with_parent_claims_step
  create_or_reuse_active_step migrate_workflow_step update_state_step
  prune_terminal_before_step : replicant.

(** * What the lifecycle operations do *)

Section LifecycleOperations.
Context `{SD : Serde} `{RO : RowOrder}.
Implicit Types (d : DB) (w : WorkflowInstance).

Lemma require_workflow_run id d w :
  instances d !! id = Some w → require_workflow id d = Ok (w, d).
Proof.
  intros Hw. unfold require_workflow, read_in. erewrite tx_bind_step by done. by rewrite Hw.
Qed.

Lemma finish_without_return id current now d :
  finish_workflow id current [] now d = Ok (tt, finish_tables id now d).
Proof. unfold finish_workflow. destruct (wf_parent_id current); reflexivity. Qed.

(** A state replacement without a payload return, computed. *)
Lemma update_state_run id r state wait disp clock d w :
  instances d !! id = Some w → in_i64 r → in_i64 clock → 0 ≤ clock →
  update_state id r state wait disp [] clock d =
    if decide (wf_revision w ≠ r) then Err (ConcurrentUpdate id r)
    else if negb (WorkflowStatus.can_transition_to (wf_status w) (ws_status state))
    then Err (InvalidTransition (wf_status w) (ws_status state))
    else
      let w' := replace_state state clock wait (if decide (ws_status state = Failed) then disp else None) w in
      let d1 := with_instances (λ t, <[id := w']> t) d in
      Ok (w', if WorkflowStatus.is_terminal (ws_status state) then finish_tables id clock d1 else d1).
Proof.
  intros Hw Hr Hc Hp. unfold update_state. cbv zeta.
  unfold i64_try_from. rewrite (decide_True _ _ Hr).
  rewrite (tx_bind_step _ _ d r d) by done. rewrite (now_millis_Ok _ Hc Hp).
  rewrite (tx_bind_step _ _ d clock d) by done.
  rewrite (tx_bind_step _ _ _ _ _ (require_workflow_run _ _ _ Hw)).
  case_decide as Hrev; [done|]. destruct (negb _); [done|].
  assert (wf_revision w = r) as Hrev' by (destruct (decide (wf_revision w = r)); [done|by destruct Hrev]).
  erewrite tx_bind_step by done. rewrite (with_instances_revision _ _ _ _ _ Hw Hrev').
  set (w' := replace_state _ _ _ _ w). set (d1 := with_instances (λ t, <[id := w']> t) d).
  destruct (WorkflowStatus.is_terminal (ws_status state)).
  - rewrite (tx_bind_step _ _ _ _ _ (finish_without_return id w clock d1)).
    by rewrite (require_workflow_run _ _ w') by (apply lookup_insert_eq).
  - erewrite tx_bind_step by done. by rewrite (require_workflow_run _ _ w') by (apply lookup_insert_eq).
Qed.

(** a state replacement without a payload return is decided by the stored row: it
    fails with a concurrent update when the revision is stale, with an invalid
    transition when the machine forbids the step, and otherwise commits the new
    status under the next revision. *)
Theorem update_decided id r state clock d w :
  instances d !! id = Some w → in_i64 r → in_i64 clock → 0 ≤ clock →
  match update id r state clock d with
  | Ok (w', d') =>
      wf_revision w = r ∧
      WorkflowStatus.can_transition_to (wf_status w) (ws_status state) = true ∧
      wf_status w' = ws_status state ∧ wf_revision w' = r + 1 ∧
      instances d' = <[id := w']> (instances d)
  | Err e =>
      (wf_revision w ≠ r ∧ e = ConcurrentUpdate id r) ∨
      (wf_revision w = r ∧
       WorkflowStatus.can_transition_to (wf_status w) (ws_status state) = false ∧
       e = InvalidTransition (wf_status w) (ws_status state))
  end.
Proof.
  intros Hw Hr Hc Hp. unfold update. rewrite (update_state_run _ _ _ _ _ _ _ _ Hw Hr Hc Hp).
  destruct (decide (wf_revision w ≠ r)) as [|Hrev]; [by left|].
  assert (wf_revision w = r) by (destruct (decide (wf_revision w = r)); [done|by destruct Hrev]).
  destruct (WorkflowStatus.can_transition_to _ _) eqn:Hcan; simpl; [|by right].
  split_and!; [done..|lia|by destruct (WorkflowStatus.is_terminal _)].
Qed.

(** of two replacements of one workflow that expect the same revision, the second
    never commits after the first: no update is lost. *)
Theorem update_no_lost_update id r state wait disp ret clock d w' d'
    state2 wait2 disp2 ret2 clock2 :
  update_state id r state wait disp ret clock d = Ok (w', d') →
  ∀ r2, update_state id r state2 wait2 disp2 ret2 clock2 d' ≠ Ok r2.
Proof.
  intros (w&now&Hw&<-&_&->&Hi&_)%update_state_Ok [w2 d2] H2.
  apply update_state_Ok in H2 as (w3&now3&Hw3&Hrev&_). rewrite Hi in Hw3. simpl in Hw3.
  rewrite lookup_insert_eq in Hw3. simplify_eq. simpl in Hrev. lia.
Qed.

(** C2: a committed terminal state releases everything the workflow held in the same
    transaction: no claim, no active allocation, no unreleased assignment, no open
    attempt and no unfinished item of it is left. *)
Theorem terminal_state_releases_everything id r state wait disp ret clock d w' d' :
  db_ok d → WorkflowStatus.is_terminal (ws_status state) = true →
  update_state id r state wait disp ret clock d = Ok (w', d') →
  (∀ k c, claims_table d' !! k = Some c → cl_workflow_id c ≠ id) ∧
  (∀ k i, work_items d' !! k = Some i → sp_workflow_id (it_spec i) = id →
     WorkItemStatus.is_terminal (st_status (it_state i)) = true ∧
     (∀ n a, allocations d' !! n = Some a → ar_item_id a = k → is_active_allocation a = false) ∧
     (∀ n a, assignments d' !! n = Some a → as_item_id a = k →
        is_unreleased_assignment a = false) ∧
     (∀ n a, attempts d' !! (k, n) = Some a → is_open_attempt a = false)).
Proof.
  intros Hok Ht H. assert (Hok' := ds_ok _ _ (update_state_step _ _ _ _ _ _ _ _ _ _ H) Hok).
  apply update_state_Ok in H as (w&now&Hw&_&_&->&Hi&Hfin). rewrite Ht in Hfin.
  destruct Hfin as (d2&_&Hd'). destruct Hok' as [Hc Hio]. split.
  - intros k c Hk. rewrite Hd' in Hk. simpl in Hk.
    by apply lookup_delete_where_Some in Hk as [_ ?%bool_decide_eq_false].
  - intros k i Hk Ho.
    assert (Hit : WorkItemStatus.is_terminal (st_status (it_state i)) = true).
    { rewrite Hd' in Hk. apply finish_items in Hk as (j&_&->).
      apply finished_item_terminal. by rewrite finished_item_spec in Ho. }
    split_and!; [done|..].
    + intros n a Ha <-. destruct (ok_allocation _ Hio _ _ Ha) as (_&_&j&Hj&Hact).
      simplify_eq. destruct (is_active_allocation a); [|done].
      rewrite (Hact eq_refl) in Hit. done.
    + intros n a Ha <-. destruct (ok_assignment _ Hio _ _ Ha) as (j&Hj&Hact).
      simplify_eq. destruct (is_unreleased_assignment a); [|done].
      specialize (Hact eq_refl). by destruct (st_status (it_state i)).
    + intros n a Ha. destruct (is_open_attempt a) eqn:Eo; [|done].
      destruct (ok_open _ _ _ (ok_attempts _ Hio _ _ Hk) _ _ Ha Eo) as [Hr _]. by rewrite Hr in Hit.
Qed.

(** a successful completion returns the named payload to a live parent: the
    parent has custody of every named resource afterwards and the child of none. *)
Theorem complete_returns_payload id r state resources clock d w' d' w parent p :
  complete_with_parent_claims id r state resources clock d = Ok (w', d') →
  instances d !! id = Some w → wf_parent_id w = Some parent → parent ≠ id →
  instances d !! parent = Some p → WorkflowStatus.is_terminal (wf_status p) = false →
  ∀ resource k, resource ∈ resources → persisted_parts resource = Ok k →
    holds d' parent k ∧ ¬ holds d' id k.
Proof.
  unfold complete_with_parent_claims, update_state. intros H Hw Hpar Hne Hp Hpt resource k Hin Hk.
  case_decide as Hs; [done|]. cbv zeta in H. rewrite Hs in H.
  apply tx_bind_Ok in H as (e&d0&He&H). apply lift_Ok in He as [_ ->].
  apply tx_bind_Ok in H as (now&d0&Hn&H). apply lift_Ok in Hn as [_ ->].
  rewrite (tx_bind_step _ _ _ _ _ (require_workflow_run _ _ _ Hw)) in H.
  case_decide as Hrev; [done|]. destruct (WorkflowStatus.can_transition_to _ _); [|done].
  cbn [negb] in H. apply tx_bind_Ok in H as ([]&d1&Hm&H). unfold modify in Hm. injection Hm as <-.
  rewrite (with_instances_revision _ _ _ _ _ Hw Hrev) in H. simpl in H.
  set (d1 := with_instances _ d) in H.
  apply tx_bind_Ok in H as ([]&d2&Hfin&H). apply require_workflow_Ok in H as [-> _].
  unfold finish_workflow in Hfin. destruct resources as [|r0 rs]; [by apply elem_of_nil in Hin|].
  rewrite Hpar in Hfin. apply tx_bind_Ok in Hfin as ([]&d3&Htr&Hfin).
  assert (Hread : read_in parent d1 = Ok (Some p, d1)).
  { unfold read_in, gets. simpl. rewrite lookup_insert_ne by done. by rewrite Hp. }
  rewrite (tx_bind_step _ _ _ _ _ Hread), Hpt in Htr.
  unfold transfer_claims_in in Htr.
  apply tx_bind_Ok in Htr as (src&d4&Hsrc&Htr). apply require_workflow_Ok in Hsrc as [-> _].
  apply tx_bind_Ok in Htr as (dst&d4&Hdst&Htr). apply require_workflow_Ok in Hdst as [-> _].
  destruct (WorkflowStatus.is_terminal (wf_status dst)); [done|]. case_decide; [done|].
  apply (transfer_loop_Ok id parent) in Htr as (Hall&_&_); [|done].
  destruct (Hall _ _ Hin Hk) as [(k'&c&Hc&Hs'&Ho) Hto].
  unfold update_allocations, update_assignments, bump_intelligence in Hfin. tx_inv. split.
  - exists k', c. simpl. split_and!; [|done..]. apply lookup_delete_where_Some.
    split; [done|]. by apply bool_decide_eq_false.
  - intros (k2&c2&Hc2&_&Ho2). simpl in Hc2.
    by apply lookup_delete_where_Some in Hc2 as [_ ?%bool_decide_eq_false].
Qed.

(** C22: pruning always terminates with a count.  It deletes only terminal rows older
    than the cutoff, leaves no prunable row behind, keeps every work item whose
    workflow is kept, and touches no claim. *)
Theorem prune_terminal_before_correct cutoff d :
  ∃ n d', prune_terminal_before cutoff d = Ok (n, d') ∧
    n = Z.of_nat (size (instances d)) - Z.of_nat (size (instances d')) ∧
    instances d' ⊆ instances d ∧
    (∀ id w, instances d !! id = Some w → instances d' !! id = None →
       WorkflowStatus.is_terminal (wf_status w) = true ∧ wf_updated_at w < cutoff) ∧
    (∀ id w, instances d' !! id = Some w → prunable d' cutoff id w = false) ∧
    (∀ k i, work_items d !! k = Some i → is_Some (instances d' !! sp_workflow_id (it_spec i)) →
       work_items d' !! k = Some i) ∧
    claims_table d' = claims_table d.
Proof.
  destruct (prune_loop_Ok (S (size (instances d))) cutoff 0 d) as (n&d'&Hl&Hp&->&Hdone); [lia|].
  eexists _, d'. split.
  { unfold prune_terminal_before. erewrite tx_bind_step by done.
    rewrite (tx_bind_step _ _ _ _ _ Hl). done. }
  destruct Hp. split_and!; auto; lia.
Qed.

#[global] Instance instance_leb_total : TotalLeb instance_leb.
Proof.
  split; intros; unfold instance_leb in *;
    repeat match goal with H : _ |- _ => rewrite orb_true_iff, andb_true_iff, Z.ltb_lt, Z.eqb_eq,
      N.leb_le in H end; rewrite ?orb_true_iff, ?andb_true_iff, ?Z.ltb_lt, ?Z.eqb_eq, ?N.leb_le;
    lia.
Qed.

Lemma find_compatible_Ok compatible rows o :
  find_compatible compatible rows = Ok o →
  match o with
  | None => ∀ row, row ∈ rows → compatible row = Ok false
  | Some row => compatible row = Ok true ∧ ∃ pre post, rows = pre ++ row :: post ∧
      ∀ row', row' ∈ pre → compatible row' = Ok false
  end.
Proof.
  induction rows as [|row rows IH]; simpl; intros H.
  - simplify_eq. by intros row ?%elem_of_nil.
  - unfold mbind, result_bind in H. destruct (compatible row) as [[]|] eqn:E; simplify_eq.
    + split; [done|]. exists [], rows. split; [done|]. by intros ? ?%elem_of_nil.
    + specialize (IH H). destruct o as [row'|].
      * destruct IH as [? (pre&post&->&Hpre)]. split; [done|]. exists (row :: pre), post.
        split; [done|]. by intros ? [->|?]%elem_of_cons; auto.
      * by intros ? [->|?]%elem_of_cons; auto.
Qed.

Definition active_row d (k : N) w : Prop :=
  instances d !! k = Some w ∧ is_active_status (wf_status w) = true.

(** reuse returns the oldest compatible active workflow and changes nothing; a new
    queued workflow is created only when no active workflow is compatible. *)
Theorem create_or_reuse_active_correct workflow compatible id clock d k w created d' :
  create_or_reuse_active workflow compatible id clock d = Ok ((k, w, created), d') →
  if created : bool then
    k = id ∧ wf_status w = Queued ∧ instances d !! id = None ∧
    d' = with_instances (<[id := w]>) d ∧
    ∀ k' v, active_row d k' v → compatible (k', v) = Ok false
  else
    d' = d ∧ active_row d k w ∧ compatible (k, w) = Ok true ∧
    ∀ k' v, active_row d k' v → compatible (k', v) = Ok true → instance_leb (k, w) (k', v) = true.
Proof.
  unfold create_or_reuse_active, list_active, list_where. intros H.
  case_decide; [done|]. apply tx_bind_Ok in H as (now&d0&Hn&H). apply lift_Ok in Hn as [_ ->].
  erewrite tx_bind_step in H by done. apply tx_bind_Ok in H as (found&d0&Hf&H).
  apply lift_Ok in Hf as [Hf ->]. apply find_compatible_Ok in Hf.
  assert (Hact : ∀ row, row ∈ sort_by instance_leb (select (λ _ w, is_active_status (wf_status w))
    (instances d)) ↔ active_row d row.1 row.2)
    by (intros [k' v]; by rewrite elem_of_sort_by, elem_of_select).
  destruct found as [row|]; tx_inv.
  - destruct Hf as [Hc (pre&post&Hsplit&Hpre)]. split; [done|]. split; [|split; [done|]].
    + apply (Hact (k, w)). rewrite Hsplit. apply elem_of_app. right. by left.
    + intros k' v Hv Hcv. apply (Hact (k', v)) in Hv. rewrite Hsplit in Hv.
      assert (Hs := StronglySorted_sort_by instance_leb
        (select (λ _ w, is_active_status (wf_status w)) (instances d'))).
      rewrite Hsplit in Hs. apply elem_of_app in Hv as [Hv|Hv].
      * apply Hpre in Hv. congruence.
      * apply StronglySorted_app_1_r in Hs. apply StronglySorted_inv in Hs as [_ Hall].
        apply elem_of_cons in Hv as [[= -> ->]|Hv]; [by destruct (leb_total (k, w) (k, w))|].
        rewrite Forall_forall in Hall. by apply Hall.
  - match goal with H : insert_workflow_in _ _ _ _ = _ |- _ =>
      apply insert_workflow_in_Ok in H as (->&->&Hnone) end.
    split_and!; [done..|]. intros k' v Hv. apply (Hf (k', v)). by apply (Hact (k', v)).
Qed.

End LifecycleOperations.
