(* ===== verification/Automation.v ===== *)
(** * Triggers, policy, documents, executions, activity and targets

    The remaining tables of the runtime database.  A trigger fires at most once
    per deduplication key; documents, triggers and policy are replaced under
    revisions; finite executions are opened and completed; activity has a global
    sequence; targets are recorded, replaced and looked up. *)

From S2P Require Import Prelude Model Store.

Section Automation.
Context `{SD : Serde}.

(** ** Policy *)

(** [automation_policy] and [set_automation_policy] *)
Definition automation_policy : rtx AutomationPolicy := gets policy.
Definition set_automation_policy (p : AutomationPolicy) : rtx AutomationPolicy :=
  _ ← modify (with_policy p); mret p.

(** ** Triggers *)

(** [create_trigger] *)
Definition create_trigger (trigger : TriggerState) (id : TriggerId) (clock : Z)
    : rtx AutomationTrigger :=
  now ← lift (now_millis clock);
  d ← get;
  if decide (triggers d !! id ≠ None) then fail Sql
  else
    _ ← modify (with_triggers (<[id :=
          {| tr_name := ts_name trigger; tr_condition := ts_condition trigger;
             tr_target := ts_target trigger; tr_enabled := ts_enabled trigger;
             tr_created_at := now; tr_updated_at := now; tr_last_fired_at := None;
             tr_next_run_at := ts_next_run_at trigger; tr_last_error := None;
             tr_event_cursor := ts_event_cursor trigger; tr_revision := 0 |}]>));
    t ← read_trigger_in id;
    lift (ok_or t (TriggerNotFound id)).

(** [list_triggers]: [ORDER BY created_at, id] *)
Definition list_triggers : rtx (list (N * AutomationTrigger)) :=
  gets (λ d, sort_by (λ a b : N * AutomationTrigger,
    (tr_created_at a.2 <? tr_created_at b.2)
    || ((tr_created_at a.2 =? tr_created_at b.2) && (a.1 <=? b.1)%N))
    (map_to_list (triggers d))).

Definition replace_trigger (state : TriggerState) (now : Z) (t : AutomationTrigger)
    : AutomationTrigger :=
  {| tr_name := ts_name state; tr_condition := ts_condition state; tr_target := ts_target state;
     tr_enabled := ts_enabled state; tr_created_at := tr_created_at t; tr_updated_at := now;
     tr_last_fired_at := tr_last_fired_at t; tr_next_run_at := ts_next_run_at state;
     tr_last_error := None; tr_event_cursor := ts_event_cursor state;
     tr_revision := tr_revision t + 1 |}.

(** [update_trigger] *)
Definition update_trigger (id : TriggerId) (expected_revision : Z) (state : TriggerState)
    (clock : Z) : rtx AutomationTrigger :=
  expected ← lift (ok_or (i64_try_from expected_revision) (RevisionOutOfRange expected_revision));
  now ← lift (now_millis clock);
  existing ← read_trigger_in id;
  match existing with
  | None => fail (TriggerNotFound id)
  | Some _ =>
      let p := λ k t, bool_decide (k = id) && bool_decide (tr_revision t = expected) in
      changed ← gets (λ d, count p (triggers d));
      _ ← modify (with_triggers (update_where p (replace_trigger state now)));
      if decide (changed = 0) then fail (ConcurrentTriggerUpdate id expected_revision)
      else t ← read_trigger_in id; lift (ok_or t (TriggerNotFound id))
  end.

(** [delete_trigger]: the receipts of a trigger go with it. *)
Definition delete_trigger (id : TriggerId) : rtx bool :=
  d ← get;
  _ ← modify (with_firings (delete_where (λ k _, bool_decide (k.1 = id))));
  _ ← modify (with_triggers (delete id));
  mret (bool_decide (triggers d !! id ≠ None)).

Definition fire_trigger (fired_at : Z) (next_run_at : option Z) (t : AutomationTrigger)
    : AutomationTrigger :=
  {| tr_name := tr_name t; tr_condition := tr_condition t; tr_target := tr_target t;
     tr_enabled := tr_enabled t; tr_created_at := tr_created_at t; tr_updated_at := fired_at;
     tr_last_fired_at := Some fired_at; tr_next_run_at := next_run_at; tr_last_error := None;
     tr_event_cursor := tr_event_cursor t; tr_revision := tr_revision t + 1 |}.

(** [claim_trigger_firing_with_policy] *)
Definition claim_trigger_firing_with_policy (id : TriggerId) (dedupe_key : string)
    (fired_at : Z) (next_run_at : option Z) (automatic : bool) : rtx bool :=
  d ← get;
  if automatic && negb (po_automatic_triggers_enabled (policy d)) then mret false
  else
    t ← lift (ok_or (triggers d !! id) (TriggerNotFound id));
    if negb (tr_enabled t) then mret false
    else if decide (firings d !! (id, dedupe_key) ≠ None) then mret false
    else
      _ ← modify (with_firings (<[(id, dedupe_key) := fired_at]>));
      _ ← modify (with_triggers (update_where (λ k _, bool_decide (k = id))
                                   (fire_trigger fired_at next_run_at)));
      mret true.

(** [claim_trigger_firing] and [claim_automatic_trigger_firing] *)
Definition claim_trigger_firing (id : TriggerId) (dedupe_key : string) (fired_at : Z)
    (next_run_at : option Z) : rtx bool :=
  claim_trigger_firing_with_policy id dedupe_key fired_at next_run_at false.
Definition claim_automatic_trigger_firing (id : TriggerId) (dedupe_key : string)
    (fired_at : Z) (next_run_at : option Z) : rtx bool :=
  claim_trigger_firing_with_policy id dedupe_key fired_at next_run_at true.

Definition trigger_with_cursor (cursor : string) (t : AutomationTrigger) : AutomationTrigger :=
  {| tr_name := tr_name t; tr_condition := tr_condition t; tr_target := tr_target t;
     tr_enabled := tr_enabled t; tr_created_at := tr_created_at t;
     tr_updated_at := tr_updated_at t; tr_last_fired_at := tr_last_fired_at t;
     tr_next_run_at := tr_next_run_at t; tr_last_error := tr_last_error t;
     tr_event_cursor := Some cursor; tr_revision := tr_revision t |}.

(** [set_trigger_cursor] *)
Definition set_trigger_cursor (id : TriggerId) (cursor : string) : rtx unit :=
  d ← get;
  _ ← modify (with_triggers (update_where (λ k _, bool_decide (k = id)) (trigger_with_cursor cursor)));
  if decide (triggers d !! id = None) then fail (TriggerNotFound id) else mret tt.

Definition trigger_with_error (error : option string) (now : Z) (t : AutomationTrigger)
    : AutomationTrigger :=
  {| tr_name := tr_name t; tr_condition := tr_condition t; tr_target := tr_target t;
     tr_enabled := tr_enabled t; tr_created_at := tr_created_at t; tr_updated_at := now;
     tr_last_fired_at := tr_last_fired_at t; tr_next_run_at := tr_next_run_at t;
     tr_last_error := error; tr_event_cursor := tr_event_cursor t;
     tr_revision := tr_revision t + 1 |}.

(** [set_trigger_error] *)
Definition set_trigger_error (id : TriggerId) (error : option string) (clock : Z) : rtx unit :=
  now ← lift (now_millis clock);
  d ← get;
  _ ← modify (with_triggers (update_where (λ k _, bool_decide (k = id)) (trigger_with_error error now)));
  if decide (triggers d !! id = None) then fail (TriggerNotFound id) else mret tt.

(** ** Documents *)

(** [read_document] *)
Definition read_document (namespace key : string) : rtx (option (Value * Z)) :=
  _ ← lift (validate_document_identity namespace key);
  gets (λ d, (λ r, (do_value r, do_revision r)) <$> documents d !! (namespace, key)).

(** [list_documents] *)
Definition list_documents (namespace : string) : rtx (list (string * Value * Z)) :=
  _ ← lift (validate_document_identity namespace "_");
  gets (λ d, (λ kr : (string * string) * DocumentRow,
                (kr.1.2, do_value kr.2, do_revision kr.2)) <$>
    sort_by (λ a b : (string * string) * DocumentRow, String.leb a.1.2 b.1.2)
      (select (λ k _, bool_decide (k.1 = namespace)) (documents d))).

(** [put_document] *)
Definition put_document (namespace key : string) (value : Value) (clock : Z) : rtx Z :=
  _ ← lift (validate_document_identity namespace key);
  now ← lift (now_millis clock);
  existing ← gets (λ d, documents d !! (namespace, key));
  let row := match existing with
    | None => {| do_value := value; do_revision := 0; do_created_at := now; do_updated_at := now |}
    | Some r => {| do_value := value; do_revision := do_revision r + 1;
                   do_created_at := do_created_at r; do_updated_at := now |}
    end in
  _ ← modify (with_documents (<[(namespace, key) := row]>));
  mret (do_revision row).

(** [delete_document] *)
Definition delete_document (namespace key : string) : rtx bool :=
  _ ← lift (validate_document_identity namespace key);
  existing ← gets (λ d, documents d !! (namespace, key));
  _ ← modify (with_documents (delete (namespace, key)));
  mret (bool_decide (existing ≠ None)).

(** ** Finite executions *)

Definition insert_execution (id : string) (e : FiniteExecution) : rtx unit :=
  d ← get;
  if decide (executions d !! id ≠ None) then fail Sql
  else modify (with_executions (<[id := e]>)).

(** [record_finite_execution] *)
Definition record_finite_execution (operation_class : FiniteExecutionClass) (kind : string)
    (status : FiniteExecutionStatus) (started_at : Z) (result : option Value)
    (error : option string) (id : string) (clock : Z) : rtx FiniteExecution :=
  now ← lift (now_millis clock);
  let execution := {| fx_operation_class := operation_class; fx_kind := kind;
    fx_status := status; fx_started_at := started_at; fx_finished_at := now;
    fx_result := result; fx_error := error |} in
  _ ← insert_execution id execution;
  mret execution.

(** [begin_finite_execution] *)
Definition begin_finite_execution (operation_class : FiniteExecutionClass) (kind : string)
    (started_at : Z) (id : string) : rtx FiniteExecution :=
  let execution := {| fx_operation_class := operation_class; fx_kind := kind;
    fx_status := FxRunning; fx_started_at := started_at; fx_finished_at := started_at;
    fx_result := None; fx_error := None |} in
  _ ← insert_execution id execution;
  mret execution.

Definition complete_execution_row (status : FiniteExecutionStatus) (now : Z)
    (result : option Value) (error : option string) (e : FiniteExecution) : FiniteExecution :=
  {| fx_operation_class := fx_operation_class e; fx_kind := fx_kind e; fx_status := status;
     fx_started_at := fx_started_at e; fx_finished_at := now; fx_result := result;
     fx_error := error |}.

(** [complete_finite_execution] *)
Definition complete_finite_execution (id : string) (status : FiniteExecutionStatus)
    (result : option Value) (error : option string) (clock : Z) : rtx unit :=
  now ← lift (now_millis clock);
  modify (with_executions (update_where (λ k _, bool_decide (k = id))
            (complete_execution_row status now result error))).

(** [finite_execution_history]: [ORDER BY finished_at DESC, id DESC] *)
Definition finite_execution_history : rtx (list (string * FiniteExecution)) :=
  gets (λ d, sort_by (λ a b : string * FiniteExecution,
    (fx_finished_at b.2 <? fx_finished_at a.2)
    || ((fx_finished_at b.2 =? fx_finished_at a.2) && String.leb b.1 a.1))
    (map_to_list (executions d))).

(** ** Activity *)

(** [append_activity]: an [AUTOINCREMENT] identifier is one more than any the
    table ever had. *)
Definition append_activity (workflow_id : WorkflowId) (message : string) (clock : Z)
    : rtx (Z * WorkflowActivity) :=
  created_at ← lift (now_millis clock);
  d ← get;
  if decide (instances d !! workflow_id = None) then fail Sql
  else
    let id := activity_seq d + 1 in
    let row := {| act_workflow_id := workflow_id; act_created_at := created_at;
                  act_message := message |} in
    _ ← modify (with_activity (<[id := row]>));
    _ ← modify (with_activity_seq id);
    mret (id, row).

(** [activity], [activity_since] and [latest_activity_id] *)
Definition activity (workflow_id : WorkflowId) : rtx (list (Z * WorkflowActivity)) :=
  gets (λ d, sort_by (λ a b : Z * WorkflowActivity, a.1 <=? b.1)
    (select (λ _ a, bool_decide (act_workflow_id a = workflow_id)) (activity_log d))).
Definition activity_since (after_id : Z) : rtx (list (Z * WorkflowActivity)) :=
  gets (λ d, sort_by (λ a b : Z * WorkflowActivity, a.1 <=? b.1)
    (select (λ k _, bool_decide (after_id < k)) (activity_log d))).
Definition latest_activity_id : rtx Z :=
  gets (λ d, foldr Z.max 0 (fst <$> map_to_list (activity_log d))).

(** ** Targets *)

Record WorkflowTargetRecord := {
  tk_workflow_id : WorkflowId;
  tk_target : WorkflowTarget;
  tk_active : bool;
  tk_created_at_ms : Z;
  tk_updated_at_ms : Z;
}.

Definition target_record (kr : (N * (string * string)) * TargetRow) : WorkflowTargetRecord :=
  {| tk_workflow_id := kr.1.1; tk_target := tg_target kr.2; tk_active := tg_active kr.2;
     tk_created_at_ms := tg_created_at_ms kr.2; tk_updated_at_ms := tg_updated_at_ms kr.2 |}.

(** [ORDER BY updated_at_ms DESC, target_kind, target_key, workflow_id] *)
Definition target_leb (a b : (N * (string * string)) * TargetRow) : bool :=
  (tg_updated_at_ms b.2 <? tg_updated_at_ms a.2)
  || ((tg_updated_at_ms b.2 =? tg_updated_at_ms a.2)
      && (if decide (a.1.2 = b.1.2) then (a.1.1 <=? b.1.1)%N else str_pair_leb a.1.2 b.1.2)).

(** [workflow_targets_in] *)
Definition workflow_targets_in (workflow_id : option WorkflowId) (active_only : bool)
    : rtx (list WorkflowTargetRecord) :=
  gets (λ d, target_record <$> sort_by target_leb
    (select (λ k row,
       match instances d !! k.1 with
       | None => false
       | Some w =>
           match workflow_id with None => true | Some id => bool_decide (k.1 = id) end
           && (negb active_only
               || (tg_active row && negb (WorkflowStatus.is_terminal (wf_status w))))
       end) (targets d))).

(** The upsert that [record_workflow_targets] and [replace_workflow_targets]
    share: an unchanged active row is left alone. *)
Definition upsert_target (workflow_id : WorkflowId) (now_ms : Z) (target : WorkflowTarget)
    : rtx unit :=
  let k := (workflow_id, (target_kind target, target_key target)) in
  existing ← gets (λ d, targets d !! k);
  match existing with
  | None =>
      _ ← modify (with_targets (<[k := {| tg_target := target; tg_active := true;
            tg_created_at_ms := now_ms; tg_updated_at_ms := now_ms |}]>));
      bump_intelligence 1
  | Some row =>
      if bool_decide (tg_target row ≠ target) || negb (tg_active row)
      then
        _ ← modify (with_targets (<[k := {| tg_target := target; tg_active := true;
              tg_created_at_ms := tg_created_at_ms row; tg_updated_at_ms := now_ms |}]>));
        bump_intelligence 1
      else mret tt
  end.

(** [record_workflow_targets] *)
Definition record_workflow_targets (workflow_id : WorkflowId) (ts : list WorkflowTarget)
    (now_ms : Z) : rtx (list WorkflowTargetRecord) :=
  _ ← require_workflow workflow_id;
  _ ← for_each (λ target,
        _ ← lift (validate_workflow_target target);
        upsert_target workflow_id now_ms target) ts;
  workflow_targets_in (Some workflow_id) false.

Definition release_target_row (now_ms : Z) (row : TargetRow) : TargetRow :=
  {| tg_target := tg_target row; tg_active := false;
     tg_created_at_ms := tg_created_at_ms row; tg_updated_at_ms := now_ms |}.

Definition update_targets (p : N * (string * string) → TargetRow → bool)
    (f : TargetRow → TargetRow) : rtx unit :=
  n ← gets (λ d, count p (targets d));
  _ ← modify (with_targets (update_where p f));
  bump_intelligence n.

Definition target_identity (t : WorkflowTarget) : string * string := (target_kind t, target_key t).

(** One iteration of the release loop of [replace_workflow_targets]. *)
Definition release_stale (workflow_id : WorkflowId) (now_ms : Z)
    (incoming : gset (string * string)) (record : WorkflowTargetRecord) : rtx unit :=
  let identity := target_identity (tk_target record) in
  if tk_active record && negb (bool_decide (identity ∈ incoming))
  then update_targets (λ k row, bool_decide (k = (workflow_id, identity)) && tg_active row)
         (release_target_row now_ms)
  else mret tt.

(** [replace_workflow_targets] *)
Definition replace_workflow_targets (workflow_id : WorkflowId) (ts : list WorkflowTarget)
    (now_ms : Z) : rtx (list WorkflowTargetRecord) :=
  _ ← require_workflow workflow_id;
  _ ← for_each (λ target, lift (validate_workflow_target target)) ts;
  let incoming : gset (string * string) := list_to_set (target_identity <$> ts) in
  existing ← workflow_targets_in (Some workflow_id) false;
  _ ← for_each (release_stale workflow_id now_ms incoming) existing;
  _ ← for_each (upsert_target workflow_id now_ms) ts;
  workflow_targets_in (Some workflow_id) false.

(** [workflow_targets], [active_workflow_targets] and [workflows_targeting] *)
Definition workflow_targets (workflow_id : WorkflowId) : rtx (list WorkflowTargetRecord) :=
  workflow_targets_in (Some workflow_id) false.
Definition active_workflow_targets : rtx (list WorkflowTargetRecord) :=
  workflow_targets_in None true.
Definition workflows_targeting (kind key : string) : rtx (list WorkflowTargetRecord) :=
  _ ← lift (validate_target_parts kind key);
  gets (λ d, target_record <$> sort_by (λ a b : (N * (string * string)) * TargetRow,
      (tg_updated_at_ms b.2 <? tg_updated_at_ms a.2)
      || ((tg_updated_at_ms b.2 =? tg_updated_at_ms a.2) && (a.1.1 <=? b.1.1)%N))
    (select (λ k _, bool_decide (k.2 = (kind, key))) (targets d))).

(** [workflow_intelligence_revision] *)
Definition workflow_intelligence_revision : rtx Z := gets intelligence_revision.

End Automation.

(** * Facts about triggers, documents, activity and targets *)

Section AutomationFacts.
Context `{SD : Serde}.
Implicit Types d : DB.

(** ** Triggers *)

(** A sequence of firing requests, in the order the transactions ran. *)
Record FiringRequest := {
  fr_key : string;
  fr_fired_at : Z;
  fr_next_run_at : option Z;
  fr_automatic : bool;
}.

Fixpoint fire_requests (id : TriggerId) (requests : list FiringRequest) (d : DB)
    : list (FiringRequest * bool) * DB :=
  match requests with
  | [] => ([], d)
  | r :: requests =>
      let '(answer, d1) := run (claim_trigger_firing_with_policy id (fr_key r) (fr_fired_at r)
                                  (fr_next_run_at r) (fr_automatic r)) d in
      let fired := match answer with Ok true => true | _ => false end in
      let '(rest, d2) := fire_requests id requests d1 in
      ((r, fired) :: rest, d2)
  end.

(** one firing claim is decided by the policy, the trigger and its receipts: it
    fires exactly when the trigger exists and is enabled, automatic triggers are on
    if it is automatic, and the key has no receipt; firing records the receipt and
    changes no other trigger. *)
Theorem claim_trigger_firing_decided id key fired_at next automatic d t :
  triggers d !! id = Some t →
  ∃ d', claim_trigger_firing_with_policy id key fired_at next automatic d =
    Ok (tr_enabled t && (negb automatic || po_automatic_triggers_enabled (policy d))
        && bool_decide (firings d !! (id, key) = None), d') ∧
    if tr_enabled t && (negb automatic || po_automatic_triggers_enabled (policy d))
       && bool_decide (firings d !! (id, key) = None)
    then firings d' = <[(id, key) := fired_at]> (firings d) ∧
         triggers d' = <[id := fire_trigger fired_at next t]> (triggers d)
    else d' = d.
Proof.
  intros Ht. unfold claim_trigger_firing_with_policy. erewrite tx_bind_step by done.
  destruct (automatic && negb (po_automatic_triggers_enabled (policy d))) eqn:Ep.
  { apply andb_true_iff in Ep as [-> Ep%negb_true_iff]. rewrite Ep, andb_false_r. by exists d. }
  assert (negb automatic || po_automatic_triggers_enabled (policy d) = true) as ->
    by (destruct automatic; [by apply negb_false_iff in Ep|done]).
  rewrite andb_true_r, Ht. rewrite (tx_bind_step _ _ d t d) by done.
  destruct (tr_enabled t); simpl; [|by exists d]. case_decide as Hf.
  - rewrite bool_decide_eq_false_2 by done. by exists d.
  - rewrite bool_decide_eq_true_2 by done.
    eexists. split; [done|]. simpl. split; [done|]. apply map_eq. intros k.
    rewrite lookup_update_where. destruct (decide (k = id)) as [->|].
    + by rewrite lookup_insert_eq, Ht; simpl; rewrite bool_decide_eq_true_2.
    + rewrite lookup_insert_ne by done. destruct (triggers d !! k); [|done]. simpl.
      by rewrite bool_decide_eq_false_2.
Qed.

Lemma claim_firing_Ok id key fired_at next automatic d b d' :
  claim_trigger_firing_with_policy id key fired_at next automatic d = Ok (b, d') →
  if b then firings d !! (id, key) = None ∧ firings d' = <[(id, key) := fired_at]> (firings d)
  else d' = d.
Proof.
  unfold claim_trigger_firing_with_policy. intros. tx_inv; try done.
  split; [|done]. by apply dec_stable.
Qed.

Lemma fire_requests_receipts id requests d l d' :
  fire_requests id requests d = (l, d') →
  (∀ k, is_Some (firings d !! k) → is_Some (firings d' !! k)) ∧
  (∀ r, (r, true) ∈ l → firings d !! (id, fr_key r) = None) ∧
  NoDup (fr_key ∘ fst <$> filter (λ x, x.2 = true) l).
Proof.
  revert d l d'. induction requests as [|r requests IH]; intros d l d' H; simpl in H.
  { simplify_eq. split_and!; [done| |constructor]. by intros r ?%elem_of_nil. }
  unfold run in H.
  destruct (claim_trigger_firing_with_policy _ _ _ _ _ d) as [[b d1]|e] eqn:E.
  - destruct (fire_requests id requests d1) as [rest d2] eqn:Er.
    destruct (IH _ _ _ Er) as (Hkeep&Hfresh&Hnd). apply claim_firing_Ok in E. destruct b; simplify_eq.
    + destruct E as [Hnone E]. rewrite E in *. split_and!.
      * intros k Hk. apply Hkeep. rewrite lookup_insert_is_Some'. auto.
      * intros r' [[= ->]|Hin]%elem_of_cons; [done|]. apply Hfresh in Hin.
        by apply lookup_insert_None in Hin as [? _].
      * rewrite filter_cons_True by done. rewrite fmap_cons. apply NoDup_cons. split; [|done].
        intros ([r' b']&Hk&[Hb Hin]%list_elem_of_filter)%list_elem_of_fmap. simpl in *. subst.
        apply Hfresh in Hin. by rewrite <-Hk, lookup_insert_eq in Hin.
    + split_and!; [done| |].
      * intros r' [[=]|Hin]%elem_of_cons; eauto.
      * by rewrite filter_cons_False.
  - destruct (fire_requests id requests d) as [rest d2] eqn:Er.
    destruct (IH _ _ _ Er) as (Hkeep&Hfresh&Hnd). simplify_eq. split_and!; [done| |].
    + intros r' [[=]|Hin]%elem_of_cons; eauto.
    + by rewrite filter_cons_False.
Qed.

(** in any sequence of firing requests for a trigger, automatic or manual, each
    deduplication key fires at most once. *)
Theorem trigger_fires_at_most_once id requests d :
  NoDup (fr_key ∘ fst <$> filter (λ x, x.2 = true) (fire_requests id requests d).1).
Proof.
  destruct (fire_requests id requests d) as [l d'] eqn:E. simpl.
  by destruct (fire_requests_receipts _ _ _ _ _ E) as (_&_&?).
Qed.

(** ** Documents *)


(** ** Activity *)

(** Identifiers are positive and at most the sequence counter. *)
Definition activity_ok d : Prop :=
  ∀ k, is_Some (activity_log d !! k) → 0 < k ≤ activity_seq d.

Lemma foldr_max_le l b : (∀ x, x ∈ l → x ≤ b) → 0 ≤ b → foldr Z.max 0 l ≤ b.
Proof.
  induction l as [|x l IH]; simpl; intros Hl Hb; [done|].
  assert (x ≤ b) by (apply Hl; by left).
  assert (foldr Z.max 0 l ≤ b) by (apply IH; [intros; apply Hl; by right|done]). lia.
Qed.

Lemma foldr_max_elem l x : x ∈ l → x ≤ foldr Z.max 0 l.
Proof. induction 1; simpl; lia. Qed.

(** every appended activity gets a larger identifier than any before it, which is
    then the latest, so a reader that resumes after the last identifier it saw gets
    exactly what was appended since. *)
Theorem append_activity_is_latest wid message clock d id row d' :
  activity_ok d → 0 ≤ activity_seq d → append_activity wid message clock d = Ok ((id, row), d') →
  activity_ok d' ∧ (∀ k, is_Some (activity_log d !! k) → k < id) ∧
  latest_activity_id d' = Ok (id, d') ∧
  activity_since (activity_seq d) d' = Ok ([(id, row)], d').
Proof.
  intros Hok Hseq H. unfold append_activity in H.
  apply tx_bind_Ok in H as (now&d0&Hn&H). apply lift_Ok in Hn as [_ ->].
  erewrite tx_bind_step in H by done. case_decide; [done|]. cbv zeta in H.
  do 2 erewrite tx_bind_step in H by done. unfold mret, tx_ret in H. injection H as Hid Hrow <-.
  subst row. set (row := {| act_workflow_id := wid; act_created_at := now; act_message := message |}).
  assert (Hlt : ∀ k, is_Some (activity_log d !! k) → k < id)
    by (intros k Hk; destruct (Hok _ Hk); lia).
  rewrite Hid.
  split_and!; [|done|..].
  - intros k [a Ha]. simpl in *. apply lookup_insert_Some in Ha as [[<- _]|[_ Ha]]; [lia|].
    destruct (Hok k); [by eexists|lia].
  - unfold latest_activity_id, gets. simpl. do 2 f_equal.
    assert (Hmem : ∀ x, x ∈ (map_to_list (<[id := row]> (activity_log d))).*1 →
      x ≤ id).
    { intros x ([k a]&->&Hk%elem_of_map_to_list)%list_elem_of_fmap. simpl.
      apply lookup_insert_Some in Hk as [[<- _]|[_ Hk]]; [lia|].
      assert (k < id) by (apply Hlt; by eexists). lia. }
    assert (id ≤ foldr Z.max 0 (map_to_list (<[id := row]> (activity_log d))).*1).
    { apply foldr_max_elem, list_elem_of_fmap. exists (id, row). split; [done|].
      apply elem_of_map_to_list, lookup_insert_eq. }
    assert (foldr Z.max 0 (map_to_list (<[id := row]> (activity_log d))).*1 ≤ id)
      by (apply foldr_max_le; [done|lia]). lia.
  - unfold activity_since, gets. simpl. do 2 f_equal.
    apply Permutation_singleton_r. rewrite sort_by_perm. apply NoDup_Permutation.
    + apply NoDup_filter, NoDup_map_to_list.
    + apply NoDup_singleton.
    + intros [k a]. rewrite elem_of_select, list_elem_of_singleton, bool_decide_eq_true. split.
      * intros [Hk Hgt]. apply lookup_insert_Some in Hk as [[<- <-]|[_ Hk]]; [done|].
        assert (k < id) by (apply Hlt; by eexists). lia.
      * intros [= -> ->]. split; [apply lookup_insert_eq|lia].
Qed.

(** ** Targets *)

(** Every row is stored under the identity of its target. *)
Definition targets_ok d : Prop :=
  ∀ k row, targets d !! k = Some row → k.2 = target_identity (tg_target row).

(** [id] is an active target of the workflow. *)
Definition targets_actively d (wid : WorkflowId) (id : string * string) : Prop :=
  ∃ row, targets d !! (wid, id) = Some row ∧ tg_active row = true.

(** Rows of [wid] outside [incoming] may have been deactivated. *)
Definition deactivated (wid : WorkflowId) (incoming : gset (string * string)) d d' : Prop :=
  instances d' = instances d ∧
  ∀ k, targets d' !! k = targets d !! k ∨
    (k.1 = wid ∧ (k.2 ∉ incoming) ∧ ∃ row row', targets d !! k = Some row ∧
       targets d' !! k = Some row' ∧ tg_active row' = false ∧ tg_target row' = tg_target row).

Lemma deactivated_trans wid incoming d1 d2 d3 :
  deactivated wid incoming d1 d2 → deactivated wid incoming d2 d3 →
  deactivated wid incoming d1 d3.
Proof.
  intros [I1 D1] [I2 D2]. split; [congruence|]. intros k.
  destruct (D1 k) as [E1|(?&?&r1&r2&?&H2&?&?)], (D2 k) as [E2|(?&?&r2'&r3&H2'&?&?&?)].
  - left. congruence.
  - right. rewrite <-E1. split_and!; eauto 10.
  - right. rewrite E2. split_and!; eauto 10.
  - right. split_and!; [done..|]. exists r1, r3. simplify_eq. split_and!; congruence.
Qed.

Lemma release_stale_Ok wid now incoming record d u d' :
  release_stale wid now incoming record d = Ok (u, d') →
  deactivated wid incoming d d' ∧
  (tk_active record = true → target_identity (tk_target record) ∉ incoming →
   ¬ targets_actively d' wid (target_identity (tk_target record))).
Proof.
  unfold release_stale, update_targets, bump_intelligence. intros H.
  destruct (tk_active record && _) eqn:E; tx_inv.
  - apply andb_true_iff in E as [_ E%negb_true_iff%bool_decide_eq_false]. split.
    + split; [done|]. intros k. simpl. rewrite lookup_update_where.
      destruct (targets _ !! k) as [row|] eqn:Ek; [|by left]. simpl.
      destruct (bool_decide (k = _) && tg_active row) eqn:Ep; [|by left]. right.
      apply andb_true_iff in Ep as [->%bool_decide_eq_true _].
      split_and!; [done..|]. by exists row, (release_target_row now row).
    + intros _ _ (row&Hrow&Hact). simpl in Hrow.
      apply lookup_update_where_Some in Hrow as (row0&_&->).
      rewrite bool_decide_eq_true_2 in Hact by done. simpl in Hact.
      by destruct (tg_active row0) eqn:E0; simpl in Hact; [|congruence].
  - split; [split; [done|by left]|]. intros Ha Hni. rewrite Ha in E. simpl in E.
    by apply negb_false_iff, bool_decide_eq_true in E.
Qed.

Lemma release_loop_Ok wid now incoming l d u d' :
  for_each (release_stale wid now incoming) l d = Ok (u, d') →
  deactivated wid incoming d d' ∧
  ∀ record, record ∈ l → tk_active record = true →
    target_identity (tk_target record) ∉ incoming →
    ¬ targets_actively d' wid (target_identity (tk_target record)).
Proof.
  revert d. induction l as [|record l IH]; intros d H; cbn [for_each] in H.
  { tx_inv. split; [split; [done|by left]|]. by intros ? ?%elem_of_nil. }
  apply tx_bind_Ok in H as ([]&d1&H1&H2). apply release_stale_Ok in H1 as [D1 R1].
  apply IH in H2 as [D2 R2]. split; [by eapply deactivated_trans|].
  intros r [->|Hin]%elem_of_cons Ha Hni; [|eauto].
  intros (row&Hrow&Hact). destruct (proj2 D2 (wid, target_identity (tk_target record)))
    as [E|(_&_&_&row'&_&Hrow'&Hf&_)]; [|congruence].
  rewrite E in Hrow. apply (R1 Ha Hni). by exists row.
Qed.

Lemma upsert_target_Ok wid now t d u d' :
  upsert_target wid now t d = Ok (u, d') →
  (∃ row, targets d' !! (wid, target_identity t) = Some row ∧ tg_active row = true ∧
     tg_target row = t) ∧
  (∀ k, k ≠ (wid, target_identity t) → targets d' !! k = targets d !! k).
Proof.
  unfold upsert_target, bump_intelligence, target_identity. intros H. cbv zeta in H.
  erewrite tx_bind_step in H by done.
  destruct (targets d !! _) as [row|] eqn:E.
  - destruct (bool_decide (tg_target row ≠ t) || negb (tg_active row)) eqn:Eb; tx_inv; simpl.
    + split; [eexists; by rewrite lookup_insert_eq|]. intros. by rewrite lookup_insert_ne.
    + apply orb_false_iff in Eb as [E1%bool_decide_eq_false%dec_stable E2%negb_false_iff]. eauto.
  - tx_inv; simpl. split; [eexists; by rewrite lookup_insert_eq|].
    intros. by rewrite lookup_insert_ne.
Qed.

Lemma upsert_loop_Ok wid now ts d u d' :
  for_each (upsert_target wid now) ts d = Ok (u, d') →
  (∀ t, t ∈ ts → targets_actively d' wid (target_identity t)) ∧
  (∀ k, (k.1 ≠ wid ∨ ∀ t, t ∈ ts → k.2 ≠ target_identity t) → targets d' !! k = targets d !! k).
Proof.
  revert d. induction ts as [|t ts IH]; intros d H; cbn [for_each] in H.
  { tx_inv. split; [by intros ? ?%elem_of_nil|done]. }
  apply tx_bind_Ok in H as ([]&d1&H1&H2). apply upsert_target_Ok in H1 as [(row&Hrow&Ha&_) Hf].
  apply IH in H2 as [Hall Hf2]. split.
  - intros t' [->|?]%elem_of_cons; [|auto].
    destruct (decide (Exists (λ t', target_identity t' = target_identity t) ts)) as [He|Hne].
    + apply Exists_exists in He as (t'&Hin&<-). auto.
    + exists row. split; [|done]. rewrite Hf2; [done|]. right. intros t' Hin Heq. apply Hne.
      apply Exists_exists. by exists t'.
  - intros k Hk. rewrite Hf2, Hf; [done|..].
    + intros ->. destruct Hk as [Hk|Hk]; [done|]. by apply (Hk t); [left|].
    + destruct Hk as [Hk|Hk]; [by left|]. right. intros t' Hin. apply Hk. by right.
Qed.

(** replacing the targets of a workflow leaves exactly the given identities
    active for it, retires its other targets without deleting them, and does not
    touch the targets of any other workflow. *)
Theorem replace_workflow_targets_exact wid ts now d records d' :
  targets_ok d → replace_workflow_targets wid ts now d = Ok (records, d') →
  (∀ id, targets_actively d' wid id ↔ ∃ t, t ∈ ts ∧ target_identity t = id) ∧
  (∀ k, is_Some (targets d !! k) → is_Some (targets d' !! k)) ∧
  (∀ k, k.1 ≠ wid → targets d' !! k = targets d !! k).
Proof.
  intros Hok H. unfold replace_workflow_targets in H.
  apply tx_bind_Ok in H as (w&d0&Hw&H).
  assert (d0 = d ∧ instances d !! wid = Some w) as [-> Hw']
    by (unfold require_workflow, read_in in Hw; by tx_inv).
  apply tx_bind_Ok in H as ([]&d0&Hval&H).
  assert (d0 = d) as ->.
  { revert Hval. apply (for_each_inv (λ d', d' = d)); [|done].
    intros t d1 [] d2 _ -> Hl. by tx_inv. }
  cbv zeta in H. set (incoming := list_to_set _ : gset (string * string)) in H.
  erewrite tx_bind_step in H by done.
  apply tx_bind_Ok in H as ([]&d1&Hrel&H). apply tx_bind_Ok in H as ([]&d2&Hup&H).
  unfold workflow_targets_in, gets in H. injection H as _ <-.
  apply (release_loop_Ok wid now incoming) in Hrel as [[_ Hd1] Hstale].
  apply upsert_loop_Ok in Hup as [Hall Hframe].
  assert (Hinc : ∀ id, id ∈ incoming ↔ ∃ t, t ∈ ts ∧ target_identity t = id).
  { intros id. unfold incoming. rewrite elem_of_list_to_set, list_elem_of_fmap.
    split; intros (t&?&?); exists t; auto. }
  assert (Hquiet : ∀ id, id ∉ incoming → ¬ targets_actively d1 wid id).
  { intros id Hni (row&Hrow&Hact).
    destruct (Hd1 (wid, id)) as [E|(_&_&_&row'&_&Hrow'&Hf&_)]; [|congruence].
    rewrite E in Hrow. assert (Hid := Hok _ _ Hrow). simpl in Hid. rewrite Hid in Hni, E, Hrow.
    apply (Hstale (target_record ((wid, target_identity (tg_target row)), row))); [|done..|].
    - apply list_elem_of_fmap. eexists. split; [done|].
      apply elem_of_sort_by, elem_of_select. split; [done|]. simpl. rewrite Hw'.
      by rewrite bool_decide_eq_true_2.
    - exists row. simpl. by rewrite E. }
  split_and!.
  - intros id. rewrite <-Hinc. split.
    + intros (row&Hrow&Hact). destruct (decide (id ∈ incoming)) as [|Hni]; [done|].
      exfalso. apply (Hquiet id Hni). exists row. split; [|done]. rewrite <-Hframe; [done|].
      right. intros t Ht Heq. apply Hni, Hinc. by exists t.
    + intros (t&Ht&<-)%Hinc. auto.
  - intros k Hk. assert (is_Some (targets d1 !! k)) as Hk1
      by (destruct (Hd1 k) as [->|(_&_&_&r&_&->&_)]; [done|by eexists]).
    destruct (decide (k.1 = wid)) as [<-|]; [|by rewrite Hframe by by left].
    destruct (decide (k.2 ∈ incoming)) as [(t&Ht&Hid)%Hinc|Hni].
    + destruct (Hall t Ht) as (row&Hrow&_). rewrite Hid in Hrow. destruct k. by eexists.
    + rewrite Hframe; [done|]. right. intros t Ht Heq. apply Hni, Hinc. by exists t.
  - intros k Hne. rewrite Hframe by by left.
    by destruct (Hd1 k) as [->|(?&_)].
Qed.

End AutomationFacts.
