(* ===== verification/Allocation.v ===== *)
(** * The resource broker

    Capacity-checked allocation of pool members to the requirements of a work
    item: candidate matching, pool observations, retention of earlier
    allocations, selection, replacement of a lost allocation, and the
    reservation listing.  The text of a shortage's explanation is not modelled. *)

From S2P Require Import Prelude Float64 Model Store Claims WorkItems WorkItemFacts Lifecycle.

#[global] Instance AllocationLocation_eq : EqDecision AllocationLocation.
Proof. solve_decision. Defined.

(** ** Matching *)

(** [candidate_matches_kind_capabilities] *)
Definition candidate_matches_kind_capabilities (candidate : AllocationCandidate)
    (requirement : ResourceRequirement) : bool :=
  bool_decide (ac_kind candidate = rq_kind requirement)
  && forallb (λ required, bool_decide (required ∈ ac_capabilities candidate))
       (rq_capabilities requirement).

(** [candidate_matches_scope] *)
Definition candidate_matches_scope (candidate : AllocationCandidate) (scope : RequirementScope)
    : bool :=
  match scope with
  | Anywhere => true
  | Region region => bool_decide ((ac_location candidate ≫= al_region) = Some region)
  | System system => bool_decide ((ac_location candidate ≫= al_system) = Some system)
  | Location designation =>
      bool_decide ((ac_location candidate ≫= al_designation) = Some designation)
  | WithinLy origin range_ly =>
      F64.is_finite range_ly && F64.geb range_ly F64.zero
      && match ac_location candidate ≫= (λ l, al_distances_ly l !! origin) with
         | None => false
         | Some distance => F64.is_finite distance && F64.geb distance F64.zero
                            && F64.leb distance range_ly
         end
  end.

(** [candidate_matches_requirement] *)
Definition candidate_matches_requirement (candidate : AllocationCandidate)
    (requirement : ResourceRequirement) : bool :=
  candidate_matches_kind_capabilities candidate requirement
  && candidate_matches_scope candidate (rq_scope requirement).

(** [affinity_parent] *)
Fixpoint affinity_parent (requirement_key : string) (affinities : list (string * string))
    : option string :=
  match affinities with
  | [] => None
  | (dependent, parent) :: affinities =>
      if decide (dependent = requirement_key) then Some parent
      else affinity_parent requirement_key affinities
  end.

(** [candidate_matches_affinity] *)
Definition candidate_matches_affinity (candidate : AllocationCandidate) (requirement_key : string)
    (affinities : list (string * string)) (allocations : AllocationSet) : bool :=
  match affinity_parent requirement_key affinities with
  | None => true
  | Some parent_requirement =>
      match allocations !! parent_requirement with
      | None => false
      | Some selected => existsb (λ a,
          bool_decide (resource_identity_key (ra_resource a)
                       = resource_identity_key (ac_resource candidate))) selected
      end
  end.

Section Allocation.
Context `{SD : Serde} `{RO : RowOrder}.

(** ** Pools *)

(** [SELECT COALESCE(SUM(quantity), 0) ... WHERE pool_key = ?1 AND state = 'active'] *)
Definition active_sum (d : DB) (pool_key : string) : Z :=
  foldr Z.add 0 ((λ ka : N * AllocationRow, ar_quantity ka.2) <$>
    select (λ _ a, bool_decide (ar_pool_key a = pool_key) && is_active_allocation a)
      (allocations d)).

(** A sum beyond 64 bits is an SQL error. *)
Definition active_quantity (pool_key : string) : rtx Z :=
  s ← gets (λ d, active_sum d pool_key);
  if decide (s ≤ i64_max) then mret s else fail Sql.

Definition pool_of_candidate (parts : string * string) (candidate : AllocationCandidate)
    (quantity revision : Z) : PoolRow :=
  {| pl_namespace := parts.1; pl_key := parts.2; pl_kind := ac_kind candidate;
     pl_capabilities := ac_capabilities candidate; pl_location := ac_location candidate;
     pl_available_quantity := quantity; pl_observed_revision := revision;
     pl_observed_at_ms := ac_observed_at_ms candidate |}.

(** The update trigger of the pool table. *)
Definition pool_update_bump (d : DB) (pool_key : string) (old new : PoolRow) : Z :=
  if exists_row (λ _ a, bool_decide (ar_pool_key a = pool_key) && is_active_allocation a)
       (allocations d)
     && (bool_decide (pl_kind old ≠ pl_kind new)
         || bool_decide (pl_capabilities old ≠ pl_capabilities new)
         || bool_decide (pl_location old ≠ pl_location new))
  then 1 else 0.

(** [INSERT INTO workflow_resource_pools ... ON CONFLICT(pool_key) DO UPDATE ...
    WHERE excluded.observed_revision > observed_revision]; [merge] is the updated
    row. *)
Definition upsert_pool (pool_key : string) (row : PoolRow) (merge : PoolRow → PoolRow)
    : rtx unit :=
  d ← get;
  match pools d !! pool_key with
  | None =>
      if exists_row (λ _ r, bool_decide (pl_namespace r = pl_namespace row)
                            && bool_decide (pl_key r = pl_key row)) (pools d)
      then fail Sql
      else modify (with_pools (<[pool_key := row]>))
  | Some old =>
      if decide (pl_observed_revision old < pl_observed_revision row)
      then
        _ ← modify (with_pools (<[pool_key := merge old]>));
        bump_intelligence (pool_update_bump d pool_key old (merge old))
      else mret tt
  end.

(** One iteration of the observation loop of [allocate_requirements_with_policy]. *)
Definition observe_candidate (candidate : AllocationCandidate) : rtx unit :=
  let pool_key := resource_to_string (ac_resource candidate) in
  parts ← lift (persisted_parts (ac_resource candidate));
  revision ← lift (ok_or (i64_try_from (ac_observed_revision candidate))
                     (RevisionOutOfRange (ac_observed_revision candidate)));
  quantity ← lift (ok_or (i64_try_from (ac_available_quantity candidate))
                     (InvalidStoredWorkItemCount "available quantity" i64_max));
  let row := pool_of_candidate parts candidate quantity revision in
  upsert_pool pool_key row (λ old,
    {| pl_namespace := pl_namespace old; pl_key := pl_key old; pl_kind := pl_kind row;
       pl_capabilities := pl_capabilities row; pl_location := pl_location row;
       pl_available_quantity := pl_available_quantity row;
       pl_observed_revision := pl_observed_revision row;
       pl_observed_at_ms := pl_observed_at_ms row |}).

(** ** Allocation rows *)

(** [INSERT INTO workflow_resource_allocations]: the keys, the positive quantity and
    the unique index on active identities. *)
Definition insert_allocation (id : AllocationId) (a : AllocationRow) : rtx unit :=
  d ← get;
  if decide (allocations d !! id = None ∧ is_Some (work_items d !! ar_item_id a) ∧
             is_Some (pools d !! ar_pool_key a) ∧ 0 < ar_quantity a ∧
             exists_row (λ _ b, is_active_allocation b
               && bool_decide (ar_item_id b = ar_item_id a)
               && bool_decide (ar_requirement_key b = ar_requirement_key a)
               && bool_decide (ar_namespace b = ar_namespace a)
               && bool_decide (ar_key b = ar_key a)) (allocations d) = false)
  then _ ← modify (with_allocations (<[id := a]>)); bump_intelligence 1
  else fail Sql.

(** [INSERT INTO workflow_resource_claims ... ON CONFLICT DO UPDATE SET updated_at
    ... WHERE workflow_id = excluded.workflow_id] *)
Definition upsert_claim (k : string * string) (workflow_id : WorkflowId) (now : Z) : rtx unit :=
  existing ← gets (λ d, claims_table d !! k);
  match existing with
  | None => insert_claim k {| cl_workflow_id := workflow_id; cl_acquired_at := now;
                              cl_updated_at := now |}
  | Some row =>
      if decide (cl_workflow_id row = workflow_id)
      then modify (with_claims (update_where (λ k' _, bool_decide (k' = k)) (touch_claim now)))
      else mret tt
  end.

(** [ORDER BY requirement_key, resource_namespace, resource_key, id] *)
Definition allocation_leb (a b : N * AllocationRow) : bool :=
  let ka := (ar_requirement_key a.2, ar_namespace a.2) in
  let kb := (ar_requirement_key b.2, ar_namespace b.2) in
  if decide (ka = kb) then
    if decide (ar_key a.2 = ar_key b.2) then (a.1 <=? b.1)%N
    else String.leb (ar_key a.2) (ar_key b.2)
  else str_pair_leb ka kb.

Definition allocation_of_row (row : N * AllocationRow) : ResourceAllocation :=
  {| ra_id := row.1; ra_requirement_key := ar_requirement_key row.2;
     ra_resource := resource_key (ar_namespace row.2) (ar_key row.2);
     ra_quantity := ar_quantity row.2; ra_state := AllocActive |}.

Definition push_allocation (set : AllocationSet) (a : ResourceAllocation) : AllocationSet :=
  <[ra_requirement_key a := default [] (set !! ra_requirement_key a) ++ [a]]> set.

(** [list_active_allocations_in] *)
Definition list_active_allocations_in (item_id : WorkItemId) : rtx AllocationSet :=
  gets (λ d, foldl push_allocation ∅ (allocation_of_row <$> sort_by allocation_leb
    (select (λ _ a, bool_decide (ar_item_id a = item_id) && is_active_allocation a)
       (allocations d)))).

(** [release_active_allocation_in] *)
Definition release_active_allocation_in (workflow_id : WorkflowId) (now_ms : Z)
    (allocation : ResourceAllocation) : rtx unit :=
  parts ← lift (persisted_parts (ra_resource allocation));
  _ ← update_allocations
        (λ k a, bool_decide (k = ra_id allocation) && is_active_allocation a)
        (release_allocation_row now_ms);
  if is_exclusive_namespace parts.1 then
    d ← get;
    if exists_row (λ _ a, is_active_allocation a && owned_by d workflow_id (ar_item_id a)
                          && bool_decide (ar_namespace a = parts.1)
                          && bool_decide (ar_key a = parts.2)) (allocations d)
    then mret tt
    else modify (with_claims (delete_where (λ k r,
           bool_decide (cl_workflow_id r = workflow_id) && bool_decide (k = parts))))
  else mret tt.

(** ** Affinity *)

(** The inner loop of [candidate_supports_affined_dependents]: how many candidates
    with the parent's identity could serve the dependent. *)
Definition count_dependents (identity : string) (dependent : ResourceRequirement)
    (candidates : list AllocationCandidate) (workflow_id : WorkflowId) (requested : Z) : rtx Z :=
  fold_each (λ eligible c,
    if bool_decide (resource_identity_key (ac_resource c) ≠ identity)
       || negb (candidate_matches_requirement c dependent)
    then mret eligible
    else
      active ← active_quantity (resource_to_string (ac_resource c));
      let available := default i64_max (i64_try_from (ac_available_quantity c)) in
      if decide (saturating_sub_i64 available active < requested) then mret eligible
      else
        parts ← lift (persisted_parts (ac_resource c));
        blocked ← (if is_exclusive_namespace parts.1 then
                     conflict ← physical_claim_conflict_in (ac_resource c) workflow_id;
                     mret (bool_decide (conflict ≠ None))
                   else mret false);
        if (blocked : bool) then mret eligible
        else mret (Z.min usize_max (eligible + 1))) 0 candidates.

(** The outer loop, over the dependents of the parent requirement. *)
Fixpoint supports_dependents (identity : string) (dependents : list ResourceRequirement)
    (candidates : list AllocationCandidate) (allocations : AllocationSet)
    (workflow_id : WorkflowId) : rtx bool :=
  match dependents with
  | [] => mret true
  | dependent :: dependents =>
      let existing_count := Z.of_nat (length (filter (λ a,
        resource_identity_key (ra_resource a) = identity)
        (default [] (allocations !! rq_key dependent)))) in
      if decide (rq_count dependent ≤ existing_count)
      then supports_dependents identity dependents candidates allocations workflow_id
      else
        requested ← lift (ok_or (i64_try_from (rq_quantity dependent))
                            (InvalidStoredWorkItemCount "required quantity" i64_max));
        eligible ← count_dependents identity dependent candidates workflow_id requested;
        let needed := Z.max 0 (rq_count dependent - existing_count) in
        if decide (eligible < needed) then mret false
        else supports_dependents identity dependents candidates allocations workflow_id
  end.

(** [candidate_supports_affined_dependents] *)
Definition candidate_supports_affined_dependents (candidate : AllocationCandidate)
    (parent_requirement : ResourceRequirement) (requirements : list ResourceRequirement)
    (candidates : list AllocationCandidate) (allocations : AllocationSet)
    (workflow_id : WorkflowId) (affinities : list (string * string)) : rtx bool :=
  supports_dependents (resource_identity_key (ac_resource candidate))
    (filter (λ r, affinity_parent (rq_key r) affinities = Some (rq_key parent_requirement))
       requirements)
    candidates allocations workflow_id.

(** ** Allocation *)

Section Requirement.
Context (item_id : WorkItemId) (workflow_id : WorkflowId) (updated_at_ms : Z)
  (requirements : list ResourceRequirement) (candidates : list AllocationCandidate)
  (affinities : list (string * string)) (fresh : string → ResourceKey → AllocationId).

Definition find_candidate (resource : ResourceKey) : option AllocationCandidate :=
  head (filter (λ c, ac_resource c = resource) candidates).

(** Keeps the allocations that pass the test and releases the others. *)
Definition retain (usable : ResourceAllocation → rtx bool) (selected : list ResourceAllocation)
    : rtx (list ResourceAllocation) :=
  fold_each (λ retained allocation,
    ok ← usable allocation;
    if (ok : bool) then mret (retained ++ [allocation])
    else _ ← release_active_allocation_in workflow_id updated_at_ms allocation; mret retained)
    [] selected.

(** The first retention pass: a parent must still match and support its dependents. *)
Definition usable_parent (requirement : ResourceRequirement) (set : AllocationSet)
    (allocation : ResourceAllocation) : rtx bool :=
  match find_candidate (ra_resource allocation) with
  | Some candidate =>
      if candidate_matches_requirement candidate requirement
      then candidate_supports_affined_dependents candidate requirement requirements candidates
             set workflow_id affinities
      else mret false
  | None => mret false
  end.

(** The second pass: a dependent must share its parent's identity and still match. *)
Definition usable_dependent (requirement : ResourceRequirement) (parent : string)
    (set : AllocationSet) (allocation : ResourceAllocation) : rtx bool :=
  let allowed_keys : gset string := list_to_set
    ((λ a, resource_identity_key (ra_resource a)) <$> default [] (set !! parent)) in
  mret (bool_decide (resource_identity_key (ra_resource allocation) ∈ allowed_keys)
        && existsb (λ c, bool_decide (ac_resource c = ra_resource allocation)
                         && candidate_matches_requirement c requirement) candidates).

(** One iteration of the selection loop of [allocate_requirements_with_policy]. *)
Definition consider_candidate (requirement : ResourceRequirement) (set : AllocationSet)
    (selected : list ResourceAllocation) (candidate : AllocationCandidate)
    : rtx (list ResourceAllocation) :=
  if decide (rq_count requirement ≤ Z.of_nat (length selected)) then mret selected
  else if negb (candidate_matches_kind_capabilities candidate requirement)
          || negb (candidate_matches_scope candidate (rq_scope requirement))
          || negb (candidate_matches_affinity candidate (rq_key requirement) affinities set)
  then mret selected
  else
    supported ← candidate_supports_affined_dependents candidate requirement requirements
                  candidates set workflow_id affinities;
    if negb supported then mret selected
    else
      let pool_key := resource_to_string (ac_resource candidate) in
      active ← active_quantity pool_key;
      pool ← gets (λ d, pools d !! pool_key);
      pool ← lift (ok_or pool Sql);
      requested ← lift (ok_or (i64_try_from (rq_quantity requirement))
                          (InvalidStoredWorkItemCount "required quantity" i64_max));
      if decide (saturating_sub_i64 (pl_available_quantity pool) active < requested)
      then mret selected
      else
        parts ← lift (persisted_parts (ac_resource candidate));
        busy ← gets (λ d, bool_decide (parts.1 = "replicant")
          && exists_row (λ _ s, bool_decide (as_worker_namespace s = parts.1)
               && bool_decide (as_worker_key s = parts.2) && is_unreleased_assignment s)
               (assignments d));
        if (busy : bool) then mret selected
        else
          claimed ← (if is_exclusive_namespace parts.1 then
                       conflict ← physical_claim_conflict_in (ac_resource candidate) workflow_id;
                       mret (bool_decide (conflict ≠ None))
                     else mret false);
          if (claimed : bool) then mret selected
          else
            let allocation := {| ra_id := fresh (rq_key requirement) (ac_resource candidate);
              ra_requirement_key := rq_key requirement; ra_resource := ac_resource candidate;
              ra_quantity := rq_quantity requirement; ra_state := AllocActive |} in
            _ ← insert_allocation (ra_id allocation)
                  {| ar_item_id := item_id; ar_requirement_key := rq_key requirement;
                     ar_pool_key := pool_key; ar_namespace := parts.1; ar_key := parts.2;
                     ar_quantity := requested; ar_state := AllocActive;
                     ar_created_at_ms := ac_observed_at_ms candidate;
                     ar_updated_at_ms := ac_observed_at_ms candidate |};
            _ ← (if is_exclusive_namespace parts.1
                 then upsert_claim parts workflow_id (ac_observed_at_ms candidate)
                 else mret tt);
            mret (selected ++ [allocation]).

(** One iteration of the requirement loop. *)
Definition allocate_requirement (set : AllocationSet) (requirement : ResourceRequirement)
    : rtx AllocationSet :=
  let selected := default [] (set !! rq_key requirement) in
  let set := delete (rq_key requirement) set in
  selected ← (if existsb (λ pair : string * string, bool_decide (pair.2 = rq_key requirement))
                   affinities
              then retain (usable_parent requirement set) selected else mret selected);
  selected ← match affinity_parent (rq_key requirement) affinities with
             | Some parent => retain (usable_dependent requirement parent set) selected
             | None => mret selected
             end;
  selected ← fold_each (consider_candidate requirement set) selected candidates;
  let selected_count := Z.min u32_max (Z.of_nat (length selected)) in
  if decide (selected_count < rq_count requirement)
  then fail (AllocationShortage (rq_key requirement) (rq_count requirement - selected_count))
  else mret (<[rq_key requirement := selected]> set).

End Requirement.

(** [ordered_candidates.sort_by(resource_sort_key)] *)
Definition order_candidates (candidates : list AllocationCandidate) : list AllocationCandidate :=
  sort_by (λ a b, String.leb (resource_to_string (ac_resource a))
                    (resource_to_string (ac_resource b))) candidates.

(** The release of the retired requirement keys. *)
Definition release_ignored (workflow_id : WorkflowId) (updated_at_ms : Z)
    (ignored : list string) (set : AllocationSet) : rtx AllocationSet :=
  fold_each (λ set key,
    match set !! key with
    | Some allocations =>
        _ ← for_each (release_active_allocation_in workflow_id updated_at_ms) allocations;
        mret (delete key set)
    | None => mret set
    end) set ignored.

(** [allocate_requirements_with_policy] *)
Definition allocate_requirements_with_policy (item_id : WorkItemId) (expected_revision : Z)
    (candidates : list AllocationCandidate) (affinities : list (string * string))
    (ignored_requirement_keys : list string) (fresh : string → ResourceKey → AllocationId)
    : rtx AllocationSet :=
  item ← require_work_item item_id;
  _ ← lift (verify_work_item_revision item_id item expected_revision);
  let workflow_id := sp_workflow_id (it_spec item) in
  let updated_at_ms := st_updated_at_ms (it_state item) in
  owner ← require_workflow workflow_id;
  if WorkflowStatus.is_terminal (wf_status owner)
     || WorkItemStatus.is_terminal (st_status (it_state item))
  then fail (TerminalWorkItemOwner workflow_id)
  else
    requirements ← lift (ok_or (requirements_from_value (sp_requirements_json (it_spec item)))
                           Serialization);
    let ignored := sort_by String.leb (remove_dups ignored_requirement_keys) in
    set ← list_active_allocations_in item_id;
    set ← release_ignored workflow_id updated_at_ms ignored set;
    let requirements := filter (λ r, rq_key r ∉ ignored) requirements in
    let ordered := order_candidates candidates in
    _ ← for_each observe_candidate ordered;
    fold_each (allocate_requirement item_id workflow_id updated_at_ms requirements ordered
                 affinities fresh) set requirements.

(** [allocate_requirements_with_affinity] and [allocate_requirements] *)
Definition allocate_requirements_with_affinity (item_id : WorkItemId) (expected_revision : Z)
    (candidates : list AllocationCandidate) (affinities : list (string * string))
    (fresh : string → ResourceKey → AllocationId) : rtx AllocationSet :=
  allocate_requirements_with_policy item_id expected_revision candidates affinities [] fresh.
Definition allocate_requirements (item_id : WorkItemId) (expected_revision : Z)
    (candidates : list AllocationCandidate) (fresh : string → ResourceKey → AllocationId)
    : rtx AllocationSet :=
  allocate_requirements_with_affinity item_id expected_revision candidates [] fresh.

(** ** Replacement *)

Definition kill_allocation_row (now_ms : Z) (a : AllocationRow) : AllocationRow :=
  {| ar_item_id := ar_item_id a; ar_requirement_key := ar_requirement_key a;
     ar_pool_key := ar_pool_key a; ar_namespace := ar_namespace a; ar_key := ar_key a;
     ar_quantity := ar_quantity a; ar_state := AllocDead;
     ar_created_at_ms := ar_created_at_ms a; ar_updated_at_ms := now_ms |}.

(** Whether a candidate of the replacement loop is skipped before its pool is
    looked at. *)
Definition replacement_mismatch (candidate : AllocationCandidate)
    (requirement : ResourceRequirement) (requirements : list ResourceRequirement)
    (ordered : list AllocationCandidate) (set : AllocationSet) (workflow_id : WorkflowId)
    (affinities : list (string * string)) : rtx bool :=
  if negb (candidate_matches_scope candidate (rq_scope requirement))
     || negb (candidate_matches_affinity candidate (rq_key requirement) affinities set)
  then mret true
  else
    supported ← candidate_supports_affined_dependents candidate requirement requirements
                  ordered set workflow_id affinities;
    mret (negb supported).

(** The candidate loop of [replace_dead_allocation_with_affinity]: the replacement,
    if one was inserted, and whether an owned candidate of the right kind was seen. *)
Fixpoint replacement_loop (item_id : WorkItemId) (workflow_id : WorkflowId)
    (dead : string * string) (quantity : Z) (requirement : ResourceRequirement)
    (requirements : list ResourceRequirement) (ordered : list AllocationCandidate)
    (set : AllocationSet) (affinities : list (string * string)) (now_ms : Z)
    (fresh : AllocationId) (eligible_owned : bool) (rest : list AllocationCandidate)
    : rtx (option ResourceAllocation * bool) :=
  match rest with
  | [] => mret (None, eligible_owned)
  | candidate :: rest =>
      let continue b := replacement_loop item_id workflow_id dead quantity requirement
        requirements ordered set affinities now_ms fresh b rest in
      if negb (candidate_matches_kind_capabilities candidate requirement)
      then continue eligible_owned
      else
        mismatch ← replacement_mismatch candidate requirement requirements ordered set
                     workflow_id affinities;
        if (mismatch : bool) then continue true
        else
          parts ← lift (persisted_parts (ac_resource candidate));
          if decide (parts = dead) then continue true
          else
            let pool_key := resource_to_string (ac_resource candidate) in
            active ← active_quantity pool_key;
            let available := default i64_max (i64_try_from (ac_available_quantity candidate)) in
            if decide (saturating_sub_i64 available active < quantity) then continue true
            else
              busy ← gets (λ d, bool_decide (parts.1 = "replicant")
                && exists_row (λ _ s, bool_decide (as_worker_namespace s = parts.1)
                     && bool_decide (as_worker_key s = parts.2) && is_unreleased_assignment s)
                     (assignments d));
              if (busy : bool) then continue true
              else
                claimed ← (if is_exclusive_namespace parts.1 then
                    conflict ← physical_claim_conflict_in (ac_resource candidate) workflow_id;
                    mret (bool_decide (conflict ≠ None))
                  else mret false);
                if (claimed : bool) then continue true
                else
                  revision ← lift (ok_or (i64_try_from (ac_observed_revision candidate))
                                     (RevisionOutOfRange (ac_observed_revision candidate)));
                  let row := pool_of_candidate parts candidate available revision in
                  _ ← upsert_pool pool_key row (λ old,
                        {| pl_namespace := pl_namespace old; pl_key := pl_key old;
                           pl_kind := pl_kind old; pl_capabilities := pl_capabilities old;
                           pl_location := pl_location old;
                           pl_available_quantity := pl_available_quantity row;
                           pl_observed_revision := pl_observed_revision row;
                           pl_observed_at_ms := pl_observed_at_ms row |});
                  let replacement := {| ra_id := fresh; ra_requirement_key := rq_key requirement;
                    ra_resource := ac_resource candidate; ra_quantity := quantity;
                    ra_state := AllocActive |} in
                  _ ← insert_allocation fresh
                        {| ar_item_id := item_id; ar_requirement_key := rq_key requirement;
                           ar_pool_key := pool_key; ar_namespace := parts.1; ar_key := parts.2;
                           ar_quantity := quantity; ar_state := AllocActive;
                           ar_created_at_ms := now_ms; ar_updated_at_ms := now_ms |};
                  _ ← (if is_exclusive_namespace parts.1
                       then insert_claim parts {| cl_workflow_id := workflow_id;
                              cl_acquired_at := now_ms; cl_updated_at := now_ms |}
                       else mret tt);
                  mret (Some replacement, true)
  end.

(** [replace_dead_allocation_with_affinity] *)
Definition replace_dead_allocation_with_affinity (item_id : WorkItemId)
    (allocation_id : AllocationId) (candidates : list AllocationCandidate) (now_ms : Z)
    (affinities : list (string * string)) (fresh : AllocationId) : rtx ReplacementOutcome :=
  item ← require_work_item item_id;
  let workflow_id := sp_workflow_id (it_spec item) in
  row ← gets (λ d, match allocations d !! allocation_id with
                   | Some a => if bool_decide (ar_item_id a = item_id) && is_active_allocation a
                               then Some a else None
                   | None => None
                   end);
  row ← lift (ok_or row (WorkItemNotFound item_id));
  let dead := (ar_namespace row, ar_key row) in
  requirements ← lift (ok_or (requirements_from_value (sp_requirements_json (it_spec item)))
                         Serialization);
  requirement ← lift (ok_or (head (filter (λ r, rq_key r = ar_requirement_key row) requirements))
                        (AllocationShortage (ar_requirement_key row) 1));
  _ ← update_allocations (λ k _, bool_decide (k = allocation_id)) (kill_allocation_row now_ms);
  _ ← (if is_exclusive_namespace dead.1
       then modify (with_claims (delete_where (λ k r,
              bool_decide (k = dead) && bool_decide (cl_workflow_id r = workflow_id))))
       else mret tt);
  set ← list_active_allocations_in item_id;
  let ordered := order_candidates candidates in
  r ← replacement_loop item_id workflow_id dead (ar_quantity row) requirement requirements
        ordered set affinities now_ms fresh false ordered;
  match r with
  | (Some replacement, _) => mret (Replaced replacement)
  | (None, true) => mret ReplacementWaiting
  | (None, false) =>
      _ ← transition_work_item_in item_id item (TFailed "ReplacementUnavailable" None) now_ms;
      mret Unavailable
  end.

(** [replace_dead_allocation] *)
Definition replace_dead_allocation (item_id : WorkItemId) (allocation_id : AllocationId)
    (candidates : list AllocationCandidate) (now_ms : Z) (fresh : AllocationId)
    : rtx ReplacementOutcome :=
  replace_dead_allocation_with_affinity item_id allocation_id candidates now_ms [] fresh.

(** ** Reservations *)

Record ResourceReservation := {
  rv_allocation_id : AllocationId;
  rv_workflow_id : WorkflowId;
  rv_item_id : WorkItemId;
  rv_requirement_key : string;
  rv_resource : ResourceKey;
  rv_kind : string;
  rv_capabilities : list string;
  rv_location : option AllocationLocation;
  rv_quantity : Z;
  rv_created_at_ms : Z;
  rv_updated_at_ms : Z;
}.

(** The join of [resource_reservations_in] at one allocation row. *)
Definition reservation_of (d : DB) (workflow_id : option WorkflowId) (row : N * AllocationRow)
    : option ResourceReservation :=
  let a := row.2 in
  if negb (is_active_allocation a) then None
  else
    item ← work_items d !! ar_item_id a;
    let w := sp_workflow_id (it_spec item) in
    workflow ← instances d !! w;
    pool ← pools d !! ar_pool_key a;
    if negb (WorkItemStatus.is_terminal (st_status (it_state item)))
       && negb (WorkflowStatus.is_terminal (wf_status workflow))
       && match workflow_id with None => true | Some id => bool_decide (w = id) end
    then Some {| rv_allocation_id := row.1; rv_workflow_id := w; rv_item_id := ar_item_id a;
                 rv_requirement_key := ar_requirement_key a;
                 rv_resource := resource_key (ar_namespace a) (ar_key a);
                 rv_kind := pl_kind pool; rv_capabilities := pl_capabilities pool;
                 rv_location := pl_location pool; rv_quantity := ar_quantity a;
                 rv_created_at_ms := ar_created_at_ms a; rv_updated_at_ms := ar_updated_at_ms a |}
    else None.

(** [ORDER BY workflow_id, item_id, requirement_key, id] *)
Definition reservation_leb (a b : ResourceReservation) : bool :=
  if decide (rv_workflow_id a = rv_workflow_id b) then
    if decide (rv_item_id a = rv_item_id b) then
      if decide (rv_requirement_key a = rv_requirement_key b)
      then (rv_allocation_id a <=? rv_allocation_id b)%N
      else String.leb (rv_requirement_key a) (rv_requirement_key b)
    else (rv_item_id a <=? rv_item_id b)%N
  else (rv_workflow_id a <=? rv_workflow_id b)%N.

(** [resource_reservations_in] *)
Definition resource_reservations_in (workflow_id : option WorkflowId)
    : rtx (list ResourceReservation) :=
  gets (λ d, sort_by reservation_leb
    (omap (reservation_of d workflow_id) (map_to_list (allocations d)))).

(** [active_resource_reservations] and [workflow_resource_reservations] *)
Definition active_resource_reservations : rtx (list ResourceReservation) :=
  resource_reservations_in None.
Definition workflow_resource_reservations (workflow_id : WorkflowId)
    : rtx (list ResourceReservation) :=
  resource_reservations_in (Some workflow_id).

End Allocation.

(** * The broker keeps the database in order *)

Section BrokerFacts.
Context `{SD : Serde} `{RO : RowOrder}.
Implicit Types d : DB.

(** ** Reads *)

Lemma active_quantity_Ok key d q d' :
  active_quantity key d = Ok (q, d') → d' = d ∧ q = active_sum d key.
Proof. unfold active_quantity. intros. by tx_inv. Qed.

Lemma count_dependents_read_only identity dependent candidates wid requested d n d' :
  count_dependents identity dependent candidates wid requested d = Ok (n, d') → d' = d.
Proof.
  apply (fold_each_inv (λ _ d', d' = d)); [|done].
  intros c acc d1 acc' d2 _ -> H. destruct (_ || _); [by tx_inv|].
  apply tx_bind_Ok in H as (q&d3&Hq&H). apply active_quantity_Ok in Hq as [-> _].
  cbv zeta in H. case_decide; [by tx_inv|].
  apply tx_bind_Ok in H as (parts&d3&Hp&H). apply lift_Ok in Hp as [_ ->].
  apply tx_bind_Ok in H as (blocked&d3&Hb&H).
  assert (d3 = d) as -> by (destruct (is_exclusive_namespace parts.1); tx_inv;
    eauto using conflict_read_only).
  destruct blocked; by tx_inv.
Qed.

Lemma supports_dependents_read_only identity dependents candidates set wid d b d' :
  supports_dependents identity dependents candidates set wid d = Ok (b, d') → d' = d.
Proof.
  induction dependents as [|r dependents IH]; simpl; intros H; [by tx_inv|].
  case_decide; [auto|]. apply tx_bind_Ok in H as (q&d1&Hq&H). apply lift_Ok in Hq as [_ ->].
  apply tx_bind_Ok in H as (n&d1&Hn&H). apply count_dependents_read_only in Hn as ->.
  case_decide; [by tx_inv|auto].
Qed.

(** The claim test of a candidate: when it passes, nobody else owns the resource. *)
Lemma claim_test_Ok resource wid k d b d' :
  persisted_parts resource = Ok k →
  (if is_exclusive_namespace k.1 then
     conflict ← physical_claim_conflict_in resource wid;
     mret (bool_decide (conflict ≠ None))
   else mret false) d = Ok (b, d') →
  d' = d ∧ (b = false → is_exclusive_namespace k.1 = true →
    ∀ k' r', claims_table d !! k' = Some r' → same_resource k k' → cl_workflow_id r' = wid).
Proof.
  intros Hk H. destruct (is_exclusive_namespace k.1); [|tx_inv; by split].
  apply tx_bind_Ok in H as (c&d1&Hc&H). assert (d1 = d) as -> by by eapply conflict_read_only.
  tx_inv. split; [done|]. intros Hb _. apply bool_decide_eq_false, dec_stable in Hb. subst.
  by apply (conflict_None _ _ _ _ _ Hk) in Hc as [_ ?].
Qed.

(** ** Steps on behalf of one item *)

Section Item.
Context (item_id : N) (wid : N).

(** The item is unfinished and its workflow is live. *)
Definition serves d : Prop :=
  (∃ i, work_items d !! item_id = Some i ∧
     WorkItemStatus.is_terminal (st_status (it_state i)) = false) ∧ live d wid.

Record broker_step d d' : Prop := {
  bs_instances : instances d' = instances d;
  bs_items : work_items d' = work_items d;
  bs_attempts : attempts d' = attempts d;
  bs_assignments : assignments d' = assignments d;
  bs_ok : serves d → db_ok d → db_ok d';
}.

Lemma serves_step d d' : broker_step d d' → serves d → serves d'.
Proof. intros [Hi Hw _ _ _]. unfold serves, live. by rewrite Hi, Hw. Qed.

#[global] Instance broker_step_preorder : PreOrder broker_step.
Proof.
  split; [done|]. intros d1 d2 d3 H12 H23. assert (Hs := serves_step _ _ H12).
  destruct H12 as [? ? ? ? O1], H23 as [? ? ? ? O2].
  split; try congruence. intros Hsv Hok. apply O2; auto.
Qed.

Lemma broker_step_db d d' : broker_step d d' → serves d → db_step d d'.
Proof.
  intros [Hi Hw _ _ Hok] Hs. split; [auto|..].
  - rewrite Hi. intros id w w' ??. simplify_eq. apply instance_evolves_refl.
  - rewrite Hw. intros id i i' ??. by simplify_eq.
Qed.

(** Item tables in which only allocations and pools change. *)
Lemma items_ok_allocations d d' :
  instances d' = instances d → work_items d' = work_items d → attempts d' = attempts d →
  assignments d' = assignments d →
  (∀ k, is_Some (pools d !! k) → is_Some (pools d' !! k)) →
  allocations_shrink (allocations d) (allocations d') → items_ok d → items_ok d'.
Proof.
  intros Ei Ew Ea Es Hp Hsh [Ho Hd Ha Hai Hal Halu Has Hasu].
  split; rewrite ?Ei, ?Ew, ?Ea, ?Es; auto; [|by eapply allocations_unique_shrink].
  intros k a Hk. destruct (Hsh _ _ Hk) as (b&Hb&->&_&->&_&_&->&Hact).
  destruct (Hal _ _ Hb) as (?&?&i&?&?). split_and!; eauto.
Qed.

Lemma broker_step_shrink d d' :
  instances d' = instances d → work_items d' = work_items d → attempts d' = attempts d →
  assignments d' = assignments d →
  (∀ k, is_Some (pools d !! k) → is_Some (pools d' !! k)) →
  allocations_shrink (allocations d) (allocations d') →
  claims_sub (claims_table d) (claims_table d') → broker_step d d'.
Proof.
  intros Ei Ew Ea Es Hp Hsh Hc. split; [done..|]. intros _ [Hco Hio]. split.
  - unfold claims_ok, live. rewrite Ei. by apply (claims_ok_sub _ d).
  - by apply (items_ok_allocations d).
Qed.

Lemma broker_step_claims d d' : claims_step d d' → broker_step d d'.
Proof.
  intros Hs. assert (H := db_step_of_claims _ _ Hs). destruct Hs as [[t ->] _].
  split; [done..|]. intros _. apply H.
Qed.

Lemma upsert_pool_step key row merge d u d' :
  upsert_pool key row merge d = Ok (u, d') → broker_step d d'.
Proof.
  unfold upsert_pool, bump_intelligence. intros. tx_inv; try reflexivity.
  all: apply broker_step_shrink; simpl; try done; intros k Hk;
    rewrite lookup_insert_is_Some'; auto.
Qed.

Lemma observe_candidate_step c d u d' : observe_candidate c d = Ok (u, d') → broker_step d d'.
Proof. unfold observe_candidate. intros. tx_inv. by eapply upsert_pool_step. Qed.

Lemma insert_allocation_step id a d u d' :
  ar_item_id a = item_id → insert_allocation id a d = Ok (u, d') → broker_step d d'.
Proof.
  intros Hitem H. unfold insert_allocation, bump_intelligence in H. tx_inv. destruct_and!.
  match goal with H : exists_row _ _ = false |- _ => rename H into Hex end.
  match goal with H : allocations d !! id = None |- _ => rename H into Hnone end.
  split; [done..|]. intros [(i&Hi&Hit) _] [Hc [Ho Hd Ha Hai Hal Halu Has Hasu]].
  split; [by apply (claims_ok_sub (live d) d)|].
  split; simpl; auto.
  - intros k b [[<- <-]|[_ Hb]]%lookup_insert_Some; [|eauto]. split_and!; [done..|].
    exists i. by rewrite Hitem.
  - assert (Hfree : ∀ k b, allocations d !! k = Some b → is_active_allocation b = true →
      ar_item_id b = ar_item_id a → ar_requirement_key b = ar_requirement_key a →
      ar_namespace b = ar_namespace a → ar_key b = ar_key a → False).
    { intros k b Hb Hact E1 E2 E3 E4. apply (proj1 (exists_row_false _ _) Hex) in Hb.
      by rewrite Hact, !bool_decide_eq_true_2 in Hb. }
    intros k1 k2 a1 a2 [[<- <-]|[_ B1]]%lookup_insert_Some [[<- <-]|[_ B2]]%lookup_insert_Some
      ? ? ? ? ? ?; [done|exfalso; eauto using eq_sym..|by eapply Halu].
Qed.

Lemma insert_claim_step k row d u d' resource :
  cl_workflow_id row = wid → persisted_parts resource = Ok k →
  (∀ k' r', claims_table d !! k' = Some r' → same_resource k k' → cl_workflow_id r' = wid) →
  insert_claim k row d = Ok (u, d') → broker_step d d'.
Proof.
  intros Hown Hk Hfree [-> _]%insert_claim_Ok. split; [done..|].
  intros [_ Hlive] [Hc Hi]. split; [|by apply (items_ok_same d); [|eauto|]].
  apply (claims_ok_insert (live d)); [done|by rewrite Hown|by rewrite Hown|eauto].
Qed.

Lemma upsert_claim_step k now d u d' resource :
  persisted_parts resource = Ok k →
  (∀ k' r', claims_table d !! k' = Some r' → same_resource k k' → cl_workflow_id r' = wid) →
  upsert_claim k wid now d = Ok (u, d') → broker_step d d'.
Proof.
  intros Hk Hfree H. unfold upsert_claim in H. apply tx_bind_Ok in H as (o&d1&Ho&H).
  unfold gets in Ho. injection Ho as <- <-. destruct (claims_table d !! k).
  - case_decide; tx_inv; [|done]. apply broker_step_shrink; try done. apply claims_sub_touch.
  - by eapply (insert_claim_step k _ d _ _ resource); [|done|done|exact H].
Qed.

Lemma release_active_allocation_step now a d u d' :
  release_active_allocation_in wid now a d = Ok (u, d') → broker_step d d'.
Proof.
  unfold release_active_allocation_in, update_allocations, bump_intelligence. intros. tx_inv.
  all: apply broker_step_shrink; simpl; try done; try apply allocations_shrink_release.
  apply claims_sub_delete.
Qed.

Lemma retain_step now usable selected d l d' :
  (∀ a d b d', usable a d = Ok (b, d') → d' = d) →
  retain wid now usable selected d = Ok (l, d') → broker_step d d'.
Proof.
  intros Hu. apply (fold_each_inv (λ _ d', broker_step d d')); [|done].
  intros a acc d1 acc' d2 _ Hs H. apply tx_bind_Ok in H as (b&d3&Hb&H).
  apply Hu in Hb as ->. destruct b; tx_inv; [done|].
  etrans; [done|]. by eapply release_active_allocation_step.
Qed.

End Item.

(** ** Quantities in use *)

Definition in_use (key : string) (a : AllocationRow) : Z :=
  if bool_decide (ar_pool_key a = key) && is_active_allocation a then ar_quantity a else 0.

Lemma active_sum_fold d key :
  active_sum d key = map_fold (λ _ a acc, in_use key a + acc) 0 (allocations d).
Proof.
  unfold active_sum, select. rewrite map_fold_foldr.
  induction (map_to_list (allocations d)) as [|[k a] l IH]; [done|].
  rewrite filter_cons. cbn [foldr uncurry fst snd]. unfold in_use at 1.
  destruct (bool_decide (ar_pool_key a = key) && is_active_allocation a) eqn:E.
  - rewrite decide_True by done. rewrite fmap_cons. cbn [foldr]. by f_equal.
  - rewrite decide_False by (simpl; congruence). by rewrite Z.add_0_l.
Qed.

Lemma sum_insert key (t : gmap N AllocationRow) id a :
  t !! id = None →
  map_fold (λ _ a acc, in_use key a + acc) 0 (<[id := a]> t)
  = in_use key a + map_fold (λ _ a acc, in_use key a + acc) 0 t.
Proof.
  intros. apply (map_fold_insert_L (λ (_ : N) a acc, in_use key a + acc) 0 id a t);
    [intros; lia|done].
Qed.

(** Releasing and deleting rows never raises the quantity in use. *)
Lemma sum_shrink key (t t' : gmap N AllocationRow) :
  allocations_shrink t t' → (∀ k a, t !! k = Some a → 0 < ar_quantity a) →
  map_fold (λ _ a acc, in_use key a + acc) 0 t' ≤ map_fold (λ _ a acc, in_use key a + acc) 0 t.
Proof.
  assert (Hpos : ∀ a, 0 < ar_quantity a → 0 ≤ in_use key a)
    by (intros a ?; unfold in_use; destruct (_ && _); lia).
  revert t. induction t' as [|k a' t' Hk IH] using map_ind; intros t Hs Hq.
  - clear Hs. induction t as [|k a t Hk IHt] using map_ind; [done|].
    rewrite map_fold_empty in *. rewrite sum_insert by done.
    assert (0 < ar_quantity a) by (apply (Hq k); by rewrite lookup_insert_eq).
    assert (0 ≤ map_fold (λ _ a acc, in_use key a + acc) 0 t).
    { apply IHt. intros k' b Hb. apply (Hq k'). rewrite lookup_insert_ne; [done|]. congruence. }
    specialize (Hpos a). lia.
  - destruct (Hs k a') as (a&Ha&_&_&E2&_&_&E3&Hact); [by rewrite lookup_insert_eq|].
    rewrite <-(insert_delete_id _ _ _ Ha). rewrite !sum_insert by (done || apply lookup_delete_eq).
    assert (in_use key a' ≤ in_use key a).
    { assert (0 < ar_quantity a) by eauto. unfold in_use. rewrite E2, E3.
      destruct (is_active_allocation a'); [rewrite Hact by done; lia|].
      rewrite andb_false_r. destruct (_ && _); lia. }
    assert (map_fold (λ _ a acc, in_use key a + acc) 0 t'
            ≤ map_fold (λ _ a acc, in_use key a + acc) 0 (delete k t)); [|lia].
    apply IH.
    + intros k' b Hb. assert (k' ≠ k) by congruence.
      destruct (Hs k' b) as (b0&Hb0&?); [by rewrite lookup_insert_ne|].
      exists b0. by rewrite lookup_delete_ne.
    + intros k' b [_ Hb]%lookup_delete_Some. eauto.
Qed.

(** ** Selection *)

Section Selection.
Context (item_id wid : N) (updated : Z) (requirements : list ResourceRequirement)
  (candidates : list AllocationCandidate) (affinities : list (string * string))
  (fresh : string → ResourceKey → N).

Lemma saturating_sub_room a b q : 0 < q → ¬ saturating_sub_i64 a b < q → b + q ≤ a.
Proof. machine_ints. lia. Qed.

(** Usage is bounded: a pool is used no more than before or within its capacity. *)
Definition within_capacity d d' : Prop :=
  pools d' = pools d ∧
  ∀ key, active_sum d' key ≤ active_sum d key ∨
    ∃ pool, pools d !! key = Some pool ∧ active_sum d' key ≤ pl_available_quantity pool.

Lemma within_capacity_refl d : within_capacity d d.
Proof. split; [done|]. intros. left. lia. Qed.

Lemma within_capacity_trans d1 d2 d3 :
  within_capacity d1 d2 → within_capacity d2 d3 → within_capacity d1 d3.
Proof.
  intros [P1 C1] [P2 C2]. split; [congruence|]. intros key.
  destruct (C2 key) as [H2|(pool&Hp&H2)].
  - destruct (C1 key) as [H1|(pool&Hp&H1)]; [left; lia|]. right. exists pool. split; [done|lia].
  - right. exists pool. rewrite <-P1. done.
Qed.

Lemma within_capacity_shrink d d' :
  pools d' = pools d → allocations_shrink (allocations d) (allocations d') →
  items_ok d → within_capacity d d'.
Proof.
  intros Hp Hs Hok. split; [done|]. intros key. left. rewrite !active_sum_fold.
  apply sum_shrink; [done|]. intros k a Ha. by destruct (ok_allocation _ Hok _ _ Ha).
Qed.

(** A step of the loops: the invariant and the capacities are kept. *)
Definition selects d d' : Prop :=
  broker_step item_id wid d d' ∧ (serves item_id wid d → db_ok d → within_capacity d d').

Lemma selects_refl d : selects d d.
Proof. split; [done|]. intros. apply within_capacity_refl. Qed.

Lemma selects_trans d1 d2 d3 : selects d1 d2 → selects d2 d3 → selects d1 d3.
Proof.
  intros [S1 C1] [S2 C2]. split; [by etrans|]. intros Hs Hok.
  eapply within_capacity_trans; [auto|]. apply C2; [by eapply serves_step|].
  by apply (bs_ok _ _ _ _ S1).
Qed.

Lemma release_selects now a d u d' :
  release_active_allocation_in wid now a d = Ok (u, d') → selects d d'.
Proof.
  intros H. split; [by eapply release_active_allocation_step|]. intros _ [_ Hi].
  revert H. unfold release_active_allocation_in, update_allocations, bump_intelligence. intros.
  tx_inv; (apply within_capacity_shrink; [done| |done]); apply allocations_shrink_release.
Qed.

Lemma retain_selects usable selected d l d' :
  (∀ a d b d', usable a d = Ok (b, d') → d' = d) →
  retain wid updated usable selected d = Ok (l, d') → selects d d'.
Proof.
  intros Hu. apply (fold_each_inv (λ _ d', selects d d')); [|apply selects_refl].
  intros a acc d1 acc' d2 _ Hs H. apply tx_bind_Ok in H as (b&d3&Hb&H).
  apply Hu in Hb as ->. destruct b; tx_inv; [done|].
  eapply selects_trans; [done|]. by eapply release_selects.
Qed.

Lemma usable_parent_read_only requirement set a d b d' :
  usable_parent wid requirements candidates affinities requirement set a d = Ok (b, d') → d' = d.
Proof.
  unfold usable_parent, candidate_supports_affined_dependents. intros H.
  destruct (find_candidate candidates (ra_resource a)); [|by tx_inv].
  destruct (candidate_matches_requirement _ _); [|by tx_inv].
  by eapply supports_dependents_read_only.
Qed.

Lemma insert_allocation_Ok id a d u d' :
  insert_allocation id a d = Ok (u, d') →
  d' = with_intelligence_revision (intelligence_revision d + 1)
         (with_allocations (<[id := a]>) d) ∧
  allocations d !! id = None ∧ 0 < ar_quantity a.
Proof. unfold insert_allocation, bump_intelligence. intros. tx_inv. naive_solver. Qed.

(** What one iteration of the selection loop does: nothing, or one allocation of a
    candidate that matches the requirement, within the pool's capacity. *)
Lemma consider_candidate_Ok requirement set selected c d selected' d' :
  consider_candidate item_id wid requirements candidates affinities fresh
    requirement set selected c d = Ok (selected', d') →
  selects d d' ∧
  (selected' = selected ∨ ∃ a, selected' = selected ++ [a] ∧
     ra_requirement_key a = rq_key requirement ∧ ra_resource a = ac_resource c ∧
     ra_quantity a = rq_quantity requirement ∧
     candidate_matches_requirement c requirement = true ∧
     candidate_matches_affinity c (rq_key requirement) affinities set = true).
Proof.
  unfold consider_candidate. intros H. case_decide; [tx_inv; split; [apply selects_refl|by left]|].
  destruct (negb (candidate_matches_kind_capabilities c requirement) || _ || _) eqn:Hm;
    [tx_inv; split; [apply selects_refl|by left]|].
  apply orb_false_iff in Hm as [Hm Haff%negb_false_iff].
  apply orb_false_iff in Hm as [Hkind%negb_false_iff Hscope%negb_false_iff].
  apply tx_bind_Ok in H as (sup&d0&Hs&H). apply supports_dependents_read_only in Hs as ->.
  destruct sup; simpl in H; [|tx_inv; split; [apply selects_refl|by left]]. cbv zeta in H.
  set (key := resource_to_string (ac_resource c)) in *.
  apply tx_bind_Ok in H as (active&d0&Ha&H). apply active_quantity_Ok in Ha as [-> ->].
  erewrite tx_bind_step in H by done.
  apply tx_bind_Ok in H as (pool&d0&Hpool&H). apply lift_Ok in Hpool as [Hpool ->].
  destruct (pools d !! key) as [pool'|] eqn:Epool; simpl in Hpool; [|done]. simplify_eq.
  apply tx_bind_Ok in H as (requested&d0&Hr&H). apply lift_Ok in Hr as [Hr ->].
  destruct (i64_try_from (rq_quantity requirement)) as [q|] eqn:Eq; [|done]. simplify_eq/=.
  case_decide as Hroom; [tx_inv; split; [apply selects_refl|by left]|].
  apply tx_bind_Ok in H as (parts&d0&Hp&H). apply lift_Ok in Hp as [Hp ->].
  erewrite tx_bind_step in H by done.
  destruct (_ && exists_row _ _); [tx_inv; split; [apply selects_refl|by left]|].
  apply tx_bind_Ok in H as (claimed&d0&Hc&H).
  apply (claim_test_Ok _ _ _ _ _ _ Hp) in Hc as [-> Hfree].
  destruct claimed; [tx_inv; split; [apply selects_refl|by left]|]. specialize (Hfree eq_refl).
  apply tx_bind_Ok in H as ([]&d1&Hins&H). apply tx_bind_Ok in H as ([]&d2&Hcl&H).
  unfold mret, tx_ret in H. injection H as <- <-. split.
  2: { right. eexists. split_and!; [done..| |done]. unfold candidate_matches_requirement.
       by rewrite Hkind, Hscope. }
  assert (H1 : broker_step item_id wid d d1)
    by (eapply insert_allocation_step; [|exact Hins]; done).
  apply insert_allocation_Ok in Hins as (Hd1&Hnone&Hq). simpl in Hq.
  assert (H2 : broker_step item_id wid d1 d2 ∧ pools d2 = pools d1 ∧
    allocations d2 = allocations d1).
  { destruct (is_exclusive_namespace parts.1) eqn:Ex; [|tx_inv; by split].
    split; [eapply upsert_claim_step; [exact Hp| |exact Hcl]; rewrite Hd1; exact (Hfree eq_refl)|].
    unfold upsert_claim, insert_claim in Hcl. by tx_inv. }
  destruct H2 as (H2&Hpo&Hal). split; [by etrans|]. intros _ _.
  split; [by rewrite Hpo, Hd1|]. intros k. rewrite !active_sum_fold, Hal, Hd1. simpl. rewrite sum_insert by done.
  match goal with |- context [in_use k ?a + _] =>
    assert (in_use k a = if bool_decide (key = k) then requested else 0) as ->
      by (unfold in_use; simpl; by rewrite andb_true_r) end.
  case_bool_decide as Hk; [subst k|left; lia].
  right. exists pool. split; [done|]. rewrite <-active_sum_fold.
  apply saturating_sub_room in Hroom; [lia|done].
Qed.

Lemma consider_loop_Ok requirement set l selected d selected' d' :
  fold_each (consider_candidate item_id wid requirements candidates affinities fresh
    requirement set) selected l d = Ok (selected', d') →
  selects d d' ∧ ∃ new, selected' = selected ++ new ∧ ∀ a, a ∈ new →
    ra_requirement_key a = rq_key requirement ∧ ra_quantity a = rq_quantity requirement ∧
    ∃ c, c ∈ l ∧ ra_resource a = ac_resource c ∧
      candidate_matches_requirement c requirement = true ∧
      candidate_matches_affinity c (rq_key requirement) affinities set = true.
Proof.
  apply (fold_each_inv (λ selected' d', selects d d' ∧ ∃ new, selected' = selected ++ new ∧
    ∀ a, a ∈ new → ra_requirement_key a = rq_key requirement ∧
      ra_quantity a = rq_quantity requirement ∧
      ∃ c, c ∈ l ∧ ra_resource a = ac_resource c ∧
        candidate_matches_requirement c requirement = true ∧
        candidate_matches_affinity c (rq_key requirement) affinities set = true)).
  2: { split; [apply selects_refl|]. exists []. rewrite app_nil_r. split; [done|].
       by intros a ?%elem_of_nil. }
  intros c sel d1 sel' d2 Hin [Hs (new&->&Hnew)] H.
  apply consider_candidate_Ok in H as [Hs2 [->|(a&->&?&?&?&?&?)]].
  - split; [by eapply selects_trans|]. by exists new.
  - split; [by eapply selects_trans|]. exists (new ++ [a]). rewrite app_assoc. split; [done|].
    intros b [?| ->%list_elem_of_singleton]%elem_of_app; [auto|]. split_and!; [done..|].
    by exists c.
Qed.

(** What the requirement loop does for one requirement. *)
Lemma allocate_requirement_Ok set requirement d set' d' :
  allocate_requirement item_id wid updated requirements candidates affinities fresh
    set requirement d = Ok (set', d') →
  selects d d' ∧ ∃ selected, set' = <[rq_key requirement := selected]> (delete (rq_key requirement) set)
    ∧ rq_count requirement ≤ Z.of_nat (length selected).
Proof.
  unfold allocate_requirement. intros H. cbv zeta in H.
  apply tx_bind_Ok in H as (s1&d1&H1&H). apply tx_bind_Ok in H as (s2&d2&H2&H).
  apply tx_bind_Ok in H as (s3&d3&H3&H).
  assert (S1 : selects d d1).
  { destruct (existsb _ affinities); [|tx_inv; apply selects_refl].
    eapply retain_selects; [|exact H1]. intros. by eapply usable_parent_read_only. }
  assert (S2 : selects d1 d2).
  { destruct (affinity_parent _ affinities); [|tx_inv; apply selects_refl].
    eapply retain_selects; [|exact H2]. intros. unfold usable_dependent in *. by tx_inv. }
  apply consider_loop_Ok in H3 as [S3 _]. case_decide as Hc; [done|].
  unfold mret, tx_ret in H. injection H as <- <-. split.
  - eapply selects_trans; [done|]. by eapply selects_trans.
  - exists s3. split; [done|]. lia.
Qed.

Lemma requirement_loop_Ok l set d set' d' :
  fold_each (allocate_requirement item_id wid updated requirements candidates affinities fresh)
    set l d = Ok (set', d') →
  selects d d' ∧
  (NoDup (rq_key <$> l) → ∀ r, r ∈ l → ∃ selected, set' !! rq_key r = Some selected ∧
     rq_count r ≤ Z.of_nat (length selected)) ∧
  (∀ key, key ∉ rq_key <$> l → set' !! key = set !! key).
Proof.
  revert set d. induction l as [|r l IH]; intros set d H; cbn [fold_each] in H.
  { tx_inv. split_and!; [apply selects_refl| |done]. by intros _ r ?%elem_of_nil. }
  apply tx_bind_Ok in H as (set1&d1&H1&H2).
  apply allocate_requirement_Ok in H1 as (S1&selected&Hset1&Hcount).
  apply IH in H2 as (S2&Hall&Hframe). split_and!; [by eapply selects_trans|..].
  - rewrite fmap_cons. intros [Hni Hnd]%NoDup_cons r' [->|Hin]%elem_of_cons; [|auto].
    exists selected. split; [|done]. by rewrite Hframe, Hset1, lookup_insert_eq.
  - rewrite fmap_cons. intros key [Hne Hni]%not_elem_of_cons.
    by rewrite Hframe, Hset1, lookup_insert_ne, lookup_delete_ne.
Qed.

Lemma release_shrinks now a d u d' :
  release_active_allocation_in wid now a d = Ok (u, d') →
  allocations_shrink (allocations d) (allocations d').
Proof.
  unfold release_active_allocation_in, update_allocations, bump_intelligence. intros.
  tx_inv; apply allocations_shrink_release.
Qed.

Lemma release_ignored_Ok ignored set d set' d' :
  release_ignored wid updated ignored set d = Ok (set', d') →
  broker_step item_id wid d d' ∧ allocations_shrink (allocations d) (allocations d').
Proof.
  apply (fold_each_inv (λ _ d', broker_step item_id wid d d' ∧
    allocations_shrink (allocations d) (allocations d'))); [|done].
  intros key acc d1 acc' d2 _ Hs H. destruct (acc !! key); [|by tx_inv].
  apply tx_bind_Ok in H as ([]&d3&Hl&H). unfold mret, tx_ret in H. injection H as <- <-.
  revert Hl. apply (for_each_inv (λ d', broker_step item_id wid d d' ∧
    allocations_shrink (allocations d) (allocations d'))); [|done].
  intros a d4 [] d5 _ [Hs1 Hs2] Hr. split; [|by etrans; [done|eapply release_shrinks]].
  etrans; [done|]. by eapply release_active_allocation_step.
Qed.

End Selection.

(** ** The operations *)

Lemma observe_loop_step item wid candidates d u d' :
  for_each observe_candidate candidates d = Ok (u, d') →
  broker_step item wid d d' ∧ allocations d' = allocations d.
Proof.
  apply (for_each_inv (λ d', broker_step item wid d d' ∧ allocations d' = allocations d)); [|done].
  intros c d1 [] d2 _ [Hs Ha] H. split.
  - etrans; [done|]. by eapply observe_candidate_step.
  - rewrite <-Ha. unfold observe_candidate, upsert_pool, bump_intelligence in H. by tx_inv.
Qed.

(** What a committed allocation did. *)
Lemma allocate_with_policy_Ok item_id r candidates affinities ignored fresh d set d' :
  allocate_requirements_with_policy item_id r candidates affinities ignored fresh d = Ok (set, d') →
  ∃ i w requirements d1, work_items d !! item_id = Some i ∧
    instances d !! sp_workflow_id (it_spec i) = Some w ∧ st_revision (it_state i) = r ∧
    WorkflowStatus.is_terminal (wf_status w) = false ∧
    WorkItemStatus.is_terminal (st_status (it_state i)) = false ∧
    requirements_from_value (sp_requirements_json (it_spec i)) = Some requirements ∧
    (* the ignored allocations are released and the candidates observed, then *)
    broker_step item_id (sp_workflow_id (it_spec i)) d d1 ∧
    allocations_shrink (allocations d) (allocations d1) ∧
    selects item_id (sp_workflow_id (it_spec i)) d1 d' ∧
    (NoDup (rq_key <$> requirements) → ∀ q, q ∈ requirements → rq_key q ∉ ignored →
       ∃ selected, set !! rq_key q = Some selected ∧ rq_count q ≤ Z.of_nat (length selected)).
Proof.
  unfold allocate_requirements_with_policy. intros H.
  apply tx_bind_Ok in H as (i&d0&Hi&H). apply require_work_item_Ok in Hi as [-> Hi].
  apply tx_bind_Ok in H as ([]&d0&Hv&H). apply lift_Ok in Hv as [Hv ->].
  apply verify_revision_Ok in Hv. cbv zeta in H.
  apply tx_bind_Ok in H as (w&d0&Hw&H). apply require_workflow_Ok in Hw as [-> Hw].
  destruct (_ || _) eqn:Ht; [done|]. apply orb_false_iff in Ht as [Ht1 Ht2].
  apply tx_bind_Ok in H as (requirements&d0&Hr&H). apply lift_Ok in Hr as [Hr ->].
  destruct (requirements_from_value _) as [rs|] eqn:Ers; [|done]. simpl in Hr. simplify_eq.
  unfold list_active_allocations_in in H. erewrite tx_bind_step in H by done.
  apply tx_bind_Ok in H as (set1&d1&Hign&H). apply tx_bind_Ok in H as ([]&d2&Hobs&H).
  apply (release_ignored_Ok item_id) in Hign as [Sign Shr].
  apply (observe_loop_step item_id (sp_workflow_id (it_spec i))) in Hobs as [Sobs Aobs].
  apply requirement_loop_Ok in H as (Sel&Hall&_).
  exists i, w, requirements, d2. split_and!; auto.
  - by etrans.
  - by rewrite Aobs.
  - intros Hnd q Hq Hni. apply Hall.
    + eapply sublist_NoDup; [exact Hnd|]. apply fmap_sublist, sublist_filter.
    + apply list_elem_of_filter. split; [|done]. rewrite elem_of_sort_by, elem_of_remove_dups. done.
Qed.

Lemma allocate_with_policy_step item_id r candidates affinities ignored fresh d set d' :
  allocate_requirements_with_policy item_id r candidates affinities ignored fresh d = Ok (set, d') →
  db_step d d'.
Proof.
  intros (i&w&rs&d1&Hi&Hw&_&Hwt&Hit&_&S1&_&[S2 _]&_)%allocate_with_policy_Ok.
  apply (broker_step_db item_id (sp_workflow_id (it_spec i))); [by etrans|].
  split; [by exists i|by exists w].
Qed.


(** C14: allocation never overcommits: a pool whose quantity in use rises ends within
    the quantity last observed for it. *)
Theorem allocate_respects_capacity item_id r candidates affinities ignored fresh d set d' :
  db_ok d →
  allocate_requirements_with_policy item_id r candidates affinities ignored fresh d = Ok (set, d') →
  ∀ key, active_sum d key < active_sum d' key →
    ∃ pool, pools d' !! key = Some pool ∧ active_sum d' key ≤ pl_available_quantity pool.
Proof.
  intros Hok (i&w&rs&d1&Hi&Hw&_&Hwt&Hit&_&S1&Shr&[_ C2]&_)%allocate_with_policy_Ok key Hlt.
  assert (Hsv : serves item_id (sp_workflow_id (it_spec i)) d)
    by (split; [by exists i|by exists w]).
  destruct C2 as [Hp Hc]; [by eapply serves_step|by apply (bs_ok _ _ _ _ S1)|].
  assert (active_sum d1 key ≤ active_sum d key).
  { rewrite !active_sum_fold. apply sum_shrink; [done|]. intros k a Ha.
    destruct Hok as [_ Hok]. by destruct (ok_allocation _ Hok _ _ Ha). }
  rewrite Hp. destruct (Hc key) as [?|?]; [lia|done].
Qed.

(** ** Replacement *)

Lemma replacement_loop_step item wid dead quantity requirement requirements ordered set
    affinities now fresh b rest d o d' :
  replacement_loop item wid dead quantity requirement requirements ordered set affinities
    now fresh b rest d = Ok (o, d') → broker_step item wid d d'.
Proof.
  revert b d. induction rest as [|c rest IH]; intros b d H; cbn [replacement_loop] in H;
    [by tx_inv|]. cbv zeta in H.
  destruct (negb _); [by eauto|]. apply tx_bind_Ok in H as (mismatch&d0&Hm&H).
  assert (d0 = d) as ->.
  { unfold replacement_mismatch in Hm. destruct (_ || _); [by tx_inv|].
    apply tx_bind_Ok in Hm as (sup&d1&Hs&Hm). apply supports_dependents_read_only in Hs as ->.
    by tx_inv. }
  destruct mismatch; [by eauto|]. apply tx_bind_Ok in H as (parts&d0&Hp&H).
  apply lift_Ok in Hp as [Hp ->]. case_decide; [by eauto|].
  apply tx_bind_Ok in H as (active&d0&Ha&H). apply active_quantity_Ok in Ha as [-> _].
  case_decide; [by eauto|]. erewrite tx_bind_step in H by done.
  destruct (_ && exists_row _ _); [by eauto|]. apply tx_bind_Ok in H as (claimed&d0&Hc&H).
  apply (claim_test_Ok _ _ _ _ _ _ Hp) in Hc as [-> Hfree]. destruct claimed; [by eauto|].
  apply tx_bind_Ok in H as (revision&d0&Hr&H). apply lift_Ok in Hr as [_ ->].
  apply tx_bind_Ok in H as ([]&d1&Hpool&H). apply tx_bind_Ok in H as ([]&d2&Hins&H).
  apply tx_bind_Ok in H as ([]&d3&Hcl&H). unfold mret, tx_ret in H. injection H as <- <-.
  assert (Hc1 : claims_table d2 = claims_table d).
  { apply insert_allocation_Ok in Hins as (->&_). simpl.
    unfold upsert_pool, bump_intelligence in Hpool. by tx_inv. }
  etrans; [by eapply upsert_pool_step|].
  etrans; [eapply insert_allocation_step; [|exact Hins]; done|].
  destruct (is_exclusive_namespace parts.1); [|by tx_inv].
  eapply insert_claim_step; [|exact Hp| |exact Hcl]; [done|]. rewrite Hc1.
  exact (Hfree eq_refl eq_refl).
Qed.

Lemma replace_dead_allocation_step item_id allocation_id candidates now affinities fresh d o d' :
  db_ok d →
  replace_dead_allocation_with_affinity item_id allocation_id candidates now affinities fresh d
    = Ok (o, d') → db_step d d'.
Proof.
  intros Hok H. unfold replace_dead_allocation_with_affinity in H.
  apply tx_bind_Ok in H as (i&d0&Hi&H). apply require_work_item_Ok in Hi as [-> Hi].
  cbv zeta in H. erewrite tx_bind_step in H by done.
  apply tx_bind_Ok in H as (row&d0&Hrow&H). apply lift_Ok in Hrow as [Hrow ->].
  destruct (allocations d !! allocation_id) as [a|] eqn:Ea; [|done].
  destruct (bool_decide (ar_item_id a = item_id) && is_active_allocation a) eqn:Ec; [|done].
  simpl in Hrow. simplify_eq. apply andb_true_iff in Ec as [Eid%bool_decide_eq_true Eact].
  assert (Hsv : serves item_id (sp_workflow_id (it_spec i)) d).
  { destruct Hok as [_ Hok]. destruct (ok_allocation _ Hok _ _ Ea) as (_&_&j&Hj&Hjt).
    rewrite Eid, Hi in Hj. simplify_eq. split; [by exists j; auto|].
    destruct (ok_owner _ Hok _ _ Hi) as (w&Hw&Hwt). exists w. split; [done|].
    destruct (WorkflowStatus.is_terminal (wf_status w)); [|done].
    rewrite Hjt in Hwt by done. by specialize (Hwt eq_refl). }
  apply tx_bind_Ok in H as (rs&d0&Hrs&H). apply lift_Ok in Hrs as [_ ->].
  apply tx_bind_Ok in H as (rq&d0&Hrq&H). apply lift_Ok in Hrq as [_ ->].
  apply tx_bind_Ok in H as ([]&d1&Hkill&H). apply tx_bind_Ok in H as ([]&d2&Hdel&H).
  apply tx_bind_Ok in H as (set&d3&Hl&H). unfold list_active_allocations_in, gets in Hl.
  injection Hl as <- <-. apply tx_bind_Ok in H as ([o' seen]&d4&Hloop&H).
  assert (S1 : broker_step item_id (sp_workflow_id (it_spec i)) d d2).
  { unfold update_allocations, bump_intelligence in Hkill. tx_inv.
    all: apply broker_step_shrink; simpl; try done; try apply claims_sub_delete.
    all: intros k a' Ha'; apply lookup_update_where_Some in Ha' as (a0&?&->); exists a0;
      (split; [done|]); case_bool_decide; simpl; naive_solver. }
  assert (S2 : broker_step item_id (sp_workflow_id (it_spec i)) d d4)
    by (etrans; [done|by eapply replacement_loop_step]).
  assert (Hdb := broker_step_db _ _ _ _ S2 Hsv).
  destruct o' as [ra|]; [tx_inv; done|]. destruct seen; [tx_inv; done|].
  apply tx_bind_Ok in H as ([]&d5&Htr&H). unfold mret, tx_ret in H. injection H as <- <-.
  assert (S3 : items_step d4 d5)
    by (eapply transition_work_item_in_step; [|exact Htr]; by rewrite (bs_items _ _ _ _ S2)).
  assert (Hdb2 := db_step_of_items _ _ S3). destruct Hdb as [O1 I1 T1], Hdb2 as [O2 I2 T2].
  split; [auto|..].
  - rewrite (is_instances _ _ S3). done.
  - intros k j j' Hj Hj'. apply (T2 k); [|done]. by rewrite (bs_items _ _ _ _ S2).
Qed.

End BrokerFacts.

#[export] Hint Resolve allocate_with_policy_step : replicant.
