(* ===== verification/Invariants.v ===== *)
(** * Reachable databases

    The repository as a state machine: its operations, the databases a sequence of
    committed transactions can reach from an empty one, and what holds of all of
    them.  The second half is the ledger: the counters that readers use as
    watermarks never go back, and do move when the audited tables change. *)

From S2P Require Import Prelude Model Store Claims WorkItems WorkItemFacts Lifecycle Automation.
From S2P Require Import Allocation.

Section Machine.
Context `{SD : Serde} `{RO : RowOrder}.
Implicit Types d : DB.

(** The operations that write. *)
Inductive operation : ∀ {A}, rtx A → Prop :=
| op_create workflow resources id clock :
    operation (create_with_parent_claims workflow resources id clock)
| op_create_or_reuse workflow compatible id clock :
    operation (create_or_reuse_active workflow compatible id clock)
| op_update id revision state wait disposition resources clock :
    operation (update_state id revision state wait disposition resources clock)
| op_complete id revision state resources clock :
    operation (complete_with_parent_claims id revision state resources clock)
| op_migrate id instance version config checkpoint clock :
    operation (migrate_workflow id instance version config checkpoint clock)
| op_prune cutoff : operation (prune_terminal_before cutoff)
| op_acquire_claim id resource clock : operation (acquire_claim id resource clock)
| op_acquire_claims id resources clock : operation (acquire_claims id resources clock)
| op_acquire_reserve id resource reserve minimum clock :
    operation (acquire_claim_preserving_reserve id resource reserve minimum clock)
| op_transfer from to resources clock : operation (transfer_claims from to resources clock)
| op_release_claim id resource : operation (release_claim id resource)
| op_release_claims id : operation (release_claims id)
| op_reconcile_claims : operation reconcile_claims
| op_reconcile_items id desired now fresh : operation (reconcile_work_items id desired now fresh)
| op_claim_next id now : operation (claim_next_work_item id now)
| op_start id revision worker assignment started :
    operation (start_work_item id revision worker assignment started)
| op_transition id revision transition now :
    operation (transition_work_item id revision transition now)
| op_assign id revision assignment worker now :
    operation (assign_work_item id revision assignment worker now)
| op_request_reclaim id now : operation (request_work_item_reclaim id now)
| op_reconcile_orphaned id now : operation (reconcile_orphaned_work_items id now)
| op_allocate item revision candidates affinities ignored fresh :
    operation (allocate_requirements_with_policy item revision candidates affinities ignored fresh)
| op_replace item allocation candidates now affinities fresh :
    operation (replace_dead_allocation_with_affinity item allocation candidates now affinities fresh)
| op_record_targets id ts now : operation (record_workflow_targets id ts now)
| op_replace_targets id ts now : operation (replace_workflow_targets id ts now)
| op_set_policy p : operation (set_automation_policy p)
| op_create_trigger trigger id clock : operation (create_trigger trigger id clock)
| op_update_trigger id revision state clock : operation (update_trigger id revision state clock)
| op_delete_trigger id : operation (delete_trigger id)
| op_fire_trigger id key fired next automatic :
    operation (claim_trigger_firing_with_policy id key fired next automatic)
| op_trigger_cursor id cursor : operation (set_trigger_cursor id cursor)
| op_trigger_error id error clock : operation (set_trigger_error id error clock)
| op_put_document namespace key value clock : operation (put_document namespace key value clock)
| op_delete_document namespace key : operation (delete_document namespace key)
| op_record_execution class kind status started result error id clock :
    operation (record_finite_execution class kind status started result error id clock)
| op_begin_execution class kind started id :
    operation (begin_finite_execution class kind started id)
| op_complete_execution id status result error clock :
    operation (complete_finite_execution id status result error clock)
| op_append_activity id message clock : operation (append_activity id message clock).

(** Committed runs; an operation that fails rolls back and is no step. *)
Inductive step d d' : Prop :=
| step_commit {A} (m : rtx A) a : operation m → m d = Ok (a, d') → step d d'.

Inductive reachable : DB → Prop :=
| reachable_empty : reachable empty_db
| reachable_step d d' : reachable d → step d d' → reachable d'.

(** ** The invariant *)

(** The operations on the remaining tables leave the work and claim tables alone. *)
Definition core_same d d' : Prop :=
  instances d' = instances d ∧ claims_table d' = claims_table d ∧ same_items d d'.

#[local] Instance core_same_preorder : PreOrder core_same.
Proof.
  unfold core_same, same_items. split; [done|].
  intros d1 d2 d3. intuition congruence.
Qed.

Lemma core_same_step d d' : core_same d d' → db_step d d'.
Proof. intros (?&?&?). by apply db_step_frame. Qed.

Ltac core_leaf := intros; apply respects_modify; by intros.

Lemma upsert_target_core id now t : respects core_same (upsert_target id now t).
Proof. unfold upsert_target, bump_intelligence. solve_respects; core_leaf. Qed.

Lemma update_targets_core p f : respects core_same (update_targets p f).
Proof. unfold update_targets, bump_intelligence. solve_respects; core_leaf. Qed.

#[local] Hint Resolve upsert_target_core update_targets_core : respects.

Lemma operation_step {A} (m : rtx A) d a d' :
  operation m → db_ok d → m d = Ok (a, d') → db_step d d'.
Proof.
  intros Hop Hok H. destruct Hop; eauto with replicant.
  all: try (eapply replace_dead_allocation_step; eassumption).
  - unfold complete_with_parent_claims in H. case_decide; [done|]. by eapply update_state_step.
  - apply db_step_of_claims. unfold transfer_claims in H. tx_inv. by eapply transfer_claims_in_step.
  - apply core_same_step. revert H. generalize d a d'. fold (respects core_same
      (record_workflow_targets id ts now)).
    unfold record_workflow_targets, require_workflow, read_in, workflow_targets_in. solve_respects.
  - apply core_same_step. revert H. generalize d a d'. fold (respects core_same
      (replace_workflow_targets id ts now)).
    unfold replace_workflow_targets, release_stale, require_workflow, read_in,
      workflow_targets_in. solve_respects.
  - unfold set_automation_policy in H. tx_inv. by apply core_same_step.
  - unfold create_trigger, read_trigger_in in H. tx_inv. by apply core_same_step.
  - unfold update_trigger, read_trigger_in in H. tx_inv. by apply core_same_step.
  - unfold delete_trigger in H. tx_inv. by apply core_same_step.
  - unfold claim_trigger_firing_with_policy in H. tx_inv; by apply core_same_step.
  - unfold set_trigger_cursor in H. tx_inv. by apply core_same_step.
  - unfold set_trigger_error in H. tx_inv. by apply core_same_step.
  - unfold put_document in H. tx_inv; by apply core_same_step.
  - unfold delete_document in H. tx_inv; by apply core_same_step.
  - unfold record_finite_execution, insert_execution in H. tx_inv. by apply core_same_step.
  - unfold begin_finite_execution, insert_execution in H. tx_inv. by apply core_same_step.
  - unfold complete_finite_execution in H. tx_inv. by apply core_same_step.
  - unfold append_activity in H. tx_inv. by apply core_same_step.
Qed.

Lemma empty_ok : db_ok empty_db.
Proof.
  split; split; simpl; try (intros *; rewrite ?lookup_empty; try by intros; try by intros []).
Qed.

Lemma reachable_ok d : reachable d → db_ok d.
Proof.
  induction 1 as [|d d' _ IH [A m a Hop Hrun]]; [apply empty_ok|].
  by apply (ds_ok _ _ (operation_step _ _ _ _ Hop IH Hrun)).
Qed.

(** ** What holds of every reachable database *)

(** C1: in every reachable database a physical resource has one owner, whatever the
    spelling of its key and whether it is claimed as a device or as an autofactory,
    and that owner is a workflow that exists and has not finished. *)
Theorem reachable_custody_exclusive d :
  reachable d →
  (∀ k id1 id2, holds d id1 k → holds d id2 k → id1 = id2) ∧
  (∀ k id, holds d id k → live d id).
Proof.
  intros [[Hc Hl _] _]%reachable_ok. split.
  - intros k id1 id2 (k1&r1&H1&S1&<-) (k2&r2&H2&S2&<-). eapply Hc; [done..|]. by rewrite <-S1.
  - intros k id (k'&r&Hr&_&<-). eauto.
Qed.

(** the start-up reconciliation of claims is a safety net that has nothing to do:
    on a reachable database it deletes no row. *)
Theorem reachable_reconcile_claims_noop d :
  reachable d → reconcile_claims d = Ok (0, d).
Proof.
  intros [[_ Hl _] _]%reachable_ok. unfold reconcile_claims. erewrite tx_bind_step by done.
  cbv zeta. erewrite tx_bind_step by done.
  assert (Hno : ∀ (k : string * string) r, claims_table d !! k = Some r →
    match instances d !! cl_workflow_id r with
    | Some w => WorkflowStatus.is_terminal (wf_status w) | None => true end = false).
  { intros k r Hr. by destruct (Hl _ _ Hr) as (w&->&?). }
  unfold mret, tx_ret. rewrite (proj2 (count_0 _ _) Hno). unfold with_claims.
  rewrite (delete_where_none _ _ Hno). by destruct d.
Qed.

(** C3: in every reachable database an item is running exactly when it has an open
    attempt, there is never more than one, and it is the last: attempts are numbered
    from one to the item's attempt count without gaps. *)
Theorem reachable_running_iff_open_attempt d id i :
  reachable d → work_items d !! id = Some i →
  (st_status (it_state i) = WorkItemStatus.Running ↔
   ∃ n a, attempts d !! (id, n) = Some a ∧ is_open_attempt a = true) ∧
  (∀ n a, attempts d !! (id, n) = Some a → is_open_attempt a = true →
     n = st_attempt_count (it_state i)) ∧
  (∀ n, is_Some (attempts d !! (id, n)) ↔ 1 ≤ n ≤ st_attempt_count (it_state i)).
Proof.
  intros [_ Hok]%reachable_ok Hi. destruct (ok_attempts _ Hok _ _ Hi) as [_ Hd Ho Hr _].
  split_and!; [|by intros n a Ha Hopen; destruct (Ho _ _ Ha Hopen)|done].
  split; [intros (a&?&?)%Hr; eauto|]. intros (n&a&Ha&Hopen). by destruct (Ho _ _ Ha Hopen).
Qed.

(** a finished workflow holds nothing in any reachable database: it owns no claim,
    all its items are terminal, and no allocation, assignment or attempt of them is
    still active. *)
Theorem reachable_terminal_holds_nothing d id w :
  reachable d → instances d !! id = Some w → WorkflowStatus.is_terminal (wf_status w) = true →
  (∀ k, ¬ holds d id k) ∧
  (∀ k i, work_items d !! k = Some i → sp_workflow_id (it_spec i) = id →
     WorkItemStatus.is_terminal (st_status (it_state i)) = true ∧
     (∀ n a, allocations d !! n = Some a → ar_item_id a = k → is_active_allocation a = false) ∧
     (∀ n a, assignments d !! n = Some a → as_item_id a = k →
        is_unreleased_assignment a = false) ∧
     (∀ n a, attempts d !! (k, n) = Some a → is_open_attempt a = false)).
Proof.
  intros [[_ Hl _] Hok]%reachable_ok Hw Ht. split.
  - intros k (k'&r&Hr&_&<-). destruct (Hl _ _ Hr) as (w'&?&?). simplify_eq. congruence.
  - intros k i Hi <-. destruct (ok_owner _ Hok _ _ Hi) as (w'&Hw'&Hit). simplify_eq.
    specialize (Hit Ht). split_and!; [done|..].
    + intros n a Ha <-. destruct (ok_allocation _ Hok _ _ Ha) as (_&_&j&Hj&Hact). simplify_eq.
      destruct (is_active_allocation a); [|done]. by rewrite (Hact eq_refl) in Hit.
    + intros n a Ha <-. destruct (ok_assignment _ Hok _ _ Ha) as (j&Hj&Hact). simplify_eq.
      destruct (is_unreleased_assignment a); [|done]. specialize (Hact eq_refl).
      by destruct (st_status (it_state i)).
    + intros n a Ha. destruct (is_open_attempt a) eqn:Eo; [|done].
      destruct (ok_open _ _ _ (ok_attempts _ Hok _ _ Hi) _ _ Ha Eo) as [Hr _]. by rewrite Hr in Hit.
Qed.

(** in every reachable database an unreleased assignment belongs to an item that is
    assigned or running, no item has two of them and no worker serves two. *)
Theorem reachable_assignments_exclusive d k1 k2 a1 a2 :
  reachable d → assignments d !! k1 = Some a1 → assignments d !! k2 = Some a2 →
  is_unreleased_assignment a1 = true → is_unreleased_assignment a2 = true →
  (∃ i, work_items d !! as_item_id a1 = Some i ∧ in_progress (st_status (it_state i)) = true) ∧
  (as_item_id a1 = as_item_id a2 ∨
   (as_worker_namespace a1 = as_worker_namespace a2 ∧ as_worker_key a1 = as_worker_key a2) →
   k1 = k2).
Proof.
  intros [_ Hok]%reachable_ok H1 H2 U1 U2. split.
  - destruct (ok_assignment _ Hok _ _ H1) as (i&?&?). eauto.
  - by apply (ok_assignments_unique _ Hok).
Qed.

(** in every reachable database a workflow has at most one item per deduplication
    key, and two active allocations of one item never reserve the same resource for
    the same requirement. *)
Theorem reachable_items_unique d :
  reachable d →
  (∀ id1 id2 i1 i2, work_items d !! id1 = Some i1 → work_items d !! id2 = Some i2 →
     sp_workflow_id (it_spec i1) = sp_workflow_id (it_spec i2) →
     sp_dedupe_key (it_spec i1) = sp_dedupe_key (it_spec i2) → id1 = id2) ∧
  allocations_unique (allocations d).
Proof. intros [_ Hok]%reachable_ok. destruct Hok. by split. Qed.

(** no operation changes the identity of a workflow or the specification of an item,
    lowers a revision, reopens a terminal workflow or alters a terminal item. *)
Theorem step_evolves d d' :
  reachable d → step d d' →
  (∀ id w w', instances d !! id = Some w → instances d' !! id = Some w' → instance_evolves w w') ∧
  (∀ id i i', work_items d !! id = Some i → work_items d' !! id = Some i' → item_evolves i i').
Proof.
  intros Hok%reachable_ok [A m a Hop Hrun].
  destruct (operation_step _ _ _ _ Hop Hok Hrun). by split.
Qed.

(** ** The ledger *)

(** The watermarks grow, and an unchanged intelligence revision means unchanged
    targets and allocations. *)
Record ledger_step d d' : Prop := {
  lg_revision : intelligence_revision d ≤ intelligence_revision d';
  lg_same : intelligence_revision d' = intelligence_revision d →
    targets d' = targets d ∧ allocations d' = allocations d;
  lg_seq : activity_seq d ≤ activity_seq d';
  lg_activity : 0 ≤ activity_seq d ∧ activity_ok d → activity_ok d';
}.

#[local] Instance ledger_step_preorder : PreOrder ledger_step.
Proof.
  split; [intros d; split; [lia|done|lia|tauto]|]. intros d1 d2 d3 [R1 S1 Q1 A1] [R2 S2 Q2 A2]. split; [lia| |lia|intros [? ?]; apply A2; split; [lia|auto]].
  intros E. destruct S1 as [? ?]; [lia|]. destruct S2 as [? ?]; [lia|]. split; congruence.
Qed.
#[local] Hint Extern 2 (respects ledger_step (modify _)) =>
  apply respects_modify; intros; split; simpl; [lia|done|lia|tauto] : respects.

Lemma count_nonneg {K V} `{Countable K} (p : K → V → bool) (m : gmap K V) : 0 ≤ count p m.
Proof. unfold count. lia. Qed.

Lemma update_allocations_ledger p f : respects ledger_step (update_allocations p f).
Proof.
  intros d a d' H. unfold update_allocations, bump_intelligence in H.
  do 2 erewrite tx_bind_step in H by done. injection H as <- <-.
  assert (Hn := count_nonneg p (allocations d)). split; simpl; [lia| |lia|tauto].
  intros E. split; [done|]. apply update_where_none. apply (proj1 (count_0 _ _)). lia.
Qed.

Lemma update_targets_ledger p f : respects ledger_step (update_targets p f).
Proof.
  intros d a d' H. unfold update_targets, bump_intelligence in H.
  do 2 erewrite tx_bind_step in H by done. injection H as <- <-.
  assert (Hn := count_nonneg p (targets d)). split; simpl; [lia| |lia|tauto].
  intros E. split; [|done]. apply update_where_none. apply (proj1 (count_0 _ _)). lia.
Qed.

Lemma upsert_target_ledger id now t : respects ledger_step (upsert_target id now t).
Proof.
  intros d a d' H. unfold upsert_target, bump_intelligence in H. cbv zeta in H. tx_inv; try done.
  all: split; simpl; [lia|first [done | intros; exfalso; lia]|lia|tauto].
Qed.

Lemma insert_allocation_ledger id a : respects ledger_step (insert_allocation id a).
Proof. intros d u d' (->&_&_)%insert_allocation_Ok. split; simpl; [lia|first [done | intros; exfalso; lia]|lia|tauto]. Qed.

Lemma upsert_pool_ledger key row merge : respects ledger_step (upsert_pool key row merge).
Proof.
  intros d u d' H. unfold upsert_pool, bump_intelligence in H. tx_inv; try done.
  all: try match goal with |- context [pool_update_bump ?d0 ?k ?p ?q] =>
    assert (0 ≤ pool_update_bump d0 k p q) by (unfold pool_update_bump; destruct (_ && _); lia) end.
  all: split; simpl; [lia|first [done | intros; exfalso; lia]|lia|tauto].
Qed.

Lemma delete_activity_ledger id : respects ledger_step (delete_activity id).
Proof.
  intros d u d' H. unfold delete_activity in H. tx_inv. split; simpl; [lia|done|lia|].
  intros [_ Hok] k [r Hr]. simpl in Hr. apply lookup_delete_where_Some in Hr as [Hr _].
  apply Hok. by eexists.
Qed.

Lemma delete_instance_ledger id : respects ledger_step (delete_instance id).
Proof.
  intros d u d' H. unfold delete_instance, bump_intelligence in H. tx_inv.
  assert (H1 := count_nonneg (λ _ a, owned_by d id (ar_item_id a)) (allocations d)).
  assert (H2 := count_nonneg (λ (k : N * (string * string)) (_ : TargetRow),
    bool_decide (k.1 = id)) (targets d)).
  split; simpl; [lia| |lia|tauto]. intros E.
  split; apply delete_where_none, (proj1 (count_0 _ _)); lia.
Qed.

Lemma append_activity_ledger id message clock : respects ledger_step (append_activity id message clock).
Proof.
  intros d u d' H. unfold append_activity in H. tx_inv. split; simpl; [lia|done|lia|].
  intros [Hseq Hok] k [r Hr]. simpl in *. apply lookup_insert_Some in Hr as [[<- _]|[_ Hr]];
    [lia|]. destruct (Hok k); [by eexists|lia].
Qed.

#[local] Hint Resolve update_allocations_ledger update_targets_ledger upsert_target_ledger
  insert_allocation_ledger upsert_pool_ledger delete_activity_ledger delete_instance_ledger
  append_activity_ledger : respects.

Lemma prune_loop_ledger fuel cutoff removed : respects ledger_step (prune_loop fuel cutoff removed).
Proof.
  revert removed. induction fuel as [|fuel IH]; intros removed; simpl; solve_respects.
  all: eauto with respects.
Qed.

Lemma supports_dependents_ledger identity rs candidates set id :
  respects ledger_step (supports_dependents identity rs candidates set id).
Proof. intros d b d' ->%supports_dependents_read_only. done. Qed.

#[local] Hint Resolve prune_loop_ledger supports_dependents_ledger : respects.

Lemma replacement_loop_ledger item id dead quantity r rs ordered set affinities now fresh b rest :
  respects ledger_step (replacement_loop item id dead quantity r rs ordered set affinities
    now fresh b rest).
Proof.
  revert b. induction rest as [|c rest IH]; intros b; simpl; [eauto with respects|].
  unfold replacement_mismatch, candidate_supports_affined_dependents, active_quantity,
    physical_claim_conflict_in, insert_claim.
  solve_respects; eauto with respects.
Qed.

#[local] Hint Resolve replacement_loop_ledger : respects.

Lemma transfer_claims_in_ledger from to resources now :
  respects ledger_step (transfer_claims_in from to resources now).
Proof.
  intros d u d' [[t ->] _]%transfer_claims_in_step. split; simpl; [lia|done|lia|tauto].
Qed.

Lemma close_open_attempt_ledger id outcome error ended :
  respects ledger_step (close_open_attempt id outcome error ended).
Proof. unfold close_open_attempt. solve_respects. Qed.

Lemma update_assignments_ledger p f : respects ledger_step (update_assignments p f).
Proof. unfold update_assignments. solve_respects. Qed.

#[local] Hint Resolve transfer_claims_in_ledger close_open_attempt_ledger
  update_assignments_ledger : respects.

Lemma update_state_ledger id r state wait disp ret clock :
  respects ledger_step (update_state id r state wait disp ret clock).
Proof. unfold update_state, finish_workflow, require_workflow, read_in. solve_respects. Qed.

Lemma transition_in_ledger id i tr now :
  respects ledger_step (transition_work_item_in id i tr now).
Proof. unfold transition_work_item_in, release_item_allocations. solve_respects. Qed.

Lemma acquire_claims_ledger id resources clock :
  respects ledger_step (acquire_claims id resources clock).
Proof.
  intros d u d' [[t ->] _]%acquire_claims_step. split; simpl; [lia|done|lia|tauto].
Qed.

Lemma release_active_ledger id now a :
  respects ledger_step (release_active_allocation_in id now a).
Proof. unfold release_active_allocation_in. solve_respects. Qed.

#[local] Hint Resolve update_state_ledger transition_in_ledger acquire_claims_ledger
  release_active_ledger : respects.

Lemma allocate_requirement_ledger item id updated rs candidates affinities fresh set r :
  respects ledger_step
    (allocate_requirement item id updated rs candidates affinities fresh set r).
Proof.
  unfold allocate_requirement, retain, usable_parent, usable_dependent, consider_candidate,
    candidate_supports_affined_dependents, active_quantity, physical_claim_conflict_in,
    upsert_claim, insert_claim.
  solve_respects.
Qed.

#[local] Hint Resolve allocate_requirement_ledger : respects.

(** Every operation is made of statements that keep the ledger. *)
Lemma operation_ledger {A} (m : rtx A) : operation m → respects ledger_step m.
Proof.
  destruct 1.
  - unfold create_with_parent_claims, insert_workflow_in, require_workflow, read_in. solve_respects.
  - unfold create_or_reuse_active, list_active, list_where, insert_workflow_in, require_workflow,
      read_in. solve_respects.
  - eauto with respects.
  - unfold complete_with_parent_claims. solve_respects.
  - unfold migrate_workflow, require_workflow, read_in. solve_respects.
  - unfold prune_terminal_before. solve_respects.
  - unfold acquire_claim. solve_respects.
  - eauto with respects.
  - unfold acquire_claim_preserving_reserve, require_live_owner, require_workflow, read_in,
      physical_claim_conflict_in, available_reserve, insert_claim. solve_respects.
  - unfold transfer_claims. solve_respects.
  - unfold release_claim. solve_respects.
  - unfold release_claims. solve_respects.
  - unfold reconcile_claims. solve_respects.
  - unfold reconcile_work_items, require_workflow, read_in, reconcile_one,
      read_work_item_by_key_in, insert_work_item, list_work_items_in. solve_respects.
  - unfold claim_next_work_item, require_workflow, read_in, require_work_item,
      read_work_item_in. solve_respects.
  - unfold start_work_item, require_work_item, read_work_item_in, insert_attempt. solve_respects.
  - unfold transition_work_item, require_work_item, read_work_item_in. solve_respects.
  - unfold assign_work_item, require_work_item, read_work_item_in, insert_assignment. solve_respects.
  - unfold request_work_item_reclaim. solve_respects.
  - unfold reconcile_orphaned_work_items, reclaim_orphan. solve_respects.
  - unfold allocate_requirements_with_policy, require_work_item, read_work_item_in,
      require_workflow, read_in, list_active_allocations_in, release_ignored, observe_candidate.
    solve_respects.
  - unfold replace_dead_allocation_with_affinity, require_work_item, read_work_item_in,
      list_active_allocations_in. solve_respects.
  - unfold record_workflow_targets, require_workflow, read_in, workflow_targets_in. solve_respects.
  - unfold replace_workflow_targets, require_workflow, read_in, workflow_targets_in, release_stale.
    solve_respects.
  - unfold set_automation_policy. solve_respects.
  - unfold create_trigger, read_trigger_in. solve_respects.
  - unfold update_trigger, read_trigger_in. solve_respects.
  - unfold delete_trigger. solve_respects.
  - unfold claim_trigger_firing_with_policy. solve_respects.
  - unfold set_trigger_cursor. solve_respects.
  - unfold set_trigger_error. solve_respects.
  - unfold put_document. solve_respects.
  - unfold delete_document. solve_respects.
  - unfold record_finite_execution, insert_execution. solve_respects.
  - unfold begin_finite_execution, insert_execution. solve_respects.
  - unfold complete_finite_execution. solve_respects.
  - eauto with respects.
Qed.

Lemma reachable_activity_ok d : reachable d → 0 ≤ activity_seq d ∧ activity_ok d.
Proof.
  induction 1 as [|d d' _ [IH1 IH2] [A m a Hop Hrun]].
  - split; [done|]. intros k [? Hk]. simpl in Hk. by rewrite lookup_empty in Hk.
  - destruct (operation_ledger _ Hop _ _ _ Hrun) as [_ _ Hs Ha]. split; [lia|]. by apply Ha.
Qed.

(** the intelligence revision is a watermark for targets and allocations and the
    activity sequence one for the log: no operation lowers either, an operation that
    leaves the intelligence revision as it was changed neither table, and every
    logged identifier is within the sequence. *)
Theorem step_watermarks d d' :
  reachable d → step d d' →
  intelligence_revision d ≤ intelligence_revision d' ∧
  (intelligence_revision d' = intelligence_revision d →
   targets d' = targets d ∧ allocations d' = allocations d) ∧
  activity_seq d ≤ activity_seq d' ∧
  (∀ id, is_Some (activity_log d' !! id) → 0 < id ≤ activity_seq d').
Proof.
  intros Hr Hs. assert (Hr' : reachable d') by by eapply reachable_step.
  destruct Hs as [A m a Hop Hrun]. destruct (operation_ledger _ Hop _ _ _ Hrun).
  split_and!; [done..|]. by apply reachable_activity_ok.
Qed.

End Machine.
