(* ===== verification/Witnesses.v ===== *)
(** * Evaluations

    Every theorem with hypotheses, applied to concrete data.  A parent and a child
    workflow, two items of which the second depends on the first, claims, an
    allocation and a running attempt are built with the repository's own operations
    from an empty database, so the database is reachable by construction. *)

From S2P Require Import Prelude Float64 Model Store Fixtures Claims WorkItems WorkItemFacts.
From S2P Require Import Lifecycle Automation Allocation Invariants.

#[local] Existing Instance sample_serde.
#[local] Existing Instance table_order.

(** ** A sample database *)

Lemma reachable_committed {A} (m : rtx A) d :
  operation m → reachable d → reachable (committed (m d) d).
Proof.
  intros Hop Hr. unfold committed. destruct (m d) as [[a d']|e] eqn:E; [|done].
  eapply reachable_step; [done|]. by eapply step_commit.
Qed.

Definition sample_workflow (kind : string) (parent : option N) : NewWorkflow :=
  {| nw_kind := kind; nw_schema_version := 1; nw_config := VNull; nw_checkpoint := VNull;
     nw_current_step := None; nw_parent_id := parent |}.

Definition sample_state (s : WorkflowStatus) : WorkflowState :=
  {| ws_status := s; ws_current_step := None; ws_checkpoint := VNull; ws_last_error := None;
     ws_result := None |}.

Definition sample_requirement : ResourceRequirement :=
  {| rq_key := "ship"; rq_kind := "drone"; rq_capabilities := ["mine"]; rq_scope := Anywhere;
     rq_count := 1; rq_quantity := 1 |}.

Definition sample_spec (key : string) (preconditions requirements : Value) : WorkItemSpec :=
  {| sp_workflow_id := 1%N; sp_dedupe_key := key; sp_kind := "mine"; sp_sort_key := key;
     sp_payload_json := VNull; sp_preconditions_json := preconditions;
     sp_requirements_json := requirements; sp_deadline_at_ms := None |}.

Definition sample_specs : list WorkItemSpec :=
  [ sample_spec "b" (VDependencies ["a"]) VNull;
    sample_spec "a" VNull (VRequirements [sample_requirement]) ].

Definition sample_candidate : AllocationCandidate :=
  {| ac_resource := Device "D-1"; ac_kind := "drone"; ac_capabilities := ["haul"; "mine"];
     ac_location := None; ac_available_quantity := 1; ac_observed_revision := 1;
     ac_observed_at_ms := 120 |}.

Definition sample_fresh (key : string) : N := if decide (key = "a") then 11%N else 12%N.

Definition db_created : DB :=
  let d1 := committed (create_with_parent_claims (sample_workflow "campaign" None) [] 1 10 empty_db)
              empty_db in
  let d2 := committed (create_with_parent_claims (sample_workflow "child" (Some 1%N)) [] 2 20 d1) d1 in
  let d3 := committed (update_state 1 0 (sample_state Running) None None [] 30 d2) d2 in
  committed (update_state 2 0 (sample_state Running) None None [] 31 d3) d3.

Definition db_claimed : DB :=
  let d1 := committed (acquire_claim 1 (Device "D-1") 40 db_created) db_created in
  committed (acquire_claim 2 (Device "D-2") 41 d1) d1.

Definition db_planned : DB :=
  committed (reconcile_work_items 1 sample_specs 100 sample_fresh db_claimed) db_claimed.

Definition db_allocated : DB :=
  committed (allocate_requirements_with_policy 11 0 [sample_candidate] [] [] (λ _ _, 21%N) db_planned)
    db_planned.

Definition db_assigned : DB :=
  let d1 := committed (claim_next_work_item 1 200 db_allocated) db_allocated in
  committed (assign_work_item 11 1 "asg-1" (Replicant "R-1") 210 d1) d1.

Definition db_running : DB :=
  committed (start_work_item 11 1 "R-1" "asg-1" 220 db_assigned) db_assigned.

Definition db_finished : DB :=
  committed (update_state 1 1 (sample_state Cancelled) None None [] 300 db_running) db_running.

Lemma reachable_created : reachable db_created.
Proof. unfold db_created. cbv zeta. repeat (apply reachable_committed; [constructor|]). constructor. Qed.
Lemma reachable_claimed : reachable db_claimed.
Proof.
  unfold db_claimed. cbv zeta. do 2 (apply reachable_committed; [constructor|]). apply reachable_created.
Qed.
Lemma reachable_planned : reachable db_planned.
Proof. apply reachable_committed; [constructor|]. apply reachable_claimed. Qed.
Lemma reachable_allocated : reachable db_allocated.
Proof. apply reachable_committed; [constructor|]. apply reachable_planned. Qed.
Lemma reachable_assigned : reachable db_assigned.
Proof.
  unfold db_assigned. cbv zeta. do 2 (apply reachable_committed; [constructor|]). apply reachable_allocated.
Qed.
Lemma reachable_running : reachable db_running.
Proof. apply reachable_committed; [constructor|]. apply reachable_assigned. Qed.
Lemma reachable_finished : reachable db_finished.
Proof. apply reachable_committed; [constructor|]. apply reachable_running. Qed.

(** The sample reaches the states its names announce. *)
Example sample_statuses :
  (st_status ∘ it_state <$> work_items db_running !! 11%N) = Some WorkItemStatus.Running ∧
  (st_status ∘ it_state <$> work_items db_finished !! 12%N) = Some WorkItemStatus.Abandoned ∧
  active_sum db_running (resource_to_string (Device "D-1")) = 1 ∧
  claims_table db_finished !! ("device", "D-1") = None.
Proof. vm_compute. done. Qed.

Lemma sample_ok : db_ok db_running.
Proof. apply reachable_ok, reachable_running. Qed.
Lemma claimed_ok : db_ok db_claimed.
Proof. apply reachable_ok, reachable_claimed. Qed.
Lemma planned_ok : db_ok db_planned.
Proof. apply reachable_ok, reachable_planned. Qed.
Lemma assigned_ok : db_ok db_assigned.
Proof. apply reachable_ok, reachable_assigned. Qed.

(** The result of an operation that commits on concrete data. *)
Definition outcome {A} (r : res (A * DB)) (default : A) : A :=
  match r with Ok (a, _) => a | Err _ => default end.
Definition item_of (o : option WorkItem) : WorkItem :=
  default {| it_spec := sample_spec "" VNull VNull; it_state := pending_state 0 |} o.
Definition instance_of (o : option WorkflowInstance) : WorkflowInstance :=
  default (queued_instance (sample_workflow "" None) 0) o.

Definition claimed_1 : WorkflowInstance := instance_of (instances db_claimed !! 1%N).
Definition claimed_2 : WorkflowInstance := instance_of (instances db_claimed !! 2%N).
Definition allocated_11 : WorkItem := item_of (work_items db_allocated !! 11%N).
Definition assigned_11 : WorkItem := item_of (work_items db_assigned !! 11%N).
Definition running_11 : WorkItem := item_of (work_items db_running !! 11%N).

Definition is_some_b {A} (o : option A) : bool := match o with Some _ => true | None => false end.

(** An operation that evaluates to a success returned its outcome and left the
    database it committed. *)
Definition is_ok {A} (r : res (A * DB)) : bool :=
  match r with Ok _ => true | Err _ => false end.
Lemma run_ok {A} (r : res (A * DB)) (d : DB) (x : A) :
  is_ok r = true → r = Ok (outcome r x, committed r d).
Proof. by destruct r as [[]|]. Qed.

(** ** Model *)

Lemma workflow_status_machine_witness :
  WorkflowStatus.can_transition_to Succeeded Succeeded = true ∧
  (WorkflowStatus.is_terminal Succeeded = true → Succeeded = Succeeded).
Proof. split; [reflexivity|]. apply (workflow_status_machine Succeeded Succeeded). reflexivity. Defined.

(** ** Claims *)

Lemma acquire_claims_custody_witness :
  holds (committed (acquire_claims 1 [Device "D-3"; Autofactory "d-1"] 50 db_claimed) db_claimed) 1
    ("device", "D-3").
Proof.
  destruct (acquire_claims_custody 1 [Device "D-3"; Autofactory "d-1"] 50 db_claimed
    (outcome (acquire_claims 1 [Device "D-3"; Autofactory "d-1"] 50 db_claimed) [])
    (committed (acquire_claims 1 [Device "D-3"; Autofactory "d-1"] 50 db_claimed) db_claimed))
    as (H&_).
  - apply run_ok. vm_compute. reflexivity.
  - apply (H (Device "D-3")); [by left|reflexivity].
Defined.

Lemma acquire_claim_decided_by_custody_witness :
  acquire_claim 1 (Autofactory "d-2") 50 db_claimed = Err (ClaimConflict (Autofactory "d-2") 2%N) ∧
  holds db_claimed 2 ("autofactory", "d-2").
Proof.
  assert (H := acquire_claim_decided_by_custody 1 (Autofactory "d-2") 50 db_claimed
    claimed_1 ("autofactory", "d-2")
    ltac:(vm_compute; reflexivity) ltac:(vm_compute; reflexivity) ltac:(reflexivity)
    ltac:(vm_compute; split; discriminate) ltac:(lia)).
  assert (E : acquire_claim 1 (Autofactory "d-2") 50 db_claimed
    = Err (ClaimConflict (Autofactory "d-2") 2%N)) by (vm_compute; reflexivity).
  rewrite E in H. split; [exact E|]. destruct H as (owner & [= <-] & _ & Hh). exact Hh.
Defined.

Lemma transfer_claims_moves_custody_witness :
  holds (committed (transfer_claims 1 2 [Device "d-1"] 50 db_claimed) db_claimed) 2 ("device", "d-1")
  ∧ ¬ holds (committed (transfer_claims 1 2 [Device "d-1"] 50 db_claimed) db_claimed) 1
        ("device", "d-1").
Proof.
  destruct (transfer_claims_moves_custody 1 2 [Device "d-1"] 50 db_claimed
    (outcome (transfer_claims 1 2 [Device "d-1"] 50 db_claimed) tt)
    (committed (transfer_claims 1 2 [Device "d-1"] 50 db_claimed) db_claimed)) as [H _].
  - discriminate.
  - apply run_ok. vm_compute. reflexivity.
  - apply (H (Device "d-1")); [by left|reflexivity].
Defined.

Lemma acquire_preserving_reserve_keeps_reserve_witness :
  ∃ available : gset (string * string), 1 ≤ Z.of_nat (size available) ∧
    ∀ id, id ∈ available → ∃ candidate k, candidate ∈ [Device "D-1"; Device "D-3"; Device "D-4"] ∧
      persisted_parts candidate = Ok k ∧ id = reserve_identity k ∧
      ∀ owner, ¬ holds (committed (acquire_claim_preserving_reserve 1 (Device "D-3")
        [Device "D-1"; Device "D-3"; Device "D-4"] 1 50 db_claimed) db_claimed) owner k.
Proof.
  apply (acquire_preserving_reserve_keeps_reserve 1 (Device "D-3")
    [Device "D-1"; Device "D-3"; Device "D-4"] 1 50 db_claimed
    (outcome (acquire_claim_preserving_reserve 1 (Device "D-3")
       [Device "D-1"; Device "D-3"; Device "D-4"] 1 50 db_claimed)
       (AlreadyOwned {| rc_resource := Device ""; rc_workflow_id := 0%N; rc_acquired_at := 0;
                        rc_updated_at := 0 |}))); [lia|].
  apply run_ok. vm_compute. reflexivity.
Defined.

Lemma claims_lists_owned_witness :
  ∃ l, claims 1 db_claimed = Ok (l, db_claimed) ∧
    ∃ c, c ∈ l ∧ rc_resource c = Device "D-1".
Proof.
  destruct (claims_lists_owned 1 db_claimed (ok_claims _ claimed_ok)) as (l&Hl&Hspec).
  exists l. split; [exact Hl|].
  exists {| rc_resource := Device "D-1"; rc_workflow_id := 1%N; rc_acquired_at := 40;
            rc_updated_at := 40 |}.
  split; [|reflexivity]. apply Hspec. exists ("device", "D-1").
  exists {| cl_workflow_id := 1%N; cl_acquired_at := 40; cl_updated_at := 40 |}.
  split; [vm_compute; reflexivity|]. repeat split.
Defined.

(** ** Work items *)

Lemma claim_next_work_item_picks_least_witness :
  ∃ i, work_items db_allocated !! 11%N = Some i ∧
    eligible db_allocated 1 200 i = true ∧
    (∀ k j, work_items db_allocated !! k = Some j → eligible db_allocated 1 200 j = true →
       item_leb (11%N, i) (k, j) = true).
Proof.
  assert (H := claim_next_work_item_picks_least 1 200 db_allocated
    (outcome (claim_next_work_item 1 200 db_allocated) None)
    (committed (claim_next_work_item 1 200 db_allocated) db_allocated)
    (run_ok (claim_next_work_item 1 200 db_allocated) db_allocated None
       ltac:(vm_compute; reflexivity))).
  assert (E : outcome (claim_next_work_item 1 200 db_allocated) None
    = Some (11%N, with_state (assign_state 200) allocated_11)) by (vm_compute; reflexivity).
  rewrite E in H. destruct H as (i&H1&H2&H3&_). exists i. auto.
Defined.

Lemma reconcile_work_items_idempotent_witness :
  reconcile_work_items 1 sample_specs 900 (λ _, 99%N) db_planned =
  Ok (outcome (reconcile_work_items 1 sample_specs 100 sample_fresh db_claimed) [], db_planned).
Proof.
  apply (reconcile_work_items_idempotent 1 sample_specs 100 sample_fresh db_claimed).
  - exact (ok_items _ claimed_ok).
  - apply (run_ok _ db_claimed). vm_compute. reflexivity.
Defined.

Lemma transition_work_item_accepts_witness :
  ∃ i' d', transition_work_item 11 2 (RetryableFailure None "lost") 500 db_running = Ok (i', d') ∧
    st_status (it_state i') = WorkItemStatus.Pending ∧ st_revision (it_state i') = 3.
Proof.
  assert (H := transition_work_item_accepts 11 running_11
    (RetryableFailure None "lost") 500 db_running (ok_items _ sample_ok)
    ltac:(vm_compute; reflexivity) ltac:(vm_compute; split; discriminate)
    ltac:(vm_compute; split; discriminate)).
  replace (transition_allowed _ _) with true in H by (vm_compute; reflexivity).
  replace (st_revision (it_state running_11)) with 2 in H
    by (vm_compute; reflexivity).
  destruct H as (i'&d'&H1&H2&H3&_). exists i', d'. auto.
Defined.

Lemma start_work_item_succeeds_witness :
  ∃ i' d', start_work_item 11 1 "R-1" "asg-1" 220 db_assigned = Ok (i', d') ∧
    st_status (it_state i') = WorkItemStatus.Running ∧ st_attempt_count (it_state i') = 1.
Proof.
  assert (H := start_work_item_succeeds 11 assigned_11 "R-1" "asg-1"
    220 db_assigned (ok_items _ assigned_ok) ltac:(vm_compute; reflexivity)
    ltac:(vm_compute; reflexivity) ltac:(discriminate) ltac:(discriminate)
    ltac:(vm_compute; split; discriminate) ltac:(vm_compute; split; discriminate)).
  replace (st_revision (it_state assigned_11)) with 1 in H
    by (vm_compute; reflexivity).
  replace (st_attempt_count (it_state assigned_11)) with 0 in H
    by (vm_compute; reflexivity).
  destruct H as (i'&d'&H1&H2&H3&_). exists i', d'. auto.
Defined.

Definition no_campaign : CampaignResult :=
  {| cr_outcome := NoSuccess; cr_counts := campaign_counts []; cr_items := [] |}.

Lemma aggregate_campaign_status_witness :
  ∃ items, list_work_items_in 1 db_finished = Ok (items, db_finished) ∧
    (∀ row, row ∈ items → WorkItemStatus.is_terminal (st_status (it_state row.2)) = true) ∧
    campaign_workflow_status (default no_campaign
      (outcome (aggregate_campaign_result 1 db_finished) None)) = Failed.
Proof.
  assert (Hrun := run_ok (aggregate_campaign_result 1 db_finished) db_finished None
    ltac:(vm_compute; reflexivity)).
  assert (E : is_some_b (outcome (aggregate_campaign_result 1 db_finished) None) = true)
    by (vm_compute; reflexivity).
  assert (Hst : campaign_workflow_status (default no_campaign
    (outcome (aggregate_campaign_result 1 db_finished) None)) ≠ Succeeded)
    by (vm_compute; discriminate).
  destruct (outcome (aggregate_campaign_result 1 db_finished) None) as [r|]; [|discriminate E].
  destruct (aggregate_campaign_status 1 db_finished r _ Hrun) as (items&H1&_&H2&_&_&H3).
  exists items. split; [exact H1|]. split; [exact H2|]. apply H3. exact Hst.
Defined.

(** ** Lifecycle *)

Lemma update_decided_witness :
  update 1 0 (sample_state Paused) 60 db_claimed = Err (ConcurrentUpdate 1 0).
Proof.
  assert (H := update_decided 1 0 (sample_state Paused) 60 db_claimed claimed_1
    ltac:(vm_compute; reflexivity) ltac:(vm_compute; split; discriminate)
    ltac:(vm_compute; split; discriminate) ltac:(lia)).
  assert (E : is_ok (update 1 0 (sample_state Paused) 60 db_claimed) = false)
    by (vm_compute; reflexivity).
  destruct (update 1 0 (sample_state Paused) 60 db_claimed) as [r|e]; [discriminate E|].
  destruct H as [[_ ->]|[Hr _]]; [reflexivity|]. vm_compute in Hr. discriminate Hr.
Defined.

Lemma update_no_lost_update_witness :
  is_ok (update_state 1 1 (sample_state Paused) None None [] 60 db_claimed) = true ∧
  ∀ r, update_state 1 1 (sample_state Waiting) None None [] 61
         (committed (update_state 1 1 (sample_state Paused) None None [] 60 db_claimed) db_claimed)
       ≠ Ok r.
Proof.
  split; [vm_compute; reflexivity|].
  apply (update_no_lost_update 1 1 (sample_state Paused) None None [] 60 db_claimed
    (outcome (update_state 1 1 (sample_state Paused) None None [] 60 db_claimed) claimed_1)).
  apply run_ok. vm_compute. reflexivity.
Defined.

Lemma terminal_state_releases_everything_witness :
  is_ok (update_state 1 1 (sample_state Cancelled) None None [] 300 db_running) = true ∧
  ∀ k c, claims_table db_finished !! k = Some c → cl_workflow_id c ≠ 1%N.
Proof.
  split; [vm_compute; reflexivity|].
  apply (terminal_state_releases_everything 1 1 (sample_state Cancelled) None None [] 300 db_running
    (outcome (update_state 1 1 (sample_state Cancelled) None None [] 300 db_running) claimed_1)
    db_finished).
  - exact sample_ok.
  - reflexivity.
  - apply run_ok. vm_compute. reflexivity.
Defined.

Definition db_completed : DB :=
  committed (complete_with_parent_claims 2 1 (sample_state Succeeded) [Device "D-2"] 70 db_claimed)
    db_claimed.

Lemma complete_returns_payload_witness :
  holds db_completed 1 ("device", "D-2") ∧ ¬ holds db_completed 2 ("device", "D-2").
Proof.
  apply (complete_returns_payload 2 1 (sample_state Succeeded) [Device "D-2"] 70 db_claimed
    (outcome (complete_with_parent_claims 2 1 (sample_state Succeeded) [Device "D-2"] 70 db_claimed)
       claimed_2) db_completed claimed_2 1 claimed_1) with (resource := Device "D-2").
  - apply run_ok. vm_compute. reflexivity.
  - vm_compute. reflexivity.
  - vm_compute. reflexivity.
  - discriminate.
  - vm_compute. reflexivity.
  - vm_compute. reflexivity.
  - by left.
  - reflexivity.
Defined.

Lemma create_or_reuse_active_correct_witness :
  active_row db_claimed 2 claimed_2 ∧
  ∀ k v, active_row db_claimed k v → wf_kind v = "child" → instance_leb (2%N, claimed_2) (k, v) = true.
Proof.
  set (compatible := λ row : N * WorkflowInstance,
    Ok (bool_decide (wf_kind row.2 = "child")) : res bool).
  assert (Hrun := run_ok (create_or_reuse_active (sample_workflow "child" None) compatible 9 80
    db_claimed) db_claimed (0%N, claimed_1, true) ltac:(vm_compute; reflexivity)).
  assert (E : outcome (create_or_reuse_active (sample_workflow "child" None) compatible 9 80
    db_claimed) (0%N, claimed_1, true) = (2%N, claimed_2, false)) by (vm_compute; reflexivity).
  rewrite E in Hrun.
  destruct (create_or_reuse_active_correct _ _ _ _ _ _ _ _ _ Hrun) as (_&H1&_&H2).
  split; [exact H1|]. intros k v Ha Hk. apply H2; [exact Ha|]. unfold compatible.
  by rewrite bool_decide_eq_true_2.
Defined.

(** ** Automation *)

Definition sample_trigger : TriggerState :=
  {| ts_name := "hourly"; ts_condition := Schedule 3600000;
     ts_target := {| tt_operation_class := ClassWorkflow; tt_kind := "campaign"; tt_parameters := ∅ |};
     ts_enabled := true; ts_next_run_at := None; ts_event_cursor := None |}.
Definition db_trigger : DB := committed (create_trigger sample_trigger 5 90 empty_db) empty_db.
Definition stored_trigger : AutomationTrigger :=
  outcome (create_trigger sample_trigger 5 90 empty_db)
    {| tr_name := ""; tr_condition := Manual; tr_target := ts_target sample_trigger;
       tr_enabled := false; tr_created_at := 0; tr_updated_at := 0; tr_last_fired_at := None;
       tr_next_run_at := None; tr_last_error := None; tr_event_cursor := None; tr_revision := 0 |}.

Lemma claim_trigger_firing_decided_witness :
  ∃ d', claim_trigger_firing_with_policy 5 "tick" 100 None true db_trigger = Ok (true, d') ∧
    firings d' = <[(5%N, "tick") := 100]> (firings db_trigger).
Proof.
  destruct (claim_trigger_firing_decided 5 "tick" 100 None true db_trigger stored_trigger)
    as (d'&H1&H2).
  - vm_compute. reflexivity.
  - replace (tr_enabled stored_trigger && _ && _) with true in * by (vm_compute; reflexivity).
    exists d'. destruct H2. auto.
Defined.

Definition dark : Value := VText "dark".

Definition db_document : DB := committed (put_document "settings" "theme" dark 5 empty_db) empty_db.


Lemma append_activity_is_latest_witness :
  latest_activity_id (committed (append_activity 1 "started" 45 db_claimed) db_claimed)
  = Ok (1, committed (append_activity 1 "started" 45 db_claimed) db_claimed).
Proof.
  assert (Hok := reachable_activity_ok _ reachable_claimed).
  apply (append_activity_is_latest 1 "started" 45 db_claimed 1
    {| act_workflow_id := 1%N; act_created_at := 45; act_message := "started" |}).
  - exact (proj2 Hok).
  - exact (proj1 Hok).
  - assert (E : outcome (append_activity 1 "started" 45 db_claimed)
      (0, {| act_workflow_id := 0%N; act_created_at := 0; act_message := "" |})
      = (1, {| act_workflow_id := 1%N; act_created_at := 45; act_message := "started" |}))
      by (vm_compute; reflexivity).
    rewrite <-E. apply run_ok. vm_compute. reflexivity.
Defined.

Lemma replace_workflow_targets_exact_witness :
  targets_actively (committed (replace_workflow_targets 1 [TSystem "Sol"; TLocation "Sol-3"] 50
      db_claimed) db_claimed) 1 ("system", "Sol") ↔
    ∃ t, t ∈ [TSystem "Sol"; TLocation "Sol-3"] ∧ target_identity t = ("system", "Sol").
Proof.
  apply (replace_workflow_targets_exact 1 [TSystem "Sol"; TLocation "Sol-3"] 50 db_claimed
    (outcome (replace_workflow_targets 1 [TSystem "Sol"; TLocation "Sol-3"] 50 db_claimed) [])).
  - intros k row Hrow. replace (targets db_claimed) with
      (∅ : gmap (N * (string * string)) TargetRow) in Hrow by (vm_compute; reflexivity).
    by rewrite lookup_empty in Hrow.
  - apply run_ok. vm_compute. reflexivity.
Defined.

(** ** Broker *)

Definition no_allocations : AllocationSet := ∅.


Lemma allocate_respects_capacity_witness :
  ∃ pool, pools db_allocated !! resource_to_string (Device "D-1") = Some pool ∧
    active_sum db_allocated (resource_to_string (Device "D-1")) ≤ pl_available_quantity pool.
Proof.
  apply (allocate_respects_capacity 11 0 [sample_candidate] [] [] (λ _ _, 21%N) db_planned
    (outcome (allocate_requirements_with_policy 11 0 [sample_candidate] [] [] (λ _ _, 21%N)
       db_planned) no_allocations)).
  - exact planned_ok.
  - apply run_ok. vm_compute. reflexivity.
  - vm_compute. reflexivity.
Defined.

(** ** Reachable databases *)

Lemma reachable_custody_exclusive_witness :
  (∀ k id1 id2, holds db_running id1 k → holds db_running id2 k → id1 = id2) ∧
  (∀ k id, holds db_running id k → live db_running id).
Proof. apply (reachable_custody_exclusive db_running). exact reachable_running. Defined.

Lemma reachable_reconcile_claims_noop_witness : reconcile_claims db_running = Ok (0, db_running).
Proof. apply (reachable_reconcile_claims_noop db_running). exact reachable_running. Defined.

Lemma reachable_running_iff_open_attempt_witness :
  ∃ n a, attempts db_running !! (11%N, n) = Some a ∧ is_open_attempt a = true.
Proof.
  apply (reachable_running_iff_open_attempt db_running 11 running_11).
  - exact reachable_running.
  - vm_compute. reflexivity.
  - vm_compute. reflexivity.
Defined.

Definition finished_1 : WorkflowInstance := instance_of (instances db_finished !! 1%N).

Lemma reachable_terminal_holds_nothing_witness :
  WorkflowStatus.is_terminal (wf_status finished_1) = true ∧ ∀ k, ¬ holds db_finished 1 k.
Proof.
  split; [vm_compute; reflexivity|].
  apply (reachable_terminal_holds_nothing db_finished 1 finished_1).
  - exact reachable_finished.
  - vm_compute. reflexivity.
  - vm_compute. reflexivity.
Defined.

Definition assigned_row : AssignmentRow :=
  {| as_item_id := 11%N; as_worker_namespace := "replicant"; as_worker_key := "R-1";
     as_state := AsgActive; as_reclaim_requested_at_ms := None; as_created_at_ms := 210;
     as_updated_at_ms := 210 |}.

Lemma reachable_assignments_exclusive_witness :
  ∃ i, work_items db_running !! 11%N = Some i ∧ in_progress (st_status (it_state i)) = true.
Proof.
  apply (reachable_assignments_exclusive db_running "asg-1" "asg-1" assigned_row assigned_row).
  - exact reachable_running.
  - vm_compute. reflexivity.
  - vm_compute. reflexivity.
  - reflexivity.
  - reflexivity.
Defined.

Lemma reachable_items_unique_witness : allocations_unique (allocations db_running).
Proof. apply (reachable_items_unique db_running). exact reachable_running. Defined.

Lemma running_to_finished : step db_running db_finished.
Proof.
  eapply (step_commit _ _ (update_state 1 1 (sample_state Cancelled) None None [] 300)
    (outcome (update_state 1 1 (sample_state Cancelled) None None [] 300 db_running) claimed_1)).
  - constructor.
  - apply run_ok. vm_compute. reflexivity.
Qed.

Lemma step_evolves_witness :
  reachable db_running ∧
  ∀ id i i', work_items db_running !! id = Some i → work_items db_finished !! id = Some i' →
    item_evolves i i'.
Proof.
  split; [exact reachable_running|].
  destruct (step_evolves db_running db_finished reachable_running running_to_finished) as [_ H].
  exact H.
Defined.

Lemma step_watermarks_witness :
  intelligence_revision db_running ≤ intelligence_revision db_finished.
Proof.
  destruct (step_watermarks db_running db_finished reachable_running running_to_finished) as [H _].
  exact H.
Defined.
