(* ===== verification/Registry.v ===== *)
(** * The workflow registry

    [crates/replicant-workflow/src/registry.rs] and the intent types of [model.rs]: the
    factories by workflow kind, which of them can load or migrate a stored instance, and
    the evidence the registry projects from every retained workflow, namely which devices
    workflows hold or await (placement intents) and which services they provide (service
    intents).  A factory is a record of the functions of the [WorkflowFactory] trait; the
    type of the executors it makes is a parameter. *)

From S2P Require Import Prelude Float64 Model Store Claims WorkItems Lifecycle.

(** ** White space *)

(** The length in bytes of the white space a UTF-8 text starts with, 0 if it does not. *)
Definition white_prefix (bytes : list Z) : nat :=
  match bytes with
  | [] => 0%nat
  | b :: bytes =>
      if bool_decide (9 ≤ b ≤ 13) || bool_decide (b = 32) then 1%nat
      else match bytes with
        | [] => 0%nat
        | c :: bytes =>
            if bool_decide (b = 0xC2) && (bool_decide (c = 0x85) || bool_decide (c = 0xA0)) then 2%nat
            else match bytes with
              | [] => 0%nat
              | d :: _ =>
                  if (bool_decide (b = 0xE1) && bool_decide (c = 0x9A) && bool_decide (d = 0x80))
                     || (bool_decide (b = 0xE2) && bool_decide (c = 0x80)
                         && (bool_decide (0x80 ≤ d ≤ 0x8A) || bool_decide (d ∈ [0xA8; 0xA9; 0xAF])))
                     || (bool_decide (b = 0xE2) && bool_decide (c = 0x81) && bool_decide (d = 0x9F))
                     || (bool_decide (b = 0xE3) && bool_decide (c = 0x80) && bool_decide (d = 0x80))
                  then 3%nat else 0%nat
              end
        end
  end.

(** [trim_start]: every removed character is at least one byte, so the length is enough. *)
Fixpoint drop_white (fuel : nat) (l : list Ascii.ascii) : list Ascii.ascii :=
  match fuel with
  | O => l
  | S fuel =>
      match white_prefix ((λ c, Z.of_N (Ascii.N_of_ascii c)) <$> l) with
      | O => l
      | n => drop_white fuel (drop n l)
      end
  end.

(** [trim_end]: the shortest prefix after which there is only white space. *)
Fixpoint keep_to_last (l : list Ascii.ascii) : list Ascii.ascii :=
  match drop_white (length l) l with
  | [] => []
  | _ => match l with c :: l => c :: keep_to_last l | [] => [] end
  end.

(** [str::trim] *)
Definition trim (s : string) : string :=
  let l := String.list_ascii_of_string s in
  String.string_of_list_ascii (keep_to_last (drop_white (length l) l)).

(** ** Orders and duplicates *)

Definition lex (c d : comparison) : comparison := match c with Eq => d | _ => c end.
Definition leb_of {A} (cmp : A → A → comparison) (a b : A) : bool :=
  match cmp a b with Gt => false | _ => true end.
Definition option_cmp {A} (cmp : A → A → comparison) (a b : option A) : comparison :=
  match a, b with
  | None, None => Eq
  | None, Some _ => Lt
  | Some _, None => Gt
  | Some a, Some b => cmp a b
  end.
Fixpoint list_cmp {A} (cmp : A → A → comparison) (a b : list A) : comparison :=
  match a, b with
  | [], [] => Eq
  | [], _ => Lt
  | _, [] => Gt
  | x :: a, y :: b => lex (cmp x y) (list_cmp cmp a b)
  end.
Definition pair_cmp {A B} (f : A → A → comparison) (g : B → B → comparison) (a b : A * B) : comparison :=
  lex (f a.1 b.1) (g a.2 b.2).

(** [Vec::dedup]: of equal neighbours the first is kept. *)
Fixpoint dedup {A} `{EqDecision A} (l : list A) : list A :=
  match l with
  | [] => []
  | x :: l => match l with
      | [] => [x]
      | y :: _ => if decide (x = y) then dedup l else x :: dedup l
      end
  end.

Lemma elem_of_deduped {A} `{EqDecision A} (l : list A) x : x ∈ dedup l ↔ x ∈ l.
Proof.
  induction l as [|y l IH]; [done|]. destruct l as [|z l]; [done|].
  change (dedup (y :: z :: l)) with (if decide (y = z) then dedup (z :: l) else y :: dedup (z :: l)).
  case_decide; [subst; set_solver|]. by rewrite !elem_of_cons, IH, elem_of_cons.
Qed.

(** ** Service intents *)

Record WorkflowServiceIntent := { si_service : string; si_dimensions : gmap string string }.
#[global] Instance WorkflowServiceIntent_eq : EqDecision WorkflowServiceIntent.
Proof. solve_decision. Defined.

Inductive WorkflowServiceScope := ScopeGlobal | ScopeRegion (value : string) | ScopeSystem (value : string).
#[global] Instance WorkflowServiceScope_eq : EqDecision WorkflowServiceScope.
Proof. solve_decision. Defined.

Definition canonical_scope_value (value : string) : string := to_ascii_lowercase (trim value).
Definition canonical_scope (self : WorkflowServiceScope) : WorkflowServiceScope :=
  match self with
  | ScopeGlobal => ScopeGlobal
  | ScopeRegion value => ScopeRegion (canonical_scope_value value)
  | ScopeSystem value => ScopeSystem (canonical_scope_value value)
  end.

Inductive ServiceCoverage := ServiceNotApplicable | ServiceComplete | ServiceUnknown.
#[global] Instance ServiceCoverage_eq : EqDecision ServiceCoverage.
Proof. solve_decision. Defined.

(** [WorkflowServiceIntentProjection]; the set of scopes is its ordered list. *)
Record ServiceProjection := {
  sv_coverage : ServiceCoverage;
  sv_intents : list WorkflowServiceIntent;
  sv_unknown_scopes : list WorkflowServiceScope;
}.

(** [WorkflowServiceIntentEvidence] *)
Record ServiceEvidence := {
  se_workflow_id : WorkflowId;
  se_workflow_kind : string;
  se_workflow_status : WorkflowStatus;
  se_intents : list WorkflowServiceIntent;
  se_unknown_scopes : list WorkflowServiceScope;
}.
#[global] Instance ServiceEvidence_eq : EqDecision ServiceEvidence.
Proof. solve_decision. Defined.

(** [WorkflowServiceIntentState] *)
Inductive ServiceState :=
| ServicePresent (ids : list WorkflowId)
| ServiceAbsent
| ServiceStateUnknown (ids : list WorkflowId).

Definition scope_applies (scope : WorkflowServiceScope) (region system : option string) : bool :=
  match scope with
  | ScopeGlobal => true
  | ScopeRegion value =>
      match region with
      | Some target => bool_decide (canonical_scope_value value = canonical_scope_value target)
      | None => false
      end
  | ScopeSystem value =>
      match system with
      | Some target => bool_decide (canonical_scope_value value = canonical_scope_value target)
      | None => false
      end
  end.

Definition sorted_ids (ids : list WorkflowId) : list WorkflowId := dedup (sort_by N.leb ids).

(** [WorkflowServiceIntentSnapshot::state_for] *)
Definition state_for (live : list ServiceEvidence) (target : WorkflowServiceIntent)
    (region system : option string) : ServiceState :=
  let provides evidence := bool_decide (target ∈ se_intents evidence) in
  let unknown evidence := negb (provides evidence)
    && existsb (λ scope, scope_applies scope region system) (se_unknown_scopes evidence) in
  match sorted_ids (se_workflow_id <$> List.filter provides live) with
  | [] =>
      match sorted_ids (se_workflow_id <$> List.filter unknown live) with
      | [] => ServiceAbsent
      | ids => ServiceStateUnknown ids
      end
  | ids => ServicePresent ids
  end.

(** ** Placement intents *)

Inductive PlacementSubject := SubjectDevice (code : string) | SubjectTag (tag : string).
#[global] Instance PlacementSubject_eq : EqDecision PlacementSubject.
Proof. solve_decision. Defined.

Inductive PlacementRelation := Claimed | Staged | Transported | Awaited | Deployed.
#[global] Instance PlacementRelation_eq : EqDecision PlacementRelation.
Proof. solve_decision. Defined.

Inductive PlacementCoverage := PlacementComplete | PlacementUnknown.
#[global] Instance PlacementCoverage_eq : EqDecision PlacementCoverage.
Proof. solve_decision. Defined.

(** [WorkflowPlacementResolution] with its [WorkflowPlacementProvenance] *)
Record PlacementResolution := {
  pr_device_code : string;
  pr_workflow_id : WorkflowId;
  pr_work_item_id : option WorkItemId;
}.
#[global] Instance PlacementResolution_eq : EqDecision PlacementResolution.
Proof. solve_decision. Defined.

Record PlacementIntent := {
  pi_subject : PlacementSubject;
  pi_relation : PlacementRelation;
  pi_work_item_id : option WorkItemId;
  pi_expected_location : option string;
}.
#[global] Instance PlacementIntent_eq : EqDecision PlacementIntent.
Proof. solve_decision. Defined.

Record PlacementProjection := {
  pp_coverage : PlacementCoverage;
  pp_intents : list PlacementIntent;
  pp_resolutions : list PlacementResolution;
}.

Record PlacementEvidence := {
  pe_workflow_id : WorkflowId;
  pe_workflow_kind : string;
  pe_workflow_status : WorkflowStatus;
  pe_intent : PlacementIntent;
}.
#[global] Instance PlacementEvidence_eq : EqDecision PlacementEvidence.
Proof. solve_decision. Defined.

(** [WorkflowPlacementIntentSnapshot] *)
Record PlacementSnapshot := {
  ps_live : list PlacementEvidence;
  ps_settled_placements : list PlacementEvidence;
  ps_terminal_residuals : list PlacementEvidence;
  ps_failed_transient : list PlacementEvidence;
  ps_resolved_transient : list PlacementEvidence;
  ps_resolutions : list PlacementResolution;
  ps_unknown_live_workflows : list WorkflowId;
  ps_unknown_terminal_outcomes : list WorkflowId;
}.

Definition default_snapshot : PlacementSnapshot := {|
  ps_live := []; ps_settled_placements := []; ps_terminal_residuals := []; ps_failed_transient := [];
  ps_resolved_transient := []; ps_resolutions := []; ps_unknown_live_workflows := [];
  ps_unknown_terminal_outcomes := [] |}.

(** [WorkflowPlacementEvidence] *)
Record DeviceEvidence := {
  de_live : list PlacementEvidence;
  de_settled_placements : list PlacementEvidence;
  de_terminal_residuals : list PlacementEvidence;
  de_failed_transient : list PlacementEvidence;
  de_resolved_transient : list PlacementEvidence;
  de_unknown_live_workflows : list WorkflowId;
  de_unknown_terminal_outcomes : list WorkflowId;
}.

Definition canonical_device_code (code : string) : string := to_ascii_uppercase (trim code).

(** [explain_device]: the evidence that names the device or one of its tags. *)
Definition evidence_matches (code : string) (tags : list string) (evidence : PlacementEvidence) : bool :=
  match pi_subject (pe_intent evidence) with
  | SubjectDevice subject => bool_decide (canonical_device_code subject = canonical_device_code code)
  | SubjectTag tag => bool_decide (tag ∈ tags)
  end.

Definition explain_device (self : PlacementSnapshot) (code : string) (tags : list string) : DeviceEvidence :=
  let those := List.filter (evidence_matches code tags) in
  {| de_live := those (ps_live self); de_settled_placements := those (ps_settled_placements self);
     de_terminal_residuals := those (ps_terminal_residuals self);
     de_failed_transient := those (ps_failed_transient self);
     de_resolved_transient := those (ps_resolved_transient self);
     de_unknown_live_workflows := ps_unknown_live_workflows self;
     de_unknown_terminal_outcomes := ps_unknown_terminal_outcomes self |}.

(** ** Waits *)

Record WaitIntent := {
  wi_description : string;
  wi_event_name : option string;
  wi_event_names : list string;
  wi_device_code : option string;
  wi_device_codes : list string;
  wi_cursor : option string;
  wi_deadline_millis : option Z;      (* i64 *)
  wi_poll_interval_millis : option Z; (* u64 *)
}.

(** [Value::Null], and the decoding of the JSON columns of an instance: [serde_json::from_str] of a value and
    of a wait intent, and the value a wait intent is written as. *)
Class Decode `{SD : Serde} := {
  json_null : Value;
  value_from_str : string → option Value;
  wait_from_str : string → option WaitIntent;
  wait_to_value : WaitIntent → Value;
}.

Section Registry.
Context `{SD : Serde} `{RO : RowOrder} {DC : Decode}.

(** [WorkflowInstance::wait_intent], [checkpoint::<Value>] and [result::<Value>] *)
Definition wait_intent (self : WorkflowInstance) : res (option WaitIntent) :=
  match wf_wait_intent_json self with
  | None => Ok None
  | Some text => intent ← ok_or (wait_from_str text) Serialization; Ok (Some intent)
  end.
Definition checkpoint_value (self : WorkflowInstance) : res Value :=
  ok_or (value_from_str (wf_checkpoint_json self)) Serialization.
Definition result_value (self : WorkflowInstance) : res (option Value) :=
  match wf_result_json self with
  | None => Ok None
  | Some text => result ← ok_or (value_from_str text) Serialization; Ok (Some result)
  end.

(** ** Factories *)

(** [WorkflowMigration] *)
Record WorkflowMigration := { mg_config : Value; mg_checkpoint : Value }.

Inductive RegistryError :=
| DuplicateKind (kind : string)
| UnknownKind (kind : string)
| UnsupportedSchemaVersion (kind : string) (version : Z)
| MigrationFailed (kind : string) (from to : Z) (reason : string).

(** The methods of the [WorkflowFactory] trait; a stored instance is its identifier with
    its row. *)
Record WorkflowFactory (Executor : Type) := {
  fa_kind : string;
  fa_current_schema_version : Z; (* u32 *)
  fa_supports_schema_version : Z → bool;
  fa_migrate : N * WorkflowInstance → result string (option WorkflowMigration);
  fa_create_executor : option Executor;
  fa_placement_intents : N * WorkflowInstance → list (N * WorkItem) → result string PlacementProjection;
  fa_service_intents : N * WorkflowInstance → result string ServiceProjection;
}.

(** The default methods of the trait. *)
Definition default_factory (Executor : Type) (kind : string) (version : Z) : WorkflowFactory Executor := {|
  fa_kind := kind; fa_current_schema_version := version;
  fa_supports_schema_version := λ v, bool_decide (v = version);
  fa_migrate := λ _, Ok None; fa_create_executor := None;
  fa_placement_intents := λ _ _,
    Ok {| pp_coverage := PlacementUnknown; pp_intents := []; pp_resolutions := [] |};
  fa_service_intents := λ _,
    Ok {| sv_coverage := ServiceNotApplicable; sv_intents := []; sv_unknown_scopes := [] |} |}.

Section Factories.
Context {Executor : Type}.
Abbreviation Factory := (WorkflowFactory Executor).
Abbreviation WorkflowRegistry := (gmap string Factory).

(** [register] *)
Definition register (self : WorkflowRegistry) (factory : Factory) : result RegistryError WorkflowRegistry :=
  let kind := fa_kind _ factory in
  match self !! kind with
  | None => Ok (<[kind := factory]> self)
  | Some _ => Err (DuplicateKind kind)
  end.

(** [resolve] *)
Definition resolve (self : WorkflowRegistry) (instance : WorkflowInstance) : result RegistryError Factory :=
  factory ← ok_or (self !! wf_kind instance) (UnknownKind (wf_kind instance));
  if negb (fa_supports_schema_version _ factory (wf_schema_version instance))
  then Err (UnsupportedSchemaVersion (wf_kind instance) (wf_schema_version instance))
  else Ok factory.

(** [migration] *)
Definition migration (self : WorkflowRegistry) (instance : N * WorkflowInstance)
    : result RegistryError (option (Z * WorkflowMigration)) :=
  let kind := wf_kind instance.2 in
  let version := wf_schema_version instance.2 in
  factory ← ok_or (self !! kind) (UnknownKind kind);
  let current := fa_current_schema_version _ factory in
  if decide (version = current) then Ok None
  else if negb (fa_supports_schema_version _ factory version)
  then Err (UnsupportedSchemaVersion kind version)
  else
    match fa_migrate _ factory instance with
    | Err reason => Err (MigrationFailed kind version current reason)
    | Ok None => Err (MigrationFailed kind version current
        "factory declared this version supported but returned no migration")
    | Ok (Some migration) => Ok (Some (current, migration))
    end.

(** ** Service evidence *)

Definition scope_cmp (a b : WorkflowServiceScope) : comparison :=
  match a, b with
  | ScopeGlobal, ScopeGlobal => Eq
  | ScopeGlobal, _ => Lt
  | ScopeRegion _, ScopeGlobal => Gt
  | ScopeRegion x, ScopeRegion y => String.compare x y
  | ScopeRegion _, ScopeSystem _ => Lt
  | ScopeSystem x, ScopeSystem y => String.compare x y
  | ScopeSystem _, _ => Gt
  end.
Definition service_intent_cmp (a b : WorkflowServiceIntent) : comparison :=
  let entries m := sort_by (λ a b : string * string, str_pair_leb a b) (map_to_list (si_dimensions m)) in
  lex (String.compare (si_service a) (si_service b))
      (list_cmp (pair_cmp String.compare String.compare) (entries a) (entries b)).

Definition status_rank (status : WorkflowStatus) : N :=
  match status with
  | Queued => 0 | Running => 1 | Waiting => 2 | Reconciling => 3 | Paused => 4
  | Succeeded => 5 | Failed => 6 | Cancelled => 7
  end.

Definition global_unknown_evidence (instance : N * WorkflowInstance) : ServiceEvidence :=
  {| se_workflow_id := instance.1; se_workflow_kind := wf_kind instance.2;
     se_workflow_status := wf_status instance.2; se_intents := []; se_unknown_scopes := [ScopeGlobal] |}.

Definition canonicalize_service_projection (projection : ServiceProjection) : ServiceProjection :=
  {| sv_coverage := sv_coverage projection;
     sv_intents := dedup (sort_by (leb_of service_intent_cmp) (sv_intents projection));
     sv_unknown_scopes := dedup (sort_by (leb_of scope_cmp) (canonical_scope <$> sv_unknown_scopes projection)) |}.

Definition is_blank_text (s : string) : bool := bool_decide (trim s = "").

Definition valid_service_projection (projection : ServiceProjection) : bool :=
  forallb (λ intent, negb (is_blank_text (si_service intent))
      && forallb (λ e : string * string, negb (is_blank_text e.1) && negb (is_blank_text e.2))
           (map_to_list (si_dimensions intent))) (sv_intents projection)
  && forallb (λ scope, match scope with
       | ScopeGlobal => true
       | ScopeRegion value | ScopeSystem value => negb (is_blank_text value)
       end) (sv_unknown_scopes projection)
  && match sv_coverage projection with
     | ServiceNotApplicable => bool_decide (sv_intents projection = []) && bool_decide (sv_unknown_scopes projection = [])
     | ServiceComplete => bool_decide (sv_unknown_scopes projection = [])
     | ServiceUnknown => negb (bool_decide (sv_unknown_scopes projection = []))
     end.

(** [service_intent_evidence] *)
Definition service_intent_evidence (self : WorkflowRegistry) (instance : N * WorkflowInstance) : option ServiceEvidence :=
  match self !! wf_kind instance.2 with
  | None => Some (global_unknown_evidence instance)
  | Some factory =>
      if negb (fa_supports_schema_version _ factory (wf_schema_version instance.2))
      then Some (global_unknown_evidence instance)
      else
        match fa_service_intents _ factory instance with
        | Err _ => Some (global_unknown_evidence instance)
        | Ok projection =>
            let projection := canonicalize_service_projection projection in
            if negb (valid_service_projection projection) then Some (global_unknown_evidence instance)
            else if decide (sv_coverage projection = ServiceNotApplicable) then None
            else Some {| se_workflow_id := instance.1; se_workflow_kind := wf_kind instance.2;
                         se_workflow_status := wf_status instance.2; se_intents := sv_intents projection;
                         se_unknown_scopes := sv_unknown_scopes projection |}
        end
  end.

Definition service_evidence_cmp (a b : ServiceEvidence) : comparison :=
  lex (N.compare (se_workflow_id a) (se_workflow_id b))
  (lex (String.compare (se_workflow_kind a) (se_workflow_kind b))
  (lex (N.compare (status_rank (se_workflow_status a)) (status_rank (se_workflow_status b)))
  (lex (list_cmp service_intent_cmp (se_intents a) (se_intents b))
       (list_cmp scope_cmp (se_unknown_scopes a) (se_unknown_scopes b))))).

(** [service_intent_snapshot] *)
Definition service_intent_snapshot (self : WorkflowRegistry) (excluded : option WorkflowId) : rtx (list ServiceEvidence) :=
  instances ← list_active;
  let live := omap (λ instance : N * WorkflowInstance,
    if decide (excluded = Some instance.1) then None else service_intent_evidence self instance) instances in
  mret (dedup (sort_by (leb_of service_evidence_cmp) live)).

(** [service_intent_state_for_instance] *)
Definition service_intent_state_for_instance (self : WorkflowRegistry) (instance : N * WorkflowInstance)
    (target : WorkflowServiceIntent) (region system : option string) : ServiceState :=
  state_for (option_list (service_intent_evidence self instance)) target region system.

(** ** Placement evidence *)

Definition is_live (status : WorkflowStatus) : bool :=
  match status with
  | Queued | Running | Waiting | Reconciling | Paused => true
  | Succeeded | Failed | Cancelled => false
  end.

Definition canonicalize_intent (intent : PlacementIntent) : PlacementIntent :=
  match pi_subject intent with
  | SubjectDevice code =>
      {| pi_subject := SubjectDevice (canonical_device_code code); pi_relation := pi_relation intent;
         pi_work_item_id := pi_work_item_id intent; pi_expected_location := pi_expected_location intent |}
  | SubjectTag _ => intent
  end.
Definition canonicalize_resolution (resolution : PlacementResolution) : PlacementResolution :=
  {| pr_device_code := canonical_device_code (pr_device_code resolution);
     pr_workflow_id := pr_workflow_id resolution; pr_work_item_id := pr_work_item_id resolution |}.
Definition canonicalize_projection (projection : PlacementProjection) : PlacementProjection :=
  {| pp_coverage := pp_coverage projection; pp_intents := canonicalize_intent <$> pp_intents projection;
     pp_resolutions := canonicalize_resolution <$> pp_resolutions projection |}.

Definition valid_projection (projection : PlacementProjection) : bool :=
  bool_decide (pp_coverage projection = PlacementComplete)
  && forallb (λ intent, match pi_relation intent with
       | Deployed => bool_decide (is_Some (pi_expected_location intent))
       | Claimed | Staged | Transported | Awaited => bool_decide (pi_expected_location intent = None)
       end) (pp_intents projection).

Definition subject_cmp (a b : PlacementSubject) : comparison :=
  match a, b with
  | SubjectDevice x, SubjectDevice y => String.compare x y
  | SubjectDevice _, SubjectTag _ => Lt
  | SubjectTag _, SubjectDevice _ => Gt
  | SubjectTag x, SubjectTag y => String.compare x y
  end.
Definition relation_rank (relation : PlacementRelation) : N :=
  match relation with Claimed => 0 | Staged => 1 | Transported => 2 | Awaited => 3 | Deployed => 4 end.
Definition intent_cmp (a b : PlacementIntent) : comparison :=
  lex (subject_cmp (pi_subject a) (pi_subject b))
  (lex (N.compare (relation_rank (pi_relation a)) (relation_rank (pi_relation b)))
  (lex (option_cmp N.compare (pi_work_item_id a) (pi_work_item_id b))
       (option_cmp String.compare (pi_expected_location a) (pi_expected_location b)))).
(** [evidence_sort_key] *)
Definition evidence_cmp (a b : PlacementEvidence) : comparison :=
  lex (N.compare (pe_workflow_id a) (pe_workflow_id b))
  (lex (String.compare (pe_workflow_kind a) (pe_workflow_kind b))
  (lex (N.compare (status_rank (pe_workflow_status a)) (status_rank (pe_workflow_status b)))
       (intent_cmp (pe_intent a) (pe_intent b)))).
Definition resolution_cmp (a b : PlacementResolution) : comparison :=
  lex (String.compare (pr_device_code a) (pr_device_code b))
  (lex (N.compare (pr_workflow_id a) (pr_workflow_id b))
       (option_cmp N.compare (pr_work_item_id a) (pr_work_item_id b))).

Definition evidence_of (instance : N * WorkflowInstance) (intent : PlacementIntent) : PlacementEvidence :=
  {| pe_workflow_id := instance.1; pe_workflow_kind := wf_kind instance.2;
     pe_workflow_status := wf_status instance.2; pe_intent := intent |}.

(** The devices a stored wait names. *)
Definition awaited_codes (wait : WaitIntent) : list string :=
  dedup (sort_by String.leb (canonical_device_code <$> option_list (wi_device_code wait) ++ wi_device_codes wait)).
Definition device_intent (relation : PlacementRelation) (code : string) : PlacementIntent :=
  {| pi_subject := SubjectDevice code; pi_relation := relation; pi_work_item_id := None;
     pi_expected_location := None |}.

(** The projection of one instance, when the factory resolves it and the projection is
    complete and well formed. *)
Definition project (self : WorkflowRegistry) (items : gmap N (list (N * WorkItem)))
    (instance : N * WorkflowInstance) : option PlacementProjection :=
  match resolve self instance.2 with
  | Err _ => None
  | Ok factory =>
      match fa_placement_intents _ factory instance (default [] (items !! instance.1)) with
      | Err _ => None
      | Ok projection =>
          let projection := canonicalize_projection projection in
          if valid_projection projection then Some projection else None
      end
  end.

Definition is_transient (intent : PlacementIntent) : bool :=
  match pi_relation intent with Claimed | Staged | Transported | Awaited => true | Deployed => false end.

Definition more_live (l : list PlacementEvidence) (s : PlacementSnapshot) : PlacementSnapshot :=
  {| ps_live := ps_live s ++ l; ps_settled_placements := ps_settled_placements s;
     ps_terminal_residuals := ps_terminal_residuals s; ps_failed_transient := ps_failed_transient s;
     ps_resolved_transient := ps_resolved_transient s; ps_resolutions := ps_resolutions s;
     ps_unknown_live_workflows := ps_unknown_live_workflows s;
     ps_unknown_terminal_outcomes := ps_unknown_terminal_outcomes s |}.
Definition more_unknown_live (id : WorkflowId) (s : PlacementSnapshot) : PlacementSnapshot :=
  {| ps_live := ps_live s; ps_settled_placements := ps_settled_placements s;
     ps_terminal_residuals := ps_terminal_residuals s; ps_failed_transient := ps_failed_transient s;
     ps_resolved_transient := ps_resolved_transient s; ps_resolutions := ps_resolutions s;
     ps_unknown_live_workflows := ps_unknown_live_workflows s ++ [id];
     ps_unknown_terminal_outcomes := ps_unknown_terminal_outcomes s |}.
Definition more_unknown_terminal (id : WorkflowId) (s : PlacementSnapshot) : PlacementSnapshot :=
  {| ps_live := ps_live s; ps_settled_placements := ps_settled_placements s;
     ps_terminal_residuals := ps_terminal_residuals s; ps_failed_transient := ps_failed_transient s;
     ps_resolved_transient := ps_resolved_transient s; ps_resolutions := ps_resolutions s;
     ps_unknown_live_workflows := ps_unknown_live_workflows s;
     ps_unknown_terminal_outcomes := ps_unknown_terminal_outcomes s ++ [id] |}.
Definition more_terminal (settled residual failed : list PlacementEvidence)
    (resolutions : list PlacementResolution) (s : PlacementSnapshot) : PlacementSnapshot :=
  {| ps_live := ps_live s; ps_settled_placements := ps_settled_placements s ++ settled;
     ps_terminal_residuals := ps_terminal_residuals s ++ residual;
     ps_failed_transient := ps_failed_transient s ++ failed;
     ps_resolved_transient := ps_resolved_transient s; ps_resolutions := ps_resolutions s ++ resolutions;
     ps_unknown_live_workflows := ps_unknown_live_workflows s;
     ps_unknown_terminal_outcomes := ps_unknown_terminal_outcomes s |}.

(** The evidence of a stored wait of a live instance. *)
Definition add_wait (instance : N * WorkflowInstance) (snapshot : PlacementSnapshot) : PlacementSnapshot :=
  match wait_intent instance.2 with
  | Ok (Some wait) => more_live (evidence_of instance <$> (device_intent Awaited <$> awaited_codes wait)) snapshot
  | Ok None => snapshot
  | Err _ => more_unknown_live instance.1 snapshot
  end.

(** The evidence of the instance's projection. *)
Definition add_projection (self : WorkflowRegistry) (excluded : option WorkflowId)
    (items : gmap N (list (N * WorkItem))) (instance : N * WorkflowInstance) (snapshot : PlacementSnapshot)
    : PlacementSnapshot :=
  let live := is_live (wf_status instance.2) in
  let included := bool_decide (excluded ≠ Some instance.1) in
  match project self items instance with
  | None =>
      if live && included then more_unknown_live instance.1 snapshot
      else if WorkflowStatus.is_terminal (wf_status instance.2) then more_unknown_terminal instance.1 snapshot
      else snapshot
  | Some projection =>
      let deployed intent := bool_decide (pi_relation intent = Deployed) in
      let intents := pp_intents projection in
      let those p := evidence_of instance <$> List.filter p intents in
      if live then
        (if included then more_live (evidence_of instance <$> intents) snapshot else snapshot)
      else
        match wf_status instance.2 with
        | Succeeded => more_terminal (those deployed) (those (λ i, negb (deployed i))) []
                         (pp_resolutions projection) snapshot
        | Cancelled => more_terminal [] (those (λ i, negb (deployed i))) [] [] snapshot
        | Failed => more_terminal [] [] (those is_transient) [] snapshot
        | _ => snapshot
        end
  end.

(** One round of the loop over the instances. *)
Definition add_instance (self : WorkflowRegistry) (excluded : option WorkflowId)
    (items : gmap N (list (N * WorkItem))) (snapshot : PlacementSnapshot) (instance : N * WorkflowInstance)
    : PlacementSnapshot :=
  let snapshot := if is_live (wf_status instance.2) && bool_decide (excluded ≠ Some instance.1)
                  then add_wait instance snapshot else snapshot in
  add_projection self excluded items instance snapshot.

(** One round of the loop over the claims. *)
Definition add_claim (excluded : option WorkflowId) (instances : list (N * WorkflowInstance))
    (snapshot : PlacementSnapshot) (claim : ResourceClaim) : PlacementSnapshot :=
  match rc_resource claim with
  | Device code =>
      match List.find (λ instance : N * WorkflowInstance, (instance.1 =? rc_workflow_id claim)%N) instances with
      | None => snapshot
      | Some owner =>
          if bool_decide (excluded = Some (rc_workflow_id claim)) || negb (is_live (wf_status owner.2))
          then snapshot
          else more_live [evidence_of owner (device_intent Claimed (canonical_device_code code))] snapshot
      end
  | _ => snapshot
  end.

(** Whether a succeeded workflow resolved the episode of a failed one. *)
Definition is_resolved (resolutions : list PlacementResolution) (evidence : PlacementEvidence) : bool :=
  match pi_subject (pe_intent evidence) with
  | SubjectDevice code =>
      existsb (λ resolution,
        bool_decide (canonical_device_code (pr_device_code resolution) = canonical_device_code code)
        && bool_decide (pr_workflow_id resolution = pe_workflow_id evidence)
        && bool_decide (pr_work_item_id resolution = pi_work_item_id (pe_intent evidence))) resolutions
  | SubjectTag _ => false
  end.

(** [subtract_resolved] *)
Definition subtract_resolved (s : PlacementSnapshot) : PlacementSnapshot :=
  let resolved := is_resolved (ps_resolutions s) in
  {| ps_live := ps_live s; ps_settled_placements := ps_settled_placements s;
     ps_terminal_residuals := ps_terminal_residuals s;
     ps_failed_transient := List.filter (λ e, negb (resolved e)) (ps_failed_transient s);
     ps_resolved_transient := ps_resolved_transient s ++ List.filter resolved (ps_failed_transient s);
     ps_resolutions := ps_resolutions s; ps_unknown_live_workflows := ps_unknown_live_workflows s;
     ps_unknown_terminal_outcomes := ps_unknown_terminal_outcomes s |}.

(** The final ordering of every list, without duplicates. *)
Definition sort_snapshot (s : PlacementSnapshot) : PlacementSnapshot :=
  let ordered l := dedup (sort_by (leb_of evidence_cmp) l) in
  {| ps_live := ordered (ps_live s); ps_settled_placements := ordered (ps_settled_placements s);
     ps_terminal_residuals := ordered (ps_terminal_residuals s);
     ps_failed_transient := ordered (ps_failed_transient s);
     ps_resolved_transient := ordered (ps_resolved_transient s);
     ps_resolutions := dedup (sort_by (leb_of resolution_cmp) (ps_resolutions s));
     ps_unknown_live_workflows := sorted_ids (ps_unknown_live_workflows s);
     ps_unknown_terminal_outcomes := sorted_ids (ps_unknown_terminal_outcomes s) |}.

(** [list_work_items_for_workflows]: the rows of each workflow by sort key and identifier. *)
Definition item_row_leb (a b : N * WorkItem) : bool :=
  if decide (sp_sort_key (it_spec a.2) = sp_sort_key (it_spec b.2)) then (a.1 <=? b.1)%N
  else String.leb (sp_sort_key (it_spec a.2)) (sp_sort_key (it_spec b.2)).
Definition list_work_items_for_workflows (ids : list WorkflowId) : rtx (gmap N (list (N * WorkItem))) :=
  gets (λ d, list_to_map ((λ id, (id, sort_by item_row_leb
    (select (λ _ i, bool_decide (sp_workflow_id (it_spec i) = id)) (work_items d)))) <$> ids)).

(** [placement_intent_snapshot], of the rows its three queries return. *)
Definition placement_intent_snapshot (self : WorkflowRegistry) (excluded : option WorkflowId)
    (instances : list (N * WorkflowInstance)) (items : gmap N (list (N * WorkItem)))
    (claims : list ResourceClaim) : PlacementSnapshot :=
  let snapshot := foldl (add_instance self excluded items) default_snapshot instances in
  let snapshot := foldl (add_claim excluded instances) snapshot claims in
  sort_snapshot (subtract_resolved snapshot).

End Factories.
End Registry.

Arguments register {_ _} self factory.
