(* ===== verification/RegistryFacts.v ===== *)
(** * Facts about the registry's evidence

    Canonical device codes and scope names, the completeness of the placement snapshot, and
    what an absent service means. *)

From S2P Require Import Prelude Float64 Model Store Claims WorkItems Lifecycle Registry.

(** ** Trimming *)

Section Trim.
Implicit Types l : list Ascii.ascii.

Definition codes l : list Z := (λ c, Z.of_N (Ascii.N_of_ascii c)) <$> l.
Definition white l : nat := white_prefix (codes l).

(** A text that is white space only. *)
Inductive all_white : list Ascii.ascii → Prop :=
| all_white_nil : all_white []
| all_white_step l : (0 < white l)%nat → all_white (drop (white l) l) → all_white l.

Lemma drop_white_S n l :
  drop_white (S n) l = match white l with O => l | m => drop_white n (drop m l) end.
Proof. done. Qed.

Ltac white_cases :=
  repeat match goal with
  | |- context [if ?b then _ else _] => destruct b eqn:?
  | H : context [if ?b then _ else _] |- _ => destruct b eqn:?
  end.

Lemma white_length l : (white l ≤ length l)%nat.
Proof.
  unfold white. destruct l as [|a [|b [|c l]]]; cbn -[bool_decide]; white_cases; lia.
Qed.

Lemma white_app l k : (0 < white l)%nat → white (l ++ k) = white l.
Proof.
  unfold white. destruct l as [|a [|b [|c l]]]; cbn -[bool_decide]; intros Hl; [lia|..]; white_cases; done || lia.
Qed.

Lemma white_prefix_zero l k : white (l ++ k) = 0%nat → white l = 0%nat.
Proof. intros H. destruct (white l) eqn:E; [done|]. rewrite white_app in H; lia. Qed.

Lemma all_white_app l k : all_white l → all_white k → all_white (l ++ k).
Proof.
  induction 1 as [|l Hl _ IH]; [done|]. intros Hk. assert (Hlen := white_length l).
  apply all_white_step; rewrite white_app by done; [done|].
  rewrite drop_app_le by done. auto.
Qed.

Lemma drop_white_spec n l :
  (length l ≤ n)%nat → white (drop_white n l) = 0%nat ∧ (drop_white n l = [] ↔ all_white l) ∧
  drop_white n l `suffix_of` l.
Proof.
  revert l. induction n as [|n IH]; intros l Hl.
  { destruct l; [|simpl in *; lia]. split_and!; [done| |done]. split; [constructor|done]. }
  rewrite drop_white_S. destruct (white l) as [|m] eqn:E.
  - split_and!; [done| |done]. split; [intros ->; constructor|]. intros Hw. inversion Hw; subst; [done|lia].
  - assert (Hlen := white_length l). destruct (IH (drop (S m) l)) as (H1&H2&H3); [rewrite length_drop; lia|].
    split_and!; [done| |etrans; [exact H3|exists (take (S m) l); by rewrite take_drop]].
    rewrite H2. split.
    + intros Hw. apply all_white_step; rewrite E; [lia|done].
    + intros Hw. inversion Hw; subst; [done|]. by rewrite <-E.
Qed.

Lemma drop_white_id n l : white l = 0%nat → drop_white n l = l.
Proof. intros Hl. destruct n; [done|]. by rewrite drop_white_S, Hl. Qed.

Lemma keep_to_last_spec l : ∃ k, l = keep_to_last l ++ k ∧ all_white k.
Proof.
  induction l as [|c l (k&IH&Hk)]; [exists []; split; [done|constructor]|].
  cbn [keep_to_last]. destruct (drop_white_spec (length (c :: l)) (c :: l) ltac:(done)) as (_&Hw&_).
  destruct (drop_white _ _) eqn:E; [exists (c :: l); split; [done|by apply Hw]|].
  exists k. split; [|done]. simpl. by f_equal.
Qed.

Lemma keep_to_last_idem l : keep_to_last (keep_to_last l) = keep_to_last l.
Proof.
  induction l as [|c l IH]; [done|]. cbn [keep_to_last].
  destruct (drop_white_spec (length (c :: l)) (c :: l) ltac:(done)) as (_&Hw&_).
  destruct (drop_white (length (c :: l)) _) eqn:E; [done|]. cbn [keep_to_last].
  destruct (drop_white_spec (length (c :: keep_to_last l)) (c :: keep_to_last l) ltac:(done)) as (_&Hw'&_).
  destruct (drop_white (length (c :: keep_to_last l)) _) eqn:E'; [exfalso|by rewrite IH].
  destruct (keep_to_last_spec l) as (k&Hl&Hk).
  assert (all_white (c :: l)) as ?%Hw by (rewrite Hl; apply (all_white_app (c :: _)); tauto). done.
Qed.

Definition trim_list l : list Ascii.ascii := keep_to_last (drop_white (length l) l).

Lemma trim_list_idem l : trim_list (trim_list l) = trim_list l.
Proof.
  unfold trim_list. set (d := drop_white (length l) l).
  assert (Hd : white d = 0%nat) by by apply drop_white_spec.
  destruct (keep_to_last_spec d) as (k&Hk&_). rewrite Hk in Hd.
  rewrite drop_white_id by by eapply white_prefix_zero. apply keep_to_last_idem.
Qed.

(** A map of the bytes that keeps what is white. *)
Definition keeps_white (f : Ascii.ascii → Ascii.ascii) : Prop := ∀ l, white (f <$> l) = white l.

Lemma drop_white_map f n l : keeps_white f → drop_white n (f <$> l) = f <$> drop_white n l.
Proof.
  intros Hf. revert l. induction n as [|n IH]; intros l; [done|].
  rewrite !drop_white_S, Hf. destruct (white l) as [|m] eqn:E; [done|]. by rewrite <-IH, fmap_drop.
Qed.

Lemma keep_to_last_map f l : keeps_white f → keep_to_last (f <$> l) = f <$> keep_to_last l.
Proof.
  intros Hf. induction l as [|c l IH]; [done|]. cbn [fmap list_fmap keep_to_last].
  change (f c :: (f <$> l)) with (f <$> (c :: l)). rewrite length_fmap, drop_white_map by done.
  destruct (drop_white (length (c :: l)) (c :: l)); [done|]. cbn [fmap list_fmap]. f_equal. exact IH.
Qed.

Lemma trim_list_map f l : keeps_white f → trim_list (f <$> l) = f <$> trim_list l.
Proof. intros Hf. unfold trim_list. by rewrite length_fmap, drop_white_map, keep_to_last_map. Qed.

(** Changing the case of letters keeps what is white. *)
Lemma letters_keep_white (f : Z → Z) :
  (∀ b, 0 ≤ b < 256 → f b = b ∨ 65 ≤ b ≤ 122 ∧ 65 ≤ f b ≤ 122) → keeps_white (ascii_map f).
Proof.
  intros Hf l. unfold white, codes.
  assert (Hb : ∀ c : Ascii.ascii, 0 ≤ Z.of_N (Ascii.N_of_ascii c) < 256).
  { intros c. assert (H := Ascii.N_ascii_bounded c). lia. }
  assert (Hc : ∀ c, Z.of_N (Ascii.N_of_ascii (ascii_map f c)) = f (Z.of_N (Ascii.N_of_ascii c))).
  { intros c. specialize (Hb c). assert (0 ≤ f (Z.of_N (Ascii.N_of_ascii c)) < 256) as Hr by (destruct (Hf _ Hb) as [->|]; lia).
    unfold ascii_map. rewrite Ascii.N_ascii_embedding; [rewrite Z2N.id; lia|].
    apply N2Z.inj_lt. rewrite Z2N.id; [|lia]. destruct Hr as [_ Hr]. exact Hr. }
  assert ((λ c, Z.of_N (Ascii.N_of_ascii c)) <$> (ascii_map f <$> l)
          = (λ c, f (Z.of_N (Ascii.N_of_ascii c))) <$> l) as ->.
  { rewrite <-list_fmap_compose. apply list_fmap_ext. intros ? c _. apply Hc. }
  assert (Hsame : ∀ (P : Z → Prop) c, (∀ b, 65 ≤ b ≤ 122 → ¬ P b) →
    (P (f (Z.of_N (Ascii.N_of_ascii c))) ↔ P (Z.of_N (Ascii.N_of_ascii c)))).
  { intros P c HP. specialize (Hb c).
    destruct (Hf _ Hb) as [->|[H1 H2]]; [done|]. split; intros HP'; exfalso; [exact (HP _ H2 HP')|exact (HP _ H1 HP')]. }
  assert (H9 : ∀ c, bool_decide (9 ≤ f (Z.of_N (Ascii.N_of_ascii c)) ≤ 13)
    = bool_decide (9 ≤ Z.of_N (Ascii.N_of_ascii c) ≤ 13)) by (intros c; apply bool_decide_ext, (Hsame (λ b, 9 ≤ b ≤ 13)); lia).
  assert (Hne : ∀ v c, ¬ 65 ≤ v ≤ 122 → bool_decide (f (Z.of_N (Ascii.N_of_ascii c)) = v)
    = bool_decide (Z.of_N (Ascii.N_of_ascii c) = v)) by (intros v c Hv; apply bool_decide_ext, (Hsame (λ b, b = v)); lia).
  assert (H8 : ∀ c, bool_decide (0x80 ≤ f (Z.of_N (Ascii.N_of_ascii c)) ≤ 0x8A)
    = bool_decide (0x80 ≤ Z.of_N (Ascii.N_of_ascii c) ≤ 0x8A)) by (intros c; apply bool_decide_ext, (Hsame (λ b, 0x80 ≤ b ≤ 0x8A)); lia).
  assert (HA : ∀ c, bool_decide (f (Z.of_N (Ascii.N_of_ascii c)) ∈ [0xA8; 0xA9; 0xAF])
    = bool_decide (Z.of_N (Ascii.N_of_ascii c) ∈ [0xA8; 0xA9; 0xAF])).
  { intros c. apply bool_decide_ext, (Hsame (λ b, b ∈ [0xA8; 0xA9; 0xAF])). intros b Hb'. rewrite !elem_of_cons, elem_of_nil. lia. }
  destruct l as [|a l]; [done|]. cbn -[bool_decide]. rewrite H9, Hne by lia.
  destruct l as [|b l]; cbn -[bool_decide]; [done|]. rewrite !Hne by lia.
  destruct l as [|c l]; cbn -[bool_decide]; [done|]. rewrite !Hne, H8, HA by lia. done.
Qed.
End Trim.

Lemma trim_trim_list s : String.list_ascii_of_string (trim s) = trim_list (String.list_ascii_of_string s).
Proof. unfold trim, trim_list. by rewrite String.list_ascii_of_string_of_list_ascii. Qed.

Lemma list_ascii_inj s s' : String.list_ascii_of_string s = String.list_ascii_of_string s' → s = s'.
Proof. intros H. by rewrite <-(String.string_of_list_ascii_of_string s), H, String.string_of_list_ascii_of_string. Qed.

Lemma string_map_list f s : String.list_ascii_of_string (string_map f s) = f <$> String.list_ascii_of_string s.
Proof. induction s as [|c s IH]; [done|]. simpl. by f_equal. Qed.

Lemma canonical_map f s :
  keeps_white f → (∀ c, f (f c) = f c) → string_map f (trim (string_map f (trim s))) = string_map f (trim s).
Proof.
  intros Hf Hi. apply list_ascii_inj. rewrite !string_map_list, !trim_trim_list, string_map_list, trim_trim_list.
  rewrite trim_list_map, trim_list_idem, <-list_fmap_compose by done. apply list_fmap_ext. intros ? c _. apply Hi.
Qed.

(** Canonical names are canonical already. *)
Lemma canonical_device_code_idem code : canonical_device_code (canonical_device_code code) = canonical_device_code code.
Proof.
  apply canonical_map.
  - apply letters_keep_white. unfold byte_to_upper. intros b _. case_decide; lia.
  - by intros [[] [] [] [] [] [] [] []].
Qed.

Lemma canonical_scope_value_idem value : canonical_scope_value (canonical_scope_value value) = canonical_scope_value value.
Proof.
  apply canonical_map.
  - apply letters_keep_white. unfold byte_to_lower. intros b _. case_decide; lia.
  - by intros [[] [] [] [] [] [] [] []].
Qed.

Lemma scope_applies_canonical scope region system :
  scope_applies (canonical_scope scope) region system = scope_applies scope region system.
Proof. destruct scope; simpl; [done|..]; by rewrite canonical_scope_value_idem. Qed.

Lemma elem_of_filter_bool {A} (p : A → bool) l x : x ∈ List.filter p l ↔ x ∈ l ∧ p x = true.
Proof. by rewrite !list_elem_of_In, filter_In. Qed.

Lemma elem_of_sort_dedup {A} `{EqDecision A} leb (l : list A) x : x ∈ dedup (sort_by leb l) ↔ x ∈ l.
Proof. by rewrite elem_of_deduped, elem_of_sort_by. Qed.

(** Membership in what a loop accumulates. *)
Lemma foldl_gathers {S A B} (view : S → list B) (f : S → A → S) (D : A → B → Prop) l s x :
  (∀ s a, x ∈ view (f s a) ↔ x ∈ view s ∨ D a x) →
  x ∈ view (foldl f s l) ↔ x ∈ view s ∨ ∃ a, a ∈ l ∧ D a x.
Proof.
  intros Hf. revert s. induction l as [|a l IH]; intros s; cbn [foldl]; [set_solver|].
  rewrite IH, Hf. set_solver.
Qed.

(** * Service intents *)

Section Services.
Context `{SD : Serde} `{RO : RowOrder} {DC : Decode} {Executor : Type}.
Implicit Types (self : gmap string (WorkflowFactory Executor)) (d : DB) (w : WorkflowInstance).

Lemma state_for_absent live target region system :
  state_for live target region system = ServiceAbsent →
  ∀ evidence, evidence ∈ live → target ∉ se_intents evidence ∧
    ∀ scope, scope ∈ se_unknown_scopes evidence → scope_applies scope region system = false.
Proof.
  unfold state_for, sorted_ids. intros H evidence Hin.
  assert (Hnil : ∀ p, dedup (sort_by N.leb (se_workflow_id <$> List.filter p live)) = [] → p evidence = false).
  { intros p Hp. destruct (p evidence) eqn:E; [exfalso|done].
    assert (se_workflow_id evidence ∈ @nil N) as []%elem_of_nil.
    rewrite <-Hp, elem_of_sort_dedup. apply list_elem_of_fmap. exists evidence. by rewrite elem_of_filter_bool. }
  destruct (dedup _) eqn:E1 in H; [|done]. apply Hnil, bool_decide_eq_false in E1.
  split; [done|]. destruct (dedup _) eqn:E2 in H; [|done]. apply Hnil in E2.
  rewrite bool_decide_eq_false_2 in E2 by done. simpl in E2. intros scope Hs.
  destruct (scope_applies scope region system) eqn:Ea; [|done]. exfalso.
  assert (existsb (λ scope, scope_applies scope region system) (se_unknown_scopes evidence) = true); [|congruence].
  apply existsb_exists. exists scope. by rewrite <-list_elem_of_In.
Qed.

(** C33: an absent service is a proof of absence: when the snapshot of the live workflows
    answers that a service is absent, every active workflow other than the excluded one is
    of a registered kind whose factory loads its schema version and decodes it into a well
    formed projection, in which the service does not occur and no unknown scope covers the
    region or system asked for, in whatever spelling.  Nothing unreadable reads as absent. *)
Theorem service_absence_is_proof self excluded d live d' target region system id w :
  service_intent_snapshot self excluded d = Ok (live, d') →
  state_for live target region system = ServiceAbsent →
  instances d !! id = Some w → is_active_status (wf_status w) = true → excluded ≠ Some id →
  ∃ factory projection, self !! wf_kind w = Some factory ∧
    fa_supports_schema_version _ factory (wf_schema_version w) = true ∧
    fa_service_intents _ factory (id, w) = Ok projection ∧
    valid_service_projection (canonicalize_service_projection projection) = true ∧
    target ∉ sv_intents projection ∧
    ∀ scope, scope ∈ sv_unknown_scopes projection → scope_applies scope region system = false.
Proof.
  unfold service_intent_snapshot, list_active, list_where. intros H Habs Hw Hact Hne.
  erewrite tx_bind_step in H by done. unfold mret, tx_ret in H. injection H as <- _.
  assert (Hev : ∀ evidence, service_intent_evidence self (id, w) = Some evidence →
    target ∉ se_intents evidence ∧
    ∀ scope, scope ∈ se_unknown_scopes evidence → scope_applies scope region system = false).
  { intros evidence Hev. apply (state_for_absent _ _ _ _ Habs). rewrite elem_of_sort_dedup, list_elem_of_omap.
    exists (id, w). split; [by rewrite elem_of_sort_by, elem_of_select|]. by case_decide. }
  assert (Hno : service_intent_evidence self (id, w) ≠ Some (global_unknown_evidence (id, w))).
  { intros E. destruct (Hev _ E) as [_ Hs]. specialize (Hs ScopeGlobal ltac:(by left)). done. }
  unfold service_intent_evidence in *. cbn [fst snd] in *.
  destruct (self !! wf_kind w) as [factory|]; [|done]. exists factory.
  destruct (fa_supports_schema_version _ factory (wf_schema_version w)); [|done]. cbn [negb] in *.
  destruct (fa_service_intents _ factory (id, w)) as [projection|]; [|done]. exists projection.
  destruct (valid_service_projection _) eqn:Hv; [|done]. cbn [negb] in *. split_and!; [done..| |].
  - case_decide as Hc.
    + unfold valid_service_projection in Hv. rewrite Hc in Hv.
      apply andb_true_iff in Hv as [_ [Hi _]%andb_true_iff]. apply bool_decide_eq_true in Hi.
      simpl in Hi. intros Hin. apply (elem_of_sort_dedup (leb_of service_intent_cmp)) in Hin. rewrite Hi in Hin.
      by apply elem_of_nil in Hin.
    + destruct (Hev _ eq_refl) as [Ht _]. simpl in Ht. by rewrite elem_of_sort_dedup in Ht.
  - intros scope Hs.
    assert (canonical_scope scope ∈ sv_unknown_scopes (canonicalize_service_projection projection)) as Hs'.
    { simpl. rewrite elem_of_sort_dedup. apply list_elem_of_fmap. eauto. }
    case_decide as Hc.
    + unfold valid_service_projection in Hv. rewrite Hc in Hv.
      apply andb_true_iff in Hv as [_ [_ Hn]%andb_true_iff]. apply bool_decide_eq_true in Hn.
      rewrite Hn in Hs'. by apply elem_of_nil in Hs'.
    + destruct (Hev _ eq_refl) as [_ Ha]. rewrite <-scope_applies_canonical. by apply Ha.
Qed.
End Services.

(** * Placement intents *)

Section Placement.
Context `{SD : Serde} {DC : Decode} {Executor : Type}.
Context (self : gmap string (WorkflowFactory Executor)) (excluded : option WorkflowId).
Context (items : gmap N (list (N * WorkItem))).
Implicit Types (s : PlacementSnapshot) (instance : N * WorkflowInstance) (e : PlacementEvidence).

(** A live workflow that is not the excluded one. *)
Definition considered instance : Prop := is_live (wf_status instance.2) = true ∧ excluded ≠ Some instance.1.

(** What a live workflow is known to hold or await, its claims aside. *)
Definition stated instance (intent : PlacementIntent) : Prop :=
  (∃ wait code, wait_intent instance.2 = Ok (Some wait) ∧ (wi_device_code wait = Some code ∨ code ∈ wi_device_codes wait) ∧
     intent = device_intent Awaited (canonical_device_code code)) ∨
  (∃ projection, project self items instance = Some projection ∧ intent ∈ pp_intents projection).
Definition stated_evidence instance e : Prop :=
  considered instance ∧ ∃ intent, stated instance intent ∧ e = evidence_of instance intent.

(** What is not known of it. *)
Definition unreadable instance (id : WorkflowId) : Prop :=
  considered instance ∧ instance.1 = id ∧
  ((∃ error, wait_intent instance.2 = Err error) ∨ project self items instance = None).

Lemma elem_of_awaited wait code :
  code ∈ awaited_codes wait ↔
  ∃ c, (wi_device_code wait = Some c ∨ c ∈ wi_device_codes wait) ∧ code = canonical_device_code c.
Proof.
  unfold awaited_codes. rewrite elem_of_sort_dedup, list_elem_of_fmap.
  setoid_rewrite elem_of_app. destruct (wi_device_code wait); set_solver.
Qed.

Lemma considered_bool instance :
  is_live (wf_status instance.2) && bool_decide (excluded ≠ Some instance.1) = true ↔ considered instance.
Proof. unfold considered. by rewrite andb_true_iff, bool_decide_eq_true. Qed.

Lemma live_add_wait instance s e :
  e ∈ ps_live (add_wait instance s) ↔ e ∈ ps_live s ∨
    ∃ wait code, wait_intent instance.2 = Ok (Some wait) ∧ code ∈ awaited_codes wait ∧
      e = evidence_of instance (device_intent Awaited code).
Proof.
  unfold add_wait. destruct (wait_intent instance.2) as [[wait|]|]; simpl; [|naive_solver..].
  rewrite elem_of_app. f_equiv. rewrite list_elem_of_fmap. setoid_rewrite list_elem_of_fmap. naive_solver.
Qed.

Lemma live_add_instance s instance e :
  e ∈ ps_live (add_instance self excluded items s instance) ↔ e ∈ ps_live s ∨ stated_evidence instance e.
Proof.
  unfold add_instance, stated_evidence, stated. destruct (is_live _ && _) eqn:E; cbv zeta.
  - assert (Hc := proj1 (considered_bool _) E). unfold add_projection. rewrite E.
    apply andb_true_iff in E as [-> ->].
    destruct (project self items instance) as [projection|]; simpl; rewrite ?elem_of_app, live_add_wait.
    + setoid_rewrite elem_of_awaited. rewrite list_elem_of_fmap. naive_solver.
    + setoid_rewrite elem_of_awaited. naive_solver.
  - assert (Hc : ¬ considered instance) by (rewrite <-considered_bool; congruence).
    unfold add_projection. rewrite E. destruct (project self items instance) as [projection|].
    + destruct (is_live _); [simpl in E; rewrite E|destruct (wf_status instance.2)]; simpl; naive_solver.
    + destruct (WorkflowStatus.is_terminal _); simpl; naive_solver.
Qed.

Lemma unknown_add_instance s instance id :
  id ∈ ps_unknown_live_workflows (add_instance self excluded items s instance) ↔
  id ∈ ps_unknown_live_workflows s ∨ unreadable instance id.
Proof.
  unfold add_instance, unreadable. destruct (is_live _ && _) eqn:E; cbv zeta.
  - assert (Hc := proj1 (considered_bool _) E). unfold add_projection. rewrite E.
    apply andb_true_iff in E as [-> ->]. unfold add_wait.
    destruct (project self items instance) as [projection|], (wait_intent instance.2) as [[wait|]|]; simpl;
      rewrite ?elem_of_app, ?list_elem_of_singleton; naive_solver.
  - assert (Hc : ¬ considered instance) by (rewrite <-considered_bool; congruence).
    unfold add_projection. rewrite E. destruct (project self items instance) as [projection|].
    + destruct (is_live _); [simpl in E; rewrite E|destruct (wf_status instance.2)]; simpl; naive_solver.
    + destruct (WorkflowStatus.is_terminal _); simpl; naive_solver.
Qed.

(** What a finished workflow leaves in the lists of the snapshot. *)
Definition left_by (status : WorkflowStatus) (p : PlacementIntent → bool) instance e : Prop :=
  wf_status instance.2 = status ∧ ∃ projection intent, project self items instance = Some projection ∧
    intent ∈ pp_intents projection ∧ p intent = true ∧ e = evidence_of instance intent.

Lemma add_wait_same instance s :
  ps_settled_placements (add_wait instance s) = ps_settled_placements s ∧
  ps_terminal_residuals (add_wait instance s) = ps_terminal_residuals s ∧
  ps_failed_transient (add_wait instance s) = ps_failed_transient s ∧
  ps_resolved_transient (add_wait instance s) = ps_resolved_transient s ∧
  ps_resolutions (add_wait instance s) = ps_resolutions s ∧
  ps_unknown_terminal_outcomes (add_wait instance s) = ps_unknown_terminal_outcomes s.
Proof. unfold add_wait. by destruct (wait_intent instance.2) as [[]|]. Qed.

Lemma failed_add_instance s instance e :
  e ∈ ps_failed_transient (add_instance self excluded items s instance) ↔
  e ∈ ps_failed_transient s ∨ left_by Failed is_transient instance e.
Proof.
  unfold add_instance, left_by, add_projection. destruct (add_wait_same instance s) as (_&_&Hf&_).
  destruct (wf_status instance.2) eqn:Es; simpl; destruct (project self items instance) as [projection|]; simpl;
    repeat (case_bool_decide; simpl); rewrite ?app_nil_r, ?Hf, ?elem_of_app, ?list_elem_of_fmap;
    try setoid_rewrite elem_of_filter_bool; naive_solver.
Qed.

Definition resolves instance (r : PlacementResolution) : Prop :=
  wf_status instance.2 = Succeeded ∧
  ∃ projection, project self items instance = Some projection ∧ r ∈ pp_resolutions projection.

Lemma resolutions_add_instance s instance r :
  r ∈ ps_resolutions (add_instance self excluded items s instance) ↔ r ∈ ps_resolutions s ∨ resolves instance r.
Proof.
  unfold resolves, add_instance, add_projection. destruct (add_wait_same instance s) as (_&_&_&_&Hf&_).
  destruct (wf_status instance.2) eqn:Es; simpl; destruct (project self items instance) as [projection|]; simpl;
    repeat (case_bool_decide; simpl); rewrite ?app_nil_r, ?Hf, ?elem_of_app; naive_solver.
Qed.

Definition unprojected instance (id : WorkflowId) : Prop :=
  instance.1 = id ∧ WorkflowStatus.is_terminal (wf_status instance.2) = true ∧ project self items instance = None.

Lemma terminal_add_instance s instance id :
  id ∈ ps_unknown_terminal_outcomes (add_instance self excluded items s instance) ↔
  id ∈ ps_unknown_terminal_outcomes s ∨ unprojected instance id.
Proof.
  unfold unprojected, add_instance, add_projection. destruct (add_wait_same instance s) as (_&_&_&_&_&Hf).
  destruct (wf_status instance.2) eqn:Es; simpl; destruct (project self items instance) as [projection|]; simpl;
    repeat (case_bool_decide; simpl); rewrite ?Hf, ?elem_of_app, ?list_elem_of_singleton; naive_solver.
Qed.

(** A device a live workflow claims. *)
Definition claimed_evidence (instances : list (N * WorkflowInstance)) (claim : ResourceClaim) e : Prop :=
  ∃ code owner, rc_resource claim = Device code ∧ owner ∈ instances ∧ owner.1 = rc_workflow_id claim ∧
    considered owner ∧ e = evidence_of owner (device_intent Claimed (canonical_device_code code)).

Lemma find_owner instances claim :
  NoDup instances.*1 →
  match List.find (λ instance : N * WorkflowInstance, (instance.1 =? rc_workflow_id claim)%N) instances with
  | Some owner => owner ∈ instances ∧ owner.1 = rc_workflow_id claim ∧
      ∀ other, other ∈ instances → other.1 = rc_workflow_id claim → other = owner
  | None => ∀ other, other ∈ instances → other.1 ≠ rc_workflow_id claim
  end.
Proof.
  intros Hnd. destruct (List.find _ _) as [owner|] eqn:E.
  - apply List.find_some in E as [Hin%list_elem_of_In Hid%N.eqb_eq]. split_and!; [done..|].
    intros [k v] Hother Ho. destruct owner as [k' v']. simpl in *. subst.
    apply (elem_of_list_to_map_1 (M := gmap N)) in Hin, Hother; [|done..]. by simplify_eq.
  - intros other Hother%list_elem_of_In Ho. apply (List.find_none _ _ E) in Hother. simpl in Hother.
    apply N.eqb_neq in Hother. congruence.
Qed.

Lemma live_add_claim instances claim s e :
  NoDup instances.*1 →
  e ∈ ps_live (add_claim excluded instances s claim) ↔ e ∈ ps_live s ∨ claimed_evidence instances claim e.
Proof.
  intros Hnd. unfold add_claim, claimed_evidence. destruct (rc_resource claim) as [|code| |]; [naive_solver| |naive_solver..].
  assert (Hf := find_owner instances claim Hnd).
  destruct (List.find _ _) as [owner|]; [|naive_solver]. destruct Hf as (Hin&Hid&Hu). rewrite <-Hid.
  destruct (bool_decide _ || negb _) eqn:E.
  - assert (Hc : ¬ considered owner).
    { intros [Hl He]. rewrite Hl, bool_decide_eq_false_2 in E; [done|]. by intros ->. }
    split; [by left|]. intros [|(c&o&_&Ho&Ho'&Hco&_)]; [done|]. rewrite Hid in Ho'.
    rewrite (Hu _ Ho Ho') in Hco. done.
  - assert (considered owner).
    { apply orb_false_iff in E as [E1%bool_decide_eq_false E2%negb_false_iff]. by split. }
    simpl. rewrite elem_of_app, list_elem_of_singleton. f_equiv. split.
    + intros ->. by exists code, owner.
    + intros (c&o&[= <-]&Ho&Ho'&_&->). rewrite Hid in Ho'. by rewrite (Hu _ Ho Ho').
Qed.

Lemma add_claim_same instances s claim :
  let s' := add_claim excluded instances s claim in
  ps_failed_transient s' = ps_failed_transient s ∧ ps_resolved_transient s' = ps_resolved_transient s ∧
  ps_resolutions s' = ps_resolutions s ∧ ps_unknown_live_workflows s' = ps_unknown_live_workflows s ∧
  ps_unknown_terminal_outcomes s' = ps_unknown_terminal_outcomes s.
Proof. unfold add_claim. destruct (rc_resource claim); simpl; try done. destruct (List.find _ _); [|done]. by destruct (_ || _). Qed.

Lemma add_claims_same instances claims s :
  let s' := foldl (add_claim excluded instances) s claims in
  ps_failed_transient s' = ps_failed_transient s ∧ ps_resolved_transient s' = ps_resolved_transient s ∧
  ps_resolutions s' = ps_resolutions s ∧ ps_unknown_live_workflows s' = ps_unknown_live_workflows s ∧
  ps_unknown_terminal_outcomes s' = ps_unknown_terminal_outcomes s.
Proof.
  revert s. induction claims as [|claim claims IH]; intros s; [done|]. cbn [foldl].
  destruct (add_claim_same instances s claim) as (<-&<-&<-&<-&<-). apply IH.
Qed.

Lemma unresolved_loop instances s :
  ps_resolved_transient (foldl (add_instance self excluded items) s instances) = ps_resolved_transient s.
Proof.
  revert s. induction instances as [|instance instances IH]; intros s; [done|]. cbn [foldl]. rewrite IH.
  unfold add_instance, add_projection. destruct (add_wait_same instance s) as (_&_&_&Hr&_).
  destruct (wf_status instance.2) eqn:Es; simpl; destruct (project self items instance) as [projection|]; simpl;
    repeat (case_bool_decide; simpl); done.
Qed.

(** The resolutions of the succeeded workflows. *)
Definition resolution_of (instances : list (N * WorkflowInstance)) (r : PlacementResolution) : Prop :=
  ∃ instance, instance ∈ instances ∧ resolves instance r.

Lemma is_resolved_spec resolutions e :
  is_resolved resolutions e = true ↔ ∃ code r, pi_subject (pe_intent e) = SubjectDevice code ∧ r ∈ resolutions ∧
    canonical_device_code (pr_device_code r) = canonical_device_code code ∧
    pr_workflow_id r = pe_workflow_id e ∧ pr_work_item_id r = pi_work_item_id (pe_intent e).
Proof.
  unfold is_resolved. destruct (pi_subject (pe_intent e)) as [code|]; [|naive_solver].
  rewrite existsb_exists. setoid_rewrite <-list_elem_of_In.
  setoid_rewrite andb_true_iff. setoid_rewrite andb_true_iff. setoid_rewrite bool_decide_eq_true. naive_solver.
Qed.
End Placement.

Section Snapshot.
Context `{SD : Serde} {DC : Decode} {Executor : Type}.
Implicit Types (registry : gmap string (WorkflowFactory Executor)).

Lemma placement_snapshot_parts registry excluded instances items claims :
  NoDup instances.*1 →
  let snapshot := placement_intent_snapshot registry excluded instances items claims in
  (∀ e, e ∈ ps_live snapshot ↔
     (∃ instance, instance ∈ instances ∧ stated_evidence registry excluded items instance e) ∨
     (∃ claim, claim ∈ claims ∧ claimed_evidence excluded instances claim e)) ∧
  (∀ id, id ∈ ps_unknown_live_workflows snapshot ↔
     ∃ instance, instance ∈ instances ∧ unreadable registry excluded items instance id) ∧
  (∀ id, id ∈ ps_unknown_terminal_outcomes snapshot ↔
     ∃ instance, instance ∈ instances ∧ unprojected registry items instance id) ∧
  (∀ e, (∃ instance, instance ∈ instances ∧ left_by registry items Failed is_transient instance e) ↔
     e ∈ ps_failed_transient snapshot ∨ e ∈ ps_resolved_transient snapshot) ∧
  (∀ e, e ∈ ps_resolved_transient snapshot →
     e ∉ ps_failed_transient snapshot ∧
     ∃ code r, pi_subject (pe_intent e) = SubjectDevice code ∧ resolution_of registry items instances r ∧
       canonical_device_code (pr_device_code r) = canonical_device_code code ∧
       pr_workflow_id r = pe_workflow_id e ∧ pr_work_item_id r = pi_work_item_id (pe_intent e)).
Proof.
  intros Hnd. unfold placement_intent_snapshot. cbv zeta.
  set (s1 := foldl (add_instance registry excluded items) default_snapshot instances).
  set (s2 := foldl (add_claim excluded instances) s1 claims).
  destruct (add_claims_same excluded instances claims s1) as (Hf&Hr&Hres&Hul&Hut). fold s2 in Hf, Hr, Hres, Hul, Hut.
  assert (Hr1 : ps_resolved_transient s1 = []) by apply unresolved_loop.
  assert (Hfail : ∀ e, e ∈ ps_failed_transient s1 ↔
    ∃ instance, instance ∈ instances ∧ left_by registry items Failed is_transient instance e).
  { intros e. unfold s1. erewrite (foldl_gathers ps_failed_transient) by (intros; apply failed_add_instance).
    simpl. set_solver. }
  assert (Hreso : ∀ r, r ∈ ps_resolutions s1 → resolution_of registry items instances r).
  { intros r. unfold s1. erewrite (foldl_gathers ps_resolutions) by (intros; apply resolutions_add_instance).
    simpl. unfold resolution_of. set_solver. }
  simpl. rewrite Hr, Hr1, Hf, Hres. simpl. split_and!.
  - intros e. rewrite elem_of_sort_dedup. unfold s2.
    erewrite (foldl_gathers ps_live) by (intros; by apply live_add_claim). unfold s1.
    erewrite (foldl_gathers ps_live) by (intros; apply live_add_instance). simpl. set_solver.
  - intros id. unfold sorted_ids. rewrite elem_of_sort_dedup, Hul. unfold s1.
    erewrite (foldl_gathers ps_unknown_live_workflows) by (intros; apply unknown_add_instance). simpl. set_solver.
  - intros id. unfold sorted_ids. rewrite elem_of_sort_dedup, Hut. unfold s1.
    erewrite (foldl_gathers ps_unknown_terminal_outcomes) by (intros; apply terminal_add_instance). simpl. set_solver.
  - intros e. rewrite <-Hfail, !elem_of_sort_dedup, !elem_of_filter_bool, negb_true_iff.
    destruct (is_resolved _ e); naive_solver.
  - intros e. rewrite !elem_of_sort_dedup, !elem_of_filter_bool, negb_true_iff. intros [_ Hres'].
    split; [intros [_ ?]; congruence|]. apply is_resolved_spec in Hres' as (code&r&?&Hr'&?). exists code, r. auto.
Qed.

(** the placement snapshot accounts for every retained workflow.  Its live evidence is
    exactly what the live workflows other than the excluded one await, project or claim;
    such a workflow whose wait or projection cannot be read is listed as unknown, and so is
    a finished one that cannot be projected, and nothing else is.  A failed workflow's
    transient custody is reported as unresolved unless a succeeded workflow resolved
    exactly that device, workflow and item, and then as resolved: it is never dropped. *)
Theorem placement_snapshot_accounts registry excluded instances items claims :
  NoDup instances.*1 →
  let snapshot := placement_intent_snapshot registry excluded instances items claims in
  (∀ e, e ∈ ps_live snapshot ↔
     (∃ instance, instance ∈ instances ∧ stated_evidence registry excluded items instance e) ∨
     (∃ claim, claim ∈ claims ∧ claimed_evidence excluded instances claim e)) ∧
  (∀ id, id ∈ ps_unknown_live_workflows snapshot ↔
     ∃ instance, instance ∈ instances ∧ unreadable registry excluded items instance id) ∧
  (∀ id, id ∈ ps_unknown_terminal_outcomes snapshot ↔
     ∃ instance, instance ∈ instances ∧ unprojected registry items instance id) ∧
  (∀ e, (∃ instance, instance ∈ instances ∧ left_by registry items Failed is_transient instance e) ↔
     e ∈ ps_failed_transient snapshot ∨ e ∈ ps_resolved_transient snapshot) ∧
  (∀ e, e ∈ ps_resolved_transient snapshot →
     e ∉ ps_failed_transient snapshot ∧
     ∃ code r, pi_subject (pe_intent e) = SubjectDevice code ∧ resolution_of registry items instances r ∧
       canonical_device_code (pr_device_code r) = canonical_device_code code ∧
       pr_workflow_id r = pe_workflow_id e ∧ pr_work_item_id r = pi_work_item_id (pe_intent e)).
Proof. apply placement_snapshot_parts. Qed.

(** no spelling of a device code hides its custody: a device a live workflow claims or
    awaits is reported by [explain_device] for every code with the same canonical form, and
    every code is its canonical form's. *)
Theorem device_in_use_is_explained registry excluded instances items claims instance code code' tags :
  NoDup instances.*1 → instance ∈ instances → is_live (wf_status instance.2) = true →
  excluded ≠ Some instance.1 → canonical_device_code code = canonical_device_code code' →
  let report := explain_device (placement_intent_snapshot registry excluded instances items claims) code' tags in
  ((∃ claim, claim ∈ claims ∧ rc_resource claim = Device code ∧ rc_workflow_id claim = instance.1) →
   evidence_of instance (device_intent Claimed (canonical_device_code code)) ∈ de_live report) ∧
  (∀ wait, wait_intent instance.2 = Ok (Some wait) →
     wi_device_code wait = Some code ∨ code ∈ wi_device_codes wait →
   evidence_of instance (device_intent Awaited (canonical_device_code code)) ∈ de_live report) ∧
  canonical_device_code (canonical_device_code code) = canonical_device_code code.
Proof.
  intros Hnd Hin Hl He Hcode. cbv zeta.
  destruct (placement_snapshot_parts registry excluded instances items claims Hnd) as [Hlive _]. simpl.
  assert (Hm : ∀ relation, evidence_matches code' tags
    (evidence_of instance (device_intent relation (canonical_device_code code))) = true).
  { intros relation. unfold evidence_matches. simpl.
    by rewrite canonical_device_code_idem, bool_decide_eq_true. }
  split_and!; [| |apply canonical_device_code_idem].
  - intros (claim&Hc&Hd&Ho). apply elem_of_filter_bool. split; [|done]. apply Hlive. right.
    exists claim. split; [done|]. exists code, instance. by split_and!.
  - intros wait Hw Hn. apply elem_of_filter_bool. split; [|done]. apply Hlive. left.
    exists instance. split; [done|]. split; [done|]. eexists. split; [|done]. left. by exists wait, code.
Qed.
End Snapshot.
