(* ===== verification/Supervisor.v ===== *)
(** * The workflow supervisor

    [crates/replicant-workflow/src/supervisor.rs]: the context an executor works through,
    and the supervisor that starts, pauses, cancels and reaps executors.

    Code that uses the repository and the world outside is a [Work]: one node per
    repository transaction, each an atomic step at a clock reading, per reading of the
    clock or of the control channel, and per answer of anything else, of which nothing is
    assumed.  An executor is a [Work] over its context.  The supervisor's methods are
    programs ([Prog]) that perform works and, between them, enter the critical section of
    the executors' mutex, spawn a task or join one.  The step relation interleaves one
    tick, any number of control calls, the spawned tasks and other users of the
    repository; [solo] runs one program when nothing else moves. *)

From stdpp Require Import pretty.
From S2P Require Import Prelude Float64 Model Store Claims WorkItems Lifecycle Automation.
From S2P Require Import Invariants Registry.

Module ControlRequest.
Inductive t := Continue | Pause | Cancel.
#[global] Instance eq : EqDecision t.
Proof. solve_decision. Defined.
End ControlRequest.

(** ** Work *)

Section Works.
Context `{SD : Serde}.

Inductive Work (A : Type) : Type :=
| Ret (a : A)
| Transaction {B : Type} (m : Z → rtx B) (k : res B → Work A)
| ReadClock (k : Z → Work A)
| ReadControl (channel : option N) (k : ControlRequest.t → Work A)
| Outside {B : Type} (k : B → Work A).
End Works.
Arguments Ret {_ _} a.
Arguments Transaction {_ _ _} m k.
Arguments ReadClock {_ _} k.
Arguments ReadControl {_ _} channel k.
Arguments Outside {_ _ _} k.

#[global] Instance work_ret `{SD : Serde} : MRet Work := λ A a, Ret a.
#[global] Instance work_bind `{SD : Serde} : MBind Work := λ A B f,
  fix go (w : Work A) : Work B :=
    match w with
    | Ret a => f a
    | Transaction m k => Transaction m (λ r, go (k r))
    | ReadClock k => ReadClock (λ z, go (k z))
    | ReadControl channel k => ReadControl channel (λ r, go (k r))
    | Outside k => Outside (λ b, go (k b))
    end.

(** [now_millis] of this file: a clock before the epoch reads 0. *)
Definition supervisor_now (clock : Z) : Z := Z.min i64_max (Z.max 0 clock).

(** What [JoinError] displays for a task. *)
Class JoinText := { join_error_text : N → string }.

(** ** The context of an executor *)

Section Context.
Context `{SD : Serde} `{RO : RowOrder} {DC : Decode}.

(** [WorkflowContext]: the instance as last written or read, and the control channel;
    [None] is a channel whose sender is gone from the start. *)
Record WorkflowContext := {
  cx_id : WorkflowId;
  cx_instance : WorkflowInstance;
  cx_control : option N;
}.

(** A method on [&mut self]: it returns its result and the context it leaves. *)
Definition Op (A : Type) : Type := WorkflowContext → Work (res A * WorkflowContext).

Definition op_ret {A} (a : A) : Op A := λ cx, Ret (Ok a, cx).
Definition op_fail {A} (e : RepositoryError) : Op A := λ cx, Ret (Err e, cx).
Definition op_bind {A B} (m : Op A) (f : A → Op B) : Op B := λ cx,
  out ← m cx; match out with (Ok a, cx) => f a cx | (Err e, cx) => Ret (Err e, cx) end.
Definition op_lift {A} (r : res A) : Op A := λ cx, Ret (r, cx).

(** [let a = m?; ...] *)
Notation "a '<-?' m ;; k" := (op_bind m (λ a, k)) (at level 100, m at next level, right associativity).

(** One repository call with the context's identifier and instance. *)
Definition call {A} (m : WorkflowId → WorkflowInstance → Z → rtx A) : Op A := λ cx,
  Transaction (m (cx_id cx) (cx_instance cx)) (λ r, Ret (r, cx)).
(** [self.instance = self.repository...?;] *)
Definition assign (m : WorkflowId → WorkflowInstance → Z → rtx WorkflowInstance) : Op unit := λ cx,
  Transaction (m (cx_id cx) (cx_instance cx)) (λ r,
    match r with
    | Ok instance => Ret (Ok tt, {| cx_id := cx_id cx; cx_instance := instance; cx_control := cx_control cx |})
    | Err e => Ret (Err e, cx)
    end).
Definition this {A} (f : WorkflowInstance → res A) : Op A := λ cx, Ret (f (cx_instance cx), cx).

Definition state_of (status : WorkflowStatus) (step : option string) (checkpoint : Value)
    (error : option string) (result : option Value) : WorkflowState :=
  {| ws_status := status; ws_current_step := step; ws_checkpoint := checkpoint;
     ws_last_error := error; ws_result := result |}.

(** [replace] *)
Definition replace (status : WorkflowStatus) (step : option string) (checkpoint : Value)
    (result : option Value) : Op unit :=
  assign (λ id w, update id (wf_revision w) (state_of status step checkpoint None result)).

Definition current_step : Op (option string) := this (λ w, Ok (wf_current_step w)).

(** [create_child] and [create_child_with_claims]; the identifier is a fresh UUID. *)
Definition with_parent (parent : WorkflowId) (workflow : NewWorkflow) : NewWorkflow :=
  {| nw_kind := nw_kind workflow; nw_schema_version := nw_schema_version workflow;
     nw_config := nw_config workflow; nw_checkpoint := nw_checkpoint workflow;
     nw_current_step := nw_current_step workflow; nw_parent_id := Some parent |}.
Definition create_child_with_claims (workflow : NewWorkflow) (resources : list ResourceKey) : Op WorkflowInstance :=
  λ cx, Outside (λ fresh, call (λ id _ clock,
    create_with_parent_claims (with_parent id workflow) resources fresh clock) cx).
Definition create_child (workflow : NewWorkflow) : Op WorkflowInstance :=
  λ cx, Outside (λ fresh, call (λ id _ clock, create (with_parent id workflow) fresh clock) cx).

(** [mark_succeeded_returning_claims] *)
Definition mark_succeeded_returning_claims (result : option Value) (resources : list ResourceKey) : Op unit :=
  step <-? current_step ;; checkpoint <-? this checkpoint_value ;;
  assign (λ id w, complete_with_parent_claims id (wf_revision w)
    (state_of Succeeded step checkpoint None result) resources).

(** [child_workflows] *)
Definition child_workflows : Op (list (N * WorkflowInstance)) := call (λ id _ _, list_children id).

(** [advance_to] and [persist_checkpoint] *)
Definition advance_to (step : string) (checkpoint : Value) : Op unit := replace Running (Some step) checkpoint None.
Definition persist_checkpoint (checkpoint : Value) : Op unit :=
  step <-? current_step ;; replace Running step checkpoint None.

(** [emit_activity], [record_targets], [record_target] and [replace_targets] *)
Definition emit_activity (message : string) : Op unit :=
  _ <-? call (λ id _ clock, append_activity id message clock) ;; op_ret tt.
Definition record_targets (targets : list WorkflowTarget) :=
  call (λ id _ clock, record_workflow_targets id targets (supervisor_now clock)).
Definition record_target (target : WorkflowTarget) := record_targets [target].
Definition replace_targets (targets : list WorkflowTarget) :=
  call (λ id _ clock, replace_workflow_targets id targets (supervisor_now clock)).

(** [acquire_claim], [release_claim], [claims] and [release_all_claims] *)
Definition context_acquire_claim (resource : ResourceKey) : Op ClaimAcquireOutcome :=
  call (λ id _ clock, acquire_claim id resource clock).
Definition context_release_claim (resource : ResourceKey) : Op bool := call (λ id _ _, release_claim id resource).
Definition context_claims : Op (list ResourceClaim) := call (λ id _ _, claims id).
Definition release_all_claims : Op Z := call (λ id _ _, release_claims id).

(** [mark_waiting] *)
Definition mark_waiting : Op unit :=
  step <-? current_step ;; checkpoint <-? this checkpoint_value ;; replace Waiting step checkpoint None.

(** [persist_wait] and [clear_wait] *)
Definition persist_wait (intent : WaitIntent) : Op unit :=
  step <-? current_step ;; checkpoint <-? this checkpoint_value ;; result <-? this result_value ;;
  assign (λ id w, update_with_wait id (wf_revision w) (state_of Waiting step checkpoint None result)
    (Some (wait_to_value intent))).
Definition clear_wait : Op unit :=
  step <-? current_step ;; checkpoint <-? this checkpoint_value ;; result <-? this result_value ;;
  replace Running step checkpoint result.

(** [mark_succeeded] *)
Definition mark_succeeded (result : option Value) : Op unit :=
  step <-? current_step ;; checkpoint <-? this checkpoint_value ;;
  _ <-? replace Succeeded step checkpoint result ;;
  _ <-? release_all_claims ;; op_ret tt.

(** [mark_failed_with_result], [mark_failed] and [mark_failed_permanently] *)
Definition mark_failed_with_result (error : string) (result : Value)
    (disposition : WorkflowFailureDisposition) : Op unit :=
  let result := if decide (result = json_null) then None else Some result in
  step <-? current_step ;; checkpoint <-? this checkpoint_value ;;
  _ <-? assign (λ id w, update_with_failure_disposition id (wf_revision w)
    (state_of Failed step checkpoint (Some error) result) disposition) ;;
  _ <-? release_all_claims ;; op_ret tt.
Definition mark_failed (error : string) : Op unit :=
  result <-? this result_value ;; mark_failed_with_result error (default json_null result) Retryable.
Definition mark_failed_permanently (error : string) : Op unit :=
  result <-? this result_value ;; mark_failed_with_result error (default json_null result) Permanent.

(** [control_request] *)
Definition control_request : Op ControlRequest.t :=
  _ <-? assign (λ id _ _, require_workflow id) ;;
  this (λ w, Ok match wf_status w with
    | Paused => ControlRequest.Pause | Cancelled => ControlRequest.Cancel | _ => ControlRequest.Continue end).

(** [fail_if_still_running] *)
Definition fail_if_still_running : Op unit :=
  request <-? control_request ;; status <-? this (λ w, Ok (wf_status w)) ;;
  if decide (request = ControlRequest.Continue ∧ status = Running)
  then mark_failed "workflow executor returned without a terminal or waiting state" else op_ret tt.

(** [WorkflowExecutor::execute] *)
Definition Executor : Type := WorkflowContext → Work (result string unit * WorkflowContext).

(** The spawned future of [start]: what follows the executor's return. *)
Definition executor_task (executor : Executor) (cx : WorkflowContext) : Work unit :=
  out ← executor cx;
  match out with
  | (Err error, cx) => _ ← mark_failed error cx; mret tt
  | (Ok _, cx) => _ ← fail_if_still_running cx; mret tt
  end.
End Context.

(** ** Programs of the supervisor *)

(** What a join handle shows of a task: whether it was aborted, and how it ended ([true]
    when its future returned); the workflow is the one it was spawned for. *)
Record TaskStatus := { ta_workflow : WorkflowId; ta_aborted : bool; ta_outcome : option bool }.

(** The [Executors] maps, the values of the control channels, the tasks of the runtime and
    [startup_reconciled]. *)
Record Local := {
  lo_tasks : gmap N N;
  lo_controls : gmap N N;
  lo_channels : gmap N ControlRequest.t;
  lo_runtime : gmap N TaskStatus;
  lo_reconciled : bool;
}.

Definition new_local : Local :=
  {| lo_tasks := ∅; lo_controls := ∅; lo_channels := ∅; lo_runtime := ∅; lo_reconciled := false |}.

Definition with_tasks (f : gmap N N → gmap N N) (l : Local) : Local :=
  {| lo_tasks := f (lo_tasks l); lo_controls := lo_controls l; lo_channels := lo_channels l;
     lo_runtime := lo_runtime l; lo_reconciled := lo_reconciled l |}.
Definition with_controls (f : gmap N N → gmap N N) (l : Local) : Local :=
  {| lo_tasks := lo_tasks l; lo_controls := f (lo_controls l); lo_channels := lo_channels l;
     lo_runtime := lo_runtime l; lo_reconciled := lo_reconciled l |}.
Definition with_channels (f : gmap N ControlRequest.t → gmap N ControlRequest.t) (l : Local) : Local :=
  {| lo_tasks := lo_tasks l; lo_controls := lo_controls l; lo_channels := f (lo_channels l);
     lo_runtime := lo_runtime l; lo_reconciled := lo_reconciled l |}.
Definition with_runtime (f : gmap N TaskStatus → gmap N TaskStatus) (l : Local) : Local :=
  {| lo_tasks := lo_tasks l; lo_controls := lo_controls l; lo_channels := lo_channels l;
     lo_runtime := f (lo_runtime l); lo_reconciled := lo_reconciled l |}.
Definition with_reconciled (b : bool) (l : Local) : Local :=
  {| lo_tasks := lo_tasks l; lo_controls := lo_controls l; lo_channels := lo_channels l;
     lo_runtime := lo_runtime l; lo_reconciled := b |}.

Section Programs.
Context `{SD : Serde}.

Inductive Prog (A : Type) : Type :=
| Return (a : A)
| Perform {B : Type} (w : Work B) (k : B → Prog A)
| Locked {B : Type} (f : Local → B * Local) (k : B → Prog A)
| Spawn (id : WorkflowId) (w : Work unit) (k : N → Prog A)
| Join (task : N) (k : bool → Prog A).
End Programs.
Arguments Return {_ _} a.
Arguments Perform {_ _ _} w k.
Arguments Locked {_ _ _} f k.
Arguments Spawn {_ _} id w k.
Arguments Join {_ _} task k.

Fixpoint prog_bind `{SD : Serde} {A B} (p : Prog A) (f : A → Prog B) : Prog B :=
  match p with
  | Return a => f a
  | Perform w k => Perform w (λ b, prog_bind (k b) f)
  | Locked g k => Locked g (λ b, prog_bind (k b) f)
  | Spawn id w k => Spawn id w (λ t, prog_bind (k t) f)
  | Join t k => Join t (λ b, prog_bind (k b) f)
  end.

(** A program whose [?] leaves it with the error. *)
Definition Act `{SD : Serde} (A : Type) : Type := Prog (res A).
#[global] Instance act_ret `{SD : Serde} : MRet Act := λ A a, Return (Ok a).
#[global] Instance act_bind `{SD : Serde} : MBind Act := λ A B f p,
  prog_bind p (λ r, match r with Ok a => f a | Err e => Return (Err e) end).

Section Supervisor.
Context `{SD : Serde} `{RO : RowOrder} {DC : Decode} {JT : JoinText}.

Definition raise {A} (e : RepositoryError) : Act A := Return (Err e).
Definition act_lift {A} (r : res A) : Act A := Return r.
(** One repository call, and the same without leaving at an error. *)
Definition commit {A} (m : Z → rtx A) : Act A := Perform (Transaction m Ret) Return.
Definition locked {A} (f : Local → A * Local) : Act A := Locked f (λ a, Return (Ok a)).
Definition attempt {A} (p : Act A) : Act (res A) := prog_bind p (λ r, Return (Ok r)).
Definition read_clock : Act Z := Perform (ReadClock Ret) (λ z, Return (Ok z)).
Definition borrow_control (channel : N) : Act ControlRequest.t :=
  Perform (ReadControl (Some channel) Ret) (λ r, Return (Ok r)).
(** A method of a context made for the purpose and dropped afterwards. *)
Definition with_context {A} (m : Op A) (id : WorkflowId) (instance : WorkflowInstance) (control : option N) : Act A :=
  Perform (m {| cx_id := id; cx_instance := instance; cx_control := control |}) (λ out, Return out.1).

Fixpoint for_all {A} (f : A → Act unit) (xs : list A) : Act unit :=
  match xs with
  | [] => mret tt
  | x :: xs => _ ← f x; for_all f xs
  end.

(** [read] *)
Definition read (id : WorkflowId) : Act WorkflowInstance := commit (λ _, require_workflow id).

(** [transition] *)
Definition transition (id : WorkflowId) (instance : WorkflowInstance) (status : WorkflowStatus) : Act WorkflowInstance :=
  wait ← act_lift (wait_intent instance);
  checkpoint ← act_lift (checkpoint_value instance);
  result ← act_lift (result_value instance);
  commit (update_with_wait id (wf_revision instance)
    (state_of status (wf_current_step instance) checkpoint (wf_last_error instance) result)
    (wait_to_value <$> wait)).

(** ** Starting *)

Definition remove_control (id : WorkflowId) : Act unit := locked (λ l, (tt, with_controls (delete id) l)).

(** [clear_start] *)
Definition clear_start (id : WorkflowId) : Act unit :=
  _ ← remove_control id;
  instance ← read id;
  if decide (wf_status instance = Cancelled) then _ ← commit (λ _, release_claims id); mret tt else mret tt.

(** [watch::channel(Continue)] and the insertion of its sender. *)
Definition insert_control (id : WorkflowId) : Act N :=
  locked (λ l, let channel := fresh (dom (lo_channels l)) in
    (channel, with_controls <[id := channel]> (with_channels <[channel := ControlRequest.Continue]> l))).

(** The [Display] of a registry error. *)
Definition registry_error_text (e : RegistryError) : string :=
  match e with
  | DuplicateKind kind => "workflow kind " +:+ kind +:+ " is already registered"
  | UnknownKind kind => "workflow kind " +:+ kind +:+ " is not registered"
  | UnsupportedSchemaVersion kind version =>
      "workflow kind " +:+ kind +:+ " does not support schema version " +:+ pretty version
  | MigrationFailed kind from to reason =>
      "workflow kind " +:+ kind +:+ " schema migration from version " +:+ pretty from +:+ " to "
      +:+ pretty to +:+ " failed: " +:+ reason
  end.

(** [fail_without_executor] *)
Definition fail_without_executor (id : WorkflowId) (instance : WorkflowInstance) (error : string) : Act unit :=
  with_context (mark_failed error) id instance None.

(** The end of a start that cannot run: the instance is failed, the control removed, and
    only then is an error of the first reported. *)
Definition abandon_start (id : WorkflowId) (instance : WorkflowInstance) (control : N) (error : string) : Act unit :=
  result ← attempt (with_context (mark_failed error) id instance (Some control));
  _ ← clear_start id;
  act_lift result.

Abbreviation SupervisorRegistry := (gmap string (WorkflowFactory Executor)).

(** The migration at the head of [start]: [None] is a workflow that was failed instead. *)
Definition migrate_start (registry : SupervisorRegistry) (id : WorkflowId) (instance : WorkflowInstance)
    : Act (option WorkflowInstance) :=
  match migration registry (id, instance) with
  | Ok (Some (target_version, m)) =>
      migrated ← commit (migrate_workflow id instance target_version (mg_config m) (mg_checkpoint m));
      mret (Some migrated)
  | Ok None => mret (Some instance)
  | Err error => _ ← fail_without_executor id instance (registry_error_text error); mret None
  end.

(** [start] *)
Definition start (registry : SupervisorRegistry) (id : WorkflowId) (instance : WorkflowInstance) : Act unit :=
  migrated ← migrate_start registry id instance;
  match migrated with
  | None => mret tt
  | Some instance =>
      control ← insert_control id;
      running ← attempt (transition id instance Running);
      match running with
      | Err error => _ ← clear_start id; raise error
      | Ok instance =>
          match resolve registry instance with
          | Err error => abandon_start id instance control (registry_error_text error)
          | Ok factory =>
              match fa_create_executor _ factory with
              | None => abandon_start id instance control "workflow kind has no executor"
              | Some executor =>
                  request ← borrow_control control;
                  if decide (request ≠ ControlRequest.Continue) then clear_start id
                  else
                    let cx := {| cx_id := id; cx_instance := instance; cx_control := Some control |} in
                    Spawn id (executor_task executor cx) (λ task,
                      locked (λ l, (tt, with_tasks <[id := task]> l)))
              end
          end
      end
  end.

(** ** Reaping *)

Definition is_finished (l : Local) (task : N) : bool :=
  match lo_runtime l !! task with Some st => bool_decide (ta_outcome st ≠ None) | None => false end.

(** The first critical section of [reap_finished]; the order of a hash map is not
    specified. *)
Definition take_finished (l : Local) : list (N * N) * Local :=
  let finished := List.filter (λ e : N * N, is_finished l e.2) (row_order (map_to_list (lo_tasks l))) in
  let without {A} (m : gmap N A) := foldr (λ (e : N * N) m, delete e.1 m) m finished in
  (finished, with_tasks without (with_controls without l)).

(** One finished task of [reap_finished]. *)
Definition reap_one (e : N * N) : Act unit :=
  let '(id, task) := e in
  Join task (λ returned,
    _ ← (if returned then mret tt
         else
           instance ← read id;
           match wf_status instance with
           | Paused | Succeeded | Failed | Cancelled => mret tt
           | _ => with_context (mark_failed ("workflow executor task failed: " +:+ join_error_text task)) id instance None
           end);
    instance ← read id;
    if decide (wf_status instance = Cancelled) then _ ← commit (λ _, release_claims id); mret tt else mret tt).

(** [reap_finished] *)
Definition reap_finished : Act unit :=
  finished ← locked take_finished;
  for_all reap_one finished.

(** ** Ticking *)

Definition POLLING_WAIT_RETRY_INTERVAL : Z := 5000.
Definition SCAN_TOUR_POLLING_WAIT_RETRY_INTERVAL : Z := 30000.
Definition EVENT_DEPENDENCY_POLLING_WAIT_RETRY_INTERVAL : Z := 60000.
Definition EXPLORATION_PREREQUISITE_POLLING_WAIT_RETRY_INTERVAL : Z := 300000.

Definition polling_interval (instance : WorkflowInstance) : Z :=
  let kind := wf_kind instance in
  let step := wf_current_step instance in
  if decide (kind = "scan.tour") then SCAN_TOUR_POLLING_WAIT_RETRY_INTERVAL
  else if decide (kind = "exploration.frontier" ∧ step = Some "awaiting_relay_prerequisites")
  then EXPLORATION_PREREQUISITE_POLLING_WAIT_RETRY_INTERVAL
  else if decide (((kind = "event.campaign" ∨ kind = "event.delivery" ∨ kind = "event.fulfillment")
                   ∧ step = Some "awaiting_ftl_connectivity")
                  ∨ (kind = "event.tour" ∧ step = Some "awaiting_delivery"))
  then EVENT_DEPENDENCY_POLLING_WAIT_RETRY_INTERVAL
  else POLLING_WAIT_RETRY_INTERVAL.

(** [polling_wait_retry_due], at a clock reading; one before the epoch reads as the
    greatest time. *)
Definition polling_wait_retry_due (clock : Z) (instance : WorkflowInstance) : bool :=
  let now := if decide (clock < 0) then 2 ^ 128 - 1 else clock in
  let updated_at := Z.max 0 (wf_updated_at instance) in
  bool_decide (polling_interval instance ≤ Z.max 0 (now - updated_at)).

(** One instance of the loop of [tick]. *)
Definition tick_one (registry : SupervisorRegistry) (row : N * WorkflowInstance) : Act unit :=
  let '(id, instance) := row in
  owned ← locked (λ l, (bool_decide (is_Some (lo_controls l !! id)), l));
  if (owned : bool) then mret tt
  else
    held ← (if decide (wf_status instance = Waiting) then
              wait ← act_lift (wait_intent instance);
              match wait with
              | Some _ => mret false
              | None => clock ← read_clock; mret (negb (polling_wait_retry_due clock instance))
              end
            else mret false);
    if (held : bool) then mret tt
    else
      instance ← (match wf_status instance with
                  | Running | Waiting => transition id instance Reconciling
                  | _ => mret instance
                  end);
      match wf_status instance with
      | Queued | Reconciling => start registry id instance
      | _ => mret tt
      end.

(** The first tick reconciles what a previous process left and lists every instance. *)
Definition startup : Act (option (list (N * WorkflowInstance))) :=
  reconciled ← locked (λ l, (lo_reconciled l, l));
  if (reconciled : bool) then mret None
  else
    _ ← commit (λ clock, reconcile_orphaned_work_items None (supervisor_now clock));
    _ ← commit (λ _, reconcile_claims);
    instances ← commit (λ _, list_instances);
    _ ← locked (λ l, (tt, with_reconciled true l));
    mret (Some instances).

(** [tick], with the tick lock held. *)
Definition tick (registry : SupervisorRegistry) : Act unit :=
  instances ← startup;
  _ ← reap_finished;
  policy ← commit (λ _, automation_policy);
  if po_workflows_paused policy then mret tt
  else
    instances ← (match instances with
                 | Some instances => mret instances
                 | None => commit (λ _, list_active)
                 end);
    for_all (tick_one registry) instances.

(** ** Control *)

(** [control.send_replace(request)] and [task.abort()], when there are such. *)
Definition send_request (id : WorkflowId) (request : ControlRequest.t) (l : Local) : Local :=
  match lo_controls l !! id with
  | Some channel => with_channels <[channel := request]> l
  | None => l
  end.
Definition abort_task (id : WorkflowId) (l : Local) : Local :=
  match lo_tasks l !! id with
  | Some task => with_runtime (alter (λ st, {| ta_workflow := ta_workflow st; ta_aborted := true; ta_outcome := ta_outcome st |}) task) l
  | None => l
  end.
Definition stop_executor (id : WorkflowId) (request : ControlRequest.t) : Act unit :=
  locked (λ l, (tt, abort_task id (send_request id request l))).

(** [pause_instance] and [pause] *)
Definition pause_instance (id : WorkflowId) (instance : WorkflowInstance) : Act unit :=
  _ ← transition id instance Paused;
  stop_executor id ControlRequest.Pause.
Definition pause (id : WorkflowId) : Act unit := instance ← read id; pause_instance id instance.

(** [resume_instance] and [resume] *)
Definition resume_instance (id : WorkflowId) (instance : WorkflowInstance) : Act unit :=
  _ ← commit (λ clock, reconcile_orphaned_work_items (Some id) (supervisor_now clock));
  _ ← transition id instance Reconciling;
  mret tt.
Definition resume (id : WorkflowId) : Act unit := instance ← read id; resume_instance id instance.

(** [cancel_instance] and [cancel] *)
Definition cancel_instance (id : WorkflowId) (instance : WorkflowInstance) : Act unit :=
  _ ← stop_executor id ControlRequest.Cancel;
  _ ← transition id instance Cancelled;
  _ ← commit (λ _, release_claims id);
  mret tt.
Definition cancel (id : WorkflowId) : Act unit := instance ← read id; cancel_instance id instance.

(** The loops of the bulk controls: how many were changed. *)
Fixpoint change_each (eligible : N * WorkflowInstance → bool) (change : WorkflowId → WorkflowInstance → Act unit)
    (rows : list (N * WorkflowInstance)) (changed : Z) : Act Z :=
  match rows with
  | [] => mret changed
  | row :: rows =>
      if eligible row
      then _ ← change row.1 row.2; change_each eligible change rows (changed + 1)
      else change_each eligible change rows changed
  end.

(** [pause_all], [resume_all] and [cancel_selected] *)
Definition pause_all : Act Z :=
  rows ← commit (λ _, list_active);
  change_each (λ row, WorkflowStatus.can_transition_to (wf_status row.2) Paused
                      && bool_decide (wf_status row.2 ≠ Paused)) pause_instance rows 0.
Definition resume_all : Act Z :=
  rows ← commit (λ _, list_active);
  change_each (λ row, bool_decide (wf_status row.2 = Paused)) resume_instance rows 0.
Definition cancel_selected (ids : list WorkflowId) : Act Z :=
  rows ← commit (λ _, list_active);
  change_each (λ row, negb (WorkflowStatus.is_terminal (wf_status row.2))
                      && (bool_decide (ids = []) || bool_decide (row.1 ∈ ids))) cancel_instance rows 0.

(** [shutdown] *)
Definition shutdown : Act unit :=
  tasks ← locked (λ l,
    (map_to_list (lo_tasks l),
     with_tasks (λ _, ∅) (foldr (λ (e : N * N) l, abort_task e.1 l) l (map_to_list (lo_tasks l)))));
  _ ← for_all (λ e : N * N, Join e.2 (λ _, Return (Ok tt))) (row_order tasks);
  locked (λ l, (tt, with_controls (λ _, ∅) l)).

(** [placement_intent_snapshot] of the registry, with its three queries. *)
Definition placement_snapshot (registry : SupervisorRegistry) (excluded : option WorkflowId) : Act PlacementSnapshot :=
  instances ← commit (λ _, list_instances);
  items ← commit (λ _, list_work_items_for_workflows instances.*1);
  claims ← commit (λ _, device_claims);
  mret (placement_intent_snapshot registry excluded instances items claims).

(** [has_executor] *)
Definition has_executor (id : WorkflowId) : Act bool :=
  locked (λ l, (bool_decide (is_Some (lo_controls l !! id)), l)).
End Supervisor.

(** ** Interleaving *)

Section Semantics.
Context `{SD : Serde} `{RO : RowOrder} {DC : Decode} {JT : JoinText}.

Definition control_value (channels : gmap N ControlRequest.t) (channel : option N) : ControlRequest.t :=
  default ControlRequest.Continue (c ← channel; channels !! c).

(** One node of a work.  A failed transaction rolls back. *)
Inductive work_step {A} (channels : gmap N ControlRequest.t) : DB → Work A → DB → Work A → Prop :=
| work_transaction {B} d (m : Z → rtx B) k clock :
    work_step channels d (Transaction m k) (run (m clock) d).2 (k (run (m clock) d).1)
| work_clock d k clock : work_step channels d (ReadClock k) d (k clock)
| work_control d channel k : work_step channels d (ReadControl channel k) d (k (control_value channels channel))
| work_outside {B} d (k : B → Work A) b : work_step channels d (Outside k) d (k b).

(** The store, the supervisor and the futures of the unfinished tasks. *)
Record World := { wo_db : DB; wo_local : Local; wo_pool : gmap N (Work unit) }.

Definition spawned (task id : N) (w : Work unit) (s : World) : World :=
  {| wo_db := wo_db s;
     wo_local := with_runtime <[task := {| ta_workflow := id; ta_aborted := false; ta_outcome := None |}]> (wo_local s);
     wo_pool := <[task := w]> (wo_pool s) |}.
Definition ended (task : N) (returned : bool) (s : World) : World :=
  {| wo_db := wo_db s;
     wo_local := with_runtime (alter (λ st, {| ta_workflow := ta_workflow st; ta_aborted := ta_aborted st;
                                                ta_outcome := Some returned |}) task) (wo_local s);
     wo_pool := delete task (wo_pool s) |}.
Definition outcome_of (task : N) (l : Local) : option bool := st ← lo_runtime l !! task; ta_outcome st.
Definition was_aborted (task : N) (l : Local) : bool :=
  match lo_runtime l !! task with Some st => ta_aborted st | None => false end.

(** One node of a program.  A join waits for the task. *)
Inductive prog_step {A} : World → Prog A → World → Prog A → Prop :=
| prog_perform {B} s (w : Work B) d w' k :
    work_step (lo_channels (wo_local s)) (wo_db s) w d w' →
    prog_step s (Perform w k) {| wo_db := d; wo_local := wo_local s; wo_pool := wo_pool s |} (Perform w' k)
| prog_performed {B} s (b : B) k : prog_step s (Perform (Ret b) k) s (k b)
| prog_locked {B} s (f : Local → B * Local) k :
    prog_step s (Locked f k)
      {| wo_db := wo_db s; wo_local := (f (wo_local s)).2; wo_pool := wo_pool s |} (k (f (wo_local s)).1)
| prog_spawn s id w k task :
    lo_runtime (wo_local s) !! task = None →
    prog_step s (Spawn id w k) (spawned task id w s) (k task)
| prog_join s task k returned :
    outcome_of task (wo_local s) = Some returned → prog_step s (Join task k) s (k returned).

Definition forget {A} (p : Act A) : Prog unit := prog_bind p (λ _, Return tt).

(** The control calls of the daemon. *)
Inductive control_call : Prog unit → Prop :=
| call_pause id : control_call (forget (pause id))
| call_resume id : control_call (forget (resume id))
| call_cancel id : control_call (forget (cancel id))
| call_pause_all : control_call (forget pause_all)
| call_resume_all : control_call (forget resume_all)
| call_cancel_selected ids : control_call (forget (cancel_selected ids))
| call_has_executor id : control_call (forget (has_executor id)).

(** The daemon: the world, the tick that holds the tick lock, and the calls under way. *)
Record Config := { cf_world : World; cf_tick : option (Prog unit); cf_calls : list (Prog unit) }.

Definition on_world (s : World) (c : Config) : Config :=
  {| cf_world := s; cf_tick := cf_tick c; cf_calls := cf_calls c |}.
Definition on_db (d : DB) (s : World) : World := {| wo_db := d; wo_local := wo_local s; wo_pool := wo_pool s |}.
Definition on_pool (f : gmap N (Work unit) → gmap N (Work unit)) (s : World) : World :=
  {| wo_db := wo_db s; wo_local := wo_local s; wo_pool := f (wo_pool s) |}.

Inductive config_step (registry : gmap string (WorkflowFactory Executor)) (c : Config) : Config → Prop :=
| tick_starts : cf_tick c = None →
    config_step registry c
      {| cf_world := cf_world c; cf_tick := Some (forget (tick registry)); cf_calls := cf_calls c |}
| tick_moves p s p' : cf_tick c = Some p → prog_step (cf_world c) p s p' →
    config_step registry c {| cf_world := s; cf_tick := Some p'; cf_calls := cf_calls c |}
| tick_ends : cf_tick c = Some (Return tt) →
    config_step registry c {| cf_world := cf_world c; cf_tick := None; cf_calls := cf_calls c |}
| call_starts p : control_call p →
    config_step registry c {| cf_world := cf_world c; cf_tick := cf_tick c; cf_calls := p :: cf_calls c |}
| call_moves n p s p' : cf_calls c !! n = Some p → prog_step (cf_world c) p s p' →
    config_step registry c {| cf_world := s; cf_tick := cf_tick c; cf_calls := <[n := p']> (cf_calls c) |}
| call_ends n : cf_calls c !! n = Some (Return tt) →
    config_step registry c {| cf_world := cf_world c; cf_tick := cf_tick c; cf_calls := delete n (cf_calls c) |}
| task_moves t w d w' : wo_pool (cf_world c) !! t = Some w →
    work_step (lo_channels (wo_local (cf_world c))) (wo_db (cf_world c)) w d w' →
    config_step registry c (on_world (on_pool <[t := w']> (on_db d (cf_world c))) c)
| task_returns t : wo_pool (cf_world c) !! t = Some (Ret tt) →
    config_step registry c (on_world (ended t true (cf_world c)) c)
| task_dropped t w : wo_pool (cf_world c) !! t = Some w → was_aborted t (wo_local (cf_world c)) = true →
    config_step registry c (on_world (ended t false (cf_world c)) c)
| task_panics t w : wo_pool (cf_world c) !! t = Some w →
    config_step registry c (on_world (ended t false (cf_world c)) c)
| others_commit d : Invariants.step (wo_db (cf_world c)) d →
    config_step registry c (on_world (on_db d (cf_world c)) c).

Definition daemon_started (d : DB) : Config :=
  {| cf_world := {| wo_db := d; wo_local := new_local; wo_pool := ∅ |}; cf_tick := None; cf_calls := [] |}.

(** ** A program on its own *)

(** With a clock that stands and nothing else running; an answer from outside is not
    available. *)
Fixpoint solo_work {A} (clock : Z) (channels : gmap N ControlRequest.t) (w : Work A) (d : DB) : option (A * DB) :=
  match w with
  | Ret a => Some (a, d)
  | Transaction m k => solo_work clock channels (k (run (m clock) d).1) (run (m clock) d).2
  | ReadClock k => solo_work clock channels (k clock) d
  | ReadControl channel k => solo_work clock channels (k (control_value channels channel)) d
  | Outside _ => None
  end.

(** A join finds the task finished, or the runtime drops it because it was aborted. *)
Fixpoint solo {A} (clock : Z) (p : Prog A) (s : World) : option (A * World) :=
  match p with
  | Return a => Some (a, s)
  | Perform w k =>
      out ← solo_work clock (lo_channels (wo_local s)) w (wo_db s);
      solo clock (k out.1) (on_db out.2 s)
  | Locked f k =>
      solo clock (k (f (wo_local s)).1)
        {| wo_db := wo_db s; wo_local := (f (wo_local s)).2; wo_pool := wo_pool s |}
  | Spawn id w k =>
      let task := fresh (dom (lo_runtime (wo_local s))) in
      solo clock (k task) (spawned task id w s)
  | Join task k =>
      match outcome_of task (wo_local s) with
      | Some returned => solo clock (k returned) s
      | None => if was_aborted task (wo_local s) && bool_decide (is_Some (wo_pool s !! task))
                then solo clock (k false) (ended task false s) else None
      end
  end.
End Semantics.
