(* ===== verification/SupervisorFacts.v ===== *)
(** * One executor per workflow

    [safe G p Q]: whatever other threads do between its actions, the program [p] keeps the
    invariant [exclusive] of the executors' maps.  The ghost [G] is what the tick has begun
    and not finished: a control it inserted, and the task it has spawned and not yet
    recorded.  [config_exclusive] carries this to any interleaving. *)

From S2P Require Import Prelude Float64 Model Store Claims WorkItems Lifecycle Automation.
From S2P Require Import Invariants Registry RegistryFacts Supervisor.

Section Exclusion.
Context `{SD : Serde} `{RO : RowOrder} {DC : Decode} {JT : JoinText}.
Implicit Types (l : Local) (s : World).

(** What the tick is about: nothing, a workflow it found without a control, one whose
    control it inserted, and one whose task it has spawned. *)
Inductive Ghost := Idle | Checked (id : N) | Begun (id : N) | Spawned (id task : N).

Definition unfinished l (task id : N) : Prop :=
  ∃ st, lo_runtime l !! task = Some st ∧ ta_outcome st = None ∧ ta_workflow st = id.
Definition task_of l (task id : N) : Prop :=
  ∃ st, lo_runtime l !! task = Some st ∧ ta_workflow st = id.

Record exclusive (G : Ghost) l : Prop := {
  ex_unfinished : ∀ task id, unfinished l task id → lo_tasks l !! id = Some task ∨ G = Spawned id task;
  ex_control : ∀ id, is_Some (lo_tasks l !! id) → is_Some (lo_controls l !! id);
  ex_task : ∀ id task, lo_tasks l !! id = Some task → task_of l task id;
  ex_ghost : match G with
    | Idle => True
    | Checked id => lo_tasks l !! id = None
    | Begun id => lo_tasks l !! id = None ∧ is_Some (lo_controls l !! id)
    | Spawned id task => lo_tasks l !! id = None ∧ is_Some (lo_controls l !! id) ∧ task_of l task id
    end;
}.

Lemma exclusive_new : exclusive Idle new_local.
Proof. split; [by intros ?? (?&?&_)|by intros ? [? ?]|done|done]. Qed.

(** Not in the middle of a start. *)
Definition resting (G : Ghost) : Prop := match G with Idle | Checked _ => True | _ => False end.

Lemma exclusive_rest G l : resting G → exclusive G l → exclusive Idle l.
Proof. intros HG [H1 H2 H3 _]. split; [|done..]. intros t id Ht. destruct (H1 t id Ht) as [| ->]; [by left|done]. Qed.

(** ** Safe programs *)

(** The same tasks are unfinished. *)
Definition running l (task : N) : Prop := ∃ st, lo_runtime l !! task = Some st ∧ ta_outcome st = None.
Definition same_running l l' : Prop := ∀ task, running l' task ↔ running l task.

Lemma same_running_runtime l l' : lo_runtime l' = lo_runtime l → same_running l l'.
Proof. intros E task. unfold running. by rewrite E. Qed.

Fixpoint safe {A} (G : Ghost) (p : Prog A) (Q : Ghost → A → Prop) : Prop :=
  match p with
  | Return a => Q G a
  | Perform w k => ∀ b, safe G (k b) Q
  | Locked f k => ∀ l, exclusive G l → ∃ G', exclusive G' (f l).2 ∧ same_running l (f l).2 ∧ safe G' (k (f l).1) Q
  | Spawn id w k => G = Begun id ∧ ∀ task, safe (Spawned id task) (k task) Q
  | Join task k => ∀ returned, safe G (k returned) Q
  end.

Lemma safe_mono {A} G (p : Prog A) (Q R : Ghost → A → Prop) :
  safe G p Q → (∀ G a, Q G a → R G a) → safe G p R.
Proof. intros Hp HQR. revert G Hp. induction p; simpl; naive_solver. Qed.

Lemma safe_bind {A B} G (p : Prog A) (f : A → Prog B) Q :
  safe G p (λ G a, safe G (f a) Q) → safe G (prog_bind p f) Q.
Proof. revert G. induction p; simpl; naive_solver. Qed.

Definition rests {A} : Ghost → A → Prop := λ G _, resting G.

(** [let a = p?; ...] *)
Lemma safe_act {A B} G (p : Act A) (f : A → Act B) Q :
  safe G p (λ G r, match r with Ok a => safe G (f a) Q | Err e => Q G (Err e) end) → safe G (p ≫= f) Q.
Proof.
  intros Hp. apply safe_bind. eapply safe_mono; [exact Hp|]. by intros G' [].
Qed.

Lemma safe_for_all {A} (f : A → Act unit) xs G :
  resting G → (∀ x G, resting G → safe G (f x) rests) → safe G (for_all f xs) rests.
Proof.
  intros HG Hf. revert G HG. induction xs as [|x xs IH]; intros G HG; [done|]. cbn [for_all]. apply safe_act.
  eapply safe_mono; [by apply Hf|]. intros G' [] HG'; [by apply IH|done].
Qed.

(** A critical section that does not touch the maps and ends no task. *)
Definition harmless {B} (f : Local → B * Local) : Prop :=
  ∀ G l, exclusive G l → exclusive G (f l).2 ∧ same_running l (f l).2.

Lemma exclusive_runtime G l f :
  (∀ t st', f (lo_runtime l) !! t = Some st' → ∃ st, lo_runtime l !! t = Some st ∧
     ta_workflow st' = ta_workflow st ∧ (ta_outcome st' = None → ta_outcome st = None)) →
  (∀ t, is_Some (lo_runtime l !! t) → is_Some (f (lo_runtime l) !! t)) →
  exclusive G l → exclusive G (with_runtime f l).
Proof.
  intros Hf Hd [H1 H2 H3 H4].
  assert (Hw : ∀ t id, task_of l t id → task_of (with_runtime f l) t id).
  { intros t id (st&Ht&<-). destruct (Hd t) as [st' Hst']; [by eauto|]. exists st'. split; [done|].
    destruct (Hf _ _ Hst') as (st2&?&->&_). by simplify_eq. }
  split; simpl; [|done|by eauto|destruct G; intuition]. intros t id (st'&Ht&Ho&<-).
  destruct (Hf _ _ Ht) as (st&Hst&->&Hn). apply H1. exists st. auto.
Qed.

Lemma exclusive_abort G id l : exclusive G l → exclusive G (abort_task id l).
Proof.
  intros HJ. unfold abort_task. destruct (lo_tasks l !! id) as [t|]; [|done]. apply exclusive_runtime; [..|done].
  - intros t' st'. rewrite lookup_alter_Some. naive_solver.
  - intros t' Ht'. by apply lookup_alter_is_Some.
Qed.

Lemma same_running_abort id l : same_running l (abort_task id l).
Proof.
  intros task. unfold abort_task, running. destruct (lo_tasks l !! id) as [t|]; [|done]. simpl.
  setoid_rewrite lookup_alter_Some. split.
  - intros (st'&[(->&st&Hst&->)|[_ Hst]]&Ho); eauto.
  - intros (st&Hst&Ho). destruct (decide (t = task)) as [->|Ht]; [|exists st; auto].
    eexists. split; [left; split; [done|]; exists st; split; [done|reflexivity]|done].
Qed.

Lemma exclusive_channels G l f : exclusive G l → exclusive G (with_channels f l).
Proof. by intros []. Qed.

Lemma exclusive_ended G task returned s :
  exclusive G (wo_local s) → exclusive G (wo_local (ended task returned s)).
Proof.
  apply exclusive_runtime.
  - intros t' st'. rewrite lookup_alter_Some. naive_solver.
  - intros t' Ht'. by apply lookup_alter_is_Some.
Qed.

Lemma exclusive_spawned id task w s :
  lo_runtime (wo_local s) !! task = None →
  exclusive (Begun id) (wo_local s) → exclusive (Spawned id task) (wo_local (spawned task id w s)).
Proof.
  intros Hn [H1 H2 H3 [H4 H5]].
  assert (Hw : ∀ t i, task_of (wo_local s) t i → task_of (wo_local (spawned task id w s)) t i).
  { intros t i (st&Ht&?). exists st. simpl. rewrite lookup_insert_ne by congruence. done. }
  split; simpl; [|done|by eauto|].
  - intros t i (st&Ht&Ho&<-). simpl in Ht. apply lookup_insert_Some in Ht as [[<- <-]|[? Ht]]; [by right|].
    left. destruct (H1 t (ta_workflow st)) as [|]; [by exists st|done|done].
  - split_and!; [done..|]. eexists. simpl. by rewrite lookup_insert_eq.
Qed.

Lemma exclusive_insert_task G id task l :
  G = Spawned id task → exclusive G l → exclusive Idle (with_tasks <[id := task]> l).
Proof.
  intros -> [H1 H2 H3 (H4&H5&H6)]. split; simpl; [| | |done].
  - intros t i Ht. left. apply lookup_insert_Some. destruct (H1 _ _ Ht) as [Hi|[= <- <-]]; [|by left].
    right. split; [congruence|done].
  - intros i. destruct (decide (i = id)) as [->|]; [done|]. rewrite lookup_insert_ne by done. apply H2.
  - intros i t [[<- <-]|[? Hi]]%lookup_insert_Some; [done|by apply H3].
Qed.

Lemma exclusive_insert_control id channel l :
  exclusive (Checked id) l → exclusive (Begun id) (with_controls <[id := channel]> l).
Proof.
  intros [H1 H2 H3 H4]. split; simpl; [| |done|].
  - intros t i Ht. destruct (H1 _ _ Ht); [by left|done].
  - intros i Hi. destruct (decide (i = id)) as [->|]; [by rewrite lookup_insert_eq|].
    rewrite lookup_insert_ne by done. by apply H2.
  - split; [done|]. by rewrite lookup_insert_eq.
Qed.

Lemma exclusive_remove_control id l :
  exclusive (Begun id) l → exclusive Idle (with_controls (delete id) l).
Proof.
  intros [H1 H2 H3 [H4 _]]. split; simpl; [| |done|done].
  - intros t i Ht. destruct (H1 _ _ Ht); [by left|done].
  - intros i Hi. rewrite lookup_delete_ne; [by apply H2|]. intros <-. rewrite H4 in Hi. by destruct Hi.
Qed.

(** ** The tick *)

Lemma lookup_without {A} (xs : list (N * N)) (m : gmap N A) id :
  foldr (λ (e : N * N) m, delete e.1 m) m xs !! id = if decide (id ∈ xs.*1) then None else m !! id.
Proof.
  induction xs as [|[i t] xs IH]; cbn -[decide]; [done|]. rewrite lookup_delete.
  repeat case_decide; set_solver.
Qed.

Lemma exclusive_take_finished l : exclusive Idle l → exclusive Idle (take_finished l).2.
Proof.
  intros [H1 H2 H3 _]. unfold take_finished. simpl.
  set (finished := List.filter _ _).
  assert (Hfin : ∀ id, id ∈ finished.*1 → ∃ t, lo_tasks l !! id = Some t ∧ is_finished l t = true).
  { intros id ([i t]&->&[Hin ?]%elem_of_filter_bool)%list_elem_of_fmap. exists t. split; [|done].
    by rewrite elem_of_row_order, elem_of_map_to_list in Hin. }
  split; simpl; [| | |done].
  - intros t id Ht. left. rewrite lookup_without. destruct (H1 _ _ Ht) as [Hi|]; [|done].
    case_decide as Hd; [|done]. exfalso. destruct (Hfin _ Hd) as (t'&?&Hf). simplify_eq.
    destruct Ht as (st&Hst&Ho&_). simpl in Hst. unfold is_finished in Hf. rewrite Hst in Hf. by apply bool_decide_eq_true in Hf.
  - intros id. rewrite !lookup_without. case_decide; [by intros []|apply H2].
  - intros id t. rewrite lookup_without. case_decide; [done|apply H3].
Qed.

Ltac safe_step := apply safe_act; cbn [safe]; intros.

Lemma safe_commit {A} G (m : Z → rtx A) (Q : Ghost → res A → Prop) :
  (∀ r, Q G r) → safe G (commit m) Q.
Proof. by simpl. Qed.

Lemma safe_transition G id w status (Q : Ghost → res WorkflowInstance → Prop) :
  (∀ r, Q G r) → safe G (transition id w status) Q.
Proof.
  intros HQ. unfold transition, act_lift. apply safe_act. cbn [safe]. destruct (wait_intent w); [|apply HQ].
  apply safe_act. cbn [safe]. destruct (checkpoint_value w); [|apply HQ].
  apply safe_act. cbn [safe]. destruct (result_value w); [|apply HQ]. by apply safe_commit.
Qed.

Lemma safe_with_context {A} G (m : Op A) id w control (Q : Ghost → res A → Prop) :
  (∀ r, Q G r) → safe G (with_context m id w control) Q.
Proof. by simpl. Qed.

Lemma safe_attempt {A} G (p : Act A) (Q : Ghost → res (res A) → Prop) :
  safe G p (λ G r, Q G (Ok r)) → safe G (attempt p) Q.
Proof. intros Hp. unfold attempt. apply safe_bind. exact Hp. Qed.

(** What only performs works. *)
Lemma safe_end_claims G id (Q : Ghost → res unit → Prop) :
  (∀ r, Q G r) →
  safe G (instance ← read id; if decide (wf_status instance = Cancelled)
          then _ ← commit (λ _, release_claims id); mret tt else mret tt) Q.
Proof.
  intros HQ. apply safe_act, safe_commit. intros [w|]; [|apply HQ]. case_decide; [|apply HQ].
  apply safe_act, safe_commit. intros []; apply HQ.
Qed.

Lemma safe_clear_start id (Q : Ghost → res unit → Prop) :
  (∀ r, Q Idle r) → safe (Begun id) (clear_start id) Q.
Proof.
  intros HQ. unfold clear_start, remove_control, locked. apply safe_act. cbn [safe]. intros l Hl.
  exists Idle. split; [by apply exclusive_remove_control|]. split; [done|]. by apply safe_end_claims.
Qed.

Lemma safe_abandon id w control error :
  safe (Begun id) (abandon_start id w control error) rests.
Proof.
  unfold abandon_start. apply safe_act, safe_attempt, safe_with_context. intros r.
  apply safe_act, safe_clear_start. by intros [].
Qed.

Lemma safe_start registry id w : safe (Checked id) (start registry id w) rests.
Proof.
  unfold start. apply safe_act.
  assert (Hrest : safe (Checked id) (migrate_start registry id w) (λ G _, G = Checked id)).
  { unfold migrate_start, fail_without_executor. destruct (migration _ _) as [[[version m]|]|error]; [|done|].
    - apply safe_act, safe_commit. by intros [].
    - apply safe_act, safe_with_context. by intros []. }
  eapply safe_mono; [exact Hrest|]. intros G [[w'|]|e] ->; [|done..]. clear Hrest.
  unfold insert_control, locked. apply safe_act. cbn [safe]. intros l Hl. exists (Begun id).
  split; [by apply exclusive_insert_control, exclusive_channels|]. split; [done|].
  apply safe_act, safe_attempt, safe_transition. intros [w2|e].
  2: { apply safe_act, safe_clear_start. by intros []. }
  destruct (resolve registry w2) as [factory|e]; [|apply safe_abandon].
  destruct (fa_create_executor _ factory) as [executor|]; [|apply safe_abandon].
  unfold borrow_control. apply safe_act. cbn [safe]. intros request.
  case_decide; [by apply safe_clear_start|]. cbn [safe]. split; [done|]. intros task l' Hl'.
  exists Idle. split; [by eapply exclusive_insert_task|]. done.
Qed.

Lemma safe_tick_one registry row G : resting G → safe G (tick_one registry row) rests.
Proof.
  intros HG. destruct row as [id w]. unfold tick_one, locked. apply safe_act. cbn [safe]. intros l Hl.
  destruct (lo_controls l !! id) as [channel|] eqn:Ec.
  { exists G. split; [done|]. split; [done|]. by rewrite bool_decide_eq_true_2 by by eexists. }
  exists (Checked id). rewrite bool_decide_eq_false_2 by by intros [].
  split.
  { apply (exclusive_rest _ _ HG) in Hl. destruct Hl as [H1 H2 H3 _]. split; [|done..|].
    - intros t i Ht. destruct (H1 t i Ht); [by left|done].
    - destruct (lo_tasks l !! id) as [t|] eqn:Et; [|done]. destruct (H2 id) as [? ?]; [by eauto|]. congruence. }
  split; [done|]. apply safe_act, (safe_mono _ _ (λ G' _, G' = Checked id)).
  { case_decide; [|done]. unfold act_lift, read_clock. apply safe_act. cbn [safe].
    destruct (wait_intent w) as [[]|]; done. }
  intros G' [[]|] ->; [done| |done]. apply safe_act, (safe_mono _ _ (λ G' _, G' = Checked id)).
  { destruct (wf_status w); try done; by apply safe_transition. }
  intros G' [w'|] ->; [|done]. destruct (wf_status w'); try done; apply safe_start.
Qed.

Lemma safe_reap_one e G : resting G → safe G (reap_one e) rests.
Proof.
  intros HG. destruct e as [id task]. cbn [reap_one safe]. intros [].
  - apply safe_act. unfold mret, act_ret. cbn [safe]. by apply safe_end_claims.
  - apply safe_act, (safe_mono _ _ (λ G' _, G' = G)).
    { apply safe_act, safe_commit. intros [w|]; [|done]. by destruct (wf_status w). }
    intros G' [] ->; [|done]. by apply safe_end_claims.
Qed.

Lemma safe_tick registry : safe Idle (tick registry) rests.
Proof.
  unfold tick. apply safe_act.
  assert (Hs : safe Idle startup (λ G _, G = Idle)).
  { unfold startup, locked. apply safe_act. cbn [safe]. intros l Hl. exists Idle. split; [done|]. split; [done|].
    cbn [fst]. destruct (lo_reconciled l); [done|]. apply safe_act, safe_commit. intros []; [|done].
    apply safe_act, safe_commit. intros []; [|done]. apply safe_act, safe_commit. intros []; [|done].
    apply safe_act. cbn [safe]. intros l' Hl'. exists Idle. split; [|done]. by destruct Hl'. }
  eapply safe_mono; [exact Hs|]. intros G [instances|] ->; [|done]. apply safe_act.
  assert (Hr : safe Idle reap_finished rests).
  { unfold reap_finished, locked. apply safe_act. cbn [safe]. intros l Hl. exists Idle.
    split; [by apply exclusive_take_finished|]. split; [done|]. apply safe_for_all; [done|]. intros e G HG. by apply safe_reap_one. }
  eapply safe_mono; [exact Hr|]. intros G [u|] HG; [|done]. apply safe_act, safe_commit. intros [policy|]; [|done].
  destruct (po_workflows_paused policy); [done|]. apply safe_act, (safe_mono _ _ (λ G' _, G' = G)); [by destruct instances|].
  intros G' [rows|] ->; [|done].
  apply safe_for_all; [done|]. intros row G' HG'. by apply safe_tick_one.
Qed.

(** ** The control calls *)

(** A program that keeps the invariant whatever the tick is about, and spawns nothing. *)
Fixpoint quiet {A} (p : Prog A) : Prop :=
  match p with
  | Return _ => True
  | Perform w k => ∀ b, quiet (k b)
  | Locked f k => harmless f ∧ ∀ b, quiet (k b)
  | Spawn _ _ _ => False
  | Join _ k => ∀ returned, quiet (k returned)
  end.

Lemma quiet_bind {A B} (p : Prog A) (f : A → Prog B) : quiet p → (∀ a, quiet (f a)) → quiet (prog_bind p f).
Proof. intros Hp Hf. induction p; simpl in *; naive_solver. Qed.

Lemma quiet_act {A B} (p : Act A) (f : A → Act B) : quiet p → (∀ a, quiet (f a)) → quiet (p ≫= f).
Proof. intros Hp Hf. apply quiet_bind; [exact Hp|]. by intros []. Qed.

Lemma quiet_commit {A} (m : Z → rtx A) : quiet (commit m).
Proof. by simpl. Qed.
Lemma quiet_lift {A} (r : res A) : quiet (act_lift r).
Proof. done. Qed.
Lemma quiet_read id : quiet (read id).
Proof. apply quiet_commit. Qed.
Lemma quiet_transition id w status : quiet (transition id w status).
Proof. unfold transition. do 3 (apply quiet_act; [apply quiet_lift|intros]). apply quiet_commit. Qed.
Lemma quiet_stop id request : quiet (stop_executor id request).
Proof.
  unfold stop_executor, locked. cbn [quiet]. split; [|done]. intros G l Hl. cbn [snd].
  assert (exclusive G (send_request id request l) ∧ same_running l (send_request id request l)) as [H1 H2].
  { unfold send_request. destruct (lo_controls l !! id); [|done]. split; [by apply exclusive_channels|done]. }
  split; [by apply exclusive_abort|]. intros task. etrans; [apply same_running_abort|apply H2].
Qed.
Lemma quiet_unit : quiet (mret tt : Act unit).
Proof. done. Qed.

#[local] Hint Resolve quiet_act quiet_commit quiet_lift quiet_read quiet_transition quiet_stop quiet_unit : quiet.

Lemma quiet_pause id w : quiet (pause_instance id w).
Proof. unfold pause_instance. auto with quiet. Qed.
Lemma quiet_resume id w : quiet (resume_instance id w).
Proof. unfold resume_instance. auto with quiet. Qed.
Lemma quiet_cancel id w : quiet (cancel_instance id w).
Proof. unfold cancel_instance. auto 6 with quiet. Qed.
#[local] Hint Resolve quiet_pause quiet_resume quiet_cancel : quiet.

Lemma quiet_each eligible change rows n :
  (∀ id w, quiet (change id w)) → quiet (change_each eligible change rows n).
Proof.
  intros Hc. revert n. induction rows as [|row rows IH]; intros n; [done|]. cbn [change_each].
  destruct (eligible row); [|apply IH]. apply quiet_act; auto.
Qed.

Lemma quiet_call p : control_call p → quiet p.
Proof.
  assert (Hf : ∀ A (m : Act A), quiet m → quiet (forget m)) by (intros; by apply quiet_bind).
  destruct 1; apply Hf.
  7: { unfold has_executor, locked. cbn [quiet]. split; [|done]. by intros G l Hl. }
  - unfold pause. auto with quiet.
  - unfold resume. auto with quiet.
  - unfold cancel. auto with quiet.
  - unfold pause_all. apply quiet_act; [apply quiet_commit|]. intros. apply quiet_each. auto with quiet.
  - unfold resume_all. apply quiet_act; [apply quiet_commit|]. intros. apply quiet_each. auto with quiet.
  - unfold cancel_selected. apply quiet_act; [apply quiet_commit|]. intros. apply quiet_each. auto with quiet.
Qed.

(** ** Every interleaving *)

(** The futures in the pool are those of the unfinished tasks. *)
Definition pool_ok s : Prop := ∀ t, is_Some (wo_pool s !! t) ↔ running (wo_local s) t.

Record config_ok (c : Config) : Prop := {
  co_tick : ∃ G, exclusive G (wo_local (cf_world c)) ∧
     match cf_tick c with Some p => safe G p rests | None => G = Idle end;
  co_calls : Forall quiet (cf_calls c);
  co_pool : pool_ok (cf_world c);
}.

Lemma running_ended task returned s t :
  running (wo_local (ended task returned s)) t ↔ running (wo_local s) t ∧ t ≠ task.
Proof.
  unfold running. simpl. setoid_rewrite lookup_alter_Some. split.
  - intros (st'&[(->&st&Hst&->)|[Hne Hst]]&Ho); [done|]. split; [eauto|congruence].
  - intros [(st&Hst&Ho) Hne]. exists st. auto.
Qed.

Lemma pool_ended task returned s : pool_ok s → pool_ok (ended task returned s).
Proof.
  intros Hp t. rewrite running_ended, <-(Hp t). simpl. destruct (decide (t = task)) as [->|Hne].
  - rewrite lookup_delete_eq. split; [by intros []|tauto].
  - rewrite lookup_delete_ne by done. tauto.
Qed.

Lemma pool_spawned task id w s : lo_runtime (wo_local s) !! task = None → pool_ok s → pool_ok (spawned task id w s).
Proof.
  intros Hn Hp t. unfold running. simpl. destruct (decide (t = task)) as [->|Hne].
  - rewrite !lookup_insert_eq. split; [eauto|done].
  - rewrite !lookup_insert_ne by done. apply Hp.
Qed.

Lemma safe_prog_step {A} G (p : Prog A) Q s s' p' :
  prog_step s p s' p' → exclusive G (wo_local s) → pool_ok s → safe G p Q →
  ∃ G', exclusive G' (wo_local s') ∧ pool_ok s' ∧ safe G' p' Q.
Proof.
  intros Hs. destruct Hs; intros HJ Hp Hsafe; cbn [safe] in Hsafe.
  - exists G. done.
  - exists G. split_and!; [done..|apply Hsafe].
  - destruct (Hsafe _ HJ) as (G'&HJ'&Hr&Hk). exists G'. split_and!; [done| |done].
    intros t. etrans; [apply Hp|symmetry; apply Hr].
  - destruct Hsafe as [-> Hk]. exists (Spawned id task).
    split_and!; [by apply exclusive_spawned|by apply pool_spawned|apply Hk].
  - exists G. split_and!; [done..|apply Hsafe].
Qed.

Lemma quiet_prog_step {A} G (p : Prog A) s s' p' :
  prog_step s p s' p' → exclusive G (wo_local s) → pool_ok s → quiet p →
  exclusive G (wo_local s') ∧ pool_ok s' ∧ quiet p'.
Proof.
  intros Hs. destruct Hs; intros HJ Hp Hq; cbn [quiet] in Hq; try done.
  destruct Hq as [Hf Hk]. destruct (Hf _ _ HJ) as [HJ' Hr]. split_and!; [done| |apply Hk].
  intros t. etrans; [apply Hp|symmetry; apply Hr].
Qed.

Lemma config_step_ok registry c c' : config_step registry c c' → config_ok c → config_ok c'.
Proof.
  intros Hs [(G&HJ&Ht) Hc Hp]. destruct Hs as [Hn|p s p' Hn Hs|Hn|p Hcall|n p s p' Hn Hs|n Hn|t w d w' Hw Hs|t Hw|t w Hw _|t w Hw|d Hd].
  - split; [|done..]. exists Idle. rewrite Hn in Ht. subst G. split; [done|]. apply safe_bind.
    eapply safe_mono; [apply safe_tick|]. by intros G' [] HG'.
  - rewrite Hn in Ht. destruct (safe_prog_step _ _ _ _ _ _ Hs HJ Hp Ht) as (G'&?&?&?). split; [|done..]. by exists G'.
  - rewrite Hn in Ht. split; [|done..]. exists Idle. split; [by eapply exclusive_rest|done].
  - split; [by exists G| |done]. constructor; [by apply quiet_call|done].
  - assert (Hq := proj1 (Forall_lookup _ _) Hc _ _ Hn).
    destruct (quiet_prog_step G _ _ _ _ Hs HJ Hp Hq) as (?&?&?). split; [by exists G| |done].
    by apply Forall_insert.
  - split; [by exists G| |done]. by apply Forall_delete.
  - split; [by exists G|done|]. intros t'. simpl. rewrite <-(Hp t').
    destruct (decide (t' = t)) as [->|]; [rewrite lookup_insert_eq, Hw; naive_solver|by rewrite lookup_insert_ne].
  - split; [|done|by apply pool_ended]. exists G. split; [by apply exclusive_ended|done].
  - split; [|done|by apply pool_ended]. exists G. split; [by apply exclusive_ended|done].
  - split; [|done|by apply pool_ended]. exists G. split; [by apply exclusive_ended|done].
  - split; [by exists G|done..].
Qed.

Definition daemon_reaches (registry : gmap string (WorkflowFactory Executor)) (d : DB) (c : Config) : Prop :=
  rtc (config_step registry) (daemon_started d) c.

Lemma daemon_ok registry d c : daemon_reaches registry d c → config_ok c.
Proof.
  unfold daemon_reaches. remember (daemon_started d) as c0 eqn:E. intros Hr.
  assert (config_ok c0) as Hok.
  { subst c0. split; [|constructor|].
    - exists Idle. split; [apply exclusive_new|done].
    - intros t. split; [by intros []|by intros (?&?&?)]. }
  clear E. induction Hr as [|c1 c2 c3 Hs _ IH]; [done|]. apply IH. by eapply config_step_ok.
Qed.

(** C19: whatever the interleaving of ticks, pauses, resumes and cancellations, executors and
    other users of the repository, and however executors behave, return, panic or are
    dropped, a workflow never has two executors: two unfinished tasks spawned for one
    workflow are the same task.  When no tick is under way, that task is the one in the
    supervisor's map and the workflow is reported to have an executor. *)
Theorem executor_is_exclusive registry d c id t1 t2 :
  daemon_reaches registry d c →
  is_Some (wo_pool (cf_world c) !! t1) → task_of (wo_local (cf_world c)) t1 id →
  is_Some (wo_pool (cf_world c) !! t2) → task_of (wo_local (cf_world c)) t2 id →
  t1 = t2 ∧
  (cf_tick c = None → lo_tasks (wo_local (cf_world c)) !! id = Some t1 ∧
     is_Some (lo_controls (wo_local (cf_world c)) !! id)).
Proof.
  intros [(G&HJ&Ht) _ Hp]%daemon_ok H1 W1 H2 W2. destruct HJ as [Hu Hc Hk Hg].
  assert (Hun : ∀ t, is_Some (wo_pool (cf_world c) !! t) → task_of (wo_local (cf_world c)) t id →
    unfinished (wo_local (cf_world c)) t id).
  { intros t (st&Hst&Ho)%Hp (st'&Hst'&Hid). simplify_eq. by exists st. }
  assert (U1 := Hu _ _ (Hun _ H1 W1)). assert (U2 := Hu _ _ (Hun _ H2 W2)). split.
  - destruct U1 as [U1|E1], U2 as [U2|E2]; [congruence|..|congruence]; subst G; destruct Hg; congruence.
  - intros Hn. rewrite Hn in Ht. subst G. destruct U1 as [U1|]; [|done]. split; [done|]. apply Hc. by eexists.
Qed.
End Exclusion.
