(* ===== verification/SupervisorRuns.v ===== *)
(** * Runs of the supervisor

    Its programs computed on their own ([solo]): what reaping does to a workflow whose
    executor was stopped, and with it what a resume or a refused cancellation leads to;
    what a context that lags behind can still write; and what a shutdown leaves. *)

From S2P Require Import Prelude Float64 Model Store Claims WorkItems WorkItemFacts Lifecycle Automation.
From S2P Require Import Invariants Registry RegistryFacts Supervisor SupervisorFacts.

Section Runs.
Context `{SD : Serde} `{RO : RowOrder} {DC : Decode} {JT : JoinText}.
Implicit Types (s : World) (d : DB) (w : WorkflowInstance) (l : Local).

Definition clock_ok (clock : Z) : Prop := in_i64 clock ∧ 0 ≤ clock.

(** ** Equations *)

Lemma solo_work_bind {A B} clock channels (w : Work A) (f : A → Work B) d :
  solo_work clock channels (w ≫= f) d = out ← solo_work clock channels w d; solo_work clock channels (f out.1) out.2.
Proof.
  revert d. induction w as [a|C m k IH|k IH|channel k IH|C k IH]; intros d; cbn; [done|apply IH..|done].
Qed.

Lemma solo_bind {A B} clock (p : Prog A) (f : A → Prog B) s :
  solo clock (prog_bind p f) s = out ← solo clock p s; solo clock (f out.1) out.2.
Proof.
  revert s. induction p as [a|C w k IH|C g k IH|id w k IH|t k IH]; intros s; cbn [prog_bind solo]; [done|..].
  - destruct (solo_work _ _ _ _) as [[b d]|]; [|done]. apply IH.
  - apply IH.
  - apply IH.
  - destruct (outcome_of t (wo_local s)); [apply IH|]. destruct (_ && _); [apply IH|done].
Qed.

Definition after {A B} (f : A → World → option (res B * World)) (out : option (res A * World)) : option (res B * World) :=
  match out with
  | Some (Ok a, s) => f a s
  | Some (Err e, s) => Some (Err e, s)
  | None => None
  end.

Lemma solo_act {A B} clock (p : Act A) (f : A → Act B) s :
  solo clock (p ≫= f) s = after (λ a s, solo clock (f a) s) (solo clock p s).
Proof.
  unfold mbind, act_bind. unfold Act in *. rewrite solo_bind. by destruct (solo clock p s) as [[[a|e] s']|].
Qed.

Lemma solo_commit {A} clock (m : Z → rtx A) s :
  solo clock (commit m) s = Some ((run (m clock) (wo_db s)).1, on_db (run (m clock) (wo_db s)).2 s).
Proof. done. Qed.

Lemma solo_commit_Ok {A} clock (m : Z → rtx A) s a d :
  m clock (wo_db s) = Ok (a, d) → solo clock (commit m) s = Some (Ok a, on_db d s).
Proof. intros H. rewrite solo_commit. unfold run. by rewrite H. Qed.

Lemma solo_commit_Err {A} clock (m : Z → rtx A) s e :
  m clock (wo_db s) = Err e → solo clock (commit m) s = Some (Err e, s).
Proof. intros H. rewrite solo_commit. unfold run. rewrite H. by destruct s. Qed.

Lemma solo_read clock id s w :
  instances (wo_db s) !! id = Some w → solo clock (read id) s = Some (Ok w, s).
Proof.
  intros Hw. unfold read. rewrite (solo_commit_Ok _ _ _ _ _ (require_workflow_run _ _ _ Hw)). by destruct s.
Qed.

Lemma solo_lift {A} clock (r : res A) s : solo clock (act_lift r) s = Some (r, s).
Proof. done. Qed.

Lemma on_db_db d s : wo_db (on_db d s) = d.
Proof. done. Qed.
Lemma on_db_twice d d' s : on_db d (on_db d' s) = on_db d s.
Proof. done. Qed.

(** ** Transitions *)

(** The payload columns of an instance can be read. *)
Definition readable w : Prop :=
  is_Some (match wait_intent w with Ok i => Some i | Err _ => None end) ∧
  is_Some (match checkpoint_value w with Ok v => Some v | Err _ => None end) ∧
  is_Some (match result_value w with Ok v => Some v | Err _ => None end).

Lemma solo_transition clock id w w0 status s :
  instances (wo_db s) !! id = Some w0 → in_i64 (wf_revision w) → clock_ok clock → readable w →
  WorkflowStatus.is_terminal status = false →
  (wf_revision w0 ≠ wf_revision w ∧
     solo clock (transition id w status) s = Some (Err (ConcurrentUpdate id (wf_revision w)), s)) ∨
  (wf_revision w0 = wf_revision w ∧ WorkflowStatus.can_transition_to (wf_status w0) status = false ∧
     solo clock (transition id w status) s = Some (Err (InvalidTransition (wf_status w0) status), s)) ∨
  (wf_revision w0 = wf_revision w ∧ WorkflowStatus.can_transition_to (wf_status w0) status = true ∧
   ∃ w', solo clock (transition id w status) s
           = Some (Ok w', on_db (with_instances (λ t, <[id := w']> t) (wo_db s)) s) ∧
     wf_status w' = status ∧ wf_kind w' = wf_kind w0 ∧ wf_schema_version w' = wf_schema_version w0 ∧
     wf_revision w' = wf_revision w0 + 1).
Proof.
  intros Hw Hr [Hc Hp] ([i Hi]&[c Hck]&[r Hre]) Ht. unfold transition.
  rewrite solo_act, solo_lift. destruct (wait_intent w) as [i'|]; [|done]. cbn [after].
  rewrite solo_act, solo_lift. destruct (checkpoint_value w) as [c'|]; [|done]. cbn [after].
  rewrite solo_act, solo_lift. destruct (result_value w) as [r'|]; [|done]. cbn [after].
  rewrite solo_commit. unfold run, update_with_wait.
  rewrite (update_state_run _ _ _ _ _ _ _ _ Hw Hr Hc Hp). cbn [ws_status state_of].
  destruct (decide (wf_revision w0 ≠ wf_revision w)) as [|Hrev].
  { left. split; [done|]. by destruct s. }
  right. assert (wf_revision w0 = wf_revision w) by (destruct (decide (wf_revision w0 = wf_revision w)); [done|by destruct Hrev]).
  destruct (WorkflowStatus.can_transition_to _ _) eqn:Hcan; cbn [negb].
  - right. split_and!; [done..|]. cbv zeta. rewrite Ht. eexists. split; [reflexivity|]. by simpl.
  - left. split_and!; [done..|]. by destruct s.
Qed.

(** ** Failing a workflow *)

Lemma release_claims_run id d :
  ∃ n, release_claims id d
       = Ok (n, with_claims (delete_where (λ _ r, bool_decide (cl_workflow_id r = id))) d).
Proof. eexists. done. Qed.

(** What [mark_failed] leaves of a live row. *)
Definition failed_with (error : string) (id : WorkflowId) d d' : Prop :=
  (∃ w', instances d' = <[id := w']> (instances d) ∧ wf_status w' = Failed ∧ wf_last_error w' = Some error) ∧
  (∀ k c, claims_table d' !! k = Some c → cl_workflow_id c ≠ id) ∧ policy d' = policy d.

Lemma solo_mark_failed clock id w control error s :
  instances (wo_db s) !! id = Some w → in_i64 (wf_revision w) → clock_ok clock → readable w →
  WorkflowStatus.can_transition_to (wf_status w) Failed = true →
  ∃ d', solo clock (with_context (mark_failed error) id w control) s = Some (Ok tt, on_db d' s) ∧
    failed_with error id (wo_db s) d'.
Proof.
  intros Hw Hr [Hc Hp] (_&[c Hck]&[r Hre]) Hcan. unfold with_context. cbn [solo].
  unfold mark_failed, op_bind at 1, this. cbn. destruct (result_value w) as [r'|]; [|done].
  unfold mark_failed_with_result, op_bind, this, current_step, this, assign. cbn.
  destruct (checkpoint_value w) as [c'|]; [|done]. cbn.
  unfold run, update_with_failure_disposition.
  rewrite (update_state_run _ _ _ _ _ _ _ _ Hw Hr Hc Hp). cbn [ws_status state_of].
  rewrite decide_False by (intros Hne; by apply Hne). rewrite Hcan. cbn. eexists. split; [reflexivity|].
  split; [|split].
  - eexists. split; [reflexivity|done].
  - intros k cl Hk. simpl in Hk. by apply lookup_delete_where_Some in Hk as [_ ?%bool_decide_eq_false].
  - done.
Qed.

(** ** Reaping *)

Definition is_stoppable (status : WorkflowStatus) : bool :=
  match status with Paused | Succeeded | Failed | Cancelled => false | _ => true end.

Definition join_failure (task : N) : string := "workflow executor task failed: " +:+ join_error_text task.

Lemma solo_end_claims clock id w s :
  instances (wo_db s) !! id = Some w → wf_status w ≠ Cancelled →
  solo clock (instance ← read id; if decide (wf_status instance = Cancelled)
              then _ ← commit (λ _, release_claims id); mret tt else mret tt) s = Some (Ok tt, s).
Proof. intros Hw Hs. rewrite solo_act, (solo_read _ _ _ _ Hw). cbn [after]. by rewrite decide_False. Qed.

(** A task that did not return, of a workflow that is not paused or finished. *)
Lemma solo_reap_one clock id task w s :
  outcome_of task (wo_local s) = Some false → instances (wo_db s) !! id = Some w →
  is_stoppable (wf_status w) = true → in_i64 (wf_revision w) → clock_ok clock → readable w →
  ∃ d', solo clock (reap_one (id, task)) s = Some (Ok tt, on_db d' s) ∧
    failed_with (join_failure task) id (wo_db s) d'.
Proof.
  intros Ho Hw Hst Hr Hc Hread. cbn [reap_one solo]. rewrite Ho.
  destruct (solo_mark_failed clock id w None (join_failure task) s) as (d'&Hf&Hd'); [done..| |].
  { by destruct (wf_status w). }
  exists d'. split; [|done]. rewrite solo_act. cbv beta iota. rewrite solo_act, (solo_read _ _ _ _ Hw). cbn [after].
  replace (solo clock _ s) with (Some (Ok tt : res unit, on_db d' s)) by (destruct (wf_status w); done).
  cbn [after]. destruct Hd' as ((w'&Hi&Hs&_)&_).
  rewrite (solo_end_claims _ _ w'); [done|simpl; rewrite Hi; apply lookup_insert_eq|by rewrite Hs].
Qed.

(** The finished tasks, when there is one. *)
Lemma take_finished_one l id task :
  lo_tasks l !! id = Some task → is_finished l task = true →
  (∀ id' task', lo_tasks l !! id' = Some task' → is_finished l task' = true → id' = id) →
  (take_finished l).1 = [(id, task)].
Proof.
  intros Ht Hf Hu. unfold take_finished. simpl.
  set (finished := List.filter _ _).
  assert (Hin : ∀ e, e ∈ finished ↔ e = (id, task)).
  { intros [i t]. unfold finished. rewrite elem_of_filter_bool, elem_of_row_order, elem_of_map_to_list. simpl.
    split; [|intros [= -> ->]; done]. intros [Hi Hfi]. assert (i = id) as -> by eauto. by simplify_eq. }
  assert (Hnd : NoDup finished).
  { unfold finished. apply base.NoDup_ListNoDup, List.NoDup_filter, base.NoDup_ListNoDup.
    rewrite row_order_perm. apply NoDup_map_to_list. }
  destruct finished as [|e1 [|e2 rest]].
  - assert ((id, task) ∈ @nil (N * N)) as []%elem_of_nil by by apply Hin.
  - f_equal. apply Hin. by left.
  - apply NoDup_cons in Hnd as [Hn _]. exfalso. apply Hn. assert (e1 = (id, task)) as -> by (apply Hin; by left).
    assert (e2 = (id, task)) as -> by (apply Hin; right; by left). by left.
Qed.

(** The state in which reaping fails a live workflow: its task ended without returning. *)
Record stopped s (id task : N) : Prop := {
  sp_task : lo_tasks (wo_local s) !! id = Some task;
  sp_outcome : outcome_of task (wo_local s) = Some false;
  sp_only : ∀ id' task', lo_tasks (wo_local s) !! id' = Some task' → is_finished (wo_local s) task' = true → id' = id;
}.

Lemma reap_fails clock id task w s :
  stopped s id task → instances (wo_db s) !! id = Some w →
  is_stoppable (wf_status w) = true → in_i64 (wf_revision w) → clock_ok clock → readable w →
  ∃ s', solo clock reap_finished s = Some (Ok tt, s') ∧ failed_with (join_failure task) id (wo_db s) (wo_db s').
Proof.
  intros [Ht Ho Hu] Hw Hst Hr Hc Hread. unfold reap_finished, locked. rewrite solo_act. cbn [solo after].
  rewrite (take_finished_one _ id task); [|done| |done].
  2: { unfold is_finished, outcome_of in *. destruct (lo_runtime (wo_local s) !! task); [|done].
       simpl in Ho. by rewrite Ho. }
  set (s1 := {| wo_db := _; wo_local := _; wo_pool := _ |}).
  destruct (solo_reap_one clock id task w s1) as (d'&Hd'&Hf); [done..|].
  cbn [for_all]. rewrite solo_act, Hd'. cbn. by eexists.
Qed.

(** ** Stopping *)

Lemma stop_executor_run clock id task request s st :
  lo_tasks (wo_local s) !! id = Some task → lo_runtime (wo_local s) !! task = Some st →
  ∃ l, solo clock (stop_executor id request) s = Some (Ok tt, {| wo_db := wo_db s; wo_local := l; wo_pool := wo_pool s |}) ∧
    lo_tasks l = lo_tasks (wo_local s) ∧
    lo_runtime l = <[task := {| ta_workflow := ta_workflow st; ta_aborted := true; ta_outcome := ta_outcome st |}]>
                     (lo_runtime (wo_local s)).
Proof.
  intros Ht Hst. unfold stop_executor, locked. cbn [solo]. eexists. split; [reflexivity|].
  unfold abort_task, send_request. destruct (lo_controls (wo_local s) !! id); simpl; rewrite Ht; simpl.
  all: split; [done|]; apply map_eq; intros t; destruct (decide (t = task)) as [->|];
    [rewrite lookup_alter_eq, lookup_insert_eq, Hst|rewrite lookup_alter_ne, lookup_insert_ne]; done.
Qed.

(** An executor at work, the only task that could be reaped. *)
Record working s (id task : N) : Prop := {
  wk_task : lo_tasks (wo_local s) !! id = Some task;
  wk_runtime : ∃ st, lo_runtime (wo_local s) !! task = Some st ∧ ta_outcome st = None;
  wk_only : ∀ id' task', lo_tasks (wo_local s) !! id' = Some task' →
    id' = id ∨ task' ≠ task ∧ is_finished (wo_local s) task' = false;
}.

Lemma stopped_after s id task l d pool :
  working s id task → lo_tasks l = lo_tasks (wo_local s) →
  (∃ st, lo_runtime l = <[task := st]> (lo_runtime (wo_local s))) →
  stopped (ended task false {| wo_db := d; wo_local := l; wo_pool := pool |}) id task.
Proof.
  intros [Ht (st0&Hst0&Ho0) Hu] Hl (st&Hr). split; simpl.
  - by rewrite Hl.
  - unfold outcome_of. simpl. by rewrite Hr, lookup_alter_eq, lookup_insert_eq.
  - intros id' task' Hi. rewrite Hl in Hi. unfold is_finished. simpl.
    destruct (Hu _ _ Hi) as [->|[Hne Hn]]; [done|]. rewrite lookup_alter_ne, Hr, lookup_insert_ne by done.
    intros Hf. exfalso. unfold is_finished in Hn. congruence.
Qed.

Lemma transition_Ok clock id w status s w' s' :
  solo clock (transition id w status) s = Some (Ok w', s') →
  ∃ d', s' = on_db d' s ∧ instances d' !! id = Some w' ∧ wf_status w' = status.
Proof.
  unfold transition. rewrite solo_act, solo_lift. destruct (wait_intent w); [|done]. cbn [after].
  rewrite solo_act, solo_lift. destruct (checkpoint_value w); [|done]. cbn [after].
  rewrite solo_act, solo_lift. destruct (result_value w); [|done]. cbn [after].
  rewrite solo_commit. unfold run, update_with_wait.
  destruct (update_state _ _ _ _ _ _ _ _) as [[w2 d2]|] eqn:E; [|done]. intros [= <- <-].
  apply update_state_Ok in E as (w0&now&_&_&_&->&Hi&_). exists d2. split; [done|].
  rewrite Hi. simpl. by rewrite lookup_insert_eq.
Qed.

(** C30: a resume that comes before the paused executor has been reaped ends the workflow.
    When a workflow with an executor is paused and then resumed, both calls succeeding, and
    the aborted executor is dropped, as it is before the tick after them, that tick's reaping
    finds a task that did not return and a workflow that is no longer paused: it marks the
    workflow failed and its claims are gone. *)
Theorem quick_resume_fails_workflow clock1 clock2 clock3 id task s s1 s2 w2 :
  working s id task →
  solo clock1 (pause id) s = Some (Ok tt, s1) → solo clock2 (resume id) s1 = Some (Ok tt, s2) →
  instances (wo_db s2) !! id = Some w2 → readable w2 → in_i64 (wf_revision w2) → clock_ok clock3 →
  wf_status w2 = Reconciling ∧
  ∃ s3 w3, solo clock3 reap_finished (ended task false s2) = Some (Ok tt, s3) ∧
    instances (wo_db s3) !! id = Some w3 ∧ wf_status w3 = Failed ∧
    wf_last_error w3 = Some (join_failure task) ∧
    ∀ k c, claims_table (wo_db s3) !! k = Some c → cl_workflow_id c ≠ id.
Proof.
  intros Hwork Hpause Hresume Hw2 Hread Hrev Hc.
  (* the pause *)
  unfold pause in Hpause. rewrite solo_act in Hpause.
  destruct (solo clock1 (read id) s) as [[[w|e] s']|] eqn:Er; [|done..]. cbn [after] in Hpause.
  assert (s' = s) as ->.
  { unfold read in Er. rewrite solo_commit in Er. unfold run in Er.
    destruct (require_workflow id (wo_db s)) as [[w1 d1]|] eqn:E; [|done]. apply require_workflow_Ok in E as [-> _].
    injection Er as _ <-. by destruct s. }
  unfold pause_instance in Hpause. rewrite solo_act in Hpause.
  destruct (solo clock1 (transition id w Paused) s) as [[[w1|e] s']|] eqn:Et; [|done..]. cbn [after] in Hpause.
  apply transition_Ok in Et as (d1&->&_).
  assert (Hwork' := Hwork). destruct Hwork' as [Ht (st&Hst&Ho) Hu].
  destruct (stop_executor_run clock1 id task ControlRequest.Pause (on_db d1 s) st Ht Hst) as (l&Hl&Hlt&Hlr).
  rewrite Hl in Hpause. injection Hpause as <-. simpl in Hlt, Hlr.
  (* the resume changes the database only *)
  assert (∃ d2, s2 = {| wo_db := d2; wo_local := l; wo_pool := wo_pool s |} ∧
    ∃ w', instances d2 !! id = Some w' ∧ wf_status w' = Reconciling) as (d2&->&w'&Hw'&Hs').
  { unfold resume in Hresume. rewrite solo_act in Hresume. unfold read in Hresume. rewrite solo_commit in Hresume.
    destruct (run _ _) as [[wr|] dr]; [|done]. cbn [after fst snd] in Hresume.
    unfold resume_instance in Hresume. rewrite solo_act, solo_commit in Hresume.
    destruct (run _ _) as [[n|] dn]; [|done]. cbn [after fst snd] in Hresume. rewrite solo_act in Hresume.
    destruct (solo _ (transition _ _ _) _) as [[[w'|] s']|] eqn:Et; [|done..].
    apply transition_Ok in Et as (d2&->&Hw'&Hs'). injection Hresume as <-. exists d2. eauto. }
  simpl in Hw2. simplify_eq. split; [done|].
  destruct (reap_fails clock3 id task w2 (ended task false {| wo_db := d2; wo_local := l; wo_pool := wo_pool s |}))
    as (s3&Hs3&(w3&Hi&Hf&He)&Hcl&_); [|done|by rewrite Hs'|done..|].
  - eapply stopped_after; [exact Hwork|done|]. by eexists.
  - exists s3, w3. split_and!; [done| |done..]. rewrite Hi. apply lookup_insert_eq.
Qed.

(** C31: a cancellation that is refused still stops the executor, and the workflow fails
    instead.  When the instance a cancellation has read is no longer current, the call
    answers with a concurrent update and changes no row, but the executor has been aborted:
    once it is dropped, the next reaping marks the workflow failed and releases its claims. *)
Theorem refused_cancel_fails_workflow clock1 clock2 id task s w w0 :
  working s id task → instances (wo_db s) !! id = Some w0 →
  wf_revision w0 ≠ wf_revision w → in_i64 (wf_revision w) → in_i64 (wf_revision w0) → readable w → readable w0 →
  is_stoppable (wf_status w0) = true → clock_ok clock1 → clock_ok clock2 →
  ∃ s1, solo clock1 (cancel_instance id w) s = Some (Err (ConcurrentUpdate id (wf_revision w)), s1) ∧
    wo_db s1 = wo_db s ∧ was_aborted task (wo_local s1) = true ∧
    ∃ s2 w2, solo clock2 reap_finished (ended task false s1) = Some (Ok tt, s2) ∧
      instances (wo_db s2) !! id = Some w2 ∧ wf_status w2 = Failed ∧
      ∀ k c, claims_table (wo_db s2) !! k = Some c → cl_workflow_id c ≠ id.
Proof.
  intros Hwork Hw0 Hstale Hr Hr0 Hread Hread0 Hst Hc1 Hc2.
  assert (Hwork' := Hwork). destruct Hwork' as [Ht (st&Hrt&Ho) Hu].
  destruct (stop_executor_run clock1 id task ControlRequest.Cancel s st Ht Hrt) as (l&Hl&Hlt&Hlr).
  set (s1 := {| wo_db := wo_db s; wo_local := l; wo_pool := wo_pool s |}) in *. exists s1. split_and!.
  - unfold cancel_instance. rewrite solo_act, Hl. cbn [after]. rewrite solo_act.
    unfold transition. destruct Hread as ([i Hi]&[c Hck]&[r Hre]).
    rewrite solo_act, solo_lift. destruct (wait_intent w) as [i'|]; [|done]. cbn [after].
    rewrite solo_act, solo_lift. destruct (checkpoint_value w) as [c'|]; [|done]. cbn [after].
    rewrite solo_act, solo_lift. destruct (result_value w) as [r'|]; [|done]. cbn [after].
    erewrite solo_commit_Err; [done|]. unfold update_with_wait. destruct Hc1.
    rewrite (update_state_run _ _ _ _ _ _ _ _ Hw0) by done. by rewrite decide_True.
  - done.
  - unfold was_aborted. simpl. by rewrite Hlr, lookup_insert_eq.
  - destruct (reap_fails clock2 id task w0 (ended task false s1)) as (s2&Hs2&(w2&Hi&Hf&_)&Hcl&_); [|done..|].
    + eapply stopped_after; [exact Hwork|done|]. by eexists.
    + exists s2, w2. split_and!; [done| |done..]. rewrite Hi. apply lookup_insert_eq.
Qed.

(** ** A context that lags behind *)

(** The methods of a context that write the row of its workflow. *)
Inductive writes : Op unit → Prop :=
| writes_advance step checkpoint : writes (advance_to step checkpoint)
| writes_checkpoint checkpoint : writes (persist_checkpoint checkpoint)
| writes_waiting : writes mark_waiting
| writes_wait intent : writes (persist_wait intent)
| writes_clear : writes clear_wait
| writes_succeeded result : writes (mark_succeeded result)
| writes_returning result resources : writes (mark_succeeded_returning_claims result resources)
| writes_failed_with error result disposition : writes (mark_failed_with_result error result disposition)
| writes_failed error : writes (mark_failed error)
| writes_permanently error : writes (mark_failed_permanently error).

(** A method that reads its own instance and then replaces the row under its revision. *)
Lemma stale_assign clock channels m cx d :
  (∀ out, m (cx_id cx) (cx_instance cx) clock d ≠ Ok out) →
  ∃ e, solo_work clock channels (assign m cx) d = Some ((Err e, cx), d).
Proof.
  intros Hm. unfold assign. cbn [solo_work]. unfold run.
  destruct (m (cx_id cx) (cx_instance cx) clock d) as [[w' d']|e] eqn:E; [by destruct (Hm _ eq_refl)|].
  by exists e.
Qed.

Lemma stale_bind {A B} clock channels (m : Op A) (f : A → Op B) cx d e :
  solo_work clock channels (m cx) d = Some ((Err e, cx), d) →
  solo_work clock channels (op_bind m f cx) d = Some ((Err e, cx), d).
Proof. intros H. unfold op_bind. rewrite solo_work_bind, H. done. Qed.

Lemma this_bind {A B} clock channels (g : WorkflowInstance → res A) (f : A → Op B) cx d :
  (∀ a, ∃ e, solo_work clock channels (f a cx) d = Some ((Err e, cx), d)) →
  ∃ e, solo_work clock channels (op_bind (this g) f cx) d = Some ((Err e, cx), d).
Proof.
  intros Hf. unfold op_bind, this. destruct (g (cx_instance cx)) as [a|e] eqn:E.
  - destruct (Hf a) as [e He]. by exists e.
  - by exists e.
Qed.

Lemma stale_update cx d w0 state wait disp ret clock :
  instances d !! cx_id cx = Some w0 → wf_revision (cx_instance cx) < wf_revision w0 →
  ∀ out, update_state (cx_id cx) (wf_revision (cx_instance cx)) state wait disp ret clock d ≠ Ok out.
Proof.
  intros Hw Hlt [w' d'] H. apply update_state_Ok in H as (w&now&Hw'&Hr&_). simplify_eq. lia.
Qed.

Lemma stale_write op cx d w0 clock channels :
  writes op → instances d !! cx_id cx = Some w0 → wf_revision (cx_instance cx) < wf_revision w0 →
  ∃ e, solo_work clock channels (op cx) d = Some ((Err e, cx), d).
Proof.
  intros Hop Hw Hlt.
  assert (Hst := λ state wait disp ret, stale_update cx d w0 state wait disp ret clock Hw Hlt).
  assert (Hrep : ∀ status step checkpoint result, ∃ e,
    solo_work clock channels (replace status step checkpoint result cx) d = Some ((Err e, cx), d)).
  { intros. apply stale_assign. intros out. apply Hst. }
  assert (Hfail : ∀ error result disposition, ∃ e,
    solo_work clock channels (mark_failed_with_result error result disposition cx) d = Some ((Err e, cx), d)).
  { intros. unfold mark_failed_with_result, current_step. cbv zeta. apply this_bind. intros step.
    apply this_bind. intros checkpoint.
    destruct (stale_assign clock channels (λ id w, update_with_failure_disposition id (wf_revision w)
      (state_of Failed step checkpoint (Some error) (if decide (result = json_null) then None else Some result))
      disposition) cx d) as [e He]; [intros out; apply Hst|]. exists e. by apply stale_bind. }
  destruct Hop as [step checkpoint|checkpoint| |intent| |result|result resources|error result disposition|error|error].
  - apply Hrep.
  - apply this_bind. intros step. apply Hrep.
  - apply this_bind. intros step. apply this_bind. intros checkpoint. apply Hrep.
  - apply this_bind. intros step. apply this_bind. intros checkpoint. apply this_bind. intros result.
    apply stale_assign. intros out. apply Hst.
  - apply this_bind. intros step. apply this_bind. intros checkpoint. apply this_bind. intros result. apply Hrep.
  - apply this_bind. intros step. apply this_bind. intros checkpoint.
    destruct (Hrep Succeeded step checkpoint result) as [e He]. exists e. by apply stale_bind.
  - apply this_bind. intros step. apply this_bind. intros checkpoint. apply stale_assign. intros out.
    unfold complete_with_parent_claims. cbn [ws_status state_of]. rewrite decide_False by (intros Hne; by apply Hne).
    apply Hst.
  - apply Hfail.
  - apply this_bind. intros result. apply Hfail.
  - apply this_bind. intros result. apply Hfail.
Qed.

(** Committed operations that keep the row of a workflow. *)
Definition later (id : WorkflowId) : relation DB :=
  rtc (λ d d', Invariants.step d d' ∧ is_Some (instances d' !! id)).

Lemma later_revision id d d' w :
  reachable d → later id d d' → instances d !! id = Some w →
  ∃ w', instances d' !! id = Some w' ∧ wf_revision w ≤ wf_revision w'.
Proof.
  intros Hr Hl. revert w Hr. induction Hl as [d|d1 d2 d3 [Hs [w2 Hw2]] _ IH]; intros w Hr Hw; [eauto with lia|].
  destruct (IH w2) as (w3&?&?); [by eapply reachable_step|done|]. exists w3. split; [done|].
  destruct (step_evolves _ _ Hr Hs) as [Hev _]. destruct (Hev _ _ _ Hw Hw2) as [_ _ _ [->|] _]; lia.
Qed.

(** C21: an executor that was overtaken cannot write its workflow.  Once the row has moved past
    the revision a context holds, as a committed pause, resume or cancellation moves it,
    every method of the context that writes the row fails then and at any later time,
    whatever has been committed in between: it changes no table and not the context. *)
Theorem overtaken_executor_cannot_write d0 d id cx w0 op clock channels :
  reachable d0 → instances d0 !! id = Some w0 → cx_id cx = id →
  wf_revision (cx_instance cx) < wf_revision w0 → later id d0 d → writes op →
  ∃ e, solo_work clock channels (op cx) d = Some ((Err e, cx), d).
Proof.
  intros Hr Hw <- Hlt Hl Hop. destruct (later_revision _ _ _ _ Hr Hl Hw) as (w&Hw'&Hle).
  eapply stale_write; [done..|]. lia.
Qed.

(** ** Shutting down *)

Lemma abort_each l xs :
  let l' := foldr (λ (e : N * N) l, abort_task e.1 l) l xs in
  lo_tasks l' = lo_tasks l ∧ lo_controls l' = lo_controls l ∧ lo_channels l' = lo_channels l ∧
  (∀ task st, lo_runtime l !! task = Some st → ∃ st', lo_runtime l' !! task = Some st' ∧
     ta_outcome st' = ta_outcome st ∧
     (ta_aborted st = true ∨ (∃ id, id ∈ xs.*1 ∧ lo_tasks l !! id = Some task) → ta_aborted st' = true)).
Proof.
  induction xs as [|[id t] xs IH]; cbv zeta in *; cbn [foldr].
  { split_and!; [done..|]. intros task st Hst. exists st. split_and!; [done..|].
    intros [?|(id&[]%elem_of_nil&_)]. done. }
  set (l' := foldr _ l xs) in *. destruct IH as (Ht&Hc&Hch&Hr). unfold abort_task. simpl. rewrite Ht.
  assert (Hrest : ∀ task st, lo_runtime l !! task = Some st → lo_tasks l !! id ≠ Some task →
    ∃ st', lo_runtime l' !! task = Some st' ∧ ta_outcome st' = ta_outcome st ∧
    (ta_aborted st = true ∨ (∃ i, i ∈ id :: xs.*1 ∧ lo_tasks l !! i = Some task) → ta_aborted st' = true)).
  { intros task st Hst Hne. destruct (Hr _ _ Hst) as (st'&?&?&Ha). exists st'. split_and!; [done..|].
    intros [?|(i&[->|Hi]%elem_of_cons&Hti)]; [auto|congruence|eauto]. }
  destruct (lo_tasks l !! id) as [t'|] eqn:Et; simpl.
  - split_and!; [done..|]. intros task st Hst. destruct (decide (t' = task)) as [->|Hne].
    + destruct (Hr _ _ Hst) as (st'&Hst'&Ho&_). rewrite lookup_alter_eq, Hst'. simpl. eauto.
    + rewrite lookup_alter_ne by done. apply Hrest; [done|]. congruence.
  - split_and!; [done..|]. intros task st Hst. by apply Hrest.
Qed.

Lemma join_each clock (xs : list (N * N)) s :
  pool_ok s →
  (∀ e, e ∈ xs → ∃ st, lo_runtime (wo_local s) !! e.2 = Some st ∧ ta_aborted st = true) →
  (∀ t, is_Some (wo_pool s !! t) → t ∈ xs.*2) →
  ∃ s', solo clock (for_all (λ e : N * N, Join e.2 (λ _, Return (Ok tt))) xs) s = Some (Ok tt, s') ∧
    wo_db s' = wo_db s ∧ wo_pool s' = ∅ ∧ lo_tasks (wo_local s') = lo_tasks (wo_local s).
Proof.
  revert s. induction xs as [|[id t] xs IH]; intros s Hp Hab Hin.
  { exists s. split_and!; [done..| |done]. apply map_empty. intros t. destruct (wo_pool s !! t) eqn:E; [|done].
    assert (t ∈ @nil N) as []%elem_of_nil by (apply (Hin t); by eexists). }
  cbn [for_all]. rewrite solo_act. cbn [solo snd].
  destruct (Hab (id, t)) as (st&Hst&Ha); [by left|]. simpl in Hst.
  unfold outcome_of. rewrite Hst. simpl. destruct (ta_outcome st) as [returned|] eqn:Eo; cbn [after].
  - apply IH; [done|intros e He; apply Hab; by right|]. intros t' Ht'.
    assert (Hin' := Hin _ Ht'). apply elem_of_cons in Hin' as [->|]; [|done]. exfalso. apply Hp in Ht' as (st'&?&?). simpl in *. congruence.
  - assert (is_Some (wo_pool s !! t)) as Hpt by (apply Hp; by exists st).
    unfold was_aborted. rewrite Hst, Ha, bool_decide_eq_true_2 by done. cbn [andb after].
    destruct (IH (ended t false s)) as (s'&Hs'&Hd&Hpool&Htk).
    + by apply pool_ended.
    + intros e He. destruct (Hab e) as (st'&Hst'&Ha'); [by right|]. simpl.
      destruct (decide (t = e.2)) as [->|Hne]; [rewrite lookup_alter_eq, Hst'; eexists; split; [done|done]|].
      rewrite lookup_alter_ne by done. eauto.
    + intros t' Ht'. simpl in Ht'. destruct (decide (t = t')) as [->|Hne].
      * rewrite lookup_delete_eq in Ht'. by destruct Ht'.
      * rewrite lookup_delete_ne in Ht' by done. assert (Hin' := Hin _ Ht'). apply elem_of_cons in Hin' as [->|]; done.
    + exists s'. by split_and!.
Qed.

End Runs.

(** ** From a run on its own to the daemon's steps *)

Section Soundness.
Context `{SD : Serde} `{RO : RowOrder} {DC : Decode} {JT : JoinText}.
Implicit Types (s : World).

(** A node of the program, or the end of an aborted task. *)
Definition moves {A} : relation (World * Prog A) := λ a b,
  prog_step a.1 a.2 b.1 b.2 ∨
  (b.2 = a.2 ∧ ∃ t w, wo_pool a.1 !! t = Some w ∧ was_aborted t (wo_local a.1) = true ∧ b.1 = ended t false a.1).

Lemma moves_step {A} s (p : Prog A) s1 p1 s2 p2 :
  prog_step s p s1 p1 → rtc moves (s1, p1) (s2, p2) → rtc moves (s, p) (s2, p2).
Proof. intros H1 H2. eapply rtc_l; [|exact H2]. by left. Qed.

Lemma moves_work {A B} s (w : Work B) d w1 (k : B → Prog A) s2 p2 :
  work_step (lo_channels (wo_local s)) (wo_db s) w d w1 →
  rtc moves (on_db d s, Perform w1 k) (s2, p2) → rtc moves (s, Perform w k) (s2, p2).
Proof. intros H1 H2. eapply moves_step; [|exact H2]. by apply prog_perform. Qed.

Lemma solo_work_moves {A B} clock (w : Work B) (k : B → Prog A) s b d :
  solo_work clock (lo_channels (wo_local s)) w (wo_db s) = Some (b, d) →
  rtc moves (s, Perform w k) (on_db d s, k b).
Proof.
  revert s. induction w as [a|C m k' IH|k' IH|channel k' IH|C k' IH]; intros s H; cbn [solo_work] in H.
  - injection H as <- <-. eapply moves_step; [apply prog_performed|]. by destruct s.
  - eapply moves_work; [apply (work_transaction _ _ m k' clock)|]. by apply (IH _ (on_db _ s)).
  - eapply moves_work; [apply (work_clock _ _ k' clock)|]. by apply (IH _ (on_db (wo_db s) s)).
  - eapply moves_work; [apply work_control|]. by apply (IH _ (on_db (wo_db s) s)).
  - done.
Qed.

Lemma solo_moves {A} clock (p : Prog A) s a s' :
  solo clock p s = Some (a, s') → rtc moves (s, p) (s', Return a).
Proof.
  revert s. induction p as [a'|C w k IH|C f k IH|id w k IH|t k IH]; intros s H; cbn [solo] in H.
  - by injection H as <- <-.
  - destruct (solo_work _ _ _ _) as [[b d]|] eqn:E; [|done]. etrans; [by eapply solo_work_moves|]. by apply IH.
  - eapply moves_step; [apply prog_locked|]. by apply IH.
  - eapply moves_step; [eapply prog_spawn|by apply IH]. apply not_elem_of_dom, is_fresh.
  - destruct (outcome_of t (wo_local s)) as [returned|] eqn:Eo.
    + eapply moves_step; [by apply prog_join|]. by apply IH.
    + destruct (_ && _) eqn:Eb; [|done]. apply andb_true_iff in Eb as [Ha [w Hw]%bool_decide_eq_true].
      eapply (rtc_l _ _ (ended t false s, Join t k)); [right; split; [done|]; by exists t, w|].
      eapply moves_step; [apply prog_join|by apply IH].
      unfold outcome_of. simpl. rewrite lookup_alter_eq. unfold was_aborted in Ha.
      by destruct (lo_runtime (wo_local s) !! t).
Qed.

(** A tick that runs alone to its end. *)
Lemma daemon_ticks registry clock d s r s' :
  daemon_reaches registry d {| cf_world := s; cf_tick := None; cf_calls := [] |} →
  solo clock (tick registry) s = Some (r, s') →
  daemon_reaches registry d {| cf_world := s'; cf_tick := None; cf_calls := [] |}.
Proof.
  intros Hr Hs. unfold daemon_reaches in *. etrans; [exact Hr|]. eapply rtc_l; [by apply tick_starts|]. simpl.
  assert (solo clock (forget (tick registry)) s = Some (tt, s')) as Hf.
  { unfold forget. unfold Act in *. by rewrite solo_bind, Hs. }
  apply solo_moves in Hf. revert Hf. generalize (forget (tick registry)). intros p Hf.
  assert (Hlift : ∀ x y : World * Prog unit, rtc moves x y →
    rtc (config_step registry) {| cf_world := x.1; cf_tick := Some x.2; cf_calls := [] |}
      {| cf_world := y.1; cf_tick := Some y.2; cf_calls := [] |}).
  { clear. intros x y. induction 1 as [x|x y z [Hm|(Hp&t&w&Hw&Ha&Hy)] _ IH]; [done|..].
    - eapply rtc_l; [by eapply tick_moves|done].
    - eapply rtc_l; [by eapply (task_dropped registry _ t w)|]. unfold on_world. simpl. rewrite <-Hy, <-Hp. done. }
  etrans; [by apply (Hlift (s, p) (s', Return tt))|]. apply rtc_once. simpl. by eapply tick_ends.
Qed.
End Soundness.
