(* ===== verification/SupervisorTick.v ===== *)
(** * What a tick does

    One tick run to its end on its own: every active workflow the supervisor has no
    executor for is started, failed because it cannot be, or deliberately left. *)

From S2P Require Import Prelude Float64 Model Store Claims WorkItems WorkItemFacts Lifecycle Automation.
From S2P Require Import Invariants Registry RegistryFacts Supervisor SupervisorFacts SupervisorRuns.

Section Tick.
Context `{SD : Serde} `{RO : RowOrder} {DC : Decode} {JT : JoinText}.
Context (registry : gmap string (WorkflowFactory Executor)) (clock : Z).
Implicit Types (s : World) (d : DB) (w : WorkflowInstance) (l : Local).

(** ** Inversions *)

Lemma solo_act_Ok {A B} (p : Act A) (f : A → Act B) s b s' :
  solo clock (p ≫= f) s = Some (Ok b, s') ↔
  ∃ a s1, solo clock p s = Some (Ok a, s1) ∧ solo clock (f a) s1 = Some (Ok b, s').
Proof.
  rewrite solo_act. destruct (solo clock p s) as [[[a|e] s1]|]; simpl; naive_solver.
Qed.

Lemma solo_read_Ok id s w s' :
  solo clock (read id) s = Some (Ok w, s') → s' = s ∧ instances (wo_db s) !! id = Some w.
Proof.
  unfold read. rewrite solo_commit. unfold run. destruct (require_workflow id (wo_db s)) as [[w1 d1]|] eqn:E; [|done].
  apply require_workflow_Ok in E as [-> Hw]. intros [= <- <-]. split; [by destruct s|done].
Qed.

(** A change of the row of one workflow. *)
Record row_only (id : N) d d' w' : Prop := {
  ro_instances : instances d' = <[id := w']> (instances d);
  ro_policy : policy d' = policy d;
}.

Lemma row_only_trans id d1 d2 d3 w w' : row_only id d1 d2 w → row_only id d2 d3 w' → row_only id d1 d3 w'.
Proof. intros [H1 P1] [H2 P2]. split; [|congruence]. by rewrite H2, H1, insert_insert_eq. Qed.

Lemma update_state_row id r state wait disp clk d w' d' :
  update_state id r state wait disp [] clk d = Ok (w', d') →
  row_only id d d' w' ∧ wf_status w' = ws_status state ∧
  ∃ w, instances d !! id = Some w ∧ wf_kind w' = wf_kind w ∧ wf_schema_version w' = wf_schema_version w.
Proof.
  intros H. assert (H' := H). apply update_state_Ok in H' as (w&now&Hw&Hr&_&->&Hi&_).
  split_and!; [|done|by exists w]. split; [exact Hi|].
  unfold update_state in H. cbv zeta in H.
  set (disp' := if decide (ws_status state = Failed) then disp else None) in *.
  apply tx_bind_Ok in H as (e&d0&He&H). apply lift_Ok in He as [_ ->].
  apply tx_bind_Ok in H as (now'&d0&Hn&H). apply lift_Ok in Hn as [_ ->].
  apply tx_bind_Ok in H as (w1&d0&Hw1&H). apply require_workflow_Ok in Hw1 as [-> _].
  case_decide; [done|]. destruct (negb _); [done|]. apply tx_bind_Ok in H as ([]&d1&Hm&H).
  unfold modify in Hm. injection Hm as <-. apply tx_bind_Ok in H as ([]&d2&Hfin&H).
  apply require_workflow_Ok in H as [-> _].
  destruct (WorkflowStatus.is_terminal (ws_status state)); [|by injection Hfin as <-].
  rewrite finish_without_return in Hfin. by injection Hfin as <-.
Qed.

Lemma transition_row id w status s w' s' :
  solo clock (transition id w status) s = Some (Ok w', s') →
  ∃ d', s' = on_db d' s ∧ row_only id (wo_db s) d' w' ∧ wf_status w' = status ∧
    ∃ w0, instances (wo_db s) !! id = Some w0 ∧ wf_kind w' = wf_kind w0 ∧ wf_schema_version w' = wf_schema_version w0.
Proof.
  unfold transition. rewrite solo_act, solo_lift. destruct (wait_intent w); [|done]. cbn [after].
  rewrite solo_act, solo_lift. destruct (checkpoint_value w); [|done]. cbn [after].
  rewrite solo_act, solo_lift. destruct (result_value w); [|done]. cbn [after].
  rewrite solo_commit. unfold run, update_with_wait.
  destruct (update_state _ _ _ _ _ _ _ _) as [[w2 d2]|] eqn:E; [|done]. intros [= <- <-].
  apply update_state_row in E as (?&?&?). by exists d2.
Qed.

Lemma mark_failed_row error id w control s s' :
  solo clock (with_context (mark_failed error) id w control) s = Some (Ok tt, s') →
  ∃ d' w', s' = on_db d' s ∧ row_only id (wo_db s) d' w' ∧ wf_status w' = Failed ∧
    ∃ w0, instances (wo_db s) !! id = Some w0 ∧ wf_kind w' = wf_kind w0 ∧ wf_schema_version w' = wf_schema_version w0.
Proof.
  unfold with_context. cbn [solo]. unfold mark_failed, op_bind at 1, this. cbn.
  destruct (result_value w) as [r|]; [|by intros [= ]].
  unfold mark_failed_with_result, op_bind, this, current_step, this, assign. cbn.
  destruct (checkpoint_value w) as [c|]; [|by intros [= ]]. cbn.
  unfold run, update_with_failure_disposition.
  destruct (update_state _ _ _ _ _ _ _ _) as [[w2 d2]|] eqn:E; cbn; [|by intros [= ]].
  intros [= <-]. apply update_state_row in E as ([Hi Hp]&Hs&Hk). eexists _, w2. split; [reflexivity|].
  split; [by split|done].
Qed.

(** What may have changed outside the entries of one workflow. *)
Record only_about (id : N) s s' : Prop := {
  oa_rows : ∀ id', id' ≠ id → instances (wo_db s') !! id' = instances (wo_db s) !! id';
  oa_tasks : ∀ id', id' ≠ id → lo_tasks (wo_local s') !! id' = lo_tasks (wo_local s) !! id';
  oa_controls : ∀ id', id' ≠ id → lo_controls (wo_local s') !! id' = lo_controls (wo_local s) !! id';
  oa_runtime : ∀ t, is_Some (lo_runtime (wo_local s) !! t) →
    is_Some (lo_runtime (wo_local s') !! t) ∧ wo_pool s' !! t = wo_pool s !! t;
}.

#[global] Instance only_about_preorder id : PreOrder (only_about id).
Proof.
  split; [by intros s; split|]. intros s1 s2 s3 [R1 T1 C1 U1] [R2 T2 C2 U2]. split.
  - intros id' Hne. by rewrite R2, R1.
  - intros id' Hne. by rewrite T2, T1.
  - intros id' Hne. by rewrite C2, C1.
  - intros t Ht. destruct (U1 t Ht) as [Ht1 E1]. destruct (U2 t Ht1) as [Ht2 E2]. split; [done|congruence].
Qed.

Lemma only_about_db id s d w' : row_only id (wo_db s) d w' → only_about id s (on_db d s).
Proof. intros [Hi _]. split; simpl; [|done..]. intros id' Hne. by rewrite Hi, lookup_insert_ne. Qed.

Lemma only_about_same id s d : instances d = instances (wo_db s) → only_about id s (on_db d s).
Proof. intros Hi. split; simpl; [|done..]. intros id' Hne. by rewrite Hi. Qed.

Lemma clear_start_Ok id s s' :
  solo clock (clear_start id) s = Some (Ok tt, s') →
  only_about id s s' ∧ instances (wo_db s') = instances (wo_db s) ∧
  lo_controls (wo_local s') !! id = None ∧ lo_tasks (wo_local s') = lo_tasks (wo_local s).
Proof.
  unfold clear_start, remove_control, locked. intros ([]&s1&Hs1&H)%solo_act_Ok. cbn in Hs1. injection Hs1 as <-.
  apply solo_act_Ok in H as (w&s2&Hs2&H). apply solo_read_Ok in Hs2 as [-> Hw].
  set (s1 := {| wo_db := _; wo_local := _; wo_pool := _ |}) in *.
  assert (only_about id s s1 ∧ lo_controls (wo_local s1) !! id = None) as [H1 H2].
  { split; [|simpl; apply lookup_delete_eq]. split; simpl; [done|done| |done].
    intros id' Hne. by rewrite lookup_delete_ne. }
  case_decide.
  - apply solo_act_Ok in H as (n&s3&Hs3&H). injection H as <-. rewrite solo_commit in Hs3.
    unfold run in Hs3. destruct (release_claims_run id (wo_db s1)) as [m Hm]. rewrite Hm in Hs3. injection Hs3 as _ <-.
    split_and!; [|done..]. etrans; [exact H1|]. by apply only_about_same.
  - injection H as <-. by split_and!.
Qed.

(** ** Starting one workflow *)

(** The workflow has an executor of its kind, at work from the row as it is. *)
Definition started (id : N) s' : Prop :=
  ∃ task factory executor cx,
    instances (wo_db s') !! id = Some (cx_instance cx) ∧ wf_status (cx_instance cx) = Running ∧ cx_id cx = id ∧
    lo_tasks (wo_local s') !! id = Some task ∧ is_Some (lo_controls (wo_local s') !! id) ∧
    is_Some (lo_runtime (wo_local s') !! task) ∧
    wo_pool s' !! task = Some (executor_task executor cx) ∧
    resolve registry (cx_instance cx) = Ok factory ∧ fa_create_executor _ factory = Some executor.

(** It was failed, because its payload cannot be migrated or nothing can run its kind. *)
Definition refused (id : N) s' : Prop :=
  ∃ w', instances (wo_db s') !! id = Some w' ∧ wf_status w' = Failed ∧ lo_controls (wo_local s') !! id = None ∧
    ∃ w0, wf_kind w0 = wf_kind w' ∧
      ((∃ e, migration registry (id, w0) = Err e) ∨ (∃ e, resolve registry w0 = Err e) ∨
       (∃ factory, resolve registry w0 = Ok factory ∧ fa_create_executor _ factory = None)).

Lemma solo_attempt {A} (p : Act A) s out s' :
  solo clock (attempt p) s = Some (Ok out, s') → solo clock p s = Some (out, s').
Proof.
  unfold attempt. unfold Act in *. rewrite solo_bind. destruct (solo clock p s) as [[r s1]|]; simpl; naive_solver.
Qed.

Lemma abandon_start_Ok error id w control s s' :
  solo clock (abandon_start id w control error) s = Some (Ok tt, s') →
  only_about id s s' ∧ lo_controls (wo_local s') !! id = None ∧
  ∃ w', instances (wo_db s') !! id = Some w' ∧ wf_status w' = Failed ∧
    ∃ w0, instances (wo_db s) !! id = Some w0 ∧ wf_kind w' = wf_kind w0 ∧ wf_schema_version w' = wf_schema_version w0.
Proof.
  unfold abandon_start. intros (out&s1&Hs1%solo_attempt&(u&s2&Hs2&Hs3)%solo_act_Ok)%solo_act_Ok.
  unfold act_lift in Hs3. cbn in Hs3. injection Hs3 as -> ->.
  destruct (mark_failed_row _ _ _ _ _ _ Hs1) as (d'&w'&->&Hrow&Hf&Hk). destruct u.
  destruct (clear_start_Ok _ _ _ Hs2) as (Ho&Hi&Hc&_). split_and!.
  - etrans; [by eapply only_about_db|done].
  - done.
  - exists w'. rewrite Hi. simpl. rewrite (ro_instances _ _ _ _ Hrow), lookup_insert_eq. done.
Qed.

Lemma migrate_start_Ok id w s out s' :
  instances (wo_db s) !! id = Some w →
  solo clock (migrate_start registry id w) s = Some (Ok out, s') →
  ∃ d', s' = on_db d' s ∧ (∀ id', id' ≠ id → instances d' !! id' = instances (wo_db s) !! id') ∧
  match out with
  | Some w1 => instances d' !! id = Some w1 ∧ wf_kind w1 = wf_kind w
  | None => (∃ e, migration registry (id, w) = Err e) ∧ ∃ w', instances d' !! id = Some w' ∧ wf_status w' = Failed ∧
      wf_kind w' = wf_kind w
  end.
Proof.
  intros Hw. unfold migrate_start. destruct (migration registry (id, w)) as [[[version m]|]|e] eqn:Em.
  - intros (w1&s1&Hs1&H)%solo_act_Ok. injection H as <- <-. rewrite solo_commit in Hs1. unfold run in Hs1.
    destruct (migrate_workflow _ _ _ _ _ _ _) as [[w2 d2]|] eqn:E; [|done]. injection Hs1 as <- <-.
    exists d2. split; [done|]. unfold migrate_workflow in E. case_decide; [done|].
    apply tx_bind_Ok in E as (r&d0&Hr&E). apply lift_Ok in Hr as [_ ->].
    apply tx_bind_Ok in E as (now&d0&Hn&E). apply lift_Ok in Hn as [_ ->]. cbv zeta in E.
    erewrite tx_bind_step in E by done. apply tx_bind_Ok in E as ([]&d1&Hm&E). unfold modify in Hm. injection Hm as <-.
    case_decide; [done|]. apply require_workflow_Ok in E as [-> Hw2]. simpl in Hw2. split.
    + intros id' Hne. simpl. rewrite lookup_update_where.
      destruct (instances (wo_db s) !! id') as [w'|]; [|done]. simpl. by rewrite bool_decide_eq_false_2.
    + split; [done|]. rewrite lookup_update_where, Hw in Hw2. simpl in Hw2. injection Hw2 as <-. by case_match.
  - intros H. injection H as <- <-. exists (wo_db s). split; [by destruct s|]. by split_and!.
  - intros ([]&s1&Hs1&H)%solo_act_Ok. injection H as <- <-. unfold fail_without_executor in Hs1.
    destruct (mark_failed_row _ _ _ _ _ _ Hs1) as (d'&w'&->&Hrow&Hf&w0&Hw0&Hk&_). exists d'. split; [done|].
    rewrite (ro_instances _ _ _ _ Hrow). split; [intros; by rewrite lookup_insert_ne|]. split; [by eexists|].
    exists w'. rewrite lookup_insert_eq. split_and!; [done..|]. by simplify_eq.
Qed.

(** A start that returns. *)
Lemma start_Ok id w s s' :
  instances (wo_db s) !! id = Some w → lo_controls (wo_local s) !! id = None →
  solo clock (start registry id w) s = Some (Ok tt, s') →
  only_about id s s' ∧ (started id s' ∨ refused id s').
Proof.
  intros Hw Hc. unfold start. intros (out&s1&Hs1&H)%solo_act_Ok.
  destruct (migrate_start_Ok _ _ _ _ _ Hw Hs1) as (d1&->&Hother&Hout).
  assert (H1 : only_about id s (on_db d1 s)) by by split.
  destruct out as [w1|].
  2: { injection H as <-. split; [done|]. right. destruct Hout as ((e&He)&w'&Hw'&Hf&Hk).
       exists w'. split_and!; [done..|]. exists w. split; [done|]. left. by exists e. }
  destruct Hout as [Hw1 Hk1]. unfold insert_control, locked in H.
  apply solo_act_Ok in H as (channel&s2&Hs2&H). cbn [solo] in Hs2. injection Hs2 as <- <-.
  set (channel := fresh _) in *. set (s2 := {| wo_db := _; wo_local := _; wo_pool := _ |}) in *.
  assert (H2 : only_about id s s2).
  { etrans; [exact H1|]. split; simpl; [done|done| |done]. intros id' Hne. by rewrite lookup_insert_ne. }
  apply solo_act_Ok in H as (out&s3&Hs3%solo_attempt&H).
  destruct out as [w2|e].
  2: { apply solo_act_Ok in H as (?&?&_&H). done. }
  destruct (transition_row _ _ _ _ _ _ Hs3) as (d3&->&Hrow&Hst&w0&Hw0&Hk0&_).
  assert (H3 : only_about id s (on_db d3 s2)) by (etrans; [exact H2|by eapply only_about_db]).
  assert (Hw2 : instances (wo_db (on_db d3 s2)) !! id = Some w2).
  { simpl. rewrite (ro_instances _ _ _ _ Hrow). apply lookup_insert_eq. }
  assert (Hrefuse : ∀ error, solo clock (abandon_start id w2 channel error) (on_db d3 s2) = Some (Ok tt, s') →
    (∃ e, resolve registry w2 = Err e) ∨
      (∃ factory, resolve registry w2 = Ok factory ∧ fa_create_executor _ factory = None) →
    only_about id s s' ∧ (started id s' ∨ refused id s')).
  { intros error Ha Hwhy. destruct (abandon_start_Ok _ _ _ _ _ _ Ha) as (Ho&Hc'&w'&Hw'&Hf&w2'&Hw2'&Hk'&_).
    split; [by etrans|]. right. exists w'. split_and!; [done..|]. exists w2. split; [|by right]. congruence. }
  destruct (resolve registry w2) as [factory|e] eqn:Er; [|eapply Hrefuse; eauto].
  destruct (fa_create_executor _ factory) as [executor|] eqn:Ee; [|eapply Hrefuse; eauto].
  unfold borrow_control in H. apply solo_act_Ok in H as (request&s4&Hs4&H). cbn in Hs4.
  rewrite lookup_insert_eq in Hs4. injection Hs4 as <- <-. rewrite decide_False in H by (intros Hne; by apply Hne).
  unfold locked in H. cbn [solo] in H. injection H as <-. split.
  - etrans; [exact H3|]. split; simpl; [done| |done|].
    + intros id' Hne. by rewrite lookup_insert_ne.
    + intros t Ht. assert (t ≠ fresh (dom (lo_runtime (wo_local s)))).
      { intros ->. simpl in Ht. apply elem_of_dom in Ht. by apply is_fresh in Ht. }
      rewrite !lookup_insert_ne by done. done.
  - left. exists (fresh (dom (lo_runtime (wo_local s)))), factory, executor,
      {| cx_id := id; cx_instance := w2; cx_control := Some channel |}. simpl. rewrite !lookup_insert_eq. split_and!; try done; by eexists.
Qed.

(** ** One row of the loop *)

(** The rows the tick leaves: those with an executor, paused or finished ones, and those
    whose polling wait is not due. *)
Definition left_alone s (id : N) w : bool :=
  bool_decide (is_Some (lo_controls (wo_local s) !! id)) ||
  match wf_status w with
  | Queued | Running | Reconciling => false
  | Waiting => match wait_intent w with Ok None => negb (polling_wait_retry_due clock w) | _ => false end
  | Paused | Succeeded | Failed | Cancelled => true
  end.

Lemma tick_one_Ok id w s s' :
  instances (wo_db s) !! id = Some w → solo clock (tick_one registry (id, w)) s = Some (Ok tt, s') →
  if left_alone s id w then s' = s else only_about id s s' ∧ (started id s' ∨ refused id s').
Proof.
  intros Hw. unfold tick_one, locked, left_alone. intros (owned&s1&Hs1&H)%solo_act_Ok. cbn [solo] in Hs1.
  injection Hs1 as <- <-. replace {| wo_db := _; wo_local := _; wo_pool := _ |} with s in H by by destruct s.
  destruct (lo_controls (wo_local s) !! id) as [channel|] eqn:Ec.
  { rewrite bool_decide_eq_true_2 in H |- * by by eexists. by injection H as <-. }
  rewrite bool_decide_eq_false_2 in H |- * by by intros []. cbn [orb].
  apply solo_act_Ok in H as (held&s1&Hheld&H).
  assert (s1 = s ∧ held = match wf_status w with
    | Waiting => match wait_intent w with Ok None => negb (polling_wait_retry_due clock w) | _ => false end
    | _ => false end) as [-> Hh].
  { case_decide as Hwt; [rewrite Hwt in *|injection Hheld as <- <-; by destruct (wf_status w)].
    apply solo_act_Ok in Hheld as (wait&s2&Hs2&Hheld). unfold act_lift in Hs2. cbn in Hs2. injection Hs2 as -> <-.
    destruct wait; [by injection Hheld as <- <-|]. apply solo_act_Ok in Hheld as (z&s2&Hs2&Hheld).
    cbn in Hs2. injection Hs2 as <- <-. injection Hheld as <- <-. split; [by destruct s|done]. }
  destruct held.
  { injection H as <-. by destruct (wf_status w); try done; rewrite <-Hh. }
  apply solo_act_Ok in H as (w1&s1&Hs1&H).
  assert (Hmove : wf_status w = Running ∨ wf_status w = Waiting →
    solo clock (transition id w Reconciling) s = Some (Ok w1, s1) →
    only_about id s s' ∧ (started id s' ∨ refused id s')).
  { intros _ Ht. destruct (transition_row _ _ _ _ _ _ Ht) as (d1&->&Hrow&Hst&_).
    rewrite Hst in H. destruct (start_Ok id w1 (on_db d1 s) s') as [Ho Hr]; [| |done|].
    - simpl. rewrite (ro_instances _ _ _ _ Hrow). apply lookup_insert_eq.
    - done.
    - split; [|done]. etrans; [by eapply only_about_db|done]. }
  destruct (wf_status w) eqn:Es; try (rewrite <-Hh); try (apply Hmove; auto; fail).
  all: injection Hs1 as <- <-; rewrite Es in H; try (by injection H as <-); by apply start_Ok in H.
Qed.

(** ** The loop *)

Lemma started_frame id id' s s' : id' ≠ id → only_about id' s s' → started id s → started id s'.
Proof.
  intros Hne [R T C U] (task&factory&executor&cx&Hi&Hs&Hid&Ht&Hc&Hrt&Hp&Hr&He).
  destruct (U task Hrt) as [Hrt' Hp'].
  exists task, factory, executor, cx. rewrite R, T, C, Hp' by done. by split_and!.
Qed.

Lemma refused_frame id id' s s' : id' ≠ id → only_about id' s s' → refused id s → refused id s'.
Proof. intros Hne [R T C U] (w'&Hi&Hs&Hc&Hrest). exists w'. rewrite R, C by done. by split_and!. Qed.

Definition untouched (id : N) s s' : Prop :=
  instances (wo_db s') !! id = instances (wo_db s) !! id ∧
  lo_tasks (wo_local s') !! id = lo_tasks (wo_local s) !! id ∧
  lo_controls (wo_local s') !! id = lo_controls (wo_local s) !! id.

Lemma untouched_frame id id' s s' : id' ≠ id → only_about id' s s' → untouched id s s'.
Proof. intros Hne [R T C _]. split_and!; auto. Qed.

Lemma tick_rows_Ok rows s s' :
  NoDup rows.*1 → (∀ id w, (id, w) ∈ rows → instances (wo_db s) !! id = Some w) →
  solo clock (for_all (tick_one registry) rows) s = Some (Ok tt, s') →
  (∀ id w, (id, w) ∈ rows →
     if left_alone s id w then untouched id s s' else started id s' ∨ refused id s') ∧
  (∀ id, id ∉ rows.*1 → untouched id s s') ∧
  (∀ t, is_Some (lo_runtime (wo_local s) !! t) →
     is_Some (lo_runtime (wo_local s') !! t) ∧ wo_pool s' !! t = wo_pool s !! t).
Proof.
  revert s. induction rows as [|[i v] rows IH]; intros s Hnd Hin H; cbn [for_all] in H.
  { injection H as <-. split_and!; [by intros ?? ?%elem_of_nil|done..]. }
  apply solo_act_Ok in H as ([]&s1&Hs1&H). apply NoDup_cons in Hnd as [Hni Hnd].
  assert (Hv : instances (wo_db s) !! i = Some v) by (apply Hin; by left).
  apply (tick_one_Ok _ _ _ _ Hv) in Hs1.
  assert (Ho : only_about i s s1) by (destruct (left_alone s i v); [by subst|by destruct Hs1]).
  assert (Hne : ∀ id w, (id, w) ∈ rows → i ≠ id).
  { intros id w Hid ->. apply Hni. apply list_elem_of_fmap. by exists (id, w). }
  destruct (IH s1) as (Hrows&Hrest&Hkeep); [done| |done|].
  { intros id w Hid. rewrite (oa_rows _ _ _ Ho) by (by apply not_eq_sym, (Hne _ w)). apply Hin. by right. }
  assert (Hu : ∀ id, i ≠ id → untouched id s1 s' → untouched id s s').
  { intros id Hid (E1&E2&E3). destruct (untouched_frame id i s s1) as (F1&F2&F3); [done..|]. split_and!; congruence. }
  split_and!.
  - intros id w [[= -> ->]|Hid]%elem_of_cons.
    + destruct (Hrest i Hni) as (E1&E2&E3). destruct (left_alone s i v); [subst s1; done|].
      destruct Hs1 as [_ [(task&factory&executor&cx&Hi&Hs&Hc&Ht&Hcc&Hrt&Hp&Hre&He)|(w'&Hi&Hs&Hc&Hwhy)]].
      * left. destruct (Hkeep task Hrt) as [Hrt' Hp'].
        exists task, factory, executor, cx. rewrite E1, E2, E3, Hp'. by split_and!.
      * right. exists w'. rewrite E1, E3. by split_and!.
    + assert (Hsame : left_alone s1 id w = left_alone s id w).
      { unfold left_alone. by rewrite (oa_controls _ _ _ Ho) by (by apply not_eq_sym, (Hne _ w)). }
      specialize (Hrows _ _ Hid). rewrite Hsame in Hrows.
      destruct (left_alone s id w); [|done]. apply Hu; [by eapply Hne|done].
  - intros id Hid. apply Hu; [set_solver|]. apply Hrest. set_solver.
  - intros t Ht. destruct (oa_runtime _ _ _ Ho t Ht) as [Ht1 E1]. destruct (Hkeep t Ht1) as [? ?].
    split; [done|congruence].
Qed.

(** ** The tick *)

Lemma startup_done s : lo_reconciled (wo_local s) = true → solo clock startup s = Some (Ok None, s).
Proof. intros Hr. unfold startup, locked. rewrite solo_act. cbn. rewrite Hr. by destruct s. Qed.

Lemma reap_nothing s :
  (∀ id task, lo_tasks (wo_local s) !! id = Some task → is_finished (wo_local s) task = false) →
  solo clock reap_finished s = Some (Ok tt, s).
Proof.
  intros Hn. unfold reap_finished, locked. rewrite solo_act. cbn [solo after fst snd].
  assert (List.filter (λ e : N * N, is_finished (wo_local s) e.2) (row_order (map_to_list (lo_tasks (wo_local s)))) = []) as E.
  { destruct (List.filter _ _) as [|[id t] rest] eqn:Ef; [done|exfalso].
    assert ((id, t) ∈ (id, t) :: rest) as Hin by by left. rewrite <-Ef in Hin.
    apply elem_of_filter_bool in Hin as [Hin Hf]. rewrite elem_of_row_order, elem_of_map_to_list in Hin.
    simpl in Hf. by rewrite (Hn _ _ Hin) in Hf. }
  unfold take_finished. rewrite E. cbn. by destruct s as [d [] pool].
Qed.

End Tick.
