(* ===== verification/SupervisorWitnesses.v ===== *)
(** * Evaluations of the registry and the supervisor

    A queued workflow with a claimed device, a registry with an executor for its kind, and
    the runs of a daemon on it: a tick that starts it, a pause and a resume before the next
    tick, a cancellation that comes too late, a shutdown. *)

From S2P Require Import Prelude Float64 Model Store Fixtures Claims WorkItems WorkItemFacts.
From S2P Require Import Lifecycle Automation Allocation Invariants Witnesses.
From S2P Require Import Registry RegistryFacts Supervisor SupervisorFacts SupervisorRuns SupervisorTick.

#[local] Existing Instance sample_serde.
#[local] Existing Instance table_order.

(** ** A sample daemon *)

Definition sample_wait : WaitIntent :=
  {| wi_description := "arrival"; wi_event_name := None; wi_event_names := []; wi_device_code := Some " d-2";
     wi_device_codes := []; wi_cursor := None; wi_deadline_millis := None; wi_poll_interval_millis := None |}.

Definition sample_decode : Decode := {|
  json_null := VNull;
  value_from_str := λ text, Some (if decide (text = "null") then VNull else VText text);
  wait_from_str := λ text, if decide (text = "wait") then Some sample_wait else None;
  wait_to_value := λ _, VText "wait" |}.
#[local] Existing Instance sample_decode.

Definition sample_join : JoinText := {| join_error_text := λ _, "task was cancelled" |}.
#[local] Existing Instance sample_join.

(** An executor that waits for the world outside and then returns. *)
Definition sample_executor : Executor := λ cx, Outside (λ _ : unit, Ret (Ok tt, cx)).

Definition sample_factory : WorkflowFactory Executor :=
  {| fa_kind := "campaign"; fa_current_schema_version := 1;
     fa_supports_schema_version := λ v, bool_decide (v = 1);
     fa_migrate := λ _, Ok None; fa_create_executor := Some sample_executor;
     fa_placement_intents := λ _ _,
       Ok {| pp_coverage := PlacementComplete; pp_intents := []; pp_resolutions := [] |};
     fa_service_intents := λ _,
       Ok {| sv_coverage := ServiceNotApplicable; sv_intents := []; sv_unknown_scopes := [] |} |}.
Definition sample_registry : gmap string (WorkflowFactory Executor) := {["campaign" := sample_factory]}.

(** A queued workflow that holds a device. *)
Definition db_queued : DB :=
  let d1 := committed (create_with_parent_claims (sample_workflow "campaign" None) [] 1 10 empty_db) empty_db in
  committed (acquire_claim 1 (Device "D-1") 40 d1) d1.

Lemma db_queued_reachable : reachable db_queued.
Proof.
  unfold db_queued. cbv zeta. apply reachable_committed; [constructor|].
  apply reachable_committed; [constructor|]. apply reachable_empty.
Qed.

(** The world a run leaves. *)
Definition world_after {A} (out : option (A * World)) (s : World) : World :=
  match out with Some (_, s') => s' | None => s end.
Definition succeeded (out : option (res unit * World)) : bool :=
  match out with Some (Ok tt, _) => true | _ => false end.

Lemma succeeded_Ok out s : succeeded out = true → out = Some (Ok tt, world_after out s).
Proof. destruct out as [[[[]|] s']|]; done. Qed.

Definition world_queued : World := {| wo_db := db_queued; wo_local := new_local; wo_pool := ∅ |}.
Definition world_running : World := world_after (solo 50 (tick sample_registry) world_queued) world_queued.
Definition world_paused : World := world_after (solo 60 (pause 1) world_running) world_running.
Definition world_resumed : World := world_after (solo 70 (resume 1) world_paused) world_paused.

Lemma running_Ok : solo 50 (tick sample_registry) world_queued = Some (Ok tt, world_running).
Proof. apply succeeded_Ok. vm_compute. reflexivity. Qed.
Lemma paused_Ok : solo 60 (pause 1) world_running = Some (Ok tt, world_paused).
Proof. apply succeeded_Ok. vm_compute. reflexivity. Qed.
Lemma resumed_Ok : solo 70 (resume 1) world_paused = Some (Ok tt, world_resumed).
Proof. apply succeeded_Ok. vm_compute. reflexivity. Qed.

Lemma running_tasks : lo_tasks (wo_local world_running) = {[1%N := 0%N]}.
Proof. vm_compute. reflexivity. Qed.

(** ** The theorems at the sample *)

Lemma running_reaches : daemon_reaches sample_registry db_queued {| cf_world := world_running; cf_tick := None; cf_calls := [] |}.
Proof.
  apply (daemon_ticks _ 50 _ world_queued (Ok tt)); [apply rtc_refl|apply running_Ok].
Qed.

Lemma clock_ok_small z : bool_decide (0 ≤ z ≤ 1000) = true → clock_ok z.
Proof. intros ?%bool_decide_eq_true. unfold clock_ok, in_i64, i64_min, i64_max. lia. Qed.

Lemma present_is_Some {A} (o : option A) : (match o with Some _ => true | None => false end) = true → is_Some o.
Proof. by destruct o. Qed.

Definition no_row : WorkflowInstance := queued_instance (sample_workflow "none" None) 0.
Definition row_of (s : World) : WorkflowInstance := default no_row (instances (wo_db s) !! 1%N).
Lemma row_of_lookup s :
  (match instances (wo_db s) !! 1%N with Some _ => true | None => false end) = true →
  instances (wo_db s) !! 1%N = Some (row_of s).
Proof. unfold row_of. by destruct (instances (wo_db s) !! 1%N). Qed.

Definition readable_b (w : WorkflowInstance) : bool :=
  match wait_intent w, checkpoint_value w, result_value w with Ok _, Ok _, Ok _ => true | _, _, _ => false end.
Lemma readable_ok w : readable_b w = true → readable w.
Proof.
  unfold readable_b, readable. destruct (wait_intent w); [|done]. destruct (checkpoint_value w); [|done].
  destruct (result_value w); [|done]. intros _. split_and!; by eexists.
Qed.
Lemma revision_small w : bool_decide (0 ≤ wf_revision w ≤ 1000) = true → in_i64 (wf_revision w).
Proof. intros ?%bool_decide_eq_true. unfold in_i64, i64_min, i64_max. lia. Qed.

Ltac evaluate := vm_compute; reflexivity.

Lemma running_working : working world_running 1 0.
Proof.
  split.
  - evaluate.
  - eexists. split; evaluate.
  - intros id' task'. rewrite running_tasks. intros [<- <-]%lookup_singleton_Some. by left.
Qed.

(** At a workflow started by the first tick. *)
Lemma executor_is_exclusive_witness :
  lo_tasks (wo_local world_running) !! 1%N = Some 0%N ∧ is_Some (lo_controls (wo_local world_running) !! 1%N).
Proof.
  assert (H1 : is_Some (wo_pool world_running !! 0%N)) by (apply present_is_Some; evaluate).
  assert (H2 : task_of (wo_local world_running) 0 1) by (eexists; split; evaluate).
  destruct (executor_is_exclusive sample_registry db_queued
    {| cf_world := world_running; cf_tick := None; cf_calls := [] |} 1 0 0 running_reaches H1 H2 H1 H2) as [_ H].
  exact (H eq_refl).
Defined.

(** The sample after its startup reconciliation. *)
Definition world_ready : World := {| wo_db := db_queued; wo_local := with_reconciled true new_local; wo_pool := ∅ |}.
Definition world_ticked : World := world_after (solo 50 (tick sample_registry) world_ready) world_ready.


(** At the sample. *)
Lemma quick_resume_fails_workflow_witness :
  wf_status (row_of world_resumed) = Reconciling ∧
  ∃ s3 w3, solo 80 reap_finished (ended 0 false world_resumed) = Some (Ok tt, s3) ∧
    instances (wo_db s3) !! 1%N = Some w3 ∧ wf_status w3 = Failed ∧
    wf_last_error w3 = Some (join_failure 0) ∧
    ∀ k c, claims_table (wo_db s3) !! k = Some c → cl_workflow_id c ≠ 1%N.
Proof.
  apply (quick_resume_fails_workflow 60 70 80 1 0 world_running world_paused world_resumed (row_of world_resumed)
    running_working paused_Ok resumed_Ok).
  - apply row_of_lookup. evaluate.
  - apply readable_ok. evaluate.
  - apply revision_small. evaluate.
  - apply clock_ok_small. evaluate.
Defined.

(** At a cancellation that read the workflow before the tick. *)
Lemma refused_cancel_fails_workflow_witness :
  ∃ s1, solo 60 (cancel_instance 1 (row_of world_queued)) world_running
      = Some (Err (ConcurrentUpdate 1 (wf_revision (row_of world_queued))), s1) ∧
    wo_db s1 = wo_db world_running ∧ was_aborted 0 (wo_local s1) = true ∧
    ∃ s2 w2, solo 70 reap_finished (ended 0 false s1) = Some (Ok tt, s2) ∧
      instances (wo_db s2) !! 1%N = Some w2 ∧ wf_status w2 = Failed ∧
      ∀ k c, claims_table (wo_db s2) !! k = Some c → cl_workflow_id c ≠ 1%N.
Proof.
  apply (refused_cancel_fails_workflow 60 70 1 0 world_running (row_of world_queued) (row_of world_running) running_working).
  - apply row_of_lookup. evaluate.
  - apply (bool_decide_eq_true_1 (wf_revision (row_of world_running) ≠ wf_revision (row_of world_queued))). evaluate.
  - apply revision_small. evaluate.
  - apply revision_small. evaluate.
  - apply readable_ok. evaluate.
  - apply readable_ok. evaluate.
  - evaluate.
  - apply clock_ok_small. evaluate.
  - apply clock_ok_small. evaluate.
Defined.


(** A workflow that was paused after its executor read the row. *)
Definition db_overtaken : DB :=
  let d1 := committed (update_state 1 0 (sample_state Running) None None [] 50 db_queued) db_queued in
  committed (update_state 1 1 (sample_state Paused) None None [] 60 d1) d1.
Definition overtaken_context : WorkflowContext :=
  {| cx_id := 1; cx_instance := row_of world_queued; cx_control := None |}.

Definition sample_checkpoint : @Value sample_serde := VNull.

(** At a checkpoint written after a pause. *)
Lemma overtaken_executor_cannot_write_witness :
  ∃ e, solo_work 70 ∅ (persist_checkpoint sample_checkpoint overtaken_context) db_overtaken
       = Some ((Err e, overtaken_context), db_overtaken).
Proof.
  assert (Hr : reachable db_overtaken).
  { unfold db_overtaken. cbv zeta. apply reachable_committed; [constructor|].
    apply reachable_committed; [constructor|]. apply db_queued_reachable. }
  set (s := {| wo_db := db_overtaken; wo_local := new_local; wo_pool := ∅ |}).
  apply (overtaken_executor_cannot_write db_overtaken db_overtaken 1 overtaken_context (row_of s)
    (persist_checkpoint sample_checkpoint) 70 ∅ Hr).
  - apply (row_of_lookup s). evaluate.
  - reflexivity.
  - apply (bool_decide_eq_true_1 (wf_revision (row_of world_queued) < wf_revision (row_of s))). evaluate.
  - apply rtc_refl.
  - exact (writes_checkpoint sample_checkpoint).
Defined.

(** ** The registry *)

(** At a running workflow whose kind provides no service. *)
Lemma service_absence_is_proof_witness :
  ∃ factory projection, sample_registry !! wf_kind (row_of world_running) = Some factory ∧
    fa_supports_schema_version _ factory (wf_schema_version (row_of world_running)) = true ∧
    fa_service_intents _ factory (1%N, row_of world_running) = Ok projection ∧
    valid_service_projection (canonicalize_service_projection projection) = true ∧
    {| si_service := "relay"; si_dimensions := ∅ |} ∉ sv_intents projection ∧
    ∀ scope, scope ∈ sv_unknown_scopes projection → scope_applies scope None (Some "Sol") = false.
Proof.
  apply (service_absence_is_proof sample_registry None (wo_db world_running) [] (wo_db world_running)).
  - assert (service_intent_snapshot sample_registry None (wo_db world_running) = Ok ([], (wo_db world_running))) as H.
    { unfold service_intent_snapshot, list_active, list_where. erewrite tx_bind_step by done.
      reflexivity. }
    exact H.
  - reflexivity.
  - apply row_of_lookup. evaluate.
  - evaluate.
  - discriminate.
Defined.

(** A running workflow that awaits one device and holds another. *)
Definition waiting_row : WorkflowInstance :=
  replace_state (sample_state Waiting) 60 (Some (VText "wait")) None (row_of world_running).
Definition sample_claim : ResourceClaim :=
  {| rc_resource := Device "D-1"; rc_workflow_id := 1; rc_acquired_at := 40; rc_updated_at := 40 |}.

(** At that workflow. *)
Lemma placement_snapshot_accounts_witness :
  NoDup [(1%N, waiting_row)].*1 ∧
  evidence_of (1%N, waiting_row) (device_intent Claimed "D-1")
    ∈ ps_live (placement_intent_snapshot sample_registry None [(1%N, waiting_row)] ∅ [sample_claim]).
Proof.
  assert (Hnd : NoDup [(1%N, waiting_row)].*1) by apply NoDup_singleton.
  split; [exact Hnd|].
  destruct (placement_snapshot_accounts sample_registry None [(1%N, waiting_row)] ∅ [sample_claim] Hnd) as [Hlive _].
  apply Hlive. right. exists sample_claim. split; [by left|]. exists "D-1", (1%N, waiting_row).
  split; [reflexivity|]. split; [by left|]. split; [reflexivity|]. split; [by split|].
  f_equal.
Defined.

(** At a device its wait names in another spelling. *)
Lemma device_in_use_is_explained_witness :
  evidence_of (1%N, waiting_row) (device_intent Awaited (canonical_device_code " d-2"))
    ∈ de_live (explain_device (placement_intent_snapshot sample_registry None [(1%N, waiting_row)] ∅ [sample_claim]) "D-2" []).
Proof.
  assert (Hnd : NoDup [(1%N, waiting_row)].*1) by apply NoDup_singleton.
  assert (Hin : (1%N, waiting_row) ∈ [(1%N, waiting_row)]) by by left.
  assert (Hcode : canonical_device_code " d-2" = canonical_device_code "D-2") by reflexivity.
  destruct (device_in_use_is_explained sample_registry None [(1%N, waiting_row)] ∅ [sample_claim] (1%N, waiting_row)
    " d-2" "D-2" [] Hnd Hin eq_refl ltac:(discriminate) Hcode) as (_&H&_).
  apply (H sample_wait); [reflexivity|]. by left.
Defined.
