(* ===== verification/RateLimit.v ===== *)
(** * Request rate limiting

    [src/src/raw/rate_limit.rs]: the permit schedule of every bucket, the two-class
    request queue in front of it, the refresh budget, what a server response does to
    the schedule, and the schedule peer processes share through SQLite.

    Instants and durations are nanoseconds, wall-clock times milliseconds.  An
    acquisition is a sequence of atomic sections, one per lock it takes, and the
    coordinator is the labelled step function [step] over those sections: between two
    of them any other request may run, time may pass, and the future may be dropped. *)

From S2P Require Import Prelude.

Inductive RateLimitBucket :=
| Read | Action | Registration | Verification | Feedback | StarCatalogue | Sse.
#[global] Instance RateLimitBucket_eq : EqDecision RateLimitBucket.
Proof. solve_decision. Defined.

Definition ALL_BUCKETS : list RateLimitBucket :=
  [Read; Action; Registration; Verification; Feedback; StarCatalogue; Sse].

#[global] Instance RateLimitBucket_countable : Countable RateLimitBucket.
Proof.
  refine (inj_countable' (λ k, match k with
    | Read => 0 | Action => 1 | Registration => 2 | Verification => 3
    | Feedback => 4 | StarCatalogue => 5 | Sse => 6 end%nat)
    (λ n, default Read (ALL_BUCKETS !! n)) _).
  by intros [].
Defined.

Inductive RequestPriority := Foreground | Background.
#[global] Instance RequestPriority_eq : EqDecision RequestPriority.
Proof. solve_decision. Defined.

(** ** Durations and instants *)

Definition from_secs (s : Z) : Z := s * 1000000000.
Definition duration_max : Z := from_secs u64_max + 999999999.
(** [Duration / u32] for a divisor that is not zero, and [Duration::saturating_mul]. *)
Definition duration_div (d n : Z) : Z := d / n.
Definition duration_saturating_mul (d n : Z) : Z := Z.min (d * n) duration_max.

(** The instants the platform can represent. *)
Class InstantRange := { instant_min : Z; instant_max : Z }.

Section Clock.
Context `{IR : InstantRange}.

(** [Instant::checked_sub], and [Instant + Duration], which panics on overflow. *)
Definition instant_checked_sub (i d : Z) : option Z :=
  if decide (instant_min ≤ i - d) then Some (i - d) else None.
Definition instant_add (i d : Z) : option Z :=
  if decide (i + d ≤ instant_max) then Some (i + d) else None.

(** ** Policies *)

Record RateLimitPolicy := {
  capacity : Z;      (* u32 *)
  refill_every : Z;  (* duration *)
}.

Definition DEFAULT_READ_CAPACITY : Z := 115.
Definition DEFAULT_ACTION_CAPACITY : Z := 57.

Definition default_for (bucket : RateLimitBucket) : RateLimitPolicy :=
  match bucket with
  | Read => {| capacity := DEFAULT_READ_CAPACITY; refill_every := from_secs 60 |}
  | Action | Sse => {| capacity := DEFAULT_ACTION_CAPACITY; refill_every := from_secs 60 |}
  | Registration => {| capacity := 10; refill_every := from_secs 3600 |}
  | Verification => {| capacity := 30; refill_every := from_secs 3600 |}
  | Feedback => {| capacity := 10; refill_every := from_secs 3600 |}
  | StarCatalogue => {| capacity := 1; refill_every := from_secs 60 |}
  end.

(** [policy.refill_every / policy.capacity.max(1)]. *)
Definition spacing (policy : RateLimitPolicy) : Z :=
  duration_div (refill_every policy) (Z.max (capacity policy) 1).

Definition credit_floor (now : Z) (policy : RateLimitPolicy) : Z :=
  let capacity := Z.max (capacity policy) 1 in
  let saved_credit :=
    duration_saturating_mul (duration_div (refill_every policy) capacity) (capacity - 1) in
  default now (instant_checked_sub now saved_credit).

(** ** Server observations *)

Record RateLimitReset := { epoch_seconds : Z; reset_delay : Z }.

(** [from_epoch_seconds]: [system_max] is the last second [SystemTime] represents. *)
Definition from_epoch_seconds (system_max epoch observed_at : Z) : option RateLimitReset :=
  if decide (epoch ≤ system_max)
  then Some {| epoch_seconds := epoch; reset_delay := Z.max 0 (from_secs epoch - observed_at) |}
  else None.

Record RateLimitSnapshot := {
  limit : option Z;
  remaining : option Z;
  reset : option RateLimitReset;
  retry_after : option Z;  (* [RetryAfter] *)
}.

(** [RateLimitSnapshot::delay] *)
Definition snapshot_delay (self : RateLimitSnapshot) : option Z :=
  match retry_after self with
  | Some d => Some d
  | None => reset_delay <$> reset self
  end.

Record Bucket := {
  next_at : Z;  (* [next] *)
  policy : RateLimitPolicy;
  server : option RateLimitSnapshot;
}.

Definition new_bucket (now : Z) (kind : RateLimitBucket) : Bucket :=
  let policy := default_for kind in
  {| next_at := credit_floor now policy; policy := policy; server := None |}.

Definition with_next (next : Z) (b : Bucket) : Bucket :=
  {| next_at := next; policy := policy b; server := server b |}.

(** The section of [acquire_with_refresh] under the bucket lock. *)
Inductive Permit :=
| Granted (b : Bucket)
| WaitFor (b : Bucket) (wait : Z)
| PermitPanic (b : Bucket).

Definition take_permit (b : Bucket) (now : Z) : Permit :=
  let b := with_next (Z.max (next_at b) (credit_floor now (policy b))) b in
  if decide (next_at b ≤ now) then
    match instant_add (next_at b) (spacing (policy b)) with
    | Some next => Granted (with_next next b)
    | None => PermitPanic b
    end
  else WaitFor b (next_at b - now).

(** [set_policy] *)
Definition bucket_set_policy (p : RateLimitPolicy) (now : Z) (b : Bucket) : Bucket :=
  {| next_at := credit_floor now p; policy := p; server := server b |}.

Definition TOO_MANY_REQUESTS : Z := 429.

(** [observe_response]'s [enforced_delay], and what it does to the bucket; [None] is
    the panic of [Instant::now() + delay]. *)
Definition enforced_delay (status : Z) (snapshot : RateLimitSnapshot) : option Z :=
  let exhausted := bool_decide (remaining snapshot = Some 0) in
  if bool_decide (status = TOO_MANY_REQUESTS) || exhausted then snapshot_delay snapshot else None.

Definition observe_response (status : Z) (snapshot : RateLimitSnapshot) (now : Z) (b : Bucket)
  : option Bucket :=
  match enforced_delay status snapshot with
  | Some delay =>
      next ← instant_add now delay;
      Some {| next_at := next; policy := policy b; server := Some snapshot |}
  | None => Some {| next_at := next_at b; policy := policy b; server := Some snapshot |}
  end.

(** ** The request queue *)

(** Tickets by number; an [Arc<TicketState>] is the number of its request. *)
Record RequestQueue := {
  foreground : list N;
  background : list N;
  foreground_streak : Z;  (* u8 *)
}.

Definition empty_queue : RequestQueue :=
  {| foreground := []; background := []; foreground_streak := 0 |}.

Definition both_empty (q : RequestQueue) : bool :=
  match foreground q, background q with [], [] => true | _, _ => false end.

Definition reset_if_empty (q : RequestQueue) : RequestQueue :=
  if both_empty q
  then {| foreground := foreground q; background := background q; foreground_streak := 0 |}
  else q.

Definition prune_cancelled (active : N → bool) (q : RequestQueue) : RequestQueue :=
  reset_if_empty {|
    foreground := base.filter (λ t, active t = true) (foreground q);
    background := base.filter (λ t, active t = true) (background q);
    foreground_streak := foreground_streak q |}.

Definition is_nil {A} (l : list A) : bool := match l with [] => true | _ => false end.

Definition foreground_turn (q : RequestQueue) : bool :=
  negb (is_nil (foreground q))
  && (is_nil (background q) || bool_decide (foreground_streak q < 8)).

Definition next (q : RequestQueue) : option N :=
  if foreground_turn q then head (foreground q) else head (background q).

Definition pop_next (q : RequestQueue) : RequestQueue :=
  reset_if_empty
    (if foreground_turn q
     then {| foreground := tail (foreground q); background := background q;
             foreground_streak := Z.min (foreground_streak q + 1) 255 |}
     else {| foreground := foreground q; background := tail (background q);
             foreground_streak := 0 |}).

Definition enqueue (priority : RequestPriority) (t : N) (q : RequestQueue) : RequestQueue :=
  match priority with
  | Foreground => {| foreground := foreground q ++ [t]; background := background q;
                     foreground_streak := foreground_streak q |}
  | Background => {| foreground := foreground q; background := background q ++ [t];
                     foreground_streak := foreground_streak q |}
  end.

(** The section that decides whether a ticket may go on: prune, then compare. *)
Definition check_turn (active : N → bool) (t : N) (q : RequestQueue) : RequestQueue * bool :=
  let q := prune_cancelled active q in (q, bool_decide (next q = Some t)).

(** ** The refresh budget *)

Record RefreshBudgetContext := { run_id : string; budget_capacity : Z }.
Record RefreshBucket := { rb_next : Z; rb_capacity : Z; permit_count : Z }.

Definition clamp_refresh (c : Z) : Z := Z.max 1 (Z.min c 60).

(** [acquire_refresh_local]: the schedule it leaves and the time it sleeps; [None]
    is the panic of the instant's overflow. *)
Definition acquire_refresh_local (context : RefreshBudgetContext) (now : Z)
    (schedules : gmap string RefreshBucket) : gmap string RefreshBucket * option Z :=
  let cap := clamp_refresh (budget_capacity context) in
  let schedule := default {| rb_next := now; rb_capacity := cap; permit_count := 0 |}
                    (schedules !! run_id context) in
  let grant := Z.max (rb_next schedule) now in
  match instant_add grant (duration_div (from_secs 60) (Z.max cap 1)) with
  | Some next =>
      (<[run_id context := {| rb_next := next; rb_capacity := cap;
                              permit_count := Z.min (permit_count schedule + 1) u64_max |}]>
         schedules, Some (grant - now))
  | None =>
      (<[run_id context := {| rb_next := rb_next schedule; rb_capacity := cap;
                              permit_count := permit_count schedule |}]> schedules, None)
  end.

(** ** The shared schedule *)

Record ScheduleRow := { next_permit_ms : Z; blocked_until_ms : Z }.
Record RefreshRow := { rr_next_permit_ms : Z; rr_blocked_until_ms : Z; rr_permit_count : Z }.

Record SharedLedger := {
  schedule : gmap (string * string) ScheduleRow;      (* rate_limit_schedule *)
  refresh_rows : gmap (string * string) RefreshRow;   (* refresh_rate_schedule *)
}.

Definition bucket_name (kind : RateLimitBucket) : string :=
  match kind with
  | Read => "read" | Action => "action" | Registration => "registration"
  | Verification => "verification" | Feedback => "feedback"
  | StarCatalogue => "star_catalogue" | Sse => "sse"
  end.

(** [unix_millis]: the wall clock in milliseconds, at zero before the epoch. *)
Definition unix_millis (clock_ms : Z) : Z := Z.min (Z.max 0 clock_ms) i64_max.
Definition duration_millis_i64 (d : Z) : Z := Z.min (d / 1000000) i64_max.

Definition spacing_ms (p : RateLimitPolicy) : Z :=
  Z.max (duration_millis_i64 (refill_every p) / Z.max (capacity p) 1) 1.
Definition refresh_spacing_ms (context : RefreshBudgetContext) : Z :=
  Z.max (60000 / clamp_refresh (budget_capacity context)) 1.

(** [SharedRateLimit::acquire]: the transaction; the second component is
    [grant_at_ms], which the caller sleeps until. *)
Definition shared_acquire (scope : string) (kind : RateLimitBucket) (p : RateLimitPolicy)
    (refresh : option RefreshBudgetContext) (clock_ms : Z) (l : SharedLedger) : SharedLedger * Z :=
  let now_ms := unix_millis clock_ms in
  let k := (scope, bucket_name kind) in
  let row := default {| next_permit_ms := 0; blocked_until_ms := 0 |} (schedule l !! k) in
  let rk := λ c : RefreshBudgetContext, (scope, run_id c) in
  let none := {| rr_next_permit_ms := 0; rr_blocked_until_ms := 0; rr_permit_count := 0 |} in
  let refresh_current :=
    match refresh with Some c => default none (refresh_rows l !! rk c) | None => none end in
  let grant_at_ms :=
    Z.max (Z.max (Z.max (Z.max now_ms (next_permit_ms row)) (blocked_until_ms row))
             (rr_next_permit_ms refresh_current)) (rr_blocked_until_ms refresh_current) in
  let following_permit_ms := saturating_add_i64 grant_at_ms (spacing_ms p) in
  ({| schedule := <[k := {| next_permit_ms := following_permit_ms;
                            blocked_until_ms := blocked_until_ms row |}]> (schedule l);
      refresh_rows :=
        match refresh with
        | Some c => <[rk c := {|
            rr_next_permit_ms := saturating_add_i64 grant_at_ms (refresh_spacing_ms c);
            rr_blocked_until_ms := rr_blocked_until_ms refresh_current;
            rr_permit_count := saturating_add_i64 (rr_permit_count refresh_current) 1 |}]>
              (refresh_rows l)
        | None => refresh_rows l
        end |}, grant_at_ms).

Definition empty_ledger : SharedLedger := {| schedule := ∅; refresh_rows := ∅ |}.

(** [SharedRateLimit::block_for] *)
Definition block_for (scope : string) (kind : RateLimitBucket) (delay clock_ms : Z)
    (l : SharedLedger) : SharedLedger :=
  let blocked := saturating_add_i64 (unix_millis clock_ms) (duration_millis_i64 delay) in
  let k := (scope, bucket_name kind) in
  let row := match schedule l !! k with
    | Some row => {| next_permit_ms := Z.max (next_permit_ms row) blocked;
                     blocked_until_ms := Z.max (blocked_until_ms row) blocked |}
    | None => {| next_permit_ms := blocked; blocked_until_ms := blocked |}
    end in
  {| schedule := <[k := row]> (schedule l); refresh_rows := refresh_rows l |}.

Definition shared_clear_refresh (scope run : string) (l : SharedLedger) : SharedLedger :=
  {| schedule := schedule l; refresh_rows := delete (scope, run) (refresh_rows l) |}.
Definition shared_refresh_permit_count (scope run : string) (l : SharedLedger) : Z :=
  match refresh_rows l !! (scope, run) with
  | Some r => if decide (0 ≤ rr_permit_count r) then rr_permit_count r else 0
  | None => 0
  end.

(** What a process does to the shared schedule. *)
Inductive LedgerEvent :=
| EvAcquire (scope : string) (kind : RateLimitBucket) (p : RateLimitPolicy)
    (refresh : option RefreshBudgetContext) (now_ms : Z)
| EvBlock (scope : string) (kind : RateLimitBucket) (delay now_ms : Z)
| EvClear (scope run : string).

Definition ledger_step (e : LedgerEvent) (l : SharedLedger) : SharedLedger :=
  match e with
  | EvAcquire scope kind p refresh now_ms => (shared_acquire scope kind p refresh now_ms l).1
  | EvBlock scope kind delay now_ms => block_for scope kind delay now_ms l
  | EvClear scope run => shared_clear_refresh scope run l
  end.

(** ** The coordinator *)

(** Where a call of [acquire_with_refresh] is: asleep in its refresh budget, waiting
    for its turn, past the turn check, with a permit and about to leave the queue,
    before and after the shared schedule, returned or dropped. *)
Inductive Stage :=
| SRefresh (wake : Z) | SCheck | SPermitted | SPop | SShared | SSleep | SDone.
#[global] Instance Stage_eq : EqDecision Stage.
Proof. solve_decision. Defined.

Record Request := {
  rq_kind : RateLimitBucket;
  rq_priority : RequestPriority;
  rq_refresh : option RefreshBudgetContext;
  rq_stage : Stage;
}.

Record Coordinator := {
  buckets : gmap RateLimitBucket Bucket;
  queues : gmap RateLimitBucket RequestQueue;
  refresh : gmap string RefreshBucket;
  shared : option string;  (* the scope, once sharing is enabled *)
  ledger : SharedLedger;
  requests : gmap N Request;
  clock : Z;
}.

(** [RateLimitCoordinator::new] *)
Definition new_coordinator (now : Z) (l : SharedLedger) : Coordinator := {|
  buckets := list_to_map ((λ kind, (kind, new_bucket now kind)) <$> ALL_BUCKETS);
  queues := ∅; refresh := ∅; shared := None; ledger := l; requests := ∅; clock := now |}.

(** The ticket's [active] flag: set when it is queued, cleared when it is dropped. *)
Definition holds_ticket (s : Stage) : bool :=
  match s with SRefresh _ | SDone => false | _ => true end.
Definition is_active (rs : gmap N Request) (t : N) : bool :=
  match rs !! t with Some r => holds_ticket (rq_stage r) | None => false end.

Definition queue_of (c : Coordinator) (kind : RateLimitBucket) : RequestQueue :=
  default empty_queue (queues c !! kind).

Definition at_stage (s : Stage) (r : Request) : Request :=
  {| rq_kind := rq_kind r; rq_priority := rq_priority r; rq_refresh := rq_refresh r;
     rq_stage := s |}.
Definition set_request (t : N) (r : Request) (c : Coordinator) : Coordinator :=
  {| buckets := buckets c; queues := queues c; refresh := refresh c; shared := shared c;
     ledger := ledger c; requests := <[t := r]> (requests c); clock := clock c |}.
Definition set_queue (kind : RateLimitBucket) (q : RequestQueue) (c : Coordinator) : Coordinator :=
  {| buckets := buckets c; queues := <[kind := q]> (queues c); refresh := refresh c;
     shared := shared c; ledger := ledger c; requests := requests c; clock := clock c |}.
Definition set_bucket (kind : RateLimitBucket) (b : Bucket) (c : Coordinator) : Coordinator :=
  {| buckets := <[kind := b]> (buckets c); queues := queues c; refresh := refresh c;
     shared := shared c; ledger := ledger c; requests := requests c; clock := clock c |}.
Definition set_refresh (m : gmap string RefreshBucket) (c : Coordinator) : Coordinator :=
  {| buckets := buckets c; queues := queues c; refresh := m; shared := shared c;
     ledger := ledger c; requests := requests c; clock := clock c |}.
Definition set_ledger (l : SharedLedger) (c : Coordinator) : Coordinator :=
  {| buckets := buckets c; queues := queues c; refresh := refresh c; shared := shared c;
     ledger := l; requests := requests c; clock := clock c |}.
Definition set_shared (scope : string) (c : Coordinator) : Coordinator :=
  {| buckets := buckets c; queues := queues c; refresh := refresh c; shared := Some scope;
     ledger := ledger c; requests := requests c; clock := clock c |}.
Definition set_clock (now : Z) (c : Coordinator) : Coordinator :=
  {| buckets := buckets c; queues := queues c; refresh := refresh c; shared := shared c;
     ledger := ledger c; requests := requests c; clock := now |}.

(** The monotonic clock is read. *)
Definition read_clock (now : Z) (c : Coordinator) : option Coordinator :=
  if decide (clock c ≤ now) then Some (set_clock now c) else None.

(** A request at a stage. *)
Definition request_at (s : Stage) (t : N) (c : Coordinator) : option Request :=
  r ← requests c !! t; if decide (rq_stage r = s) then Some r else None.

Inductive Label :=
| LBegin (t : N) (kind : RateLimitBucket) (priority : RequestPriority)
    (context : option RefreshBudgetContext) (now : Z)
| LEnqueue (t : N) (now : Z)
| LCheck (t : N)
| LTake (t : N) (now : Z)
| LPop (t : N)
| LShared (t : N) (now_ms : option Z)
| LReturn (t : N)
| LCancel (t : N)
| LObserve (kind : RateLimitBucket) (status : Z) (snapshot : RateLimitSnapshot) (now : Z)
    (now_ms : option Z)
| LSetPolicy (kind : RateLimitBucket) (p : RateLimitPolicy) (now : Z)
| LClearRefresh (run : string) (published : bool)
| LEnableShared
| LSetScope (account : string)
| LPeer (e : LedgerEvent).

(** The call: the refresh budget is charged before a ticket exists. *)
Definition begin_request (t : N) (kind : RateLimitBucket) (priority : RequestPriority)
    (context : option RefreshBudgetContext) (now : Z) (c : Coordinator) : option Coordinator :=
  let r := λ s, {| rq_kind := kind; rq_priority := priority; rq_refresh := context;
                   rq_stage := s |} in
  match requests c !! t with
  | Some _ => None
  | None =>
      c ← read_clock now c;
      match context with
      | None => Some (set_request t (r (SRefresh now)) c)
      | Some context =>
          let '(m, wait) := acquire_refresh_local context now (refresh c) in
          let s := match wait with Some wait => SRefresh (now + wait) | None => SDone end in
          Some (set_request t (r s) (set_refresh m c))
      end
  end.

Definition enqueue_request (t : N) (now : Z) (c : Coordinator) : option Coordinator :=
  c ← read_clock now c;
  r ← requests c !! t;
  match rq_stage r with
  | SRefresh wake =>
      if decide (wake ≤ now) then
        Some (set_request t (at_stage SCheck r)
          (set_queue (rq_kind r) (enqueue (rq_priority r) t (queue_of c (rq_kind r))) c))
      else None
  | _ => None
  end.

Definition check_request (t : N) (c : Coordinator) : option Coordinator :=
  r ← request_at SCheck t c;
  let '(q, permitted) := check_turn (is_active (requests c)) t (queue_of c (rq_kind r)) in
  Some (set_request t (at_stage (if permitted : bool then SPermitted else SCheck) r)
    (set_queue (rq_kind r) q c)).

Definition take_request (t : N) (now : Z) (c : Coordinator) : option Coordinator :=
  r ← request_at SPermitted t c;
  match buckets c !! rq_kind r with
  | None => Some (set_request t (at_stage SDone r) c)
  | Some b =>
      c ← read_clock now c;
      let go := λ s b, Some (set_request t (at_stage s r) (set_bucket (rq_kind r) b c)) in
      match take_permit b now with
      | Granted b => go SPop b
      | WaitFor b _ => go SCheck b
      | PermitPanic b => go SDone b
      end
  end.

Definition pop_request (t : N) (c : Coordinator) : option Coordinator :=
  r ← request_at SPop t c;
  Some (set_request t (at_stage SShared r)
    (set_queue (rq_kind r)
      (pop_next (prune_cancelled (is_active (requests c)) (queue_of c (rq_kind r)))) c)).

(** The shared schedule; [None] for [now_ms] is a failed transaction, after which the
    request goes on. *)
Definition share_request (t : N) (now_ms : option Z) (c : Coordinator) : option Coordinator :=
  r ← request_at SShared t c;
  let p := match buckets c !! rq_kind r with
    | Some b => policy b | None => default_for (rq_kind r) end in
  let c' := match shared c, now_ms with
    | Some scope, Some now_ms =>
        set_ledger (shared_acquire scope (rq_kind r) p (rq_refresh r) now_ms (ledger c)).1 c
    | _, _ => c
    end in
  Some (set_request t (at_stage SSleep r) c').

Definition drop_request (t : N) (c : Coordinator) : option Coordinator :=
  r ← requests c !! t;
  if decide (rq_stage r = SDone) then None else Some (set_request t (at_stage SDone r) c).

Definition observe (kind : RateLimitBucket) (status : Z) (snapshot : RateLimitSnapshot) (now : Z)
    (now_ms : option Z) (c : Coordinator) : option Coordinator :=
  c ← read_clock now c;
  let publish := λ c, match enforced_delay status snapshot, shared c, now_ms with
    | Some delay, Some scope, Some now_ms =>
        set_ledger (block_for scope kind delay now_ms (ledger c)) c
    | _, _, _ => c
    end in
  match buckets c !! kind with
  | None => Some (publish c)
  | Some b =>
      match observe_response status snapshot now b with
      | Some b => Some (publish (set_bucket kind b c))
      | None => Some c
      end
  end.

Definition set_policy (kind : RateLimitBucket) (p : RateLimitPolicy) (now : Z) (c : Coordinator)
  : option Coordinator :=
  c ← read_clock now c;
  Some match buckets c !! kind with
  | Some b => set_bucket kind (bucket_set_policy p now b) c
  | None => c
  end.

(** [published]: whether the shared transaction, whose error is ignored, commits. *)
Definition clear_refresh_schedule (run : string) (published : bool) (c : Coordinator)
  : Coordinator :=
  let c := set_refresh (delete run (refresh c)) c in
  match shared c with
  | Some scope =>
      if published then set_ledger (shared_clear_refresh scope run (ledger c)) c else c
  | None => c
  end.

(** [readable]: whether the shared count can be read. *)
Definition refresh_permit_count (run : string) (readable : bool) (c : Coordinator) : Z :=
  let local := match refresh c !! run with Some s => permit_count s | None => 0 end in
  match shared c with
  | Some scope => if readable then shared_refresh_permit_count scope run (ledger c) else local
  | None => local
  end.

(** [RateLimitCoordinator::snapshot] *)
Definition snapshot (kind : RateLimitBucket) (c : Coordinator) : option RateLimitSnapshot :=
  buckets c !! kind ≫= server.

(** [format!("{hash:016x}")] *)
Definition hex_digit (d : Z) : Ascii.ascii :=
  Ascii.ascii_of_N (Z.to_N (if decide (d < 10) then 48 + d else 87 + d)).
Definition hex16 (z : Z) : string :=
  String.string_of_list_ascii
    ((λ i : nat, hex_digit (Z.land (Z.shiftr z (4 * (15 - Z.of_nat i))) 15)) <$> seq 0 16).

(** [set_shared_scope]: nothing before sharing is enabled. *)
Definition set_shared_scope (account : string) (c : Coordinator) : Coordinator :=
  let bytes := (λ a, Z.of_N (Ascii.N_of_ascii a)) <$> String.list_ascii_of_string account in
  match shared c with
  | Some _ => set_shared ("account:" +:+ hex16 (fnv1a bytes)) c
  | None => c
  end.

Definition step (l : Label) (c : Coordinator) : option Coordinator :=
  match l with
  | LBegin t kind priority context now => begin_request t kind priority context now c
  | LEnqueue t now => enqueue_request t now c
  | LCheck t => check_request t c
  | LTake t now => take_request t now c
  | LPop t => pop_request t c
  | LShared t now_ms => share_request t now_ms c
  | LReturn t => _ ← request_at SSleep t c; drop_request t c
  | LCancel t => drop_request t c
  | LObserve kind status snapshot now now_ms => observe kind status snapshot now now_ms c
  | LSetPolicy kind p now => set_policy kind p now c
  | LClearRefresh run published => Some (clear_refresh_schedule run published c)
  | LEnableShared => Some (set_shared "bootstrap" c)
  | LSetScope account => Some (set_shared_scope account c)
  | LPeer e => Some (set_ledger (ledger_step e (ledger c)) c)
  end.

Fixpoint run_steps (ls : list Label) (c : Coordinator) : option Coordinator :=
  match ls with
  | [] => Some c
  | l :: ls => c ← step l c; run_steps ls c
  end.

(** ** Bucket selection *)

Inductive Method := GET | HEAD | OtherMethod | POST.
#[global] Instance Method_eq : EqDecision Method.
Proof. solve_decision. Defined.

Definition bucket_for (method : Method) (path : string) : RateLimitBucket :=
  if String.prefix "v1/stars" path && bool_decide (method = GET) then StarCatalogue
  else if bool_decide (path = "v1/accounts") && bool_decide (method = POST) then Registration
  else if String.prefix "v1/accounts/verify/" path && bool_decide (method = GET) then Verification
  else if bool_decide (path = "v1/feedback") && bool_decide (method = POST) then Feedback
  else if bool_decide (method = GET) || bool_decide (method = HEAD) then Read
  else Action.

End Clock.
