(* ===== verification/RateLimitFacts.v ===== *)
(** * What the rate limiter guarantees

    The permit budget of a bucket, the effect of server responses, service of queued
    requests, custody of queue tickets under interleaving, and the spacing of grants
    across processes, for the definitions of [RateLimit.v]. *)

From S2P Require Import Prelude RateLimit.

Section BucketFacts.
Context `{IR : InstantRange}.
Implicit Types (b : Bucket) (p : RateLimitPolicy).

(** ** Permits *)

(** The permits a bucket grants when it is asked at the given times. *)
Fixpoint poll_permits b (times : list Z) : list Z :=
  match times with
  | [] => []
  | now :: times =>
      match take_permit b now with
      | Granted b => now :: poll_permits b times
      | WaitFor b _ | PermitPanic b => poll_permits b times
      end
  end.

Definition policy_ok p : Prop := 0 ≤ refill_every p ≤ duration_max.
Definition burst p : Z := Z.max (capacity p) 1.

Lemma spacing_nonneg p : policy_ok p → 0 ≤ spacing p.
Proof. intros [? _]. apply Z.div_pos; lia. Qed.

Lemma spacing_burst p : policy_ok p → burst p * spacing p ≤ refill_every p.
Proof. intros _. unfold burst, spacing, duration_div. apply Z.mul_div_le. lia. Qed.

Lemma saved_credit p :
  policy_ok p →
  duration_saturating_mul (duration_div (refill_every p) (burst p)) (burst p - 1)
  = (burst p - 1) * spacing p.
Proof.
  intros H. pose proof (spacing_nonneg p H). pose proof (spacing_burst p H).
  unfold duration_saturating_mul. fold (spacing p).
  change (duration_div (refill_every p) (burst p)) with (spacing p).
  destruct H. nia.
Qed.

Lemma credit_floor_ge now p :
  policy_ok p → now - (burst p - 1) * spacing p ≤ credit_floor now p ≤ now.
Proof.
  intros H. pose proof (spacing_nonneg p H).
  assert (0 ≤ (burst p - 1) * spacing p) by (unfold burst; nia).
  unfold credit_floor. fold (burst p). rewrite saved_credit by done.
  unfold instant_checked_sub. case_decide; simpl; lia.
Qed.

Lemma credit_floor_full now p :
  policy_ok p → instant_min ≤ now - (burst p - 1) * spacing p →
  credit_floor now p = now - (burst p - 1) * spacing p.
Proof.
  intros H Hmin. unfold credit_floor. fold (burst p). rewrite saved_credit by done.
  unfold instant_checked_sub. by rewrite decide_True by done.
Qed.

Lemma take_permit_Granted b now b' :
  take_permit b now = Granted b' →
  policy b' = policy b ∧ Z.max (next_at b) (credit_floor now (policy b)) ≤ now ∧
  next_at b' = Z.max (next_at b) (credit_floor now (policy b)) + spacing (policy b).
Proof.
  unfold take_permit, instant_add; simpl. case_decide; [|done]. case_decide; [|done].
  by intros [= <-].
Qed.

Lemma take_permit_kept b now b' w :
  take_permit b now = WaitFor b' w ∨ take_permit b now = PermitPanic b' →
  policy b' = policy b ∧ next_at b ≤ next_at b'.
Proof.
  unfold take_permit, instant_add; simpl. repeat case_decide; intros [[=]|[=]]; subst;
    simpl; (split; [done|lia]).
Qed.

Lemma take_permit_due b now :
  next_at b = now → credit_floor now (policy b) ≤ now → now + spacing (policy b) ≤ instant_max →
  take_permit b now = Granted (with_next (now + spacing (policy b)) b).
Proof.
  intros Hn Hf Hm. unfold take_permit, instant_add; simpl.
  rewrite decide_True by lia. replace (Z.max _ _) with now by lia. by rewrite decide_True by lia.
Qed.

(** The [j]-th permit comes at least [j] spacings after the bucket is due. *)
Lemma poll_permits_ge b times j t :
  policy_ok (policy b) → poll_permits b times !! j = Some t →
  next_at b + Z.of_nat j * spacing (policy b) ≤ t.
Proof.
  intros Hp. pose proof (spacing_nonneg _ Hp) as Hs. revert b j Hp Hs.
  induction times as [|now times IH]; intros b j Hp Hs; [done|]. simpl.
  destruct (take_permit b now) as [b'|b' w|b'] eqn:E.
  - apply take_permit_Granted in E as (Ep&Hle&En). destruct j as [|j]; simpl.
    + intros [= <-]. lia.
    + intros Ht. apply IH in Ht; rewrite ?Ep in *; [lia|done..].
  - destruct (take_permit_kept b now b' w) as [Ep ?]; [by left|]. intros Ht.
    apply IH in Ht; rewrite ?Ep in *; [lia|done..].
  - destruct (take_permit_kept b now b' 0) as [Ep ?]; [by right|]. intros Ht.
    apply IH in Ht; rewrite ?Ep in *; [lia|done..].
Qed.

Lemma poll_permits_gap b times i j t1 t2 :
  policy_ok (policy b) → (i ≤ j)%nat →
  poll_permits b times !! i = Some t1 → poll_permits b times !! j = Some t2 →
  (Z.of_nat (j - i) + 1 - burst (policy b)) * spacing (policy b) ≤ t2 - t1.
Proof.
  intros Hp. pose proof (spacing_nonneg _ Hp) as Hs. revert b i j Hp Hs.
  induction times as [|now times IH]; intros b i j Hp Hs Hij; [done|]. simpl.
  assert (Hskip : ∀ b', policy b' = policy b → poll_permits b' times !! i = Some t1 →
    poll_permits b' times !! j = Some t2 →
    (Z.of_nat (j - i) + 1 - burst (policy b)) * spacing (policy b) ≤ t2 - t1).
  { intros b' Ep H1 H2. rewrite <-Ep. apply (IH b'); rewrite ?Ep; done. }
  destruct (take_permit b now) as [b'|b' w|b'] eqn:E.
  - apply take_permit_Granted in E as (Ep&Hle&En).
    pose proof (credit_floor_ge now (policy b) Hp) as Hf.
    destruct i as [|i], j as [|j]; simpl; try lia.
    + intros [= <-] [= <-]. unfold burst. nia.
    + intros [= <-] Ht. apply poll_permits_ge in Ht; rewrite ?Ep in *; [|done].
      replace (Z.of_nat (S j)) with (Z.of_nat j + 1) by lia. nia.
    + intros H1 H2. rewrite <-Ep. apply (IH b' i j); rewrite ?Ep; auto with lia.
  - apply Hskip. eapply take_permit_kept; by left.
  - eapply Hskip, (take_permit_kept b now b' 0); by right.
Qed.

(** A bucket with [m] permits saved grants them at once. *)
Lemma poll_permits_saved n b m now rest :
  policy_ok (policy b) → -1 ≤ m ≤ burst (policy b) - 1 → Z.of_nat n ≤ m + 1 →
  instant_min ≤ now - (burst (policy b) - 1) * spacing (policy b) →
  next_at b = now - m * spacing (policy b) →
  now + spacing (policy b) ≤ instant_max →
  poll_permits b (replicate n now ++ rest) =
    replicate n now ++
    poll_permits (with_next (now - (m - Z.of_nat n) * spacing (policy b)) b) rest.
Proof.
  intros Hp. pose proof (spacing_nonneg _ Hp) as Hs. revert b m Hp Hs.
  induction n as [|n IH]; intros b m Hp Hs Hm Hn Hmin Hnext Hmax.
  { simpl. rewrite Z.sub_0_r, <-Hnext. by destruct b. }
  simpl. unfold take_permit, instant_add; simpl. rewrite credit_floor_full by done.
  rewrite decide_True by nia.
  replace (Z.max _ _) with (next_at b) by nia.
  rewrite decide_True by nia. f_equal.
  etrans; [apply (IH _ (m - 1)); simpl; try done; try lia; nia|].
  simpl. do 2 f_equal. unfold with_next; simpl. f_equal. lia.
Qed.

(** Asked at every spacing, a bucket without saved permits grants each time. *)
Lemma poll_permits_steady n b now :
  policy_ok (policy b) → next_at b = now →
  now + Z.of_nat n * spacing (policy b) ≤ instant_max →
  let times := (λ k : nat, now + Z.of_nat k * spacing (policy b)) <$> seq 0 n in
  poll_permits b times = times.
Proof.
  intros Hp. pose proof (spacing_nonneg _ Hp) as Hs. revert b now Hp Hs.
  induction n as [|n IH]; intros b now Hp Hs Hn Hm times; [done|]. subst times. simpl.
  rewrite Z.add_0_r, take_permit_due; [|done|apply credit_floor_ge; done|nia]. f_equal.
  rewrite <-fmap_S_seq, <-list_fmap_compose.
  rewrite (list_fmap_ext _ (λ k : nat, (now + spacing (policy b)) + Z.of_nat k * spacing (policy b))).
  - apply (IH (with_next (now + spacing (policy b)) b)); simpl; [done..|lia].
  - intros ? k _. simpl. lia.
Qed.

(** C15: the budget of a bucket, whoever asks and whenever. Any two permits with
    [n] permits from one to the other, both included, are at least [n - capacity]
    spacings apart, and this is tight: a bucket that starts with its full credit
    grants twice its capacity within one refill window. *)
Theorem permit_budget b :
  policy_ok (policy b) →
  (∀ times i j t1 t2, (i ≤ j)%nat →
    poll_permits b times !! i = Some t1 → poll_permits b times !! j = Some t2 →
    (Z.of_nat (j - i) + 1 - burst (policy b)) * spacing (policy b) ≤ t2 - t1) ∧
  (∀ now, next_at b = credit_floor now (policy b) →
    instant_min ≤ now - refill_every (policy b) →
    now + refill_every (policy b) + spacing (policy b) ≤ instant_max →
    ∃ times, Z.of_nat (length (poll_permits b times)) = 2 * burst (policy b) ∧
      ∀ t, t ∈ poll_permits b times → now ≤ t ≤ now + refill_every (policy b)).
Proof.
  intros Hp. pose proof (spacing_nonneg _ Hp) as Hs. pose proof (spacing_burst _ Hp) as Hb.
  assert (1 ≤ burst (policy b)) as Hb1 by (unfold burst; lia).
  split; [intros; by eapply poll_permits_gap|]. intros now Hnext Hmin Hmax.
  set (s := spacing (policy b)) in *. set (c := burst (policy b)) in *.
  set (n := Z.to_nat c).
  set (later := (λ k : nat, (now + s) + Z.of_nat k * s) <$> seq 0 n).
  assert (Hrun : poll_permits b (replicate n now ++ later) = replicate n now ++ later).
  { rewrite (poll_permits_saved n b (c - 1) now later); fold c s; try done; try lia; try nia.
    - f_equal. replace (now - (c - 1 - Z.of_nat n) * s) with (now + s) by lia.
      apply (poll_permits_steady n (with_next (now + s) b)); simpl; fold s; [done..|nia].
    - rewrite Hnext, credit_floor_full; [done..|]. fold c s. nia. }
  exists (replicate n now ++ later). rewrite Hrun. split.
  - unfold later. rewrite length_app, length_replicate, length_fmap, length_seq. lia.
  - intros t [->%elem_of_replicate_inv|Ht]%elem_of_app; [destruct Hp; lia|].
    apply list_elem_of_fmap in Ht as (k&->&Hk%elem_of_seq). nia.
Qed.

(** a response is enforced exactly when the server refused the request or reports
    an exhausted window, and names a delay: the bucket then grants nothing before the
    delay is over and is not held longer; otherwise the schedule is untouched. The one
    response that cannot be recorded is an enforced delay beyond the clock's range,
    on which the call panics. *)
Theorem observe_response_decided status snapshot now b :
  policy_ok (policy b) →
  match observe_response status snapshot now b with
  | Some b' =>
      server b' = Some snapshot ∧ policy b' = policy b ∧
      match snapshot_delay snapshot with
      | Some d =>
          if decide (status = TOO_MANY_REQUESTS ∨ remaining snapshot = Some 0) then
            next_at b' = now + d ∧
            (∀ now', now' < now + d →
               take_permit b' now' = WaitFor b' (now + d - now')) ∧
            (∀ b'' w, take_permit b' (now + d) ≠ WaitFor b'' w)
          else next_at b' = next_at b
      | None => next_at b' = next_at b
      end
  | None => ∃ d, snapshot_delay snapshot = Some d ∧ instant_max < now + d ∧
      (status = TOO_MANY_REQUESTS ∨ remaining snapshot = Some 0)
  end.
Proof.
  intros Hp.
  assert (Hdue : ∀ b' d, policy b' = policy b → next_at b' = now + d →
    (∀ now', now' < now + d → take_permit b' now' = WaitFor b' (now + d - now')) ∧
    (∀ b'' w, take_permit b' (now + d) ≠ WaitFor b'' w)).
  { intros b' d Ep En. split.
    - intros now' Hlt. pose proof (credit_floor_ge now' (policy b) Hp) as [_ Hf].
      unfold take_permit; simpl. rewrite Ep, En. replace (Z.max _ _) with (now + d) by lia.
      rewrite decide_False by lia. f_equal. destruct b'; simpl in *. by rewrite <-En.
    - intros b'' w. pose proof (credit_floor_ge (now + d) (policy b) Hp) as [_ Hf].
      unfold take_permit; simpl. rewrite Ep, En. rewrite decide_True by lia.
      by destruct (instant_add _ _). }
  unfold observe_response, enforced_delay.
  destruct (bool_decide (status = TOO_MANY_REQUESTS) || bool_decide (remaining snapshot = Some 0))
    eqn:E; revert E; rewrite ?orb_true_iff, ?orb_false_iff, ?bool_decide_eq_true,
    ?bool_decide_eq_false; intros E.
  - destruct (snapshot_delay snapshot) as [d|]; [|done].
    unfold instant_add. destruct (decide (now + d ≤ instant_max)); simpl.
    + split_and!; [done..|]. rewrite decide_True by done. auto.
    + exists d. split_and!; [done|lia|done].
  - simpl. split_and!; [done..|]. destruct (snapshot_delay snapshot); [|done].
    rewrite decide_False by tauto. done.
Qed.

End BucketFacts.

(** ** Service of the queue *)

Section QueueFacts.
Implicit Types (q : RequestQueue) (t : N).

(** What happens to one queue: a request joins, a ticket is dropped, a permit is
    handed to the request whose turn it is. *)
Inductive QueueEvent :=
| QJoin (priority : RequestPriority) (t : N)
| QDrop (t : N)
| QGrant.

Fixpoint served (es : list QueueEvent) (dropped : gset N) q : list N :=
  match es with
  | [] => []
  | QJoin priority t :: es => served es dropped (enqueue priority t q)
  | QDrop t :: es => served es ({[t]} ∪ dropped) q
  | QGrant :: es =>
      let q := prune_cancelled (λ t, bool_decide (t ∉ dropped)) q in
      option_list (next q) ++ served es dropped (pop_next q)
  end.

Fixpoint grants (es : list QueueEvent) : Z :=
  match es with
  | [] => 0
  | QGrant :: es => 1 + grants es
  | _ :: es => grants es
  end.

Lemma reset_nonempty q : both_empty q = false → reset_if_empty q = q.
Proof. unfold reset_if_empty. by intros ->. Qed.

Lemma both_empty_lane q t : t ∈ foreground q ++ background q → both_empty q = false.
Proof.
  unfold both_empty. destruct (foreground q); [|done]. destruct (background q); [|done].
  by intros ?%not_elem_of_nil.
Qed.

Lemma prune_keeps q t (active : N → bool) :
  active t = true → t ∈ foreground q ++ background q →
  let live := base.filter (λ t, active t = true) in
  prune_cancelled active q = {| foreground := live (foreground q);
    background := live (background q); foreground_streak := foreground_streak q |}.
Proof.
  intros Ha Ht live. subst live. apply reset_nonempty, (both_empty_lane _ t). simpl.
  rewrite <-filter_app, list_elem_of_filter. done.
Qed.

Lemma filter_split (active : N → bool) l1 t l2 :
  active t = true →
  ∃ l1', (length l1' ≤ length l1)%nat ∧
    base.filter (λ t, active t = true) (l1 ++ t :: l2)
    = l1' ++ t :: base.filter (λ t, active t = true) l2.
Proof.
  intros Ha. eexists. split; [apply (length_filter (λ t, active t = true) l1)|].
  by rewrite filter_app, list.filter_cons_True.
Qed.

(** How many grants a ticket behind [n] others still waits for, at most. *)
Definition foreground_wait (n : nat) q : Z :=
  2 * Z.of_nat n + (if decide (8 ≤ foreground_streak q) then 1 else 0).
Definition background_wait (n : nat) q : Z :=
  9 * Z.of_nat n + Z.max 0 (8 - foreground_streak q).

Lemma enqueue_lanes priority t q :
  ∃ l1 l2, foreground (enqueue priority t q) = foreground q ++ l1 ∧
    background (enqueue priority t q) = background q ++ l2 ∧
    foreground_streak (enqueue priority t q) = foreground_streak q.
Proof. destruct priority; simpl; [exists [t], []|exists [], [t]]; by rewrite ?app_nil_r. Qed.

(** One grant serves the ticket or brings it closer. *)
Lemma foreground_grant q t l1 l2 :
  foreground q = l1 ++ t :: l2 →
  next q = Some t ∨
  ∃ l1', foreground (pop_next q) = l1' ++ t :: l2 ∧
    foreground_wait (length l1') (pop_next q) < foreground_wait (length l1) q.
Proof.
  intros E. unfold next, pop_next, foreground_turn, foreground_wait. rewrite E.
  assert (Hnil : is_nil (l1 ++ t :: l2) = false) by by destruct l1. rewrite Hnil; simpl.
  destruct (is_nil (background q) || bool_decide (foreground_streak q < 8)) eqn:T.
  - destruct l1 as [|a l1]; [by left|]. right. exists l1. simpl.
    rewrite reset_nonempty by (apply (both_empty_lane _ t); set_solver). simpl.
    split; [done|]. repeat case_decide; lia.
  - apply orb_false_iff in T as [B T%bool_decide_eq_false]. right. exists l1.
    rewrite reset_nonempty by (apply (both_empty_lane _ t); simpl; set_solver). simpl.
    split; [done|]. repeat case_decide; lia.
Qed.

Lemma background_grant q t l1 l2 :
  background q = l1 ++ t :: l2 → 0 ≤ foreground_streak q →
  next q = Some t ∨
  ∃ l1', background (pop_next q) = l1' ++ t :: l2 ∧ 0 ≤ foreground_streak (pop_next q) ∧
    background_wait (length l1') (pop_next q) < background_wait (length l1) q.
Proof.
  intros E Hs. unfold next, pop_next, foreground_turn, background_wait. rewrite E.
  assert (Hnil : is_nil (l1 ++ t :: l2) = false) by by destruct l1. rewrite Hnil; simpl.
  destruct (negb (is_nil (foreground q)) && bool_decide (foreground_streak q < 8)) eqn:T.
  - apply andb_true_iff in T as [_ T%bool_decide_eq_true]. right. exists l1.
    rewrite reset_nonempty by (apply (both_empty_lane _ t); simpl; set_solver). simpl.
    split_and!; [done|lia..].
  - destruct l1 as [|a l1]; [by left|]. right. exists l1. simpl.
    rewrite reset_nonempty by (apply (both_empty_lane _ t); simpl; set_solver). simpl.
    split_and!; [done|lia..].
Qed.

Lemma foreground_served es dropped q t l1 l2 :
  foreground q = l1 ++ t :: l2 → t ∉ dropped → QDrop t ∉ es →
  foreground_wait (length l1) q < grants es → t ∈ served es dropped q.
Proof.
  revert dropped q l1 l2. induction es as [|e es IH]; intros dropped q l1 l2 E Hd Hes Hg.
  { unfold foreground_wait in Hg; simpl in Hg. case_decide; lia. }
  rewrite not_elem_of_cons in Hes. destruct Hes as [He Hes]. destruct e as [pr a|a|]; simpl in *.
  - destruct (enqueue_lanes pr a q) as (k1&k2&E1&_&E3). eapply (IH _ _ l1 (l2 ++ k1)); try done.
    + by rewrite E1, E, <-app_assoc.
    + unfold foreground_wait in *. by rewrite E3.
  - apply (IH _ q l1 l2); try done. assert (t ≠ a) by congruence. set_solver.
  - set (active := λ t, bool_decide (t ∉ dropped)).
    assert (Ha : active t = true) by by apply bool_decide_eq_true.
    destruct (filter_split active l1 t l2 Ha) as (l1'&Hlen&Ef).
    rewrite (prune_keeps q t active Ha) by (rewrite E; set_solver).
    rewrite E, Ef. set (q' := {| foreground := _ |}).
    destruct (foreground_grant q' t l1' _ eq_refl) as [->|(l1''&E''&Hw)]; [set_solver|].
    apply elem_of_app; right. eapply (IH _ _ l1''); [done..|].
    assert (foreground_wait (length l1') q' ≤ foreground_wait (length l1) q); [|lia].
    unfold foreground_wait. simpl. lia.
Qed.

Lemma background_served es dropped q t l1 l2 :
  background q = l1 ++ t :: l2 → 0 ≤ foreground_streak q → t ∉ dropped → QDrop t ∉ es →
  background_wait (length l1) q < grants es → t ∈ served es dropped q.
Proof.
  revert dropped q l1 l2. induction es as [|e es IH]; intros dropped q l1 l2 E Hs Hd Hes Hg.
  { unfold background_wait in Hg; simpl in Hg. lia. }
  rewrite not_elem_of_cons in Hes. destruct Hes as [He Hes]. destruct e as [pr a|a|]; simpl in *.
  - destruct (enqueue_lanes pr a q) as (k1&k2&_&E2&E3). eapply (IH _ _ l1 (l2 ++ k2)); try done.
    + by rewrite E2, E, <-app_assoc.
    + lia.
    + unfold background_wait in *. by rewrite E3.
  - apply (IH _ q l1 l2); try done. assert (t ≠ a) by congruence. set_solver.
  - set (active := λ t, bool_decide (t ∉ dropped)).
    assert (Ha : active t = true) by by apply bool_decide_eq_true.
    destruct (filter_split active l1 t l2 Ha) as (l1'&Hlen&Ef).
    rewrite (prune_keeps q t active Ha) by (rewrite E; set_solver).
    rewrite E, Ef. set (q' := {| foreground := _ |}).
    destruct (background_grant q' t l1' _ eq_refl Hs) as [->|(l1''&E''&Hs''&Hw)]; [set_solver|].
    apply elem_of_app; right. eapply (IH _ _ l1''); [done..|].
    assert (background_wait (length l1') q' ≤ background_wait (length l1) q); [|lia].
    unfold background_wait. simpl. lia.
Qed.


End QueueFacts.

(** ** Tickets under interleaving *)

Section Tickets.
Context `{IR : InstantRange}.
Implicit Types (c : Coordinator) (q : RequestQueue) (t : N) (r : Request) (k : RateLimitBucket).

Definition queued t q : Prop := t ∈ foreground q ∨ t ∈ background q.

Lemma queued_reset t q : queued t (reset_if_empty q) ↔ queued t q.
Proof. unfold reset_if_empty. by destruct (both_empty q). Qed.

Lemma queued_prune active t q : queued t (prune_cancelled active q) → queued t q.
Proof.
  unfold prune_cancelled. rewrite queued_reset. unfold queued; simpl.
  rewrite !list_elem_of_filter. tauto.
Qed.

Lemma elem_of_tail {A} (x : A) l : x ∈ tail l → x ∈ l.
Proof. destruct l; [done|]. by right. Qed.

Lemma queued_pop t q : queued t (pop_next q) → queued t q.
Proof.
  unfold pop_next. rewrite queued_reset. unfold queued.
  destruct (foreground_turn q); simpl; intros [?|?]; eauto using elem_of_tail.
Qed.

Lemma queued_enqueue priority a t q : queued t (enqueue priority a q) → t = a ∨ queued t q.
Proof. unfold queued. destruct priority; simpl; set_solver. Qed.

(** Opening a step: what a request was and what it has become. *)
Lemma request_at_Some s t c r :
  request_at s t c = Some r ↔ requests c !! t = Some r ∧ rq_stage r = s.
Proof.
  unfold request_at. destruct (requests c !! t) as [r'|]; simpl; [|naive_solver].
  case_decide; naive_solver.
Qed.

Lemma read_clock_Some now c c' : read_clock now c = Some c' → c' = set_clock now c.
Proof. unfold read_clock. case_decide; naive_solver. Qed.

(** What one step does to the requests and the queues: nothing, or it moves one
    request to a next stage, with one change of the queue of its kind. *)
Inductive moves (l : Label) c c' : Prop :=
| moves_none :
    requests c' = requests c → queues c' = queues c → moves l c c'
| moves_begin t r :
    requests c !! t = None → requests c' = <[t := r]> (requests c) →
    holds_ticket (rq_stage r) = false → queues c' = queues c → moves l c c'
| moves_enqueue t r wake :
    requests c !! t = Some r → rq_stage r = SRefresh wake →
    requests c' = <[t := at_stage SCheck r]> (requests c) →
    queues c' = <[rq_kind r := enqueue (rq_priority r) t (queue_of c (rq_kind r))]> (queues c) →
    moves l c c'
| moves_check t r :
    requests c !! t = Some r → rq_stage r = SCheck →
    let q := prune_cancelled (is_active (requests c)) (queue_of c (rq_kind r)) in
    requests c' = <[t := at_stage (if decide (next q = Some t) then SPermitted else SCheck) r]>
      (requests c) →
    queues c' = <[rq_kind r := q]> (queues c) → moves l c c'
| moves_take t r s :
    requests c !! t = Some r → rq_stage r = SPermitted → (s = SPop ∨ s = SCheck ∨ s = SDone) →
    requests c' = <[t := at_stage s r]> (requests c) → queues c' = queues c → moves l c c'
| moves_pop t r :
    requests c !! t = Some r → rq_stage r = SPop →
    requests c' = <[t := at_stage SShared r]> (requests c) →
    queues c' = <[rq_kind r := pop_next (prune_cancelled (is_active (requests c))
      (queue_of c (rq_kind r)))]> (queues c) → moves l c c'
| moves_share t r :
    requests c !! t = Some r → rq_stage r = SShared →
    requests c' = <[t := at_stage SSleep r]> (requests c) → queues c' = queues c → moves l c c'
| moves_drop t r :
    requests c !! t = Some r → (l = LCancel t ∧ rq_stage r ≠ SDone ∨ rq_stage r = SSleep) →
    requests c' = <[t := at_stage SDone r]> (requests c) → queues c' = queues c → moves l c c'.

Ltac step_inv := repeat match goal with
  | H : (_ ← ?m; _) = Some _ |- _ =>
      let E := fresh "E" in destruct m eqn:E; [|discriminate H]; simpl in H
  | H : read_clock _ _ = Some _ |- _ => apply read_clock_Some in H
  | H : request_at _ _ _ = Some _ |- _ => apply request_at_Some in H as [? ?]
  | H : Some _ = Some _ |- _ => injection H as H
  | H : None = Some _ |- _ => discriminate H
  | H : match ?m with _ => _ end = Some _ |- _ => destruct m eqn:?
  | H : (if ?m then _ else _) = Some _ |- _ => destruct m eqn:?
  end; simplify_eq/=.

Lemma step_moves l c c' : step l c = Some c' → moves l c c'.
Proof.
  destruct l as [t k pr ctx now|t now|t|t now|t|t now_ms|t|t|k st sn now now_ms|k p now|run pub| |a|e];
    simpl; intros H.
  - unfold begin_request in H. destruct (requests c !! t) eqn:Et; [done|]. step_inv.
    all: eapply (moves_begin _ _ _ t); simpl; try done; by case_match.
  - unfold enqueue_request in H. step_inv. by eapply (moves_enqueue _ _ _ t).
  - unfold check_request, check_turn in H. step_inv. eapply (moves_check _ _ _ t); simpl; try done.
    by case_bool_decide; case_decide.
  - unfold take_request in H. step_inv; eapply (moves_take _ _ _ t); simpl; try done; tauto.
  - unfold pop_request in H. step_inv. by eapply (moves_pop _ _ _ t).
  - unfold share_request in H. step_inv. eapply (moves_share _ _ _ t); simpl; try done;
      repeat case_match; done.
  - unfold drop_request in H. step_inv. eapply (moves_drop _ _ _ t); eauto.
  - unfold drop_request in H. step_inv. eapply (moves_drop _ _ _ t); eauto.
  - unfold observe in H. step_inv; apply moves_none; simpl; repeat case_match; done.
  - unfold set_policy in H. step_inv. apply moves_none; case_match; done.
  - step_inv. apply moves_none; unfold clear_refresh_schedule; simpl; repeat case_match; done.
  - step_inv. by apply moves_none.
  - step_inv. apply moves_none; unfold set_shared_scope; case_match; done.
  - step_inv. by apply moves_none.
Qed.

(** *** A ticket that has left the queue unseen *)

Definition lost t c : Prop :=
  ∃ r, requests c !! t = Some r ∧ rq_stage r = SCheck ∧ ¬ queued t (queue_of c (rq_kind r)).

Lemma queue_of_insert c c' k q k' :
  queues c' = <[k := q]> (queues c) →
  queue_of c' k' = if decide (k = k') then q else queue_of c k'.
Proof. unfold queue_of. intros ->. case_decide; subst; by simplify_map_eq. Qed.

Lemma queue_of_same c c' k : queues c' = queues c → queue_of c' k = queue_of c k.
Proof. unfold queue_of. by intros ->. Qed.

Lemma next_queued q t : next q = Some t → queued t q.
Proof.
  unfold next, queued. destruct (foreground_turn q); intros H%head_Some_elem_of; tauto.
Qed.

(** A change of another request that puts nothing new for [t] in a queue. *)
Lemma lost_frame t c c' a r' :
  lost t c → a ≠ t → requests c' = <[a := r']> (requests c) →
  (∀ k, queued t (queue_of c' k) → queued t (queue_of c k)) → lost t c'.
Proof.
  intros (r&Hr&Hs&Hq) Hat E Hk. exists r. rewrite E, lookup_insert_ne by done.
  split_and!; [done..|]. by intros ?%Hk.
Qed.

(** Only dropping its own request ends the wait of a lost ticket. *)
Lemma lost_step l t c c' : lost t c → l ≠ LCancel t → step l c = Some c' → lost t c'.
Proof.
  intros Hlost Hl Hm%step_moves. pose proof Hlost as (r&Hr&Hs&Hq).
  assert (Hsame : queues c' = queues c →
    ∀ k, queued t (queue_of c' k) → queued t (queue_of c k)).
  { intros E k. by rewrite (queue_of_same _ _ _ E). }
  destruct Hm as [Er Eq|a r' Ha Er _ Eq|a r' wake Ha Hst Er Eq|a r' Ha Hst q Er Eq
    |a r' s Ha Hst _ Er Eq|a r' Ha Hst Er Eq|a r' Ha Hst Er Eq|a r' Ha Hst Er Eq].
  - exists r. rewrite Er. split_and!; [done..|]. by intros ?%(Hsame Eq).
  - eapply lost_frame; eauto; congruence.
  - eapply lost_frame; eauto; [congruence|]. intros k. rewrite (queue_of_insert _ _ _ _ _ Eq).
    case_decide; [|done]. subst. intros [->|?]%queued_enqueue; [congruence|done].
  - destruct (decide (a = t)) as [->|Hat].
    + simplify_eq. assert (Hq' : ¬ queued t q) by (intros ?%queued_prune; done).
      assert (next q ≠ Some t) by (intros ?%next_queued; done).
      exists (at_stage SCheck r'). rewrite Er, lookup_insert_eq, decide_False by done.
      split_and!; [done..|]. simpl. rewrite (queue_of_insert _ _ _ _ _ Eq).
      by rewrite decide_True.
    + eapply (lost_frame t c); [done..|]. intros k. rewrite (queue_of_insert _ _ _ _ _ Eq).
      clear Er. case_decide; [|done]. subst. apply queued_prune.
  - eapply lost_frame; eauto; congruence.
  - eapply lost_frame; eauto; [congruence|]. intros k. rewrite (queue_of_insert _ _ _ _ _ Eq).
    case_decide; [|done]. subst. by intros ?%queued_pop%queued_prune.
  - eapply lost_frame; eauto; congruence.
  - eapply lost_frame; eauto. intros ->. simplify_eq. destruct Hst as [[? _]|?]; congruence.
Qed.

Lemma lost_forever ls t c c' :
  lost t c → LCancel t ∉ ls → run_steps ls c = Some c' → lost t c'.
Proof.
  revert c. induction ls as [|l ls IH]; simpl; intros c Hlost Hls H; [by simplify_eq|].
  apply not_elem_of_cons in Hls as [Hl Hls].
  destruct (step l c) as [c1|] eqn:E; [|done]. eapply IH, H; [|done].
  by eapply lost_step.
Qed.

(** *** Requests of one class *)

Section OneClass.
Variables (k : RateLimitBucket) (pr : RequestPriority).

Definition lane q : list N := match pr with Foreground => foreground q | Background => background q end.
Definition other_lane q : list N :=
  match pr with Foreground => background q | Background => foreground q end.

Definition waiting (s : Stage) : bool :=
  match s with SCheck | SPermitted | SPop => true | _ => false end.
Definition admitted_stage (s : Stage) : bool :=
  match s with SPermitted | SPop => true | _ => false end.

(** Every request of the kind is of the class. *)
Definition uniform (rs : gmap N Request) : Prop :=
  ∀ t r, rs !! t = Some r → rq_kind r = k → rq_priority r = pr.

Definition live_lane (rs : gmap N Request) q : list N :=
  base.filter (λ t, is_active rs t = true) (lane q).

Record lane_ok (rs : gmap N Request) q : Prop := {
  lane_other : other_lane q = [];
  lane_nodup : NoDup (lane q);
  lane_waiting t r : rs !! t = Some r → rq_kind r = k → waiting (rq_stage r) = true → t ∈ lane q;
  lane_known t : t ∈ lane q → ∃ r, rs !! t = Some r ∧ rq_kind r = k ∧
    (waiting (rq_stage r) = true ∨ rq_stage r = SDone);
  lane_head t r : rs !! t = Some r → rq_kind r = k → admitted_stage (rq_stage r) = true →
    head (live_lane rs q) = Some t;
}.

Lemma lane_reset q : lane (reset_if_empty q) = lane q ∧ other_lane (reset_if_empty q) = other_lane q.
Proof. unfold reset_if_empty. by destruct (both_empty q). Qed.

Lemma lane_prune rs q :
  lane (prune_cancelled (is_active rs) q) = live_lane rs q ∧
  (other_lane q = [] → other_lane (prune_cancelled (is_active rs) q) = []).
Proof.
  unfold prune_cancelled, live_lane. destruct (lane_reset {|
    foreground := base.filter (λ t, is_active rs t = true) (foreground q);
    background := base.filter (λ t, is_active rs t = true) (background q);
    foreground_streak := foreground_streak q |}) as [-> ->].
  unfold lane, other_lane. destruct pr; simpl; (split; [done|]); by intros ->.
Qed.

Lemma next_lane q : other_lane q = [] → next q = head (lane q).
Proof.
  unfold next, foreground_turn, lane, other_lane. destruct pr; intros ->; simpl; [|done].
  by destruct (foreground q).
Qed.

Lemma pop_lane q :
  other_lane q = [] → lane (pop_next q) = tail (lane q) ∧ other_lane (pop_next q) = [].
Proof.
  unfold pop_next, foreground_turn, lane, other_lane, reset_if_empty.
  destruct pr; intros H; rewrite H; simpl.
  - destruct (foreground q) as [|? [|? ?]]; simpl; rewrite ?H; done.
  - destruct (background q) as [|? [|? ?]]; simpl; rewrite ?H; done.
Qed.

Lemma enqueue_lane t q :
  lane (enqueue pr t q) = lane q ++ [t] ∧ other_lane (enqueue pr t q) = other_lane q.
Proof. unfold lane, other_lane. by destruct pr. Qed.

Lemma is_active_insert rs t r a :
  is_active (<[t := r]> rs) a = if decide (t = a) then holds_ticket (rq_stage r) else is_active rs a.
Proof. unfold is_active. case_decide; subst; by simplify_map_eq. Qed.

Lemma is_active_Some rs t r : rs !! t = Some r → is_active rs t = holds_ticket (rq_stage r).
Proof. unfold is_active. by intros ->. Qed.

Lemma waiting_ticket s : waiting s = true → holds_ticket s = true.
Proof. by destruct s. Qed.
Lemma admitted_waiting s : admitted_stage s = true → waiting s = true.
Proof. by destruct s. Qed.

Lemma live_lane_ext rs rs' q :
  (∀ a, a ∈ lane q → is_active rs' a = is_active rs a) → live_lane rs' q = live_lane rs q.
Proof.
  unfold live_lane. induction (lane q) as [|a l IH]; intros H; [done|].
  rewrite !filter_cons, H, IH by set_solver. done.
Qed.

Lemma head_filter_sub (P P' : N → Prop) `{!∀ x, Decision (P x), !∀ x, Decision (P' x)} l a :
  (∀ x, P' x → P x) → P' a → head (base.filter P l) = Some a → head (base.filter P' l) = Some a.
Proof.
  intros Hsub Ha. induction l as [|x l IH]; [done|]. rewrite !filter_cons.
  destruct (decide (P x)); simpl.
  - intros [= ->]. by rewrite decide_True.
  - rewrite decide_False by eauto. done.
Qed.

(** A request outside the lane changes, to a stage that does not wait in it. *)
Lemma lane_ok_frame rs q t r :
  lane_ok rs q → t ∉ lane q → (rq_kind r = k → waiting (rq_stage r) = false) →
  lane_ok (<[t := r]> rs) q.
Proof.
  intros [Ho Hn Hw Hk Hh] Ht Hr.
  assert (Hl : live_lane (<[t := r]> rs) q = live_lane rs q).
  { apply live_lane_ext. intros a Ha. rewrite is_active_insert, decide_False; congruence. }
  split; [done..| | |]; rewrite ?Hl.
  - intros a r' [[-> ->]|[? ?]]%lookup_insert_Some; [|eauto]. intros ?%Hr. congruence.
  - intros a Ha. rewrite lookup_insert_ne by congruence. eauto.
  - intros a r' [[-> ->]|[? ?]]%lookup_insert_Some; [|eauto].
    intros ?%Hr ?%admitted_waiting. congruence.
Qed.

(** A request of the lane moves between waiting stages. *)
Lemma lane_ok_stage rs q t r s :
  lane_ok rs q → rs !! t = Some r → rq_kind r = k → waiting (rq_stage r) = true →
  waiting s = true → (admitted_stage s = true → head (live_lane rs q) = Some t) →
  lane_ok (<[t := at_stage s r]> rs) q.
Proof.
  intros [Ho Hn Hw Hk Hh] Ht Hr Hwt Hs Hhead.
  assert (Hl : live_lane (<[t := at_stage s r]> rs) q = live_lane rs q).
  { apply live_lane_ext. intros a _. rewrite is_active_insert. case_decide; subst; [|done].
    rewrite (is_active_Some _ _ _ Ht). by rewrite !waiting_ticket. }
  split; [done..| | |]; rewrite ?Hl.
  - intros a r' [[-> <-]|[? ?]]%lookup_insert_Some; eauto.
  - intros a Ha. destruct (decide (t = a)) as [->|].
    + rewrite lookup_insert_eq. exists (at_stage s r). auto.
    + rewrite lookup_insert_ne by done. eauto.
  - intros a r' [[-> <-]|[? ?]]%lookup_insert_Some; eauto.
Qed.

Lemma lane_ok_prune rs q : lane_ok rs q → lane_ok rs (prune_cancelled (is_active rs) q).
Proof.
  intros [Ho Hn Hw Hk Hh]. destruct (lane_prune rs q) as [El Eo].
  assert (Hl : live_lane rs (prune_cancelled (is_active rs) q) = live_lane rs q).
  { unfold live_lane at 1. rewrite El. unfold live_lane.
    rewrite list_filter_filter_l; [done|tauto]. }
  split; rewrite ?El, ?Hl; [by apply Eo|by apply NoDup_filter| | |done].
  - intros t r Ht Hr Hwt. apply list_elem_of_filter. split; [|eauto].
    by rewrite (is_active_Some _ _ _ Ht), waiting_ticket.
  - intros t [_ ?]%list_elem_of_filter. eauto.
Qed.

Lemma lane_ok_enqueue rs q t r wake :
  lane_ok rs q → rs !! t = Some r → rq_kind r = k → rq_stage r = SRefresh wake →
  lane_ok (<[t := at_stage SCheck r]> rs) (enqueue pr t q).
Proof.
  intros [Ho Hn Hw Hk Hh] Ht Hr Hs. destruct (enqueue_lane t q) as [El Eo].
  assert (Hnew : t ∉ lane q).
  { intros (r'&Hr'&_&Hst)%Hk. simplify_eq. rewrite Hs in Hst. by destruct Hst. }
  assert (Hl : live_lane (<[t := at_stage SCheck r]> rs) (enqueue pr t q)
               = live_lane rs q ++ [t]).
  { unfold live_lane at 1. rewrite El, filter_app. f_equal.
    - apply live_lane_ext. intros a Ha. rewrite is_active_insert, decide_False; congruence.
    - rewrite filter_cons, decide_True; [done|]. by rewrite is_active_insert, decide_True. }
  split; rewrite ?El, ?Eo, ?Hl; [done| | | |].
  - apply NoDup_app. split_and!; [done|set_solver|apply NoDup_singleton].
  - intros a r' [[-> <-]|[? ?]]%lookup_insert_Some; set_solver.
  - intros a [Ha|Ha%list_elem_of_singleton]%elem_of_app; [|subst a].
    + rewrite lookup_insert_ne by congruence. eauto.
    + rewrite lookup_insert_eq. exists (at_stage SCheck r). auto.
  - intros a r' [[-> <-]|[? Ha]]%lookup_insert_Some; [done|]. intros Hka Had.
    specialize (Hh _ _ Ha Hka Had). by destruct (live_lane rs q).
Qed.

(** A waiting request is dropped: its ticket stays in the lane until it is pruned. *)
Lemma lane_ok_drop rs q t r :
  lane_ok rs q → rs !! t = Some r → rq_kind r = k → waiting (rq_stage r) = true →
  lane_ok (<[t := at_stage SDone r]> rs) q.
Proof.
  intros [Ho Hn Hw Hk Hh] Ht Hr Hwt. split; [done..| | |].
  - intros a r' [[-> <-]|[? ?]]%lookup_insert_Some; [done|eauto].
  - intros a Ha. destruct (decide (t = a)) as [->|].
    + rewrite lookup_insert_eq. exists (at_stage SDone r). auto.
    + rewrite lookup_insert_ne by done. eauto.
  - intros a r' [[-> <-]|[Hne Ha]]%lookup_insert_Some; [done|]. intros Hka Had.
    specialize (Hh _ _ Ha Hka Had). unfold live_lane in *.
    eapply head_filter_sub, Hh; simpl.
    + intros x. rewrite is_active_insert. by case_decide.
    + rewrite is_active_insert, decide_False, (is_active_Some _ _ _ Ha) by done.
      by apply waiting_ticket, admitted_waiting.
Qed.

(** A request with a permit takes its own ticket off the lane. *)
Lemma lane_ok_pop rs q t r :
  lane_ok rs q → rs !! t = Some r → rq_kind r = k → rq_stage r = SPop →
  next (prune_cancelled (is_active rs) q) = Some t ∧
  lane_ok (<[t := at_stage SShared r]> rs) (pop_next (prune_cancelled (is_active rs) q)).
Proof.
  intros Hok Ht Hr Hs. apply lane_ok_prune in Hok as Hok'.
  set (q1 := prune_cancelled (is_active rs) q) in *.
  assert (Hhead : head (lane q1) = Some t).
  { unfold q1. rewrite (proj1 (lane_prune rs q)). eapply lane_head; [done..|]. by rewrite Hs. }
  assert (Hlive : live_lane rs q1 = lane q1).
  { unfold live_lane, q1. rewrite (proj1 (lane_prune rs q)). unfold live_lane.
    rewrite list_filter_filter_l; [done|tauto]. }
  destruct Hok' as [Ho Hn Hw Hk Hh]. split; [by rewrite next_lane|].
  destruct (pop_lane q1 Ho) as [El Eo]. rewrite Hlive in Hh.
  destruct (lane q1) as [|x l] eqn:E; simplify_eq/=. apply NoDup_cons in Hn as [Htl Hn].
  split; rewrite ?El, ?Eo; simpl; [done..| | |].
  - intros a r' [[-> <-]|[? Ha]]%lookup_insert_Some; [done|]. intros Hka Hwa.
    specialize (Hw _ _ Ha Hka Hwa). set_solver.
  - intros a Ha. rewrite lookup_insert_ne by congruence. set_solver.
  - intros a r' [[-> <-]|[? Ha]]%lookup_insert_Some; [done|]. intros Hka Hwa.
    specialize (Hh _ _ Ha Hka Hwa). congruence.
Qed.

Lemma uniform_back l c c' : moves l c c' → uniform (requests c') → uniform (requests c).
Proof.
  intros Hm Hu t r Ht Hk.
  assert (Hins : ∀ a r' s, requests c !! a = Some r' →
    requests c' = <[a := at_stage s r']> (requests c) → rq_priority r = pr).
  { intros a r' s Ha E. destruct (decide (a = t)) as [->|].
    - simplify_eq. apply (Hu t (at_stage s r)); [by rewrite E, lookup_insert_eq|done].
    - apply (Hu t r); [by rewrite E, lookup_insert_ne|done]. }
  destruct Hm as [E|a r' Ha E| | | | | |]; eauto.
  - rewrite <-E in Ht. eauto.
  - apply (Hu t r); [rewrite E, lookup_insert_ne; congruence|done].
Qed.

Lemma lane_ok_step l c c' :
  lane_ok (requests c) (queue_of c k) → uniform (requests c) → moves l c c' →
  lane_ok (requests c') (queue_of c' k).
Proof.
  intros Hok Hu Hm.
  assert (Hout : ∀ t r, requests c !! t = Some r →
    (rq_kind r ≠ k ∨ waiting (rq_stage r) = false ∧ rq_stage r ≠ SDone) → t ∉ lane (queue_of c k)).
  { intros t r Ht Hr (r'&Hr'&Hk'&Hw)%(lane_known _ _ Hok). simplify_eq.
    destruct Hr as [?|[Hw' ?]]; [done|]. rewrite Hw' in Hw. by destruct Hw. }
  destruct Hm as [Er Eq|t r Ht Er Hs Eq|t r wake Ht Hs Er Eq|t r Ht Hs q Er Eq
    |t r s Ht Hs Hs' Er Eq|t r Ht Hs Er Eq|t r Ht Hs Er Eq|t r Ht Hs Er Eq].
  all: rewrite Er; rewrite ?(queue_of_same _ _ _ Eq), ?(queue_of_insert _ _ _ _ _ Eq).
  - done.
  - apply lane_ok_frame; [done| |by destruct (rq_stage r)].
    intros (r'&?&_)%(lane_known _ _ Hok). congruence.
  - destruct (decide (rq_kind r = k)) as [E|]; [|apply lane_ok_frame; simpl; eauto; congruence].
    rewrite E, (Hu t r) by done. by eapply lane_ok_enqueue.
  - destruct (decide (rq_kind r = k)) as [E|];
      [|apply lane_ok_frame; simpl; eauto; congruence].
    subst q. rewrite E in *. apply lane_ok_prune in Hok as Hok'.
    apply lane_ok_stage; [done..|by rewrite Hs|by case_decide|].
    case_decide as Hn; [|done]. intros _. rewrite next_lane in Hn by apply Hok'.
    unfold live_lane. rewrite (proj1 (lane_prune _ _)) in *. unfold live_lane in *.
    by rewrite list_filter_filter_l by tauto.
  - destruct (decide (rq_kind r = k)) as [E|]; [|apply lane_ok_frame; simpl; eauto; congruence].
    destruct Hs' as [->|[->| ->]]; [| |by apply lane_ok_drop; rewrite ?Hs].
    all: apply lane_ok_stage; [done..|by rewrite Hs|done|]; intros Ha; try done.
    eapply lane_head; [done..|]. by rewrite Hs.
  - destruct (decide (rq_kind r = k)) as [E|]; [|apply lane_ok_frame; simpl; eauto; congruence].
    rewrite E. by apply lane_ok_pop.
  - apply lane_ok_frame; [done| |done]. eapply Hout; [done|]. right. by rewrite Hs.
  - destruct (decide (rq_kind r = k)) as [E|]; [|apply lane_ok_frame; simpl; eauto; congruence].
    destruct (waiting (rq_stage r)) eqn:Hw; [by apply lane_ok_drop|].
    apply lane_ok_frame; [done| |done]. eapply Hout; [done|]. right. split; [done|].
    destruct Hs as [[_ ?]| ->]; done.
Qed.

Lemma lane_ok_run ls c c' :
  lane_ok (requests c) (queue_of c k) → uniform (requests c') → run_steps ls c = Some c' →
  uniform (requests c) ∧ lane_ok (requests c') (queue_of c' k).
Proof.
  revert c. induction ls as [|l ls IH]; simpl; intros c Hok Hu H; [by simplify_eq|].
  destruct (step l c) as [c1|] eqn:E; [|done]. apply step_moves in E.
  assert (Hback : uniform (requests c1)).
  { clear IH Hok E. revert c1 H. induction ls as [|l' ls IH]; simpl; intros c1 H; [by simplify_eq|].
    destruct (step l' c1) as [c2|] eqn:E2; [|done]. eapply uniform_back; eauto using step_moves. }
  pose proof (uniform_back _ _ _ E Hback) as Huc. split; [done|].
  eapply IH; [|done..]. by eapply lane_ok_step.
Qed.

(** while every request of a bucket is of one class, no ticket is lost in any
    interleaving of the calls: a request that waits has its ticket in the queue, and
    the ticket a permit holder takes off the queue is its own. *)
Theorem one_class_loses_no_ticket ls now l c :
  run_steps ls (new_coordinator now l) = Some c → uniform (requests c) →
  (∀ t r, requests c !! t = Some r → rq_kind r = k → waiting (rq_stage r) = true →
     queued t (queue_of c k)) ∧
  (∀ t r, requests c !! t = Some r → rq_kind r = k → rq_stage r = SPop →
     next (prune_cancelled (is_active (requests c)) (queue_of c k)) = Some t).
Proof.
  intros Hrun Hu.
  assert (Hnew : lane_ok (requests (new_coordinator now l)) (queue_of (new_coordinator now l) k)).
  { split; unfold queue_of; simpl; rewrite lookup_empty; simpl.
    - unfold other_lane. by destruct pr.
    - unfold lane. by destruct pr; constructor.
    - intros t r. by rewrite lookup_empty.
    - unfold lane. destruct pr; by intros t ?%not_elem_of_nil.
    - intros t r. by rewrite lookup_empty. }
  destruct (lane_ok_run _ _ _ Hnew Hu Hrun) as [_ Hok]. split.
  - intros t r Ht Hk Hw. pose proof (lane_waiting _ _ Hok _ _ Ht Hk Hw) as Hl.
    unfold lane, queued in *. destruct pr; auto.
  - intros t r Ht Hk Hs. by eapply lane_ok_pop.
Qed.

End OneClass.
End Tickets.

(** The instants of a platform that counts them in signed 64-bit seconds. *)
Definition seconds_i64 : InstantRange :=
  {| instant_min := from_secs i64_min; instant_max := from_secs i64_max + 999999999 |}.

(** A background request finds itself first; a foreground request joins before the
    background request takes its ticket off the queue. *)
Definition overtaken : list Label :=
  [LBegin 1 Read Background None 0; LEnqueue 1 0; LCheck 1;
   LBegin 2 Read Foreground None 0; LEnqueue 2 0; LTake 1 0; LPop 1].

(** C16: with both classes in one bucket a request can be lost. A foreground request
    that joins between the turn check of a background request and its departure from
    the queue has its own ticket taken off instead; from then on no sequence of steps
    gives it a permit, whatever the other requests, the clock and the server do, short
    of dropping it. *)
Theorem unseen_ticket_is_lost :
  ∃ c, @run_steps seconds_i64 overtaken (@new_coordinator seconds_i64 0 empty_ledger) = Some c ∧
    ∀ ls c', LCancel 2 ∉ ls → @run_steps seconds_i64 ls c = Some c' →
      ∃ r, requests c' !! 2%N = Some r ∧ rq_stage r = SCheck.
Proof.
  set (c := default (@new_coordinator seconds_i64 0 empty_ledger)
    (@run_steps seconds_i64 overtaken (@new_coordinator seconds_i64 0 empty_ledger))).
  assert (E : @run_steps seconds_i64 overtaken (@new_coordinator seconds_i64 0 empty_ledger)
              = Some c) by by vm_compute.
  exists c. split; [done|]. intros ls c' Hls Hrun.
  assert (Hlost : lost 2 c).
  { exists {| rq_kind := Read; rq_priority := Foreground; rq_refresh := None; rq_stage := SCheck |}.
    split_and!; [by vm_compute|done|]. intros [H|H]; revert H.
    - replace (foreground _) with (@nil N) by by vm_compute. apply not_elem_of_nil.
    - replace (background _) with [1%N] by by vm_compute.
      rewrite list_elem_of_singleton. discriminate. }
  destruct (lost_forever _ _ _ _ Hlost Hls Hrun) as (r&Hr&Hs&_). eauto.
Qed.

(** ** The shared schedule *)

Section Ledger.
Implicit Types (l : SharedLedger) (e : LedgerEvent) (p : RateLimitPolicy).

Definition row_of (key : string * string) l : ScheduleRow :=
  default {| next_permit_ms := 0; blocked_until_ms := 0 |} (schedule l !! key).

(** The next permit of a bucket is a stored 64-bit integer, is never negative, and
    covers the block the server asked for. *)
Definition ledger_ok l : Prop :=
  ∀ key, 0 ≤ blocked_until_ms (row_of key l) ≤ i64_max ∧ 0 ≤ next_permit_ms (row_of key l) ≤ i64_max.

Definition run_ledger (es : list LedgerEvent) l : SharedLedger := foldl (λ l e, ledger_step e l) l es.

(** A refresh schedule can only delay a grant within the 64-bit range too. *)
Definition refresh_ok l : Prop :=
  ∀ key r, refresh_rows l !! key = Some r →
    rr_next_permit_ms r ≤ i64_max ∧ rr_blocked_until_ms r ≤ i64_max.

Lemma spacing_ms_pos p : 1 ≤ spacing_ms p.
Proof. unfold spacing_ms. lia. Qed.

Lemma unix_millis_range z : 0 ≤ unix_millis z ≤ i64_max.
Proof. unfold unix_millis, i64_max. lia. Qed.

Lemma row_of_insert key key' row sched rr :
  row_of key' {| schedule := <[key := row]> sched; refresh_rows := rr |}
  = if decide (key = key') then row
    else default {| next_permit_ms := 0; blocked_until_ms := 0 |} (sched !! key').
Proof. unfold row_of; simpl. case_decide; subst; by simplify_map_eq. Qed.

Lemma grant_range scope kind p refresh now l :
  ledger_ok l → refresh_ok l →
  let row := row_of (scope, bucket_name kind) l in
  let g := (shared_acquire scope kind p refresh now l).2 in
  unix_millis now ≤ g ≤ i64_max ∧ next_permit_ms row ≤ g ∧ blocked_until_ms row ≤ g.
Proof.
  intros Hl Hr row g. destruct (Hl (scope, bucket_name kind)) as [Hb Hn]. fold row in Hb, Hn.
  pose proof (unix_millis_range now) as Hu. unfold g, shared_acquire; simpl.
  fold (row_of (scope, bucket_name kind) l). fold row.
  destruct refresh as [c|]; simpl; [|lia].
  destruct (refresh_rows l !! (scope, run_id c)) as [r|] eqn:E; simpl; [|lia].
  destruct (Hr _ _ E). lia.
Qed.

Lemma clamp_following g n : 0 ≤ g ≤ i64_max → 1 ≤ n → g ≤ saturating_add_i64 g n ≤ i64_max.
Proof. machine_ints. lia. Qed.

(** Durations are not negative. *)
Definition event_ok e : Prop :=
  match e with EvBlock _ _ delay _ => 0 ≤ delay | _ => True end.

Definition blocked_ms (delay now : Z) : Z :=
  saturating_add_i64 (unix_millis now) (duration_millis_i64 delay).

Lemma row_of_acquire scope kind p refresh now l key :
  row_of key (shared_acquire scope kind p refresh now l).1 =
  if decide ((scope, bucket_name kind) = key)
  then {| next_permit_ms :=
            saturating_add_i64 (shared_acquire scope kind p refresh now l).2 (spacing_ms p);
          blocked_until_ms := blocked_until_ms (row_of (scope, bucket_name kind) l) |}
  else row_of key l.
Proof. apply row_of_insert. Qed.

Lemma blocked_ms_range delay now : 0 ≤ delay → 0 ≤ blocked_ms delay now ≤ i64_max.
Proof.
  intros Hd. pose proof (unix_millis_range now). unfold blocked_ms, duration_millis_i64.
  assert (0 ≤ delay / 1000000) by (apply Z.div_pos; lia). machine_ints. lia.
Qed.

Lemma row_of_block scope kind delay now l key :
  0 ≤ delay →
  row_of key (block_for scope kind delay now l) =
  if decide ((scope, bucket_name kind) = key)
  then {| next_permit_ms := Z.max (next_permit_ms (row_of key l)) (blocked_ms delay now);
          blocked_until_ms := Z.max (blocked_until_ms (row_of key l)) (blocked_ms delay now) |}
  else row_of key l.
Proof.
  intros Hd. pose proof (blocked_ms_range delay now Hd).
  unfold block_for. rewrite row_of_insert. fold (blocked_ms delay now).
  case_decide; [|done]. subst. unfold row_of.
  destruct (schedule l !! _); simpl; [done|]. f_equal; lia.
Qed.

Definition schedule_le l l' : Prop := ∀ key,
  next_permit_ms (row_of key l) ≤ next_permit_ms (row_of key l') ∧
  blocked_until_ms (row_of key l) ≤ blocked_until_ms (row_of key l').

Lemma acquire_ok scope kind p refresh now l :
  ledger_ok l → refresh_ok l →
  let l' := (shared_acquire scope kind p refresh now l).1 in
  ledger_ok l' ∧ refresh_ok l' ∧ schedule_le l l'.
Proof.
  intros Hl Hr l'. destruct (grant_range scope kind p refresh now l Hl Hr) as (Hg&Hn&Hb).
  pose proof (unix_millis_range now) as Hu.
  destruct (clamp_following (shared_acquire scope kind p refresh now l).2 (spacing_ms p))
    as [Hf1 Hf2]; [lia|apply spacing_ms_pos|].
  split_and!.
  - intros key. unfold l'. rewrite row_of_acquire.
    destruct (Hl (scope, bucket_name kind)), (Hl key). case_decide; cbn [next_permit_ms blocked_until_ms]; lia.
  - intros key r. unfold l'. cbn [shared_acquire refresh_rows fst].
    destruct refresh as [c|]; [|apply Hr].
    intros [[<- <-]|[_ ?]]%lookup_insert_Some; [|by eapply Hr].
    cbn [rr_next_permit_ms rr_blocked_until_ms]. split.
    + unfold saturating_add_i64, clamp_i64, i64_max, i64_min. lia.
    + destruct (refresh_rows l !! (scope, run_id c)) as [r|] eqn:E; simpl; [by eapply Hr|done].
  - intros key. unfold l'. rewrite row_of_acquire. case_decide; subst; cbn [next_permit_ms blocked_until_ms]; lia.
Qed.

(** No process ever moves a bucket's schedule back. *)
Lemma ledger_step_ok e l :
  event_ok e → ledger_ok l → refresh_ok l →
  ledger_ok (ledger_step e l) ∧ refresh_ok (ledger_step e l) ∧ schedule_le l (ledger_step e l).
Proof.
  intros He Hl Hr.
  destruct e as [scope kind p refresh now|scope kind delay now|scope run]; simpl in *.
  - by apply acquire_ok.
  - pose proof (blocked_ms_range delay now He). split_and!; [|done|]; intros key;
      rewrite row_of_block by done; destruct (Hl key); case_decide; cbn [next_permit_ms blocked_until_ms]; lia.
  - split_and!; [done| |done]. intros key r H. simpl in H.
    apply lookup_delete_Some in H as [_ ?]. by eapply Hr.
Qed.

Lemma run_ledger_ok es l :
  Forall event_ok es → ledger_ok l → refresh_ok l →
  ledger_ok (run_ledger es l) ∧ refresh_ok (run_ledger es l) ∧ schedule_le l (run_ledger es l).
Proof.
  intros Hes. revert l. induction Hes as [|e es He _ IH]; intros l Hl Hr; simpl.
  { split_and!; [done..|]. by intros key. }
  destruct (ledger_step_ok e l He Hl Hr) as (Hl1&Hr1&Hle).
  destruct (IH _ Hl1 Hr1) as (?&?&Hle'). split_and!; [done..|]. intros key.
  destruct (Hle key), (Hle' key). unfold run_ledger in *. lia.
Qed.

Lemma empty_ledger_ok : ledger_ok empty_ledger ∧ refresh_ok empty_ledger.
Proof.
  split; [|intros key r; simpl; by rewrite lookup_empty]. intros key. unfold row_of; simpl.
  rewrite lookup_empty. cbn [default next_permit_ms blocked_until_ms]. unfold i64_max. simpl. lia.
Qed.

(** C24: across processes, grants of one bucket are spaced and blocks are honoured.
    After a grant, any later grant of that bucket to any process, under any wall clock
    and any policy, comes at least the granting policy's spacing later; after a block,
    not before the block ends; and never in the grantee's past. *)
Theorem shared_grants_are_spaced before between scope kind p refresh now :
  Forall event_ok before → Forall event_ok between →
  let l := run_ledger before empty_ledger in
  (∀ p0 refresh0 now0,
    let '(l1, g0) := shared_acquire scope kind p0 refresh0 now0 l in
    let g := (shared_acquire scope kind p refresh now (run_ledger between l1)).2 in
    Z.min (g0 + spacing_ms p0) i64_max ≤ g ∧ unix_millis now ≤ g ≤ i64_max) ∧
  (∀ delay now0, 0 ≤ delay →
    let l1 := block_for scope kind delay now0 l in
    let g := (shared_acquire scope kind p refresh now (run_ledger between l1)).2 in
    Z.min (unix_millis now0 + duration_millis_i64 delay) i64_max ≤ g).
Proof.
  intros Hb Hm l. destruct empty_ledger_ok as [H0 H0'].
  destruct (run_ledger_ok before _ Hb H0 H0') as (Hl&Hr&_). fold l in Hl, Hr.
  set (key := (scope, bucket_name kind)). split.
  - intros p0 refresh0 now0.
    destruct (acquire_ok scope kind p0 refresh0 now0 l Hl Hr) as (Hl1&Hr1&_).
    pose proof (row_of_acquire scope kind p0 refresh0 now0 l key) as Hrow.
    destruct (grant_range scope kind p0 refresh0 now0 l Hl Hr) as ((Hg0&Hg0')&_&_).
    pose proof (unix_millis_range now0) as Hu0.
    destruct (shared_acquire scope kind p0 refresh0 now0 l) as [l1 g0]. cbn [fst snd] in *.
    destruct (run_ledger_ok between _ Hm Hl1 Hr1) as (Hl2&Hr2&Hle).
    destruct (grant_range scope kind p refresh now _ Hl2 Hr2) as (Hg&Hn&_).
    split; [|done]. destruct (Hle key) as [Hle1 _].
    rewrite Hrow, decide_True in Hle1 by done. cbn [next_permit_ms blocked_until_ms] in Hle1. fold key in Hn.
    pose proof (spacing_ms_pos p0). revert Hle1. machine_ints. lia.
  - intros delay now0 Hd.
    destruct (ledger_step_ok (EvBlock scope kind delay now0) l Hd Hl Hr) as (Hl1&Hr1&_).
    pose proof (row_of_block scope kind delay now0 l key Hd) as Hrow. simpl in Hl1, Hr1.
    destruct (run_ledger_ok between _ Hm Hl1 Hr1) as (Hl2&Hr2&Hle).
    destruct (grant_range scope kind p refresh now _ Hl2 Hr2) as (Hg&Hn&_).
    destruct (Hle key) as [Hle1 _]. rewrite Hrow, decide_True in Hle1 by done.
    cbn [next_permit_ms blocked_until_ms] in Hle1. fold key in Hn. pose proof (blocked_ms_range delay now0 Hd).
    unfold blocked_ms in *. revert Hle1. machine_ints. lia.
Qed.

End Ledger.
