(* ===== verification/Printing.v ===== *)
(** * Print planning

    [crates/replicant-printing/src/lib.rs]: normalisation of print requests, the
    expansion of component requirements into waves, and the distribution of prints
    over Autofactories.  A [BTreeMap] is a finite map whose iteration is by key. *)

From S2P Require Import Prelude Float64.

Abbreviation QuantityMap := (gmap string Z).

(** The iteration of a [BTreeMap]: entries by ascending key. *)
Definition entry_leb {A} (a b : string * A) : bool := String.leb a.1 b.1.
Definition entries {A} (m : gmap string A) : list (string * A) := sort_by entry_leb (map_to_list m).

Record Blueprint := {
  bp_device_type : string;
  bp_print_time_seconds : F64.t;
  bp_features : list string;
  bp_components : QuantityMap;
}.

Definition is_modular (self : Blueprint) : bool :=
  existsb (λ f, bool_decide (f = "modular")) (bp_features self)
  || bool_decide (bp_device_type self = "autofactory")
  || bool_decide (bp_device_type self = "system_hub")
  || bool_decide (bp_device_type self = "exotic_matter_injector").

Record PrintRequest := { rq_device_type : string; rq_quantity : Z (* i64 *) }.
Record FactoryWorkload := { fw_code : string; fw_remaining_seconds : F64.t }.

Record PrintBatch := {
  pb_factory_code : string;
  pb_device_type : string;
  pb_quantity : Z;
  pb_sequence : nat;
  pb_projected_finish_seconds : F64.t;
}.

Record PrintSchedule := {
  sc_batches : list PrintBatch;
  sc_projected_finish_seconds : F64.t;
}.

Record PrintDependencyPlan := {
  requested : QuantityMap;
  component_waves : list QuantityMap;
  reused_components : QuantityMap;
}.

(** [Overflow] is the panic of an [i64] addition in a build with overflow checks;
    [OutOfFuel] is the bound of the recursion below. *)
Inductive ScheduleError :=
| InvalidQuantity (device_type : string) (quantity : Z)
| MissingBlueprint (device_type : string)
| MissingComponentBlueprint (device_type : string) (missing : Z)
| ComponentCycle (device_type : string)
| NoAutofactory
| Overflow
| OutOfFuel.

Abbreviation pres := (result ScheduleError).

Definition add_i64 (a b : Z) : pres Z := if decide (in_i64 (a + b)) then Ok (a + b) else Err Overflow.

(** [*map.entry(key).or_default() += n] *)
Definition add_entry (key : string) (n : Z) (m : QuantityMap) : pres QuantityMap :=
  s ← add_i64 (default 0 (m !! key)) n; mret (<[key := s]> m).

(** [normalize_requests] *)
Fixpoint normalize_from (quantities : QuantityMap) (requests : list PrintRequest)
  : pres QuantityMap :=
  match requests with
  | [] => Ok quantities
  | request :: requests =>
      if decide (rq_quantity request ≤ 0)
      then Err (InvalidQuantity (rq_device_type request) (rq_quantity request))
      else
        quantities ← add_entry (rq_device_type request) (rq_quantity request) quantities;
        normalize_from quantities requests
  end.
Definition normalize_requests : list PrintRequest → pres QuantityMap := normalize_from ∅.

(** ** Dependencies *)

Record PlanState := {
  available : QuantityMap;
  reused : QuantityMap;
  waves : gmap nat QuantityMap;
}.

(** A loop over the components of a blueprint, each needed [factor] times. *)
Fixpoint schedule_components (visit : string → Z → PlanState → pres (nat * PlanState)) (factor : Z)
    (components : list (string * Z)) (deepest : nat) (st : PlanState) : pres (nat * PlanState) :=
  match components with
  | [] => Ok (deepest, st)
  | (component, quantity) :: components =>
      '(depth, st) ← visit component (saturating_mul_i64 quantity factor) st;
      schedule_components visit factor components (deepest `max` depth)%nat st
  end.

(** The reservation of free stock for a requirement. *)
Definition reserve (device_type : string) (quantity : Z) (st : PlanState) : pres (Z * PlanState) :=
  let available_quantity := Z.max (default 0 (available st !! device_type)) 0 in
  let reused_quantity := Z.min quantity available_quantity in
  if decide (0 < reused_quantity) then
    reused ← add_entry device_type reused_quantity (reused st);
    mret (quantity - reused_quantity,
      {| available := <[device_type := available_quantity - reused_quantity]> (available st);
         reused := reused; waves := waves st |})
  else mret (quantity - reused_quantity, st).

(** The wave entry of a print. *)
Definition add_wave (depth : nat) (device_type : string) (missing : Z) (st : PlanState)
  : pres PlanState :=
  wave ← add_entry device_type missing (default ∅ (waves st !! depth));
  mret {| available := available st; reused := reused st; waves := <[depth := wave]> (waves st) |}.

Section Plan.
Variable blueprints : gmap string Blueprint.

(** [schedule_component_requirement] *)
Fixpoint schedule_component_requirement (fuel : nat) (visiting : list string)
    (device_type : string) (quantity : Z) (st : PlanState) : pres (nat * PlanState) :=
  match fuel with
  | O => Err OutOfFuel
  | S fuel =>
      if decide (quantity ≤ 0) then Ok (O, st)
      else if decide (device_type ∈ visiting) then Err (ComponentCycle device_type)
      else
        '(missing, st) ← reserve device_type quantity st;
        if decide (missing = 0) then Ok (O, st)
        else
          blueprint ← ok_or (blueprints !! device_type)
                        (MissingComponentBlueprint device_type missing);
          '(deepest_child, st) ← schedule_components
            (schedule_component_requirement fuel (visiting ++ [device_type])) missing
            (entries (bp_components blueprint)) O st;
          let depth := S deepest_child in
          st ← add_wave depth device_type missing st;
          Ok (depth, st)
  end.

(** The loop over the requested devices. *)
Fixpoint schedule_requests (requests : list (string * Z)) (st : PlanState) : pres PlanState :=
  match requests with
  | [] => Ok st
  | (device_type, quantity) :: requests =>
      blueprint ← ok_or (blueprints !! device_type) (MissingBlueprint device_type);
      '(_, st) ← schedule_components
        (schedule_component_requirement (S (size blueprints)) [device_type]) quantity
        (entries (bp_components blueprint)) O st;
      schedule_requests requests st
  end.

(** The check that every requested device has a blueprint. *)
Fixpoint check_blueprints (requests : list (string * Z)) : pres unit :=
  match requests with
  | [] => Ok tt
  | (device_type, _) :: requests =>
      _ ← ok_or (blueprints !! device_type) (MissingBlueprint device_type);
      check_blueprints requests
  end.

(** The values of the waves, by depth. *)
Definition wave_leb (a b : nat * QuantityMap) : bool := (a.1 <=? b.1)%nat.
Definition wave_list (ws : gmap nat QuantityMap) : list QuantityMap :=
  snd <$> sort_by wave_leb (map_to_list ws).

Definition plan_print_dependencies (requests : list PrintRequest)
    (available_components : QuantityMap) : pres PrintDependencyPlan :=
  requested ← normalize_requests requests;
  _ ← check_blueprints (entries requested);
  st ← schedule_requests (entries requested)
    {| available := available_components; reused := ∅; waves := ∅ |};
  mret {| requested := requested; component_waves := wave_list (waves st);
          reused_components := reused st |}.

End Plan.

(** ** Scheduling *)

(** One unit: its type and the time it takes. *)
Fixpoint print_units (print_time : gmap string F64.t) (required : list (string * Z))
  : pres (list (string * F64.t)) :=
  match required with
  | [] => Ok []
  | (device_type, quantity) :: required =>
      if decide (quantity ≤ 0) then print_units print_time required
      else
        seconds ← ok_or (print_time !! device_type) (MissingBlueprint device_type);
        units ← print_units print_time required;
        mret (replicate (Z.to_nat quantity) (device_type, F64.max seconds F64.zero) ++ units)
  end.

(** Longer prints first, then by type. *)
Definition unit_leb (a b : string * F64.t) : bool :=
  if decide (a.2 = b.2) then String.leb a.1 b.1 else F64.total_leb b.2 a.2.

(** [loads.iter().min_by(..)]: the least load, the lower code among equals. *)
Definition load_leb (a b : string * F64.t) : bool :=
  if decide (a.2 = b.2) then String.leb a.1 b.1 else F64.total_leb a.2 b.2.

(** An entry of a factory's queue: type, quantity, projected finish. *)
Abbreviation QueueEntry := (string * Z * F64.t)%type.

(** Extends the last entry of the same type, or appends one. *)
Fixpoint push_unit (device_type : string) (finish : F64.t) (queue : list QueueEntry)
  : list QueueEntry :=
  match queue with
  | [] => [(device_type, 1, finish)]
  | [(last_type, quantity, projected)] =>
      if decide (last_type = device_type) then [(last_type, quantity + 1, finish)]
      else [(last_type, quantity, projected); (device_type, 1, finish)]
  | entry :: queue => entry :: push_unit device_type finish queue
  end.

Record Factories := {
  loads : gmap string F64.t;
  assigned : gmap string (list QueueEntry);
}.

Definition assign_unit (unit : string * F64.t) (fs : Factories) : pres Factories :=
  factory ← ok_or (fst <$> min_by load_leb (entries (loads fs))) NoAutofactory;
  let finish := F64.add (default F64.zero (loads fs !! factory)) unit.2 in
  mret {| loads := <[factory := finish]> (loads fs);
          assigned := <[factory := push_unit unit.1 finish (default [] (assigned fs !! factory))]>
                        (assigned fs) |}.

Fixpoint assign_units (units : list (string * F64.t)) (fs : Factories) : pres Factories :=
  match units with
  | [] => Ok fs
  | unit :: units => fs ← assign_unit unit fs; assign_units units fs
  end.

Definition factory_batches (entry : string * list QueueEntry) : list PrintBatch :=
  imap (λ sequence q, {| pb_factory_code := entry.1; pb_device_type := q.1.1;
    pb_quantity := q.1.2; pb_sequence := sequence; pb_projected_finish_seconds := q.2 |}) entry.2.

Definition batch_leb (a b : PrintBatch) : bool :=
  if decide (pb_factory_code a = pb_factory_code b) then (pb_sequence a <=? pb_sequence b)%nat
  else String.leb (pb_factory_code a) (pb_factory_code b).

(** [collect::<BTreeMap>]: the last workload of a code. *)
Definition initial_loads (factories : list FactoryWorkload) : gmap string F64.t :=
  foldl (λ m f, <[fw_code f := F64.max (fw_remaining_seconds f) F64.zero]> m) ∅ factories.

Definition schedule_prints (required : QuantityMap) (print_time : gmap string F64.t)
    (factories : list FactoryWorkload) : pres PrintSchedule :=
  if forallb (λ e, bool_decide (e.2 ≤ 0)) (entries required)
  then mret {| sc_batches := []; sc_projected_finish_seconds := F64.zero |}
  else
    match factories with
    | [] => Err NoAutofactory
    | _ =>
        units ← print_units print_time (entries required);
        fs ← assign_units (sort_by unit_leb units)
          {| loads := initial_loads factories; assigned := ∅ |};
        mret {| sc_batches := sort_by batch_leb
                  (entries (assigned fs) ≫= factory_batches);
                sc_projected_finish_seconds :=
                  foldl F64.max F64.zero (snd <$> entries (loads fs)) |}
    end.
