(* ===== verification/PrintingFacts.v ===== *)
(** * What the print planner guarantees

    For [Printing.v]: that the waves of a plan can be printed in order from the stock
    the plan reserves, that planning always ends and why it fails, and that a schedule
    prints exactly what was required. *)

From S2P Require Import Prelude Float64 Printing.

(** ** Quantities *)

Lemma add_entry_Ok key n m m' :
  add_entry key n m = Ok m' → m' = <[key := default 0 (m !! key) + n]> m.
Proof. unfold add_entry, add_i64, mbind, result_bind. case_decide; [|done]. by intros [= <-]. Qed.

(** A weighted sum over all entries of the waves. *)
Definition wave_sum (g : nat → string → Z) (ws : gmap nat QuantityMap) : Z :=
  map_sum (λ d w, map_sum (λ s n, g d s * n) w) ws.

Lemma wave_sum_empty g : wave_sum g ∅ = 0.
Proof. unfold wave_sum. apply map_sum_empty. Qed.

Lemma map_sum_add_entry (h : string → Z) key n m m' :
  add_entry key n m = Ok m' →
  map_sum (λ s n, h s * n) m' = map_sum (λ s n, h s * n) m + h key * n.
Proof.
  intros ->%add_entry_Ok. rewrite map_sum_update. destruct (m !! key); simpl; lia.
Qed.

Lemma wave_sum_add g depth s n st st' :
  add_wave depth s n st = Ok st' →
  available st' = available st ∧ reused st' = reused st ∧
  wave_sum g (waves st') = wave_sum g (waves st) + g depth s * n.
Proof.
  unfold add_wave, mbind, result_bind.
  destruct (add_entry s n _) as [w|] eqn:E; [|done]. intros [= <-]; simpl. split_and!; [done..|].
  unfold wave_sum. rewrite map_sum_update, (map_sum_add_entry (g depth) _ _ _ _ E).
  destruct (waves st !! depth); simpl; [lia|]. rewrite map_sum_empty. lia.
Qed.

Section Plan.
Variable blueprints : gmap string Blueprint.
Implicit Types (st : PlanState) (k : nat) (c s : string) (q : Z).

(** How many [c] one [s] consumes. *)
Definition need s c : Z :=
  match blueprints !! s with
  | Some bp => Z.max 0 (default 0 (bp_components bp !! c))
  | None => 0
  end.

Definition reused_of st c : Z := default 0 (reused st !! c).
Definition stock st c : Z := Z.max 0 (default 0 (available st !! c)).

(** Weights: units of [c] printed before wave [k], units of [c] consumed up to it. *)
Definition before k c : nat → string → Z := λ d s, if decide (d < k ∧ s = c)%nat then 1 else 0.
Definition upto k c : nat → string → Z := λ d s, if decide (d ≤ k)%nat then need s c else 0.
Definition printed_w c : nat → string → Z := λ _ s, if decide (s = c) then 1 else 0.
Definition consumed_w c : nat → string → Z := λ _ s, need s c.

(** What is left of [c] once wave [k] has consumed its components, and at the end. *)
Definition balance st k c : Z :=
  reused_of st c + wave_sum (before k c) (waves st) - wave_sum (upto k c) (waves st).
Definition total st c : Z :=
  reused_of st c + wave_sum (printed_w c) (waves st) - wave_sum (consumed_w c) (waves st).

Lemma need_nonneg s c : 0 ≤ need s c.
Proof. unfold need. destruct (blueprints !! s); lia. Qed.

(** A part of the plan that supplies [supply c] of each [c], at a depth of at most [D]. *)
Record supplies (supply : string → Z) (D : nat) st st' : Prop := {
  sup_stock c : stock st' c + reused_of st' c = stock st c + reused_of st c;
  sup_reused c : reused_of st c ≤ reused_of st' c;
  sup_total c : total st' c = total st c + supply c;
  sup_balance k c : balance st k c + (if decide (D < k)%nat then supply c else 0) ≤ balance st' k c;
  sup_mono (g : nat → string → Z) :
    (∀ d s, 0 ≤ g d s) → wave_sum g (waves st) ≤ wave_sum g (waves st');
}.

Lemma supplies_refl D st : supplies (λ _, 0) D st st.
Proof. split; intros; try done; try lia. case_decide; lia. Qed.

Lemma supplies_trans f1 f2 D1 D2 D st1 st2 st3 :
  supplies f1 D1 st1 st2 → supplies f2 D2 st2 st3 → (D1 ≤ D)%nat → (D2 ≤ D)%nat →
  (∀ c, 0 ≤ f1 c) → (∀ c, 0 ≤ f2 c) → supplies (λ c, f1 c + f2 c) D st1 st3.
Proof.
  intros [A1 B1 C1 E1 F1] [A2 B2 C2 E2 F2] HD1 HD2 Hf1 Hf2. split; intros.
  - by rewrite A2, A1.
  - etrans; [apply B1|apply B2].
  - rewrite C2, C1. lia.
  - specialize (E1 k c). specialize (E2 k c). specialize (Hf1 c). specialize (Hf2 c).
    repeat case_decide; lia.
  - etrans; [by apply F1|by apply F2].
Qed.

Lemma supplies_ext f f' D D' st st' :
  supplies f D st st' → (∀ c, f c = f' c) → (∀ c, 0 ≤ f c) → (D ≤ D')%nat → supplies f' D' st st'.
Proof.
  intros [A B C E F] Hf Hpos HD. split; intros; rewrite <-?Hf; eauto.
  specialize (E k c). specialize (Hpos c). repeat case_decide; lia.
Qed.

(** One unit of demand. *)
Definition demand s q c : Z := if decide (s = c) then Z.max 0 q else 0.

Lemma reserve_Ok s q st missing st' :
  0 < q → reserve s q st = Ok (missing, st') →
  waves st' = waves st ∧ 0 ≤ missing ≤ q ∧
  (∀ c, reused_of st' c = reused_of st c + demand s (q - missing) c) ∧
  (∀ c, stock st' c = stock st c - demand s (q - missing) c).
Proof.
  intros Hq. unfold reserve, mbind, result_bind. case_decide as Hr.
  - destruct (add_entry _ _ _) as [m|] eqn:E; [|done]. apply add_entry_Ok in E as ->.
    intros [= <- <-]. unfold reused_of, stock, demand; simpl.
    split_and!; [done|lia|lia|..]; intros c; case_decide; subst;
      rewrite ?lookup_insert_eq, ?lookup_insert_ne by done; simpl; lia.
  - intros [= <- <-]. unfold demand. split_and!; [done|lia|lia|..]; intros c; case_decide; lia.
Qed.

(** Demands of a list of components. *)
Definition demands (comps : list (string * Z)) (factor : Z) c : Z :=
  foldr Z.add 0 ((λ e : string * Z, demand e.1 (saturating_mul_i64 e.2 factor) c) <$> comps).

Lemma demand_nonneg s q c : 0 ≤ demand s q c.
Proof. unfold demand. case_decide; lia. Qed.
Lemma demands_nonneg comps factor c : 0 ≤ demands comps factor c.
Proof.
  unfold demands. induction comps as [|e comps IH]; [done|].
  rewrite fmap_cons. cbn [foldr].
  pose proof (demand_nonneg e.1 (saturating_mul_i64 e.2 factor) c). lia.
Qed.

Lemma sum_at (comps : list (string * Z)) (h : Z → Z) c :
  NoDup comps.*1 → h 0 = 0 →
  foldr Z.add 0 ((λ e : string * Z, if decide (e.1 = c) then h e.2 else 0) <$> comps)
  = h (default 0 ((list_to_map comps : QuantityMap) !! c)).
Proof.
  intros Hnd Hh. induction comps as [|[s n] comps IH]; [done|].
  rewrite fmap_cons in Hnd. apply NoDup_cons in Hnd as [Hs Hnd].
  rewrite fmap_cons, list_to_map_cons. cbn [foldr fst snd]. rewrite IH by done. case_decide as E.
  - subst. rewrite lookup_insert_eq, not_elem_of_list_to_map_1 by done. simpl. lia.
  - rewrite lookup_insert_ne by done. lia.
Qed.

Lemma entries_map {A} (m : gmap string A) : NoDup (entries m).*1 ∧ list_to_map (entries m) = m.
Proof.
  unfold entries. split.
  - rewrite sort_by_perm. apply NoDup_fst_map_to_list.
  - rewrite <-(list_to_map_to_list m) at 2. symmetry. apply list_to_map_proper.
    + apply NoDup_fst_map_to_list.
    + by rewrite sort_by_perm.
Qed.

(** Without saturation the components of [factor] units are what they consume. *)
Lemma demands_components s bp factor c :
  blueprints !! s = Some bp → 0 < factor →
  (∀ c n, bp_components bp !! c = Some n → n * factor ≤ i64_max) →
  demands (entries (bp_components bp)) factor c = need s c * factor.
Proof.
  intros Hbp Hf Hsat. unfold demands, demand, need. rewrite Hbp.
  destruct (entries_map (bp_components bp)) as [Hnd Hm].
  rewrite (sum_at _ (λ n, Z.max 0 (saturating_mul_i64 n factor))), Hm; [|done|machine_ints; lia].
  destruct (bp_components bp !! c) as [n|] eqn:E; simpl; [|machine_ints; lia].
  specialize (Hsat _ _ E). revert Hsat. machine_ints. nia.
Qed.

(** ** One requirement *)

(** Room for every product of the plan: no multiplication saturates. *)
Variable cap : string → Z.
Hypothesis cap_ok : ∀ s bp c n,
  blueprints !! s = Some bp → bp_components bp !! c = Some n → n * cap s ≤ i64_max.

Definition nonneg st : Prop := ∀ g, (∀ d s, 0 ≤ g d s) → 0 ≤ wave_sum g (waves st).
Definition within st : Prop := ∀ s, wave_sum (printed_w s) (waves st) ≤ cap s.

Lemma printed_w_nonneg c d s : 0 ≤ printed_w c d s.
Proof. unfold printed_w. case_decide; lia. Qed.

Lemma supplies_within f D st st' : supplies f D st st' → within st' → within st.
Proof.
  intros Hs Hw s. etrans; [|apply Hw]. apply (sup_mono _ _ _ _ Hs), printed_w_nonneg.
Qed.
Lemma supplies_nonneg f D st st' : supplies f D st st' → nonneg st → nonneg st'.
Proof. intros Hs Hn g Hg. etrans; [by apply Hn|]. by apply (sup_mono _ _ _ _ Hs). Qed.

Definition visit_ok (visit : string → Z → PlanState → pres (nat * PlanState)) : Prop :=
  ∀ s q st D st', visit s q st = Ok (D, st') → nonneg st → within st' →
    supplies (demand s q) D st st'.

Lemma schedule_components_Ok visit factor comps deepest st D st' :
  visit_ok visit → (∀ s q st D st', visit s q st = Ok (D, st') →
    ∀ g : nat → string → Z, (∀ d s, 0 ≤ g d s) → wave_sum g (waves st) ≤ wave_sum g (waves st')) →
  schedule_components visit factor comps deepest st = Ok (D, st') →
  nonneg st → within st' →
  supplies (demands comps factor) D st st' ∧ (deepest ≤ D)%nat.
Proof.
  intros Hv Hmono. revert deepest st. induction comps as [|[s n] comps IH]; intros deepest st; simpl.
  { intros [= <- <-] _ _. split; [apply supplies_refl|done]. }
  unfold mbind, result_bind. destruct (visit _ _ _) as [[D1 st1]|] eqn:E; [|done].
  intros Hrec Hn Hw.
  assert (Hn1 : nonneg st1) by (intros g Hg; etrans; [by apply Hn|by eapply Hmono]).
  destruct (IH _ _ Hrec Hn1 Hw) as [Hs HD].
  pose proof (Hv _ _ _ _ _ E Hn (supplies_within _ _ _ _ Hs Hw)) as Hs1.
  split; [|lia]. eapply supplies_ext;
    [apply (supplies_trans _ _ _ _ D _ _ _ Hs1 Hs)| | |reflexivity]; try lia;
    eauto using demand_nonneg, demands_nonneg.
  intros c. simpl. pose proof (demand_nonneg s (saturating_mul_i64 n factor) c).
  pose proof (demands_nonneg comps factor c). lia.
Qed.

(** Waves only grow. *)
Definition grows st st' : Prop :=
  ∀ g : nat → string → Z, (∀ d s, 0 ≤ g d s) → wave_sum g (waves st) ≤ wave_sum g (waves st').

Lemma components_grow visit factor comps deepest st D st' :
  (∀ s q st D st', visit s q st = Ok (D, st') → grows st st') →
  schedule_components visit factor comps deepest st = Ok (D, st') → grows st st'.
Proof.
  intros Hv. revert deepest st. induction comps as [|[s n] comps IH]; intros deepest st; simpl.
  { by intros [= <- <-] g _. }
  unfold mbind, result_bind. destruct (visit _ _ _) as [[D1 st1]|] eqn:E; [|done].
  intros Hrec g Hg. etrans; [by eapply Hv|by eapply IH].
Qed.

(** The parts of a requirement that has to print. *)
Lemma requirement_inv fuel visiting s q st D st' :
  schedule_component_requirement blueprints fuel visiting s q st = Ok (D, st') →
  (q ≤ 0 ∧ D = O ∧ st' = st) ∨
  (∃ fuel' missing st1, fuel = S fuel' ∧ 0 < q ∧ (s ∉ visiting) ∧ reserve s q st = Ok (missing, st1) ∧
    ((missing = 0 ∧ D = O ∧ st' = st1) ∨
     (∃ bp d st2, missing ≠ 0 ∧ blueprints !! s = Some bp ∧ D = S d ∧
       schedule_components (schedule_component_requirement blueprints fuel' (visiting ++ [s]))
         missing (entries (bp_components bp)) O st1 = Ok (d, st2) ∧
       add_wave (S d) s missing st2 = Ok st'))).
Proof.
  destruct fuel as [|fuel]; [done|]. simpl. unfold mbind, result_bind, ok_or.
  case_decide; [intros [= <- <-]; auto|]. case_decide; [done|].
  destruct (reserve s q st) as [[missing st1]|] eqn:Er; [|done].
  case_decide; [intros [= <- <-]; right; eauto 12 with lia|].
  destruct (blueprints !! s) as [bp|] eqn:Eb; [|done].
  destruct (schedule_components _ _ _ _ _) as [[d st2]|] eqn:Es; [|done].
  destruct (add_wave _ _ _ _) as [st3|] eqn:Ea; [|done].
  intros [= <- <-]. right. exists fuel, missing, st1. split_and!; [done|lia|done..|].
  right. by exists bp, d, st2.
Qed.

Lemma requirement_grows fuel visiting s q st D st' :
  schedule_component_requirement blueprints fuel visiting s q st = Ok (D, st') → grows st st'.
Proof.
  revert visiting s q st D st'. induction fuel as [|fuel IH];
    intros visiting s q st D st' [(_&_&->)|(fuel'&missing&st1&[= <-]&Hq&_&Hr&Hcase)]%requirement_inv;
    try by intros g _.
  destruct (reserve_Ok _ _ _ _ _ Hq Hr) as (Ew&Hm&_).
  destruct Hcase as [(_&_&->)|(bp&d&st2&Hm0&_&_&Hc&Ha)]; intros g Hg; rewrite <-Ew; [done|].
  etrans; [eapply components_grow; eauto|].
  destruct (wave_sum_add g _ _ _ _ _ Ha) as (_&_&->). specialize (Hg (S d) s). nia.
Qed.

Lemma requirements_grow fuel visiting factor comps deepest st D st' :
  schedule_components (schedule_component_requirement blueprints fuel visiting) factor comps
    deepest st = Ok (D, st') → grows st st'.
Proof. apply components_grow. intros *. apply requirement_grows. Qed.

(** The entry of a print closes the books of its components. *)
Lemma add_wave_supplies s d missing st1 st2 st3 :
  supplies (λ c, need s c * missing) d st1 st2 → 0 < missing →
  add_wave (S d) s missing st2 = Ok st3 → supplies (demand s missing) (S d) st1 st3.
Proof.
  intros [A B C E F] Hm Ha.
  assert (Hws : ∀ g, wave_sum g (waves st3) = wave_sum g (waves st2) + g (S d) s * missing)
    by (intros g; exact (proj2 (proj2 (wave_sum_add g _ _ _ _ _ Ha)))).
  apply (wave_sum_add (λ _ _, 0)) in Ha as (Eav&Ere&_).
  assert (Hre : ∀ c, reused_of st3 c = reused_of st2 c) by (intros; unfold reused_of; by rewrite Ere).
  assert (Hst : ∀ c, stock st3 c = stock st2 c) by (intros; unfold stock; by rewrite Eav).
  split; intros; rewrite ?Hre, ?Hst; [done..| | |].
  - specialize (C c). unfold total in *. rewrite Hre, !Hws. unfold printed_w, consumed_w, demand in *.
    repeat case_decide; lia.
  - specialize (E k c). unfold balance in *. rewrite Hre, !Hws. unfold before, upto, demand in *.
    pose proof (need_nonneg s c). repeat case_decide; destruct_and?; simplify_eq; try lia; tauto.
  - rewrite Hws. match goal with Hg : ∀ d s, 0 ≤ g d s |- _ =>
      specialize (F g Hg); specialize (Hg (S d) s) end. nia.
Qed.

Lemma reserve_supplies s q st missing st1 :
  0 < q → reserve s q st = Ok (missing, st1) → supplies (demand s (q - missing)) O st st1.
Proof.
  intros Hq Hr. destruct (reserve_Ok _ _ _ _ _ Hq Hr) as (Ew&Hm&Hre&Hst).
  split; intros.
  - rewrite Hre, Hst. lia.
  - rewrite Hre. pose proof (demand_nonneg s (q - missing) c). lia.
  - unfold total. rewrite Hre, Ew. lia.
  - unfold balance. rewrite Hre, Ew. pose proof (demand_nonneg s (q - missing) c).
    case_decide; lia.
  - by rewrite Ew.
Qed.

Lemma requirement_Ok fuel visiting :
  visit_ok (schedule_component_requirement blueprints fuel visiting).
Proof.
  revert visiting. induction fuel as [|fuel IH];
    intros visiting s q st D st' [(Hq&->&->)|(fuel'&missing&st1&[= <-]&Hq&_&Hr&Hcase)]%requirement_inv
      Hn Hw.
  1,2: eapply supplies_ext; [apply supplies_refl|..|reflexivity]; [|done];
    intros c; unfold demand; case_decide; lia.
  destruct (reserve_Ok _ _ _ _ _ Hq Hr) as (Ew&Hm&_).
  pose proof (reserve_supplies _ _ _ _ _ Hq Hr) as Hs1.
  destruct Hcase as [(->&->&->)|(bp&d&st2&Hm0&Hbp&->&Hc&Ha)].
  { by rewrite Z.sub_0_r in Hs1. }
  destruct (wave_sum_add (printed_w s) _ _ _ _ _ Ha) as (_&_&Hp).
  assert (Hn1 : nonneg st1) by by eapply supplies_nonneg.
  assert (Hg12 : grows st1 st2) by exact (requirements_grow _ _ _ _ _ _ _ _ Hc).
  assert (Hw2 : within st2).
  { intros c. etrans; [|apply Hw]. destruct (wave_sum_add (printed_w c) _ _ _ _ _ Ha) as (_&_&->).
    pose proof (printed_w_nonneg c (S d) s). nia. }
  assert (Hcap : missing ≤ cap s).
  { specialize (Hw s). rewrite Hp in Hw. unfold printed_w at 2 in Hw.
    rewrite decide_True in Hw by done. specialize (Hn1 _ (printed_w_nonneg s)).
    specialize (Hg12 _ (printed_w_nonneg s)). lia. }
  destruct (schedule_components_Ok _ _ _ _ _ _ _ (IH _) (requirement_grows _ _) Hc Hn1 Hw2)
    as [Hs2 _].
  assert (Hs3 : supplies (demand s missing) (S d) st1 st').
  { eapply add_wave_supplies; [|lia|done]. eapply supplies_ext; [exact Hs2| | |reflexivity].
    - intros c. apply demands_components; [done|lia|]. intros c' n Hcn.
      specialize (cap_ok _ _ _ _ Hbp Hcn). destruct (Z_le_gt_dec n 0); [|nia].
      unfold i64_max. nia.
    - intros c. apply demands_nonneg. }
  eapply supplies_ext; [apply (supplies_trans _ _ _ _ (S d) _ _ _ Hs1 Hs3)| | |reflexivity];
    try lia; eauto using demand_nonneg.
  - intros c. unfold demand. case_decide; lia.
  - intros c. pose proof (demand_nonneg s (q - missing) c). pose proof (demand_nonneg s missing c). lia.
Qed.

(** ** All requests *)

Definition requested_need (reqs : list (string * Z)) c : Z :=
  foldr Z.add 0 ((λ e : string * Z, need e.1 c * e.2) <$> reqs).

Definition request_ok (e : string * Z) : Prop :=
  0 < e.2 ∧ ∀ bp c n, blueprints !! e.1 = Some bp → bp_components bp !! c = Some n →
    n * e.2 ≤ i64_max.

Lemma schedule_requests_inv s q reqs st st' :
  schedule_requests blueprints ((s, q) :: reqs) st = Ok st' →
  ∃ bp D st1, blueprints !! s = Some bp ∧
    schedule_components (schedule_component_requirement blueprints (S (size blueprints)) [s]) q
      (entries (bp_components bp)) O st = Ok (D, st1) ∧
    schedule_requests blueprints reqs st1 = Ok st'.
Proof.
  cbn [schedule_requests]. unfold mbind, result_bind, ok_or.
  destruct (blueprints !! s) as [bp|]; [|done].
  destruct (schedule_components _ _ _ _ _) as [[D st1]|] eqn:E; [|done].
  intros Hrec. exists bp, D, st1. done.
Qed.

Lemma requested_need_nonneg reqs c : Forall request_ok reqs → 0 ≤ requested_need reqs c.
Proof.
  unfold requested_need. induction 1 as [|e reqs [He _] _ IH]; [done|].
  rewrite fmap_cons. cbn [foldr]. pose proof (need_nonneg e.1 c). nia.
Qed.

Lemma schedule_requests_Ok reqs st st' :
  schedule_requests blueprints reqs st = Ok st' → Forall request_ok reqs →
  nonneg st → within st' → ∃ D, supplies (requested_need reqs) D st st'.
Proof.
  intros H Hok. revert st H. induction Hok as [|[s q] reqs [Hq Hsat] Hok IH]; intros st.
  { intros [= <-] _ _. exists O. apply supplies_refl. }
  intros (bp&D1&st1&Hbp&E&Hrec)%schedule_requests_inv Hn Hw.
  assert (Hn1 : nonneg st1).
  { intros g Hg. etrans; [by apply Hn|]. exact (requirements_grow _ _ _ _ _ _ _ _ E g Hg). }
  destruct (IH _ Hrec Hn1 Hw) as [D2 Hs2].
  destruct (schedule_components_Ok _ _ _ _ _ _ _ (requirement_Ok _ _) (requirement_grows _ _)
    E Hn (supplies_within _ _ _ _ Hs2 Hw)) as [Hs1 _].
  exists (D1 `max` D2)%nat. eapply supplies_ext;
    [apply (supplies_trans _ _ _ _ (D1 `max` D2) _ _ _ Hs1 Hs2)| | |reflexivity]; try lia;
    eauto using demands_nonneg, requested_need_nonneg.
  - intros c. unfold requested_need at 2. rewrite fmap_cons. cbn [foldr fst snd].
    rewrite (demands_components s bp) by eauto. done.
  - intros c. pose proof (demands_nonneg (entries (bp_components bp)) q c).
    pose proof (requested_need_nonneg reqs c Hok). lia.
Qed.

Lemma requests_grow reqs st st' : schedule_requests blueprints reqs st = Ok st' → grows st st'.
Proof.
  revert st. induction reqs as [|[s q] reqs IH]; intros st.
  { by intros [= <-] g _. }
  intros (bp&D&st1&_&E&Hrec)%schedule_requests_inv g Hg.
  etrans; [by apply (requirements_grow _ _ _ _ _ _ _ _ E)|by apply (IH _ Hrec)].
Qed.

End Plan.

(** ** Waves as a list *)

#[global] Instance wave_leb_total : TotalLeb wave_leb.
Proof. split; unfold wave_leb; intros; rewrite ?Nat.leb_le in *; lia. Qed.

Lemma map_sum_at c (w : QuantityMap) (b : bool) :
  map_sum (λ s n, (if b && bool_decide (s = c) then 1 else 0) * n) w
  = if b then default 0 (w !! c) else 0.
Proof.
  induction w as [|s n w Hs IH] using map_ind; [by destruct b|].
  rewrite map_sum_insert, IH by done. destruct b; simpl; [|done].
  case_bool_decide; subst.
  - rewrite lookup_insert_eq, Hs. simpl. lia.
  - rewrite lookup_insert_ne by done. lia.
Qed.

(** A list sorted by depth, around the entry at depth [k]. *)
Lemma sorted_split (l : list (nat * QuantityMap)) i k w :
  StronglySorted (λ a b, wave_leb a b = true) l → NoDup l.*1 → l !! i = Some (k, w) →
  ∃ l1 l2, l = l1 ++ (k, w) :: l2 ∧ length l1 = i ∧
    Forall (λ e, e.1 < k)%nat l1 ∧ Forall (λ e, k < e.1)%nat l2.
Proof.
  intros Hs Hnd. revert i. induction l as [|[d v] l IH]; intros i; [done|].
  apply StronglySorted_inv in Hs as [Hs Hall]. rewrite fmap_cons in Hnd.
  apply NoDup_cons in Hnd as [Hd Hnd]. rewrite Forall_forall in Hall.
  assert (Hlt : ∀ e, e ∈ l → (d < e.1)%nat).
  { intros e He. specialize (Hall e He). unfold wave_leb in Hall. apply Nat.leb_le in Hall.
    simpl in *. assert (d ≠ e.1); [|lia]. intros ->. by apply Hd, list_elem_of_fmap_2. }
  destruct i as [|i]; cbn [lookup list_lookup].
  - intros [= -> ->]. exists [], l. split_and!; [done..|]. by apply Forall_forall.
  - intros Hi. destruct (IH Hs Hnd i Hi) as (l1&l2&->&<-&H1&H2).
    exists ((d, v) :: l1), l2. split_and!; [done..| |done]. constructor; [|done].
    apply (Hlt (k, w)). set_solver.
Qed.

Lemma sum_true (P : nat → Prop) `{!∀ d, Decision (P d)} (h : QuantityMap → Z)
    (l : list (nat * QuantityMap)) :
  Forall (λ e, P e.1) l →
  foldr Z.add 0 ((λ e : nat * QuantityMap, if decide (P e.1) then h e.2 else 0) <$> l)
  = foldr Z.add 0 (h <$> l.*2).
Proof.
  induction 1 as [|e l He _ IH]; [done|]. rewrite !fmap_cons. cbn [foldr].
  by rewrite decide_True, IH.
Qed.

Lemma sum_false (P : nat → Prop) `{!∀ d, Decision (P d)} (h : QuantityMap → Z)
    (l : list (nat * QuantityMap)) :
  Forall (λ e, ¬ P e.1) l →
  foldr Z.add 0 ((λ e : nat * QuantityMap, if decide (P e.1) then h e.2 else 0) <$> l) = 0.
Proof.
  induction 1 as [|e l He _ IH]; [done|]. rewrite !fmap_cons. cbn [foldr].
  by rewrite decide_False, IH.
Qed.

Lemma sum_app (l1 l2 : list Z) : foldr Z.add 0 (l1 ++ l2) = foldr Z.add 0 l1 + foldr Z.add 0 l2.
Proof. induction l1 as [|x l1 IH]; simpl; [done|]. rewrite IH. lia. Qed.

(** The sum over the entries that satisfy a lower set of depths is the sum of a prefix. *)
Lemma prefix_sum (P : nat → Prop) `{!∀ d, Decision (P d)} (h : QuantityMap → Z)
    (l1 l2 : list (nat * QuantityMap)) :
  Forall (λ e, P e.1) l1 → Forall (λ e, ¬ P e.1) l2 →
  foldr Z.add 0 ((λ e : nat * QuantityMap, if decide (P e.1) then h e.2 else 0) <$> l1 ++ l2)
  = foldr Z.add 0 (h <$> l1.*2).
Proof.
  intros H1 H2. rewrite fmap_app, sum_app, sum_true, sum_false by done. lia.
Qed.

Section PlanCorrect.
Variable blueprints : gmap string Blueprint.

(** Units of [c] that waves print, and that their prints consume. *)
Definition produced (ws : list QuantityMap) (c : string) : Z :=
  foldr Z.add 0 ((λ w, default 0 (w !! c)) <$> ws).
Definition consumed (ws : list QuantityMap) (c : string) : Z :=
  foldr Z.add 0 ((λ w, map_sum (λ s n, need blueprints s c * n) w) <$> ws).

Lemma wave_list_sum (f : nat → QuantityMap → Z) ws :
  map_sum f ws
  = foldr Z.add 0 ((λ e : nat * QuantityMap, f e.1 e.2) <$> sort_by wave_leb (map_to_list ws)).
Proof.
  rewrite map_sum_list. apply sum_list_perm. rewrite sort_by_perm.
  by rewrite (list_fmap_ext (uncurry f) (λ e, f e.1 e.2)) by by intros ? [].
Qed.

Lemma printed_before k c ws :
  wave_sum (before k c) ws
  = map_sum (λ d w, if decide (d < k)%nat then default 0 (w !! c) else 0) ws.
Proof.
  apply map_sum_ext. intros d w _.
  transitivity (if bool_decide (d < k)%nat then default 0 (w !! c) else 0);
    [|by case_bool_decide; case_decide].
  rewrite <-map_sum_at. apply map_sum_ext. intros s n _. unfold before.
  repeat case_bool_decide; repeat case_decide; simpl; try done; tauto.
Qed.

Lemma consumed_upto k c ws :
  wave_sum (upto blueprints k c) ws
  = map_sum (λ d w, if decide (d ≤ k)%nat
                    then map_sum (λ s n, need blueprints s c * n) w else 0) ws.
Proof.
  apply map_sum_ext. intros d w _. unfold upto. case_decide; [done|].
  induction w as [|s n w Hs IH] using map_ind; [done|]. rewrite map_sum_insert, IH by done. lia.
Qed.

Lemma wave_list_sorted ws :
  StronglySorted (λ a b, wave_leb a b = true) (sort_by wave_leb (map_to_list ws)) ∧
  NoDup (sort_by wave_leb (map_to_list ws)).*1.
Proof.
  split; [by apply StronglySorted_sort_by, wave_leb_total|].
  rewrite (fmap_Permutation fst _ _ (sort_by_perm wave_leb (map_to_list ws))).
  apply NoDup_fst_map_to_list.
Qed.

(** A prefix of the waves is the waves below a depth. *)
Lemma wave_prefix ws i w c :
  wave_list ws !! i = Some w →
  ∃ k, produced (take i (wave_list ws)) c = wave_sum (before k c) ws ∧
    consumed (take (S i) (wave_list ws)) c = wave_sum (upto blueprints k c) ws.
Proof.
  unfold wave_list. intros Hi. apply list_lookup_fmap_Some in Hi as ([k w']&Hw&Hi).
  simpl in Hw. subst w'. destruct (wave_list_sorted ws) as [Hs Hnd]. exists k.
  destruct (sorted_split _ _ _ _ Hs Hnd Hi) as (l1&l2&El&<-&H1&H2).
  rewrite printed_before, consumed_upto, !wave_list_sum, El.
  unfold produced, consumed. rewrite <-!fmap_take, take_app_length. split.
  - symmetry. apply (@prefix_sum (λ d, d < k)%nat (λ d, Nat.lt_dec d k) (λ w, default 0 (w !! c)) l1 ((k, w) :: l2)); [done|].
    constructor; [simpl; lia|].
    eapply Forall_impl; [exact H2|]. simpl. lia.
  - rewrite (cons_middle (k, w)), app_assoc, take_app_length' by (rewrite length_app; simpl; lia).
    symmetry. apply (@prefix_sum (λ d, d ≤ k)%nat (λ d, Nat.le_dec d k)
      (λ w, map_sum (λ s n, need blueprints s c * n) w) (l1 ++ [(k, w)]) l2).
    + apply Forall_app. split; [|repeat constructor; done].
      eapply Forall_impl; [exact H1|]. simpl. lia.
    + eapply Forall_impl; [exact H2|]. simpl. lia.
Qed.

Lemma wave_total c ws :
  wave_sum (printed_w c) ws = produced (wave_list ws) c ∧
  wave_sum (consumed_w blueprints c) ws = consumed (wave_list ws) c.
Proof.
  unfold wave_list, produced, consumed. rewrite <-!list_fmap_compose. split.
  - transitivity (map_sum (λ (_ : nat) w, default 0 (w !! c)) ws); [|apply wave_list_sum].
    apply map_sum_ext. intros d w _. rewrite <-(map_sum_at c w true). apply map_sum_ext.
    intros s n _. unfold printed_w. simpl. by case_bool_decide; case_decide.
  - apply (wave_list_sum (λ _ w, map_sum (λ s n, need blueprints s c * n) w)).
Qed.

End PlanCorrect.

(** ** A plan can be carried out *)

Section Requests.
Variable blueprints : gmap string Blueprint.

(** What the caller asked for, per type. *)
Definition request_total (requests : list PrintRequest) (d : string) : Z :=
  foldr Z.add 0 ((λ r, if decide (rq_device_type r = d) then rq_quantity r else 0) <$> requests).

Lemma normalize_from_Ok m requests m' :
  normalize_from m requests = Ok m' →
  (∀ d, default 0 (m' !! d) = default 0 (m !! d) + request_total requests d) ∧
  Forall (λ r, 0 < rq_quantity r) requests ∧
  (map_Forall (λ _ n, 0 < n) m → map_Forall (λ _ n, 0 < n) m').
Proof.
  revert m. induction requests as [|r requests IH]; intros m; cbn [normalize_from].
  { intros [= <-]. split_and!; [|done..]. intros d. unfold request_total; simpl. lia. }
  case_decide; [done|]. unfold mbind, result_bind.
  destruct (add_entry _ _ _) as [m1|] eqn:E; [|done]. apply add_entry_Ok in E as ->.
  intros (Hd&Hf&Hp)%IH. split_and!; [|by constructor; [lia|]|].
  - intros d. rewrite Hd. unfold request_total. rewrite fmap_cons. cbn [foldr].
    destruct (decide (rq_device_type r = d)) as [->|].
    + rewrite lookup_insert_eq. simpl. lia.
    + by rewrite lookup_insert_ne.
  - intros Hm. apply Hp, map_Forall_insert_2; [|done].
    destruct (m !! rq_device_type r) eqn:E; simpl; [|lia]. specialize (Hm _ _ E). simpl in Hm. lia.
Qed.

Lemma normalize_requests_Ok requests m :
  normalize_requests requests = Ok m →
  (∀ d, default 0 (m !! d) = request_total requests d) ∧
  Forall (λ r, 0 < rq_quantity r) requests ∧ map_Forall (λ _ n, 0 < n) m.
Proof.
  intros (Hd&Hf&Hp)%normalize_from_Ok. split_and!; [|done|by apply Hp, map_Forall_empty].
  intros d. by rewrite Hd, lookup_empty.
Qed.

Lemma elem_of_entries {A} (m : gmap string A) k v : (k, v) ∈ entries m ↔ m !! k = Some v.
Proof. unfold entries. by rewrite elem_of_sort_by, elem_of_map_to_list. Qed.

Lemma plan_inv requests free p :
  plan_print_dependencies blueprints requests free = Ok p →
  ∃ st, normalize_requests requests = Ok (requested p) ∧
    schedule_requests blueprints (entries (requested p))
      {| available := free; reused := ∅; waves := ∅ |} = Ok st ∧
    component_waves p = wave_list (waves st) ∧ reused_components p = reused st.
Proof.
  unfold plan_print_dependencies, mbind, result_bind.
  destruct (normalize_requests requests) as [m|] eqn:En; [|done].
  destruct (check_blueprints _ _) as [[]|]; [|done].
  destruct (schedule_requests _ _ _) as [st|] eqn:Es; [|done].
  intros [= <-]. by exists st.
Qed.

(** C26: a plan that succeeds can be carried out: wave after wave, the components a wave
    consumes are covered by the stock the plan reserved and by what earlier waves printed;
    over the whole plan the components of the waves and of the requested devices use up
    exactly what is reserved and printed; and the plan never reserves more stock than
    there is.  The hypothesis says that no product of a component count and a planned
    quantity saturates [i64]. *)
Theorem print_plan_feasible requests free p :
  plan_print_dependencies blueprints requests free = Ok p →
  (∀ s bp c n, blueprints !! s = Some bp → bp_components bp !! c = Some n →
    n * (default 0 (requested p !! s) + produced (component_waves p) s) ≤ i64_max) →
  ∀ c,
    (∀ i w, component_waves p !! i = Some w →
      consumed blueprints (take (S i) (component_waves p)) c
      ≤ default 0 (reused_components p !! c) + produced (take i (component_waves p)) c) ∧
    consumed blueprints (component_waves p) c + requested_need blueprints (entries (requested p)) c
    = default 0 (reused_components p !! c) + produced (component_waves p) c ∧
    0 ≤ default 0 (reused_components p !! c) ≤ Z.max 0 (default 0 (free !! c)).
Proof.
  intros (st&Hn&Hs&Ew&Er)%plan_inv Hcap c. rewrite Ew in *. rewrite Er.
  apply normalize_requests_Ok in Hn as (_&_&Hpos).
  assert (Hpr : ∀ s, wave_sum (printed_w s) (waves st) = produced (wave_list (waves st)) s)
    by (intros s; exact (proj1 (wave_total blueprints s _))).
  assert (Hreq : ∀ s, 0 ≤ default 0 (requested p !! s)).
  { intros s. destruct (requested p !! s) eqn:E; [|done]. specialize (Hpos _ _ E). simpl in *. lia. }
  assert (Hok : Forall (request_ok blueprints) (entries (requested p))).
  { apply Forall_forall. intros [s q] Hq%elem_of_entries. split; [by apply (Hpos _ _ Hq)|].
    simpl. intros bp c' n Hbp Hcn. specialize (Hcap _ _ _ _ Hbp Hcn).
    rewrite Hq in Hcap. simpl in Hcap.
    assert (0 ≤ produced (wave_list (waves st)) s).
    { rewrite <-Hpr. by apply (requests_grow _ _ _ _ Hs), printed_w_nonneg. }
    specialize (Hpos _ _ Hq). simpl in *. unfold i64_max in *. destruct (Z_le_gt_dec n 0); nia. }
  destruct (schedule_requests_Ok blueprints
      (λ s, default 0 (requested p !! s) + produced (wave_list (waves st)) s) Hcap _ _ _ Hs Hok)
    as [D [Hst Hre Htot Hbal _]].
  { intros g _. unfold wave_sum; simpl. by rewrite map_sum_empty. }
  { intros s. rewrite Hpr. specialize (Hreq s). lia. }
  specialize (Hst c). specialize (Hre c).
  specialize (Htot c). destruct (wave_total blueprints c (waves st)) as [Hp Hc].
  unfold total, stock, reused_of in *. simpl in *. rewrite !wave_sum_empty, Hp, Hc in *.
  rewrite lookup_empty in *. simpl in *. split_and!; [|lia..].
  intros i w Hi. destruct (wave_prefix blueprints _ _ _ c Hi) as (k&->&->).
  specialize (Hbal k c). unfold balance, reused_of in Hbal. simpl in *.
  rewrite !wave_sum_empty, lookup_empty in Hbal. simpl in *.
  pose proof (requested_need_nonneg blueprints _ c Hok). case_decide; lia.
Qed.
(** ** Planning ends, and its errors are justified *)

(** A unit of [s] consumes some [c]. *)
Definition uses (s c : string) : Prop :=
  ∃ bp n, blueprints !! s = Some bp ∧ bp_components bp !! c = Some n ∧ 0 < n.

(** What an error of the expansion below device [r] says. *)
Definition explained (r : string) (e : ScheduleError) : Prop :=
  match e with
  | MissingComponentBlueprint d missing => 0 < missing ∧ blueprints !! d = None ∧ tc uses r d
  | ComponentCycle d => tc uses d d ∧ rtc uses r d
  | Overflow => True
  | _ => False
  end.

Lemma components_Err visit factor comps deepest st e :
  schedule_components visit factor comps deepest st = Err e →
  ∃ c n st', (c, n) ∈ comps ∧ visit c (saturating_mul_i64 n factor) st' = Err e.
Proof.
  revert deepest st. induction comps as [|[c n] comps IH]; intros deepest st; [done|].
  cbn [schedule_components]. unfold mbind, result_bind.
  destruct (visit _ _ _) as [[D st1]|e'] eqn:E.
  - intros (c'&n'&st'&Hin&Hv)%IH. exists c', n', st'. split; [by right|done].
  - intros [= <-]. exists c, n, st. split; [by left|done].
Qed.

Lemma add_entry_Err key n m e : add_entry key n m = Err e → e = Overflow.
Proof. unfold add_entry, add_i64, mbind, result_bind. case_decide; [done|by intros [= <-]]. Qed.

Lemma reserve_Err s q st e : reserve s q st = Err e → e = Overflow.
Proof.
  unfold reserve, mbind, result_bind. case_decide; [|done].
  destruct (add_entry _ _ _) eqn:E; [done|]. apply add_entry_Err in E. by intros [= <-].
Qed.

Lemma add_wave_Err depth s n st e : add_wave depth s n st = Err e → e = Overflow.
Proof.
  unfold add_wave, mbind, result_bind.
  destruct (add_entry _ _ _) eqn:E; [done|]. apply add_entry_Err in E. by intros [= <-].
Qed.

Lemma saturating_mul_pos n factor : 0 < factor → 0 < saturating_mul_i64 n factor → 0 < n.
Proof. machine_ints. nia. Qed.

(** The component whose requirement failed is one its parent uses. *)
Lemma components_use visit factor s bp deepest st e :
  blueprints !! s = Some bp → 0 < factor →
  schedule_components visit factor (entries (bp_components bp)) deepest st = Err e →
  ∃ c q st', visit c q st' = Err e ∧ (0 < q → uses s c).
Proof.
  intros Hbp Hf (c&n&st'&Hin%elem_of_entries&Hv)%components_Err.
  exists c, (saturating_mul_i64 n factor), st'. split; [done|].
  intros Hq%saturating_mul_pos; [|done]. by exists bp, n.
Qed.

(** The path from the requested device to the component being visited. *)
Record path (r : string) (visiting : list string) (s : string) (q : Z) : Prop := {
  path_root : r ∈ visiting;
  path_nodup : NoDup visiting;
  path_known : Forall (λ v, is_Some (blueprints !! v)) visiting;
  path_uses : 0 < q → Forall (λ v, tc uses v s) visiting;
  path_from : Forall (λ v, rtc uses r v) visiting;
}.

Lemma path_length r visiting s q : path r visiting s q → (length visiting ≤ size blueprints)%nat.
Proof.
  intros [_ Hnd Hk _ _]. rewrite <-size_dom. rewrite <-(size_list_to_set (C := gset string) visiting) by done.
  apply subseteq_size. intros v Hv%elem_of_list_to_set. rewrite Forall_forall in Hk.
  by apply elem_of_dom, Hk.
Qed.

Lemma path_step r visiting s q c q' :
  path r visiting s q → 0 < q → s ∉ visiting → is_Some (blueprints !! s) →
  (0 < q' → uses s c) → path r (visiting ++ [s]) c q'.
Proof.
  intros [Hr Hnd Hk Hu Hf] Hq Hs Hsk Hsc. specialize (Hu Hq). split.
  - set_solver.
  - apply NoDup_app. split_and!; [done|set_solver|apply NoDup_singleton].
  - apply Forall_app. by split; [|constructor].
  - intros Hq'. specialize (Hsc Hq'). apply Forall_app. split; [|by repeat constructor].
    eapply Forall_impl; [exact Hu|]. intros v Hv. exact (tc_r _ _ _ Hv Hsc).
  - apply Forall_app. split; [done|]. constructor; [|done].
    rewrite Forall_forall in Hu. by apply tc_rtc, Hu.
Qed.

Lemma requirement_Err fuel r visiting s q st e :
  path r visiting s q → (size blueprints < length visiting + fuel)%nat →
  schedule_component_requirement blueprints fuel visiting s q st = Err e → explained r e.
Proof.
  revert visiting s q st. induction fuel as [|fuel IH]; intros visiting s q st Hp Hfuel; simpl.
  { apply path_length in Hp. lia. }
  unfold mbind, result_bind, ok_or.
  case_decide as Hq; [done|]. apply Z.nle_gt in Hq. pose proof (path_uses _ _ _ _ Hp Hq) as Hu.
  rewrite Forall_forall in Hu. case_decide as Hs.
  { intros [= <-]. split; [by apply Hu|]. by apply tc_rtc, Hu, (path_root _ _ _ _ Hp). }
  destruct (reserve s q st) as [[missing st1]|] eqn:Er;
    [|intros [= <-]; by apply reserve_Err in Er as ->].
  destruct (reserve_Ok _ _ _ _ _ Hq Er) as (_&Hm&_).
  case_decide as Hm0; [done|]. destruct (blueprints !! s) as [bp|] eqn:Eb.
  2:{ intros [= <-]. split_and!; [lia|done|]. by apply Hu, (path_root _ _ _ _ Hp). }
  destruct (schedule_components _ _ _ _ _) as [[d st2]|] eqn:Ec.
  { destruct (add_wave _ _ _ _) eqn:Ea; [done|]. intros [= <-]. by apply add_wave_Err in Ea as ->. }
  intros [= <-]. eapply components_use in Ec as (c&q'&st'&Hv&Huse); [|done|lia].
  refine (IH (visiting ++ [s]) c q' st' _ _ Hv); [|rewrite length_app; simpl; lia].
  by apply (path_step _ _ _ q); eauto.
Qed.

Lemma schedule_requests_Err reqs st e :
  Forall (λ e : string * Z, 0 < e.2 ∧ is_Some (blueprints !! e.1)) reqs →
  schedule_requests blueprints reqs st = Err e → ∃ d, d ∈ reqs.*1 ∧ explained d e.
Proof.
  intros Hf. revert st. induction Hf as [|[s q] reqs [Hq [bp Hbp]] _ IH]; intros st; [done|].
  cbn [schedule_requests fst snd] in *. rewrite Hbp. unfold mbind, result_bind, ok_or.
  destruct (schedule_components _ _ _ _ _) as [[D st1]|] eqn:E.
  { intros (d&Hd&He)%IH. exists d. split; [by right|done]. }
  intros [= <-]. exists s. split; [by left|].
  eapply components_use in E as (c&q'&st'&Hv&Huse); [|done..].
  refine (requirement_Err _ s [s] c q' st' _ _ _ Hv); [|simpl; lia]. split.
  - by left.
  - apply NoDup_singleton.
  - constructor; [by exists bp|done].
  - intros Hq'. constructor; [by apply tc_once, Huse|done].
  - by constructor.
Qed.

Lemma normalize_from_Err m requests e :
  normalize_from m requests = Err e →
  match e with
  | InvalidQuantity d q => q ≤ 0 ∧ {| rq_device_type := d; rq_quantity := q |} ∈ requests
  | Overflow => True
  | _ => False
  end.
Proof.
  revert m. induction requests as [|[d q] requests IH]; intros m; [done|]. cbn [normalize_from].
  case_decide; [intros [= <-]; split; [done|by left]|]. unfold mbind, result_bind.
  destruct (add_entry _ _ _) as [m1|e1] eqn:E; [|by intros [= <-]; apply add_entry_Err in E as ->].
  intros He%IH. destruct e; try done. destruct He. split; [done|by right].
Qed.

Lemma check_blueprints_spec reqs :
  match check_blueprints blueprints reqs with
  | Ok _ => Forall (λ e : string * Z, is_Some (blueprints !! e.1)) reqs
  | Err e => ∃ d, e = MissingBlueprint d ∧ d ∈ reqs.*1 ∧ blueprints !! d = None
  end.
Proof.
  induction reqs as [|[d q] reqs IH]; [constructor|]. cbn [check_blueprints].
  unfold mbind, result_bind, ok_or. destruct (blueprints !! d) as [bp|] eqn:E.
  - destruct (check_blueprints _ _); [constructor; [by exists bp|done]|].
    destruct IH as (d'&->&Hd&Hn). exists d'. split_and!; [done|rewrite fmap_cons; by right|done].
  - exists d. split_and!; [done|rewrite fmap_cons; by left|done].
Qed.

(** The requested types are the types of the requests. *)
Lemma requested_types requests m d :
  normalize_requests requests = Ok m → d ∈ (entries m).*1 →
  ∃ r, r ∈ requests ∧ rq_device_type r = d.
Proof.
  intros (Hd&_&Hp)%normalize_requests_Ok ([d' n]&->&Hin%elem_of_entries)%list_elem_of_fmap_1.
  specialize (Hp _ _ Hin). specialize (Hd d'). rewrite Hin in Hd. simpl in *. clear Hin.
  unfold request_total in Hd. subst n. induction requests as [|r requests IH]; [by simpl in Hp|].
  destruct (decide (rq_device_type r = d')) as [|Hne]; [exists r; split; [by left|done]|].
  rewrite fmap_cons in Hp. cbn [foldr] in Hp. rewrite decide_False in Hp by done.
  destruct (IH Hp) as (r'&Hr&Hd). exists r'. split; [by right|done].
Qed.

(** planning always ends with a plan or with an error that names its cause.  A plan
    records the summed quantities of the requests, all positive.  A quantity error names a
    request that is not positive; a missing blueprint is one of a requested type; a missing
    component is one that a requested device depends on, in a positive quantity; and a
    reported cycle is a device that a requested device depends on and that depends on
    itself.  The recursion never runs out of its bound, one more than the blueprints. *)
Theorem print_plan_outcome requests free :
  match plan_print_dependencies blueprints requests free with
  | Ok p =>
      Forall (λ r, 0 < rq_quantity r) requests ∧
      ∀ d, default 0 (requested p !! d) = request_total requests d
  | Err (InvalidQuantity d q) => q ≤ 0 ∧ {| rq_device_type := d; rq_quantity := q |} ∈ requests
  | Err (MissingBlueprint d) =>
      blueprints !! d = None ∧ ∃ r, r ∈ requests ∧ rq_device_type r = d
  | Err (MissingComponentBlueprint d missing) =>
      0 < missing ∧ blueprints !! d = None ∧
      ∃ r, r ∈ requests ∧ tc uses (rq_device_type r) d
  | Err (ComponentCycle d) =>
      tc uses d d ∧ ∃ r, r ∈ requests ∧ rtc uses (rq_device_type r) d
  | Err Overflow => True
  | Err NoAutofactory | Err OutOfFuel => False
  end.
Proof.
  unfold plan_print_dependencies, mbind, result_bind.
  destruct (normalize_requests requests) as [m|e] eqn:En;
    [|apply normalize_from_Err in En; by destruct e].
  pose proof (normalize_requests_Ok _ _ En) as (Hd&Hf&Hp).
  pose proof (check_blueprints_spec (entries m)) as Hc.
  destruct (check_blueprints _ _) as [[]|e].
  2:{ destruct Hc as (d&->&Hin&Hb). split; [done|]. by apply (requested_types _ m). }
  destruct (schedule_requests _ _ _) as [st|e] eqn:Es; [done|].
  apply schedule_requests_Err in Es as (d&Hin&He).
  - destruct (requested_types _ _ _ En Hin) as (r&Hr&<-).
    destruct e; try done; simpl in He; destruct_and?; eauto 6.
  - rewrite Forall_forall in *. intros [d q] Hin. split; [|by apply (Hc _ Hin)].
    apply elem_of_entries in Hin. by apply (Hp _ _ Hin).
Qed.

End Requests.
