(* ===== verification/PrintScheduleFacts.v ===== *)
(** * What a print schedule guarantees

    For [schedule_prints] of [Printing.v]: which factory a unit goes to, that the batches
    print exactly the required quantities, and why scheduling fails. *)

From S2P Require Import Prelude Float64 Printing PrintingFacts.

(** ** Sums over lists *)

Definition sum_by {A} (f : A → Z) (l : list A) : Z := foldr Z.add 0 (f <$> l).

Lemma sum_by_cons {A} (f : A → Z) x l : sum_by f (x :: l) = f x + sum_by f l.
Proof. done. Qed.
Lemma sum_by_app {A} (f : A → Z) l1 l2 : sum_by f (l1 ++ l2) = sum_by f l1 + sum_by f l2.
Proof. unfold sum_by. by rewrite fmap_app, sum_app. Qed.
#[global] Instance sum_by_perm {A} (f : A → Z) : Proper ((≡ₚ) ==> (=)) (sum_by f).
Proof. intros l1 l2 Hl. apply sum_list_perm. by rewrite Hl. Qed.
Lemma sum_by_bind {A B} (f : B → Z) (g : A → list B) l :
  sum_by f (l ≫= g) = sum_by (λ x, sum_by f (g x)) l.
Proof.
  induction l as [|x l IH]; [done|]. rewrite bind_cons, sum_by_app, sum_by_cons. by rewrite IH.
Qed.
Lemma sum_by_entries {A} (f : string → A → Z) (m : gmap string A) :
  sum_by (λ e, f e.1 e.2) (entries m) = map_sum f m.
Proof.
  unfold entries. rewrite sort_by_perm, map_sum_list. unfold sum_by.
  by rewrite (list_fmap_ext (λ e, f e.1 e.2) (uncurry f)) by by intros ? [].
Qed.

(** ** Units *)

Definition unit_count (d : string) (units : list (string * F64.t)) : Z :=
  sum_by (λ u, if decide (u.1 = d) then 1 else 0) units.

Lemma unit_count_replicate d d' t n :
  unit_count d (replicate n (d', t)) = if decide (d' = d) then Z.of_nat n else 0.
Proof.
  unfold unit_count. induction n as [|n IH]; [by case_decide|].
  cbn [replicate]. rewrite sum_by_cons, IH. cbn [fst]. case_decide; lia.
Qed.

(** Every required device has a print time, or its absence is the error. *)
Lemma print_units_spec times required :
  match print_units times required with
  | Ok units => ∀ d, unit_count d units
      = sum_by (λ e, if decide (e.1 = d) then Z.max 0 e.2 else 0) required
  | Err e => ∃ d n, e = MissingBlueprint d ∧ times !! d = None ∧ (d, n) ∈ required ∧ 0 < n
  end.
Proof.
  induction required as [|[d n] required IH]; [done|]. cbn [print_units].
  case_decide as Hn.
  { destruct (print_units times required) as [units|e].
    - intros d'. rewrite IH, sum_by_cons. cbn [fst snd]. case_decide; lia.
    - destruct IH as (d'&n'&->&Ht&Hin&Hpos). exists d', n'. split_and!; [done..|by right|done]. }
  unfold mbind, result_bind, ok_or. destruct (times !! d) as [t|] eqn:Et.
  2:{ exists d, n. split_and!; [done..|by left|lia]. }
  destruct (print_units times required) as [units|e].
  - intros d'. unfold unit_count. rewrite sum_by_app, sum_by_cons.
    fold (unit_count d' (replicate (Z.to_nat n) (d, F64.max t F64.zero))) (unit_count d' units).
    rewrite IH, unit_count_replicate. cbn [fst snd]. case_decide; lia.
  - destruct IH as (d'&n'&->&Ht&Hin&Hpos). exists d', n'. split_and!; [done..|by right|done].
Qed.

(** ** The choice of a factory *)

#[global] Instance by_code_total {A} : TotalLeb (λ a b : string * A, String.leb a.1 b.1).
Proof.
  split; intros; [apply leb_total|by eapply leb_trans].
Qed.
#[global] Instance load_leb_total : TotalLeb load_leb.
Proof. apply (lex_leb_total snd F64.total_leb); apply _. Qed.

(** A unit goes to the factory that is free first, the lower code among equals. *)
Lemma assign_unit_spec u fs :
  match assign_unit u fs with
  | Ok fs' => ∃ f load,
      loads fs !! f = Some load ∧
      (∀ f' load', loads fs !! f' = Some load' → load_leb (f, load) (f', load') = true) ∧
      loads fs' = <[f := F64.add load u.2]> (loads fs) ∧
      assigned fs' = <[f := push_unit u.1 (F64.add load u.2) (default [] (assigned fs !! f))]>
                       (assigned fs)
  | Err e => e = NoAutofactory ∧ loads fs = ∅
  end.
Proof.
  unfold assign_unit, mbind, result_bind, ok_or.
  pose proof (min_by_spec load_leb (entries (loads fs))) as Hm.
  destruct (min_by load_leb (entries (loads fs))) as [[f load]|]; simpl.
  - destruct Hm as [Hin%elem_of_entries Hmin]. exists f, load. rewrite Hin. simpl.
    split_and!; [done| |done..]. intros f' load' H'. apply Hmin. by apply elem_of_entries.
  - split; [done|]. apply map_empty. intros k. destruct (loads fs !! k) eqn:E; [|done].
    apply elem_of_entries in E. rewrite Hm in E. by apply not_elem_of_nil in E.
Qed.

(** ** Queues *)

Definition queued (d : string) (queue : list QueueEntry) : Z :=
  sum_by (λ q, if decide (q.1.1 = d) then q.1.2 else 0) queue.

(** A queue of positive batches, neighbours of different types. *)
Fixpoint queue_ok (queue : list QueueEntry) : Prop :=
  match queue with
  | [] => True
  | q :: queue => 0 < q.1.2 ∧ (∀ q', head queue = Some q' → q.1.1 ≠ q'.1.1) ∧ queue_ok queue
  end.

Lemma push_unit_cons t finish e1 e2 queue :
  push_unit t finish (e1 :: e2 :: queue) = e1 :: push_unit t finish (e2 :: queue).
Proof. by destruct e1 as [[] ?]. Qed.

Lemma push_unit_queued t finish queue d :
  queued d (push_unit t finish queue) = queued d queue + (if decide (t = d) then 1 else 0).
Proof.
  unfold queued. induction queue as [|[[t1 n1] f1] queue IH].
  { cbn [push_unit]. rewrite sum_by_cons. unfold sum_by; simpl. lia. }
  destruct queue as [|e queue]; [cbn [push_unit]|rewrite push_unit_cons].
  - destruct (decide (t1 = t)) as [->|]; rewrite !sum_by_cons; unfold sum_by; simpl;
      repeat case_decide; lia.
  - rewrite !(sum_by_cons _ (t1, n1, f1)), IH. lia.
Qed.

Lemma push_unit_head t finish e queue :
  ∃ n f, head (push_unit t finish (e :: queue)) = Some (e.1.1, n, f).
Proof.
  destruct e as [[t1 n1] f1], queue as [|e' queue]; cbn [push_unit]; [case_decide|]; eauto.
Qed.

Lemma push_unit_ok t finish queue : queue_ok queue → queue_ok (push_unit t finish queue).
Proof.
  induction queue as [|[[t1 n1] f1] queue IH]; [by repeat split|].
  intros (Hn&Hh&Hq). cbn [fst snd] in *. destruct queue as [|e queue]; [cbn [push_unit]|rewrite push_unit_cons].
  - case_decide as Ht; simpl; split_and!; try done; try lia. by intros q' [= <-].
  - destruct (push_unit_head t finish e queue) as (n&f&Hhd). specialize (IH Hq).
    destruct e as [[t2 n2] f2]. split_and!; [done| |done].
    rewrite Hhd. intros q' [= <-]. by apply (Hh _ eq_refl).
Qed.

Lemma queue_ok_lookup queue i q q' :
  queue_ok queue → queue !! i = Some q → queue !! S i = Some q' → q.1.1 ≠ q'.1.1.
Proof.
  revert i. induction queue as [|e queue IH]; intros i; [done|]; intros (Hn&Hh&Hq).
  destruct i as [|i]; simpl.
  - intros [= ->] Hq'. apply Hh. by rewrite <-head_lookup in Hq'.
  - by apply IH.
Qed.

Lemma queue_ok_pos queue i q : queue_ok queue → queue !! i = Some q → 0 < q.1.2.
Proof.
  revert i. induction queue as [|e queue IH]; intros i; [done|]; intros (Hn&Hh&Hq).
  destruct i as [|i]; simpl; [by intros [= ->]|by apply IH].
Qed.

(** ** The assignment of all units *)

Record factories_ok (fs : Factories) : Prop := {
  fo_known f : is_Some (assigned fs !! f) → is_Some (loads fs !! f);
  fo_queue f queue : assigned fs !! f = Some queue → queue_ok queue;
}.

Definition total_queued (d : string) (fs : Factories) : Z :=
  map_sum (λ _ queue, queued d queue) (assigned fs).

Lemma assign_unit_preserves u fs fs' :
  assign_unit u fs = Ok fs' → factories_ok fs →
  factories_ok fs' ∧ dom (loads fs') = dom (loads fs) ∧
  ∀ d, total_queued d fs' = total_queued d fs + (if decide (u.1 = d) then 1 else 0).
Proof.
  intros E [Hk Hq]. pose proof (assign_unit_spec u fs) as Hs. rewrite E in Hs.
  destruct Hs as (f&load&Hl&_&El&Ea). split_and!.
  - split; intros f'; rewrite ?El, Ea; destruct (decide (f = f')) as [<-|].
    + by rewrite !lookup_insert_eq.
    + rewrite !lookup_insert_ne by done. apply Hk.
    + intros queue. rewrite lookup_insert_eq. intros [= <-]. apply push_unit_ok.
      destruct (assigned fs !! f) eqn:Eq; [by apply (Hq _ _ Eq)|done].
    + intros queue. rewrite lookup_insert_ne by done. apply Hq.
  - rewrite El, dom_insert_lookup_L; [done|by rewrite Hl].
  - intros d. unfold total_queued. rewrite Ea, map_sum_update, push_unit_queued.
    destruct (assigned fs !! f); simpl; [lia|]. unfold queued, sum_by; simpl. lia.
Qed.

Lemma assign_units_spec units fs :
  factories_ok fs → loads fs ≠ ∅ →
  ∃ fs', assign_units units fs = Ok fs' ∧ factories_ok fs' ∧ dom (loads fs') = dom (loads fs) ∧
    ∀ d, total_queued d fs' = total_queued d fs + unit_count d units.
Proof.
  revert fs. induction units as [|u units IH]; intros fs Hok Hne; cbn [assign_units].
  { exists fs. split_and!; [done..|]. intros d. unfold unit_count, sum_by; simpl. lia. }
  unfold mbind, result_bind. pose proof (assign_unit_spec u fs) as Hs.
  destruct (assign_unit u fs) as [fs1|] eqn:E; [|by destruct Hs].
  destruct (assign_unit_preserves _ _ _ E Hok) as (Hok1&Hdom&Ht).
  destruct (IH fs1 Hok1) as (fs'&->&Hok'&Hdom'&Ht').
  { intros He. apply Hne, dom_empty_inv_L. by rewrite <-Hdom, He, dom_empty_L. }
  exists fs'. split_and!; [done..|congruence|]. intros d.
  rewrite Ht', Ht. unfold unit_count. rewrite sum_by_cons. lia.
Qed.

(** ** Batches *)

Definition scheduled (d : string) (batches : list PrintBatch) : Z :=
  sum_by (λ b, if decide (pb_device_type b = d) then pb_quantity b else 0) batches.

Lemma factory_batches_scheduled d e : scheduled d (factory_batches e) = queued d e.2.
Proof.
  destruct e as [f queue]. unfold scheduled, queued, sum_by, factory_batches; cbn [fst snd].
  by rewrite fmap_imap, <-imap_const.
Qed.

Lemma elem_of_factory_batches f queue b :
  b ∈ factory_batches (f, queue) ↔
  pb_factory_code b = f ∧
  queue !! pb_sequence b = Some (pb_device_type b, pb_quantity b, pb_projected_finish_seconds b).
Proof.
  unfold factory_batches; cbn [fst snd]. rewrite elem_of_lookup_imap. split.
  - by intros (i&[[t n] fin]&->&Hi).
  - intros [<- Hi]. exists (pb_sequence b), (pb_device_type b, pb_quantity b,
      pb_projected_finish_seconds b). by destruct b.
Qed.

(** A batch is a position of its factory's queue. *)
Lemma elem_of_batches fs b :
  b ∈ entries (assigned fs) ≫= factory_batches ↔
  ∃ queue, assigned fs !! pb_factory_code b = Some queue ∧
    queue !! pb_sequence b = Some (pb_device_type b, pb_quantity b, pb_projected_finish_seconds b).
Proof.
  rewrite list_elem_of_bind. split.
  - intros ([f queue]&[<- Hq]%elem_of_factory_batches&Hin%elem_of_entries). eauto.
  - intros (queue&Hf&Hq). exists (pb_factory_code b, queue).
    by rewrite elem_of_factory_batches, elem_of_entries.
Qed.

#[global] Instance batch_leb_total : TotalLeb batch_leb.
Proof.
  apply (lex_leb_total pb_factory_code String.leb (λ a b, pb_sequence a <=? pb_sequence b)%nat);
    [apply _..|]. split; intros; rewrite ?Nat.leb_le in *; lia.
Qed.

Lemma initial_loads_dom factories f :
  f ∈ dom (initial_loads factories) ↔ f ∈ fw_code <$> factories.
Proof.
  unfold initial_loads. transitivity (f ∈ dom (∅ : gmap string F64.t) ∨ f ∈ fw_code <$> factories);
    [|rewrite dom_empty_L; set_solver].
  generalize (∅ : gmap string F64.t). induction factories as [|w factories IH]; intros m.
  - simpl. set_solver.
  - cbn [foldl]. rewrite IH, dom_insert_L, fmap_cons. set_solver.
Qed.

(** What the batches of a schedule are. *)
Record batches_ok (required : QuantityMap) (factories : list FactoryWorkload)
    (batches : list PrintBatch) : Prop := {
  (** the batches of a type add up to what is required of it *)
  bo_quantity d : scheduled d batches = Z.max 0 (default 0 (required !! d));
  (** each is positive, on one of the factories *)
  bo_positive b : b ∈ batches → 0 < pb_quantity b;
  bo_factory b : b ∈ batches → pb_factory_code b ∈ fw_code <$> factories;
  (** the batches of a factory are numbered from zero, without gap or repetition *)
  bo_numbered b i : b ∈ batches → (i < pb_sequence b)%nat →
    ∃ b', b' ∈ batches ∧ pb_factory_code b' = pb_factory_code b ∧ pb_sequence b' = i;
  bo_unique b b' : b ∈ batches → b' ∈ batches → pb_factory_code b = pb_factory_code b' →
    pb_sequence b = pb_sequence b' → b = b';
  (** consecutive batches are of different types *)
  bo_adjacent b b' : b ∈ batches → b' ∈ batches → pb_factory_code b = pb_factory_code b' →
    pb_sequence b' = S (pb_sequence b) → pb_device_type b ≠ pb_device_type b';
  (** in the order of factories and sequence numbers *)
  bo_sorted : StronglySorted (λ b b', batch_leb b b' = true) batches;
}.

Lemma assigned_batches_ok required factories fs :
  factories_ok fs → (∀ f, f ∈ dom (loads fs) → f ∈ fw_code <$> factories) →
  (∀ d, total_queued d fs = Z.max 0 (default 0 (required !! d))) →
  batches_ok required factories (sort_by batch_leb (entries (assigned fs) ≫= factory_batches)).
Proof.
  intros [Hk Hq] Hf Ht.
  split; try setoid_rewrite elem_of_sort_by; try setoid_rewrite elem_of_batches.
  - intros d. rewrite <-Ht. unfold scheduled, total_queued. rewrite sort_by_perm, sum_by_bind.
    rewrite <-sum_by_entries. unfold sum_by at 1 3. f_equal. apply list_fmap_ext.
    intros i e _. apply factory_batches_scheduled.
  - intros b (queue&Ha&Hb). by apply (queue_ok_pos _ _ _ (Hq _ _ Ha) Hb).
  - intros b (queue&Ha&Hb). by apply Hf, elem_of_dom, Hk.
  - intros b i (queue&Ha&Hb) Hi.
    destruct (lookup_lt_is_Some_2 queue i) as [[[t n] fin] Hi'].
    { apply lookup_lt_Some in Hb. lia. }
    exists {| pb_factory_code := pb_factory_code b; pb_device_type := t; pb_quantity := n;
      pb_sequence := i; pb_projected_finish_seconds := fin |}. eauto.
  - intros b b' (queue&Ha&Hb) (queue'&Ha'&Hb') Ef Es. rewrite Ef, Ha' in Ha. simplify_eq.
    rewrite Es, Hb' in Hb. destruct b, b'; simpl in *. by simplify_eq.
  - intros b b' (queue&Ha&Hb) (queue'&Ha'&Hb') Ef Es. rewrite Ef, Ha' in Ha. simplify_eq.
    rewrite Es in Hb'. exact (queue_ok_lookup _ _ _ _ (Hq _ _ Ha') Hb Hb').
  - by apply StronglySorted_sort_by, _.
Qed.

Lemma forallb_nonpos required :
  forallb (λ e : string * Z, bool_decide (e.2 ≤ 0)) (entries required) = true →
  ∀ d, Z.max 0 (default 0 (required !! d)) = 0.
Proof.
  rewrite forallb_forall. intros Hall d. destruct (required !! d) as [n|] eqn:E; [|done].
  apply elem_of_entries, list_elem_of_In, Hall, bool_decide_eq_true in E. simpl in *. lia.
Qed.

Lemma forallb_false_elem {A} (f : A → bool) l : forallb f l = false → ∃ x, x ∈ l ∧ f x = false.
Proof.
  induction l as [|x l IH]; simpl; [done|]. destruct (f x) eqn:E; simpl.
  - intros (y&Hy&?)%IH. exists y. split; [by right|done].
  - intros _. exists x. split; [by left|done].
Qed.

Lemma forallb_pos required :
  forallb (λ e : string * Z, bool_decide (e.2 ≤ 0)) (entries required) = false →
  ∃ d n, required !! d = Some n ∧ 0 < n.
Proof.
  intros ([d n]&Hin&Hn)%forallb_false_elem. exists d, n. apply elem_of_entries in Hin.
  apply bool_decide_eq_false in Hn. simpl in Hn. split; [done|lia].
Qed.

Lemma nothing_required_ok required factories :
  (∀ d, Z.max 0 (default 0 (required !! d)) = 0) → batches_ok required factories [].
Proof.
  intros Hd. split; try (intros * Hb; by apply not_elem_of_nil in Hb).
  - intros d. by rewrite Hd.
  - constructor.
Qed.

Lemma required_total required d :
  sum_by (λ e : string * Z, if decide (e.1 = d) then Z.max 0 e.2 else 0) (entries required)
  = Z.max 0 (default 0 (required !! d)).
Proof.
  destruct (entries_map required) as [Hnd Hm]. unfold sum_by.
  by rewrite (sum_at _ (Z.max 0)), Hm.
Qed.

(** scheduling gives batches that print exactly what is required of every type:
    positive batches on the given factories, numbered from zero in each factory without gap
    or repetition, neighbours of different types, in order.  It fails only when something
    is required and there is no factory or no print time for a required type. *)
Theorem schedule_prints_outcome required times factories :
  match schedule_prints required times factories with
  | Ok schedule => batches_ok required factories (sc_batches schedule)
  | Err NoAutofactory => factories = [] ∧ ∃ d n, required !! d = Some n ∧ 0 < n
  | Err (MissingBlueprint d) => times !! d = None ∧ ∃ n, required !! d = Some n ∧ 0 < n
  | Err _ => False
  end.
Proof.
  unfold schedule_prints. destruct (forallb _ _) eqn:Eall.
  { by apply nothing_required_ok, forallb_nonpos. }
  apply forallb_pos in Eall. destruct factories as [|w factories]; [done|].
  set (ws := w :: factories). unfold mbind, result_bind.
  pose proof (print_units_spec times (entries required)) as Hu.
  destruct (print_units times (entries required)) as [units|e].
  2:{ destruct Hu as (d&n&->&Ht&Hin%elem_of_entries&Hpos). eauto. }
  destruct (assign_units_spec (sort_by unit_leb units)
    {| loads := initial_loads ws; assigned := ∅ |}) as (fs&->&Hok&Hdom&Hq).
  - split; simpl; intros f; rewrite lookup_empty; [by intros []|done].
  - intros He. assert (Hw : fw_code w ∈ dom (initial_loads ws))
      by (apply initial_loads_dom, list_elem_of_fmap_2; by left).
    simpl in He. rewrite He, dom_empty_L in Hw. set_solver.
  - apply assigned_batches_ok; [done|..].
    + intros f. rewrite Hdom. apply initial_loads_dom.
    + intros d. rewrite Hq. unfold total_queued, unit_count. cbn [assigned].
      rewrite sort_by_perm, map_sum_empty. fold (unit_count d units). rewrite Hu.
      by rewrite required_total.
Qed.
