(* ===== verification/Scheduler.v ===== *)
(** * The automation scheduler

    [crates/replicant-runtime/src/scheduler.rs]: deadlines from buffer observations,
    the components of the resource-flow graph, the distribution of workers over
    campaigns (floors first, then elastic grants, then hysteresis), and the demand
    derived from the durable work items. *)

From S2P Require Import Prelude Float64 Model Store Claims WorkItems WorkItemFacts Lifecycle.
From S2P Require Import Automation.

(** ** Declarations *)

Inductive LatenessCost :=
| Total (loss_units : F64.t)
| Rate (loss_units_per_hour : F64.t).

Definition one_hour_loss (self : LatenessCost) : F64.t :=
  F64.max (match self with Total loss_units => loss_units | Rate loss => loss end) F64.zero.

Record AutomationDeclaration := {
  de_key : string;
  de_produces : list string;
  de_consumes : list string;
  de_one_worker_floor : Z;      (* u32 *)
  de_lateness_cost : LatenessCost;
}.

Definition declaration (key : string) (produces consumes : list string) (cost : LatenessCost)
  : AutomationDeclaration :=
  {| de_key := key; de_produces := produces; de_consumes := consumes;
     de_one_worker_floor := 1; de_lateness_cost := cost |}.

Definition automation_declarations : list AutomationDeclaration :=
  let cost := Rate (F64.of_Z 1) in
  [ declaration "belt_search" ["known_unexploited_belts"] [] cost;
    declaration "mining.expansion" ["resource_flow"]
      ["known_unexploited_belts"; "devices"; "reachability"] cost;
    declaration "printing" ["devices"] ["resource_flow"] cost;
    declaration "event.campaign" [] ["resource_flow"; "devices"; "reachability"] cost;
    declaration "survey" ["scanned_bodies"; "salvage_sites"] ["reachability"] cost;
    declaration "salvage.recovery" ["resource_flow"] ["salvage_sites"; "reachability"] cost;
    declaration "relay.expansion" ["reachability"] [] cost ].

Record BufferObservation := {
  bu_resource : string;
  bu_buffer : F64.t;
  bu_burn_rate_per_hour : F64.t;
  bu_observed_at_ms : Z;
}.

(** [BufferObservation::deadline_at_ms] *)
Definition deadline_at_ms (self : BufferObservation) : option Z :=
  if negb (F64.is_finite (bu_buffer self)) || negb (F64.is_finite (bu_burn_rate_per_hour self))
     || F64.ltb (bu_buffer self) F64.zero || F64.ltb (bu_burn_rate_per_hour self) F64.zero
  then None
  else if F64.eqb (bu_buffer self) F64.zero then Some (bu_observed_at_ms self)
  else if F64.eqb (bu_burn_rate_per_hour self) F64.zero then None
  else
    let millis := F64.mul (F64.div (bu_buffer self) (bu_burn_rate_per_hour self))
                    (F64.of_Z 3600000) in
    if F64.ltb millis (F64.of_Z i64_max)
    then Some (saturating_add_i64 (bu_observed_at_ms self) (F64.round_Z millis))
    else None.

Record AutomationDemand := {
  dm_automation : string;
  dm_campaign : string;
  dm_item : option string;
  dm_runnable_items : Z;        (* u32 *)
  dm_eligible_workers : Z;
  dm_current_grants : Z;
  dm_enabled : bool;
  dm_explicit_deadline_at_ms : option Z;
}.

Inductive ScheduleAction := Hold | Grant | Reclaim | GrowWorkforce | Idle.
#[global] Instance ScheduleAction_eq : EqDecision ScheduleAction.
Proof. solve_decision. Defined.

Record ScheduleDecision := {
  sd_automation : string;
  sd_campaign : string;
  sd_item : option string;
  sd_buffer : option F64.t;
  sd_burn_rate_per_hour : option F64.t;
  sd_deadline_at_ms : option Z;
  sd_loss_over_one_hour : F64.t;
  sd_lateness_cost : LatenessCost;
  sd_floor : Z;
  sd_ceiling : Z;
  sd_current_grants : Z;
  sd_target_grants : Z;
  sd_urgency : F64.t;
  sd_component : Z;             (* usize *)
  sd_hysteresis_ratio : option F64.t;
  sd_action : ScheduleAction;
  sd_reasons : list string;
  sd_counts : option Z * option Z * option Z * option Z;
    (* discovery_count, depleted_count, ledger_count, worklist_count *)
}.

(** Assignments to single fields. *)
Definition set_target (target : Z) (d : ScheduleDecision) : ScheduleDecision :=
  {| sd_automation := sd_automation d; sd_campaign := sd_campaign d; sd_item := sd_item d;
     sd_buffer := sd_buffer d; sd_burn_rate_per_hour := sd_burn_rate_per_hour d;
     sd_deadline_at_ms := sd_deadline_at_ms d; sd_loss_over_one_hour := sd_loss_over_one_hour d;
     sd_lateness_cost := sd_lateness_cost d; sd_floor := sd_floor d; sd_ceiling := sd_ceiling d;
     sd_current_grants := sd_current_grants d; sd_target_grants := target;
     sd_urgency := sd_urgency d; sd_component := sd_component d;
     sd_hysteresis_ratio := sd_hysteresis_ratio d; sd_action := sd_action d;
     sd_reasons := sd_reasons d; sd_counts := sd_counts d |}.
Definition set_action (action : ScheduleAction) (reasons : list string) (d : ScheduleDecision)
  : ScheduleDecision :=
  {| sd_automation := sd_automation d; sd_campaign := sd_campaign d; sd_item := sd_item d;
     sd_buffer := sd_buffer d; sd_burn_rate_per_hour := sd_burn_rate_per_hour d;
     sd_deadline_at_ms := sd_deadline_at_ms d; sd_loss_over_one_hour := sd_loss_over_one_hour d;
     sd_lateness_cost := sd_lateness_cost d; sd_floor := sd_floor d; sd_ceiling := sd_ceiling d;
     sd_current_grants := sd_current_grants d; sd_target_grants := sd_target_grants d;
     sd_urgency := sd_urgency d; sd_component := sd_component d;
     sd_hysteresis_ratio := sd_hysteresis_ratio d; sd_action := action;
     sd_reasons := sd_reasons d ++ reasons; sd_counts := sd_counts d |}.
Definition set_ratio (ratio : F64.t) (d : ScheduleDecision) : ScheduleDecision :=
  {| sd_automation := sd_automation d; sd_campaign := sd_campaign d; sd_item := sd_item d;
     sd_buffer := sd_buffer d; sd_burn_rate_per_hour := sd_burn_rate_per_hour d;
     sd_deadline_at_ms := sd_deadline_at_ms d; sd_loss_over_one_hour := sd_loss_over_one_hour d;
     sd_lateness_cost := sd_lateness_cost d; sd_floor := sd_floor d; sd_ceiling := sd_ceiling d;
     sd_current_grants := sd_current_grants d; sd_target_grants := sd_target_grants d;
     sd_urgency := sd_urgency d; sd_component := sd_component d;
     sd_hysteresis_ratio := Some ratio; sd_action := sd_action d;
     sd_reasons := sd_reasons d; sd_counts := sd_counts d |}.
Definition set_counts (counts : option Z * option Z * option Z * option Z) (d : ScheduleDecision)
  : ScheduleDecision :=
  {| sd_automation := sd_automation d; sd_campaign := sd_campaign d; sd_item := sd_item d;
     sd_buffer := sd_buffer d; sd_burn_rate_per_hour := sd_burn_rate_per_hour d;
     sd_deadline_at_ms := sd_deadline_at_ms d; sd_loss_over_one_hour := sd_loss_over_one_hour d;
     sd_lateness_cost := sd_lateness_cost d; sd_floor := sd_floor d; sd_ceiling := sd_ceiling d;
     sd_current_grants := sd_current_grants d; sd_target_grants := sd_target_grants d;
     sd_urgency := sd_urgency d; sd_component := sd_component d;
     sd_hysteresis_ratio := sd_hysteresis_ratio d; sd_action := sd_action d;
     sd_reasons := sd_reasons d; sd_counts := counts |}.

(** [urgency] *)
Definition urgency (now_ms : Z) (deadline : option Z) (cost : LatenessCost) : F64.t :=
  match deadline with
  | None => F64.zero
  | Some deadline =>
      let slack_hours :=
        F64.max (F64.div (F64.of_Z (saturating_sub_i64 deadline now_ms)) (F64.of_Z 3600000))
          (F64.div (F64.of_Z 1) (F64.of_Z 60)) in
      F64.div (one_hour_loss cost) slack_hours
  end.

(** ** The resource-flow graph *)

Abbreviation Graph := (gmap string (gset string)).

(** The iteration of a [BTreeSet], and of the keys of a [BTreeMap]. *)
Definition ordered (s : gset string) : list string := sort_by String.leb (elements s).
Definition keys {A} (m : gmap string A) : list string := sort_by String.leb (elements (dom m)).

(** The keys of the declarations that produce each resource. *)
Definition producers (declarations : list AutomationDeclaration) : gmap string (list string) :=
  foldl (λ m declaration, foldl (λ m resource,
      <[resource := default [] (m !! resource) ++ [de_key declaration]]> m)
    m (de_produces declaration)) ∅ declarations.

(** [edges.entry(producer).or_default().insert(consumer)] *)
Definition add_edge (producer consumer : string) (edges : Graph) : Graph :=
  <[producer := {[consumer]} ∪ default ∅ (edges !! producer)]> edges.

(** Every key, without edges. *)
Definition flow_nodes (declarations : list AutomationDeclaration) : Graph :=
  foldl (λ edges declaration, <[de_key declaration := ∅]> edges) ∅ declarations.

Definition flow_edges (declarations : list AutomationDeclaration) : Graph :=
  foldl (λ edges consumer, foldl (λ edges resource,
      foldl (λ edges producer, add_edge producer (de_key consumer) edges)
        edges (default [] (producers declarations !! resource)))
    edges (de_consumes consumer))
    (flow_nodes declarations) declarations.

(** The search from one node; the head of [stack] is the top. *)
Fixpoint search (edges : Graph) (fuel : nat) (reached : gset string) (stack : list string)
  : option (gset string) :=
  match stack with
  | [] => Some reached
  | node :: stack =>
      match fuel with
      | O => None
      | S fuel =>
          if decide (node ∈ reached) then search edges fuel reached stack
          else search edges fuel ({[node]} ∪ reached)
                 (reverse (ordered (default ∅ (edges !! node))) ++ stack)
      end
  end.

(** Every push is an edge of a node reached for the first time, or the start. *)
Definition search_fuel (edges : Graph) : nat :=
  S (map_fold (λ _ s n, size s + n)%nat O edges).

Fixpoint reachable_from (edges : Graph) (keys : list string) (reachable : gmap string (gset string))
  : option (gmap string (gset string)) :=
  match keys with
  | [] => Some reachable
  | key :: keys =>
      reached ← search edges (search_fuel edges) ∅ [key];
      reachable_from edges keys (<[key := reached]> reachable)
  end.

Definition mutually (reachable : gmap string (gset string)) (key other : string) : bool :=
  bool_decide (other ∈ default ∅ (reachable !! key))
  && bool_decide (key ∈ default ∅ (reachable !! other)).

(** Labels every key mutually reachable with [key]. *)
Definition label_class (reachable : gmap string (gset string)) (key : string) (component : Z)
    (all : list string) (result : gmap string Z) : gmap string Z :=
  foldl (λ result other, if mutually reachable key other
                         then <[other := component]> result else result) result all.

Fixpoint label_components (reachable : gmap string (gset string)) (all todo : list string)
    (component : Z) (result : gmap string Z) : gmap string Z :=
  match todo with
  | [] => result
  | key :: todo =>
      match result !! key with
      | Some _ => label_components reachable all todo component result
      | None =>
          label_components reachable all todo (component + 1)
            (label_class reachable key component all result)
      end
  end.

(** [strongly_connected_components] *)
Definition strongly_connected_components (declarations : list AutomationDeclaration)
  : option (gmap string Z) :=
  let edges := flow_edges declarations in
  reachable ← reachable_from edges (keys edges) ∅;
  Some (label_components reachable (keys edges) (keys edges) 0 ∅).

(** ** The schedule *)

(** [min_by_key]: the first of the least. *)
Definition min_by_key {A} (key : A → Z) (l : list A) : option A :=
  foldl (λ best x, match best with
    | None => Some x
    | Some y => if decide (key y ≤ key x) then Some y else Some x
    end) None l.

(** [collect::<BTreeMap>]: the last value of a key. *)
Definition by_key {A} (key : A → string) (l : list A) : gmap string A :=
  foldl (λ m x, <[key x := x]> m) ∅ l.

Definition observe_flow (declaration : AutomationDeclaration)
    (observations : gmap string BufferObservation) (now_ms : Z) : option BufferObservation :=
  min_by_key (λ value, default i64_max (deadline_at_ms value))
    (filter (λ value, bu_observed_at_ms value ≤ now_ms ∧
        saturating_sub_i64 now_ms (bu_observed_at_ms value) ≤ 86400000)
      (omap (λ resource, observations !! resource) (de_produces declaration))).

Definition merge_deadline (explicit derived : option Z) : option Z :=
  match explicit, derived with
  | Some explicit, Some derived => Some (Z.min explicit derived)
  | Some explicit, None => Some explicit
  | None, derived => derived
  end.

Definition decide_demand (declaration : AutomationDeclaration)
    (observations : gmap string BufferObservation) (components : gmap string Z) (now_ms : Z)
    (demand : AutomationDemand) : ScheduleDecision :=
  let observed := observe_flow declaration observations now_ms in
  let deadline := merge_deadline (dm_explicit_deadline_at_ms demand) (observed ≫= deadline_at_ms) in
  let floor := if decide (dm_enabled demand = true ∧ dm_runnable_items demand ≠ 0)
               then Z.min (de_one_worker_floor declaration) (dm_runnable_items demand) else 0 in
  let ceiling := Z.min (dm_runnable_items demand) (dm_eligible_workers demand) in
  {| sd_automation := dm_automation demand; sd_campaign := dm_campaign demand;
     sd_item := dm_item demand;
     sd_buffer := bu_buffer <$> observed;
     sd_burn_rate_per_hour := bu_burn_rate_per_hour <$> observed;
     sd_deadline_at_ms := deadline;
     sd_loss_over_one_hour := one_hour_loss (de_lateness_cost declaration);
     sd_lateness_cost := de_lateness_cost declaration;
     sd_floor := floor; sd_ceiling := ceiling;
     sd_current_grants := dm_current_grants demand; sd_target_grants := 0;
     sd_urgency := urgency now_ms deadline (de_lateness_cost declaration);
     sd_component := default usize_max (components !! dm_automation demand);
     sd_hysteresis_ratio := None;
     sd_action := if decide (ceiling = 0) then Idle else Hold;
     sd_reasons :=
       match observed, deadline with
       | None, None =>
           match de_produces declaration with
           | [] => ["deadline observation unavailable; floor only"]
           | produces => (λ resource, (resource +:+ " observation unavailable; floor only")%string)
                           <$> produces
           end
       | _, _ => []
       end;
     sd_counts := (None, None, None, None) |}.

(** [decision_order] *)
Definition decision_leb (left right : ScheduleDecision) : bool :=
  let l := default i64_max (sd_deadline_at_ms left) in
  let r := default i64_max (sd_deadline_at_ms right) in
  if decide (l = r) then
    if decide (sd_urgency left = sd_urgency right)
    then String.leb (sd_automation left) (sd_automation right)
    else F64.total_leb (sd_urgency right) (sd_urgency left)
  else (l <=? r).

(** The indices of the decisions by [decision_order]. *)
Definition decision_order (decisions : list ScheduleDecision) : list nat :=
  fst <$> sort_by (λ a b : nat * ScheduleDecision, decision_leb a.2 b.2) (imap pair decisions).

(** [sum::<u32>()]; [None] is the overflow. *)
Definition sum_u32 (l : list Z) : option Z :=
  let sum := foldr Z.add 0 l in if decide (sum ≤ u32_max) then Some sum else None.

Definition incumbent (d : ScheduleDecision) : ScheduleDecision :=
  set_target (Z.min (sd_current_grants d) (sd_floor d)) d.

(** The loop that fills the floors. *)
Fixpoint fill_floors (order : list nat) (decisions : list ScheduleDecision) (remaining : Z)
  : list ScheduleDecision * Z :=
  match order with
  | [] => (decisions, remaining)
  | index :: order =>
      match decisions !! index with
      | None => fill_floors order decisions remaining
      | Some d =>
          let needed := Z.max 0 (sd_floor d - sd_target_grants d) in
          let grant := Z.min needed remaining in
          let d := set_target (sd_target_grants d + grant) d in
          let d := if decide (sd_target_grants d < sd_floor d)
                   then set_action GrowWorkforce
                          ["runnable floor unmet; incumbent floor grants preserved"] d
                   else d in
          fill_floors order (<[index := d]> decisions) (remaining - grant)
      end
  end.

(** The first index of the order below its ceiling. *)
Definition below_ceiling (decisions : list ScheduleDecision) (index : nat) : bool :=
  match decisions !! index with
  | Some d => (sd_target_grants d <? sd_ceiling d)
  | None => false
  end.

(** [while remaining != 0]: every round spends one. *)
Fixpoint grant_elastic (order : list nat) (remaining : nat) (decisions : list ScheduleDecision)
  : list ScheduleDecision :=
  match remaining with
  | O => decisions
  | S remaining =>
      match List.find (below_ceiling decisions) order with
      | None => decisions
      | Some index =>
          grant_elastic order remaining
            (alter (λ d, set_target (sd_target_grants d + 1) d) index decisions)
      end
  end.

Definition choose_action (d : ScheduleDecision) : ScheduleDecision :=
  if decide (sd_action d = GrowWorkforce) then d
  else if decide (sd_current_grants d < sd_target_grants d) then set_action Grant [] d
  else if decide (sd_target_grants d < sd_current_grants d) then set_action Reclaim [] d
  else set_action (if decide (sd_ceiling d = 0) then Idle else Hold) [] d.

(** [1.25] *)
Definition hysteresis : F64.t := F64.div (F64.of_Z 5) (F64.of_Z 4).

Definition is_donor (recipient donor : ScheduleDecision) : bool :=
  (sd_floor donor <? sd_current_grants donor)
  && F64.geb (sd_urgency recipient) (F64.mul (sd_urgency donor) hysteresis).

(** The index and value of the first donor. *)
Definition find_donor (recipient : ScheduleDecision) (decisions : list ScheduleDecision)
  : option (nat * ScheduleDecision) :=
  head (filter (λ e : nat * ScheduleDecision, is_donor recipient e.2 = true) (imap pair decisions)).

Definition reclaim_for (index : nat) (decisions : list ScheduleDecision) : list ScheduleDecision :=
  match decisions !! index with
  | None => decisions
  | Some recipient =>
      if decide (sd_ceiling recipient ≤ sd_target_grants recipient) then decisions
      else
        match find_donor recipient decisions with
        | None => decisions
        | Some (donor_index, donor) =>
            let ratio := if F64.eqb (sd_urgency donor) F64.zero then F64.infinity
                         else F64.div (sd_urgency recipient) (sd_urgency donor) in
            alter (set_action Reclaim ["recipient urgency exceeded 25% hysteresis"]) donor_index
              (alter (set_ratio ratio) index decisions)
        end
  end.

(** The loop over the demands: one decision for each that is declared. *)
Definition initial_decisions (declarations : list AutomationDeclaration)
    (demands : list AutomationDemand) (buffers : list BufferObservation)
    (components : gmap string Z) (now_ms : Z) : list ScheduleDecision :=
  let declarations_by_key := by_key de_key declarations in
  let observations := by_key bu_resource buffers in
  omap (λ demand,
    (λ declaration, decide_demand declaration observations components now_ms demand) <$>
    declarations_by_key !! dm_automation demand) demands.

(** [schedule]; [None] is an overflow of the sum of the incumbent floors. *)
Definition schedule (declarations : list AutomationDeclaration) (demands : list AutomationDemand)
    (buffers : list BufferObservation) (physical_workers now_ms : Z)
  : option (list ScheduleDecision) :=
  components ← strongly_connected_components declarations;
  let decisions := initial_decisions declarations demands buffers components now_ms in
  let order := decision_order decisions in
  let decisions := incumbent <$> decisions in
  incumbent_floors ← sum_u32 (sd_target_grants <$> decisions);
  let remaining := Z.max 0 (physical_workers - incumbent_floors) in
  let '(decisions, remaining) := fill_floors order decisions remaining in
  let decisions := grant_elastic order (Z.to_nat remaining) decisions in
  let decisions := choose_action <$> decisions in
  let decisions := foldl (flip reclaim_for) decisions order in
  Some (sort_by (λ a b, String.leb (sd_automation a) (sd_automation b)) decisions).

(** ** The demand of durable campaigns *)

(** [candidate_satisfies] *)
Definition candidate_satisfies (candidate : AllocationCandidate) (requirement : ResourceRequirement)
  : bool :=
  bool_decide (ac_kind candidate = rq_kind requirement)
  && forallb (λ required, bool_decide (required ∈ ac_capabilities candidate))
       (rq_capabilities requirement)
  && match rq_scope requirement with
     | Anywhere => true
     | Region region => bool_decide ((ac_location candidate ≫= al_region) = Some region)
     | System system => bool_decide ((ac_location candidate ≫= al_system) = Some system)
     | Location designation =>
         bool_decide ((ac_location candidate ≫= al_designation) = Some designation)
     | WithinLy origin range_ly =>
         match ac_location candidate ≫= (λ location, al_distances_ly location !! origin) with
         | Some distance => F64.leb distance range_ly
         | None => false
         end
     end.

(** [automation_for_workflow_kind] *)
Definition automation_for_workflow_kind (kind : string) : option string :=
  if decide (kind = "belt_search.campaign") then Some "belt_search"
  else if decide (kind = "relay.expansion") then Some "relay.expansion"
  else if decide (kind = "survey.route") then Some "survey"
  else if decide (kind = "mining.expansion") then Some "mining.expansion"
  else if decide (kind = "event.campaign" ∨ kind = "event.fulfillment") then Some "event.campaign"
  else if decide (kind = "salvage.recovery") then Some "salvage.recovery"
  else None.

(** [u32::try_from(n).unwrap_or(u32::MAX)] *)
Definition u32_or_max (n : nat) : Z := default u32_max (u32_try_from (Z.of_nat n)).

Definition is_replicant (r : ResourceKey) : bool := match r with Replicant _ => true | _ => false end.

(** The decoders of [serde_json] and [Uuid] that the scheduler uses. *)
Class SchedulerSerde `{SD : Serde} := {
  uuid_to_string : N → string;
  buffers_from_value : Value → option (list BufferObservation);
  (** [evidence[..].as_u64()] of the four counters *)
  salvage_counts : Value → option Z * option Z * option Z * option Z;
}.

Section RepositorySchedule.
Context `{SS : SchedulerSerde}.

(** A candidate that some requirement of a pending item accepts as a worker. *)
Definition eligible_for (pending : list (N * WorkItem)) (candidate : AllocationCandidate) : bool :=
  existsb (λ item : N * WorkItem,
    match requirements_from_value (sp_requirements_json (it_spec item.2)) with
    | Some requirements => existsb (λ requirement,
        bool_decide (rq_kind requirement = "replicant")
        && candidate_satisfies candidate requirement) requirements
    | None => false
    end) pending.

Definition min_option (l : list Z) : option Z :=
  match l with [] => None | x :: l => Some (foldl Z.min x l) end.

(** The loop body: the demand of one active workflow. *)
Definition workflow_demand (candidates : list AllocationCandidate) (workflow : N * WorkflowInstance)
  : rtx (option AutomationDemand) :=
  match automation_for_workflow_kind (wf_kind workflow.2) with
  | None => mret None
  | Some automation =>
      items ← list_work_items_in workflow.1;
      let pending := filter (λ item : N * WorkItem,
        st_status (it_state item.2) = WorkItemStatus.Pending) items in
      owned ← claims workflow.1;
      mret (Some {|
        dm_automation := automation;
        dm_campaign := uuid_to_string workflow.1;
        dm_item := uuid_to_string ∘ fst <$> head pending;
        dm_runnable_items := u32_or_max (length pending);
        dm_eligible_workers := u32_or_max (length (filter (λ c,
          is_replicant (ac_resource c) = true ∧ eligible_for pending c = true) candidates));
        dm_current_grants := u32_or_max (length (filter (λ c,
          is_replicant (rc_resource c) = true) owned));
        dm_enabled := true;
        dm_explicit_deadline_at_ms := min_option (omap (λ item : N * WorkItem,
          sp_deadline_at_ms (it_spec item.2)) pending) |})
  end.

(** The counters of a salvage campaign. *)
Definition with_evidence (d : ScheduleDecision) : rtx ScheduleDecision :=
  if decide (sd_automation d = "salvage.recovery") then
    evidence ← read_document "automation.scheduler.salvage" (sd_campaign d);
    mret (match evidence with
          | Some (value, _) => set_counts (salvage_counts value) d
          | None => d
          end)
  else mret d.

(** [repository_schedule]; an inner [None] is the overflow of [schedule]. *)
Definition repository_schedule (candidates : list AllocationCandidate)
    (physical_workers now_ms : Z) : rtx (option (list ScheduleDecision)) :=
  document ← read_document "automation.scheduler" "buffers";
  buffers ← lift (match document with
    | None => Ok []
    | Some (value, _) => ok_or (buffers_from_value value) Serialization
    end);
  workflows ← list_active;
  demands ← map_each (workflow_demand candidates) workflows;
  match schedule automation_declarations (omap id demands) buffers physical_workers now_ms with
  | None => mret None
  | Some decisions => decisions ← map_each with_evidence decisions; mret (Some decisions)
  end.

End RepositorySchedule.
