(* ===== verification/SchedulerGraphFacts.v ===== *)
(** * The components of the resource-flow graph

    For [strongly_connected_components] of [Scheduler.v]: the search of every node ends
    within its bound, reaches exactly the nodes a path leads to, and two automations get
    the same component exactly when each reaches the other. *)

From S2P Require Import Prelude Float64 Model Store Claims WorkItems WorkItemFacts Lifecycle.
From S2P Require Import Automation Scheduler.

Lemma elem_of_ordered s x : x ∈ ordered s ↔ x ∈ s.
Proof. unfold ordered. by rewrite elem_of_sort_by, elem_of_elements. Qed.
Lemma elem_of_keys {A} (m : gmap string A) x : x ∈ keys m ↔ x ∈ dom m.
Proof. unfold keys. by rewrite elem_of_sort_by, elem_of_elements. Qed.

(** ** The search *)

Section Search.
Variable edges : Graph.
Implicit Types (reached : gset string) (stack : list string) (n : string).

Definition successors n : gset string := default ∅ (edges !! n).
Definition edge n n' : Prop := n' ∈ successors n.

(** The edges not yet pushed. *)
Definition unseen reached : nat :=
  map_fold (λ n s acc, (if decide (n ∈ reached) then 0 else size s) + acc)%nat O edges.

Lemma unseen_insert reached n :
  n ∉ reached → (unseen ({[n]} ∪ reached) + size (successors n) = unseen reached)%nat.
Proof.
  intros Hn. unfold unseen, successors.
  induction edges as [|k s m Hk IH] using map_ind.
  { rewrite !map_fold_empty, lookup_empty. cbn [default]. rewrite size_empty. done. }
  rewrite !map_fold_insert_L by first [done|intros; repeat case_decide; lia].
  destruct (decide (k = n)) as [->|Hne].
  - rewrite lookup_insert_eq. rewrite Hk in IH. change (size (default ∅ None)) with O in IH.
    rewrite decide_True by set_solver. rewrite decide_False by done. simpl.  lia.
  - rewrite lookup_insert_ne by done. rewrite (decide_ext (k ∈ {[n]} ∪ reached) (k ∈ reached))
      by set_solver. lia.
Qed.

Lemma unseen_empty : (search_fuel edges = S (unseen ∅))%nat.
Proof.
  unfold search_fuel, unseen. f_equal.
Qed.

(** What a search keeps: everything known is reachable, and every successor is known. *)
Record search_inv (start : string) reached stack : Prop := {
  si_sound n : n ∈ reached ∨ n ∈ stack → rtc edge start n;
  si_start : start ∈ reached ∨ start ∈ stack;
  si_closed n n' : n ∈ reached → edge n n' → n' ∈ reached ∨ n' ∈ stack;
}.

Lemma closed_reached start reached :
  start ∈ reached → (∀ n, n ∈ reached → rtc edge start n) →
  (∀ n n', n ∈ reached → edge n n' → n' ∈ reached) → ∀ n, n ∈ reached ↔ rtc edge start n.
Proof.
  intros Hst Hs Hc n. split; [apply Hs|]. revert n. apply rtc_ind_r; [done|]. eauto.
Qed.

Lemma search_spec fuel start reached stack :
  search_inv start reached stack → (length stack + unseen reached ≤ fuel)%nat →
  ∃ r, search edges fuel reached stack = Some r ∧ ∀ n, n ∈ r ↔ rtc edge start n.
Proof.
  revert reached stack. induction fuel as [|fuel IH]; intros reached [|n stack] [Hs Hst Hc] Hf;
    simpl in Hf; try lia; cbn [search].
  1,2: exists reached; split; [done|]; apply (closed_reached start reached); [set_solver..|];
    intros n n' Hr He; by destruct (Hc n n' Hr He) as [|?%not_elem_of_nil].
  case_decide as Hn.
  { apply IH; [split; set_solver|simpl; lia]. }
  apply IH.
  - split.
    + intros n' Hn'. assert (rtc edge start n) by (apply Hs; right; by left).
      rewrite elem_of_union, elem_of_singleton, elem_of_app, elem_of_reverse, elem_of_ordered in Hn'.
      destruct Hn' as [[->|?]|[?|?]]; [done|by auto| |apply Hs; right; by right].
      by eapply rtc_r.
    + set_solver.
    + intros n1 n2 Hn1 He. rewrite elem_of_app, elem_of_reverse, elem_of_ordered.
      apply elem_of_union in Hn1 as [->%elem_of_singleton|Hn1]; [by auto|].
      destruct (Hc _ _ Hn1 He) as [|[->|]%elem_of_cons]; set_solver.
  - rewrite length_app, length_reverse. pose proof (unseen_insert reached n Hn) as Hu.
    unfold successors in Hu. unfold ordered. rewrite sort_by_perm.
    change (length (elements (default ∅ (edges !! n)))) with (size (default ∅ (edges !! n))).
    lia.
Qed.

Lemma search_reaches start :
  ∃ r, search edges (search_fuel edges) ∅ [start] = Some r ∧ ∀ n, n ∈ r ↔ rtc edge start n.
Proof.
  apply search_spec; [|by rewrite unseen_empty].
  split; [|right; by left|set_solver].
  by intros n [Hn|Hn]; [by apply elem_of_empty in Hn|apply list_elem_of_singleton in Hn as ->].
Qed.

Lemma reachable_from_spec l m :
  ∃ r, reachable_from edges l m = Some r ∧
    (∀ k, k ∉ l → r !! k = m !! k) ∧
    ∀ k, k ∈ l → ∃ s, r !! k = Some s ∧ ∀ n, n ∈ s ↔ rtc edge k n.
Proof.
  revert m. induction l as [|k l IH]; intros m; cbn [reachable_from].
  { exists m. split_and!; [done..|set_solver]. }
  destruct (search_reaches k) as (s&->&Hs). cbn [mbind option_bind].
  destruct (IH (<[k := s]> m)) as (r&->&Hout&Hin). exists r. split_and!; [done|..].
  - intros k' Hk'. rewrite Hout by set_solver. rewrite lookup_insert_ne by set_solver. done.
  - intros k' Hk'. destruct (decide (k' ∈ l)) as [|Hn]; [by apply Hin|].
    assert (k' = k) as -> by set_solver. exists s. by rewrite Hout, lookup_insert_eq.
Qed.

End Search.

(** ** The labels *)

Section Label.
Variable reachable : gmap string (gset string).
Variable all : list string.
(** Mutual reachability is an equivalence on the keys. *)
Variable M : string → string → Prop.
Context `{!Equivalence M}.
Hypothesis mutually_M : ∀ k o, k ∈ all → o ∈ all → mutually reachable k o = true ↔ M k o.

Lemma label_class_lookup key component l result o :
  label_class reachable key component l result !! o
  = if bool_decide (o ∈ l) && mutually reachable key o then Some component else result !! o.
Proof.
  unfold label_class. revert result.
  induction l as [|x l IH]; intros result; cbn [foldl]; [done|]. rewrite IH.
  destruct (decide (o = x)) as [->|Hne].
  - rewrite (bool_decide_eq_true_2 (x ∈ x :: l)) by by left. simpl.
    destruct (mutually reachable key x); [by rewrite lookup_insert_eq; case_bool_decide|].
    by rewrite andb_false_r.
  - rewrite (bool_decide_ext (o ∈ x :: l) (o ∈ l)) by set_solver.
    destruct (mutually reachable key x); [by rewrite lookup_insert_ne|done].
Qed.

Record labels (component : Z) (result : gmap string Z) : Prop := {
  la_range k v : result !! k = Some v → k ∈ all ∧ 0 ≤ v < component;
  la_class k k' : k ∈ all → k' ∈ all → M k k' → result !! k = result !! k';
  la_apart k k' v : result !! k = Some v → result !! k' = Some v → M k k';
}.

Lemma labels_step key component result :
  labels component result → 0 ≤ component → key ∈ all → result !! key = None →
  labels (component + 1) (label_class reachable key component all result).
Proof.
  intros [Hr Hc Ha] Hpos Hkey Hnone.
  assert (Hl : ∀ o, (o ∈ all ∧ M key o ∧ label_class reachable key component all result !! o
        = Some component) ∨
      (¬ (o ∈ all ∧ M key o) ∧ label_class reachable key component all result !! o = result !! o)).
  { intros o. rewrite label_class_lookup. case_bool_decide as Ho; simpl; [|right; tauto].
    destruct (mutually reachable key o) eqn:E; [left|right].
    - split_and!; [done| |done]. by apply mutually_M.
    - split; [|done]. intros [_ HM]. apply mutually_M in HM; [congruence|done..]. }
  split.
  - intros k v. destruct (Hl k) as [(Hk&HM&->)|[_ ->]]; [intros [= <-]; split; [done|lia]|].
    intros Hv. destruct (Hr _ _ Hv). split; [done|lia].
  - intros k k' Hk Hk' HM.
    destruct (Hl k) as [(_&HM1&->)|[Hn1 ->]], (Hl k') as [(_&HM2&->)|[Hn2 ->]]; [done|..|by apply Hc].
    + destruct Hn2. split; [done|by etrans].
    + destruct Hn1. split; [done|by etrans].
  - intros k k' v. destruct (Hl k) as [(_&HM1&->)|[_ ->]], (Hl k') as [(_&HM2&->)|[_ ->]].
    + intros _ _. by etrans.
    + intros [= <-] Hv. destruct (Hr _ _ Hv). lia.
    + intros Hv [= <-]. destruct (Hr _ _ Hv). lia.
    + apply Ha.
Qed.

Lemma label_components_spec todo component result :
  labels component result → 0 ≤ component → (∀ k, k ∈ todo → k ∈ all) →
  ∃ c, labels c (label_components reachable all todo component result) ∧
    ∀ k, k ∈ todo ∨ is_Some (result !! k) →
      is_Some (label_components reachable all todo component result !! k).
Proof.
  revert component result. induction todo as [|key todo IH]; intros component result Hl Hpos Hall;
    cbn [label_components].
  { exists component. split; [done|]. by intros k [?%not_elem_of_nil|]. }
  destruct (result !! key) as [v|] eqn:E.
  - destruct (IH component result) as (c&Hc&Hd); [done..|set_solver|]. exists c. split; [done|].
    intros k [[->|]%elem_of_cons|]; eauto.
  - assert (Hkey : key ∈ all) by (apply Hall; by left).
    destruct (IH (component + 1) (label_class reachable key component all result))
      as (c&Hc&Hd); [by apply labels_step|lia|set_solver|]. exists c. split; [done|].
    intros k Hk. apply Hd. rewrite label_class_lookup.
    destruct (bool_decide (k ∈ all) && mutually reachable key k) eqn:Em; [by eauto|].
    destruct Hk as [[->|]%elem_of_cons|]; [|by auto..].
    rewrite bool_decide_eq_true_2 in Em by done. simpl in Em.
    assert (HM : M key key) by done. apply mutually_M in HM; [congruence|done..].
Qed.
End Label.

(** ** The graph of a list of declarations *)

Section Flow.
Variable declarations : list AutomationDeclaration.

Definition declared (k : string) : Prop := ∃ d, d ∈ declarations ∧ de_key d = k.

(** [p] produces something that [c] consumes. *)
Definition feeds (p c : string) : Prop :=
  ∃ dp dc r, dp ∈ declarations ∧ dc ∈ declarations ∧ de_key dp = p ∧ de_key dc = c ∧
    r ∈ de_produces dp ∧ r ∈ de_consumes dc.

(** A fold that adds facts adds those of every element. *)
Lemma foldl_adds {A B C} (f : A → B → A) (has : A → C → Prop) (new : B → C → Prop) l a c :
  (∀ a b, b ∈ l → has (f a b) c ↔ has a c ∨ new b c) →
  has (foldl f a l) c ↔ has a c ∨ ∃ b, b ∈ l ∧ new b c.
Proof.
  revert a. induction l as [|b l IH]; intros a Hf; cbn [foldl].
  { split; [by auto|]. by intros [|(b&?%not_elem_of_nil&_)]. }
  rewrite IH by (intros a' b' Hb; apply Hf; by right). rewrite Hf by by left. split.
  - intros [[|]|(b'&?&?)]; [by auto|right; exists b; split; [by left|done]|].
    right. exists b'. split; [by right|done].
  - intros [|(b'&[->|]%elem_of_cons&?)]; eauto.
Qed.

Lemma producers_spec r p :
  p ∈ default [] (producers declarations !! r) ↔
  ∃ d, d ∈ declarations ∧ r ∈ de_produces d ∧ de_key d = p.
Proof.
  unfold producers.
  rewrite (foldl_adds _ (λ m (c : string * string), c.1 ∈ default [] (m !! c.2))
    (λ d c, c.2 ∈ de_produces d ∧ de_key d = c.1) _ _ (p, r)).
  { rewrite lookup_empty. simpl. split; [|by auto]. by intros [?%not_elem_of_nil|]. }
  intros m d _. cbn [fst snd].
  rewrite (foldl_adds _ (λ m (c : string * string), c.1 ∈ default [] (m !! c.2))
    (λ r' c, c.2 = r' ∧ de_key d = c.1) _ _ (p, r)).
  { cbn [fst snd]. split; [|naive_solver]. intros [|(r'&?&->&?)]; auto. }
  intros m' r' _. cbn [fst snd]. destruct (decide (r = r')) as [->|Hne].
  - rewrite lookup_insert_eq. simpl. rewrite elem_of_app, list_elem_of_singleton. naive_solver.
  - rewrite lookup_insert_ne by done. naive_solver.
Qed.

Lemma add_edge_spec p c g p' c' :
  (c' ∈ default ∅ (add_edge p c g !! p')) ↔ (c' ∈ default ∅ (g !! p')) ∨ (p' = p ∧ c' = c).
Proof.
  unfold add_edge. destruct (decide (p = p')) as [<-|].
  - rewrite lookup_insert_eq. simpl. set_solver.
  - rewrite lookup_insert_ne by done. naive_solver.
Qed.

Definition has_edge (g : Graph) (e : string * string) : Prop := e.2 ∈ default ∅ (g !! e.1).

Lemma flow_nodes_empty : map_Forall (λ _ s, s = ∅) (flow_nodes declarations).
Proof.
  unfold flow_nodes. assert (He : map_Forall (λ _ s, s = ∅) (∅ : Graph)) by apply map_Forall_empty.
  revert He. generalize (∅ : Graph).
  induction declarations as [|d l IH]; intros g Hg; cbn [foldl]; [done|].
  by apply IH, map_Forall_insert_2.
Qed.

Lemma flow_nodes_no_edge e : ¬ has_edge (flow_nodes declarations) e.
Proof.
  unfold has_edge. destruct (flow_nodes declarations !! e.1) as [s|] eqn:E; [|set_solver].
  apply flow_nodes_empty in E. simpl. set_solver.
Qed.

(** What one consumer adds to the graph. *)
Definition consumer_edges (consumer : AutomationDeclaration) (g : Graph) : Graph :=
  foldl (λ edges resource,
    foldl (λ edges producer, add_edge producer (de_key consumer) edges)
      edges (default [] (producers declarations !! resource))) g (de_consumes consumer).

Lemma consumer_edges_spec consumer g e :
  has_edge (consumer_edges consumer g) e ↔
  has_edge g e ∨ (e.2 = de_key consumer ∧ ∃ r, r ∈ de_consumes consumer ∧
    e.1 ∈ default [] (producers declarations !! r)).
Proof.
  unfold consumer_edges. rewrite (foldl_adds _ has_edge
    (λ r e, e.2 = de_key consumer ∧ e.1 ∈ default [] (producers declarations !! r))).
  { naive_solver. }
  intros g' r _. rewrite (foldl_adds _ has_edge (λ p e, e.1 = p ∧ e.2 = de_key consumer)).
  { naive_solver. }
  intros g'' p _. unfold has_edge. rewrite add_edge_spec. naive_solver.
Qed.

Lemma consumer_edges_nodes consumer g k :
  is_Some (consumer_edges consumer g !! k) ↔
  is_Some (g !! k) ∨ ∃ r, r ∈ de_consumes consumer ∧ k ∈ default [] (producers declarations !! r).
Proof.
  unfold consumer_edges. rewrite (foldl_adds _ (λ (g : Graph) k, is_Some (g !! k))
    (λ r k, k ∈ default [] (producers declarations !! r))); [done|].
  intros g' r _. rewrite (foldl_adds _ (λ (g : Graph) k, is_Some (g !! k)) (λ p k, k = p)).
  { naive_solver. }
  intros g'' p _. unfold add_edge. rewrite lookup_insert_is_Some'. naive_solver.
Qed.

Lemma flow_edges_edge p c : edge (flow_edges declarations) p c ↔ feeds p c.
Proof.
  change (edge (flow_edges declarations) p c) with (has_edge (flow_edges declarations) (p, c)).
  unfold flow_edges. rewrite (foldl_adds _ has_edge (λ d e, e.2 = de_key d ∧
    ∃ r, r ∈ de_consumes d ∧ e.1 ∈ default [] (producers declarations !! r))).
  - setoid_rewrite producers_spec. unfold feeds. cbn [fst snd]. split; [|naive_solver].
    intros [He|(d&Hd&->&r&Hr&dp&Hdp&Hp&<-)]; [by apply flow_nodes_no_edge in He|].
    by exists dp, d, r.
  - intros g d _. apply (consumer_edges_spec d).
Qed.

Lemma flow_edges_nodes k : k ∈ keys (flow_edges declarations) ↔ declared k.
Proof.
  rewrite elem_of_keys, elem_of_dom. unfold flow_edges.
  rewrite (foldl_adds _ (λ (g : Graph) k, is_Some (g !! k)) (λ d k,
    ∃ r, r ∈ de_consumes d ∧ k ∈ default [] (producers declarations !! r))).
  2:{ intros g d _. apply (consumer_edges_nodes d). }
  unfold flow_nodes.
  rewrite (foldl_adds _ (λ (g : Graph) k, is_Some (g !! k)) (λ d k, de_key d = k)).
  2:{ intros g d _. rewrite lookup_insert_is_Some'. naive_solver. }
  rewrite lookup_empty. setoid_rewrite producers_spec. unfold declared. split.
  - intros [[[? [=]]|]|]; naive_solver.
  - naive_solver.
Qed.

(** Mutual reachability along the resource flow. *)
Definition mutually_feeds (k k' : string) : Prop := rtc feeds k k' ∧ rtc feeds k' k.

#[global] Instance mutually_feeds_equivalence : Equivalence mutually_feeds.
Proof.
  split.
  - intros k. by split.
  - by intros k k' [].
  - intros k k' k'' [] []. split; by etrans.
Qed.

Lemma rtc_edge k k' : rtc (edge (flow_edges declarations)) k k' ↔ rtc feeds k k'.
Proof.
  split; (induction 1; [done|]; eapply rtc_l; [|done]); by apply flow_edges_edge.
Qed.

Lemma components_exist : ∃ components, strongly_connected_components declarations = Some components.
Proof.
  unfold strongly_connected_components.
  destruct (reachable_from_spec (flow_edges declarations) (keys (flow_edges declarations)) ∅)
    as (reachable&->&_). eauto.
Qed.

(** the components of the resource-flow graph are computed without running out of the
    search bound; every declared automation gets one, nothing else does, and two
    automations get the same component exactly when each feeds the other, directly or
    through other automations. *)
Theorem components_are_mutual_reachability :
  ∃ components, strongly_connected_components declarations = Some components ∧
    (∀ k, is_Some (components !! k) ↔ declared k) ∧
    ∀ k k', declared k → declared k' →
      components !! k = components !! k' ↔ mutually_feeds k k'.
Proof.
  unfold strongly_connected_components.
  destruct (reachable_from_spec (flow_edges declarations) (keys (flow_edges declarations)) ∅)
    as (reachable&->&_&Hr). cbn [mbind option_bind].
  assert (HM : ∀ k o, k ∈ keys (flow_edges declarations) → o ∈ keys (flow_edges declarations) →
    mutually reachable k o = true ↔ mutually_feeds k o).
  { intros k o Hk Ho. unfold mutually, mutually_feeds. rewrite andb_true_iff, !bool_decide_eq_true.
    destruct (Hr k Hk) as (sk&->&Hsk), (Hr o Ho) as (so&->&Hso). simpl.
    by rewrite Hsk, Hso, !rtc_edge. }
  destruct (label_components_spec _ _ _ HM (keys (flow_edges declarations)) 0 ∅)
    as (c&[Hrange Hclass Happart]&Hsome); [split; by intros *; rewrite ?lookup_empty|done|done|].
  eexists. split; [done|]. setoid_rewrite <-flow_edges_nodes. split.
  - intros k. split; [|by auto]. intros [v Hv]. by apply Hrange in Hv as [].
  - intros k k' Hk Hk'. split; [|by apply Hclass]. intros He.
    destruct (Hsome k (or_introl Hk)) as [v Hv]. by apply (Happart k k' v); [|rewrite <-He].
Qed.
End Flow.
