(* ===== verification/SchedulerFacts.v ===== *)
(** * What the automation schedule guarantees

    For [schedule] of [Scheduler.v]: the budget of workers, the preservation of incumbent
    floors, floors before elastic grants, the priority by deadline and urgency, and the
    actions; and how the scheduler's eligibility test compares with the broker's. *)

From S2P Require Import Prelude Float64 Model Store Claims WorkItems WorkItemFacts Lifecycle.
From S2P Require Import Automation Allocation Scheduler SchedulerGraphFacts.

(** ** Decisions and their sums *)

Implicit Types (d : ScheduleDecision) (ds : list ScheduleDecision) (order : list nat).

Definition total_grants ds : Z := foldr Z.add 0 (sd_target_grants <$> ds).

(** The fields the distribution reads and never writes. *)
Definition core d : string * string * Z * Z * Z * F64.t * option Z :=
  (sd_automation d, sd_campaign d, sd_floor d, sd_ceiling d, sd_current_grants d,
   sd_urgency d, sd_deadline_at_ms d).

Definition same_core d d' : Prop := core d = core d'.

Lemma same_core_fields d d' :
  same_core d d' → sd_floor d = sd_floor d' ∧ sd_ceiling d = sd_ceiling d' ∧
    sd_current_grants d = sd_current_grants d' ∧ ∀ e, decision_leb d e = decision_leb d' e ∧
    decision_leb e d = decision_leb e d'.
Proof.
  unfold same_core, core. intros [= ]. split_and!; [done..|]. intros e. unfold decision_leb.
  by repeat match goal with H : _ = _ |- _ => rewrite H; clear H end.
Qed.

Lemma total_insert ds i d d' :
  ds !! i = Some d →
  total_grants (<[i := d']> ds) = total_grants ds + sd_target_grants d' - sd_target_grants d.
Proof.
  revert i. induction ds as [|e ds IH]; intros [|i] Hi; simplify_eq/=; unfold total_grants in *.
  - simpl. lia.
  - rewrite !fmap_cons. cbn [foldr]. rewrite IH by done. lia.
Qed.

Lemma alter_insert {A} (f : A → A) (l : list A) i x : l !! i = Some x → alter f i l = <[i := f x]> l.
Proof. revert i. induction l as [|y l IH]; intros [|i] Hi; simplify_eq/=; [done|]. f_equal. by apply IH. Qed.

(** The first index comes before the second. *)
Definition precedes order (i j : nat) : Prop := ∃ l1 l2, order = l1 ++ i :: l2 ∧ j ∈ l2.

Lemma precedes_cons_inv k order i j :
  precedes (k :: order) i j → (k = i ∧ j ∈ order) ∨ precedes order i j.
Proof.
  intros ([|k' l1]&l2&E&Hj); simplify_eq/=; [by auto|]. right. by exists l1, l2.
Qed.

(** ** The floors *)

Record filled (rem' : Z) d d' : Prop := {
  fi_core : same_core d d';
  fi_mono : sd_target_grants d ≤ sd_target_grants d';
  fi_cap : sd_target_grants d' ≤ Z.max (sd_target_grants d) (sd_floor d);
  fi_action : sd_action d' = if decide (sd_target_grants d' < sd_floor d')
                             then GrowWorkforce else sd_action d;
  fi_unmet : sd_target_grants d' < sd_floor d' → rem' = 0;
}.

Definition filled_floor (rem : Z) d : ScheduleDecision :=
  let d := set_target (sd_target_grants d + Z.min (Z.max 0 (sd_floor d - sd_target_grants d)) rem) d in
  if decide (sd_target_grants d < sd_floor d)
  then set_action GrowWorkforce ["runnable floor unmet; incumbent floor grants preserved"] d else d.

Lemma fill_floors_cons i order ds rem d :
  ds !! i = Some d →
  fill_floors (i :: order) ds rem
  = fill_floors order (<[i := filled_floor rem d]> ds)
      (rem - Z.min (Z.max 0 (sd_floor d - sd_target_grants d)) rem).
Proof. intros Hi. cbn [fill_floors]. by rewrite Hi. Qed.

Lemma filled_floor_spec rem d :
  0 ≤ rem →
  same_core d (filled_floor rem d) ∧
  sd_target_grants (filled_floor rem d)
    = sd_target_grants d + Z.min (Z.max 0 (sd_floor d - sd_target_grants d)) rem ∧
  sd_action (filled_floor rem d) = if decide (sd_target_grants (filled_floor rem d)
    < sd_floor (filled_floor rem d)) then GrowWorkforce else sd_action d.
Proof.
  intros Hr. unfold filled_floor. case_decide as Hd; split_and!; try done; simpl in *.
  - by rewrite decide_True.
  - by rewrite decide_False.
Qed.

(** Without workers left nothing changes hands. *)
Lemma fill_floors_zero order ds i d' :
  (fill_floors order ds 0).1 !! i = Some d' →
  ∃ d, ds !! i = Some d ∧ sd_target_grants d' = sd_target_grants d.
Proof.
  revert ds. induction order as [|k order IH]; intros ds; [by eauto|].
  destruct (ds !! k) as [dk|] eqn:Ek.
  - rewrite (fill_floors_cons _ _ _ _ _ Ek).
    replace (0 - Z.min _ 0) with 0 by lia. intros (d&Hd&Ht)%IH.
    destruct (decide (k = i)) as [->|].
    + rewrite list_lookup_insert_eq in Hd by by eapply lookup_lt_Some. simplify_eq.
      exists dk. split; [done|]. rewrite Ht.
      destruct (filled_floor_spec 0 dk) as (_&->&_); [done|]. lia.
    + rewrite list_lookup_insert_ne in Hd by done. eauto.
  - cbn [fill_floors]. rewrite Ek. apply IH.
Qed.

Lemma fill_floors_rem order ds rem :
  0 ≤ rem → 0 ≤ (fill_floors order ds rem).2 ≤ rem.
Proof.
  revert ds rem. induction order as [|k order IH]; intros ds rem Hrem; [simpl; lia|].
  cbn [fill_floors]. destruct (ds !! k) as [d|]; [|by apply IH].
  match goal with |- context [fill_floors order ?ds' ?r] => destruct (IH ds' r) end; lia.
Qed.

Lemma fill_floors_spec order ds rem ds' rem' :
  fill_floors order ds rem = (ds', rem') → NoDup order → (∀ i, i ∈ order → (i < length ds)%nat) →
  0 ≤ rem →
  0 ≤ rem' ∧ total_grants ds' + rem' = total_grants ds + rem ∧ length ds' = length ds ∧
  (∀ i, i ∉ order → ds' !! i = ds !! i) ∧
  (∀ i d, i ∈ order → ds !! i = Some d → ∃ d', ds' !! i = Some d' ∧ filled rem' d d') ∧
  (∀ i j di' dj dj', precedes order i j → ds' !! i = Some di' → ds !! j = Some dj →
     ds' !! j = Some dj' → sd_target_grants dj < sd_target_grants dj' →
     sd_floor di' ≤ sd_target_grants di').
Proof.
  revert ds rem. induction order as [|k order IH]; intros ds rem E Hnd Hlt Hrem.
  { injection E as <- <-. split_and!; try done; [set_solver|]. intros i j ??? ([]&?&?&_); done. }
  apply NoDup_cons in Hnd as [Hk Hnd].
  destruct (lookup_lt_is_Some_2 ds k) as [dk Hdk]; [apply Hlt; by left|].
  rewrite (fill_floors_cons _ _ _ _ _ Hdk) in E.
  destruct (filled_floor_spec rem dk Hrem) as (Hcore&Htarget&Haction).
  set (dk1 := filled_floor rem dk) in *.
  assert (Hfl : sd_floor dk1 = sd_floor dk) by (symmetry; apply same_core_fields in Hcore; tauto).
  destruct (IH _ _ E Hnd) as (Hr'&Htot&Hlen&Hout&Hin&Hpre).
  { intros i Hi. rewrite length_insert. apply Hlt. by right. }
  { lia. }
  assert (Hk' : ds' !! k = Some dk1).
  { rewrite Hout by done. apply list_lookup_insert_eq. by eapply lookup_lt_Some. }
  rewrite length_insert in Hlen. rewrite (total_insert _ _ _ _ Hdk) in Htot.
  assert (Hz : sd_target_grants dk1 < sd_floor dk1 →
      rem - Z.min (Z.max 0 (sd_floor dk - sd_target_grants dk)) rem = 0) by lia.
  assert (Hrem' : rem' ≤ rem - Z.min (Z.max 0 (sd_floor dk - sd_target_grants dk)) rem).
  { rewrite <-(f_equal snd E : _ = rem'). apply fill_floors_rem. lia. }
  split_and!; [done|lia|done|..].
  - intros i Hi. rewrite Hout by set_solver. apply list_lookup_insert_ne. set_solver.
  - intros i d Hi Hd. destruct (decide (i = k)) as [->|Hne].
    + simplify_eq. exists dk1. split; [done|]. split; try done; lia.
    + apply Hin; [set_solver|]. by rewrite list_lookup_insert_ne.
  - intros i j di' dj dj' [[<- Hj]|Hp]%precedes_cons_inv Hi Hj0 Hj1 Hlt'.
    + rewrite Hk' in Hi. injection Hi as <-. destruct (decide (sd_floor dk1 ≤ sd_target_grants dk1)); [done|].
      rewrite Hz in E by lia. pose proof (f_equal fst E : _ = ds') as E'. simpl in E'.
      rewrite <-E' in Hj1. apply fill_floors_zero in Hj1 as (dj0&Hj2&Ht).
      rewrite list_lookup_insert_ne in Hj2 by set_solver. simplify_eq. lia.
    + assert (j ≠ k) by (destruct Hp as (?&?&->&?); set_solver).
      eapply Hpre; [exact Hp|exact Hi| |exact Hj1|exact Hlt']. by rewrite list_lookup_insert_ne.
Qed.

(** ** Elastic grants *)

Record raised d d' : Prop := {
  ra_core : same_core d d';
  ra_mono : sd_target_grants d ≤ sd_target_grants d';
  ra_cap : sd_target_grants d' ≤ Z.max (sd_target_grants d) (sd_ceiling d);
  ra_action : sd_action d' = sd_action d;
}.

Lemma raised_refl d : raised d d.
Proof. split; try done; lia. Qed.
Lemma raised_trans d1 d2 d3 : raised d1 d2 → raised d2 d3 → raised d1 d3.
Proof.
  intros [C1 M1 K1 A1] [C2 M2 K2 A2]. pose proof (same_core_fields _ _ C1) as (_&Ec&_).
  split; [unfold same_core in *; congruence|lia|lia|congruence].
Qed.

Lemma find_first {A} (f : A → bool) l x :
  List.find f l = Some x → f x = true ∧ ∃ l1 l2, l = l1 ++ x :: l2 ∧ Forall (λ y, f y = false) l1.
Proof.
  induction l as [|y l IH]; simpl; [done|]. destruct (f y) eqn:E.
  - intros [= ->]. split; [done|]. by exists [], l.
  - intros (Hx&l1&l2&->&Hl)%IH. split; [done|]. exists (y :: l1), l2. split; [done|by constructor].
Qed.

(** In a list without duplicates what precedes [x] is in the part before it. *)
Lemma precedes_split order l1 l2 i x :
  NoDup order → order = l1 ++ x :: l2 → precedes order i x → i ∈ l1.
Proof.
  intros Hnd -> (m1&m2&E&Hx). revert m1 E. induction l1 as [|y l1 IH]; intros [|z m1] E; simplify_eq/=.
  - apply NoDup_cons in Hnd as [Hx' _]. done.
  - apply NoDup_cons in Hnd as [Hx' _]. set_solver.
  - by left.
  - right. apply NoDup_cons in Hnd as [_ Hnd]. by apply (IH Hnd m1).
Qed.

Lemma below_ceiling_spec ds i d :
  ds !! i = Some d → below_ceiling ds i = bool_decide (sd_target_grants d < sd_ceiling d).
Proof. unfold below_ceiling. intros ->. by case_bool_decide; [apply Z.ltb_lt|apply Z.ltb_ge; lia]. Qed.

Lemma grant_elastic_spec order n ds :
  NoDup order →
  let ds' := grant_elastic order n ds in
  length ds' = length ds ∧
  (∀ i d, ds !! i = Some d → ∃ d', ds' !! i = Some d' ∧ raised d d') ∧
  (total_grants ds' = total_grants ds + Z.of_nat n ∨
   total_grants ds' ≤ total_grants ds + Z.of_nat n ∧
   ∀ i d', i ∈ order → ds' !! i = Some d' → sd_ceiling d' ≤ sd_target_grants d') ∧
  (∀ i j di' dj dj', precedes order i j → ds' !! i = Some di' → ds !! j = Some dj →
     ds' !! j = Some dj' → sd_target_grants dj < sd_target_grants dj' →
     sd_ceiling di' ≤ sd_target_grants di').
Proof.
  intros Hnd. revert ds. induction n as [|n IH]; intros ds; cbn [grant_elastic].
  { split_and!; [done|eauto using raised_refl|left; lia|]. intros. simplify_eq. lia. }
  destruct (List.find (below_ceiling ds) order) as [k|] eqn:Ef.
  2:{ split_and!; [done|eauto using raised_refl| |intros; simplify_eq; lia].
      right. split; [lia|]. intros i d' Hi Hd'.
      pose proof (List.find_none _ _ Ef i (proj1 (list_elem_of_In _ _) Hi)) as Hb.
      rewrite (below_ceiling_spec _ _ _ Hd') in Hb. apply bool_decide_eq_false in Hb. lia. }
  apply find_first in Ef as (Hbelow&l1&l2&Eorder&Hfirst).
  destruct (ds !! k) as [dk|] eqn:Edk; [|by unfold below_ceiling in Hbelow; rewrite Edk in Hbelow].
  rewrite (below_ceiling_spec _ _ _ Edk) in Hbelow. apply bool_decide_eq_true in Hbelow.
  rewrite (alter_insert _ _ _ _ Edk).
  set (dk1 := set_target (sd_target_grants dk + 1) dk).
  assert (Hraise : raised dk dk1) by (split; try done; unfold dk1; simpl; lia).
  destruct (IH (<[k := dk1]> ds)) as (Hlen&Hin&Htot&Hpre).
  rewrite (total_insert _ _ _ _ Edk) in Htot. rewrite length_insert in Hlen.
  replace (sd_target_grants dk1) with (sd_target_grants dk + 1) in Htot by done.
  set (ds' := grant_elastic order n (<[k := dk1]> ds)) in *.
  assert (Hin' : ∀ i d, ds !! i = Some d → ∃ d', ds' !! i = Some d' ∧ raised d d').
  { intros i d Hd. destruct (decide (i = k)) as [->|].
    - destruct (Hin k dk1) as (d'&Hd'&Hr); [apply list_lookup_insert_eq; by eapply lookup_lt_Some|].
      simplify_eq. exists d'. split; [done|by eapply raised_trans].
    - apply Hin. by rewrite list_lookup_insert_ne. }
  split_and!; [done|done|destruct Htot as [|[]]; [left|right; split; [|done]]; lia|].
  intros i j di' dj dj' Hp Hi Hj Hj' Hlt. destruct (decide (j = k)) as [->|Hne].
  - assert (Hil : i ∈ l1) by by eapply precedes_split.
    rewrite Forall_forall in Hfirst. specialize (Hfirst i Hil).
    destruct (ds !! i) as [di|] eqn:Edi.
    + rewrite (below_ceiling_spec _ _ _ Edi) in Hfirst. apply bool_decide_eq_false in Hfirst.
      destruct (Hin' _ _ Edi) as (d&Hd&[Hc Hm _ _]). simplify_eq.
      apply same_core_fields in Hc as (_&Hc&_). lia.
    + apply lookup_lt_Some in Hi. rewrite Hlen in Hi. apply lookup_ge_None in Edi. lia.
  - eapply Hpre; [exact Hp|exact Hi| |exact Hj'|exact Hlt]. by rewrite list_lookup_insert_ne.
Qed.

(** ** Actions *)

Lemma choose_action_spec d :
  same_core d (choose_action d) ∧ sd_target_grants (choose_action d) = sd_target_grants d ∧
  (sd_action (choose_action d) = GrowWorkforce ↔ sd_action d = GrowWorkforce).
Proof.
  unfold choose_action. case_decide as H; [done|].
  repeat case_decide; (split_and!; [done..|]); simpl; try (case_decide); naive_solver.
Qed.

(** A decision after the hysteresis pass: only a surplus may be reclaimed. *)
Record reclaimed d d' : Prop := {
  rc_core : same_core d d';
  rc_target : sd_target_grants d' = sd_target_grants d;
  rc_action : sd_action d' = sd_action d ∨
    (sd_action d' = Reclaim ∧ sd_floor d < sd_current_grants d);
}.

Lemma reclaimed_refl d : reclaimed d d.
Proof. split; auto. done. Qed.
Lemma reclaimed_trans d1 d2 d3 : reclaimed d1 d2 → reclaimed d2 d3 → reclaimed d1 d3.
Proof.
  intros [C1 T1 A1] [C2 T2 A2]. pose proof (same_core_fields _ _ C1) as (Ef&_&Ec&_).
  split; [unfold same_core in *; congruence|congruence|].
  destruct A2 as [->|[-> ?]]; [done|]. right. split; [done|]. congruence.
Qed.

Lemma find_donor_spec recipient ds j donor :
  find_donor recipient ds = Some (j, donor) →
  ds !! j = Some donor ∧ sd_floor donor < sd_current_grants donor.
Proof.
  unfold find_donor. intros Hh. assert (Hin : (j, donor) ∈ filter (λ e : nat * ScheduleDecision,
    is_donor recipient e.2 = true) (imap pair ds)).
  { destruct (filter _ _); [done|]. simplify_eq/=. by left. }
  apply list_elem_of_filter in Hin as [Hd (i&x&[= -> ->]&Hx)%elem_of_lookup_imap].
  split; [done|]. unfold is_donor in Hd. simpl in Hd. apply andb_true_iff in Hd as [Hd _].
  by apply Z.ltb_lt.
Qed.

(** Related position by position. *)
Definition pointwise (R : ScheduleDecision → ScheduleDecision → Prop) ds ds' : Prop :=
  length ds' = length ds ∧
  ∀ i d, ds !! i = Some d → ∃ d', ds' !! i = Some d' ∧ R d d'.

Lemma pointwise_trans (R : ScheduleDecision → ScheduleDecision → Prop) ds1 ds2 ds3 :
  (∀ d1 d2 d3, R d1 d2 → R d2 d3 → R d1 d3) → pointwise R ds1 ds2 → pointwise R ds2 ds3 →
  pointwise R ds1 ds3.
Proof.
  intros HR [L1 H1] [L2 H2]. split; [congruence|]. intros i d Hd.
  destruct (H1 _ _ Hd) as (d1&Hd1&HR1), (H2 _ _ Hd1) as (d2&Hd2&HR2). eauto.
Qed.

Lemma pointwise_fmap (R : ScheduleDecision → ScheduleDecision → Prop) f ds :
  (∀ d, R d (f d)) → pointwise R ds (f <$> ds).
Proof.
  intros HR. split; [apply length_fmap|]. intros i d Hd. exists (f d).
  by rewrite list_lookup_fmap, Hd.
Qed.

Lemma pointwise_alter (R : ScheduleDecision → ScheduleDecision → Prop) f i ds :
  (∀ d, R d d) → (∀ d, ds !! i = Some d → R d (f d)) → pointwise R ds (alter f i ds).
Proof.
  intros Hrefl HR. split; [apply length_alter|]. intros j d Hd.
  destruct (decide (i = j)) as [->|].
  - rewrite list_lookup_alter_eq, Hd. simpl. eauto.
  - rewrite list_lookup_alter_ne by done. eauto.
Qed.

Lemma reclaim_for_spec i ds : pointwise reclaimed ds (reclaim_for i ds).
Proof.
  assert (Hrefl : pointwise reclaimed ds ds) by (split; eauto using reclaimed_refl).
  unfold reclaim_for. destruct (ds !! i) as [r|] eqn:Er; [|done]. case_decide; [done|].
  destruct (find_donor r ds) as [[j donor]|] eqn:Ed; [|done].
  apply find_donor_spec in Ed as [Hj Hd].
  match goal with |- context [set_ratio ?r] => set (ratio := r) end.
  apply (pointwise_trans _ _ (alter (set_ratio ratio) i ds) _ reclaimed_trans).
  - apply (pointwise_alter reclaimed (set_ratio ratio)); [exact reclaimed_refl|].
    intros d _. by split; auto.
  - apply pointwise_alter; [exact reclaimed_refl|]. intros d' Hd'. split; [done..|]. right.
    split; [done|]. destruct (decide (i = j)) as [->|].
    + rewrite list_lookup_alter_eq, Hj in Hd'. by simplify_eq/=.
    + rewrite list_lookup_alter_ne in Hd' by done. by simplify_eq.
Qed.

Lemma reclaim_all_spec order ds : pointwise reclaimed ds (foldl (flip reclaim_for) ds order).
Proof.
  revert ds. induction order as [|i order IH]; intros ds; cbn [foldl].
  { split; eauto using reclaimed_refl. }
  eapply (pointwise_trans _ _ _ _ reclaimed_trans); [|apply IH]. apply reclaim_for_spec.
Qed.

(** ** The order *)

#[global] Instance decision_leb_total : TotalLeb decision_leb.
Proof.
  apply (lex_leb_total (λ d, default i64_max (sd_deadline_at_ms d)) Z.leb
    (λ d d', if decide (sd_urgency d = sd_urgency d')
             then String.leb (sd_automation d) (sd_automation d')
             else flip F64.total_leb (sd_urgency d) (sd_urgency d'))); [apply _..|].
  apply (lex_leb_total sd_urgency (flip F64.total_leb)).
  - apply flip_leb_total, _.
  - intros x y Hxy Hyx. by apply leb_antisym.
  - split; intros; [apply leb_total|by eapply leb_trans].
Qed.

Lemma imap_pair_fst {A} (l : list A) : (imap pair l).*1 = seq 0 (length l).
Proof.
  apply list_eq. intros i. rewrite list_lookup_fmap, list_lookup_imap.
  destruct (l !! i) as [x|] eqn:E; simpl.
  - symmetry. apply lookup_seq. apply lookup_lt_Some in E. lia.
  - symmetry. apply lookup_ge_None. apply lookup_ge_None in E. by rewrite length_seq.
Qed.

Lemma decision_order_spec ds :
  NoDup (decision_order ds) ∧ (∀ i, i ∈ decision_order ds ↔ (i < length ds)%nat) ∧
  ∀ i j d d', ds !! i = Some d → ds !! j = Some d' → decision_leb d' d = false →
    precedes (decision_order ds) i j.
Proof.
  unfold decision_order.
  set (leb := λ a b : nat * ScheduleDecision, decision_leb a.2 b.2).
  assert (Hp := sort_by_perm leb (imap pair ds)).
  assert (Hfst := imap_pair_fst ds).
  split_and!.
  - rewrite Hp, Hfst. apply NoDup_seq.
  - intros i. rewrite Hp, Hfst. rewrite elem_of_seq. lia.
  - intros i j d d' Hi Hj Hlt.
    assert (Hid : (i, d) ∈ sort_by leb (imap pair ds)).
    { rewrite Hp. apply elem_of_lookup_imap. eauto. }
    assert (Hjd : (j, d') ∈ sort_by leb (imap pair ds)).
    { rewrite Hp. apply elem_of_lookup_imap. eauto. }
    assert (Hs : StronglySorted (λ x y, leb x y = true) (sort_by leb (imap pair ds))).
    { apply StronglySorted_sort_by. split; unfold leb; intros; [apply leb_total|by eapply leb_trans]. }
    apply list_elem_of_split in Hid as (l1&l2&El). rewrite El in *.
    exists l1.*1, l2.*1. rewrite fmap_app, fmap_cons. split; [done|].
    apply elem_of_app in Hjd as [Hjd|[E|Hjd]%elem_of_cons].
    + exfalso. assert (Hle : leb (j, d') (i, d) = true)
        by (eapply (StronglySorted_app_1_elem_of _ _ _ _ _ Hs); [done|by left]).
      unfold leb in Hle. simpl in Hle. congruence.
    + exfalso. simplify_eq. by destruct (leb_total d d) as [Hd|Hd]; rewrite Hd in Hlt.
    + apply (list_elem_of_fmap_2 fst _ _ Hjd).
Qed.

(** ** The schedule *)

(** The guarantees of a schedule for [workers] workers. *)
Record schedule_ok (workers : Z) ds : Prop := {
  (** incumbents keep their floor, and no campaign gets more than its floor and ceiling *)
  so_bounds d : d ∈ ds →
    Z.min (sd_current_grants d) (sd_floor d) ≤ sd_target_grants d
    ≤ Z.max (sd_floor d) (sd_ceiling d);
  (** no more workers than there are, unless the incumbent floors alone need more *)
  so_budget : total_grants ds
    ≤ Z.max workers (foldr Z.add 0 ((λ d, Z.min (sd_current_grants d) (sd_floor d)) <$> ds));
  (** floors first: elastic grants only when every floor is met *)
  so_floors d d' : d ∈ ds → d' ∈ ds → sd_target_grants d < sd_floor d →
    sd_target_grants d' ≤ sd_floor d';
  (** no worker is left idle while a campaign could use it *)
  so_work d : d ∈ ds → total_grants ds < workers →
    sd_floor d ≤ sd_target_grants d ∧ sd_ceiling d ≤ sd_target_grants d;
  (** growth is asked for exactly when a floor is unmet *)
  so_grow d : d ∈ ds → sd_action d = GrowWorkforce ↔ sd_target_grants d < sd_floor d;
  (** a more pressing campaign is served first, within floors and within elastic grants *)
  so_priority d d' : d ∈ ds → d' ∈ ds → decision_leb d' d = false →
    (Z.min (sd_current_grants d') (sd_floor d') < sd_target_grants d' →
      sd_floor d ≤ sd_target_grants d) ∧
    (sd_floor d' < sd_target_grants d' → sd_ceiling d ≤ sd_target_grants d);
}.

Lemma schedule_ok_perm workers ds ds' : ds ≡ₚ ds' → schedule_ok workers ds → schedule_ok workers ds'.
Proof.
  intros Hp [B1 B2 B3 B4 B5 B6].
  assert (Ht : total_grants ds' = total_grants ds) by (apply sum_list_perm; by rewrite Hp).
  assert (Hin : ∀ d, d ∈ ds' → d ∈ ds) by (intros d; by rewrite Hp).
  split; rewrite ?Ht; eauto.
  etrans; [exact B2|]. apply Z.max_le_compat_l, Z.eq_le_incl, sum_list_perm. by rewrite Hp.
Qed.

Lemma pointwise_total ds ds' :
  pointwise (λ d d', sd_target_grants d' = sd_target_grants d) ds ds' →
  total_grants ds' = total_grants ds.
Proof.
  intros [Hl Hp]. unfold total_grants. f_equal. apply list_eq. intros i. rewrite !list_lookup_fmap.
  destruct (ds !! i) as [d|] eqn:E.
  - destruct (Hp _ _ E) as (d'&->&Ht). simpl. by rewrite Ht.
  - apply lookup_ge_None in E. by rewrite (proj2 (lookup_ge_None ds' i)) by lia.
Qed.

Lemma pointwise_impl (R R' : ScheduleDecision → ScheduleDecision → Prop) ds ds' :
  (∀ d d', R d d' → R' d d') → pointwise R ds ds' → pointwise R' ds ds'.
Proof. intros HR [Hl Hp]. split; [done|]. intros i d Hd. destruct (Hp _ _ Hd) as (d'&?&?). eauto. Qed.

Section Distribute.
Variables (ds0 : list ScheduleDecision) (workers : Z).
Hypothesis fresh : ∀ d, d ∈ ds0 → sd_action d ≠ GrowWorkforce ∧ 0 ≤ sd_floor d ∧
  0 ≤ sd_current_grants d.

Let order := decision_order ds0.
Let ds1 := incumbent <$> ds0.
Let rem1 := Z.max 0 (workers - foldr Z.add 0 (sd_target_grants <$> ds1)).
Let ds2 := (fill_floors order ds1 rem1).1.
Let rem2 := (fill_floors order ds1 rem1).2.
Let ds3 := grant_elastic order (Z.to_nat rem2) ds2.
Let ds5 := foldl (flip reclaim_for) (choose_action <$> ds3) order.

(** What happened to the decision at a position. *)
Record history (i : nat) (d0 d2 d3 d5 : ScheduleDecision) : Prop := {
  hi_0 : ds0 !! i = Some d0;
  hi_2 : ds2 !! i = Some d2;
  hi_3 : ds3 !! i = Some d3;
  hi_filled : filled rem2 (incumbent d0) d2;
  hi_raised : raised d2 d3;
  hi_core : same_core d0 d5;
  hi_target : sd_target_grants d5 = sd_target_grants d3;
  hi_grow : sd_action d5 = GrowWorkforce ↔ sd_action d3 = GrowWorkforce;
}.

Lemma fill_facts :
  0 ≤ rem2 ∧ total_grants ds2 + rem2 = total_grants ds1 + rem1 ∧ length ds2 = length ds1 ∧
  (∀ i d, ds1 !! i = Some d → ∃ d', ds2 !! i = Some d' ∧ filled rem2 d d') ∧
  (∀ i j di' dj dj', precedes order i j → ds2 !! i = Some di' → ds1 !! j = Some dj →
     ds2 !! j = Some dj' → sd_target_grants dj < sd_target_grants dj' →
     sd_floor di' ≤ sd_target_grants di').
Proof.
  destruct (decision_order_spec ds0) as (Hnd&Hin&_).
  destruct (fill_floors_spec order ds1 rem1 ds2 rem2) as (?&?&?&_&Hf&?);
    [apply surjective_pairing|done|..].
  - intros i Hi. unfold ds1. rewrite length_fmap. by apply Hin.
  - unfold rem1. lia.
  - split_and!; try done. intros i d Hd. apply Hf; [|done]. apply Hin.
    apply lookup_lt_Some in Hd. unfold ds1 in Hd. by rewrite length_fmap in Hd.
Qed.

Lemma elastic_pointwise : pointwise raised ds2 ds3.
Proof.
  destruct (grant_elastic_spec order (Z.to_nat rem2) ds2) as (?&?&_);
    [apply decision_order_spec|]. by split.
Qed.

Lemma final_pointwise : pointwise (λ d d', ∃ d4, d4 = choose_action d ∧ reclaimed d4 d') ds3 ds5.
Proof.
  destruct (reclaim_all_spec order (choose_action <$> ds3)) as [Hl Hp].
  split; [unfold ds5; by rewrite Hl, length_fmap|]. intros i d Hd.
  destruct (Hp i (choose_action d)) as (d'&Hd'&Hr); [by rewrite list_lookup_fmap, Hd|]. eauto.
Qed.

Lemma incumbent_core d : same_core d (incumbent d) ∧ sd_action (incumbent d) = sd_action d ∧
  sd_target_grants (incumbent d) = Z.min (sd_current_grants d) (sd_floor d).
Proof. done. Qed.

Lemma history_at i d0 :
  ds0 !! i = Some d0 → ∃ d2 d3 d5, ds5 !! i = Some d5 ∧ history i d0 d2 d3 d5.
Proof.
  intros Hd0.
  destruct fill_facts as (_&_&_&Hf&_), elastic_pointwise as [_ He], final_pointwise as [_ Hr].
  destruct (Hf i (incumbent d0)) as (d2&Hd2&Hfill); [unfold ds1; by rewrite list_lookup_fmap, Hd0|].
  destruct (He _ _ Hd2) as (d3&Hd3&Hraise), (Hr _ _ Hd3) as (d5&Hd5&d4&->&[C5 T5 A5]).
  destruct (choose_action_spec d3) as (C4&T4&A4), Hfill as [C2 M2 K2 A2 U2], Hraise as [C3 M3 K3 A3].
  exists d2, d3, d5. split; [done|]. split; try done.
  - unfold same_core in *. rewrite <-C5, <-C4, <-C3, <-C2. apply incumbent_core.
  - by rewrite T5, T4.
  - rewrite <-A4. destruct A5 as [->|[-> Hlt]]; [done|]. split; [done|]. intros Hg. exfalso.
    apply A4 in Hg. rewrite A3, A2 in Hg. case_decide as Hd.
    + apply same_core_fields in C4 as (F4&_&G4&_), C3 as (F3&_&G3&_), C2 as (F2&_&G2&_).
      destruct (incumbent_core d0) as (_&_&Hi0). rewrite Hi0 in M2. simpl in F2, G2. lia.
    + destruct (fresh d0) as [Hna _]; [by eapply list_elem_of_lookup_2|]. by apply Hna.
Qed.

Lemma final_length : length ds5 = length ds0.
Proof.
  destruct fill_facts as (_&_&H2&_), elastic_pointwise as [H3 _], final_pointwise as [H5 _].
  unfold ds1 in H2. rewrite length_fmap in H2. lia.
Qed.

Lemma history_of d5 : d5 ∈ ds5 → ∃ i d0 d2 d3, history i d0 d2 d3 d5.
Proof.
  intros [i Hi]%list_elem_of_lookup. destruct (lookup_lt_is_Some_2 ds0 i) as [d0 Hd0].
  { apply lookup_lt_Some in Hi. by rewrite <-final_length. }
  destruct (history_at _ _ Hd0) as (d2&d3&d&Hd&Hh). simplify_eq. eauto.
Qed.

(** The facts of one history that the guarantees use. *)
Lemma history_facts i d0 d2 d3 d5 :
  history i d0 d2 d3 d5 →
  sd_floor d5 = sd_floor d2 ∧ sd_ceiling d5 = sd_ceiling d3 ∧ sd_floor d3 = sd_floor d2 ∧
  Z.min (sd_current_grants d5) (sd_floor d5) = sd_target_grants (incumbent d0) ∧
  sd_target_grants (incumbent d0) ≤ sd_target_grants d2 ≤ sd_floor d2 ∧
  sd_target_grants d2 ≤ sd_target_grants d3 ≤ Z.max (sd_target_grants d2) (sd_ceiling d3) ∧
  (sd_action d3 = GrowWorkforce ↔ sd_target_grants d2 < sd_floor d2).
Proof.
  intros [H0 H2 H3 [C2 M2 K2 A2 _] [C3 M3 K3 A3] C5 T5 _].
  apply same_core_fields in C2 as (F2&E2&G2&_), C3 as (F3&E3&G3&_), C5 as (F5&E5&G5&_).
  simpl in F2, E2, G2, K2, M2. unfold incumbent. simpl.
  split_and!; try lia. rewrite A3, A2. destruct (fresh d0) as [Hna _]; [by eapply list_elem_of_lookup_2|].
  case_decide; [done|]. split; [|done]. intros Hg. by destruct Hna.
Qed.

(** Once a floor is unmet there is nothing left for elastic grants. *)
Lemma unmet_no_elastic i d0 d2 d3 d5 :
  history i d0 d2 d3 d5 → sd_target_grants d2 < sd_floor d2 → rem2 = 0 ∧ ds3 = ds2.
Proof.
  intros [_ _ _ [_ _ _ _ Hu] _ _ _ _] Hlt. specialize (Hu Hlt). split; [done|].
  unfold ds3. by rewrite Hu.
Qed.

Lemma total_final : total_grants ds5 = total_grants ds3.
Proof.
  apply pointwise_total. eapply pointwise_impl; [|exact final_pointwise].
  intros d d' (d4&->&[_ -> _]). by destruct (choose_action_spec d) as (_&->&_).
Qed.

Lemma incumbent_total :
  foldr Z.add 0 ((λ d, Z.min (sd_current_grants d) (sd_floor d)) <$> ds5) = total_grants ds1.
Proof.
  unfold total_grants. f_equal. apply list_eq. intros i. unfold ds1. rewrite !list_lookup_fmap.
  destruct (ds0 !! i) as [d0|] eqn:E.
  - destruct (history_at _ _ E) as (d2&d3&d5&->&H). simpl. f_equal.
    pose proof (history_facts _ _ _ _ _ H). simpl in *. tauto.
  - apply lookup_ge_None in E. by rewrite (proj2 (lookup_ge_None ds5 i)) by (rewrite final_length; lia).
Qed.

(** A more pressing campaign comes first in the order of both loops. *)
Lemma priority_holds d d' :
  d ∈ ds5 → d' ∈ ds5 → decision_leb d' d = false →
  (Z.min (sd_current_grants d') (sd_floor d') < sd_target_grants d' →
    sd_floor d ≤ sd_target_grants d) ∧
  (sd_floor d' < sd_target_grants d' → sd_ceiling d ≤ sd_target_grants d).
Proof.
  destruct fill_facts as (_&_&_&_&Hpre2).
  destruct (grant_elastic_spec order (Z.to_nat rem2) ds2) as (_&_&_&Hpre3);
    [apply decision_order_spec|]. fold ds3 in Hpre3.
  destruct (decision_order_spec ds0) as (_&_&Hord).
  intros (i&d0&d2&d3&H)%history_of (j&e0&e2&e3&H')%history_of Hlt.
  pose proof (history_facts _ _ _ _ _ H) as Hf. pose proof (history_facts _ _ _ _ _ H') as Hf'.
  assert (Hp : precedes order i j).
  { apply (Hord i j d0 e0); [apply H|apply H'|].
    destruct (same_core_fields _ _ (hi_core _ _ _ _ _ H)) as (_&_&_&Hl).
    destruct (same_core_fields _ _ (hi_core _ _ _ _ _ H')) as (_&_&_&Hl').
    by rewrite (proj2 (Hl _)), (proj1 (Hl' _)). }
  assert (Hj1 : ds1 !! j = Some (incumbent e0))
    by (unfold ds1; by rewrite list_lookup_fmap, (hi_0 _ _ _ _ _ H')).
  rewrite (hi_target _ _ _ _ _ H), (hi_target _ _ _ _ _ H').
  specialize (Hpre2 i j d2 (incumbent e0) e2 Hp (hi_2 _ _ _ _ _ H) Hj1 (hi_2 _ _ _ _ _ H')).
  specialize (Hpre3 i j d3 e2 e3 Hp (hi_3 _ _ _ _ _ H) (hi_2 _ _ _ _ _ H') (hi_3 _ _ _ _ _ H')).
  split; intros Hgt.
  + destruct (decide (sd_target_grants d2 < sd_floor d2)) as [Hu|]; [|lia].
    destruct (unmet_no_elastic _ _ _ _ _ H Hu) as [_ E].
    pose proof (hi_3 _ _ _ _ _ H') as H3. rewrite E, (hi_2 _ _ _ _ _ H') in H3.
    injection H3 as <-. lia.
  + destruct (decide (sd_target_grants e2 < sd_target_grants e3)); lia.
Qed.

Lemma distribute_ok : schedule_ok workers ds5.
Proof.
  destruct fill_facts as (Hr2&Ht2&_&_&_).
  destruct (grant_elastic_spec order (Z.to_nat rem2) ds2) as (_&_&Htot&_);
    [apply decision_order_spec|]. fold ds3 in Htot.
  rewrite Z2Nat.id in Htot by done.
  assert (Hr1 : rem1 = Z.max 0 (workers - total_grants ds1)) by done.
  destruct (decision_order_spec ds0) as (_&Hin&_).
  split.
  - intros d (i&d0&d2&d3&H)%history_of. pose proof (history_facts _ _ _ _ _ H).
    destruct H as [_ _ _ _ _ _ -> _]. lia.
  - rewrite total_final, incumbent_total. lia.
  - intros d d' (i&d0&d2&d3&H)%history_of (j&e0&e2&e3&H')%history_of Hlt.
    pose proof (history_facts _ _ _ _ _ H). pose proof (history_facts _ _ _ _ _ H').
    destruct (unmet_no_elastic _ _ _ _ _ H) as [_ E]; [destruct H as [_ _ _ _ _ _ Ht _]; lia|].
    destruct H' as [_ H2 H3 _ _ _ -> _]. rewrite E, H2 in H3. injection H3 as <-. lia.
  - intros d (i&d0&d2&d3&H)%history_of Hlt. rewrite total_final in Hlt.
    pose proof (history_facts _ _ _ _ _ H).
    destruct Htot as [|[_ Hfull]]; [lia|].
    destruct (decide (sd_target_grants d2 < sd_floor d2)) as [Hu|].
    + destruct (unmet_no_elastic _ _ _ _ _ H Hu) as [Hz E]. rewrite E in Hlt. lia.
    + assert (sd_ceiling d3 ≤ sd_target_grants d3).
      { apply (Hfull i); [|by apply H]. apply Hin. eapply lookup_lt_Some, H. }
      destruct H as [_ _ _ _ _ _ -> _]. lia.
  - intros d (i&d0&d2&d3&H)%history_of. pose proof (history_facts _ _ _ _ _ H) as (?&?&?&?&?&?&Hg).
    destruct (decide (sd_target_grants d2 < sd_floor d2)) as [Hu|Hu].
    + destruct (unmet_no_elastic _ _ _ _ _ H Hu) as [_ E]. destruct H as [_ K2 K3 _ _ _ -> ->].
      rewrite E, K2 in K3. injection K3 as <-. rewrite Hg. lia.
    + destruct H as [_ _ _ _ _ _ -> ->]. rewrite Hg. lia.
  - exact priority_holds.
Qed.
End Distribute.

(** ** The whole schedule *)

Lemma omap_length {A B} (f : A → option B) l : (length (omap f l) ≤ length l)%nat.
Proof. induction l as [|x l IH]; [done|]. csimpl. destruct (f x); simpl; lia. Qed.

Lemma sum_bound (l : list Z) F :
  Forall (λ z, 0 ≤ z ≤ F) l → 0 ≤ foldr Z.add 0 l ≤ F * Z.of_nat (length l).
Proof. induction 1; simpl; lia. Qed.

Definition demand_ok (demand : AutomationDemand) : Prop :=
  0 ≤ dm_runnable_items demand ∧ 0 ≤ dm_eligible_workers demand ∧ 0 ≤ dm_current_grants demand.

Lemma decide_demand_ok declaration observations components now_ms demand F :
  demand_ok demand → 0 ≤ de_one_worker_floor declaration ≤ F →
  let d := decide_demand declaration observations components now_ms demand in
  sd_action d ≠ GrowWorkforce ∧ 0 ≤ sd_floor d ≤ F ∧ 0 ≤ sd_current_grants d.
Proof.
  intros (H1&H2&H3) HF. simpl. split_and!; try done.
  - by case_decide.
  - case_decide; lia.
  - case_decide; lia.
Qed.

Lemma by_key_elem {A} (key : A → string) l k x : by_key key l !! k = Some x → x ∈ l ∧ key x = k.
Proof.
  unfold by_key. induction l as [|y l IH] using rev_ind; [done|]. rewrite foldl_snoc.
  destruct (decide (key y = k)) as [Hk|].
  - rewrite Hk, lookup_insert_eq. intros [= <-]. split; [set_solver|done].
  - rewrite lookup_insert_ne by done. intros [Hx Hk]%IH. split; [set_solver|done].
Qed.

Lemma initial_decisions_ok declarations demands buffers components now_ms F d :
  Forall demand_ok demands → Forall (λ de, 0 ≤ de_one_worker_floor de ≤ F) declarations →
  d ∈ initial_decisions declarations demands buffers components now_ms →
  sd_action d ≠ GrowWorkforce ∧ 0 ≤ sd_floor d ≤ F ∧ 0 ≤ sd_current_grants d.
Proof.
  rewrite !Forall_forall. intros Hd HF (demand&Hin&Hsome)%list_elem_of_omap.
  apply fmap_Some in Hsome as (de&[Hde _]%by_key_elem&->). apply decide_demand_ok; auto.
Qed.

Lemma schedule_sound declarations demands buffers workers now_ms F :
  Forall demand_ok demands → Forall (λ de, 0 ≤ de_one_worker_floor de ≤ F) declarations →
  0 ≤ F → F * Z.of_nat (length demands) ≤ u32_max →
  ∃ ds, schedule declarations demands buffers workers now_ms = Some ds ∧ schedule_ok workers ds.
Proof.
  intros Hd HF HF0 Hfit. unfold schedule.
  destruct (components_exist declarations) as (components&->).
  cbn [mbind option_bind].
  set (ds0 := initial_decisions declarations demands buffers components now_ms).
  assert (Hok := λ d, initial_decisions_ok declarations demands buffers components now_ms F d Hd HF).
  fold ds0 in Hok.
  assert (Hsum : sum_u32 (sd_target_grants <$> (incumbent <$> ds0))
    = Some (foldr Z.add 0 (sd_target_grants <$> (incumbent <$> ds0)))).
  { unfold sum_u32. apply decide_True. etrans; [apply (sum_bound _ F)|].
    - rewrite Forall_fmap, Forall_fmap. apply Forall_forall. intros d Hin. simpl.
      destruct (Hok d Hin). lia.
    - rewrite !length_fmap.
      assert (length ds0 ≤ length demands)%nat by apply omap_length. nia. }
  rewrite Hsum. cbn [mbind option_bind].
  destruct (fill_floors _ _ _) as [ds2 rem2] eqn:E2.
  eexists. split; [reflexivity|]. eapply schedule_ok_perm; [symmetry; apply sort_by_perm|].
  pose proof (distribute_ok ds0 workers) as Hdist. cbv zeta in Hdist. rewrite E2 in Hdist.
  apply Hdist. intros d Hin. destruct (Hok d Hin) as (?&?&?). split_and!; [done|lia|done].
Qed.

(** ** A campaign is its own donor *)

Lemma grant_elastic_single n d :
  sd_target_grants d + Z.of_nat n ≤ sd_ceiling d →
  ∃ d', grant_elastic [O] n [d] = [d'] ∧ same_core d d' ∧ sd_action d' = sd_action d ∧
    sd_target_grants d' = sd_target_grants d + Z.of_nat n.
Proof.
  revert d. induction n as [|n IH]; intros d Hn; cbn [grant_elastic].
  { exists d. split_and!; [done..|lia]. }
  cbn [List.find below_ceiling lookup list_lookup]. rewrite (proj2 (Z.ltb_lt _ _)) by lia.
  cbn [alter list_alter]. destruct (IH (set_target (sd_target_grants d + 1) d)) as (d'&->&?&?&Ht);
    [simpl; lia|]. exists d'. simpl in Ht. split_and!; [done..|lia].
Qed.

Lemma zero_urgency_donates d d' :
  sd_urgency d = F64.zero → sd_urgency d' = F64.zero → sd_floor d' < sd_current_grants d' →
  is_donor d d' = true.
Proof. intros H1 H2 Hlt. unfold is_donor. rewrite H1, H2, (proj2 (Z.ltb_lt _ _)) by done. done. Qed.

Lemma same_core_urgency d d' : same_core d d' → sd_urgency d = sd_urgency d'.
Proof. unfold same_core, core. by intros [= ]. Qed.

Lemma reclaim_single d :
  sd_urgency d = F64.zero → sd_floor d < sd_current_grants d → sd_target_grants d < sd_ceiling d →
  ∃ d', reclaim_for O [d] = [d'] ∧ sd_current_grants d' = sd_current_grants d ∧
    sd_target_grants d' = sd_target_grants d ∧ sd_action d' = Reclaim.
Proof.
  intros Hu Hf Ht. unfold reclaim_for. cbn [lookup list_lookup]. rewrite decide_False by lia.
  assert (Hd : find_donor d [d] = Some (O, d)).
  { unfold find_donor. cbn [imap]. rewrite filter_cons_True; [done|]. by apply zero_urgency_donates. }
  rewrite Hd. eexists. split; [done|]. done.
Qed.

(** a lone campaign without a deadline that holds more than its floor, could use more
    workers than there are, and is granted additional ones is nevertheless told to
    reclaim: with urgency zero the hysteresis test makes the campaign a donor to itself. *)
Theorem lone_campaign_reclaims_from_itself demand cost workers now_ms :
  dm_enabled demand = true → dm_explicit_deadline_at_ms demand = None →
  1 < dm_current_grants demand < workers →
  workers < Z.min (dm_runnable_items demand) (dm_eligible_workers demand) →
  ∃ d, schedule [declaration (dm_automation demand) [] [] cost] [demand] [] workers now_ms = Some [d] ∧
    sd_current_grants d < sd_target_grants d ∧ sd_action d = Reclaim.
Proof.
  intros Hen Hno Hcur Hceil. unfold schedule.
  destruct (components_exist [declaration (dm_automation demand) [] [] cost]) as (components&->).
  cbn [mbind option_bind].
  set (de := declaration (dm_automation demand) [] [] cost).
  set (d0 := decide_demand de (by_key bu_resource []) components now_ms demand).
  assert (Hi : initial_decisions [de] [demand] [] components now_ms = [d0]).
  { unfold initial_decisions. csimpl. unfold by_key at 2. simpl. by rewrite lookup_insert_eq. }
  rewrite Hi.
  assert (Hf : sd_floor d0 = 1).
  { unfold d0. simpl. rewrite decide_True by (split; [done|lia]). lia. }
  assert (Hu : sd_urgency d0 = F64.zero) by (unfold d0; simpl; by rewrite Hno).
  assert (Hc : sd_ceiling d0 = Z.min (dm_runnable_items demand) (dm_eligible_workers demand)) by done.
  assert (Hg : sd_current_grants d0 = dm_current_grants demand) by done.
  assert (Ha : sd_action d0 = Hold) by (unfold d0; simpl; apply decide_False; lia).
  clearbody d0. cbv zeta. change (decision_order [d0]) with [O].
  change (incumbent <$> [d0]) with [incumbent d0].
  assert (Hs : sum_u32 (sd_target_grants <$> [incumbent d0]) = Some 1).
  { unfold sum_u32. simpl. rewrite Hf, decide_True by (machine_ints; lia). f_equal. lia. }
  rewrite Hs. cbn [mbind option_bind].
  rewrite (fill_floors_cons O [] [incumbent d0] _ (incumbent d0)) by done. cbn [fill_floors].
  destruct (filled_floor_spec (Z.max 0 (workers - 1)) (incumbent d0)) as (C1&T1&A1); [lia|].
  set (d1 := filled_floor _ _) in *. simpl in T1. rewrite Hf in T1. simpl.
  rewrite Hf. clearbody d1. pose proof (same_core_urgency _ _ C1) as U1. simpl in U1.
  apply same_core_fields in C1 as (F1&E1&G1&_). simpl in F1, E1, G1.
  destruct (grant_elastic_single (Z.to_nat (Z.max 0 (workers - 1) - Z.min (Z.max 0 (1 - Z.min
    (sd_current_grants d0) 1)) (Z.max 0 (workers - 1)))) d1) as (d2&->&C2&A2&T2); [lia|].
  pose proof (same_core_urgency _ _ C2) as U2. apply same_core_fields in C2 as (F2&E2&G2&_).
  destruct (choose_action_spec d2) as (C3&T3&_). pose proof (same_core_urgency _ _ C3) as U3.
  apply same_core_fields in C3 as (F3&E3&G3&_).
  destruct (reclaim_single (choose_action d2)) as (d&Hd&Hdc&Hdt&Hda); [congruence|lia..|].
  exists d. change (choose_action <$> [d2]) with [choose_action d2].
  cbn [foldl]. unfold flip. rewrite Hd.
  split_and!; [done|lia|done].
Qed.

(** ** The demand of durable campaigns *)

(** A distance and a range that the broker accepts. *)
Definition sane_range (candidate : AllocationCandidate) (scope : RequirementScope) : bool :=
  match scope with
  | WithinLy origin range_ly =>
      F64.is_finite range_ly && F64.geb range_ly F64.zero
      && match ac_location candidate ≫= (λ l, al_distances_ly l !! origin) with
         | None => true
         | Some distance => F64.is_finite distance && F64.geb distance F64.zero
         end
  | _ => true
  end.

(** the scheduler counts a candidate as a worker exactly when the broker would
    accept it for the requirement, but for a range scope whose range or distance is
    negative or not finite: the broker refuses those and the scheduler does not look. *)
Theorem eligibility_agrees_with_broker candidate requirement :
  candidate_matches_requirement candidate requirement
  = candidate_satisfies candidate requirement && sane_range candidate (rq_scope requirement).
Proof.
  unfold candidate_matches_requirement, candidate_matches_kind_capabilities, candidate_satisfies.
  destruct (bool_decide (ac_kind candidate = rq_kind requirement)), (forallb _ _); simpl;
    [|by destruct (rq_scope requirement)..].
  destruct (rq_scope requirement) as [| | | |origin range_ly]; simpl; rewrite ?andb_true_r; try done.
  destruct (ac_location candidate ≫= _) as [distance|]; [|by rewrite andb_false_r].
  destruct (F64.is_finite range_ly), (F64.geb range_ly F64.zero), (F64.is_finite distance),
    (F64.geb distance F64.zero), (F64.leb distance range_ly); done.
Qed.

Section RepositorySchedule.
Context `{SS : SchedulerSerde}.

Lemma u32_or_max_nonneg n : 0 ≤ u32_or_max n.
Proof. unfold u32_or_max, u32_try_from. case_decide; simpl; machine_ints; lia. Qed.

Lemma workflow_demand_spec candidates w db r db' :
  workflow_demand candidates w db = Ok (r, db') → db' = db ∧ ∀ dm, r = Some dm → demand_ok dm.
Proof.
  unfold workflow_demand. destruct (automation_for_workflow_kind _).
  - intros [= <- <-]. split; [done|]. intros dm [= <-].
    split_and!; apply u32_or_max_nonneg.
  - by intros [= <- <-].
Qed.

(** A loop of reads leaves the store as it was. *)
Lemma map_each_reads {A B} (f : A → rtx B) (P : A → B → Prop) xs db ys db' :
  (∀ x db y db', f x db = Ok (y, db') → db' = db ∧ P x y) →
  map_each f xs db = Ok (ys, db') → db' = db ∧ Forall2 P xs ys.
Proof.
  intros Hf. revert db ys db'. induction xs as [|x xs IH]; intros db ys db'; cbn [map_each].
  { by intros [= <- <-]. }
  intros (y&db1&[-> Hy]%Hf&(ys'&db2&[-> Hys]%IH&[= <- <-])%tx_bind_Ok)%tx_bind_Ok.
  split; [done|by constructor].
Qed.

Lemma Forall2_elem_r {A B} (P : A → B → Prop) xs ys y :
  Forall2 P xs ys → y ∈ ys → ∃ x, x ∈ xs ∧ P x y.
Proof.
  intros Hf [i Hi]%list_elem_of_lookup. destruct (Forall2_lookup_r _ _ _ _ _ Hf Hi) as (x&Hx&HP).
  exists x. split; [by eapply list_elem_of_lookup_2|done].
Qed.

Definition same_grants d d' : Prop :=
  same_core d d' ∧ sd_target_grants d' = sd_target_grants d ∧ sd_action d' = sd_action d.

Lemma with_evidence_spec d db d' db' :
  with_evidence d db = Ok (d', db') → db' = db ∧ same_grants d d'.
Proof.
  unfold with_evidence. case_decide; [|by intros [= <- <-]].
  intros (ev&db1&(?&db2&[_ ->]%lift_Ok&[= <- <-])%tx_bind_Ok&[= <- <-])%tx_bind_Ok.
  split; [done|]. by destruct (_ <$> _) as [[]|].
Qed.

Lemma schedule_ok_same workers ds ds' :
  Forall2 same_grants ds ds' → schedule_ok workers ds → schedule_ok workers ds'.
Proof.
  intros Hs [B1 B2 B3 B4 B5 B6].
  assert (Hin : ∀ d', d' ∈ ds' → ∃ d, d ∈ ds ∧ sd_floor d = sd_floor d' ∧ sd_ceiling d = sd_ceiling d' ∧
    sd_current_grants d = sd_current_grants d' ∧ sd_target_grants d' = sd_target_grants d ∧
    sd_action d' = sd_action d ∧ ∀ e, decision_leb d e = decision_leb d' e ∧
    decision_leb e d = decision_leb e d').
  { intros d' Hd'. destruct (Forall2_elem_r _ _ _ _ Hs Hd') as (d&Hd&Hc&Ht&Ha).
    apply same_core_fields in Hc as (?&?&?&?). exists d. done. }
  assert (Ht : total_grants ds' = total_grants ds).
  { unfold total_grants. clear -Hs. induction Hs as [|d d' ds ds' (_&Ht&_) _ IH]; [done|].
    rewrite !fmap_cons. cbn [foldr]. lia. }
  assert (Hm : foldr Z.add 0 ((λ d, Z.min (sd_current_grants d) (sd_floor d)) <$> ds')
    = foldr Z.add 0 ((λ d, Z.min (sd_current_grants d) (sd_floor d)) <$> ds)).
  { clear -Hs. induction Hs as [|d d' ds ds' (Hc&_&_) _ IH]; [done|].
    apply same_core_fields in Hc as (?&_&?&_). rewrite !fmap_cons. cbn [foldr]. lia. }
  split; rewrite ?Ht, ?Hm; try done.
  - intros d' (d&Hd&?&?&?&->&?)%Hin. specialize (B1 d Hd). lia.
  - intros d1' d2' (d1&I1&?&?&?&->&?)%Hin (d2&I2&?&?&?&->&?)%Hin Hlt.
    specialize (B3 d1 d2 I1 I2). lia.
  - intros d' (d&Hd&?&?&?&->&?)%Hin Hlt. specialize (B4 d Hd Hlt). lia.
  - intros d' (d&Hd&?&?&?&->&->&_)%Hin. rewrite (B5 d Hd). lia.
  - intros d1' d2' (d1&I1&?&?&?&->&_&L1)%Hin (d2&I2&?&?&?&->&_&L2)%Hin Hlt.
    rewrite <-(proj1 (L2 _)), <-(proj2 (L1 _)) in Hlt. specialize (B6 d1 d2 I1 I2 Hlt). lia.
Qed.

Lemma map_each_error {A B} (f : A → rtx B) (Q : RepositoryError → Prop) xs db e :
  (∀ x db e, f x db = Err e → Q e) → map_each f xs db = Err e → Q e.
Proof.
  intros Hf. revert db. induction xs as [|x xs IH]; intros db; cbn [map_each]; [done|].
  intros [?|(y&db1&_&[?|(ys&db2&_&?)]%tx_bind_Err)]%tx_bind_Err; eauto. done.
Qed.

(** A document key that no scheduler document can have. *)
Definition bad_salvage_key (e : RepositoryError) : Prop :=
  ∃ key, validate_document_identity "automation.scheduler.salvage" key = Err e.

Lemma with_evidence_Err d db e : with_evidence d db = Err e → bad_salvage_key e.
Proof.
  unfold with_evidence. case_decide; [|done].
  intros [[He|(?&?&_&?)]%tx_bind_Err|(?&?&_&?)]%tx_bind_Err; [|done..].
  exists (sd_campaign d). unfold lift in He. by destruct (validate_document_identity _ _); simplify_eq.
Qed.

(** The buffers the scheduler reads. *)
Definition read_buffers (db : DB) : option (list BufferObservation) :=
  match documents db !! ("automation.scheduler", "buffers") with
  | None => Some []
  | Some row => buffers_from_value (do_value row)
  end.

Definition active_workflows (db : DB) : list (N * WorkflowInstance) :=
  select (λ _ w, is_active_status (wf_status w)) (instances db).

End RepositorySchedule.
