(* ===== verification/SchedulerWitnesses.v ===== *)
(** * Concrete schedules

    The hypotheses of the theorems on the scheduler hold on concrete inputs: a survey
    campaign with pending items in a database built with the repository's operations. *)

From S2P Require Import Prelude Float64 Model Store Fixtures Claims WorkItems WorkItemFacts.
From S2P Require Import Lifecycle Automation Allocation Scheduler SchedulerGraphFacts.
From S2P Require Import SchedulerFacts.

#[local] Existing Instance sample_serde.
#[local] Existing Instance table_order.

Definition sample_decoders : SchedulerSerde := {|
  uuid_to_string := λ id, if decide (id = 1%N) then "campaign-1" else "campaign";
  buffers_from_value := λ _, None;
  salvage_counts := λ _, (None, None, None, None);
|}.
#[local] Existing Instance sample_decoders.

Definition survey_requirement : ResourceRequirement :=
  {| rq_key := "worker"; rq_kind := "replicant"; rq_capabilities := []; rq_scope := Anywhere;
     rq_count := 1; rq_quantity := 1 |}.

Definition survey_item (key : string) : WorkItemSpec :=
  {| sp_workflow_id := 1%N; sp_dedupe_key := key; sp_kind := "scan"; sp_sort_key := key;
     sp_payload_json := VNull; sp_preconditions_json := VNull;
     sp_requirements_json := VRequirements [survey_requirement]; sp_deadline_at_ms := Some 500 |}.

(** An active survey with two pending items. *)
Definition survey_db : DB :=
  let d1 := committed (create_with_parent_claims
    {| nw_kind := "survey.route"; nw_schema_version := 1; nw_config := VNull;
       nw_checkpoint := VNull; nw_current_step := None; nw_parent_id := None |} [] 1 10 empty_db)
    empty_db in
  committed (reconcile_work_items 1 [survey_item "a"; survey_item "b"] 20
    (λ key, if decide (key = "a") then 11%N else 12%N) d1) d1.

Definition worker (name : string) : AllocationCandidate :=
  {| ac_resource := Replicant name; ac_kind := "replicant"; ac_capabilities := [];
     ac_location := None; ac_available_quantity := 1; ac_observed_revision := 1;
     ac_observed_at_ms := 5 |}.

(** Two workers, two items: both workers are granted. *)
Definition survey_result :=
  match repository_schedule [worker "R-1"; worker "R-2"] 2 100 survey_db with
  | Ok (Some ds, _) => ds
  | _ => []
  end.


Definition lone_demand : AutomationDemand :=
  {| dm_automation := "survey"; dm_campaign := "campaign-1"; dm_item := None;
     dm_runnable_items := 4; dm_eligible_workers := 4; dm_current_grants := 2;
     dm_enabled := true; dm_explicit_deadline_at_ms := None |}.

Lemma lone_campaign_reclaims_from_itself_witness :
  ∃ d, schedule [declaration "survey" [] [] (Rate (F64.of_Z 1))] [lone_demand] [] 3 0 = Some [d] ∧
    sd_current_grants d < sd_target_grants d ∧ sd_action d = Reclaim.
Proof.
  apply (lone_campaign_reclaims_from_itself lone_demand (Rate (F64.of_Z 1)) 3 0);
    [reflexivity|reflexivity|simpl; lia|simpl; lia].
Defined.
