(* ===== verification/Pagination.v ===== *)
(** * Cursor pagination

    [src/raw/pagination.rs]: the bounded streams over integer- and string-cursor
    endpoints.  The two functions have the same body, so the model is generic in the
    cursor; the endpoint is an argument that answers the n-th request, so a theorem
    holds for every server, one that answers differently each time included. *)

From S2P Require Import Prelude.

Record PaginationBounds := { max_pages : nat; max_items : nat }.
Definition default_bounds : PaginationBounds :=
  {| max_pages := Z.to_nat 1000; max_items := Z.to_nat 100000 |}.

Section Stream.
Context {K T E : Type} `{Countable K}.

(** [IntegerCursorPage] and [StringCursorPage] *)
Record CursorPage := { pg_items : list T; pg_next_cursor : option K }.

(** [OutOfFuel] is the bound of the loop below. *)
Inductive PaginationError :=
| RepeatedCursor
| BoundExceeded
| Transport (error : E)
| OutOfFuel.

(** The state of the unfold; [pending] is the rest of the page in reverse. *)
Record State := {
  cursor : option K;
  seen : gset K;
  page : nat;
  items : nat;
  pending : list T;
  done : bool;
}.

Definition initial_state (initial_cursor : option K) : State :=
  {| cursor := initial_cursor; seen := ∅; page := 0; items := 0; pending := []; done := false |}.

Variable bounds : PaginationBounds.
(** The answer to the n-th request. *)
Variable fetch : nat → option K → result E CursorPage.

Definition repeated (s : State) : bool :=
  match cursor s with Some c => bool_decide (c ∈ seen s) | None => false end.
Definition remember (s : State) : gset K :=
  match cursor s with Some c => {[c]} ∪ seen s | None => seen s end.

(** One element of the stream: the [loop] of the unfold. *)
Fixpoint pull (fuel : nat) (s : State) : result PaginationError (option (T * State)) :=
  match fuel with
  | O => Err OutOfFuel
  | S fuel =>
      match last (pending s) with
      | Some item =>
          let n := S (items s) in
          if decide (max_items bounds < n)%nat then Err BoundExceeded
          else Ok (Some (item, {| cursor := cursor s; seen := seen s; page := page s; items := n;
                                  pending := removelast (pending s); done := done s |}))
      | None =>
          if done s then Ok None
          else if decide (max_pages bounds ≤ page s)%nat then Err BoundExceeded
          else if repeated s then Err RepeatedCursor
          else
            match fetch (page s) (cursor s) with
            | Err e => Err (Transport e)
            | Ok p =>
                pull fuel {| cursor := pg_next_cursor p; seen := remember s; page := S (page s);
                             items := items s; pending := reverse (pg_items p);
                             done := bool_decide (pg_next_cursor p = None) |}
            end
      end
  end.

(** The whole stream: its items, and the error it ends with, if any. *)
Fixpoint collect (fuel : nat) (s : State) : list T * option PaginationError :=
  match fuel with
  | O => ([], Some OutOfFuel)
  | S fuel =>
      match pull (S (S (max_pages bounds))) s with
      | Err e => ([], Some e)
      | Ok None => ([], None)
      | Ok (Some (item, s)) => let '(l, e) := collect fuel s in (item :: l, e)
      end
  end.

Definition cursor_stream (initial_cursor : option K) : list T * option PaginationError :=
  collect (S (S (max_items bounds))) (initial_state initial_cursor).

End Stream.

Arguments CursorPage : clear implicits.
Arguments PaginationError : clear implicits.
Arguments State _ _ {_ _}.

(** [integer_cursor_stream] and [string_cursor_stream] *)
Definition integer_cursor_stream {T E : Type} (initial_cursor : option Z) (bounds : PaginationBounds)
    (fetch : nat → option Z → result E (CursorPage Z T)) : list T * option (PaginationError E) :=
  cursor_stream bounds fetch initial_cursor.
Definition string_cursor_stream {T E : Type} (initial_cursor : option string)
    (bounds : PaginationBounds) (fetch : nat → option string → result E (CursorPage string T))
  : list T * option (PaginationError E) :=
  cursor_stream bounds fetch initial_cursor.
