(* ===== verification/PaginationFacts.v ===== *)
(** * What a paginated stream yields

    For [Pagination.v]: the lazy stream is a bounded walk along the chain of pages, and
    a well-behaved endpoint is read completely and in order. *)

From S2P Require Import Prelude Pagination.

Section Walk.
Context {K T E : Type} `{Countable K}.
Variable bounds : PaginationBounds.
Variable fetch : nat → option K → result E (CursorPage K T).
Implicit Types s : State K T.

(** The reference: follow the cursors for at most [pages] more pages. *)
Fixpoint walk (pages n : nat) (c : option K) (visited : gset K)
  : list T * option (PaginationError E) :=
  match pages with
  | O => ([], Some BoundExceeded)
  | S pages =>
      if match c with Some k => bool_decide (k ∈ visited) | None => false end
      then ([], Some RepeatedCursor)
      else
        match fetch n c with
        | Err e => ([], Some (Transport e))
        | Ok p =>
            match pg_next_cursor p with
            | None => (pg_items p, None)
            | Some next =>
                let '(l, e) := walk pages (S n) (Some next)
                  (match c with Some k => {[k]} ∪ visited | None => visited end) in
                (pg_items p ++ l, e)
            end
        end
  end.

(** At most [k] items of a stream. *)
Definition cut (k : nat) (r : list T * option (PaginationError E)) : list T * option (PaginationError E) :=
  if decide (length r.1 ≤ k)%nat then r else (take k r.1, Some BoundExceeded).

(** What a state has still to yield, without the bound on items. *)
Definition remaining s : list T * option (PaginationError E) :=
  let '(l, e) := if done s then ([], None)
                 else walk (max_pages bounds - page s) (page s) (cursor s) (seen s) in
  (reverse (pending s) ++ l, e).

(** One pull yields the head of what remains. *)
Definition pull_ok (r : result (PaginationError E) (option (T * State K T))) s : Prop :=
  match remaining s with
  | ([], None) => r = Ok None
  | ([], Some e) => r = Err e
  | (x :: l, e) =>
      if decide (items s < max_items bounds)%nat
      then ∃ s', r = Ok (Some (x, s')) ∧ remaining s' = (l, e) ∧ items s' = S (items s)
      else r = Err BoundExceeded
  end.

Lemma last_reverse_removelast {A} (l : list A) x :
  last l = Some x → reverse l = x :: reverse (removelast l).
Proof.
  destruct l as [|y l] using rev_ind; [done|].
  rewrite last_snoc, removelast_last, reverse_app. by intros [= ->].
Qed.

Lemma pull_spec fuel s :
  (max_pages bounds - page s + 2 ≤ fuel)%nat → pull_ok (pull bounds fetch fuel s) s.
Proof.
  revert s. induction fuel as [|fuel IH]; intros s Hf; [lia|]. cbn [pull].
  destruct (last (pending s)) as [x|] eqn:El.
  - unfold pull_ok, remaining. rewrite (last_reverse_removelast _ _ El).
    destruct (if done s then _ else _) as [l e] eqn:Ew. cbn [app]. repeat case_decide; try lia; [|done].
    eexists. split_and!; [done| |done]. unfold remaining. simpl. by rewrite Ew.
  - apply last_None in El. destruct (done s) eqn:Ed.
    { unfold pull_ok, remaining. by rewrite Ed, El. }
    assert (Hr : remaining s = walk (max_pages bounds - page s) (page s) (cursor s) (seen s)).
    { unfold remaining. rewrite Ed, El. by destruct (walk _ _ _ _). }
    unfold pull_ok. rewrite Hr.
    case_decide as Hp.
    { by replace (max_pages bounds - page s)%nat with O by lia. }
    destruct (max_pages bounds - page s)%nat as [|pages] eqn:Epages; [lia|]. cbn [walk].
    fold (repeated s). destruct (repeated s); [done|].
    destruct (fetch (page s) (cursor s)) as [p|e]; [|done].
    match goal with |- context [pull _ _ fuel ?s'] => set (s1 := s') end.
    assert (Hs1 : pull_ok (pull bounds fetch fuel s1) s1) by (apply IH; simpl; lia).
    unfold pull_ok in Hs1.
    assert (Hr1 : remaining s1 = match pg_next_cursor p with
      | None => (pg_items p, None)
      | Some next => let '(l, e) := walk pages (S (page s)) (Some next) (remember s) in
                     (pg_items p ++ l, e) end).
    { unfold remaining, s1. simpl. rewrite reverse_involutive.
      destruct (pg_next_cursor p); simpl; [|by rewrite app_nil_r].
      by replace (max_pages bounds - S (page s))%nat with pages by lia. }
    rewrite Hr1 in Hs1. exact Hs1.
Qed.

Lemma cut_cons k x l e :
  (0 < k)%nat → cut k (x :: l, e) = (x :: (cut (k - 1) (l, e)).1, (cut (k - 1) (l, e)).2).
Proof.
  intros Hk. unfold cut. destruct k as [|k]; [lia|]. simpl. rewrite Nat.sub_0_r.
  repeat case_decide; simpl; done || lia.
Qed.

Lemma collect_spec fuel s :
  (items s ≤ max_items bounds)%nat → (max_items bounds - items s + 2 ≤ fuel)%nat →
  collect bounds fetch fuel s = cut (max_items bounds - items s) (remaining s).
Proof.
  revert s. induction fuel as [|fuel IH]; intros s Hi Hf; [lia|]. cbn [collect].
  assert (Hp : pull_ok (pull bounds fetch (S (S (max_pages bounds))) s) s) by (apply pull_spec; lia).
  unfold pull_ok in Hp. destruct (remaining s) as [[|x l] e] eqn:Er.
  - destruct e; rewrite Hp; unfold cut; rewrite decide_True by (simpl; lia); done.
  - case_decide as Hlt.
    + destruct Hp as (s'&->&Hr'&Hi'). rewrite IH by lia. rewrite Hr', Hi'.
      rewrite cut_cons by lia.
      replace (max_items bounds - items s - 1)%nat with (max_items bounds - S (items s))%nat by lia.
      by destruct (cut _ _).
    + rewrite Hp. replace (max_items bounds - items s)%nat with O by lia. done.
Qed.

(** C39: for every endpoint the paginated stream ends, and yields exactly what a walk along
    the cursors yields: page after page in order, stopped by a repeated cursor, a failed
    request, the bound on pages or the last page, and cut at the bound on items.  The
    laziness, the reversed buffer and the empty pages are not observable. *)
Theorem stream_is_bounded_walk c :
  cursor_stream bounds fetch c = cut (max_items bounds) (walk (max_pages bounds) 0 c ∅).
Proof.
  unfold cursor_stream. rewrite collect_spec by (simpl; lia). simpl. rewrite Nat.sub_0_r. f_equal.
  unfold remaining. simpl. rewrite Nat.sub_0_r. by destruct (walk _ _ _ _).
Qed.

(** ** A well-behaved endpoint *)

(** The pages from request [n] on: each answers the cursor of the one before. *)
Fixpoint chain (n : nat) (c : option K) (pages : list (CursorPage K T)) : Prop :=
  match pages with
  | [] => False
  | p :: pages =>
      fetch n c = Ok p ∧
      match pages with
      | [] => pg_next_cursor p = None
      | _ => ∃ next, pg_next_cursor p = Some next ∧ chain (S n) (Some next) pages
      end
  end.

(** The cursors a chain requests. *)
Definition requested_cursors (c : option K) (pages : list (CursorPage K T)) : list K :=
  omap id (c :: (pg_next_cursor <$> pages)).

Lemma walk_chain n c pages visited fuel :
  chain n c pages → (length pages ≤ fuel)%nat → NoDup (requested_cursors c pages) →
  (∀ k, k ∈ requested_cursors c pages → k ∉ visited) →
  walk fuel n c visited = (pages ≫= pg_items, None).
Proof.
  revert n c visited fuel. induction pages as [|p pages IH]; intros n c visited fuel Hc Hl Hnd Hv; [done|].
  destruct fuel as [|fuel]; [simpl in Hl; lia|]. destruct Hc as [Hf Hc]. cbn [walk].
  assert (Hrep : match c with Some k => bool_decide (k ∈ visited) | None => false end = false).
  { destruct c as [k|]; [|done]. apply bool_decide_eq_false, Hv. by left. }
  rewrite Hrep, Hf. rewrite bind_cons. destruct pages as [|p' pages].
  { rewrite Hc. by rewrite app_nil_r. }
  destruct Hc as (next&Hn&Hc). rewrite Hn.
  assert (Hreq : requested_cursors c (p :: p' :: pages)
    = omap id [c] ++ requested_cursors (Some next) (p' :: pages)).
  { unfold requested_cursors. rewrite fmap_cons, Hn. by destruct c. }
  rewrite Hreq in Hnd, Hv. apply NoDup_app in Hnd as (_&Hdis&Hnd).
  rewrite (IH (S n) (Some next)); [done|done|simpl in *; lia|done|].
  intros k Hk. specialize (Hv k). destruct c as [k0|]; [|set_solver].
  specialize (Hdis k0). set_solver.
Qed.

(** an endpoint whose pages form a chain of distinct cursors within the bounds is read
    completely: the stream yields the items of all pages in order and ends without an
    error. *)
Theorem stream_reads_every_page c pages :
  chain 0 c pages → NoDup (requested_cursors c pages) →
  (length pages ≤ max_pages bounds)%nat → (length (pages ≫= pg_items) ≤ max_items bounds)%nat →
  cursor_stream bounds fetch c = (pages ≫= pg_items, None).
Proof.
  intros Hc Hnd Hp Hi. unfold cursor_stream. rewrite collect_spec by (simpl; lia). simpl.
  rewrite Nat.sub_0_r. unfold remaining. simpl. rewrite Nat.sub_0_r.
  rewrite (walk_chain 0 c pages) by (done || set_solver). unfold cut. by rewrite decide_True.
Qed.
End Walk.
