(* ===== verification/Observations.v ===== *)
(** * Observations and their merge

    [src/domain/ids.rs], [src/domain/observation.rs], [src/domain/model.rs] and
    [src/domain/merge.rs]: where an observation comes from, which of two observations
    of one entity wins, what a partial observation may not erase, and when absence
    from a collection is evidence of removal.

    A [serde_json::Value] is a parameter with decidable equality.  The open vocabularies
    of [src/domain/vocab.rs] and the string identifiers are their wire strings. *)

From S2P Require Import Prelude Float64.

(** ** Keys *)

Inductive Realm := Live | Simulation (id : Z).
#[global] Instance Realm_eq : EqDecision Realm.
Proof. solve_decision. Defined.
#[global] Instance Realm_countable : Countable Realm.
Proof.
  refine (inj_countable' (λ r, match r with Live => None | Simulation id => Some id end)
    (λ o, match o with None => Live | Some id => Simulation id end) _). by intros [].
Defined.

(** [DeviceKey], [ReplicantKey], [LocationKey], [StarKey] *)
Record WorldKey := { wk_realm : Realm; wk_id : string }.
#[global] Instance WorldKey_eq : EqDecision WorldKey.
Proof. solve_decision. Defined.
#[global] Instance WorldKey_countable : Countable WorldKey.
Proof.
  refine (inj_countable' (λ k, (wk_realm k, wk_id k)) (λ p, {| wk_realm := p.1; wk_id := p.2 |}) _).
  by intros [].
Defined.

(** ** Provenance *)

Inductive ObservationSource :=
| RestDetail | RestCollection | EventLog | Sse | CommandResponse | Reconciliation.
Inductive ObservationAuthority :=
| EntitySnapshot | CollectionMember | CompleteCollection | EventDelta | OperationResult
| PublicProfile | Discovery.
Inductive AccessScope := Owned | SiblingShared | Granted | Public.
Inductive Reachability := Reachable | OutOfRange | AccessRevoked | Historical.
Inductive CollectionCompleteness :=
| Complete | Filtered | RangeScoped | PublicDirectory | DiscoveryLimited | PartialPage.
Inductive RemovalEvidence :=
| ExplicitDecommission | ExplicitRemovalEvent | MutationResult | EvidenceCompleteCollection
| SimulationCleanup | EvidenceNotFound | Absence.

#[global] Instance ObservationSource_eq : EqDecision ObservationSource.
Proof. solve_decision. Defined.
#[global] Instance ObservationAuthority_eq : EqDecision ObservationAuthority.
Proof. solve_decision. Defined.
#[global] Instance AccessScope_eq : EqDecision AccessScope.
Proof. solve_decision. Defined.
#[global] Instance Reachability_eq : EqDecision Reachability.
Proof. solve_decision. Defined.
#[global] Instance CollectionCompleteness_eq : EqDecision CollectionCompleteness.
Proof. solve_decision. Defined.

Record SourceDocument := {
  so_operation : string;
  so_request_id : option string;
  so_document_id : option string;
}.
#[global] Instance SourceDocument_eq : EqDecision SourceDocument.
Proof. solve_decision. Defined.

(** [observed_at] is in Unix milliseconds ([ObservationTime], an [i64]). *)
Record ObservationMetadata := {
  om_source : ObservationSource;
  om_authority : ObservationAuthority;
  om_observed_at : Z;
  om_access : AccessScope;
  om_reachability : Reachability;
  om_stale : bool;
  om_source_document : SourceDocument;
}.
#[global] Instance ObservationMetadata_eq : EqDecision ObservationMetadata.
Proof. solve_decision. Defined.

Record Observation (T : Type) := { ob_value : T; ob_metadata : ObservationMetadata }.
Arguments ob_value {_} _.
Arguments ob_metadata {_} _.
Arguments Build_Observation {_} _ _.
#[global] Instance Observation_eq {T} `{EqDecision T} : EqDecision (Observation T).
Proof. solve_decision. Defined.

Record CollectionObservation (T : Type) := {
  co_members : list (Observation T);
  co_completeness : CollectionCompleteness;
  co_metadata : ObservationMetadata;
}.
Arguments co_members {_} _.
Arguments co_completeness {_} _.
Arguments co_metadata {_} _.

(** [From<&str> for ObservationTime] of a numeric text: small epochs are seconds. *)
Definition from_epoch (epoch : Z) : Z :=
  if decide (Z.abs epoch < 100000000000) then saturating_mul_i64 epoch 1000 else epoch.

(** ** Which observation wins *)

Definition authority_rank (authority : ObservationAuthority) : Z :=
  match authority with
  | OperationResult => 6
  | EntitySnapshot => 5
  | CompleteCollection => 4
  | CollectionMember => 3
  | EventDelta => 2
  | PublicProfile | Discovery => 1
  end.

Definition source_rank (source : ObservationSource) : Z :=
  match source with
  | CommandResponse => 6
  | RestDetail => 5
  | Reconciliation => 4
  | RestCollection => 3
  | EventLog => 2
  | Sse => 1
  end.

(** [Ordering::then_with] *)
Definition then_with (c1 c2 : comparison) : comparison :=
  match c1 with Eq => c2 | _ => c1 end.

Definition metadata_order (left right : ObservationMetadata) : comparison :=
  then_with (om_observed_at left ?= om_observed_at right)
    (then_with (authority_rank (om_authority left) ?= authority_rank (om_authority right))
      (source_rank (om_source left) ?= source_rank (om_source right))).

Definition is_lt (c : comparison) : bool := match c with Lt => true | _ => false end.

Inductive MergeRejection := StaleObservation | InsufficientAuthority.
Inductive MergeOutcome (T : Type) :=
| Replaced (value : T)
| Retained (value : T) (rejection : MergeRejection).
Arguments Replaced {_} _.
Arguments Retained {_} _ _.

(** [match outcome { Replaced(value) | Retained(value, _) => value }] *)
Definition merged {T} (outcome : MergeOutcome T) : T :=
  match outcome with Replaced value | Retained value _ => value end.

Definition merge_snapshot {T} (existing incoming : Observation T) : MergeOutcome (Observation T) :=
  if is_lt (metadata_order (ob_metadata incoming) (ob_metadata existing))
  then Retained existing StaleObservation
  else Replaced incoming.

(** [event_delta] *)
Definition event_delta {T} (existing : Observation T) (delta : ObservationMetadata) (apply : T → T)
  : MergeOutcome (Observation T) :=
  merge_snapshot existing {| ob_value := apply (ob_value existing); ob_metadata := delta |}.

(** [preserve] *)
Definition preserve {T} (incoming existing : option T) : option T :=
  match incoming with Some _ => incoming | None => existing end.

(** ** Removal *)

Definition can_reconcile_membership (self : CollectionCompleteness) : bool :=
  match self with Complete => true | _ => false end.

Definition tombstone_eligible (metadata : ObservationMetadata) (evidence : RemovalEvidence) : bool :=
  if bool_decide (om_access metadata = Public)
     || match om_reachability metadata with OutOfRange | AccessRevoked => true | _ => false end
  then false
  else
    match evidence with
    | ExplicitDecommission | ExplicitRemovalEvent | MutationResult | SimulationCleanup => true
    | EvidenceCompleteCollection => bool_decide (om_authority metadata = CompleteCollection)
    | EvidenceNotFound | Absence => false
    end.

Definition collection_can_tombstone {T} (collection : CollectionObservation T) : bool :=
  can_reconcile_membership (co_completeness collection)
  && bool_decide (om_authority (co_metadata collection) = CompleteCollection)
  && tombstone_eligible (co_metadata collection) EvidenceCompleteCollection.
