(* ===== verification/Entities.v ===== *)
(** * Entities and the merge of their observations

    [src/domain/model.rs], [src/domain/merge.rs] and the star conversions of
    [src/domain/adapters.rs]: devices, replicants, stars and locations with all their
    fields, and how an incoming observation is combined with the one already held. *)

From S2P Require Import Prelude Float64 Observations.

Section Entities.
(** [serde_json::Value] *)
Context {Json : Type} `{Json_eq : EqDecision Json}.

Abbreviation JsonMap := (gmap string Json).

(** ** Devices *)

Record DeviceRelationships := {
  dr_attached_to : option WorldKey;
  dr_stowed_in : option WorldKey;
  dr_controller : option WorldKey;
  dr_linked_device : option WorldKey;
  dr_attached_devices : list WorldKey;
  dr_controlled_devices : list WorldKey;
  dr_stowed_devices : list WorldKey;
  dr_assigned_replicant : option WorldKey;
  dr_hosting_replicant : option WorldKey;
}.
#[global] Instance DeviceRelationships_eq : EqDecision DeviceRelationships.
Proof. solve_decision. Defined.

Record TravelState := {
  tr_arrives_at : option string;
  tr_departed_at : option string;
  tr_destination : option WorldKey;
  tr_eta_seconds : option Z;
  tr_final_arrives_at : option string;
  tr_final_destination : option WorldKey;
  tr_origin : option WorldKey;
  tr_route_eta_seconds : option Z;
  tr_stage : option string;
  tr_travel_type : option string;
  tr_details : JsonMap;
}.
#[global] Instance TravelState_eq : EqDecision TravelState.
Proof. solve_decision. Defined.

Record DeviceRuntimeState := {
  ru_created_at : option string;
  ru_short_description : option string;
  ru_description : option string;
  ru_printing : option Json;
  ru_mining : option Json;
  ru_prospect : option Json;
  ru_repair : option Json;
  ru_scan : option Json;
  ru_waiting_for : option Json;
  ru_print_queue : list JsonMap;
  ru_queue_size : option Z;
  ru_taxi_mode : option string;
  ru_tracking_site_id : option Z;
  ru_beacon_only : option bool;
  ru_welcome_message : option string;
  ru_repair_paid_pct : option Json;
}.
#[global] Instance DeviceRuntimeState_eq : EqDecision DeviceRuntimeState.
Proof. solve_decision. Defined.

(** [DeviceRuntimeState::preserve_missing_from] *)
Definition preserve_missing_from (self existing : DeviceRuntimeState) : DeviceRuntimeState :=
  {| ru_created_at := preserve (ru_created_at self) (ru_created_at existing);
     ru_short_description := preserve (ru_short_description self) (ru_short_description existing);
     ru_description := preserve (ru_description self) (ru_description existing);
     ru_printing := preserve (ru_printing self) (ru_printing existing);
     ru_mining := preserve (ru_mining self) (ru_mining existing);
     ru_prospect := preserve (ru_prospect self) (ru_prospect existing);
     ru_repair := preserve (ru_repair self) (ru_repair existing);
     ru_scan := preserve (ru_scan self) (ru_scan existing);
     ru_waiting_for := preserve (ru_waiting_for self) (ru_waiting_for existing);
     ru_print_queue := match ru_print_queue self with [] => ru_print_queue existing | q => q end;
     ru_queue_size := preserve (ru_queue_size self) (ru_queue_size existing);
     ru_taxi_mode := preserve (ru_taxi_mode self) (ru_taxi_mode existing);
     ru_tracking_site_id := preserve (ru_tracking_site_id self) (ru_tracking_site_id existing);
     ru_beacon_only := preserve (ru_beacon_only self) (ru_beacon_only existing);
     ru_welcome_message := preserve (ru_welcome_message self) (ru_welcome_message existing);
     ru_repair_paid_pct := preserve (ru_repair_paid_pct self) (ru_repair_paid_pct existing) |}.

Record ActiveDeviceDirective := {
  ad_directive : option string;
  ad_status : option string;
  ad_details : JsonMap;
}.
#[global] Instance ActiveDeviceDirective_eq : EqDecision ActiveDeviceDirective.
Proof. solve_decision. Defined.

Record Device := {
  dv_key : WorldKey;
  dv_device_type : option string;
  dv_status : option string;
  dv_location : option WorldKey;
  dv_deployed_at : option string;
  dv_in_control_range : option bool;
  dv_features : list string;
  dv_available_commands : list string;
  dv_available_directives : list string;
  dv_tags : list string;
  dv_settings : JsonMap;
  dv_relationships : DeviceRelationships;
  dv_cargo : gmap string Z;
  dv_cargo_capacity : option Z;
  dv_attach_capacity : option Z;
  dv_stow_capacity : option Z;
  dv_stow_used : option Z;
  dv_operational_capacity : option F64.t;
  dv_grace_period_remaining : option Z;
  dv_upkeep_requirements : list JsonMap;
  dv_system_status : option JsonMap;
  dv_active_directive : option ActiveDeviceDirective;
  dv_travel : option TravelState;
  dv_runtime : DeviceRuntimeState;
  dv_access : AccessScope;
}.
#[global] Instance Device_eq : EqDecision Device.
Proof. solve_decision. Defined.

(** [effective_stow_used] and [free_stow_capacity] *)
Definition effective_stow_used (self : Device) : Z :=
  let related := default i64_max
    (i64_try_from (Z.of_nat (length (dr_stowed_devices (dv_relationships self))))) in
  Z.max (default 0 (dv_stow_used self)) related.
Definition free_stow_capacity (self : Device) : Z :=
  Z.max (saturating_sub_i64 (default 0 (dv_stow_capacity self)) (effective_stow_used self)) 0.

(** The placement and runtime facts an incoming device may not erase by omission. *)
Definition preserve_device (authority : ObservationAuthority) (existing incoming : Device) : Device :=
  {| dv_key := dv_key incoming; dv_device_type := dv_device_type incoming;
     dv_status := dv_status incoming; dv_location := dv_location incoming;
     dv_deployed_at := preserve (dv_deployed_at incoming) (dv_deployed_at existing);
     dv_in_control_range := preserve (dv_in_control_range incoming) (dv_in_control_range existing);
     dv_features := dv_features incoming; dv_available_commands := dv_available_commands incoming;
     dv_available_directives := dv_available_directives incoming; dv_tags := dv_tags incoming;
     dv_settings := dv_settings incoming; dv_relationships := dv_relationships incoming;
     dv_cargo := dv_cargo incoming; dv_cargo_capacity := dv_cargo_capacity incoming;
     dv_attach_capacity := dv_attach_capacity incoming;
     dv_stow_capacity := dv_stow_capacity incoming; dv_stow_used := dv_stow_used incoming;
     dv_operational_capacity := dv_operational_capacity incoming;
     dv_grace_period_remaining := dv_grace_period_remaining incoming;
     dv_upkeep_requirements := dv_upkeep_requirements incoming;
     dv_system_status := dv_system_status incoming;
     dv_active_directive := dv_active_directive incoming; dv_travel := dv_travel incoming;
     dv_runtime := if decide (authority = EntitySnapshot) then dv_runtime incoming
                   else preserve_missing_from (dv_runtime incoming) (dv_runtime existing);
     dv_access := dv_access incoming |}.

(** The owner's fields a public observation may not replace. *)
Definition keep_owned (existing incoming : Device) : Device :=
  let old := dv_relationships existing in
  let new := dv_relationships incoming in
  {| dv_key := dv_key incoming; dv_device_type := dv_device_type incoming;
     dv_status := dv_status incoming; dv_location := dv_location incoming;
     dv_deployed_at := dv_deployed_at incoming;
     dv_in_control_range := dv_in_control_range incoming;
     dv_features := dv_features incoming; dv_available_commands := dv_available_commands incoming;
     dv_available_directives := dv_available_directives incoming; dv_tags := dv_tags incoming;
     dv_settings := dv_settings incoming;
     dv_relationships :=
       {| dr_attached_to := dr_attached_to new; dr_stowed_in := dr_stowed_in old;
          dr_controller := dr_controller new; dr_linked_device := dr_linked_device old;
          dr_attached_devices := dr_attached_devices old;
          dr_controlled_devices := dr_controlled_devices old;
          dr_stowed_devices := dr_stowed_devices old;
          dr_assigned_replicant := dr_assigned_replicant old;
          dr_hosting_replicant := dr_hosting_replicant old |};
     dv_cargo := dv_cargo incoming; dv_cargo_capacity := dv_cargo_capacity incoming;
     dv_attach_capacity := dv_attach_capacity existing;
     dv_stow_capacity := dv_stow_capacity existing; dv_stow_used := dv_stow_used existing;
     dv_operational_capacity := dv_operational_capacity existing;
     dv_grace_period_remaining := dv_grace_period_remaining existing;
     dv_upkeep_requirements := dv_upkeep_requirements existing;
     dv_system_status := dv_system_status existing;
     dv_active_directive := dv_active_directive existing; dv_travel := dv_travel existing;
     dv_runtime := dv_runtime existing; dv_access := dv_access incoming |}.

(** [merge_device] *)
Definition merge_device (existing incoming : Observation Device) : MergeOutcome (Observation Device) :=
  if is_lt (metadata_order (ob_metadata incoming) (ob_metadata existing))
  then Retained existing StaleObservation
  else
    let value := preserve_device (om_authority (ob_metadata incoming)) (ob_value existing)
                   (ob_value incoming) in
    let value := if decide (om_access (ob_metadata existing) = Owned ∧
                            om_access (ob_metadata incoming) = Public)
                 then keep_owned (ob_value existing) value else value in
    Replaced {| ob_value := value; ob_metadata := ob_metadata incoming |}.

(** ** Replicants *)

Record OwnedReplicantData := {
  or_description : option string;
  or_pronouns : option string;
  or_experience_points : option Z;
  or_plan : option string;
  or_cohort_permission : option string;
}.
#[global] Instance OwnedReplicantData_eq : EqDecision OwnedReplicantData.
Proof. solve_decision. Defined.

Record Replicant := {
  re_key : WorldKey;
  re_name : option string;
  re_is_npc : option bool;
  re_status : option string;
  re_location : option WorldKey;
  re_hosted_device : option WorldKey;
  re_travel : option TravelState;
  re_private : option OwnedReplicantData;
  re_access : AccessScope;
}.
#[global] Instance Replicant_eq : EqDecision Replicant.
Proof. solve_decision. Defined.

(** [merge_replicant] *)
Definition merge_replicant (existing incoming : Observation Replicant)
  : MergeOutcome (Observation Replicant) :=
  if is_lt (metadata_order (ob_metadata incoming) (ob_metadata existing))
  then Retained existing StaleObservation
  else
    let value := ob_value incoming in
    let value := if decide (om_access (ob_metadata incoming) = Public)
      then {| re_key := re_key value; re_name := re_name value; re_is_npc := re_is_npc value;
              re_status := re_status value; re_location := re_location value;
              re_hosted_device := re_hosted_device value;
              re_travel := re_travel (ob_value existing);
              re_private := re_private (ob_value existing);
              re_access := re_access (ob_value existing) |}
      else value in
    Replaced {| ob_value := value; ob_metadata := ob_metadata incoming |}.

End Entities.

Arguments TravelState Json : clear implicits.
Arguments DeviceRuntimeState Json : clear implicits.
Arguments ActiveDeviceDirective Json : clear implicits.
Arguments Device Json : clear implicits.
Arguments Replicant Json : clear implicits.

(** ** Stars *)

Record GalacticPosition := { gp_x : F64.t; gp_y : F64.t; gp_z : F64.t }.

Record Star := {
  sr_key : WorldKey;
  sr_name : option string;
  sr_spectral_type : option string;
  sr_entry_point : option WorldKey;
  sr_position : option GalacticPosition;
  sr_has_hub : option bool;
  sr_has_ward : option bool;
  sr_knowledge_observed : bool;
  sr_explored : option bool;
  sr_has_life : option bool;
  sr_region : option string;
}.

(** [PartialEq]: coordinates compare as [f64] values. *)
Definition position_eqb (a b : option GalacticPosition) : bool :=
  match a, b with
  | Some a, Some b =>
      F64.eqb (gp_x a) (gp_x b) && F64.eqb (gp_y a) (gp_y b) && F64.eqb (gp_z a) (gp_z b)
  | None, None => true
  | _, _ => false
  end.
Definition star_eqb (a b : Star) : bool :=
  bool_decide (sr_key a = sr_key b) && bool_decide (sr_name a = sr_name b)
  && bool_decide (sr_spectral_type a = sr_spectral_type b)
  && bool_decide (sr_entry_point a = sr_entry_point b)
  && position_eqb (sr_position a) (sr_position b)
  && bool_decide (sr_has_hub a = sr_has_hub b) && bool_decide (sr_has_ward a = sr_has_ward b)
  && bool_decide (sr_knowledge_observed a = sr_knowledge_observed b)
  && bool_decide (sr_explored a = sr_explored b) && bool_decide (sr_has_life a = sr_has_life b)
  && bool_decide (sr_region a = sr_region b).

Definition preserve_star (existing incoming : Star) : Star :=
  {| sr_key := sr_key incoming;
     sr_name := preserve (sr_name incoming) (sr_name existing);
     sr_spectral_type := preserve (sr_spectral_type incoming) (sr_spectral_type existing);
     sr_entry_point := preserve (sr_entry_point incoming) (sr_entry_point existing);
     sr_position := preserve (sr_position incoming) (sr_position existing);
     sr_has_hub := preserve (sr_has_hub incoming) (sr_has_hub existing);
     sr_has_ward := preserve (sr_has_ward incoming) (sr_has_ward existing);
     sr_knowledge_observed := sr_knowledge_observed incoming || sr_knowledge_observed existing;
     sr_explored := preserve (sr_explored incoming) (sr_explored existing);
     sr_has_life := preserve (sr_has_life incoming) (sr_has_life existing);
     sr_region := preserve (sr_region incoming) (sr_region existing) |}.

(** [merge_star] *)
Definition merge_star (existing incoming : Observation Star) : MergeOutcome (Observation Star) :=
  if is_lt (metadata_order (ob_metadata incoming) (ob_metadata existing))
  then Retained existing StaleObservation
  else Replaced {| ob_value := preserve_star (ob_value existing) (ob_value incoming);
                   ob_metadata := ob_metadata incoming |}.

Record StarKnowledge := {
  sk_replicant : WorldKey;
  sk_star : WorldKey;
  sk_position : option GalacticPosition;
  sk_spectral_type : option string;
  sk_entry_point : option WorldKey;
  sk_explored : option bool;
  sk_has_hub : option bool;
  sk_has_ward : option bool;
  sk_has_life : option bool;
  sk_region : option string;
  sk_distance_from_replicant : option F64.t;
  sk_estimated_travel_time : option Z;
}.

(** [merge_star_knowledge] *)
Definition merge_star_knowledge (existing incoming : Observation StarKnowledge)
  : MergeOutcome (Observation StarKnowledge) :=
  if is_lt (metadata_order (ob_metadata incoming) (ob_metadata existing))
  then Retained existing StaleObservation
  else
    let new := ob_value incoming in
    let old := ob_value existing in
    Replaced {| ob_value :=
        {| sk_replicant := sk_replicant new; sk_star := sk_star new;
           sk_position := preserve (sk_position new) (sk_position old);
           sk_spectral_type := preserve (sk_spectral_type new) (sk_spectral_type old);
           sk_entry_point := preserve (sk_entry_point new) (sk_entry_point old);
           sk_explored := preserve (sk_explored new) (sk_explored old);
           sk_has_hub := preserve (sk_has_hub new) (sk_has_hub old);
           sk_has_ward := preserve (sk_has_ward new) (sk_has_ward old);
           sk_has_life := preserve (sk_has_life new) (sk_has_life old);
           sk_region := preserve (sk_region new) (sk_region old);
           sk_distance_from_replicant :=
             preserve (sk_distance_from_replicant new) (sk_distance_from_replicant old);
           sk_estimated_travel_time :=
             preserve (sk_estimated_travel_time new) (sk_estimated_travel_time old) |};
      ob_metadata := ob_metadata incoming |}.

(** [account_star_from_knowledge] and [star_knowledge_view] *)
Definition account_star_from_knowledge (knowledge : Observation StarKnowledge) : Observation Star :=
  let k := ob_value knowledge in
  {| ob_value := {| sr_key := sk_star k; sr_name := None; sr_spectral_type := sk_spectral_type k;
       sr_entry_point := sk_entry_point k; sr_position := sk_position k;
       sr_has_hub := sk_has_hub k; sr_has_ward := sk_has_ward k; sr_knowledge_observed := true;
       sr_explored := sk_explored k; sr_has_life := sk_has_life k; sr_region := sk_region k |};
     ob_metadata := ob_metadata knowledge |}.
Definition star_knowledge_view (star : Observation Star) (replicant : WorldKey)
  : Observation StarKnowledge :=
  let s := ob_value star in
  {| ob_value := {| sk_replicant := replicant; sk_star := sr_key s; sk_position := sr_position s;
       sk_spectral_type := sr_spectral_type s; sk_entry_point := sr_entry_point s;
       sk_explored := sr_explored s; sk_has_hub := sr_has_hub s; sk_has_ward := sr_has_ward s;
       sk_has_life := sr_has_life s; sk_region := sr_region s;
       sk_distance_from_replicant := None; sk_estimated_travel_time := None |};
     ob_metadata := ob_metadata star |}.

(** [merge_positive_account_fact] of [src/managed/state.rs] *)
Definition merge_positive_account_fact (current incoming : option bool) : option bool :=
  match current, incoming with
  | Some a, Some b => Some (a || b)
  | Some a, None => Some a
  | None, b => b
  end.
