(* ===== verification/Locations.v ===== *)
(** * Locations

    [Location] of [src/domain/model.rs]: what is known of a place, the merge of a newer
    observation into it, and the completeness of a system survey. *)

From S2P Require Import Prelude Float64 Observations.

(** Absence is knowledge; [Unknown] is not. *)
Inductive Knowledge (T : Type) := Unknown | Absent | Present (value : T).
Arguments Unknown {_}.
Arguments Absent {_}.
Arguments Present {_} _.

Definition known {T} (k : Knowledge T) : bool := match k with Unknown => false | _ => true end.

(** [merge_knowledge] *)
Definition merge_knowledge {T} (current newer : Knowledge T) : Knowledge T :=
  if known newer then newer else current.

(** [if !l.is_empty() { l } else { l' }] *)
Definition nonempty_or {T} (l l' : list T) : list T := match l with [] => l' | _ => l end.

(** ** Survey progress *)

Record LocationSurveyProgress := {
  lp_planets_total : option Z;
  lp_planets_scanned : option Z;
  lp_moons_total : option Z;
  lp_moons_scanned : option Z;
  lp_moons_total_estimated : option bool;
  lp_survey_system_complete : option bool;
}.

(** [system_survey_complete] *)
Definition counted (total scanned : option Z) : option bool :=
  match total, scanned with
  | Some total, Some scanned => Some (bool_decide (total = scanned))
  | _, _ => None
  end.
Definition system_survey_complete (self : LocationSurveyProgress) : option bool :=
  let planets_complete := counted (lp_planets_total self) (lp_planets_scanned self) in
  let moons_complete :=
    match lp_moons_total_estimated self with
    | Some false => counted (lp_moons_total self) (lp_moons_scanned self)
    | Some true => Some false
    | None => None
    end in
  let aggregate :=
    match planets_complete, moons_complete with
    | Some true, Some true => Some true
    | Some false, _ => Some false
    | _, Some false => Some false
    | _, _ => None
    end in
  match aggregate with Some b => Some b | None => lp_survey_system_complete self end.

Section Locations.
(** [serde_json::Value] and the atmosphere vocabulary *)
Context {Json Atmosphere : Type}.

(** ** Environment *)

Record LocationEnvironment := {
  le_atmosphere : Knowledge Atmosphere;
  le_magnetic_field : Knowledge bool;
  le_gravity_g : Knowledge F64.t;
  le_surface_temp_c : Knowledge F64.t;
  le_surface_temp_k : Knowledge F64.t;
  le_atmo_pressure_atm : Knowledge F64.t;
  le_atmo_o2_pct : Knowledge F64.t;
  le_atmo_toxicity : Knowledge F64.t;
  le_hydrosphere_pct : Knowledge F64.t;
  le_tectonic_index : Knowledge F64.t;
  le_biosphere_index : Knowledge F64.t;
  le_has_subsurface_ocean : Knowledge bool;
  le_in_habitable_zone : Knowledge bool;
  le_life_stage : Knowledge string;
  le_axial_tilt_deg : Knowledge F64.t;
  le_rotation_state : Knowledge string;
  le_star_spectral_type : Knowledge string;
  le_nearby_belt_richness : Knowledge string;
  le_distance_from_sol_ly : Knowledge F64.t;
}.

Record Location := {
  lo_key : WorldKey;
  lo_location_type : option string;
  lo_scanned : option bool;
  lo_system_scanned : option bool;
  lo_system_tags : list string;
  lo_system : option string;
  lo_parent : option WorldKey;
  lo_custom_name : option string;
  lo_survey_progress : LocationSurveyProgress;
  lo_environment : LocationEnvironment;
  lo_unknown : gmap string Json;
}.

(** [has_survey_environment_evidence] *)
Definition has_survey_environment_evidence (self : Location) : bool :=
  let e := lo_environment self in
  known (le_atmosphere e)
  || known (le_magnetic_field e)
  || known (le_axial_tilt_deg e)
  || known (le_atmo_pressure_atm e)
  || known (le_atmo_o2_pct e)
  || known (le_atmo_toxicity e)
  || known (le_hydrosphere_pct e)
  || known (le_tectonic_index e)
  || known (le_biosphere_index e)
  || known (le_has_subsurface_ocean e).

Definition merge_environment (self newer : LocationEnvironment) : LocationEnvironment :=
  {| le_atmosphere := merge_knowledge (le_atmosphere self) (le_atmosphere newer);
     le_magnetic_field := merge_knowledge (le_magnetic_field self) (le_magnetic_field newer);
     le_gravity_g := merge_knowledge (le_gravity_g self) (le_gravity_g newer);
     le_surface_temp_c := merge_knowledge (le_surface_temp_c self) (le_surface_temp_c newer);
     le_surface_temp_k := merge_knowledge (le_surface_temp_k self) (le_surface_temp_k newer);
     le_atmo_pressure_atm := merge_knowledge (le_atmo_pressure_atm self) (le_atmo_pressure_atm newer);
     le_atmo_o2_pct := merge_knowledge (le_atmo_o2_pct self) (le_atmo_o2_pct newer);
     le_atmo_toxicity := merge_knowledge (le_atmo_toxicity self) (le_atmo_toxicity newer);
     le_hydrosphere_pct := merge_knowledge (le_hydrosphere_pct self) (le_hydrosphere_pct newer);
     le_tectonic_index := merge_knowledge (le_tectonic_index self) (le_tectonic_index newer);
     le_biosphere_index := merge_knowledge (le_biosphere_index self) (le_biosphere_index newer);
     le_has_subsurface_ocean := merge_knowledge (le_has_subsurface_ocean self) (le_has_subsurface_ocean newer);
     le_in_habitable_zone := merge_knowledge (le_in_habitable_zone self) (le_in_habitable_zone newer);
     le_life_stage := merge_knowledge (le_life_stage self) (le_life_stage newer);
     le_axial_tilt_deg := merge_knowledge (le_axial_tilt_deg self) (le_axial_tilt_deg newer);
     le_rotation_state := merge_knowledge (le_rotation_state self) (le_rotation_state newer);
     le_star_spectral_type := merge_knowledge (le_star_spectral_type self) (le_star_spectral_type newer);
     le_nearby_belt_richness := merge_knowledge (le_nearby_belt_richness self) (le_nearby_belt_richness newer);
     le_distance_from_sol_ly := merge_knowledge (le_distance_from_sol_ly self) (le_distance_from_sol_ly newer) |}.

Definition merge_progress (self newer : LocationSurveyProgress) : LocationSurveyProgress :=
  {| lp_planets_total := preserve (lp_planets_total newer) (lp_planets_total self);
     lp_planets_scanned := preserve (lp_planets_scanned newer) (lp_planets_scanned self);
     lp_moons_total := preserve (lp_moons_total newer) (lp_moons_total self);
     lp_moons_scanned := preserve (lp_moons_scanned newer) (lp_moons_scanned self);
     lp_moons_total_estimated := preserve (lp_moons_total_estimated newer) (lp_moons_total_estimated self);
     lp_survey_system_complete := preserve (lp_survey_system_complete newer) (lp_survey_system_complete self) |}.

(** [Location::merge_from]; [BTreeMap::extend] prefers the newer value of a key. *)
Definition merge_from (self newer : Location) : Location :=
  {| lo_key := lo_key self;
     lo_location_type := preserve (lo_location_type newer) (lo_location_type self);
     lo_scanned := preserve (lo_scanned newer) (lo_scanned self);
     lo_system_scanned := preserve (lo_system_scanned newer) (lo_system_scanned self);
     lo_system_tags := nonempty_or (lo_system_tags newer) (lo_system_tags self);
     lo_system := preserve (lo_system newer) (lo_system self);
     lo_parent := preserve (lo_parent newer) (lo_parent self);
     lo_custom_name := preserve (lo_custom_name newer) (lo_custom_name self);
     lo_survey_progress := merge_progress (lo_survey_progress self) (lo_survey_progress newer);
     lo_environment := merge_environment (lo_environment self) (lo_environment newer);
     lo_unknown := lo_unknown newer ∪ lo_unknown self |}.

End Locations.
Arguments LocationEnvironment Atmosphere : clear implicits.
Arguments Location Json Atmosphere : clear implicits.

(** ** The merge as an algebra *)

Lemma preserve_assoc {T} (a b c : option T) : preserve a (preserve b c) = preserve (preserve a b) c.
Proof. by destruct a. Qed.
Lemma preserve_idemp {T} (a : option T) : preserve a a = a.
Proof. by destruct a. Qed.
Lemma merge_knowledge_assoc {T} (a b c : Knowledge T) :
  merge_knowledge (merge_knowledge a b) c = merge_knowledge a (merge_knowledge b c).
Proof. by destruct b, c. Qed.
Lemma merge_knowledge_idemp {T} (a : Knowledge T) : merge_knowledge a a = a.
Proof. by destruct a. Qed.
Lemma known_merge {T} (a b : Knowledge T) : known (merge_knowledge a b) = known a || known b.
Proof. by destruct a, b. Qed.

Section Algebra.
Context {Json Atmosphere : Type}.
Implicit Types a b c : Location Json Atmosphere.

(** What is recorded of a place, compared field by field. *)
Definition knows_no_less a b : Prop :=
  (is_Some (lo_location_type a) → is_Some (lo_location_type b)) ∧
  (is_Some (lo_scanned a) → is_Some (lo_scanned b)) ∧
  (is_Some (lo_system_scanned a) → is_Some (lo_system_scanned b)) ∧
  (lo_system_tags a ≠ [] → lo_system_tags b ≠ []) ∧
  (is_Some (lo_system a) → is_Some (lo_system b)) ∧
  (is_Some (lo_parent a) → is_Some (lo_parent b)) ∧
  (is_Some (lo_custom_name a) → is_Some (lo_custom_name b)) ∧
  (∀ k, is_Some (lo_unknown a !! k) → is_Some (lo_unknown b !! k)) ∧
  (has_survey_environment_evidence a = true → has_survey_environment_evidence b = true).

Lemma evidence_merge a b :
  has_survey_environment_evidence (merge_from a b)
  = has_survey_environment_evidence a || has_survey_environment_evidence b.
Proof.
  unfold has_survey_environment_evidence. destruct a as [? ? ? ? ? ? ? ? ? [] ?], b as [? ? ? ? ? ? ? ? ? [] ?].
  simpl. rewrite !known_merge. apply Bool.eq_iff_eq_true. rewrite !orb_true_iff. tauto.
Qed.

Lemma preserve_is_Some {T} (x y : option T) : is_Some (preserve x y) ↔ is_Some x ∨ is_Some y.
Proof. destruct x, y; naive_solver. Qed.
Lemma tags_nonempty {T} (x y : list T) : nonempty_or x y ≠ [] ↔ x ≠ [] ∨ y ≠ [].
Proof. destruct x, y; naive_solver. Qed.

Lemma knows_left a b : knows_no_less a (merge_from a b).
Proof.
  unfold knows_no_less. rewrite evidence_merge, orb_true_iff. cbn [merge_from lo_location_type
    lo_scanned lo_system_scanned lo_system_tags lo_system lo_parent lo_custom_name lo_unknown].
  rewrite !preserve_is_Some, tags_nonempty. setoid_rewrite lookup_union_is_Some. naive_solver.
Qed.
Lemma knows_right a b : knows_no_less b (merge_from a b).
Proof.
  unfold knows_no_less. rewrite evidence_merge, orb_true_iff. cbn [merge_from lo_location_type
    lo_scanned lo_system_scanned lo_system_tags lo_system lo_parent lo_custom_name lo_unknown].
  rewrite !preserve_is_Some, tags_nonempty. setoid_rewrite lookup_union_is_Some. naive_solver.
Qed.

(** merging locations is associative and idempotent and keeps the identity of the
    first, so the result of a sequence of observations does not depend on how they are
    grouped; and no merge forgets: whatever either side had recorded, survey evidence
    included, the result has recorded. *)
Theorem location_merge_is_a_monoid a b c :
  merge_from (merge_from a b) c = merge_from a (merge_from b c) ∧
  merge_from a a = a ∧ lo_key (merge_from a b) = lo_key a ∧
  knows_no_less a (merge_from a b) ∧ knows_no_less b (merge_from a b).
Proof.
  split_and!; [| |done|..].
  - destruct a as [? ? ? ? ? ? ? ? [] [] ?], b as [? ? ? ? ? ? ? ? [] [] ?],
      c as [? ? ? ? ? ? ? ? [] [] ?]. unfold merge_from, merge_environment, merge_progress. simpl.
    rewrite !merge_knowledge_assoc, !preserve_assoc, map_union_assoc. f_equal.
    by destruct lo_system_tags2.
  - destruct a as [? ? ? ? ? ? ? ? [] [] ?]. unfold merge_from, merge_environment, merge_progress. simpl.
    rewrite !merge_knowledge_idemp, !preserve_idemp, map_union_idemp. f_equal.
    by destruct lo_system_tags0.
  - apply knows_left.
  - apply knows_right.
Qed.
End Algebra.
