(* ===== verification/ManagedState.v ===== *)
(** * The managed state engine

    [src/managed/state.rs] with the part of [src/managed/store.rs] it writes through: an
    in-memory snapshot that is committed to the durable store before it is published, and
    restored from it at start-up.  Devices, replicants, locations, simulations and the star
    catalogue are modelled; the rows of a table are decoded
    values, and a table is a map from the key its rows are inserted under, which is the
    key of the document.  A store call takes the
    outcome of its commit as an argument: when it fails, nothing is written or published. *)

From S2P Require Import Prelude Float64 Observations Entities Locations.

(** ** Simulations *)

Inductive SimulationLifecycle := Synchronizing | Active | AbandonPending | AbandonAmbiguous | Ended.
Record SimulationRun := {
  si_id : Z;
  si_scenario_code : option string;
  si_scenario_name : option string;
  si_starting_location : option WorldKey;
  si_starting_star : option WorldKey;
  si_is_mine : bool;
  si_started_at : option string;
  si_completed_at : option string;
  si_lifecycle : SimulationLifecycle;
  si_seed_failures : list string;
  si_replicant_code : option string;
}.

(** What the code reads of a [rusqlite::Error]: a column that does not decode. *)
Inductive SqlError := InvalidColumnType (column : string) | OtherSqlError (message : string).
Inductive StoreError :=
| Sql (error : SqlError)
| Io (message : string)
| Serialization (message : string)
| AccountMismatch (stored_account_id supplied_account_id : string)
| InjectedCommitFailure
| InjectedMigrationInterruption
| Closed
| Backpressure
| WorkerStart (message : string)
| InvalidEventId (id : string)
| UnsupportedProjectionKind (kind : string)
| UnsupportedSchemaVersion (found supported : Z)
| UnsupportedHistorySchemaVersion (found supported : Z)
| Refresh (message : string).

Section Engine.
Context {Json Atmosphere : Type} `{Json_eq : EqDecision Json}.

(** ** The durable store *)

(** A row of [devices]: the document, and the columns that are read back. *)
Record DeviceRow := {
  dw_observation : Observation (Device Json);
  dw_observed_at : Z;
  dw_access_scope : AccessScope;
}.

Record Durable := {
  du_devices : gmap WorldKey DeviceRow;
  du_replicants : gmap WorldKey (Observation (Replicant Json));
  du_locations : gmap WorldKey (Observation (Location Json Atmosphere));
  du_simulations : gmap Z (Observation SimulationRun);
  du_stars : gmap WorldKey (Observation Star);
  (** the singleton row of [catalogue_metadata]; an inner [None] is [NULL] *)
  du_catalogue_metadata : option (option string);
  du_device_tombstones : gset WorldKey;
}.

Definition with_device_rows (rows : gmap WorldKey DeviceRow) (d : Durable) : Durable :=
  {| du_devices := rows; du_replicants := du_replicants d; du_locations := du_locations d;
     du_simulations := du_simulations d; du_stars := du_stars d;
     du_catalogue_metadata := du_catalogue_metadata d;
     du_device_tombstones := du_device_tombstones d |}.
Definition with_stars (stars : gmap WorldKey (Observation Star)) (metadata : option (option string))
    (d : Durable) : Durable :=
  {| du_devices := du_devices d; du_replicants := du_replicants d; du_locations := du_locations d;
     du_simulations := du_simulations d; du_stars := stars; du_catalogue_metadata := metadata;
     du_device_tombstones := du_device_tombstones d |}.

(** [persist_device]: the row of the upsert. *)
Definition persist_device (rows : gmap WorldKey DeviceRow) (o : Observation (Device Json))
  : gmap WorldKey DeviceRow :=
  <[dv_key (ob_value o) := {| dw_observation := o;
      dw_observed_at := om_observed_at (ob_metadata o);
      dw_access_scope := om_access (ob_metadata o) |}]> rows.

(** [UPDATE devices SET observed_at = MAX(observed_at, ?3)] *)
Definition touch_device (rows : gmap WorldKey DeviceRow) (touch : WorldKey * Z)
  : gmap WorldKey DeviceRow :=
  alter (λ row, {| dw_observation := dw_observation row;
                   dw_observed_at := Z.max (dw_observed_at row) touch.2;
                   dw_access_scope := dw_access_scope row |}) touch.1 rows.

(** [Store::persist_devices_and_touch] *)
Definition persist_devices_and_touch (changed : list (Observation (Device Json)))
    (touches : list (WorldKey * Z)) (d : Durable) : Durable :=
  with_device_rows (foldl touch_device (foldl persist_device (du_devices d) changed) touches) d.

Definition set_observed_at {T} (t : Z) (o : Observation T) : Observation T :=
  let m := ob_metadata o in
  {| ob_value := ob_value o;
     ob_metadata := {| om_source := om_source m; om_authority := om_authority m;
       om_observed_at := t; om_access := om_access m; om_reachability := om_reachability m;
       om_stale := om_stale m; om_source_document := om_source_document m |} |}.

Definition restore_row (row : DeviceRow) : Observation (Device Json) :=
  let o := dw_observation row in
  set_observed_at (Z.max (om_observed_at (ob_metadata o)) (dw_observed_at row)) o.

(** [Store::restore_devices]: keyed by the document's own key. *)
Definition restore_devices (d : Durable) : gmap WorldKey (Observation (Device Json)) :=
  list_to_map ((λ kr : WorldKey * DeviceRow, (dv_key (ob_value (dw_observation kr.2)), restore_row kr.2))
    <$> map_to_list (du_devices d)).

(** [Store::restore_catalogue]: a [NULL] generation time does not decode as a string. *)
Definition restore_catalogue (d : Durable)
  : result StoreError (gmap WorldKey (Observation Star) * option string) :=
  match du_catalogue_metadata d with
  | None => Ok (du_stars d, None)
  | Some (Some generated_at) => Ok (du_stars d, Some generated_at)
  | Some None => Err (Sql (InvalidColumnType "generated_at"))
  end.

(** [Store::reconcile_owned_devices]: the reachable owned rows. *)
Definition reconcilable (row : DeviceRow) : Prop :=
  dw_access_scope row = Owned ∧ om_reachability (ob_metadata (dw_observation row)) = Reachable.
#[global] Instance reconcilable_dec row : Decision (reconcilable row).
Proof. unfold reconcilable. apply _. Defined.

Definition missing_row (present : gset WorldKey) (row : DeviceRow) : Prop :=
  reconcilable row ∧ dv_key (ob_value (dw_observation row)) ∉ present.
#[global] Instance missing_row_dec present row : Decision (missing_row present row).
Proof. unfold missing_row. apply _. Defined.

Definition store_reconcile_owned_devices (present : gset WorldKey) (d : Durable)
  : result StoreError Durable :=
  let eligible := size (filter (λ kr : WorldKey * DeviceRow, reconcilable kr.2) (du_devices d)) in
  let missing := filter (λ kr : WorldKey * DeviceRow, missing_row present kr.2) (du_devices d) in
  if decide (present = ∅ ∧ (0 < eligible)%nat)
  then Err (Refresh "empty device enumeration cannot remove non-empty local state")
  else if decide (0 < eligible ∧ eligible * 20 < size missing * 100)%nat
  then Err (Refresh "device enumeration shrink exceeds the guarded approval threshold")
  else Ok {| du_devices := filter (λ kr : WorldKey * DeviceRow, ¬ missing_row present kr.2) (du_devices d);
             du_replicants := du_replicants d; du_locations := du_locations d;
             du_simulations := du_simulations d; du_stars := du_stars d;
             du_catalogue_metadata := du_catalogue_metadata d;
             du_device_tombstones := du_device_tombstones d ∪ dom missing |}.

(** [Store::purge_realm_devices] *)
Definition store_purge_realm_devices (realm : Realm) (d : Durable) : gset WorldKey * Durable :=
  (dom (filter (λ kr : WorldKey * DeviceRow, wk_realm kr.1 = realm) (du_devices d)),
   with_device_rows (filter (λ kr : WorldKey * DeviceRow, wk_realm kr.1 ≠ realm) (du_devices d)) d).

(** ** The engine *)

Record Engine := {
  en_revision : Z;
  en_galaxy_revision : Z;
  en_galaxy_projection_revision : Z;
  en_devices : gmap WorldKey (Observation (Device Json));
  en_replicants : gmap WorldKey (Observation (Replicant Json));
  en_locations : gmap WorldKey (Observation (Location Json Atmosphere));
  en_simulations : gmap Z (Observation SimulationRun);
  en_catalogue : gmap WorldKey (Observation Star);
  en_generated_at : option string;
  en_durable : Durable;
}.

(** [StateEngine::from_store] *)
Definition from_store (d : Durable) : result StoreError Engine :=
  catalogue ← restore_catalogue d;
  mret {| en_revision := 0; en_galaxy_revision := 0; en_galaxy_projection_revision := 0;
     en_devices := restore_devices d; en_replicants := du_replicants d;
     en_locations := du_locations d; en_simulations := du_simulations d;
     en_catalogue := catalogue.1; en_generated_at := catalogue.2; en_durable := d |}.

(** Publishes devices with the revisions advanced by the given amounts. *)
Definition publish_devices (advance : Z)
    (devices : gmap WorldKey (Observation (Device Json))) (durable : Durable) (e : Engine) : Engine :=
  {| en_revision := en_revision e + advance; en_galaxy_revision := en_galaxy_revision e + advance;
     en_galaxy_projection_revision := en_galaxy_projection_revision e;
     en_devices := devices; en_replicants := en_replicants e; en_locations := en_locations e;
     en_simulations := en_simulations e; en_catalogue := en_catalogue e;
     en_generated_at := en_generated_at e; en_durable := durable |}.

Definition publish_catalogue (advance galaxy : Z) (catalogue : gmap WorldKey (Observation Star))
    (generated_at : option string) (durable : Durable) (e : Engine) : Engine :=
  {| en_revision := en_revision e + advance; en_galaxy_revision := en_galaxy_revision e + galaxy;
     en_galaxy_projection_revision := en_galaxy_projection_revision e + galaxy;
     en_devices := en_devices e; en_replicants := en_replicants e; en_locations := en_locations e;
     en_simulations := en_simulations e; en_catalogue := catalogue;
     en_generated_at := generated_at; en_durable := durable |}.

(** [same_projected_observation] *)
Definition same_projected_observation {T} `{EqDecision T} (existing incoming : Observation T) : bool :=
  bool_decide (ob_value existing = ob_value incoming)
  && bool_decide (om_source (ob_metadata existing) = om_source (ob_metadata incoming))
  && bool_decide (om_authority (ob_metadata existing) = om_authority (ob_metadata incoming))
  && bool_decide (om_access (ob_metadata existing) = om_access (ob_metadata incoming))
  && bool_decide (om_reachability (ob_metadata existing) = om_reachability (ob_metadata incoming))
  && bool_decide (om_stale (ob_metadata existing) = om_stale (ob_metadata incoming)).

Definition set_source_document {T} (doc : SourceDocument) (o : Observation T) : Observation T :=
  let m := ob_metadata o in
  {| ob_value := ob_value o;
     ob_metadata := {| om_source := om_source m; om_authority := om_authority m;
       om_observed_at := om_observed_at m; om_access := om_access m;
       om_reachability := om_reachability m; om_stale := om_stale m; om_source_document := doc |} |}.

Record DeviceBatch := {
  db_next : gmap WorldKey (Observation (Device Json));
  db_changed : list (Observation (Device Json));
  db_touches : list (WorldKey * Z);
}.

(** The loop body of [persist_devices]; [previous] is the published snapshot. *)
Definition merge_incoming (previous : gmap WorldKey (Observation (Device Json))) (batch : DeviceBatch)
    (incoming : Observation (Device Json)) : DeviceBatch :=
  let value := match db_next batch !! dv_key (ob_value incoming) with
               | Some existing => merged (merge_device existing incoming)
               | None => incoming
               end in
  let key := dv_key (ob_value value) in
  match previous !! key with
  | Some existing =>
      if same_projected_observation existing value then
        let value := set_source_document (om_source_document (ob_metadata existing)) value in
        {| db_next := <[key := value]> (db_next batch); db_changed := db_changed batch;
           db_touches := db_touches batch ++ [(key, om_observed_at (ob_metadata value))] |}
      else {| db_next := <[key := value]> (db_next batch);
              db_changed := db_changed batch ++ [value]; db_touches := db_touches batch |}
  | None => {| db_next := <[key := value]> (db_next batch);
               db_changed := db_changed batch ++ [value]; db_touches := db_touches batch |}
  end.

Definition merge_batch (previous : gmap WorldKey (Observation (Device Json)))
    (devices : list (Observation (Device Json))) : DeviceBatch :=
  foldl (merge_incoming previous) {| db_next := previous; db_changed := []; db_touches := [] |} devices.

(** [StateEngine::persist_devices] *)
Definition persist_devices (commit : result StoreError unit) (devices : list (Observation (Device Json)))
  : tx Engine StoreError unit := λ e,
  let batch := merge_batch (en_devices e) devices in
  match db_changed batch, db_touches batch with
  | [], [] => Ok (tt, e)
  | changed, touches =>
      match commit with
      | Err error => Err error
      | Ok _ =>
          let durable := persist_devices_and_touch changed touches (en_durable e) in
          Ok (tt, publish_devices (match changed with [] => 0 | _ => 1 end) (db_next batch) durable e)
      end
  end.

(** [StateEngine::reconcile_owned_devices] *)
Definition keeps_device (present : gset WorldKey) (kd : WorldKey * Observation (Device Json)) : Prop :=
  kd.1 ∈ present ∨ om_reachability (ob_metadata kd.2) ≠ Reachable ∨
  om_access (ob_metadata kd.2) ≠ Owned.
#[global] Instance keeps_device_dec present kd : Decision (keeps_device present kd).
Proof. unfold keeps_device. apply _. Defined.

Definition reconcile_owned_devices (commit : result StoreError unit) (present : gset WorldKey)
  : tx Engine StoreError unit := λ e,
  match store_reconcile_owned_devices present (en_durable e), commit with
  | Err error, _ => Err error
  | Ok _, Err error => Err error
  | Ok durable, Ok _ =>
      let devices := filter (keeps_device present) (en_devices e) in
      let advance := if decide (devices = en_devices e) then 0 else 1 in
      Ok (tt, publish_devices advance devices durable e)
  end.

(** [StateEngine::purge_realm_devices] *)
Definition purge_realm_devices (commit : result StoreError unit) (realm : Realm)
  : tx Engine StoreError unit := λ e,
  match commit with
  | Err error => Err error
  | Ok _ =>
      let '(removed, durable) := store_purge_realm_devices realm (en_durable e) in
      if decide (removed = ∅) then Ok (tt, publish_devices 0 (en_devices e) durable e)
      else Ok (tt, publish_devices 1
             (filter (λ kd : WorldKey * Observation (Device Json), kd.1 ∉ removed) (en_devices e))
             durable e)
  end.

(** [StateEngine::reload_devices_after_refresh] *)
Definition reload_devices_after_refresh : tx Engine StoreError unit := λ e,
  let devices := restore_devices (en_durable e) in
  if decide (devices = en_devices e) then Ok (tt, e)
  else Ok (tt, publish_devices 1 devices (en_durable e) e).

(** [StateEngine::persist_replicant] *)
Definition persist_replicant (commit : result StoreError unit)
    (replicant : Observation (Replicant Json)) : tx Engine StoreError unit := λ e,
  match commit with
  | Err error => Err error
  | Ok _ =>
      let d := en_durable e in
      let key := re_key (ob_value replicant) in
      let galaxy_changed := match en_replicants e !! key with
                            | Some current => negb (same_projected_observation current replicant)
                            | None => true
                            end in
      Ok (tt, {| en_revision := en_revision e + 1;
        en_galaxy_revision := en_galaxy_revision e + (if galaxy_changed then 1 else 0);
        en_galaxy_projection_revision := en_galaxy_projection_revision e;
        en_devices := en_devices e; en_replicants := <[key := replicant]> (en_replicants e);
        en_locations := en_locations e; en_simulations := en_simulations e;
        en_catalogue := en_catalogue e; en_generated_at := en_generated_at e;
        en_durable := {| du_devices := du_devices d;
          du_replicants := <[key := replicant]> (du_replicants d);
          du_locations := du_locations d; du_simulations := du_simulations d; du_stars := du_stars d;
          du_catalogue_metadata := du_catalogue_metadata d;
          du_device_tombstones := du_device_tombstones d |} |})
  end.

(** [StateEngine::persist_location] *)
Definition persist_location (commit : result StoreError unit)
    (location : Observation (Location Json Atmosphere)) : tx Engine StoreError unit := λ e,
  let location := match en_locations e !! lo_key (ob_value location) with
                  | Some existing => {| ob_value := merge_from (ob_value existing) (ob_value location);
                                        ob_metadata := ob_metadata location |}
                  | None => location
                  end in
  match commit with
  | Err error => Err error
  | Ok _ =>
      let d := en_durable e in
      let key := lo_key (ob_value location) in
      Ok (tt, {| en_revision := en_revision e + 1; en_galaxy_revision := en_galaxy_revision e;
        en_galaxy_projection_revision := en_galaxy_projection_revision e;
        en_devices := en_devices e; en_replicants := en_replicants e;
        en_locations := <[key := location]> (en_locations e);
        en_simulations := en_simulations e; en_catalogue := en_catalogue e;
        en_generated_at := en_generated_at e;
        en_durable := {| du_devices := du_devices d; du_replicants := du_replicants d;
          du_locations := <[key := location]> (du_locations d);
          du_simulations := du_simulations d; du_stars := du_stars d;
          du_catalogue_metadata := du_catalogue_metadata d;
          du_device_tombstones := du_device_tombstones d |} |})
  end.

(** [StateEngine::persist_simulation_and_devices]; [persist_simulation] has no devices. *)
Definition persist_simulation_and_devices (commit : result StoreError unit)
    (simulation : Observation SimulationRun) (devices : list (Observation (Device Json)))
  : tx Engine StoreError unit := λ e,
  match commit with
  | Err error => Err error
  | Ok _ =>
      let d := en_durable e in
      let id := si_id (ob_value simulation) in
      Ok (tt, {| en_revision := en_revision e + 1;
        en_galaxy_revision := en_galaxy_revision e + match devices with [] => 0 | _ => 1 end;
        en_galaxy_projection_revision := en_galaxy_projection_revision e;
        en_devices := foldl (λ m o, <[dv_key (ob_value o) := o]> m) (en_devices e) devices;
        en_replicants := en_replicants e; en_locations := en_locations e;
        en_simulations := <[id := simulation]> (en_simulations e);
        en_catalogue := en_catalogue e; en_generated_at := en_generated_at e;
        en_durable := {| du_devices := foldl persist_device (du_devices d) devices;
          du_replicants := du_replicants d; du_locations := du_locations d;
          du_simulations := <[id := simulation]> (du_simulations d); du_stars := du_stars d;
          du_catalogue_metadata := du_catalogue_metadata d;
          du_device_tombstones := du_device_tombstones d |} |})
  end.
Definition persist_simulation (commit : result StoreError unit) (simulation : Observation SimulationRun)
  : tx Engine StoreError unit := persist_simulation_and_devices commit simulation [].

(** ** The catalogue *)

(** The loop body of [replace_catalogue]. *)
Definition merge_catalogue_star (catalogue : gmap WorldKey (Observation Star))
    (incoming : Observation Star) : gmap WorldKey (Observation Star) :=
  match catalogue !! sr_key (ob_value incoming) with
  | Some current =>
      let value := merged (merge_star current incoming) in
      <[sr_key (ob_value value) := value]> (delete (sr_key (ob_value incoming)) catalogue)
  | None => <[sr_key (ob_value incoming) := incoming]> catalogue
  end.

(** Some star is new or has a different value. *)
Definition catalogue_changed (existing catalogue : gmap WorldKey (Observation Star)) : bool :=
  existsb (λ ks : WorldKey * Observation Star,
    match existing !! ks.1 with
    | None => true
    | Some current => negb (star_eqb (ob_value current) (ob_value ks.2))
    end) (map_to_list catalogue).

(** [INSERT INTO stars … ON CONFLICT DO UPDATE], and the same on the published map: each
    star goes under its own key. *)
Definition insert_stars (stars table : gmap WorldKey (Observation Star))
  : gmap WorldKey (Observation Star) :=
  foldl (λ table star, <[sr_key (ob_value star) := star]> table) table (map_to_list stars).*2.

(** [StateEngine::replace_catalogue] *)
Definition replace_catalogue (commit : result StoreError unit) (stars : list (Observation Star))
    (generated_at : option string) : tx Engine StoreError unit := λ e,
  let catalogue := foldl merge_catalogue_star (en_catalogue e) stars in
  let galaxy := if catalogue_changed (en_catalogue e) catalogue then 1 else 0 in
  match commit with
  | Err error => Err error
  | Ok _ =>
      let durable := with_stars (insert_stars catalogue (du_stars (en_durable e))) (Some generated_at) (en_durable e) in
      Ok (tt, publish_catalogue 1 galaxy catalogue generated_at durable e)
  end.

Definition with_account_facts (knowledge : bool) (explored has_life : option bool)
    (o : Observation Star) : Observation Star :=
  let s := ob_value o in
  {| ob_value := {| sr_key := sr_key s; sr_name := sr_name s; sr_spectral_type := sr_spectral_type s;
       sr_entry_point := sr_entry_point s; sr_position := sr_position s; sr_has_hub := sr_has_hub s;
       sr_has_ward := sr_has_ward s; sr_knowledge_observed := knowledge; sr_explored := explored;
       sr_has_life := has_life; sr_region := sr_region s |};
     ob_metadata := ob_metadata o |}.

Definition merge_star_facts (current incoming : Observation Star) : Observation Star :=
  with_account_facts
    (sr_knowledge_observed (ob_value current) || sr_knowledge_observed (ob_value incoming))
    (merge_positive_account_fact (sr_explored (ob_value current)) (sr_explored (ob_value incoming)))
    (merge_positive_account_fact (sr_has_life (ob_value current)) (sr_has_life (ob_value incoming)))
    (merged (merge_star current incoming)).

(** The loop body of [persist_star_knowledge_batch]: the catalogue and the changed stars. *)
Definition merge_knowledge_star
    (acc : gmap WorldKey (Observation Star) * gmap WorldKey (Observation Star))
    (knowledge : Observation StarKnowledge)
  : gmap WorldKey (Observation Star) * gmap WorldKey (Observation Star) :=
  let '(catalogue, changed) := acc in
  let incoming := account_star_from_knowledge knowledge in
  let key := sr_key (ob_value incoming) in
  let value := match catalogue !! key with
               | Some current => merge_star_facts current incoming
               | None => incoming
               end in
  let unchanged := match catalogue !! key with
                   | Some current => star_eqb (ob_value current) (ob_value value)
                   | None => false
                   end in
  if unchanged then (catalogue, changed)
  else (<[key := value]> catalogue, <[key := value]> changed).

(** [StateEngine::persist_star_knowledge_batch] *)
Definition persist_star_knowledge_batch (commit : result StoreError unit)
    (knowledge : list (Observation StarKnowledge)) : tx Engine StoreError unit := λ e,
  let changed := (foldl merge_knowledge_star (en_catalogue e, ∅) knowledge).2 in
  if decide (changed = ∅) then Ok (tt, e)
  else
    match commit with
    | Err error => Err error
    | Ok _ =>
        let durable := with_stars (insert_stars changed (du_stars (en_durable e)))
                         (du_catalogue_metadata (en_durable e)) (en_durable e) in
        Ok (tt, publish_catalogue 1 1 (insert_stars changed (en_catalogue e)) (en_generated_at e)
                durable e)
    end.

(** Equality of two published catalogues. *)
Definition catalogue_eqb (left right : gmap WorldKey (Observation Star)) : bool :=
  bool_decide (size left = size right) &&
  forallb (λ ks : WorldKey * Observation Star,
    match right !! ks.1 with
    | None => false
    | Some star => star_eqb (ob_value ks.2) (ob_value star)
                   && bool_decide (ob_metadata ks.2 = ob_metadata star)
    end) (map_to_list left).

(** [StateEngine::reload_catalogue_after_refresh] *)
Definition reload_catalogue_after_refresh : tx Engine StoreError unit := λ e,
  match restore_catalogue (en_durable e) with
  | Err error => Err error
  | Ok (catalogue, generated_at) =>
      if catalogue_eqb (en_catalogue e) catalogue && bool_decide (en_generated_at e = generated_at)
      then Ok (tt, e)
      else Ok (tt, publish_catalogue 1 1 catalogue generated_at (en_durable e) e)
  end.

(** ** Sequences of operations *)

Inductive Operation :=
| PersistDevices (devices : list (Observation (Device Json)))
| ReconcileOwnedDevices (present : gset WorldKey)
| PurgeRealmDevices (realm : Realm)
| ReloadDevices
| PersistReplicant (replicant : Observation (Replicant Json))
| PersistLocation (location : Observation (Location Json Atmosphere))
| PersistSimulation (simulation : Observation SimulationRun) (devices : list (Observation (Device Json)))
| ReplaceCatalogue (stars : list (Observation Star)) (generated_at : option string)
| PersistStarKnowledge (knowledge : list (Observation StarKnowledge))
| ReloadCatalogue.

Definition operate (commit : result StoreError unit) (op : Operation) : tx Engine StoreError unit :=
  match op with
  | PersistDevices devices => persist_devices commit devices
  | ReconcileOwnedDevices present => reconcile_owned_devices commit present
  | PurgeRealmDevices realm => purge_realm_devices commit realm
  | ReloadDevices => reload_devices_after_refresh
  | PersistReplicant replicant => persist_replicant commit replicant
  | PersistLocation location => persist_location commit location
  | PersistSimulation simulation devices => persist_simulation_and_devices commit simulation devices
  | ReplaceCatalogue stars generated_at => replace_catalogue commit stars generated_at
  | PersistStarKnowledge knowledge => persist_star_knowledge_batch commit knowledge
  | ReloadCatalogue => reload_catalogue_after_refresh
  end.

(** What happens to a process: an operation whose commit has the given outcome, or a
    restart, which keeps the durable store only. *)
Inductive Event :=
| Do (commit : result StoreError unit) (op : Operation)
| Restart.

(** A failed operation leaves the engine as it was; a failed restart leaves no engine. *)
Definition happen (event : Event) (e : Engine) : result StoreError Engine :=
  match event with
  | Do commit op => Ok (match operate commit op e with Ok (_, e') => e' | Err _ => e end)
  | Restart => from_store (en_durable e)
  end.

Fixpoint happen_all (events : list Event) (e : Engine) : result StoreError Engine :=
  match events with
  | [] => Ok e
  | event :: events => e' ← happen event e; happen_all events e'
  end.

End Engine.
