(* ===== verification/ManagedStateFacts.v ===== *)
(** * The state engine and its store agree

    For [ManagedState.v]: after every operation the published collections are the ones a
    restart would restore from the durable store; what observations may and may not
    change; and where the engine and the store part. *)

From S2P Require Import Prelude Float64 Observations Entities Locations ManagedState.

(** ** Order of observations *)

Definition older (a b : ObservationMetadata) : Prop := metadata_order a b = Lt.

(** The key by which observations are ordered. *)
Definition rank (m : ObservationMetadata) : Z * Z * Z :=
  (om_observed_at m, authority_rank (om_authority m), source_rank (om_source m)).

Lemma older_rank a b : older a b ↔
  om_observed_at a < om_observed_at b ∨
  om_observed_at a = om_observed_at b ∧
    (authority_rank (om_authority a) < authority_rank (om_authority b) ∨
     authority_rank (om_authority a) = authority_rank (om_authority b) ∧
       source_rank (om_source a) < source_rank (om_source b)).
Proof.
  unfold older, metadata_order, then_with.
  destruct (Z.compare_spec (om_observed_at a) (om_observed_at b)); [|intuition (lia || done)..].
  destruct (Z.compare_spec (authority_rank (om_authority a)) (authority_rank (om_authority b)));
    [|intuition (lia || done)..].
  rewrite Z.compare_lt_iff. intuition lia.
Qed.

Lemma is_lt_older a b : is_lt (metadata_order a b) = true ↔ older a b.
Proof. unfold older. destruct (metadata_order a b); naive_solver. Qed.

Lemma not_older_time a b : ¬ older a b → om_observed_at b ≤ om_observed_at a.
Proof. rewrite older_rank. lia. Qed.

(** Merging a sequence of snapshots. *)
Definition merge_all {T} (first : Observation T) (rest : list (Observation T)) : Observation T :=
  foldl (λ acc o, merged (merge_snapshot acc o)) first rest.

Lemma merge_all_spec {T} (first : Observation T) rest :
  merge_all first rest ∈ first :: rest ∧
  ∀ o, o ∈ first :: rest → ¬ older (ob_metadata (merge_all first rest)) (ob_metadata o).
Proof.
  unfold merge_all. revert first. induction rest as [|o rest IH]; intros first; cbn [foldl].
  { split; [by left|]. intros o ->%list_elem_of_singleton. rewrite older_rank. lia. }
  destruct (IH (merged (merge_snapshot first o))) as [Hin Hmax].
  set (r := foldl _ _ rest) in *.
  assert (Hs : (merged (merge_snapshot first o) = o ∧ ¬ older (ob_metadata o) (ob_metadata first)) ∨
    (merged (merge_snapshot first o) = first ∧ older (ob_metadata o) (ob_metadata first))).
  { unfold merge_snapshot. destruct (is_lt _) eqn:E; [right|left]; (split; [done|]).
    - by apply is_lt_older.
    - intros Ho%is_lt_older. congruence. }
  split.
  - destruct Hs as [[Hs _]|[Hs _]]; rewrite Hs in Hin; set_solver.
  - assert (Hr : ¬ older (ob_metadata r) (ob_metadata (merged (merge_snapshot first o))))
      by (apply Hmax; by left).
    intros x Hx. apply elem_of_cons in Hx as [->|[->|Hx]%elem_of_cons].
    + destruct Hs as [[Hs Ho]|[Hs Ho]]; rewrite Hs in Hr; [|done].
      revert Hr Ho. rewrite !older_rank. lia.
    + destruct Hs as [[Hs Ho]|[Hs Ho]]; rewrite Hs in Hr; [done|].
      revert Hr Ho. rewrite !older_rank. lia.
    + apply Hmax. by right.
Qed.

(** whatever the order in which snapshots of an entity arrive, the one that is kept is
    not older than any of them, by time, then authority, then source; and when one is
    strictly the newest it is the one kept, in every order of arrival. *)
Theorem newest_observation_wins {T} (first : Observation T) rest newest :
  (∀ o, o ∈ first :: rest → ¬ older (ob_metadata (merge_all first rest)) (ob_metadata o)) ∧
  (newest ∈ first :: rest →
   (∀ o, o ∈ first :: rest → o = newest ∨ older (ob_metadata o) (ob_metadata newest)) →
   ∀ first' rest', first' :: rest' ≡ₚ first :: rest → merge_all first' rest' = newest).
Proof.
  split; [apply merge_all_spec|]. intros Hin Hnew first' rest' Hp.
  destruct (merge_all_spec first' rest') as [Hm Hmax]. rewrite Hp in Hm.
  specialize (Hmax newest). rewrite Hp in Hmax. specialize (Hmax Hin).
  by destruct (Hnew _ Hm).
Qed.

(** ** Stars under their own keys *)

Definition keyed_stars (m : gmap WorldKey (Observation Star)) : Prop :=
  ∀ k o, m !! k = Some o → sr_key (ob_value o) = k.

Lemma insert_stars_spec stars table : keyed_stars stars → insert_stars stars table = stars ∪ table.
Proof.
  intros Hk. unfold insert_stars. rewrite <-(list_to_map_to_list stars) at 2.
  assert (Hl : ∀ ks, ks ∈ map_to_list stars → sr_key (ob_value ks.2) = ks.1)
    by (intros [k o] Hin%elem_of_map_to_list; by apply Hk).
  pose proof (NoDup_fst_map_to_list stars) as Hnd. revert table Hl Hnd.
  induction (map_to_list stars) as [|[k o] l IH]; intros table Hl Hnd.
  { by rewrite list_to_map_nil, (left_id_L ∅ (∪)). }
  rewrite fmap_cons in Hnd. apply NoDup_cons in Hnd as [Hk0 Hnd]. cbn [fmap list_fmap foldl snd].
  rewrite IH by (done || set_solver). rewrite list_to_map_cons.
  assert (sr_key (ob_value o) = k) as -> by (apply (Hl (k, o)); by left).
  rewrite <-insert_union_r; [by rewrite insert_union_l|]. by apply not_elem_of_list_to_map_1.
Qed.

Lemma merge_star_key existing incoming :
  sr_key (ob_value existing) = sr_key (ob_value incoming) →
  sr_key (ob_value (merged (merge_star existing incoming))) = sr_key (ob_value incoming).
Proof. intros Hk. unfold merge_star. by destruct (is_lt _). Qed.

Lemma merge_catalogue_star_spec m o :
  keyed_stars m →
  keyed_stars (merge_catalogue_star m o) ∧ dom m ⊆ dom (merge_catalogue_star m o).
Proof.
  intros Hk. unfold merge_catalogue_star.
  destruct (m !! sr_key (ob_value o)) as [current|] eqn:E.
  - rewrite merge_star_key by by apply Hk. rewrite insert_delete_eq. split; [|set_solver].
    intros k s [[<- <-]|[_ Hs]]%lookup_insert_Some; [|by apply Hk].
    apply merge_star_key. by apply Hk.
  - split; [|set_solver]. intros k s [[<- <-]|[_ Hs]]%lookup_insert_Some; [done|by apply Hk].
Qed.

Lemma merge_catalogue_stars_spec stars m :
  keyed_stars m →
  keyed_stars (foldl merge_catalogue_star m stars) ∧ dom m ⊆ dom (foldl merge_catalogue_star m stars).
Proof.
  revert m. induction stars as [|o stars IH]; intros m Hk; [done|]. cbn [foldl].
  destruct (merge_catalogue_star_spec m o Hk) as [Hk' Hd]. destruct (IH _ Hk') as [? ?].
  split; [done|]. by etrans.
Qed.

Lemma merge_knowledge_star_spec acc o :
  keyed_stars acc.1 → keyed_stars acc.2 →
  keyed_stars (merge_knowledge_star acc o).1 ∧ keyed_stars (merge_knowledge_star acc o).2.
Proof.
  destruct acc as [m changed]. simpl. intros Hk Hc. unfold merge_knowledge_star.
  set (incoming := account_star_from_knowledge o).
  set (value := match m !! sr_key (ob_value incoming) with
                | Some current => merge_star_facts current incoming | None => incoming end).
  assert (Hv : sr_key (ob_value value) = sr_key (ob_value incoming)).
  { unfold value. destruct (m !! _) as [current|] eqn:E; [|done].
    change (sr_key (ob_value (merged (merge_star current incoming))) = sr_key (ob_value incoming)).
    apply merge_star_key. by apply Hk. }
  match goal with |- context [if ?unchanged then _ else _] => destruct unchanged end; [done|]. simpl.
  split; intros k s [[<- <-]|[_ Hs]]%lookup_insert_Some; auto.
Qed.

Lemma merge_knowledge_stars_spec knowledge acc :
  keyed_stars acc.1 → keyed_stars acc.2 → keyed_stars (foldl merge_knowledge_star acc knowledge).2.
Proof.
  revert acc. induction knowledge as [|o knowledge IH]; intros acc H1 H2; [done|].
  cbn [foldl]. destruct (merge_knowledge_star_spec acc o H1 H2). by apply IH.
Qed.

(** ** What is known of a star stays known *)

Definition known {T} (old new : option T) : Prop := is_Some old → is_Some new.

(** Every fact that [old] has, [new] has too. *)
Record star_le (old new : Star) : Prop := {
  sl_name : known (sr_name old) (sr_name new);
  sl_spectral_type : known (sr_spectral_type old) (sr_spectral_type new);
  sl_entry_point : known (sr_entry_point old) (sr_entry_point new);
  sl_position : known (sr_position old) (sr_position new);
  sl_has_hub : known (sr_has_hub old) (sr_has_hub new);
  sl_has_ward : known (sr_has_ward old) (sr_has_ward new);
  sl_observed : sr_knowledge_observed old = true → sr_knowledge_observed new = true;
  sl_explored : known (sr_explored old) (sr_explored new);
  sl_has_life : known (sr_has_life old) (sr_has_life new);
  sl_region : known (sr_region old) (sr_region new);
}.
#[local] Instance star_le_preorder : PreOrder star_le.
Proof. split; [intros x; split; unfold known; auto|]. intros x y z [] []. split; unfold known in *; auto. Qed.

Lemma known_preserve {T} (incoming existing : option T) : known existing (preserve incoming existing).
Proof. unfold known. by destruct incoming. Qed.

Lemma merge_star_le existing incoming :
  star_le (ob_value existing) (ob_value (merged (merge_star existing incoming))).
Proof.
  unfold merge_star. destruct (is_lt _); [reflexivity|]. simpl.
  split; simpl; try apply known_preserve. intros ->. apply orb_true_r.
Qed.

Lemma merge_star_facts_le existing incoming :
  star_le (ob_value existing) (ob_value (merge_star_facts existing incoming)).
Proof.
  destruct (merge_star_le existing incoming). split; simpl; try done.
  - by intros ->.
  - unfold known. by destruct (sr_explored (ob_value existing)), (sr_explored (ob_value incoming)).
  - unfold known. by destruct (sr_has_life (ob_value existing)), (sr_has_life (ob_value incoming)).
Qed.

Definition catalogue_le (old new : gmap WorldKey (Observation Star)) : Prop :=
  ∀ k o, old !! k = Some o → ∃ o', new !! k = Some o' ∧ star_le (ob_value o) (ob_value o').
#[local] Instance catalogue_le_preorder : PreOrder catalogue_le.
Proof.
  split; [by intros m k o Ho; exists o|]. intros m1 m2 m3 H12 H23 k o Ho.
  destruct (H12 k o Ho) as (o2&H2&?), (H23 k o2 H2) as (o3&?&?). exists o3. split; [done|by etrans].
Qed.

Lemma catalogue_le_insert m k o :
  (∀ current, m !! k = Some current → star_le (ob_value current) (ob_value o)) →
  catalogue_le m (<[k := o]> m).
Proof.
  intros Hle k' s Hs. destruct (decide (k = k')) as [<-|].
  - exists o. rewrite lookup_insert_eq. auto.
  - exists s. by rewrite lookup_insert_ne.
Qed.

Lemma merge_catalogue_stars_le stars m :
  keyed_stars m → catalogue_le m (foldl merge_catalogue_star m stars).
Proof.
  revert m. induction stars as [|o stars IH]; intros m Hk; [done|]. cbn [foldl].
  etrans; [|apply IH, merge_catalogue_star_spec, Hk]. unfold merge_catalogue_star.
  destruct (m !! sr_key (ob_value o)) as [current|] eqn:E.
  - rewrite merge_star_key by by apply Hk. rewrite insert_delete_eq.
    apply catalogue_le_insert. intros c Hc. simplify_eq. apply merge_star_le.
  - apply catalogue_le_insert. intros c Hc. congruence.
Qed.

(** The changes of a batch of knowledge, laid over the catalogue, are its new catalogue. *)
Lemma merge_knowledge_star_le m0 acc o :
  catalogue_le m0 acc.1 → acc.1 = acc.2 ∪ m0 →
  catalogue_le m0 (merge_knowledge_star acc o).1 ∧
  (merge_knowledge_star acc o).1 = (merge_knowledge_star acc o).2 ∪ m0.
Proof.
  destruct acc as [m changed]. simpl. intros Hle Heq. unfold merge_knowledge_star.
  match goal with |- context [if ?unchanged then _ else _] => destruct unchanged end; [done|]. simpl.
  split; [|by rewrite Heq at 2; rewrite insert_union_l].
  etrans; [done|]. apply catalogue_le_insert. intros current ->. apply merge_star_facts_le.
Qed.

Lemma merge_knowledge_stars_le knowledge m0 acc :
  catalogue_le m0 acc.1 → acc.1 = acc.2 ∪ m0 →
  catalogue_le m0 ((foldl merge_knowledge_star acc knowledge).2 ∪ m0).
Proof.
  revert acc. induction knowledge as [|o knowledge IH]; intros acc Hle Heq; cbn [foldl].
  - by rewrite <-Heq.
  - destruct (merge_knowledge_star_le m0 acc o Hle Heq). by apply IH.
Qed.

(** ** Devices in memory and in the store *)

Section Mirror.
Context {Json Atmosphere : Type} `{Json_eq : EqDecision Json}.
Local Abbreviation Obs := (Observation (Device Json)).
Local Abbreviation Rows := (gmap WorldKey (DeviceRow (Json := Json))).
Implicit Types (o v existing incoming : Obs) (rows : Rows) (k : WorldKey).

(** The rows of a table are keyed by their documents. *)
Definition keyed rows : Prop := ∀ k row, rows !! k = Some row →
  dv_key (ob_value (dw_observation row)) = k ∧
  dw_access_scope row = om_access (ob_metadata (dw_observation row)).

(** A map of devices that the rows restore to. *)
Definition restores rows (m : gmap WorldKey Obs) : Prop := ∀ k, m !! k = restore_row <$> rows !! k.

Lemma set_observed_at_id {T} (o : Observation T) : set_observed_at (om_observed_at (ob_metadata o)) o = o.
Proof. by destruct o as [? []]. Qed.

Lemma restore_persisted o :
  restore_row {| dw_observation := o; dw_observed_at := om_observed_at (ob_metadata o);
                 dw_access_scope := om_access (ob_metadata o) |} = o.
Proof. unfold restore_row. simpl. rewrite Z.max_id. apply set_observed_at_id. Qed.

Lemma keyed_persist rows o : keyed rows → keyed (persist_device rows o).
Proof.
  intros Hk k row. unfold persist_device. rewrite lookup_insert_Some.
  intros [[<- <-]|[_ Hr]]; [done|by apply Hk].
Qed.

Lemma touch_lookup rows t k :
  touch_device rows t !! k = (λ row, if decide (t.1 = k) then
    {| dw_observation := dw_observation row; dw_observed_at := Z.max (dw_observed_at row) t.2;
       dw_access_scope := dw_access_scope row |} else row) <$> rows !! k.
Proof.
  unfold touch_device. destruct (decide (t.1 = k)) as [<-|].
  - by rewrite lookup_alter_eq.
  - rewrite lookup_alter_ne by done. by destruct (rows !! k).
Qed.

Lemma keyed_touch rows t : keyed rows → keyed (touch_device rows t).
Proof.
  intros Hk k row. rewrite touch_lookup. intros (row'&Hr&->)%fmap_Some.
  apply Hk in Hr. by case_decide.
Qed.

Lemma foldl_touch_other rows touches k :
  k ∉ touches.*1 → foldl touch_device rows touches !! k = rows !! k.
Proof.
  revert rows. induction touches as [|t touches IH]; intros rows Hk; [done|].
  rewrite fmap_cons, not_elem_of_cons in Hk. destruct Hk as [Hne Hk].
  cbn [foldl]. rewrite IH by done. unfold touch_device. by apply lookup_alter_ne.
Qed.

(** The key of a merged device is the key of both. *)
Lemma merge_device_key existing incoming :
  dv_key (ob_value existing) = dv_key (ob_value incoming) →
  dv_key (ob_value (merged (merge_device existing incoming))) = dv_key (ob_value incoming).
Proof. intros Hk. unfold merge_device. destruct (is_lt _); [done|]. simpl. by case_decide. Qed.

Lemma merge_device_time existing incoming :
  om_observed_at (ob_metadata existing)
  ≤ om_observed_at (ob_metadata (merged (merge_device existing incoming))).
Proof.
  unfold merge_device. destruct (is_lt _) eqn:E; [done|]. simpl. apply not_older_time.
  intros Ho%is_lt_older. congruence.
Qed.

(** Equal projections differ in their time and their source document only. *)
Lemma same_projected_spec existing v :
  same_projected_observation existing v = true →
  set_source_document (om_source_document (ob_metadata existing)) v
  = set_observed_at (om_observed_at (ob_metadata v)) existing.
Proof.
  unfold same_projected_observation. rewrite !andb_true_iff, !bool_decide_eq_true.
  destruct existing as [? []], v as [? []]. simpl. intros (((((->&->)&->)&->)&->)&->). done.
Qed.

(** A touch of the row that restores to [existing]. *)
Lemma restore_touched (row : DeviceRow (Json := Json)) t :
  om_observed_at (ob_metadata (restore_row row)) ≤ t →
  restore_row {| dw_observation := dw_observation row; dw_observed_at := Z.max (dw_observed_at row) t;
                 dw_access_scope := dw_access_scope row |} = set_observed_at t (restore_row row).
Proof.
  unfold restore_row, set_observed_at. simpl. intros Ht. do 2 f_equal. lia.
Qed.

Lemma restores_key rows m k o : keyed rows → restores rows m → m !! k = Some o → dv_key (ob_value o) = k.
Proof.
  intros Hk Hr. rewrite Hr. intros (row&Hrow&->)%fmap_Some. by apply Hk in Hrow as [].
Qed.

(** What a batch leaves to be written, and what is then in the rows. *)
Definition written rows (b : DeviceBatch (Json := Json)) : Rows :=
  foldl touch_device (foldl persist_device rows (db_changed b)) (db_touches b).

Record batch_ok rows (previous : gmap WorldKey Obs) (done : list Obs) (b : DeviceBatch) : Prop := {
  bk_restores : restores (written rows b) (db_next b);
  bk_keyed : keyed (written rows b);
  bk_other k : k ∉ (dv_key ∘ ob_value <$> done) →
    db_next b !! k = previous !! k ∧ written rows b !! k = rows !! k ∧ k ∉ (db_touches b).*1;
}.

Lemma written_changed rows b v next :
  dv_key (ob_value v) ∉ (db_touches b).*1 →
  written rows {| db_next := next; db_changed := db_changed b ++ [v]; db_touches := db_touches b |}
  = persist_device (written rows b) v.
Proof.
  unfold written. simpl. rewrite foldl_app. cbn [foldl].
  generalize (foldl persist_device rows (db_changed b)). induction (db_touches b) as [|t ts IH];
    intros m Hk; [done|]. rewrite fmap_cons, not_elem_of_cons in Hk. destruct Hk as [Hne Hk].
  cbn [foldl]. rewrite <-IH by done. f_equal.
  unfold touch_device, persist_device. by apply alter_insert_ne.
Qed.

Lemma written_touched rows b t next :
  written rows {| db_next := next; db_changed := db_changed b; db_touches := db_touches b ++ [t] |}
  = touch_device (written rows b) t.
Proof. unfold written. simpl. by rewrite foldl_app. Qed.

Lemma merge_incoming_ok rows previous done b incoming :
  keyed rows → restores rows previous → batch_ok rows previous done b →
  dv_key (ob_value incoming) ∉ (dv_key ∘ ob_value <$> done) →
  batch_ok rows previous (done ++ [incoming]) (merge_incoming previous b incoming).
Proof.
  intros Hrk Hrr [Hres Hkey Hother] Hfresh.
  set (k0 := dv_key (ob_value incoming)) in *.
  destruct (Hother k0 Hfresh) as (Hn0&Hw0&Ht0).
  unfold merge_incoming. fold k0. rewrite Hn0.
  set (v := match previous !! k0 with Some existing => merged (merge_device existing incoming)
            | None => incoming end).
  assert (Hvk : dv_key (ob_value v) = k0).
  { unfold v. destruct (previous !! k0) as [ex|] eqn:E; [|done].
    apply merge_device_key. by apply (restores_key _ _ _ _ Hrk Hrr) in E. }
  rewrite Hvk.
  assert (Hchanged : batch_ok rows previous (done ++ [incoming])
    {| db_next := <[k0 := v]> (db_next b); db_changed := db_changed b ++ [v];
       db_touches := db_touches b |}).
  { assert (Hw := written_changed rows b v (<[k0:=v]> (db_next b))). rewrite Hvk in Hw.
    specialize (Hw Ht0). split.
    - intros k. rewrite Hw. unfold persist_device. rewrite Hvk. simpl.
      destruct (decide (k0 = k)) as [<-|].
      + rewrite !lookup_insert_eq. simpl. by rewrite restore_persisted.
      + rewrite !lookup_insert_ne by done. apply Hres.
    - rewrite Hw. by apply keyed_persist.
    - intros k. rewrite fmap_app, not_elem_of_app. intros [Hk Hne].
      assert (k ≠ k0) by set_solver. rewrite Hw. unfold persist_device. rewrite Hvk. simpl.
      rewrite !lookup_insert_ne by done. by apply Hother. }
  destruct (previous !! k0) as [ex|] eqn:E; [|done].
  destruct (same_projected_observation ex v) eqn:Es; [|done]. clear Hchanged.
  rewrite (same_projected_spec _ _ Es). set (t := om_observed_at (ob_metadata v)).
  pose proof E as Erow. rewrite Hrr in Erow. apply fmap_Some in Erow as (row&Hrow&->).
  split; rewrite ?written_touched.
  - intros k. simpl. rewrite touch_lookup. simpl. destruct (decide (k0 = k)) as [<-|].
    + rewrite lookup_insert_eq, Hw0, Hrow. simpl. f_equal. symmetry. apply restore_touched.
      apply merge_device_time.
    + rewrite lookup_insert_ne by done. rewrite Hres. by destruct (written rows b !! k).
  - by apply keyed_touch.
  - intros k. rewrite fmap_app, not_elem_of_app. intros [Hk Hne].
    assert (k ≠ k0) by set_solver. simpl. destruct (Hother k Hk) as (Hn&Hw&Ht).
    rewrite touch_lookup, lookup_insert_ne by done. simpl.
    rewrite Hw. destruct (decide (k0 = k)); [congruence|].
    split_and!; [done|by destruct (rows !! k)|]. rewrite fmap_app. set_solver.
Qed.

Lemma merge_batch_ok rows previous devices :
  keyed rows → restores rows previous → NoDup (dv_key ∘ ob_value <$> devices) →
  batch_ok rows previous devices (merge_batch previous devices).
Proof.
  intros Hrk Hrr. unfold merge_batch. induction devices as [|o devices IH] using rev_ind; intros Hnd.
  { split; simpl; [done..|]. intros k _. split_and!; [done..|set_solver]. }
  rewrite fmap_app in Hnd. apply NoDup_app in Hnd as (Hnd&Hdis&_). rewrite foldl_snoc.
  apply merge_incoming_ok; [done..|by apply IH|]. intros Hin. apply (Hdis _ Hin). by left.
Qed.

(** ** The published collections are the durable ones *)

Local Abbreviation Eng := (Engine (Json := Json) (Atmosphere := Atmosphere)).
Implicit Types (e : Eng).

Record mirror e : Prop := {
  mi_keyed : keyed (du_devices (en_durable e));
  mi_devices : restores (du_devices (en_durable e)) (en_devices e);
  mi_replicants : du_replicants (en_durable e) = en_replicants e;
  mi_locations : du_locations (en_durable e) = en_locations e;
  mi_simulations : du_simulations (en_durable e) = en_simulations e;
  mi_catalogue : du_stars (en_durable e) = en_catalogue e;
  mi_generated : en_generated_at e = default None (du_catalogue_metadata (en_durable e));
}.

(** Equal but for the revision counters, which start over with the process. *)
#[global] Instance engine_equiv : Equiv Eng := λ e1 e2,
  en_devices e1 = en_devices e2 ∧ en_replicants e1 = en_replicants e2 ∧
  en_locations e1 = en_locations e2 ∧ en_simulations e1 = en_simulations e2 ∧
  en_catalogue e1 = en_catalogue e2 ∧ en_generated_at e1 = en_generated_at e2 ∧
  en_durable e1 = en_durable e2.
#[global] Instance engine_equivalence : Equivalence (≡@{Eng}).
Proof. split; repeat intro; unfold equiv, engine_equiv in *; naive_solver congruence. Qed.

Lemma restore_devices_spec (d : Durable (Json := Json) (Atmosphere := Atmosphere)) m :
  keyed (du_devices d) → restores (du_devices d) m → restore_devices d = m.
Proof.
  intros Hk Hr. assert (m = restore_row <$> du_devices d) as ->
    by (apply map_eq; intros k; by rewrite Hr, lookup_fmap).
  trans (restore_row <$> list_to_map (M := gmap WorldKey _) (map_to_list (du_devices d)));
    [|by rewrite list_to_map_to_list].
  rewrite <-(list_to_map_fmap restore_row). unfold restore_devices. f_equal.
  apply list_fmap_ext. intros i [k row] Hin. simpl.
  apply list_elem_of_lookup_2, elem_of_map_to_list, Hk in Hin as [-> _]. done.
Qed.

Lemma restart_mirror e :
  mirror e →
  match from_store (en_durable e) with
  | Ok e' => e' ≡ e
  | Err _ => du_catalogue_metadata (en_durable e) = Some None
  end.
Proof.
  intros [Hk Hd Hre Hl Hs Hc Hg]. unfold from_store, restore_catalogue.
  rewrite (restore_devices_spec _ (en_devices e)) by done. revert Hg.
  destruct (du_catalogue_metadata (en_durable e)) as [[g|]|]; simpl; intros Hg; [|done|];
    (split_and!; simpl; congruence).
Qed.

(** *** The device operations *)

Lemma restores_filter rows m (P : WorldKey * DeviceRow (Json := Json) → Prop)
    (Q : WorldKey * Obs → Prop) `{!∀ x, Decision (P x), !∀ x, Decision (Q x)} :
  restores rows m → (∀ k row, rows !! k = Some row → P (k, row) ↔ Q (k, restore_row row)) →
  restores (filter P rows) (filter Q m).
Proof.
  intros Hr HPQ k. rewrite !map_lookup_filter, Hr. destruct (rows !! k) as [row|] eqn:E; [|done].
  simpl. specialize (HPQ k row E). repeat case_guard; simpl; naive_solver.
Qed.

Lemma keyed_filter rows (P : WorldKey * DeviceRow (Json := Json) → Prop) `{!∀ x, Decision (P x)} :
  keyed rows → keyed (filter P rows).
Proof. intros Hk k row Hr%map_lookup_filter_Some_1_1. by apply Hk. Qed.

Lemma restores_persist rows m o :
  restores rows m → restores (persist_device rows o) (<[dv_key (ob_value o) := o]> m).
Proof.
  intros Hr k. unfold persist_device. destruct (decide (dv_key (ob_value o) = k)) as [<-|].
  - rewrite !lookup_insert_eq. simpl. by rewrite restore_persisted.
  - by rewrite !lookup_insert_ne.
Qed.

Lemma mirror_publish_devices e advance devices rows tombstones :
  mirror e → keyed rows → restores rows devices →
  let d := en_durable e in
  mirror (publish_devices advance devices
    {| du_devices := rows; du_replicants := du_replicants d; du_locations := du_locations d;
       du_simulations := du_simulations d; du_stars := du_stars d;
       du_catalogue_metadata := du_catalogue_metadata d; du_device_tombstones := tombstones |} e).
Proof. by intros [] ??. Qed.

Lemma persist_devices_mirror commit devices e e' :
  mirror e → NoDup (dv_key ∘ ob_value <$> devices) →
  persist_devices commit devices e = Ok (tt, e') → mirror e'.
Proof.
  intros Hm Hnd. destruct (merge_batch_ok (du_devices (en_durable e)) (en_devices e) devices)
    as [Hres Hkey _]; [by apply Hm|by apply Hm|done|].
  unfold persist_devices. revert Hres Hkey. unfold written.
  generalize (merge_batch (en_devices e) devices). intros [next changed touches]. simpl.
  intros Hres Hkey. destruct commit as [[]|error];
    destruct changed, touches; intros [= <-]; try done; by apply mirror_publish_devices.
Qed.

Lemma reconcile_owned_devices_mirror commit present e e' :
  mirror e → reconcile_owned_devices commit present e = Ok (tt, e') → mirror e'.
Proof.
  intros Hm. unfold reconcile_owned_devices, store_reconcile_owned_devices.
  do 2 (case_decide; [done|]). destruct commit as [[]|error]; [|done]. intros [= <-].
  apply mirror_publish_devices; [done|apply keyed_filter, Hm|].
  apply restores_filter; [apply Hm|]. intros k row Hr. apply Hm in Hr as [<- Ha].
  unfold keeps_device, missing_row, reconcilable. simpl. rewrite Ha.
  destruct (decide (dv_key (ob_value (dw_observation row)) ∈ present)),
    (decide (om_reachability (ob_metadata (dw_observation row)) = Reachable)),
    (decide (om_access (ob_metadata (dw_observation row)) = Owned)); tauto.
Qed.

Lemma purge_realm_devices_mirror commit realm e e' :
  mirror e → purge_realm_devices commit realm e = Ok (tt, e') → mirror e'.
Proof.
  intros Hm. unfold purge_realm_devices, store_purge_realm_devices. destruct commit as [[]|error]; [|done].
  assert (Hk : keyed (filter (λ kr, wk_realm kr.1 ≠ realm) (du_devices (en_durable e))))
    by apply keyed_filter, Hm.
  case_decide as Hd; intros [= <-]; (apply mirror_publish_devices; [done..|]).
  - rewrite (map_filter_id _ (du_devices (en_durable e))); [apply Hm|]. intros k row Hr Hreal.
    apply dom_empty_inv_L in Hd. eapply (map_filter_empty_not_lookup _ _ k row) in Hd; [|done].
    by apply Hd.
  - apply restores_filter; [apply Hm|]. intros k row Hr. simpl. rewrite elem_of_dom.
    rewrite map_lookup_filter, Hr. simpl. case_guard; naive_solver.
Qed.

Lemma reload_devices_mirror e e' :
  mirror e → reload_devices_after_refresh e = Ok (tt, e') → e' = e.
Proof.
  intros Hm. unfold reload_devices_after_refresh.
  rewrite (restore_devices_spec _ (en_devices e)) by apply Hm. by rewrite decide_True; [intros [=]|].
Qed.

Lemma persist_simulation_mirror commit simulation devices e e' :
  mirror e → persist_simulation_and_devices commit simulation devices e = Ok (tt, e') → mirror e'.
Proof.
  intros []. unfold persist_simulation_and_devices. destruct commit as [[]|error]; [|done]. intros [= <-].
  assert (keyed (foldl persist_device (du_devices (en_durable e)) devices) ∧
    restores (foldl persist_device (du_devices (en_durable e)) devices)
      (foldl (λ m o, <[dv_key (ob_value o) := o]> m) (en_devices e) devices)) as [Hk Hr].
  { generalize dependent (en_devices e). generalize dependent (du_devices (en_durable e)).
    clear. induction devices as [|o devices IH]; intros rows Hk m Hr; [done|]. cbn [foldl].
    apply IH; [by apply keyed_persist|by apply restores_persist]. }
  split; simpl; congruence || done.
Qed.

(** *** The catalogue operations *)

(** Both halves of the invariant. *)
Record coherent e : Prop := {
  ch_mirror : mirror e;
  ch_stars : keyed_stars (en_catalogue e);
}.

Lemma replace_catalogue_coherent commit stars generated_at e e' :
  coherent e → replace_catalogue commit stars generated_at e = Ok (tt, e') → coherent e'.
Proof.
  intros [[] Hs]. unfold replace_catalogue. destruct commit as [[]|error]; [|done]. intros [= <-].
  destruct (merge_catalogue_stars_spec stars _ Hs) as [Hk Hd].
  split; [|done]. split; try done. simpl. rewrite insert_stars_spec by done.
  apply map_eq. intros k. rewrite lookup_union. rewrite mi_catalogue0.
  destruct (foldl _ _ _ !! k) eqn:E; [by destruct (en_catalogue e !! k)|].
  apply not_elem_of_dom in E. by rewrite (not_elem_of_dom_1 _ _ (λ Hin, E (Hd _ Hin))).
Qed.

Lemma persist_star_knowledge_coherent commit knowledge e e' :
  coherent e → persist_star_knowledge_batch commit knowledge e = Ok (tt, e') → coherent e'.
Proof.
  intros [[] Hs]. unfold persist_star_knowledge_batch. case_decide; [by intros [= <-]|].
  destruct commit as [[]|error]; [|done]. intros [= <-].
  assert (Hk : keyed_stars (foldl merge_knowledge_star (en_catalogue e, ∅) knowledge).2)
    by (apply merge_knowledge_stars_spec; [done|]; intros k o; simpl; by rewrite lookup_empty).
  split; [split; try done; simpl; congruence|]. simpl. rewrite insert_stars_spec by done.
  intros k o [Hl|[_ Hl]]%lookup_union_Some_raw; auto.
Qed.

Lemma reload_catalogue_coherent e e' :
  coherent e → reload_catalogue_after_refresh e = Ok (tt, e') → e' ≡ e ∧ coherent e'.
Proof.
  intros [Hm Hs]. unfold reload_catalogue_after_refresh, restore_catalogue.
  assert (Hpub : ∀ g, en_generated_at e = g →
    let e' := publish_catalogue 1 1 (du_stars (en_durable e)) g (en_durable e) e in e' ≡ e ∧ coherent e').
  { intros g <-. rewrite (mi_catalogue _ Hm). destruct Hm. by split; [|split; [split|]]. }
  pose proof (mi_generated _ Hm) as Hg. simpl in Hpub.
  destruct (du_catalogue_metadata (en_durable e)) as [[g|]|]; [|done|];
    (destruct (_ && _); intros [= <-]; [done|by apply Hpub]).
Qed.

(** *** Histories *)

(** A batch of device observations has each device once. *)
Definition distinct_devices (op : Operation (Json := Json) (Atmosphere := Atmosphere)) : Prop :=
  match op with PersistDevices devices => NoDup (dv_key ∘ ob_value <$> devices) | _ => True end.

Lemma coherent_devices e e' : coherent e → en_catalogue e' = en_catalogue e → mirror e' → coherent e'.
Proof. intros [_ Hs] He Hm. split; [done|]. by rewrite He. Qed.

Lemma operate_coherent commit op e e' :
  coherent e → distinct_devices op → operate commit op e = Ok (tt, e') → coherent e'.
Proof.
  intros Hc Hd Ho. pose proof (ch_mirror _ Hc) as Hm. destruct op; simpl in *.
  - eapply coherent_devices; [done| |by eapply persist_devices_mirror].
    revert Ho. unfold persist_devices. destruct (db_changed _), (db_touches _), commit; by intros [= <-].
  - eapply coherent_devices; [done| |by eapply reconcile_owned_devices_mirror].
    revert Ho. unfold reconcile_owned_devices.
    destruct (store_reconcile_owned_devices _ _), commit; by intros [= <-].
  - eapply coherent_devices; [done| |by eapply purge_realm_devices_mirror].
    revert Ho. unfold purge_realm_devices, store_purge_realm_devices.
    destruct commit; [case_decide|]; by intros [= <-].
  - apply reload_devices_mirror in Ho as ->; done.
  - revert Ho. unfold persist_replicant. destruct commit; [|done]. intros [= <-].
    destruct Hm. eapply coherent_devices; [done..|]. split; simpl; congruence || done.
  - revert Ho. unfold persist_location. destruct commit; [|done]. intros [= <-].
    destruct Hm. eapply coherent_devices; [done..|]. split; simpl; congruence || done.
  - eapply coherent_devices; [done| |by eapply persist_simulation_mirror].
    revert Ho. unfold persist_simulation_and_devices. destruct commit; by intros [= <-].
  - by eapply replace_catalogue_coherent.
  - by eapply persist_star_knowledge_coherent.
  - by eapply reload_catalogue_coherent.
Qed.

(** An operation sees nothing of the revision counters. *)
Lemma operate_equiv commit op e1 e2 :
  e1 ≡ e2 →
  match operate commit op e1, operate commit op e2 with
  | Ok (_, e1'), Ok (_, e2') => e1' ≡ e2'
  | Err error1, Err error2 => error1 = error2
  | _, _ => False
  end.
Proof.
  destruct e1, e2. unfold equiv, engine_equiv. simpl. intros (->&->&->&->&->&->&->).
  destruct op; simpl;
    unfold persist_devices, reconcile_owned_devices, purge_realm_devices, store_purge_realm_devices,
      reload_devices_after_refresh, persist_replicant, persist_location,
      persist_simulation_and_devices, replace_catalogue, persist_star_knowledge_batch,
      reload_catalogue_after_refresh; simpl;
    repeat (case_match; simplify_eq/=; try done).
Qed.

(** A store as the client leaves it: rows under the keys of their documents. *)
Definition durable_wf (d : Durable (Json := Json) (Atmosphere := Atmosphere)) : Prop :=
  keyed (du_devices d) ∧ keyed_stars (du_stars d).

(** An event whose batch repeats no device and whose catalogue has a generation time. *)
Definition regular (event : Event (Json := Json) (Atmosphere := Atmosphere)) : Prop :=
  match event with
  | Do _ (PersistDevices devices) => NoDup (dv_key ∘ ob_value <$> devices)
  | Do _ (ReplaceCatalogue _ generated_at) => is_Some generated_at
  | _ => True
  end.

Definition is_operation (event : Event (Json := Json) (Atmosphere := Atmosphere)) : bool :=
  match event with Do _ _ => true | Restart => false end.

Lemma from_store_coherent d e :
  durable_wf d → from_store d = Ok e → coherent e ∧ du_catalogue_metadata (en_durable e) ≠ Some None.
Proof.
  intros [Hk Hs]. unfold from_store, restore_catalogue.
  destruct (du_catalogue_metadata d) as [[g|]|] eqn:Eg; [|done|]; intros [= <-];
    (split; [|simpl; congruence]); (split; [|done]); (split; simpl; try done); rewrite ?Eg; try done;
    rewrite (restore_devices_spec d (restore_row <$> du_devices d)); try done;
    intros k; by rewrite lookup_fmap.
Qed.

Lemma operate_metadata commit op e e' :
  operate commit op e = Ok (tt, e') →
  du_catalogue_metadata (en_durable e') = du_catalogue_metadata (en_durable e) ∨
  ∃ stars g, op = ReplaceCatalogue stars g ∧ du_catalogue_metadata (en_durable e') = Some g.
Proof.
  destruct op; simpl;
    unfold persist_devices, reconcile_owned_devices, purge_realm_devices, store_purge_realm_devices,
      store_reconcile_owned_devices, reload_devices_after_refresh, persist_replicant,
      persist_location, persist_simulation_and_devices, replace_catalogue,
      persist_star_knowledge_batch, reload_catalogue_after_refresh; simpl;
    intros Ho; repeat (case_match; simplify_eq/=); eauto.
Qed.

(** The engine after an operation, whether or not it succeeded. *)
Lemma happen_operation commit op e :
  coherent e → du_catalogue_metadata (en_durable e) ≠ Some None → regular (Do commit op) →
  ∃ e', happen (Do commit op) e = Ok e' ∧ coherent e' ∧ du_catalogue_metadata (en_durable e') ≠ Some None ∧
    ∀ e2, e ≡ e2 → ∃ e2', happen (Do commit op) e2 = Ok e2' ∧ e' ≡ e2'.
Proof.
  intros Hc Hm Hr. unfold happen. eexists. split; [done|].
  destruct (operate commit op e) as [[[] e']|error] eqn:Ho.
  - split_and!.
    + eapply operate_coherent; [done| |done]. by destruct op.
    + destruct (operate_metadata _ _ _ _ Ho) as [->|(stars&g&->&->)]; [done|].
      destruct Hr as [? ->]. done.
    + intros e2 He2. pose proof (operate_equiv commit op e e2 He2) as He. rewrite Ho in He.
      destruct (operate commit op e2) as [[[] e2']|]; [eauto|done].
  - split_and!; [done..|]. intros e2 He2. pose proof (operate_equiv commit op e e2 He2) as He.
    rewrite Ho in He. destruct (operate commit op e2) as [[[] e2']|]; [done|eauto].
Qed.

Lemma happen_all_invisible events e e2 :
  coherent e → du_catalogue_metadata (en_durable e) ≠ Some None → Forall regular events → e ≡ e2 →
  ∃ e' e2', happen_all events e = Ok e' ∧
    happen_all (List.filter is_operation events) e2 = Ok e2' ∧ e' ≡ e2' ∧ coherent e'.
Proof.
  revert e e2. induction events as [|event events IH]; intros e e2 Hc Hm Hr He; [by exists e, e2|].
  apply Forall_cons in Hr as [Hr Hrs]. destruct event as [commit op|]; cbn [happen_all].
  - destruct (happen_operation commit op e Hc Hm Hr) as (e1&->&Hc1&Hm1&Hequiv).
    destruct (Hequiv e2 He) as (e21&He21&He1). simpl in *.
    destruct (IH e1 e21 Hc1 Hm1 Hrs He1) as (e'&e2'&?&?&?&?). exists e', e2'.
    injection He21 as ->. done.
  - pose proof (restart_mirror e (ch_mirror _ Hc)) as Hrestart. cbn [happen].
    destruct (from_store (en_durable e)) as [e1|] eqn:E1; [|done].
    assert (durable_wf (en_durable e)) as Hwf.
    { split; [apply Hc|]. rewrite (mi_catalogue _ (ch_mirror _ Hc)). apply Hc. }
    destruct (from_store_coherent _ _ Hwf E1) as [Hc1 Hm1].
    apply (IH e1 e2); [done..|]. by rewrite Hrestart.
Qed.

(** C29: the state engine and its store agree.  Start from a store and let any sequence of
    operations happen, whatever the outcome of each commit, with the process restarted from
    its store at any points in between: every restart succeeds, and what is published in the
    end (and stored) is what the operations alone would have published, without any of the
    restarts.  Only the revision counters start over.  A batch of devices must not repeat a
    device, and a catalogue must carry its generation time. *)
Theorem restarts_are_invisible d e events :
  durable_wf d → from_store d = Ok e → Forall regular events →
  ∃ e' continuous, happen_all events e = Ok e' ∧
    happen_all (List.filter is_operation events) e = Ok continuous ∧ e' ≡ continuous.
Proof.
  intros Hwf Hs Hr. destruct (from_store_coherent d e Hwf Hs) as [Hc Hm].
  destruct (happen_all_invisible events e e) as (e'&c&?&?&?&?); [done..|]. by exists e', c.
Qed.

(** the engine publishes and stores a catalogue without a generation time, and a
    process that then restarts cannot read its store. *)
Theorem undated_catalogue_stops_restart stars e :
  ∃ e', replace_catalogue (Ok tt) stars None e = Ok (tt, e') ∧
    happen (Json := Json) (Atmosphere := Atmosphere) Restart e'
    = Err (Sql (InvalidColumnType "generated_at")).
Proof. eexists. split; [reflexivity|]. reflexivity. Qed.

Lemma operate_catalogue_le commit op e e' :
  coherent e → operate commit op e = Ok (tt, e') → catalogue_le (en_catalogue e) (en_catalogue e').
Proof.
  intros Hc Ho. destruct op; simpl in Ho;
    try (revert Ho; unfold persist_devices, reconcile_owned_devices, purge_realm_devices,
      store_purge_realm_devices, reload_devices_after_refresh, persist_replicant, persist_location,
      persist_simulation_and_devices; simpl;
      intros Ho; repeat (case_match; simplify_eq/=); reflexivity).
  - revert Ho. unfold replace_catalogue. destruct commit; [|done]. intros [= <-].
    apply merge_catalogue_stars_le, Hc.
  - revert Ho. unfold persist_star_knowledge_batch. case_decide; [by intros [= <-]|].
    destruct commit; [|done]. intros [= <-]. simpl. rewrite insert_stars_spec.
    + apply merge_knowledge_stars_le; [done|]. simpl. by rewrite (left_id_L ∅ (∪)).
    + apply merge_knowledge_stars_spec; [apply Hc|]. intros k o. simpl. by rewrite lookup_empty.
  - apply reload_catalogue_coherent in Ho as [(_&_&_&_&->&_) _]; done.
Qed.

Lemma happen_all_catalogue_le events e e' :
  coherent e → du_catalogue_metadata (en_durable e) ≠ Some None → Forall regular events →
  happen_all events e = Ok e' → catalogue_le (en_catalogue e) (en_catalogue e').
Proof.
  revert e. induction events as [|event events IH]; intros e Hc Hm Hr; [by intros [= ->]|].
  apply Forall_cons in Hr as [Hr Hrs]. destruct event as [commit op|].
  - intros Hh. destruct (happen_operation commit op e Hc Hm Hr) as (e1&He1&Hc1&Hm1&_).
    cbn [happen_all] in Hh. rewrite He1 in Hh. etrans; [|by apply (IH e1)].
    injection He1 as <-. destruct (operate commit op e) as [[[] e1]|] eqn:Ho; [|done].
    by eapply operate_catalogue_le.
  - intros Hh. cbn [happen_all happen] in Hh.
    pose proof (restart_mirror e (ch_mirror _ Hc)) as Hrestart.
    destruct (happen_all_invisible [Restart] e e) as (e1&_&He1&_&_&Hc1); [done|done|by repeat constructor|done|].
    cbn [happen_all happen] in He1.
    destruct (from_store (en_durable e)) as [e2|] eqn:E; [|done]. injection He1 as ->.
    destruct Hrestart as (_&_&_&_&<-&_&Hd). apply IH; [done| |done|done]. by rewrite Hd.
Qed.

(** along any sequence of operations and restarts no star of the catalogue is lost, and
    no fact about it: whatever was known of a star (its name, type, entry point, position,
    hub, ward, region, whether it was explored or bears life, and that an account observed
    it) is still known, whichever later observations leave it out. *)
Theorem star_facts_are_never_lost d e events e' :
  durable_wf d → from_store d = Ok e → Forall regular events → happen_all events e = Ok e' →
  catalogue_le (en_catalogue e) (en_catalogue e').
Proof.
  intros Hwf Hs Hr Hh. destruct (from_store_coherent d e Hwf Hs) as [Hc Hm].
  by eapply happen_all_catalogue_le.
Qed.

(** ** Where the protection of the owner's fields ends *)

Definition owner_fields (o : Obs) :=
  (dr_assigned_replicant (dv_relationships (ob_value o)),
   dr_hosting_replicant (dv_relationships (ob_value o)),
   dr_stowed_devices (dv_relationships (ob_value o)), dv_stow_capacity (ob_value o),
   dv_active_directive (ob_value o), dv_travel (ob_value o)).

(** one public observation of an owned device leaves the owner's fields (assignment,
    host, stowed devices, capacity, directive, travel) as they were, but it makes the merged
    observation a public one, so that a second public observation replaces them all. *)
Theorem second_public_observation_erases_owner owned first second :
  om_access (ob_metadata owned) = Owned → om_access (ob_metadata first) = Public →
  om_access (ob_metadata second) = Public →
  ¬ older (ob_metadata first) (ob_metadata owned) → ¬ older (ob_metadata second) (ob_metadata first) →
  let once := merged (merge_device owned first) in
  owner_fields once = owner_fields owned ∧ om_access (ob_metadata once) = Public ∧
  owner_fields (merged (merge_device once second)) = owner_fields second.
Proof.
  intros Ho Hf Hs H1 H2. rewrite <-is_lt_older in H1, H2.
  assert (Honce : merged (merge_device owned first) =
    {| ob_value := keep_owned (ob_value owned)
         (preserve_device (om_authority (ob_metadata first)) (ob_value owned) (ob_value first));
       ob_metadata := ob_metadata first |}).
  { unfold merge_device. destruct (is_lt _); [done|]. rewrite decide_True by done. done. }
  cbv zeta. rewrite Honce. split_and!; [done..|]. unfold merge_device. cbn [ob_metadata].
  destruct (is_lt (metadata_order (ob_metadata second) (ob_metadata first))); [done|].
  case_decide as Hd; [naive_solver congruence|done].
Qed.
End Mirror.
