(* ===== verification/ClientWitnesses.v ===== *)
(** * Concrete permits, pages, observations and engines

    The hypotheses of the theorems on pagination and on the managed state hold on concrete
    inputs, and the engine's answer to a batch that repeats a device. *)

From S2P Require Import Prelude Float64 Observations Entities Locations ManagedState.
From S2P Require Import ManagedStateFacts Pagination PaginationFacts.
From S2P Require Import RateLimit RateLimitFacts.

(** ** Pagination *)

(** Two pages of one endpoint. *)
Definition first_page : CursorPage Z string := {| pg_items := ["a"; "b"]; pg_next_cursor := Some 7 |}.
Definition last_page : CursorPage Z string := {| pg_items := ["c"]; pg_next_cursor := None |}.
Definition two_pages (n : nat) (c : option Z) : result unit (CursorPage Z string) :=
  match n, c with
  | 0%nat, None => Ok first_page
  | 1%nat, Some 7 => Ok last_page
  | _, _ => Err tt
  end.

Lemma stream_reads_every_page_witness :
  cursor_stream default_bounds two_pages None = (["a"; "b"; "c"], None).
Proof.
  apply (stream_reads_every_page default_bounds two_pages None [first_page; last_page]).
  - split; [done|]. by exists 7.
  - apply (bool_decide_unpack (NoDup _)). by vm_compute.
  - apply (bool_decide_unpack (_ ≤ _)%nat). by vm_compute.
  - apply (bool_decide_unpack (_ ≤ _)%nat). by vm_compute.
Defined.

(** ** Observations *)

Definition metadata_at (t : Z) (access : AccessScope) : ObservationMetadata :=
  {| om_source := RestDetail; om_authority := EntitySnapshot; om_observed_at := t;
     om_access := access; om_reachability := Reachable; om_stale := false;
     om_source_document :=
       {| so_operation := "GET /v1/devices"; so_request_id := None; so_document_id := None |} |}.

Definition live (id : string) : WorldKey := {| wk_realm := Live; wk_id := id |}.

Definition device_at (t : Z) (access : AccessScope) (status : string) (assigned : option WorldKey)
  : Observation (Device unit) :=
  {| ob_metadata := metadata_at t access;
     ob_value := {| dv_key := live "D1"; dv_device_type := Some "miner"; dv_status := Some status;
       dv_location := None; dv_deployed_at := None; dv_in_control_range := None; dv_features := [];
       dv_available_commands := []; dv_available_directives := []; dv_tags := []; dv_settings := ∅;
       dv_relationships := {| dr_attached_to := None; dr_stowed_in := None; dr_controller := None;
         dr_linked_device := None; dr_attached_devices := []; dr_controlled_devices := [];
         dr_stowed_devices := []; dr_assigned_replicant := assigned; dr_hosting_replicant := None |};
       dv_cargo := ∅; dv_cargo_capacity := None; dv_attach_capacity := None;
       dv_stow_capacity := None; dv_stow_used := None; dv_operational_capacity := None;
       dv_grace_period_remaining := None; dv_upkeep_requirements := []; dv_system_status := None;
       dv_active_directive := None; dv_travel := None;
       dv_runtime := {| ru_created_at := None; ru_short_description := None; ru_description := None;
         ru_printing := None; ru_mining := None; ru_prospect := None; ru_repair := None;
         ru_scan := None; ru_waiting_for := None; ru_print_queue := []; ru_queue_size := None;
         ru_taxi_mode := None; ru_tracking_site_id := None; ru_beacon_only := None;
         ru_welcome_message := None; ru_repair_paid_pct := None |};
       dv_access := access |} |}.

Lemma second_public_observation_erases_owner_witness :
  owner_fields (merged (merge_device
    (merged (merge_device (device_at 1 Owned "idle" (Some (live "OWNER")))
                          (device_at 2 Public "idle" None)))
    (device_at 3 Public "idle" None)))
  = owner_fields (device_at 3 Public "idle" None).
Proof.
  apply (second_public_observation_erases_owner (device_at 1 Owned "idle" (Some (live "OWNER")))
    (device_at 2 Public "idle" None) (device_at 3 Public "idle" None)); done.
Defined.

Lemma newest_observation_wins_witness :
  merge_all (device_at 2 Owned "moving" None) [device_at 1 Owned "idle" None]
  = device_at 2 Owned "moving" None.
Proof.
  apply (newest_observation_wins (device_at 1 Owned "idle" None) [device_at 2 Owned "moving" None]).
  - by right; left.
  - intros o Ho. apply elem_of_cons in Ho as [->|Ho]; [by right|].
    apply list_elem_of_singleton in Ho as ->. by left.
  - by apply perm_swap.
Defined.

(** ** The engine *)

Definition star_at (t : Z) (name region : option string) : Observation Star :=
  {| ob_metadata := metadata_at t Owned;
     ob_value := {| sr_key := live "SOL"; sr_name := name; sr_spectral_type := None;
       sr_entry_point := None; sr_position := None; sr_has_hub := Some true; sr_has_ward := None;
       sr_knowledge_observed := false; sr_explored := None; sr_has_life := None;
       sr_region := region |} |}.

Definition empty_store : Durable (Json := unit) (Atmosphere := unit) :=
  {| du_devices := ∅; du_replicants := ∅; du_locations := ∅; du_simulations := ∅; du_stars := ∅;
     du_catalogue_metadata := None; du_device_tombstones := ∅ |}.

Definition fresh_engine : Engine (Json := unit) (Atmosphere := unit) :=
  {| en_revision := 0; en_galaxy_revision := 0; en_galaxy_projection_revision := 0;
     en_devices := ∅; en_replicants := ∅; en_locations := ∅; en_simulations := ∅;
     en_catalogue := ∅; en_generated_at := None; en_durable := empty_store |}.

Lemma empty_store_wf : durable_wf empty_store.
Proof. split; intros k o; simpl; by rewrite lookup_empty. Qed.

Definition sample_events : list (Event (Json := unit) (Atmosphere := unit)) :=
  [Do (Ok tt) (PersistDevices [device_at 1 Owned "idle" None]); Restart;
   Do (Ok tt) (PersistDevices [device_at 2 Owned "idle" None]);
   Do (Err Closed) (PersistDevices [device_at 3 Owned "moving" None]); Restart;
   Do (Ok tt) (ReplaceCatalogue [star_at 1 (Some "Sol") (Some "core")] (Some "now")); Restart;
   Do (Ok tt) (ReplaceCatalogue [star_at 2 None None] (Some "later"))].

Lemma sample_events_regular : Forall regular sample_events.
Proof. repeat constructor; simpl; eauto; set_solver. Qed.

Lemma restarts_are_invisible_witness :
  ∃ e' continuous, happen_all sample_events fresh_engine = Ok e' ∧
    happen_all (List.filter is_operation sample_events) fresh_engine = Ok continuous ∧ e' ≡ continuous.
Proof.
  apply (restarts_are_invisible empty_store fresh_engine sample_events);
    [apply empty_store_wf|reflexivity|apply sample_events_regular].
Defined.

(** The engine after the sample. *)
Definition sample_engine : Engine (Json := unit) (Atmosphere := unit) :=
  match happen_all sample_events fresh_engine with Ok e => e | Err _ => fresh_engine end.

Lemma star_facts_are_never_lost_witness :
  catalogue_le (en_catalogue fresh_engine) (en_catalogue sample_engine) ∧
  (sr_name ∘ ob_value <$> en_catalogue sample_engine !! live "SOL") = Some (Some "Sol").
Proof.
  split; [|by vm_compute].
  apply (star_facts_are_never_lost empty_store fresh_engine sample_events);
    [apply empty_store_wf|reflexivity|apply sample_events_regular|by vm_compute].
Defined.

(** The status of device [D1] as published, and as a restart would publish it. *)
Definition published_status (e : Engine (Json := unit) (Atmosphere := unit)) : option (option string) :=
  (λ o, dv_status (ob_value o)) <$> en_devices e !! live "D1".

(** a batch that observes a device first changed and then as it was before leaves the
    published device and the stored one different: the second observation is compared with
    the state before the batch and only touches the row that the first one wrote. *)
Theorem repeated_device_diverges :
  let batch := [device_at 2 Owned "moving" None; device_at 3 Owned "idle" None] in
  let history := [Do (Ok tt) (PersistDevices [device_at 1 Owned "idle" None]);
                  Do (Ok tt) (PersistDevices batch)] in
  ∃ e restarted, happen_all history fresh_engine = Ok e ∧
    happen_all (history ++ [Restart]) fresh_engine = Ok restarted ∧
    published_status e = Some (Some "idle") ∧ published_status restarted = Some (Some "moving").
Proof.
  eexists _, _. split_and!; [by vm_compute|by vm_compute|by vm_compute|by vm_compute].
Qed.

(** * Evaluations of the rate limiter

    The read bucket of a fresh coordinator, a queue with both classes, a run with two
    foreground requests and a ledger two processes use. *)

#[local] Existing Instance seconds_i64.

Definition read_bucket : Bucket := new_bucket 0 Read.

Lemma read_policy_ok : policy_ok (policy read_bucket).
Proof. split; by vm_compute. Qed.

(** The read bucket is documented at 120 requests a minute: a fresh one grants 230. *)
Lemma permit_budget_witness :
  ∃ times, Z.of_nat (length (poll_permits read_bucket times)) = 230 ∧
    ∀ t, t ∈ poll_permits read_bucket times → 0 ≤ t ≤ from_secs 60.
Proof.
  destruct (permit_budget read_bucket read_policy_ok) as [_ H].
  apply (H 0); vm_compute; congruence.
Defined.

Definition refused : RateLimitSnapshot :=
  {| limit := Some 120; remaining := None; reset := None; retry_after := Some (from_secs 30) |}.

Lemma observe_response_decided_witness :
  ∃ b, observe_response TOO_MANY_REQUESTS refused 5 read_bucket = Some b ∧
    next_at b = 5 + from_secs 30.
Proof.
  pose proof (observe_response_decided TOO_MANY_REQUESTS refused 5 read_bucket read_policy_ok) as H.
  assert (E : ∃ b, observe_response TOO_MANY_REQUESTS refused 5 read_bucket = Some b)
    by (eexists; vm_compute; reflexivity).
  destruct E as [b E]. exists b. split; [exact E|]. rewrite E in H.
  exact (proj1 (proj2 (proj2 H))).
Defined.

Definition busy_queue : RequestQueue :=
  {| foreground := [1; 2; 3; 4; 5; 6; 7; 8; 9; 10; 11; 12]%N; background := [20%N];
     foreground_streak := 0 |}.


Definition two_readers : list Label :=
  [LBegin 1 Read Foreground None 0; LEnqueue 1 0; LCheck 1;
   LBegin 2 Read Foreground None 0; LEnqueue 2 0; LTake 1 0].

Definition two_readers_state : Coordinator :=
  default (new_coordinator 0 empty_ledger) (run_steps two_readers (new_coordinator 0 empty_ledger)).

Lemma one_class_loses_no_ticket_witness :
  queued 2 (queue_of two_readers_state Read) ∧
  next (prune_cancelled (is_active (requests two_readers_state)) (queue_of two_readers_state Read))
  = Some 1%N.
Proof.
  destruct (one_class_loses_no_ticket Read Foreground two_readers 0 empty_ledger two_readers_state)
    as [Hq Hn].
  - vm_compute. reflexivity.
  - intros t r Ht _. revert Ht. replace (requests two_readers_state) with
      (<[1%N := Build_Request Read Foreground None SPop]>
        (<[2%N := Build_Request Read Foreground None SCheck]> (∅ : gmap N Request)))
      by (vm_compute; reflexivity).
    rewrite !lookup_insert_Some, lookup_empty. intros [[_ <-]|[_ [[_ <-]|[_ [=]]]]]; reflexivity.
  - split.
    + apply (Hq 2%N (Build_Request Read Foreground None SCheck)); vm_compute; reflexivity.
    + apply (Hn 1%N (Build_Request Read Foreground None SPop)); vm_compute; reflexivity.
Defined.

(** One process is granted at 1000, another's clock is behind: with the action policy
    its grant comes 1052 milliseconds later. *)
Lemma shared_grants_are_spaced_witness :
  2052 ≤ (shared_acquire "account" Action (default_for Action) None 900
    (run_ledger [EvBlock "account" Read 5 700]
      (shared_acquire "account" Action (default_for Action) None 1000 empty_ledger).1)).2.
Proof.
  destruct (shared_grants_are_spaced [] [EvBlock "account" Read 5 700] "account" Action
    (default_for Action) None 900) as [H _].
  - constructor.
  - repeat constructor. vm_compute. congruence.
  - specialize (H (default_for Action) None 1000). vm_compute in H. vm_compute. exact (proj1 H).
Defined.
