(* ===== verification/MiningPlanner.v ===== *)
(** * Quantities and blueprint costs

    [crates/replicant-mining-planner/src/lib.rs]: requirement maps, shortages and the
    recursive expansion of a blueprint into raw resources.  The bill of materials it
    computes is exact up to the range of an [i64]. *)

From S2P Require Import Prelude Float64 Printing PrintingFacts.

Module Mining.

Definition MINING_CONTROLLER : string := "ami_mining_controller".
Definition MINING_DRONE : string := "mining_drone".
Definition SURVEY_CONTROLLER : string := "ami_survey_controller".
Definition SURVEY_DRONE : string := "survey_drone".
Definition MAINTENANCE_DRONE : string := "maintenance_drone".
Definition TRANSPORT_CONTROLLER : string := "ami_transport_controller".
Definition CARGO_FREIGHTER : string := "cargo_freighter".

Record BlueprintSpec := {
  bs_device_type : string;
  bs_print_time_seconds : F64.t;
  bs_resources : QuantityMap;
  bs_components : QuantityMap;
}.

(** [Overflow] is the panic of an [i64] addition in a build with overflow checks;
    [OutOfFuel] is the bound of the recursion below. *)
Inductive PlannerError :=
| MissingBlueprint (device_type : string)
| ComponentCycle (device_type : string)
| Overflow
| OutOfFuel.

Abbreviation pres := (result PlannerError).

(** [mining_site_requirements] *)
Definition mining_site_requirements : QuantityMap :=
  list_to_map [(MINING_CONTROLLER, 1); (MINING_DRONE, 4); (SURVEY_CONTROLLER, 1); (SURVEY_DRONE, 2);
               (MAINTENANCE_DRONE, 1)].

(** [shortages] *)
Definition shortages (required reusable : QuantityMap) : QuantityMap :=
  filter (λ e : string * Z, 0 < e.2)
    (map_imap (λ device_type quantity,
       Some (saturating_sub_i64 quantity (default 0 (reusable !! device_type)))) required).

(** [multiply] *)
Definition multiply (requirements : QuantityMap) (count : Z) : QuantityMap :=
  (λ quantity, saturating_mul_i64 quantity (Z.max count 0)) <$> requirements.

(** [add_quantities] *)
Definition add_quantity (target : QuantityMap) (entry : string * Z) : pres QuantityMap :=
  let sum := default 0 (target !! entry.1) + entry.2 in
  if decide (in_i64 sum) then Ok (<[entry.1 := sum]> target) else Err Overflow.
Fixpoint add_all (target : QuantityMap) (source : list (string * Z)) : pres QuantityMap :=
  match source with
  | [] => Ok target
  | entry :: source => target ← add_quantity target entry; add_all target source
  end.
Definition add_quantities (target source : QuantityMap) : pres QuantityMap :=
  add_all target (entries source).

(** The loop of [expand_cost] over the components of a blueprint. *)
Fixpoint add_components (expand : string → Z → pres QuantityMap) (quantity : Z)
    (components : list (string * Z)) (result : QuantityMap) : pres QuantityMap :=
  match components with
  | [] => Ok result
  | (component, count) :: components =>
      nested ← expand component (saturating_mul_i64 count quantity);
      result ← add_quantities result nested;
      add_components expand quantity components result
  end.

Section Cost.
Variable blueprints : gmap string BlueprintSpec.

(** [expand_cost] *)
Fixpoint expand_cost (fuel : nat) (visiting : list string) (device_type : string) (quantity : Z)
  : pres QuantityMap :=
  match fuel with
  | O => Err OutOfFuel
  | S fuel =>
      if decide (device_type ∈ visiting) then Err (ComponentCycle device_type)
      else
        blueprint ← ok_or (blueprints !! device_type) (MissingBlueprint device_type);
        let result := (λ amount, saturating_mul_i64 amount quantity) <$> bs_resources blueprint in
        add_components (expand_cost fuel (visiting ++ [device_type])) quantity
          (entries (bs_components blueprint)) result
  end.

(** [blueprint_resource_cost] *)
Definition blueprint_resource_cost (device_type : string) (quantity : Z) : pres QuantityMap :=
  expand_cost (S (size blueprints)) [] device_type (Z.max quantity 0).
End Cost.

(** [site_tag] and [role_tag] *)
Definition site_tag (system : string) : string := "mine-s:" +:+ to_ascii_lowercase system.
Definition role_tag (role : string) : string := "mine-r:" +:+ role.

End Mining.
Import Mining.

(** ** The bill of materials *)

(** [shortages] lists what is missing: exactly the types whose requirement exceeds the
    stock, each with the difference. *)
Lemma shortages_lookup required reusable d :
  shortages required reusable !! d =
  q ← required !! d;
  let missing := saturating_sub_i64 q (default 0 (reusable !! d)) in
  if decide (0 < missing) then Some missing else None.
Proof.
  unfold shortages. rewrite map_lookup_filter, map_lookup_imap.
  destruct (required !! d) as [q|]; simpl; [|done].
  case_decide; [by rewrite option_guard_True|by rewrite option_guard_False].
Qed.

Section Bill.
Variable blueprints : gmap string BlueprintSpec.

(** What a unit of a device takes of each raw resource, its components included. *)
Inductive unit_cost : string → (string → Z) → Prop :=
| unit_cost_intro d b parts cost :
    blueprints !! d = Some b →
    (∀ c n, bs_components b !! c = Some n → unit_cost c (parts c)) →
    (∀ r, cost r = default 0 (bs_resources b !! r) + map_sum (λ c n, n * parts c r) (bs_components b)) →
    unit_cost d cost.

(** It is determined by the blueprints. *)
Lemma unit_cost_unique d f g : unit_cost d f → unit_cost d g → ∀ r, f r = g r.
Proof.
  intros Hf. revert g. induction Hf as [d b parts f Hb Hparts IH Hf]. intros g Hg r.
  inversion Hg as [d' b' parts' g' Hb' Hparts' Hg']; simplify_eq.
  rewrite Hf, Hg'. f_equal. apply map_sum_ext. intros c n Hc. by rewrite (IH c n Hc (parts' c) (Hparts' c n Hc)).
Qed.

(** A unit of [d] has [c] among its components. *)
Definition part_of (d c : string) : Prop :=
  ∃ b n, blueprints !! d = Some b ∧ bs_components b !! c = Some n.

(** Amounts are quantities. *)
Definition amounts_nonneg : Prop := ∀ d b, blueprints !! d = Some b →
  map_Forall (λ _ n, 0 ≤ n) (bs_resources b) ∧ map_Forall (λ _ n, 0 ≤ n) (bs_components b).

Context (Hnn : amounts_nonneg).

Lemma unit_cost_nonneg d f : unit_cost d f → ∀ r, 0 ≤ f r.
Proof.
  intros Hf. induction Hf as [d b parts f Hb Hparts IH Hf]. intros r. rewrite Hf.
  destruct (Hnn d b Hb) as [Hr Hc].
  assert (0 ≤ default 0 (bs_resources b !! r)).
  { destruct (bs_resources b !! r) as [n|] eqn:E; [by apply (Hr r)|done]. }
  assert (0 ≤ map_sum (λ c n, n * parts c r) (bs_components b)); [|lia].
  apply map_sum_nonneg. intros c n Hn. specialize (IH c n Hn r). specialize (Hc c n Hn). simpl in Hc. nia.
Qed.

(** ** Sums clamped at the range of [i64] *)

(** The map holds the given quantities, those above the range at its top. *)
Definition measures (m : QuantityMap) (x : string → Z) : Prop :=
  ∀ r, default 0 (m !! r) = Z.min (x r) i64_max.

Lemma saturating_mul_clamped n Q :
  0 ≤ n → 0 ≤ Q → saturating_mul_i64 n (Z.min Q i64_max) = Z.min (n * Q) i64_max.
Proof.
  intros Hn HQ. machine_ints. destruct (Z.le_gt_cases Q 9223372036854775807).
  - rewrite (Z.min_l Q) by lia. nia.
  - rewrite (Z.min_r Q) by lia. destruct (decide (n = 0)) as [->|]; [lia|]. nia.
Qed.

Lemma add_all_lookup target source m :
  NoDup source.*1 → add_all target source = Ok m →
  ∀ r, default 0 (m !! r) = default 0 (target !! r) + default 0 (list_to_map (M := QuantityMap) source !! r) ∧
    (default 0 (target !! r) ≤ i64_max → default 0 (m !! r) ≤ i64_max).
Proof.
  revert target. induction source as [|[k n] source IH]; intros target Hnd; cbn [add_all].
  { intros [= <-] r. simpl. by rewrite lookup_empty, Z.add_0_r. }
  rewrite fmap_cons in Hnd. apply NoDup_cons in Hnd as [Hk Hnd].
  unfold add_quantity, mbind, result_bind. simpl. case_decide as Hin; [|done].
  intros Hm r. destruct (IH _ Hnd Hm r) as [-> Hle].
  destruct (decide (k = r)) as [<-|].
  - rewrite !lookup_insert_eq in *. simpl in *. rewrite not_elem_of_list_to_map_1 in * by done. simpl in *.
    split; [lia|]. intros _. apply Hle. apply Hin.
  - rewrite !lookup_insert_ne in * by done. done.
Qed.

Lemma add_all_Err target source e :
  NoDup source.*1 → add_all target source = Err e →
  e = Overflow ∧ ∃ k n, (k, n) ∈ source ∧ ¬ in_i64 (default 0 (target !! k) + n).
Proof.
  revert target. induction source as [|[k n] source IH]; intros target Hnd; cbn [add_all]; [done|].
  rewrite fmap_cons in Hnd. apply NoDup_cons in Hnd as [Hk Hnd].
  unfold add_quantity, mbind, result_bind. simpl. case_decide as Hin.
  - intros (->&k'&n'&Hin'&Hover)%IH; [|done]. split; [done|]. exists k', n'. split; [by right|].
    rewrite lookup_insert_ne in Hover; [done|]. intros ->.
    apply Hk, list_elem_of_fmap. by exists (k', n').
  - intros [= <-]. split; [done|]. exists k, n. split; [by left|done].
Qed.

Lemma measures_add m1 m2 x1 x2 :
  measures m1 x1 → measures m2 x2 → (∀ r, 0 ≤ x1 r) → (∀ r, 0 ≤ x2 r) →
  match add_quantities m1 m2 with
  | Ok m => measures m (λ r, x1 r + x2 r)
  | Err e => e = Overflow ∧ ∃ r, i64_max < x1 r + x2 r
  end.
Proof.
  intros H1 H2 Hx1 Hx2. unfold add_quantities. destruct (entries_map m2) as [Hnd Hm2].
  destruct (add_all m1 (entries m2)) as [m|e] eqn:E.
  - intros r. destruct (add_all_lookup _ _ _ Hnd E r) as [Heq Hle].
    rewrite Hm2, H1, H2 in Heq. rewrite H1 in Hle. specialize (Hle ltac:(lia)).
    specialize (Hx1 r). specialize (Hx2 r). machine_ints. lia.
  - apply add_all_Err in E as (->&k&n&Hin&Hover); [|done]. split; [done|]. exists k.
    apply elem_of_entries in Hin. specialize (H1 k). specialize (H2 k). rewrite Hin in H2. simpl in H2.
    specialize (Hx1 k). specialize (Hx2 k). revert Hover. machine_ints. lia.
Qed.

(** ** The expansion computes the bill *)

(** What the expansion of [Q] units of [d] may return. *)
Definition outcome (d : string) (Q : Z) (r : pres QuantityMap) : Prop :=
  match r with
  | Ok m => ∃ cost, unit_cost d cost ∧ measures m (λ r, Q * cost r)
  | Err (MissingBlueprint x) => blueprints !! x = None ∧ rtc part_of d x
  | Err (ComponentCycle x) => tc part_of x x ∧ rtc part_of d x
  | Err Overflow => ∀ cost, unit_cost d cost → ∃ r, i64_max < Q * cost r
  | Err OutOfFuel => False
  end.

Definition total (parts : string → string → Z) (components : list (string * Z)) (r : string) : Z :=
  foldr Z.add 0 ((λ e : string * Z, e.2 * parts e.1 r) <$> components).

Lemma total_cons parts c n components r Q :
  Q * total parts ((c, n) :: components) r = n * Q * parts c r + Q * total parts components r.
Proof. unfold total. rewrite fmap_cons. cbn [foldr fst snd]. ring. Qed.

Lemma total_other parts c cost components r :
  c ∉ components.*1 →
  total (λ c', if decide (c' = c) then cost else parts c') components r = total parts components r.
Proof.
  intros Hc. unfold total. f_equal. apply list_fmap_ext. intros i [c' n] Hi. simpl.
  rewrite decide_False; [done|]. intros ->. apply Hc, list_elem_of_fmap. exists (c, n).
  split; [done|by eapply list_elem_of_lookup_2].
Qed.

Lemma total_map_sum parts (m : QuantityMap) r :
  total parts (entries m) r = map_sum (λ c n, n * parts c r) m.
Proof.
  unfold total. rewrite map_sum_list. apply sum_list_perm. unfold entries.
  rewrite (sort_by_perm entry_leb).
  rewrite (list_fmap_ext _ (uncurry (λ c n, n * parts c r))); [done|]. by intros ? [].
Qed.

Lemma total_nonneg parts components r :
  (∀ c n, (c, n) ∈ components → 0 ≤ n ∧ unit_cost c (parts c)) → 0 ≤ total parts components r.
Proof.
  unfold total. induction components as [|[c n] components IH]; intros Hc; [done|]. simpl.
  destruct (Hc c n) as [Hn Hu]; [by left|]. pose proof (unit_cost_nonneg _ _ Hu r) as Hp.
  apply Z.add_nonneg_nonneg; [by apply Z.mul_nonneg_nonneg|]. apply IH. intros ???. apply Hc. by right.
Qed.

(** The loop over the components. *)
Lemma add_components_outcome expand Q components res (A : string → Z) :
  0 ≤ Q → NoDup components.*1 →
  (∀ c n, (c, n) ∈ components → 0 ≤ n ∧ outcome c (n * Q) (expand c (Z.min (n * Q) i64_max))) →
  measures res A → (∀ r, 0 ≤ A r) →
  match add_components expand (Z.min Q i64_max) components res with
  | Ok m => ∃ parts, (∀ c n, (c, n) ∈ components → unit_cost c (parts c)) ∧
      measures m (λ r, A r + Q * total parts components r)
  | Err Overflow => ∀ parts, (∀ c n, (c, n) ∈ components → unit_cost c (parts c)) →
      ∃ r, i64_max < A r + Q * total parts components r
  | Err e => ∃ c n, (c, n) ∈ components ∧ outcome c (n * Q) (Err e)
  end.
Proof.
  intros HQ. revert res A. induction components as [|[c n] components IH]; intros res A Hnd Hc Hres HA.
  { simpl. exists (λ _ _, 0). split; [by intros ?? ?%elem_of_nil|].
    intros r. rewrite Hres. unfold total. simpl. f_equal. lia. }
  rewrite fmap_cons in Hnd. apply NoDup_cons in Hnd as [Hcn Hnd].
  destruct (Hc c n) as [Hn Hout]; [by left|]. cbn [add_components].
  rewrite saturating_mul_clamped by done.
  assert (Hrest : ∀ parts, (∀ c' n', (c', n') ∈ (c, n) :: components → unit_cost c' (parts c')) →
    ∀ r, 0 ≤ Q * total parts components r).
  { intros parts Hp r. apply Z.mul_nonneg_nonneg; [done|]. apply total_nonneg.
    intros c' n' Hin. split; [apply (Hc c' n'); by right|apply (Hp c' n'); by right]. }
  unfold mbind, result_bind.
  destruct (expand c (Z.min (n * Q) i64_max)) as [nested|e]; simpl in Hout.
  2:{ destruct e; [exists c, n; split; [by left|done]..| |done]. intros parts Hp.
      destruct (Hout (parts c)) as [r Hr]; [apply (Hp c n); by left|]. exists r.
      specialize (Hrest parts Hp r). specialize (HA r). rewrite total_cons. lia. }
  destruct Hout as (cost&Hcost&Hnested).
  pose proof (unit_cost_nonneg _ _ Hcost) as Hcn0.
  assert (HN : ∀ r, 0 ≤ n * Q * cost r) by (intros r; specialize (Hcn0 r); nia).
  pose proof (measures_add _ _ _ _ Hres Hnested HA HN) as Hadd.
  destruct (add_quantities res nested) as [res'|e].
  2:{ destruct Hadd as (->&r&Hr). intros parts Hp. exists r. specialize (Hrest parts Hp r).
      rewrite (unit_cost_unique c cost (parts c)) in Hr; [|done|apply (Hp c n); by left].
      rewrite total_cons. lia. }
  specialize (IH res' (λ r, A r + n * Q * cost r) Hnd). 
  specialize (IH ltac:(intros ???; apply Hc; by right) Hadd).
  specialize (IH ltac:(intros r; specialize (HA r); specialize (HN r); lia)).
  destruct (add_components expand (Z.min Q i64_max) components res') as [m|e].
  - destruct IH as (parts&Hparts&Hm). exists (λ c', if decide (c' = c) then cost else parts c'). split.
    + intros c' n' Hin. case_decide as Heq; [by subst|].
      apply elem_of_cons in Hin as [[= -> ->]|Hin]; [done|]. by apply (Hparts c' n').
    + intros r. rewrite Hm, total_cons, total_other, decide_True by done. f_equal. lia.
  - destruct e as [x|x| |].
    1,2,4: destruct IH as (c'&n'&Hin&Ho); exists c', n'; split; [by right|done].
    intros parts Hp. destruct (IH parts) as [r Hr]; [intros ?? ?; eapply Hp; by right|]. exists r.
    rewrite (unit_cost_unique c cost (parts c)) in Hr; [|done|apply (Hp c n); by left].
    rewrite total_cons. lia.
Qed.

(** The devices being expanded lead to the one at hand. *)
Record path (visiting : list string) (d : string) : Prop := {
  path_nodup : NoDup visiting;
  path_known : Forall (λ v, is_Some (blueprints !! v)) visiting;
  path_parts : Forall (λ v, tc part_of v d) visiting;
}.

Lemma cost_path_length visiting d : path visiting d → (length visiting ≤ size blueprints)%nat.
Proof.
  intros [Hnd Hk _]. rewrite <-size_dom, <-(size_list_to_set (C := gset string) visiting) by done.
  apply subseteq_size. intros v Hv%elem_of_list_to_set. rewrite Forall_forall in Hk.
  by apply elem_of_dom, Hk.
Qed.

Lemma cost_path_step visiting d c :
  path visiting d → d ∉ visiting → part_of d c → path (visiting ++ [d]) c.
Proof.
  intros [Hnd Hk Hp] Hd Hc. split.
  - apply NoDup_app. split_and!; [done|set_solver|apply NoDup_singleton].
  - apply Forall_app. split; [done|]. destruct Hc as (b&n&Hb&_). constructor; [by rewrite Hb|done].
  - apply Forall_app. split; [|constructor; [by apply tc_once|done]].
    eapply Forall_impl; [exact Hp|]. intros v Hv. exact (tc_r _ _ _ Hv Hc).
Qed.

Lemma measures_resources b Q :
  map_Forall (λ _ n, 0 ≤ n) (bs_resources b) → 0 ≤ Q →
  measures ((λ amount, saturating_mul_i64 amount (Z.min Q i64_max)) <$> bs_resources b)
    (λ r, Q * default 0 (bs_resources b !! r)).
Proof.
  intros Hr HQ r. rewrite lookup_fmap. destruct (bs_resources b !! r) as [n|] eqn:E; simpl.
  - rewrite saturating_mul_clamped by (done || by apply (Hr r)). f_equal. lia.
  - machine_ints. lia.
Qed.

Lemma expand_cost_outcome fuel visiting d Q :
  0 ≤ Q → path visiting d → (size blueprints < length visiting + fuel)%nat →
  outcome d Q (expand_cost blueprints fuel visiting d (Z.min Q i64_max)).
Proof.
  revert visiting d Q. induction fuel as [|fuel IH]; intros visiting d Q HQ Hp Hfuel.
  { apply cost_path_length in Hp. lia. }
  cbn [expand_cost]. case_decide as Hd.
  { split; [|done]. pose proof (path_parts _ _ Hp) as Hparts. rewrite Forall_forall in Hparts. auto. }
  destruct (blueprints !! d) as [b|] eqn:Eb; simpl; [|done].
  destruct (Hnn d b Eb) as [Hres Hcomp].
  assert (Hc : ∀ c n, (c, n) ∈ entries (bs_components b) → part_of d c ∧ 0 ≤ n ∧
    outcome c (n * Q) (expand_cost blueprints fuel (visiting ++ [d]) c (Z.min (n * Q) i64_max))).
  { intros c n Hin%elem_of_entries. assert (Hcd : part_of d c) by by exists b, n.
    specialize (Hcomp c n Hin). simpl in Hcomp. split_and!; [done..|].
    apply IH; [nia|by apply cost_path_step|rewrite length_app; simpl; lia]. }
  pose proof (add_components_outcome (expand_cost blueprints fuel (visiting ++ [d])) Q
    (entries (bs_components b)) _ _ HQ (proj1 (entries_map _)) (λ c n Hin, proj2 (Hc c n Hin))
    (measures_resources b Q Hres HQ)) as Hloop.
  assert (Hr0 : ∀ r, 0 ≤ default 0 (bs_resources b !! r)).
  { intros r. destruct (bs_resources b !! r) as [n|] eqn:E; [by apply (Hres r)|done]. }
  specialize (Hloop ltac:(intros r; specialize (Hr0 r); nia)).
  destruct (add_components _ _ _ _) as [m|e].
  - destruct Hloop as (parts&Hparts&Hm).
    exists (λ r, default 0 (bs_resources b !! r) + map_sum (λ c n, n * parts c r) (bs_components b)).
    split.
    + apply (unit_cost_intro d b parts); [done| |done]. intros c n Hcn.
      apply (Hparts c n). by apply elem_of_entries.
    + intros r. rewrite Hm, total_map_sum. f_equal. lia.
  - destruct e as [x|x| |]; simpl.
    1,2,4: destruct Hloop as (c&n&Hin&Ho); destruct (Hc c n Hin) as (Hcd&_);
      simpl in Ho; try (destruct Ho; split; [done|by eapply rtc_l]); done.
    intros cost Hcost. inversion Hcost as [d' b' parts' cost' Hb' Hparts' Hcost']; simplify_eq.
    destruct (Hloop parts') as [r Hr].
    { intros c n Hin%elem_of_entries. by apply (Hparts' c n). }
    exists r. rewrite Hcost', <-total_map_sum. lia.
Qed.

(** the expansion of a blueprint always ends, and says what the device takes.  A result
    is the exact bill of materials of the requested number of units, all components at every
    depth included, with the quantities above the range of [i64] at its top.  A missing
    blueprint or a cycle is reported only when the device depends on it, directly or not;
    the addition overflows only when some quantity of the bill is out of range. *)
Theorem blueprint_cost_is_bill_of_materials d quantity :
  in_i64 quantity →
  outcome d (Z.max quantity 0) (blueprint_resource_cost blueprints d quantity).
Proof.
  intros Hq. unfold blueprint_resource_cost.
  replace (Z.max quantity 0) with (Z.min (Z.max quantity 0) i64_max) at 2 by (machine_ints; lia).
  apply expand_cost_outcome; [lia|by repeat constructor|simpl; lia].
Qed.
End Bill.
