(* ===== verification/BootstrapPlanner.v ===== *)
(** * The regional bootstrap planner

    [crates/replicant-bootstrap-planner/src/lib.rs]: the profile of an ark and its bounds,
    what it has to carry and on how many carriers, the choice of the belts to settle, and
    the tags of a mission.  A [char] is its code point. *)

From S2P Require Import Prelude Float64 Printing PrintingFacts MiningPlanner.

Module Bootstrap.
Import Mining.

Definition AUTOFACTORY : string := "autofactory".
Definition FTL_RELAY : string := "ftl_relay".
Definition FTL_BEACON : string := "ftl_beacon".

Record BootstrapProfile := {
  mining_setups : Z;
  autofactories : Z;
  cargo_freighters : Z;
  transport_controllers : Z;
  hub_maintenance_drones : Z;
  exploration_survey_drones : Z;
  root_relays : Z;
  expansion_relays : Z;
  ftl_beacons : Z;
  dedicated_surge_carriers : Z;
}.

Definition default_profile : BootstrapProfile :=
  {| mining_setups := 8; autofactories := 6; cargo_freighters := 6; transport_controllers := 6;
     hub_maintenance_drones := 2; exploration_survey_drones := 3; root_relays := 1;
     expansion_relays := 18; ftl_beacons := 9; dedicated_surge_carriers := 0 |}.

(** [SumOverflow] is the panic of an [i64] addition in a build with overflow checks. *)
Inductive BootstrapError :=
| InvalidCount (field : string) (minimum maximum actual : Z)
| MissingCarrierCapacity
| CarrierCapacityTooSmall (required actual : Z)
| InsufficientDenseBelts (required found : nat)
| SumOverflow.

Abbreviation bres := (result BootstrapError).

Definition validate_count (field : string) (actual minimum maximum : Z) : bres unit :=
  if decide (minimum ≤ actual ≤ maximum) then Ok tt
  else Err (InvalidCount field minimum maximum actual).

Definition validate_profile (profile : BootstrapProfile) : bres unit :=
  _ ← validate_count "mining_setups" (mining_setups profile) 5 10;
  _ ← validate_count "autofactories" (autofactories profile) 3 6;
  _ ← validate_count "cargo_freighters" (cargo_freighters profile) 6 12;
  _ ← validate_count "transport_controllers" (transport_controllers profile) 1 12;
  _ ← validate_count "hub_maintenance_drones" (hub_maintenance_drones profile) 1 4;
  _ ← validate_count "exploration_survey_drones" (exploration_survey_drones profile) 3 3;
  _ ← validate_count "root_relays" (root_relays profile) 1 4;
  _ ← validate_count "expansion_relays" (expansion_relays profile) 0 36;
  validate_count "ftl_beacons" (ftl_beacons profile) 0 18.

(** ** Payload and carriers *)

Definition ark_device_requirements (profile : BootstrapProfile) : Mining.pres QuantityMap :=
  add_quantities (multiply mining_site_requirements (mining_setups profile))
    (list_to_map
      [(AUTOFACTORY, autofactories profile); (CARGO_FREIGHTER, cargo_freighters profile);
       (TRANSPORT_CONTROLLER, transport_controllers profile);
       (FTL_RELAY, saturating_add_i64 (root_relays profile) (expansion_relays profile));
       (FTL_BEACON, ftl_beacons profile); (MAINTENANCE_DRONE, hub_maintenance_drones profile);
       (SURVEY_CONTROLLER, 1); (SURVEY_DRONE, exploration_survey_drones profile)]).

(** [Iterator::sum] *)
Fixpoint checked_sum (acc : Z) (l : list Z) : bres Z :=
  match l with
  | [] => Ok acc
  | z :: l => if decide (in_i64 (acc + z)) then checked_sum (acc + z) l else Err SumOverflow
  end.

Definition attachment_slots (requirements : QuantityMap) : bres Z :=
  checked_sum 0 ((λ e : string * Z, Z.max e.2 0) <$>
    filter (λ e : string * Z, e.1 ≠ CARGO_FREIGHTER) (entries requirements)).

Definition div_ceil (value divisor : Z) : bres Z :=
  if decide (value ≤ 0) then Ok 0
  else if decide (in_i64 (value + divisor)) then Ok ((value + divisor - 1) / divisor)
  else Err SumOverflow.

Definition required_role_carriers (profile : BootstrapProfile) (requirements : QuantityMap)
    (carrier_capacity : Z) : bres Z :=
  if decide (carrier_capacity ≤ 0) then Err MissingCarrierCapacity
  else
    mining_slots_per_setup ← checked_sum 0 (snd <$> entries mining_site_requirements);
    if decide (carrier_capacity < mining_slots_per_setup)
    then Err (CarrierCapacityTooSmall mining_slots_per_setup carrier_capacity)
    else
      let mining_slots := saturating_mul_i64 mining_slots_per_setup (Z.max (mining_setups profile) 0) in
      let relays := Z.max (expansion_relays profile) 0 in
      let beacons := Z.max (ftl_beacons profile) 0 in
      slots ← attachment_slots requirements;
      let general_slots :=
        saturating_sub_i64 (saturating_sub_i64 (saturating_sub_i64 slots mining_slots) relays) beacons in
      relay_carriers ← div_ceil relays carrier_capacity;
      beacon_carriers ← div_ceil beacons carrier_capacity;
      general_carriers ← div_ceil general_slots carrier_capacity;
      mret (saturating_add_i64 (saturating_add_i64 (saturating_add_i64 (Z.max (mining_setups profile) 0)
        relay_carriers) beacon_carriers) general_carriers).

Definition missing_carriers (payload_slots existing_capacity carrier_capacity : Z) : bres Z :=
  if decide (carrier_capacity ≤ 0) then Err MissingCarrierCapacity
  else div_ceil (saturating_sub_i64 payload_slots existing_capacity) carrier_capacity.

(** The loop over the existing carriers: their number and capacity. *)
Fixpoint select_existing (required : Z) (capacities : list Z) (count : nat) (selected : Z)
  : nat * Z :=
  match capacities with
  | [] => (count, selected)
  | capacity :: capacities =>
      if decide (required ≤ selected) then (count, selected)
      else select_existing required capacities (S count)
             (saturating_add_i64 selected (Z.max capacity 0))
  end.

Definition carrier_provisioning (payload_slots : Z) (existing_capacities : list Z)
    (carrier_capacity minimum_printed : Z) : bres (nat * Z) :=
  if decide (carrier_capacity ≤ 0) then Err MissingCarrierCapacity
  else
    let minimum_printed := Z.max minimum_printed 0 in
    let capacity_after_prints := saturating_mul_i64 minimum_printed carrier_capacity in
    let required_existing_capacity := saturating_sub_i64 payload_slots capacity_after_prints in
    let '(selected_count, selected_capacity) :=
      select_existing required_existing_capacity existing_capacities 0 0 in
    printed ← missing_carriers payload_slots selected_capacity carrier_capacity;
    mret (selected_count, Z.max printed minimum_printed).

(** ** Belts *)

Record BeltCandidate := {
  bc_system : string;
  bc_designation : string;
  bc_density : string;
  bc_distance_from_capital_ly : F64.t;
}.

(** [left.partial_cmp(&right).unwrap_or(Ordering::Equal)] *)
Definition distance_cmp (left right : F64.t) : comparison := default Eq (F64.partial_cmp left right).

Section Belts.
Variable capital_belt : string.

Definition is_capital (b : BeltCandidate) : bool := bool_decide (bc_designation b = capital_belt).

Definition eligible_belt (b : BeltCandidate) : bool :=
  eq_ignore_ascii_case (bc_density b) "dense" || is_capital b.

(** Whether a candidate replaces the belt chosen for its system. *)
Definition replaces (candidate current : BeltCandidate) : bool :=
  if is_capital candidate then true
  else if is_capital current then false
  else
    match distance_cmp (bc_distance_from_capital_ly candidate) (bc_distance_from_capital_ly current) with
    | Lt => true
    | Gt => false
    | Eq => String.ltb (bc_designation candidate) (bc_designation current)
    end.

Definition choose_belt (by_system : gmap string BeltCandidate) (candidate : BeltCandidate)
  : gmap string BeltCandidate :=
  match by_system !! bc_system candidate with
  | None => <[bc_system candidate := candidate]> by_system
  | Some current =>
      if replaces candidate current then <[bc_system candidate := candidate]> by_system else by_system
  end.

(** The comparison of the sort: the capital belt, then the distance, then the system. *)
Definition belt_leb (left right : BeltCandidate) : bool :=
  match is_capital left, is_capital right with
  | true, false => true
  | false, true => false
  | _, _ =>
      match distance_cmp (bc_distance_from_capital_ly left) (bc_distance_from_capital_ly right) with
      | Lt => true
      | Gt => false
      | Eq => String.leb (bc_system left) (bc_system right)
      end
  end.

Definition select_dense_belts (candidates : list BeltCandidate) (minimum maximum : nat)
  : bres (list BeltCandidate) :=
  let maximum := Nat.max maximum minimum in
  let by_system := foldl choose_belt ∅ (List.filter eligible_belt candidates) in
  let selected := sort_by belt_leb (snd <$> entries by_system) in
  if decide (length selected < minimum)%nat
  then Err (InsufficientDenseBelts minimum (length selected))
  else Ok (take maximum selected).
End Belts.

(** ** Tags *)

Definition is_ascii_alphanumeric (c : Z) : bool :=
  bool_decide (48 ≤ c ≤ 57) || bool_decide (65 ≤ c ≤ 90) || bool_decide (97 ≤ c ≤ 122).

Definition hyphen : Z := 45.

Definition tag_char (c : Z) : Z :=
  if is_ascii_alphanumeric c || bool_decide (c = hyphen) || bool_decide (c = 95)
  then byte_to_lower c else hyphen.

(** [trim_start_matches('-')], [trim_end_matches('-')] and [trim_matches('-')] *)
Fixpoint trim_start (l : list Z) : list Z :=
  match l with c :: l' => if decide (c = hyphen) then trim_start l' else l | [] => [] end.
Definition trim_end (l : list Z) : list Z := reverse (trim_start (reverse l)).
Definition trim (l : list Z) : list Z := trim_end (trim_start l).

(** [boot-m:] and [boot-r:] *)
Definition MISSION_PREFIX : list Z := [98; 111; 111; 116; 45; 109; 58].
Definition ROLE_PREFIX : list Z := [98; 111; 111; 116; 45; 114; 58].

(** [{hash:012x}] of a 48-bit value *)
Definition hex_char (d : Z) : Z := if decide (d < 10) then 48 + d else 87 + d.
Definition hex12 (z : Z) : list Z :=
  (λ i : nat, hex_char (Z.land (Z.shiftr z (4 * (11 - Z.of_nat i))) 15)) <$> seq 0 12.

(** [if head.is_empty() { head.push('s') }] *)
Definition or_s (head : list Z) : list Z := match head with [] => [115] | _ => head end.

Definition stable_hash (value : list Z) : Z := fnv1a value.

Definition mission_tag (system : list Z) : list Z :=
  let normalized := trim (tag_char <$> system) in
  let direct := MISSION_PREFIX ++ normalized in
  if decide (length direct ≤ 32)%nat then direct
  else
    let fixed := (length MISSION_PREFIX + 1 + 12)%nat in
    let head_budget := Nat.max (32 - fixed) 1 in
    let head := trim_end (take head_budget normalized) in
    let head := or_s head in
    let hash := Z.land (stable_hash normalized) 0x0000ffffffffffff in
    MISSION_PREFIX ++ head ++ [hyphen] ++ hex12 hash.

Definition role_tag (role : list Z) : list Z :=
  ROLE_PREFIX ++ (byte_to_lower <$>
    take 22 (List.filter (λ c, is_ascii_alphanumeric c || bool_decide (c = hyphen)) role)).

End Bootstrap.
