(* ===== verification/BootstrapFacts.v ===== *)
(** * What the bootstrap planner guarantees

    For [BootstrapPlanner.v]: mission tags fit the server's limit, a provisioning carries the
    payload with nothing to spare, a valid profile has a convoy, and the selected belts are
    the closest of their systems. *)

From S2P Require Import Prelude Float64 Printing PrintingFacts MiningPlanner BootstrapPlanner.
Import Mining Bootstrap.

(** ** Tags *)

(** Lower-case letters, digits, hyphens and underscores. *)
Definition tag_allowed (c : Z) : Prop := 48 ≤ c ≤ 57 ∨ 97 ≤ c ≤ 122 ∨ c = 45 ∨ c = 95.

Lemma tag_char_allowed c : tag_allowed (tag_char c).
Proof.
  unfold tag_char, tag_allowed, is_ascii_alphanumeric, byte_to_lower, hyphen.
  repeat case_bool_decide; simpl; repeat case_decide; lia.
Qed.

Lemma tag_char_lower c : tag_char (byte_to_lower c) = tag_char c.
Proof.
  destruct (decide (65 ≤ c ≤ 90)) as [Hc|Hc].
  2:{ unfold byte_to_lower at 1. by rewrite decide_False. }
  assert (is_ascii_alphanumeric (byte_to_lower c) = true ∧ is_ascii_alphanumeric c = true) as [H1 H2].
  { unfold is_ascii_alphanumeric, byte_to_lower. rewrite decide_True by done.
    rewrite (bool_decide_true (97 ≤ c + 32 ≤ 122)), (bool_decide_true (65 ≤ c ≤ 90)) by lia.
    by rewrite !orb_true_r. }
  unfold tag_char. rewrite H1, H2. simpl. unfold byte_to_lower.
  rewrite (decide_True (P := 65 ≤ c ≤ 90)) by done. rewrite decide_False by lia. done.
Qed.

Lemma trim_start_suffix l : trim_start l `suffix_of` l.
Proof.
  induction l as [|c l IH]; simpl; [done|]. case_decide; [|done]. by apply suffix_cons_r.
Qed.

Lemma trim_end_prefix l : trim_end l `prefix_of` l.
Proof. unfold trim_end. apply prefix_suffix_reverse. rewrite reverse_involutive. apply trim_start_suffix. Qed.

Lemma Forall_trim (P : Z → Prop) l : Forall P l → Forall P (trim l).
Proof.
  intros Hl. unfold trim. destruct (trim_end_prefix (trim_start l)) as [k1 H1].
  destruct (trim_start_suffix l) as [k2 H2]. rewrite H2, Forall_app in Hl. destruct Hl as [_ Hl].
  rewrite H1, Forall_app in Hl. by destruct Hl.
Qed.

Lemma hex12_allowed z : Forall tag_allowed (hex12 z).
Proof.
  unfold hex12. apply Forall_fmap, Forall_forall. intros i _. simpl.
  assert (0 ≤ Z.land (Z.shiftr z (4 * (11 - Z.of_nat i))) 15 < 16).
  { change 15 with (Z.ones 4). rewrite Z.land_ones by lia. apply Z.mod_pos_bound. lia. }
  unfold hex_char, tag_allowed. case_decide; lia.
Qed.

Lemma head_allowed l : Forall tag_allowed l →
  Forall tag_allowed (or_s (trim_end l)) ∧ (length (or_s (trim_end l)) ≤ Nat.max 1 (length l))%nat.
Proof.
  intros Hl. destruct (trim_end_prefix l) as [k Hk].
  destruct (trim_end l) as [|c h] eqn:E.
  - split; [repeat constructor; unfold tag_allowed; lia|simpl; lia].
  - assert (Hlen := f_equal length Hk). rewrite length_app in Hlen.
    rewrite Hk in Hl. apply Forall_app in Hl as [Hl _]. split; [done|]. unfold or_s. lia.
Qed.

(** a mission tag never exceeds the server's 32 characters, starts with [boot-m:] and
    continues with lower-case letters, digits, hyphens and underscores only; it does not
    depend on the case of the system's name; and a name of at most 25 characters appears in
    it readably, with no hash. *)
Theorem mission_tag_fits system :
  (length (mission_tag system) ≤ 32)%nat ∧
  (∃ rest, mission_tag system = MISSION_PREFIX ++ rest ∧ Forall tag_allowed rest) ∧
  mission_tag (byte_to_lower <$> system) = mission_tag system ∧
  ((length system ≤ 25)%nat → mission_tag system = MISSION_PREFIX ++ trim (tag_char <$> system)).
Proof.
  assert (Hn : Forall tag_allowed (trim (tag_char <$> system))).
  { apply Forall_trim, Forall_fmap, Forall_forall. intros c _. apply tag_char_allowed. }
  assert (Hl : (length (trim (tag_char <$> system)) ≤ length system)%nat).
  { unfold trim. etrans; [apply prefix_length, trim_end_prefix|].
    etrans; [apply suffix_length, trim_start_suffix|]. by rewrite length_fmap. }
  split_and!.
  - unfold mission_tag. case_decide; [done|].
    set (l := take _ (trim _)).
    assert (length l ≤ 12)%nat by (unfold l; rewrite length_take; apply Nat.le_min_l).
    assert (Forall tag_allowed l) as [_ Hlen]%head_allowed by by apply Forall_take.
    rewrite !length_app. unfold hex12. rewrite length_fmap, length_seq.
    change (length MISSION_PREFIX) with 7%nat. change (length [hyphen]) with 1%nat. lia.
  - unfold mission_tag. case_decide; [by eexists|]. eexists. split; [done|].
    apply Forall_app. split; [by apply head_allowed, Forall_take|].
    apply Forall_app. split; [repeat constructor; unfold tag_allowed, hyphen; lia|apply hex12_allowed].
  - unfold mission_tag. rewrite <-list_fmap_compose.
    rewrite (list_fmap_ext (tag_char ∘ byte_to_lower) tag_char); [done|].
    intros i c _. apply tag_char_lower.
  - intros Hs. unfold mission_tag. rewrite decide_True; [done|]. rewrite length_app. simpl. lia.
Qed.

(** ** Carriers *)

(** What a list of carriers can take; a negative capacity counts for nothing. *)
Definition capacity_of (capacities : list Z) : Z :=
  foldr Z.add 0 ((λ c, Z.max c 0) <$> capacities).

Lemma capacity_of_app l1 l2 : capacity_of (l1 ++ l2) = capacity_of l1 + capacity_of l2.
Proof. unfold capacity_of. rewrite fmap_app. apply sum_app. Qed.

Lemma capacity_of_nonneg l : 0 ≤ capacity_of l.
Proof. unfold capacity_of. induction l as [|c l IH]; [done|]. rewrite fmap_cons. cbn [foldr]. lia. Qed.

(** The loop stops at the first prefix that is enough. *)
Lemma select_existing_spec required capacities count selected done count' selected' :
  0 ≤ required ≤ i64_max ∨ required ≤ 0 →
  selected = Z.min (capacity_of done) i64_max →
  select_existing required capacities count selected = (count', selected') →
  ∃ k, (k ≤ length capacities)%nat ∧ count' = (count + k)%nat ∧
    selected' = Z.min (capacity_of (done ++ take k capacities)) i64_max ∧
    ∀ j, (j < k)%nat → capacity_of (done ++ take j capacities) < required.
Proof.
  intros Hreq. revert count selected done.
  induction capacities as [|c capacities IH]; intros count selected done Hsel; cbn [select_existing].
  { intros [= <- <-]. exists 0%nat. rewrite app_nil_r. split_and!; [done|lia|done|lia]. }
  case_decide as Hd.
  { intros [= <- <-]. exists 0%nat. rewrite take_0, app_nil_r. split_and!; [simpl; lia|lia|done|lia]. }
  pose proof (capacity_of_nonneg done) as Hnn.
  intros Hs. apply (IH _ _ (done ++ [c])) in Hs.
  2:{ rewrite capacity_of_app. unfold capacity_of at 2. simpl. rewrite Hsel. machine_ints. lia. }
  destruct Hs as (k&Hk&->&->&Hj). exists (S k).
  assert (Hcat : ∀ j, done ++ take (S j) (c :: capacities) = (done ++ [c]) ++ take j capacities)
    by (intros j; simpl; by rewrite <-(assoc_L (++))).
  rewrite Hcat. split_and!; [simpl; lia|lia|done|]. intros [|j] Hjk.
  - rewrite take_0, app_nil_r. machine_ints. lia.
  - rewrite Hcat. apply Hj. lia.
Qed.

(** The number of carriers is the least that takes the rest. *)
Lemma div_ceil_spec value divisor n :
  0 < divisor → div_ceil value divisor = Ok n →
  0 ≤ n ∧ value ≤ n * divisor ∧ (n = 0 ∨ (n - 1) * divisor < value).
Proof.
  intros Hd. unfold div_ceil. case_decide; [intros [= <-]; lia|]. case_decide; [|done].
  intros [= <-]. pose proof (Z.div_mod (value + divisor - 1) divisor ltac:(lia)) as Hdm.
  pose proof (Z.mod_pos_bound (value + divisor - 1) divisor Hd) as Hm.
  assert (0 ≤ (value + divisor - 1) / divisor) by (apply Z.div_pos; lia). nia.
Qed.

Lemma div_ceil_Err value divisor e :
  0 < divisor → div_ceil value divisor = Err e → e = SumOverflow ∧ i64_max < value + divisor.
Proof.
  intros Hd. unfold div_ceil. case_decide; [done|]. case_decide as Hin; [done|].
  intros [= <-]. split; [done|]. revert Hin. machine_ints. lia.
Qed.

(** how a payload is split between existing carriers and new ones.  The existing carriers
    taken are a prefix of the list, each needed even with the reserve of new ones printed;
    together with the printed ones they hold the payload; at least the reserve is printed,
    and beyond it not one carrier more than needed.  The plan fails only when carriers have
    no capacity or the payload is at the end of the range of [i64]. *)
Theorem carrier_provisioning_sufficient payload capacities carrier reserve :
  in_i64 payload → in_i64 carrier → in_i64 reserve →
  match carrier_provisioning payload capacities carrier reserve with
  | Ok (count, printed) =>
      0 < carrier ∧ (count ≤ length capacities)%nat ∧ Z.max reserve 0 ≤ printed ∧
      payload ≤ capacity_of (take count capacities) + printed * carrier ∧
      (∀ j, (j < count)%nat → capacity_of (take j capacities) + Z.max reserve 0 * carrier < payload) ∧
      (Z.max reserve 0 < printed →
       capacity_of (take count capacities) + (printed - 1) * carrier < payload)
  | Err MissingCarrierCapacity => carrier ≤ 0
  | Err SumOverflow => i64_max < payload + carrier
  | Err _ => False
  end.
Proof.
  intros Hp Hc Hr. unfold carrier_provisioning, missing_carriers. case_decide as Hcar; [done|].
  apply Z.nle_gt in Hcar.
  set (req := saturating_sub_i64 payload (saturating_mul_i64 (Z.max reserve 0) carrier)).
  destruct (select_existing req capacities 0 0) as [count selected] eqn:Es.
  apply (select_existing_spec _ _ _ _ []) in Es; [|unfold req; machine_ints; lia|done].
  destruct Es as (k&Hk&->&->&Hj). simpl in Hj |- *.
  pose proof (capacity_of_nonneg (take k capacities)) as Hnn.
  set (total := capacity_of (take k capacities)) in *.
  unfold mbind, result_bind. destruct (div_ceil _ carrier) as [n|e] eqn:Ed.
  - apply div_ceil_spec in Ed as (Hn&Hge&Hleast); [|done]. simpl.
    assert (Hres : Z.max reserve 0 * carrier ≤ Z.max n (Z.max reserve 0) * carrier) by nia.
    split_and!; [done|done|lia| | |].
    + assert (n * carrier ≤ Z.max n (Z.max reserve 0) * carrier) by nia.
      revert Hge. machine_ints. lia.
    + intros j Hjk. specialize (Hj j Hjk). pose proof (capacity_of_nonneg (take j capacities)).
      unfold req in Hj. revert Hj. machine_ints. lia.
    + intros Hlt. rewrite Z.max_l by lia. destruct Hleast as [->|Hleast]; [lia|].
      revert Hleast. machine_ints. nia.
  - apply div_ceil_Err in Ed as [-> Hover]; [|done]. revert Hover. machine_ints. lia.
Qed.

(** ** The convoy of a valid profile *)

Lemma validate_count_Ok field actual minimum maximum u :
  validate_count field actual minimum maximum = Ok u → minimum ≤ actual ≤ maximum.
Proof. unfold validate_count. by case_decide. Qed.

Lemma validate_profile_Ok p u :
  validate_profile p = Ok u →
  5 ≤ mining_setups p ≤ 10 ∧ 3 ≤ autofactories p ≤ 6 ∧ 6 ≤ cargo_freighters p ≤ 12 ∧
  1 ≤ transport_controllers p ≤ 12 ∧ 1 ≤ hub_maintenance_drones p ≤ 4 ∧
  exploration_survey_drones p = 3 ∧ 1 ≤ root_relays p ≤ 4 ∧ 0 ≤ expansion_relays p ≤ 36 ∧
  0 ≤ ftl_beacons p ≤ 18.
Proof.
  unfold validate_profile, mbind, result_bind. intros H.
  repeat (match type of H with context [validate_count ?f ?a ?lo ?hi] =>
    let E := fresh "E" in destruct (validate_count f a lo hi) eqn:E; [|done];
    apply validate_count_Ok in E end). lia.
Qed.

(** The slots a requirement map takes, freighters apart. *)
Definition slot_weight (d : string) (q : Z) : Z := if decide (d = CARGO_FREIGHTER) then 0 else Z.max q 0.
Definition slots (m : QuantityMap) : Z := map_sum slot_weight m.

Lemma checked_sum_spec acc l :
  Forall (λ z, 0 ≤ z) l → 0 ≤ acc → acc + foldr Z.add 0 l ≤ i64_max →
  checked_sum acc l = Ok (acc + foldr Z.add 0 l).
Proof.
  revert acc. induction l as [|z l IH]; intros acc Hl Hacc Hle; cbn [checked_sum foldr] in *.
  { by rewrite Z.add_0_r. }
  apply Forall_cons in Hl as [Hz Hl].
  assert (0 ≤ foldr Z.add 0 l) by (clear -Hl; induction Hl; simpl; lia).
  rewrite decide_True by (machine_ints; lia). rewrite IH by (done || lia). f_equal. lia.
Qed.

Lemma attachment_slots_spec m : slots m ≤ i64_max → attachment_slots m = Ok (slots m).
Proof.
  intros Hle. unfold attachment_slots.
  assert (Heq : foldr Z.add 0 ((λ e : string * Z, Z.max e.2 0) <$>
    filter (λ e : string * Z, e.1 ≠ CARGO_FREIGHTER) (entries m)) = slots m).
  { unfold slots. rewrite map_sum_list.
    assert (Hp : uncurry slot_weight <$> map_to_list m ≡ₚ uncurry slot_weight <$> entries m)
      by (unfold entries; by rewrite (sort_by_perm entry_leb)).
    rewrite (sum_list_perm _ _ Hp). clear Hp.
    induction (entries m) as [|[d q] l IH]; [done|]. rewrite fmap_cons. cbn [foldr uncurry].
    rewrite filter_cons. destruct (decide (d = CARGO_FREIGHTER)) as [Hd|Hd].
    - rewrite decide_False by (simpl; tauto). rewrite IH. unfold slot_weight at 2.
      by rewrite decide_True.
    - rewrite decide_True by done. rewrite fmap_cons. cbn [foldr snd]. rewrite IH.
      unfold slot_weight at 2. by rewrite decide_False. }
  rewrite checked_sum_spec; [by rewrite Heq| |done|by rewrite Heq].
  apply Forall_fmap, Forall_forall. intros e _. simpl. lia.
Qed.

Lemma slot_weight_add d a b : 0 ≤ a → 0 ≤ b → slot_weight d (a + b) = slot_weight d a + slot_weight d b.
Proof. unfold slot_weight. case_decide; lia. Qed.

(** Adding quantities adds their slots. *)
Lemma add_all_slots target source m :
  map_Forall (λ _ q, 0 ≤ q) target → Forall (λ e, 0 ≤ e.2) source → add_all target source = Ok m →
  slots m = slots target + foldr Z.add 0 (uncurry slot_weight <$> source).
Proof.
  revert target. induction source as [|[d q] source IH]; intros target Ht Hs; cbn [add_all].
  { intros [= <-]. simpl. lia. }
  apply Forall_cons in Hs as [Hq Hs]. simpl in Hq. unfold add_quantity, mbind, result_bind. cbn [fst snd].
  case_decide; [|done]. intros Hm.
  assert (Hd : 0 ≤ default 0 (target !! d)).
  { destruct (target !! d) as [n|] eqn:E; [by apply (Ht d)|done]. }
  rewrite (IH (<[d := default 0 (target !! d) + q]> target)); [|by apply map_Forall_insert_2; [lia|]|done..].
  rewrite fmap_cons. cbn [foldr uncurry]. unfold slots.
  rewrite map_sum_update, slot_weight_add by done.
  destruct (target !! d) as [n|]; simpl in *; [lia|]. unfold slot_weight at 2. case_decide; lia.
Qed.

Lemma mining_slots n :
  0 ≤ n ≤ 1000 → slots (multiply mining_site_requirements n) = 9 * n ∧
  map_Forall (λ _ q, 0 ≤ q ≤ 4000) (multiply mining_site_requirements n).
Proof.
  intros Hn. unfold multiply, mining_site_requirements. rewrite !list_to_map_cons, list_to_map_nil.
  rewrite !fmap_insert, fmap_empty. split.
  - unfold slots. rewrite !map_sum_insert by reflexivity. rewrite map_sum_empty.
    unfold slot_weight. repeat (rewrite decide_False by done). machine_ints. cbn [snd]. lia.
  - repeat (apply map_Forall_insert_2; [machine_ints; lia|]). apply map_Forall_empty.
Qed.

(** The payload of a profile in attachment slots. *)
Definition payload_slots (p : BootstrapProfile) : Z :=
  9 * mining_setups p + autofactories p + transport_controllers p + root_relays p +
  expansion_relays p + ftl_beacons p + hub_maintenance_drones p + 1 + exploration_survey_drones p.

Definition ark_extras (p : BootstrapProfile) : QuantityMap :=
  list_to_map
    [(AUTOFACTORY, autofactories p); (CARGO_FREIGHTER, cargo_freighters p);
     (TRANSPORT_CONTROLLER, transport_controllers p);
     (FTL_RELAY, saturating_add_i64 (root_relays p) (expansion_relays p));
     (FTL_BEACON, ftl_beacons p); (MAINTENANCE_DRONE, hub_maintenance_drones p);
     (SURVEY_CONTROLLER, 1); (SURVEY_DRONE, exploration_survey_drones p)].

Lemma ark_extras_spec p u :
  validate_profile p = Ok u →
  Forall (λ e : string * Z, 0 ≤ e.2 ≤ 40) (entries (ark_extras p)) ∧
  foldr Z.add 0 (uncurry slot_weight <$> entries (ark_extras p)) = payload_slots p - 9 * mining_setups p.
Proof.
  intros Hv. apply validate_profile_Ok in Hv.
  assert (Hb : map_Forall (λ _ q, 0 ≤ q ≤ 40) (ark_extras p)).
  { unfold ark_extras. rewrite !list_to_map_cons, list_to_map_nil.
    repeat (apply map_Forall_insert_2; [machine_ints; cbn [snd]; lia|]). apply map_Forall_empty. }
  split.
  - apply Forall_forall. intros [d q] Hin%elem_of_entries. by apply (Hb d).
  - assert (Hp : uncurry slot_weight <$> entries (ark_extras p)
                 ≡ₚ uncurry slot_weight <$> map_to_list (ark_extras p))
      by (unfold entries; by rewrite (sort_by_perm entry_leb)).
    rewrite (sum_list_perm _ _ Hp), <-map_sum_list. unfold ark_extras.
    rewrite !list_to_map_cons, list_to_map_nil. rewrite !map_sum_insert by reflexivity. rewrite map_sum_empty.
    unfold slot_weight, payload_slots. cbn [fst snd].
    rewrite (decide_True (P := CARGO_FREIGHTER = CARGO_FREIGHTER)) by done.
    repeat (rewrite decide_False by done). machine_ints. lia.
Qed.

Lemma ark_requirements_spec p u :
  validate_profile p = Ok u →
  ∃ m, ark_device_requirements p = Ok m ∧ attachment_slots m = Ok (payload_slots p).
Proof.
  intros Hv. destruct (ark_extras_spec p u Hv) as [Hb Hsum].
  pose proof (validate_profile_Ok p u Hv) as Hr.
  destruct (mining_slots (mining_setups p)) as [Hm Hmb]; [lia|].
  unfold ark_device_requirements. fold (ark_extras p). unfold add_quantities.
  destruct (add_all _ (entries (ark_extras p))) as [m|e] eqn:E.
  - exists m. split; [done|].
    apply add_all_slots in E; [|by eapply map_Forall_impl; [exact Hmb|naive_solver]|
      by eapply Forall_impl; [exact Hb|naive_solver]].
    rewrite Hsum, Hm in E. rewrite attachment_slots_spec; rewrite E; [f_equal; lia|].
    unfold payload_slots. machine_ints. lia.
  - apply add_all_Err in E as (_&k&n&Hin&Hover); [|apply entries_map].
    rewrite Forall_forall in Hb. specialize (Hb _ Hin). simpl in Hb. exfalso. apply Hover.
    destruct (multiply _ _ !! k) as [q|] eqn:Eq; simpl; [|machine_ints; lia].
    specialize (Hmb k q Eq). simpl in Hmb. machine_ints. lia.
Qed.

(** Carriers for [n] devices. *)
Definition carriers_for (n capacity : Z) : Z := (n + capacity - 1) / capacity.

Lemma div_ceil_small n capacity :
  0 ≤ n ≤ 1000 → 0 < capacity ≤ i64_max - 1000 → div_ceil n capacity = Ok (carriers_for n capacity).
Proof.
  intros Hn Hc. unfold div_ceil, carriers_for. case_decide.
  - assert (n = 0) as -> by lia. by rewrite Z.div_small by lia.
  - rewrite decide_True by (machine_ints; lia). done.
Qed.

Lemma carriers_for_spec n capacity :
  0 ≤ n ≤ 1000 → 0 < capacity → n ≤ carriers_for n capacity * capacity ∧ 0 ≤ carriers_for n capacity ≤ 1000.
Proof.
  intros Hn Hc. unfold carriers_for.
  pose proof (Z.div_mod (n + capacity - 1) capacity ltac:(lia)) as Hdm.
  pose proof (Z.mod_pos_bound (n + capacity - 1) capacity Hc) as Hm.
  assert (0 ≤ (n + capacity - 1) / capacity) by (apply Z.div_pos; lia). nia.
Qed.

(** every profile the validation accepts has requirements and a convoy: no addition
    overflows, a carrier that cannot hold the nine devices of a mining setup is refused, and
    otherwise there is a carrier for each mining setup and the fewest carriers each for the
    expansion relays, the beacons and the rest, so that all attached devices fit. *)
Theorem valid_profile_has_convoy p capacity :
  validate_profile p = Ok tt → 0 < capacity ≤ i64_max - 1000 →
  ∃ m, ark_device_requirements p = Ok m ∧ attachment_slots m = Ok (payload_slots p) ∧
  if decide (capacity < 9)
  then required_role_carriers p m capacity = Err (CarrierCapacityTooSmall 9 capacity)
  else ∃ n, required_role_carriers p m capacity = Ok n ∧ payload_slots p ≤ n * capacity ∧
    n = mining_setups p + carriers_for (expansion_relays p) capacity
        + carriers_for (ftl_beacons p) capacity
        + carriers_for (payload_slots p - 9 * mining_setups p - expansion_relays p - ftl_beacons p) capacity.
Proof.
  intros Hv Hc. pose proof (validate_profile_Ok p tt Hv) as Hr.
  destruct (ark_requirements_spec p tt Hv) as (m&Hm&Hs). exists m. split_and!; [done..|].
  unfold required_role_carriers. rewrite (decide_False (P := capacity ≤ 0)) by lia.
  change (checked_sum 0 (snd <$> entries mining_site_requirements)) with (Ok (E := BootstrapError) 9).
  unfold mbind, result_bind. case_decide; [done|]. rewrite Hs.
  set (general := payload_slots p - 9 * mining_setups p - expansion_relays p - ftl_beacons p).
  assert (Hg : 0 ≤ general ≤ 1000) by (unfold general, payload_slots; lia).
  replace (saturating_sub_i64 _ _) with general by (unfold general, payload_slots; machine_ints; lia).
  rewrite !(Z.max_l _ 0) by lia. rewrite !div_ceil_small by lia. eexists. split; [done|].
  destruct (carriers_for_spec (expansion_relays p) capacity) as [? ?]; [lia..|].
  destruct (carriers_for_spec (ftl_beacons p) capacity) as [? ?]; [lia..|].
  destruct (carriers_for_spec general capacity) as [? ?]; [lia..|].
  split; [|machine_ints; lia].
  assert (Hsat : ∀ a b c d, 0 ≤ a ≤ 1000 → 0 ≤ b ≤ 1000 → 0 ≤ c ≤ 1000 → 0 ≤ d ≤ 1000 →
    saturating_add_i64 (saturating_add_i64 (saturating_add_i64 a b) c) d = a + b + c + d)
    by (intros; machine_ints; lia).
  rewrite Hsat by lia. assert (9 * mining_setups p ≤ mining_setups p * capacity) by nia.
  unfold general in *. lia.
Qed.
