(* ===== verification/BeltFacts.v ===== *)
(** * The selected belts are the closest

    For [select_dense_belts] of [BootstrapPlanner.v]: one belt per system, the capital belt
    first, and no closer belt left out. *)

From S2P Require Import Prelude Float64 Printing PrintingFacts MiningPlanner BootstrapPlanner.
Import Mining Bootstrap.

Section Belts.
Variable capital_belt : string.
Implicit Types (b c : BeltCandidate).

Local Abbreviation cap := (is_capital capital_belt).
Local Abbreviation dist := bc_distance_from_capital_ly.

(** A distance that compares. *)
Definition measured b : Prop := F64.is_nan (dist b) = false.

Lemma distance_cmp_key b c :
  measured b → measured c →
  match distance_cmp (dist b) (dist c) with
  | Lt => F64.key_lt (F64.key (dist b)) (F64.key (dist c))
  | Eq => F64.key (dist b) = F64.key (dist c)
  | Gt => F64.key_lt (F64.key (dist c)) (F64.key (dist b))
  end.
Proof.
  intros Hb Hc. pose proof (F64.partial_cmp_key _ _ Hb Hc) as H. unfold distance_cmp.
  by destruct (F64.partial_cmp (dist b) (dist c)) as [[]|].
Qed.

(** Closer, or as close with the lower name. *)
Definition before (name : BeltCandidate → string) b c : Prop :=
  F64.key_lt (F64.key (dist b)) (F64.key (dist c)) ∨
  F64.key (dist b) = F64.key (dist c) ∧ String.leb (name b) (name c) = true.

Lemma before_trans name b1 b2 b3 : before name b1 b2 → before name b2 b3 → before name b1 b3.
Proof.
  intros [H1|[E1 L1]] [H2|[E2 L2]]; unfold before.
  - left. by eapply F64.key_lt_trans.
  - left. by rewrite <-E2.
  - left. by rewrite E1.
  - right. split; [congruence|]. by eapply leb_trans.
Qed.

Lemma before_not_closer name b c :
  measured b → measured c → before name b c → F64.ltb (dist c) (dist b) = false.
Proof.
  intros Hb Hc Hbc. apply not_true_iff_false. rewrite F64.ltb_key by done. intros Hl.
  destruct (F64.key_lt_irrefl (F64.key (dist c))). destruct Hbc as [Hk|[Hk _]].
  - by eapply F64.key_lt_trans.
  - rewrite <-Hk at 2. done.
Qed.

(** [b] is the better belt for their system, or in the order of the selection. *)
Definition better (name : BeltCandidate → string) b c : Prop :=
  match cap b, cap c with
  | true, _ => True
  | false, true => False
  | false, false => before name b c
  end.

Lemma replaces_true b c :
  measured b → measured c → replaces capital_belt b c = true → better bc_designation b c.
Proof.
  intros Hb Hc. unfold replaces, better. destruct (cap b); [done|]. destruct (cap c); [done|].
  pose proof (distance_cmp_key b c Hb Hc) as Hd. destruct (distance_cmp _ _); [|by left|done].
  rewrite string_ltb_leb. intros Hs%negb_true_iff. right. split; [done|].
  by destruct (leb_total (bc_designation b) (bc_designation c)) as [|Hl]; [|rewrite Hl in Hs].
Qed.

Lemma replaces_false b c :
  measured b → measured c → replaces capital_belt b c = false → better bc_designation c b.
Proof.
  intros Hb Hc. unfold replaces, better. destruct (cap b); [done|]. destruct (cap c); [done|].
  pose proof (distance_cmp_key b c Hb Hc) as Hd. destruct (distance_cmp _ _); [|done|by left].
  rewrite string_ltb_leb. intros Hs%negb_false_iff. by right.
Qed.

Lemma better_trans name b1 b2 b3 : better name b1 b2 → better name b2 b3 → better name b1 b3.
Proof.
  unfold better. destruct (cap b1), (cap b2), (cap b3); try done. apply before_trans.
Qed.

Lemma better_refl name b : better name b b.
Proof.
  unfold better. destruct (cap b); [done|]. right. split; [done|].
  by destruct (leb_total (name b) (name b)).
Qed.

(** ** The belt of a system *)

Definition chosen (es : list BeltCandidate) (m : gmap string BeltCandidate) : Prop := ∀ s,
  match m !! s with
  | Some b => b ∈ es ∧ bc_system b = s ∧ ∀ c, c ∈ es → bc_system c = s → better bc_designation b c
  | None => ∀ c, c ∈ es → bc_system c ≠ s
  end.

Lemma choose_belt_chosen es m x :
  Forall measured (es ++ [x]) → chosen es m → chosen (es ++ [x]) (choose_belt capital_belt m x).
Proof.
  rewrite Forall_app, Forall_singleton, Forall_forall. intros [Hes Hx] Hm s.
  pose proof (Hm (bc_system x)) as Hs.
  assert (Hother : bc_system x ≠ s → choose_belt capital_belt m x !! s = m !! s).
  { intros Hne. unfold choose_belt. destruct (m !! bc_system x); [destruct (replaces _ _ _)|];
      by rewrite ?lookup_insert_ne. }
  destruct (decide (bc_system x = s)) as [<-|Hne].
  2:{ rewrite Hother by done. specialize (Hm s). destruct (m !! s) as [b|].
      - destruct Hm as (Hb&Hbs&Hbest). split_and!; [by apply elem_of_app; left|done|].
        intros c [Hc| ->%list_elem_of_singleton]%elem_of_app Hcs; [by apply Hbest|done].
      - intros c [Hc| ->%list_elem_of_singleton]%elem_of_app; [by apply Hm|done]. }
  unfold choose_belt. destruct (m !! bc_system x) as [cur|] eqn:Ecur.
  - destruct Hs as (Hcur&Hsys&Hbest). destruct (replaces capital_belt x cur) eqn:Er.
    + rewrite lookup_insert_eq. apply replaces_true in Er; [|done|by apply Hes].
      split_and!; [set_solver|done|]. intros c [Hc| ->%list_elem_of_singleton]%elem_of_app Hcs.
      * eapply better_trans; [done|]. by apply Hbest.
      * apply better_refl.
    + rewrite Ecur. apply replaces_false in Er; [|done|by apply Hes].
      split_and!; [set_solver|done|]. intros c [Hc| ->%list_elem_of_singleton]%elem_of_app Hcs.
      * by apply Hbest.
      * done.
  - rewrite lookup_insert_eq. split_and!; [set_solver|done|].
    intros c [Hc| ->%list_elem_of_singleton]%elem_of_app Hcs; [by destruct (Hs c Hc)|apply better_refl].
Qed.

Lemma choose_belts_chosen es : Forall measured es → chosen es (foldl (choose_belt capital_belt) ∅ es).
Proof.
  induction es as [|x es IH] using rev_ind; intros Hes.
  { intros s. simpl. rewrite lookup_empty. set_solver. }
  rewrite foldl_snoc. apply choose_belt_chosen; [done|]. apply IH. by apply Forall_app in Hes as [? _].
Qed.

(** ** The order of the selection *)

Definition belt_le b c : Prop :=
  match cap b, cap c with
  | true, false => True
  | false, true => False
  | _, _ => before bc_system b c
  end.

Lemma belt_leb_spec b c :
  measured b → measured c → belt_leb capital_belt b c = true ↔ belt_le b c.
Proof.
  intros Hb Hc. unfold belt_leb, belt_le, before.
  assert (Hcmp : match distance_cmp (dist b) (dist c) with
      Lt => true | Gt => false | Eq => String.leb (bc_system b) (bc_system c) end = true
    ↔ F64.key_lt (F64.key (dist b)) (F64.key (dist c)) ∨
      F64.key (dist b) = F64.key (dist c) ∧ String.leb (bc_system b) (bc_system c) = true).
  { pose proof (distance_cmp_key b c Hb Hc) as Hd.
    pose proof (F64.key_lt_irrefl (F64.key (dist b))) as Hirr.
    destruct (distance_cmp _ _).
    - split; [by right|]. intros [Hl|[_ ?]]; [|done]. by rewrite <-Hd in Hl.
    - split; [by left|done].
    - split; [done|]. intros [Hl|[He _]]; [destruct Hirr; by eapply F64.key_lt_trans|].
      destruct Hirr. by rewrite He in Hd |- *. }
  by destruct (cap b), (cap c).
Qed.

Lemma belt_le_trans b1 b2 b3 : belt_le b1 b2 → belt_le b2 b3 → belt_le b1 b3.
Proof. unfold belt_le. destruct (cap b1), (cap b2), (cap b3); try done; apply before_trans. Qed.

Lemma belt_leb_total b c : belt_leb capital_belt b c = true ∨ belt_leb capital_belt c b = true.
Proof.
  unfold belt_leb, distance_cmp. rewrite (F64.partial_cmp_swap (dist c) (dist b)).
  destruct (cap b), (cap c); auto;
    destruct (F64.partial_cmp (dist b) (dist c)) as [[]|]; simpl; auto; apply leb_total.
Qed.

Lemma sorted_belts l :
  Forall measured l → StronglySorted belt_le (sort_by (belt_leb capital_belt) l).
Proof.
  intros Hl. pose proof (Sorted_sort_by (belt_leb capital_belt) l belt_leb_total) as Hs.
  rewrite <-(sort_by_perm (belt_leb capital_belt) l) in Hl.
  apply Sorted_StronglySorted; [intros ???; apply belt_le_trans|].
  induction Hs as [|b l' Hs IH Hd]; constructor; apply Forall_cons in Hl as [Hb Hl]; [by apply IH|].
  destruct Hd as [|c l' Hbc]; constructor. apply Forall_cons in Hl as [Hc _].
  by apply belt_leb_spec.
Qed.

(** ** The selection *)

Lemma belts_by_system es m :
  chosen es m →
  let belts := snd <$> entries m in
  NoDup (bc_system <$> belts) ∧ length belts = size (list_to_set (bc_system <$> es) : gset string) ∧
  (∀ b, b ∈ belts → b ∈ es ∧ ∀ c, c ∈ es → bc_system c = bc_system b → better bc_designation b c) ∧
  (∀ c, c ∈ es → ∃ b, b ∈ belts ∧ bc_system b = bc_system c).
Proof.
  intros Hm. simpl.
  assert (Hkeys : bc_system <$> (snd <$> entries m) = (entries m).*1).
  { rewrite <-list_fmap_compose. apply list_fmap_ext. intros i [s b] Hi. simpl.
    apply list_elem_of_lookup_2, elem_of_entries in Hi. specialize (Hm s). rewrite Hi in Hm. by apply Hm. }
  assert (Hin : ∀ b, b ∈ snd <$> entries m ↔ m !! bc_system b = Some b).
  { intros b. rewrite list_elem_of_fmap. split.
    - intros ([s b']&->&Hs%elem_of_entries). simpl. specialize (Hm s) as Hms. rewrite Hs in Hms.
      destruct Hms as (_&->&_). done.
    - intros Hb. exists (bc_system b, b). split; [done|by apply elem_of_entries]. }
  split_and!.
  - rewrite Hkeys. apply entries_map.
  - rewrite length_fmap. unfold entries. rewrite (Permutation_length (sort_by_perm entry_leb _)).
    rewrite length_map_to_list, <-size_dom. f_equal. apply set_eq. intros s.
    rewrite elem_of_dom, elem_of_list_to_set, list_elem_of_fmap. specialize (Hm s).
    destruct (m !! s) as [b|]; split.
    + intros _. exists b. by destruct Hm as (?&<-&_).
    + done.
    + by intros [? ?].
    + intros (c&->&Hc). by destruct (Hm c Hc).
  - intros b Hb%Hin. specialize (Hm (bc_system b)). rewrite Hb in Hm. naive_solver.
  - intros c Hc. specialize (Hm (bc_system c)) as Hms. destruct (m !! bc_system c) as [b|] eqn:E.
    + exists b. destruct Hms as (?&Hs&_). split; [|done]. apply Hin. by rewrite Hs.
    + by destruct (Hms c Hc).
Qed.

(** [b] may be selected although [c] may not: it is the capital belt, or [c] is neither the
    capital belt nor closer. *)
Definition not_beaten b c : Prop :=
  cap b = true ∨ cap c = false ∧ F64.ltb (dist c) (dist b) = false.

Lemma better_not_beaten name b c : measured b → measured c → better name b c → not_beaten b c.
Proof.
  intros Hb Hc. unfold better, not_beaten. destruct (cap b); [by left|]. destruct (cap c); [done|].
  intros Hbc. right. split; [done|]. by eapply before_not_closer.
Qed.

(** The order of the selection and the choice within a system, one after the other. *)
Lemma not_beaten_chain b b' c :
  measured b → measured b' → measured c →
  belt_le b b' → better bc_designation b' c → not_beaten b c.
Proof.
  intros Hb Hb' Hc. unfold belt_le, better, not_beaten.
  destruct (cap b); [by left|]. destruct (cap b'); [done|]. destruct (cap c); [done|].
  intros H1 H2. right. split; [done|]. apply not_true_iff_false. rewrite F64.ltb_key by done.
  intros Hl. apply (F64.key_lt_irrefl (F64.key (dist c))).
  assert (Hbb : ¬ F64.key_lt (F64.key (dist b')) (F64.key (dist b))).
  { rewrite <-F64.ltb_key by done. apply not_true_iff_false. by eapply before_not_closer. }
  assert (Hbc : ¬ F64.key_lt (F64.key (dist c)) (F64.key (dist b'))).
  { rewrite <-F64.ltb_key by done. apply not_true_iff_false. by eapply before_not_closer. }
  destruct (F64.key_lt_trichotomy (F64.key (dist b')) (F64.key (dist c))) as [H|[H|H]]; [|by rewrite <-H in Hl|done].
  destruct Hbb. by eapply F64.key_lt_trans.
Qed.

Lemma StronglySorted_split {A} (R : A → A → Prop) (l : list A) n x y :
  StronglySorted R l → x ∈ take n l → y ∈ drop n l → R x y.
Proof.
  intros Hs Hx Hy. rewrite <-(take_drop n l) in Hs. revert Hx Hs.
  induction (take n l) as [|a l' IH]; intros Hx Hs; [by apply elem_of_nil in Hx|].
  simpl in Hs. apply StronglySorted_inv in Hs as [Hs Ha]. apply elem_of_cons in Hx as [->|Hx].
  - rewrite Forall_forall in Ha. apply Ha. set_solver.
  - by apply IH.
Qed.

Lemma selected_nodup l n : NoDup (bc_system <$> l) → NoDup (bc_system <$> take n l).
Proof. intros Hnd. rewrite fmap_take. by eapply sublist_NoDup; [|apply sublist_take]. Qed.

Lemma same_system l b c :
  NoDup (bc_system <$> l) → b ∈ l → c ∈ l → bc_system b = bc_system c → b = c.
Proof.
  intros Hnd [i Hi]%list_elem_of_lookup [j Hj]%list_elem_of_lookup Hs.
  assert (i = j) as ->; [|congruence].
  apply (NoDup_lookup _ _ _ (bc_system b) Hnd); rewrite list_lookup_fmap.
  - by rewrite Hi.
  - by rewrite Hj, Hs.
Qed.

(** What holds of the belts chosen for the systems of [es], in order. *)
Section Selection.
Variables (es l : list BeltCandidate).
Hypothesis Hes : ∀ c, c ∈ es → measured c.
Hypothesis Hnd : NoDup (bc_system <$> l).
Hypothesis Hbest : ∀ b, b ∈ l →
  b ∈ es ∧ ∀ c, c ∈ es → bc_system c = bc_system b → better bc_designation b c.
Hypothesis Hall : ∀ c, c ∈ es → ∃ b, b ∈ l ∧ bc_system b = bc_system c.
Hypothesis Hsorted : StronglySorted belt_le l.

(** The chosen belt of the system of [c]. *)
Lemma belt_of_system c : c ∈ es → ∃ b, b ∈ l ∧ bc_system b = bc_system c ∧ better bc_designation b c.
Proof.
  intros Hc. destruct (Hall c Hc) as (b&Hb&Hs). exists b. split_and!; [done..|].
  by apply (Hbest b Hb).
Qed.

Lemma selected_not_beaten n b c :
  b ∈ take n l → c ∈ es → bc_system c = bc_system b ∨ bc_system c ∉ bc_system <$> take n l →
  not_beaten b c.
Proof.
  intros Hb Hc Hsys. assert (Hbl : b ∈ l).
  { apply elem_of_take in Hb as (i&Hi&_). by eapply list_elem_of_lookup_2. }
  destruct (belt_of_system c Hc) as (b'&Hb'&Hs'&Hbetter).
  pose proof (Hes _ (proj1 (Hbest _ Hbl))) as Hmb. pose proof (Hes _ (proj1 (Hbest _ Hb'))) as Hmb'.
  destruct Hsys as [Hsys|Hsys].
  - assert (b = b') as -> by (apply (same_system l); [done..|congruence]).
    eapply better_not_beaten; eauto.
  - pose proof Hb' as Hin. rewrite <-(take_drop n l) in Hin. apply elem_of_app in Hin as [Hin|Hin].
    { destruct Hsys. rewrite <-Hs'. by apply list_elem_of_fmap_2. }
    apply (not_beaten_chain b b' c); [by auto..| |done]. by apply (StronglySorted_split belt_le l n).
Qed.

Lemma capital_first n c :
  (0 < n)%nat → c ∈ es → cap c = true → ∃ b, head (take n l) = Some b ∧ cap b = true.
Proof.
  intros Hn Hc Hcap. destruct (belt_of_system c Hc) as (b'&Hb'&_&Hbetter).
  unfold better in Hbetter. rewrite Hcap in Hbetter. destruct (cap b') eqn:Ecap; [|done].
  destruct l as [|b l']; [by apply elem_of_nil in Hb'|]. destruct n as [|n']; [lia|].
  exists b. split; [done|]. apply elem_of_cons in Hb' as [->|Hb']; [done|].
  apply StronglySorted_inv in Hsorted as [_ Hle]. rewrite Forall_forall in Hle.
  specialize (Hle b' Hb'). unfold belt_le in Hle. rewrite Ecap in Hle. by destruct (cap b).
Qed.
End Selection.

(** the belts selected for settlement, when all distances compare.  They are candidates
    that are dense or the capital belt, one per system, as many as there are such systems up
    to the maximum; within its system and against every belt of a system left out, a selected
    belt is the capital belt or no other is closer; and when the capital belt is among the
    candidates the selection starts with it.  Too few systems are reported with their number. *)
Theorem select_dense_belts_closest candidates minimum maximum :
  Forall measured candidates →
  let suitable := List.filter (eligible_belt capital_belt) candidates in
  let systems := size (list_to_set (bc_system <$> suitable) : gset string) in
  match select_dense_belts capital_belt candidates minimum maximum with
  | Ok l =>
      (minimum ≤ systems)%nat ∧ length l = Nat.min (Nat.max maximum minimum) systems ∧
      NoDup (bc_system <$> l) ∧ (∀ b, b ∈ l → b ∈ suitable) ∧
      (∀ b c, b ∈ l → c ∈ suitable →
         bc_system c = bc_system b ∨ bc_system c ∉ bc_system <$> l → not_beaten b c) ∧
      ((0 < Nat.max maximum minimum)%nat → (∃ c, c ∈ suitable ∧ cap c = true) →
         ∃ b, head l = Some b ∧ cap b = true)
  | Err (InsufficientDenseBelts required found) =>
      required = minimum ∧ found = systems ∧ (systems < minimum)%nat
  | Err _ => False
  end.
Proof.
  intros Hmeas. simpl. set (es := List.filter _ candidates).
  assert (Hes : ∀ c, c ∈ es → measured c).
  { intros c Hc. rewrite Forall_forall in Hmeas. apply Hmeas.
    apply list_elem_of_In, filter_In in Hc as [Hc _]. by apply list_elem_of_In. }
  destruct (belts_by_system es _ (choose_belts_chosen es (proj2 (Forall_forall _ _) Hes)))
    as (Hnd&Hlen&Hbest&Hall).
  unfold select_dense_belts. fold es. set (belts := snd <$> _) in *.
  pose proof (sort_by_perm (belt_leb capital_belt) belts) as Hperm.
  assert (Hsorted : StronglySorted belt_le (sort_by (belt_leb capital_belt) belts)).
  { apply sorted_belts, Forall_forall. intros b Hb. by apply Hes, Hbest. }
  set (l := sort_by (belt_leb capital_belt) belts) in *.
  rewrite <-Hperm in Hnd. setoid_rewrite <-Hperm in Hbest. setoid_rewrite <-Hperm in Hall.
  rewrite <-(Permutation_length Hperm) in Hlen. clearbody l. clear Hperm. rewrite <-Hlen.
  case_decide as Hmin; [done|].
  split_and!; [lia|by rewrite length_take|by apply selected_nodup| | |].
  - intros b (i&Hi&_)%elem_of_take. apply Hbest. by eapply list_elem_of_lookup_2.
  - intros b c. by apply (selected_not_beaten es l).
  - intros Hn (c&Hc&Hcap). by eapply (capital_first es l).
Qed.
End Belts.
