(* ===== verification/PlannerWitnesses.v ===== *)
(** * Concrete plans

    The hypotheses of the theorems on print planning and on the mining and bootstrap
    planners hold on concrete blueprints, carriers and belts. *)

From S2P Require Import Prelude Float64 Printing PrintingFacts PrintScheduleFacts MiningPlanner BootstrapPlanner.
From S2P Require Import BootstrapFacts BeltFacts.

(** ** Prints *)

Definition device (d : string) (components : list (string * Z)) : string * Blueprint :=
  (d, {| bp_device_type := d; bp_print_time_seconds := F64.zero; bp_features := [];
         bp_components := list_to_map components |}).

(** A hub is built from drones and chips, a drone from chips. *)
Definition catalogue : gmap string Blueprint :=
  list_to_map [device "hub" [("drone", 2); ("chip", 1)]; device "drone" [("chip", 3)];
               device "chip" []].
Definition hub_request : list PrintRequest := [{| rq_device_type := "hub"; rq_quantity := 2 |}].

Definition hub_plan : PrintDependencyPlan :=
  {| requested := {["hub" := 2]};
     component_waves := [{["chip" := 10]}; {["drone" := 3]}];
     reused_components := list_to_map [("drone", 1); ("chip", 1)] |}.

Lemma print_plan_feasible_witness :
  plan_print_dependencies catalogue hub_request (list_to_map [("chip", 1); ("drone", 1)])
  = Ok hub_plan ∧
  consumed catalogue (component_waves hub_plan) "chip" = 9 ∧
  requested_need catalogue (entries (requested hub_plan)) "chip" = 2 ∧
  consumed catalogue (component_waves hub_plan) "chip"
  + requested_need catalogue (entries (requested hub_plan)) "chip"
  = default 0 (reused_components hub_plan !! "chip") + produced (component_waves hub_plan) "chip".
Proof.
  split_and!; [vm_compute; reflexivity..|].
  apply (print_plan_feasible catalogue hub_request (list_to_map [("chip", 1); ("drone", 1)]) hub_plan);
    [vm_compute; reflexivity|].
  assert (Hall : map_Forall (λ s bp, map_Forall (λ _ n,
      n * (default 0 (requested hub_plan !! s) + produced (component_waves hub_plan) s) ≤ i64_max)
      (bp_components bp)) catalogue) by (eapply bool_decide_unpack; vm_compute; exact I).
  intros s bp c n Hs Hc. exact (Hall s bp Hs c n Hc).
Defined.

(** ** Mines and bootstraps *)

Import Mining Bootstrap.

Definition spec (name : string) (resources components : list (string * Z)) : BlueprintSpec :=
  {| bs_device_type := name; bs_print_time_seconds := F64.of_Z 60;
     bs_resources := list_to_map resources; bs_components := list_to_map components |}.

(** A controller that takes two drones. *)
Definition sample_blueprints : gmap string BlueprintSpec :=
  list_to_map [("controller", spec "controller" [("rares", 5)] [("drone", 2)]);
               ("drone", spec "drone" [("rares", 1); ("structural", 10)] [])].

Lemma sample_blueprints_nonneg : amounts_nonneg sample_blueprints.
Proof.
  assert (H : map_Forall (λ _ b, map_Forall (λ _ n, 0 ≤ n) (bs_resources b) ∧
      map_Forall (λ _ n, 0 ≤ n) (bs_components b)) sample_blueprints).
  { apply (bool_decide_unpack _). by vm_compute. }
  intros d b Hb. by apply H in Hb.
Qed.

Lemma blueprint_cost_is_bill_of_materials_witness :
  outcome sample_blueprints "controller" 3
    (blueprint_resource_cost sample_blueprints "controller" 3) ∧
  blueprint_resource_cost sample_blueprints "controller" 3
  = Ok (list_to_map [("rares", 21); ("structural", 60)]).
Proof.
  split; [|by vm_compute].
  apply (blueprint_cost_is_bill_of_materials sample_blueprints sample_blueprints_nonneg "controller" 3).
  apply (bool_decide_unpack _). by vm_compute.
Defined.

Lemma carrier_provisioning_sufficient_witness :
  carrier_provisioning 30 [8; 8; 8] 10 1 = Ok (3%nat, 1) ∧
  30 ≤ capacity_of (take 3 [8; 8; 8]) + 1 * 10.
Proof.
  pose proof (carrier_provisioning_sufficient 30 [8; 8; 8] 10 1) as H.
  assert (E : carrier_provisioning 30 [8; 8; 8] 10 1 = Ok (3%nat, 1)) by by vm_compute.
  rewrite E in H. split; [done|]. apply H; apply (bool_decide_unpack _); by vm_compute.
Defined.

Lemma valid_profile_has_convoy_witness :
  ∃ m, ark_device_requirements default_profile = Ok m ∧
    attachment_slots m = Ok (payload_slots default_profile) ∧
  ∃ n, required_role_carriers default_profile m 10 = Ok n ∧ payload_slots default_profile ≤ n * 10.
Proof.
  destruct (valid_profile_has_convoy default_profile 10) as (m&Hm&Hs&Hn).
  - by vm_compute.
  - split; apply (bool_decide_unpack _); by vm_compute.
  - exists m. split; [exact Hm|]. split; [exact Hs|].
    destruct Hn as (n&Hn&Hle&_). exists n. split; [exact Hn|exact Hle].
Defined.

Definition belt (system designation density : string) (ly : Z) : BeltCandidate :=
  {| bc_system := system; bc_designation := designation; bc_density := density;
     bc_distance_from_capital_ly := F64.of_Z ly |}.

Definition sample_belts : list BeltCandidate :=
  [belt "Tau" "Tau-2" "dense" 12; belt "Sol" "Sol-1" "sparse" 0; belt "Tau" "Tau-1" "Dense" 11;
   belt "Eri" "Eri-1" "dense" 10].

Lemma select_dense_belts_closest_witness :
  select_dense_belts "Sol-1" sample_belts 1 2
  = Ok [belt "Sol" "Sol-1" "sparse" 0; belt "Eri" "Eri-1" "dense" 10] ∧
  not_beaten "Sol-1" (belt "Eri" "Eri-1" "dense" 10) (belt "Tau" "Tau-1" "Dense" 11).
Proof.
  assert (E : select_dense_belts "Sol-1" sample_belts 1 2
    = Ok [belt "Sol" "Sol-1" "sparse" 0; belt "Eri" "Eri-1" "dense" 10]) by by vm_compute.
  pose proof (select_dense_belts_closest "Sol-1" sample_belts 1 2) as H. rewrite E in H.
  split; [done|]. apply H.
  - unfold sample_belts. repeat (apply Forall_cons; split; [vm_compute; reflexivity|]). apply Forall_nil, I.
  - right. left.
  - apply list_elem_of_In, filter_In. split; [|vm_compute; reflexivity].
    apply list_elem_of_In. do 2 right. left.
  - right. apply (bool_decide_unpack _). by vm_compute.
Defined.
