(* ===== verification/RelayGraph.v ===== *)
(** * The star graph of the relay planner

    [StarGraph] of [crates/replicant-route-planner/src/lib.rs]: the catalogue in order of
    designation, and the edges between stars that a relay at one of them spans, found
    through a grid of cells as wide as the longest range.  A vertex is the index of its
    star. *)

From S2P Require Import Prelude Float64.

Module Relay.

(** [1e-9] *)
Definition EPSILON : F64.t := F64.div (F64.of_Z 1) (F64.of_Z 1000000000).

Record Position := { po_x : F64.t; po_y : F64.t; po_z : F64.t }.

Definition distance (self other : Position) : F64.t :=
  let dx := F64.sub (po_x self) (po_x other) in
  let dy := F64.sub (po_y self) (po_y other) in
  let dz := F64.sub (po_z self) (po_z other) in
  F64.sqrt (F64.add (F64.add (F64.mul dx dx) (F64.mul dy dy)) (F64.mul dz dz)).

Record Star := {
  designation : string;
  position : Position;
  entry_point : option string;
}.

Record DisconnectedBridge := {
  db_from : string;
  db_to : string;
  db_distance_ly : F64.t;
  db_available_range_ly : F64.t;
  db_shortfall_ly : F64.t;
}.

(** The summary text of the route is not modelled. *)
Record RouteAroundDetails := {
  ra_start : string;
  ra_target : string;
  ra_direct : DisconnectedBridge;
  ra_bottleneck_shortfall_ly : F64.t;
  ra_bridges : list DisconnectedBridge;
}.

(** [CellOverflow] is the panic of an [i64] addition in a build with overflow checks, and
    [IndexPanic] that of an index out of bounds. *)
Inductive PlannerError :=
| DuplicateStar (designation : string)
| UnknownSystem (designation : string)
| NoTargets
| InvalidMaximumHop
| TooManyTerminals (actual limit : nat)
| ExactSearchTooLarge (nodes terminals : nat)
| Disconnected
| DisconnectedGap (start target : string) (gap : DisconnectedBridge)
| DisconnectedRouteAround (details : RouteAroundDetails)
| Reconstruction
| CellOverflow
| IndexPanic
| OutOfFuel.

Abbreviation rres := (result PlannerError).

Record StarGraph := {
  stars : list Star;
  index : gmap string nat;
  relay_ranges_ly : list F64.t;
  adjacency : list (list (nat * F64.t));
}.

(** ** Construction *)

Definition positive_range (range : F64.t) : bool := F64.is_finite range && F64.ltb F64.zero range.

Fixpoint build_index (next : nat) (stars : list Star) (index : gmap string nat)
  : rres (gmap string nat) :=
  match stars with
  | [] => Ok index
  | star :: stars =>
      match index !! designation star with
      | Some _ => Err (DuplicateStar (designation star))
      | None => build_index (S next) stars (<[designation star := next]> index)
      end
  end.

Definition node_range (max_hop_ly : F64.t) (relay_ranges_ly : gmap string F64.t) (star : Star) : F64.t :=
  F64.max (default max_hop_ly (relay_ranges_ly !! designation star)) max_hop_ly.

Definition Cell : Type := Z * Z * Z.

Definition cell (bucket_size : F64.t) (p : Position) : Cell :=
  (F64.floor_i64 (F64.div (po_x p) bucket_size), F64.floor_i64 (F64.div (po_y p) bucket_size),
   F64.floor_i64 (F64.div (po_z p) bucket_size)).

(** [buckets.entry(cell).or_default().push(index)] *)
Definition push_bucket (bucket_size : F64.t) (buckets : gmap Cell (list nat)) (e : nat * Star)
  : gmap Cell (list nat) :=
  let c := cell bucket_size (position e.2) in
  <[c := default [] (buckets !! c) ++ [e.1]]> buckets.

Definition offsets : list (Z * Z * Z) :=
  x ← [-1; 0; 1]; y ← [-1; 0; 1]; z ← [-1; 0; 1]; [(x, y, z)].

Definition shift_cell (c offset : Cell) : Cell :=
  (c.1.1 + offset.1.1, c.1.2 + offset.1.2, c.2 + offset.2).

Definition cell_in_range (c : Cell) : Prop := in_i64 c.1.1 ∧ in_i64 c.1.2 ∧ in_i64 c.2.
#[global] Instance cell_in_range_dec c : Decision (cell_in_range c).
Proof. unfold cell_in_range. apply _. Defined.

(** The stars in the cell of a star and the cells around it. *)
Definition nearby (bucket_size : F64.t) (buckets : gmap Cell (list nat)) (p : Position) : list nat :=
  offset ← offsets; default [] (buckets !! shift_cell (cell bucket_size p) offset).

Section Edges.
Variable nodes : list (Star * F64.t).

Definition spans (left right : Star * F64.t) : bool :=
  F64.leb (distance (position left.1) (position right.1)) (F64.add (F64.max left.2 right.2) EPSILON).

(** [adjacency[left].push(..); adjacency[right].push(..)] *)
Definition connect (left : nat) (adjacency : list (list (nat * F64.t))) (right : nat)
  : list (list (nat * F64.t)) :=
  match nodes !! left, nodes !! right with
  | Some l, Some r =>
      if decide (right ≤ left)%nat then adjacency
      else if spans l r then
        let d := distance (position l.1) (position r.1) in
        alter (λ ns, ns ++ [(left, d)]) right (alter (λ ns, ns ++ [(right, d)]) left adjacency)
      else adjacency
  | _, _ => adjacency
  end.
End Edges.

Definition neighbor_leb (a b : nat * F64.t) : bool := (a.1 <=? b.1)%nat.
Definition star_leb (a b : Star) : bool := String.leb (designation a) (designation b).

(** [StarGraph::with_relay_ranges] *)
Definition with_relay_ranges (stars : list Star) (max_hop_ly : F64.t)
    (relay_ranges_ly : gmap string F64.t) : rres StarGraph :=
  if negb (positive_range max_hop_ly) then Err InvalidMaximumHop
  else if existsb (λ e : string * F64.t, negb (positive_range e.2)) (map_to_list relay_ranges_ly)
  then Err InvalidMaximumHop
  else
    let stars := sort_by star_leb stars in
    index ← build_index 0 stars ∅;
    let node_ranges := node_range max_hop_ly relay_ranges_ly <$> stars in
    let bucket_size := foldl F64.max max_hop_ly node_ranges in
    let buckets := foldl (push_bucket bucket_size) ∅ (imap pair stars) in
    if decide (Forall (λ s, Forall (λ o, cell_in_range (shift_cell (cell bucket_size (position s)) o))
                 offsets) stars)
    then
      let nodes := zip stars node_ranges in
      let adjacency := foldl (λ adjacency e,
          foldl (connect nodes e.1) adjacency (nearby bucket_size buckets (position e.2)))
        (replicate (length stars) []) (imap pair stars) in
      mret {| stars := stars; index := index; relay_ranges_ly := node_ranges;
              adjacency := sort_by neighbor_leb <$> adjacency |}
    else Err CellOverflow.

(** [StarGraph::new] *)
Definition new (stars : list Star) (max_hop_ly : F64.t) : rres StarGraph :=
  with_relay_ranges stars max_hop_ly ∅.

(** [resolve] *)
Definition resolve (self : StarGraph) (designation : string) : rres nat :=
  ok_or (index self !! designation) (UnknownSystem designation).

(** The neighbours of a vertex. *)
Definition neighbors (self : StarGraph) (v : nat) : list nat := (default [] (adjacency self !! v)).*1.

End Relay.
