(* ===== verification/RelaySolver.v ===== *)
(** * The exact relay solver

    The solver of [crates/replicant-route-planner/src/lib.rs]: lexicographic costs, the
    metric closure, the tables over sets of terminals (after Dreyfus and Wagner), the
    reconstruction of the tree, the greedy tree and the reduction to the relay corridor.
    A set of terminals is the number with their bits; a vector is a list, and a
    [BinaryHeap] of costs and vertices a list whose least entry is taken. *)

From S2P Require Import Prelude Float64 RelayGraph.
Import Relay.

Module Steiner.

Definition INF_COMPONENT : Z := u32_max / 8.
Definition EXACT_TERMINAL_LIMIT : nat := 20.
Definition PRUNE_MINIMUM_NODES : nat := 64.

(** ** Costs *)

Record Cost := { new_relays : Z; hops : Z }.
#[global] Instance Cost_eq : EqDecision Cost.
Proof. solve_decision. Defined.

Definition INF : Cost := {| new_relays := INF_COMPONENT; hops := INF_COMPONENT |}.

Definition node (new_relay : bool) : Cost := {| new_relays := if new_relay then 1 else 0; hops := 0 |}.

(** [u32::saturating_add] and [u32::saturating_sub] *)
Definition saturating_add_u32 (a b : Z) : Z := Z.min u32_max (a + b).
Definition saturating_sub_u32 (a b : Z) : Z := Z.max 0 (a - b).

Definition add (self other : Cost) : Cost :=
  if decide (self = INF ∨ other = INF) then INF
  else {| new_relays := saturating_add_u32 (new_relays self) (new_relays other);
          hops := saturating_add_u32 (hops self) (hops other) |}.

Definition subtract_node (self n : Cost) : Cost :=
  if decide (self = INF) then INF
  else {| new_relays := saturating_sub_u32 (new_relays self) (new_relays n); hops := hops self |}.

(** The derived order: new relays first. *)
Definition cost_ltb (a b : Cost) : bool :=
  (new_relays a <? new_relays b) || ((new_relays a =? new_relays b) && (hops a <? hops b)).

Inductive Parent := NoParent | Move (previous : nat) | Split (submask : N).

Definition hop : Cost := {| new_relays := 0; hops := 1 |}.

(** [values[i]] *)
Definition at_ (values : list Cost) (v : nat) : Cost := default INF (values !! v).
Definition cost_of (node_cost : list Cost) (v : nat) : Cost := default (node false) (node_cost !! v).

(** ** The metric closure *)

(** The order of the heap: the least cost, then the least vertex, first. *)
Definition entry_before (a b : Cost * nat) : bool :=
  cost_ltb a.1 b.1 || (bool_decide (a.1 = b.1) && (a.2 <=? b.2)%nat).

(** [BinaryHeap::pop] *)
Fixpoint pop (heap : list (Cost * nat)) : option ((Cost * nat) * list (Cost * nat)) :=
  match heap with
  | [] => None
  | x :: heap =>
      match pop heap with
      | None => Some (x, [])
      | Some (y, rest) => if entry_before x y then Some (x, heap) else Some (y, x :: rest)
      end
  end.

Record Closure := {
  values : list Cost;
  parents : list Parent;
  heap : list (Cost * nat);
}.

Section Solver.
Variable graph : StarGraph.
Variable node_cost : list Cost.

(** The loop over the neighbours of a vertex. *)
Definition relax (cost : Cost) (current : nat) (st : Closure) (neighbor : nat) : Closure :=
  let candidate := add (add cost (cost_of node_cost neighbor)) hop in
  if cost_ltb candidate (at_ (values st) neighbor) then
    {| values := <[neighbor := candidate]> (values st);
       parents := <[neighbor := Move current]> (parents st);
       heap := (candidate, neighbor) :: heap st |}
  else st.

Fixpoint close (fuel : nat) (st : Closure) : option Closure :=
  match fuel with
  | O => None
  | S fuel =>
      match pop (heap st) with
      | None => Some st
      | Some ((cost, current), rest) =>
          let st := {| values := values st; parents := parents st; heap := rest |} in
          if decide (cost ≠ at_ (values st) current) then close fuel st
          else close fuel (foldl (relax cost current) st (neighbors graph current))
      end
  end.

Definition initial_heap (values : list Cost) : list (Cost * nat) :=
  filter (λ e : Cost * nat, e.1 ≠ INF) (imap (λ i c, (c, i)) values).

Definition edge_count : nat := sum_list (length <$> adjacency graph).

Definition metric_closure (vs : list Cost) (ps : list Parent) : option (list Cost * list Parent) :=
  st ← close (S (length vs + edge_count)) {| values := vs; parents := ps; heap := initial_heap vs |};
  Some (values st, parents st).

(** ** The tables *)

Record Tables := {
  dp : list (list Cost);
  parent : list (list Parent);
}.

Definition row {A} (table : list (list A)) (mask : N) : list A := default [] (table !! N.to_nat mask).

(** The closure of one row. *)
Definition close_row (mask : N) (t : Tables) : option Tables :=
  '(vs, ps) ← (metric_closure (row (dp t) mask) (row (parent t) mask));
  Some {| dp := <[N.to_nat mask := vs]> (dp t); parent := <[N.to_nat mask := ps]> (parent t) |}.

(** [dp[1 << bit][terminal] = node_cost[terminal]] and its closure *)
Fixpoint seed_terminals (bit : nat) (terminals : list nat) (t : Tables) : option Tables :=
  match terminals with
  | [] => Some t
  | terminal :: terminals =>
      let mask := N.shiftl 1 (N.of_nat bit) in
      let vs := <[terminal := cost_of node_cost terminal]> (row (dp t) mask) in
      t ← close_row mask {| dp := <[N.to_nat mask := vs]> (dp t); parent := parent t |};
      seed_terminals (S bit) terminals t
  end.

(** One vertex of a split of [mask] into [submask] and [other]. *)
Definition split_vertex (submask other : N) (sub oth : list Cost) (acc : list Cost * list Parent)
    (vertex : nat) : list Cost * list Parent :=
  let candidate := subtract_node (add (at_ sub vertex) (at_ oth vertex)) (cost_of node_cost vertex) in
  if cost_ltb candidate (at_ acc.1 vertex)
  then (<[vertex := candidate]> acc.1, <[vertex := Split submask]> acc.2)
  else acc.

(** The loop over the submasks of a mask, from the largest. *)
Fixpoint split_rows (fuel : nat) (n : nat) (t : list (list Cost)) (mask submask : N)
    (acc : list Cost * list Parent) : option (list Cost * list Parent) :=
  match fuel with
  | O => None
  | S fuel =>
      if decide (submask = 0%N) then Some acc
      else
        let other := N.lxor mask submask in
        let acc := if decide (submask < other)%N
                   then foldl (split_vertex submask other (row t submask) (row t other)) acc (seq 0 n)
                   else acc in
        split_rows fuel n t mask (N.land (submask - 1) mask) acc
  end.

Definition is_power_of_two (mask : N) : bool :=
  bool_decide (mask ≠ 0%N) && bool_decide (N.land mask (mask - 1) = 0%N).

Definition fill_mask (n : nat) (mask : N) (t : Tables) : option Tables :=
  if is_power_of_two mask then Some t
  else
    '(vs, ps) ← split_rows (S (N.to_nat mask)) n (dp t) mask (N.land (mask - 1) mask)
                  (row (dp t) mask, row (parent t) mask);
    close_row mask {| dp := <[N.to_nat mask := vs]> (dp t); parent := <[N.to_nat mask := ps]> (parent t) |}.

Fixpoint fill_masks (n : nat) (masks : list N) (t : Tables) : option Tables :=
  match masks with
  | [] => Some t
  | mask :: masks => t ← fill_mask n mask t; fill_masks n masks t
  end.

Definition mask_count (terminals : list nat) : nat := N.to_nat (N.shiftl 1 (N.of_nat (length terminals))).

Definition solve_tables (terminals : list nat) : option Tables :=
  let n := length (stars graph) in
  let count := mask_count terminals in
  t ← seed_terminals 0 terminals {| dp := replicate count (replicate n INF);
                                    parent := replicate count (replicate n NoParent) |};
  fill_masks n (N.of_nat <$> seq 1 (count - 1)) t.

(** ** The tree *)

Definition ordered_edge (left right : nat) : nat * nat :=
  if decide (left < right)%nat then (left, right) else (right, left).

Record Trace := {
  tr_edges : gset (nat * nat);
  tr_visited : gset (N * nat);
}.

Fixpoint reconstruct (fuel : nat) (parent : list (list Parent)) (mask : N) (vertex : nat) (t : Trace)
  : rres Trace :=
  match fuel with
  | O => Err OutOfFuel
  | S fuel =>
      if decide ((mask, vertex) ∈ tr_visited t) then Ok t
      else
        let t := {| tr_edges := tr_edges t; tr_visited := {[(mask, vertex)]} ∪ tr_visited t |} in
        match default NoParent (row parent mask !! vertex) with
        | Move previous =>
            reconstruct fuel parent mask previous
              {| tr_edges := {[ordered_edge vertex previous]} ∪ tr_edges t; tr_visited := tr_visited t |}
        | Split submask =>
            if decide (submask = 0%N ∨ submask = mask) then Err Reconstruction
            else
              t ← reconstruct fuel parent submask vertex t;
              reconstruct fuel parent (N.lxor mask submask) vertex t
        | NoParent => if is_power_of_two mask then Ok t else Err Reconstruction
        end
  end.

End Solver.

(** The vertices that share an edge with a vertex, in ascending order. *)
Definition incident (edges : gset (nat * nat)) (v : nat) : list nat :=
  sort_by Nat.leb (elements (set_map (D := gset nat) (λ e : nat * nat, if decide (e.1 = v) then e.2 else e.1)
    (filter (λ e : nat * nat, e.1 = v ∨ e.2 = v) edges))).

(** The breadth-first walk: the edges to vertices seen for the first time. *)
Record Walk := {
  wk_tree : gset (nat * nat);
  wk_seen : gset nat;
  wk_queue : list nat;
}.

Definition discover (current : nat) (w : Walk) (neighbor : nat) : Walk :=
  if decide (neighbor ∈ wk_seen w) then w
  else {| wk_tree := {[ordered_edge current neighbor]} ∪ wk_tree w;
          wk_seen := {[neighbor]} ∪ wk_seen w; wk_queue := wk_queue w ++ [neighbor] |}.

Fixpoint walk_tree (fuel : nat) (edges : gset (nat * nat)) (w : Walk) : option Walk :=
  match fuel with
  | O => None
  | S fuel =>
      match wk_queue w with
      | [] => Some w
      | current :: queue =>
          walk_tree fuel edges (foldl (discover current)
            {| wk_tree := wk_tree w; wk_seen := wk_seen w; wk_queue := queue |} (incident edges current))
      end
  end.

Definition deterministic_spanning_tree (start : nat) (edges : gset (nat * nat))
  : option (gset (nat * nat)) :=
  w ← walk_tree (S (S (2 * size edges))) edges
        {| wk_tree := ∅; wk_seen := {[start]}; wk_queue := [start] |};
  Some (wk_tree w).

(** [degree] and [removable] *)
Definition degree (edges : gset (nat * nat)) (v : nat) : nat :=
  (size (filter (λ e : nat * nat, e.1 = v) edges) + size (filter (λ e : nat * nat, e.2 = v) edges))%nat.
Definition endpoints (edges : gset (nat * nat)) : gset nat :=
  set_map (D := gset nat) fst edges ∪ set_map (D := gset nat) snd edges.
Definition removable (terminals : gset nat) (edges : gset (nat * nat)) : gset nat :=
  filter (λ v, (v ∉ terminals) ∧ (degree edges v ≤ 1)%nat) (endpoints edges).

Fixpoint prune_leaves (fuel : nat) (terminals : gset nat) (edges : gset (nat * nat))
  : option (gset (nat * nat)) :=
  match fuel with
  | O => None
  | S fuel =>
      let r := removable terminals edges in
      if decide (r = ∅) then Some edges
      else prune_leaves fuel terminals (filter (λ e : nat * nat, (e.1 ∉ r) ∧ (e.2 ∉ r)) edges)
  end.

Definition prune_nonterminal_leaves (edges : gset (nat * nat)) (terminals : gset nat)
  : option (gset (nat * nat)) :=
  prune_leaves (S (size edges)) terminals edges.

(** The tree of a set of edges: spanned from the start and without idle leaves. *)
Definition finish_tree (start : nat) (terminals : gset nat) (edges : gset (nat * nat))
  : rres (gset (nat * nat)) :=
  tree ← ok_or (deterministic_spanning_tree start edges) OutOfFuel;
  ok_or (prune_nonterminal_leaves tree terminals) OutOfFuel.

(** The exact search: no tree when the terminals are disconnected. *)
Definition exact_tree (graph : StarGraph) (node_cost : list Cost) (terminals : list nat) (start : nat)
  : rres (option (gset (nat * nat))) :=
  t ← ok_or (solve_tables graph node_cost terminals) OutOfFuel;
  let full_mask := (N.of_nat (mask_count terminals) - 1)%N in
  if decide (at_ (row (dp t) full_mask) start = INF) then mret None
  else
    reconstructed ← reconstruct (S (mask_count terminals * length (stars graph))) (parent t) full_mask start
                      {| tr_edges := ∅; tr_visited := ∅ |};
    tree ← finish_tree start (list_to_set terminals) (tr_edges reconstructed);
    mret (Some tree).

End Steiner.
