(* ===== verification/RelayTravel.v ===== *)
(** * The deployment trip of a relay network

    [optimize_execution_order] of [crates/replicant-route-planner/src/lib.rs]: the order in
    which a carrier visits the systems that need work.  Up to sixteen stops are ordered by a
    table over the sets of stops visited, more by the nearest stop whose parent is done. *)

From S2P Require Import Prelude Float64 RelayGraph RelaySolver.
Import Relay.

Module Travel.

Definition EXACT_EXECUTION_STOP_LIMIT : nat := 16.

Inductive RelayAvailability := Active | ActivationRequired | New.
#[global] Instance RelayAvailability_eq : EqDecision RelayAvailability.
Proof. solve_decision. Defined.

Record NetworkNode := {
  system : string;
  nn_entry_point : option string;
  depth : nat;
  is_start : bool;
  is_target : bool;
  relay : RelayAvailability;
  nn_parent : option string;
}.

Record TravelCost := { tc_hops : Z; tc_distance : F64.t }.

Definition INF : TravelCost := {| tc_hops := u32_max; tc_distance := F64.infinity |}.
Definition ZERO : TravelCost := {| tc_hops := 0; tc_distance := F64.zero |}.

(** [TravelCost::add] *)
Definition plus (self other : TravelCost) : TravelCost :=
  if decide (tc_hops self = u32_max ∨ tc_hops other = u32_max) then INF
  else {| tc_hops := Steiner.saturating_add_u32 (tc_hops self) (tc_hops other);
          tc_distance := F64.add (tc_distance self) (tc_distance other) |}.

(** [TravelCost::better_than] *)
Definition better_than (self other : TravelCost) : bool :=
  (tc_hops self <? tc_hops other)
  || ((tc_hops self =? tc_hops other)
      && F64.ltb (F64.add (tc_distance self) EPSILON) (tc_distance other)).

(** ** Shortest hops *)

Record Bfs := { bf_hops : list Z; bf_queue : list nat }.

Definition hops_at (hops : list Z) (v : nat) : Z := default u32_max (hops !! v).

Definition reach (next_hop : Z) (st : Bfs) (neighbor : nat) : Bfs :=
  if decide (hops_at (bf_hops st) neighbor = u32_max)
  then {| bf_hops := <[neighbor := next_hop]> (bf_hops st); bf_queue := bf_queue st ++ [neighbor] |}
  else st.

Fixpoint hop_search (fuel : nat) (graph : StarGraph) (st : Bfs) : option (list Z) :=
  match fuel with
  | O => None
  | S fuel =>
      match bf_queue st with
      | [] => Some (bf_hops st)
      | current :: queue =>
          let next_hop := Steiner.saturating_add_u32 (hops_at (bf_hops st) current) 1 in
          hop_search fuel graph
            (foldl (reach next_hop) {| bf_hops := bf_hops st; bf_queue := queue |} (neighbors graph current))
      end
  end.

Definition hop_order_leb (hops : list Z) (a b : nat) : bool :=
  (hops_at hops a <? hops_at hops b)
  || ((hops_at hops a =? hops_at hops b) && (a <=? b)%nat).

Definition distance_at (distance : list F64.t) (v : nat) : F64.t := default F64.infinity (distance !! v).

(** The shortest distance among the routes with the fewest hops. *)
Definition relax_distance (hops : list Z) (current : nat) (distance : list F64.t) (e : nat * F64.t)
  : list F64.t :=
  if decide (hops_at hops e.1 ≠ Steiner.saturating_add_u32 (hops_at hops current) 1) then distance
  else
    let candidate := F64.add (distance_at distance current) e.2 in
    if F64.ltb (F64.add candidate EPSILON) (distance_at distance e.1)
    then <[e.1 := candidate]> distance else distance.

Definition relax_distances (graph : StarGraph) (hops : list Z) (distance : list F64.t) (current : nat)
  : list F64.t :=
  if F64.is_finite (distance_at distance current)
  then foldl (relax_distance hops current) distance (default [] (adjacency graph !! current))
  else distance.

Definition shortest_hop_metrics (graph : StarGraph) (source : nat) : rres (list TravelCost) :=
  let n := length (stars graph) in
  hops ← ok_or (hop_search (S n) graph
                  {| bf_hops := <[source := 0]> (replicate n u32_max); bf_queue := [source] |}) OutOfFuel;
  let order := sort_by (hop_order_leb hops) (seq 0 n) in
  let distance := foldl (relax_distances graph hops) (<[source := F64.zero]> (replicate n F64.infinity)) order in
  mret (zip_with Build_TravelCost hops distance).

(** ** Stops *)

Definition needs_work (node : NetworkNode) : bool :=
  negb (is_start node) && bool_decide (relay node ≠ Active).
Definition system_leb (a b : NetworkNode) : bool := String.leb (system a) (system b).

(** [stop_bits], a later stop replacing an earlier one of the same name. *)
Definition stop_bits (stops : list NetworkNode) : gmap string nat :=
  foldl (λ bits e, <[system e.2 := e.1]> bits) ∅ (imap pair stops).

Definition prerequisite_indices (stops : list NetworkNode) : list (option nat) :=
  (λ node, parent ← nn_parent node; stop_bits stops !! parent) <$> stops.

(** [pair_costs]: what a leg between two points costs. *)
Definition pair_costs (graph : StarGraph) (points : list nat) : rres (list (list TravelCost)) :=
  mapM (λ source, metrics ← shortest_hop_metrics graph source;
                  mret ((λ target, default INF (metrics !! target)) <$> points)) points.

Definition leg (costs : list (list TravelCost)) (source target : nat) : TravelCost :=
  default INF (row ← costs !! source; row !! target).

(** ** Many stops: the nearest first *)

Section Greedy.
Variable stops : list NetworkNode.
Variable prerequisites : list (option nat).
Variable costs : list (list TravelCost).

Definition stop_name (stop : nat) : string := default EmptyString (system <$> stops !! stop).

Definition ready (completed : list nat) (stop : nat) : bool :=
  bool_decide (stop ∉ completed)
  && match mjoin (prerequisites !! stop) with
     | Some parent => bool_decide (parent ∈ completed)
     | None => true
     end.

Definition nearer (current : nat) (left right : nat) : bool :=
  let l := leg costs current (S left) in
  let r := leg costs current (S right) in
  (tc_hops l <? tc_hops r)
  || ((tc_hops l =? tc_hops r)
      && (if decide (F64.rank (tc_distance l) = F64.rank (tc_distance r))
          then String.leb (stop_name left) (stop_name right)
          else F64.total_leb (tc_distance l) (tc_distance r))).

(** [completed] lists the stops done, in order. *)
Fixpoint greedy_order (fuel : nat) (current : nat) (total : TravelCost) (completed : list nat)
  : rres (list nat * nat * TravelCost) :=
  match fuel with
  | O => mret (completed, current, total)
  | S fuel =>
      next ← ok_or (min_by (nearer current)
                      (filter (λ stop, ready completed stop = true) (seq 0 (length stops)))) Reconstruction;
      let l := leg costs current (S next) in
      if decide (tc_hops l = u32_max) then Err Disconnected
      else greedy_order fuel (S next) (plus total l) (completed ++ [next])
  end.

Definition greedy_trip : rres (list string * bool * Z * F64.t) :=
  match greedy_order (length stops) 0 ZERO [] with
  | Err e => Err e
  | Ok (order, current, total) =>
      let total := plus total (leg costs current 0) in
      if decide (tc_hops total = u32_max) then Err Disconnected
      else Ok (stop_name <$> order, false, tc_hops total, tc_distance total)
  end.
End Greedy.

(** ** Few stops: every order *)

Section Exact.
Variable stops : list NetworkNode.
Variable prerequisites : list (option nat).
Variable costs : list (list TravelCost).

(** [dp] and [previous], for a set of stops visited and the last of them. *)
Record Trips := {
  best_to : list (list TravelCost);
  came_from : list (list (option nat));
}.

Definition bit (stop : nat) : N := (2 ^ N.of_nat stop)%N.
Definition trip (t : Trips) (mask : N) (last : nat) : TravelCost :=
  default INF (Steiner.row (best_to t) mask !! last).

(** The parents of a stop, as a mask. *)
Definition requires (stop : nat) : N :=
  match mjoin (prerequisites !! stop) with Some parent => bit parent | None => 0%N end.

Definition first_stop (t : Trips) (next : nat) : Trips :=
  if decide (requires next = 0%N) then
    {| best_to := alter (λ row, <[next := leg costs 0 (S next)]> row) (N.to_nat (bit next)) (best_to t);
       came_from := came_from t |}
  else t.

Definition next_stop (mask : N) (last : nat) (current : TravelCost) (t : Trips) (next : nat) : Trips :=
  if decide (N.land mask (bit next) ≠ 0%N ∨ N.land (requires next) mask ≠ requires next) then t
  else
    let candidate := plus current (leg costs (S last) (S next)) in
    let next_mask := N.lor mask (bit next) in
    if better_than candidate (trip t next_mask next) then
      {| best_to := alter (λ row, <[next := candidate]> row) (N.to_nat next_mask) (best_to t);
         came_from := alter (λ row, <[next := Some last]> row) (N.to_nat next_mask) (came_from t) |}
    else t.

Definition leave (mask : N) (t : Trips) (last : nat) : Trips :=
  let current := trip t mask last in
  if decide (tc_hops current = u32_max ∨ N.land mask (bit last) = 0%N) then t
  else foldl (next_stop mask last current) t (seq 0 (length stops)).

Definition trips : Trips :=
  let n := length stops in
  let masks := N.to_nat (bit n) in
  foldl (λ t mask, foldl (leave mask) t (seq 0 n))
    (foldl first_stop {| best_to := replicate masks (replicate n INF);
                         came_from := replicate masks (replicate n None) |} (seq 0 n))
    (N.of_nat <$> seq 1 (masks - 1)).

(** The best last stop, with the way back. *)
Definition close_trip (t : Trips) (full : N) (best : TravelCost * option nat) (last : nat)
  : TravelCost * option nat :=
  let candidate := plus (trip t full last) (leg costs (S last) 0) in
  if better_than candidate best.1 then (candidate, Some last) else best.

(** The stops from the last to the first, and the stops left over. *)
Fixpoint retrace (fuel : nat) (t : Trips) (mask : N) (last : nat) : option (list nat * N) :=
  match fuel with
  | O => None
  | S fuel =>
      let prior := mjoin (Steiner.row (came_from t) mask !! last) in
      let mask := N.lxor mask (bit last) in
      match prior with
      | None => Some ([last], mask)
      | Some prior => '(rest, unvisited) ← retrace fuel t mask prior; Some (last :: rest, unvisited)
      end
  end.

Definition exact_trip : rres (list string * bool * Z * F64.t) :=
  let n := length stops in
  let full := (bit n - 1)%N in
  let t := trips in
  let '(best, best_end) := foldl (close_trip t full) (INF, None) (seq 0 n) in
  match best_end with
  | None => Err Disconnected
  | Some last =>
      match retrace (S n) t full last with
      | None => Err OutOfFuel
      | Some (reversed, unvisited) =>
          if decide (unvisited ≠ 0%N) then Err Reconstruction
          else Ok (stop_name stops <$> reverse reversed, true, tc_hops best, tc_distance best)
      end
  end.
End Exact.

(** [optimize_execution_order] *)
Definition optimize_execution_order (graph : StarGraph) (start : nat) (nodes : list NetworkNode)
  : rres (list string * bool * Z * F64.t) :=
  let stops := sort_by system_leb (filter (λ node, needs_work node = true) nodes) in
  if decide (stops = []) then mret ([], true, 0, F64.zero)
  else
    stop_indices ← mapM (λ node, resolve graph (system node)) stops;
    costs ← pair_costs graph (start :: stop_indices);
    let prerequisites := prerequisite_indices stops in
    if decide (EXACT_EXECUTION_STOP_LIMIT < length stops)%nat
    then greedy_trip stops prerequisites costs
    else exact_trip stops prerequisites costs.

End Travel.
