(* ===== verification/RelayDiagnostics.v ===== *)
(** * Diagnosis of a disconnected relay graph

    [disconnected_gap_error] of [crates/replicant-route-planner/src/lib.rs] and what it
    calls: the connected components, the best bridge between two of them, and the detour
    through other components with the least worst shortfall. *)

From S2P Require Import Prelude Float64 RelayGraph.
Import Relay.

Module Diagnostics.

Section Diagnostics.
Variable graph : StarGraph.

(** ** Components *)

(** [component_of], where an unassigned vertex has no component. *)
Record Flood := {
  component_of : gmap nat nat;
  members : list nat;
  queue : list nat;
}.

Definition assign (component : nat) (st : Flood) (neighbor : nat) : Flood :=
  match component_of st !! neighbor with
  | Some _ => st
  | None => {| component_of := <[neighbor := component]> (component_of st);
               members := members st; queue := queue st ++ [neighbor] |}
  end.

Fixpoint flood (fuel component : nat) (st : Flood) : option Flood :=
  match fuel with
  | O => None
  | S fuel =>
      match queue st with
      | [] => Some st
      | current :: queue =>
          flood fuel component
            (foldl (assign component)
               {| component_of := component_of st; members := members st ++ [current]; queue := queue |}
               (neighbors graph current))
      end
  end.

Definition grow_components (st : option (gmap nat nat * list (list nat))) (seed : nat)
  : option (gmap nat nat * list (list nat)) :=
  '(component_of, components) ← st;
  match component_of !! seed with
  | Some _ => Some (component_of, components)
  | None =>
      let component := length components in
      f ← flood (S (length (stars graph))) component
            {| component_of := <[seed := component]> component_of; members := []; queue := [seed] |};
      Some (Diagnostics.component_of f, components ++ [sort_by Nat.leb (members f)])
  end.

Definition connected_components : option (gmap nat nat * list (list nat)) :=
  foldl grow_components (Some (∅, [])) (seq 0 (length (stars graph))).

(** ** Bridges *)

Record BridgeCandidate := {
  bc_from : nat;
  bc_to : nat;
  bc_distance_ly : F64.t;
  bc_available_range_ly : F64.t;
  bc_shortfall_ly : F64.t;
}.

Definition star_name (v : nat) : string := default EmptyString (designation <$> stars graph !! v).
Definition star_position (v : nat) : Position :=
  default {| po_x := F64.zero; po_y := F64.zero; po_z := F64.zero |} (position <$> stars graph !! v).
Definition relay_range (v : nat) : F64.t := default F64.zero (relay_ranges_ly graph !! v).

Definition bridge (from to : nat) : BridgeCandidate :=
  let d := distance (star_position from) (star_position to) in
  let available := F64.max (relay_range from) (relay_range to) in
  {| bc_from := from; bc_to := to; bc_distance_ly := d; bc_available_range_ly := available;
     bc_shortfall_ly := F64.max (F64.sub d available) F64.zero |}.

Definition names_ltb (a b : BridgeCandidate) : bool :=
  String.ltb (star_name (bc_from a)) (star_name (bc_from b))
  || (String.eqb (star_name (bc_from a)) (star_name (bc_from b))
      && String.ltb (star_name (bc_to a)) (star_name (bc_to b))).

Definition bridge_better (candidate current : BridgeCandidate) : bool :=
  F64.ltb (F64.add (bc_shortfall_ly candidate) EPSILON) (bc_shortfall_ly current)
  || (F64.leb (F64.abs (F64.sub (bc_shortfall_ly candidate) (bc_shortfall_ly current))) EPSILON
      && (F64.ltb (F64.add (bc_distance_ly candidate) EPSILON) (bc_distance_ly current)
          || (F64.leb (F64.abs (F64.sub (bc_distance_ly candidate) (bc_distance_ly current))) EPSILON
              && names_ltb candidate current))).

Definition consider_bridge (best : option BridgeCandidate) (candidate : BridgeCandidate)
  : option BridgeCandidate :=
  match best with
  | None => Some candidate
  | Some current => if bridge_better candidate current then Some candidate else best
  end.

Definition best_component_bridge (left right : list nat) : option BridgeCandidate :=
  foldl consider_bridge None (from ← left; to ← right; [bridge from to]).

(** ** Detours *)

Record DetourCost := {
  dc_bottleneck : F64.t;
  dc_shortfall : F64.t;
  dc_distance : F64.t;
  dc_bridges : Z;
}.

Definition DETOUR_INF : DetourCost :=
  {| dc_bottleneck := F64.infinity; dc_shortfall := F64.infinity; dc_distance := F64.infinity;
     dc_bridges := usize_max |}.
Definition DETOUR_ZERO : DetourCost :=
  {| dc_bottleneck := F64.zero; dc_shortfall := F64.zero; dc_distance := F64.zero; dc_bridges := 0 |}.

Definition extend (self : DetourCost) (b : BridgeCandidate) : DetourCost :=
  {| dc_bottleneck := F64.max (dc_bottleneck self) (bc_shortfall_ly b);
     dc_shortfall := F64.add (dc_shortfall self) (bc_shortfall_ly b);
     dc_distance := F64.add (dc_distance self) (bc_distance_ly b);
     dc_bridges := Z.min usize_max (dc_bridges self + 1) |}.

(** [total_cmp] *)
Definition total_cmp (x y : F64.t) : comparison :=
  if F64.total_leb x y then if F64.total_leb y x then Eq else Lt else Gt.
Definition then_with (c d : comparison) : comparison := match c with Eq => d | _ => c end.

Definition detour_better_than (self other : DetourCost) : bool :=
  match then_with (total_cmp (dc_bottleneck self) (dc_bottleneck other))
        (then_with (total_cmp (dc_shortfall self) (dc_shortfall other))
        (then_with (dc_bridges self ?= dc_bridges other)
                   (total_cmp (dc_distance self) (dc_distance other)))) with
  | Lt => true
  | _ => false
  end.

Record Detour := {
  dt_costs : list DetourCost;
  dt_previous : list (option (nat * BridgeCandidate));
  dt_visited : gset nat;
}.

Definition detour_cost (d : Detour) (c : nat) : DetourCost := default DETOUR_INF (dt_costs d !! c).

Section Search.
Variable components : list (list nat).

Definition component (c : nat) : list nat := default [] (components !! c).

Definition closer (d : Detour) (left right : nat) : bool :=
  if detour_better_than (detour_cost d left) (detour_cost d right) then true
  else if detour_better_than (detour_cost d right) (detour_cost d left) then false
  else (left <=? right)%nat.

Definition try_bridge (current : nat) (d : Detour) (next : nat) : Detour :=
  if decide (next = current ∨ next ∈ dt_visited d) then d
  else
    match best_component_bridge (component current) (component next) with
    | None => d
    | Some b =>
        let candidate := extend (detour_cost d current) b in
        if detour_better_than candidate (detour_cost d next) then
          {| dt_costs := <[next := candidate]> (dt_costs d);
             dt_previous := <[next := Some (current, b)]> (dt_previous d);
             dt_visited := dt_visited d |}
        else d
    end.

(** The search from the start component: [None] when the target is out of reach. *)
Fixpoint detour_search (fuel target : nat) (d : Detour) : rres (option Detour) :=
  match fuel with
  | O => Err OutOfFuel
  | S fuel =>
      let count := length components in
      match min_by (closer d)
              (filter (λ c, (c ∉ dt_visited d) ∧ F64.is_finite (dc_bottleneck (detour_cost d c)) = true)
                 (seq 0 count)) with
      | None => Ok None
      | Some current =>
          if decide (current = target) then Ok (Some d)
          else
            let d := {| dt_costs := dt_costs d; dt_previous := dt_previous d;
                        dt_visited := {[current]} ∪ dt_visited d |} in
            detour_search fuel target (foldl (try_bridge current) d (seq 0 count))
      end
  end.

Fixpoint detour_path (fuel start current : nat) (d : Detour) : rres (option (list BridgeCandidate)) :=
  if decide (current = start) then Ok (Some [])
  else
    match fuel with
    | O => Err OutOfFuel
    | S fuel =>
        match mjoin (dt_previous d !! current) with
        | None => Ok None
        | Some (prior, b) =>
            path ← detour_path fuel start prior d;
            Ok (option_map (λ p, p ++ [b]) path)
        end
    end.

Definition best_component_detour (start target : nat) : rres (option (DetourCost * list BridgeCandidate)) :=
  let count := length components in
  found ← detour_search (S count) target
            {| dt_costs := <[start := DETOUR_ZERO]> (replicate count DETOUR_INF);
               dt_previous := replicate count None; dt_visited := ∅ |};
  match found with
  | None => Ok None
  | Some d =>
      if F64.is_finite (dc_bottleneck (detour_cost d target)) then
        path ← detour_path (S count) start target d;
        Ok (option_map (λ p, (detour_cost d target, p)) path)
      else Ok None
  end.
End Search.

(** ** The error *)

Definition disconnected_bridge (b : BridgeCandidate) : DisconnectedBridge :=
  {| db_from := star_name (bc_from b); db_to := star_name (bc_to b); db_distance_ly := bc_distance_ly b;
     db_available_range_ly := bc_available_range_ly b; db_shortfall_ly := bc_shortfall_ly b |}.

Definition gap_error (start target : nat) (components : list (list nat)) (start_component target_component : nat)
  : PlannerError :=
  match best_component_bridge (component components start_component) (component components target_component) with
  | None => Disconnected
  | Some direct =>
      match best_component_detour components start_component target_component with
      | Err e => e
      | Ok detour =>
          match detour with
          | Some (cost, bridges) =>
              if bool_decide (1 < length bridges)%nat
                 && F64.ltb (F64.add (dc_bottleneck cost) EPSILON) (bc_shortfall_ly direct)
              then DisconnectedRouteAround
                     {| ra_start := star_name start; ra_target := star_name target;
                        ra_direct := disconnected_bridge direct;
                        ra_bottleneck_shortfall_ly := dc_bottleneck cost;
                        ra_bridges := disconnected_bridge <$> bridges |}
              else DisconnectedGap (star_name start) (star_name target) (disconnected_bridge direct)
          | None => DisconnectedGap (star_name start) (star_name target) (disconnected_bridge direct)
          end
      end
  end.

Definition disconnected_gap_error (start : nat) (targets : list nat) : PlannerError :=
  match connected_components with
  | None => OutOfFuel
  | Some (component_of, components) =>
      let start_component := default (length components) (component_of !! start) in
      match List.find (λ target, negb (bool_decide (component_of !! target = Some start_component))) targets with
      | None => Disconnected
      | Some target =>
          gap_error start target components start_component
            (default (length components) (component_of !! target))
      end
  end.

End Diagnostics.
End Diagnostics.
