(* ===== verification/RelayPlan.v ===== *)
(** * Relay network planning

    [plan_relay_network_with_ranges] of [crates/replicant-route-planner/src/lib.rs]: the
    resolution of a request against a graph, the reduction to the corridor of systems that
    can still matter, the greedy tree, the orientation of the chosen tree and the plan. *)

From S2P Require Import Prelude Float64 RelayGraph RelaySolver RelayTravel RelayDiagnostics.
Import Relay.

Module Planner.
Import Steiner.

Definition EXACT_STATE_LIMIT : Z := 64000000.

Record NetworkEdge := { ne_parent : string; ne_child : string; ne_distance_ly : F64.t }.

Record RelayNetworkPlan := {
  pl_start : string;
  requested_targets : list string;
  pl_max_hop_ly : F64.t;
  nodes : list Travel.NetworkNode;
  edges : list NetworkEdge;
  new_relay_systems : list string;
  activation_systems : list string;
  pl_active_relay_systems : list string;
  execution_order : list string;
  execution_order_optimal : bool;
  execution_hops : Z;
  execution_distance_ly : F64.t;
  total_edge_distance_ly : F64.t;
  relay_tree_optimal : bool;
}.

Record RelayNetworkRequest := {
  rq_start : string;
  rq_targets : list string;
  active_relay_systems : gset string;
  inactive_relay_systems : gset string;
  max_hop_ly : F64.t;
}.

(** ** The request on a graph *)

Record SolverContext := {
  start : nat;
  targets : list nat;
  active : gset nat;
  inactive : gset nat;
  node_cost : list Cost;
}.

(** The vertices of the systems that are in the graph. *)
Definition known (graph : StarGraph) (systems : gset string) : gset nat :=
  list_to_set (omap (λ system, index graph !! system) (elements systems)).

Definition resolve_context (graph : StarGraph) (request : RelayNetworkRequest) (target_names : list string)
  : rres SolverContext :=
  start ← resolve graph (rq_start request);
  targets ← mapM (resolve graph) target_names;
  let active := known graph (active_relay_systems request) in
  let inactive := known graph (inactive_relay_systems request) in
  let node_cost := (λ i, node (bool_decide (i ≠ start) && bool_decide (i ∉ active)
                               && bool_decide (i ∉ inactive))) <$> seq 0 (length (stars graph)) in
  mret {| start := start; targets := targets; active := active; inactive := inactive;
          node_cost := node_cost |}.

Definition terminals (context : SolverContext) : list nat := start context :: targets context.

(** ** The greedy tree *)

Record GreedyTree := { gt_edges : gset (nat * nat); gt_new_relays : Z }.

(** The loop that walks from the terminal back to the tree. *)
Fixpoint attach (fuel : nat) (parents : list Parent) (current : nat) (in_tree : gset nat) (edges : gset (nat * nat))
  : option (gset nat * gset (nat * nat)) :=
  match fuel with
  | O => None
  | S fuel =>
      if decide (current ∈ in_tree) then Some (in_tree, edges)
      else
        let in_tree := {[current]} ∪ in_tree in
        match default NoParent (parents !! current) with
        | Move previous => attach fuel parents previous in_tree ({[ordered_edge current previous]} ∪ edges)
        | _ => Some (in_tree, edges)
        end
  end.

Definition nearest_leb (values : list Cost) (a b : nat) : bool :=
  entry_before (at_ values a, a) (at_ values b, b).

Section Greedy.
Variable graph : StarGraph.
Variable context : SolverContext.

Definition tree_values (in_tree : gset nat) : list Cost :=
  (λ v, if decide (v ∈ in_tree) then {| new_relays := 0; hops := 0 |} else INF)
    <$> seq 0 (length (stars graph)).

(** [remaining] in ascending order; [Ok None] when a terminal cannot be reached. *)
Fixpoint greedy_loop (fuel : nat) (remaining : list nat) (in_tree : gset nat) (edges : gset (nat * nat)) (total : Z)
  : rres (option GreedyTree) :=
  match fuel with
  | O => Err OutOfFuel
  | S fuel =>
      if decide (remaining = []) then Ok (Some {| gt_edges := edges; gt_new_relays := total |})
      else
        match metric_closure graph (node_cost context) (tree_values in_tree)
                (replicate (length (stars graph)) NoParent) with
        | None => Err OutOfFuel
        | Some (values, parents) =>
            match min_by (nearest_leb values) remaining with
            | None => Ok None
            | Some next =>
                if decide (at_ values next = INF) then Ok None
                else
                  match attach (S (length (stars graph))) parents next in_tree edges with
                  | None => Err OutOfFuel
                  | Some (in_tree, edges) =>
                      greedy_loop fuel (filter (λ v, v ≠ next) remaining) in_tree edges
                        (saturating_add_u32 total (new_relays (at_ values next)))
                  end
            end
        end
  end.

Definition greedy_terminal_tree (terminals : list nat) : rres (option GreedyTree) :=
  let remaining := sort_by Nat.leb (elements (list_to_set (C := gset nat)
                     (filter (λ v, v ≠ start context) terminals))) in
  greedy_loop (S (length remaining)) remaining {[start context]} ∅ 0.

Definition greedy_tree_relay_bound (terminals : list nat) : rres (option Z) :=
  tree ← greedy_terminal_tree terminals;
  Ok (option_map gt_new_relays tree).

(** ** The corridor *)

(** The distances from every terminal; [Ok None] when one does not reach another. *)
Fixpoint from_terminals (ts all : list nat) : rres (option (list (list Cost))) :=
  match ts with
  | [] => Ok (Some [])
  | terminal :: ts =>
      let n := length (stars graph) in
      match metric_closure graph (node_cost context)
              (<[terminal := cost_of (node_cost context) terminal]> (replicate n INF)) (replicate n NoParent) with
      | None => Err OutOfFuel
      | Some (values, _) =>
          if existsb (λ other, bool_decide (at_ values other = INF)) all then Ok None
          else rest ← from_terminals ts all; Ok (option_map (cons values) rest)
      end
  end.

(** The two cheapest approaches to a vertex. *)
Definition approach (vertex : nat) (best : Z * Z) (values : list Cost) : Z * Z :=
  let relays := new_relays (at_ values vertex) in
  if decide (relays < best.1) then (relays, best.1)
  else if decide (relays < best.2) then (best.1, relays)
  else best.

Definition in_corridor (bound : Z) (distances : list (list Cost)) (vertex : nat) : bool :=
  bool_decide (vertex ∈ terminals context)
  || (let '(cheapest, second) := foldl (approach vertex) (INF_COMPONENT, INF_COMPONENT) distances in
      (second <? INF_COMPONENT)
      && (saturating_sub_u32 (saturating_add_u32 cheapest second) (new_relays (cost_of (node_cost context) vertex))
          <=? bound)).

Definition prune_to_relay_corridor : rres (option (list Star)) :=
  let n := length (stars graph) in
  if decide (n ≤ PRUNE_MINIMUM_NODES)%nat then Ok None
  else
    distances ← from_terminals (terminals context) (terminals context);
    match distances with
    | None => Ok None
    | Some distances =>
        bound ← greedy_tree_relay_bound (terminals context);
        match bound with
        | None => Ok None
        | Some bound =>
            let kept := omap (λ e : nat * Star, if in_corridor bound distances e.1 then Some e.2 else None)
                          (imap pair (stars graph)) in
            Ok (if decide (length kept < n)%nat then Some kept else None)
        end
    end.
End Greedy.

(** ** Orientation *)

Record Orientation := {
  parents : gmap nat (option nat);
  depths : gmap nat nat;
  traversal : list nat;
  queue : list nat;
}.

Definition adopt (current : nat) (o : Orientation) (neighbor : nat) : Orientation :=
  match parents o !! neighbor with
  | Some _ => o
  | None => {| parents := <[neighbor := Some current]> (parents o);
               depths := <[neighbor := S (default 0%nat (depths o !! current))]> (depths o);
               traversal := traversal o; queue := queue o ++ [neighbor] |}
  end.

Section Orient.
Variable graph : StarGraph.

Definition name_of (v : nat) : string := Diagnostics.star_name graph v.
Definition name_leb (a b : nat) : bool := String.leb (name_of a) (name_of b).

(** The neighbours in the tree, by designation. *)
Definition tree_neighbors (edges : gset (nat * nat)) (v : nat) : list nat :=
  sort_by name_leb (incident edges v).

Fixpoint orient_loop (fuel : nat) (edges : gset (nat * nat)) (o : Orientation) : option Orientation :=
  match fuel with
  | O => None
  | S fuel =>
      match queue o with
      | [] => Some o
      | current :: queue =>
          orient_loop fuel edges (foldl (adopt current)
            {| parents := parents o; depths := depths o; traversal := traversal o ++ [current]; queue := queue |}
            (tree_neighbors edges current))
      end
  end.

Definition availability (active inactive : gset nat) (v : nat) : Travel.RelayAvailability :=
  if decide (v ∈ active) then Travel.Active
  else if decide (v ∈ inactive) then Travel.ActivationRequired
  else Travel.New.

Definition network_node (start : nat) (targets : list nat) (active inactive : gset nat) (o : Orientation) (v : nat)
  : Travel.NetworkNode :=
  {| Travel.system := name_of v;
     Travel.nn_entry_point := s ← stars graph !! v; entry_point s;
     Travel.depth := default 0%nat (depths o !! v);
     Travel.is_start := bool_decide (v = start);
     Travel.is_target := bool_decide (v ∈ targets);
     Travel.relay := if decide (v = start) then Travel.Active else availability active inactive v;
     Travel.nn_parent := name_of <$> mjoin (parents o !! v) |}.

Definition network_edge (o : Orientation) (child : nat) : rres NetworkEdge :=
  parent ← ok_or (mjoin (parents o !! child)) Reconstruction;
  mret {| ne_parent := name_of parent; ne_child := name_of child;
          ne_distance_ly := distance (Diagnostics.star_position graph parent)
                              (Diagnostics.star_position graph child) |}.

(** The systems of the nodes other than the start, by relay. *)
Definition systems_with (relay : Travel.RelayAvailability) (nodes : list Travel.NetworkNode) : list string :=
  Travel.system <$> filter (λ node, Travel.is_start node = false ∧ Travel.relay node = relay) nodes.

(** The sum starts at negative zero. *)
Definition total_distance (edges : list NetworkEdge) : F64.t :=
  foldl (λ total edge, F64.add total (ne_distance_ly edge)) F64.negative_zero edges.

Definition orient (execution_graph : StarGraph) (start : nat) (targets : list nat) (active inactive : gset nat)
    (max_hop_ly : F64.t) (tree : gset (nat * nat)) (optimal : bool) : rres RelayNetworkPlan :=
  o ← ok_or (orient_loop (S (S (2 * size tree))) tree
               {| parents := {[start := None]}; depths := {[start := 0%nat]}; traversal := []; queue := [start] |})
        OutOfFuel;
  if existsb (λ target, bool_decide (parents o !! target = None)) targets
  then Err (Diagnostics.disconnected_gap_error graph start targets)
  else
    let nodes := network_node start targets active inactive o <$> traversal o in
    edges ← mapM (network_edge o) (filter (λ v, v ≠ start) (traversal o));
    execution_start ← resolve execution_graph (name_of start);
    match Travel.optimize_execution_order execution_graph execution_start nodes with
    | Err e => Err e
    | Ok (order, order_optimal, hops, distance) =>
        Ok {| pl_start := name_of start; requested_targets := name_of <$> targets;
              pl_max_hop_ly := max_hop_ly; nodes := nodes; edges := edges;
              new_relay_systems := systems_with Travel.New nodes;
              activation_systems := systems_with Travel.ActivationRequired nodes;
              pl_active_relay_systems := systems_with Travel.Active nodes;
              execution_order := order; execution_order_optimal := order_optimal;
              execution_hops := hops; execution_distance_ly := distance;
              total_edge_distance_ly := total_distance edges;
              relay_tree_optimal := optimal |}
    end.
End Orient.

(** ** The plan *)

(** [Vec::dedup] *)
Fixpoint dedup (l : list string) : list string :=
  match l with
  | x :: ((y :: _) as rest) => if decide (x = y) then dedup rest else x :: dedup rest
  | _ => l
  end.

Definition target_names (request : RelayNetworkRequest) : list string :=
  filter (λ target, target ≠ rq_start request) (dedup (sort_by String.leb (rq_targets request))).

(** The graph to search and the request on it. *)
Definition corridor_graph (full_graph : StarGraph) (full_context : SolverContext)
    (request : RelayNetworkRequest) (ranges : gmap string F64.t) : rres (StarGraph * SolverContext) :=
  kept ← prune_to_relay_corridor full_graph full_context;
  match kept with
  | None => Ok (full_graph, full_context)
  | Some stars =>
      graph ← with_relay_ranges stars (max_hop_ly request) ranges;
      context ← resolve_context graph request (target_names request);
      Ok (graph, context)
  end.

(** The tree that is planned for, and whether it is exact. *)
Definition choose_tree (graph : StarGraph) (context : SolverContext) (state_limit : Z)
  : rres (gset (nat * nat) * bool) :=
  let terminals := terminals context in
  let terminal_set := list_to_set terminals in
  if decide (state_limit < Z.min usize_max (Z.of_nat (mask_count terminals) * Z.of_nat (length (stars graph))))
  then
    tree ← greedy_terminal_tree graph context terminals;
    tree ← ok_or tree (ExactSearchTooLarge (length (stars graph)) (length terminals));
    edges ← finish_tree (start context) terminal_set (gt_edges tree);
    Ok (edges, false)
  else
    found ← exact_tree graph (node_cost context) terminals (start context);
    match found with
    | None => Err (Diagnostics.disconnected_gap_error graph (start context) (targets context))
    | Some edges => Ok (edges, true)
    end.

Definition plan_relay_network_within (catalogue : list Star) (request : RelayNetworkRequest)
    (ranges : gmap string F64.t) (state_limit : Z) : rres RelayNetworkPlan :=
  if decide (rq_targets request = []) then Err NoTargets
  else
    full_graph ← with_relay_ranges catalogue (max_hop_ly request) ranges;
    if decide (target_names request = []) then Err NoTargets
    else
      full_context ← resolve_context full_graph request (target_names request);
      let terminal_count := length (terminals full_context) in
      if decide (EXACT_TERMINAL_LIMIT < terminal_count)%nat
      then Err (TooManyTerminals terminal_count EXACT_TERMINAL_LIMIT)
      else
        match corridor_graph full_graph full_context request ranges with
        | Err e => Err e
        | Ok (graph, context) =>
            match choose_tree graph context state_limit with
            | Err e => Err e
            | Ok (tree, optimal) =>
                orient graph full_graph (start context) (targets context) (active context) (inactive context)
                  (max_hop_ly request) tree optimal
            end
        end.

Definition plan_relay_network_with_ranges (catalogue : list Star) (request : RelayNetworkRequest)
    (ranges : gmap string F64.t) : rres RelayNetworkPlan :=
  plan_relay_network_within catalogue request ranges EXACT_STATE_LIMIT.

Definition plan_relay_network (catalogue : list Star) (request : RelayNetworkRequest) : rres RelayNetworkPlan :=
  plan_relay_network_with_ranges catalogue request ∅.

End Planner.
