(* ===== verification/RelayClosureFacts.v ===== *)
(** * The metric closure is a shortest-path computation

    [metric_closure] of [crates/replicant-route-planner/src/lib.rs], as Dijkstra's
    algorithm with lazy deletion: with the fuel of the model it always ends, its values are
    closed under the edges of the graph, and each value is the one it started with or that
    of a neighbour with one hop more. *)

From S2P Require Import Prelude Float64 RelayGraph RelaySolver.
Import Relay Steiner.

(** ** Costs as integers *)

(** New relays outrank hops, which stay below [2 ^ 32]. *)
Definition cost_key (c : Cost) : Z := new_relays c * 2 ^ 32 + hops c.

(** No component exceeds [m]. *)
Definition small (m : Z) (c : Cost) : Prop := 0 ≤ new_relays c ≤ m ∧ 0 ≤ hops c ≤ m.

Lemma INF_COMPONENT_eq : INF_COMPONENT = 536870911.
Proof. reflexivity. Qed.
Lemma cost_key_INF : cost_key INF = 536870911 * 4294967297.
Proof. reflexivity. Qed.

Ltac costs := unfold small, cost_key in *; rewrite ?INF_COMPONENT_eq in *.

Lemma small_le m m' c : m ≤ m' → small m c → small m' c.
Proof. unfold small. lia. Qed.
Lemma small_not_INF m c : small m c → m < INF_COMPONENT → c ≠ INF.
Proof. intros Hs Hm ->. costs. simpl in *. rewrite INF_COMPONENT_eq in *. lia. Qed.
Lemma small_INF : small INF_COMPONENT INF.
Proof. costs. simpl. rewrite INF_COMPONENT_eq. lia. Qed.

Lemma cost_ltb_key a b :
  small INF_COMPONENT a → small INF_COMPONENT b → cost_ltb a b = true ↔ cost_key a < cost_key b.
Proof. costs. unfold cost_ltb. intros. rewrite orb_true_iff, andb_true_iff, !Z.ltb_lt, Z.eqb_eq. lia. Qed.
Lemma cost_ltb_key_false a b :
  small INF_COMPONENT a → small INF_COMPONENT b → cost_ltb a b = false ↔ cost_key b ≤ cost_key a.
Proof.
  intros Ha Hb. rewrite <- not_true_iff_false, cost_ltb_key by done. lia.
Qed.
Lemma cost_key_inj a b :
  small INF_COMPONENT a → small INF_COMPONENT b → cost_key a = cost_key b → a = b.
Proof.
  destruct a as [r h], b as [r' h']. costs. simpl. intros ???.
  assert (r = r') by lia. assert (h = h') by lia. by subst.
Qed.

(** A sum that does not reach infinity is the sum of its parts. *)
Lemma add_small m m' a b :
  small m a → small m' b → m + m' < INF_COMPONENT → 0 ≤ m → 0 ≤ m' →
  small (m + m') (add a b) ∧ cost_key (add a b) = cost_key a + cost_key b
  ∧ new_relays (add a b) = new_relays a + new_relays b ∧ hops (add a b) = hops a + hops b.
Proof.
  intros Ha Hb Hm ??. unfold add. rewrite decide_False.
  2:{ intros [->| ->]; [by apply (small_not_INF _ _ Ha); [lia|]|by apply (small_not_INF _ _ Hb); [lia|]]. }
  unfold saturating_add_u32. costs. unfold u32_max. simpl. lia.
Qed.

Lemma add_INF_l b : add INF b = INF.
Proof. unfold add. by rewrite decide_True by auto. Qed.
Lemma add_INF_r a : add a INF = INF.
Proof. unfold add. by rewrite decide_True by auto. Qed.

(** ** The heap *)

Lemma pop_None heap : pop heap = None → heap = [].
Proof.
  destruct heap as [|x heap]; [done|]. simpl. destruct (pop heap) as [[]|]; [|done].
  by case_match.
Qed.

Lemma pop_perm heap x rest : pop heap = Some (x, rest) → heap ≡ₚ x :: rest.
Proof.
  revert x rest. induction heap as [|y heap IH]; intros x rest; simpl; [done|].
  destruct (pop heap) as [[z r]|] eqn:E.
  - specialize (IH _ _ eq_refl). case_match; intros [= <- <-]; [done|]. rewrite IH. apply Permutation_swap.
  - intros [= <- <-]. apply pop_None in E as ->. done.
Qed.

Lemma entry_before_key a b :
  small INF_COMPONENT a.1 → small INF_COMPONENT b.1 →
  if entry_before a b then cost_key a.1 ≤ cost_key b.1 else cost_key b.1 ≤ cost_key a.1.
Proof.
  intros Ha Hb. unfold entry_before. destruct (cost_ltb a.1 b.1) eqn:E; simpl.
  - apply cost_ltb_key in E; [lia|done|done].
  - apply cost_ltb_key_false in E; [|done|done]. case_bool_decide as Heq; simpl; [|done].
    rewrite Heq. case_match; lia.
Qed.

Lemma pop_least heap x rest :
  (∀ y, y ∈ heap → small INF_COMPONENT y.1) → pop heap = Some (x, rest) →
  ∀ y, y ∈ heap → cost_key x.1 ≤ cost_key y.1.
Proof.
  revert x rest. induction heap as [|z heap IH]; intros x rest Hs; simpl; [done|].
  assert (∀ y, y ∈ heap → small INF_COMPONENT y.1) as Hs' by (intros; apply Hs; by constructor).
  destruct (pop heap) as [[u r]|] eqn:E.
  - assert (u ∈ heap) as Hu by (rewrite (pop_perm _ _ _ E); constructor).
    pose proof (entry_before_key z u (Hs z ltac:(constructor)) (Hs' _ Hu)) as Hz.
    specialize (IH _ _ Hs' eq_refl).
    destruct (entry_before z u); intros [= <- <-] y [->|Hy]%elem_of_cons; try lia.
    + specialize (IH y Hy). lia.
    + auto.
  - apply pop_None in E as ->. intros [= <- <-] y [->|?%elem_of_nil]%elem_of_cons; [lia|done].
Qed.

(** ** The graph a solver runs on *)

(** The neighbours are vertices. *)
Record graph_wf (graph : StarGraph) : Prop := {
  wf_length : length (adjacency graph) = length (stars graph);
  wf_range u v : v ∈ neighbors graph u → (v < length (stars graph))%nat;
  wf_sym u v : v ∈ neighbors graph u → u ∈ neighbors graph v;
}.

(** A vertex costs one new relay or none. *)
Definition costs_wf (node_cost : list Cost) : Prop :=
  Forall (λ c, ∃ b, c = node b) node_cost.

Lemma cost_of_small node_cost v : costs_wf node_cost → small 1 (cost_of node_cost v).
Proof.
  intros Hc. unfold cost_of. destruct (node_cost !! v) as [c|] eqn:E; simpl.
  - destruct (Forall_lookup_1 _ _ _ _ Hc E) as [[] ->]; by unfold small; simpl.
  - by unfold small; simpl.
Qed.

Lemma at_insert values v c w :
  (v < length values)%nat → at_ (<[v:=c]> values) w = if decide (v = w) then c else at_ values w.
Proof.
  intros Hv. unfold at_. case_decide as Heq; [subst; by rewrite list_lookup_insert_eq|].
  by rewrite list_lookup_insert_ne.
Qed.

Lemma size_below (S : gset nat) (m : nat) : (∀ v, v ∈ S → (v < m)%nat) → (size S ≤ m)%nat.
Proof.
  intros HS. transitivity (size (list_to_set (C := gset nat) (seq 0 m))).
  - apply subseteq_size. intros v Hv%HS. apply elem_of_list_to_set, elem_of_seq. lia.
  - rewrite size_list_to_set by apply NoDup_seq. by rewrite length_seq.
Qed.

Section Closure.
Context (graph : StarGraph) (node_cost : list Cost).
Context (Hgraph : graph_wf graph) (Hcosts : costs_wf node_cost).
Abbreviation n := (length (stars graph)).

(** The value of a vertex reached over one more edge. *)
Definition extend (c : Cost) (v : nat) : Cost := add (add c (cost_of node_cost v)) hop.

Lemma extend_small m c v :
  small m c → 0 ≤ m → m + 2 < INF_COMPONENT →
  small (m + 1) (extend c v)
  ∧ cost_key (extend c v) = cost_key c + cost_key (cost_of node_cost v) + 1.
Proof.
  intros Hc Hm HM. pose proof (cost_of_small node_cost v Hcosts) as Hn.
  destruct (add_small m 1 c _ Hc Hn) as (H1&H2&H3&H4); [lia..|].
  destruct (add_small (m + 1) 1 _ hop H1) as (H5&H6&H7&H8); [by unfold small; simpl|lia..|].
  unfold extend. rewrite H6, H2. split; [|unfold cost_key, hop; simpl; lia].
  unfold small in *. rewrite H7, H3, H8, H4. simpl.
  assert (hops (cost_of node_cost v) = 0) as ->; [|lia].
  unfold cost_of. destruct (node_cost !! v) as [c'|] eqn:E; [|done].
  by destruct (Forall_lookup_1 _ _ _ _ Hcosts E) as [b ->].
Qed.

Lemma cost_key_node_nonneg v : 0 ≤ cost_key (cost_of node_cost v).
Proof. pose proof (cost_of_small node_cost v Hcosts). costs. lia. Qed.

Context (vs0 : list Cost) (ps0 : list Parent) (B : Z).
Context (HB : 0 ≤ B) (HBn : B + Z.of_nat n + 2 < INF_COMPONENT).
Context (Hvs0 : length vs0 = n) (Hps0 : length ps0 = n).
Context (Hsmall0 : ∀ v, at_ vs0 v = INF ∨ small B (at_ vs0 v)).

(** The state between two steps: [S] holds the settled vertices, and the neighbours [rest]
    of [x] are still to be relaxed. *)
Record settling (S : gset nat) (x : nat) (rest : list nat) (st : Closure) : Prop := {
  st_values : length (values st) = n;
  st_parents : length (parents st) = n;
  st_S v : v ∈ S → (v < n)%nat;
  st_small v : at_ (values st) v = INF ∨ small (B + Z.of_nat (size S)) (at_ (values st) v);
  st_S_small v : v ∈ S → small (B + Z.of_nat (size S) - 1) (at_ (values st) v);
  st_heap c v : (c, v) ∈ heap st → (v < n)%nat ∧ small (B + Z.of_nat (size S)) c
                  ∧ cost_key (at_ (values st) v) ≤ cost_key c;
  st_frontier v : v ∉ S → at_ (values st) v ≠ INF → (at_ (values st) v, v) ∈ heap st;
  st_closed v w : v ∈ S → w ∈ neighbors graph v → v ≠ x ∨ w ∉ rest →
    cost_key (at_ (values st) w)
      ≤ cost_key (at_ (values st) v) + cost_key (cost_of node_cost w) + 1;
  st_order v c w : v ∈ S → (c, w) ∈ heap st → cost_key (at_ (values st) v) ≤ cost_key c;
  st_fresh v c : v ∈ S → (c, v) ∈ heap st → cost_key (at_ (values st) v) < cost_key c;
  st_nodup : NoDup (heap st);
  st_traced v : (v < n)%nat →
    (at_ (values st) v = at_ vs0 v ∧ parents st !! v = ps0 !! v)
    ∨ ∃ u, u ∈ S ∧ v ∈ neighbors graph u ∧ parents st !! v = Some (Move u)
           ∧ at_ (values st) v = extend (at_ (values st) u) v
           ∧ cost_key (at_ (values st) v) < cost_key (at_ vs0 v);
}.

Lemma st_valid S x rest st v : settling S x rest st → small INF_COMPONENT (at_ (values st) v).
Proof.
  intros I. destruct (st_small _ _ _ _ I v) as [->|Hs]; [apply small_INF|].
  pose proof (size_below _ _ (st_S _ _ _ _ I)). eapply small_le; [|done]. lia.
Qed.

(** A candidate that improves the neighbour [w] of the vertex settled last. *)
Lemma improve_settling S x w rest st cand :
  x ∈ S → w ∈ neighbors graph x → settling S x (w :: rest) st →
  (∀ u, u ∈ S → cost_key (at_ (values st) u) ≤ cost_key (at_ (values st) x)) →
  (∀ c v, (c, v) ∈ heap st → cost_key (at_ (values st) x) ≤ cost_key c) →
  cand = extend (at_ (values st) x) w → small (B + Z.of_nat (size S)) cand →
  cost_key cand = cost_key (at_ (values st) x) + cost_key (cost_of node_cost w) + 1 →
  cost_key cand < cost_key (at_ (values st) w) →
  settling S x rest {| values := <[w := cand]> (values st); parents := <[w := Move x]> (parents st);
                       heap := (cand, w) :: heap st |}.
Proof.
  intros Hx Hw I Hlast Hmin Hcand Hes Hek E.
  assert (w < n)%nat as Hwn by (eapply wf_range; eauto).
  pose proof (st_values _ _ _ _ I) as Hlen. pose proof (cost_key_node_nonneg w) as Hnn.
  assert (w ∉ S) as HwS by (intros HwS; specialize (Hlast w HwS); lia).
  assert (∀ u, u ∈ S → at_ (<[w:=cand]> (values st)) u = at_ (values st) u) as HatS.
  { intros u Hu. rewrite at_insert by lia. rewrite decide_False; [done|]. by intros ->. }
  destruct I as [H1 H2 H3 H4 H5 H6 H7 H8 H9 H10 H11 H12].
  split; simpl; try (rewrite ?length_insert; done).
  - intros v. rewrite at_insert by lia. case_decide; auto.
  - intros v Hv. rewrite HatS by done. auto.
  - intros c v [[= -> ->]|Hin]%elem_of_cons; rewrite at_insert by lia.
    + rewrite decide_True by done. split_and!; [done..|lia].
    + destruct (H6 _ _ Hin) as (?&?&?). split_and!; [done..|]. case_decide; subst; lia.
  - intros v Hv. rewrite at_insert by lia. case_decide; [subst; constructor|].
    intros ?. apply elem_of_cons. right. auto.
  - intros v w' Hv Hw' Hor. rewrite (HatS v Hv), at_insert by lia. case_decide as Heq.
    + subst w'. destruct (decide (v = x)) as [->|Hne]; [lia|].
      specialize (H8 v w Hv Hw' (or_introl Hne)). lia.
    + apply H8; [done..|]. destruct Hor; [auto|]. destruct (decide (v = x)); [right|auto].
      set_solver.
  - intros v c w' Hv [[= -> ->]|Hin]%elem_of_cons; rewrite HatS by done; [|eauto].
    specialize (Hlast v Hv). lia.
  - intros v c Hv [[= -> ->]|Hin]%elem_of_cons; rewrite HatS by done; [done|eauto].
  - constructor; [|done]. intros Hin. destruct (H6 _ _ Hin) as (_&_&?). lia.
  - intros v Hv. rewrite at_insert by lia. case_decide as Heq.
    + subst v. right. exists x. rewrite HatS, list_lookup_insert_eq by (done || lia).
      split_and!; [done..|]. eapply Z.lt_le_trans; [exact E|].
      destruct (H12 w Hwn) as [[-> _]|(u&_&_&_&_&?)]; lia.
    + rewrite list_lookup_insert_ne by done. destruct (H12 v Hv) as [|(u&Hu&?&?&?&?)]; [auto|].
      right. exists u. by rewrite HatS.
Qed.

(** One neighbour of the vertex settled last. *)
Lemma relax_settling S x w rest st :
  x ∈ S → w ∈ neighbors graph x → settling S x (w :: rest) st →
  (∀ u, u ∈ S → cost_key (at_ (values st) u) ≤ cost_key (at_ (values st) x)) →
  (∀ c v, (c, v) ∈ heap st → cost_key (at_ (values st) x) ≤ cost_key c) →
  let st' := relax node_cost (at_ (values st) x) x st w in
  settling S x rest st' ∧ (∀ u, u ∈ S → at_ (values st') u = at_ (values st) u)
  ∧ (∀ c v, (c, v) ∈ heap st' → cost_key (at_ (values st) x) ≤ cost_key c)
  ∧ (length (heap st') ≤ Datatypes.S (length (heap st)))%nat.
Proof.
  intros Hx Hw I Hlast Hmin st'. pose proof (size_below _ _ (st_S _ _ _ _ I)) as Hsize.
  assert (size S ≠ 0%nat) as Hpos by (intros E%size_empty_inv; set_solver).
  destruct (extend_small _ _ w (st_S_small _ _ _ _ I x Hx)) as [Hes Hek]; [lia..|].
  replace (B + Z.of_nat (size S) - 1 + 1) with (B + Z.of_nat (size S)) in Hes by lia.
  unfold st', relax. fold (extend (at_ (values st) x) w).
  set (cand := extend (at_ (values st) x) w) in *. cbv zeta.
  pose proof (cost_key_node_nonneg w) as Hnn.
  assert (small INF_COMPONENT cand) as Hcv by (eapply small_le; [|done]; lia).
  destruct (cost_ltb cand (at_ (values st) w)) eqn:E.
  - apply cost_ltb_key in E; [|done|by eapply st_valid].
    split_and!; [by apply improve_settling| | |simpl; lia].
    + intros u Hu. simpl. pose proof (wf_range _ Hgraph _ _ Hw).
      rewrite at_insert by (rewrite (st_values _ _ _ _ I); done).
      rewrite decide_False; [done|]. intros <-. specialize (Hlast w Hu). lia.
    + simpl. intros c v [[= -> ->]|]%elem_of_cons; [lia|eauto].
  - apply cost_ltb_key_false in E; [|done|by eapply st_valid].
    split_and!; [|done|done|lia]. destruct I. split; try done.
    intros v w' Hv Hw' Hor. destruct (decide (v = x)) as [->|]; [|by apply st_closed0; auto].
    destruct (decide (w' = w)) as [->|]; [lia|]. apply st_closed0; [done..|].
    right. destruct Hor; [done|]. set_solver.
Qed.

Lemma relax_all_settling S x rest st :
  x ∈ S → (∀ w, w ∈ rest → w ∈ neighbors graph x) → settling S x rest st →
  (∀ u, u ∈ S → cost_key (at_ (values st) u) ≤ cost_key (at_ (values st) x)) →
  (∀ c v, (c, v) ∈ heap st → cost_key (at_ (values st) x) ≤ cost_key c) →
  let st' := foldl (relax node_cost (at_ (values st) x) x) st rest in
  settling S x [] st' ∧ (length (heap st') ≤ length (heap st) + length rest)%nat.
Proof.
  intros Hx. revert st. induction rest as [|w rest IH]; intros st Hnb I Hlast Hmin; simpl; [split; [done|lia]|].
  destruct (relax_settling S x w rest st) as (I'&Hat&Hmin'&Hlen); [done|apply Hnb; constructor|done..|].
  destruct (IH (relax node_cost (at_ (values st) x) x st w)) as [I'' Hlen''].
  - intros. apply Hnb. by constructor.
  - done.
  - intros u Hu. rewrite !Hat by done. auto.
  - by rewrite Hat.
  - rewrite (Hat x Hx) in I'', Hlen''. split; [done|lia].
Qed.

(** The vertex at the top of the heap is settled. *)
Lemma settle_top S c x rest y st :
  settling S y [] st → pop (heap st) = Some ((c, x), rest) → c = at_ (values st) x →
  let st' := {| values := values st; parents := parents st; heap := rest |} in
  (x ∉ S) ∧ settling ({[x]} ∪ S) x (neighbors graph x) st'
  ∧ (∀ u, u ∈ {[x]} ∪ S → cost_key (at_ (values st) u) ≤ cost_key (at_ (values st) x))
  ∧ (∀ c v, (c, v) ∈ rest → cost_key (at_ (values st) x) ≤ cost_key c).
Proof.
  intros I Hpop -> st'. pose proof (pop_perm _ _ _ Hpop) as Hperm.
  assert ((at_ (values st) x, x) ∈ heap st) as Htop by (rewrite Hperm; constructor).
  assert (x ∉ S) as Hx.
  { intros Hx. pose proof (st_fresh _ _ _ _ I _ _ Hx Htop). lia. }
  assert (∀ c v, (c, v) ∈ heap st → cost_key (at_ (values st) x) ≤ cost_key c) as Hmin.
  { intros c v Hin. apply (pop_least _ _ _) with (y := (c, v)) in Hpop; [done| |done].
    intros [c' v'] Hin'. simpl. destruct (st_heap _ _ _ _ I _ _ Hin') as (_&?&_).
    pose proof (size_below _ _ (st_S _ _ _ _ I)). eapply small_le; [|done]. lia. }
  assert (∀ e, e ∈ rest → e ∈ heap st) as Hsub by (intros; rewrite Hperm; by constructor).
  assert (size ({[x]} ∪ S) = Datatypes.S (size S)) as Hsz.
  { rewrite size_union by set_solver. by rewrite size_singleton. }
  pose proof (st_nodup _ _ _ _ I) as Hnd. rewrite Hperm in Hnd. apply NoDup_cons in Hnd as [Hnotin Hnd].
  split_and!; [done| | |eauto].
  2:{ intros u [->%elem_of_singleton|Hu]%elem_of_union; [lia|]. by eapply st_order. }
  destruct I as [H1 H2 H3 H4 H5 H6 H7 H8 H9 H10 H11 H12]. split; simpl; try done.
  - intros v [->%elem_of_singleton|Hv]%elem_of_union; [by eapply H6|auto].
  - intros v. destruct (H4 v); [auto|right]. eapply small_le; [|done]. lia.
  - intros v [->%elem_of_singleton|Hv]%elem_of_union; rewrite Hsz.
    + destruct (H6 _ _ Htop) as (_&?&_). eapply small_le; [|done]. lia.
    + eapply small_le; [|by apply H5]. lia.
  - intros c v Hin. destruct (H6 c v) as (?&?&?); [auto|]. split_and!; [done| |done].
    eapply small_le; [|done]. lia.
  - intros v Hv Hne. specialize (H7 v ltac:(set_solver) Hne). rewrite Hperm in H7.
    apply elem_of_cons in H7 as [[= _ ->]|]; set_solver.
  - intros v w [->%elem_of_singleton|Hv]%elem_of_union Hw Hor; [naive_solver|].
    apply H8; [done..|]. right. set_solver.
  - intros v c w [->%elem_of_singleton|Hv]%elem_of_union Hin; eauto.
  - intros v c [->%elem_of_singleton|Hv]%elem_of_union Hin; [|eauto].
    destruct (H6 c x) as (_&Hsm&?); [auto|].
    destruct (decide (cost_key (at_ (values st) x) = cost_key c)) as [Heq|]; [|lia].
    apply cost_key_inj in Heq; [subst; done| |].
    + destruct (H6 _ _ Htop) as (_&?&_). pose proof (size_below _ _ H3). eapply small_le; [|done]. lia.
    + pose proof (size_below _ _ H3). eapply small_le; [|done]. lia.
  - intros v Hv. destruct (H12 v Hv) as [|(u&?&?)]; [auto|]. right. exists u. set_solver.
Qed.

(** A vertex whose entry is out of date is skipped. *)
Lemma skip_top S c x rest y st :
  settling S y [] st → pop (heap st) = Some ((c, x), rest) → c ≠ at_ (values st) x →
  settling S y [] {| values := values st; parents := parents st; heap := rest |}.
Proof.
  intros I Hpop Hc. pose proof (pop_perm _ _ _ Hpop) as Hperm.
  assert (∀ e, e ∈ rest → e ∈ heap st) as Hsub by (intros; rewrite Hperm; by constructor).
  destruct I as [H1 H2 H3 H4 H5 H6 H7 H8 H9 H10 H11 H12]. split; simpl; eauto.
  - intros v Hv Hne. specialize (H7 v Hv Hne). rewrite Hperm in H7.
    apply elem_of_cons in H7 as [[= <- ->]|]; done.
  - rewrite Hperm in H11. by apply NoDup_cons in H11 as [_ ?].
Qed.

(** The edges that leave vertices not settled yet. *)
Definition degree_of (v : nat) : nat := length (neighbors graph v).
Definition open_edges (S : gset nat) : nat :=
  sum_list ((λ v, if decide (v ∈ S) then 0%nat else degree_of v) <$> seq 0 n).

Lemma open_edges_step S x :
  (x < n)%nat → x ∉ S → open_edges S = (open_edges ({[x]} ∪ S) + degree_of x)%nat.
Proof.
  intros Hx HxS. unfold open_edges.
  assert (∀ m k, (k ≤ x < k + m)%nat →
    sum_list ((λ v, if decide (v ∈ S) then 0%nat else degree_of v) <$> seq k m)
    = (sum_list ((λ v, if decide (v ∈ {[x]} ∪ S) then 0%nat else degree_of v) <$> seq k m) + degree_of x)%nat) as H.
  { intros m. induction m as [|m IH]; intros k Hk; [lia|].
    cbn [seq]. rewrite !fmap_cons. cbn [sum_list].
    destruct (decide (k = x)) as [->|Hne].
    - rewrite decide_False by done. rewrite decide_True by set_solver.
      rewrite Nat.add_comm, Nat.add_0_l. f_equal. f_equal.
      apply list_fmap_ext. intros i v [-> _]%lookup_seq.
      apply decide_ext. set_solver by lia.
    - rewrite IH by lia. destruct (decide (k ∈ S)); [rewrite decide_True by set_solver; lia|].
      rewrite decide_False by set_solver. lia. }
  apply H. lia.
Qed.

Lemma open_edges_empty : open_edges ∅ = edge_count graph.
Proof.
  unfold open_edges, edge_count, degree_of, neighbors. f_equal.
  apply list_eq. intros i. rewrite !list_lookup_fmap.
  destruct (decide (i < n)%nat) as [Hi|Hi].
  - rewrite lookup_seq_lt by done. simpl.
    destruct (lookup_lt_is_Some_2 (adjacency graph) i) as [ns E]; [by rewrite (wf_length _ Hgraph)|].
    rewrite E. simpl. by rewrite length_fmap.
  - rewrite lookup_seq_ge, lookup_ge_None_2; [done|rewrite (wf_length _ Hgraph)|]; lia.
Qed.

(** The loop ends, with every vertex that has a value settled. *)
Lemma close_settling fuel S y st :
  settling S y [] st → (length (heap st) + open_edges S < fuel)%nat →
  ∃ st' S' y', close graph node_cost fuel st = Some st' ∧ settling S' y' [] st' ∧ heap st' = [].
Proof.
  revert S y st. induction fuel as [|fuel IH]; intros S y st I Hf; [lia|]. simpl.
  destruct (pop (heap st)) as [[[c x] rest]|] eqn:Hpop.
  - pose proof (pop_perm _ _ _ Hpop) as Hperm%Permutation_length. simpl in Hperm.
    case_decide as Hc.
    + eapply IH; [by eapply skip_top|]. simpl. lia.
    + destruct (settle_top _ _ _ _ _ _ I Hpop Hc) as (Hx&I'&Hlast&Hmin).
      rewrite Hc. apply relax_all_settling in I' as [I'' Hlen]; [|set_solver|done|done|done].
      eapply IH; [exact I''|]. simpl in *.
      assert (x < n)%nat as Hxn by (eapply st_S; [exact I''|set_solver]).
      pose proof (open_edges_step S x Hxn Hx). unfold degree_of in *. lia.
  - exists st, S, y. split_and!; [done..|]. by apply pop_None.
Qed.

Lemma elem_of_initial_heap c v : (c, v) ∈ initial_heap vs0 ↔ vs0 !! v = Some c ∧ c ≠ INF.
Proof.
  unfold initial_heap. rewrite list_elem_of_filter, elem_of_lookup_imap. simpl. naive_solver.
Qed.

Lemma NoDup_initial_heap : NoDup (initial_heap vs0).
Proof.
  unfold initial_heap. apply NoDup_filter, (NoDup_fmap_1 snd).
  rewrite fmap_imap. replace (imap _ vs0) with (seq 0 (length vs0)); [apply NoDup_seq|].
  apply list_eq. intros i. rewrite list_lookup_imap. destruct (vs0 !! i) eqn:E.
  - apply lookup_lt_Some in E. by rewrite lookup_seq_lt.
  - apply lookup_ge_None in E. by rewrite lookup_seq_ge.
Qed.

Lemma initial_settling y : settling ∅ y [] {| values := vs0; parents := ps0; heap := initial_heap vs0 |}.
Proof.
  assert (∀ c v, (c, v) ∈ initial_heap vs0 → at_ vs0 v = c ∧ c ≠ INF ∧ (v < n)%nat) as Hat.
  { intros c v [Hv Hc]%elem_of_initial_heap. unfold at_. rewrite Hv. split_and!; [done..|].
    rewrite <- Hvs0. by eapply lookup_lt_Some. }
  split; simpl; try done; rewrite ?size_empty, ?Z.add_0_r; auto using NoDup_initial_heap.
  - intros c v (Hv&Hne&?)%Hat. subst c. split_and!; [done| |lia]. by destruct (Hsmall0 v).
  - intros v _ Hne. apply elem_of_initial_heap. split; [|done]. unfold at_ in *.
    by destruct (vs0 !! v).
Qed.

Lemma length_initial_heap : (length (initial_heap vs0) ≤ n)%nat.
Proof.
  unfold initial_heap. etrans; [apply length_filter|]. by rewrite length_imap, Hvs0.
Qed.

(** What the closure of a row promises. *)
Record closed_row (vs : list Cost) (ps : list Parent) : Prop := {
  cr_values : length vs = n;
  cr_parents : length ps = n;
  cr_small v : at_ vs v = INF ∨ small (B + Z.of_nat n) (at_ vs v);
  cr_edge u v : at_ vs u ≠ INF → v ∈ neighbors graph u →
    cost_key (at_ vs v) ≤ cost_key (at_ vs u) + cost_key (cost_of node_cost v) + 1;
  cr_traced v : (v < n)%nat →
    (at_ vs v = at_ vs0 v ∧ ps !! v = ps0 !! v)
    ∨ ∃ u, (u < n)%nat ∧ v ∈ neighbors graph u ∧ ps !! v = Some (Move u) ∧ at_ vs u ≠ INF
           ∧ at_ vs v ≠ INF
           ∧ cost_key (at_ vs v) = cost_key (at_ vs u) + cost_key (cost_of node_cost v) + 1
           ∧ cost_key (at_ vs v) < cost_key (at_ vs0 v);
}.

Lemma metric_closure_closed :
  ∃ vs ps, metric_closure graph node_cost vs0 ps0 = Some (vs, ps) ∧ closed_row vs ps.
Proof.
  destruct (close_settling (S (length vs0 + edge_count graph)) ∅ 0
    {| values := vs0; parents := ps0; heap := initial_heap vs0 |}) as (st&S&y&Hc&I&Hh).
  { apply initial_settling. }
  { simpl. rewrite open_edges_empty. pose proof length_initial_heap. lia. }
  exists (values st), (parents st). unfold metric_closure. rewrite Hc. split; [done|].
  pose proof (size_below _ _ (st_S _ _ _ _ I)) as Hsize.
  assert (∀ v, at_ (values st) v ≠ INF → v ∈ S) as HS.
  { intros v Hv. destruct (decide (v ∈ S)) as [|Hn]; [done|].
    pose proof (st_frontier _ _ _ _ I v Hn Hv) as Hin. rewrite Hh in Hin. by apply elem_of_nil in Hin. }
  pose proof I as [H1 H2 H3 H4 H5 H6 H7 H8 H9 H10 H11 H12]. split; try done.
  - intros v. destruct (H4 v); [auto|right]. eapply small_le; [|done]. lia.
  - intros u v Hu Hv. apply H8; [by apply HS|done|right; apply not_elem_of_nil].
  - intros v Hv. destruct (H12 v Hv) as [|(u&Hu&Hnb&Hp&Hval&Hlt)]; [auto|right]. exists u.
    assert (size S ≠ 0%nat) as Hpos by (intros E%size_empty_inv; set_solver).
    destruct (extend_small _ _ v (H5 u Hu)) as [Hes Hek]; [lia..|].
    split_and!; [auto|done|done| | |by rewrite Hval|done].
    + eapply small_not_INF; [by apply H5|lia].
    + rewrite Hval. eapply small_not_INF; [done|lia].
Qed.
End Closure.

(** ** The closure of a row is its shortest walks *)

Section Walks.
Context (graph : StarGraph) (node_cost : list Cost) (vs0 : list Cost).

(** A vertex can be reached for a cost: it has it at the start, or a neighbour is reached
    and the vertex and one hop are paid for. *)
Inductive walk : nat → Z → Prop :=
| walk_start v : at_ vs0 v ≠ INF → walk v (cost_key (at_ vs0 v))
| walk_edge u v c :
    walk u c → v ∈ neighbors graph u → walk v (c + cost_key (cost_of node_cost v) + 1).
End Walks.

(** the closure of a row of costs always ends, and gives every vertex the least cost of
    a walk to it from the vertices that had one; the vertices that no walk reaches keep the
    infinite cost. *)
Theorem metric_closure_is_shortest_walk graph node_cost vs0 ps0 B :
  graph_wf graph → costs_wf node_cost → length vs0 = length (stars graph) → length ps0 = length (stars graph) →
  0 ≤ B → B + Z.of_nat (length (stars graph)) + 2 < INF_COMPONENT →
  (∀ v, at_ vs0 v = INF ∨ small B (at_ vs0 v)) →
  ∃ vs ps, metric_closure graph node_cost vs0 ps0 = Some (vs, ps)
    ∧ ∀ v, (at_ vs v = INF ∧ ∀ c, ¬ walk graph node_cost vs0 v c)
           ∨ (at_ vs v ≠ INF ∧ walk graph node_cost vs0 v (cost_key (at_ vs v))
              ∧ ∀ c, walk graph node_cost vs0 v c → cost_key (at_ vs v) ≤ c).
Proof.
  intros Hg Hc Hv0 Hp0 HB HBn Hs0.
  destruct (metric_closure_closed graph node_cost Hg Hc vs0 ps0 B HB HBn Hv0 Hp0 Hs0) as (vs&ps&Hm&Hrow).
  exists vs, ps. split; [done|]. intros v.
  assert (∀ v, at_ vs v ≠ INF → small (B + Z.of_nat (length (stars graph))) (at_ vs v)) as Hsm.
  { intros u Hu. by destruct (cr_small _ _ _ _ _ _ _ Hrow u). }
  assert (∀ v c, walk graph node_cost vs0 v c → at_ vs v ≠ INF ∧ cost_key (at_ vs v) ≤ c) as Hlow.
  { intros u c Hw. induction Hw as [u Hu|u w c Hw [Hu Hle] Hnb].
    - assert (u < length (stars graph))%nat as Hun.
      { destruct (decide (u < length (stars graph))%nat); [done|]. destruct Hu. unfold at_.
        by rewrite lookup_ge_None_2 by lia. }
      destruct (cr_traced _ _ _ _ _ _ _ Hrow u Hun) as [[-> _]|(x&_&_&_&_&Hf&_&Hlt)]; [done|]. split; [done|lia].
    - pose proof (cr_edge _ _ _ _ _ _ _ Hrow u w Hu Hnb) as He.
      pose proof (cost_of_small node_cost w Hc) as Hn. specialize (Hsm u Hu). split; [|lia].
      intros E. rewrite E, cost_key_INF in He. unfold small, cost_key in *. rewrite INF_COMPONENT_eq in *. lia. }
  destruct (decide (at_ vs v = INF)) as [Hinf|Hfin].
  { left. split; [done|]. intros c Hw. by destruct (Hlow v c Hw). }
  right. split_and!; [done| |intros c Hw; by apply (Hlow v c Hw)].
  remember (Z.to_nat (cost_key (at_ vs v))) as x eqn:Hx. revert v Hx Hfin.
  induction (lt_wf x) as [x _ IH]. intros v -> Hfin.
  assert (v < length (stars graph))%nat as Hvn.
  { destruct (decide (v < length (stars graph))%nat); [done|]. destruct Hfin. unfold at_.
    rewrite lookup_ge_None_2; [done|]. rewrite (cr_values _ _ _ _ _ _ _ Hrow). lia. }
  destruct (cr_traced _ _ _ _ _ _ _ Hrow v Hvn) as [[E _]|(u&_&Hnb&_&Hu&_&Hk&_)].
  - rewrite E. constructor. by rewrite <- E.
  - rewrite Hk. apply walk_edge with u; [|done]. eapply IH; [|done|done].
    pose proof (cost_key_node_nonneg node_cost Hc v). pose proof (Hsm u Hu). unfold small, cost_key in *. lia.
Qed.
