(* ===== verification/RelayTableFacts.v ===== *)
(** * The tables of the exact relay solver

    The dynamic programme of [plan_relay_network_within]
    ([crates/replicant-route-planner/src/lib.rs]): every entry [dp[mask][v]] is the least
    cost of joining the terminals of [mask] at [v], and its parent pointer says how.
    Before that, the facts on bit masks the tables rest on: the loop
    [submask = (submask - 1) & mask] visits every subset of a mask, a mask splits into a
    subset and the rest, and the number of its terminals is additive. *)

From S2P Require Import Prelude Float64 RelayGraph RelaySolver RelayClosureFacts.
Import Relay Steiner.

(** ** Sets of terminals as numbers *)

Section Masks.
Local Open Scope N_scope.

(** Every bit of [s] is one of [m]. *)
Definition submask_of (s m : N) : Prop := N.land s m = s.

Lemma div2_land a b : N.div2 (N.land a b) = N.land (N.div2 a) (N.div2 b).
Proof. rewrite !N.div2_spec. apply N.shiftr_land. Qed.
Lemma odd_land a b : N.odd (N.land a b) = N.odd a && N.odd b.
Proof. rewrite <- !N.bit0_odd. apply N.land_spec. Qed.

Lemma land_le_l a b : N.land a b ≤ a.
Proof.
  apply N.ldiff_le, N.bits_inj. intros i. rewrite N.ldiff_spec, N.land_spec, N.bits_0.
  by destruct (N.testbit a i), (N.testbit b i).
Qed.

Lemma submask_le s m : submask_of s m → s ≤ m.
Proof. intros H. unfold submask_of in H. rewrite <- H, N.land_comm. apply land_le_l. Qed.

(** The next submask is the largest one below. *)
Lemma next_submask_largest m s s' :
  submask_of s m → submask_of s' m → s' < s → s' ≤ N.land (s - 1) m.
Proof.
  revert s s'. induction (N.lt_wf_0 m) as [m _ IH]. intros s s' Hs Hs' Hlt.
  pose proof (submask_le _ _ Hs) as Hle.
  pose proof (N.div2_odd s) as Es. pose proof (N.div2_odd s') as Es'.
  pose proof (N.div2_odd m) as Em. pose proof (N.div2_odd (s - 1)) as E1.
  pose proof (N.div2_odd (N.land (s - 1) m)) as EX. rewrite div2_land, odd_land in EX.
  assert (submask_of (N.div2 s) (N.div2 m)) as Hs2 by (unfold submask_of; by rewrite <- div2_land, Hs).
  assert (submask_of (N.div2 s') (N.div2 m)) as Hs2' by (unfold submask_of; by rewrite <- div2_land, Hs').
  assert (N.odd s' = true → N.odd m = true) as Hodd.
  { intros Ho. rewrite <- Hs', odd_land in Ho. by apply andb_true_iff in Ho as [_ ?]. }
  destruct (N.odd s) eqn:Eo; simpl in Es.
  - assert (N.odd (s - 1) = false) as Eo1.
    { rewrite Es. replace (2 * N.div2 s + 1 - 1) with (2 * N.div2 s) by lia. by rewrite N.odd_mul. }
    rewrite Eo1 in *. simpl in *. assert (N.div2 (s - 1) = N.div2 s) as Ed by lia.
    rewrite Ed, Hs2 in EX. destruct (N.odd s'); simpl in *; lia.
  - assert (N.odd (s - 1) = true) as Eo1.
    { rewrite N.odd_sub by lia. by rewrite Eo. }
    rewrite Eo1 in *. simpl in *. assert (N.div2 (s - 1) = N.div2 s - 1) as Ed by lia.
    rewrite Ed in EX.
    assert (N.div2 s' ≤ N.land (N.div2 s - 1) (N.div2 m)) as Hrec.
    { apply IH; [lia|done|done|]. destruct (N.odd s'); simpl in *; lia. }
    destruct (N.odd s'), (N.odd m); simpl in *; lia || by specialize (Hodd eq_refl).
Qed.

Lemma next_submask m s : submask_of (N.land (s - 1) m) m.
Proof. unfold submask_of. by rewrite <- N.land_assoc, N.land_diag. Qed.

(** Proves an equation of masks bit by bit. *)
Ltac by_bits H :=
  apply N.bits_inj; intros i; apply (f_equal (λ x, N.testbit x i)) in H;
  rewrite ?N.land_spec, ?N.lor_spec, ?N.lxor_spec, ?N.bits_0 in H;
  repeat rewrite ?N.land_spec, ?N.lor_spec, ?N.lxor_spec, ?N.bits_0; revert H;
  repeat match goal with |- context [N.testbit ?m i] => destruct (N.testbit m i) end; simpl; congruence.

(** The rest of a mask. *)
Lemma rest_submask s m : submask_of s m → submask_of (N.lxor m s) m.
Proof. unfold submask_of. intros H. by_bits H. Qed.

Lemma split_rest s m : submask_of s m → N.land s (N.lxor m s) = 0 ∧ N.lor s (N.lxor m s) = m.
Proof. unfold submask_of. intros H. split; by_bits H. Qed.

Lemma disjoint_rest m1 m2 :
  N.land m1 m2 = 0 → submask_of m1 (N.lor m1 m2) ∧ N.lxor (N.lor m1 m2) m1 = m2.
Proof. unfold submask_of. intros H. split; by_bits H. Qed.

Lemma rest_nonzero s m : submask_of s m → s ≠ m → N.lxor m s ≠ 0.
Proof. intros _ Hne H. apply N.lxor_eq in H. by subst. Qed.
Lemma rest_lt s m : submask_of s m → s ≠ 0 → N.lxor m s < m.
Proof.
  intros Hs Hne. pose proof (submask_le _ _ (rest_submask _ _ Hs)).
  destruct (decide (N.lxor m s = m)) as [E|]; [|lia].
  destruct Hne. apply (f_equal (N.lxor m)) in E. by rewrite <- N.lxor_assoc, N.lxor_nilpotent, N.lxor_0_l in E.
Qed.

(** A power of two has no proper parts. *)
Lemma power_of_two_indivisible m1 m2 b :
  N.land m1 m2 = 0 → N.lor m1 m2 = 2 ^ b → m1 = 0 ∨ m2 = 0.
Proof.
  intros Hd Hl.
  assert (∀ m, submask_of m (2 ^ b) → N.testbit m b = false → m = 0) as Hz.
  { intros m Hm Hb. apply N.bits_inj. intros i. rewrite N.bits_0.
    apply (f_equal (λ x, N.testbit x i)) in Hm. rewrite N.land_spec, N.pow2_bits_eqb in Hm.
    destruct (N.eqb_spec b i); subst; [done|]. by rewrite andb_false_r in Hm. }
  destruct (disjoint_rest m1 m2 Hd) as [H1 _]. rewrite N.land_comm in Hd.
  destruct (disjoint_rest m2 m1 Hd) as [H2 _]. rewrite N.lor_comm in H2. rewrite Hl in *.
  apply (f_equal (λ x, N.testbit x b)) in Hd. rewrite N.land_spec, N.bits_0 in Hd.
  apply andb_false_iff in Hd as [?|?]; eauto.
Qed.

Lemma is_power_of_two_pow b : is_power_of_two (2 ^ b) = true.
Proof.
  unfold is_power_of_two. pose proof (N.pow_nonzero 2 b ltac:(done)) as Hnz.
  rewrite bool_decide_true by done. simpl. apply bool_decide_eq_true.
  apply N.bits_inj. intros i. rewrite N.land_spec, N.bits_0, N.pow2_bits_eqb.
  destruct (N.eqb_spec b i) as [<-|]; [|done]. rewrite N.sub_1_r, <- N.ones_equiv. simpl.
  by apply N.ones_spec_high.
Qed.

Lemma is_power_of_two_inv m : is_power_of_two m = true → m = 2 ^ N.log2 m.
Proof.
  unfold is_power_of_two. intros [Hnz%bool_decide_eq_true Hl%bool_decide_eq_true]%andb_true_iff.
  destruct (decide (m = 2 ^ N.log2 m)) as [|Hne]; [done|exfalso].
  pose proof (N.log2_spec m ltac:(lia)) as [Hlo Hhi].
  assert (N.log2 (m - 1) = N.log2 m) as Hlog.
  { apply N.log2_unique; lia. }
  apply (f_equal (λ x, N.testbit x (N.log2 m))) in Hl. rewrite N.land_spec, N.bits_0, N.bit_log2 in Hl by done.
  rewrite <- Hlog, N.bit_log2 in Hl; [done|]. intros E. assert (m = 1) as -> by lia. done.
Qed.

(** The number of terminals in a mask. *)
Definition terminals_in (k : nat) (m : N) : nat :=
  length (filter (λ i, N.testbit m (N.of_nat i) = true) (seq 0 k)).

Lemma terminals_in_split k m1 m2 :
  N.land m1 m2 = 0 → terminals_in k (N.lor m1 m2) = (terminals_in k m1 + terminals_in k m2)%nat.
Proof.
  intros Hd. unfold terminals_in. induction (seq 0 k) as [|i l IH]; [done|].
  apply (f_equal (λ x, N.testbit x (N.of_nat i))) in Hd. rewrite N.land_spec, N.bits_0 in Hd.
  rewrite !filter_cons, N.lor_spec.
  destruct (N.testbit m1 (N.of_nat i)), (N.testbit m2 (N.of_nat i)); try done; simpl;
    repeat (rewrite decide_True by done || rewrite decide_False by done); simpl; lia.
Qed.

Lemma terminals_in_le k m : (terminals_in k m ≤ k)%nat.
Proof. unfold terminals_in. etrans; [apply length_filter|]. by rewrite length_seq. Qed.

Lemma terminals_in_pos k m : m ≠ 0 → m < 2 ^ N.of_nat k → (1 ≤ terminals_in k m)%nat.
Proof.
  intros Hnz Hlt. unfold terminals_in.
  assert (N.to_nat (N.log2 m) ∈ filter (λ i, N.testbit m (N.of_nat i) = true) (seq 0 k)) as Hin.
  { apply list_elem_of_filter. rewrite N2Nat.id, N.bit_log2 by done. split; [done|].
    apply elem_of_seq. apply N.log2_lt_pow2 in Hlt; lia. }
  destruct (filter _ _); simpl; [by apply elem_of_nil in Hin|lia].
Qed.
End Masks.

(** Well-formed solver input: costs stay below infinity whatever the tree. *)
Record solver_wf (graph : StarGraph) (node_cost : list Cost) (terminals : list nat) : Prop := {
  sw_graph : graph_wf graph;
  sw_costs : costs_wf node_cost;
  sw_terminals : Forall (λ v, (v < length (stars graph))%nat) terminals;
  sw_fits : Z.of_nat (length terminals) * (2 * Z.of_nat (length (stars graph)) + 1) + 2 < INF_COMPONENT;
}.

Section Tables.
Context (graph : StarGraph) (node_cost : list Cost) (terminals : list nat).
Context (Hwf : solver_wf graph node_cost terminals).
Abbreviation n := (length (stars graph)).
Abbreviation k := (length terminals).
Abbreviation node_key v := (cost_key (cost_of node_cost v)).
Abbreviation val t m v := (at_ (row (dp t) m) v).

(** ** Trees as joins *)

(** The terminals of a mask can be joined at a vertex for a cost: a terminal by itself, a
    tree extended over an edge, or two trees for disjoint masks that meet. *)
Inductive joins : N → nat → Z → Prop :=
| joins_terminal bit v :
    terminals !! bit = Some v → joins (2 ^ N.of_nat bit) v (node_key v)
| joins_move m u v c :
    joins m u c → v ∈ neighbors graph u → joins m v (c + node_key v + 1)
| joins_meet m1 m2 v c1 c2 :
    joins m1 v c1 → joins m2 v c2 → N.land m1 m2 = 0%N →
    joins (N.lor m1 m2) v (c1 + c2 - node_key v).

(** No entry of the row of a mask exceeds this. *)
Definition limit (m : N) : Z := Z.of_nat (terminals_in k m) * (2 * Z.of_nat n + 1) - Z.of_nat n.

Definition in_masks (m : N) : Prop := m ≠ 0%N ∧ (m < 2 ^ N.of_nat k)%N.

Lemma limit_bounds m : in_masks m → Z.of_nat n + 1 ≤ limit m ∧ limit m + Z.of_nat n + 2 < INF_COMPONENT.
Proof.
  intros [Hnz Hlt]. unfold limit. pose proof (terminals_in_pos k m Hnz Hlt).
  pose proof (terminals_in_le k m). pose proof (sw_fits _ _ _ Hwf). nia.
Qed.

Lemma limit_meet m1 m2 :
  N.land m1 m2 = 0%N → limit (N.lor m1 m2) = limit m1 + limit m2 + Z.of_nat n.
Proof. intros Hd. unfold limit. rewrite terminals_in_split by done. lia. Qed.

(** ** Rows *)

(** How an entry came about. *)
Inductive step_of (t : Tables) (m : N) (v : nat) : Prop :=
| from_terminal bit :
    terminals !! bit = Some v → m = (2 ^ N.of_nat bit)%N →
    row (parent t) m !! v = Some NoParent → cost_key (val t m v) = node_key v → step_of t m v
| from_neighbor u :
    (u < n)%nat → v ∈ neighbors graph u → row (parent t) m !! v = Some (Move u) →
    val t m u ≠ INF → cost_key (val t m v) = cost_key (val t m u) + node_key v + 1 → step_of t m v
| from_split s :
    submask_of s m → s ≠ 0%N → s ≠ m → row (parent t) m !! v = Some (Split s) →
    val t s v ≠ INF → val t (N.lxor m s) v ≠ INF →
    cost_key (val t m v) = cost_key (val t s v) + cost_key (val t (N.lxor m s) v) - node_key v →
    step_of t m v.

(** A row with entries below [b]. *)
Record entries_ok (t : Tables) (m : N) (b : Z) : Prop := {
  eo_values : length (row (dp t) m) = n;
  eo_parents : length (row (parent t) m) = n;
  eo_small v : val t m v = INF ∨ small b (val t m v);
  eo_floor v : val t m v ≠ INF → node_key v ≤ cost_key (val t m v);
  eo_seed bit v : terminals !! bit = Some v → m = (2 ^ N.of_nat bit)%N →
    cost_key (val t m v) ≤ node_key v;
  eo_meet m1 m2 v : m1 ≠ 0%N → m2 ≠ 0%N → N.land m1 m2 = 0%N → m = N.lor m1 m2 → (v < n)%nat →
    val t m1 v ≠ INF → val t m2 v ≠ INF →
    cost_key (val t m v) ≤ cost_key (val t m1 v) + cost_key (val t m2 v) - node_key v;
  eo_step v : val t m v ≠ INF → step_of t m v;
}.

(** A finished row is closed under edges. *)
Record row_ok (t : Tables) (m : N) : Prop := {
  ro_entries : entries_ok t m (limit m);
  ro_edge u v : val t m u ≠ INF → v ∈ neighbors graph u →
    cost_key (val t m v) ≤ cost_key (val t m u) + node_key v + 1;
}.

(** Two tables agree on the row of a mask. *)
Definition same_row (t t' : Tables) (m : N) : Prop :=
  row (dp t') m = row (dp t) m ∧ row (parent t') m = row (parent t) m.

(** A finished row depends on the rows of its submasks only. *)
Lemma row_ok_frame t t' m :
  (∀ s, submask_of s m → same_row t t' s) → row_ok t m → row_ok t' m.
Proof.
  intros Hs [[H1 H2 H3 H4 H5 H6 H7] H8]. destruct (Hs m (N.land_diag m)) as [Ed Ep].
  split; [split|]; rewrite ?Ed, ?Ep; try done.
  - intros m1 m2 v ?? Hd ->. destruct (disjoint_rest m1 m2 Hd) as [Hm1 _].
    rewrite N.land_comm in Hd. destruct (disjoint_rest m2 m1 Hd) as [Hm2 _].
    rewrite N.lor_comm in Hm2. rewrite N.land_comm in Hd.
    destruct (Hs m1 Hm1) as [-> _], (Hs m2 Hm2) as [-> _]. auto.
  - intros v Hv. destruct (H7 v Hv) as [bit|u|s Hsub ?? Hp].
    + apply (from_terminal _ _ _ bit); rewrite ?Ed, ?Ep; done.
    + apply (from_neighbor _ _ _ u); rewrite ?Ed, ?Ep; done.
    + destruct (Hs s Hsub) as [Es _], (Hs _ (rest_submask _ _ Hsub)) as [Eo _].
      apply (from_split _ _ _ s); rewrite ?Ed, ?Ep, ?Es, ?Eo; done.
Qed.

(** ** One row *)

(** Every row has its place in the tables. *)
Record shaped (t : Tables) : Prop := {
  sh_dp : length (dp t) = mask_count terminals;
  sh_parent : length (parent t) = mask_count terminals;
}.

Lemma mask_count_eq : mask_count terminals = N.to_nat (2 ^ N.of_nat k).
Proof. unfold mask_count. by rewrite N.shiftl_1_l. Qed.

Definition set_row (t : Tables) (m : N) (vs : list Cost) (ps : list Parent) : Tables :=
  {| dp := <[N.to_nat m := vs]> (dp t); parent := <[N.to_nat m := ps]> (parent t) |}.

Lemma set_row_shaped t m vs ps : shaped t → shaped (set_row t m vs ps).
Proof. intros []. split; simpl; by rewrite length_insert. Qed.
Lemma row_set_same t m vs ps :
  shaped t → in_masks m → row (dp (set_row t m vs ps)) m = vs ∧ row (parent (set_row t m vs ps)) m = ps.
Proof.
  intros [Hd Hp] [_ Hm]. unfold row. simpl. rewrite !list_lookup_insert_eq; [done|..];
    rewrite ?Hd, ?Hp, mask_count_eq; lia.
Qed.
Lemma row_set_other t m vs ps m' : m' ≠ m → same_row t (set_row t m vs ps) m'.
Proof. intros Hne. unfold same_row, row. simpl. rewrite !list_lookup_insert_ne by lia. done. Qed.

(** Closing a row whose entries hold up gives a finished row, and touches no other. *)
Lemma close_row_ok t m :
  shaped t → in_masks m → entries_ok t m (limit m - Z.of_nat n) →
  (∀ v u, row (parent t) m !! v ≠ Some (Move u)) →
  ∃ t', close_row graph node_cost m t = Some t' ∧ shaped t' ∧ row_ok t' m
        ∧ ∀ m', m' ≠ m → same_row t t' m'.
Proof.
  intros Hsh Hm [H1 H2 H3 H4 H5 H6 H7] Hbase. pose proof (limit_bounds m Hm) as [Hlo Hhi].
  destruct (metric_closure_closed graph node_cost (sw_graph _ _ _ Hwf) (sw_costs _ _ _ Hwf)
    (row (dp t) m) (row (parent t) m) (limit m - Z.of_nat n) ltac:(lia) ltac:(lia) H1 H2 H3)
    as (vs&ps&Hc&[C1 C2 C3 C4 C5]).
  exists (set_row t m vs ps). unfold close_row. rewrite Hc. split; [done|].
  split; [by apply set_row_shaped|]. split; [|intros; by apply row_set_other].
  destruct (row_set_same t m vs ps Hsh Hm) as [Ed Ep].
  assert (∀ v, cost_key (at_ vs v) ≤ cost_key (val t m v)) as Hle.
  { intros v. destruct (decide (v < n)%nat) as [Hv|Hv].
    - destruct (C5 v Hv) as [[-> _]|(u&?&?&?&?&?&?&?)]; lia.
    - unfold at_. rewrite !lookup_ge_None_2 by lia. done. }
  assert (∀ v, at_ vs v ≠ INF → (v < n)%nat) as Hin.
  { intros v Hv. destruct (decide (v < n)%nat); [done|]. destruct Hv. unfold at_.
    by rewrite lookup_ge_None_2 by lia. }
  split; [split|]; rewrite ?Ed, ?Ep; try done.
  - intros v. destruct (C3 v); [auto|right]. eapply small_le; [|done]. lia.
  - intros v Hv. destruct (C5 v (Hin v Hv)) as [[E _]|(u&?&?&?&Hu&?&Hk&?)].
    + rewrite E in *. auto.
    + rewrite Hk. destruct (C3 u) as [|[]]; [done|]. unfold cost_key at 2. lia.
  - intros bit v Hb Hmb. etrans; [apply Hle|eauto].
  - intros m1 m2 v ?? Hd Hmm Hv.
    destruct (row_set_other t m vs ps m1) as [-> _].
    { intros ->. destruct (disjoint_rest m m2 Hd) as [_ E]. rewrite <- Hmm, N.lxor_nilpotent in E. done. }
    destruct (row_set_other t m vs ps m2) as [-> _].
    { intros ->. rewrite N.land_comm in Hd. destruct (disjoint_rest m m1 Hd) as [_ E].
      rewrite N.lor_comm, <- Hmm, N.lxor_nilpotent in E. done. }
    intros ??. etrans; [apply Hle|eauto].
  - intros v Hv. destruct (C5 v (Hin v Hv)) as [[E Epv]|(u&?&?&?&?&?&?&?)].
    + rewrite E in Hv. destruct (H7 v Hv) as [bit ?? Hp|u ?? Hp|s Hsub Hs0 Hsm Hp].
      * apply (from_terminal _ _ _ bit); rewrite ?Ed, ?Ep, ?E, ?Epv; done.
      * by destruct (Hbase v u).
      * destruct (row_set_other t m vs ps s Hsm) as [Es _].
        destruct (row_set_other t m vs ps (N.lxor m s)) as [Eo _].
        { pose proof (rest_lt _ _ Hsub Hs0). lia. }
        apply (from_split _ _ _ s); rewrite ?Ed, ?Ep, ?E, ?Epv, ?Es, ?Eo; done.
    + apply (from_neighbor _ _ _ u); rewrite ?Ed, ?Ep; done.
Qed.

(** A row that nothing has been written to. *)
Definition blank (t : Tables) (m : N) : Prop :=
  row (dp t) m = replicate n INF ∧ row (parent t) m = replicate n NoParent.

Lemma at_replicate v : at_ (replicate n INF) v = INF.
Proof.
  unfold at_. destruct (replicate n INF !! v) eqn:E; [|done]. by apply lookup_replicate in E as [-> _].
Qed.

Lemma in_masks_pow bit v : terminals !! bit = Some v → in_masks (2 ^ N.of_nat bit).
Proof.
  intros Hb%lookup_lt_Some. split; [by apply N.pow_nonzero|]. apply N.pow_lt_mono_r; lia.
Qed.

Lemma node_key_small v : 0 ≤ node_key v ∧ small 1 (cost_of node_cost v).
Proof. pose proof (cost_of_small node_cost v (sw_costs _ _ _ Hwf)). split; [|done]. costs. lia. Qed.

Lemma at_seed v u :
  (v < n)%nat →
  at_ (<[v := cost_of node_cost v]> (replicate n INF)) u
  = if decide (v = u) then cost_of node_cost v else INF.
Proof. intros Hv. rewrite at_insert by (by rewrite length_replicate). by rewrite at_replicate. Qed.

Lemma seed_entries t bit v :
  shaped t → terminals !! bit = Some v → blank t (2 ^ N.of_nat bit) →
  let m := (2 ^ N.of_nat bit)%N in
  let t' := set_row t m (<[v := cost_of node_cost v]> (row (dp t) m)) (row (parent t) m) in
  entries_ok t' m (limit m - Z.of_nat n) ∧ (∀ v u, row (parent t') m !! v ≠ Some (Move u)).
Proof.
  intros Hsh Hb [Hd Hp] m t'. subst m. set (m := (2 ^ N.of_nat bit)%N) in *.
  assert (in_masks m) as Hm by (by eapply in_masks_pow).
  pose proof (limit_bounds m Hm) as [Hlo _].
  assert (v < n)%nat as Hv by (exact (Forall_lookup_1 _ _ _ _ (sw_terminals _ _ _ Hwf) Hb)).
  destruct (row_set_same t m (<[v := cost_of node_cost v]> (row (dp t) m)) (row (parent t) m) Hsh Hm) as [Ed Ep].
  fold t' in Ed, Ep. rewrite Hd in Ed. rewrite Hp in Ep.
  assert (∀ u, val t' m u = if decide (v = u) then cost_of node_cost v else INF) as Hval.
  { intros u. rewrite Ed. by apply at_seed. }
  split; [split|].
  - by rewrite Ed, length_insert, length_replicate.
  - by rewrite Ep, length_replicate.
  - intros u. rewrite Hval. case_decide; [right|auto]. eapply small_le; [|apply node_key_small]. lia.
  - intros u. rewrite Hval. case_decide; [subst; lia|done].
  - intros bit' u Hb' E. rewrite Hval. apply N.pow_inj_r in E; [|lia]. apply Nat2N.inj in E. subst bit'.
    simplify_eq. rewrite decide_True by done. done.
  - intros m1 m2 u H1 H2 Hdj E. symmetry in E. destruct (power_of_two_indivisible _ _ _ Hdj E); done.
  - intros u. rewrite Hval. case_decide; [subst u; intros _|done].
    apply (from_terminal _ _ _ bit); [done..| |rewrite Hval, decide_True; done].
    rewrite Ep. by apply lookup_replicate_2.
  - intros u w. rewrite Ep. intros [? _]%lookup_replicate. done.
Qed.

(** The masks whose rows are finished once the terminals below [bit] are seeded. *)
Definition seeded (bit : nat) (m : N) : Prop := ∃ i, (i < bit)%nat ∧ m = (2 ^ N.of_nat i)%N.

(** The finished rows are those of [done], and the others are blank. *)
Record filled (done : N → Prop) (t : Tables) : Prop := {
  fi_shaped : shaped t;
  fi_done m : in_masks m → done m → row_ok t m;
  fi_blank m : in_masks m → ¬ done m → blank t m;
}.

(** Finishing one more row that no finished row depends on. *)
Lemma filled_step (done done' : N → Prop) t t' m :
  filled done t → shaped t' → row_ok t' m → (∀ m', m' ≠ m → same_row t t' m') →
  (∀ m', done m' → ¬ submask_of m m') → (∀ m', in_masks m' → done' m' ↔ done m' ∨ m' = m) →
  filled done' t'.
Proof.
  intros [H1 H2 H3] Hsh Hok Hsame Hind Hdone. split; [done|..].
  - intros m' Hm' [Hd| ->]%Hdone; [|done|done]. apply (row_ok_frame t); [|auto].
    intros s Hs. apply Hsame. intros ->. by eapply Hind.
  - intros m' Hm' Hnd. rewrite Hdone in Hnd by done.
    destruct (Hsame m') as [Ed Ep]; [naive_solver|]. unfold blank. rewrite Ed, Ep. naive_solver.
Qed.

Lemma submask_pow_pow i j : submask_of (2 ^ N.of_nat i) (2 ^ N.of_nat j) → i = j.
Proof.
  intros H. apply (f_equal (λ x, N.testbit x (N.of_nat i))) in H.
  rewrite N.land_spec, !N.pow2_bits_eqb, N.eqb_refl in H. simpl in H. apply N.eqb_eq in H. lia.
Qed.

Lemma set_row_keep_parent t m vs :
  shaped t → in_masks m →
  {| dp := <[N.to_nat m := vs]> (dp t); parent := parent t |} = set_row t m vs (row (parent t) m).
Proof.
  intros [Hd Hp] [_ Hm]. unfold set_row, row. f_equal. symmetry. apply list_insert_id.
  destruct (lookup_lt_is_Some_2 (parent t) (N.to_nat m)) as [r E]; [rewrite Hp, mask_count_eq; lia|].
  by rewrite E.
Qed.

Lemma seed_terminals_filled bit rest t :
  (∀ i, rest !! i = terminals !! (bit + i)%nat) → filled (seeded bit) t →
  ∃ t', seed_terminals graph node_cost bit rest t = Some t' ∧ filled (seeded k) t'.
Proof.
  revert bit t. induction rest as [|v rest IH]; intros bit t Hrest Hf; simpl.
  - exists t. split; [done|]. specialize (Hrest 0%nat). simpl in Hrest. symmetry in Hrest.
    apply lookup_ge_None in Hrest. destruct Hf as [H1 H2 H3]. split; [done|..].
    + intros m Hm (i&Hi&->). apply H2; [done|]. exists i. split; [lia|done].
    + intros m Hm Hn. apply H3; [done|]. intros (i&Hi&->). apply Hn. exists i. split; [|done].
      destruct Hm as [_ Hm]. apply N.pow_lt_mono_r_iff in Hm; lia.
  - pose proof (Hrest 0%nat) as Hb. simpl in Hb. rewrite Nat.add_0_r in Hb. symmetry in Hb.
    pose proof (in_masks_pow _ _ Hb) as Hm. rewrite N.shiftl_1_l.
    pose proof Hf as [Hsh Hdone Hblank].
    assert (∀ m', seeded bit m' → ¬ submask_of (2 ^ N.of_nat bit) m') as Hind.
    { intros m' (i&Hi&->) E%submask_pow_pow. lia. }
    destruct (seed_entries t bit v Hsh Hb) as [He Hbase].
    { apply Hblank; [done|]. intros Hs. by apply (Hind _ Hs), N.land_diag. }
    rewrite set_row_keep_parent by done.
    set (t1 := set_row _ _ _ _) in *.
    destruct (close_row_ok t1 _ ltac:(by apply set_row_shaped) Hm He Hbase) as (t'&->&Hsh'&Hok&Hsame).
    simpl. apply IH.
    + intros i. specialize (Hrest (S i)). simpl in Hrest. rewrite Hrest. f_equal. lia.
    + apply (filled_step (seeded bit) _ t t' (2 ^ N.of_nat bit)%N); try done.
      * intros m' Hne. destruct (row_set_other t (2 ^ N.of_nat bit)%N
          (<[v:=cost_of node_cost v]> (row (dp t) (2 ^ N.of_nat bit)%N)) (row (parent t) (2 ^ N.of_nat bit)%N) m' Hne) as [E1 E2].
        destruct (Hsame m' Hne) as [E3 E4]. split; [by rewrite E3|by rewrite E4].
      * intros m' _. split.
        -- intros (i&Hi&->). destruct (decide (i = bit)) as [->|]; [by right|left]. exists i. split; [lia|done].
        -- intros [(i&Hi&->)| ->]; [exists i|exists bit]; split; lia || done.
Qed.

(** ** Splitting a mask *)

(** The cost of two trees that meet at a vertex. *)
Definition meet (t : list (list Cost)) (m s : N) (v : nat) : Cost :=
  subtract_node (add (at_ (row t s) v) (at_ (row t (N.lxor m s)) v)) (cost_of node_cost v).

Lemma subtract_node_small b c v :
  small b c → b < INF_COMPONENT → node_key v ≤ cost_key c →
  small b (subtract_node c (cost_of node_cost v))
  ∧ cost_key (subtract_node c (cost_of node_cost v)) = cost_key c - node_key v.
Proof.
  intros Hc Hb Hle. unfold subtract_node. rewrite decide_False by (eapply small_not_INF; [done|lia]).
  pose proof (node_key_small v) as [_ Hn].
  assert (hops (cost_of node_cost v) = 0) as Hh.
  { unfold cost_of. destruct (node_cost !! v) as [c'|] eqn:E; [|done].
    by destruct (Forall_lookup_1 _ _ _ _ (sw_costs _ _ _ Hwf) E) as [? ->]. }
  unfold saturating_sub_u32, small, cost_key in *. rewrite Hh in *. simpl. rewrite INF_COMPONENT_eq in *. lia.
Qed.

Lemma meet_small t m s v :
  submask_of s m → in_masks m → s ≠ 0%N → s ≠ m → row_ok t s → row_ok t (N.lxor m s) →
  (meet (dp t) m s v = INF ∧ (val t s v = INF ∨ val t (N.lxor m s) v = INF))
  ∨ small (limit m - Z.of_nat n) (meet (dp t) m s v) ∧ val t s v ≠ INF ∧ val t (N.lxor m s) v ≠ INF
    ∧ cost_key (meet (dp t) m s v) = cost_key (val t s v) + cost_key (val t (N.lxor m s) v) - node_key v.
Proof.
  intros Hsub Hm Hs0 Hsm [Hs _] [Ho _]. pose proof (limit_bounds m Hm) as [Hlo Hhi].
  destruct (split_rest s m Hsub) as [Hd Hl]. pose proof (limit_meet s _ Hd) as Hlim. rewrite Hl in Hlim.
  assert (in_masks s ∧ in_masks (N.lxor m s)) as [Hms Hmo].
  { pose proof (submask_le _ _ Hsub). pose proof (rest_lt _ _ Hsub Hs0).
    pose proof (rest_nonzero _ _ Hsub Hsm). unfold in_masks in *. lia. }
  pose proof (limit_bounds s Hms). pose proof (limit_bounds _ Hmo).
  unfold meet. destruct (eo_small _ _ _ Hs v) as [E1|S1].
  { rewrite E1, add_INF_l. left. auto. }
  destruct (eo_small _ _ _ Ho v) as [E2|S2].
  { rewrite E2, add_INF_r. left. auto. }
  right. destruct (add_small _ _ _ _ S1 S2) as (S3&K3&_); [lia..|].
  assert (val t s v ≠ INF) as F1 by (eapply small_not_INF; [done|lia]).
  assert (val t (N.lxor m s) v ≠ INF) as F2 by (eapply small_not_INF; [done|lia]).
  pose proof (eo_floor _ _ _ Hs v F1). pose proof (eo_floor _ _ _ Ho v F2).
  pose proof (node_key_small v) as [? _].
  destruct (subtract_node_small _ _ v S3) as [S4 K4]; [lia..|].
  split_and!; [eapply small_le; [|done]; lia|done|done|lia].
Qed.

(** One split offers its cost to every vertex. *)
Lemma split_vertices t m s vs ps l :
  NoDup l → (∀ v, v ∈ l → (v < n)%nat) → length vs = n → length ps = n →
  let acc := foldl (split_vertex node_cost s (N.lxor m s) (row t s) (row t (N.lxor m s))) (vs, ps) l in
  length acc.1 = n ∧ length acc.2 = n ∧
  ∀ v, (v ∈ l ∧ cost_ltb (meet t m s v) (at_ vs v) = true
        ∧ at_ acc.1 v = meet t m s v ∧ acc.2 !! v = Some (Split s))
       ∨ ((v ∈ l → cost_ltb (meet t m s v) (at_ vs v) = false)
          ∧ at_ acc.1 v = at_ vs v ∧ acc.2 !! v = ps !! v).
Proof.
  revert vs ps. induction l as [|u l IH]; intros vs ps Hnd Hl Hvs Hps; simpl.
  { split_and!; [done..|]. intros v. right. by split; [intros ?%elem_of_nil|]. }
  apply NoDup_cons in Hnd as [Hu Hnd].
  assert (u < n)%nat as Hun by (apply Hl; constructor).
  assert (split_vertex node_cost s (N.lxor m s) (row t s) (row t (N.lxor m s)) (vs, ps) u
          = if cost_ltb (meet t m s u) (at_ vs u)
            then (<[u := meet t m s u]> vs, <[u := Split s]> ps) else (vs, ps)) as -> by done.
  destruct (cost_ltb (meet t m s u) (at_ vs u)) eqn:E.
  - destruct (IH (<[u := meet t m s u]> vs) (<[u := Split s]> ps)) as (L1&L2&Hv);
      [done|intros; apply Hl; by constructor|by rewrite length_insert..|].
    split_and!; [done..|]. intros v. specialize (Hv v). rewrite at_insert in Hv by lia.
    destruct (decide (u = v)) as [->|Hne].
    + left. destruct Hv as [(?&_)|(_&->&->)]; [done|]. rewrite list_lookup_insert_eq by lia.
      split_and!; [constructor|done..].
    + rewrite list_lookup_insert_ne in Hv by done.
      destruct Hv as [(?&?&?&?)|(Hn&?&?)]; [left|right]; (split_and!; [|done..]); [by constructor|].
      intros [?|?]%elem_of_cons; [congruence|auto].
  - destruct (IH vs ps) as (L1&L2&Hv); [done|intros; apply Hl; by constructor|done..|].
    split_and!; [done..|]. intros v. destruct (Hv v) as [(?&?&?&?)|(Hn&?&?)]; [left|right]; (split_and!; [|done..]).
    + by constructor.
    + intros [->|?]%elem_of_cons; auto.
Qed.

(** Between two splits: the submasks of [m] above [lo] have been tried. *)
Record splitting (t : Tables) (m lo : N) (acc : list Cost * list Parent) : Prop := {
  sp_values : length acc.1 = n;
  sp_parents : length acc.2 = n;
  sp_least s v : submask_of s m → s ≠ 0%N → s ≠ m → (lo < s)%N → (s < N.lxor m s)%N → (v < n)%nat →
    cost_key (at_ acc.1 v) ≤ cost_key (meet (dp t) m s v);
  sp_from v :
    (at_ acc.1 v = INF ∧ (∀ u, acc.2 !! v ≠ Some (Move u)))
    ∨ ∃ s, submask_of s m ∧ s ≠ 0%N ∧ s ≠ m ∧ at_ acc.1 v = meet (dp t) m s v
           ∧ meet (dp t) m s v ≠ INF ∧ acc.2 !! v = Some (Split s);
}.

Lemma proper_in_masks m s :
  in_masks m → submask_of s m → s ≠ 0%N → s ≠ m → in_masks s ∧ in_masks (N.lxor m s).
Proof.
  intros Hm Hsub Hs0 Hsm. pose proof (submask_le _ _ Hsub). pose proof (rest_lt _ _ Hsub Hs0).
  pose proof (rest_nonzero _ _ Hsub Hsm). unfold in_masks in *. lia.
Qed.

Lemma split_rows_splitting t m :
  in_masks m → (∀ s, submask_of s m → s ≠ 0%N → s ≠ m → row_ok t s) →
  ∀ fuel s acc, (N.to_nat s < fuel)%nat → submask_of s m → s ≠ m → splitting t m s acc →
  ∃ acc', split_rows node_cost fuel n (dp t) m s acc = Some acc' ∧ splitting t m 0 acc'.
Proof.
  intros Hm Hrows fuel. induction fuel as [|fuel IH]; intros s acc Hf Hs Hsm I; [lia|]. simpl.
  case_decide as Hs0; [subst; eauto|].
  assert (N.land (s - 1) m ≤ s - 1)%N as Hnext by apply land_le_l.
  apply IH; [lia|apply next_submask| |].
  { pose proof (submask_le _ _ Hs). lia. }
  destruct I as [H1 H2 H3 H4].
  destruct (proper_in_masks m s Hm Hs Hs0 Hsm) as [Hms Hmo].
  assert (row_ok t (N.lxor m s)) as Ho.
  { apply Hrows; [by apply rest_submask|apply Hmo|]. pose proof (rest_lt _ _ Hs Hs0). lia. }
  assert (∀ v, small INF_COMPONENT (meet (dp t) m s v)) as Hmv.
  { intros v. destruct (meet_small t m s v) as [[-> _]|[Hsm' _]]; auto using small_INF.
    pose proof (limit_bounds m Hm). eapply small_le; [|done]. lia. }
  assert (∀ v, small INF_COMPONENT (at_ acc.1 v)) as Hav.
  { intros v. destruct (H4 v) as [[-> _]|(s'&Hs'&Hs0'&Hsm''&->&Hne&_)]; [apply small_INF|].
    destruct (proper_in_masks m s' Hm Hs' Hs0' Hsm'') as [? Hmo'].
    destruct (meet_small t m s' v) as [[? _]|[Hsm' _]]; auto using rest_submask; [|done|].
    { apply Hrows; [by apply rest_submask|apply Hmo'|]. pose proof (rest_lt _ _ Hs' Hs0'). lia. }
    pose proof (limit_bounds m Hm). eapply small_le; [|done]. lia. }
  assert (∀ s', submask_of s' m → (N.land (s - 1) m < s')%N → s' = s ∨ (s < s')%N) as Hgap.
  { intros s' Hs' Hlt. destruct (decide (s' < s)%N) as [Hlt'|]; [|lia].
    pose proof (next_submask_largest m s s' Hs Hs' Hlt'). lia. }
  case_decide as Hlt.
  - destruct acc as [vs ps]. simpl in *.
    destruct (split_vertices (dp t) m s vs ps (seq 0 n)) as (L1&L2&Hv);
      [apply NoDup_seq|intros v ?%elem_of_seq; lia|done..|].
    set (acc := foldl _ _ _) in *. split; [done..| |].
    + intros s' v Hs' Hs0' Hsm' Hlo Hlt' Hvn.
      destruct (Hv v) as [(?&Hb&->&_)|(Hb&->&_)].
      * apply cost_ltb_key in Hb; [|done..]. destruct (Hgap s' Hs' Hlo) as [->|?]; [lia|]. etrans; [|by apply H3]. lia.
      * destruct (Hgap s' Hs' Hlo) as [->|?]; [|by apply H3].
        apply cost_ltb_key_false; [done..|]. apply Hb, elem_of_seq. lia.
    + intros v. destruct (Hv v) as [(?&Hb&Ha&Hp)|(Hb&->&->)]; [|apply H4].
      apply cost_ltb_key in Hb; [|done..]. right. exists s. split_and!; try done. intros E. rewrite E in Hb.
      specialize (Hav v). unfold small, cost_key in *. simpl in *. rewrite INF_COMPONENT_eq in *. lia.
  - split; [done..| |done]. intros s' v Hs' Hs0' Hsm' Hlo Hlt' Hvn.
    destruct (Hgap s' Hs' Hlo) as [->|?]; [done|by apply H3].
Qed.

Lemma split_entries t m acc :
  shaped t → in_masks m → is_power_of_two m = false →
  (∀ s, submask_of s m → s ≠ 0%N → s ≠ m → row_ok t s) → splitting t m 0 acc →
  let t' := set_row t m acc.1 acc.2 in
  entries_ok t' m (limit m - Z.of_nat n) ∧ (∀ v u, row (parent t') m !! v ≠ Some (Move u)).
Proof.
  intros Hsh Hm Hp Hrows [H1 H2 H3 H4] t'.
  destruct (row_set_same t m acc.1 acc.2 Hsh Hm) as [Ed Ep]. fold t' in Ed, Ep.
  assert (∀ s, s ≠ m → row (dp t') s = row (dp t) s) as Es.
  { intros s Hne. by apply (row_set_other t m acc.1 acc.2 s). }
  assert (∀ s, submask_of s m → s ≠ 0%N → s ≠ m → row_ok t (N.lxor m s) ∧ N.lxor m s ≠ m) as Hrest.
  { intros s Hs Hs0 Hsm. destruct (proper_in_masks m s Hm Hs Hs0 Hsm) as [_ [Hnz _]].
    pose proof (rest_lt _ _ Hs Hs0). split; [apply Hrows|]; auto using rest_submask; lia. }
  assert (∀ v, val t' m v ≠ INF → ∃ s, submask_of s m ∧ s ≠ 0%N ∧ s ≠ m ∧ acc.2 !! v = Some (Split s)
    ∧ small (limit m - Z.of_nat n) (val t' m v) ∧ val t s v ≠ INF ∧ val t (N.lxor m s) v ≠ INF
    ∧ cost_key (val t' m v) = cost_key (val t s v) + cost_key (val t (N.lxor m s) v) - node_key v) as Hfrom.
  { intros v. rewrite Ed. intros Hv. destruct (H4 v) as [[? _]|(s&Hs&Hs0&Hsm&Ha&Hne&Hpar)]; [done|].
    exists s. rewrite Ha. destruct (Hrest s Hs Hs0 Hsm).
    destruct (meet_small t m s v) as [[? _]|(?&?&?&?)]; auto; done. }
  split; [split|]; rewrite ?Ep; rewrite ?Ed; try done.
  - intros v. rewrite <- Ed. destruct (decide (val t' m v = INF)) as [|Hv]; [auto|right].
    by destruct (Hfrom v Hv) as (s&_&_&_&_&?&_).
  - rewrite <- Ed. intros v Hv. destruct (Hfrom v Hv) as (s&Hs&Hs0&Hsm&_&_&F1&F2&->).
    pose proof (eo_floor _ _ _ (ro_entries _ _ (Hrows s Hs Hs0 Hsm)) v F1).
    pose proof (eo_floor _ _ _ (ro_entries _ _ (proj1 (Hrest s Hs Hs0 Hsm))) v F2). lia.
  - intros bit v _ ->. by rewrite is_power_of_two_pow in Hp.
  - intros m1 m2 v Hm1 Hm2 Hd Hmm Hv.
    assert (∀ m1 m2, m1 ≠ 0%N → N.land m1 m2 = 0%N → m = N.lor m1 m2 → (m1 < m2)%N →
      val t' m1 v ≠ INF → val t' m2 v ≠ INF →
      cost_key (at_ acc.1 v) ≤ cost_key (val t' m1 v) + cost_key (val t' m2 v) - node_key v) as Hord.
    { clear m1 m2 Hm1 Hm2 Hd Hmm. intros m1 m2 Hm1 Hd Hmm Hlt.
      destruct (disjoint_rest m1 m2 Hd) as [Hs Hx]. rewrite <- Hmm in Hs, Hx.
      assert (m1 ≠ m) as Hm1m by (intros ->; rewrite N.lxor_nilpotent in Hx; lia).
      destruct (Hrest m1 Hs Hm1 Hm1m) as [Ho Hom]. rewrite Hx in Ho, Hom. rewrite !Es by done. intros F1 F2.
      destruct (meet_small t m m1 v) as [[_ [?|E]]|(_&_&_&Hk)]; rewrite ?Hx; auto; [done|by rewrite Hx in E|].
      rewrite Hx in Hk. rewrite <- Hk. apply H3; [done..|lia|by rewrite Hx|done]. }
    destruct (N.lt_trichotomy m1 m2) as [Hlt|[->|Hlt]].
    + by apply Hord.
    + by rewrite N.land_diag in Hd.
    + intros F1 F2. rewrite (Z.add_comm (cost_key (val t' m1 v))). apply Hord; try done.
      * by rewrite N.land_comm.
      * by rewrite N.lor_comm.
  - rewrite <- Ed. intros v Hv. destruct (Hfrom v Hv) as (s&Hs&Hs0&Hsm&Hpar&_&F1&F2&Hk).
    apply (from_split _ _ _ s); rewrite ?(Es s Hsm), ?(Es _ (proj2 (Hrest s Hs Hs0 Hsm))), ?Ep; done.
  - intros v u. destruct (H4 v) as [[_ ?]|(s&_&_&_&_&_&->)]; done.
Qed.

Lemma fill_mask_ok t m :
  shaped t → in_masks m → is_power_of_two m = false → blank t m →
  (∀ s, submask_of s m → s ≠ 0%N → s ≠ m → row_ok t s) →
  ∃ t', fill_mask graph node_cost n m t = Some t' ∧ shaped t' ∧ row_ok t' m
        ∧ ∀ m', m' ≠ m → same_row t t' m'.
Proof.
  intros Hsh Hm Hp [Bd Bp] Hrows. unfold fill_mask. rewrite Hp.
  assert (m - 1 < m)%N as Hpred by (destruct Hm; lia).
  pose proof (land_le_l (m - 1) m) as Hle.
  destruct (split_rows_splitting t m Hm Hrows (S (N.to_nat m)) (N.land (m - 1) m)
    (row (dp t) m, row (parent t) m)) as ([vs ps]&->&I); [lia|apply next_submask|lia| |].
  { rewrite Bd, Bp. split; simpl; rewrite ?length_replicate; try done.
    - intros s v Hs Hs0 Hsm Hlo. pose proof (submask_le _ _ Hs).
      pose proof (next_submask_largest m m s (N.land_diag m) Hs ltac:(lia)). lia.
    - intros v. left. rewrite at_replicate. split; [done|]. intros u [? _]%lookup_replicate. done. }
  simpl. fold (set_row t m vs ps).
  destruct (split_entries t m (vs, ps) Hsh Hm Hp Hrows I) as [He Hbase].
  destruct (close_row_ok (set_row t m vs ps) m ltac:(by apply set_row_shaped) Hm He Hbase) as (t'&Hc&Hsh'&Hok&Hsame).
  exists t'. split_and!; [done..|]. intros m' Hne.
  destruct (row_set_other t m vs ps m' Hne) as [E1 E2]. destruct (Hsame m' Hne) as [E3 E4].
  split; [by rewrite E3|by rewrite E4].
Qed.

(** ** The whole tables *)

Definition below (next m : N) : Prop := (m < next)%N ∨ is_power_of_two m = true.

Lemma fill_masks_filled count next t :
  (N.of_nat next + N.of_nat count = 2 ^ N.of_nat k)%N → next ≠ 0%nat → filled (below (N.of_nat next)) t →
  ∃ t', fill_masks graph node_cost n (N.of_nat <$> seq next count) t = Some t'
        ∧ filled (below (2 ^ N.of_nat k)) t'.
Proof.
  revert next t. induction count as [|count IH]; intros next t Hc Hnz Hf.
  { exists t. split; [done|]. by replace (2 ^ N.of_nat k)%N with (N.of_nat next) by lia. }
  cbn [seq]. rewrite fmap_cons. cbn [fill_masks]. set (m := N.of_nat next) in *.
  assert (in_masks m) as Hm by (unfold in_masks; lia).
  assert (∀ t', filled (below (m + 1)) t' → ∃ t'',
    fill_masks graph node_cost n (N.of_nat <$> seq (S next) count) t' = Some t''
    ∧ filled (below (2 ^ N.of_nat k)) t'') as Hrec.
  { intros t' Hf'. apply IH; [lia|lia|]. by replace (N.of_nat (S next)) with (m + 1)%N by lia. }
  destruct (is_power_of_two m) eqn:Hp.
  - unfold fill_mask. rewrite Hp. simpl. apply Hrec. destruct Hf as [H1 H2 H3]. split; [done|..].
    + intros m' Hm' [Hlt|Hp']; apply H2; try done; [|by right].
      destruct (decide (m' = m)) as [->|]; [by right|left; lia].
    + intros m' Hm' Hn. apply H3; [done|]. intros [?|?]; apply Hn; [left; lia|by right].
  - pose proof Hf as [Hsh Hdone Hblank].
    destruct (fill_mask_ok t m Hsh Hm Hp) as (t'&->&Hsh'&Hok&Hsame).
    { apply Hblank; [done|]. intros [?|?]; [lia|congruence]. }
    { intros s Hs Hs0 Hsm. destruct (proper_in_masks m s Hm Hs Hs0 Hsm) as [Hms _].
      apply Hdone; [done|]. left. pose proof (submask_le _ _ Hs). lia. }
    simpl. apply Hrec. apply (filled_step (below m) _ t t' m); try done.
    + intros m' [Hlt|Hp'] Hsub; [pose proof (submask_le _ _ Hsub); lia|].
      apply is_power_of_two_inv in Hp'.
      destruct (split_rest m m' Hsub) as [Hd Hl]. rewrite Hp' in Hl at 2.
      destruct (power_of_two_indivisible _ _ _ Hd Hl) as [E|E]; [by destruct Hm|].
      apply N.lxor_eq in E. subst m'. rewrite Hp', is_power_of_two_pow in Hp. done.
    + intros m' Hm'. unfold below. destruct (decide (m' = m)) as [->|].
      * split; [by right|]. intros _. left. lia.
      * split; [intros [?|?]; [left; left; lia|by left; right]|intros [[?|?]|?]; [left; lia|by right|done]].
Qed.

(** The tables are always computed, and every row is finished. *)
Lemma solve_tables_ok :
  ∃ t, solve_tables graph node_cost terminals = Some t ∧ shaped t ∧ ∀ m, in_masks m → row_ok t m.
Proof.
  unfold solve_tables. set (t0 := {| dp := _; parent := _ |}).
  assert (filled (seeded 0) t0) as H0.
  { split; [split; simpl; by rewrite length_replicate| |].
    - intros m _ (i&Hi&_). lia.
    - intros m [_ Hm] _. unfold blank, row. simpl.
      rewrite !lookup_replicate_2 by (rewrite mask_count_eq; lia). done. }
  destruct (seed_terminals_filled 0 terminals t0 ltac:(done) H0) as (t1&->&H1). simpl.
  pose proof (N.pow_nonzero 2 (N.of_nat k) ltac:(done)) as Hpos.
  destruct (fill_masks_filled (mask_count terminals - 1) 1 t1) as (t&->&[Hsh Hdone _]).
  - rewrite mask_count_eq. lia.
  - lia.
  - destruct H1 as [Hsh Hdone Hblank]. split; [done|..].
    + intros m Hm [Hlt|Hp]; [destruct Hm; lia|]. apply Hdone; [done|].
      apply is_power_of_two_inv in Hp. exists (N.to_nat (N.log2 m)). rewrite N2Nat.id. split; [|done].
      destruct Hm as [Hnz Hlt]. apply N.log2_lt_pow2 in Hlt; lia.
    + intros m Hm Hn. apply Hblank; [done|]. intros (i&Hi&->). apply Hn. right. apply is_power_of_two_pow.
  - exists t. split_and!; [done..|]. intros m Hm. apply Hdone; [done|]. left. apply Hm.
Qed.

(** ** Entries are least costs *)

Lemma lor_in_masks m1 m2 : in_masks m1 → in_masks m2 → in_masks (N.lor m1 m2).
Proof.
  intros [H1 L1] [H2 L2]. split.
  - intros E%N.lor_eq_0_iff. naive_solver.
  - assert (N.lor m1 m2 ≠ 0%N) as Hnz by (intros E%N.lor_eq_0_iff; naive_solver).
    apply N.log2_lt_pow2; [lia|]. rewrite N.log2_lor.
    apply N.log2_lt_pow2 in L1, L2; lia.
Qed.

Section Solved.
Context (t : Tables) (Ht : ∀ m, in_masks m → row_ok t m).

Lemma finite_of_key m v b :
  in_masks m → b < INF_COMPONENT → 0 ≤ b → cost_key (val t m v) ≤ b * 4294967297 → val t m v ≠ INF.
Proof.
  intros Hm Hb Hb0 Hk E. rewrite E, cost_key_INF in Hk. rewrite INF_COMPONENT_eq in Hb. lia.
Qed.

Lemma entry_key m v : in_masks m → val t m v ≠ INF → 0 ≤ cost_key (val t m v) ≤ limit m * 4294967297.
Proof.
  intros Hm Hv. destruct (eo_small _ _ _ (ro_entries _ _ (Ht m Hm)) v) as [|Hs]; [done|]. costs. lia.
Qed.

(** No tree is cheaper than the entry. *)
Lemma joins_lower m v c :
  joins m v c → in_masks m ∧ (v < n)%nat ∧ val t m v ≠ INF ∧ cost_key (val t m v) ≤ c.
Proof.
  intros Hj. induction Hj as [bit v Hb|m u v c Hj (Hm&Hu&Hf&Hle) Hnb|m1 m2 v c1 c2 Hj1 (Hm1&Hv&F1&L1) Hj2 (Hm2&_&F2&L2) Hd].
  - pose proof (in_masks_pow _ _ Hb) as Hm. pose proof (limit_bounds _ Hm).
    pose proof (eo_seed _ _ _ (ro_entries _ _ (Ht _ Hm)) bit v Hb eq_refl) as Hs.
    pose proof (node_key_small v) as [_ Hn].
    split_and!; [done|exact (Forall_lookup_1 _ _ _ _ (sw_terminals _ _ _ Hwf) Hb)| |done].
    eapply (finite_of_key _ _ 1); [done|rewrite INF_COMPONENT_eq; lia|lia|].
    etrans; [exact Hs|]. unfold small, cost_key in *. lia.
  - pose proof (limit_bounds _ Hm). pose proof (ro_edge _ _ (Ht m Hm) u v Hf Hnb) as He.
    pose proof (entry_key m u Hm Hf). pose proof (node_key_small v) as [_ Hn].
    split_and!; [done|by eapply wf_range; [apply Hwf|]| |lia].
    apply (finite_of_key _ _ (limit m + 2)); [done|lia|lia|].
    assert (node_key v ≤ 4294967297) by (unfold small, cost_key in *; lia). lia.
  - pose proof (lor_in_masks _ _ Hm1 Hm2) as Hm. pose proof (limit_bounds _ Hm).
    pose proof (limit_meet _ _ Hd) as Hlim.
    pose proof (eo_meet _ _ _ (ro_entries _ _ (Ht _ Hm)) m1 m2 v (proj1 Hm1) (proj1 Hm2) Hd eq_refl Hv F1 F2) as He.
    pose proof (entry_key m1 v Hm1 F1). pose proof (entry_key m2 v Hm2 F2).
    pose proof (node_key_small v) as [? _].
    split_and!; [done|done| |lia]. apply (finite_of_key _ _ (limit m1 + limit m2)); [done|lia|lia|lia].
Qed.

(** The steps of an entry lead to smaller masks or costs. *)
Lemma entry_induction (P : N → nat → Prop) :
  (∀ m v, in_masks m → (v < n)%nat → val t m v ≠ INF → step_of t m v →
     (∀ u, v ∈ neighbors graph u → val t m u ≠ INF → cost_key (val t m u) < cost_key (val t m v) → P m u) →
     (∀ s, submask_of s m → s ≠ 0%N → s ≠ m → val t s v ≠ INF → P s v) → P m v) →
  ∀ m v, in_masks m → val t m v ≠ INF → P m v.
Proof.
  intros Hstep m. induction (N.lt_wf_0 m) as [m _ IHm]. intros v Hm.
  remember (Z.to_nat (cost_key (val t m v))) as x eqn:Hx. revert v Hx.
  induction (lt_wf x) as [x _ IHx]. intros v -> Hv.
  apply Hstep; [done| |done|by apply (ro_entries _ _ (Ht m Hm))|..].
  - destruct (decide (v < n)%nat); [done|]. destruct Hv. unfold at_. rewrite lookup_ge_None_2; [done|].
    rewrite (eo_values _ _ _ (ro_entries _ _ (Ht m Hm))). lia.
  - intros u _ Hu Hlt. eapply IHx; [|done|done]. pose proof (entry_key m u Hm Hu). lia.
  - intros s Hs Hs0 Hsm Hvs. destruct (proper_in_masks m s Hm Hs Hs0 Hsm) as [Hms _].
    apply IHm; [|done|done]. pose proof (submask_le _ _ Hs). lia.
Qed.

(** The entry is the cost of a tree. *)
Lemma joins_exact m v : in_masks m → val t m v ≠ INF → joins m v (cost_key (val t m v)).
Proof.
  revert m v. apply (entry_induction (λ m v, joins m v (cost_key (val t m v)))).
  intros m v Hm Hv Hf Hstep Hmove Hsplit.
  pose proof (node_key_small v) as [? _].
  destruct Hstep as [bit Hb -> _ ->|u Hu Hnb _ Hfu Hk|s Hs Hs0 Hsm _ F1 F2 ->].
  - by constructor.
  - rewrite Hk. apply (joins_move _ u); [|done]. apply Hmove; [done..|lia].
  - destruct (split_rest s m Hs) as [Hd Hl]. rewrite <- Hl at 1. apply joins_meet; [by apply Hsplit| |done].
    destruct (proper_in_masks m s Hm Hs Hs0 Hsm) as [_ [? _]].
    apply Hsplit; [by apply rest_submask|done| |done]. pose proof (rest_lt _ _ Hs Hs0). lia.
Qed.
End Solved.
End Tables.
