(* ===== verification/RelayTreeFacts.v ===== *)
(** * Trees of relays

    Trees as sets of vertices and edges: every connected set of vertices has one, a
    breadth-first walk builds one, and cutting leaves keeps one.  These are the facts
    behind [deterministic_spanning_tree] and [prune_nonterminal_leaves] of
    [crates/replicant-route-planner/src/lib.rs]. *)

From S2P Require Import Prelude Float64 RelayGraph RelaySolver.
Import Relay Steiner.

(** ** Sums over vertices *)

Definition weight (f : nat → Z) (V : gset nat) : Z := foldr Z.add 0 (f <$> elements V).

Lemma weight_perm f l V : NoDup l → list_to_set l = V → weight f V = foldr Z.add 0 (f <$> l).
Proof.
  intros Hnd <-. unfold weight. apply sum_list_perm, Permutation_map.
  by rewrite elements_list_to_set.
Qed.

Lemma weight_empty f : weight f ∅ = 0.
Proof. done. Qed.

Lemma weight_insert f v V : v ∉ V → weight f ({[v]} ∪ V) = f v + weight f V.
Proof.
  intros Hv. rewrite (weight_perm f (v :: elements V)); [done| |].
  - constructor; [by rewrite elem_of_elements|apply NoDup_elements].
  - rewrite list_to_set_cons, list_to_set_elements_L. done.
Qed.

Lemma weight_ext f g V : (∀ v, v ∈ V → f v = g v) → weight f V = weight g V.
Proof.
  intros H. unfold weight. f_equal. apply list_fmap_ext. intros i v Hv.
  apply H, elem_of_elements, list_elem_of_lookup. eauto.
Qed.

Lemma weight_split f v V : v ∈ V → weight f V = f v + weight f (V ∖ {[v]}).
Proof.
  intros Hv. rewrite <- weight_insert by set_solver. f_equal.
  rewrite <- union_difference_singleton_L; done.
Qed.

Lemma weight_mono f U V : (∀ v, 0 ≤ f v) → U ⊆ V → weight f U ≤ weight f V.
Proof.
  intros Hf. revert V. induction U as [|u U Hu IH] using set_ind_L; intros V Hsub.
  - rewrite weight_empty. induction V as [|v V Hv IHV] using set_ind_L; [done|].
    rewrite weight_insert by done. specialize (Hf v). specialize (IHV ltac:(set_solver)). lia.
  - rewrite weight_insert by done. rewrite (weight_split f u V) by set_solver.
    specialize (IH (V ∖ {[u]}) ltac:(set_solver)). lia.
Qed.

(** Two sets that share a vertex. *)
Lemma weight_union f v U V :
  (∀ v, 0 ≤ f v) → v ∈ U → v ∈ V → weight f (U ∪ V) ≤ weight f U + weight f V - f v.
Proof.
  intros Hf HU HV. revert HU. 
  assert (∀ U V, weight f (U ∪ V) ≤ weight f U + weight f V) as Hunion.
  { clear U V HV. intros U V. induction U as [|u U Hu IH] using set_ind_L.
    - rewrite weight_empty. replace (∅ ∪ V) with V by set_solver. lia.
    - rewrite weight_insert by done. destruct (decide (u ∈ V)).
      + replace ({[u]} ∪ U ∪ V) with (U ∪ V) by set_solver. specialize (Hf u). lia.
      + replace ({[u]} ∪ U ∪ V) with ({[u]} ∪ (U ∪ V)) by set_solver.
        rewrite weight_insert by set_solver. lia. }
  intros HU. rewrite (weight_split f v V HV).
  replace (U ∪ V) with (U ∪ V ∖ {[v]}).
  - specialize (Hunion U (V ∖ {[v]})). lia.
  - apply set_eq. intros x. destruct (decide (x = v)); set_solver.
Qed.

Lemma weight_size V : weight (λ _, 1) V = Z.of_nat (size V).
Proof.
  induction V as [|v V Hv IH] using set_ind_L; [done|].
  rewrite weight_insert, size_union, size_singleton by set_solver. lia.
Qed.

(** ** Trees *)

Lemma ordered_edge_comm u v : ordered_edge u v = ordered_edge v u.
Proof. unfold ordered_edge. repeat case_decide; try done; try lia. f_equal; lia. Qed.
Lemma ordered_edge_ends u v x y :
  ordered_edge u v = (x, y) → (x = u ∧ y = v) ∨ (x = v ∧ y = u).
Proof. unfold ordered_edge. case_decide; naive_solver. Qed.
Lemma ordered_edge_inj u v w : ordered_edge u w = ordered_edge v w → u = v.
Proof. unfold ordered_edge. repeat case_decide; intros; simplify_eq; done || lia. Qed.

(** A tree with root [r]: a vertex is added with the edge to one that is there. *)
Inductive tree (r : nat) : gset nat → gset (nat * nat) → Prop :=
| tree_root : tree r {[r]} ∅
| tree_grow V E u w :
    tree r V E → u ∈ V → w ∉ V → tree r ({[w]} ∪ V) ({[ordered_edge u w]} ∪ E).

Section Trees.
Context (r : nat).

Lemma tree_has_root V E : tree r V E → r ∈ V.
Proof. induction 1; set_solver. Qed.

Lemma tree_endpoints V E e : tree r V E → e ∈ E → e.1 ∈ V ∧ e.2 ∈ V.
Proof.
  induction 1 as [|V E u w HT IH Hu Hw]; [set_solver|]. intros [->%elem_of_singleton|He]%elem_of_union.
  - destruct (ordered_edge u w) as [x y] eqn:Ee. apply ordered_edge_ends in Ee. simpl. set_solver.
  - specialize (IH He). set_solver.
Qed.

Lemma tree_edge_fresh V E u w : tree r V E → w ∉ V → ordered_edge u w ∉ E.
Proof.
  intros HT Hw He. pose proof (tree_endpoints _ _ _ HT He) as [H1 H2].
  destruct (ordered_edge u w) as [x y] eqn:Ee. apply ordered_edge_ends in Ee. simpl in *.
  destruct Ee as [[-> ->]|[-> ->]]; done.
Qed.

Lemma tree_size V E : tree r V E → size V = S (size E).
Proof.
  induction 1 as [|V E u w HT IH Hu Hw]; [by rewrite size_singleton|].
  rewrite size_union, size_singleton by set_solver.
  rewrite size_union, size_singleton; [lia|]. pose proof (tree_edge_fresh V E u w HT Hw). set_solver.
Qed.

Lemma tree_vertices V E v : tree r V E → v ∈ V → v = r ∨ ∃ e, e ∈ E ∧ (e.1 = v ∨ e.2 = v).
Proof.
  intros HT. revert v. induction HT as [|V E u w HT IH Hu Hw]; intros v; [set_solver|].
  intros [->%elem_of_singleton|Hv]%elem_of_union.
  - right. exists (ordered_edge u w). split; [set_solver|].
    destruct (ordered_edge u w) as [x y] eqn:Ee. apply ordered_edge_ends in Ee. simpl. naive_solver.
  - destruct (IH v Hv) as [|(e&He&?)]; [auto|]. right. exists e. set_solver.
Qed.

(** Two vertices share an edge. *)
Definition linked (E : gset (nat * nat)) (u v : nat) : Prop := ordered_edge u v ∈ E.

Lemma linked_mono E E' u v : E ⊆ E' → linked E u v → linked E' u v.
Proof. unfold linked. set_solver. Qed.

Lemma tree_connected V E v : tree r V E → v ∈ V → rtc (linked E) r v.
Proof.
  intros HT. revert v. induction HT as [|V E u w HT IH Hu Hw]; intros v Hv.
  - apply elem_of_singleton in Hv as ->. apply rtc_refl.
  - apply elem_of_union in Hv as [->%elem_of_singleton|Hv].
    + apply rtc_r with u; [|unfold linked; set_solver]. eapply rtc_subrel; [|by apply IH].
      intros x y. apply linked_mono. set_solver.
    + eapply rtc_subrel; [|by apply IH]. intros x y. apply linked_mono. set_solver.
Qed.

(** Any relation that connects a set spans it. *)
Lemma spanning_tree (R : nat → nat → Prop) (X : gset nat) :
  r ∈ X → (∀ x, x ∈ X → rtc (λ u v, R u v ∧ v ∈ X) r x) →
  ∃ E, tree r X E ∧ ∀ e, e ∈ E → ∃ u v, e = ordered_edge u v ∧ R u v.
Proof.
  intros Hr Hconn.
  assert (∀ V E, tree r V E → V ⊆ X → (∀ e, e ∈ E → ∃ u v, e = ordered_edge u v ∧ R u v) →
    ∃ E, tree r X E ∧ ∀ e, e ∈ E → ∃ u v, e = ordered_edge u v ∧ R u v) as Hgrow.
  { intros V. remember (size (X ∖ V)) as x eqn:Hx. revert V Hx.
    induction (lt_wf x) as [x _ IH]. intros V -> E HT HV HE.
    destruct (decide (X ⊆ V)) as [Hsub|Hsub].
    { exists E. assert (V = X) as -> by set_solver. done. }
    assert (∃ u w, u ∈ V ∧ w ∈ X ∧ (w ∉ V) ∧ R u w) as (u&w&Hu&Hw&HwV&HR).
    { assert (∃ x, x ∈ X ∖ V) as (x&Hx).
      { destruct (set_choose_or_empty (X ∖ V)) as [|Hemp]; [done|].
        destruct Hsub. intros y Hy. destruct (decide (y ∈ V)); [done|]. set_solver. }
      apply elem_of_difference in Hx as [HxX HxV]. specialize (Hconn x HxX).
      pose proof (tree_has_root _ _ HT) as HrV. revert Hconn HrV. generalize r as y. intros y Hconn.
      induction Hconn as [y|y z x [HR Hz] Hrtc IHc]; intros HyV; [done|].
      destruct (decide (z ∈ V)); [by apply IHc|]. exists y, z. done. }
    eapply (IH (size (X ∖ ({[w]} ∪ V)))); [|done|by apply (tree_grow _ V E u w)|set_solver|set_solver].
    apply subset_size. set_solver. }
  apply (Hgrow {[r]} ∅); [constructor|set_solver|set_solver].
Qed.

(** ** Cutting leaves *)

(** The edges that touch no vertex of [R]. *)
Definition away (R : gset nat) (E : gset (nat * nat)) : gset (nat * nat) :=
  filter (λ e : nat * nat, (e.1 ∉ R) ∧ (e.2 ∉ R)) E.

Lemma degree_mono E E' v : E ⊆ E' → (degree E v ≤ degree E' v)%nat.
Proof. intros H. unfold degree. apply Nat.add_le_mono; apply subseteq_size; set_solver. Qed.

Lemma degree_insert E u w v :
  ordered_edge u w ∉ E → v = u ∨ v = w → (S (degree E v) ≤ degree ({[ordered_edge u w]} ∪ E) v)%nat.
Proof.
  intros He Hv. unfold degree. rewrite !filter_union_L by apply _.
  assert (∀ (P : nat * nat → Prop) `{!∀ e, Decision (P e)},
    (size (filter P E) ≤ size (filter P ({[ordered_edge u w]} : gset (nat * nat)) ∪ filter P E))%nat
    ∧ (P (ordered_edge u w) →
       (S (size (filter P E)) ≤ size (filter P ({[ordered_edge u w]} : gset (nat * nat)) ∪ filter P E))%nat)) as Hsz.
  { intros P HP. split; [apply subseteq_size; set_solver|]. intros HPe.
    rewrite filter_singleton_True_L by (done || apply _).
    rewrite size_union, size_singleton; [lia|]. set_solver. }
  destruct (ordered_edge u w) as [x y] eqn:Ee. apply ordered_edge_ends in Ee.
  destruct (Hsz (λ e, e.1 = v) _) as [A1 A2], (Hsz (λ e, e.2 = v) _) as [B1 B2]. simpl in *.
  assert (x = v ∨ y = v) as [Hx|Hy] by (destruct Ee as [[-> ->]|[-> ->]], Hv as [->| ->]; auto).
  - specialize (A2 Hx). lia.
  - specialize (B2 Hy). lia.
Qed.

(** A vertex other than the root has an edge. *)
Lemma tree_degree V E v : tree r V E → v ∈ V → v ≠ r → (1 ≤ degree E v)%nat.
Proof.
  intros HT. revert v. induction HT as [|V E u w HT IH Hu Hw]; intros v Hv Hr; [set_solver|].
  apply elem_of_union in Hv as [->%elem_of_singleton|Hv].
  - pose proof (degree_insert E u w w (tree_edge_fresh _ _ u w HT Hw) ltac:(auto)). lia.
  - specialize (IH v Hv Hr). pose proof (degree_mono E ({[ordered_edge u w]} ∪ E) v ltac:(set_solver)). lia.
Qed.

Lemma tree_cut V E R :
  tree r V E → (∀ v, v ∈ R → v ≠ r ∧ (degree E v ≤ 1)%nat) → tree r (V ∖ R) (away R E).
Proof.
  intros HT. revert R. induction HT as [|V E u w HT IH Hu Hw]; intros R HR.
  - replace ({[r]} ∖ R) with ({[r]} : gset nat); [|set_solver].
    replace (away R ∅) with (∅ : gset (nat * nat)); [constructor|]. unfold away. by rewrite filter_empty_L by apply _.
  - assert (tree r (V ∖ R) (away R E)) as HT'.
    { apply IH. intros v Hv. destruct (HR v Hv) as [Hr Hd]. split; [done|].
      pose proof (degree_mono E ({[ordered_edge u w]} ∪ E) v ltac:(set_solver)). lia. }
    assert (u ∉ R) as HuR.
    { intros Hin. destruct (HR u Hin) as [Hr Hd].
      pose proof (tree_degree _ _ _ HT Hu Hr).
      pose proof (degree_insert E u w u (tree_edge_fresh _ _ u w HT Hw) ltac:(auto)). lia. }
    unfold away. rewrite filter_union_L by apply _. destruct (decide (w ∈ R)) as [HwR|HwR].
    + replace (({[w]} ∪ V) ∖ R) with (V ∖ R) by set_solver.
      rewrite filter_singleton_False_L; [by replace (∅ ∪ _) with (away R E) by set_solver|apply _|].
      destruct (ordered_edge u w) as [x y] eqn:Ee. apply ordered_edge_ends in Ee. simpl. naive_solver.
    + replace (({[w]} ∪ V) ∖ R) with ({[w]} ∪ V ∖ R) by set_solver.
      rewrite filter_singleton_True_L; [apply tree_grow; [done|set_solver|set_solver]|apply _|].
      destruct (ordered_edge u w) as [x y] eqn:Ee. apply ordered_edge_ends in Ee. simpl. naive_solver.
Qed.

Lemma elem_of_endpoints E v : v ∈ endpoints E ↔ ∃ e, e ∈ E ∧ (e.1 = v ∨ e.2 = v).
Proof. unfold endpoints. set_solver. Qed.

Lemma removable_cuts terminals E e v :
  v ∈ removable terminals E → e ∈ E → e.1 = v ∨ e.2 = v → (size (away (removable terminals E) E) < size E)%nat.
Proof.
  intros Hv He Hev. apply subset_size. split; [unfold away; set_solver|].
  intros Hsub. specialize (Hsub _ He). unfold away in Hsub. apply elem_of_filter in Hsub as [[? ?] _].
  destruct Hev as [<-|<-]; done.
Qed.

(** Pruning ends, keeps a tree with its root and terminals, and leaves no other leaf. *)
Lemma prune_leaves_tree fuel terminals V E :
  tree r V E → r ∈ terminals → terminals ⊆ V → (size E < fuel)%nat →
  ∃ V' E', prune_leaves fuel terminals E = Some E' ∧ tree r V' E' ∧ terminals ⊆ V' ∧ V' ⊆ V ∧ E' ⊆ E
           ∧ ∀ v, v ∈ endpoints E' → v ∉ terminals → (1 < degree E' v)%nat.
Proof.
  revert V E. induction fuel as [|fuel IH]; intros V E HT Hr Hterm Hf; [lia|]. simpl.
  case_decide as Hemp.
  - exists V, E. split_and!; try done. intros v Hv Hvt.
    destruct (decide (degree E v ≤ 1)%nat) as [Hd|]; [|lia].
    assert (v ∈ removable terminals E) as Hin; [|rewrite Hemp in Hin; set_solver].
    unfold removable. apply elem_of_filter. done.
  - apply set_choose_L in Hemp as [v Hv].
    assert (∃ e, e ∈ E ∧ (e.1 = v ∨ e.2 = v)) as (e&He&Hev).
    { unfold removable in Hv. apply elem_of_filter in Hv as [_ Hv]. by apply elem_of_endpoints. }
    pose proof (removable_cuts _ _ _ _ Hv He Hev) as Hsz.
    destruct (IH (V ∖ removable terminals E) (away (removable terminals E) E)) as (V'&E'&Hp&HT'&Ht&HV&HE&Hleaf).
    + apply tree_cut; [done|]. intros w [[Hw Hd] _]%elem_of_filter. split; [|done]. by intros ->.
    + done.
    + intros x Hx. apply elem_of_difference. split; [auto|]. intros [[? _] _]%elem_of_filter. done.
    + lia.
    + exists V', E'. split_and!; [done..| | |done].
      * set_solver.
      * unfold away in HE. set_solver.
Qed.

(** ** The breadth-first walk *)

Definition ordered (E : gset (nat * nat)) : Prop := ∀ e, e ∈ E → (e.1 ≤ e.2)%nat.

Lemma ordered_edge_ordered u v : ((ordered_edge u v).1 ≤ (ordered_edge u v).2)%nat.
Proof. unfold ordered_edge. case_decide; simpl; lia. Qed.

Lemma ordered_edge_le u v : (u ≤ v)%nat → ordered_edge u v = (u, v).
Proof. intros. unfold ordered_edge. case_decide; [done|]. f_equal; lia. Qed.

Lemma elem_of_incident E v w : ordered E → w ∈ incident E v ↔ linked E v w.
Proof.
  intros HE. unfold incident, linked. rewrite elem_of_sort_by, elem_of_elements, elem_of_map. split.
  - intros ([x y]&->&[Hxy He]%elem_of_filter). specialize (HE _ He). simpl in *.
    case_decide; subst; [by rewrite ordered_edge_le|]. destruct Hxy as [|<-]; [done|].
    by rewrite ordered_edge_comm, ordered_edge_le.
  - intros He. exists (ordered_edge v w). destruct (ordered_edge v w) as [x y] eqn:Ee.
    apply ordered_edge_ends in Ee. rewrite elem_of_filter. simpl.
    destruct Ee as [[-> ->]|[-> ->]]; (case_decide; [|done]) || case_decide; subst; naive_solver.
Qed.

(** The walk while the neighbours [rest] of [x] are still to be looked at. *)
Record walking (edges : gset (nat * nat)) (x : nat) (rest : list nat) (w : Walk) : Prop := {
  wg_tree : tree r (wk_seen w) (wk_tree w);
  wg_edges : wk_tree w ⊆ edges;
  wg_queue v : v ∈ wk_queue w → v ∈ wk_seen w;
  wg_expanded v u : v ∈ wk_seen w → v ∉ wk_queue w → linked edges v u → v ≠ x ∨ u ∉ rest →
    u ∈ wk_seen w;
}.

Definition unseen (edges : gset (nat * nat)) (w : Walk) : nat :=
  size (({[r]} ∪ endpoints edges) ∖ wk_seen w).

Lemma discover_walking edges x u rest w :
  ordered edges → x ∈ wk_seen w → linked edges x u → walking edges x (u :: rest) w →
  walking edges x rest (discover x w u) ∧ x ∈ wk_seen (discover x w u)
  ∧ (length (wk_queue (discover x w u)) + unseen edges (discover x w u)
     ≤ length (wk_queue w) + unseen edges w)%nat.
Proof.
  intros Hord Hx Hu [H1 H2 H3 H4]. unfold discover. case_decide as Hseen.
  - split_and!; [|done|done]. split; try done. intros v y Hv Hq Hl Hor.
    destruct (decide (v = x ∧ y = u)) as [[-> ->]|]; [done|]. apply (H4 v); try done.
    destruct Hor; [auto|]. destruct (decide (v = x)); [|auto]. right. set_solver.
  - split_and!; simpl.
    + split; simpl.
      * by apply tree_grow.
      * unfold linked in Hu. set_solver.
      * intros v [?| ->%list_elem_of_singleton]%elem_of_app; set_solver.
      * intros v y Hv Hq Hl Hor. rewrite not_elem_of_app in Hq. destruct Hq as [Hq1 Hq2].
        apply elem_of_union in Hv as [->%elem_of_singleton|Hv]; [set_solver|].
        destruct (decide (y = u)) as [->|Hne]; [set_solver|].
        apply elem_of_union_r. apply (H4 v); try done. destruct Hor; [auto|]. right. set_solver.
    + set_solver.
    + rewrite length_app. simpl. unfold unseen. simpl.
      assert (u ∈ ({[r]} ∪ endpoints edges) ∖ wk_seen w) as Hin.
      { apply elem_of_difference. split; [|done]. apply elem_of_union_r, elem_of_endpoints.
        exists (ordered_edge x u). split; [done|].
        destruct (ordered_edge x u) as [a b] eqn:Ee. apply ordered_edge_ends in Ee. simpl. naive_solver. }
      assert (size (({[r]} ∪ endpoints edges) ∖ ({[u]} ∪ wk_seen w))
              < size (({[r]} ∪ endpoints edges) ∖ wk_seen w))%nat; [|lia].
      apply subset_size. split; [set_solver|]. intros Hsub. specialize (Hsub u Hin). set_solver.
Qed.

Lemma discover_all_walking edges x rest w :
  ordered edges → x ∈ wk_seen w → (∀ u, u ∈ rest → linked edges x u) → walking edges x rest w →
  let w' := foldl (discover x) w rest in
  walking edges x [] w' ∧ (length (wk_queue w') + unseen edges w' ≤ length (wk_queue w) + unseen edges w)%nat.
Proof.
  intros Hord. revert w. induction rest as [|u rest IH]; intros w Hx Hl Hw; simpl; [done|].
  destruct (discover_walking edges x u rest w) as (Hw'&Hx'&Hle); [done|done|apply Hl; constructor|done|].
  destruct (IH (discover x w u)) as [? ?]; [done|intros; apply Hl; by constructor|done|]. split; [done|lia].
Qed.

Lemma walk_tree_done fuel edges y w :
  ordered edges → walking edges y [] w → (length (wk_queue w) + unseen edges w < fuel)%nat →
  ∃ w' y', walk_tree fuel edges w = Some w' ∧ walking edges y' [] w' ∧ wk_queue w' = [].
Proof.
  intros Hord. revert y w. induction fuel as [|fuel IH]; intros y w Hw Hf; [lia|]. simpl.
  destruct (wk_queue w) as [|x queue] eqn:Hq; [eauto|].
  destruct Hw as [H1 H2 H3 H4]. rewrite Hq in H3, H4. simpl in Hf.
  destruct (discover_all_walking edges x (incident edges x)
    {| wk_tree := wk_tree w; wk_seen := wk_seen w; wk_queue := queue |}) as [Hw' Hle]; simpl.
  - done.
  - apply H3. constructor.
  - intros u. by apply elem_of_incident.
  - split; simpl; [done|done|set_solver|]. intros v u Hv Hvq Hl Hor.
    destruct (decide (v = x)) as [->|Hne].
    + destruct Hor as [|Hn]; [done|]. destruct Hn. by apply elem_of_incident.
    + apply (H4 v); [done|set_solver|done|right; apply not_elem_of_nil].
  - eapply IH; [exact Hw'|]. unfold unseen in *. simpl in *. lia.
Qed.

Lemma size_endpoints E : (size (endpoints E) ≤ 2 * size E)%nat.
Proof.
  assert (∀ U V : gset nat, size (U ∪ V) ≤ size U + size V)%nat as Hun.
  { intros U V. rewrite size_union_alt. pose proof (subseteq_size (V ∖ U) V ltac:(set_solver)). lia. }
  assert (∀ f : nat * nat → nat, size (set_map (D := gset nat) f E) ≤ size E)%nat as Hmap.
  { intros f. induction E as [|e E He IH] using set_ind_L.
    - by rewrite set_map_empty_L || rewrite set_map_empty.
    - rewrite set_map_union_L, set_map_singleton_L, (size_union {[e]}) by set_solver.
      etrans; [apply Hun|]. rewrite !size_singleton. lia. }
  unfold endpoints. etrans; [apply Hun|]. pose proof (Hmap fst). pose proof (Hmap snd). lia.
Qed.

(** The walk always ends, with a tree of edges it was given that reaches every vertex the
    edges connect to the start. *)
Lemma deterministic_spanning_tree_ok edges :
  ordered edges →
  ∃ V E, deterministic_spanning_tree r edges = Some E ∧ tree r V E ∧ E ⊆ edges
         ∧ ∀ v, rtc (linked edges) r v → v ∈ V.
Proof.
  intros Hord. unfold deterministic_spanning_tree.
  destruct (walk_tree_done (S (S (2 * size edges))) edges r
    {| wk_tree := ∅; wk_seen := {[r]}; wk_queue := [r] |} Hord) as (w&y&->&[H1 H2 H3 H4]&Hq).
  - split; simpl; [constructor|set_solver|set_solver|set_solver].
  - unfold unseen. simpl. pose proof (size_endpoints edges).
    pose proof (subseteq_size (({[r]} ∪ endpoints edges) ∖ {[r]}) (endpoints edges) ltac:(set_solver)). lia.
  - exists (wk_seen w), (wk_tree w). split_and!; [done..|].
    intros v Hrtc. pose proof (tree_has_root _ _ H1) as Hr. clear H1 H3. revert Hr.
    induction Hrtc as [x|x u v Hl Hrtc IH]; [done|]. intros Hx. apply IH.
    apply (H4 x); [done| |done|right; apply not_elem_of_nil]. rewrite Hq. apply not_elem_of_nil.
Qed.

(** ** Paths through a vertex *)

Lemma degree_union E1 E2 v : (degree (E1 ∪ E2) v ≤ degree E1 v + degree E2 v)%nat.
Proof.
  assert (∀ U V : gset (nat * nat), size (U ∪ V) ≤ size U + size V)%nat as Hun.
  { intros U V. rewrite size_union_alt. pose proof (subseteq_size (V ∖ U) V ltac:(set_solver)). lia. }
  unfold degree. rewrite !filter_union_L by apply _.
  pose proof (Hun (filter (λ e, e.1 = v) E1) (filter (λ e, e.1 = v) E2)).
  pose proof (Hun (filter (λ e, e.2 = v) E1) (filter (λ e, e.2 = v) E2)). lia.
Qed.

Lemma degree_outside V E v : tree r V E → v ∉ V → degree E v = 0%nat.
Proof.
  intros HT Hv. unfold degree.
  assert (∀ P : nat * nat → Prop, ∀ HP : (∀ e, Decision (P e)), (∀ e, P e → e.1 = v ∨ e.2 = v) →
    size (filter P E) = 0%nat) as Hz.
  { intros P HP Hsub. apply size_empty_iff, elem_of_equiv_empty. intros e [He Hin]%elem_of_filter.
    pose proof (tree_endpoints _ _ _ HT Hin) as [? ?]. destruct (Hsub e He) as [<-|<-]; done. }
  rewrite !Hz; auto.
Qed.

Lemma degree_edge u w v : u ≠ w → (degree {[ordered_edge u w]} v ≤ if decide (v = u ∨ v = w) then 1 else 0)%nat.
Proof.
  intros Hne. unfold degree.
  assert (∀ P : nat * nat → Prop, ∀ HP : (∀ e, Decision (P e)),
    size (filter P ({[ordered_edge u w]} : gset (nat * nat))) = if decide (P (ordered_edge u w)) then 1%nat else 0%nat) as Hs.
  { intros P HP. case_decide.
    - by rewrite filter_singleton_True_L, size_singleton by (done || apply _).
    - by rewrite filter_singleton_False_L by (done || apply _). }
  rewrite !Hs. destruct (ordered_edge u w) as [x y] eqn:Ee. apply ordered_edge_ends in Ee. simpl.
  destruct Ee as [[-> ->]|[-> ->]]; repeat case_decide; subst; try lia; naive_solver.
Qed.

(** A tree falls apart at a vertex into what is above it and what hangs below it. *)
Lemma tree_split V E v :
  tree r V E → v ∈ V → ∃ V1 E1 V2 E2,
    tree r V1 E1 ∧ tree v V2 E2 ∧ V = V1 ∪ V2 ∧ V1 ∩ V2 = {[v]} ∧ E = E1 ∪ E2 ∧ (degree E1 v ≤ 1)%nat.
Proof.
  intros HT. revert v. induction HT as [|V E u w HT IH Hu Hw]; intros v Hv.
  - apply elem_of_singleton in Hv as ->. exists {[r]}, ∅, {[r]}, ∅.
    split_and!; [constructor|constructor|set_solver|set_solver|set_solver|].
    unfold degree. rewrite !filter_empty_L, size_empty by apply _. lia.
  - assert (u ≠ w) as Huw by (by intros ->).
    apply elem_of_union in Hv as [->%elem_of_singleton|Hv].
    + exists ({[w]} ∪ V), ({[ordered_edge u w]} ∪ E), {[w]}, ∅.
      split_and!; [by constructor|constructor|set_solver|set_solver|set_solver|].
      pose proof (degree_union {[ordered_edge u w]} E w) as Hd. rewrite (degree_outside V E w HT Hw) in Hd.
      pose proof (degree_edge u w w Huw) as He. rewrite decide_True in He by auto. lia.
    + destruct (IH v Hv) as (V1&E1&V2&E2&HT1&HT2&HV&Hint&HE&Hd).
      assert (v ≠ w) as Hvw by (by intros ->).
      destruct (decide (u ∈ V2)) as [Hu2|Hu2].
      * exists V1, E1, ({[w]} ∪ V2), ({[ordered_edge u w]} ∪ E2).
        split_and!; [done|apply tree_grow; [done|done|set_solver]|set_solver|set_solver|set_solver|done].
      * exists ({[w]} ∪ V1), ({[ordered_edge u w]} ∪ E1), V2, E2.
        split_and!; [apply tree_grow; [done|set_solver|set_solver]|done|set_solver|set_solver|set_solver|].
        assert (v ∈ V2) as Hv2 by set_solver. assert (v ≠ u) as Hvu by (by intros ->).
        pose proof (degree_union {[ordered_edge u w]} E1 v). pose proof (degree_edge u w v Huw) as He.
        rewrite decide_False in He by naive_solver. lia.
Qed.

(** A tree with an edge has a leaf other than its root. *)
Lemma tree_leaf V E : tree r V E → E ≠ ∅ → ∃ w, w ∈ V ∧ w ≠ r ∧ (degree E w ≤ 1)%nat.
Proof.
  destruct 1 as [|V E u w HT Hu Hw]; [done|]. intros _. exists w.
  assert (u ≠ w) as Huw by (by intros ->).
  split_and!; [set_solver|intros ->; by apply Hw, (tree_has_root V E)|].
  pose proof (degree_union {[ordered_edge u w]} E w) as Hd. rewrite (degree_outside V E w HT Hw) in Hd.
  pose proof (degree_edge u w w Huw) as He. rewrite decide_True in He by auto. lia.
Qed.
End Trees.

(** Any vertex of a tree can be its root. *)
Lemma tree_reroot r V E v : tree r V E → ordered E → v ∈ V → ∃ E', tree v V E' ∧ E' ⊆ E.
Proof.
  intros HT HE Hv.
  assert (∀ a b, linked E a b → a ∈ V ∧ b ∈ V) as Hends.
  { intros a b Hl. pose proof (tree_endpoints _ _ _ _ HT Hl) as [H1 H2].
    destruct (ordered_edge a b) as [x y] eqn:Ee. apply ordered_edge_ends in Ee. simpl in *.
    destruct Ee as [[-> ->]|[-> ->]]; done. }
  assert (∀ a b, rtc (linked E) a b → rtc (linked E) b a) as Hsym.
  { intros a b Hr. induction Hr as [|a b c Hab _ IH]; [done|]. eapply rtc_r; [exact IH|].
    unfold linked. by rewrite ordered_edge_comm. }
  destruct (spanning_tree v (linked E) V Hv) as (E'&HT'&HE').
  - intros x Hx. eapply rtc_subrel with (R1 := linked E).
    + intros a b Hl. split; [done|]. by apply (Hends a b).
    + etrans; [apply Hsym; by eapply tree_connected|by eapply tree_connected].
  - exists E'. split; [done|]. intros e He. destruct (HE' e He) as (a&b&->&Hl). done.
Qed.
