(* ===== verification/RelaySolutionFacts.v ===== *)
(** * The exact relay search is optimal

    [exact_tree], the search of [plan_relay_network_within]
    ([crates/replicant-route-planner/src/lib.rs]), against the definition of the problem: a
    network is a connected set of systems with every terminal in it, and the search finds
    one with the fewest new relays and, among those, the fewest hops. *)

From S2P Require Import Prelude Float64 RelayGraph RelaySolver RelayClosureFacts.
From S2P Require Import RelayTableFacts RelayTreeFacts.
Import Relay Steiner.

(** ** Networks *)

Section Networks.
Context (graph : StarGraph) (terminals : list nat) (Hgraph : graph_wf graph).
Abbreviation n := (length (stars graph)).

Definition in_graph (E : gset (nat * nat)) : Prop :=
  ∀ e, e ∈ E → ∃ u v, e = ordered_edge u v ∧ v ∈ neighbors graph u.

(** A connected set of systems around the start with every terminal. *)
Record network (start : nat) (X : gset nat) : Prop := {
  nw_start : start ∈ X;
  nw_terminals v : v ∈ terminals → v ∈ X;
  nw_connected x : x ∈ X → rtc (λ u v, v ∈ neighbors graph u ∧ v ∈ X) start x;
}.

Lemma network_in_range start X x : (start < n)%nat → network start X → x ∈ X → (x < n)%nat.
Proof.
  intros Hs [_ _ Hc] Hx. specialize (Hc x Hx).
  destruct (rtc_inv_r _ _ Hc) as [<-|(y&_&Hy&_)]; [done|]. by eapply wf_range.
Qed.

Lemma network_size start X : (start < n)%nat → network start X → (size X ≤ n)%nat.
Proof. intros Hs HX. apply size_below. intros v. by apply (network_in_range start). Qed.

Lemma tree_network start V E :
  tree start V E → in_graph E → (∀ v, v ∈ terminals → v ∈ V) → network start V.
Proof.
  intros HT HE Hterm. split; [by eapply tree_has_root|done|]. intros x Hx.
  eapply rtc_subrel; [|by eapply tree_connected]. intros u v Huv.
  destruct (HE _ Huv) as (a&b&Eab&Hab). pose proof (tree_endpoints _ _ _ _ HT Huv) as [H1 H2].
  pose proof (wf_sym _ Hgraph _ _ Hab) as Hba.
  destruct (ordered_edge u v) as [x' y'] eqn:E1. symmetry in Eab. apply ordered_edge_ends in E1, Eab. simpl in *.
  destruct E1 as [[-> ->]|[-> ->]], Eab as [[-> ->]|[-> ->]]; done.
Qed.

(** Edges that connect the start to every terminal make a tree whose leaves are terminals. *)
Lemma finish_tree_ok start edges :
  start ∈ terminals → in_graph edges → (∀ v, v ∈ terminals → rtc (linked edges) start v) →
  ∃ V E, finish_tree start (list_to_set terminals) edges = Ok E ∧ tree start V E ∧ E ⊆ edges
    ∧ network start V ∧ (∀ v, v ∈ endpoints E → v ∉ terminals → (1 < degree E v)%nat).
Proof.
  intros Hstart Hig Hconn.
  destruct (deterministic_spanning_tree_ok start edges) as (V1&E1&Hspan&HT1&HE1&Hreach).
  { intros e He. destruct (Hig e He) as (u&v&->&_). apply ordered_edge_ordered. }
  unfold finish_tree. rewrite Hspan. cbn [ok_or mbind result_bind].
  assert (∀ v, v ∈ terminals → v ∈ V1) as Hterm1 by auto.
  destruct (prune_leaves_tree start (S (size E1)) (list_to_set terminals) V1 E1 HT1)
    as (V2&E2&Hpr&HT2&Hterm2&HV2&HE2&Hleaf); [set_solver|set_solver|lia|].
  unfold prune_nonterminal_leaves. rewrite Hpr. cbn [ok_or].
  assert (in_graph E2) as Hig2 by (intros e He; apply Hig; set_solver).
  exists V2, E2. split_and!; [done|done|set_solver| |].
  - apply (tree_network start V2 E2); [done|done|set_solver].
  - intros v Hv Hvt. apply Hleaf; set_solver.
Qed.

End Networks.

Section Sites.
Context (node_cost : list Cost) (Hcosts : costs_wf node_cost).

(** The systems of a set that need a new relay. *)
Definition new_sites (X : gset nat) : gset nat := filter (λ v, cost_of node_cost v = node true) X.

(** [X] takes no more new relays than [Y], and no more hops for as many. *)
Definition at_most_as_costly (X Y : gset nat) : Prop :=
  (size (new_sites X) < size (new_sites Y))%nat
  ∨ size (new_sites X) = size (new_sites Y) ∧ (size X ≤ size Y)%nat.

Lemma weight_new_sites X : weight (λ v, cost_key (cost_of node_cost v)) X = Z.of_nat (size (new_sites X)) * 2 ^ 32.
Proof.
  induction X as [|v X Hv IH] using set_ind_L; [done|]. rewrite weight_insert, IH by done.
  unfold new_sites. rewrite filter_union_L by apply _. unfold cost_of at 1.
  assert (∃ b, cost_of node_cost v = node b) as [b Hb].
  { unfold cost_of. destruct (node_cost !! v) as [c|] eqn:E; [|by exists false].
    exact (Forall_lookup_1 _ _ _ _ Hcosts E). }
  fold (cost_of node_cost v). destruct b.
  - rewrite filter_singleton_True_L by (done || apply _).
    rewrite size_union, size_singleton by set_solver. rewrite Hb. unfold cost_key. simpl. lia.
  - rewrite filter_singleton_False_L by (apply _ || by rewrite Hb).
    replace (∅ ∪ filter _ X) with (filter (λ v, cost_of node_cost v = node true) X) by set_solver.
    rewrite Hb. unfold cost_key. simpl. lia.
Qed.

End Sites.

Section Solution.
Context (graph : StarGraph) (node_cost : list Cost) (terminals : list nat).
Context (Hwf : solver_wf graph node_cost terminals).
Abbreviation n := (length (stars graph)).
Abbreviation k := (length terminals).
Abbreviation node_key v := (cost_key (cost_of node_cost v)).
Abbreviation val t m v := (at_ (row (dp t) m) v).
Abbreviation joins := (joins graph node_cost terminals).
Abbreviation in_masks := (in_masks terminals).
Abbreviation in_graph := (in_graph graph).
Abbreviation network := (network graph terminals).
Abbreviation at_most_as_costly := (at_most_as_costly node_cost).

(** The cost of a tree on a set of vertices, as an integer. *)
Definition tree_key (V : gset nat) : Z := weight (λ v, node_key v) V + Z.of_nat (size V) - 1.

(** ** A tree joins its terminals *)

(** What hangs at a vertex: nothing but itself, or a tree that joins some terminals. *)
Definition hangs (v : nat) (f : N * Z) : Prop :=
  (f.1 = 0%N ∧ f.2 = node_key v) ∨ joins f.1 v f.2.

(** A neighbour with what hangs at it. *)
Definition hang_on (u : nat) (fu fw : N * Z) : N * Z :=
  if decide (fw.1 = 0%N) then fu
  else if decide (fu.1 = 0%N) then (fw.1, fw.2 + node_key u + 1)
  else (N.lor fu.1 fw.1, fu.2 + (fw.2 + node_key u + 1) - node_key u).

Lemma joins_nonneg m v c : joins m v c → node_key v ≤ c.
Proof.
  induction 1 as [| |m1 m2 v c1 c2 _ IH1 _ IH2]; [lia| |].
  - pose proof (node_key_small _ _ _ Hwf u) as [? _]. pose proof (node_key_small _ _ _ Hwf v) as [? _]. lia.
  - lia.
Qed.
Lemma joins_nonzero m v c : joins m v c → m ≠ 0%N.
Proof.
  induction 1 as [bit v Hb| |m1 m2 v c1 c2 _ IH1]; [by apply N.pow_nonzero|done|].
  intros E%N.lor_eq_0_iff. naive_solver.
Qed.

Lemma hang_on_hangs u w fu fw :
  hangs u fu → hangs w fw → u ∈ neighbors graph w → N.land fu.1 fw.1 = 0%N →
  hangs u (hang_on u fu fw) ∧ (hang_on u fu fw).1 = N.lor fu.1 fw.1
  ∧ (hang_on u fu fw).2 ≤ fu.2 + fw.2 + 1.
Proof.
  intros Hu Hw Hnb Hd. unfold hang_on. pose proof (node_key_small _ _ _ Hwf w) as [? _].
  case_decide as Ew.
  { rewrite Ew, N.lor_0_r. split_and!; [done..|]. destruct Hw as [[_ ->]|Hj]; [lia|].
    by apply joins_nonzero in Hj. }
  destruct Hw as [[? _]|Hw]; [done|].
  assert (joins fw.1 u (fw.2 + node_key u + 1)) as Hmove by (by eapply joins_move).
  case_decide as Eu.
  - destruct Hu as [[_ Eu2]|Hj]; [|by apply joins_nonzero in Hj].
    rewrite Eu, N.lor_0_l. split_and!; [by right|done|]. simpl. lia.
  - destruct Hu as [[? _]|Hu]; [done|]. split_and!; [right; by apply joins_meet|done|]. simpl. lia.
Qed.

Lemma tree_joins r V E (f : nat → N * Z) :
  tree r V E → in_graph E → (∀ v, v ∈ V → hangs v (f v)) →
  (∀ u v, u ∈ V → v ∈ V → u ≠ v → N.land (f u).1 (f v).1 = 0%N) →
  ∃ g, hangs r g ∧ g.2 ≤ weight (λ v, (f v).2) V + Z.of_nat (size V) - 1
       ∧ ∀ i, N.testbit g.1 i = true ↔ ∃ v, v ∈ V ∧ N.testbit (f v).1 i = true.
Proof.
  intros HT. revert f. induction HT as [|V E u w HT IH Hu Hw]; intros f HE Hf Hd.
  - exists (f r). rewrite size_singleton. split_and!; [apply Hf; set_solver| |set_solver].
    unfold weight. rewrite elements_singleton. simpl. lia.
  - assert (u ∈ neighbors graph w) as Hnb.
    { destruct (HE (ordered_edge u w)) as (a&b&Eab&Hab); [set_solver|].
      destruct (ordered_edge a b) as [x y] eqn:E1. apply ordered_edge_ends in E1, Eab.
      pose proof (wf_sym _ (sw_graph _ _ _ Hwf) _ _ Hab) as Hba.
      destruct E1 as [[-> ->]|[-> ->]], Eab as [[-> ->]|[-> ->]]; done. }
    destruct (hang_on_hangs u w (f u) (f w)) as (Hh&Hm&Hc);
      [apply Hf; set_solver|apply Hf; set_solver|done|apply Hd; set_solver|].
    set (f' := λ v, if decide (v = u) then hang_on u (f u) (f w) else f v).
    destruct (IH f') as (g&Hg&Hgc&Hgb).
    + intros e He. apply HE. set_solver.
    + intros v Hv. unfold f'. case_decide; [by subst|]. apply Hf. set_solver.
    + assert (∀ v, v ∈ V → v ≠ u → N.land (hang_on u (f u) (f w)).1 (f v).1 = 0%N) as Hdu.
      { intros v Hv Hvu. rewrite Hm, N.land_lor_distr_l, !Hd by set_solver. done. }
      intros a b Ha Hb Hab. unfold f'. repeat case_decide; subst; auto; [done|by rewrite N.land_comm; auto|].
      apply Hd; set_solver.
    + exists g. split_and!; [done| |].
      * assert (weight (λ v, (f' v).2) V ≤ weight (λ v, (f v).2) V + (f w).2 + 1) as Hw'.
        { rewrite !(weight_split _ u V) by done. rewrite (weight_ext (λ v, (f' v).2) (λ v, (f v).2) (V ∖ {[u]})).
          - unfold f' at 1. rewrite decide_True by done. lia.
          - intros v Hv. unfold f'. rewrite decide_False; [done|set_solver]. }
        rewrite weight_insert, size_union, size_singleton by set_solver. lia.
      * intros i. rewrite Hgb. split.
        -- intros (v&Hv&Hb). unfold f' in Hb. case_decide; [|set_solver]. subst.
           rewrite Hm, N.lor_spec in Hb. apply orb_true_iff in Hb as [?|?]; set_solver.
        -- intros (v&[->%elem_of_singleton|Hv]%elem_of_union&Hb).
           ++ exists u. split; [done|]. unfold f'. rewrite decide_True, Hm, N.lor_spec, Hb by done. apply orb_true_r.
           ++ exists v. split; [done|]. unfold f'. case_decide; [|done]. subst. by rewrite Hm, N.lor_spec, Hb.
Qed.

(** ** No network is cheaper than the entry of all terminals *)

Definition full_mask : N := (N.of_nat (mask_count terminals) - 1)%N.

Lemma full_mask_ones : full_mask = N.ones (N.of_nat k).
Proof. unfold full_mask. rewrite mask_count_eq, N2Nat.id, N.ones_equiv. lia. Qed.

Lemma full_mask_bits i : N.testbit full_mask i = true ↔ (i < N.of_nat k)%N.
Proof. rewrite full_mask_ones. apply N.ones_spec_iff. Qed.

Lemma full_mask_in_masks : terminals ≠ [] → in_masks full_mask.
Proof.
  intros Hne. assert (k ≠ 0%nat) by (by destruct terminals). unfold RelayTableFacts.in_masks.
  rewrite full_mask_ones, N.ones_equiv.
  assert (2 ^ 1 ≤ 2 ^ N.of_nat k)%N by (apply N.pow_le_mono_r; lia). simpl in *. lia.
Qed.

(** The terminal at a vertex, as a mask. *)
Definition mask_at (v : nat) : N :=
  match list_find (λ x, x = v) terminals with
  | Some (i, _) => (2 ^ N.of_nat i)%N
  | None => 0%N
  end.

Lemma mask_at_bit v i :
  NoDup terminals → N.testbit (mask_at v) i = true ↔ terminals !! N.to_nat i = Some v.
Proof.
  intros Hnd. unfold mask_at. destruct (list_find _ terminals) as [[j x]|] eqn:E.
  - apply list_find_Some in E as (Hj&->&_). rewrite N.pow2_bits_eqb, N.eqb_eq.
    split; [intros <-; by rewrite Nat2N.id|]. intros Hi. pose proof (NoDup_lookup _ _ _ _ Hnd Hj Hi). lia.
  - rewrite N.bits_0. split; [done|]. intros Hi. apply list_find_None in E.
    by destruct (Forall_lookup_1 _ _ _ _ E Hi).
Qed.

Lemma mask_at_hangs v : hangs v (mask_at v, node_key v).
Proof.
  unfold hangs, mask_at. simpl. destruct (list_find _ terminals) as [[j x]|] eqn:E; [|by left].
  right. apply list_find_Some in E as (Hj&->&_). by constructor.
Qed.

Lemma network_lower t r V E :
  NoDup terminals → terminals ≠ [] → (∀ m, in_masks m → row_ok graph node_cost terminals t m) →
  tree r V E → in_graph E → (∀ v, v ∈ terminals → v ∈ V) →
  val t full_mask r ≠ INF ∧ cost_key (val t full_mask r) ≤ tree_key V.
Proof.
  intros Hnd Hne Ht HT HE Hterm.
  destruct (tree_joins r V E (λ v, (mask_at v, node_key v)) HT HE) as (g&Hg&Hc&Hb).
  - intros v _. apply mask_at_hangs.
  - intros u v _ _ Huv. apply N.bits_inj. intros i. rewrite N.bits_0, N.land_spec. simpl.
    apply andb_false_iff. destruct (N.testbit (mask_at u) i) eqn:E1; [|auto]. right.
    apply not_true_iff_false. intros E2. apply mask_at_bit in E1, E2; [|done..]. congruence.
  - assert (g.1 = full_mask) as Eg.
    { apply N.bits_inj. intros i. apply eq_bool_prop_intro. rewrite !Is_true_true, Hb, full_mask_bits.
      simpl. setoid_rewrite mask_at_bit; [|done]. split.
      - intros (v&_&Hv%lookup_lt_Some). lia.
      - intros Hi. destruct (lookup_lt_is_Some_2 terminals (N.to_nat i)) as [v Hv]; [lia|].
        exists v. split; [|done]. apply Hterm, list_elem_of_lookup. eauto. }
    destruct Hg as [[E0 _]|Hj].
    { rewrite Eg in E0. by destruct (full_mask_in_masks Hne). }
    rewrite Eg in Hj. destruct (joins_lower _ _ _ Hwf t Ht _ _ _ Hj) as (_&_&Hf&Hle).
    split; [done|]. etrans; [exact Hle|exact Hc].
Qed.

(** ** The tree behind an entry *)

Definition parent_at (t : Tables) (m : N) (v : nat) : Parent := default NoParent (row (parent t) m !! v).

(** The vertices and edges that the parent pointers of an entry lead to. *)
Inductive branch (t : Tables) : N → nat → gset nat → gset (nat * nat) → Prop :=
| branch_terminal bit v :
    terminals !! bit = Some v → parent_at t (2 ^ N.of_nat bit) v = NoParent →
    branch t (2 ^ N.of_nat bit) v {[v]} ∅
| branch_move m u v V E :
    parent_at t m v = Move u → v ∈ neighbors graph u → branch t m u V E →
    branch t m v ({[v]} ∪ V) ({[ordered_edge v u]} ∪ E)
| branch_split m s v V1 E1 V2 E2 :
    parent_at t m v = Split s → submask_of s m → s ≠ 0%N → s ≠ m →
    branch t s v V1 E1 → branch t (N.lxor m s) v V2 E2 →
    branch t m v (V1 ∪ V2) (E1 ∪ E2).

Lemma branch_root t m v V E : branch t m v V E → v ∈ V.
Proof. induction 1; set_solver. Qed.

Lemma branch_edges t m v V E e : branch t m v V E → e ∈ E → e.1 ∈ V ∧ e.2 ∈ V.
Proof.
  induction 1 as [|m u v V E Hp Hnb HB IH|m s v V1 E1 V2 E2 Hp ??? HB1 IH1 HB2 IH2]; [set_solver| |].
  - apply branch_root in HB. intros [->%elem_of_singleton|He]%elem_of_union; [|set_solver].
    destruct (ordered_edge v u) as [x y] eqn:Ee. apply ordered_edge_ends in Ee. simpl. set_solver.
  - set_solver.
Qed.

Lemma branch_in_graph t m v V E : branch t m v V E → in_graph E.
Proof.
  unfold in_graph. induction 1 as [|m u v V E Hp Hnb HB IH|]; [set_solver| |set_solver].
  intros e [->%elem_of_singleton|He]%elem_of_union; [|auto].
  exists u, v. split; [apply ordered_edge_comm|done].
Qed.

Lemma tree_key_move v V : tree_key ({[v]} ∪ V) ≤ tree_key V + node_key v + 1.
Proof.
  unfold tree_key. pose proof (node_key_small _ _ _ Hwf v) as [? _].
  destruct (decide (v ∈ V)) as [Hv|Hv].
  - replace ({[v]} ∪ V) with V by set_solver. lia.
  - rewrite weight_insert, size_union, size_singleton by set_solver. lia.
Qed.

Lemma tree_key_meet v V1 V2 :
  v ∈ V1 → v ∈ V2 → tree_key (V1 ∪ V2) ≤ tree_key V1 + tree_key V2 - node_key v.
Proof.
  intros H1 H2. unfold tree_key.
  pose proof (weight_union (λ v, node_key v) v V1 V2 (λ v, proj1 (node_key_small _ _ _ Hwf v)) H1 H2).
  rewrite <- !weight_size. pose proof (weight_union (λ _, 1) v V1 V2 ltac:(done) H1 H2). simpl in *. lia.
Qed.

Section Solved.
Context (t : Tables) (Ht : ∀ m, in_masks m → row_ok graph node_cost terminals t m).

Lemma branch_exists m v :
  in_masks m → val t m v ≠ INF →
  ∃ V E, branch t m v V E ∧ tree_key V ≤ cost_key (val t m v) ∧ (∀ x, x ∈ V → (x < n)%nat).
Proof.
  revert m v. apply (entry_induction _ _ _ t Ht (λ m v,
    ∃ V E, branch t m v V E ∧ tree_key V ≤ cost_key (val t m v) ∧ (∀ x, x ∈ V → (x < n)%nat))).
  intros m v Hm Hv Hf Hstep Hmove Hsplit. pose proof (node_key_small _ _ _ Hwf v) as [? _].
  destruct Hstep as [bit Hb -> Hp Hk|u Hu Hnb Hp Hfu Hk|s Hs Hs0 Hsm Hp F1 F2 Hk].
  - exists {[v]}, ∅. split_and!; [|rewrite Hk|set_solver].
    + constructor; [done|]. unfold parent_at. by rewrite Hp.
    + unfold tree_key, weight. rewrite elements_singleton, size_singleton. simpl. lia.
  - destruct (Hmove u Hnb Hfu) as (V&E&HB&Hle&HV); [lia|].
    exists ({[v]} ∪ V), ({[ordered_edge v u]} ∪ E). split_and!; [|rewrite Hk|set_solver].
    + constructor; [|done|done]. unfold parent_at. by rewrite Hp.
    + etrans; [apply tree_key_move|]. lia.
  - destruct (proper_in_masks _ m s Hm Hs Hs0 Hsm) as [_ [? _]]. pose proof (rest_lt _ _ Hs Hs0).
    destruct (Hsplit s Hs Hs0 Hsm F1) as (V1&E1&HB1&Hle1&HV1).
    destruct (Hsplit (N.lxor m s)) as (V2&E2&HB2&Hle2&HV2); [by apply rest_submask|done|lia|done|].
    exists (V1 ∪ V2), (E1 ∪ E2). split_and!; [|rewrite Hk|set_solver].
    + econstructor; [|done..]. unfold parent_at. by rewrite Hp.
    + etrans; [by apply (tree_key_meet v); eapply branch_root|]. lia.
Qed.

(** ** Reconstruction *)

(** The states that a state's parent pointer leads to have been visited. *)
Definition complete (tr : Trace) (x : N * nat) : Prop :=
  match parent_at t x.1 x.2 with
  | Move u => linked (tr_edges tr) x.2 u ∧ (x.1, u) ∈ tr_visited tr
  | Split s => (s, x.2) ∈ tr_visited tr ∧ (N.lxor x.1 s, x.2) ∈ tr_visited tr
  | NoParent => True
  end.

Definition extends (tr tr' : Trace) : Prop :=
  tr_edges tr ⊆ tr_edges tr' ∧ tr_visited tr ⊆ tr_visited tr'.

Lemma complete_mono tr tr' x : extends tr tr' → complete tr x → complete tr' x.
Proof.
  intros [He Hv]. unfold complete. destruct (parent_at t x.1 x.2); [done| |set_solver].
  intros [? ?]. split; [by eapply linked_mono|set_solver].
Qed.

(** The outcome of a call of [reconstruct]. *)
Record traced (tr tr' : Trace) (m : N) (v : nat) (E : gset (nat * nat)) : Prop := {
  td_extends : extends tr tr';
  td_edges : tr_edges tr' ⊆ tr_edges tr ∪ E;
  td_visited : (m, v) ∈ tr_visited tr';
  td_complete x : x ∈ tr_visited tr' → x ∉ tr_visited tr → complete tr' x;
}.

Definition states : gset (N * nat) :=
  list_to_set (x ← seq 0 (mask_count terminals); y ← seq 0 n; [(N.of_nat x, y)]).

Lemma elem_of_states m v : (m, v) ∈ states ↔ (m < 2 ^ N.of_nat k)%N ∧ (v < n)%nat.
Proof.
  unfold states. rewrite elem_of_list_to_set, list_elem_of_bind, mask_count_eq.
  setoid_rewrite list_elem_of_bind. setoid_rewrite elem_of_seq. setoid_rewrite list_elem_of_singleton. split.
  - intros (x&(y&[= -> ->]&?)&?). lia.
  - intros [Hm Hv]. exists (N.to_nat m). split; [|lia]. exists v. rewrite N2Nat.id. split; [done|lia].
Qed.

Lemma size_states : (size states ≤ mask_count terminals * n)%nat.
Proof.
  assert (∀ l : list (N * nat), size (list_to_set (C := gset (N * nat)) l) ≤ length l)%nat as Hle.
  { intros l. induction l as [|x l IH]; [done|]. rewrite list_to_set_cons, size_union_alt, size_singleton.
    pose proof (subseteq_size (list_to_set (C := gset (N * nat)) l ∖ {[x]}) (list_to_set l) ltac:(set_solver)).
    simpl. lia. }
  unfold states. etrans; [apply Hle|].
  assert (∀ l : list nat, length (x ← l; y ← seq 0 n; [(N.of_nat x, y)]) = length l * n)%nat as Hlen.
  { intros l. induction l as [|x l IH]; [done|]. rewrite bind_cons, length_app, IH. simpl. f_equal.
    assert (∀ l' : list nat, length (y ← l'; [(N.of_nat x, y)]) = length l') as ->; [|by rewrite length_seq].
    intros l'. induction l' as [|y l' IH']; [done|]. rewrite bind_cons. simpl. by rewrite IH'. }
  by rewrite Hlen, length_seq.
Qed.

Definition left_to_visit (tr : Trace) : nat := size (states ∖ tr_visited tr).

Definition visit (tr : Trace) (x : N * nat) : Trace :=
  {| tr_edges := tr_edges tr; tr_visited := {[x]} ∪ tr_visited tr |}.

Lemma extends_left tr tr' : extends tr tr' → (left_to_visit tr' ≤ left_to_visit tr)%nat.
Proof. intros [_ Hv]. unfold left_to_visit. apply subseteq_size. set_solver. Qed.

Lemma visit_left tr x : x ∈ states → x ∉ tr_visited tr → (left_to_visit (visit tr x) < left_to_visit tr)%nat.
Proof.
  intros Hx Hv. unfold left_to_visit. simpl. apply subset_size. split; [set_solver|].
  intros Hsub. assert (x ∈ states ∖ tr_visited tr) as Hin by set_solver. specialize (Hsub x Hin). set_solver.
Qed.

(** The two halves of a split, one after the other. *)
Lemma traced_split tr tr1 tr2 m s v E1 E2 :
  parent_at t m v = Split s → traced (visit tr (m, v)) tr1 s v E1 → traced tr1 tr2 (N.lxor m s) v E2 →
  traced tr tr2 m v (E1 ∪ E2).
Proof.
  intros Hp [X1 Ed1 V1 C1] [X2 Ed2 V2 C2]. pose proof X1 as [Xe1 Xv1]. pose proof X2 as [Xe2 Xv2]. simpl in *.
  split; [split; set_solver|set_solver|set_solver|].
  intros x Hx Hn. destruct (decide (x ∈ tr_visited tr1)) as [Hx1|Hx1]; [|by apply C2].
  destruct (decide (x = (m, v))) as [->|Hne].
  - unfold complete. simpl. rewrite Hp. split; [set_solver|done].
  - apply (complete_mono tr1); [done|]. apply C1; [done|set_solver].
Qed.

Lemma traced_move tr tr' m u v E :
  parent_at t m v = Move u →
  traced {| tr_edges := {[ordered_edge v u]} ∪ tr_edges tr; tr_visited := {[(m, v)]} ∪ tr_visited tr |} tr' m u E →
  traced tr tr' m v ({[ordered_edge v u]} ∪ E).
Proof.
  intros Hp [[Xe Xv] Ed Vv C]. simpl in *. split; [split; set_solver|set_solver|set_solver|].
  intros x Hx Hn. destruct (decide (x = (m, v))) as [->|Hne]; [|apply C; set_solver].
  unfold complete. simpl. rewrite Hp. split; [unfold linked; set_solver|done].
Qed.

Lemma traced_seen tr m v E : (m, v) ∈ tr_visited tr → traced tr tr m v E.
Proof. intros Hin. split; [split; set_solver|set_solver|done|done]. Qed.

Lemma reconstruct_traced m v V E :
  branch t m v V E → (m < 2 ^ N.of_nat k)%N → (∀ x, x ∈ V → (x < n)%nat) →
  ∀ fuel tr, (left_to_visit tr < fuel)%nat →
  ∃ tr', reconstruct fuel (parent t) m v tr = Ok tr' ∧ traced tr tr' m v E.
Proof.
  intros HB. induction HB as [bit v Hb Hp|m u v V E Hp Hnb HB IH|m s v V1 E1 V2 E2 Hp Hs Hs0 Hsm HB1 IH1 HB2 IH2];
    intros Hm HV [|fuel] tr Hf; try lia; simpl; fold (parent_at t) in *;
    (case_decide as Hseen; [eauto using traced_seen|]); fold (parent_at t m v) || fold (parent_at t (2 ^ N.of_nat bit)%N v); rewrite Hp.
  - rewrite is_power_of_two_pow. eexists. split; [done|]. split; simpl; [split; set_solver|set_solver|set_solver|].
    intros x Hx Hn. assert (x = ((2 ^ N.of_nat bit)%N, v)) as -> by set_solver. unfold complete. simpl. by rewrite Hp.
  - assert ((m, v) ∈ states) as Hin by (apply elem_of_states; split; [done|apply HV; set_solver]).
    pose proof (visit_left tr (m, v) Hin Hseen) as Hlt.
    destruct (IH Hm ltac:(set_solver) fuel
      {| tr_edges := {[ordered_edge v u]} ∪ tr_edges tr; tr_visited := {[(m, v)]} ∪ tr_visited tr |}) as (tr'&->&Htr).
    { unfold left_to_visit, visit in *. simpl in *. lia. }
    eexists. split; [done|]. by apply traced_move.
  - assert ((m, v) ∈ states) as Hin.
    { apply elem_of_states. split; [done|]. apply HV, elem_of_union_l. by eapply branch_root. }
    pose proof (visit_left tr (m, v) Hin Hseen) as Hlt. rewrite decide_False by tauto.
    pose proof (submask_le _ _ Hs). pose proof (rest_lt _ _ Hs Hs0).
    destruct (IH1 ltac:(lia) ltac:(set_solver) fuel (visit tr (m, v))) as (tr1&E&Htr1); [lia|].
    unfold visit in E at 1. simpl in E. rewrite E. cbn [mbind result_bind].
    pose proof (extends_left _ _ (td_extends _ _ _ _ _ Htr1)).
    destruct (IH2 ltac:(lia) ltac:(set_solver) fuel tr1) as (tr2&->&Htr2); [lia|].
    eexists. split; [done|]. by eapply traced_split.
Qed.

(** Once every visited state is complete, a visited entry is connected to its terminals. *)
Lemma branch_connected m v V E tr bit x :
  branch t m v V E → (∀ y, y ∈ tr_visited tr → complete tr y) → (m, v) ∈ tr_visited tr →
  terminals !! bit = Some x → N.testbit m (N.of_nat bit) = true → rtc (linked (tr_edges tr)) v x.
Proof.
  intros HB Hc. induction HB as [bit' v Hb Hp|m u v V E Hp Hnb HB IH|m s v V1 E1 V2 E2 Hp Hs Hs0 Hsm HB1 IH1 HB2 IH2];
    intros Hvis Hx Hbit.
  - rewrite N.pow2_bits_eqb, N.eqb_eq in Hbit. apply Nat2N.inj in Hbit. subst. simplify_eq. apply rtc_refl.
  - pose proof (Hc _ Hvis) as Hcv. unfold complete in Hcv. simpl in Hcv. rewrite Hp in Hcv.
    destruct Hcv as [Hl Hu]. eapply rtc_l; [exact Hl|]. by apply IH.
  - pose proof (Hc _ Hvis) as Hcv. unfold complete in Hcv. simpl in Hcv. rewrite Hp in Hcv.
    destruct Hcv as [Hv1 Hv2]. destruct (N.testbit s (N.of_nat bit)) eqn:Es; [by apply IH1|].
    apply IH2; [done..|]. by rewrite N.lxor_spec, Hbit, Es.
Qed.
End Solved.

Lemma tree_key_costly X Y :
  X ≠ ∅ → (size Y ≤ n)%nat → Z.of_nat n < INF_COMPONENT → tree_key X ≤ tree_key Y → at_most_as_costly X Y.
Proof.
  intros HX HY Hn. unfold tree_key, at_most_as_costly. rewrite !(weight_new_sites _ (sw_costs _ _ _ Hwf)).
  assert (size X ≠ 0%nat) by (intros ?%size_empty_inv; set_solver).
  rewrite INF_COMPONENT_eq in Hn. lia.
Qed.

Lemma tree_key_mono X Y : X ⊆ Y → tree_key X ≤ tree_key Y.
Proof.
  intros Hsub. unfold tree_key. pose proof (subseteq_size _ _ Hsub).
  pose proof (weight_mono (λ v, node_key v) X Y (λ v, proj1 (node_key_small _ _ _ Hwf v)) Hsub). lia.
Qed.

(** The search ends: with the verdict that no network exists, or with a tree whose leaves
    are terminals and than which no network is cheaper. *)
Lemma exact_tree_solves start :
  NoDup terminals → start ∈ terminals →
  (exact_tree graph node_cost terminals start = Ok None ∧ ∀ X, ¬ network start X)
  ∨ ∃ V E, exact_tree graph node_cost terminals start = Ok (Some E)
      ∧ tree start V E ∧ in_graph E ∧ network start V
      ∧ (∀ v, v ∈ endpoints E → v ∉ terminals → (1 < degree E v)%nat)
      ∧ ∀ X, network start X → at_most_as_costly V X.
Proof.
  intros Hnd Hstart. assert (terminals ≠ []) as Hne by (by intros ->; apply elem_of_nil in Hstart).
  pose proof (full_mask_in_masks Hne) as Hfull.
  destruct (solve_tables_ok _ _ _ Hwf) as (t&Hsolve&_&Ht).
  assert (start < n)%nat as Hsn.
  { apply list_elem_of_lookup in Hstart as [i Hi]. exact (Forall_lookup_1 _ _ _ _ (sw_terminals _ _ _ Hwf) Hi). }
  assert (Z.of_nat n < INF_COMPONENT) as Hsmall.
  { pose proof (sw_fits _ _ _ Hwf). destruct terminals as [|]; [done|]. simpl in *. nia. }
  assert (∀ X, network start X → val t full_mask start ≠ INF ∧ cost_key (val t full_mask start) ≤ tree_key X) as Hlow.
  { intros X HX. destruct (spanning_tree start (λ u v, v ∈ neighbors graph u) X) as (E&HT&HE); [apply HX..|].
    apply (network_lower t start X E); try done. apply HX. }
  unfold exact_tree. rewrite Hsolve. cbn [ok_or mbind result_bind]. fold full_mask.
  case_decide as Hinf.
  { left. split; [done|]. intros X HX. by destruct (Hlow X HX). }
  right. destruct (branch_exists t Ht _ _ Hfull Hinf) as (V0&E0&HB&Hkey&HV0).
  destruct (reconstruct_traced t Ht _ _ _ _ HB (proj2 Hfull) HV0
    (S (mask_count terminals * n)) {| tr_edges := ∅; tr_visited := ∅ |}) as (tr&->&Htr).
  { apply Nat.lt_succ_r. unfold left_to_visit. etrans; [|apply (size_states t Ht)]. apply subseteq_size. set_solver. }
  cbn [mbind result_bind]. destruct Htr as [_ Htd Hvis Hcomp]. simpl in Htd.
  assert (tr_edges tr ⊆ E0) as HE0 by set_solver.
  assert (in_graph (tr_edges tr)) as Hig by (intros e He; apply (branch_in_graph _ _ _ _ _ HB); set_solver).
  destruct (finish_tree_ok graph terminals (sw_graph _ _ _ Hwf) start (tr_edges tr) Hstart Hig) as (V2&E2&Hfin&HT2&HE2&Hnet&Hleaf).
  { intros v Hv. apply list_elem_of_lookup in Hv as [bit Hbit].
    eapply (branch_connected t); [exact HB| |exact Hvis|exact Hbit|].
    - intros y Hy. apply Hcomp; [done|set_solver].
    - apply full_mask_bits. apply lookup_lt_Some in Hbit. lia. }
  rewrite Hfin. cbn [mbind result_bind]. exists V2, E2. split_and!; try done.
  - intros e He. apply Hig. set_solver.
  - intros X HX. apply tree_key_costly; [|by eapply network_size; [apply Hwf|..]|done|].
    { pose proof (tree_has_root _ _ _ HT2). set_solver. }
    etrans; [|apply (Hlow X HX)]. etrans; [|exact Hkey]. apply tree_key_mono.
    intros v Hv. destruct (tree_vertices _ _ _ _ HT2 Hv) as [->|(e&He&Hev)].
    + by eapply branch_root.
    + pose proof (branch_edges _ _ _ _ _ e HB ltac:(set_solver)) as [? ?]. by destruct Hev as [<-|<-].
Qed.
End Solution.
