(* ===== verification/RelayGraphFacts.v ===== *)
(** * The star graph is well formed

    A graph that [StarGraph::with_relay_ranges] builds has edges between two different
    systems of the catalogue only, in both directions, and only where the longer of the two
    ranges spans the distance. *)

From S2P Require Import Prelude Float64 RelayGraph RelaySolver RelayClosureFacts.
Import Relay.

(** ** The result monad *)

Lemma result_bind_Ok {E A B} (m : result E A) (f : A → result E B) b :
  (m ≫= f) = Ok b ↔ ∃ a, m = Ok a ∧ f a = Ok b.
Proof. destruct m; simpl; naive_solver. Qed.

Lemma ok_or_Ok {E A} (o : option A) (e : E) a : ok_or o e = Ok a ↔ o = Some a.
Proof. destruct o; simpl; naive_solver. Qed.

Lemma mapM_Ok {E A B} (f : A → result E B) l k : mapM f l = Ok k ↔ Forall2 (λ x y, f x = Ok y) l k.
Proof.
  revert k. induction l as [|x l IH]; intros k; simpl.
  - split; [intros [= <-]; constructor|]. inversion 1. done.
  - rewrite result_bind_Ok. setoid_rewrite result_bind_Ok. split.
    + intros (y&Hy&ys&Hys&[= <-]). constructor; [done|]. by apply IH.
    + inversion 1 as [|? y ? ys Hy Hys]; subst. exists y. split; [done|]. exists ys. split; [by apply IH|done].
Qed.

(** ** Designations and vertices *)

Lemma build_index_Ok next stars idx idx' :
  build_index next stars idx = Ok idx' →
  NoDup (designation <$> stars)
  ∧ (∀ s, s ∈ stars → idx !! designation s = None)
  ∧ ∀ d i, idx' !! d = Some i ↔
      idx !! d = Some i ∨ ∃ j s, stars !! j = Some s ∧ designation s = d ∧ i = (next + j)%nat.
Proof.
  revert next idx. induction stars as [|s stars IH]; intros next idx; simpl.
  { intros [= <-]. split_and!; [constructor|set_solver|]. intros d i. split; [auto|]. by intros [|(j&?&?&_)]. }
  destruct (idx !! designation s) eqn:E; [done|]. intros H. destruct (IH _ _ H) as (Hnd&Hfresh&Hidx).
  assert (∀ x, x ∈ stars → designation x ≠ designation s ∧ idx !! designation x = None) as Hx.
  { intros x Hx. specialize (Hfresh x Hx). apply lookup_insert_None in Hfresh. naive_solver. }
  split_and!.
  - constructor; [|done]. intros (x&Heq&Hin)%list_elem_of_fmap. by destruct (Hx x Hin).
  - intros x [->|Hin]%elem_of_cons; [done|]. by apply Hx.
  - intros d i. rewrite Hidx, lookup_insert_Some. split.
    + intros [[[<- <-]|[_ ?]]|(j&x&?&?&->)]; [right; exists 0%nat, s|auto|right; exists (S j), x];
        (split_and!; [done..|lia]).
    + intros [Hd|([|j]&x&Hl&<-&->)].
      * left. right. split; [|done]. intros <-. congruence.
      * simplify_eq/=. left. left. split; [done|lia].
      * right. exists j, x. split_and!; [done..|lia].
Qed.

(** ** Edges *)

Section Edges.
Context (nodes : list (Star * F64.t)).

(** An adjacency that connects vertices within range, both ways. *)
Record connected_within (adj : list (list (nat * F64.t))) : Prop := {
  cw_length : length adj = length nodes;
  cw_sym u v : v ∈ (default [] (adj !! u)).*1 → u ∈ (default [] (adj !! v)).*1;
  cw_range u v : v ∈ (default [] (adj !! u)).*1 → (u < length nodes)%nat ∧ (v < length nodes)%nat ∧ u ≠ v;
  cw_spans u v l r : (u < v)%nat → v ∈ (default [] (adj !! u)).*1 → nodes !! u = Some l → nodes !! v = Some r →
    spans l r = true;
}.

Lemma elem_of_alter_push (adj : list (list (nat * F64.t))) i e u v :
  v ∈ (default [] (alter (λ ns, ns ++ [e]) i adj !! u)).*1
  ↔ v ∈ (default [] (adj !! u)).*1 ∨ u = i ∧ (i < length adj)%nat ∧ v = e.1.
Proof.
  destruct (decide (u = i)) as [->|Hne].
  - rewrite list_lookup_alter_eq. destruct (adj !! i) as [ns|] eqn:E; simpl.
    + apply lookup_lt_Some in E. rewrite fmap_app, elem_of_app. cbn [fmap list_fmap]. rewrite list_elem_of_singleton. naive_solver.
    + apply lookup_ge_None in E. split; [set_solver|]. intros [?%elem_of_nil|(_&?&_)]; [done|lia].
  - rewrite list_lookup_alter_ne by done. naive_solver.
Qed.

Lemma connect_within left adj right : connected_within adj → connected_within (connect nodes left adj right).
Proof.
  intros [H1 H2 H3 H4]. unfold connect.
  destruct (nodes !! left) as [l|] eqn:El; [|done]. destruct (nodes !! right) as [r|] eqn:Er; [|done].
  case_decide as Hlr; [done|]. destruct (spans l r) eqn:Hs; [|done].
  pose proof (lookup_lt_Some _ _ _ El) as Hl. pose proof (lookup_lt_Some _ _ _ Er) as Hr.
  set (d := distance _ _).
  assert (∀ u v, v ∈ (default [] (alter (λ ns, ns ++ [(left, d)]) right
      (alter (λ ns, ns ++ [(right, d)]) left adj) !! u)).*1
    ↔ v ∈ (default [] (adj !! u)).*1 ∨ (u = left ∧ v = right) ∨ (u = right ∧ v = left)) as Hin.
  { intros u v. rewrite !elem_of_alter_push, length_alter, H1. naive_solver. }
  split.
  - by rewrite !length_alter.
  - intros u v. rewrite !Hin. naive_solver.
  - intros u v. rewrite Hin. intros [?|[[-> ->]|[-> ->]]]; [auto|split_and!; lia..].
  - intros u v l' r' Huv. rewrite Hin. intros [?|[[-> ->]|[-> ->]]]; [eauto|congruence|lia].
Qed.

Lemma connect_all_within left rights adj :
  connected_within adj → connected_within (foldl (connect nodes left) adj rights).
Proof. revert adj. induction rights; intros; simpl; auto using connect_within. Qed.
End Edges.

(** ** The graph *)

Record built (graph : StarGraph) (catalogue : list Star) (max_hop : F64.t) (ranges : gmap string F64.t) : Prop := {
  bu_wf : graph_wf graph;
  bu_stars : stars graph = sort_by star_leb catalogue;
  bu_designations : NoDup (designation <$> stars graph);
  bu_index d i : index graph !! d = Some i ↔ ∃ s, stars graph !! i = Some s ∧ designation s = d;
  bu_ranges : relay_ranges_ly graph = node_range max_hop ranges <$> stars graph;
  bu_irrefl u : u ∉ neighbors graph u;
  bu_spans u v l r : (u < v)%nat → v ∈ neighbors graph u →
    zip (stars graph) (relay_ranges_ly graph) !! u = Some l →
    zip (stars graph) (relay_ranges_ly graph) !! v = Some r → spans l r = true;
}.

Lemma with_relay_ranges_built catalogue max_hop ranges graph :
  with_relay_ranges catalogue max_hop ranges = Ok graph → built graph catalogue max_hop ranges.
Proof.
  unfold with_relay_ranges. destruct (positive_range max_hop); [|done]. cbn [negb].
  destruct (existsb _ _); [done|]. rewrite result_bind_Ok. intros (idx&Hidx&H). case_decide; [|done].
  injection H as <-. set (sorted := sort_by star_leb catalogue) in *.
  apply build_index_Ok in Hidx as (Hnd&_&Hlook).
  set (rs := node_range max_hop ranges <$> sorted). set (nodes := zip sorted rs).
  assert (length nodes = length sorted) as Hlen.
  { unfold nodes, rs. rewrite length_zip, length_fmap. lia. }
  set (bucket := foldl F64.max max_hop rs) in *. set (buckets := foldl (push_bucket bucket) ∅ (imap pair sorted)).
  assert (∀ es adj, connected_within nodes adj → connected_within nodes (foldl (λ adjacency e,
     foldl (connect nodes e.1) adjacency (nearby bucket buckets (position e.2))) adj es)) as Hfold.
  { intros es. induction es as [|e es IH]; intros adj Hadj; simpl; [done|]. by apply IH, connect_all_within. }
  set (adj := foldl _ (replicate _ _) _).
  assert (connected_within nodes adj) as [A1 A2 A3 A4].
  { apply Hfold. assert (∀ u : nat, (default [] (replicate (length sorted) ([] : list (nat * F64.t)) !! u)).*1 = []) as Hemp.
    { intros u. destruct (replicate _ _ !! u) eqn:E; [|done]. by apply lookup_replicate in E as [-> _]. }
    split; [by rewrite length_replicate|..].
    - intros u v. rewrite Hemp. by intros ?%elem_of_nil.
    - intros u v. rewrite Hemp. by intros ?%elem_of_nil.
    - intros u v l r _. rewrite Hemp. by intros ?%elem_of_nil. }
  assert (∀ u v, v ∈ (default [] ((sort_by neighbor_leb <$> adj) !! u)).*1 ↔ v ∈ (default [] (adj !! u)).*1) as Hsort.
  { intros u v. rewrite list_lookup_fmap. destruct (adj !! u) as [ns|]; [|done]. simpl.
    rewrite !list_elem_of_fmap. by setoid_rewrite elem_of_sort_by. }
  rewrite Hlen in *. split; unfold neighbors; simpl; try done.
  - split; unfold neighbors; simpl.
    + by rewrite length_fmap.
    + intros u v. rewrite Hsort. intros (_&?&_)%A3. done.
    + intros u v. rewrite !Hsort. apply A2.
  - intros d i. rewrite Hlook, lookup_empty. split.
    + intros [|(j&s&?&?&->)]; [done|]. eauto.
    + intros (s&?&?). right. exists i, s. split_and!; [done..|lia].
  - intros u. rewrite Hsort. by intros (_&_&?)%A3.
  - intros u v l r Huv. rewrite Hsort. fold nodes. eauto.
Qed.
