(* ===== verification/RelayGreedyFacts.v ===== *)
(** * The greedy relay tree is feasible

    [greedy_terminal_tree] of [crates/replicant-route-planner/src/lib.rs]: it always ends,
    it fails only when no network exists, and otherwise its edges connect every terminal and
    its count of new relays is one that some network attains. *)

From S2P Require Import Prelude Float64 RelayGraph RelaySolver RelayTravel RelayDiagnostics.
From S2P Require Import RelayPlan RelayClosureFacts RelayTreeFacts RelaySolutionFacts.
Import Relay Steiner Planner.

Section Greedy.
Context (graph : StarGraph) (context : SolverContext).
Context (Hgraph : graph_wf graph) (Hcosts : costs_wf (node_cost context)).
Abbreviation n := (length (stars graph)).
Context (Hn : Z.of_nat n + 2 < INF_COMPONENT).
Abbreviation node_key v := (cost_key (cost_of (node_cost context) v)).

(** The cost of a set of systems, one hop for each. *)
Definition set_key (V : gset nat) : Z := weight (λ v, node_key v + 1) V.

Lemma linked_sym E u v : linked E u v → linked E v u.
Proof. unfold linked. by rewrite ordered_edge_comm. Qed.

Lemma rtc_linked_sym E u v : rtc (linked E) u v → rtc (linked E) v u.
Proof. induction 1; [done|]. eapply rtc_r; [done|]. by apply linked_sym. Qed.

Lemma rtc_linked_mono E E' u v : E ⊆ E' → rtc (linked E) u v → rtc (linked E') u v.
Proof. intros Hsub. apply rtc_subrel. intros x y. by apply linked_mono. Qed.

(** ** Distances from a tree *)

Section Attach.
Context (T0 : gset nat) (HT0 : ∀ v, v ∈ T0 → (v < n)%nat).
Context (vs : list Cost) (ps : list Parent).
Context (Hrow : closed_row graph (node_cost context) (tree_values graph T0) (replicate n NoParent) 0 vs ps).

Lemma at_tree_values v :
  at_ (tree_values graph T0) v = if decide (v ∈ T0) then {| new_relays := 0; hops := 0 |} else INF.
Proof.
  unfold tree_values, at_. rewrite list_lookup_fmap. destruct (decide (v < n)%nat) as [Hv|Hv].
  - by rewrite lookup_seq_lt.
  - rewrite lookup_seq_ge by lia. simpl. rewrite decide_False; [done|]. intros ?%HT0. lia.
Qed.

Lemma at_nonneg v : 0 ≤ cost_key (at_ vs v).
Proof.
  destruct (cr_small _ _ _ _ _ _ _ Hrow v) as [->|Hs]; [by rewrite cost_key_INF|].
  unfold small, cost_key in *. lia.
Qed.

Lemma at_member v : v ∈ T0 → cost_key (at_ vs v) = 0.
Proof.
  intros Hv. pose proof (at_nonneg v). pose proof (at_tree_values v) as Hat. rewrite decide_True in Hat by done.
  destruct (cr_traced _ _ _ _ _ _ _ Hrow v (HT0 v Hv)) as [[-> _]|(u&_&_&_&_&_&_&Hlt)].
  - by rewrite Hat.
  - rewrite Hat in Hlt. unfold cost_key in Hlt at 2. simpl in Hlt. lia.
Qed.

(** The parent of a vertex outside the tree that can be reached. *)
Lemma at_parent v :
  at_ vs v ≠ INF → v ∉ T0 →
  (v < n)%nat ∧ ∃ u, (u < n)%nat ∧ v ∈ neighbors graph u ∧ default NoParent (ps !! v) = Move u
    ∧ at_ vs u ≠ INF ∧ cost_key (at_ vs v) = cost_key (at_ vs u) + node_key v + 1.
Proof.
  intros Hv HvT. assert (v < n)%nat as Hvn.
  { destruct (decide (v < n)%nat); [done|]. destruct Hv. unfold at_.
    by rewrite lookup_ge_None_2 by (rewrite (cr_values _ _ _ _ _ _ _ Hrow); lia). }
  split; [done|]. destruct (cr_traced _ _ _ _ _ _ _ Hrow v Hvn) as [[E _]|(u&?&?&Hp&?&_&?&_)].
  - rewrite at_tree_values, decide_False in E by done. done.
  - exists u. by rewrite Hp.
Qed.

(** The state of the walk from a terminal to the tree. *)
Record attaching (start current : nat) (T : gset nat) (E : gset (nat * nat)) : Prop := {
  ag_tree : T0 ⊆ T;
  ag_range v : v ∈ T → (v < n)%nat;
  ag_above v : v ∈ T → v ∉ T0 → cost_key (at_ vs current) < cost_key (at_ vs v);
  ag_graph : in_graph graph E;
  ag_linked v : v ∈ T → rtc (linked E) start v ∨ (rtc (linked E) current v ∧ v ∉ T0);
  ag_ends e : e ∈ E → e.1 ∈ {[current]} ∪ T ∧ e.2 ∈ {[current]} ∪ T;
}.

Lemma attach_ok fuel start current T E :
  at_ vs current ≠ INF → (current < n)%nat → attaching start current T E → (∀ v, v ∈ T0 → rtc (linked E) start v) →
  (n < size T + fuel)%nat →
  ∃ T' E', attach fuel ps current T E = Some (T', E') ∧ T ⊆ T' ∧ current ∈ T' ∧ E ⊆ E' ∧ in_graph graph E'
    ∧ (∀ v, v ∈ T' → (v < n)%nat ∧ rtc (linked E') start v)
    ∧ (∀ e, e ∈ E' → e.1 ∈ T' ∧ e.2 ∈ T')
    ∧ set_key T' = set_key T + cost_key (at_ vs current).
Proof.
  revert current T E. induction fuel as [|fuel IH]; intros current T E Hfin Hcur [A1 A2 A3 A4 A5 A6] Hconn Hf.
  { pose proof (size_below T n A2). lia. }
  simpl. case_decide as Hin.
  - assert (current ∈ T0) as Hin0.
    { destruct (decide (current ∈ T0)) as [|Hc]; [done|]. specialize (A3 _ Hin Hc). lia. }
    exists T, E. rewrite (at_member _ Hin0). split_and!; try done; [|set_solver|lia].
    intros v Hv. split; [auto|]. destruct (A5 v Hv) as [|[Hv' _]]; [done|]. etrans; [by apply Hconn|done].
  - assert (current ∉ T0) as Hn0 by set_solver.
    destruct (at_parent current Hfin Hn0) as (_&u&Hu&Hnb&->&Hfu&Hk).
    pose proof (cost_key_node_nonneg _ Hcosts current) as Hnn.
    set (E' := {[ordered_edge current u]} ∪ E).
    assert (E ⊆ E') as HEE by set_solver.
    assert (linked E' u current) as Hlink by (apply linked_sym; unfold linked; set_solver).
    destruct (IH u ({[current]} ∪ T) E') as (T'&E''&Hat&HT&Hin'&HE&Hig&Hall&Hends&Hkey).
    + done.
    + done.
    + split; [set_solver|set_solver| | | |].
      * intros v [->%elem_of_singleton|Hv]%elem_of_union Hv0; [lia|]. specialize (A3 v Hv Hv0). lia.
      * intros e [->%elem_of_singleton|He]%elem_of_union; [|auto].
        exists u, current. split; [apply ordered_edge_comm|done].
      * intros v [->%elem_of_singleton|Hv]%elem_of_union.
        -- right. split; [|done]. by apply rtc_once.
        -- destruct (A5 v Hv) as [Hc|[Hc Hv0]]; [left|right]; [by eapply rtc_linked_mono|].
           split; [|done]. eapply rtc_l; [exact Hlink|]. by eapply rtc_linked_mono.
      * intros e [->%elem_of_singleton|He]%elem_of_union; [|specialize (A6 e He); set_solver].
        destruct (ordered_edge current u) as [x y] eqn:Ee. apply ordered_edge_ends in Ee. simpl. set_solver.
    + intros v Hv. eapply rtc_linked_mono; [done|auto].
    + rewrite size_union, size_singleton by set_solver. lia.
    + exists T', E''. split_and!; [done|set_solver|set_solver|set_solver|done|done|done|].
      rewrite Hkey. unfold set_key. rewrite weight_insert by done. lia.
Qed.
End Attach.

(** ** The loop *)

Context (Hfree : node_key (start context) = 0).

(** The new relays that a set of systems needs. *)
Definition relays (V : gset nat) : Z := Z.of_nat (size (new_sites (node_cost context) V)).

Lemma set_key_relays V : set_key V = relays V * 2 ^ 32 + Z.of_nat (size V).
Proof.
  unfold relays. rewrite <- (weight_new_sites _ Hcosts), <- weight_size. unfold set_key.
  induction V as [|v V Hv IH] using set_ind_L; [done|]. rewrite !weight_insert by done. lia.
Qed.

(** The tree built so far. *)
Record growing (T : gset nat) (E : gset (nat * nat)) (total : Z) : Prop := {
  gr_start : start context ∈ T;
  gr_range v : v ∈ T → (v < n)%nat;
  gr_graph : in_graph graph E;
  gr_linked v : v ∈ T → rtc (linked E) (start context) v;
  gr_ends e : e ∈ E → e.1 ∈ T ∧ e.2 ∈ T;
  gr_total : relays T ≤ total;
}.

Lemma tree_values_closed T :
  (∀ v, v ∈ T → (v < n)%nat) →
  ∃ vs ps, metric_closure graph (node_cost context) (tree_values graph T) (replicate n NoParent) = Some (vs, ps)
    ∧ closed_row graph (node_cost context) (tree_values graph T) (replicate n NoParent) 0 vs ps.
Proof.
  intros HT. apply metric_closure_closed; try done; try lia.
  - unfold tree_values. by rewrite length_fmap, length_seq.
  - by rewrite length_replicate.
  - intros v. rewrite at_tree_values by done. case_decide; [right|by left]. by unfold small; simpl.
Qed.

(** A vertex that the graph connects to a member has a finite distance. *)
Lemma reachable_finite T vs ps u v :
  (∀ x, x ∈ T → (x < n)%nat) →
  closed_row graph (node_cost context) (tree_values graph T) (replicate n NoParent) 0 vs ps →
  u ∈ T → rtc (λ a b, b ∈ neighbors graph a) u v → at_ vs v ≠ INF.
Proof.
  intros HT Hrow Hu Hrtc.
  assert (at_ vs u ≠ INF) as Hfu.
  { intros E. pose proof (at_member T HT vs ps Hrow u Hu) as Hk. by rewrite E, cost_key_INF in Hk. }
  revert Hfu. clear Hu. induction Hrtc as [x|x y z Hxy _ IH]; [done|]. intros Hfx. apply IH. intros E.
  pose proof (cr_edge _ _ _ _ _ _ _ Hrow x y Hfx Hxy) as Hle. rewrite E, cost_key_INF in Hle.
  pose proof (cost_of_small (node_cost context) y Hcosts) as Hs.
  destruct (cr_small _ _ _ _ _ _ _ Hrow x) as [|Hx]; [done|].
  unfold small, cost_key in *. rewrite INF_COMPONENT_eq in Hn. lia.
Qed.

Lemma relays_below V : (∀ v, v ∈ V → (v < n)%nat) → relays V ≤ u32_max.
Proof.
  intros HV. unfold relays. assert (size (new_sites (node_cost context) V) ≤ size V)%nat as Hle.
  { apply subseteq_size. unfold new_sites. set_solver. }
  pose proof (size_below V n HV). rewrite INF_COMPONENT_eq in Hn. unfold u32_max. lia.
Qed.

#[local] Instance nearest_total vs : (∀ v, small INF_COMPONENT (at_ vs v)) → TotalLeb (nearest_leb vs).
Proof.
  intros Hs.
  assert (∀ a b, nearest_leb vs a b = true ↔
    cost_key (at_ vs a) < cost_key (at_ vs b) ∨ cost_key (at_ vs a) = cost_key (at_ vs b) ∧ (a ≤ b)%nat) as Hspec.
  { intros a b. unfold nearest_leb, entry_before. simpl.
    rewrite orb_true_iff, andb_true_iff, cost_ltb_key, bool_decide_eq_true, Nat.leb_le by done.
    split; (intros [|[Heq ?]]; [auto|right; split; [|done]]); [by rewrite Heq|by apply cost_key_inj]. }
  split.
  - intros a b. rewrite !Hspec. lia.
  - intros a b c. rewrite !Hspec. lia.
Qed.

(** One terminal more. *)
Lemma attach_growing T E total next vs ps :
  growing T E total → (next < n)%nat →
  closed_row graph (node_cost context) (tree_values graph T) (replicate n NoParent) 0 vs ps →
  at_ vs next ≠ INF →
  ∃ T' E', attach (S n) ps next T E = Some (T', E') ∧ T ⊆ T' ∧ next ∈ T'
    ∧ growing T' E' (saturating_add_u32 total (new_relays (at_ vs next))).
Proof.
  intros [G1 G2 G3 G4 G6 G5] Hnext Hrow Hfin.
  destruct (attach_ok T G2 vs ps Hrow (S n) (start context) next T E) as (T'&E'&Hat&HT&Hin&HE&Hig&Hall&Hends&Hkey);
    [done|done|split; auto; [done|]; intros e He; specialize (G6 e He); set_solver|auto|lia|].
  exists T', E'. split_and!; [done..|]. split; [set_solver|apply Hall|done|apply Hall|done|].
  pose proof (relays_below T' (λ v Hv, proj1 (Hall v Hv))) as Hb.
  rewrite !set_key_relays in Hkey. pose proof (subseteq_size _ _ HT).
  destruct (cr_small _ _ _ _ _ _ _ Hrow next) as [|Hs]; [done|].
  unfold saturating_add_u32. unfold small, cost_key in *. rewrite INF_COMPONENT_eq in *. lia.
Qed.

(** The loop ends: without a tree only when the graph does not connect the start to a
    remaining terminal. *)
Lemma greedy_loop_ok fuel remaining T E total :
  growing T E total → (length remaining < fuel)%nat → Forall (λ v, (v < n)%nat) remaining →
  (greedy_loop graph context fuel remaining T E total = Ok None
     ∧ ∃ v, v ∈ remaining ∧ ¬ rtc (λ a b, b ∈ neighbors graph a) (start context) v)
  ∨ ∃ gt T', greedy_loop graph context fuel remaining T E total = Ok (Some gt)
      ∧ growing T' (gt_edges gt) (gt_new_relays gt) ∧ T ⊆ T' ∧ ∀ v, v ∈ remaining → v ∈ T'.
Proof.
  revert remaining T E total. induction fuel as [|fuel IH]; intros remaining T E total HG Hf Hr; [lia|]. cbn [greedy_loop].
  case_decide as Hemp.
  { right. subst. eexists _, T. split_and!; [done|done|done|]. by intros v ?%elem_of_nil. }
  destruct (tree_values_closed T (gr_range _ _ _ HG)) as (vs&ps&->&Hrow).
  assert (∀ v, small INF_COMPONENT (at_ vs v)) as Hs.
  { intros v. destruct (cr_small _ _ _ _ _ _ _ Hrow v) as [->|?]; [apply small_INF|].
    eapply small_le; [|done]. lia. }
  pose proof (@min_by_spec _ (nearest_leb vs) (nearest_total vs Hs) remaining) as Hmin.
  destruct (min_by (nearest_leb vs) remaining) as [next|]; [|done]. destruct Hmin as [Hin _].
  assert (next < n)%nat as Hnext by (by rewrite Forall_forall in Hr; apply Hr).
  case_decide as Hinf.
  { left. split; [done|]. exists next. split; [done|]. intros Hrtc.
    eapply (reachable_finite T vs ps _ next (gr_range _ _ _ HG) Hrow); [apply HG|done|done]. }
  destruct (attach_growing T E total next vs ps HG Hnext Hrow Hinf) as (T'&E'&->&HT&Hin'&HG').
  destruct (IH (filter (λ v, v ≠ next) remaining) T' E' (saturating_add_u32 total (new_relays (at_ vs next))))
    as [[Hres (v&Hv&Hun)]|(gt&T''&Hres&HG''&HTT&Hall)].
  - done.
  - assert (length (filter (λ v, v ≠ next) remaining) < length remaining)%nat; [|lia].
    by apply (length_filter_lt _ remaining next); [|tauto].
  - apply Forall_forall. intros v [_ Hv]%list_elem_of_filter. rewrite Forall_forall in Hr. auto.
  - left. split; [done|]. exists v. apply list_elem_of_filter in Hv as [_ ?]. done.
  - right. exists gt, T''. split_and!; [done|done|set_solver|]. intros v Hv.
    destruct (decide (v = next)) as [->|]; [set_solver|]. apply Hall, list_elem_of_filter. done.
Qed.

(** ** The tree *)

Context (terminals : list nat) (Hterminals : Forall (λ v, (v < n)%nat) terminals).
Context (Hstart : start context ∈ terminals).

Lemma initial_growing : growing {[start context]} ∅ 0.
Proof.
  assert (start context < n)%nat as Hsn by (by rewrite Forall_forall in Hterminals; apply Hterminals).
  split; [set_solver|set_solver|unfold in_graph; set_solver| |set_solver|].
  - intros v ->%elem_of_singleton. apply rtc_refl.
  - pose proof (weight_new_sites _ Hcosts {[start context]}) as Hw. unfold weight in Hw.
    rewrite elements_singleton in Hw. simpl in Hw. unfold relays. lia.
Qed.

Lemma network_reaches X v :
  network graph terminals (start context) X → v ∈ terminals →
  rtc (λ a b, b ∈ neighbors graph a) (start context) v.
Proof.
  intros HX Hv. eapply rtc_subrel; [|apply HX, HX, Hv]. by intros x y [? _].
Qed.

(** The greedy tree fails only when there is no network; otherwise its edges connect the
    terminals, and a network among them takes no more new relays than it counts. *)
Lemma greedy_terminal_tree_ok :
  (greedy_terminal_tree graph context terminals = Ok None ∧ ∀ X, ¬ network graph terminals (start context) X)
  ∨ ∃ gt, greedy_terminal_tree graph context terminals = Ok (Some gt)
      ∧ in_graph graph (gt_edges gt) ∧ (∀ v, v ∈ terminals → rtc (linked (gt_edges gt)) (start context) v)
      ∧ ∃ X, network graph terminals (start context) X ∧ relays X ≤ gt_new_relays gt.
Proof.
  unfold greedy_terminal_tree. set (rest := sort_by _ _).
  assert (∀ v, v ∈ rest ↔ v ∈ terminals ∧ v ≠ start context) as Hrest.
  { intros v. unfold rest. rewrite elem_of_sort_by, elem_of_elements, elem_of_list_to_set, list_elem_of_filter. tauto. }
  destruct (greedy_loop_ok (S (length rest)) rest {[start context]} ∅ 0 initial_growing)
    as [[-> (v&Hv&Hun)]|(gt&T&->&[G1 G2 G3 G4 G6 G5]&_&Hall)]; [lia| | |].
  - apply Forall_forall. intros v [Hv _]%Hrest. rewrite Forall_forall in Hterminals. auto.
  - left. split; [done|]. intros X HX. apply Hun. apply (network_reaches X v); [done|]. by apply Hrest.
  - assert (∀ v, v ∈ terminals → rtc (linked (gt_edges gt)) (start context) v) as Hconn.
    { intros v Hv. apply G4. destruct (decide (v = start context)) as [->|]; [done|]. apply Hall, Hrest. done. }
    right. exists gt. split_and!; [done..|].
    destruct (finish_tree_ok graph terminals Hgraph (start context) (gt_edges gt) Hstart G3 Hconn)
      as (V&E&_&HT&HE&Hnet&_).
    exists V. split; [done|]. etrans; [|exact G5]. unfold relays. apply inj_le, subseteq_size.
    assert (V ⊆ T) as HVT; [|unfold new_sites; set_solver]. intros v Hv.
    destruct (tree_vertices _ _ _ _ HT Hv) as [->|(e&He&Hev)]; [done|].
    destruct (G6 e ltac:(set_solver)). by destruct Hev as [<-|<-].
Qed.
End Greedy.
