(* ===== verification/RelayOrientFacts.v ===== *)
(** * The orientation of a relay tree

    [orient] of [crates/replicant-route-planner/src/lib.rs]: the walk from the start lists
    every system of the tree once, each after the system it hangs on. *)

From S2P Require Import Prelude Float64 RelayGraph RelaySolver RelayTravel RelayDiagnostics.
From S2P Require Import RelayPlan RelayTreeFacts.
Import Relay Steiner Planner.

Section Orient.
Context (graph : StarGraph) (start : nat) (V : gset nat) (E : gset (nat * nat)).
Context (Htree : tree start V E) (Hordered : ordered E).

(** The systems met so far, in the order they were met. *)
Definition line (o : Orientation) : list nat := traversal o ++ queue o.

(** A parent is met before its child, one level above it. *)
Definition hangs_on (o : Orientation) (l : list nat) (i v : nat) : Prop :=
  ∃ u j d, parents o !! v = Some (Some u) ∧ linked E u v ∧ l !! j = Some u ∧ (j < i)%nat
    ∧ depths o !! u = Some d ∧ depths o !! v = Some (S d).

(** The walk while the neighbours [rest] of [x] are still to be looked at. *)
Record orienting (x : nat) (rest : list nat) (o : Orientation) : Prop := {
  og_nodup : NoDup (line o);
  og_dom v : is_Some (parents o !! v) ↔ v ∈ line o;
  og_first : line o !! 0%nat = Some start;
  og_start : parents o !! start = Some None ∧ depths o !! start = Some 0%nat;
  og_parent i v : line o !! i = Some v → v ≠ start → hangs_on o (line o) i v;
  og_expanded v w : v ∈ traversal o → linked E v w → v ≠ x ∨ w ∉ rest → w ∈ line o;
  og_tree v : v ∈ line o → v ∈ V;
}.

Definition unmet (o : Orientation) : nat := size (V ∖ list_to_set (line o)).

Lemma elem_of_tree_neighbors v w : w ∈ tree_neighbors graph E v ↔ linked E v w.
Proof. unfold tree_neighbors. rewrite elem_of_sort_by. by apply elem_of_incident. Qed.

Lemma linked_in_tree v w : linked E v w → w ∈ V.
Proof.
  intros Hl. pose proof (tree_endpoints _ _ _ _ Htree Hl) as [H1 H2].
  destruct (ordered_edge v w) as [a b] eqn:Ee. apply ordered_edge_ends in Ee. simpl in *.
  destruct Ee as [[-> ->]|[-> ->]]; done.
Qed.

Lemma adopt_orienting x w rest o :
  linked E x w → x ∈ traversal o → orienting x (w :: rest) o →
  orienting x rest (adopt x o w) ∧ x ∈ traversal (adopt x o w)
  ∧ (length (queue (adopt x o w)) + unmet (adopt x o w) ≤ length (queue o) + unmet o)%nat.
Proof.
  intros Hl Hx [O1 O2 O3 O4 O5 O6 O7]. unfold adopt. destruct (parents o !! w) as [p|] eqn:Hp.
  - split_and!; [|done|done]. split; try done. intros v y Hv Hvy Hor.
    destruct (decide (v = x ∧ y = w)) as [[-> ->]|]; [apply O2; eauto|]. apply (O6 v); try done.
    destruct Hor; [auto|]. destruct (decide (v = x)); [|auto]. right. set_solver.
  - assert (w ∉ line o) as Hw by (rewrite <- O2, Hp; by intros []).
    assert (∀ P D, line {| parents := P; depths := D; traversal := traversal o; queue := queue o ++ [w] |}
      = line o ++ [w]) as Hline by (intros; unfold line; simpl; by rewrite app_assoc).
    assert (x ∈ line o) as Hxl by (unfold line; set_solver).
    apply list_elem_of_lookup in Hxl as [j Hj].
    assert (is_Some (depths o !! x)) as [dx Hdx].
    { destruct (decide (x = start)) as [->|Hne]; [destruct O4 as [_ ->]; eauto|].
      destruct (O5 j x Hj Hne) as (u&k&d&_&_&_&_&_&->). eauto. }
    assert (start ≠ w) as Hsw.
    { intros <-. apply Hw, list_elem_of_lookup. eauto. }
    split_and!; simpl; [|done|].
    + split; simpl; rewrite ?Hline.
      * apply NoDup_app. split_and!; [done| |apply NoDup_singleton]. set_solver.
      * intros v. rewrite elem_of_app, list_elem_of_singleton, <- O2.
        destruct (decide (v = w)) as [->|Hne]; [rewrite lookup_insert_eq; naive_solver|].
        rewrite lookup_insert_ne by done. naive_solver.
      * by apply lookup_app_l_Some.
      * rewrite !lookup_insert_ne by done. done.
      * intros i v [Hi|[Hi Hv]]%lookup_app_Some Hne.
        -- destruct (O5 i v Hi Hne) as (u&k&d&H1&H2&H3&H4&H5&H6).
           assert (v ≠ w) by (intros ->; apply Hw, list_elem_of_lookup; eauto).
           assert (u ≠ w) by (intros ->; apply Hw, list_elem_of_lookup; eauto).
           exists u, k, d. simpl. rewrite !lookup_insert_ne by done.
           split_and!; try done. by apply lookup_app_l_Some.
        -- apply list_lookup_singleton_Some in Hv as [? <-].
           exists x, j, dx. simpl. rewrite !lookup_insert_eq, Hdx.
           assert (x ≠ w) by (intros ->; apply Hw, list_elem_of_lookup; eauto).
           rewrite lookup_insert_ne by done. split_and!; try done; [by apply lookup_app_l_Some|].
           apply lookup_lt_Some in Hj. lia.
      * intros v y Hv Hvy Hor. rewrite elem_of_app.
        destruct (decide (y = w)) as [->|Hne]; [right; by apply list_elem_of_singleton|].
        left. apply (O6 v); [done..|]. destruct Hor; [auto|]. right. set_solver.
      * intros v [?| ->%list_elem_of_singleton]%elem_of_app; [auto|by eapply linked_in_tree].
    + rewrite length_app. simpl. unfold unmet. rewrite Hline.
      assert (w ∈ V ∖ list_to_set (line o)) as Hin.
      { apply elem_of_difference. rewrite elem_of_list_to_set. split; [by eapply linked_in_tree|done]. }
      assert (size (V ∖ list_to_set (line o ++ [w])) < size (V ∖ list_to_set (line o)))%nat; [|lia].
      apply subset_size. split; [set_solver|]. intros Hsub. specialize (Hsub w Hin). set_solver.
Qed.

Lemma adopt_all_orienting x rest o :
  (∀ w, w ∈ rest → linked E x w) → x ∈ traversal o → orienting x rest o →
  orienting x [] (foldl (adopt x) o rest)
  ∧ (length (queue (foldl (adopt x) o rest)) + unmet (foldl (adopt x) o rest) ≤ length (queue o) + unmet o)%nat.
Proof.
  revert o. induction rest as [|w rest IH]; intros o Hl Hx Ho; simpl; [done|].
  destruct (adopt_orienting x w rest o) as (Ho'&Hx'&Hle); [apply Hl; constructor|done|done|].
  destruct (IH (adopt x o w)) as [? ?]; [intros; apply Hl; by constructor|done|done|]. split; [done|lia].
Qed.

Lemma orient_loop_ok fuel y o :
  orienting y [] o → (length (queue o) + unmet o < fuel)%nat →
  ∃ o' y', orient_loop graph fuel E o = Some o' ∧ orienting y' [] o' ∧ queue o' = [].
Proof.
  revert y o. induction fuel as [|fuel IH]; intros y o Ho Hf; [lia|]. simpl.
  destruct (queue o) as [|x q] eqn:Hq; [eauto|]. simpl in Hf.
  set (o1 := {| parents := parents o; depths := depths o; traversal := traversal o ++ [x]; queue := q |}).
  assert (line o1 = line o) as Hline by (unfold line; simpl; by rewrite Hq, <- app_assoc).
  destruct (adopt_all_orienting x (tree_neighbors graph E x) o1) as [Ho' Hle].
  - intros w. apply elem_of_tree_neighbors.
  - simpl. set_solver.
  - destruct Ho as [O1 O2 O3 O4 O5 O6 O7]. split; rewrite ?Hline; try done.
    simpl. intros v w [Hv| ->%list_elem_of_singleton]%elem_of_app Hvw Hor.
    + apply (O6 v); [done..|]. right. apply not_elem_of_nil.
    + destruct Hor as [|Hn]; [done|]. destruct Hn. by apply elem_of_tree_neighbors.
  - eapply IH; [exact Ho'|]. unfold unmet in *. rewrite Hline in Hle. simpl in *. lia.
Qed.

(** The oriented tree. *)
Record oriented (o : Orientation) : Prop := {
  od_nodup : NoDup (traversal o);
  od_members v : v ∈ traversal o ↔ v ∈ V;
  od_first : traversal o !! 0%nat = Some start;
  od_parents v : is_Some (parents o !! v) ↔ v ∈ V;
  od_start : parents o !! start = Some None ∧ depths o !! start = Some 0%nat;
  od_parent i v : traversal o !! i = Some v → v ≠ start → hangs_on o (traversal o) i v;
}.

Lemma orient_loop_oriented :
  ∃ o, orient_loop graph (S (S (2 * size E))) E
         {| parents := {[start := None]}; depths := {[start := 0%nat]}; traversal := []; queue := [start] |} = Some o
       ∧ oriented o.
Proof.
  set (o0 := {| parents := _; depths := _; traversal := _; queue := _ |}).
  destruct (orient_loop_ok (S (S (2 * size E))) start o0) as (o&y&Hl&[O1 O2 O3 O4 O5 O6 O7]&Hq).
  - split; simpl; rewrite ?lookup_singleton_eq; try done.
    + apply NoDup_singleton.
    + intros v. unfold line. simpl. rewrite list_elem_of_singleton.
      destruct (decide (v = start)) as [->|Hne]; [rewrite lookup_singleton_eq; naive_solver|].
      rewrite lookup_singleton_ne by done. split; [by intros []|done].
    + intros i v Hi Hne. apply list_lookup_singleton_Some in Hi as [_ <-]. done.
    + set_solver.
    + intros v ->%list_elem_of_singleton. by eapply tree_has_root.
  - simpl. pose proof (tree_size _ _ _ Htree) as Hs. unfold unmet.
    assert (size (V ∖ list_to_set (line o0)) < size V)%nat as Hlt; [|lia].
    apply subset_size. split; [set_solver|]. intros Hsub.
    specialize (Hsub start (tree_has_root _ _ _ Htree)). unfold line in Hsub. simpl in Hsub. set_solver.
  - exists o. split; [done|]. unfold line in *. rewrite Hq, app_nil_r in *.
    assert (∀ v, v ∈ V → v ∈ traversal o) as Hall.
    { intros v Hv. pose proof (tree_connected _ _ _ _ Htree Hv) as Hrtc.
      assert (start ∈ traversal o) as Hs by (apply list_elem_of_lookup; eauto).
      clear Hv Htree O7 O5 O4 O3 Hl o0. revert Hs.
      induction Hrtc as [a|a b c Hab _ IH]; [done|]. intros Ha. apply IH.
      apply (O6 a); [done..|]. right. apply not_elem_of_nil. }
    split; try done.
    + intros v. split; [auto|apply Hall].
    + intros v. rewrite O2. split; [auto|apply Hall].
Qed.
End Orient.
