(* ===== verification/RelayPlanFacts.v ===== *)
(** * Relay plans

    What a plan of [plan_relay_network_within]
    ([crates/replicant-route-planner/src/lib.rs]) promises: the request resolves to distinct
    vertices, the tree chosen is a network with the fewest new relays when it is marked
    optimal and a network in any case, and the plan lists that network with every system
    after the one it hangs on. *)

From S2P Require Import Prelude Float64 RelayGraph RelaySolver RelayTravel RelayDiagnostics.
From S2P Require Import RelayPlan RelayClosureFacts RelayTableFacts RelayTreeFacts.
From S2P Require Import RelaySolutionFacts RelayGraphFacts RelayGreedyFacts RelayOrientFacts.
Import Relay Steiner Planner.

Lemma length_filter_fmap {A B} (f : A → B) (P : B → Prop) `{!∀ x, Decision (P x)} l :
  length (filter P (f <$> l)) = length (filter (λ x, P (f x)) l).
Proof.
  induction l as [|x l IH]; [done|]. rewrite fmap_cons, !filter_cons. case_decide; simpl; by rewrite IH.
Qed.

(** ** Target names *)

Lemma dedup_cons2 a b l : dedup (a :: b :: l) = if decide (a = b) then dedup (b :: l) else a :: dedup (b :: l).
Proof. done. Qed.

Lemma elem_of_dedup l x : x ∈ dedup l ↔ x ∈ l.
Proof.
  induction l as [|a [|b l] IH]; [done..|]. rewrite dedup_cons2. case_decide as E.
  - subst. rewrite IH. set_solver.
  - rewrite !(elem_of_cons _ _ a), IH. done.
Qed.

Lemma NoDup_dedup l : StronglySorted (λ a b, String.leb a b = true) l → NoDup (dedup l).
Proof.
  induction l as [|a [|b l] IH]; intros Hs; [constructor|apply NoDup_singleton|]. rewrite dedup_cons2.
  apply StronglySorted_inv in Hs as [Hs Ha]. case_decide as E; [by apply IH|].
  constructor; [|by apply IH]. rewrite elem_of_dedup. intros Hin.
  apply elem_of_cons in Hin as [->|Hin]; [done|].
  apply StronglySorted_inv in Hs as [_ Hb]. rewrite Forall_forall in Ha, Hb. destruct E.
  apply leb_antisym; [apply Ha; constructor|by apply Hb].
Qed.

Lemma NoDup_target_names request : NoDup (target_names request).
Proof.
  unfold target_names. apply NoDup_filter, NoDup_dedup.
  apply (StronglySorted_sort_by String.leb).
Qed.

Lemma elem_of_target_names request x :
  x ∈ target_names request ↔ x ∈ rq_targets request ∧ x ≠ rq_start request.
Proof. unfold target_names. rewrite list_elem_of_filter, elem_of_dedup, elem_of_sort_by. tauto. Qed.

(** ** The request on a graph *)

Section Context.
Context (graph : StarGraph) (catalogue : list Star) (max_hop : F64.t) (ranges : gmap string F64.t).
Context (Hbuilt : built graph catalogue max_hop ranges).
Abbreviation n := (length (stars graph)).

Lemma resolve_Ok d i : resolve graph d = Ok i ↔ ∃ s, stars graph !! i = Some s ∧ designation s = d.
Proof. unfold resolve. rewrite ok_or_Ok. apply Hbuilt. Qed.

Lemma resolve_inj d d' i : resolve graph d = Ok i → resolve graph d' = Ok i → d = d'.
Proof. rewrite !resolve_Ok. naive_solver. Qed.

Lemma resolve_lt d i : resolve graph d = Ok i → (i < n)%nat.
Proof. rewrite resolve_Ok. intros (s&Hs&_). by eapply lookup_lt_Some. Qed.

Lemma name_of_resolve v d : resolve graph d = Ok v → name_of graph v = d.
Proof. rewrite resolve_Ok. unfold name_of, Diagnostics.star_name. by intros (s&->&<-). Qed.

Lemma name_of_inj u v : (u < n)%nat → (v < n)%nat → name_of graph u = name_of graph v → u = v.
Proof.
  intros Hu Hv. unfold name_of, Diagnostics.star_name.
  destruct (lookup_lt_is_Some_2 (stars graph) u Hu) as [s Es], (lookup_lt_is_Some_2 (stars graph) v Hv) as [s' Es'].
  rewrite Es, Es'. simpl. intros Heq. eapply (NoDup_lookup (designation <$> stars graph)); [apply Hbuilt|..];
    rewrite list_lookup_fmap; [by rewrite Es|]. by rewrite Es', Heq.
Qed.

(** Whether a vertex needs a new relay. *)
Definition is_new (context : SolverContext) (v : nat) : bool :=
  bool_decide (v ≠ start context) && bool_decide (v ∉ active context) && bool_decide (v ∉ inactive context).

Record resolved (context : SolverContext) (names : list string) (request : RelayNetworkRequest) : Prop := {
  rs_start : resolve graph (rq_start request) = Ok (start context);
  rs_targets : Forall2 (λ d i, resolve graph d = Ok i) names (targets context);
  rs_terminals : NoDup (terminals context);
  rs_range : Forall (λ v, (v < n)%nat) (terminals context);
  rs_costs : costs_wf (node_cost context);
  rs_cost v : (v < n)%nat → cost_of (node_cost context) v = node (is_new context v);
}.

Lemma resolve_context_resolved request names context :
  NoDup names → rq_start request ∉ names →
  resolve_context graph request names = Ok context → resolved context names request.
Proof.
  intros Hnd Hstart. unfold resolve_context. rewrite result_bind_Ok. intros (s&Hs&H).
  apply result_bind_Ok in H as (ts&Hts&[= <-]). apply mapM_Ok in Hts.
  assert (NoDup ts) as Hnd'.
  { apply NoDup_alt. intros i j v Hi Hj.
    destruct (Forall2_lookup_r _ _ _ _ _ Hts Hi) as (d&Hd&Rd), (Forall2_lookup_r _ _ _ _ _ Hts Hj) as (d'&Hd'&Rd').
    pose proof (resolve_inj _ _ _ Rd Rd') as <-. by eapply NoDup_lookup. }
  split; simpl; try done.
  - constructor; [|done]. intros (i&Hi)%list_elem_of_lookup.
    destruct (Forall2_lookup_r _ _ _ _ _ Hts Hi) as (d&Hd&Rd).
    pose proof (resolve_inj _ _ _ Hs Rd) as <-. apply Hstart, list_elem_of_lookup. eauto.
  - constructor; [by eapply resolve_lt|]. apply Forall_lookup. intros i v Hi.
    destruct (Forall2_lookup_r _ _ _ _ _ Hts Hi) as (d&_&Rd). by eapply resolve_lt.
  - apply Forall_fmap, Forall_forall. intros v _. by eexists.
  - intros v Hv. unfold cost_of. rewrite list_lookup_fmap, lookup_seq_lt by done. done.
Qed.

Lemma terminals_start context : start context ∈ terminals context.
Proof. constructor. Qed.

(** The search that the limit admits stays below infinity. *)
Lemma limited_solver_wf context names request limit :
  resolved context names request → limit ≤ EXACT_STATE_LIMIT →
  ¬ limit < Z.min usize_max (Z.of_nat (mask_count (terminals context)) * Z.of_nat n) →
  solver_wf graph (node_cost context) (terminals context).
Proof.
  intros [H1 H2 H3 H4 H5 H6] Hlim Hstates. split; [by eapply bu_wf|done|done|].
  assert (0 < n)%nat as Hn by (apply Forall_cons in H4 as [? _]; lia).
  rewrite mask_count_eq in Hstates. set (k := length (terminals context)) in *.
  assert (N.of_nat k < 2 ^ N.of_nat k)%N as Hk by (apply N.pow_gt_lin_r; lia).
  unfold EXACT_STATE_LIMIT, usize_max, u64_max in *. rewrite INF_COMPONENT_eq.
  set (p := (2 ^ N.of_nat k)%N) in *. rewrite N_nat_Z in Hstates.
  assert (Z.of_nat k < Z.of_N p) by lia. 
  assert (Z.of_N p * Z.of_nat n ≤ 64000000) by lia. nia.
Qed.

(** ** The tree *)

Context (context : SolverContext) (names : list string) (request : RelayNetworkRequest).
Context (Hres : resolved context names request) (Hn : Z.of_nat n + 2 < INF_COMPONENT).
Abbreviation network := (network graph (terminals context) (start context)).

Lemma start_is_free : cost_key (cost_of (node_cost context) (start context)) = 0.
Proof.
  pose proof (rs_range _ _ _ Hres) as Hr. apply Forall_cons in Hr as [Hs _].
  rewrite (rs_cost _ _ _ Hres) by done. unfold is_new. rewrite bool_decide_false by tauto. done.
Qed.

(** The tree that the plan is made for. *)
Record chosen (V : gset nat) (E : gset (nat * nat)) (optimal : bool) : Prop := {
  ch_tree : tree (start context) V E;
  ch_graph : in_graph graph E;
  ch_network : network V;
  ch_optimal X : optimal = true → network X → at_most_as_costly (node_cost context) V X;
}.

(** The search ends: with an error when no network exists, and otherwise with a network
    that is one of the cheapest when it is marked so. *)
Lemma choose_tree_ok limit :
  limit ≤ EXACT_STATE_LIMIT →
  (∃ e, choose_tree graph context limit = Err e ∧ ∀ X, ¬ network X)
  ∨ ∃ V E optimal, choose_tree graph context limit = Ok (E, optimal) ∧ chosen V E optimal.
Proof.
  intros Hlim. pose proof (bu_wf _ _ _ _ Hbuilt) as Hg. unfold choose_tree. case_decide as Hl.
  - destruct (greedy_terminal_tree_ok graph context Hg (rs_costs _ _ _ Hres) Hn start_is_free
      (terminals context) (rs_range _ _ _ Hres) (terminals_start context))
      as [[-> Hno]|(gt&->&Hig&Hconn&_)]; cbn [mbind result_bind ok_or].
    + left. eauto.
    + right. destruct (finish_tree_ok graph (terminals context) Hg (start context) (gt_edges gt)
        (terminals_start context) Hig Hconn) as (V&E&->&HT&HE&Hnet&_). cbn [mbind result_bind].
      exists V, E, false. split; [done|]. split; try done. intros e He. apply Hig. set_solver.
  - pose proof (limited_solver_wf context names request limit Hres Hlim Hl) as Hwf.
    destruct (exact_tree_solves _ _ _ Hwf (start context) (rs_terminals _ _ _ Hres) (terminals_start context))
      as [[-> Hno]|(V&E&->&HT&Hig&Hnet&_&Hopt)]; cbn [mbind result_bind].
    + left. eauto.
    + right. exists V, E, true. split; [done|]. split; auto.
Qed.

(** ** The plan *)

(** The plan lists a set of systems, each after the one it hangs on. *)
Record describes (V : gset nat) (plan : RelayNetworkPlan) : Prop := {
  ds_nodup : NoDup (Travel.system <$> nodes plan);
  ds_systems d : d ∈ Travel.system <$> nodes plan ↔ ∃ v, v ∈ V ∧ resolve graph d = Ok v;
  ds_first node : nodes plan !! 0%nat = Some node → Travel.system node = rq_start request;
  ds_parent i node : nodes plan !! i = Some node → i ≠ 0%nat →
    ∃ j parent, (j < i)%nat ∧ nodes plan !! j = Some parent
      ∧ Travel.nn_parent node = Some (Travel.system parent) ∧ Travel.depth node = S (Travel.depth parent);
  ds_edges : S (length (edges plan)) = size V;
  ds_new : length (new_relay_systems plan) = size (new_sites (node_cost context) V);
}.

Lemma size_filter_list (P : nat → Prop) `{!∀ v, Decision (P v)} l (V : gset nat) :
  NoDup l → (∀ v, v ∈ l ↔ v ∈ V) → length (filter P l) = size (filter P V).
Proof.
  intros Hnd Hl. replace (filter P V) with (list_to_set (C := gset nat) (filter P l)).
  - symmetry. apply size_list_to_set. by apply NoDup_filter.
  - apply set_eq. intros v. rewrite elem_of_list_to_set, list_elem_of_filter, elem_of_filter, Hl. done.
Qed.

Lemma resolve_name_of v : (v < n)%nat → resolve graph (name_of graph v) = Ok v.
Proof.
  intros Hv. apply resolve_Ok. destruct (lookup_lt_is_Some_2 (stars graph) v Hv) as [s Es].
  exists s. split; [done|]. unfold name_of, Diagnostics.star_name. by rewrite Es.
Qed.

Section Oriented.
Context (V : gset nat) (E : gset (nat * nat)) (optimal : bool) (Hch : chosen V E optimal).
Context (o : Orientation) (Ho : oriented (start context) V E o).
Abbreviation node := (network_node graph (start context) (targets context) (active context) (inactive context) o).

Lemma chosen_range v : v ∈ V → (v < n)%nat.
Proof.
  apply (network_in_range graph (terminals context) (bu_wf _ _ _ _ Hbuilt) (start context)).
  - pose proof (rs_range _ _ _ Hres) as Hr. by apply Forall_cons in Hr as [? _].
  - apply Hch.
Qed.

Lemma oriented_nodup : NoDup (Travel.system <$> (node <$> traversal o)).
Proof.
  rewrite <- list_fmap_compose. apply NoDup_fmap_2_strong; [|apply Ho].
  intros u v Hu Hv. simpl. apply name_of_inj; apply chosen_range, (od_members _ _ _ _ Ho); done.
Qed.

Lemma oriented_systems d :
  d ∈ Travel.system <$> (node <$> traversal o) ↔ ∃ v, v ∈ V ∧ resolve graph d = Ok v.
Proof.
  rewrite <- list_fmap_compose, list_elem_of_fmap. split.
  - intros (v&->&Hv%(od_members _ _ _ _ Ho)). exists v. split; [done|]. simpl. apply resolve_name_of. by apply chosen_range.
  - intros (v&Hv&Hd). exists v. split; [|by apply (od_members _ _ _ _ Ho)]. simpl. by rewrite (name_of_resolve _ _ Hd).
Qed.

Lemma oriented_parent i x :
  (node <$> traversal o) !! i = Some x → i ≠ 0%nat →
  ∃ j y, (j < i)%nat ∧ (node <$> traversal o) !! j = Some y
    ∧ Travel.nn_parent x = Some (Travel.system y) ∧ Travel.depth x = S (Travel.depth y).
Proof.
  rewrite list_lookup_fmap. intros (v&Hv&->)%fmap_Some Hi.
  destruct (od_parent _ _ _ _ Ho i v Hv) as (u&j&d&Hp&_&Hj&Hji&Hdu&Hdv).
  { intros ->. apply Hi. eapply NoDup_lookup; [apply Ho|done|apply Ho]. }
  exists j, (node u). rewrite list_lookup_fmap, Hj. simpl. rewrite Hp, Hdu, Hdv. done.
Qed.

Lemma oriented_new :
  length (systems_with Travel.New (node <$> traversal o)) = size (new_sites (node_cost context) V).
Proof.
  unfold systems_with. rewrite length_fmap, length_filter_fmap.
  rewrite (size_filter_list _ _ V) by apply Ho. f_equal. unfold new_sites. apply set_eq. intros v.
  rewrite !elem_of_filter. simpl. split; (intros [Hc Hv]; split; [|done]); revert Hc.
  - intros [Hs%bool_decide_eq_false Hr]. rewrite (rs_cost _ _ _ Hres) by (by apply chosen_range).
    rewrite decide_False in Hr by done. unfold availability in Hr. unfold is_new.
    by repeat case_decide.
  - rewrite (rs_cost _ _ _ Hres) by (by apply chosen_range). unfold is_new, availability.
    intros Hc. repeat case_bool_decide; simplify_eq/=. rewrite !decide_False by done. done.
Qed.

Lemma oriented_edges (es : list NetworkEdge) :
  mapM (network_edge graph o) (filter (λ v, v ≠ start context) (traversal o)) = Ok es → S (length es) = size V.
Proof.
  intros Hes%mapM_Ok%Forall2_length. rewrite <- Hes.
  rewrite (size_filter_list _ _ V) by apply Ho.
  replace (filter (λ v, v ≠ start context) V) with (V ∖ {[start context]}).
  - rewrite size_difference; [rewrite size_singleton|]; pose proof (tree_has_root _ _ _ (ch_tree _ _ _ Hch));
      [|set_solver]. assert (size V ≠ 0%nat); [|lia]. intros ?%size_empty_inv. set_solver.
  - apply set_eq. intros v. rewrite elem_of_filter. set_solver.
Qed.
End Oriented.

(** A plan describes the tree it was made for. *)
Lemma orient_describes execution_graph max_hop' V E optimal plan :
  chosen V E optimal →
  orient graph execution_graph (start context) (targets context) (active context) (inactive context) max_hop' E
    optimal = Ok plan →
  describes V plan ∧ relay_tree_optimal plan = optimal.
Proof.
  intros Hch Horient.
  destruct (orient_loop_oriented graph (start context) V E (ch_tree _ _ _ Hch)) as (o&Hl&Ho).
  { intros e He. destruct (ch_graph _ _ _ Hch e He) as (u&v&->&_). apply ordered_edge_ordered. }
  unfold orient in Horient. rewrite Hl in Horient. cbn [ok_or mbind result_bind] in Horient.
  destruct (existsb _ _); [done|]. apply result_bind_Ok in Horient as (es&Hes&Horient).
  apply result_bind_Ok in Horient as (xs&_&Horient).
  destruct (Travel.optimize_execution_order _ _ _) as [[[[order opt] hs] d]|]; [|done].
  injection Horient as <-. split; [|done]. split; simpl.
  - by eapply oriented_nodup.
  - by eapply oriented_systems.
  - intros x. rewrite list_lookup_fmap, (od_first _ _ _ _ Ho). intros [= <-]. simpl.
    apply name_of_resolve, Hres.
  - by eapply oriented_parent.
  - by eapply oriented_edges.
  - by eapply oriented_new.
Qed.
End Context.

(** ** The graph that is searched *)

Lemma pruned_subset graph context kept :
  prune_to_relay_corridor graph context = Ok (Some kept) → ∀ s, s ∈ kept → s ∈ stars graph.
Proof.
  unfold prune_to_relay_corridor. case_decide; [done|]. intros Hp.
  apply result_bind_Ok in Hp as ([ds|]&_&Hp); [|done]. apply result_bind_Ok in Hp as ([b|]&_&Hp); [|done].
  case_decide; [|done]. injection Hp as <-. intros s (e&He&Hs)%list_elem_of_omap.
  apply elem_of_lookup_imap in He as (i&y&->&Hy). simpl in Hs. case_match; simplify_eq.
  apply list_elem_of_lookup. eauto.
Qed.

Lemma pruned_length graph context kept :
  prune_to_relay_corridor graph context = Ok (Some kept) → (length kept < length (stars graph))%nat.
Proof.
  unfold prune_to_relay_corridor. case_decide; [done|]. intros Hp.
  apply result_bind_Ok in Hp as ([ds|]&_&Hp); [|done]. apply result_bind_Ok in Hp as ([b|]&_&Hp); [|done].
  case_decide; [|done]. by injection Hp as <-.
Qed.

Lemma corridor_graph_Ok full full_context catalogue request ranges graph context :
  with_relay_ranges catalogue (max_hop_ly request) ranges = Ok full →
  resolve_context full request (target_names request) = Ok full_context →
  corridor_graph full full_context request ranges = Ok (graph, context) →
  ∃ kept, (∀ s, s ∈ kept → s ∈ catalogue) ∧ (length kept ≤ length catalogue)%nat
    ∧ with_relay_ranges kept (max_hop_ly request) ranges = Ok graph
    ∧ resolve_context graph request (target_names request) = Ok context.
Proof.
  intros Hfull Hctx Hp. apply result_bind_Ok in Hp as ([kept|]&Hk&Hp).
  - apply result_bind_Ok in Hp as (g&Hg&Hp). apply result_bind_Ok in Hp as (c&Hc&[= <- <-]).
    pose proof (bu_stars _ _ _ _ (with_relay_ranges_built _ _ _ _ Hfull)) as Hstars.
    exists kept. split_and!; [|..|done|done].
    + intros s Hs. apply (pruned_subset _ _ _ Hk) in Hs. by rewrite Hstars, elem_of_sort_by in Hs.
    + apply pruned_length in Hk. rewrite Hstars, sort_by_perm in Hk. lia.
  - injection Hp as <- <-. exists catalogue. done.
Qed.

Lemma plan_relay_network_Ok catalogue request ranges limit plan :
  plan_relay_network_within catalogue request ranges limit = Ok plan →
  ∃ full full_context graph context tree optimal,
    with_relay_ranges catalogue (max_hop_ly request) ranges = Ok full
    ∧ resolve_context full request (target_names request) = Ok full_context
    ∧ corridor_graph full full_context request ranges = Ok (graph, context)
    ∧ choose_tree graph context limit = Ok (tree, optimal)
    ∧ orient graph full (start context) (targets context) (active context) (inactive context)
        (max_hop_ly request) tree optimal = Ok plan.
Proof.
  unfold plan_relay_network_within. case_decide; [done|]. intros Hp.
  apply result_bind_Ok in Hp as (full&Hfull&Hp). case_decide; [done|].
  apply result_bind_Ok in Hp as (full_context&Hctx&Hp). case_decide; [done|].
  destruct (corridor_graph _ _ _ _) as [[graph context]|] eqn:Hcg; [|done].
  destruct (choose_tree _ _ _) as [[tree optimal]|] eqn:Hct; [|done]. naive_solver.
Qed.

Lemma resolve_request graph request context catalogue max_hop ranges :
  built graph catalogue max_hop ranges →
  resolve_context graph request (target_names request) = Ok context →
  resolved graph context (target_names request) request.
Proof.
  intros Hb. apply (resolve_context_resolved _ _ _ _ Hb); [apply NoDup_target_names|].
  intros [_ ?]%elem_of_target_names. done.
Qed.

Lemma built_size graph catalogue max_hop ranges :
  built graph catalogue max_hop ranges → length (stars graph) = length catalogue.
Proof. intros Hb. by rewrite (bu_stars _ _ _ _ Hb), sort_by_perm. Qed.


(** the search for a tree always decides: it fails exactly when the graph has no network
    of the terminals, by the exact search and by the greedy fallback alike. *)
Theorem relay_search_fails_iff_disconnected catalogue request ranges graph context limit :
  with_relay_ranges catalogue (max_hop_ly request) ranges = Ok graph →
  resolve_context graph request (target_names request) = Ok context →
  limit ≤ EXACT_STATE_LIMIT → Z.of_nat (length catalogue) + 2 < INF_COMPONENT →
  (∃ e, choose_tree graph context limit = Err e)
  ↔ ∀ V, ¬ network graph (terminals context) (start context) V.
Proof.
  intros Hg Hc Hlim Hn. pose proof (with_relay_ranges_built _ _ _ _ Hg) as Hb.
  pose proof (resolve_request _ _ _ _ _ _ Hb Hc) as Hr. pose proof (built_size _ _ _ _ Hb) as Hgs.
  destruct (choose_tree_ok _ _ _ _ Hb _ _ _ Hr ltac:(lia) limit Hlim) as [(e&He&Hno)|(V&E&opt&He&Hch)].
  - split; eauto.
  - split; [intros [e ?]; congruence|]. intros Hno. destruct (Hno V). apply Hch.
Qed.
