(* ===== verification/RelayTravelFacts.v ===== *)
(** * The deployment trip is dependency safe and shortest

    [optimize_execution_order] of [crates/replicant-route-planner/src/lib.rs]: every stop is
    visited once, after the stop its system hangs on; and when the order is marked optimal
    no other such round trip has fewer hops. *)

From S2P Require Import Prelude Float64 RelayGraph RelaySolver RelayTravel.
From S2P Require Import RelayGraphFacts RelayTableFacts.
Import Relay Travel.

Lemma min_by_elem {A} (leb : A → A → bool) l x : min_by leb l = Some x → x ∈ l.
Proof.
  unfold min_by. assert (∀ l o, foldl (λ best x, match best with
      | None => Some x | Some y => if leb y x then Some y else Some x end) o l = Some x → x ∈ l ∨ o = Some x) as Hf.
  { clear l. intros l. induction l as [|y l IH]; intros o; simpl; [auto|]. intros [?|?]%IH; [set_solver|].
    destruct o; repeat case_match; simplify_eq; set_solver. }
  intros Hx%Hf. naive_solver.
Qed.

(** ** Hops *)

(** A count of hops as [u32] saturates it. *)
Definition cap (hops : Z) : Z := Z.min u32_max hops.

Definition hops_ok (c : TravelCost) : Prop := 0 ≤ tc_hops c ≤ u32_max.

Lemma INF_ok : hops_ok INF.
Proof. unfold hops_ok, INF, u32_max. simpl. lia. Qed.

Lemma plus_hops a b : hops_ok a → hops_ok b → tc_hops (plus a b) = cap (tc_hops a + tc_hops b).
Proof.
  unfold hops_ok, plus, cap, Steiner.saturating_add_u32, u32_max. intros.
  case_decide; unfold INF; simpl; unfold u32_max; lia.
Qed.

Lemma plus_ok a b : hops_ok a → hops_ok b → hops_ok (plus a b).
Proof. intros Ha Hb. unfold hops_ok. rewrite plus_hops by done. unfold hops_ok, cap, u32_max in *. lia. Qed.

Lemma plus_INF a b : tc_hops a = u32_max ∨ tc_hops b = u32_max → plus a b = INF.
Proof. intros Hor. unfold plus. by rewrite decide_True. Qed.

Lemma better_than_hops a b : if better_than a b then tc_hops a ≤ tc_hops b else tc_hops b ≤ tc_hops a.
Proof. unfold better_than. destruct (F64.ltb _ _); repeat case_match; lia. Qed.

Lemma INF_not_better b : hops_ok b → better_than INF b = false.
Proof.
  intros [_ Hb]. unfold better_than. simpl.
  replace (F64.add F64.infinity EPSILON) with F64.infinity by (vm_compute; reflexivity).
  assert (F64.ltb F64.infinity (tc_distance b) = false) as -> by (by destruct (tc_distance b) as [|[]| |[]]).
  rewrite andb_false_r. apply orb_false_iff. split; [|done]. lia.
Qed.

(** ** Routes *)

Section Routes.
Context (stops : list NetworkNode) (prerequisites : list (option nat)) (costs : list (list TravelCost)).
Context (Hcosts : ∀ i j, hops_ok (leg costs i j)).
Abbreviation n := (length stops).
Abbreviation h i j := (tc_hops (leg costs i j)).
Abbreviation requires := (requires prerequisites).

(** A stop can be visited when the stop it depends on has been. *)
Definition allowed (visited : list nat) (stop : nat) : Prop :=
  ∀ parent, mjoin (prerequisites !! stop) = Some parent → parent ∈ visited.

(** Stops without repetition, each after the one it depends on. *)
Definition valid_order (l : list nat) : Prop :=
  NoDup l ∧ (∀ stop, stop ∈ l → (stop < n)%nat)
  ∧ ∀ i stop, l !! i = Some stop → allowed (take i l) stop.

(** The hops of a trip over some stops from a position. *)
Fixpoint trip_hops (position : nat) (l : list nat) : Z :=
  match l with
  | [] => 0
  | stop :: l => h position (S stop) + trip_hops (S stop) l
  end.

(** With the way back. *)
Definition round_trip_hops (l : list nat) : Z :=
  trip_hops 0 l + h (from_option S 0%nat (last l)) 0.

(** Partial trips: the stops visited as a mask, the last one, the hops, and the order. *)
Inductive route : N → nat → Z → list nat → Prop :=
| route_first next :
    (next < n)%nat → requires next = 0%N → route (bit next) next (h 0 (S next)) [next]
| route_next mask last next c l :
    route mask last c l → (next < n)%nat → N.land mask (bit next) = 0%N →
    N.land (requires next) mask = requires next →
    route (N.lor mask (bit next)) next (c + h (S last) (S next)) (l ++ [next]).

Lemma bit_spec stop i : N.testbit (bit stop) (N.of_nat i) = true ↔ i = stop.
Proof. unfold bit. rewrite N.pow2_bits_eqb, N.eqb_eq. split; [intros ?%Nat2N.inj; done|congruence]. Qed.

Lemma land_bit mask stop : N.land mask (bit stop) = 0%N ↔ N.testbit mask (N.of_nat stop) = false.
Proof.
  split.
  - intros Hd. apply (f_equal (λ x, N.testbit x (N.of_nat stop))) in Hd.
    rewrite N.land_spec, N.bits_0, (proj2 (bit_spec stop stop) eq_refl), andb_true_r in Hd. done.
  - intros Hb. apply N.bits_inj. intros i. rewrite N.land_spec, N.bits_0. unfold bit.
    rewrite N.pow2_bits_eqb. destruct (N.eqb_spec (N.of_nat stop) i); [subst; by rewrite Hb|apply andb_false_r].
Qed.

Lemma requires_spec next mask :
  N.land (requires next) mask = requires next
  ↔ ∀ parent, mjoin (prerequisites !! next) = Some parent → N.testbit mask (N.of_nat parent) = true.
Proof.
  unfold requires. destruct (mjoin (prerequisites !! next)) as [p|]; [|rewrite N.land_0_l; naive_solver]. split.
  - intros Hl parent [= <-]. apply (f_equal (λ x, N.testbit x (N.of_nat p))) in Hl.
    rewrite N.land_spec, (proj2 (bit_spec p p) eq_refl) in Hl. done.
  - intros Hp. specialize (Hp p eq_refl). apply N.bits_inj. intros i. rewrite N.land_spec. unfold bit.
    rewrite N.pow2_bits_eqb. destruct (N.eqb_spec (N.of_nat p) i); [subst; by rewrite Hp|done].
Qed.

Lemma route_bits mask last c l stop : route mask last c l → N.testbit mask (N.of_nat stop) = true ↔ stop ∈ l.
Proof.
  intros Hr. induction Hr as [next|mask last next c l Hr IH].
  - rewrite bit_spec, list_elem_of_singleton. done.
  - rewrite N.lor_spec, orb_true_iff, elem_of_app, list_elem_of_singleton, IH, bit_spec. done.
Qed.

Lemma route_last mask x c l : route mask x c l → last l = Some x.
Proof. destruct 1; [done|]. apply last_snoc. Qed.

Lemma trip_hops_snoc p l stop :
  trip_hops p (l ++ [stop]) = trip_hops p l + h (from_option S p (last l)) (S stop).
Proof.
  revert p. induction l as [|x l IH]; intros p; simpl; [lia|]. rewrite IH.
  destruct l as [|y l]; [simpl; lia|]. rewrite last_cons_cons.
  destruct (last (y :: l)) eqn:Hz; [simpl; lia|by apply last_None in Hz].
Qed.

Lemma valid_order_snoc l stop :
  valid_order (l ++ [stop]) ↔ valid_order l ∧ (stop ∉ l) ∧ (stop < n)%nat ∧ allowed l stop.
Proof.
  unfold valid_order. rewrite NoDup_app. setoid_rewrite elem_of_app. setoid_rewrite list_elem_of_singleton. split.
  - intros ((Hnd&Hd&_)&Hlt&Hal). split_and!; auto.
    + intros i x Hi. pose proof (lookup_lt_Some _ _ _ Hi).
      specialize (Hal i x (lookup_app_l_Some _ _ _ _ Hi)). by rewrite take_app_le in Hal by lia.
    + intros Hin. by apply (Hd stop Hin).
    + specialize (Hal (length l) stop). rewrite take_app_length in Hal. apply Hal.
      by rewrite list_lookup_middle.
  - intros ((Hnd&Hlt&Hal)&Hn&Hs&Ha). split_and!; [done| |apply NoDup_singleton| |].
    + intros x Hx ->. done.
    + naive_solver.
    + intros i x [Hi|[Hi Hx]]%lookup_app_Some.
      * pose proof (lookup_lt_Some _ _ _ Hi). rewrite take_app_le by lia. auto.
      * apply list_lookup_singleton_Some in Hx as [? <-]. replace i with (length l) by lia.
        by rewrite take_app_length.
Qed.

Lemma route_valid mask x c l : route mask x c l → valid_order l ∧ trip_hops 0 l = c.
Proof.
  intros Hr. induction Hr as [next Hn Hreq|mask x next c l Hr [Hv Hc] Hn Hd Hreq].
  - split; [|simpl; lia]. apply (valid_order_snoc []). split_and!; [|apply not_elem_of_nil|done|].
    + split_and!; [constructor|set_solver|done].
    + intros p Hp. exfalso. unfold Travel.requires in Hreq. rewrite Hp in Hreq. unfold bit in Hreq.
      by apply N.pow_nonzero in Hreq.
  - rewrite trip_hops_snoc, (route_last _ _ _ _ Hr), Hc. split; [|done].
    apply valid_order_snoc. split_and!; [done| |done|].
    + rewrite <- (route_bits _ _ _ _ _ Hr). apply land_bit in Hd. congruence.
    + intros p Hp. apply (route_bits _ _ _ _ _ Hr). exact (proj1 (requires_spec _ _) Hreq p Hp).
Qed.

Lemma valid_route l : valid_order l → l ≠ [] → ∃ mask x, route mask x (trip_hops 0 l) l.
Proof.
  induction l as [|stop l IH] using rev_ind; [done|]. intros (Hv&Hn&Hs&Ha)%valid_order_snoc _.
  destruct (decide (l = [])) as [->|Hne].
  - exists (bit stop), stop. simpl. rewrite Z.add_0_r. constructor; [done|].
    unfold Travel.requires. destruct (mjoin _) as [p|] eqn:Hp; [|done]. specialize (Ha p Hp). by apply elem_of_nil in Ha.
  - destruct (IH Hv Hne) as (mask&x&Hr). exists (N.lor mask (bit stop)), stop.
    rewrite trip_hops_snoc, (route_last _ _ _ _ Hr). simpl. constructor; [done|done| |].
    + apply land_bit. apply not_true_iff_false. by rewrite (route_bits _ _ _ _ _ Hr).
    + apply requires_spec. intros p Hp. by apply (route_bits _ _ _ _ _ Hr), Ha.
Qed.

Lemma route_mask mask x c l : route mask x c l → mask ≠ 0%N ∧ (mask < 2 ^ N.of_nat n)%N ∧ (x < n)%nat.
Proof.
  intros Hr. induction Hr as [next Hn Hreq|mask x next c l Hr (Hm&Hlt&Hx) Hn Hd Hreq].
  - unfold bit. split_and!; [by apply N.pow_nonzero| |done]. apply N.pow_lt_mono_r; lia.
  - assert (bit next < 2 ^ N.of_nat n)%N as Hb by (unfold bit; apply N.pow_lt_mono_r; lia).
    assert (bit next ≠ 0)%N as Hb0 by (unfold bit; by apply N.pow_nonzero).
    assert (N.lor mask (bit next) ≠ 0%N) as Hnz by (intros E%N.lor_eq_0_iff; naive_solver).
    split_and!; [done| |done]. apply N.log2_lt_pow2; [lia|]. rewrite N.log2_lor.
    apply N.log2_lt_pow2 in Hlt, Hb; lia.
Qed.

Lemma round_trip_snoc l x c mask : route mask x c l → round_trip_hops l = c + h (S x) 0.
Proof.
  intros Hr. unfold round_trip_hops. rewrite (route_last _ _ _ _ Hr).
  by destruct (route_valid _ _ _ _ Hr) as [_ ->].
Qed.

(** ** The table *)

Abbreviation size := (N.to_nat (2 ^ N.of_nat n)).
Abbreviation H t mask x := (tc_hops (trip t mask x)).

(** The stop before the last one. *)
Definition from (t : Trips) (mask : N) (x : nat) : option nat := mjoin (Steiner.row (came_from t) mask !! x).

Definition in_range (mask : N) (x : nat) : Prop := (mask < 2 ^ N.of_nat n)%N ∧ (x < n)%nat.

Record shaped (t : Trips) : Prop := {
  sh_best : length (best_to t) = size;
  sh_from : length (came_from t) = size;
  sh_rows mask : (mask < 2 ^ N.of_nat n)%N →
    length (Steiner.row (best_to t) mask) = n ∧ length (Steiner.row (came_from t) mask) = n;
}.

(** Where a finite entry comes from, when the masks up to [m] have been left. *)
Definition entry (t : Trips) (m mask : N) (x : nat) : Prop :=
  (from t mask x = None ∧ mask = bit x ∧ requires x = 0%N ∧ H t mask x = h 0 (S x))
  ∨ ∃ prior y, mask = N.lor prior (bit x) ∧ N.land prior (bit x) = 0%N ∧ (prior ≤ m)%N ∧ (y < n)%nat
      ∧ from t mask x = Some y ∧ H t prior y < u32_max ∧ N.land (requires x) prior = requires x
      ∧ H t mask x = cap (H t prior y + h (S y) (S x)).

Record table (m : N) (t : Trips) : Prop := {
  tb_shaped : shaped t;
  tb_range mask x : hops_ok (trip t mask x);
  tb_entry mask x : H t mask x < u32_max → in_range mask x ∧ entry t m mask x;
}.

(** Entries only improve, and the rows up to [m] stay. *)
Definition improves (m : N) (t t' : Trips) : Prop :=
  (∀ mask x, (mask ≤ m)%N → trip t' mask x = trip t mask x ∧ from t' mask x = from t mask x)
  ∧ ∀ mask x, H t' mask x ≤ H t mask x.

Lemma improves_refl m t : improves m t t.
Proof. split; [done|lia || (intros; lia)]. Qed.
Lemma improves_trans m t1 t2 t3 : improves m t1 t2 → improves m t2 t3 → improves m t1 t3.
Proof.
  intros [A1 A2] [B1 B2]. split.
  - intros mask x Hm. destruct (A1 mask x Hm) as [<- <-]. auto.
  - intros mask x. specialize (A2 mask x). specialize (B2 mask x). lia.
Qed.

(** One entry set. *)
Definition set_entry (t : Trips) (mask : N) (x : nat) (c : TravelCost) (y : nat) : Trips :=
  {| best_to := alter (λ row, <[x := c]> row) (N.to_nat mask) (best_to t);
     came_from := alter (λ row, <[x := Some y]> row) (N.to_nat mask) (came_from t) |}.

Lemma row_alter {A} (T : list (list A)) (f : list A → list A) mask mask' :
  (N.to_nat mask < length T)%nat →
  Steiner.row (alter f (N.to_nat mask) T) mask'
  = if decide (mask' = mask) then f (Steiner.row T mask) else Steiner.row T mask'.
Proof.
  intros Hlt. unfold Steiner.row. case_decide as E.
  - subst. rewrite list_lookup_alter_eq. destruct (lookup_lt_is_Some_2 T (N.to_nat mask) Hlt) as [r ->]. done.
  - rewrite list_lookup_alter_ne by lia. done.
Qed.

Lemma set_entry_lookup t mask x c y mask' x' :
  shaped t → in_range mask x →
  trip (set_entry t mask x c y) mask' x' = (if decide (mask' = mask ∧ x' = x) then c else trip t mask' x')
  ∧ from (set_entry t mask x c y) mask' x' = (if decide (mask' = mask ∧ x' = x) then Some y else from t mask' x').
Proof.
  intros [H1 H2 H3] [Hm Hx]. destruct (H3 mask Hm) as [L1 L2]. unfold trip, from, set_entry. simpl.
  rewrite !row_alter by lia. destruct (decide (mask' = mask)) as [->|Hne].
  - destruct (decide (x' = x)) as [->|Hxx].
    + rewrite !list_lookup_insert_eq by lia. rewrite !decide_True by done. done.
    + rewrite !list_lookup_insert_ne by done. rewrite !decide_False by naive_solver. done.
  - rewrite !decide_False by naive_solver. done.
Qed.

Lemma set_entry_shaped t mask x c y : shaped t → in_range mask x → shaped (set_entry t mask x c y).
Proof.
  intros [H1 H2 H3] [Hm Hx]. split; simpl; [by rewrite length_alter..|].
  intros mask' Hm'. rewrite !row_alter by lia. destruct (H3 mask Hm), (H3 mask' Hm').
  case_decide; rewrite ?length_insert; done.
Qed.

(** A stop after another. *)
Lemma next_stop_table m y t x :
  table m t → (y < n)%nat → (x < n)%nat → (m < 2 ^ N.of_nat n)%N → N.land m (bit y) ≠ 0%N → H t m y < u32_max →
  let t' := next_stop prerequisites costs m y (trip t m y) t x in
  table m t' ∧ improves m t t'
  ∧ (N.land m (bit x) = 0%N → N.land (requires x) m = requires x →
     H t' (N.lor m (bit x)) x ≤ cap (H t m y + h (S y) (S x))).
Proof.
  intros HT Hy Hx Hm Hym Hfin t'. unfold t', next_stop. case_decide as Hskip.
  { split_and!; [done|apply improves_refl|]. intros. naive_solver. }
  apply Decidable.not_or in Hskip as [Hd Hreq]. apply dec_stable in Hd, Hreq.
  set (cand := plus (trip t m y) (leg costs (S y) (S x))). set (m' := N.lor m (bit x)).
  pose proof (tb_range _ _ HT) as Hok.
  assert (tc_hops cand = cap (H t m y + h (S y) (S x))) as Hcand by (by apply plus_hops).
  assert (m < m')%N as Hlt.
  { destruct (disjoint_rest m (bit x) Hd) as [Hsub Hrest]. pose proof (submask_le _ _ Hsub) as Hle.
    fold m' in Hle, Hrest. destruct (decide (m = m')) as [E|]; [|lia]. rewrite <- E, N.lxor_nilpotent in Hrest.
    symmetry in Hrest. unfold bit in Hrest. by apply N.pow_nonzero in Hrest. }
  assert (in_range m' x) as Hin.
  { split; [|done]. assert (bit x < 2 ^ N.of_nat n)%N as Hb by (unfold bit; apply N.pow_lt_mono_r; lia).
    apply N.log2_lt_pow2; [lia|]. unfold m'. rewrite N.log2_lor.
    assert (0 < m)%N by (destruct m; [by rewrite N.land_0_l in Hym|lia]).
    assert (0 < bit x)%N by (unfold bit; pose proof (N.pow_nonzero 2 (N.of_nat x)); lia).
    apply N.log2_lt_pow2 in Hm, Hb; lia. }
  pose proof (better_than_hops cand (trip t m' x)) as Hbt.
  destruct (better_than cand (trip t m' x)) eqn:Eb; [|split_and!; [done|apply improves_refl|intros; lia]].
  fold (set_entry t m' x cand y).
  pose proof (λ mask z, set_entry_lookup t m' x cand y mask z (tb_shaped _ _ HT) Hin) as Hlook.
  assert (∀ mask z, (mask ≤ m)%N → trip (set_entry t m' x cand y) mask z = trip t mask z
    ∧ from (set_entry t m' x cand y) mask z = from t mask z) as Hlow.
  { intros mask z Hle. destruct (Hlook mask z) as [-> ->]. rewrite !decide_False by (intros [-> _]; lia). done. }
  split_and!.
  - split; [by apply set_entry_shaped; [apply HT|]| |].
    + intros mask z. destruct (Hlook mask z) as [-> _]. case_decide; [by apply plus_ok|apply HT].
    + intros mask z. destruct (Hlook mask z) as [Et Ef]. rewrite Et. unfold entry. rewrite Et, Ef.
      case_decide as E.
      * destruct E as [-> ->]. intros _. split; [done|]. right. exists m, y.
        destruct (Hlow m y ltac:(lia)) as [-> _]. rewrite Hcand. split_and!; done || lia.
      * intros Hf. destruct (tb_entry _ _ HT mask z Hf) as [Hr [?|(p&w&?&?&Hp&?&?&?&?&?)]]; split; auto.
        right. exists p, w. destruct (Hlow p w Hp) as [-> _]. done.
  - split; [done|]. intros mask z. destruct (Hlook mask z) as [-> _]. case_decide as E; [|lia].
    destruct E as [-> ->]. done.
  - intros _ _. destruct (Hlook m' x) as [-> _]. rewrite decide_True by done. lia.
Qed.

(** Every next stop has been offered the way from [y]. *)
Definition offered (t : Trips) (m : N) (y x : nat) : Prop :=
  N.land m (bit x) = 0%N → N.land (requires x) m = requires x →
  H t (N.lor m (bit x)) x ≤ cap (H t m y + h (S y) (S x)).

Lemma offered_improves m t t' prior y x : (prior ≤ m)%N → improves m t t' → offered t prior y x → offered t' prior y x.
Proof.
  intros Hp [Hsame Hle] Ho Hd Hreq. destruct (Hsame prior y Hp) as [-> _].
  etrans; [apply Hle|by apply Ho].
Qed.

Lemma next_stops_table m y t0 xs t :
  table m t → improves m t0 t → (y < n)%nat → (m < 2 ^ N.of_nat n)%N → N.land m (bit y) ≠ 0%N → H t0 m y < u32_max →
  (∀ x, x ∈ xs → (x < n)%nat) →
  let t' := foldl (next_stop prerequisites costs m y (trip t0 m y)) t xs in
  table m t' ∧ improves m t t' ∧ ∀ x, x ∈ xs → offered t' m y x.
Proof.
  intros HT Himp Hy Hm Hym Hfin. revert t HT Himp. induction xs as [|x xs IH]; intros t HT Himp Hxs; simpl.
  { split_and!; [done|apply improves_refl|]. by intros x ?%elem_of_nil. }
  assert (trip t m y = trip t0 m y) as Ecur by (by apply Himp).
  destruct (next_stop_table m y t x HT Hy) as (HT1&Himp1&Ho1);
    [apply Hxs; constructor|done|done|by rewrite Ecur|]. rewrite Ecur in HT1, Himp1, Ho1.
  destruct (IH _ HT1 (improves_trans _ _ _ _ Himp Himp1)) as (HT2&Himp2&Ho2); [intros; apply Hxs; by constructor|].
  split_and!; [done|by eapply improves_trans|]. intros z [->|Hz]%elem_of_cons; [|auto].
  apply (offered_improves m _ _ m y x ltac:(lia) Himp2). intros Hd Hreq.
  destruct Himp1 as [Hsame _]. destruct (Hsame m y ltac:(lia)) as [-> _]. rewrite Ecur. auto.
Qed.

Lemma leave_table m t y :
  table m t → (y < n)%nat → (m < 2 ^ N.of_nat n)%N →
  let t' := leave stops prerequisites costs m t y in
  table m t' ∧ improves m t t'
  ∧ (N.land m (bit y) ≠ 0%N → H t m y < u32_max → ∀ x, (x < n)%nat → offered t' m y x).
Proof.
  intros HT Hy Hm. unfold leave. case_decide as Hskip.
  { split_and!; [done|apply improves_refl|]. intros. lia || naive_solver lia. }
  apply Decidable.not_or in Hskip as [Hmax Hbit]. pose proof (tb_range _ _ HT m y) as Hok.
  destruct (next_stops_table m y t (seq 0 n) t HT (improves_refl _ _) Hy Hm Hbit) as (HT'&Himp&Ho).
  { unfold hops_ok in Hok. lia. }
  { intros x ?%elem_of_seq. lia. }
  split_and!; [done..|]. intros _ _ x Hx. apply Ho, elem_of_seq. lia.
Qed.

(** All the stops that a mask can end with. *)
Lemma leave_all_table m t ys :
  table m t → (∀ y, y ∈ ys → (y < n)%nat) → (m < 2 ^ N.of_nat n)%N →
  let t' := foldl (leave stops prerequisites costs m) t ys in
  table m t' ∧ improves m t t'
  ∧ ∀ y x, y ∈ ys → (x < n)%nat → N.land m (bit y) ≠ 0%N → H t' m y < u32_max → offered t' m y x.
Proof.
  revert t. induction ys as [|y ys IH]; intros t HT Hys Hm; simpl.
  { split_and!; [done|apply improves_refl|]. by intros y x ?%elem_of_nil. }
  destruct (leave_table m t y HT (Hys y ltac:(constructor)) Hm) as (HT1&Himp1&Ho1).
  destruct (IH _ HT1) as (HT2&Himp2&Ho2); [intros; apply Hys; by constructor|done|].
  split_and!; [done|by eapply improves_trans|]. intros z x [->|Hz]%elem_of_cons Hx Hb Hf; [|auto].
  apply (offered_improves m _ _ m y x ltac:(lia) Himp2). apply Ho1; [done| |done].
  destruct (improves_trans _ _ _ _ Himp1 Himp2) as [Hsame _]. by destruct (Hsame m y ltac:(lia)) as [<- _].
Qed.

(** The masks below [m] have been left. *)
Record left_masks (m : N) (t : Trips) : Prop := {
  lm_table : table m t;
  lm_first x : (x < n)%nat → requires x = 0%N → H t (bit x) x ≤ h 0 (S x);
  lm_offered prior y x : (prior < m)%N → (y < n)%nat → (x < n)%nat → N.land prior (bit y) ≠ 0%N →
    H t prior y < u32_max → offered t prior y x;
}.

Lemma table_mono m m' t : (m ≤ m')%N → table m t → table m' t.
Proof.
  intros Hle [H1 H2 H3]. split; [done|done|]. intros mask x Hf. destruct (H3 mask x Hf) as [Hr [?|(p&y&?)]]; split; auto.
  - by left.
  - right. exists p, y. naive_solver lia.
Qed.

Lemma left_masks_step m t :
  (m < 2 ^ N.of_nat n)%N → left_masks m t →
  left_masks (m + 1) (foldl (leave stops prerequisites costs m) t (seq 0 n)).
Proof.
  intros Hm [L1 L2 L3].
  destruct (leave_all_table m t (seq 0 n) L1) as (HT&Himp&Ho); [intros y ?%elem_of_seq; lia|done|].
  split.
  - apply (table_mono m); [lia|done].
  - intros x Hx Hreq. etrans; [apply Himp|auto].
  - intros prior y x Hp Hy Hx Hb Hf. destruct (decide (prior = m)) as [->|Hne].
    + apply Ho; try done. apply elem_of_seq. lia.
    + apply (offered_improves m t); [lia|done|]. apply L3; try done; [lia|].
      destruct Himp as [Hsame _]. by destruct (Hsame prior y ltac:(lia)) as [<- _].
Qed.

Lemma left_masks_all count next t :
  (N.of_nat next + N.of_nat count = 2 ^ N.of_nat n)%N → left_masks (N.of_nat next) t →
  left_masks (2 ^ N.of_nat n)
    (foldl (λ t mask, foldl (leave stops prerequisites costs mask) t (seq 0 n)) t (N.of_nat <$> seq next count)).
Proof.
  revert next t. induction count as [|count IH]; intros next t Hc Hl.
  { by replace (2 ^ N.of_nat n)%N with (N.of_nat next) by lia. }
  cbn [seq]. rewrite fmap_cons. cbn [foldl]. apply IH; [lia|].
  replace (N.of_nat (S next)) with (N.of_nat next + 1)%N by lia. apply left_masks_step; [lia|done].
Qed.

(** The first stops. *)
Record opening (started : list nat) (t : Trips) : Prop := {
  op_shaped : shaped t;
  op_range mask x : hops_ok (trip t mask x);
  op_from mask x : from t mask x = None;
  op_entry mask x : H t mask x < u32_max →
    in_range mask x ∧ mask = bit x ∧ requires x = 0%N ∧ H t mask x = h 0 (S x);
  op_first x : x ∈ started → requires x = 0%N → H t (bit x) x = h 0 (S x);
}.

Lemma bit_in_range x : (x < n)%nat → in_range (bit x) x.
Proof. intros Hx. split; [|done]. unfold bit. apply N.pow_lt_mono_r; lia. Qed.

Lemma first_stop_lookup t x mask y :
  shaped t → (x < n)%nat →
  trip {| best_to := alter (λ row, <[x := leg costs 0 (S x)]> row) (N.to_nat (bit x)) (best_to t);
          came_from := came_from t |} mask y
  = if decide (mask = bit x ∧ y = x) then leg costs 0 (S x) else trip t mask y.
Proof.
  intros [H1 H2 H3] Hx. destruct (bit_in_range x Hx) as [Hb _]. destruct (H3 _ Hb) as [L1 _].
  unfold trip. simpl. rewrite row_alter by lia. destruct (decide (mask = bit x)) as [->|Hne].
  - destruct (decide (y = x)) as [->|Hxx].
    + rewrite list_lookup_insert_eq by lia. by rewrite decide_True.
    + rewrite list_lookup_insert_ne by done. by rewrite decide_False by naive_solver.
  - by rewrite decide_False by naive_solver.
Qed.

Lemma first_stop_opening started t x :
  (x < n)%nat → opening started t → opening (x :: started) (first_stop prerequisites costs t x).
Proof.
  intros Hx [O1 O2 O3 O4 O5]. unfold first_stop. case_decide as Hreq.
  2:{ split; try done. intros z [->|Hz]%elem_of_cons; [done|auto]. }
  destruct (bit_in_range x Hx) as [Hb _].
  split.
  - destruct O1 as [S1 S2 S3]. split; simpl; [by rewrite length_alter|done|].
    intros mask Hm. rewrite row_alter by lia. destruct (S3 mask Hm), (S3 _ Hb).
    case_decide; rewrite ?length_insert; done.
  - intros mask y. rewrite first_stop_lookup by done. case_decide; auto.
  - apply O3.
  - intros mask y. rewrite first_stop_lookup by done. case_decide as E; [|auto].
    destruct E as [-> ->]. intros _. done.
  - intros z Hz Hr. rewrite first_stop_lookup by done. case_decide as E; [by destruct E as [_ ->]|].
    apply elem_of_cons in Hz as [->|Hz]; [naive_solver|auto].
Qed.

Lemma trips_left : left_masks (2 ^ N.of_nat n) (trips stops prerequisites costs).
Proof.
  unfold trips. change (bit n) with (2 ^ N.of_nat n)%N.
  pose proof (N.pow_nonzero 2 (N.of_nat n) ltac:(done)) as Hpos.
  apply left_masks_all; [lia|]. set (t0 := {| best_to := _; came_from := _ |}).
  assert (∀ xs started t, (∀ x, x ∈ xs → (x < n)%nat) → opening started t →
    opening (reverse xs ++ started) (foldl (first_stop prerequisites costs) t xs)) as Hfold.
  { intros xs. induction xs as [|x xs IH]; intros started t Hxs Ho; simpl; [done|].
    rewrite reverse_cons, <- app_assoc. apply IH; [intros; apply Hxs; by constructor|].
    apply first_stop_opening; [apply Hxs; constructor|done]. }
  assert (opening [] t0) as H0.
  { assert (∀ {A} (v : A) mask, (mask < 2 ^ N.of_nat n)%N →
      Steiner.row (replicate size (replicate n v)) mask = replicate n v) as Hrow.
    { intros A v mask Hm. unfold Steiner.row. by rewrite lookup_replicate_2 by lia. }
    assert (∀ {A} (v : A) mask x y, Steiner.row (replicate size (replicate n v)) mask !! x = Some y → y = v) as Hall.
    { intros A v mask x y. unfold Steiner.row. destruct (replicate size _ !! _) as [r|] eqn:E; [|done].
      apply lookup_replicate in E as [-> _]. simpl. by intros [-> _]%lookup_replicate. }
    assert (∀ mask x, trip t0 mask x = INF) as Htrip.
    { intros mask x. unfold trip, t0. simpl. destruct (Steiner.row _ mask !! x) eqn:E; [|done]. by apply Hall in E. }
    split.
    - split; simpl; [by rewrite length_replicate..|]. intros mask Hm. by rewrite !Hrow, !length_replicate.
    - intros mask x. rewrite Htrip. apply INF_ok.
    - intros mask x. unfold from, t0. simpl. destruct (Steiner.row _ mask !! x) eqn:E; [|done]. apply Hall in E as ->. done.
    - intros mask x. rewrite Htrip. simpl. lia.
    - by intros x ?%elem_of_nil. }
  destruct (Hfold (seq 0 n) [] t0) as [O1 O2 O3 O4 O5]; [intros x ?%elem_of_seq; lia|done|].
  split.
  - split; [done..|]. intros mask x Hf. destruct (O4 mask x Hf) as (?&?&?&?). split; [done|]. left. auto.
  - intros x Hx Hreq. rewrite O5; [lia| |done]. rewrite app_nil_r. apply elem_of_reverse, elem_of_seq. lia.
  - intros prior y x Hp Hy _ Hb _. assert (prior = 0%N) as -> by lia. by rewrite N.land_0_l in Hb.
Qed.

Abbreviation t := (trips stops prerequisites costs).

Lemma trips_range mask x : hops_ok (trip t mask x).
Proof. apply trips_left. Qed.

(** No partial trip is shorter than its entry. *)
Lemma route_lower mask x c l : route mask x c l → H t mask x ≤ cap c.
Proof.
  intros Hr. induction Hr as [next Hn Hreq|mask y next c l Hr IH Hn Hd Hreq].
  - pose proof (lm_first _ _ trips_left next Hn Hreq). pose proof (trips_range (bit next) next) as Hok.
    unfold cap, hops_ok in *. lia.
  - destruct (route_mask _ _ _ _ Hr) as (Hnz&Hm&Hy). pose proof (Hcosts (S y) (S next)) as Hh.
    pose proof (trips_range mask y) as Hok. pose proof (trips_range (N.lor mask (bit next)) next) as Hok'.
    destruct (decide (H t mask y < u32_max)) as [Hf|Hf].
    + pose proof (lm_offered _ _ trips_left mask y next Hm Hy Hn) as Ho.
      assert (N.land mask (bit y) ≠ 0%N) as Hb.
      { rewrite land_bit. apply not_false_iff_true. rewrite (route_bits _ _ _ _ _ Hr).
        apply last_Some_elem_of. by eapply route_last. }
      specialize (Ho Hb Hf Hd Hreq). unfold cap, hops_ok in *. lia.
    + unfold cap, hops_ok in *. lia.
Qed.

(** A finite entry is a partial trip, and the pointers lead back along it. *)
Lemma entry_route mask x :
  H t mask x < u32_max →
  ∃ c l, route mask x c l ∧ H t mask x = cap c
    ∧ ∀ fuel, (length l ≤ fuel)%nat → retrace fuel t mask x = Some (reverse l, 0%N).
Proof.
  revert x. induction (N.lt_wf_0 mask) as [mask _ IH]. intros x Hf.
  destruct (tb_entry _ _ (lm_table _ _ trips_left) mask x Hf) as [[Hm Hx] [(Hfrom&->&Hreq&HH)|He]].
  - exists (h 0 (S x)), [x]. split; [by constructor|]. split.
    { rewrite HH in *. unfold cap. lia. }
    intros [|fuel] Hfu; [simpl in Hfu; lia|]. simpl. unfold from in Hfrom. rewrite Hfrom.
    by rewrite N.lxor_nilpotent.
  - destruct He as (prior&y&->&Hd&_&Hy&Hfrom&Hpf&Hreq&HH).
    assert (prior < N.lor prior (bit x))%N as Hlt.
    { destruct (disjoint_rest prior (bit x) Hd) as [Hsub Hrest]. pose proof (submask_le _ _ Hsub) as Hle.
      destruct (decide (prior = N.lor prior (bit x))) as [E|]; [|lia]. rewrite <- E, N.lxor_nilpotent in Hrest.
      symmetry in Hrest. unfold bit in Hrest. by apply N.pow_nonzero in Hrest. }
    destruct (IH prior Hlt y Hpf) as (c&l&Hr&Hc&Hre).
    exists (c + h (S y) (S x)), (l ++ [x]). split; [by constructor|]. split.
    { rewrite HH. f_equal. rewrite Hc in *. unfold cap in *. lia. }
    intros [|fuel] Hfu; rewrite length_app in Hfu; simpl in Hfu; [lia|]. simpl. unfold from in Hfrom. rewrite Hfrom.
    replace (N.lxor (N.lor prior (bit x)) (bit x)) with prior.
    + rewrite Hre by lia. simpl. by rewrite reverse_snoc.
    + symmetry. rewrite N.lor_comm. apply disjoint_rest. by rewrite N.land_comm.
Qed.

(** ** The round trip *)

Definition full : N := (2 ^ N.of_nat n - 1)%N.

Lemma full_bits i : N.testbit full (N.of_nat i) = true ↔ (i < n)%nat.
Proof.
  unfold full. rewrite N.sub_1_r, <- N.ones_equiv, N.ones_spec_iff. lia.
Qed.

(** Every stop once, each after the one it depends on. *)
Definition complete_order (l : list nat) : Prop := valid_order l ∧ ∀ stop, (stop < n)%nat → stop ∈ l.

Lemma complete_route l : complete_order l → stops ≠ [] → ∃ x, route full x (trip_hops 0 l) l.
Proof.
  intros [Hv Hall] Hne. assert (0 < n)%nat as Hn by (destruct stops; [done|simpl; lia]).
  destruct (valid_route l Hv) as (mask&x&Hr).
  { intros ->. by specialize (Hall 0%nat Hn); apply elem_of_nil in Hall. }
  exists x. replace full with mask; [done|]. apply N.bits_inj. intros i. rewrite <- (N2Nat.id i).
  apply eq_bool_prop_intro. rewrite !Is_true_true, full_bits, (route_bits _ _ _ _ _ Hr).
  split; [apply Hv|apply Hall].
Qed.

Lemma full_route x c l : route full x c l → complete_order l.
Proof.
  intros Hr. split; [by eapply route_valid|]. intros stop Hs. apply (route_bits _ _ _ _ _ Hr). by apply full_bits.
Qed.

(** The choice of the last stop. *)
Definition chosen_last (xs : list nat) (best : TravelCost * option nat) : Prop :=
  match best.2 with
  | None => best.1 = INF
  | Some x => x ∈ xs ∧ best.1 = plus (trip t full x) (leg costs (S x) 0) ∧ H t full x < u32_max
  end ∧ ∀ x, x ∈ xs → tc_hops best.1 ≤ tc_hops (plus (trip t full x) (leg costs (S x) 0)).

Lemma close_trips xs0 xs best :
  chosen_last xs0 best → chosen_last (xs0 ++ xs) (foldl (close_trip costs t full) best xs).
Proof.
  revert xs0 best. induction xs as [|x xs IH]; intros xs0 best Hb; simpl; [by rewrite app_nil_r|].
  replace (xs0 ++ x :: xs) with ((xs0 ++ [x]) ++ xs) by (by rewrite <- app_assoc). apply IH.
  destruct Hb as [Hb1 Hb2]. unfold close_trip. set (cand := plus _ _).
  pose proof (better_than_hops cand best.1) as Hbt. destruct (better_than cand best.1) eqn:Eb.
  - split; simpl.
    + split_and!; [set_solver|done|]. destruct (trips_range full x) as [_ Hle].
      destruct (decide (H t full x = u32_max)) as [E|]; [|lia]. exfalso.
      assert (cand = INF) as Hc by (apply plus_INF; auto). rewrite Hc in *.
      rewrite INF_not_better in Eb; [done|]. destruct best as [b [z|]]; simpl in *.
      * destruct Hb1 as (_&->&_). by apply plus_ok; [apply trips_range|].
      * subst b. apply INF_ok.
    + intros z [Hz| ->%list_elem_of_singleton]%elem_of_app; [|done]. specialize (Hb2 z Hz). lia.
  - split.
    + destruct best as [b [z|]]; simpl in *; [|done]. naive_solver set_solver.
    + intros z [Hz| ->%list_elem_of_singleton]%elem_of_app; [auto|done].
Qed.

(** The trip over few stops: it fails only when every order exceeds the count of hops, and
    otherwise its order visits every stop after the one it depends on, and no such order
    has fewer hops. *)
Lemma exact_trip_ok :
  stops ≠ [] →
  (exact_trip stops prerequisites costs = Err Disconnected
     ∧ ∀ l, complete_order l → u32_max ≤ round_trip_hops l)
  ∨ ∃ l d, exact_trip stops prerequisites costs
             = Ok (stop_name stops <$> l, true, cap (round_trip_hops l), d)
           ∧ complete_order l ∧ ∀ l', complete_order l' → cap (round_trip_hops l) ≤ cap (round_trip_hops l').
Proof.
  intros Hne. unfold exact_trip. change (bit n) with (2 ^ N.of_nat n)%N. fold full.
  assert (chosen_last [] (INF, None)) as H0 by (split; [done|]; by intros x ?%elem_of_nil).
  pose proof (close_trips [] (seq 0 n) _ H0) as [Hb1 Hb2]. rewrite app_nil_l in *.
  destruct (foldl (close_trip costs t full) (INF, None) (seq 0 n)) as [best [x|]]; simpl in Hb1, Hb2; cbv beta iota zeta.
  - destruct Hb1 as (Hx&Hbest&Hf). destruct (entry_route full x Hf) as (c&l&Hr&Hc&Hre).
    pose proof (full_route _ _ _ Hr) as Hco.
    assert (length l ≤ n)%nat as Hlen.
    { rewrite <- (length_seq n 0). apply submseteq_length, NoDup_submseteq; [apply Hco|].
      intros z Hz. apply elem_of_seq. destruct Hco as [(_&Hlt&_) _]. specialize (Hlt z Hz). lia. }
    rewrite Hre by lia. rewrite decide_False by (intros []; done). right. rewrite reverse_involutive.
    assert (∀ y c' l', route full y c' l' →
      tc_hops (plus (trip t full y) (leg costs (S y) 0)) ≤ cap (round_trip_hops l')) as Hup.
    { intros y c' l' Hr'. rewrite plus_hops by (apply trips_range || apply Hcosts).
      rewrite (round_trip_snoc _ _ _ _ Hr'). pose proof (route_lower _ _ _ _ Hr').
      pose proof (Hcosts (S y) 0) as Hh. unfold hops_ok, cap in *. lia. }
    assert (tc_hops best = cap (round_trip_hops l)) as Hhops.
    { rewrite Hbest, plus_hops by (apply trips_range || apply Hcosts). rewrite (round_trip_snoc _ _ _ _ Hr), Hc.
      pose proof (Hcosts (S x) 0) as Hh. rewrite Hc in Hf. unfold cap, hops_ok in *. lia. }
    exists l, (tc_distance best). rewrite Hhops. split_and!; [done..|].
    intros l' Hl'. destruct (complete_route l' Hl' Hne) as (y&Hr'). rewrite <- Hhops.
    etrans; [apply (Hb2 y)|by eapply Hup]. apply elem_of_seq.
    destruct (route_mask _ _ _ _ Hr') as (_&_&?). lia.
  - left. split; [done|]. intros l Hl. destruct (complete_route l Hl Hne) as (y&Hr).
    destruct (route_mask _ _ _ _ Hr) as (_&_&Hy). specialize (Hb2 y ltac:(apply elem_of_seq; lia)).
    rewrite Hb1, plus_hops in Hb2 by (apply trips_range || apply Hcosts).
    rewrite (round_trip_snoc _ _ _ _ Hr). pose proof (route_lower _ _ _ _ Hr).
    pose proof (Hcosts (S y) 0) as Hh. simpl in Hb2. unfold hops_ok, cap in *. lia.
Qed.

(** ** The greedy trip *)

Lemma complete_of_length l : valid_order l → length l = n → complete_order l.
Proof.
  intros Hv Hlen. split; [done|]. intros stop Hs. destruct Hv as (Hnd&Hlt&_).
  assert (l ≡ₚ seq 0 n) as ->; [|apply elem_of_seq; lia].
  apply submseteq_length_Permutation; [|by rewrite length_seq, Hlen].
  apply NoDup_submseteq; [done|]. intros x Hx. apply elem_of_seq. specialize (Hlt x Hx). lia.
Qed.

Lemma greedy_order_ok fuel current total completed order x tot :
  (length completed + fuel = n)%nat → valid_order completed → current = from_option S 0%nat (last completed) →
  hops_ok total → tc_hops total = cap (trip_hops 0 completed) →
  greedy_order stops prerequisites costs fuel current total completed = Ok (order, x, tot) →
  complete_order order ∧ x = from_option S 0%nat (last order) ∧ hops_ok tot
  ∧ tc_hops tot = cap (trip_hops 0 order).
Proof.
  revert current total completed. induction fuel as [|fuel IH]; intros current total completed Hlen Hv Hcur Hok Htot.
  { simpl. intros [= <- <- <-]. split_and!; [|done..]. apply complete_of_length; [done|lia]. }
  cbn [greedy_order]. rewrite result_bind_Ok. intros (next&Hnext&Hrec). apply ok_or_Ok, min_by_elem in Hnext.
  apply list_elem_of_filter in Hnext as [Hready Hin%elem_of_seq]. case_decide as Hmax; [done|].
  pose proof (Hcosts current (S next)) as Hl.
  unfold ready in Hready. apply andb_true_iff in Hready as [Hn%bool_decide_eq_true Hal].
  eapply IH; [..|exact Hrec].
  - rewrite length_app. simpl. lia.
  - apply valid_order_snoc. split_and!; [done..|lia|]. intros p Hp. rewrite Hp in Hal.
    by apply bool_decide_eq_true in Hal.
  - by rewrite last_snoc.
  - by apply plus_ok.
  - rewrite plus_hops, trip_hops_snoc, <- Hcur, Htot by done. unfold hops_ok, cap in *. lia.
Qed.

Lemma greedy_trip_ok order optimal hops d :
  greedy_trip stops prerequisites costs = Ok (order, optimal, hops, d) →
  optimal = false ∧ ∃ l, order = stop_name stops <$> l ∧ complete_order l ∧ hops = cap (round_trip_hops l).
Proof.
  unfold greedy_trip. destruct (greedy_order _ _ _ _ _ _ _) as [[[l x] tot]|] eqn:E; [|done].
  apply greedy_order_ok in E as (Hl&->&Hok&Htot); [|done| |done|unfold hops_ok, u32_max; simpl; lia|done].
  2:{ split_and!; [constructor|set_solver|done]. }
  case_decide; [done|]. intros [= <- <- <- <-]. split; [done|]. exists l. split_and!; [done..|].
  rewrite plus_hops by done. unfold round_trip_hops. rewrite Htot.
  pose proof (Hcosts (from_option S 0%nat (last l)) 0) as Hh. unfold hops_ok, cap in *. lia.
Qed.
End Routes.

(** ** The legs *)

Lemma hops_at_ok hops v : Forall (λ z, 0 ≤ z ≤ u32_max) hops → 0 ≤ hops_at hops v ≤ u32_max.
Proof.
  intros Hh. unfold hops_at. destruct (hops !! v) as [z|] eqn:E; simpl; [|unfold u32_max; lia].
  exact (Forall_lookup_1 _ _ _ _ Hh E).
Qed.

Lemma hop_search_ok fuel graph st hops :
  Forall (λ z, 0 ≤ z ≤ u32_max) (bf_hops st) → hop_search fuel graph st = Some hops →
  Forall (λ z, 0 ≤ z ≤ u32_max) hops.
Proof.
  revert st. induction fuel as [|fuel IH]; intros st Hst; simpl; [done|].
  destruct (bf_queue st) as [|x q]; [by intros [= <-]|]. apply IH.
  pose proof (hops_at_ok _ x Hst) as Hx. set (nh := Steiner.saturating_add_u32 _ 1).
  assert (0 ≤ nh ≤ u32_max) as Hnh by (unfold nh, Steiner.saturating_add_u32, u32_max in *; lia).
  assert (∀ l st, Forall (λ z, 0 ≤ z ≤ u32_max) (bf_hops st) →
    Forall (λ z, 0 ≤ z ≤ u32_max) (bf_hops (foldl (reach nh) st l))) as Hfold; [|by apply Hfold].
  intros l. induction l as [|y l IHl]; intros st' Hst'; simpl; [done|]. apply IHl.
  unfold reach. case_decide; [|done]. simpl. by apply Forall_insert.
Qed.

Lemma shortest_hop_metrics_ok graph source metrics :
  shortest_hop_metrics graph source = Ok metrics → Forall hops_ok metrics.
Proof.
  unfold shortest_hop_metrics. rewrite result_bind_Ok. intros (hops&Hh%ok_or_Ok&[= <-]).
  apply hop_search_ok in Hh.
  - apply Forall_lookup. intros i c (z&d&->&Hz&_)%lookup_zip_with_Some. exact (Forall_lookup_1 _ _ _ _ Hh Hz).
  - simpl. apply Forall_insert; [|unfold u32_max; lia]. apply Forall_replicate. unfold u32_max. lia.
Qed.

Lemma pair_costs_ok graph points costs i j : pair_costs graph points = Ok costs → hops_ok (leg costs i j).
Proof.
  intros Hc%mapM_Ok. unfold leg. destruct (costs !! i) as [row|] eqn:Er; [|apply INF_ok]. simpl.
  destruct (row !! j) as [c|] eqn:Ej; [|apply INF_ok]. simpl.
  destruct (Forall2_lookup_r _ _ _ _ _ Hc Er) as (p&_&Hp).
  apply result_bind_Ok in Hp as (metrics&Hm%shortest_hop_metrics_ok&[= <-]).
  rewrite list_lookup_fmap in Ej. apply fmap_Some in Ej as (v&_&->).
  destruct (metrics !! v) as [c|] eqn:Ev; simpl; [|apply INF_ok]. exact (Forall_lookup_1 _ _ _ _ Hm Ev).
Qed.

(** ** Stops by name *)

Section Names.
Context (stops : list NetworkNode) (Hnames : NoDup (system <$> stops)).

Lemma stop_bits_lookup d i : stop_bits stops !! d = Some i ↔ ∃ node, stops !! i = Some node ∧ system node = d.
Proof.
  unfold stop_bits.
  assert (∀ (l : list NetworkNode) k (m : gmap string nat), NoDup (system <$> l) →
    foldl (λ bits e, <[system e.2 := e.1]> bits) m (imap (λ j x, (k + j, x)%nat) l) !! d = Some i ↔
    (∃ j node, l !! j = Some node ∧ system node = d ∧ i = (k + j)%nat)
    ∨ (d ∉ system <$> l) ∧ m !! d = Some i) as Hfold.
  { intros l. induction l as [|x l IH]; intros k m Hnd; simpl.
    { split; [intros Hm; right; split; [set_solver|done]|]. by intros [(j&?&?&_)|[_ ?]]. }
    apply NoDup_cons in Hnd as [Hx Hnd]. rewrite Nat.add_0_r.
    replace (imap _ l) with (imap (λ j y, (S k + j, y)%nat) l) by (apply imap_ext; intros; simpl; f_equal; lia).
    rewrite (IH (S k) _ Hnd). split.
    - intros [(j&node&Hj&Hd&->)|[Hn Hm]].
      + left. exists (S j), node. split_and!; [done..|lia].
      + apply lookup_insert_Some in Hm as [[<- <-]|[Hne Hm]].
        * left. exists 0%nat, x. split_and!; [done..|lia].
        * right. split; [|done]. apply not_elem_of_cons. done.
    - intros [([|j]&node&Hj&Hd&->)|[Hn Hm]].
      + simplify_eq/=. right. split; [done|]. rewrite lookup_insert_eq. f_equal. lia.
      + left. exists j, node. split_and!; [done..|lia].
      + apply not_elem_of_cons in Hn as [Hne Hn]. right. split; [done|]. by rewrite lookup_insert_ne. }
  replace (imap pair stops) with (imap (λ j x, (0 + j, x)%nat) stops) by done.
  rewrite (Hfold stops 0%nat ∅ Hnames), lookup_empty. split.
  - intros [(j&node&?&?&->)|[_ ?]]; [eauto|done].
  - intros (node&?&?). left. exists i, node. done.
Qed.

Lemma prerequisite_lookup i node q :
  stops !! i = Some node → nn_parent node = Some q →
  mjoin (prerequisite_indices stops !! i) = stop_bits stops !! q.
Proof. intros Hi Hq. unfold prerequisite_indices. rewrite list_lookup_fmap, Hi. simpl. by rewrite Hq. Qed.

Lemma stop_name_lookup i node : stops !! i = Some node → stop_name stops i = system node.
Proof. intros Hi. unfold stop_name. by rewrite Hi. Qed.

Lemma stop_name_inj i j : (i < length stops)%nat → (j < length stops)%nat → stop_name stops i = stop_name stops j → i = j.
Proof.
  intros [x Hx]%lookup_lt_is_Some_2 [y Hy]%lookup_lt_is_Some_2.
  rewrite (stop_name_lookup _ _ Hx), (stop_name_lookup _ _ Hy). intros E.
  eapply (NoDup_lookup (system <$> stops)); [done|..]; rewrite list_lookup_fmap; [by rewrite Hx|]. by rewrite Hy, E.
Qed.

(** A complete order lists the stops, and a stop after its parent. *)
Lemma complete_order_names l :
  complete_order stops (prerequisite_indices stops) l →
  stop_name stops <$> l ≡ₚ system <$> stops
  ∧ ∀ i node q, node ∈ stops → (stop_name stops <$> l) !! i = Some (system node) → nn_parent node = Some q →
      q ∈ system <$> stops → q ∈ take i (stop_name stops <$> l).
Proof.
  intros [(Hnd&Hlt&Hal) Hall]. split.
  - assert (l ≡ₚ seq 0 (length stops)) as ->.
    { apply NoDup_Permutation; [done|apply NoDup_seq|]. intros x. rewrite elem_of_seq. split.
      - intros Hx%Hlt. lia.
      - intros ?. apply Hall. lia. }
    assert (stop_name stops <$> seq 0 (length stops) = system <$> stops) as ->; [|done].
    apply list_eq. intros i. rewrite !list_lookup_fmap.
    destruct (stops !! i) as [node|] eqn:E.
    + rewrite lookup_seq_lt by (by eapply lookup_lt_Some). simpl. by rewrite (stop_name_lookup _ _ E).
    + apply lookup_ge_None in E. by rewrite lookup_seq_ge by lia.
  - intros i node q Hnode Hi Hq Hin.
    apply list_elem_of_lookup in Hnode as [j Hj]. rewrite list_lookup_fmap in Hi.
    apply fmap_Some in Hi as (x&Hx&Hname).
    assert (x = j) as ->.
    { apply stop_name_inj; [apply Hlt, list_elem_of_lookup; eauto|by eapply lookup_lt_Some|].
      by rewrite <- Hname, (stop_name_lookup _ _ Hj). }
    apply list_elem_of_lookup in Hin as [p Hp]. rewrite list_lookup_fmap in Hp.
    apply fmap_Some in Hp as (pn&Hpn&->).
    assert (mjoin (prerequisite_indices stops !! j) = Some p) as Hpre.
    { rewrite (prerequisite_lookup _ _ _ Hj Hq). apply stop_bits_lookup. eauto. }
    specialize (Hal i j Hx p Hpre). rewrite <- fmap_take. apply list_elem_of_fmap.
    exists p. split; [by rewrite (stop_name_lookup _ _ Hpn)|done].
Qed.
End Names.

(** The stops of a plan, in the order the search numbers them. *)
Definition stops_of (nodes : list NetworkNode) : list NetworkNode :=
  sort_by system_leb (filter (λ node, needs_work node = true) nodes).

Lemma stops_of_names nodes : NoDup (system <$> nodes) → NoDup (system <$> stops_of nodes).
Proof.
  intros Hnd. unfold stops_of. rewrite sort_by_perm. eapply sublist_NoDup; [done|].
  apply fmap_sublist, sublist_filter.
Qed.

Lemma optimize_execution_order_Ok graph start nodes order optimal hops d :
  optimize_execution_order graph start nodes = Ok (order, optimal, hops, d) →
  (stops_of nodes = [] ∧ order = [] ∧ optimal = true ∧ hops = 0)
  ∨ ∃ points costs l, pair_costs graph (start :: points) = Ok costs
      ∧ mapM (λ node, resolve graph (system node)) (stops_of nodes) = Ok points
      ∧ order = stop_name (stops_of nodes) <$> l
      ∧ complete_order (stops_of nodes) (prerequisite_indices (stops_of nodes)) l
      ∧ hops = cap (round_trip_hops costs l)
      ∧ (optimal = true → ∀ l', complete_order (stops_of nodes) (prerequisite_indices (stops_of nodes)) l' →
           hops ≤ cap (round_trip_hops costs l')).
Proof.
  unfold optimize_execution_order. fold (stops_of nodes). case_decide as Hemp.
  { intros [= <- <- <- <-]. by left. }
  intros H. right. apply result_bind_Ok in H as (points&Hp&H). apply result_bind_Ok in H as (costs&Hc&H).
  pose proof (λ i j, pair_costs_ok _ _ _ i j Hc) as Hok. case_decide.
  - apply greedy_trip_ok in H as (->&l&->&Hl&->); [|done]. exists points, costs, l. split_and!; done.
  - destruct (exact_trip_ok (stops_of nodes) (prerequisite_indices (stops_of nodes)) costs Hok Hemp)
      as [[E _]|(l&d'&E&Hl&Hmin)]; rewrite E in H; [done|].
    injection H as <- <- <- <-. exists points, costs, l. split_and!; done.
Qed.

(** the execution order visits every system that needs work exactly once, and a system
    that hangs on another one that needs work comes after it. *)
Theorem execution_order_is_dependency_safe graph start nodes order optimal hops d :
  optimize_execution_order graph start nodes = Ok (order, optimal, hops, d) → NoDup (system <$> nodes) →
  order ≡ₚ system <$> filter (λ node, needs_work node = true) nodes
  ∧ ∀ i node q, node ∈ nodes → order !! i = Some (system node) → nn_parent node = Some q →
      q ∈ order → q ∈ take i order.
Proof.
  intros H Hnd. pose proof (stops_of_names _ Hnd) as Hst.
  assert (∀ x, x ∈ stops_of nodes ↔ x ∈ nodes ∧ needs_work x = true) as Hel.
  { intros x. unfold stops_of. rewrite elem_of_sort_by, list_elem_of_filter. tauto. }
  assert (system <$> filter (λ node, needs_work node = true) nodes ≡ₚ system <$> stops_of nodes) as ->.
  { unfold stops_of. by rewrite sort_by_perm. }
  destruct (optimize_execution_order_Ok _ _ _ _ _ _ _ H) as [(Hemp&->&_)|(points&costs&l&_&_&->&Hl&_)].
  { rewrite Hemp. done. }
  destruct (complete_order_names _ Hst l Hl) as [Hperm Hdep]. split; [done|].
  intros i node q Hnode Hi Hq Hin. apply (Hdep i node q); try done; [|by rewrite <- Hperm].
  assert (system node ∈ system <$> stops_of nodes) as Hn.
  { rewrite <- Hperm. apply list_elem_of_lookup. eauto. }
  apply list_elem_of_fmap in Hn as (x&Hx&Hin'). apply Hel in Hin' as Hin''. destruct Hin'' as [Hxn _].
  assert (node = x) as ->; [|done].
  apply list_elem_of_lookup in Hnode as [a Ha]. apply list_elem_of_lookup in Hxn as [b Hb].
  assert (a = b) as ->; [|congruence].
  eapply (NoDup_lookup (system <$> nodes)); [done|..]; rewrite list_lookup_fmap; [by rewrite Ha|].
  by rewrite Hb, Hx.
Qed.

(** when the execution order is marked optimal, the hops that are reported are those of
    its round trip over the shortest legs, and no order that visits every stop after the one
    it depends on has fewer. *)
Theorem execution_hops_are_fewest graph start nodes order hops d :
  optimize_execution_order graph start nodes = Ok (order, true, hops, d) → stops_of nodes ≠ [] →
  ∃ points costs l,
    mapM (λ node, resolve graph (system node)) (stops_of nodes) = Ok points
    ∧ pair_costs graph (start :: points) = Ok costs
    ∧ order = stop_name (stops_of nodes) <$> l
    ∧ complete_order (stops_of nodes) (prerequisite_indices (stops_of nodes)) l
    ∧ hops = cap (round_trip_hops costs l)
    ∧ ∀ l', complete_order (stops_of nodes) (prerequisite_indices (stops_of nodes)) l' →
        hops ≤ cap (round_trip_hops costs l').
Proof.
  intros H Hne. destruct (optimize_execution_order_Ok _ _ _ _ _ _ _ H) as [(?&_)|(points&costs&l&?&?&?&?&?&Hmin)]; [done|].
  exists points, costs, l. split_and!; auto.
Qed.
