(* ===== verification/RelayCorridorFacts.v ===== *)
(** * The relay corridor loses nothing

    [prune_to_relay_corridor] of [crates/replicant-route-planner/src/lib.rs]: for every
    network there is one at most as costly whose systems are all kept. *)

From S2P Require Import Prelude Float64 RelayGraph RelaySolver RelayTravel RelayDiagnostics.
From S2P Require Import RelayPlan RelayClosureFacts RelayTableFacts RelayTreeFacts.
From S2P Require Import RelaySolutionFacts RelayGraphFacts RelayGreedyFacts RelayPlanFacts.
Import Relay Steiner Planner.

(** ** The two cheapest approaches *)

Section Approaches.
Context (vertex : nat).
Abbreviation near values := (new_relays (at_ values vertex)).

(** The least and the second least of the values seen. *)
Record two_least (seen : list (list Cost)) (best : Z * Z) : Prop := {
  tl_ordered : best.1 ≤ best.2;
  tl_first i values : seen !! i = Some values → best.1 ≤ near values;
  tl_second i j a b : i ≠ j → seen !! i = Some a → seen !! j = Some b → best.2 ≤ Z.max (near a) (near b);
  tl_nonneg : 0 ≤ best.1;
}.

Lemma approach_two_least seen best values :
  0 ≤ near values → two_least seen best → two_least (seen ++ [values]) (approach vertex best values).
Proof.
  intros Hnn [T1 T2 T3 T4].
  assert (∀ i v, (seen ++ [values]) !! i = Some v → seen !! i = Some v ∨ i = length seen ∧ v = values) as Hlook.
  { intros i v [?|[? [? <-]%list_lookup_singleton_Some]]%lookup_app_Some; [auto|right; split; [lia|done]]. }
  unfold approach. repeat case_decide; split; simpl; try lia.
  all: try (intros i v Hi; destruct (Hlook i v Hi) as [H'|[-> ->]]; [pose proof (T2 i v H')|]; lia).
  all: intros i j a b Hij Ha Hb; destruct (Hlook i a Ha) as [Ha'|[-> ->]], (Hlook j b Hb) as [Hb'|[-> ->]];
    try (pose proof (T2 i a Ha')); try (pose proof (T2 j b Hb')); try (pose proof (T3 i j a b Hij Ha' Hb')); lia.
Qed.

Lemma approaches_two_least ds best seen :
  Forall (λ values, 0 ≤ near values) ds → two_least seen best →
  two_least (seen ++ ds) (foldl (approach vertex) best ds).
Proof.
  revert best seen. induction ds as [|v ds IH]; intros best seen Hd Ht; simpl; [by rewrite app_nil_r|].
  apply Forall_cons in Hd as [Hv Hd]. replace (seen ++ v :: ds) with ((seen ++ [v]) ++ ds) by (by rewrite <- app_assoc).
  apply IH; [done|]. by apply approach_two_least.
Qed.
End Approaches.

Section Corridor.
Context (graph : StarGraph) (catalogue : list Star) (max_hop : F64.t) (ranges : gmap string F64.t).
Context (Hbuilt : built graph catalogue max_hop ranges).
Context (context : SolverContext) (names : list string) (request : RelayNetworkRequest).
Context (Hres : resolved graph context names request).
Abbreviation n := (length (stars graph)).
Context (Hn : Z.of_nat n + 3 < INF_COMPONENT).
Abbreviation ts := (terminals context).
Abbreviation network := (network graph ts (start context)).
Abbreviation sites V := (Z.of_nat (size (new_sites (node_cost context) V))).

Lemma corridor_graph_wf : graph_wf graph.
Proof. by eapply bu_wf. Qed.
Lemma corridor_costs_wf : costs_wf (node_cost context).
Proof. by eapply rs_costs. Qed.

(** ** Distances from a terminal *)

(** The row that the search from a terminal starts with, and what it ends with. *)
Definition terminal_row (t : nat) : list Cost := <[t := cost_of (node_cost context) t]> (replicate n INF).

Definition distances_from (t : nat) (values : list Cost) : Prop :=
  ∃ ps, closed_row graph (node_cost context) (terminal_row t) (replicate n NoParent) 1 values ps.

Lemma at_terminal_row t v :
  (t < n)%nat → at_ (terminal_row t) v = if decide (t = v) then cost_of (node_cost context) t else INF.
Proof.
  intros Ht. unfold terminal_row. rewrite at_insert by (by rewrite length_replicate).
  case_decide; [done|]. unfold at_. destruct (replicate n INF !! v) eqn:E; [|done]. by apply lookup_replicate in E as [-> _].
Qed.

Lemma terminal_row_closed t :
  (t < n)%nat → ∃ values ps, metric_closure graph (node_cost context) (terminal_row t) (replicate n NoParent)
    = Some (values, ps) ∧ distances_from t values.
Proof.
  intros Ht. destruct (metric_closure_closed graph (node_cost context) corridor_graph_wf corridor_costs_wf
    (terminal_row t) (replicate n NoParent) 1) as (values&ps&Hm&Hrow); try lia.
  - unfold terminal_row. by rewrite length_insert, length_replicate.
  - by rewrite length_replicate.
  - intros v. rewrite at_terminal_row by done. case_decide; [right|by left].
    apply cost_of_small, corridor_costs_wf.
  - exists values, ps. split; [done|]. by exists ps.
Qed.

(** A tree bounds the distance from its root. *)
Lemma distance_in_tree t values V E v :
  (t < n)%nat → distances_from t values → tree t V E → in_graph graph E → v ∈ V →
  at_ values v ≠ INF ∧ cost_key (at_ values v) ≤ tree_key (node_cost context) V.
Proof.
  intros Ht [ps Hrow] HT. revert v. induction HT as [|V E u w HT IH Hu Hw]; intros v HE Hv.
  - apply elem_of_singleton in Hv as ->. pose proof (cost_of_small (node_cost context) t corridor_costs_wf) as Hs.
    assert (cost_key (at_ values t) ≤ cost_key (cost_of (node_cost context) t)) as Hle.
    { pose proof (at_terminal_row t t Ht) as Hat. rewrite decide_True in Hat by done. rewrite <- Hat.
      destruct (cr_traced _ _ _ _ _ _ _ Hrow t Ht) as [[-> _]|(u&_&_&_&_&_&_&?)]; lia. }
    split.
    + intros E. rewrite E, cost_key_INF in Hle. unfold small, cost_key in *. lia.
    + unfold tree_key, weight. rewrite elements_singleton, size_singleton. simpl. lia.
  - assert (in_graph graph E) as HE' by (intros e He; apply HE; set_solver).
    pose proof (cost_key_node_nonneg (node_cost context) corridor_costs_wf w) as Hnn.
    assert (tree_key (node_cost context) ({[w]} ∪ V)
            = tree_key (node_cost context) V + cost_key (cost_of (node_cost context) w) + 1) as Hk.
    { unfold tree_key. rewrite weight_insert, size_union, size_singleton by set_solver. lia. }
    apply elem_of_union in Hv as [->%elem_of_singleton|Hv].
    + destruct (IH u HE' Hu) as [Hf Hle].
      assert (w ∈ neighbors graph u) as Hnb.
      { destruct (HE (ordered_edge u w)) as (a&b&Eab&Hab); [set_solver|].
        pose proof (wf_sym _ corridor_graph_wf _ _ Hab) as Hba.
        destruct (ordered_edge a b) as [x y] eqn:E1. apply ordered_edge_ends in E1, Eab.
        destruct E1 as [[-> ->]|[-> ->]], Eab as [[-> ->]|[-> ->]]; done. }
      pose proof (cr_edge _ _ _ _ _ _ _ Hrow u w Hf Hnb) as He.
      pose proof (cost_of_small (node_cost context) w corridor_costs_wf) as Hs.
      destruct (cr_small _ _ _ _ _ _ _ Hrow u) as [|Hu']; [done|]. split; [|lia].
      intros E'. rewrite E', cost_key_INF in He. unfold small, cost_key in *. rewrite INF_COMPONENT_eq in *. lia.
    + destruct (IH v HE' Hv). split; [done|lia].
Qed.

(** In new relays. *)
Lemma relays_in_tree t values V E v :
  (t < n)%nat → distances_from t values → tree t V E → in_graph graph E → (size V ≤ n)%nat → v ∈ V →
  0 ≤ new_relays (at_ values v) ≤ sites V ∧ new_relays (at_ values v) < INF_COMPONENT.
Proof.
  intros Ht Hd HT HE HV Hv. destruct (distance_in_tree t values V E v Ht Hd HT HE Hv) as [Hf Hle].
  unfold tree_key in Hle. rewrite (weight_new_sites _ corridor_costs_wf) in Hle.
  destruct Hd as [ps Hrow]. destruct (cr_small _ _ _ _ _ _ _ Hrow v) as [|Hs]; [done|].
  unfold small, cost_key in *. rewrite INF_COMPONENT_eq in *. lia.
Qed.

Lemma from_terminals_ok l all :
  Forall (λ v, (v < n)%nat) l →
  ∃ r, from_terminals graph context l all = Ok r ∧ ∀ ds, r = Some ds → Forall2 distances_from l ds.
Proof.
  induction l as [|t l IH]; intros Hl; cbn [from_terminals].
  { eexists. split; [done|]. intros ds [= <-]. constructor. }
  apply Forall_cons in Hl as [Ht Hl]. fold (terminal_row t).
  destruct (terminal_row_closed t Ht) as (values&ps&->&Hd). destruct (existsb _ _).
  { eexists. split; [done|]. done. }
  destruct (IH Hl) as (r&->&Hr). cbn [mbind result_bind]. eexists. split; [done|].
  intros ds Hds. destruct r as [ds'|]; [|done]. injection Hds as <-. constructor; auto.
Qed.

(** ** Systems of a network without idle leaves *)

Lemma sites_meet V1 V2 v :
  (v < n)%nat → V1 ∩ V2 = {[v]} →
  sites V1 + sites V2 = sites (V1 ∪ V2) + new_relays (cost_of (node_cost context) v).
Proof.
  intros Hv Hint. pose proof (rs_cost _ _ _ _ Hres v Hv) as Hc.
  assert (new_sites (node_cost context) (V1 ∪ V2)
          = new_sites (node_cost context) V1 ∪ new_sites (node_cost context) V2) as ->.
  { unfold new_sites. by rewrite filter_union_L by apply _. }
  rewrite size_union_alt.
  assert (∀ x, x ∈ V1 → x ∈ V2 → x = v) as Hx by set_solver.
  assert (v ∈ V1 ∧ v ∈ V2) as [H1 H2] by set_solver.
  destruct (is_new context v) eqn:Enew; rewrite Hc; simpl.
  - replace (new_sites (node_cost context) V2 ∖ new_sites (node_cost context) V1)
      with (new_sites (node_cost context) V2 ∖ {[v]}).
    + assert (v ∈ new_sites (node_cost context) V2) as Hin by (unfold new_sites; apply elem_of_filter; done).
      rewrite size_difference, size_singleton by set_solver.
      assert (size (new_sites (node_cost context) V2) ≠ 0%nat); [|lia]. intros ?%size_empty_inv. set_solver.
    + apply set_eq. intros x. rewrite !elem_of_difference. unfold new_sites. rewrite !elem_of_filter, elem_of_singleton.
      split; [naive_solver|]. intros [[Hcx Hx2] Hn']. split; [done|]. intros ->. apply Hn'. done.
  - replace (new_sites (node_cost context) V2 ∖ new_sites (node_cost context) V1)
      with (new_sites (node_cost context) V2); [lia|].
    apply set_eq. intros x. rewrite elem_of_difference. unfold new_sites. rewrite !elem_of_filter.
    split; [|naive_solver]. intros [Hcx Hx2]. split; [done|]. intros [_ Hx1]. rewrite (Hx x Hx1 Hx2), Hc in Hcx. done.
Qed.

(** A system of a tree without idle leaves is on the way between two terminals. *)
Lemma between_terminals V E v :
  tree (start context) V E → in_graph graph E → (∀ w, w ∈ V → w ∉ ts → w ∈ endpoints E → (1 < degree E w)%nat) →
  v ∈ V → v ∉ ts →
  ∃ w V1 E1 V2 E2, w ∈ ts ∧ w ≠ start context ∧ tree (start context) V1 E1 ∧ tree w V2 E2
    ∧ v ∈ V1 ∧ v ∈ V2 ∧ V1 ∩ V2 = {[v]} ∧ V = V1 ∪ V2 ∧ in_graph graph E1 ∧ in_graph graph E2.
Proof.
  intros HT HE Hleaf Hv Hvt.
  assert (∀ x, x ∈ V → x ≠ start context → x ∈ endpoints E) as Hend.
  { intros x Hx Hxs. destruct (tree_vertices _ _ _ _ HT Hx) as [|(e&He&Hex)]; [done|].
    apply elem_of_endpoints. eauto. }
  assert (v ≠ start context) as Hvs by (intros ->; apply Hvt, terminals_start).
  pose proof (Hleaf v Hv Hvt (Hend v Hv Hvs)) as Hdeg.
  destruct (tree_split _ _ _ _ HT Hv) as (V1&E1&V2&E2&HT1&HT2&->&Hint&->&Hd1).
  assert (v ∈ V1 ∧ v ∈ V2) as [Hv1 Hv2] by set_solver.
  assert (E2 ≠ ∅) as Hne.
  { intros ->. replace (E1 ∪ ∅) with E1 in Hdeg by set_solver. lia. }
  destruct (tree_leaf _ _ _ HT2 Hne) as (w&Hw2&Hwv&Hdw).
  assert (w ∉ V1) as Hw1 by set_solver.
  pose proof (tree_has_root _ _ _ HT1) as Hroot.
  assert (w ≠ start context) as Hws by set_solver.
  assert (w ∈ ts) as Hwt.
  { destruct (decide (w ∈ ts)) as [|Hn']; [done|].
    pose proof (Hleaf w ltac:(set_solver) Hn' (Hend w ltac:(set_solver) Hws)).
    pose proof (degree_union E1 E2 w). rewrite (degree_outside _ _ _ w HT1 Hw1) in *. lia. }
  destruct (tree_reroot v V2 E2 w HT2) as (E2'&HT2'&Hsub); [|done|].
  { intros e He. destruct (HE e) as (a&b&->&_); [set_solver|]. apply ordered_edge_ordered. }
  exists w, V1, E1, V2, E2'. split_and!; try done; intros e He; apply HE; set_solver.
Qed.

Lemma in_corridor_kept V E ds bound v :
  tree (start context) V E → in_graph graph E → (∀ w, w ∈ V → w ∉ ts → w ∈ endpoints E → (1 < degree E w)%nat) →
  (∀ x, x ∈ V → (x < n)%nat) → Forall2 distances_from ts ds → sites V ≤ bound → v ∈ V →
  in_corridor context bound ds v = true.
Proof.
  intros HT HE Hleaf HV Hds Hbound Hv. unfold in_corridor. case_bool_decide as Hvt; [done|]. simpl.
  destruct (between_terminals V E v HT HE Hleaf Hv Hvt) as (w&V1&E1&V2&E2&Hw&Hws&HT1&HT2&Hv1&Hv2&Hint&->&HE1&HE2).
  pose proof (sites_meet V1 V2 v (HV v Hv) Hint) as Hsites.
  pose proof (rs_range _ _ _ _ Hres) as Hrange. rewrite Forall_forall in Hrange.
  assert (size V1 ≤ n ∧ size V2 ≤ n)%nat as [Hs1 Hs2] by (split; apply size_below; set_solver).
  apply list_elem_of_lookup in Hw as [j Hj].
  destruct (Forall2_lookup_l _ _ _ _ _ Hds Hj) as (dj&Hdj&Hfj).
  destruct (Forall2_lookup_l _ _ _ 0%nat (start context) Hds eq_refl) as (d0&Hd0&Hf0).
  assert (j ≠ 0%nat) as Hj0 by (intros ->; simplify_eq/=).
  destruct (relays_in_tree _ d0 V1 E1 v (Hrange _ (terminals_start context)) Hf0 HT1 HE1 Hs1 Hv1) as [Hr0 Hi0].
  destruct (relays_in_tree _ dj V2 E2 v (Hrange w ltac:(apply list_elem_of_lookup; eauto)) Hfj HT2 HE2 Hs2 Hv2) as [Hrj Hij].
  pose proof (approaches_two_least v ds (INF_COMPONENT, INF_COMPONENT) []) as [T1 T2 T3 T4].
  { apply Forall_lookup. intros i d Hi. destruct (Forall2_lookup_r _ _ _ _ _ Hds Hi) as (t&_&ps&Hrow).
    destruct (cr_small _ _ _ _ _ _ _ Hrow v) as [->|[? _]]; [by vm_compute|lia]. }
  { split; simpl; try done; by vm_compute. }
  rewrite app_nil_l in *. specialize (T2 0%nat d0 Hd0) as A0. specialize (T2 j dj Hdj) as Aj.
  specialize (T3 _ _ _ _ Hj0 Hdj Hd0).
  destruct (foldl (approach v) (INF_COMPONENT, INF_COMPONENT) ds) as [cheapest second]. simpl in *.
  apply andb_true_iff. split; [lia|]. unfold saturating_sub_u32, saturating_add_u32. lia.
Qed.

(** ** The corridor *)

Lemma smaller_is_cheaper V X : V ⊆ X → at_most_as_costly (node_cost context) V X.
Proof.
  intros Hsub. unfold at_most_as_costly. pose proof (subseteq_size _ _ Hsub).
  assert (size (new_sites (node_cost context) V) ≤ size (new_sites (node_cost context) X))%nat.
  { apply subseteq_size. unfold new_sites. set_solver. }
  lia.
Qed.

(** A network has a tree inside it without idle leaves. *)
Lemma trimmed_network X :
  network X → ∃ V E, V ⊆ X ∧ network V ∧ tree (start context) V E ∧ in_graph graph E
    ∧ ∀ w, w ∈ endpoints E → w ∉ ts → (1 < degree E w)%nat.
Proof.
  intros HX. destruct (spanning_tree (start context) (λ u v, v ∈ neighbors graph u) X) as (E&HT&HE); [apply HX..|].
  destruct (finish_tree_ok graph ts corridor_graph_wf (start context) E (terminals_start context) HE)
    as (V&E'&_&HT'&Hsub&Hnet&Hleaf).
  { intros v Hv. apply (tree_connected _ X); [done|]. by apply HX. }
  exists V, E'. split_and!; try done; [|intros e He; apply HE; set_solver].
  intros v Hv. destruct (tree_vertices _ _ _ _ HT' Hv) as [->|(e&He&Hev)]; [apply HX|].
  pose proof (tree_endpoints _ _ _ e HT ltac:(set_solver)) as [? ?]. by destruct Hev as [<-|<-].
Qed.

Lemma pruned_keeps kept X :
  prune_to_relay_corridor graph context = Ok (Some kept) → network X →
  ∃ V, network V ∧ at_most_as_costly (node_cost context) V X
    ∧ ∀ v, v ∈ V → ∃ s, stars graph !! v = Some s ∧ s ∈ kept.
Proof.
  intros Hp HX. unfold prune_to_relay_corridor in Hp. case_decide; [done|].
  destruct (from_terminals_ok ts ts (rs_range _ _ _ _ Hres)) as (r&Hr&Hds). rewrite Hr in Hp.
  cbn [mbind result_bind] in Hp. destruct r as [ds|]; [|done]. specialize (Hds ds eq_refl).
  unfold greedy_tree_relay_bound in Hp.
  destruct (greedy_terminal_tree_ok graph context corridor_graph_wf corridor_costs_wf ltac:(lia)
    (start_is_free _ _ _ _ Hres) ts (rs_range _ _ _ _ Hres) (terminals_start context))
    as [[_ Hno]|(gt&Hgt&_&_&G&HG&HGb)]; [by destruct (Hno X)|]. rewrite Hgt in Hp. cbn [mbind result_bind option_map] in Hp.
  unfold relays in HGb. case_decide; [|done]. injection Hp as <-.
  assert (∃ Y, network Y ∧ sites Y ≤ gt_new_relays gt ∧ ∀ V, V ⊆ Y → at_most_as_costly (node_cost context) V X)
    as (Y&HY&Hb&Hcost).
  { destruct (decide (sites X ≤ gt_new_relays gt)) as [Hle|Hgt'].
    - exists X. split_and!; [done|done|]. intros V HV. by apply smaller_is_cheaper.
    - exists G. split_and!; [done|done|]. intros V HV. left.
      assert (size (new_sites (node_cost context) V) ≤ size (new_sites (node_cost context) G))%nat; [|lia].
      apply subseteq_size. unfold new_sites. set_solver. }
  destruct (trimmed_network Y HY) as (V&E&HVY&HV&HT&HE&Hleaf). exists V. split_and!; [done|auto|].
  assert (∀ x, x ∈ V → (x < n)%nat) as Hrange.
  { intros x Hx. eapply network_in_range; [apply corridor_graph_wf| |exact HV|done].
    pose proof (rs_range _ _ _ _ Hres) as Hr'. by apply Forall_cons in Hr' as [? _]. }
  intros v Hv. destruct (lookup_lt_is_Some_2 (stars graph) v (Hrange v Hv)) as [s Hs]. exists s. split; [done|].
  apply list_elem_of_omap. exists (v, s). split; [apply elem_of_lookup_imap; eauto|]. simpl.
  rewrite (in_corridor_kept V E ds (gt_new_relays gt) v); try done.
  - intros w _ Hw He. auto.
  - etrans; [|exact Hb]. apply inj_le, subseteq_size. unfold new_sites. set_solver.
Qed.

Lemma prune_total : ∃ r, prune_to_relay_corridor graph context = Ok r.
Proof.
  unfold prune_to_relay_corridor. case_decide; [by eexists|].
  destruct (from_terminals_ok ts ts (rs_range _ _ _ _ Hres)) as (r&->&_). cbn [mbind result_bind].
  destruct r as [ds|]; [|by eexists]. unfold greedy_tree_relay_bound.
  destruct (greedy_terminal_tree_ok graph context corridor_graph_wf corridor_costs_wf ltac:(lia)
    (start_is_free _ _ _ _ Hres) ts (rs_range _ _ _ _ Hres) (terminals_start context))
    as [[-> _]|(gt&->&_)]; cbn [mbind result_bind option_map]; eauto.
Qed.
End Corridor.

(** the reduction of a graph to the relay corridor always ends, and loses nothing: for
    every network of the graph there is one at most as costly, in new relays and then in
    hops, whose systems are all kept. *)
Theorem relay_corridor_is_lossless catalogue request ranges graph context :
  with_relay_ranges catalogue (max_hop_ly request) ranges = Ok graph →
  resolve_context graph request (target_names request) = Ok context →
  Z.of_nat (length catalogue) + 3 < INF_COMPONENT →
  ∃ kept, prune_to_relay_corridor graph context = Ok kept
    ∧ ∀ stars' X, kept = Some stars' → network graph (terminals context) (start context) X →
      ∃ V, network graph (terminals context) (start context) V
        ∧ at_most_as_costly (node_cost context) V X
        ∧ ∀ v, v ∈ V → ∃ s, stars graph !! v = Some s ∧ s ∈ stars'.
Proof.
  intros Hg Hc Hn. pose proof (with_relay_ranges_built _ _ _ _ Hg) as Hb.
  pose proof (resolve_request _ _ _ _ _ _ Hb Hc) as Hr. rewrite <- (built_size _ _ _ _ Hb) in Hn.
  destruct (prune_total _ _ _ _ Hb _ _ _ Hr Hn) as (kept&Hk). exists kept. split; [done|].
  intros stars' X ->. by apply (pruned_keeps _ _ _ _ Hb _ _ _ Hr Hn).
Qed.
