(* ===== verification/RelayWitnesses.v ===== *)
(** * Concrete relay networks

    The hypotheses of the theorems on the relay planner hold on concrete catalogues. *)

From S2P Require Import Prelude Float64 RelayGraph RelaySolver RelayTravel RelayPlan.
From S2P Require Import RelayClosureFacts RelaySolutionFacts RelayGraphFacts RelayPlanFacts.
From S2P Require Import RelayTravelFacts RelayCorridorFacts.
Import Relay.

Definition star (name : string) (x : Z) : Star :=
  {| designation := name; position := {| po_x := F64.of_Z x; po_y := F64.zero; po_z := F64.zero |};
     entry_point := None |}.

Definition relays_to (from : string) (targets : list string) : Planner.RelayNetworkRequest :=
  {| Planner.rq_start := from; Planner.rq_targets := targets; Planner.active_relay_systems := {["B"]};
     Planner.inactive_relay_systems := ∅; Planner.max_hop_ly := F64.of_Z 7 |}.

(** Four stars on a line, five light years apart, with a relay at the second. *)
Definition four_stars : list Star := [star "D" 15; star "A" 0; star "C" 10; star "B" 5].
Definition four_graph : StarGraph :=
  default {| stars := []; index := ∅; relay_ranges_ly := []; adjacency := [] |}
    match with_relay_ranges four_stars (F64.of_Z 7) ∅ with Ok graph => Some graph | Err _ => None end.
Definition four_request : Planner.RelayNetworkRequest := relays_to "A" ["D"].

(** Seventy stars on a line, of which a plan to the fourth needs four. *)
Definition line_name (i : nat) : string :=
  String (Ascii.ascii_of_nat (65 + i / 10)) (String (Ascii.ascii_of_nat (48 + i mod 10)) "").
Definition seventy_stars : list Star := (λ i, star (line_name i) (5 * Z.of_nat i)) <$> seq 0 70.
Definition seventy_request : Planner.RelayNetworkRequest := relays_to "A0" ["A3"].
Definition seventy_graph : StarGraph :=
  default four_graph
    match with_relay_ranges seventy_stars (F64.of_Z 7) ∅ with Ok graph => Some graph | Err _ => None end.

Definition four_context : Planner.SolverContext :=
  {| Planner.start := 0; Planner.targets := [3%nat]; Planner.active := {[1%nat]}; Planner.inactive := ∅;
     Planner.node_cost := Steiner.node <$> [false; false; true; true] |}.
Definition seventy_context : Planner.SolverContext :=
  {| Planner.start := 0; Planner.targets := [3%nat]; Planner.active := ∅; Planner.inactive := ∅;
     Planner.node_cost := Steiner.node false :: replicate 69 (Steiner.node true) |}.

Lemma four_graph_built : with_relay_ranges four_stars (F64.of_Z 7) ∅ = Ok four_graph.
Proof. vm_compute. reflexivity. Qed.


(** A fifth star is out of reach. *)
Lemma relay_search_fails_iff_disconnected_witness :
  ∃ graph context e,
    with_relay_ranges (star "Z" 100 :: four_stars) (F64.of_Z 7) ∅ = Ok graph
    ∧ Planner.resolve_context graph (relays_to "A" ["Z"]) ["Z"] = Ok context
    ∧ Planner.choose_tree graph context Planner.EXACT_STATE_LIMIT = Err e
    ∧ ∀ V, ¬ network graph (Planner.terminals context) (Planner.start context) V.
Proof.
  eexists _, _, _. split; [vm_compute; reflexivity|]. split; [vm_compute; reflexivity|].
  split; [vm_compute; reflexivity|].
  eapply (relay_search_fails_iff_disconnected (star "Z" 100 :: four_stars) (relays_to "A" ["Z"]) ∅ _ _
            Planner.EXACT_STATE_LIMIT).
  - vm_compute. reflexivity.
  - vm_compute. reflexivity.
  - done.
  - done.
  - eexists. vm_compute. reflexivity.
Defined.

Lemma metric_closure_is_shortest_walk_witness :
  ∃ vs ps,
    Steiner.metric_closure four_graph (Planner.node_cost four_context)
      [Steiner.node false; Steiner.INF; Steiner.INF; Steiner.INF] (replicate 4 Steiner.NoParent) = Some (vs, ps)
    ∧ walk four_graph (Planner.node_cost four_context)
        [Steiner.node false; Steiner.INF; Steiner.INF; Steiner.INF] 3 (cost_key (Steiner.at_ vs 3)).
Proof.
  destruct (metric_closure_is_shortest_walk four_graph (Planner.node_cost four_context)
    [Steiner.node false; Steiner.INF; Steiner.INF; Steiner.INF] (replicate 4 Steiner.NoParent) 1) as (vs&ps&Hm&Hv).
  - apply (with_relay_ranges_built _ _ _ _ four_graph_built).
  - repeat constructor; eexists; reflexivity.
  - reflexivity.
  - reflexivity.
  - done.
  - vm_compute. reflexivity.
  - intros v. do 4 (destruct v as [|v]; [try (by left); right; vm_compute; repeat split; discriminate|]). left. by destruct v.
  - exists vs, ps. split; [exact Hm|].
    destruct (Hv 3%nat) as [[E _]|(_&Hw&_)]; [|exact Hw].
    exfalso. revert E. vm_compute in Hm. injection Hm as <- <-. discriminate.
Defined.

Lemma relay_corridor_is_lossless_witness :
  Planner.prune_to_relay_corridor seventy_graph seventy_context
  = Ok (Some (take 4 (stars seventy_graph)))
  ∧ ∀ X, network seventy_graph [0%nat; 3%nat] 0 X →
      ∃ V, network seventy_graph [0%nat; 3%nat] 0 V
        ∧ ∀ v, v ∈ V → ∃ s, stars seventy_graph !! v = Some s ∧ s ∈ take 4 (stars seventy_graph).
Proof.
  destruct (relay_corridor_is_lossless seventy_stars seventy_request ∅ seventy_graph seventy_context)
    as (kept&Hk&Hall).
  - vm_compute. reflexivity.
  - vm_compute. reflexivity.
  - vm_compute. reflexivity.
  - assert (kept = Some (take 4 (stars seventy_graph))) as ->.
    { assert (Ok kept = Ok (E := PlannerError) (Some (take 4 (stars seventy_graph)))) as H; [|by injection H].
      rewrite <- Hk. vm_compute. reflexivity. }
    split; [exact Hk|]. intros X HX. destruct (Hall _ X eq_refl HX) as (V&HV&_&Hs). exists V. split; [exact HV|exact Hs].
Defined.

(** The two systems of the plan for four stars that need work. *)
Definition four_nodes : list Travel.NetworkNode :=
  match Planner.plan_relay_network four_stars four_request with Ok plan => Planner.nodes plan | Err _ => [] end.

Lemma execution_order_is_dependency_safe_witness :
  Travel.system <$> filter (λ node, Travel.needs_work node = true) four_nodes = ["C"; "D"]
  ∧ ∃ hops d, Travel.optimize_execution_order four_graph 0 four_nodes = Ok (["C"; "D"], true, hops, d)
    ∧ ["C"; "D"] ≡ₚ Travel.system <$> filter (λ node, Travel.needs_work node = true) four_nodes.
Proof.
  split; [vm_compute; reflexivity|]. eexists _, _. split; [vm_compute; reflexivity|].
  eapply (execution_order_is_dependency_safe four_graph 0 four_nodes ["C"; "D"] true).
  - vm_compute. reflexivity.
  - apply (bool_decide_unpack _). vm_compute. reflexivity.
Defined.

Lemma execution_hops_are_fewest_witness :
  ∃ d costs l, Travel.optimize_execution_order four_graph 0 four_nodes = Ok (["C"; "D"], true, 6, d)
    ∧ 6 = cap (round_trip_hops costs l).
Proof.
  edestruct (execution_hops_are_fewest four_graph 0 four_nodes ["C"; "D"] 6) as (points&costs&l&_&_&_&_&Hh&_).
  - vm_compute. reflexivity.
  - vm_compute. discriminate.
  - eexists _, costs, l. split; [vm_compute; reflexivity|exact Hh].
Defined.

(** The cells of the grid are as wide as the longest range, but an edge may be longer by a
    tolerance: two stars that are in range of each other are not linked when a cell lies
    between them. *)
Definition apart : list Star :=
  [{| designation := "A"; entry_point := None;
      position := {| po_x := F64.div (F64.of_Z 99999999999) (F64.of_Z 10000000000); po_y := F64.zero; po_z := F64.zero |} |};
   star "B" 20].

Example grid_misses_an_edge_within_tolerance :
  match with_relay_ranges apart (F64.of_Z 10) ∅ with
  | Ok graph => spans (default (star "" 0, F64.zero) (zip (stars graph) (relay_ranges_ly graph) !! 0%nat))
                      (default (star "" 0, F64.zero) (zip (stars graph) (relay_ranges_ly graph) !! 1%nat)) = true
                ∧ adjacency graph = [[]; []]
  | Err _ => False
  end.
Proof. vm_compute. split; reflexivity. Qed.
