(* ===== verification/Json.v ===== *)
(** * JSON values

    [serde_json::Value] as the planner and the operation journal use it.  An object is the
    list of its entries in the order of their keys, each key once; the number type of the
    library is a parameter with its accessors. *)

From S2P Require Import Prelude Float64.

(** [serde_json::Number]: equality, the accessors, the conversion of an integer, and of a
    float, which fails on one that is not finite. *)
Class JsonNumber := {
  number : Type;
  number_eq : EqDecision number;
  as_i64 : number → option Z;
  as_u64 : number → option Z;
  as_f64 : number → option F64.t;
  from_f64 : F64.t → option number;
  from_i64 : Z → number;
}.
#[global] Existing Instance number_eq.

Section Json.
Context `{JN : JsonNumber}.

(** [serde_json::Value] *)
Inductive Value :=
| Null
| Bool (b : bool)
| Number (n : number)
| Text (s : string)
| Array (items : list Value)
| Object (fields : list (string * Value)).
End Json.

(** [Map<String, Value>] *)
Abbreviation Object_ := (list (string * Value)).

Section Values.
Context `{JN : JsonNumber}.

(** ** Access *)

(** [object.get(key)] *)
Fixpoint get_field (object : Object_) (key : string) : option Value :=
  match object with
  | [] => None
  | (k, v) :: object => if decide (k = key) then Some v else get_field object key
  end.

Definition as_str (value : Value) : option string := match value with Text s => Some s | _ => None end.
Definition as_bool (value : Value) : option bool := match value with Bool b => Some b | _ => None end.
Definition as_array (value : Value) : option (list Value) := match value with Array l => Some l | _ => None end.
Definition as_object (value : Value) : option Object_ := match value with Object o => Some o | _ => None end.

Definition value_as_i64 (value : Value) : option Z := match value with Number n => as_i64 n | _ => None end.

(** [value.get(key)] *)
Definition get (value : Value) (key : string) : option Value := o ← as_object value; get_field o key.

(** [.get(key).and_then(Value::as_..)] of an object or a value *)
Definition field_array (object : Object_) (key : string) : option (list Value) :=
  v ← get_field object key; as_array v.
Definition get_array (value : Value) (key : string) : option (list Value) := v ← get value key; as_array v.
Definition get_str (value : Value) (key : string) : option string := v ← get value key; as_str v.
Definition get_bool (value : Value) (key : string) : option bool := v ← get value key; as_bool v.

(** [object.insert(key, value)] *)
Fixpoint insert_field (key : string) (value : Value) (object : Object_) : Object_ :=
  match object with
  | [] => [(key, value)]
  | (k, v) :: rest =>
      if decide (k = key) then (key, value) :: rest
      else if String.ltb key k then (key, value) :: object
      else (k, v) :: insert_field key value rest
  end.

Lemma get_insert_eq key value object : get_field (insert_field key value object) key = Some value.
Proof.
  induction object as [|[k v] object IH]; simpl; [by rewrite decide_True|].
  destruct (decide (k = key)) as [->|Hk]; [simpl; by rewrite decide_True|].
  destruct (String.ltb key k); simpl; [by rewrite decide_True|]. by rewrite decide_False.
Qed.

Lemma get_insert_ne key key' value object :
  key ≠ key' → get_field (insert_field key value object) key' = get_field object key'.
Proof.
  intros Hne. induction object as [|[k v] object IH]; simpl; [by rewrite decide_False|].
  destruct (decide (k = key)) as [->|Hk]; [simpl; by rewrite !decide_False by done|].
  destruct (String.ltb key k); [simpl; by rewrite decide_False|]. simpl. by destruct (decide (k = key')).
Qed.

(** ** Serialisation *)

(** A struct whose [None] fields are skipped. *)
Definition object_of (fields : list (string * option Value)) : Object_ :=
  foldr (λ (f : string * option Value) object,
    match f.2 with Some v => insert_field f.1 v object | None => object end) [] fields.

Definition integer (z : Z) : Value := Number (from_i64 z).
(** A float that is not finite is written as [null]. *)
Definition float (x : F64.t) : Value := match from_f64 x with Some n => Number n | None => Null end.
Definition texts (l : list string) : Value := Array (Text <$> l).
(** [BTreeMap<String, f64>] *)
Definition float_map (m : gmap string F64.t) : Value :=
  Object (object_of ((λ e : string * F64.t, (e.1, Some (float e.2))) <$> map_to_list m)).

(** ** Equality *)

(** Two lists of the same length whose elements agree. *)
Definition all2 {A} (f : A → A → bool) : list A → list A → bool :=
  fix go l k := match l, k with
    | [], [] => true
    | a :: l, b :: k => f a b && go l k
    | _, _ => false
    end.

Fixpoint value_eqb (a b : Value) {struct a} : bool :=
  match a, b with
  | Null, Null => true
  | Bool x, Bool y => Bool.eqb x y
  | Number x, Number y => bool_decide (x = y)
  | Text x, Text y => bool_decide (x = y)
  | Array l, Array k => all2 value_eqb l k
  | Object l, Object k => all2 (λ e f, bool_decide (e.1 = f.1) && value_eqb e.2 f.2) l k
  | _, _ => false
  end.

Section Induction.
Variable P : Value → Prop.
Hypothesis HNull : P Null.
Hypothesis HBool : ∀ b, P (Bool b).
Hypothesis HNumber : ∀ n, P (Number n).
Hypothesis HText : ∀ s, P (Text s).
Hypothesis HArray : ∀ items, Forall P items → P (Array items).
Hypothesis HObject : ∀ fields, Forall (λ e : string * Value, P e.2) fields → P (Object fields).

Fixpoint value_induction (v : Value) : P v :=
  match v with
  | Null => HNull
  | Bool b => HBool b
  | Number n => HNumber n
  | Text s => HText s
  | Array items => HArray items ((fix go l : Forall P l :=
      match l with [] => Forall_nil_2 _ | x :: l => Forall_cons_2 _ _ _ (value_induction x) (go l) end) items)
  | Object fields => HObject fields ((fix go l : Forall (λ e : string * Value, P e.2) l :=
      match l with [] => Forall_nil_2 _ | x :: l => Forall_cons_2 _ _ _ (value_induction x.2) (go l) end) fields)
  end.
End Induction.

Lemma all2_spec {A} (f : A → A → bool) l k :
  Forall (λ a, ∀ b, f a b = true ↔ a = b) l → all2 f l k = true ↔ l = k.
Proof.
  intros Hl. revert k. induction Hl as [|a l Ha Hl IH]; intros [|b k]; simpl; try done.
  rewrite andb_true_iff, Ha, IH. split; [by intros [-> ->]|by intros [= -> ->]].
Qed.

Lemma value_eqb_spec a b : value_eqb a b = true ↔ a = b.
Proof.
  revert b. induction a as [|x|x|x|l IH|l IH] using value_induction; intros [|y|y|y|k|k]; simpl; try done.
  - rewrite eqb_true_iff. naive_solver.
  - rewrite bool_decide_eq_true. naive_solver.
  - rewrite bool_decide_eq_true. naive_solver.
  - rewrite all2_spec by done. naive_solver.
  - rewrite all2_spec; [naive_solver|]. eapply Forall_impl; [exact IH|]. intros [x v] Hv [y w]. simpl in *.
    rewrite andb_true_iff, bool_decide_eq_true, Hv. naive_solver.
Qed.

#[global] Instance value_eq : EqDecision Value.
Proof.
  intros a b. destruct (value_eqb a b) eqn:E; [left|right]; [by apply value_eqb_spec|].
  intros H%value_eqb_spec. congruence.
Defined.
End Values.

(** Integers as the numbers of JSON. *)
Definition integer_numbers : JsonNumber :=
  {| number := Z; number_eq := _; as_i64 := i64_try_from; as_u64 := u64_try_from;
     as_f64 := λ z, Some (F64.of_Z z); from_f64 := λ x, if F64.is_finite x then Some (F64.round_Z x) else None;
     from_i64 := id |}.
