(* ===== verification/Mutations.v ===== *)
(** * Mutations of the game state

    The request side of [src/managed/operation.rs]: the typed mutations with the requests
    of [src/raw] they carry, their durable form, their target, the evidence that completes
    them, the check of a device's advertised capability, and the refusal of payloads shaped
    like credentials.  Serialisation is what the [serde] attributes of the types say; the
    deserialiser is a parameter of the journal ([Operations.v]). *)

From stdpp Require Import pretty.
From S2P Require Import Prelude Float64 Json Observations Entities.

Module Mutation.

Section Requests.
Context `{JN : JsonNumber}.

(** ** Requests *)

Inductive UpdateField (A : Type) :=
| Omitted
| Cleared (* Null *)
| Set_ (value : A).
#[global] Arguments Omitted {A}.
#[global] Arguments Cleared {A}.
#[global] Arguments Set_ {A} value.

(** [UpdateField::serialize] under [skip_serializing_if = "UpdateField::is_omitted"] *)
Definition update_value {A} (f : A → Value) (field : UpdateField A) : option Value :=
  match field with Omitted => None | Cleared => Some Null | Set_ v => Some (f v) end.

Record EventSettings := { es_ami_digest_interval : option Z; es_muted : option (list string) }.
Record MessageSettings := { ms_email : option bool; ms_subscribed : option (list string) }.

Record AccountUpdateRequest := {
  au_name : UpdateField string;
  au_email : UpdateField string;
  au_timezone : UpdateField string;
  au_replicant_cooperation : UpdateField string;
  au_bobnet_channels : UpdateField (list string);
  au_events : UpdateField EventSettings;
  au_messages : UpdateField MessageSettings;
  au_message_notify : UpdateField Object_;
}.

Record DeviceConfiguration := {
  dc_add_tags : option (list string);
  dc_remove_tags : option (list string);
  dc_tags : option (list string);
  dc_settings : option Object_;
  dc_linked_device : UpdateField string;
}.

Record TargetsCommand := {
  tg_device : option string;
  tg_devices : option Value;
  tg_target : option string;
  tg_targets : option Value;
}.

Record DeviceConfigurationRequest := { cf_configuration : DeviceConfiguration }.
Record SimulationEnterRequest := { se_replicant_code : string; se_scenario : string }.
Record LocationContributionRequest := { lc_devices : list string }.
Record ReplicantMessageRequest := { rm_channel : string; rm_text : string }.
Record TeleportRequest := { tp_target : string }.
Record TransferRequest := { tf_target : string }.
Record MessagesReadRequest := { mr_ids : option (list Z); mr_mark_all : option bool }.

Record ReplicantUpdateRequest := {
  ru_cohort_permission : option string;
  ru_description_ : option string;
  ru_is_npc : option bool;
  ru_name : option string;
  ru_plan : option string;
  ru_project : option string;
  ru_pronouns : option string;
}.

Record MineRequest := { mn_notify : option Object_; mn_resource_type : string; mn_target : option string }.
Record PrintRequest := {
  pr_command : option string;
  pr_device_type : option string;
  pr_flatpack : option bool;
  pr_notify : option Object_;
}.
Record TravelRequest := {
  tv_destination : option string;
  tv_dry_run : option bool;
  tv_notify : option Object_;
  tv_via : option Value;
}.
End Requests.

(** ** Device commands *)

Module DeviceCommand.
Section Commands.
Context `{JN : JsonNumber}.

Inductive t :=
| Activate
| Assemble
| Adopt (targets : TargetsCommand)
| Attach (targets : TargetsCommand)
| Cancel
| ChangeOwner (target : string)
| ClearDirective
| ClearQueue
| CollectResources (resources : gmap string F64.t)
| Compact
| Configure (mode : option string)
| Deactivate
| Decommission
| Deploy
| DepositResources (resources : option (gmap string F64.t))
| DequeuePrint (index : option Z)
| Detach (targets : TargetsCommand)
| DetectObject
| Detonate (destination target : option string)
| EnqueuePrint (device_type : string) (quantity : option Z) (controller : option string)
    (oncomplete : option Object_) (tags : option (list string)) (flatpack : option bool)
| Launch
| Message (channel text : string)
| Prospect (direction : option (list F64.t))
| Recall
| Release (targets : TargetsCommand)
| Rename (designation name : string)
| Repair (device target : option string)
| Replicate (target : string) (name : option string)
| Retarget (resource_type : string)
| Scan
| Search
| SetDirective (directive : string) (configuration notify : option Object_)
| SetEntryPoint
| SetWelcomeMessage (message : option string)
| StartMining (resource_type : string) (target : option string)
| StellarCensus (page per_page : option Z)
| Stow (target : option string)
| SystemScan
| Travel (destination : string) (dry_run : option bool) (via : option Value)
| Triangulate (signature : string) (target : list F64.t)
| Unfurl
| Withdraw.

(** The [command] tag: the variant in snake case. *)
Definition name (self : t) : string :=
  match self with
  | Activate => "activate" | Assemble => "assemble" | Adopt _ => "adopt" | Attach _ => "attach"
  | Cancel => "cancel" | ChangeOwner _ => "change_owner" | ClearDirective => "clear_directive"
  | ClearQueue => "clear_queue" | CollectResources _ => "collect_resources" | Compact => "compact"
  | Configure _ => "configure" | Deactivate => "deactivate" | Decommission => "decommission"
  | Deploy => "deploy" | DepositResources _ => "deposit_resources" | DequeuePrint _ => "dequeue_print"
  | Detach _ => "detach" | DetectObject => "detect_object" | Detonate _ _ => "detonate"
  | EnqueuePrint _ _ _ _ _ _ => "enqueue_print" | Launch => "launch" | Message _ _ => "message"
  | Prospect _ => "prospect" | Recall => "recall" | Release _ => "release" | Rename _ _ => "rename"
  | Repair _ _ => "repair" | Replicate _ _ => "replicate" | Retarget _ => "retarget" | Scan => "scan"
  | Search => "search" | SetDirective _ _ _ => "set_directive" | SetEntryPoint => "set_entry_point"
  | SetWelcomeMessage _ => "set_welcome_message" | StartMining _ _ => "start_mining"
  | StellarCensus _ _ => "stellar_census" | Stow _ => "stow" | SystemScan => "system_scan"
  | Travel _ _ _ => "travel" | Triangulate _ _ => "triangulate" | Unfurl => "unfurl"
  | Withdraw => "withdraw"
  end.

Definition targets_fields (targets : TargetsCommand) : list (string * option Value) :=
  [("device", Text <$> tg_device targets); ("devices", tg_devices targets);
   ("target", Text <$> tg_target targets); ("targets", tg_targets targets)].

(** The parameters of a command. *)
Definition fields (self : t) : list (string * option Value) :=
  match self with
  | Adopt targets | Attach targets | Detach targets | Release targets => targets_fields targets
  | ChangeOwner target => [("target", Some (Text target))]
  | CollectResources resources => [("resources", Some (float_map resources))]
  | Configure mode => [("mode", Text <$> mode)]
  | DepositResources resources => [("resources", float_map <$> resources)]
  | DequeuePrint index => [("index", integer <$> index)]
  | Detonate destination target => [("destination", Text <$> destination); ("target", Text <$> target)]
  | EnqueuePrint device_type quantity controller oncomplete tags flatpack =>
      [("device_type", Some (Text device_type)); ("quantity", integer <$> quantity);
       ("controller", Text <$> controller); ("oncomplete", Object <$> oncomplete);
       ("tags", texts <$> tags); ("flatpack", Bool <$> flatpack)]
  | Message channel text => [("channel", Some (Text channel)); ("text", Some (Text text))]
  | Prospect direction => [("direction", (λ l, Array (float <$> l)) <$> direction)]
  | Rename designation name => [("designation", Some (Text designation)); ("name", Some (Text name))]
  | Repair device target => [("device", Text <$> device); ("target", Text <$> target)]
  | Replicate target name => [("target", Some (Text target)); ("name", Text <$> name)]
  | Retarget resource_type => [("resource_type", Some (Text resource_type))]
  | SetDirective directive configuration notify =>
      [("directive", Some (Text directive)); ("configuration", Object <$> configuration);
       ("notify", Object <$> notify)]
  | SetWelcomeMessage message => [("message", Text <$> message)]
  | StartMining resource_type target =>
      [("resource_type", Some (Text resource_type)); ("target", Text <$> target)]
  | StellarCensus page per_page => [("page", integer <$> page); ("per_page", integer <$> per_page)]
  | Stow target => [("target", Text <$> target)]
  | Travel destination dry_run via =>
      [("destination", Some (Text destination)); ("dry_run", Bool <$> dry_run); ("via", via)]
  | Triangulate signature target =>
      [("signature", Some (Text signature)); ("target", Some (Array (float <$> target)))]
  | _ => []
  end.

Definition to_value (self : t) : Value :=
  Object (object_of (("command", Some (Text (name self))) :: fields self)).
End Commands.
End DeviceCommand.

(** ** Mutations *)

Module MutationAdapter.
Section Adapters.
Context `{JN : JsonNumber}.

Inductive t :=
| AccountUpdate (request : AccountUpdateRequest)
| AccountWipe
| DeviceConfigure (device_code : string) (request : DeviceConfigurationRequest)
| DeviceRetrieve (device_code : string)
| DeviceCommand (device_code : string) (command : DeviceCommand.t)
| DeviceDynamicCommand (device_code : string) (command : Object_)
| DeviceGrantPermission (device_code : string) (request : Object_)
| DeviceRevokePermission (device_code : string)
| DeviceEnterSimulation (device_code : string) (request : SimulationEnterRequest)
| DeviceAbandonSimulation (device_code : string) (simulation_id : Z)
| DeviceCreateTrade (device_code : string) (request : Object_)
| DeviceDeleteTrade (device_code trade_code : string)
| DeviceFulfillTrade (device_code trade_code : string)
| LocationContribute (designation : string) (request : LocationContributionRequest)
| LocationEventResolve (location_code designation : string)
| MessagesMarkRead (request : MessagesReadRequest)
| ReplicantUpdate (replicant_code : string) (request : ReplicantUpdateRequest)
| ReplicantMessage (replicant_code : string) (request : ReplicantMessageRequest)
| ReplicantMine (replicant_code : string) (request : MineRequest)
| ReplicantStopMining (replicant_code : string)
| ReplicantPrint (replicant_code : string) (request : PrintRequest)
| ReplicantScan (replicant_code : string)
| ReplicantTeleport (replicant_code : string) (request : TeleportRequest)
| ReplicantTransfer (replicant_code : string) (request : TransferRequest)
| ReplicantTravel (replicant_code : string) (request : TravelRequest)
| ReplicantCancelTravel (replicant_code : string).

Definition operation_id (self : t) : string :=
  match self with
  | AccountUpdate _ => "account_update"
  | AccountWipe => "account_wipe"
  | DeviceConfigure _ _ => "device_configure"
  | DeviceRetrieve _ => "device_retrieve"
  | DeviceCommand _ _ => "device_command"
  | DeviceDynamicCommand _ _ => "device_dynamic_command"
  | DeviceGrantPermission _ _ => "device_grant_permission"
  | DeviceRevokePermission _ => "device_revoke_permission"
  | DeviceEnterSimulation _ _ => "device_enter_simulation"
  | DeviceAbandonSimulation _ _ => "device_abandon_simulation"
  | DeviceCreateTrade _ _ => "device_create_trade"
  | DeviceDeleteTrade _ _ => "device_delete_trade"
  | DeviceFulfillTrade _ _ => "device_fulfill_trade"
  | LocationContribute _ _ => "location_contribute"
  | LocationEventResolve _ _ => "location_event_resolve"
  | MessagesMarkRead _ => "messages_mark_read"
  | ReplicantUpdate _ _ => "replicant_update"
  | ReplicantMessage _ _ => "replicant_message"
  | ReplicantMine _ _ => "replicant_mine"
  | ReplicantStopMining _ => "replicant_stop_mining"
  | ReplicantPrint _ _ => "replicant_print"
  | ReplicantScan _ => "replicant_scan"
  | ReplicantTeleport _ _ => "replicant_teleport"
  | ReplicantTransfer _ _ => "replicant_transfer"
  | ReplicantTravel _ _ => "replicant_travel"
  | ReplicantCancelTravel _ => "replicant_cancel_travel"
  end.

Definition target (self : t) : option (string * string) :=
  match self with
  | AccountUpdate _ | AccountWipe => Some ("account", "")
  | DeviceRetrieve _ => None
  | DeviceConfigure device_code _ | DeviceCommand device_code _ | DeviceDynamicCommand device_code _
  | DeviceGrantPermission device_code _ | DeviceRevokePermission device_code
  | DeviceEnterSimulation device_code _ | DeviceCreateTrade device_code _
  | DeviceDeleteTrade device_code _ | DeviceFulfillTrade device_code _ => Some ("device", device_code)
  | DeviceAbandonSimulation _ simulation_id => Some ("simulation", pretty simulation_id)
  | LocationContribute designation _ => Some ("location", designation)
  | LocationEventResolve location_code _ => Some ("location", location_code)
  | MessagesMarkRead _ => None
  | ReplicantUpdate replicant_code _ | ReplicantMessage replicant_code _ | ReplicantMine replicant_code _
  | ReplicantStopMining replicant_code | ReplicantPrint replicant_code _ | ReplicantScan replicant_code
  | ReplicantTeleport replicant_code _ | ReplicantTransfer replicant_code _
  | ReplicantTravel replicant_code _ | ReplicantCancelTravel replicant_code =>
      Some ("replicant", replicant_code)
  end.
End Adapters.
End MutationAdapter.

Section Durable.
Context `{JN : JsonNumber}.

(** *** Serialisation of the requests *)

Definition account_update_value (r : AccountUpdateRequest) : Value :=
  Object (object_of
    [("name", update_value Text (au_name r)); ("email", update_value Text (au_email r));
     ("timezone", update_value Text (au_timezone r));
     ("replicant_cooperation", update_value Text (au_replicant_cooperation r));
     ("bobnet_channels", update_value texts (au_bobnet_channels r));
     ("events", update_value (λ e, Object (object_of
        [("ami_digest_interval", integer <$> es_ami_digest_interval e); ("muted", texts <$> es_muted e)]))
        (au_events r));
     ("messages", update_value (λ m, Object (object_of
        [("email", Bool <$> ms_email m); ("subscribed", texts <$> ms_subscribed m)])) (au_messages r));
     ("message_notify", update_value Object (au_message_notify r))]).

Definition configuration_value (c : DeviceConfiguration) : Object_ :=
  object_of
    [("add_tags", texts <$> dc_add_tags c); ("remove_tags", texts <$> dc_remove_tags c);
     ("tags", texts <$> dc_tags c); ("settings", Object <$> dc_settings c);
     ("linked_device", update_value Text (dc_linked_device c))].

Definition replicant_update_value (r : ReplicantUpdateRequest) : Value :=
  Object (object_of
    [("cohort_permission", Text <$> ru_cohort_permission r); ("description", Text <$> ru_description_ r);
     ("is_npc", Bool <$> ru_is_npc r); ("name", Text <$> ru_name r); ("plan", Text <$> ru_plan r);
     ("project", Text <$> ru_project r); ("pronouns", Text <$> ru_pronouns r)]).

Definition travel_value (r : TravelRequest) : Value :=
  Object (object_of
    [("destination", Text <$> tv_destination r); ("dry_run", Bool <$> tv_dry_run r);
     ("notify", Object <$> tv_notify r); ("via", tv_via r)]).

Definition print_value (r : PrintRequest) : Value :=
  Object (object_of
    [("command", Text <$> pr_command r); ("device_type", Text <$> pr_device_type r);
     ("flatpack", Bool <$> pr_flatpack r); ("notify", Object <$> pr_notify r)]).

(** The fields of a mutation beside its [kind]. *)
Definition adapter_fields (self : MutationAdapter.t) : list (string * option Value) :=
  match self with
  | MutationAdapter.AccountUpdate r => [("request", Some (account_update_value r))]
  | MutationAdapter.AccountWipe => []
  | MutationAdapter.DeviceConfigure c r =>
      [("device_code", Some (Text c));
       ("request", Some (Object (object_of [("configuration", Some (Object (configuration_value (cf_configuration r))))])))]
  | MutationAdapter.DeviceRetrieve c | MutationAdapter.DeviceRevokePermission c => [("device_code", Some (Text c))]
  | MutationAdapter.DeviceCommand c command =>
      [("device_code", Some (Text c)); ("command", Some (DeviceCommand.to_value command))]
  | MutationAdapter.DeviceDynamicCommand c command =>
      [("device_code", Some (Text c)); ("command", Some (Object command))]
  | MutationAdapter.DeviceGrantPermission c r | MutationAdapter.DeviceCreateTrade c r =>
      [("device_code", Some (Text c)); ("request", Some (Object r))]
  | MutationAdapter.DeviceEnterSimulation c r =>
      [("device_code", Some (Text c));
       ("request", Some (Object (object_of [("replicant_code", Some (Text (se_replicant_code r)));
                                            ("scenario", Some (Text (se_scenario r)))])))]
  | MutationAdapter.DeviceAbandonSimulation c i =>
      [("device_code", Some (Text c)); ("simulation_id", Some (integer i))]
  | MutationAdapter.DeviceDeleteTrade c trade | MutationAdapter.DeviceFulfillTrade c trade =>
      [("device_code", Some (Text c)); ("trade_code", Some (Text trade))]
  | MutationAdapter.LocationContribute d r =>
      [("designation", Some (Text d)); ("request", Some (Object (object_of [("devices", Some (texts (lc_devices r)))])))]
  | MutationAdapter.LocationEventResolve l d =>
      [("location_code", Some (Text l)); ("designation", Some (Text d))]
  | MutationAdapter.MessagesMarkRead r =>
      [("request", Some (Object (object_of
         [("ids", (λ l, Array (integer <$> l)) <$> mr_ids r); ("mark_all", Bool <$> mr_mark_all r)])))]
  | MutationAdapter.ReplicantUpdate c r =>
      [("replicant_code", Some (Text c)); ("request", Some (replicant_update_value r))]
  | MutationAdapter.ReplicantMessage c r =>
      [("replicant_code", Some (Text c));
       ("request", Some (Object (object_of [("channel", Some (Text (rm_channel r))); ("text", Some (Text (rm_text r)))])))]
  | MutationAdapter.ReplicantMine c r =>
      [("replicant_code", Some (Text c));
       ("request", Some (Object (object_of
          [("notify", Object <$> mn_notify r); ("resource_type", Some (Text (mn_resource_type r)));
           ("target", Text <$> mn_target r)])))]
  | MutationAdapter.ReplicantStopMining c | MutationAdapter.ReplicantScan c
  | MutationAdapter.ReplicantCancelTravel c => [("replicant_code", Some (Text c))]
  | MutationAdapter.ReplicantPrint c r => [("replicant_code", Some (Text c)); ("request", Some (print_value r))]
  | MutationAdapter.ReplicantTeleport c r =>
      [("replicant_code", Some (Text c)); ("request", Some (Object (object_of [("target", Some (Text (tp_target r)))])))]
  | MutationAdapter.ReplicantTransfer c r =>
      [("replicant_code", Some (Text c)); ("request", Some (Object (object_of [("target", Some (Text (tf_target r)))])))]
  | MutationAdapter.ReplicantTravel c r =>
      [("replicant_code", Some (Text c)); ("request", Some (travel_value r))]
  end.

(** [to_value(self)] under [serde(tag = "kind", rename_all = "snake_case")] *)
Definition adapter_object (self : MutationAdapter.t) : Object_ :=
  object_of (("kind", Some (Text (MutationAdapter.operation_id self))) :: adapter_fields self).
End Durable.

(** ** Evidence *)

Section Evidence.
Context `{JN : JsonNumber}.

(** The plan of [operation_evidence]: an object with these four keys. *)
Definition evidence_plan (names failures : list string) (payload : Object_) (expected_state : Value) : Value :=
  Object [("event_names", texts names); ("expected_state", expected_state);
          ("failure_event_names", texts failures); ("payload", Object payload)].
Definition events (names failures : list string) (payload : Object_) : Value :=
  evidence_plan names failures payload Null.
Definition no_events : Value := events [] [] [].

Definition command_evidence (command : DeviceCommand.t) : Value :=
  match command with
  | DeviceCommand.Activate =>
      events ["diversion.activated"; "hub.activated"; "relay.activated"; "ward.activated"] [] []
  | DeviceCommand.Assemble => events ["ami.assembled"] [] []
  | DeviceCommand.Adopt _ => events ["ami.adopted"] [] []
  | DeviceCommand.Attach _ => events ["device.attached"] [] []
  | DeviceCommand.ChangeOwner target => events ["device.changed_owner"] [] [("to_replicant", Text target)]
  | DeviceCommand.ClearDirective => events ["directive.cleared"] [] []
  | DeviceCommand.CollectResources resources =>
      events ["transport.collected"] [] [("resources", float_map resources)]
  | DeviceCommand.Compact => events ["device.compacted"] [] []
  | DeviceCommand.Decommission => events ["device.decommissioned"] [] []
  | DeviceCommand.Deploy => events ["device.deployed"] [] []
  | DeviceCommand.DepositResources resources =>
      events ["transport.delivered"] []
        (match resources with None => [] | Some resources => [("resources", float_map resources)] end)
  | DeviceCommand.Detach _ => events ["device.detached"] [] []
  | DeviceCommand.EnqueuePrint device_type _ _ _ _ _ =>
      events ["print.completed"] [] [("device_type", Text device_type)]
  | DeviceCommand.Launch => events ["ami.launched"] [] []
  | DeviceCommand.Message channel text =>
      events ["bobnet.new"] [] [("channel", Text channel); ("message", Text text)]
  | DeviceCommand.Prospect _ => events ["prospect.completed"] [] []
  | DeviceCommand.Recall | DeviceCommand.Stow _ => events ["device.stowed"] [] []
  | DeviceCommand.Release _ => events ["ami.released"] [] []
  | DeviceCommand.Rename designation name =>
      events ["system.body_renamed"] [] [("designation", Text designation); ("new_name", Text name)]
  | DeviceCommand.Retarget resource_type =>
      events ["mining.retargeted"] [] [("new_resource", Text resource_type)]
  | DeviceCommand.Scan => events ["scan.completed"] [] []
  | DeviceCommand.Search => events ["search.completed"] [] []
  | DeviceCommand.SetDirective directive _ _ => events ["directive.set"] [] [("directive", Text directive)]
  | DeviceCommand.SetEntryPoint => events ["system.entry_point_set"] [] []
  | DeviceCommand.StartMining resource_type _ =>
      events ["mining.started"] [] [("resource_type", Text resource_type)]
  | DeviceCommand.Travel destination dry_run _ =>
      if decide (dry_run = Some true) then no_events
      else events ["travel.arrived"] [] [("destination", Text destination)]
  | DeviceCommand.Triangulate signature target =>
      events ["triangulation.complete"] ["triangulation.failed"]
        [("signature", Text signature); ("target", Array (float <$> target))]
  | DeviceCommand.Unfurl => events ["device.unfurled"] [] []
  | DeviceCommand.Withdraw => events ["ami.withdrawn"] [] []
  | _ => no_events
  end.

Definition operation_evidence (adapter : MutationAdapter.t) : Value :=
  match adapter with
  | MutationAdapter.ReplicantUpdate _ request =>
      evidence_plan [] [] [] (match ru_name request with None => Null | Some name => Object [("name", Text name)] end)
  | MutationAdapter.DeviceCommand _ command => command_evidence command
  | MutationAdapter.DeviceCreateTrade _ _ => events ["trade.created"] [] []
  | MutationAdapter.DeviceDeleteTrade _ trade_code =>
      events ["trade.deleted"] [] [("trade_code", Text trade_code)]
  | MutationAdapter.DeviceFulfillTrade _ trade_code =>
      events ["trade.completed"] [] [("trade_code", Text trade_code)]
  | MutationAdapter.ReplicantMine _ request =>
      events ["mining.started"] [] [("resource_type", Text (mn_resource_type request))]
  | MutationAdapter.ReplicantStopMining _ => events ["mining.stopped"] [] []
  | MutationAdapter.ReplicantPrint _ request =>
      match pr_command request, pr_device_type request with
      | None, Some device_type => events ["print.completed"] [] [("device_type", Text device_type)]
      | _, _ => no_events
      end
  | MutationAdapter.ReplicantTeleport _ request =>
      events ["teleport.completed"] ["teleport.failed"] [("target_matrix_code", Text (tp_target request))]
  | MutationAdapter.ReplicantTravel _ request =>
      match tv_dry_run request, tv_destination request with
      | Some true, _ | _, None => no_events
      | _, Some destination => events ["travel.arrived"] [] [("destination", Text destination)]
      end
  | MutationAdapter.ReplicantCancelTravel _ => events ["travel.cancelled"] [] []
  | _ => no_events
  end.

Definition device_command_expects_evidence (command : DeviceCommand.t) : bool :=
  match command with
  | DeviceCommand.Travel _ dry_run _ => negb (bool_decide (dry_run = Some true))
  | DeviceCommand.Compact | DeviceCommand.EnqueuePrint _ _ _ _ _ _ | DeviceCommand.Prospect _
  | DeviceCommand.Repair _ _ | DeviceCommand.Scan | DeviceCommand.SystemScan
  | DeviceCommand.Triangulate _ _ | DeviceCommand.Unfurl => true
  | _ => false
  end.

Definition device_command_response_completes (command : DeviceCommand.t) : bool :=
  match command with DeviceCommand.Deploy | DeviceCommand.Stow _ => true | _ => false end.

Definition expects_evidence (self : MutationAdapter.t) : bool :=
  match get_array (operation_evidence self) "event_names" with
  | Some (_ :: _) => true
  | _ =>
      match self with
      | MutationAdapter.DeviceCommand _ command => device_command_expects_evidence command
      | MutationAdapter.DeviceDynamicCommand _ _ | MutationAdapter.ReplicantTeleport _ _ => true
      | MutationAdapter.ReplicantPrint _ request =>
          bool_decide (pr_command request = None) && bool_decide (is_Some (pr_device_type request))
      | MutationAdapter.ReplicantTravel _ request =>
          negb (bool_decide (tv_dry_run request = Some true)) && bool_decide (is_Some (tv_destination request))
      | _ => false
      end
  end.

(** The [response_completes] of [attempt] *)
Definition response_completes (adapter : MutationAdapter.t) : bool :=
  match adapter with
  | MutationAdapter.MessagesMarkRead _ => true
  | MutationAdapter.DeviceCommand _ command => device_command_response_completes command
  | _ => false
  end.

(** ** Payloads shaped like credentials *)

Definition SENSITIVE_KEYS : list string :=
  ["token"; "secret"; "authorization"; "password"; "credential"; "webhook"].

(** [haystack.contains(needle)] *)
Definition str_contains (haystack needle : string) : bool :=
  bool_decide (is_Some (String.index 0 needle haystack)).

Definition sensitive_key (key : string) : bool :=
  existsb (str_contains (to_ascii_lowercase key)) SENSITIVE_KEYS.

Fixpoint contains_secret (value : Value) : bool :=
  match value with
  | Object fields => existsb (λ e : string * Value, sensitive_key e.1 || contains_secret e.2) fields
  | Array values => existsb contains_secret values
  | _ => false
  end.

Definition SECRET_MESSAGE : string := "gameplay request must not contain authentication-shaped fields".
Definition ensure_no_secrets (value : Value) : result string unit :=
  if contains_secret value then Err SECRET_MESSAGE else Ok tt.

(** [durable_intent], with the object it yields *)
Definition durable_intent (self : MutationAdapter.t) : result string Object_ :=
  match ensure_no_secrets (Object (adapter_object self)) with
  | Err e => Err e
  | Ok _ => Ok (adapter_object self)
  end.

(** ** The capability a device advertises *)

Abbreviation Device_ := (@Device Value).

Definition device_command_requires_star_system (command_name : string) : bool :=
  bool_decide (command_name ∈ ["activate"; "collect_resources"; "deploy"; "deposit_resources"; "launch";
    "prospect"; "scan"; "search"; "set_entry_point"; "start_mining"; "system_scan"; "travel";
    "triangulate"; "unfurl"]).

(** The live devices of the managed state, by code. *)
Variable devices : string → option Device_.

Definition stationary (device : Device_) : bool :=
  bool_decide (is_Some (dv_location device)) && bool_decide (dv_travel device = None).

Definition device_command_has_stationary_star_system (device : Device_) : bool :=
  if stationary device then true
  else match dr_stowed_in (dv_relationships device) with
       | None => false
       | Some container =>
           match devices (wk_id container) with Some observation => stationary observation | None => false end
       end.

Definition not_advertised (device_code command_name : string) : string :=
  "device `" +:+ device_code +:+ "` does not currently advertise capability for `" +:+ command_name +:+ "`".
Definition not_stationary (device_code command_name : string) : string :=
  "device `" +:+ device_code +:+ "` is not currently projected as stationary in a star system; refusing `"
  +:+ command_name +:+ "` until managed state catches up".

Definition check_device_capability (device_code command_name : string) : result string unit :=
  match devices device_code with
  | None => Ok tt
  | Some device =>
      let known := dv_available_commands device in
      if bool_decide (known ≠ []) && negb (bool_decide (command_name ∈ known))
      then Err (not_advertised device_code command_name)
      else if device_command_requires_star_system command_name
              && negb (device_command_has_stationary_star_system device)
      then Err (not_stationary device_code command_name)
      else Ok tt
  end.
End Evidence.

End Mutation.

(** * Facts on mutations and their durable form

    Serialised objects by key, the secrets of an intent, and what the evidence plan of a
    mutation holds. *)

Import Mutation.

Section Objects.
Context `{JN : JsonNumber}.

(** The value of the first present field of a name. *)
Fixpoint first_field (fields : list (string * option Value)) (key : string) : option Value :=
  match fields with
  | [] => None
  | (k, Some v) :: fields => if decide (k = key) then Some v else first_field fields key
  | (_, None) :: fields => first_field fields key
  end.

Lemma get_object_of fields key : get_field (object_of fields) key = first_field fields key.
Proof.
  induction fields as [|[k [v|]] fields IH]; simpl; [done| |done].
  case_decide as Hk; [subst; apply get_insert_eq|]. by rewrite get_insert_ne.
Qed.

Lemma contains_secret_get object key value :
  contains_secret (Object object) = false → get_field object key = Some value →
  contains_secret value = false ∧ sensitive_key key = false.
Proof.
  simpl. induction object as [|[k v] object IH]; [done|]. simpl.
  rewrite !orb_false_iff. intros [[Hk Hv] Hrest]. case_decide; [intros; simplify_eq; done|]. by apply IH.
Qed.

Lemma contains_secret_insert key value object :
  sensitive_key key = false → contains_secret value = false → contains_secret (Object object) = false →
  contains_secret (Object (insert_field key value object)) = false.
Proof.
  intros Hk Hv. simpl. induction object as [|[k v] object IH]; simpl.
  - intros _. by rewrite Hk, Hv.
  - intros Ho. pose proof Ho as [[Hk' Hv']%orb_false_iff Hrest]%orb_false_iff.
    case_decide; simpl; [by rewrite Hk, Hv, Hrest|].
    destruct (String.ltb key k); simpl; [by rewrite Hk, Hv, Hk', Hv', Hrest|].
    rewrite Hk', Hv'. simpl. by apply IH.
Qed.

Lemma contains_secret_float x : contains_secret (float x) = false.
Proof. unfold float. by destruct (from_f64 x). Qed.

Lemma contains_secret_floats l : contains_secret (Array (float <$> l)) = false.
Proof. induction l as [|x l IH]; [done|]. simpl in *. by rewrite contains_secret_float. Qed.

Lemma contains_secret_texts l : contains_secret (texts l) = false.
Proof. induction l as [|x l IH]; [done|]. simpl in *. done. Qed.

Lemma contains_secret_plan names failures payload expected :
  contains_secret (evidence_plan names failures payload expected)
  = contains_secret expected || contains_secret (Object payload).
Proof.
  unfold evidence_plan.
  change (contains_secret (texts names) || (contains_secret expected || (contains_secret (texts failures)
    || (contains_secret (Object payload) || false))) = contains_secret expected || contains_secret (Object payload)).
  rewrite !contains_secret_texts. by rewrite orb_false_r.
Qed.

(** *** Evidence *)

(** The resources a device command names. *)
Definition named_resources (adapter : MutationAdapter.t) : option (gmap string F64.t) :=
  match adapter with
  | MutationAdapter.DeviceCommand _ (DeviceCommand.CollectResources resources) => Some resources
  | MutationAdapter.DeviceCommand _ (DeviceCommand.DepositResources resources) => resources
  | _ => None
  end.

Lemma named_resources_field adapter resources :
  named_resources adapter = Some resources →
  (v ← get_field (adapter_object adapter) "command"; o ← as_object v; get_field o "resources")
  = Some (float_map resources).
Proof.
  unfold named_resources. destruct adapter as [| | | |? command| | | | | | | | | | | | | | | | | | | | |]; try done.
  destruct command; try done; intros; simplify_eq; unfold adapter_object; rewrite get_object_of;
    cbn [first_field adapter_fields]; rewrite !decide_False, decide_True by done;
    unfold DeviceCommand.to_value; cbn [mbind option_bind as_object]; rewrite get_object_of; cbn [first_field DeviceCommand.fields fmap option_fmap option_map];
    by rewrite decide_False, decide_True by done.
Qed.

Lemma evidence_no_secret adapter :
  contains_secret (Object (adapter_object adapter)) = false →
  contains_secret (operation_evidence adapter) = false.
Proof.
  intros Hs.
  assert (∀ resources, named_resources adapter = Some resources → contains_secret (float_map resources) = false) as Hres.
  { intros resources Hr%named_resources_field. apply bind_Some in Hr as (v & Hv & (o & Ho & Hg)%bind_Some).
    apply contains_secret_get in Hv as [Hv _]; [|done]. destruct v; try done. injection Ho as ->.
    by apply contains_secret_get in Hg as [? _]. }
  unfold operation_evidence.
  destruct adapter; try done.
  - clear Hs. destruct command; unfold command_evidence, events, no_events; try reflexivity.
    + rewrite contains_secret_plan. specialize (Hres _ eq_refl). simpl in *. by rewrite Hres.
    + destruct resources as [resources|]; [|done]. specialize (Hres _ eq_refl).
      rewrite contains_secret_plan. simpl in *. by rewrite Hres.
    + by case_decide.
    + rewrite contains_secret_plan. pose proof (contains_secret_floats target) as Ht. simpl in *. by rewrite Ht.
  - simpl. by destruct (ru_name request).
  - simpl. destruct (pr_command request), (pr_device_type request); done.
  - simpl. destruct (tv_dry_run request) as [[]|], (tv_destination request); done.
Qed.
End Objects.
