(* ===== verification/Operations.v ===== *)
(** * The operation journal

    [src/managed/operation.rs] with the [operation_journal] of [src/managed/store.rs]: the
    durable record of a mutation, its one submission, the classification of the outcome,
    the events and reconciliations that resolve it, and the recovery after a restart.

    An async function is a program ([Prog]) whose nodes are its store transactions, its
    requests and its notifications, in the order of the code; [run] executes one without
    interruption, [step] interleaves any number of them with crashes, restarts, pruning and
    the movement of the event cursor.  A failed store call ends a program, as the [?] after
    [map_err(persistence_error)] does. *)

From stdpp Require Import pretty.
From S2P Require Import Prelude Float64 Json Observations Entities Mutations.
Import Mutation.

Module Journal.

(** ** Errors *)

Record ErrorDetails := {
  de_remote_request_id : option string;
  de_local_request_id : option string;
  de_code : option Z;
  de_status : option string;
  de_message : option string;
  de_field_errors : option string;
  de_body_excerpt : option string;
}.

(** [Error]; the [source] of a failure, kept for display only, is left out. *)
Inductive Error :=
| Configuration (message : string)
| Authentication (details : ErrorDetails)
| RateLimited (retry_after : option Z) (details : ErrorDetails)
| Transport (message : string)
| Decode (message : string) (status : option Z)
| Contract (status : Z) (details : ErrorDetails)
| Persistence (message : string)
| AccountStoreMismatch (stored_account_id supplied_account_id : string)
| Operation (message : string)
| Closed.

Definition status (self : Error) : option Z :=
  match self with
  | Authentication _ => Some 401
  | Decode _ status => status
  | Contract status _ => Some status
  | RateLimited _ details =>
      match de_code details with
      | Some code => if decide (0 ≤ code ≤ 65535) then Some code else Some 429
      | None => Some 429
      end
  | _ => None
  end.

Definition details (self : Error) : option ErrorDetails :=
  match self with
  | Authentication details | RateLimited _ details | Contract _ details => Some details
  | _ => None
  end.

Definition is_ambiguous_mutation_outcome (self : Error) : bool :=
  match self with
  | Transport _ => true
  | Decode _ (Some status) => bool_decide (200 ≤ status < 300)
  | _ => false
  end.

(** [Display] *)
Definition to_string (self : Error) : string :=
  match self with
  | Configuration message => "invalid client configuration: " +:+ message
  | Authentication _ => "authentication failed"
  | RateLimited _ _ => "rate limited"
  | Transport message => "transport failure: " +:+ message
  | Decode message status =>
      "response decoding failed (" +:+
      match status with None => "None" | Some s => "Some(" +:+ pretty s +:+ ")" end +:+ "): " +:+ message
  | Contract status details =>
      "unexpected HTTP status " +:+ pretty status +:+
      match de_message details with None => "" | Some message => ": " +:+ message end
  | Persistence message => "durable store failure: " +:+ message
  | AccountStoreMismatch _ _ => "authenticated account does not match the durable store"
  | Operation message => "durable operation failure: " +:+ message
  | Closed => "client is closed"
  end.

(** ** States of an operation *)

Inductive OperationStatus :=
| Prepared | Submitted | Accepted | InProgress | AwaitingEvidence | ReconciliationRequired
| Completed | Cancelled | Rejected | Ambiguous | Failed.
#[global] Instance OperationStatus_eq : EqDecision OperationStatus.
Proof. solve_decision. Defined.

Definition as_str (self : OperationStatus) : string :=
  match self with
  | Prepared => "prepared"
  | Submitted => "submitted"
  | Accepted => "accepted"
  | InProgress => "in_progress"
  | AwaitingEvidence => "awaiting_evidence"
  | ReconciliationRequired => "reconciliation_required"
  | Completed => "completed"
  | Cancelled => "cancelled"
  | Rejected => "rejected"
  | Ambiguous => "ambiguous"
  | Failed => "failed"
  end.

Definition parse (value : string) : OperationStatus :=
  if decide (value = "prepared") then Prepared
  else if decide (value = "submitted") then Submitted
  else if decide (value = "accepted") then Accepted
  else if decide (value = "in_progress") then InProgress
  else if decide (value = "awaiting_evidence") then AwaitingEvidence
  else if decide (value = "reconciliation_required") then ReconciliationRequired
  else if decide (value = "completed") then Completed
  else if decide (value = "cancelled") then Cancelled
  else if decide (value = "rejected") then Rejected
  else if decide (value = "ambiguous") then Ambiguous
  else Failed.

Definition is_terminal (self : OperationStatus) : bool :=
  match self with Completed | Cancelled | Rejected | Failed => true | _ => false end.

(** ** The store *)

Section Store.
Context `{JN : JsonNumber}.

(** [datetime('now')] is a number of seconds. *)
Record OperationJournalEntry := {
  oj_state : string;
  oj_target_realm : option string;
  oj_target_kind : option string;
  oj_target_id : option string;
  oj_intent : Value;
  oj_projection : option Value;
  oj_submission_attempt_id : option string;
  oj_submitted_at : option Z;
  oj_submission_cursor : option string;
}.

(** A row of [operation_journal] *)
Record JournalRow := { jr_entry : OperationJournalEntry; jr_updated_at : Z }.

(** A row of [reconciliation_queue] *)
Record QueueRow := {
  qr_realm : Realm;
  qr_kind : string;
  qr_payload : Value;
  qr_not_before : option Z;
  qr_attempts : Z;
  qr_state : string;
}.

Record Store := {
  st_rows : gmap string JournalRow;
  st_cursor : option string;
  st_queue : gmap string QueueRow;
  st_account : option string;
  st_now : Z;
}.

Definition with_rows (f : gmap string JournalRow → gmap string JournalRow) (s : Store) : Store :=
  {| st_rows := f (st_rows s); st_cursor := st_cursor s; st_queue := st_queue s;
     st_account := st_account s; st_now := st_now s |}.

Definition read_operation (id : string) (s : Store) : option OperationJournalEntry :=
  jr_entry <$> st_rows s !! id.

Definition record_operation_if_absent (id state : string) (realm kind target : option string)
    (intent : Value) (s : Store) : option OperationJournalEntry * Store :=
  match st_rows s !! id with
  | Some row => (Some (jr_entry row), s)
  | None =>
      (None, with_rows <[id := {| jr_entry :=
         {| oj_state := state; oj_target_realm := realm; oj_target_kind := kind; oj_target_id := target;
            oj_intent := intent; oj_projection := None; oj_submission_attempt_id := None;
            oj_submitted_at := None; oj_submission_cursor := None |}; jr_updated_at := st_now s |}]> s)
  end.

(** [UPDATE operation_journal SET .., updated_at = datetime('now') WHERE operation_id = id] *)
Definition update_row (id : string) (f : OperationJournalEntry → OperationJournalEntry) (s : Store) : Store :=
  with_rows (alter (λ row, {| jr_entry := f (jr_entry row); jr_updated_at := st_now s |}) id) s.

Definition in_state (state : string) (e : OperationJournalEntry) : OperationJournalEntry :=
  {| oj_state := state; oj_target_realm := oj_target_realm e; oj_target_kind := oj_target_kind e;
     oj_target_id := oj_target_id e; oj_intent := oj_intent e; oj_projection := oj_projection e;
     oj_submission_attempt_id := oj_submission_attempt_id e; oj_submitted_at := oj_submitted_at e;
     oj_submission_cursor := oj_submission_cursor e |}.

Definition set_operation_state (id state : string) : Store → Store := update_row id (in_state state).

Definition with_projection (state : string) (projection : Value) (e : OperationJournalEntry) :
    OperationJournalEntry :=
  {| oj_state := state; oj_target_realm := oj_target_realm e; oj_target_kind := oj_target_kind e;
     oj_target_id := oj_target_id e; oj_intent := oj_intent e; oj_projection := Some projection;
     oj_submission_attempt_id := oj_submission_attempt_id e; oj_submitted_at := oj_submitted_at e;
     oj_submission_cursor := oj_submission_cursor e |}.

Definition append_operation_projection (id state : string) (projection : Value) : Store → Store :=
  update_row id (with_projection state projection).

Definition claimed (attempt_id : string) (cursor : option string) (now : Z) (e : OperationJournalEntry) :
    OperationJournalEntry :=
  {| oj_state := "submitted"; oj_target_realm := oj_target_realm e; oj_target_kind := oj_target_kind e;
     oj_target_id := oj_target_id e; oj_intent := oj_intent e; oj_projection := oj_projection e;
     oj_submission_attempt_id := Some attempt_id; oj_submitted_at := Some now;
     oj_submission_cursor := cursor |}.

Definition claim_operation_submission (id attempt_id : string) (s : Store) : bool * Store :=
  match read_operation id s with
  | Some e =>
      if decide (oj_state e = "prepared")
      then (true, update_row id (claimed attempt_id (st_cursor s) (st_now s)) s)
      else (false, s)
  | None => (false, s)
  end.

Definition promote_crashed_submissions (s : Store) : Store :=
  with_rows (update_where (λ _ row, bool_decide (oj_state (jr_entry row) = "submitted"))
    (λ row, {| jr_entry := in_state "ambiguous" (jr_entry row); jr_updated_at := st_now s |})) s.

Definition OPERATION_TERMINAL_STATES : list string := ["completed"; "cancelled"; "rejected"; "failed"].

(** [SELECT .. WHERE state NOT IN (..) ORDER BY updated_at]; the order of rows of one second
    is the one of the table scan. *)
Definition list_unresolved_operations (s : Store) : list (string * OperationJournalEntry) :=
  (λ r : string * JournalRow, (r.1, jr_entry r.2)) <$>
    sort_by (λ a b, bool_decide (jr_updated_at a.2 ≤ jr_updated_at b.2))
      (select (λ _ row, negb (bool_decide (oj_state (jr_entry row) ∈ OPERATION_TERMINAL_STATES))) (st_rows s)).

Definition awaits (realm kind target : string) (e : OperationJournalEntry) : bool :=
  bool_decide (oj_state e = "awaiting_evidence") && bool_decide (oj_target_realm e = Some realm)
  && bool_decide (oj_target_kind e = Some kind) && bool_decide (oj_target_id e = Some target).

Definition find_operations_awaiting_evidence (realm kind target : string) (s : Store) : list string :=
  (select (λ _ row, awaits realm kind target (jr_entry row)) (st_rows s)).*1.

Definition enqueue_reconciliation (work_id : string) (realm : Realm) (kind : string) (payload : Value)
    (s : Store) : Store :=
  {| st_rows := st_rows s; st_cursor := st_cursor s;
     st_queue := <[work_id := {| qr_realm := realm; qr_kind := kind; qr_payload := payload;
       qr_not_before := None; qr_attempts := 0; qr_state := "queued" |}]> (st_queue s);
     st_account := st_account s; st_now := st_now s |}.

Definition OPERATION_TERMINAL_RETENTION_DAYS : Z := 30.
Definition expired (now : Z) (row : JournalRow) : bool :=
  bool_decide (oj_state (jr_entry row) = "completed" ∨ oj_state (jr_entry row) = "rejected")
  && bool_decide (jr_updated_at row < now - OPERATION_TERMINAL_RETENTION_DAYS * 86400).

(** The deletion of [maintain_history] *)
Definition prune_operations (s : Store) : Store :=
  with_rows (delete_where (λ _ row, expired (st_now s) row)) s.
End Store.

(** ** Programs *)

Section Programs.
Context `{JN : JsonNumber}.

Inductive Prog (A : Type) : Type :=
| Ret (r : result Error A)
(** the lifecycle flags of the client *)
| EnsureOpen (k : bool → Prog A)
| NewUuid (k : string → Prog A)
(** transactions of the store *)
| RecordOperationIfAbsent (id state : string) (realm kind target : option string) (intent : Value)
    (k : option OperationJournalEntry → Prog A)
| ReadOperation (id : string) (k : option OperationJournalEntry → Prog A)
| ClaimOperationSubmission (id attempt_id : string) (k : bool → Prog A)
| SetOperationState (id state : string) (k : Prog A)
| AppendOperationProjection (id state : string) (projection : Value) (k : Prog A)
| FindOperationsAwaitingEvidence (realm kind target : string) (k : list string → Prog A)
| ListUnresolvedOperations (k : list (string * OperationJournalEntry) → Prog A)
| EnqueueReconciliation (work_id : string) (realm : Realm) (kind : string) (payload : Value) (k : Prog A)
| BoundAccountId (k : option string → Prog A)
(** requests; [id] names the operation on whose behalf the mutation is sent *)
| Submit (id : string) (adapter : MutationAdapter.t) (k : result Error Value → Prog A)
| RefreshDevices (k : bool → Prog A)
| SyncDevice (code : string) (k : option Value → Prog A)
| SyncReplicant (code : string) (k : option Value → Prog A)
| SyncLocation (code : string) (k : Prog A)
| RefreshAccount (k : Prog A)
(** the broadcast to watchers *)
| Notify (id : string) (status : OperationStatus) (k : Prog A).
End Programs.
#[global] Arguments Ret {JN A} r.
#[global] Arguments EnsureOpen {JN A} k.
#[global] Arguments NewUuid {JN A} k.
#[global] Arguments RecordOperationIfAbsent {JN A} id state realm kind target intent k.
#[global] Arguments ReadOperation {JN A} id k.
#[global] Arguments ClaimOperationSubmission {JN A} id attempt_id k.
#[global] Arguments SetOperationState {JN A} id state k.
#[global] Arguments AppendOperationProjection {JN A} id state projection k.
#[global] Arguments FindOperationsAwaitingEvidence {JN A} realm kind target k.
#[global] Arguments ListUnresolvedOperations {JN A} k.
#[global] Arguments EnqueueReconciliation {JN A} work_id realm kind payload k.
#[global] Arguments BoundAccountId {JN A} k.
#[global] Arguments Submit {JN A} id adapter k.
#[global] Arguments RefreshDevices {JN A} k.
#[global] Arguments SyncDevice {JN A} code k.
#[global] Arguments SyncReplicant {JN A} code k.
#[global] Arguments SyncLocation {JN A} code k.
#[global] Arguments RefreshAccount {JN A} k.
#[global] Arguments Notify {JN A} id status k.

Section Monad.
Context `{JN : JsonNumber}.

#[global] Instance prog_ret : MRet Prog := λ A a, Ret (Ok a).

(** [let a = p?; f(a)] *)
#[global] Instance prog_bind : MBind Prog := λ A B f,
  fix go p := match p with
  | Ret (Ok a) => f a
  | Ret (Err e) => Ret (Err e)
  | EnsureOpen k => EnsureOpen (λ x, go (k x))
  | NewUuid k => NewUuid (λ x, go (k x))
  | RecordOperationIfAbsent id state realm kind target intent k =>
      RecordOperationIfAbsent id state realm kind target intent (λ x, go (k x))
  | ReadOperation id k => ReadOperation id (λ x, go (k x))
  | ClaimOperationSubmission id attempt_id k => ClaimOperationSubmission id attempt_id (λ x, go (k x))
  | SetOperationState id state k => SetOperationState id state (go k)
  | AppendOperationProjection id state projection k => AppendOperationProjection id state projection (go k)
  | FindOperationsAwaitingEvidence realm kind target k =>
      FindOperationsAwaitingEvidence realm kind target (λ x, go (k x))
  | ListUnresolvedOperations k => ListUnresolvedOperations (λ x, go (k x))
  | EnqueueReconciliation work_id realm kind payload k => EnqueueReconciliation work_id realm kind payload (go k)
  | BoundAccountId k => BoundAccountId (λ x, go (k x))
  | Submit id adapter k => Submit id adapter (λ x, go (k x))
  | RefreshDevices k => RefreshDevices (λ x, go (k x))
  | SyncDevice code k => SyncDevice code (λ x, go (k x))
  | SyncReplicant code k => SyncReplicant code (λ x, go (k x))
  | SyncLocation code k => SyncLocation code (go k)
  | RefreshAccount k => RefreshAccount (go k)
  | Notify id status k => Notify id status (go k)
  end.

Definition raise {A} (e : Error) : Prog A := Ret (Err e).
Definition done : Prog unit := mret tt.

(** [for x in xs { f(x)?; }] *)
Fixpoint each {A} (f : A → Prog unit) (xs : list A) : Prog unit :=
  match xs with [] => done | x :: xs => _ ← f x; each f xs end.

Definition ensure_open : Prog unit := EnsureOpen (λ open, if open then done else raise Closed).
Definition set_state (id : string) (status : OperationStatus) : Prog unit :=
  SetOperationState id (as_str status) done.
Definition notify (id : string) (status : OperationStatus) : Prog unit := Notify id status done.
Definition append_projection (id : string) (status : OperationStatus) (projection : Value) : Prog unit :=
  AppendOperationProjection id (as_str status) projection done.

(** ** Submission *)

(** [serde_json::from_value::<MutationAdapter>] and [serde_json::from_str] *)
Variable from_value : Value → result string MutationAdapter.t.
Variable from_str : string → option Value.

Definition sanitize_error (error : Error) : Value :=
  let server : option Value := d ← details error; body ← de_body_excerpt d; from_str body in
  Object [("message", Text (to_string error)); ("server", default Null server);
          ("status", match status error with Some s => integer s | None => Null end)].

(** [str::parse::<i64>] *)
Fixpoint parse_digits (acc : Z) (s : string) : option Z :=
  match s with
  | EmptyString => Some acc
  | String.String c s =>
      let d := Z.of_N (Ascii.N_of_ascii c) - 48 in
      if decide (0 ≤ d ≤ 9) then parse_digits (acc * 10 + d) s else None
  end.
Definition parse_i64 (s : string) : option Z :=
  match s with
  | EmptyString => None
  | String.String c rest =>
      let byte := Ascii.N_of_ascii c in
      if decide (byte = 45 ∨ byte = 43)%N then (* a sign *)
        if decide (rest = "") then None
        else z ← parse_digits 0 rest; i64_try_from (if decide (byte = 45)%N then - z else z)
      else z ← parse_digits 0 s; i64_try_from z
  end.

Definition schedule_target_reconciliation (target_realm target_kind target_id : string) : Prog unit :=
  let realm := match (id ← strip_prefix "simulation:" target_realm; parse_i64 id) with
               | Some id => Simulation id | None => Live end in
  let work_id := "operation:" +:+ target_kind +:+ ":" +:+ target_id in
  EnqueueReconciliation work_id realm target_kind (Object [("id", Text target_id)]) done.

(** The state after a decoded response. *)
Definition accepted_status (adapter : MutationAdapter.t) (expects_evidence : bool) : OperationStatus :=
  if response_completes adapter then Completed
  else if expects_evidence then AwaitingEvidence
  else ReconciliationRequired.

Definition is_retrieve (adapter : MutationAdapter.t) : bool :=
  match adapter with MutationAdapter.DeviceRetrieve _ => true | _ => false end.

(** What [attempt] does with the outcome of its one submission. *)
Definition classify (id : string) (entry : OperationJournalEntry) (adapter : MutationAdapter.t)
    (expects_evidence : bool) (outcome : result Error Value) : Prog unit :=
  match outcome with
  | Err error =>
      if is_ambiguous_mutation_outcome error then
        _ ← set_state id Ambiguous; notify id Ambiguous
      else
        _ ← append_projection id Rejected (sanitize_error error); notify id Rejected
  | Ok response =>
      let next := accepted_status adapter expects_evidence in
      _ ← append_projection id next response;
      _ ← notify id next;
      if is_retrieve adapter then
        RefreshDevices (λ refreshed,
          if refreshed then _ ← set_state id Completed; notify id Completed else done)
      else
        match oj_target_realm entry, oj_target_kind entry, oj_target_id entry with
        | Some realm, Some kind, Some target => schedule_target_reconciliation realm kind target
        | _, _, _ => done
        end
  end.

Definition attempt (id : string) : Prog unit :=
  ReadOperation id (λ entry,
    match entry with
    | None => raise (Operation "operation disappeared before submission")
    | Some entry =>
        if decide (oj_state entry ≠ as_str Prepared) then done else
        match from_value (oj_intent entry) with
        | Err error => raise (Operation ("invalid typed durable operation intent: " +:+ error))
        | Ok adapter =>
            let expects_evidence := default false (get_bool (oj_intent entry) "expects_evidence") in
            NewUuid (λ attempt_id,
            ClaimOperationSubmission id attempt_id (λ claimed,
              if negb claimed then done else
              _ ← notify id Submitted;
              Submit id adapter (λ outcome, classify id entry adapter expects_evidence outcome)))
        end
    end).

(** ** Creation *)

(** The durable intent: the serialised mutation with the three keys added by [create_with_id]. *)
Definition intent_of (adapter : MutationAdapter.t) : result string Value :=
  match durable_intent adapter with
  | Err e => Err e
  | Ok object =>
      Ok (Object (insert_field "rate_limit_bucket" (Text (MutationAdapter.operation_id adapter))
        (insert_field "evidence" (operation_evidence adapter)
        (insert_field "expects_evidence" (Bool (expects_evidence adapter)) object))))
  end.

(** [target_realm], [target_kind] and [target_id] *)
Definition target_columns (adapter : MutationAdapter.t) : option string * option string * option string :=
  match MutationAdapter.target adapter with
  | Some (kind, id) =>
      (Some (if decide (kind = "simulation") then "simulation:" +:+ id else "live"), Some kind, Some id)
  | None => (None, None, None)
  end.

Definition identity_matches (existing : OperationJournalEntry) (realm kind target : option string)
    (intent : Value) : bool :=
  bool_decide (oj_target_realm existing = realm) && bool_decide (oj_target_kind existing = kind)
  && bool_decide (oj_target_id existing = target) && bool_decide (oj_intent existing = intent).

Definition collision (id : string) : Error :=
  Operation ("operation ID collision for " +:+ id +:+ ": existing target or intent differs").

(** The identifier of the operation that was created or found. *)
Definition create_with_id (adapter : MutationAdapter.t) (supplied_id : option string) : Prog string :=
  _ ← ensure_open;
  id ← match supplied_id with Some id => mret id | None => NewUuid (λ id, mret id) end;
  match intent_of adapter with
  | Err message => raise (Operation message)
  | Ok intent =>
      let '(realm, kind, target) := target_columns adapter in
      RecordOperationIfAbsent id (as_str Prepared) realm kind target intent (λ existing,
        match existing with
        | Some existing =>
            if identity_matches existing realm kind target intent
            then _ ← attempt id; mret id
            else raise (collision id)
        | None => _ ← attempt id; mret id
        end)
  end.

Definition create (adapter : MutationAdapter.t) : Prog string := create_with_id adapter None.

(** ** Evidence *)

(** [domain::Event]; the payload is a [BTreeMap]. *)
Record Event := {
  ev_id : string;
  ev_realm : option Realm;
  ev_name : string;
  ev_category : string;
  ev_device : option WorldKey;
  ev_replicant : option WorldKey;
  ev_location : option WorldKey;
  ev_star : option WorldKey;
  ev_occurred_at : string;
  ev_payload : Object_;
}.

Fixpoint value_contains (actual predicate : Value) {struct predicate} : bool :=
  match actual, predicate with
  | _, Null => true
  | Object actual, Object predicate =>
      forallb (λ e : string * Value,
        match get_field actual e.1 with Some v => value_contains v e.2 | None => false end) predicate
  | Array actual, Array predicate =>
      forallb (λ value, existsb (λ v, value_contains v value) actual) predicate
  | _, _ => bool_decide (actual = predicate)
  end.

Definition event_matches_named_evidence (entry : OperationJournalEntry) (event : Event)
    (names_key : string) : bool :=
  match oj_submission_cursor entry with
  | None => false
  | Some cursor =>
      if String.leb (ev_id event) cursor then false else
      let evidence := default Null (get (oj_intent entry) "evidence") in
      match get_array evidence names_key with
      | None => false
      | Some names =>
          if negb (bool_decide (ev_name event ∈ omap Json.as_str names)) then false
          else match get evidence "payload" with
               | None => true
               | Some predicate => value_contains (Object (ev_payload event)) predicate
               end
      end
  end.

Definition event_evidence_matches (entry : OperationJournalEntry) (event : Event) : bool :=
  event_matches_named_evidence entry event "event_names".
Definition event_failure_evidence_matches (entry : OperationJournalEntry) (event : Event) : bool :=
  event_matches_named_evidence entry event "failure_event_names".

Definition verdict (entry : OperationJournalEntry) (event : Event) : option OperationStatus :=
  if event_evidence_matches entry event then Some Completed
  else if event_failure_evidence_matches entry event then Some Failed
  else None.

Definition failure_projection (event : Event) : Value :=
  Object [("event", Text (ev_name event)); ("event_id", Text (ev_id event)); ("payload", Object (ev_payload event))].

(** The body of the loop of [mark_resolved] *)
Definition resolve_one (event : Event) (operation_id : string) : Prog unit :=
  ReadOperation operation_id (λ entry,
    match entry with
    | None => done
    | Some entry =>
        match verdict entry event with
        | None => done
        | Some next =>
            _ ← (if decide (next = Failed)
                 then append_projection operation_id next (failure_projection event)
                 else set_state operation_id next);
            notify operation_id next
        end
    end).

Definition mark_resolved (target_realm target_kind target_id : string) (event : Event) : Prog unit :=
  FindOperationsAwaitingEvidence target_realm target_kind target_id (λ ids,
    each (resolve_one event) ids).

Definition realm_key (realm : Realm) : string :=
  match realm with Live => "live" | Simulation id => "simulation:" +:+ pretty id end.

(** The targets an event names, in the order in which they are tried. *)
Definition event_targets (event : Event) : list (string * string) :=
  option_list ((λ k, ("device", wk_id k)) <$> ev_device event)
  ++ option_list ((λ k, ("replicant", wk_id k)) <$> ev_replicant event)
  ++ option_list ((λ k, ("location", wk_id k)) <$> ev_location event)
  ++ option_list ((λ id, ("simulation", pretty id)) <$> (v ← get_field (ev_payload event) "simulation_id"; value_as_i64 v)).

Definition resolve_awaiting_evidence (event : Event) : Prog unit :=
  match ev_realm event with
  | None => done
  | Some realm =>
      each (λ target : string * string, mark_resolved (realm_key realm) target.1 target.2 event)
        (event_targets event)
  end.

(** ** Reconciliation *)

Definition has_tag (tags : list Value) (tag : Value) : bool :=
  match Json.as_str tag with
  | Some tag => existsb (λ present, bool_decide (Json.as_str present = Some tag)) tags
  | None => false
  end.

Definition device_configuration_applied (entry : OperationJournalEntry) (snapshot : Value) : bool :=
  if negb (bool_decide (get_str (oj_intent entry) "kind" = Some "device_configure")) then false else
  match (r ← get (oj_intent entry) "request"; c ← get r "configuration"; as_object c) with
  | None => false
  | Some configuration =>
      if bool_decide (is_Some (get_field configuration "linked_device")) then false else
      match get_array snapshot "tags" with
      | None => false
      | Some tags =>
          if match field_array configuration "remove_tags" with
             | Some remove_tags => existsb (has_tag tags) remove_tags | None => false end then false
          else if match field_array configuration "add_tags" with
             | Some add_tags => existsb (λ tag, negb (has_tag tags tag)) add_tags | None => false end then false
          else match field_array configuration "tags" with
               | Some expected_tags =>
                   bool_decide (list_to_set (C := gset string) (omap Json.as_str tags)
                                = list_to_set (omap Json.as_str expected_tags))
               | None => true
               end
      end
  end.

Definition intent_kind (entry : OperationJournalEntry) : option string :=
  get_str (oj_intent entry) "kind".

(** Whether the refreshed entity shows what the operation set out to do. *)
Definition snapshot_matches (entry : OperationJournalEntry) (snapshot : option Value) : bool :=
  match snapshot with
  | None => false
  | Some snapshot =>
      if bool_decide (intent_kind entry = Some "device_configure")
      then device_configuration_applied entry snapshot
      else match (evidence ← get (oj_intent entry) "evidence"; get evidence "expected_state") with
           | Some expected => negb (bool_decide (expected = Null)) && value_contains snapshot expected
           | None => false
           end
  end.

Definition load (id : string) : Prog OperationJournalEntry :=
  ReadOperation id (λ entry,
    match entry with Some entry => mret entry | None => raise (Operation "operation not found") end).

Record OperationOutcome := { oo_status : OperationStatus; oo_response : option Value }.

Definition outcome (id : string) : Prog OperationOutcome :=
  _ ← ensure_open;
  entry ← load id;
  mret {| oo_status := parse (oj_state entry); oo_response := oj_projection entry |}.

(** The snapshot of the target after its refresh. *)
Definition refresh_target (entry : OperationJournalEntry) : Prog (option Value) :=
  match oj_target_kind entry, oj_target_id entry with
  | Some kind, target =>
      if decide (kind = "account") then RefreshAccount (mret None) else
      match target with
      | None => mret None
      | Some code =>
          if decide (kind = "device") then SyncDevice code mret
          else if decide (kind = "replicant") then SyncReplicant code mret
          else if decide (kind = "location") then SyncLocation code (mret None)
          else mret None
      end
  | None, _ => mret None
  end.

Definition reconcile (id : string) : Prog OperationOutcome :=
  _ ← ensure_open;
  entry ← load id;
  if bool_decide (parse (oj_state entry) = ReconciliationRequired)
     && bool_decide (intent_kind entry = Some "device_retrieve")
  then
    RefreshDevices (λ refreshed,
      _ ← (if refreshed then _ ← set_state id Completed; notify id Completed else done);
      outcome id)
  else
    snapshot ← refresh_target entry;
    _ ← (if is_terminal (parse (oj_state entry)) then done else
         let state := if snapshot_matches entry snapshot then Completed else ReconciliationRequired in
         _ ← set_state id state; notify id state);
    outcome id.

(** ** Recovery *)

Definition recover : Prog unit :=
  ListUnresolvedOperations (λ rows,
    each (λ row : string * OperationJournalEntry,
      if decide (oj_state row.2 = as_str Prepared) then attempt row.1 else done) rows).

(** ** The entry points of the gateways *)

Definition capability_checked (devices : string → option (@Device Value)) (device_code : string)
    (command : DeviceCommand.t) (p : Prog string) : Prog string :=
  match check_device_capability devices device_code (DeviceCommand.name command) with
  | Err message => raise (Operation message)
  | Ok _ => p
  end.

Definition device_command (devices : string → option (@Device Value)) (device_code : string)
    (command : DeviceCommand.t) : Prog string :=
  capability_checked devices device_code command (create (MutationAdapter.DeviceCommand device_code command)).

Definition device_command_with_id (devices : string → option (@Device Value)) (device_code : string)
    (command : DeviceCommand.t) (operation_id : string) : Prog string :=
  capability_checked devices device_code command
    (create_with_id (MutationAdapter.DeviceCommand device_code command) (Some operation_id)).

(** [DynamicCommand]: a name and the arguments *)
Definition device_dynamic_command (device_code name : string) (arguments : Object_) : Prog string :=
  let body := foldl (λ body e, insert_field e.1 e.2 body) (insert_field "command" (Text name) []) arguments in
  create (MutationAdapter.DeviceDynamicCommand device_code body).

Definition device_configure (device_code : string) (request : DeviceConfigurationRequest) : Prog string :=
  create (MutationAdapter.DeviceConfigure device_code request).
Definition device_configure_with_id (device_code : string) (request : DeviceConfigurationRequest)
    (operation_id : string) : Prog string :=
  create_with_id (MutationAdapter.DeviceConfigure device_code request) (Some operation_id).
Definition device_retrieve (device_code : string) : Prog string :=
  create (MutationAdapter.DeviceRetrieve device_code).
Definition device_grant_permission (device_code : string) (request : Object_) : Prog string :=
  create (MutationAdapter.DeviceGrantPermission device_code request).
Definition device_revoke_permission (device_code : string) : Prog string :=
  create (MutationAdapter.DeviceRevokePermission device_code).
Definition device_enter_simulation (device_code : string) (request : SimulationEnterRequest) : Prog string :=
  create (MutationAdapter.DeviceEnterSimulation device_code request).

Definition device_abandon_simulation (device_code : string) (simulation_id : Z) : Prog string :=
  operation ← create (MutationAdapter.DeviceAbandonSimulation device_code simulation_id);
  EnqueueReconciliation ("simulation:" +:+ pretty simulation_id +:+ ":active") (Simulation simulation_id)
    "simulation" (Object [("id", integer simulation_id); ("interface_code", Text device_code)])
    (mret operation).

Definition device_create_trade (device_code : string) (request : Object_) : Prog string :=
  create (MutationAdapter.DeviceCreateTrade device_code request).
Definition device_delete_trade (device_code trade_code : string) : Prog string :=
  create (MutationAdapter.DeviceDeleteTrade device_code trade_code).
Definition device_fulfill_trade (device_code trade_code : string) : Prog string :=
  create (MutationAdapter.DeviceFulfillTrade device_code trade_code).
Definition replicant_update (replicant_code : string) (request : ReplicantUpdateRequest) : Prog string :=
  create (MutationAdapter.ReplicantUpdate replicant_code request).
Definition replicant_message (replicant_code : string) (request : ReplicantMessageRequest) : Prog string :=
  create (MutationAdapter.ReplicantMessage replicant_code request).
Definition replicant_mine (replicant_code : string) (request : MineRequest) : Prog string :=
  create (MutationAdapter.ReplicantMine replicant_code request).
Definition replicant_stop_mining (replicant_code : string) : Prog string :=
  create (MutationAdapter.ReplicantStopMining replicant_code).
Definition replicant_print (replicant_code : string) (request : PrintRequest) : Prog string :=
  create (MutationAdapter.ReplicantPrint replicant_code request).
Definition replicant_scan (replicant_code : string) : Prog string :=
  create (MutationAdapter.ReplicantScan replicant_code).
Definition replicant_teleport (replicant_code : string) (request : TeleportRequest) : Prog string :=
  create (MutationAdapter.ReplicantTeleport replicant_code request).
Definition replicant_transfer (replicant_code : string) (request : TransferRequest) : Prog string :=
  create (MutationAdapter.ReplicantTransfer replicant_code request).
Definition replicant_travel (replicant_code : string) (request : TravelRequest) : Prog string :=
  create (MutationAdapter.ReplicantTravel replicant_code request).
Definition replicant_travel_with_id (replicant_code : string) (request : TravelRequest)
    (operation_id : string) : Prog string :=
  create_with_id (MutationAdapter.ReplicantTravel replicant_code request) (Some operation_id).
Definition replicant_cancel_travel (replicant_code : string) : Prog string :=
  create (MutationAdapter.ReplicantCancelTravel replicant_code).
Definition account_update (request : AccountUpdateRequest) : Prog string :=
  create (MutationAdapter.AccountUpdate request).

(** [confirm] holds the account named by the caller. *)
Definition account_wipe (confirm : string) : Prog string :=
  _ ← ensure_open;
  BoundAccountId (λ bound,
    if decide (bound = Some confirm) then create MutationAdapter.AccountWipe
    else raise (Operation "destructive confirmation does not match the account bound to this store")).
End Monad.

(** ** Execution *)

Section Execution.
Context `{JN : JsonNumber}.

(** What happened, newest first: what the theorems are about, not a part of the store. *)
Inductive Happening :=
| Recorded (id : string) (intent : Value)
| Claimed (id : string)
| Sent (id : string) (adapter : MutationAdapter.t)
| Published (id : string) (status : OperationStatus)
| Pruned (id : string).

Record World := { w_store : Store; w_log : list Happening }.

Definition on_store (f : Store → Store) (w : World) : World :=
  {| w_store := f (w_store w); w_log := w_log w |}.
Definition logged (h : Happening) (w : World) : World := {| w_store := w_store w; w_log := h :: w_log w |}.

Definition do_record (id state : string) (realm kind target : option string) (intent : Value) (w : World) :
    option OperationJournalEntry * World :=
  let '(existing, store) := record_operation_if_absent id state realm kind target intent (w_store w) in
  (existing, {| w_store := store;
                w_log := match existing with None => Recorded id intent :: w_log w | Some _ => w_log w end |}).

Definition do_claim (id attempt_id : string) (w : World) : bool * World :=
  let '(won, store) := claim_operation_submission id attempt_id (w_store w) in
  (won, {| w_store := store; w_log := if won then Claimed id :: w_log w else w_log w |}).

(** What the outside answers. *)
Record Environment := {
  env_open : bool;
  env_uuid : World → string;
  env_submit : string → MutationAdapter.t → result Error Value;
  env_refresh_devices : bool;
  env_device : string → option Value;
  env_replicant : string → option Value;
}.

(** A program without interruption, on a store that does not fail. *)
Fixpoint run {A} (env : Environment) (p : Prog A) (w : World) {struct p} : result Error A * World :=
  match p with
  | Ret r => (r, w)
  | EnsureOpen k => run env (k (env_open env)) w
  | NewUuid k => run env (k (env_uuid env w)) w
  | RecordOperationIfAbsent id state realm kind target intent k =>
      run env (k (do_record id state realm kind target intent w).1) (do_record id state realm kind target intent w).2
  | ReadOperation id k => run env (k (read_operation id (w_store w))) w
  | ClaimOperationSubmission id attempt_id k =>
      run env (k (do_claim id attempt_id w).1) (do_claim id attempt_id w).2
  | SetOperationState id state k => run env k (on_store (set_operation_state id state) w)
  | AppendOperationProjection id state projection k =>
      run env k (on_store (append_operation_projection id state projection) w)
  | FindOperationsAwaitingEvidence realm kind target k =>
      run env (k (find_operations_awaiting_evidence realm kind target (w_store w))) w
  | ListUnresolvedOperations k => run env (k (list_unresolved_operations (w_store w))) w
  | EnqueueReconciliation work_id realm kind payload k =>
      run env k (on_store (enqueue_reconciliation work_id realm kind payload) w)
  | BoundAccountId k => run env (k (st_account (w_store w))) w
  | Submit id adapter k => run env (k (env_submit env id adapter)) (logged (Sent id adapter) w)
  | RefreshDevices k => run env (k (env_refresh_devices env)) w
  | SyncDevice code k => run env (k (env_device env code)) w
  | SyncReplicant code k => run env (k (env_replicant env code)) w
  | SyncLocation _ k => run env k w
  | RefreshAccount k => run env k w
  | Notify id status k => run env k (logged (Published id status) w)
  end.

(** Whether the next action of a program is a store call. *)
Definition at_store {A} (p : Prog A) : bool :=
  match p with
  | RecordOperationIfAbsent _ _ _ _ _ _ _ | ReadOperation _ _ | ClaimOperationSubmission _ _ _
  | SetOperationState _ _ _ | AppendOperationProjection _ _ _ _ | FindOperationsAwaitingEvidence _ _ _ _
  | ListUnresolvedOperations _ | EnqueueReconciliation _ _ _ _ _ | BoundAccountId _ => true
  | _ => false
  end.

(** One action of a program. *)
Inductive action {A} : World → Prog A → World → Prog A → Prop :=
| act_open w open k : action w (EnsureOpen k) w (k open)
| act_uuid w id k : action w (NewUuid k) w (k id)
| act_record w id state realm kind target intent k :
    action w (RecordOperationIfAbsent id state realm kind target intent k)
      (do_record id state realm kind target intent w).2 (k (do_record id state realm kind target intent w).1)
| act_read w id k : action w (ReadOperation id k) w (k (read_operation id (w_store w)))
| act_claim w id attempt_id k :
    action w (ClaimOperationSubmission id attempt_id k) (do_claim id attempt_id w).2 (k (do_claim id attempt_id w).1)
| act_set w id state k : action w (SetOperationState id state k) (on_store (set_operation_state id state) w) k
| act_append w id state projection k :
    action w (AppendOperationProjection id state projection k)
      (on_store (append_operation_projection id state projection) w) k
| act_find w realm kind target k :
    action w (FindOperationsAwaitingEvidence realm kind target k) w
      (k (find_operations_awaiting_evidence realm kind target (w_store w)))
| act_list w k : action w (ListUnresolvedOperations k) w (k (list_unresolved_operations (w_store w)))
| act_enqueue w work_id realm kind payload k :
    action w (EnqueueReconciliation work_id realm kind payload k)
      (on_store (enqueue_reconciliation work_id realm kind payload) w) k
| act_account w k : action w (BoundAccountId k) w (k (st_account (w_store w)))
| act_submit w id adapter answer k : action w (Submit id adapter k) (logged (Sent id adapter) w) (k answer)
| act_refresh w answer k : action w (RefreshDevices k) w (k answer)
| act_device w code answer k : action w (SyncDevice code k) w (k answer)
| act_replicant w code answer k : action w (SyncReplicant code k) w (k answer)
| act_location w code k : action w (SyncLocation code k) w k
| act_refresh_account w k : action w (RefreshAccount k) w k
| act_notify w id status k : action w (Notify id status k) (logged (Published id status) w) k
| act_store_failure w p message : at_store p = true → action w p w (Ret (Err (Persistence message))).

(** ** The client over time *)

Context (from_value : Value → result string MutationAdapter.t) (from_str : string → option Value).

Definition discard {A} (p : Prog A) : Prog unit := _ ← p; done.

(** What the client and its event engine start. *)
Inductive call : Prog unit → Prop :=
| call_create adapter supplied_id : call (discard (create_with_id from_value from_str adapter supplied_id))
| call_device_command devices code command :
    call (discard (device_command from_value from_str devices code command))
| call_device_command_with_id devices code command id :
    call (discard (device_command_with_id from_value from_str devices code command id))
| call_abandon code simulation_id : call (discard (device_abandon_simulation from_value from_str code simulation_id))
| call_wipe confirm : call (discard (account_wipe from_value from_str confirm))
| call_reconcile id : call (discard (reconcile id))
| call_event event : call (resolve_awaiting_evidence event)
| call_recover : call (recover from_value from_str).

Definition pruned_ids (s : Store) : list string :=
  (select (λ _ row, expired (st_now s) row) (st_rows s)).*1.

(** A store with the cursor, clock or account changed. *)
Definition outside (cursor account : option string) (now : Z) (s : Store) : Store :=
  {| st_rows := st_rows s; st_cursor := cursor; st_queue := st_queue s; st_account := account; st_now := now |}.

(** Running programs of all clients of one store. *)
Record System := { sy_world : World; sy_tasks : list (Prog unit) }.

Inductive step : System → System → Prop :=
| step_call w ts p : call p → step {| sy_world := w; sy_tasks := ts |} {| sy_world := w; sy_tasks := p :: ts |}
| step_task w ts1 p ts2 w' p' :
    action w p w' p' →
    step {| sy_world := w; sy_tasks := ts1 ++ p :: ts2 |} {| sy_world := w'; sy_tasks := ts1 ++ p' :: ts2 |}
(** a program ends, or its process dies *)
| step_drop w ts1 p ts2 :
    step {| sy_world := w; sy_tasks := ts1 ++ p :: ts2 |} {| sy_world := w; sy_tasks := ts1 ++ ts2 |}
(** a client opens the store *)
| step_open w ts :
    step {| sy_world := w; sy_tasks := ts |}
         {| sy_world := on_store promote_crashed_submissions w; sy_tasks := ts |}
| step_prune w ts :
    step {| sy_world := w; sy_tasks := ts |}
         {| sy_world := {| w_store := prune_operations (w_store w);
                           w_log := (Pruned <$> pruned_ids (w_store w)) ++ w_log w |}; sy_tasks := ts |}
| step_outside w ts cursor account now :
    step {| sy_world := w; sy_tasks := ts |}
         {| sy_world := on_store (outside cursor account now) w; sy_tasks := ts |}.

Definition empty_world : World :=
  {| w_store := {| st_rows := ∅; st_cursor := None; st_queue := ∅; st_account := None; st_now := 0 |};
     w_log := [] |}.
Definition initial : System := {| sy_world := empty_world; sy_tasks := [] |}.
Definition reachable (s : System) : Prop := rtc step initial s.
End Execution.
End Journal.
