(* ===== verification/OperationLogic.v ===== *)
(** * A program logic for the operation journal

    [wp I L w p Q]: started in a world that extends [w], with the licences [L] to send, the
    program [p] keeps the invariant [I] at each of its actions, whatever other programs
    that keep it do in between, and reaches [Q] when it returns.  A licence for an
    operation is what a successful claim of its submission gives and a submission uses up.
    [steps_sound] carries this to any interleaving of programs, crashes and restarts, and
    bounds the submissions by the claims. *)

From stdpp Require Import gmultiset.
From S2P Require Import Prelude Float64 Json Observations Entities Mutations Operations.
Import Mutation Journal.

Section Logic.
Context `{JN : JsonNumber}.
Implicit Types (w : World) (L : gmultiset string).

(** The log only grows. *)
Definition extends w w' : Prop := w_log w `suffix_of` w_log w'.

#[global] Instance extends_preorder : PreOrder extends.
Proof.
  split; [by intros w; unfold extends|]. intros w1 w2 w3. unfold extends. intros. by etrans.
Qed.

Lemma extends_logged h w : extends w (logged h w).
Proof. by exists [h]. Qed.
Lemma extends_on_store f w : extends w (on_store f w).
Proof. by exists []. Qed.
Lemma extends_record id state realm kind target intent w :
  extends w (do_record id state realm kind target intent w).2.
Proof.
  unfold do_record. destruct (record_operation_if_absent _ _ _ _ _ _ _) as [[e|] s]; [by exists []|by eexists [_]].
Qed.
Lemma extends_claim id attempt_id w : extends w (do_claim id attempt_id w).2.
Proof.
  unfold do_claim. destruct (claim_operation_submission _ _ _) as [[] s]; [by eexists [_]|by exists []].
Qed.
Lemma extends_elem h w w' : extends w w' → h ∈ w_log w → h ∈ w_log w'.
Proof. intros [l ->]. set_solver. Qed.

Variable I : World → Prop.

Fixpoint wp {A} L w0 (p : Prog A) (Q : gmultiset string → World → A → Prop) : Prop :=
  match p with
  | Ret (Ok a) => Q L w0 a
  | Ret (Err _) => True
  | EnsureOpen k => ∀ open, wp L w0 (k open) Q
  | NewUuid k => ∀ id, wp L w0 (k id) Q
  | RecordOperationIfAbsent id state realm kind target intent k => ∀ w, extends w0 w → I w →
      let r := do_record id state realm kind target intent w in I r.2 ∧ wp L r.2 (k r.1) Q
  | ReadOperation id k => ∀ w, extends w0 w → I w → wp L w (k (read_operation id (w_store w))) Q
  | ClaimOperationSubmission id attempt_id k => ∀ w, extends w0 w → I w →
      let r := do_claim id attempt_id w in
      I r.2 ∧ wp (if r.1 then {[+ id +]} ⊎ L else L) r.2 (k r.1) Q
  | SetOperationState id state k => ∀ w, extends w0 w → I w →
      let w' := on_store (set_operation_state id state) w in I w' ∧ wp L w' k Q
  | AppendOperationProjection id state projection k => ∀ w, extends w0 w → I w →
      let w' := on_store (append_operation_projection id state projection) w in I w' ∧ wp L w' k Q
  | FindOperationsAwaitingEvidence realm kind target k => ∀ w, extends w0 w → I w →
      wp L w (k (find_operations_awaiting_evidence realm kind target (w_store w))) Q
  | ListUnresolvedOperations k => ∀ w, extends w0 w → I w →
      wp L w (k (list_unresolved_operations (w_store w))) Q
  | EnqueueReconciliation work_id realm kind payload k => ∀ w, extends w0 w → I w →
      let w' := on_store (enqueue_reconciliation work_id realm kind payload) w in I w' ∧ wp L w' k Q
  | BoundAccountId k => ∀ w, extends w0 w → I w → wp L w (k (st_account (w_store w))) Q
  | Submit id adapter k => id ∈ L ∧ ∀ w, extends w0 w → I w →
      let w' := logged (Sent id adapter) w in I w' ∧ ∀ answer, wp (L ∖ {[+ id +]}) w' (k answer) Q
  | RefreshDevices k => ∀ answer, wp L w0 (k answer) Q
  | SyncDevice _ k => ∀ answer, wp L w0 (k answer) Q
  | SyncReplicant _ k => ∀ answer, wp L w0 (k answer) Q
  | SyncLocation _ k => wp L w0 k Q
  | RefreshAccount k => wp L w0 k Q
  | Notify id status k => ∀ w, extends w0 w → I w →
      let w' := logged (Published id status) w in I w' ∧ wp L w' k Q
  end.

Lemma wp_mono {A} L w (p : Prog A) (Q R : gmultiset string → World → A → Prop) :
  wp L w p Q → (∀ L w a, Q L w a → R L w a) → wp L w p R.
Proof. intros Hp HQR. revert L w Hp. induction p as [[]| | | | | | | | | | | | | | | | | |]; simpl; naive_solver. Qed.

Lemma wp_bind {A B} L w (p : Prog A) (f : A → Prog B) Q :
  wp L w p (λ L w a, wp L w (f a) Q) → wp L w (p ≫= f) Q.
Proof. revert L w. induction p as [[]| | | | | | | | | | | | | | | | | |]; simpl; naive_solver. Qed.

Lemma wp_each {A} L w (f : A → Prog unit) xs :
  (∀ x, x ∈ xs → ∀ w', extends w w' → wp L w' (f x) (λ L' w'' _, L' = L ∧ extends w' w'')) →
  wp L w (each f xs) (λ L' w' _, L' = L ∧ extends w w').
Proof.
  intros Hf. assert (∀ w', extends w w' → wp L w' (each f xs) (λ L' w'' _, L' = L ∧ extends w' w'')) as H;
    [|by apply H].
  induction xs as [|x xs IH]; intros w' Hw; [done|]. cbn [each]. apply wp_bind.
  eapply wp_mono; [apply Hf; [left|done]|]. intros L' w'' _ [-> Hw'']. eapply wp_mono.
  - apply IH; [|by etrans]. intros y Hy. apply Hf. by right.
  - intros ? ? ? [-> ?]. split; [done|]. by etrans.
Qed.

(** ** Soundness *)

Definition count_of (f : Happening → bool) w : nat := length (filter (λ h, f h = true) (w_log w)).
Definition is_sent (id : string) (h : Happening) : bool := match h with Sent i _ => bool_decide (i = id) | _ => false end.
Definition is_claimed (id : string) (h : Happening) : bool := match h with Claimed i => bool_decide (i = id) | _ => false end.
Definition is_recorded (id : string) (h : Happening) : bool := match h with Recorded i _ => bool_decide (i = id) | _ => false end.
Definition is_pruned (id : string) (h : Happening) : bool := match h with Pruned i => bool_decide (i = id) | _ => false end.

Lemma count_logged f h w : count_of f (logged h w) = ((if f h then 1 else 0) + count_of f w)%nat.
Proof. unfold count_of. simpl. rewrite filter_cons. destruct (f h) eqn:E; case_decide; simpl; congruence. Qed.
Lemma count_on_store f g w : count_of f (on_store g w) = count_of f w.
Proof. done. Qed.
Lemma count_claim f id attempt_id w :
  count_of f (do_claim id attempt_id w).2
  = ((if (do_claim id attempt_id w).1 && f (Claimed id) then 1 else 0) + count_of f w)%nat.
Proof.
  unfold do_claim. destruct (claim_operation_submission _ _ _) as [[] s]; [|done].
  apply (count_logged f (Claimed id) {| w_store := s; w_log := w_log w |}).
Qed.
Lemma count_record f id state realm kind target intent w :
  count_of f (do_record id state realm kind target intent w).2
  = ((if (match (do_record id state realm kind target intent w).1 with None => f (Recorded id intent) | _ => false end)
      then 1 else 0) + count_of f w)%nat.
Proof.
  unfold do_record. destruct (record_operation_if_absent _ _ _ _ _ _ _) as [[e|] s]; [done|].
  apply (count_logged f (Recorded id intent) {| w_store := s; w_log := w_log w |}).
Qed.

(** An action keeps the invariant, and pays for what it sends. *)
Lemma action_sound {A} w (p : Prog A) w' p' L w0 Q :
  action w p w' p' → I w → extends w0 w → wp L w0 p Q →
  I w' ∧ extends w w' ∧ ∃ L' w1, extends w1 w' ∧ wp L' w1 p' Q ∧
    ∀ id, (count_of (is_sent id) w' + multiplicity id L' + count_of (is_claimed id) w
           ≤ count_of (is_sent id) w + multiplicity id L + count_of (is_claimed id) w')%nat.
Proof.
  intros Hact HI Hw Hp.
  assert (∀ w', I w' → extends w w' → ∀ w1 L' (q : Prog A), extends w1 w' → wp L' w1 q Q →
    (∀ id, (count_of (is_sent id) w' + multiplicity id L' + count_of (is_claimed id) w
            ≤ count_of (is_sent id) w + multiplicity id L + count_of (is_claimed id) w')%nat) →
    I w' ∧ extends w w' ∧ ∃ L' w1, extends w1 w' ∧ wp L' w1 q Q ∧
    ∀ id, (count_of (is_sent id) w' + multiplicity id L' + count_of (is_claimed id) w
           ≤ count_of (is_sent id) w + multiplicity id L + count_of (is_claimed id) w')%nat) as Hex
    by naive_solver.
  destruct Hact; simpl in Hp.
  all: try (refine (Hex w HI (reflexivity w) w0 L _ Hw (Hp _) _); intros; lia).
  all: try (refine (Hex w HI (reflexivity w) w0 L _ Hw Hp _); intros; lia).
  all: try (refine (Hex w HI (reflexivity w) w L _ (reflexivity w) (Hp w Hw HI) _); intros; lia).
  all: try (destruct (Hp w Hw HI) as [HI' Hk];
    refine (Hex _ HI' (extends_on_store _ _) _ L _ (reflexivity _) Hk _); intros; simpl; unfold count_of; simpl; lia).
  - destruct (Hp w Hw HI) as [HI' Hk]. eapply Hex; [exact HI'|apply extends_record|done|exact Hk|].
    intros i. rewrite !count_record. destruct (do_record _ _ _ _ _ _ _).1; simpl; lia.
  - destruct (Hp w Hw HI) as [HI' Hk]. eapply Hex; [exact HI'|apply extends_claim|done|exact Hk|].
    intros i. rewrite !count_claim. destruct (do_claim _ _ _).1; simpl; [|lia].
    rewrite multiplicity_disj_union, multiplicity_singleton.
    destruct (decide (i = id)); case_bool_decide; simplify_eq; lia.
  - destruct Hp as [Hid Hp]. destruct (Hp w Hw HI) as [HI' Hk].
    eapply Hex; [exact HI'|apply extends_logged|done|apply Hk|].
    intros i. rewrite !count_logged, multiplicity_difference, multiplicity_singleton. simpl.
    rewrite elem_of_multiplicity in Hid.
    destruct (decide (i = id)); case_bool_decide; simplify_eq; lia.
  - destruct (Hp w Hw HI) as [HI' Hk]. eapply Hex; [exact HI'|apply extends_logged|done|exact Hk|].
    intros i. rewrite !count_logged. simpl. lia.
  - refine (Hex w HI (reflexivity w) w L _ (reflexivity w) _ _); [done|intros; lia].
Qed.

(** ** Interleavings *)

Context (from_value : Value → result string MutationAdapter.t) (from_str : string → option Value).

(** What has to be shown of an invariant. *)
Class Kept : Prop := {
  kept_calls p w : call from_value from_str p → wp ∅ w p (λ _ _ _, True);
  kept_open w : I w → I (on_store promote_crashed_submissions w);
  kept_prune w : I w → I {| w_store := prune_operations (w_store w);
                            w_log := (Pruned <$> pruned_ids (w_store w)) ++ w_log w |};
  kept_outside w cursor account now : I w → I (on_store (outside cursor account now) w);
}.

Definition licences (id : string) (Ls : list (gmultiset string)) : nat := sum_list_with (multiplicity id) Ls.

(** The invariant holds, every task keeps it, and licences and submissions come from claims. *)
Definition sound (s : System) : Prop :=
  I (sy_world s) ∧ ∃ Ls,
    Forall2 (λ L p, ∃ w0, extends w0 (sy_world s) ∧ wp L w0 p (λ _ _ _, True)) Ls (sy_tasks s) ∧
    ∀ id, (count_of (is_sent id) (sy_world s) + licences id Ls ≤ count_of (is_claimed id) (sy_world s))%nat.

Lemma tasks_extend w w' Ls (ts : list (Prog unit)) :
  extends w w' → Forall2 (λ L p, ∃ w0, extends w0 w ∧ wp L w0 p (λ _ _ _, True)) Ls ts →
  Forall2 (λ L p, ∃ w0, extends w0 w' ∧ wp L w0 p (λ _ _ _, True)) Ls ts.
Proof. intros Hw HF. eapply Forall2_impl; [exact HF|]. intros L p (w0 & ? & ?). exists w0. split; [by etrans|done]. Qed.

Lemma licences_app id Ls Ls' : licences id (Ls ++ Ls') = (licences id Ls + licences id Ls')%nat.
Proof. apply sum_list_with_app. Qed.

Lemma count_pruned f w :
  (∀ i, f (Pruned i) = false) →
  count_of f {| w_store := prune_operations (w_store w); w_log := (Pruned <$> pruned_ids (w_store w)) ++ w_log w |}
  = count_of f w.
Proof.
  intros Hf. unfold count_of. simpl. rewrite filter_app, length_app.
  replace (filter (λ h, f h = true) (Pruned <$> pruned_ids (w_store w))) with (@nil Happening); [done|].
  induction (pruned_ids (w_store w)); [done|]. rewrite fmap_cons, filter_cons, Hf. case_decide; [done|]. done.
Qed.

Lemma step_sound `{!Kept} s s' : step from_value from_str s s' → sound s → sound s'.
Proof.
  intros Hstep (HI & Ls & HF & Hc). destruct Hstep as [w ts p Hp|w ts1 p ts2 w' p' Hact|w ts1 p ts2|w ts|w ts|w ts cursor account now]; simpl in *.
  - split; [done|]. exists (∅ :: Ls). split; [|done]. constructor; [|done]. exists w. split; [done|].
    by apply kept_calls.
  - apply Forall2_app_inv_r in HF as (Ls1 & Ls2 & HF1 & HF2 & ->).
    inversion HF2 as [|L ? Ls3 ? (w0 & Hw0 & Hp) HF3 Heq]; subst.
    destruct (action_sound _ _ _ _ _ _ _ Hact HI Hw0 Hp) as (HI' & Hext & L' & w1 & Hw1 & Hp' & Hcount).
    split; [done|]. exists (Ls1 ++ L' :: Ls3). split.
    + apply Forall2_app; [eapply tasks_extend; [exact Hext|done]|]. constructor; [exists w1; split; [exact Hw1|exact Hp']|eapply tasks_extend; [exact Hext|done]].
    + intros id. specialize (Hcount id). specialize (Hc id). rewrite licences_app in *. simpl in *. lia.
  - apply Forall2_app_inv_r in HF as (Ls1 & Ls2 & HF1 & HF2 & ->).
    inversion HF2 as [|L ? Ls3 ? Hp HF3 Heq]; subst. split; [done|]. exists (Ls1 ++ Ls3). split.
    + by apply Forall2_app.
    + intros id. specialize (Hc id). rewrite licences_app in *. simpl in *. lia.
  - split; [by apply kept_open|]. exists Ls. split; [|done]. eapply tasks_extend; [|done]. apply extends_on_store.
  - split; [by apply kept_prune|]. exists Ls. split; [eapply tasks_extend; [|done]; by eexists|].
    intros id. pose proof (count_pruned (is_sent id) w (λ _, eq_refl)) as Hs.
    pose proof (count_pruned (is_claimed id) w (λ _, eq_refl)) as Hcl. simpl in *. specialize (Hc id). lia.
  - split; [by apply kept_outside|]. exists Ls. split; [|done]. eapply tasks_extend; [|done]. apply extends_on_store.
Qed.

Lemma steps_sound `{!Kept} s s' : rtc (step from_value from_str) s s' → sound s → sound s'.
Proof. induction 1; eauto using step_sound. Qed.

Lemma initial_sound : I empty_world → sound initial.
Proof. intros. split; [done|]. exists []. split; [constructor|]. intros. unfold licences. simpl. unfold count_of. simpl. lia. Qed.
End Logic.

(** Chains of worlds: the log only grows. *)
Ltac grows :=
  first
    [ reflexivity
    | assumption
    | lazymatch goal with
      | |- extends _ (logged _ _) => etrans; [|apply extends_logged]; grows
      | |- extends _ (on_store _ _) => etrans; [|apply extends_on_store]; grows
      | |- extends _ (do_record _ _ _ _ _ _ _).2 => etrans; [|apply extends_record]; grows
      | |- extends _ (do_claim _ _ _).2 => etrans; [|apply extends_claim]; grows
      | H : extends ?w1 ?w |- extends _ ?w => etrans; [|exact H]; grows
      end ].
