(* ===== verification/OperationFacts.v ===== *)
(** * The operation journal under interleaving

    The invariants of every store that any number of clients produce, with crashes and
    restarts at any point ([ledger], [history]): a recorded operation is sent at most once,
    what is sent was recorded, no recorded intent looks like it holds credentials, and an
    operation is reported as submitted only when its submission was claimed. *)

From stdpp Require Import gmultiset.
From S2P Require Import Prelude Float64 Json Observations Entities Mutations Operations OperationLogic.
Import Mutation Journal.

(** ** Rows *)

Section Rows.
Context `{JN : JsonNumber}.
Implicit Types (s : Store) (w : World).

Lemma lookup_update_row id f s i :
  st_rows (update_row id f s) !! i
  = (if decide (i = id) then (λ row, {| jr_entry := f (jr_entry row); jr_updated_at := st_now s |}) <$> st_rows s !! id
     else st_rows s !! i).
Proof.
  unfold update_row, with_rows. simpl. case_decide as Hi; [subst; apply lookup_alter_eq|by rewrite lookup_alter_ne].
Qed.

Lemma lookup_promote s i :
  st_rows (promote_crashed_submissions s) !! i
  = (λ row, if bool_decide (oj_state (jr_entry row) = "submitted")
            then {| jr_entry := in_state "ambiguous" (jr_entry row); jr_updated_at := st_now s |}
            else row) <$> st_rows s !! i.
Proof. unfold promote_crashed_submissions. simpl. apply lookup_update_where. Qed.

Lemma lookup_prune s i row :
  st_rows (prune_operations s) !! i = Some row ↔ st_rows s !! i = Some row ∧ expired (st_now s) row = false.
Proof. apply (lookup_delete_where_Some (λ _ row, expired (st_now s) row)). Qed.

Lemma read_operation_Some id s e :
  read_operation id s = Some e → ∃ row, st_rows s !! id = Some row ∧ jr_entry row = e.
Proof. unfold read_operation. intros (row & -> & ?)%fmap_Some. eauto. Qed.

(** How each operation of the store acts on the rows. *)
Lemma do_record_spec id state realm kind target intent w :
  (∃ row, st_rows (w_store w) !! id = Some row ∧
     do_record id state realm kind target intent w = (Some (jr_entry row), w)) ∨
  (st_rows (w_store w) !! id = None ∧ ∃ row,
     oj_state (jr_entry row) = state ∧ oj_intent (jr_entry row) = intent ∧
     oj_submission_cursor (jr_entry row) = None ∧
     do_record id state realm kind target intent w
     = (None, logged (Recorded id intent) (on_store (with_rows <[id := row]>) w))).
Proof.
  unfold do_record, record_operation_if_absent. destruct (st_rows (w_store w) !! id) as [row|] eqn:E.
  - left. exists row. split; [done|]. by destruct w.
  - right. split; [done|]. eexists. repeat split; [..|reflexivity]; done.
Qed.

Lemma do_claim_spec id attempt_id w :
  (∃ row, st_rows (w_store w) !! id = Some row ∧ oj_state (jr_entry row) = "prepared" ∧
     do_claim id attempt_id w = (true, logged (Claimed id)
       (on_store (update_row id (claimed attempt_id (st_cursor (w_store w)) (st_now (w_store w)))) w))) ∨
  do_claim id attempt_id w = (false, w).
Proof.
  unfold do_claim, claim_operation_submission, read_operation.
  destruct (st_rows (w_store w) !! id) as [row|] eqn:E; simpl; [|right; by destruct w].
  destruct (decide (oj_state (jr_entry row) = "prepared")); [left; eauto|right; by destruct w].
Qed.

Lemma pruned_ids_elem i s :
  i ∈ pruned_ids s ↔ ∃ row, st_rows s !! i = Some row ∧ expired (st_now s) row = true.
Proof.
  unfold pruned_ids. rewrite list_elem_of_fmap. split.
  - intros ([k row] & -> & Hin). apply elem_of_select in Hin. eauto.
  - intros (row & Hrow). exists (i, row). split; [done|]. by apply elem_of_select.
Qed.

Lemma pruned_ids_NoDup s : NoDup (pruned_ids s).
Proof.
  unfold pruned_ids. apply NoDup_fmap_fst.
  - intros i r1 r2 [H1 _]%elem_of_select [H2 _]%elem_of_select. congruence.
  - unfold select. apply NoDup_filter, NoDup_map_to_list.
Qed.

Lemma expired_state now row :
  expired now row = true → oj_state (jr_entry row) = "completed" ∨ oj_state (jr_entry row) = "rejected".
Proof. unfold expired. rewrite andb_true_iff, bool_decide_eq_true. tauto. Qed.
End Rows.

(** ** Invariants *)

Section Invariants.
Context `{JN : JsonNumber} (from_value : Value → result string MutationAdapter.t).
Implicit Types (w : World) (row : JournalRow).

Definition row_at (id : string) w : option JournalRow := st_rows (w_store w) !! id.
Definition is_prepared row : bool := bool_decide (oj_state (jr_entry row) = "prepared").
Definition one_if (b : bool) : nat := if b then 1 else 0.

(** Claims and rows still to be claimed come from records; records from rows and prunings. *)
Definition ledger w : Prop := ∀ id,
  (count_of (is_claimed id) w + one_if (from_option is_prepared false (row_at id w))
     ≤ count_of (is_recorded id) w)%nat ∧
  (count_of (is_recorded id) w ≤ count_of (is_pruned id) w + one_if (bool_decide (is_Some (row_at id w))))%nat.

(** States in which an operation has been handed to the network. *)
Definition SUBMITTED_STATES : list string := ["submitted"; "awaiting_evidence"; "ambiguous"; "rejected"; "failed"].

Record history w : Prop := {
  h_recorded id row : row_at id w = Some row → Recorded id (oj_intent (jr_entry row)) ∈ w_log w;
  h_sent id adapter : Sent id adapter ∈ w_log w →
    ∃ intent, Recorded id intent ∈ w_log w ∧ from_value intent = Ok adapter;
  h_state id row : row_at id w = Some row → oj_state (jr_entry row) ∈ SUBMITTED_STATES → Claimed id ∈ w_log w;
  h_cursor id row : row_at id w = Some row → is_Some (oj_submission_cursor (jr_entry row)) → Claimed id ∈ w_log w;
  h_secret id intent : Recorded id intent ∈ w_log w → contains_secret intent = false;
}.

Definition journal_ok w : Prop := ledger w ∧ history w.

(** The invariant depends on the rows and the log only. *)
Lemma journal_ok_rows f w :
  st_rows (f (w_store w)) = st_rows (w_store w) → journal_ok w → journal_ok (on_store f w).
Proof.
  intros Hf [Hl []]. split; [|split]; unfold ledger, row_at, count_of in *; simpl; rewrite ?Hf; eauto.
Qed.

Lemma journal_ok_notify id status w : journal_ok w → journal_ok (logged (Published id status) w).
Proof.
  intros [Hl []]. split; [|split]; unfold row_at in *; simpl.
  - intros i. rewrite !count_logged. apply Hl.
  - intros. apply elem_of_cons. eauto.
  - intros i a [?|Hs]%elem_of_cons; [done|]. destruct (h_sent0 _ _ Hs) as (intent & ? & ?).
    exists intent. rewrite elem_of_cons. eauto.
  - intros. apply elem_of_cons. eauto.
  - intros. apply elem_of_cons. eauto.
  - intros i intent [?|?]%elem_of_cons; [done|]. eauto.
Qed.

Lemma journal_ok_record id realm kind target intent w :
  contains_secret intent = false → journal_ok w →
  journal_ok (do_record id "prepared" realm kind target intent w).2.
Proof.
  intros Hsec HI. destruct (do_record_spec id "prepared" realm kind target intent w)
    as [(row & Hrow & ->)|(Hnone & row & Hst & Hint & Hcur & ->)]; [done|]. simpl.
  destruct HI as [Hl []]. unfold row_at in *. split; [|split]; unfold row_at; simpl.
  - intros i. rewrite !count_logged. specialize (Hl i). unfold row_at in *. simpl.
    destruct (decide (i = id)) as [->|Hi].
    + rewrite lookup_insert_eq, Hnone in *. simpl. unfold is_prepared. rewrite Hst, !bool_decide_eq_true_2 by done.
      rewrite bool_decide_eq_false_2 in Hl by (by intros [? ?]). simpl in *. unfold count_of in *. simpl in *. lia.
    + rewrite lookup_insert_ne by congruence. rewrite (bool_decide_eq_false_2 (id = i)) by congruence.
      unfold count_of in *. simpl in *. lia.
  - intros i r [[-> <-]|[Hi Hr]]%lookup_insert_Some; apply elem_of_cons; [left; congruence|right; eauto].
  - intros i a [?|Hs]%elem_of_cons; [done|]. destruct (h_sent0 _ _ Hs) as (n & ? & ?).
    exists n. rewrite elem_of_cons. eauto.
  - intros i r [[-> <-]|[Hi Hr]]%lookup_insert_Some Hs; apply elem_of_cons; right; [|eauto].
    rewrite Hst in Hs. exfalso. revert Hs. compute_done.
  - intros i r [[-> <-]|[Hi Hr]]%lookup_insert_Some Hs; apply elem_of_cons; right; [|eauto].
    rewrite Hcur in Hs. by destruct Hs.
  - intros i n [?|?]%elem_of_cons; [by simplify_eq|]. eauto.
Qed.

(** A write to one row that neither prepares it again nor invents a submission. *)
Lemma journal_ok_update id f w :
  (∀ e, oj_intent (f e) = oj_intent e) → (∀ e, oj_state (f e) ≠ "prepared") →
  (∀ e, (oj_state (f e) ∈ SUBMITTED_STATES ∨
         is_Some (oj_submission_cursor (f e)) ∧ ¬ is_Some (oj_submission_cursor e)) → Claimed id ∈ w_log w) →
  journal_ok w → journal_ok (on_store (update_row id f) w).
Proof.
  intros Hint Hprep Hclaim [Hl []]. unfold row_at in *. split; [|split]; unfold row_at; cbn [w_store w_log on_store logged]; [| | | | |by eauto].
  - intros i. specialize (Hl i). unfold row_at, count_of in *. cbn [w_store w_log on_store logged]. rewrite lookup_update_row.
    case_decide as Hi; [subst|done]. destruct (st_rows (w_store w) !! id) as [row|]; [|done]. simpl in *.
    unfold is_prepared at 1. simpl. rewrite (bool_decide_eq_false_2 (_ = "prepared")) by apply Hprep. simpl.
    destruct (is_prepared row); simpl in *; lia.
  - intros i row. rewrite lookup_update_row. case_decide as Hi; [subst|eauto]. intros (row0 & Hrow & ->)%fmap_Some. simpl. rewrite Hint. eauto.
  - eauto.
  - intros i row. rewrite lookup_update_row. case_decide as Hi; [subst|eauto]. intros (row0 & Hrow & ->)%fmap_Some. simpl. eauto.
  - intros i row. rewrite lookup_update_row. case_decide as Hi; [subst|eauto]. intros (row0 & Hrow & ->)%fmap_Some. simpl. intros Hc.
    destruct (decide (is_Some (oj_submission_cursor (jr_entry row0)))); eauto.
Qed.

Lemma journal_ok_set id state w :
  state ≠ "prepared" → (state ∈ SUBMITTED_STATES → Claimed id ∈ w_log w) →
  journal_ok w → journal_ok (on_store (set_operation_state id state) w).
Proof. intros. apply journal_ok_update; naive_solver. Qed.

Lemma journal_ok_append id state projection w :
  state ≠ "prepared" → (state ∈ SUBMITTED_STATES → Claimed id ∈ w_log w) →
  journal_ok w → journal_ok (on_store (append_operation_projection id state projection) w).
Proof. intros. apply journal_ok_update; naive_solver. Qed.

Lemma journal_ok_claim id attempt_id w :
  journal_ok w → journal_ok (do_claim id attempt_id w).2.
Proof.
  intros [Hl []]. destruct (do_claim_spec id attempt_id w) as [(row & Hrow & Hst & ->)| ->]; [|by split].
  unfold row_at in *. simpl. split; [|split]; unfold row_at; cbn [w_store w_log on_store logged].
  - intros i. specialize (Hl i). rewrite !count_logged. unfold row_at, count_of in *. cbn [w_store w_log on_store logged]. rewrite lookup_update_row.
    destruct (decide (i = id)) as [->|Hi].
    + rewrite Hrow in *. simpl in *. rewrite bool_decide_eq_true_2 by done.
      unfold is_prepared in Hl. rewrite bool_decide_eq_true_2 in Hl by done. simpl in *. lia.
    + simpl in *. rewrite (bool_decide_eq_false_2 (id = i)) by congruence. simpl in *. lia.
  - intros i r. rewrite lookup_update_row. intros Hr. apply elem_of_cons. right. case_decide as Hi; [subst|eauto].
    apply fmap_Some in Hr as (row0 & ? & ->). simpl. eauto.
  - intros i a [?|Hs]%elem_of_cons; [done|]. destruct (h_sent0 _ _ Hs) as (n & ? & ?).
    exists n. rewrite elem_of_cons. eauto.
  - intros i r. rewrite lookup_update_row. case_decide as Hi; [by subst; left|]. intros. apply elem_of_cons. eauto.
  - intros i r. rewrite lookup_update_row. case_decide as Hi; [by subst; left|]. intros. apply elem_of_cons. eauto.
  - intros i n [?|?]%elem_of_cons; [done|]. eauto.
Qed.

Lemma journal_ok_send id adapter intent w :
  Recorded id intent ∈ w_log w → from_value intent = Ok adapter →
  journal_ok w → journal_ok (logged (Sent id adapter) w).
Proof.
  intros Hr Hd [Hl []]. split; [|split]; unfold row_at in *; simpl.
  - intros i. rewrite !count_logged. apply Hl.
  - intros. apply elem_of_cons. eauto.
  - intros i a [Heq|Hs]%elem_of_cons; [simplify_eq; exists intent; rewrite elem_of_cons; eauto|].
    destruct (h_sent0 _ _ Hs) as (n & ? & ?). exists n. rewrite elem_of_cons. eauto.
  - intros. apply elem_of_cons. eauto.
  - intros. apply elem_of_cons. eauto.
  - intros i n [?|?]%elem_of_cons; [done|]. eauto.
Qed.

Lemma journal_ok_open w :
  journal_ok w → journal_ok (on_store promote_crashed_submissions w).
Proof.
  intros [Hl []]. unfold row_at in *. split; [|split]; unfold row_at; cbn [w_store w_log on_store logged]; [| | | | |by eauto].
  - intros i. specialize (Hl i). unfold row_at, count_of in *. cbn [w_store w_log on_store logged]. rewrite lookup_promote.
    destruct (st_rows (w_store w) !! i) as [row|]; [|done]. simpl in *. case_bool_decide as Hs; [|done].
    unfold is_prepared at 1. simpl. destruct (is_prepared row); simpl in *; lia.
  - intros i row. rewrite lookup_promote. intros (row0 & Hrow & ->)%fmap_Some. case_bool_decide; simpl; eauto.
  - eauto.
  - intros i row. rewrite lookup_promote. intros (row0 & Hrow & ->)%fmap_Some. case_bool_decide as Hs; [|eauto].
    intros _. eapply h_state0; [done|]. rewrite Hs. by left.
  - intros i row. rewrite lookup_promote. intros (row0 & Hrow & ->)%fmap_Some. case_bool_decide; simpl; eauto.
Qed.

Lemma length_filter_app f l l' : length (filter (λ h, f h = true) (l ++ l' : list Happening))
  = (length (filter (λ h, f h = true) l) + length (filter (λ h, f h = true) l'))%nat.
Proof. by rewrite filter_app, length_app. Qed.

Lemma count_pruning i l :
  NoDup l → length (filter (λ h, is_pruned i h = true) (Pruned <$> l)) = one_if (bool_decide (i ∈ l)).
Proof.
  induction 1 as [|x l Hx Hl IH]; [done|]. rewrite fmap_cons, filter_cons. simpl.
  destruct (decide (x = i)) as [->|Hne].
  - rewrite decide_True by (by apply bool_decide_eq_true). simpl. rewrite IH, bool_decide_eq_false_2 by done.
    rewrite bool_decide_eq_true_2 by (by left). done.
  - rewrite decide_False by (by rewrite bool_decide_eq_true). rewrite IH. f_equal. apply bool_decide_ext. set_solver.
Qed.

Lemma count_pruned_ids i w :
  count_of (is_pruned i)
    {| w_store := prune_operations (w_store w); w_log := (Pruned <$> pruned_ids (w_store w)) ++ w_log w |}
  = (one_if (bool_decide (i ∈ pruned_ids (w_store w))) + count_of (is_pruned i) w)%nat.
Proof. unfold count_of. simpl. by rewrite length_filter_app, count_pruning by apply pruned_ids_NoDup. Qed.

Lemma journal_ok_prune w :
  journal_ok w →
  journal_ok {| w_store := prune_operations (w_store w); w_log := (Pruned <$> pruned_ids (w_store w)) ++ w_log w |}.
Proof.
  intros [Hl []]. unfold row_at in *.
  assert (∀ h, h ∈ w_log w → h ∈ (Pruned <$> pruned_ids (w_store w)) ++ w_log w) as Hold by set_solver.
  assert (∀ h, h ∈ (Pruned <$> pruned_ids (w_store w)) ++ w_log w → (∃ i, h = Pruned i) ∨ h ∈ w_log w) as Hnew.
  { intros h [(i & -> & _)%list_elem_of_fmap|?]%elem_of_app; eauto. }
  split; [|split]; unfold row_at; cbn [w_store w_log].
  - intros i. destruct (Hl i) as [H1 H2]. rewrite !count_pruned, count_pruned_ids by done.
    unfold row_at in *. cbn [w_store] in *.
    destruct (st_rows (w_store w) !! i) as [row|] eqn:Hrow.
    + destruct (expired (st_now (w_store w)) row) eqn:Hexp.
      * replace (st_rows (prune_operations (w_store w)) !! i) with (@None JournalRow).
        2:{ symmetry. apply eq_None_not_Some. intros [r [Hr ?]%lookup_prune]. congruence. }
        rewrite (bool_decide_eq_true_2 (i ∈ pruned_ids (w_store w))) by (apply pruned_ids_elem; eauto).
        rewrite bool_decide_eq_false_2 by (by intros [? ?]). rewrite bool_decide_eq_true_2 in H2 by done.
        simpl in *. destruct (is_prepared row); simpl in *; lia.
      * assert (st_rows (prune_operations (w_store w)) !! i = Some row) as -> by (by apply lookup_prune).
        rewrite (bool_decide_eq_true_2 (is_Some _)) by done. rewrite bool_decide_eq_true_2 in H2 by done. simpl in *. lia.
    + replace (st_rows (prune_operations (w_store w)) !! i) with (@None JournalRow).
      2:{ symmetry. apply eq_None_not_Some. intros [r [Hr ?]%lookup_prune]. congruence. }
      rewrite (bool_decide_eq_false_2 (is_Some _)) by (by intros [? ?]).
      rewrite bool_decide_eq_false_2 in H2 by (by intros [? ?]). simpl in *. lia.
  - intros i row [Hr _]%lookup_prune. eauto.
  - intros i a [[? ?]|Hs]%Hnew; [done|]. destruct (h_sent0 _ _ Hs) as (n & ? & ?). eauto.
  - intros i row [Hr _]%lookup_prune. eauto.
  - intros i row [Hr _]%lookup_prune. eauto.
  - intros i n [[? ?]|Hs]%Hnew; [done|]. eauto.
Qed.

Lemma journal_ok_empty : journal_ok empty_world.
Proof.
  split; [|split]; unfold row_at, empty_world; simpl.
  - intros id. unfold row_at, count_of. simpl. rewrite lookup_empty. simpl. lia.
  - intros ? ?. by rewrite lookup_empty.
  - intros ? ?. set_solver.
  - intros ? ?. by rewrite lookup_empty.
  - intros ? ?. by rewrite lookup_empty.
  - intros ? ?. set_solver.
Qed.
End Invariants.

(** ** The programs keep the invariant *)

Section Programs.
Context `{JN : JsonNumber}.
Context (from_value : Value → result string MutationAdapter.t) (from_str : string → option Value).
Abbreviation ok := (journal_ok from_value).
(** Returned with no licence left, in a later world. *)
Abbreviation spent w := (λ (L' : gmultiset string) (w' : World) _, L' = ∅ ∧ extends w w').

Lemma intent_of_no_secret adapter intent :
  intent_of adapter = Ok intent → contains_secret intent = false.
Proof.
  unfold intent_of, durable_intent, ensure_no_secrets. destruct (contains_secret (Object (adapter_object adapter))) eqn:Hs; [done|].
  intros [= <-]. apply contains_secret_insert; [done|done|]. apply contains_secret_insert; [done|by apply evidence_no_secret|].
  by apply contains_secret_insert.
Qed.

Lemma wp_classify id entry adapter expects outcome w0 :
  Claimed id ∈ w_log w0 →
  wp ok ∅ w0 (classify from_str id entry adapter expects outcome) (spent w0).
Proof.
  intros Hc.
  assert (∀ w, extends w0 w → Claimed id ∈ w_log w) as Hcl by (intros; by eapply extends_elem).
  assert (∀ s w, extends w0 w → s ≠ "prepared" → ok w → ok (on_store (set_operation_state id s) w)) as Hset
    by (intros; by apply journal_ok_set; auto).
  assert (∀ s v w, extends w0 w → s ≠ "prepared" → ok w → ok (on_store (append_operation_projection id s v) w)) as Happ
    by (intros; by apply journal_ok_append; auto).
  unfold classify. destruct outcome as [response|error].
  - cbn. intros w1 H1 HI1. split; [apply Happ; [done|by unfold accepted_status; repeat case_match|done]|].
    intros w2 H2 HI2. split; [by apply journal_ok_notify|].
    destruct (is_retrieve adapter); cbn.
    + intros []; cbn; [|split; [done|grows]]. intros w3 H3 HI3. split; [apply Hset; [grows|done|done]|].
      intros w4 H4 HI4. split; [by apply journal_ok_notify|]. split; [done|grows].
    + destruct (oj_target_realm entry), (oj_target_kind entry), (oj_target_id entry); cbn; try (split; [done|grows]).
      intros w3 H3 HI3. split; [by apply journal_ok_rows|]. split; [done|grows].
  - destruct (is_ambiguous_mutation_outcome error); cbn;
      intros w1 H1 HI1; (split; [first [by apply Hset|by apply Happ]|]);
      intros w2 H2 HI2; (split; [by apply journal_ok_notify|]); (split; [done|grows]).
Qed.

Lemma wp_attempt id w0 :
  wp ok ∅ w0 (attempt from_value from_str id) (spent w0).
Proof.
  unfold attempt. simpl. intros w H0 HI. destruct (read_operation id (w_store w)) as [entry|] eqn:Hread; [|done].
  apply read_operation_Some in Hread as (row & Hrow & <-).
  pose proof (h_recorded _ _ (proj2 HI) _ _ Hrow) as Hrec.
  case_decide; [by split|]. destruct (from_value _) as [adapter|e] eqn:Hdec; [|done]. simpl.
  intros attempt_id w1 H1 HI1. split; [by apply journal_ok_claim|].
  destruct (do_claim_spec id attempt_id w1) as [(r & Hr & Hst & ->)| ->]; simpl; [|split; [done|grows]].
  intros w2 H2 HI2. split; [by apply journal_ok_notify|]. split; [set_solver|].
  intros w3 H3 HI3. split.
  - eapply journal_ok_send; [|done|done]. eapply extends_elem; [|exact Hrec]. grows.
  - intros answer. replace (({[+ id +]} ⊎ ∅) ∖ {[+ id +]} : gmultiset string) with (∅ : gmultiset string) by multiset_solver.
    eapply wp_mono; [apply wp_classify|].
    + right. eapply (extends_elem _ _ _ H3). right. eapply (extends_elem _ _ _ H2). by left.
    + intros L w' _ [-> ?]. split; [done|grows].
Qed.

Lemma wp_create adapter supplied_id w0 :
  wp ok ∅ w0 (create_with_id from_value from_str adapter supplied_id) (spent w0).
Proof.
  unfold create_with_id. intros []; [|done]. simpl.
  assert (∀ id, wp ok ∅ w0 (match intent_of adapter with
    | Err message => raise (Operation message)
    | Ok intent => let '(realm, kind, target) := target_columns adapter in
        RecordOperationIfAbsent id (as_str Prepared) realm kind target intent (λ existing,
          match existing with
          | Some existing => if identity_matches existing realm kind target intent
              then _ ← attempt from_value from_str id; mret id else raise (collision id)
          | None => _ ← attempt from_value from_str id; mret id
          end) end) (spent w0)) as Hid; [|destruct supplied_id; simpl; intros; apply Hid].
  intros id. destruct (intent_of adapter) as [intent|] eqn:Hint; [|done].
  destruct (target_columns adapter) as [[realm kind] target]. simpl. intros w H0 HI.
  split; [apply journal_ok_record; [by eapply intent_of_no_secret|done]|].
  assert (∀ w', extends w w' → wp ok ∅ w' (_ ← attempt from_value from_str id; mret id) (spent w0)) as Hatt.
  { intros w' Hw'. apply wp_bind. eapply wp_mono; [apply wp_attempt|]. intros L w'' _ [-> ?]. split; [done|grows]. }
  destruct (do_record id _ realm kind target intent w) as [[e|] w'] eqn:Hr; simpl.
  - destruct (identity_matches e realm kind target intent); [|done]. apply Hatt.
    pose proof (extends_record id "prepared" realm kind target intent w) as He. by rewrite Hr in He.
  - apply Hatt. pose proof (extends_record id "prepared" realm kind target intent w) as He. by rewrite Hr in He.
Qed.

Lemma wp_outcome id w0 : wp ok ∅ w0 (outcome id) (spent w0).
Proof.
  unfold outcome, load. intros []; [|done]. simpl. intros w H0 HI. destruct (read_operation _ _); [by split|done].
Qed.

Lemma wp_reconcile id w0 : wp ok ∅ w0 (reconcile id) (spent w0).
Proof.
  unfold reconcile, load. intros []; [|done]. simpl. intros w H0 HI.
  destruct (read_operation id (w_store w)) as [entry|]; [|done]. simpl.
  assert (∀ s w, s ∈ [Completed; ReconciliationRequired] → ok w →
    ok (on_store (set_operation_state id (as_str s)) w)) as Hset.
  { intros s w' Hs Hw'. apply elem_of_cons in Hs as [->|Hs%list_elem_of_singleton]; try subst s;
      (apply journal_ok_set; [done| |done]); intros Hin; exfalso; revert Hin; compute_done. }
  assert (∀ w', extends w0 w' → wp ok ∅ w' (outcome id) (spent w0)) as Hout.
  { intros w' Hw'. eapply wp_mono; [apply wp_outcome|]. intros L w'' _ [-> ?]. split; [done|grows]. }
  destruct (bool_decide _ && bool_decide _).
  - intros []; simpl; [|by apply Hout]. intros w1 H1 HI1. split; [by apply (Hset Completed); [left|]|].
    intros w2 H2 HI2. split; [by apply journal_ok_notify|]. apply Hout. grows.
  - apply wp_bind. eapply (wp_mono _ _ _ _ (spent w)).
    { unfold refresh_target. destruct (oj_target_kind entry) as [kind|]; [|by split].
      case_decide; [by split|]. destruct (oj_target_id entry); [|by split].
      repeat case_decide; simpl; first [by split|by intros; split]. }
    intros L w1 snapshot [-> H1]. destruct (is_terminal _); simpl; [apply Hout; grows|].
    intros w2 H2 HI2. split.
    + destruct (snapshot_matches _ _); [apply (Hset Completed); [by left|done]|].
      apply (Hset ReconciliationRequired); [by right; left|done].
    + intros w3 H3 HI3. split; [by apply journal_ok_notify|]. apply Hout. grows.
Qed.

Lemma wp_resolve event w0 : wp ok ∅ w0 (resolve_awaiting_evidence event) (spent w0).
Proof.
  unfold resolve_awaiting_evidence. destruct (ev_realm event) as [realm|]; [|by split].
  apply wp_each. intros [kind target] _ w H0. unfold mark_resolved. simpl. intros w1 H1 HI1.
  eapply wp_mono; [apply wp_each|intros ? ? ? [-> ?]; split; [done|grows]].
  intros id _ w2 H2. unfold resolve_one. simpl. intros w3 H3 HI3.
  destruct (read_operation id (w_store w3)) as [entry|] eqn:Hread; [|split; [done|grows]].
  apply read_operation_Some in Hread as (row & Hrow & <-).
  destruct (verdict (jr_entry row) event) as [next|] eqn:Hv; [|split; [done|grows]].
  assert (Claimed id ∈ w_log w3 ∧ next ∈ [Completed; Failed]) as [Hc Hn].
  { unfold verdict, event_evidence_matches, event_failure_evidence_matches, event_matches_named_evidence in Hv.
    destruct (oj_submission_cursor (jr_entry row)) eqn:Hcur; [|done].
    split; [eapply (h_cursor _ _ (proj2 HI3)); [exact Hrow|by rewrite Hcur]|].
    repeat case_match; simplify_eq; by repeat constructor. }
  assert (as_str next ≠ "prepared") as Hnp by (apply elem_of_cons in Hn as [->|Hn%list_elem_of_singleton]; by subst).
  case_decide; simpl; intros w4 H4 HI4.
  - split; [apply journal_ok_append; [done|by intros; eapply extends_elem|done]|].
    intros w5 H5 HI5. split; [by apply journal_ok_notify|]. split; [done|grows].
  - split; [apply journal_ok_set; [done|by intros; eapply extends_elem|done]|].
    intros w5 H5 HI5. split; [by apply journal_ok_notify|]. split; [done|grows].
Qed.

Lemma wp_recover w0 : wp ok ∅ w0 (recover from_value from_str) (spent w0).
Proof.
  unfold recover. simpl. intros w H0 HI. eapply wp_mono; [apply wp_each|intros ? ? ? [-> ?]; split; [done|grows]].
  intros [id entry] _ w' Hw'. simpl. case_decide; [apply wp_attempt|by split].
Qed.

Lemma wp_discard {A} (p : Prog A) w0 Q :
  wp ok ∅ w0 p Q → wp ok ∅ w0 (discard p) (λ _ _ _, True).
Proof. intros Hp. apply wp_bind. eapply wp_mono; [exact Hp|]. done. Qed.

Lemma wp_capability devices code command p w0 Q :
  wp ok ∅ w0 p Q → wp ok ∅ w0 (capability_checked devices code command p) Q.
Proof. unfold capability_checked. by destruct (check_device_capability _ _ _). Qed.

#[global] Instance journal_kept : Kept ok from_value from_str.
Proof.
  split; [|apply journal_ok_open|apply journal_ok_prune|by intros; apply journal_ok_rows].
  intros p w [adapter supplied_id|devices code command|devices code command id|code simulation_id|confirm|id|event|].
  - eapply wp_discard, wp_create.
  - eapply wp_discard, wp_capability, wp_create.
  - eapply wp_discard, wp_capability, wp_create.
  - eapply (wp_discard _ _ (λ _ _ _, True)). apply wp_bind. eapply wp_mono; [apply wp_create|].
    intros L w1 id [-> H1]. simpl. intros w2 H2 HI2. split; [by apply journal_ok_rows|done].
  - eapply (wp_discard _ _ (λ _ _ _, True)). intros []; [|done]. simpl. intros w1 H1 HI1.
    case_decide; [|done]. eapply wp_mono; [apply wp_create|done].
  - eapply wp_discard, wp_reconcile.
  - eapply wp_mono; [apply wp_resolve|done].
  - eapply wp_mono; [apply wp_recover|done].
Qed.

Lemma reachable_sound s : reachable from_value from_str s → sound ok s.
Proof. intros Hs. eapply steps_sound; [apply journal_kept|exact Hs|]. apply initial_sound, journal_ok_empty. Qed.

Lemma reachable_counts s id :
  reachable from_value from_str s →
  (count_of (is_sent id) (sy_world s) ≤ count_of (is_claimed id) (sy_world s))%nat ∧ ok (sy_world s).
Proof. intros (HI & Ls & _ & Hc)%reachable_sound. split; [specialize (Hc id); lia|done]. Qed.

End Programs.


(** whatever a client sends was recorded durably before, under the same identity, as an
    intent that decodes to exactly the request sent and that has no field shaped like a
    credential. *)
Theorem sent_mutation_was_recorded `{JN : JsonNumber} (from_value : Value → result string MutationAdapter.t)
    (from_str : string → option Value) s id adapter :
  reachable from_value from_str s → Sent id adapter ∈ w_log (sy_world s) →
  ∃ intent, Recorded id intent ∈ w_log (sy_world s) ∧ from_value intent = Ok adapter ∧
    contains_secret intent = false.
Proof.
  intros [_ [_ Hh]]%(reachable_counts from_value from_str s id) Hs. destruct (h_sent _ _ Hh _ _ Hs) as (intent & Hr & ?).
  exists intent. split; [done|]. split; [done|]. by eapply h_secret.
Qed.

(** the state of a row tells whether the operation may have reached the server: a
    prepared operation has not been sent since its row was recorded, and one that is
    submitted, awaiting evidence, ambiguous, rejected or failed was claimed for submission. *)
Theorem state_tells_submission `{JN : JsonNumber} (from_value : Value → result string MutationAdapter.t)
    (from_str : string → option Value) s id row :
  reachable from_value from_str s → st_rows (w_store (sy_world s)) !! id = Some row →
  (oj_state (jr_entry row) = "prepared" →
     (count_of (is_sent id) (sy_world s) ≤ count_of (is_pruned id) (sy_world s))%nat) ∧
  (oj_state (jr_entry row) ∈ ["submitted"; "awaiting_evidence"; "ambiguous"; "rejected"; "failed"] →
     Claimed id ∈ w_log (sy_world s)).
Proof.
  intros [Hc [Hl Hh]]%(reachable_counts from_value from_str s id) Hrow. split; [|by apply (h_state _ _ Hh)].
  intros Hst. destruct (Hl id) as [H1 H2]. unfold row_at in *. rewrite Hrow in *. simpl in *.
  unfold is_prepared in H1. rewrite bool_decide_eq_true_2 in H1 by done.
  simpl in *. lia.
Qed.
