(* ===== verification/OperationOutcomes.v ===== *)
(** * What an uninterrupted operation does

    The effect of a submission on the journal on every outcome of the request, the reuse of
    an identity, the recovery after a restart, and the resolution of operations by an event
    as one pass over the rows. *)

From stdpp Require Import gmultiset.
From S2P Require Import Prelude Float64 Json Observations Entities Mutations Operations OperationLogic.
From S2P Require Import OperationFacts.
Import Mutation Journal.

(** ** Execution *)

Section Run.
Context `{JN : JsonNumber} (env : Environment).
Implicit Types w : World.

Lemma run_bind {A B} (p : Prog A) (f : A → Prog B) w :
  run env (p ≫= f) w = match run env p w with (Ok a, w') => run env (f a) w' | (Err e, w') => (Err e, w') end.
Proof. revert w. induction p as [[]| | | | | | | | | | | | | | | | | |]; intros w; simpl; try done; match goal with IH : context [run] |- _ => apply IH end. Qed.

Lemma run_each_ok {A} (f : A → Prog unit) x xs w w' :
  run env (f x) w = (Ok tt, w') → run env (each f (x :: xs)) w = run env (each f xs) w'.
Proof. intros Hx. cbn [each]. by rewrite run_bind, Hx. Qed.

(** An execution is a schedule of the client. *)
Lemma run_steps (from_value : Value → result string MutationAdapter.t) (from_str : string → option Value) p ts w :
  rtc (step from_value from_str) {| sy_world := w; sy_tasks := p :: ts |}
    {| sy_world := (run env p w).2; sy_tasks := Ret (run env p w).1 :: ts |}.
Proof.
  revert w. induction p; intros w; simpl; [done|..].
  all: eapply rtc_l; [apply (step_task _ _ w [] _ ts); constructor|]; simpl; eauto.
Qed.

Lemma run_reachable (from_value : Value → result string MutationAdapter.t) (from_str : string → option Value) p w ts :
  call from_value from_str p → reachable from_value from_str {| sy_world := w; sy_tasks := ts |} →
  reachable from_value from_str {| sy_world := (run env p w).2; sy_tasks := Ret (run env p w).1 :: ts |}.
Proof.
  unfold reachable. intros Hp Hw. etrans; [exact Hw|]. eapply rtc_l; [by apply step_call|]. apply run_steps.
Qed.
End Run.

(** The requests of a log, latest first. *)
Definition requests `{JN : JsonNumber} (w : World) : list (string * MutationAdapter.t) :=
  omap (λ h, match h with Sent id adapter => Some (id, adapter) | _ => None end) (w_log w).

(** ** Submission *)

Section Submission.
Context `{JN : JsonNumber} (env : Environment).
Context (from_value : Value → result string MutationAdapter.t) (from_str : string → option Value).
Implicit Types (w : World) (row : JournalRow).

(** The state of an operation once its submission returned, by its outcome. *)
Definition settled_state (adapter : MutationAdapter.t) (expects : bool) (outcome : result Error Value) : string :=
  as_str match outcome with
  | Err error => if is_ambiguous_mutation_outcome error then Ambiguous else Rejected
  | Ok _ => if is_retrieve adapter && env_refresh_devices env then Completed
            else accepted_status adapter expects
  end.

Definition settled_projection (outcome : result Error Value) (old : option Value) : option Value :=
  match outcome with
  | Err error => if is_ambiguous_mutation_outcome error then old else Some (sanitize_error from_str error)
  | Ok response => Some response
  end.

Definition intent_expects (intent : Value) : bool := default false (get_bool intent "expects_evidence").

(** The row after the submission. *)
Definition settled_row (id : string) (w : World) (row : JournalRow) (adapter : MutationAdapter.t) : JournalRow :=
  let e := jr_entry row in
  let answer := env_submit env id adapter in
  {| jr_entry :=
       {| oj_state := settled_state adapter (intent_expects (oj_intent e)) answer;
          oj_target_realm := oj_target_realm e; oj_target_kind := oj_target_kind e; oj_target_id := oj_target_id e;
          oj_intent := oj_intent e; oj_projection := settled_projection answer (oj_projection e);
          oj_submission_attempt_id := Some (env_uuid env w); oj_submitted_at := Some (st_now (w_store w));
          oj_submission_cursor := st_cursor (w_store w) |};
     jr_updated_at := st_now (w_store w) |}.

(** The rows of one world are those of another with one replaced; cursor and clock agree. *)
Definition only_row (id : string) (row : JournalRow) w w' : Prop :=
  st_rows (w_store w') = <[id := row]> (st_rows (w_store w)) ∧
  st_cursor (w_store w') = st_cursor (w_store w) ∧ st_now (w_store w') = st_now (w_store w).

Lemma update_row_insert id f row (s : Store) :
  st_rows s !! id = Some row →
  st_rows (update_row id f s) = <[id := {| jr_entry := f (jr_entry row); jr_updated_at := st_now s |}]> (st_rows s).
Proof.
  intros Hrow. apply map_eq. intros i. rewrite lookup_update_row.
  destruct (decide (i = id)) as [->|]; [by rewrite Hrow, lookup_insert_eq|by rewrite lookup_insert_ne].
Qed.

Lemma only_row_update id f row w w1 :
  only_row id row w w1 →
  only_row id {| jr_entry := f (jr_entry row); jr_updated_at := st_now (w_store w) |} w (on_store (update_row id f) w1).
Proof.
  intros (Hr & Hc & Hn). split; [|done]. cbn [w_store on_store].
  rewrite (update_row_insert _ _ row) by (by rewrite Hr, lookup_insert_eq). by rewrite Hr, Hn, insert_insert_eq.
Qed.

Lemma run_classify id row0 entry adapter expects outcome w w1 :
  only_row id row0 w w1 →
  ∃ w' row', run env (classify from_str id entry adapter expects outcome) w1 = (Ok tt, w') ∧
    only_row id row' w w' ∧ requests w' = requests w1 ∧ jr_updated_at row' = st_now (w_store w) ∧
    jr_entry row' =
      {| oj_state := settled_state adapter expects outcome;
         oj_target_realm := oj_target_realm (jr_entry row0); oj_target_kind := oj_target_kind (jr_entry row0);
         oj_target_id := oj_target_id (jr_entry row0); oj_intent := oj_intent (jr_entry row0);
         oj_projection := settled_projection outcome (oj_projection (jr_entry row0));
         oj_submission_attempt_id := oj_submission_attempt_id (jr_entry row0);
         oj_submitted_at := oj_submitted_at (jr_entry row0);
         oj_submission_cursor := oj_submission_cursor (jr_entry row0) |}.
Proof.
  intros H1. unfold classify, settled_state, settled_projection. destruct outcome as [response|error].
  - cbn. pose proof (only_row_update _ (with_projection (as_str (accepted_status adapter expects)) response) _ _ _ H1) as H2.
    destruct (is_retrieve adapter) eqn:Hret; cbn.
    + destruct (env_refresh_devices env); cbn.
      * pose proof (only_row_update _ (in_state "completed") _ _ _ H2) as H3. do 2 eexists. split; [reflexivity|]. split; [exact H3|]. done.
      * do 2 eexists. split; [reflexivity|]. split; [exact H2|]. done.
    + destruct (oj_target_realm entry), (oj_target_kind entry), (oj_target_id entry); cbn;
        (do 2 eexists; split; [reflexivity|]; split; [exact H2|]; done).
  - destruct (is_ambiguous_mutation_outcome error) eqn:Hamb; cbn.
    + do 2 eexists. split; [reflexivity|]. split; [apply (only_row_update _ (in_state "ambiguous") _ _ _ H1)|]. done.
    + do 2 eexists. split; [reflexivity|].
      split; [apply (only_row_update _ (with_projection "rejected" (sanitize_error from_str error)) _ _ _ H1)|]. done.
Qed.

(** The one submission of a prepared operation. *)
Lemma run_attempt id row adapter w :
  st_rows (w_store w) !! id = Some row → oj_state (jr_entry row) = "prepared" →
  from_value (oj_intent (jr_entry row)) = Ok adapter →
  ∃ w', run env (attempt from_value from_str id) w = (Ok tt, w') ∧
    only_row id (settled_row id w row adapter) w w' ∧ requests w' = (id, adapter) :: requests w.
Proof.
  intros Hrow Hst Hdec. unfold attempt. cbn [run]. unfold read_operation at 1. rewrite Hrow. simpl.
  rewrite decide_False by (rewrite Hst; intros []; done). rewrite Hdec. cbn [run].
  destruct (do_claim_spec id (env_uuid env w) w) as [(r & Hr & _ & Hc)|Hc].
  2:{ exfalso. revert Hc. unfold do_claim, claim_operation_submission, read_operation. rewrite Hrow. simpl.
      by rewrite decide_True. }
  assert (r = row) as -> by congruence. rewrite Hc. clear Hc. simpl.
  set (w1 := logged (Sent id adapter) _).
  edestruct (run_classify id {| jr_entry := claimed (env_uuid env w) (st_cursor (w_store w)) (st_now (w_store w)) (jr_entry row);
       jr_updated_at := st_now (w_store w) |} (jr_entry row) adapter
       (intent_expects (oj_intent (jr_entry row))) (env_submit env id adapter) w w1)
    as (w' & row' & Hrun & Honly & Hreq & Hupd & Hentry).
  { split; [|done]. by apply update_row_insert. }
  exists w'. split; [exact Hrun|]. split; [|exact Hreq].
  assert (settled_row id w row adapter = row') as ->; [|done].
  destruct row' as [e u]. simpl in *. by subst.
Qed.

(** An operation that is not prepared is left alone. *)
Lemma run_attempt_skip id row w :
  st_rows (w_store w) !! id = Some row → oj_state (jr_entry row) ≠ "prepared" →
  run env (attempt from_value from_str id) w = (Ok tt, w).
Proof.
  intros Hrow Hst. unfold attempt. cbn [run]. unfold read_operation. rewrite Hrow. simpl.
  by rewrite decide_True by done.
Qed.
End Submission.

(** ** Creation *)

Section Intents.
Context `{JN : JsonNumber}.

Lemma get_field_durable adapter object :
  durable_intent adapter = Ok object → object = adapter_object adapter.
Proof. unfold durable_intent. destruct (ensure_no_secrets _); naive_solver. Qed.

Lemma intent_of_expects adapter intent :
  intent_of adapter = Ok intent → intent_expects intent = expects_evidence adapter.
Proof.
  unfold intent_of. destruct (durable_intent adapter); [|done]. intros [= <-].
  unfold intent_expects, get_bool, get. cbn [as_object mbind option_bind].
  rewrite get_insert_ne by done. rewrite get_insert_ne by done. by rewrite get_insert_eq.
Qed.

Lemma intent_of_evidence adapter intent :
  intent_of adapter = Ok intent → get intent "evidence" = Some (operation_evidence adapter).
Proof.
  unfold intent_of. destruct (durable_intent adapter); [|done]. intros [= <-].
  unfold get. cbn [as_object mbind option_bind]. rewrite get_insert_ne by done. by rewrite get_insert_eq.
Qed.

Lemma intent_of_kind adapter intent :
  intent_of adapter = Ok intent → get_str intent "kind" = Some (MutationAdapter.operation_id adapter).
Proof.
  unfold intent_of. destruct (durable_intent adapter) as [object|] eqn:Hd; [|done]. intros [= <-].
  apply get_field_durable in Hd as ->. unfold get_str, get. cbn [as_object mbind option_bind].
  rewrite !get_insert_ne by done. unfold adapter_object. rewrite get_object_of. cbn [first_field].
  by rewrite decide_True.
Qed.

End Intents.

Section Creation.
Context `{JN : JsonNumber} (env : Environment).
Context (from_value : Value → result string MutationAdapter.t) (from_str : string → option Value).
Implicit Types (w : World) (row : JournalRow).

(** The row [create_with_id] inserts. *)
Definition new_row (adapter : MutationAdapter.t) (intent : Value) (now : Z) : JournalRow :=
  {| jr_entry :=
       {| oj_state := "prepared"; oj_target_realm := (target_columns adapter).1.1;
          oj_target_kind := (target_columns adapter).1.2; oj_target_id := (target_columns adapter).2;
          oj_intent := intent; oj_projection := None; oj_submission_attempt_id := None;
          oj_submitted_at := None; oj_submission_cursor := None |};
     jr_updated_at := now |}.

(** The world after the identity is chosen and the record is made. *)
Lemma run_create adapter supplied_id intent w :
  env_open env = true → intent_of adapter = Ok intent →
  let id := default (env_uuid env w) supplied_id in
  let columns := target_columns adapter in
  run env (create_with_id from_value from_str adapter supplied_id) w =
  match st_rows (w_store w) !! id with
  | Some row =>
      if identity_matches (jr_entry row) columns.1.1 columns.1.2 columns.2 intent
      then run env (_ ← attempt from_value from_str id; mret id) w
      else (Err (collision id), w)
  | None => run env (_ ← attempt from_value from_str id; mret id)
      (logged (Recorded id intent) (on_store (with_rows <[id := new_row adapter intent (st_now (w_store w))]>) w))
  end.
Proof.
  intros Hopen Hint id columns. unfold create_with_id, ensure_open. cbn [mbind prog_bind run]. rewrite Hopen. cbn [mbind prog_bind done mret prog_ret].
  assert (∀ i, run env (match intent_of adapter with
    | Err message => raise (Operation message)
    | Ok intent => let '(realm, kind, target) := target_columns adapter in
        RecordOperationIfAbsent i (as_str Prepared) realm kind target intent (λ existing,
          match existing with
          | Some existing => if identity_matches existing realm kind target intent
              then _ ← attempt from_value from_str i; mret i else raise (collision i)
          | None => _ ← attempt from_value from_str i; mret i
          end) end) w =
    match st_rows (w_store w) !! i with
    | Some row => if identity_matches (jr_entry row) columns.1.1 columns.1.2 columns.2 intent
        then run env (_ ← attempt from_value from_str i; mret i) w else (Err (collision i), w)
    | None => run env (_ ← attempt from_value from_str i; mret i)
        (logged (Recorded i intent) (on_store (with_rows <[i := new_row adapter intent (st_now (w_store w))]>) w))
    end) as Hid.
  { intros i. rewrite Hint. unfold columns, new_row. destruct (target_columns adapter) as [[realm kind] target]. cbn [run fst snd].
    unfold do_record, record_operation_if_absent. destruct (st_rows (w_store w) !! i) as [row|].
    - cbn. destruct w as [store log]. cbn. by destruct (identity_matches _ _ _ _ _).
    - cbn. done. }
  destruct supplied_id; apply Hid.
Qed.
End Creation.

(** C6: creating an operation under a fresh identity records the intent with the event
    cursor of the submission, sends the mutation exactly once, and leaves the row in the
    state its outcome demands: ambiguous for a transport failure or an undecodable success,
    rejected for any other failure with the sanitised error, completed when the response is
    final or the retrieved devices were re-read, awaiting evidence or reconciliation
    otherwise; no other row changes. *)
Theorem create_submits_once `{JN : JsonNumber} env (from_value : Value → result string MutationAdapter.t)
    (from_str : string → option Value) adapter supplied_id intent w :
  let id := default (env_uuid env w) supplied_id in
  env_open env = true → st_rows (w_store w) !! id = None →
  intent_of adapter = Ok intent → from_value intent = Ok adapter →
  ∃ w' row, run env (create_with_id from_value from_str adapter supplied_id) w = (Ok id, w') ∧
    st_rows (w_store w') = <[id := row]> (st_rows (w_store w)) ∧
    requests w' = (id, adapter) :: requests w ∧
    oj_intent (jr_entry row) = intent ∧
    oj_submission_cursor (jr_entry row) = st_cursor (w_store w) ∧
    oj_state (jr_entry row) = settled_state env adapter (expects_evidence adapter) (env_submit env id adapter) ∧
    oj_projection (jr_entry row) = settled_projection from_str (env_submit env id adapter) None.
Proof.
  intros id Hopen Hnone Hint Hdec. rewrite (run_create _ _ _ _ _ intent) by done. fold id. rewrite Hnone.
  set (row0 := new_row adapter intent (st_now (w_store w))).
  edestruct (run_attempt env from_value from_str id row0 adapter
    (logged (Recorded id intent) (on_store (with_rows <[id := row0]>) w))) as (w' & Hrun & (Hrows & _ & _) & Hreq);
    [apply lookup_insert_eq|done|done|].
  rewrite run_bind, Hrun. do 2 eexists. split; [reflexivity|]. split.
  { rewrite Hrows. cbn. apply insert_insert_eq. }
  split; [exact Hreq|]. cbn. by rewrite (intent_of_expects _ _ Hint).
Qed.

(** creating an operation under an identity that already left the prepared state sends
    nothing and changes nothing: the existing operation is returned when target and intent
    are the same, and a different mutation is refused as a collision. *)
Theorem create_reuses_identity `{JN : JsonNumber} env (from_value : Value → result string MutationAdapter.t)
    (from_str : string → option Value) adapter id intent row w :
  env_open env = true → st_rows (w_store w) !! id = Some row → oj_state (jr_entry row) ≠ "prepared" →
  intent_of adapter = Ok intent →
  run env (create_with_id from_value from_str adapter (Some id)) w =
    (if decide (oj_intent (jr_entry row) = intent ∧
                (oj_target_realm (jr_entry row), oj_target_kind (jr_entry row), oj_target_id (jr_entry row))
                = target_columns adapter)
     then Ok id else Err (collision id), w).
Proof.
  intros Hopen Hrow Hst Hint. rewrite (run_create _ _ _ _ _ intent) by done. change (default (env_uuid env w) (Some id)) with id. rewrite Hrow.
  unfold identity_matches. destruct (target_columns adapter) as [[realm kind] target]. cbn [fst snd].
  rewrite run_bind, (run_attempt_skip env from_value from_str _ row) by done. cbn.
  destruct (jr_entry row); cbn. case_decide as Hd.
  - destruct Hd as [-> [= -> -> ->]]. by rewrite !bool_decide_eq_true_2.
  - repeat case_bool_decide; simplify_eq/=; try done. naive_solver.
Qed.

(** ** Recovery *)

Section Recovery.
Context `{JN : JsonNumber} (env : Environment).
Context (from_value : Value → result string MutationAdapter.t) (from_str : string → option Value).
Implicit Types (w : World) (row : JournalRow).

(** The prepared operations of a listing, decoded. *)
Definition to_submit (l : list (string * OperationJournalEntry)) : list (string * MutationAdapter.t) :=
  omap (λ r : string * OperationJournalEntry,
    if decide (oj_state r.2 = "prepared")
    then match from_value (oj_intent r.2) with Ok adapter => Some (r.1, adapter) | Err _ => None end
    else None) l.

Definition recover_one (r : string * OperationJournalEntry) : Prog unit :=
  if decide (oj_state r.2 = as_str Prepared) then attempt from_value from_str r.1 else done.

(** What recovery does to one row. *)
Definition recovered (listed : bool) row (after : option JournalRow) : Prop :=
  if decide (listed = true ∧ oj_state (jr_entry row) = "prepared")
  then ∃ id adapter row', from_value (oj_intent (jr_entry row)) = Ok adapter ∧ after = Some row' ∧
    oj_intent (jr_entry row') = oj_intent (jr_entry row) ∧
    oj_state (jr_entry row')
      = settled_state env adapter (intent_expects (oj_intent (jr_entry row))) (env_submit env id adapter)
  else after = Some row.

Lemma run_recover_list l w :
  NoDup l.*1 →
  (∀ r, r ∈ l → ∃ row, st_rows (w_store w) !! r.1 = Some row ∧ jr_entry row = r.2) →
  (∀ r, r ∈ l → oj_state r.2 = "prepared" → ∃ adapter, from_value (oj_intent r.2) = Ok adapter) →
  ∃ w', run env (each recover_one l) w = (Ok tt, w') ∧
    requests w' = reverse (to_submit l) ++ requests w ∧
    ∀ i, match st_rows (w_store w) !! i with
         | Some row => recovered (bool_decide (i ∈ l.*1)) row (st_rows (w_store w') !! i)
         | None => st_rows (w_store w') !! i = None
         end.
Proof.
  revert w. induction l as [|[id e] l IH]; intros w Hnd Hrows Hdec.
  { exists w. split; [done|]. split; [done|]. intros i. by destruct (st_rows (w_store w) !! i). }
  apply NoDup_cons in Hnd as [Hid Hnd]. destruct (Hrows (id, e)) as (row & Hrow & He); [by left|]. simpl in Hrow, He.
  assert (∃ w1, run env (recover_one (id, e)) w = (Ok tt, w1) ∧
    requests w1 = reverse (to_submit [(id, e)]) ++ requests w ∧
    (∀ i, i ≠ id → st_rows (w_store w1) !! i = st_rows (w_store w) !! i) ∧
    recovered true row (st_rows (w_store w1) !! id)) as (w1 & Hrun & Hreq & Hoth & Hrec).
  { unfold recover_one, recovered, to_submit. simpl. rewrite <- He. destruct (decide (oj_state (jr_entry row) = "prepared")) as [Hp|Hp].
    - destruct (Hdec (id, e)) as (adapter & Hd); [by left|by rewrite <- He|]. simpl in Hd. rewrite <- He in Hd.
      destruct (run_attempt env from_value from_str id row adapter w) as (w1 & Hrun & (Hr1 & _) & Hreq); [done..|].
      exists w1. split; [exact Hrun|]. rewrite Hd, Hr1. split; [done|].
      split; [intros; by rewrite lookup_insert_ne|]. rewrite decide_True by done.
      exists id, adapter, (settled_row env from_str id w row adapter). rewrite lookup_insert_eq. done.
    - exists w. split; [done|]. split; [done|]. split; [done|].
      rewrite decide_False by naive_solver. done. }
  destruct (IH w1 Hnd) as (w' & Hrun' & Hreq' & Hall).
  { intros r Hr. destruct (Hrows r) as (row' & ? & ?); [by right|]. exists row'. split; [|done].
    rewrite Hoth; [done|]. intros Heq. apply Hid. rewrite <- Heq. apply list_elem_of_fmap. by exists r. }
  { intros r Hr. apply Hdec. by right. }
  exists w'. split; [by rewrite (run_each_ok env recover_one _ _ _ w1)|]. split.
  { rewrite Hreq', Hreq. rewrite app_assoc. f_equal. unfold to_submit. simpl.
    destruct (if decide _ then _ else _) as [p|]; [|by rewrite app_nil_r]. symmetry. apply reverse_cons. }
  intros i. specialize (Hall i). destruct (decide (i = id)) as [->|Hi].
  - rewrite Hrow. assert (∃ row1, st_rows (w_store w1) !! id = Some row1) as [row1 H1].
    { unfold recovered in Hrec. case_decide; [naive_solver|eauto]. }
    rewrite H1 in *. unfold recovered in Hall. rewrite decide_False in Hall.
    2:{ intros [Hin%bool_decide_eq_true _]. done. }
    rewrite Hall. rewrite bool_decide_eq_true_2 by (by left). done.
  - rewrite Hoth in Hall by done. destruct (st_rows (w_store w) !! i); [|done].
    replace (bool_decide (i ∈ ((id, e) :: l).*1)) with (bool_decide (i ∈ l.*1)); [done|].
    apply bool_decide_ext. rewrite fmap_cons, elem_of_cons. naive_solver.
Qed.

Lemma list_unresolved_rows (s : Store) r :
  r ∈ list_unresolved_operations s ↔
  ∃ row, st_rows s !! r.1 = Some row ∧ jr_entry row = r.2 ∧ oj_state r.2 ∉ OPERATION_TERMINAL_STATES.
Proof.
  unfold list_unresolved_operations. rewrite list_elem_of_fmap. split.
  - intros ([id row] & -> & Hin). apply elem_of_sort_by, elem_of_select in Hin as [Hrow Hst]. exists row.
    apply negb_true_iff, bool_decide_eq_false in Hst. done.
  - destruct r as [id e]. simpl. intros (row & Hrow & <- & Hst). exists (id, row). split; [done|].
    apply elem_of_sort_by, elem_of_select. split; [done|]. by apply negb_true_iff, bool_decide_eq_false.
Qed.

Lemma list_unresolved_NoDup (s : Store) : NoDup (list_unresolved_operations s).*1.
Proof.
  unfold list_unresolved_operations. rewrite <- list_fmap_compose. apply NoDup_fmap_2_strong.
  - intros [i r1] [j r2] H1 H2. simpl. intros ->.
    apply elem_of_sort_by, elem_of_select in H1 as [H1 _], H2 as [H2 _]. congruence.
  - rewrite sort_by_perm. apply NoDup_filter, NoDup_map_to_list.
Qed.
End Recovery.

(** recovery after a restart submits exactly the prepared operations, each once and in
    the order of their last update, settles each by the outcome of its request, and leaves
    every other row as it was. *)
Theorem recover_submits_prepared `{JN : JsonNumber} env (from_value : Value → result string MutationAdapter.t)
    (from_str : string → option Value) w :
  (∀ id row, st_rows (w_store w) !! id = Some row → oj_state (jr_entry row) = "prepared" →
     ∃ adapter, from_value (oj_intent (jr_entry row)) = Ok adapter) →
  ∃ w', run env (recover from_value from_str) w = (Ok tt, w') ∧
    requests w' = reverse (to_submit from_value (list_unresolved_operations (w_store w))) ++ requests w ∧
    ∀ id, match st_rows (w_store w) !! id with
          | Some row => recovered env from_value true row (st_rows (w_store w') !! id)
          | None => st_rows (w_store w') !! id = None
          end.
Proof.
  intros Hdec. destruct (run_recover_list env from_value from_str (list_unresolved_operations (w_store w)) w)
    as (w' & Hrun & Hreq & Hall).
  - apply list_unresolved_NoDup.
  - intros r (row & ? & ? & ?)%list_unresolved_rows. eauto.
  - intros r (row & ? & <- & ?)%list_unresolved_rows. eauto.
  - exists w'. split; [exact Hrun|]. split; [done|]. intros id. specialize (Hall id).
    destruct (st_rows (w_store w) !! id) as [row|] eqn:Hrow; [|done].
    destruct (decide (oj_state (jr_entry row) = "prepared")) as [Hp|Hp].
    + rewrite bool_decide_eq_true_2 in Hall; [done|]. apply list_elem_of_fmap. exists (id, jr_entry row).
      split; [done|]. apply list_unresolved_rows. exists row. simpl. rewrite Hp. split; [done|]. split; [done|]. compute_done.
    + unfold recovered in *. rewrite decide_False in Hall by naive_solver. by rewrite decide_False by naive_solver.
Qed.

(** recovery gives up at the first prepared operation whose stored intent no longer
    decodes: it returns the error, and none of the operations listed after it is submitted. *)
Theorem recover_stops_at_undecodable `{JN : JsonNumber} env (from_value : Value → result string MutationAdapter.t)
    (from_str : string → option Value) w before id entry after message :
  list_unresolved_operations (w_store w) = before ++ (id, entry) :: after →
  (∀ r, r ∈ before → oj_state r.2 ≠ "prepared") →
  oj_state entry = "prepared" → from_value (oj_intent entry) = Err message →
  run env (recover from_value from_str) w
  = (Err (Operation ("invalid typed durable operation intent: " +:+ message)), w).
Proof.
  intros Hl Hbefore Hst Hdec. assert ((id, entry) ∈ list_unresolved_operations (w_store w)) as Hin by (rewrite Hl; set_solver).
  unfold recover. cbn [run]. rewrite Hl. clear Hl. induction before as [|r before IH].
  - cbn [app each]. rewrite run_bind. simpl. rewrite decide_True by done.
    apply list_unresolved_rows in Hin as (row & Hrow & He & _). simpl in *. subst entry. unfold attempt. cbn [run].
    unfold read_operation. rewrite Hrow. simpl. rewrite decide_False by (rewrite Hst; intros []; done). by rewrite Hdec.
  - cbn [app each]. rewrite run_bind. rewrite decide_False by (apply Hbefore; by left). cbn.
    apply IH. intros r' Hr'. apply Hbefore. by right.
Qed.
