(* ===== verification/OperationEvidence.v ===== *)
(** * Evidence and reconciliation

    An event resolves the operations it proves, in one pass over the rows; and a
    reconciliation before the evidence takes an operation out of the reach of both. *)

From stdpp Require Import gmultiset.
From S2P Require Import Prelude Float64 Json Observations Entities Mutations Operations OperationLogic.
From S2P Require Import OperationFacts OperationOutcomes.
Import Mutation Journal.

(** ** Events *)

Section Resolution.
Context `{JN : JsonNumber} (env : Environment) (event : Event).
Implicit Types (w : World) (row : JournalRow).

(** What the verdict on a row makes of it. *)
Definition judged (now : Z) row : JournalRow :=
  match verdict (jr_entry row) event with
  | Some Failed =>
      {| jr_entry := with_projection "failed" (failure_projection event) (jr_entry row); jr_updated_at := now |}
  | Some next => {| jr_entry := in_state (as_str next) (jr_entry row); jr_updated_at := now |}
  | None => row
  end.

(** A row whose target is one of [targets] is judged. *)
Definition resolved_row (realm : string) (targets : list (string * string)) (now : Z) row : JournalRow :=
  if existsb (λ t : string * string, awaits realm t.1 t.2 (jr_entry row)) targets then judged now row else row.

Lemma verdict_cases entry :
  verdict entry event = None ∨ verdict entry event = Some Completed ∨ verdict entry event = Some Failed.
Proof. unfold verdict. repeat case_match; auto. Qed.

(** Worlds that differ in their rows, and in what was published. *)
Definition rows_become (f : gmap string JournalRow → gmap string JournalRow) w w' : Prop :=
  st_rows (w_store w') = f (st_rows (w_store w)) ∧ st_now (w_store w') = st_now (w_store w)
  ∧ requests w' = requests w.

Lemma run_resolve_one id w :
  ∃ w', run env (resolve_one event id) w = (Ok tt, w') ∧
    rows_become (alter (judged (st_now (w_store w))) id) w w'.
Proof.
  unfold resolve_one. cbn [run]. unfold read_operation, judged.
  destruct (st_rows (w_store w) !! id) as [row|] eqn:Hrow; simpl.
  2:{ exists w. split; [done|]. split; [|done]. symmetry. apply map_eq. intros i.
      destruct (decide (i = id)) as [->|]; [by rewrite lookup_alter_eq, Hrow|by rewrite lookup_alter_ne]. }
  assert (∀ s f (w' : World), w_store w' = update_row id f (w_store w) →
    {| jr_entry := f (jr_entry row); jr_updated_at := st_now (w_store w) |} = s row →
    st_rows (w_store w') = alter s id (st_rows (w_store w))) as Hupd.
  { intros s f w' -> Hs. apply map_eq. intros i. rewrite lookup_update_row.
    destruct (decide (i = id)) as [->|]; [by rewrite lookup_alter_eq, Hrow; simpl; rewrite Hs|by rewrite lookup_alter_ne]. }
  destruct (verdict_cases (jr_entry row)) as [Hv|[Hv|Hv]]; rewrite Hv; simpl.
  - exists w. split; [done|]. split; [|done]. symmetry. apply map_eq. intros i.
    destruct (decide (i = id)) as [->|]; [|by rewrite lookup_alter_ne]. rewrite lookup_alter_eq, Hrow. simpl. by rewrite Hv.
  - eexists. split; [reflexivity|]. split; [|done]. eapply Hupd; [reflexivity|]. simpl. by rewrite Hv.
  - eexists. split; [reflexivity|]. split; [|done]. eapply Hupd; [reflexivity|]. simpl. by rewrite Hv.
Qed.

Lemma run_resolve_all ids w :
  NoDup ids →
  ∃ w', run env (each (resolve_one event) ids) w = (Ok tt, w') ∧
    rows_become (map_imap (λ i row, Some (if decide (i ∈ ids) then judged (st_now (w_store w)) row else row))) w w'.
Proof.
  revert w. induction ids as [|id ids IH]; intros w Hnd.
  - exists w. split; [done|]. split; [|done]. symmetry. apply map_eq. intros i. rewrite map_lookup_imap.
    destruct (st_rows (w_store w) !! i); done.
  - apply NoDup_cons in Hnd as [Hid Hnd]. destruct (run_resolve_one id w) as (w1 & Hrun & Hr1 & Hn1 & Hq1).
    destruct (IH w1 Hnd) as (w' & Hrun' & Hr' & Hn' & Hq'). exists w'.
    split; [by rewrite (run_each_ok env _ _ _ _ w1)|]. split; [|split; congruence].
    rewrite Hr', Hr1, Hn1. apply map_eq. intros i. rewrite !map_lookup_imap.
    destruct (decide (i = id)) as [->|Hi].
    + rewrite lookup_alter_eq. destruct (st_rows (w_store w) !! id); simpl; [|done].
      rewrite decide_False by done. by rewrite decide_True by (by left).
    + rewrite lookup_alter_ne by done. destruct (st_rows (w_store w) !! i); simpl; [|done]. f_equal.
      destruct (decide (i ∈ ids)); [by rewrite decide_True by (by right)|]. rewrite decide_False; [done|]. set_solver.
Qed.

Lemma find_awaiting_elem realm kind target (s : Store) i :
  i ∈ find_operations_awaiting_evidence realm kind target s ↔
  ∃ row, st_rows s !! i = Some row ∧ awaits realm kind target (jr_entry row) = true.
Proof.
  unfold find_operations_awaiting_evidence. rewrite list_elem_of_fmap. split.
  - intros ([k row] & -> & Hin). apply elem_of_select in Hin. eauto.
  - intros (row & Hrow). exists (i, row). split; [done|]. by apply elem_of_select.
Qed.

Lemma find_awaiting_NoDup realm kind target (s : Store) :
  NoDup (find_operations_awaiting_evidence realm kind target s).
Proof.
  unfold find_operations_awaiting_evidence. apply NoDup_fmap_fst.
  - intros i r1 r2 [H1 _]%elem_of_select [H2 _]%elem_of_select. congruence.
  - unfold select. apply NoDup_filter, NoDup_map_to_list.
Qed.

Lemma run_mark_resolved realm kind target w :
  ∃ w', run env (mark_resolved realm kind target event) w = (Ok tt, w') ∧
    rows_become (fmap (resolved_row realm [(kind, target)] (st_now (w_store w)))) w w'.
Proof.
  unfold mark_resolved. cbn [run].
  destruct (run_resolve_all (find_operations_awaiting_evidence realm kind target (w_store w)) w)
    as (w' & Hrun & Hr & Hrest); [apply find_awaiting_NoDup|].
  exists w'. split; [done|]. split; [|done]. rewrite Hr. apply map_eq. intros i.
  rewrite map_lookup_imap, lookup_fmap. destruct (st_rows (w_store w) !! i) as [row|] eqn:Hrow; simpl; [|done].
  f_equal. unfold resolved_row. simpl. rewrite orb_false_r. case_decide as Hin.
  - apply find_awaiting_elem in Hin as (row' & ? & Ha). assert (row' = row) as -> by congruence. by rewrite Ha.
  - destruct (awaits realm kind target (jr_entry row)) eqn:Ha; [|done]. exfalso. apply Hin, find_awaiting_elem. eauto.
Qed.

(** A judged row either kept its entry or no longer awaits evidence. *)
Lemma judged_awaits now row realm kind target :
  awaits realm kind target (jr_entry (judged now row)) = true → judged now row = row.
Proof.
  unfold judged. destruct (verdict_cases (jr_entry row)) as [E|[E|E]]; rewrite E; [done| |]; unfold awaits; simpl; intros; done.
Qed.

Lemma resolved_row_cons realm t targets now row :
  resolved_row realm (t :: targets) now row = resolved_row realm targets now (resolved_row realm [t] now row).
Proof.
  unfold resolved_row. simpl. rewrite orb_false_r. destruct (awaits realm t.1 t.2 (jr_entry row)) eqn:Ha; simpl; [|done].
  destruct (existsb _ targets) eqn:He; [|done]. apply existsb_exists in He as (u & Hu & Hj).
  by rewrite !(judged_awaits _ _ _ _ _ Hj).
Qed.

Lemma run_resolve_targets realm targets w :
  ∃ w', run env (each (λ t : string * string, mark_resolved realm t.1 t.2 event) targets) w = (Ok tt, w') ∧
    rows_become (fmap (resolved_row realm targets (st_now (w_store w)))) w w'.
Proof.
  revert w. induction targets as [|t targets IH]; intros w.
  - exists w. split; [done|]. split; [|done]. unfold resolved_row. simpl. by rewrite map_fmap_id.
  - destruct (run_mark_resolved realm t.1 t.2 w) as (w1 & Hrun & Hr1 & Hn1 & Hq1).
    destruct (IH w1) as (w' & Hrun' & Hr' & Hn' & Hq'). exists w'.
    split; [by rewrite (run_each_ok env _ _ _ _ w1)|]. split; [|split; congruence].
    rewrite Hr', Hr1, Hn1, <- map_fmap_compose. apply map_fmap_ext. intros i row _. simpl.
    rewrite (resolved_row_cons realm t). by destruct t.
Qed.
End Resolution.


(** an event resolves only what followed the submission: a row whose submission recorded
    no cursor, or a cursor at or after the event, is left alone, as is a row in any state but
    [awaiting_evidence] - an ambiguous operation is never resolved by an event. *)
Theorem event_needs_later_cursor `{JN : JsonNumber} env event w w' id row :
  run env (resolve_awaiting_evidence event) w = (Ok tt, w') →
  st_rows (w_store w) !! id = Some row →
  (∀ cursor, oj_submission_cursor (jr_entry row) = Some cursor → String.leb (ev_id event) cursor = true)
    ∨ oj_state (jr_entry row) ≠ "awaiting_evidence" →
  st_rows (w_store w') !! id = Some row.
Proof.
  intros Hrun Hrow Hor. unfold resolve_awaiting_evidence in Hrun. destruct (ev_realm event) as [realm|]; [|by injection Hrun as <-].
  destruct (run_resolve_targets env event (realm_key realm) (event_targets event) w) as (w1 & Hrun1 & Hr & _).
  rewrite Hrun in Hrun1. injection Hrun1 as <-. rewrite Hr, lookup_fmap, Hrow. simpl. f_equal.
  unfold resolved_row. destruct (existsb _ _) eqn:He; [|done]. destruct Hor as [Hcur|Hst].
  - unfold judged, verdict, event_evidence_matches, event_failure_evidence_matches, event_matches_named_evidence.
    destruct (oj_submission_cursor (jr_entry row)) as [cursor|]; [|done]. by rewrite Hcur.
  - apply existsb_exists in He as (t & _ & Ha). unfold awaits in Ha. rewrite bool_decide_eq_false_2 in Ha by done. done.
Qed.

(** ** Reconciliation *)

(** A mutation that only events can complete: no target state is expected, and it is neither
    a configuration nor a retrieval, which have their own checks. *)
Definition evidence_only `{JN : JsonNumber} (adapter : MutationAdapter.t) : bool :=
  match adapter with
  | MutationAdapter.DeviceConfigure _ _ | MutationAdapter.DeviceRetrieve _ => false
  | MutationAdapter.ReplicantUpdate _ request => bool_decide (ru_name request = None)
  | _ => true
  end.

Section Stranded.
Context `{JN : JsonNumber} (id : string) (adapter : MutationAdapter.t) (intent : Value).
Hypothesis Honly : evidence_only adapter = true.
Hypothesis Hintent : intent_of adapter = Ok intent.

Lemma evidence_only_expected :
  (evidence ← get intent "evidence"; get evidence "expected_state") = Some Null.
Proof.
  rewrite (intent_of_evidence _ _ Hintent). cbn [mbind option_bind].
  unfold operation_evidence. destruct adapter; try done.
  - destruct command; try done. simpl. by case_decide.
  - simpl in *. by destruct (ru_name request).
  - by destruct (pr_command request), (pr_device_type request).
  - by destruct (tv_dry_run request) as [[]|], (tv_destination request).
Qed.

Lemma evidence_only_kind :
  get_str intent "kind" ≠ Some "device_configure" ∧ get_str intent "kind" ≠ Some "device_retrieve".
Proof. rewrite (intent_of_kind _ _ Hintent). by destruct adapter. Qed.

Lemma evidence_only_snapshot entry snapshot :
  oj_intent entry = intent → snapshot_matches entry snapshot = false.
Proof.
  intros He. unfold snapshot_matches, intent_kind. destruct snapshot as [snapshot|]; [|done].
  rewrite He, evidence_only_expected. rewrite bool_decide_eq_false_2 by apply evidence_only_kind. done.
Qed.

(** The row is stuck. *)
Definition stranded (w : World) : Prop :=
  ∃ row, st_rows (w_store w) !! id = Some row ∧ oj_state (jr_entry row) = "reconciliation_required" ∧
    oj_intent (jr_entry row) = intent.

Lemma stranded_log h w : stranded w → stranded (logged h w).
Proof. done. Qed.

Lemma stranded_update i f w :
  i ≠ id ∨ (∀ e, oj_state (f e) = "reconciliation_required" ∧ oj_intent (f e) = oj_intent e) →
  stranded w → stranded (on_store (update_row i f) w).
Proof.
  intros Hor (row & Hrow & Hst & Hi). unfold stranded. cbn [w_store on_store]. rewrite lookup_update_row.
  destruct (decide (id = i)) as [<-|]; [|by eauto]. destruct Hor as [?|Hf]; [done|]. rewrite Hrow. simpl.
  eexists. split; [done|]. simpl. split; [apply Hf|]. by rewrite (proj2 (Hf _)).
Qed.

Lemma stranded_record i state realm kind target n w :
  stranded w → stranded (do_record i state realm kind target n w).2.
Proof.
  intros (row & Hrow & Hs). destruct (do_record_spec i state realm kind target n w)
    as [(r & Hr & ->)|(Hnone & r & _ & _ & _ & ->)]; [by exists row|].
  exists row. split; [|done]. cbn. rewrite lookup_insert_ne; [done|]. intros ->. congruence.
Qed.

Lemma stranded_claim i attempt_id w :
  stranded w → stranded (do_claim i attempt_id w).2 ∧ ((do_claim i attempt_id w).1 = true → i ≠ id).
Proof.
  intros Hw. destruct (do_claim_spec i attempt_id w) as [(r & Hr & Hst & ->)| ->]; [|done]. simpl.
  assert (i ≠ id) by (intros ->; destruct Hw as (row & ? & ? & _); congruence).
  split; [|done]. apply stranded_log. apply stranded_update; [by left|done].
Qed.

Context (from_value : Value → result string MutationAdapter.t) (from_str : string → option Value).
Abbreviation returned := (λ (L' : gmultiset string) (w' : World) _, L' = ∅ ∧ True).

Lemma stranded_classify i entry a expects outcome w0 :
  i ≠ id → wp stranded ∅ w0 (classify from_str i entry a expects outcome) (λ L _ _, L = ∅).
Proof.
  intros Hi. unfold classify. destruct outcome as [response|error]; cbn.
  - intros w1 _ H1. split; [apply stranded_update; [by left|done]|]. intros w2 _ H2. split; [done|].
    destruct (is_retrieve a); cbn.
    + intros []; cbn; [|done]. intros w3 _ H3. split; [apply stranded_update; [by left|done]|]. done.
    + destruct (oj_target_realm entry), (oj_target_kind entry), (oj_target_id entry); done.
  - destruct (is_ambiguous_mutation_outcome error); cbn; intros w1 _ H1;
      (split; [apply stranded_update; [by left|done]|]); done.
Qed.

Lemma stranded_attempt i w0 :
  wp stranded ∅ w0 (attempt from_value from_str i) (λ L _ _, L = ∅).
Proof.
  unfold attempt. simpl. intros w _ Hw. destruct (read_operation i (w_store w)) as [entry|]; [|done].
  case_decide; [done|]. destruct (from_value _) as [a|e]; [|done]. simpl. intros attempt_id w1 _ H1.
  destruct (stranded_claim i attempt_id w1 H1) as [H1' Hi]. split; [done|].
  destruct (do_claim i attempt_id w1) as [[] w1']; simpl in *; [|done]. intros w2 _ H2. split; [done|].
  split; [set_solver|]. intros w3 _ H3. split; [done|]. intros answer.
  replace (({[+ i +]} ⊎ ∅) ∖ {[+ i +]} : gmultiset string) with (∅ : gmultiset string) by multiset_solver.
  apply stranded_classify. auto.
Qed.

Lemma stranded_create a supplied_id w0 :
  wp stranded ∅ w0 (create_with_id from_value from_str a supplied_id) (λ L _ _, L = ∅).
Proof.
  assert (∀ i w, wp stranded ∅ w (_ ← attempt from_value from_str i; mret i) (λ L _ _, L = ∅)) as Hatt.
  { intros. apply wp_bind. eapply wp_mono; [apply stranded_attempt|]. by intros L ? ? ->. }
  unfold create_with_id. intros []; [|done]. simpl.
  destruct supplied_id as [i|]; [|intros i]; simpl; (destruct (intent_of a); [|done]);
    destruct (target_columns a) as [[realm kind] target]; intros w _ Hw; (split; [by apply stranded_record|]);
    (destruct (do_record _ _ _ _ _ _ _) as [[e|] w']; simpl; [destruct (identity_matches _ _ _ _ _); [|done]|]; apply Hatt).
Qed.

Lemma stranded_outcome i w0 : wp stranded ∅ w0 (outcome i) (λ L _ _, L = ∅).
Proof. unfold outcome, load. intros []; [|done]. simpl. intros w _ Hw. by destruct (read_operation _ _). Qed.

Lemma stranded_reconcile i w0 : wp stranded ∅ w0 (reconcile i) (λ L _ _, L = ∅).
Proof.
  unfold reconcile, load. intros []; [|done]. simpl. intros w _ Hw.
  destruct (read_operation i (w_store w)) as [entry|] eqn:Hread; [|done]. simpl.
  assert (i = id → oj_intent entry = intent) as He.
  { intros ->. apply read_operation_Some in Hread as (row & Hrow & <-). destruct Hw as (row' & ? & ? & ?). congruence. }
  destruct (decide (i = id)) as [Hi|Hi].
  - specialize (He Hi). unfold intent_kind. rewrite He. rewrite (bool_decide_eq_false_2 (_ = Some "device_retrieve")) by apply evidence_only_kind.
    rewrite andb_false_r. apply wp_bind. apply (wp_mono _ _ _ _ (λ L _ _, L = ∅)).
    { unfold refresh_target. destruct (oj_target_kind entry); [|done]. case_decide; [done|].
      destruct (oj_target_id entry); [|done]. repeat case_decide; done. }
    intros L w1 snapshot ->. destruct (is_terminal _); simpl; [apply stranded_outcome|].
    rewrite evidence_only_snapshot by done. intros w2 _ H2. split; [apply stranded_update; [by right|done]|].
    intros w3 _ H3. split; [done|]. apply stranded_outcome.
  - clear He. destruct (bool_decide _ && bool_decide _).
    + intros []; simpl; [|apply stranded_outcome]. intros w1 _ H1. split; [apply stranded_update; [by left|done]|].
      intros w2 _ H2. split; [done|]. apply stranded_outcome.
    + apply wp_bind. apply (wp_mono _ _ _ _ (λ L _ _, L = ∅)).
      { unfold refresh_target. destruct (oj_target_kind entry); [|done]. case_decide; [done|].
        destruct (oj_target_id entry); [|done]. repeat case_decide; done. }
      intros L w1 snapshot ->. destruct (is_terminal _); simpl; [apply stranded_outcome|].
      intros w2 _ H2. split; [apply stranded_update; [by left|done]|]. intros w3 _ H3. split; [done|]. apply stranded_outcome.
Qed.

Lemma stranded_resolve event w0 : wp stranded ∅ w0 (resolve_awaiting_evidence event) (λ L _ _, L = ∅).
Proof.
  unfold resolve_awaiting_evidence. destruct (ev_realm event) as [realm|]; [|done].
  eapply (wp_mono _ _ _ _ (λ L w' _, L = ∅ ∧ extends w0 w')); [|naive_solver]. apply wp_each.
  intros [kind target] _ w _. unfold mark_resolved. simpl. intros w1 H1 Hw1.
  eapply wp_mono; [apply wp_each|intros ? ? ? [-> ?]; split; [done|grows]].
  intros i Hin w2 H2. assert (i ≠ id) as Hi.
  { intros ->. apply find_awaiting_elem in Hin as (row & Hrow & Ha). destruct Hw1 as (row' & ? & Hst & _).
    assert (row' = row) as -> by congruence. unfold awaits in Ha. by rewrite Hst in Ha. }
  unfold resolve_one. simpl. intros w3 H3 Hw3. destruct (read_operation i (w_store w3)) as [entry|]; [|split; [done|grows]].
  destruct (verdict entry event) as [next|]; [|split; [done|grows]].
  case_decide; simpl; intros w4 H4 Hw4; (split; [apply stranded_update; [by left|done]|]);
    intros w5 H5 Hw5; (split; [done|]); (split; [done|grows]).
Qed.

Lemma stranded_recover w0 : wp stranded ∅ w0 (recover from_value from_str) (λ L _ _, L = ∅).
Proof.
  assert (∀ l w, wp stranded ∅ w (each (recover_one from_value from_str) l) (λ L _ _, L = ∅)) as Hl.
  { induction l as [|[i e] l IH]; intros w; [done|]. cbn [each]. apply wp_bind.
    apply (wp_mono _ _ _ _ (λ L _ _, L = ∅)); [|by intros L w' ? ->].
    unfold recover_one. case_decide; [apply stranded_attempt|done]. }
  intros w _ Hw. apply Hl.
Qed.

#[local] Instance stranded_kept : Kept stranded from_value from_str.
Proof.
  assert (∀ {A} (p : Prog A) w, wp stranded ∅ w p (λ L _ _, L = ∅) → wp stranded ∅ w (discard p) (λ _ _ _, True)) as Hdiscard.
  { intros. apply wp_bind. by eapply wp_mono. }
  assert (∀ devices code command (p : Prog string) w, wp stranded ∅ w p (λ L _ _, L = ∅) →
    wp stranded ∅ w (capability_checked devices code command p) (λ L _ _, L = ∅)) as Hcap.
  { intros. unfold capability_checked. by destruct (check_device_capability _ _ _). }
  split.
  - intros p w [a supplied_id|devices code command|devices code command i|code simulation_id|confirm|i|event|].
    + apply Hdiscard, stranded_create.
    + apply Hdiscard, Hcap, stranded_create.
    + apply Hdiscard, Hcap, stranded_create.
    + apply Hdiscard, wp_bind. eapply wp_mono; [apply stranded_create|]. intros L w1 i ->. done.
    + apply Hdiscard. intros []; [|done]. simpl. intros w1 _ H1. case_decide; [apply stranded_create|done].
    + apply Hdiscard, stranded_reconcile.
    + eapply wp_mono; [apply stranded_resolve|done].
    + eapply wp_mono; [apply stranded_recover|done].
  - intros w (row & Hrow & Hst & Hi). unfold stranded. cbn [w_store on_store]. rewrite lookup_promote, Hrow. simpl.
    eexists. split; [done|]. rewrite Hst. rewrite bool_decide_eq_false_2 by done. done.
  - intros w (row & Hrow & Hst & Hi). exists row. split; [|done]. cbn [w_store]. apply lookup_prune. split; [done|].
    unfold expired. rewrite Hst. by rewrite bool_decide_eq_false_2 by naive_solver.
  - intros w cursor account now Hw. done.
Qed.
End Stranded.

(** a reconciliation of an operation that only events can complete never completes it:
    unless the operation is final already, it leaves it in [reconciliation_required] - also
    one that still awaits its evidence - with intent, cursor and projection as they were,
    makes no request but the refresh, and reports that state. *)
Theorem reconcile_never_completes_event_operation `{JN : JsonNumber} env id adapter row w :
  env_open env = true → st_rows (w_store w) !! id = Some row →
  evidence_only adapter = true → intent_of adapter = Ok (oj_intent (jr_entry row)) →
  ∃ w', run env (reconcile id) w = (Ok {| oo_status :=
      if is_terminal (parse (oj_state (jr_entry row))) then parse (oj_state (jr_entry row)) else ReconciliationRequired;
      oo_response := oj_projection (jr_entry row) |}, w') ∧ requests w' = requests w ∧
    st_rows (w_store w') =
      if is_terminal (parse (oj_state (jr_entry row))) then st_rows (w_store w)
      else <[id := {| jr_entry := in_state "reconciliation_required" (jr_entry row); jr_updated_at := st_now (w_store w) |}]>
             (st_rows (w_store w)).
Proof.
  intros Hopen Hrow Honly Hint. unfold reconcile. rewrite run_bind. cbn [ensure_open run]. rewrite Hopen. cbn [done mret prog_ret run].
  rewrite run_bind. cbn [load run]. unfold read_operation at 1. rewrite Hrow. cbn [fmap option_fmap option_map mret prog_ret run].
  unfold intent_kind. rewrite (bool_decide_eq_false_2 (_ = Some "device_retrieve")) by by eapply evidence_only_kind.
  rewrite andb_false_r, run_bind.
  assert (∃ snapshot, run env (refresh_target (jr_entry row)) w = (Ok snapshot, w)) as [snapshot ->].
  { unfold refresh_target. destruct (oj_target_kind _); [|by eexists]. case_decide; [by eexists|].
    destruct (oj_target_id _); [|by eexists]. repeat case_decide; by eexists. }
  rewrite run_bind. destruct (is_terminal (parse (oj_state (jr_entry row)))).
  - simpl. rewrite Hopen. simpl. unfold read_operation. rewrite Hrow. simpl. by eexists.
  - rewrite (evidence_only_snapshot adapter (oj_intent (jr_entry row))) by done. simpl. rewrite Hopen. simpl. unfold read_operation.
    simpl. rewrite lookup_alter_eq, Hrow. simpl.
    eexists. split; [done|]. split; [done|]. by apply update_row_insert.
Qed.

(** C25: [reconciliation_required] is final for an operation that only events can complete:
    from a reachable store with no program under way, no sequence of events,
    reconciliations, recoveries, restarts and new operations moves it out of that state, so
    it is never reported completed and its row is never pruned. *)
Theorem reconciliation_required_is_final `{JN : JsonNumber} (from_value : Value → result string MutationAdapter.t)
    (from_str : string → option Value) w s id adapter row :
  reachable from_value from_str {| sy_world := w; sy_tasks := [] |} →
  st_rows (w_store w) !! id = Some row → oj_state (jr_entry row) = "reconciliation_required" →
  evidence_only adapter = true → intent_of adapter = Ok (oj_intent (jr_entry row)) →
  rtc (step from_value from_str) {| sy_world := w; sy_tasks := [] |} s →
  ∃ row', st_rows (w_store (sy_world s)) !! id = Some row' ∧
    oj_state (jr_entry row') = "reconciliation_required" ∧ oj_intent (jr_entry row') = oj_intent (jr_entry row).
Proof.
  intros Hreach Hrow Hst Honly Hint Hsteps.
  assert (sound (stranded id (oj_intent (jr_entry row))) s) as [Hs _]; [|exact Hs].
  eapply steps_sound; [eapply (stranded_kept id adapter); done|exact Hsteps|].
  apply reachable_sound in Hreach as (_ & Ls & HF & Hc). split; [by exists row|]. exists []. split; [constructor|].
  intros i. specialize (Hc i). unfold licences in *. simpl in *. lia.
Qed.

(** ** Configuration *)

(** What a tag-only configuration asks of the tags of a device. *)
Record tags_applied `{JN : JsonNumber} (configuration : DeviceConfiguration) (tags : list string) : Prop := {
  ta_linked : dc_linked_device configuration = Omitted;
  ta_removed t : (∃ l, dc_remove_tags configuration = Some l ∧ t ∈ l) → t ∉ tags;
  ta_added t : (∃ l, dc_add_tags configuration = Some l ∧ t ∈ l) → t ∈ tags;
  ta_exact l : dc_tags configuration = Some l → ∀ t, t ∈ l ↔ t ∈ tags;
}.

Section Configuration.
Context `{JN : JsonNumber}.

Lemma has_tag_texts tags t : has_tag (Text <$> tags) (Text t) = bool_decide (t ∈ tags).
Proof.
  unfold has_tag. simpl. induction tags as [|u tags IH]; [done|]. rewrite fmap_cons. simpl. rewrite IH.
  destruct (decide (u = t)) as [->|Hne].
  - rewrite (bool_decide_eq_true_2 (Some t = Some t)) by done. symmetry. apply bool_decide_eq_true_2. by left.
  - rewrite (bool_decide_eq_false_2 (Some u = Some t)) by congruence. simpl. apply bool_decide_ext.
    rewrite elem_of_cons. naive_solver.
Qed.

Lemma existsb_texts (f : Value → bool) l : existsb f (Text <$> l) = existsb (λ t, f (Text t)) l.
Proof. induction l as [|t l IH]; [done|]. rewrite fmap_cons. simpl. by rewrite IH. Qed.

Lemma omap_texts (l : list string) : omap Json.as_str (Text <$> l) = l.
Proof. induction l as [|t l IH]; [done|]. rewrite fmap_cons. simpl. by f_equal. Qed.

Abbreviation text_list := (fmap (M := list) Text).

Lemma field_array_texts (o : option (list string)) (key : string) (object : Object_) :
  get_field object key = fmap (M := option) texts o → field_array object key = fmap (M := option) text_list o.
Proof. intros H. unfold field_array. rewrite H. by destruct o. Qed.

Lemma configuration_of code request intent :
  intent_of (MutationAdapter.DeviceConfigure code request) = Ok intent →
  (r ← get intent "request"; c ← get r "configuration"; as_object c)
  = Some (configuration_value (cf_configuration request)).
Proof.
  unfold intent_of. destruct (durable_intent _) as [object|] eqn:Hd; [|done]. intros [= <-].
  apply get_field_durable in Hd as ->. unfold get. cbn [as_object mbind option_bind].
  rewrite !get_insert_ne by done. unfold adapter_object. rewrite get_object_of. cbn [first_field adapter_fields].
  rewrite !decide_False, decide_True by done. cbn [as_object mbind option_bind]. rewrite get_object_of. cbn [first_field].
  by rewrite decide_True by done.
Qed.
End Configuration.

(** reconciliation judges a configuration by its tags: for the durable intent of any
    configuration request and a snapshot that lists the tags of the device, the check holds
    exactly when the request leaves the link alone, every tag to remove is absent, every
    tag to add is present, and a tag list to set is the list of the device - whatever the
    settings of the request. *)
Theorem configuration_judged_by_tags `{JN : JsonNumber} code request entry snapshot tags :
  intent_of (MutationAdapter.DeviceConfigure code request) = Ok (oj_intent entry) →
  get_array snapshot "tags" = Some (Text <$> tags) →
  device_configuration_applied entry snapshot = true ↔ tags_applied (cf_configuration request) tags.
Proof.
  intros Hint Htags. unfold device_configuration_applied.
  rewrite (intent_of_kind _ _ Hint), (configuration_of _ _ _ Hint), Htags. simpl.
  set (c := cf_configuration request).
  assert (get_field (configuration_value c) "linked_device" = update_value Text (dc_linked_device c)) as ->.
  { unfold configuration_value. rewrite get_object_of. destruct c as [[] [] [] [] []]; reflexivity. }
  rewrite (field_array_texts (dc_remove_tags c)), (field_array_texts (dc_add_tags c)), (field_array_texts (dc_tags c));
    [|unfold configuration_value; rewrite get_object_of; destruct c as [[] [] [] [] []]; reflexivity..].
  assert (dc_linked_device c = Omitted ∨ dc_linked_device c ≠ Omitted) as [Hl|Hl] by (destruct (dc_linked_device c); auto).
  2:{ rewrite bool_decide_eq_true_2 by (destruct (dc_linked_device c); [done|by eexists..]).
      split; [done|]. by intros []. }
  rewrite Hl. cbn [update_value]. rewrite bool_decide_eq_false_2 by (by intros [? ?]).
  assert ((match fmap (M := option) (fmap (M := list) Text) (dc_remove_tags c) with Some r => existsb (has_tag (Text <$> tags)) r | None => false end) = true
    ↔ ∃ t, (∃ l, dc_remove_tags c = Some l ∧ t ∈ l) ∧ t ∈ tags) as Hrem.
  { destruct (dc_remove_tags c) as [l|]; simpl; [|naive_solver]. rewrite existsb_texts, existsb_exists.
    setoid_rewrite has_tag_texts. setoid_rewrite bool_decide_eq_true. setoid_rewrite <- list_elem_of_In. naive_solver. }
  assert ((match fmap (M := option) (fmap (M := list) Text) (dc_add_tags c) with Some a => existsb (λ tag, negb (has_tag (Text <$> tags) tag)) a | None => false end) = true
    ↔ ∃ t, (∃ l, dc_add_tags c = Some l ∧ t ∈ l) ∧ t ∉ tags) as Hadd.
  { destruct (dc_add_tags c) as [l|]; simpl; [|naive_solver]. rewrite existsb_texts, existsb_exists.
    setoid_rewrite has_tag_texts. setoid_rewrite negb_true_iff. setoid_rewrite bool_decide_eq_false.
    setoid_rewrite <- list_elem_of_In. naive_solver. }
  destruct (match fmap (M := option) (fmap (M := list) Text) (dc_remove_tags c) with Some _ => _ | None => _ end).
  { split; [done|]. intros []. destruct Hrem as [(t & Ht & Hin) _]; [done|]. by destruct (ta_removed0 t Ht). }
  destruct (match fmap (M := option) (fmap (M := list) Text) (dc_add_tags c) with Some _ => _ | None => _ end).
  { split; [done|]. intros []. destruct Hadd as [(t & Ht & Hin) _]; [done|]. by destruct Hin; apply ta_added0. }
  assert (match fmap (M := option) (fmap (M := list) Text) (dc_tags c) with
          | Some expected => bool_decide (list_to_set (C := gset string) (omap Json.as_str (Text <$> tags))
                                          = list_to_set (omap Json.as_str expected))
          | None => true end = true ↔ (∀ l, dc_tags c = Some l → ∀ t, t ∈ l ↔ t ∈ tags)) as ->.
  { destruct (dc_tags c) as [l|]; simpl; [|naive_solver]. rewrite bool_decide_eq_true, !omap_texts, set_eq.
    setoid_rewrite elem_of_list_to_set. split; [intros H l' [= <-] t; symmetry; apply H|intros H t; symmetry; by apply H]. }
  split; [|by intros []]. intros He. split; [done|..|done].
  - intros t Ht Hin. assert (false = true); [|done]. apply Hrem. eauto.
  - intros t Ht. destruct (decide (t ∈ tags)); [done|]. assert (false = true); [|done]. apply Hadd. eauto.
Qed.
