(* ===== verification/OperationWitnesses.v ===== *)
(** * Concrete operations

    The theorems on the operation journal applied to a journey, a configuration and a store
    with rows left by a crash. *)

From S2P Require Import Prelude Float64 Json Observations Entities Mutations Operations OperationLogic.
From S2P Require Import OperationFacts OperationOutcomes OperationEvidence.
Import Mutation Journal.

#[local] Existing Instance integer_numbers.

(** ** The world *)

Definition journey : MutationAdapter.t :=
  MutationAdapter.ReplicantTravel "R1"
    {| tv_destination := Some "SOL-3"; tv_dry_run := None; tv_notify := None; tv_via := None |}.

Definition journey_plan : Value := operation_evidence journey.
Definition journey_intent : Value :=
  Object [("evidence", journey_plan); ("expects_evidence", Bool true); ("kind", Text "replicant_travel");
          ("rate_limit_bucket", Text "replicant_travel"); ("replicant_code", Text "R1");
          ("request", Object [("destination", Text "SOL-3")])].

Lemma journey_intent_eq : intent_of journey = Ok journey_intent.
Proof. reflexivity. Qed.

Definition retag : MutationAdapter.t :=
  MutationAdapter.DeviceConfigure "D1"
    {| cf_configuration := {| dc_add_tags := Some ["ore"]; dc_remove_tags := Some ["idle"]; dc_tags := None;
                              dc_settings := None; dc_linked_device := Omitted |} |}.
Definition retag_intent : Value := match intent_of retag with Ok v => v | Err _ => Null end.

(** A decoder of these two. *)
Definition decode_known (v : Value) : result string MutationAdapter.t :=
  if decide (v = journey_intent) then Ok journey else Err "missing field".
Definition no_json (_ : string) : option Value := None.

Lemma decode_journey : decode_known journey_intent = Ok journey.
Proof. unfold decode_known. by rewrite decide_True. Qed.

(** The server accepts everything. *)
Definition outside_world : Environment :=
  {| env_open := true; env_uuid := λ _, "uuid"; env_submit := λ _ _, Ok Null; env_refresh_devices := true;
     env_device := λ _, None; env_replicant := λ _, None |}.

Definition start_journey : Prog unit := discard (create_with_id decode_known no_json journey (Some "op")).
Definition departed : World := (run outside_world start_journey empty_world).2.
Definition departed_system : System := {| sy_world := departed; sy_tasks := [Ret (run outside_world start_journey empty_world).1] |}.

Lemma departed_reachable : reachable decode_known no_json departed_system.
Proof. apply run_reachable; [constructor|apply rtc_refl]. Qed.

Lemma departed_requests : requests departed = [("op", journey)].
Proof. reflexivity. Qed.

Lemma departed_sent : Sent "op" journey ∈ w_log departed.
Proof.
  assert (("op", journey) ∈ requests departed) as (h & Hin & Hh)%list_elem_of_omap by (rewrite departed_requests; by left).
  destruct h; try discriminate Hh. by injection Hh as <- <-.
Qed.

Definition departed_row : JournalRow :=
  default (new_row journey journey_intent 0) (st_rows (w_store departed) !! "op").

Lemma departed_lookup : st_rows (w_store departed) !! "op" = Some departed_row.
Proof. reflexivity. Qed.

Lemma departed_intent : oj_intent (jr_entry departed_row) = journey_intent.
Proof. reflexivity. Qed.

(** ** Interleaving *)


Lemma sent_mutation_was_recorded_witness :
  ∃ intent, Recorded "op" intent ∈ w_log (sy_world departed_system) ∧ decode_known intent = Ok journey ∧
    contains_secret intent = false.
Proof.
  exact (sent_mutation_was_recorded decode_known no_json departed_system "op" journey departed_reachable departed_sent).
Defined.

Lemma state_tells_submission_witness :
  Claimed "op" ∈ w_log (sy_world departed_system).
Proof.
  eapply (state_tells_submission decode_known no_json departed_system "op" departed_row departed_reachable departed_lookup).
  right. by left.
Defined.

(** ** One operation *)

Lemma create_submits_once_witness :
  ∃ w' row, run outside_world (create_with_id decode_known no_json journey None) empty_world = (Ok "uuid", w') ∧
    st_rows (w_store w') = <["uuid" := row]> (st_rows (w_store empty_world)) ∧
    requests w' = ("uuid", journey) :: requests empty_world ∧
    oj_intent (jr_entry row) = journey_intent ∧
    oj_submission_cursor (jr_entry row) = st_cursor (w_store empty_world) ∧
    oj_state (jr_entry row) = "awaiting_evidence" ∧ oj_projection (jr_entry row) = Some Null.
Proof.
  exact (create_submits_once outside_world decode_known no_json journey None journey_intent empty_world
    eq_refl eq_refl journey_intent_eq decode_journey).
Defined.

Lemma create_reuses_identity_witness :
  run outside_world (create_with_id decode_known no_json journey (Some "op")) departed = (Ok "op", departed) ∧
  run outside_world (create_with_id decode_known no_json retag (Some "op")) departed = (Err (collision "op"), departed).
Proof.
  split.
  - rewrite (create_reuses_identity outside_world decode_known no_json journey "op" journey_intent departed_row departed
      eq_refl departed_lookup) by done. by rewrite decide_True.
  - rewrite (create_reuses_identity outside_world decode_known no_json retag "op" retag_intent departed_row departed
      eq_refl departed_lookup) by done. by rewrite decide_False by (by intros []).
Defined.

(** ** After a crash *)

Definition crashed (intent : Value) : World :=
  {| w_store := {| st_rows := {["op" := new_row journey intent 7]}; st_cursor := Some "evt-5"; st_queue := ∅;
                   st_account := None; st_now := 9 |};
     w_log := [Recorded "op" intent] |}.

Lemma recover_submits_prepared_witness :
  ∃ w', run outside_world (recover decode_known no_json) (crashed journey_intent) = (Ok tt, w') ∧
    requests w' = [("op", journey)].
Proof.
  destruct (recover_submits_prepared outside_world decode_known no_json (crashed journey_intent)) as (w' & Hrun & Hreq & _).
  - intros i row Hrow _. unfold crashed in Hrow. cbn [w_store st_rows] in Hrow.
    apply lookup_singleton_Some in Hrow as [<- <-]. exists journey. exact decode_journey.
  - exists w'. split; [exact Hrun|]. exact Hreq.
Defined.

Lemma recover_stops_at_undecodable_witness :
  run outside_world (recover decode_known no_json) (crashed Null)
  = (Err (Operation "invalid typed durable operation intent: missing field"), crashed Null).
Proof.
  apply (recover_stops_at_undecodable outside_world decode_known no_json (crashed Null) [] "op"
    (jr_entry (new_row journey Null 7)) [] "missing field"); [reflexivity| |reflexivity..].
  intros r Hr. by apply not_elem_of_nil in Hr.
Defined.

(** ** Evidence *)

Definition arrival (id : string) : Event :=
  {| ev_id := id; ev_realm := Some Live; ev_name := "travel.arrived"; ev_category := "travel"; ev_device := None;
     ev_replicant := Some {| wk_realm := Live; wk_id := "R1" |}; ev_location := None; ev_star := None;
     ev_occurred_at := "2026-01-01T00:00:00Z"; ev_payload := [("destination", Text "SOL-3")] |}.

(** The journey of a store whose cursor was at [evt-5]. *)
Definition travelling : World := (run outside_world (recover decode_known no_json) (crashed journey_intent)).2.
Definition travelling_row : JournalRow :=
  default (new_row journey journey_intent 0) (st_rows (w_store travelling) !! "op").

(** An event of before the submission does not count; a later one completes the journey. *)
Lemma event_needs_later_cursor_witness :
  let w' := (run outside_world (resolve_awaiting_evidence (arrival "evt-3")) travelling).2 in
  st_rows (w_store w') !! "op" = Some travelling_row ∧
  oj_state (jr_entry travelling_row) = "awaiting_evidence" ∧
  (λ row, oj_state (jr_entry row)) <$>
    st_rows (w_store (run outside_world (resolve_awaiting_evidence (arrival "evt-9")) travelling).2) !! "op"
  = Some "completed".
Proof.
  intros w'. split; [|split; reflexivity].
  apply (event_needs_later_cursor outside_world (arrival "evt-3") travelling w' "op" travelling_row); [reflexivity..|].
  left. intros cursor Hc. assert (cursor = "evt-5") as -> by (vm_compute in Hc; congruence). reflexivity.
Defined.

Definition stuck_journey : World := (run outside_world (discard (reconcile "op")) departed).2.
Definition stuck_row : JournalRow :=
  default (new_row journey journey_intent 0) (st_rows (w_store stuck_journey) !! "op").

Lemma reconcile_never_completes_event_operation_witness :
  ∃ w', run outside_world (reconcile "op") departed
    = (Ok {| oo_status := ReconciliationRequired; oo_response := Some Null |}, w') ∧ requests w' = requests departed ∧
    st_rows (w_store w') = <["op" := {| jr_entry := in_state "reconciliation_required" (jr_entry departed_row);
      jr_updated_at := st_now (w_store departed) |}]> (st_rows (w_store departed)).
Proof.
  exact (reconcile_never_completes_event_operation outside_world "op" journey departed_row departed
    eq_refl departed_lookup eq_refl journey_intent_eq).
Defined.

Lemma stuck_reachable : reachable decode_known no_json {| sy_world := stuck_journey; sy_tasks := [] |}.
Proof.
  assert (reachable decode_known no_json {| sy_world := departed; sy_tasks := [] |}) as Hd.
  { unfold reachable. eapply rtc_r; [exact departed_reachable|]. apply (step_drop _ _ departed [] _ []). }
  unfold reachable. eapply rtc_r; [|apply (step_drop _ _ stuck_journey [] (Ret (run outside_world (discard (reconcile "op")) departed).1) [])].
  apply (run_reachable outside_world decode_known no_json _ departed []); [constructor|exact Hd].
Qed.

(** The journey that was reconciled before its arrival stays unresolved when it arrives. *)
Lemma reconciliation_required_is_final_witness :
  let arrived := run outside_world (resolve_awaiting_evidence (arrival "evt-9")) stuck_journey in
  ∃ row', st_rows (w_store arrived.2) !! "op" = Some row' ∧
    oj_state (jr_entry row') = "reconciliation_required" ∧ oj_intent (jr_entry row') = oj_intent (jr_entry stuck_row).
Proof.
  intros arrived.
  apply (reconciliation_required_is_final decode_known no_json stuck_journey
    {| sy_world := arrived.2; sy_tasks := [Ret arrived.1] |} "op" journey stuck_row stuck_reachable eq_refl eq_refl eq_refl
    journey_intent_eq).
  eapply rtc_l; [apply step_call, call_event|]. apply run_steps.
Defined.

(** ** Configuration *)

Lemma configuration_judged_by_tags_witness :
  device_configuration_applied (jr_entry (new_row retag retag_intent 0)) (Object [("tags", texts ["hub"; "ore"])]) = true.
Proof.
  apply (configuration_judged_by_tags "D1" {| cf_configuration := {| dc_add_tags := Some ["ore"];
    dc_remove_tags := Some ["idle"]; dc_tags := None; dc_settings := None; dc_linked_device := Omitted |} |}
    (jr_entry (new_row retag retag_intent 0)) (Object [("tags", texts ["hub"; "ore"])]) ["hub"; "ore"]); [reflexivity..|].
  split; simpl; [done| | |done].
  - intros t (l & [= <-] & ->%list_elem_of_singleton). compute_done.
  - intros t (l & [= <-] & ->%list_elem_of_singleton). compute_done.
Defined.
