(* ===== verification/EventLog.v ===== *)
(** * The event log of the managed store

    The part of [src/managed/store.rs] that keeps account events: the history database with
    its visibility, the applied cursor, the tables a projection batch is written to, the
    reconciliation queue and the lease of its worker, and of [src/managed/state.rs] the
    publication of an applied event.

    Two databases are involved.  The history row of an event is appended before, and made
    visible after, the transaction of the primary database that writes the batch and
    advances the cursor; the outcome of each of the three is an argument, so a failure
    leaves what was committed before it.  Rows are decoded values; the rows of one table
    with a [rowid] order are a list. *)

From S2P Require Import Prelude Float64 Json Observations Entities Locations.
From S2P Require Import ManagedState Mutations Operations.

(** ** Stream identifiers *)

Fixpoint split_once (s : string) : option (string * string) :=
  match s with
  | EmptyString => None
  | String.String c s =>
      if decide (Ascii.N_of_ascii c = 45)%N then Some ("", s)
      else parts ← split_once s; Some (String.String c parts.1, parts.2)
  end.

(** [parse_event_id]: [<milliseconds>-<sequence>], as two [i64] *)
Definition parse_event_id (value : string) : result StoreError (Z * Z) :=
  match split_once value with
  | None => Err (InvalidEventId value)
  | Some (milliseconds, sequence) =>
      if bool_decide (is_Some (split_once sequence)) then Err (InvalidEventId value)
      else
        match Journal.parse_i64 milliseconds, Journal.parse_i64 sequence with
        | Some milliseconds, Some sequence => Ok (milliseconds, sequence)
        | _, _ => Err (InvalidEventId value)
        end
  end.

Definition stream_cmp (a b : Z * Z) : comparison :=
  match a.1 ?= b.1 with Eq => a.2 ?= b.2 | c => c end.

(** [compare_event_ids] *)
Definition compare_event_ids (left right : string) : result StoreError comparison :=
  if decide (left = right) then Ok Eq
  else l ← parse_event_id left; r ← parse_event_id right; Ok (stream_cmp l r).
Definition is_gt (c : comparison) : bool := match c with Gt => true | _ => false end.

(** ** Account content *)

Inductive IncomingObjectStatus := Detected | DiversionActive | Partial | Diverted | Impacted.
#[global] Instance IncomingObjectStatus_eq : EqDecision IncomingObjectStatus.
Proof. solve_decision. Defined.

Section Rows.
Context `{JN : JsonNumber} {Atmosphere : Type}.

Abbreviation JsonMap := (gmap string Value).
Abbreviation Device := (Entities.Device Value).
Abbreviation Replicant := (Entities.Replicant Value).
Abbreviation Location := (Locations.Location Value Atmosphere).
Abbreviation Event := Journal.Event.

Record ResourceSite := {
  rs_key : WorldKey;
  rs_location : option WorldKey;
  rs_site_type : option string;
  rs_name : option string;
  rs_resources : JsonMap;
  rs_extra : JsonMap;
}.

Record LocationEvent := {
  lv_key : WorldKey;
  lv_location : option WorldKey;
  lv_event_type : option string;
  lv_tier : option Z;
  lv_title : option string;
  lv_description : option string;
  lv_criteria : list JsonMap;
  lv_extra : JsonMap;
}.

Record IncomingObject := {
  io_key : WorldKey;
  io_star : option WorldKey;
  io_size_class : option string;
  io_impact_target : option WorldKey;
  io_impact_eta : option string;
  io_discovery_source : option string;
  io_status : IncomingObjectStatus;
  io_propulsor : option WorldKey;
  io_extra : JsonMap;
}.

Record Message := {
  ms_id : option Z;
  ms_title : option string;
  ms_body : option string;
  ms_category : option string;
  ms_subcategory : option string;
  ms_message_type : option string;
  ms_is_read : option bool;
  ms_created_at : option string;
}.

Record Blueprint := {
  bl_id : string;
  bl_device_type : option string;
  bl_short_description : option string;
  bl_description : option string;
  bl_print_time_seconds : option F64.t;
  bl_resources : gmap string Z;
  bl_components : gmap string Z;
  bl_features : list string;
  bl_directives : list string;
  bl_cargo_capacity : option Z;
  bl_attach_capacity : option Z;
  bl_stow_capacity : option Z;
  bl_queue_size : option Z;
  bl_unknown : JsonMap;
}.

Record Trade := {
  td_key : WorldKey;
  td_controller : WorldKey;
  td_status : option string;
  td_name : option string;
  td_remaining_stock : option Z;
  td_extra : JsonMap;
}.

(** ** Projection batches *)

Record ProjectionTombstone := {
  pt_realm : Realm;
  pt_kind : string;
  pt_item_id : string;
  pt_evidence : string;
}.

Record ReconciliationTarget := {
  rt_work_id : string;
  rt_realm : Realm;
  rt_kind : string;
  rt_payload : Value;
}.

Record EventProjectionBatch := {
  eb_devices : list (Observation Device);
  eb_replicants : list (Observation Replicant);
  eb_locations : list (Observation Location);
  eb_stars : list (Observation Star);
  eb_resource_sites : list (Observation ResourceSite);
  eb_location_events : list (Observation LocationEvent);
  eb_incoming_objects : list (Observation IncomingObject);
  eb_messages : list (Observation Message);
  eb_blueprints : list (Observation Blueprint);
  eb_trades : list (Observation Trade);
  eb_simulations : list (Observation SimulationRun);
  eb_deletions : list ProjectionTombstone;
  eb_reconciliation : list ReconciliationTarget;
}.

Definition no_effects : EventProjectionBatch := {|
  eb_devices := []; eb_replicants := []; eb_locations := []; eb_stars := []; eb_resource_sites := [];
  eb_location_events := []; eb_incoming_objects := []; eb_messages := []; eb_blueprints := [];
  eb_trades := []; eb_simulations := []; eb_deletions := []; eb_reconciliation := [] |}.

(** ** The primary database *)

(** The tables beside those of [Durable]; [tables_tombstones] holds the tombstones of
    kinds other than [device]. *)
Record Tables := {
  ta_resource_sites : gmap WorldKey (Observation ResourceSite);
  ta_location_events : gmap WorldKey (Observation LocationEvent);
  ta_incoming_objects : gmap WorldKey (Observation IncomingObject);
  ta_messages : gmap string (Observation Message);
  ta_blueprints : gmap string (Observation Blueprint);
  ta_trades : gmap WorldKey (Observation Trade);
  ta_tombstones : gset (string * WorldKey);
  ta_queue : list (string * Journal.QueueRow);
}.
Abbreviation Primary := (Durable (Json := Value) (Atmosphere := Atmosphere) * Tables)%type.

Definition on_devices (f : gmap WorldKey DeviceRow → gmap WorldKey DeviceRow) (p : Primary) : Primary :=
  (with_device_rows (f (du_devices p.1)) p.1, p.2).
Definition on_replicants f (p : Primary) : Primary :=
  let d := p.1 in
  ({| du_devices := du_devices d; du_replicants := f (du_replicants d); du_locations := du_locations d;
      du_simulations := du_simulations d; du_stars := du_stars d; du_catalogue_metadata := du_catalogue_metadata d;
      du_device_tombstones := du_device_tombstones d |}, p.2).
Definition on_locations f (p : Primary) : Primary :=
  let d := p.1 in
  ({| du_devices := du_devices d; du_replicants := du_replicants d; du_locations := f (du_locations d);
      du_simulations := du_simulations d; du_stars := du_stars d; du_catalogue_metadata := du_catalogue_metadata d;
      du_device_tombstones := du_device_tombstones d |}, p.2).
Definition on_simulations f (p : Primary) : Primary :=
  let d := p.1 in
  ({| du_devices := du_devices d; du_replicants := du_replicants d; du_locations := du_locations d;
      du_simulations := f (du_simulations d); du_stars := du_stars d;
      du_catalogue_metadata := du_catalogue_metadata d;
      du_device_tombstones := du_device_tombstones d |}, p.2).
Definition on_stars f (p : Primary) : Primary :=
  (with_stars (f (du_stars p.1)) (du_catalogue_metadata p.1) p.1, p.2).
Definition device_tombstone (key : WorldKey) (p : Primary) : Primary :=
  let d := p.1 in
  ({| du_devices := du_devices d; du_replicants := du_replicants d; du_locations := du_locations d;
      du_simulations := du_simulations d; du_stars := du_stars d; du_catalogue_metadata := du_catalogue_metadata d;
      du_device_tombstones := {[key]} ∪ du_device_tombstones d |}, p.2).

Definition on_resource_sites f (p : Primary) : Primary :=
  let t := p.2 in
  (p.1, {| ta_resource_sites := f (ta_resource_sites t); ta_location_events := ta_location_events t;
           ta_incoming_objects := ta_incoming_objects t; ta_messages := ta_messages t;
           ta_blueprints := ta_blueprints t; ta_trades := ta_trades t; ta_tombstones := ta_tombstones t;
           ta_queue := ta_queue t |}).
Definition on_location_events f (p : Primary) : Primary :=
  let t := p.2 in
  (p.1, {| ta_resource_sites := ta_resource_sites t; ta_location_events := f (ta_location_events t);
           ta_incoming_objects := ta_incoming_objects t; ta_messages := ta_messages t;
           ta_blueprints := ta_blueprints t; ta_trades := ta_trades t; ta_tombstones := ta_tombstones t;
           ta_queue := ta_queue t |}).
Definition on_incoming_objects f (p : Primary) : Primary :=
  let t := p.2 in
  (p.1, {| ta_resource_sites := ta_resource_sites t; ta_location_events := ta_location_events t;
           ta_incoming_objects := f (ta_incoming_objects t); ta_messages := ta_messages t;
           ta_blueprints := ta_blueprints t; ta_trades := ta_trades t; ta_tombstones := ta_tombstones t;
           ta_queue := ta_queue t |}).
Definition on_messages f (p : Primary) : Primary :=
  let t := p.2 in
  (p.1, {| ta_resource_sites := ta_resource_sites t; ta_location_events := ta_location_events t;
           ta_incoming_objects := ta_incoming_objects t; ta_messages := f (ta_messages t);
           ta_blueprints := ta_blueprints t; ta_trades := ta_trades t; ta_tombstones := ta_tombstones t;
           ta_queue := ta_queue t |}).
Definition on_blueprints f (p : Primary) : Primary :=
  let t := p.2 in
  (p.1, {| ta_resource_sites := ta_resource_sites t; ta_location_events := ta_location_events t;
           ta_incoming_objects := ta_incoming_objects t; ta_messages := ta_messages t;
           ta_blueprints := f (ta_blueprints t); ta_trades := ta_trades t; ta_tombstones := ta_tombstones t;
           ta_queue := ta_queue t |}).
Definition on_trades f (p : Primary) : Primary :=
  let t := p.2 in
  (p.1, {| ta_resource_sites := ta_resource_sites t; ta_location_events := ta_location_events t;
           ta_incoming_objects := ta_incoming_objects t; ta_messages := ta_messages t;
           ta_blueprints := ta_blueprints t; ta_trades := f (ta_trades t); ta_tombstones := ta_tombstones t;
           ta_queue := ta_queue t |}).
Definition tombstone (kind : string) (key : WorldKey) (p : Primary) : Primary :=
  if decide (kind = "device") then device_tombstone key p else
  let t := p.2 in
  (p.1, {| ta_resource_sites := ta_resource_sites t; ta_location_events := ta_location_events t;
           ta_incoming_objects := ta_incoming_objects t; ta_messages := ta_messages t;
           ta_blueprints := ta_blueprints t; ta_trades := ta_trades t;
           ta_tombstones := {[(kind, key)]} ∪ ta_tombstones t; ta_queue := ta_queue t |}).
Definition on_queue f (p : Primary) : Primary :=
  let t := p.2 in
  (p.1, {| ta_resource_sites := ta_resource_sites t; ta_location_events := ta_location_events t;
           ta_incoming_objects := ta_incoming_objects t; ta_messages := ta_messages t;
           ta_blueprints := ta_blueprints t; ta_trades := ta_trades t; ta_tombstones := ta_tombstones t;
           ta_queue := f (ta_queue t) |}).

(** [INSERT .. ON CONFLICT DO UPDATE] of each observation under its own key *)
Definition upsert {K A} `{Countable K} (key : A → K) (rows : list (Observation A))
    (table : gmap K (Observation A)) : gmap K (Observation A) :=
  foldl (λ table o, <[key (ob_value o) := o]> table) table rows.

(** ** The reconciliation queue *)

Definition queued (realm : Realm) (kind : string) (payload : Value) : Journal.QueueRow :=
  {| Journal.qr_realm := realm; Journal.qr_kind := kind; Journal.qr_payload := payload;
     Journal.qr_not_before := None; Journal.qr_attempts := 0; Journal.qr_state := "queued" |}.

(** [INSERT .. ON CONFLICT(work_id) DO UPDATE]: a coalesced row keeps its place. *)
Fixpoint upsert_work (work_id : string) (row : Journal.QueueRow) (queue : list (string * Journal.QueueRow))
    : list (string * Journal.QueueRow) :=
  match queue with
  | [] => [(work_id, row)]
  | (id, old) :: queue =>
      if decide (id = work_id) then (id, row) :: queue else (id, old) :: upsert_work work_id row queue
  end.

(** [UPDATE reconciliation_queue SET .. WHERE p] *)
Definition update_work (p : string → Journal.QueueRow → bool) (f : Journal.QueueRow → Journal.QueueRow)
    (queue : list (string * Journal.QueueRow)) : list (string * Journal.QueueRow) :=
  (λ w : string * Journal.QueueRow, if p w.1 w.2 then (w.1, f w.2) else w) <$> queue.
Definition delete_work (p : string → Journal.QueueRow → bool) (queue : list (string * Journal.QueueRow))
    : list (string * Journal.QueueRow) :=
  List.filter (λ w : string * Journal.QueueRow, negb (p w.1 w.2)) queue.

(** ** Writing a batch *)

(** The key of a message: its identifier, or the time of its observation. *)
Definition message_key (o : Observation Message) : string :=
  match ms_id (ob_value o) with
  | Some id => pretty.pretty id
  | None => "anonymous:" +:+ pretty.pretty (om_observed_at (ob_metadata o))
  end.

(** One deletion of the loop of [persist_projection_batch]. *)
Definition persist_deletion (deletion : ProjectionTombstone) (p : Primary) : result StoreError Primary :=
  let kind := pt_kind deletion in
  let key := {| wk_realm := pt_realm deletion; wk_id := pt_item_id deletion |} in
  let finish (p : Primary) : result StoreError Primary :=
    Ok (on_queue (delete_work (λ id row, bool_decide (Journal.qr_realm row = pt_realm deletion)
      && bool_decide (id = kind +:+ ":" +:+ pt_item_id deletion))) (tombstone kind key p)) in
  if decide (kind = "device") then finish (on_devices (delete key) p)
  else if decide (kind = "resource_site") then finish (on_resource_sites (delete key) p)
  else if decide (kind = "location_event") then finish (on_location_events (delete key) p)
  else if decide (kind = "incoming_object") then finish (on_incoming_objects (delete key) p)
  else if decide (kind = "trade") then finish (on_trades (delete key) p)
  else Err (UnsupportedProjectionKind kind).

Fixpoint persist_deletions (deletions : list ProjectionTombstone) (p : Primary) : result StoreError Primary :=
  match deletions with
  | [] => Ok p
  | deletion :: deletions => p ← persist_deletion deletion p; persist_deletions deletions p
  end.

Definition persist_observations (batch : EventProjectionBatch) (p : Primary) : Primary :=
  let p := on_devices (λ rows, foldl persist_device rows (eb_devices batch)) p in
  let p := on_replicants (upsert re_key (eb_replicants batch)) p in
  let p := on_locations (upsert lo_key (eb_locations batch)) p in
  let p := on_stars (upsert sr_key (eb_stars batch)) p in
  let p := on_resource_sites (upsert rs_key (eb_resource_sites batch)) p in
  let p := on_location_events (upsert lv_key (eb_location_events batch)) p in
  let p := on_incoming_objects (upsert io_key (eb_incoming_objects batch)) p in
  let p := on_messages (λ table, foldl (λ table o, <[message_key o := o]> table) table (eb_messages batch)) p in
  let p := on_blueprints (upsert bl_id (eb_blueprints batch)) p in
  let p := on_trades (upsert td_key (eb_trades batch)) p in
  on_simulations (upsert si_id (eb_simulations batch)) p.

(** [persist_projection_batch] *)
Definition persist_projection_batch (batch : EventProjectionBatch) (p : Primary) : result StoreError Primary :=
  p ← persist_deletions (eb_deletions batch) (persist_observations batch p);
  Ok (on_queue (λ queue, foldl (λ queue target,
    upsert_work (rt_work_id target) (queued (rt_realm target) (rt_kind target) (rt_payload target)) queue)
    queue (eb_reconciliation batch)) p).

(** ** The history *)

(** A row of [event_history]: the event as it is decoded, whether [applied_at] is set, the
    flag [archived_only], and the columns [stream_millis] and [stream_sequence]. *)
Record HistoryRow := {
  hi_event : Event;
  hi_applied : bool;
  hi_archived : bool;
  hi_stream : option (Z * Z);
}.

(** What [decode_history_event] reads back: the key columns are codes, in the realm of the
    event. *)
Definition recorded (event : Event) : Event :=
  let in_realm (k : option WorldKey) := realm ← Journal.ev_realm event; key ← k; Some {| wk_realm := realm; wk_id := wk_id key |} in
  {| Journal.ev_id := Journal.ev_id event; Journal.ev_realm := Journal.ev_realm event;
     Journal.ev_name := Journal.ev_name event; Journal.ev_category := Journal.ev_category event;
     Journal.ev_device := in_realm (Journal.ev_device event);
     Journal.ev_replicant := in_realm (Journal.ev_replicant event);
     Journal.ev_location := in_realm (Journal.ev_location event);
     Journal.ev_star := in_realm (Journal.ev_star event);
     Journal.ev_occurred_at := Journal.ev_occurred_at event; Journal.ev_payload := Journal.ev_payload event |}.

Definition to_option {E A} (r : result E A) : option A := match r with Ok a => Some a | Err _ => None end.

Record LogStore := {
  ls_primary : Primary;
  ls_cursor : option string;
  ls_history : gmap string HistoryRow;
  ls_leader : option (string * Z);
}.
Definition with_primary (p : Primary) (s : LogStore) : LogStore :=
  {| ls_primary := p; ls_cursor := ls_cursor s; ls_history := ls_history s; ls_leader := ls_leader s |}.
Definition with_cursor (cursor : option string) (s : LogStore) : LogStore :=
  {| ls_primary := ls_primary s; ls_cursor := cursor; ls_history := ls_history s; ls_leader := ls_leader s |}.
Definition with_history (f : gmap string HistoryRow → gmap string HistoryRow) (s : LogStore) : LogStore :=
  {| ls_primary := ls_primary s; ls_cursor := ls_cursor s; ls_history := f (ls_history s); ls_leader := ls_leader s |}.

(** [append_history_event] before the maintenance: [INSERT OR IGNORE] *)
Definition append_history_event (event : Event) (s : LogStore) : LogStore :=
  with_history (λ h, match h !! Journal.ev_id event with
    | Some _ => h
    | None => <[Journal.ev_id event := {| hi_event := recorded event; hi_applied := false; hi_archived := false;
                  hi_stream := to_option (parse_event_id (Journal.ev_id event)) |}]> h
    end) s.

Definition applied (row : HistoryRow) : HistoryRow :=
  {| hi_event := hi_event row; hi_applied := true; hi_archived := hi_archived row; hi_stream := hi_stream row |}.
(** [mark_history_event_applied] *)
Definition mark_history_event_applied (event_id : string) : LogStore → LogStore :=
  with_history (alter applied event_id).

Definition staged (row : HistoryRow) : bool := negb (hi_applied row) && negb (hi_archived row).
Definition visible (row : HistoryRow) : bool := hi_applied row || hi_archived row.

(** The loop of [reconcile_history_visibility]: the staged rows up to the cursor. *)
Fixpoint passed (cursor : string) (ids : list string) : result StoreError (list string) :=
  match ids with
  | [] => Ok []
  | id :: ids =>
      c ← compare_event_ids id cursor;
      rest ← passed cursor ids;
      Ok (if is_gt c then rest else id :: rest)
  end.

(** [reconcile_history_visibility], at every opening of the store *)
Definition reconcile_history_visibility (s : LogStore) : result StoreError LogStore :=
  match ls_cursor s with
  | None => Ok s
  | Some cursor =>
      ids ← passed cursor (select (λ _ row, staged row) (ls_history s)).*1;
      Ok (foldr mark_history_event_applied s ids)
  end.

(** ** The cursor *)

(** [has_event] *)
Definition has_event (event_id : string) (s : LogStore) : result StoreError bool :=
  match ls_cursor s with
  | None => Ok false
  | Some cursor => c ← compare_event_ids event_id cursor; Ok (negb (is_gt c))
  end.

(** [advance_event_cursor] *)
Definition advance_event_cursor (cursor : string) (previous : option string) : result StoreError (option string) :=
  match previous with
  | None => Ok (Some cursor)
  | Some p => c ← compare_event_ids cursor p; Ok (if is_gt c then Some cursor else previous)
  end.

(** The outcomes of the two transactions, of the maintenance between them, which prunes the
    operation journal, and of the visibility update, which is best effort. *)
Record Outcomes := {
  oc_append : result StoreError unit;
  oc_maintain : result StoreError unit;
  oc_commit : result StoreError unit;
  oc_visible : bool;
}.

Definition mark_best_effort (outcomes : Outcomes) (event_id : string) (s : LogStore) : LogStore :=
  if oc_visible outcomes then mark_history_event_applied event_id s else s.

(** [Store::apply_event_projection]; the store after it is returned with its error. *)
Definition store_apply_event_projection (outcomes : Outcomes) (event : Event) (cursor : string)
    (batch : EventProjectionBatch) (s : LogStore) : result StoreError bool * LogStore :=
  match has_event cursor s with
  | Err error => (Err error, s)
  | Ok true => (Ok false, mark_best_effort outcomes (Journal.ev_id event) s)
  | Ok false =>
      match oc_append outcomes with
      | Err error => (Err error, s)
      | Ok _ =>
          let s := append_history_event event s in
          match oc_maintain outcomes with
          | Err error => (Err error, s)
          | Ok _ =>
              match persist_projection_batch batch (ls_primary s), advance_event_cursor cursor (ls_cursor s), oc_commit outcomes with
              | Err error, _, _ | Ok _, Err error, _ | Ok _, Ok _, Err error => (Err error, s)
              | Ok primary, Ok next, Ok _ =>
                  (Ok true, mark_best_effort outcomes (Journal.ev_id event) (with_cursor next (with_primary primary s)))
              end
          end
      end
  end.

(** ** Reading the history *)

(** [EventHistoryFilter] *)
Record EventHistoryFilter := {
  ef_after : option string;
  ef_device_code : option string;
  ef_replicant_code : option string;
  ef_star_id : option string;
  ef_location_id : option string;
  ef_event_name : option string;
  ef_latest : option nat;
}.
Definition any_event : EventHistoryFilter := {|
  ef_after := None; ef_device_code := None; ef_replicant_code := None; ef_star_id := None;
  ef_location_id := None; ef_event_name := None; ef_latest := None |}.

(** [ORDER BY stream_millis, stream_sequence, event_id]; [NULL] comes first. *)
Definition stream_leb (a b : string * HistoryRow) : bool :=
  match hi_stream a.2, hi_stream b.2 with
  | None, None => String.leb a.1 b.1
  | None, Some _ => true
  | Some _, None => false
  | Some x, Some y =>
      match stream_cmp x y with Lt => true | Eq => String.leb a.1 b.1 | Gt => false end
  end.

(** [(stream_millis, stream_sequence, event_id) > (?, ?, ?)], which is not true of [NULL] *)
Definition after_cursor (after : string) (position : Z * Z) (id : string) (row : HistoryRow) : bool :=
  match hi_stream row with
  | None => false
  | Some stream =>
      match stream_cmp stream position with Gt => true | Eq => String.ltb after id | Lt => false end
  end.

Definition matches_code (wanted code : option string) : bool :=
  match wanted with None => true | Some wanted => bool_decide (code = Some wanted) end.
Definition key_code (key : option WorldKey) : option string := wk_id <$> key.

Definition filter_row (filter : EventHistoryFilter) (id : string) (row : HistoryRow) : bool :=
  let event := hi_event row in
  visible row
  && matches_code (ef_device_code filter) (key_code (Journal.ev_device event))
  && matches_code (ef_replicant_code filter) (key_code (Journal.ev_replicant event))
  && matches_code (ef_star_id filter) (key_code (Journal.ev_star event))
  && matches_code (ef_location_id filter) (key_code (Journal.ev_location event))
  && matches_code (ef_event_name filter) (Some (Journal.ev_name event)).

Definition last_n {A} (n : nat) (l : list A) : list A := drop (length l - n) l.

(** [read_events_filtered] *)
Definition read_events_filtered (filter : EventHistoryFilter) (s : LogStore) : result StoreError (list Event) :=
  position ← match ef_after filter with
             | None => Ok None
             | Some after => p ← parse_event_id after; Ok (Some (after, p))
             end;
  let later (id : string) (row : HistoryRow) := match position with
    | None => true
    | Some (after, p) => after_cursor after p id row
    end in
  let rows := sort_by stream_leb (select (λ id row, filter_row filter id row && later id row) (ls_history s)) in
  let events := (λ r : string * HistoryRow, hi_event r.2) <$> rows in
  Ok (match ef_latest filter with None => events | Some limit => last_n limit events end).

(** ** The reconciliation worker's rows *)

Definition in_queue_state (state : string) (row : Journal.QueueRow) : Journal.QueueRow :=
  {| Journal.qr_realm := Journal.qr_realm row; Journal.qr_kind := Journal.qr_kind row;
     Journal.qr_payload := Journal.qr_payload row; Journal.qr_not_before := Journal.qr_not_before row;
     Journal.qr_attempts := Journal.qr_attempts row; Journal.qr_state := state |}.
Definition is_running (row : Journal.QueueRow) : bool := bool_decide (Journal.qr_state row = "running").
Definition on_queue_of f (s : LogStore) : LogStore := with_primary (on_queue f (ls_primary s)) s.
(** [UPDATE reconciliation_queue SET state = 'queued' WHERE state = 'running'] *)
Definition requeue_running : LogStore → LogStore :=
  on_queue_of (update_work (λ _ row, is_running row) (in_queue_state "queued")).

Definition with_leader (leader : option (string * Z)) (s : LogStore) : LogStore :=
  {| ls_primary := ls_primary s; ls_cursor := ls_cursor s; ls_history := ls_history s; ls_leader := leader |}.

(** [recover_orphaned_reconciliation_work], at every opening; [now] is in seconds. *)
Definition recover_orphaned_reconciliation_work (now : Z) (s : LogStore) : LogStore :=
  match ls_leader s with
  | Some (_, lease_until) => if decide (now < lease_until) then s else requeue_running s
  | None => requeue_running s
  end.

(** [Store::enqueue_reconciliation] *)
Definition enqueue_work (work_id : string) (realm : Realm) (kind : string) (payload : Value) : LogStore → LogStore :=
  on_queue_of (upsert_work work_id (queued realm kind payload)).

(** [acquire_reconciliation_leadership] *)
Definition acquire_reconciliation_leadership (owner : string) (lease_seconds now : Z) (s : LogStore) : bool * LogStore :=
  let can_lead := match ls_leader s with
    | None => true
    | Some (current_owner, lease_until) => bool_decide (current_owner = owner) || bool_decide (lease_until ≤ now)
    end in
  if negb can_lead then (false, s)
  else
    let replacing_expired_leader := match ls_leader s with
      | None => true
      | Some (current_owner, lease_until) => bool_decide (current_owner ≠ owner) && bool_decide (lease_until ≤ now)
      end in
    let s := if replacing_expired_leader then requeue_running s else s in
    (true, with_leader (Some (owner, saturating_add_i64 now (Z.max lease_seconds 1))) s).

Definition due (now : Z) (row : Journal.QueueRow) : bool :=
  bool_decide (Journal.qr_state row = "queued")
  && match Journal.qr_not_before row with None => true | Some t => bool_decide (t ≤ now) end.

(** A device that is gone needs no refresh. *)
Definition obsolete (tombstones : gset WorldKey) (work_id : string) (row : Journal.QueueRow) : bool :=
  bool_decide (Journal.qr_kind row = "device")
  && existsb (λ key, bool_decide (wk_realm key = Journal.qr_realm row)
                     && bool_decide (work_id = "device:" +:+ wk_id key)) (elements tombstones).

(** [claim_reconciliation_work]: the first due row, now running *)
Definition claim_reconciliation_work (now : Z) (s : LogStore) : option (string * Journal.QueueRow) * LogStore :=
  let s := on_queue_of (delete_work (obsolete (du_device_tombstones (ls_primary s).1))) s in
  match List.find (λ w : string * Journal.QueueRow, due now w.2) (ta_queue (ls_primary s).2) with
  | None => (None, s)
  | Some (work_id, row) =>
      (Some (work_id, row), on_queue_of (update_work (λ id _, bool_decide (id = work_id)) (in_queue_state "running")) s)
  end.

(** [complete_reconciliation_work] *)
Definition complete_reconciliation_work (work_id : string) : LogStore → LogStore :=
  on_queue_of (delete_work (λ id _, bool_decide (id = work_id))).

(** [retry_reconciliation_work] *)
Definition retry_delay (attempts : Z) : Z := Z.min 300 (Z.shiftl 1 (Z.min 16 (attempts + 1))).
Definition retried (now : Z) (row : Journal.QueueRow) : Journal.QueueRow :=
  {| Journal.qr_realm := Journal.qr_realm row; Journal.qr_kind := Journal.qr_kind row;
     Journal.qr_payload := Journal.qr_payload row;
     Journal.qr_not_before := Some (now + retry_delay (Journal.qr_attempts row));
     Journal.qr_attempts := Journal.qr_attempts row + 1; Journal.qr_state := "queued" |}.
Definition retry_reconciliation_work (work_id : string) (now : Z) : LogStore → LogStore :=
  on_queue_of (update_work (λ id _, bool_decide (id = work_id)) (retried now)).
End Rows.

Arguments EventProjectionBatch {JN} Atmosphere.
Arguments LogStore {JN} Atmosphere.
Arguments Tables {JN}.
