(* ===== verification/EventReducers.v ===== *)
(** * What an event does to the projection

    [src/managed/events/projection.rs] and the treatment table of [src/managed/events.rs]:
    for each event name the reducer that turns the event into a batch of effects, from what
    the client knows.  A reducer reads the published snapshot ([Engine]) and the incoming
    objects of the store, and writes nothing. *)

From S2P Require Import Prelude Float64 Json Observations Entities Locations.
From S2P Require Import ManagedState Mutations Operations EventLog.

Section Reducers.
Context `{JN : JsonNumber} {Atmosphere : Type}.

Abbreviation JsonMap := (gmap string Value).
Abbreviation Device := (Entities.Device Value).
Abbreviation Replicant := (Entities.Replicant Value).
Abbreviation Location := (Locations.Location Value Atmosphere).
Abbreviation Engine := (ManagedState.Engine (Json := Value) (Atmosphere := Atmosphere)).
Abbreviation Event := Journal.Event.
Abbreviation Batch := (EventProjectionBatch Atmosphere).

(** [time::OffsetDateTime::parse] of an RFC 3339 text, in Unix milliseconds *)
Variable parse_rfc3339 : string → option Z.
(** [domain::scan_report_location]: the location a scan report describes; it decodes the
    report as an answer of the locations endpoint. *)
Variable scan_report_location :
  string → string → Object_ → Realm → Z → string → option (Observation Location).

(** What the reducers read of the client. *)
Record View := {
  vw_engine : Engine;
  vw_incoming_objects : gmap WorldKey (Observation IncomingObject);
}.

(** [ObservationTime::from] *)
Definition observation_time (value : string) : Z :=
  match Journal.parse_i64 value with
  | Some epoch => from_epoch epoch
  | None => default 0 (parse_rfc3339 value)
  end.

(** ** Helpers *)

Definition named (event : Event) (name : string) : bool := bool_decide (Journal.ev_name event = name).
Definition payload_field (event : Event) (key : string) : option Value := get_field (Journal.ev_payload event) key.
Definition payload_str (event : Event) (key : string) : option string := v ← payload_field event key; Json.as_str v.
Definition payload_i64 (event : Event) (key : string) : option Z := v ← payload_field event key; value_as_i64 v.
Definition in_realm (realm : Realm) (id : string) : WorldKey := {| wk_realm := realm; wk_id := id |}.
Definition or_live (realm : option Realm) : Realm := default Live realm.

(** [metadata] and [observed] *)
Definition event_metadata (event : Event) : ObservationMetadata :=
  {| om_source := EventLog; om_authority := EventDelta;
     om_observed_at := observation_time (Journal.ev_occurred_at event); om_access := Owned;
     om_reachability := Reachable; om_stale := false;
     om_source_document := {| so_operation := "event:" +:+ Journal.ev_name event; so_request_id := None;
                              so_document_id := Some (Journal.ev_id event) |} |}.
Definition observed {T} (event : Event) (value : T) : Observation T :=
  {| ob_value := value; ob_metadata := event_metadata event |}.
Definition reobserved {T} (event : Event) (f : T → T) (o : Observation T) : Observation T :=
  observed event (f (ob_value o)).

(** [extra]: the fields that are not typed *)
Definition object_entries (object : Object_) : JsonMap := list_to_map object.
Definition extra (object : Object_) (typed : list string) : JsonMap :=
  list_to_map (List.filter (λ e : string * Value, negb (bool_decide (e.1 ∈ typed))) object).
(** [strings], [object_map] and [integer_map] *)
Definition strings (value : option Value) : list string :=
  match value ≫= as_array with Some items => omap Json.as_str items | None => [] end.
Definition object_map (value : option Value) : JsonMap :=
  match value ≫= as_object with Some object => object_entries object | None => ∅ end.
Definition integer_map (value : option Value) : gmap string Z :=
  match value ≫= as_object with
  | Some object => list_to_map (omap (λ e : string * Value, (λ z, (e.1, z)) <$> value_as_i64 e.2) object)
  | None => ∅
  end.
(** The objects of an array *)
Definition objects (value : option Value) : list Object_ :=
  match value ≫= as_array with Some items => omap as_object items | None => [] end.

(** ** Targeted reconciliation *)

Definition refresh (kind : string) (key : WorldKey) : ReconciliationTarget :=
  {| rt_work_id := kind +:+ ":" +:+ wk_id key; rt_realm := wk_realm key; rt_kind := kind;
     rt_payload := Object [("id", Text (wk_id key))] |}.
(** [device_reconciliation], [replicant_reconciliation] and [location_reconciliation] *)
Definition device_reconciliation := refresh "device".
Definition replicant_reconciliation := refresh "replicant".
Definition location_reconciliation := refresh "location".

(** [narrow_reconciliation] *)
Definition narrow_reconciliation (event : Event) : ReconciliationTarget :=
  match Journal.ev_device event, Journal.ev_replicant event, Journal.ev_location event with
  | Some device, _, _ => device_reconciliation device
  | None, Some replicant, _ => replicant_reconciliation replicant
  | None, None, Some location => location_reconciliation location
  | None, None, None =>
      {| rt_work_id := "account:event"; rt_realm := or_live (Journal.ev_realm event); rt_kind := "account";
         rt_payload := Object [("id", Text "account")] |}
  end.

(** ** Building a batch *)

Definition with_devices (f : list (Observation Device) → list (Observation Device)) (b : Batch) : Batch :=
  {| eb_devices := f (eb_devices b); eb_replicants := eb_replicants b; eb_locations := eb_locations b;
     eb_stars := eb_stars b; eb_resource_sites := eb_resource_sites b; eb_location_events := eb_location_events b;
     eb_incoming_objects := eb_incoming_objects b; eb_messages := eb_messages b; eb_blueprints := eb_blueprints b;
     eb_trades := eb_trades b; eb_simulations := eb_simulations b; eb_deletions := eb_deletions b;
     eb_reconciliation := eb_reconciliation b |}.
Definition with_reconciliation (f : list ReconciliationTarget → list ReconciliationTarget) (b : Batch) : Batch :=
  {| eb_devices := eb_devices b; eb_replicants := eb_replicants b; eb_locations := eb_locations b;
     eb_stars := eb_stars b; eb_resource_sites := eb_resource_sites b; eb_location_events := eb_location_events b;
     eb_incoming_objects := eb_incoming_objects b; eb_messages := eb_messages b; eb_blueprints := eb_blueprints b;
     eb_trades := eb_trades b; eb_simulations := eb_simulations b; eb_deletions := eb_deletions b;
     eb_reconciliation := f (eb_reconciliation b) |}.
Definition with_replicant (o : Observation Replicant) (b : Batch) : Batch :=
  {| eb_devices := eb_devices b; eb_replicants := eb_replicants b ++ [o]; eb_locations := eb_locations b;
     eb_stars := eb_stars b; eb_resource_sites := eb_resource_sites b; eb_location_events := eb_location_events b;
     eb_incoming_objects := eb_incoming_objects b; eb_messages := eb_messages b; eb_blueprints := eb_blueprints b;
     eb_trades := eb_trades b; eb_simulations := eb_simulations b; eb_deletions := eb_deletions b;
     eb_reconciliation := eb_reconciliation b |}.
Definition with_simulation (o : Observation SimulationRun) (b : Batch) : Batch :=
  {| eb_devices := eb_devices b; eb_replicants := eb_replicants b; eb_locations := eb_locations b;
     eb_stars := eb_stars b; eb_resource_sites := eb_resource_sites b; eb_location_events := eb_location_events b;
     eb_incoming_objects := eb_incoming_objects b; eb_messages := eb_messages b; eb_blueprints := eb_blueprints b;
     eb_trades := eb_trades b; eb_simulations := eb_simulations b ++ [o]; eb_deletions := eb_deletions b;
     eb_reconciliation := eb_reconciliation b |}.

Definition reconciling (targets : list ReconciliationTarget) : Batch := with_reconciliation (λ _, targets) no_effects.
Definition only_locations (locations : list (Observation Location)) (sites : list (Observation ResourceSite))
    (targets : list ReconciliationTarget) : Batch :=
  {| eb_devices := []; eb_replicants := []; eb_locations := locations; eb_stars := []; eb_resource_sites := sites;
     eb_location_events := []; eb_incoming_objects := []; eb_messages := []; eb_blueprints := []; eb_trades := [];
     eb_simulations := []; eb_deletions := []; eb_reconciliation := targets |}.
Definition only_star (o : Observation Star) : Batch :=
  {| eb_devices := []; eb_replicants := []; eb_locations := []; eb_stars := [o]; eb_resource_sites := [];
     eb_location_events := []; eb_incoming_objects := []; eb_messages := []; eb_blueprints := []; eb_trades := [];
     eb_simulations := []; eb_deletions := []; eb_reconciliation := [] |}.
Definition only_location_event (o : Observation LocationEvent) : Batch :=
  {| eb_devices := []; eb_replicants := []; eb_locations := []; eb_stars := []; eb_resource_sites := [];
     eb_location_events := [o]; eb_incoming_objects := []; eb_messages := []; eb_blueprints := []; eb_trades := [];
     eb_simulations := []; eb_deletions := []; eb_reconciliation := [] |}.
Definition only_incoming_object (o : Observation IncomingObject) : Batch :=
  {| eb_devices := []; eb_replicants := []; eb_locations := []; eb_stars := []; eb_resource_sites := [];
     eb_location_events := []; eb_incoming_objects := [o]; eb_messages := []; eb_blueprints := []; eb_trades := [];
     eb_simulations := []; eb_deletions := []; eb_reconciliation := [] |}.
Definition only_message (o : Observation Message) : Batch :=
  {| eb_devices := []; eb_replicants := []; eb_locations := []; eb_stars := []; eb_resource_sites := [];
     eb_location_events := []; eb_incoming_objects := []; eb_messages := [o]; eb_blueprints := []; eb_trades := [];
     eb_simulations := []; eb_deletions := []; eb_reconciliation := [] |}.
Definition only_blueprint (o : Observation Blueprint) : Batch :=
  {| eb_devices := []; eb_replicants := []; eb_locations := []; eb_stars := []; eb_resource_sites := [];
     eb_location_events := []; eb_incoming_objects := []; eb_messages := []; eb_blueprints := [o]; eb_trades := [];
     eb_simulations := []; eb_deletions := []; eb_reconciliation := [] |}.
Definition trading (o : Observation Trade) (b : Batch) : Batch :=
  {| eb_devices := eb_devices b; eb_replicants := eb_replicants b; eb_locations := eb_locations b;
     eb_stars := eb_stars b; eb_resource_sites := eb_resource_sites b; eb_location_events := eb_location_events b;
     eb_incoming_objects := eb_incoming_objects b; eb_messages := eb_messages b; eb_blueprints := eb_blueprints b;
     eb_trades := eb_trades b ++ [o]; eb_simulations := eb_simulations b; eb_deletions := eb_deletions b;
     eb_reconciliation := eb_reconciliation b |}.
Definition deleting (deletions : list ProjectionTombstone) (targets : list ReconciliationTarget) : Batch :=
  {| eb_devices := []; eb_replicants := []; eb_locations := []; eb_stars := []; eb_resource_sites := [];
     eb_location_events := []; eb_incoming_objects := []; eb_messages := []; eb_blueprints := []; eb_trades := [];
     eb_simulations := []; eb_deletions := deletions; eb_reconciliation := targets |}.
Definition gone (realm : Realm) (kind item_id evidence : string) : ProjectionTombstone :=
  {| pt_realm := realm; pt_kind := kind; pt_item_id := item_id; pt_evidence := evidence |}.

(** [device] *)
Definition known_device (client : View) (key : WorldKey) : option (Observation Device) :=
  en_devices (vw_engine client) !! key.
(** [push_device] *)
Fixpoint replace_device (o : Observation Device) (devices : list (Observation Device)) : list (Observation Device) :=
  match devices with
  | [] => [o]
  | d :: devices =>
      if decide (dv_key (ob_value d) = dv_key (ob_value o)) then o :: devices else d :: replace_device o devices
  end.
Definition push_device (o : Observation Device) : Batch → Batch := with_devices (replace_device o).

(** [require_device]: an unknown device is scheduled for a refresh, once. *)
Definition require_device (client : View) (key : WorldKey) (batch : Batch) : option (Observation Device) * Batch :=
  match known_device client key with
  | Some o => (Some o, batch)
  | None =>
      let id := "device:" +:+ wk_id key in
      (None, if existsb (λ work, bool_decide (rt_work_id work = id)) (eb_reconciliation batch) then batch
             else with_reconciliation (λ l, l ++ [device_reconciliation key]) batch)
  end.
Definition clear_reconciliation : Batch → Batch := with_reconciliation (λ _, []).

(** [projection_history_only] and [projection_reconciliation_only] *)
Definition projection_history_only (_ : View) (_ : Event) : Batch := no_effects.
Definition projection_reconciliation_only (_ : View) (event : Event) : Batch :=
  match Journal.ev_realm event with None => no_effects | Some _ => reconciling [narrow_reconciliation event] end.

(** ** Assignments to fields *)

Definition rebuild (d : Device) (location : option WorldKey) (relationships : DeviceRelationships)
    (cargo : gmap string Z) (cargo_capacity stow_used : option Z) (operational_capacity : option F64.t)
    (directive : option (ActiveDeviceDirective Value)) (travel : option (TravelState Value)) : Device :=
  {| dv_key := dv_key d; dv_device_type := dv_device_type d; dv_status := dv_status d; dv_location := location;
     dv_deployed_at := dv_deployed_at d; dv_in_control_range := dv_in_control_range d;
     dv_features := dv_features d; dv_available_commands := dv_available_commands d;
     dv_available_directives := dv_available_directives d; dv_tags := dv_tags d; dv_settings := dv_settings d;
     dv_relationships := relationships; dv_cargo := cargo; dv_cargo_capacity := cargo_capacity;
     dv_attach_capacity := dv_attach_capacity d; dv_stow_capacity := dv_stow_capacity d; dv_stow_used := stow_used;
     dv_operational_capacity := operational_capacity; dv_grace_period_remaining := dv_grace_period_remaining d;
     dv_upkeep_requirements := dv_upkeep_requirements d; dv_system_status := dv_system_status d;
     dv_active_directive := directive; dv_travel := travel; dv_runtime := dv_runtime d; dv_access := dv_access d |}.
Definition set_location (l : option WorldKey) (d : Device) : Device :=
  rebuild d l (dv_relationships d) (dv_cargo d) (dv_cargo_capacity d) (dv_stow_used d)
    (dv_operational_capacity d) (dv_active_directive d) (dv_travel d).
Definition set_relationships (f : DeviceRelationships → DeviceRelationships) (d : Device) : Device :=
  rebuild d (dv_location d) (f (dv_relationships d)) (dv_cargo d) (dv_cargo_capacity d) (dv_stow_used d)
    (dv_operational_capacity d) (dv_active_directive d) (dv_travel d).
Definition set_cargo (cargo : gmap string Z) (capacity : option Z) (d : Device) : Device :=
  rebuild d (dv_location d) (dv_relationships d) cargo capacity (dv_stow_used d)
    (dv_operational_capacity d) (dv_active_directive d) (dv_travel d).
Definition set_stow_used (used : option Z) (d : Device) : Device :=
  rebuild d (dv_location d) (dv_relationships d) (dv_cargo d) (dv_cargo_capacity d) used
    (dv_operational_capacity d) (dv_active_directive d) (dv_travel d).
Definition set_operational_capacity (capacity : option F64.t) (d : Device) : Device :=
  rebuild d (dv_location d) (dv_relationships d) (dv_cargo d) (dv_cargo_capacity d) (dv_stow_used d)
    capacity (dv_active_directive d) (dv_travel d).
Definition set_directive (directive : option (ActiveDeviceDirective Value)) (d : Device) : Device :=
  rebuild d (dv_location d) (dv_relationships d) (dv_cargo d) (dv_cargo_capacity d) (dv_stow_used d)
    (dv_operational_capacity d) directive (dv_travel d).
Definition set_travel (location : option WorldKey) (travel : option (TravelState Value)) (d : Device) : Device :=
  rebuild d location (dv_relationships d) (dv_cargo d) (dv_cargo_capacity d) (dv_stow_used d)
    (dv_operational_capacity d) (dv_active_directive d) travel.

Definition relate (r : DeviceRelationships) (attached_to stowed_in controller : option WorldKey)
    (attached controlled stowed : list WorldKey) (assigned hosting : option WorldKey) : DeviceRelationships :=
  {| dr_attached_to := attached_to; dr_stowed_in := stowed_in; dr_controller := controller;
     dr_linked_device := dr_linked_device r; dr_attached_devices := attached; dr_controlled_devices := controlled;
     dr_stowed_devices := stowed; dr_assigned_replicant := assigned; dr_hosting_replicant := hosting |}.
Definition set_attached_to (k : option WorldKey) (r : DeviceRelationships) : DeviceRelationships :=
  relate r k (dr_stowed_in r) (dr_controller r) (dr_attached_devices r) (dr_controlled_devices r)
    (dr_stowed_devices r) (dr_assigned_replicant r) (dr_hosting_replicant r).
Definition set_stowed_in (k : option WorldKey) (r : DeviceRelationships) : DeviceRelationships :=
  relate r (dr_attached_to r) k (dr_controller r) (dr_attached_devices r) (dr_controlled_devices r)
    (dr_stowed_devices r) (dr_assigned_replicant r) (dr_hosting_replicant r).
Definition set_controller (k : option WorldKey) (r : DeviceRelationships) : DeviceRelationships :=
  relate r (dr_attached_to r) (dr_stowed_in r) k (dr_attached_devices r) (dr_controlled_devices r)
    (dr_stowed_devices r) (dr_assigned_replicant r) (dr_hosting_replicant r).
Definition on_attached (f : list WorldKey → list WorldKey) (r : DeviceRelationships) : DeviceRelationships :=
  relate r (dr_attached_to r) (dr_stowed_in r) (dr_controller r) (f (dr_attached_devices r)) (dr_controlled_devices r)
    (dr_stowed_devices r) (dr_assigned_replicant r) (dr_hosting_replicant r).
Definition on_controlled (f : list WorldKey → list WorldKey) (r : DeviceRelationships) : DeviceRelationships :=
  relate r (dr_attached_to r) (dr_stowed_in r) (dr_controller r) (dr_attached_devices r) (f (dr_controlled_devices r))
    (dr_stowed_devices r) (dr_assigned_replicant r) (dr_hosting_replicant r).
Definition on_stowed (f : list WorldKey → list WorldKey) (r : DeviceRelationships) : DeviceRelationships :=
  relate r (dr_attached_to r) (dr_stowed_in r) (dr_controller r) (dr_attached_devices r) (dr_controlled_devices r)
    (f (dr_stowed_devices r)) (dr_assigned_replicant r) (dr_hosting_replicant r).
Definition set_assigned (k : option WorldKey) (r : DeviceRelationships) : DeviceRelationships :=
  relate r (dr_attached_to r) (dr_stowed_in r) (dr_controller r) (dr_attached_devices r) (dr_controlled_devices r)
    (dr_stowed_devices r) k (dr_hosting_replicant r).
Definition set_hosting (k : option WorldKey) (r : DeviceRelationships) : DeviceRelationships :=
  relate r (dr_attached_to r) (dr_stowed_in r) (dr_controller r) (dr_attached_devices r) (dr_controlled_devices r)
    (dr_stowed_devices r) (dr_assigned_replicant r) k.

(** [contains], [push] and [sort]; [retain] *)
Definition realm_leb (a b : Realm) : bool :=
  match a, b with Live, _ => true | Simulation _, Live => false | Simulation x, Simulation y => x <=? y end.
Definition key_leb (a b : WorldKey) : bool :=
  if decide (wk_realm a = wk_realm b) then String.leb (wk_id a) (wk_id b) else realm_leb (wk_realm a) (wk_realm b).
Definition include_key (key : WorldKey) (keys : list WorldKey) : list WorldKey :=
  if decide (key ∈ keys) then keys else sort_by key_leb (keys ++ [key]).
Definition exclude_key (key : WorldKey) (keys : list WorldKey) : list WorldKey :=
  List.filter (λ k, negb (bool_decide (k = key))) keys.

Definition set_replicant (location hosted : option WorldKey) (travel : option (TravelState Value))
    (status : option string) (r : Replicant) : Replicant :=
  {| re_key := re_key r; re_name := re_name r; re_is_npc := re_is_npc r; re_status := status; re_location := location;
     re_hosted_device := hosted; re_travel := travel; re_private := re_private r; re_access := re_access r |}.

(** ** Device movement *)

(** ["device.attached"] and ["device.detached"] *)
Definition project_attachment (client : View) (event : Event) (realm : Realm) (carrier_key : WorldKey) (target : string) : Batch :=
  let child_key := in_realm realm target in
  let '(carrier, batch) := require_device client carrier_key no_effects in
  let '(child, batch) := require_device client child_key batch in
  match carrier, child with
  | Some carrier, Some child =>
      let attached := named event "device.attached" in
      let place (d : Device) := match dv_location (ob_value carrier) with Some l => set_location (Some l) d | None => d end in
      let carrier' := reobserved event (set_relationships (on_attached
        (if attached then include_key child_key else exclude_key child_key))) carrier in
      let child' := reobserved event (λ d, set_relationships (set_attached_to
        (if attached then Some carrier_key else None)) (place d)) child in
      clear_reconciliation (push_device child' (push_device carrier' batch))
  | _, _ => batch
  end.

(** ["device.stowed"] and ["device.deployed"] *)
Definition stowed_length (d : Device) : Z :=
  default i64_max (i64_try_from (Z.of_nat (length (dr_stowed_devices (dv_relationships d))))).
Definition project_stowage (client : View) (event : Event) (realm : Realm) (child_key : WorldKey) (carrier_code : string) : Batch :=
  let carrier_key := in_realm realm carrier_code in
  let '(child, batch) := require_device client child_key no_effects in
  let '(carrier, batch) := require_device client carrier_key batch in
  match child, carrier with
  | Some child, Some carrier =>
      let projected_used := Z.max (default 0 (dv_stow_used (ob_value carrier))) (stowed_length (ob_value carrier)) in
      let already_stowed := bool_decide (child_key ∈ dr_stowed_devices (dv_relationships (ob_value carrier))) in
      let '(stowed_in, change, used) :=
        if named event "device.stowed"
        then (Some carrier_key, include_key child_key,
              λ _ : Device, if already_stowed then projected_used else saturating_add_i64 projected_used 1)
        else (None, exclude_key child_key,
              λ d : Device, Z.max (saturating_sub_i64 projected_used 1) (stowed_length d)) in
      let child' := reobserved event (set_relationships (set_stowed_in stowed_in)) child in
      let carrier' := reobserved event (λ d, let d := set_relationships (on_stowed change) d in
        set_stow_used (Some (used d)) d) carrier in
      clear_reconciliation (push_device carrier' (push_device child' batch))
  | _, _ => batch
  end.

(** ["travel.departed"], ["travel.arrived"] and ["travel.cancelled"] *)
Definition departed_travel (event : Event) (realm : Realm) : TravelState Value :=
  {| tr_arrives_at := payload_str event "arrives_at"; tr_departed_at := Some (Journal.ev_occurred_at event);
     tr_destination := in_realm realm <$> payload_str event "destination"; tr_eta_seconds := None;
     tr_final_arrives_at := None; tr_final_destination := None;
     tr_origin := in_realm realm <$> payload_str event "origin"; tr_route_eta_seconds := None;
     tr_stage := Some "traveling"; tr_travel_type := payload_str event "travel_type"; tr_details := ∅ |}.
(** The place and the journey after the event. *)
Definition after_travel (event : Event) (realm : Realm) : option WorldKey * option (TravelState Value) :=
  if named event "travel.departed" then (None, Some (departed_travel event realm))
  else if named event "travel.arrived" then (in_realm realm <$> payload_str event "destination", None)
  else (in_realm realm <$> payload_str event "origin", None).

Definition move_device (client : View) (event : Event) (realm : Realm) (batch : Batch) (key : WorldKey) : Batch :=
  let '(known, batch) := require_device client key batch in
  match known with
  | None => batch
  | Some o =>
      let '(place, travel) := after_travel event realm in
      push_device (reobserved event (set_travel place travel) o) batch
  end.
Definition move_replicant (client : View) (event : Event) (realm : Realm) (key : WorldKey) (batch : Batch) : Batch :=
  match en_replicants (vw_engine client) !! key with
  | None => with_reconciliation (λ l, l ++ [replicant_reconciliation key]) batch
  | Some o =>
      let '(place, travel) := after_travel event realm in
      let status := if named event "travel.departed" then "travelling" else "stationary" in
      with_replicant (reobserved event (λ r, set_replicant place (re_hosted_device r) travel (Some status) r) o) batch
  end.
(** [BTreeSet] of the carrier and what is attached to it *)
Definition travelling (event : Event) (realm : Realm) (carrier_key : WorldKey) : list WorldKey :=
  sort_by key_leb (elements (list_to_set (C := gset WorldKey)
    (carrier_key :: (in_realm realm <$> strings (payload_field event "attached_devices"))))).
Definition project_travel (client : View) (event : Event) (realm : Realm) (carrier_key : WorldKey) : Batch :=
  let batch := foldl (move_device client event realm) no_effects (travelling event realm carrier_key) in
  let batch := match eb_devices batch with [] => batch | _ => clear_reconciliation batch end in
  match (carrier ← known_device client carrier_key; dr_hosting_replicant (dv_relationships (ob_value carrier))) with
  | Some replicant_key => move_replicant client event realm replicant_key batch
  | None => batch
  end.

(** ["replicant.transferred"] and ["teleport.completed"] *)
Definition project_transfer (client : View) (event : Event) (realm : Realm) (replicant_key : WorldKey) (host_code : string) : Batch :=
  let host_key := in_realm realm host_code in
  let batch := match en_replicants (vw_engine client) !! replicant_key with
    | Some o => with_replicant (reobserved event (λ r, set_replicant (re_location r) (Some host_key) (re_travel r) (re_status r) r) o) no_effects
    | None => reconciling [narrow_reconciliation event]
    end in
  match known_device client host_key with
  | Some o => push_device (reobserved event (set_relationships (set_hosting (Some replicant_key))) o) batch
  | None => with_reconciliation (λ l, l ++ [device_reconciliation host_key]) batch
  end.

(** [projection_device_movement] *)
Definition projection_device_movement (client : View) (event : Event) : Batch :=
  let narrow := projection_reconciliation_only client event in
  match Journal.ev_realm event with
  | None => narrow
  | Some realm =>
      let at_device (f : WorldKey → Batch) := match Journal.ev_device event with Some key => f key | None => narrow end in
      let with_str key (f : string → Batch) := match payload_str event key with Some s => f s | None => narrow end in
      if named event "device.decommissioned" then
        at_device (λ key, deleting [gone realm "device" (wk_id key) "device.decommissioned"] [])
      else if named event "device.attached" || named event "device.detached" then
        at_device (λ carrier, with_str "target_code" (project_attachment client event realm carrier))
      else if named event "device.stowed" || named event "device.deployed" then
        at_device (λ child, with_str (if named event "device.stowed" then "stowed_in_device_code" else "deployed_from_device_code")
          (project_stowage client event realm child))
      else if named event "device.changed_owner" then
        at_device (λ key,
          let '(known, batch) := require_device client key no_effects in
          match known with
          | None => batch
          | Some o => clear_reconciliation (push_device (reobserved event (set_relationships
              (set_assigned (in_realm realm <$> payload_str event "to_replicant"))) o) batch)
          end)
      else if named event "travel.departed" || named event "travel.arrived" || named event "travel.cancelled" then
        at_device (project_travel client event realm)
      else if named event "replicant.transferred" || named event "teleport.completed" then
        match Journal.ev_replicant event with
        | None => narrow
        | Some replicant => with_str (if named event "replicant.transferred" then "new_host" else "new_host_code")
            (project_transfer client event realm replicant)
        end
      else narrow
  end.

(** ** The world *)

Definition with_survey_complete (l : Location) : Location :=
  let p := lo_survey_progress l in
  {| lo_key := lo_key l; lo_location_type := lo_location_type l; lo_scanned := lo_scanned l;
     lo_system_scanned := lo_system_scanned l; lo_system_tags := lo_system_tags l; lo_system := lo_system l;
     lo_parent := lo_parent l; lo_custom_name := lo_custom_name l;
     lo_survey_progress := {| lp_planets_total := lp_planets_total p; lp_planets_scanned := lp_planets_scanned p;
       lp_moons_total := lp_moons_total p; lp_moons_scanned := lp_moons_scanned p;
       lp_moons_total_estimated := lp_moons_total_estimated p; lp_survey_system_complete := Some true |};
     lo_environment := lo_environment l; lo_unknown := lo_unknown l |}.
Definition with_custom_name (name : option string) (l : Location) : Location :=
  {| lo_key := lo_key l; lo_location_type := lo_location_type l; lo_scanned := lo_scanned l;
     lo_system_scanned := lo_system_scanned l; lo_system_tags := lo_system_tags l; lo_system := lo_system l;
     lo_parent := lo_parent l; lo_custom_name := name; lo_survey_progress := lo_survey_progress l;
     lo_environment := lo_environment l; lo_unknown := lo_unknown l |}.

(** [str::split('-').next()] *)
Definition before_hyphen (s : string) : string := match split_once s with Some (head, _) => head | None => s end.

Definition object_i64 (object : Object_) (key : string) : option Z := v ← get_field object key; value_as_i64 v.
Definition object_str (object : Object_) (key : string) : option string := v ← get_field object key; Json.as_str v.
Definition report (event : Event) : option Value := payload_field event "report".
Definition report_scans (event : Event) : list Object_ := objects (r ← report event; get r "scans").

(** [terminal_survey_system_digest] *)
Definition terminal_survey_system_digest (event : Event) : bool :=
  if negb (named event "ami.survey.digest") || negb (bool_decide (payload_str event "directive" = Some "survey_system"))
  then false
  else
    match (r ← report event; p ← get r "progress"; as_object p) with
    | None => false
    | Some progress =>
        match object_i64 progress "scanned", object_i64 progress "remaining", object_i64 progress "total" with
        | Some scanned, Some remaining, Some total =>
            bool_decide (remaining = 0) && bool_decide (0 ≤ total) && bool_decide (scanned = total)
        | _, _, _ => false
        end
    end.

(** [survey_digest_star] *)
Definition survey_digest_star (event : Event) : option string :=
  match Journal.ev_star event with
  | Some star => Some (wk_id star)
  | None =>
      match Journal.ev_location event with
      | Some location => Some (before_hyphen (wk_id location))
      | None => before_hyphen <$> head (omap (λ scan, object_str scan "scan_target") (report_scans event))
      end
  end.

(** The scans an event reports. *)
Definition scan_entries (event : Event) : list Object_ :=
  if named event "scan.completed" then [Journal.ev_payload event]
  else if named event "ami.survey.digest" then report_scans event else [].

(** One entry of [scan_projection]: a location, or the target to look at instead. *)
Definition scanned (event : Event) (realm : Realm) (entry : Object_) : option (Observation Location) :=
  target ← object_str entry "scan_target";
  scan_type ← object_str entry "scan_type";
  report ← (v ← get_field entry "report"; as_object v);
  scan_report_location target scan_type report realm (observation_time (Journal.ev_occurred_at event)) (Journal.ev_id event).
(** [scan_projection] *)
Definition scan_projection (event : Event) (realm : Realm) : list (Observation Location) * list string :=
  let entries := scan_entries event in
  (omap (scanned event realm) entries,
   sort_by String.leb (elements (list_to_set (C := gset string)
     (omap (λ entry, match scanned event realm entry with Some _ => None | None => object_str entry "scan_target" end) entries)))).

(** [resource_site] *)
Definition resource_site (event : Event) (realm : Realm) (location : option WorldKey) (value : Object_)
    : option (Observation ResourceSite) :=
  named ← (match get_field value "designation" with Some v => Some v | None => get_field value "site" end);
  designation ← Json.as_str named;
  Some (observed event
    {| rs_key := in_realm realm designation; rs_location := location; rs_site_type := object_str value "site_type";
       rs_name := object_str value "name"; rs_resources := object_map (get_field value "resources");
       rs_extra := extra value ["designation"; "site"; "site_type"; "name"; "resources"] |}).

(** The resource sites of the belt a scan reports. *)
Definition scan_sites (event : Event) (realm : Realm) (scan : Object_) : list (Observation ResourceSite) :=
  let location := in_realm realm <$> object_str scan "scan_target" in
  let sites := report ← (v ← get_field scan "report"; as_object v); belt ← (v ← get_field report "belt"; as_object v);
               get_field belt "resource_sites" in
  omap (resource_site event realm location) (objects sites).

(** ["scan.completed"] and ["ami.survey.digest"] *)
Definition project_scan (client : View) (event : Event) (realm : Realm) : Batch :=
  let '(locations, fallbacks) := scan_projection event realm in
  let targets := (λ id, location_reconciliation (in_realm realm id)) <$> fallbacks in
  let sites := scan_entries event ≫= scan_sites event realm in
  match (if terminal_survey_system_digest event then survey_digest_star event else None) with
  | None => only_locations locations sites targets
  | Some star_id =>
      let key := in_realm realm star_id in
      match en_locations (vw_engine client) !! key with
      | Some o => only_locations (locations ++ [reobserved event with_survey_complete o]) sites targets
      | None => only_locations locations sites (targets ++ [location_reconciliation key])
      end
  end.

(** [update_star_flag]; the star is looked up by its own key. *)
Definition flag_star (hub ward : option bool) (entry_point : option WorldKey) (s : Star) : Star :=
  {| sr_key := sr_key s; sr_name := sr_name s; sr_spectral_type := sr_spectral_type s;
     sr_entry_point := preserve entry_point (sr_entry_point s); sr_position := sr_position s;
     sr_has_hub := preserve hub (sr_has_hub s); sr_has_ward := preserve ward (sr_has_ward s);
     sr_knowledge_observed := sr_knowledge_observed s; sr_explored := sr_explored s; sr_has_life := sr_has_life s;
     sr_region := sr_region s |}.
Definition update_star_flag (client : View) (event : Event) (star_id : string) (hub ward : option bool)
    (entry_point : option string) : Batch :=
  let realm := or_live (Journal.ev_realm event) in
  let key := in_realm realm star_id in
  match List.find (λ o : Observation Star, bool_decide (sr_key (ob_value o) = key))
          (map_to_list (en_catalogue (vw_engine client))).*2 with
  | None => reconciling [location_reconciliation key]
  | Some o => only_star (reobserved event (flag_star hub ward (in_realm realm <$> entry_point)) o)
  end.

Definition location_event (event : Event) (realm : Realm) (designation : string) : LocationEvent :=
  {| lv_key := in_realm realm designation; lv_location := in_realm realm <$> payload_str event "location";
     lv_event_type := payload_str event "event_type"; lv_tier := payload_i64 event "tier";
     lv_title := payload_str event "title"; lv_description := payload_str event "description";
     lv_criteria := object_entries <$> objects (payload_field event "criteria");
     lv_extra := extra (Journal.ev_payload event)
       ["designation"; "location"; "event_type"; "tier"; "title"; "description"; "criteria"] |}.

(** [OperationalCapacity::new] *)
Definition operational_capacity (x : F64.t) : option F64.t :=
  if F64.is_finite x && F64.leb (F64.of_Z 0) x then Some x else None.

(** [projection_world_lifecycle] *)
Definition projection_world_lifecycle (client : View) (event : Event) : Batch :=
  let narrow := projection_reconciliation_only client event in
  match Journal.ev_realm event with
  | None => narrow
  | Some realm =>
      let with_str key (f : string → Batch) := match payload_str event key with Some s => f s | None => narrow end in
      if named event "scan.completed" || named event "ami.survey.digest" then project_scan client event realm
      else if named event "search.completed" then
        let location := in_realm realm <$> payload_str event "search_target" in
        match (object ← (v ← report event; as_object v); resource_site event realm location object) with
        | Some site => only_locations [] [site] []
        | None => narrow
        end
      else if named event "site.depleted" then
        with_str "site" (λ site, deleting [gone realm "resource_site" site "site.depleted"] [])
      else if named event "event.discovered" then
        with_str "designation" (λ designation, only_location_event (observed event (location_event event realm designation)))
      else if named event "event.completed" then
        with_str "designation" (λ designation, deleting [gone realm "location_event" designation "event.completed"] [])
      else if named event "hub.activated" || named event "hub.destroyed" then
        with_str "star" (λ star, update_star_flag client event star (Some (named event "hub.activated")) None None)
      else if named event "ward.activated" || named event "ward.deactivated" then
        match Journal.ev_star event with
        | None => narrow
        | Some star => update_star_flag client event (wk_id star) None (Some (named event "ward.activated")) None
        end
      else if named event "system.entry_point_set" then
        with_str "star" (λ star, with_str "entry_point" (λ entry, update_star_flag client event star None None (Some entry)))
      else if named event "system.body_renamed" then
        with_str "designation" (λ designation,
          let key := in_realm realm designation in
          match en_locations (vw_engine client) !! key with
          | None => reconciling [location_reconciliation key]
          | Some o => only_locations [reobserved event (with_custom_name (payload_str event "new_name")) o] [] []
          end)
      else if named event "hub.warning" || named event "hub.maintained" then
        match Journal.ev_device event with
        | None => narrow
        | Some key =>
            let '(known, batch) := require_device client key no_effects in
            match known with
            | None => batch
            | Some o =>
                let capacity := v ← payload_field event "capacity"; x ← (match v with Number n => as_f64 n | _ => None end);
                                operational_capacity x in
                clear_reconciliation (push_device (reobserved event (set_operational_capacity capacity) o) batch)
            end
        end
      else narrow
  end.

(** ** Account content *)

Definition or_field (object : Object_) (a b : string) : option Value :=
  match get_field object a with Some v => Some v | None => get_field object b end.

(** ["blueprint.unlocked"] *)
Definition unlocked_blueprint (event : Event) (device_type : string) : Blueprint :=
  {| bl_id := device_type; bl_device_type := Some device_type;
     bl_short_description := payload_str event "short_description"; bl_description := payload_str event "description";
     bl_print_time_seconds := v ← payload_field event "print_time"; (match v with Number n => as_f64 n | _ => None end);
     bl_resources := integer_map (payload_field event "resources");
     bl_components := integer_map (payload_field event "components"); bl_features := []; bl_directives := [];
     bl_cargo_capacity := None; bl_attach_capacity := None; bl_stow_capacity := None; bl_queue_size := None;
     bl_unknown :=
       let unknown := extra (Journal.ev_payload event)
         ["device_type"; "short_description"; "description"; "resources"; "components"; "print_time"] in
       match payload_field event "requires_autofactory" with
       | Some value => <["requires_autofactory" := value]> unknown
       | None => unknown
       end |}.

(** ["message.new"] *)
Definition new_message (event : Event) : Message :=
  {| ms_id := payload_i64 event "message_id"; ms_title := payload_str event "title";
     ms_body := payload_str event "body"; ms_category := None; ms_subcategory := None;
     ms_message_type := payload_str event "message_type"; ms_is_read := Some false;
     ms_created_at := Some (Journal.ev_occurred_at event) |}.

(** The devices a completed trade changes. *)
Definition traded_devices (event : Event) (realm : Realm) (controller : WorldKey) : list ReconciliationTarget :=
  let outcome key := strings (object ← (v ← payload_field event key; as_object v); get_field object "devices") in
  device_reconciliation controller ::
  ((λ code, device_reconciliation (in_realm realm code)) <$>
     strings (payload_field event "new_device_codes") ++ outcome "rewards_received" ++ outcome "criteria_received").
Definition event_trade (event : Event) (realm : Realm) (controller : WorldKey) (code : string) : Trade :=
  let payload := Journal.ev_payload event in
  {| td_key := in_realm realm code; td_controller := controller;
     td_status := Some (if named event "trade.created" then "active" else "completed");
     td_name := v ← or_field payload "name" "trade_name"; Json.as_str v;
     td_remaining_stock := v ← or_field payload "remaining_stock" "stock"; value_as_i64 v;
     td_extra := extra payload ["trade_code"; "name"; "trade_name"; "remaining_stock"; "stock"] |}.

(** [projection_account_content] *)
Definition projection_account_content (client : View) (event : Event) : Batch :=
  let narrow := projection_reconciliation_only client event in
  let realm := or_live (Journal.ev_realm event) in
  if named event "blueprint.unlocked" then
    match payload_str event "device_type" with
    | None => narrow
    | Some device_type => only_blueprint (observed event (unlocked_blueprint event device_type))
    end
  else if named event "message.new" then only_message (observed event (new_message event))
  else if named event "trade.created" || named event "trade.completed" then
    match Journal.ev_device event with
    | None => narrow
    | Some controller =>
        let completed := named event "trade.completed" in
        let batch := if completed then reconciling (traded_devices event realm controller) else no_effects in
        match payload_str event "trade_code" with
        | None => if completed then batch else narrow
        | Some code => trading (observed event (event_trade event realm controller code)) batch
        end
    end
  else if named event "trade.deleted" then
    match payload_str event "trade_code" with
    | None => narrow
    | Some code => deleting [gone realm "trade" code "trade.deleted"] []
    end
  else if named event "megastructure.contributed" then
    deleting ((λ code, gone realm "device" code "megastructure.contributed") <$>
                omap (λ o, object_str o "device_code") (objects (payload_field event "contributed_devices")))
             [narrow_reconciliation event]
  else narrow.

(** ** Salvage and incoming objects *)

Definition salvage_site (event : Event) (realm : Realm) (designation : string) : ResourceSite :=
  {| rs_key := in_realm realm designation; rs_location := in_realm realm <$> payload_str event "location";
     rs_site_type := payload_str event "salvage_type"; rs_name := payload_str event "name";
     rs_resources := object_map (payload_field event "resources");
     rs_extra := extra (Journal.ev_payload event) ["designation"; "location"; "salvage_type"; "name"; "resources"] |}.
Definition detected_object (event : Event) (realm : Realm) (designation : string) : IncomingObject :=
  {| io_key := in_realm realm designation; io_star := Journal.ev_star event;
     io_size_class := payload_str event "size_class";
     io_impact_target := in_realm realm <$> payload_str event "impact_target";
     io_impact_eta := payload_str event "impact_eta"; io_discovery_source := payload_str event "discovery_source";
     io_status := Detected; io_propulsor := None;
     io_extra := extra (Journal.ev_payload event)
       ["object_designation"; "size_class"; "impact_target"; "impact_eta"; "discovery_source"] |}.

Definition set_object (o : IncomingObject) (size_class : option string) (status : IncomingObjectStatus)
    (propulsor : option WorldKey) (more : JsonMap) : IncomingObject :=
  {| io_key := io_key o; io_star := io_star o; io_size_class := size_class; io_impact_target := io_impact_target o;
     io_impact_eta := io_impact_eta o; io_discovery_source := io_discovery_source o; io_status := status;
     io_propulsor := propulsor; io_extra := more |}.
Definition unseen_object (event : Event) (key : WorldKey) : IncomingObject :=
  {| io_key := key; io_star := Journal.ev_star event; io_size_class := None; io_impact_target := None;
     io_impact_eta := None; io_discovery_source := None; io_status := Detected; io_propulsor := None; io_extra := ∅ |}.

(** [LocationsGateway::incoming_objects] *)
Definition incoming_objects (client : View) : list IncomingObject :=
  sort_by (λ a b, key_leb (io_key a) (io_key b)) (ob_value <$> (map_to_list (vw_incoming_objects client)).*2).

(** The events whose name starts with ["diversion."] *)
Definition deactivated_objects (client : View) (key : WorldKey) : list IncomingObject :=
  List.filter (λ o, bool_decide (io_propulsor o = Some key)
    && bool_decide (io_status o = DiversionActive ∨ io_status o = Partial)) (incoming_objects client).
Definition project_deactivation (client : View) (event : Event) (key : WorldKey) : Batch :=
  match deactivated_objects client key with
  | [o] => only_incoming_object (observed event (set_object o (io_size_class o) (io_status o) None (io_extra o)))
  | _ => reconciling [device_reconciliation key]
  end.
Definition diversion_status (event : Event) (current : IncomingObjectStatus) : IncomingObjectStatus :=
  if named event "diversion.activated" then DiversionActive
  else if named event "diversion.partial" then Partial
  else if named event "diversion.diverted" then Diverted
  else if named event "diversion.impacted" then Impacted else current.
Definition project_diversion (client : View) (event : Event) (key : WorldKey) : Batch :=
  let o := default (unseen_object event key) (List.find (λ o, bool_decide (io_key o = key)) (incoming_objects client)) in
  let activated := named event "diversion.activated" in
  let size_class := if activated then preserve (payload_str event "size_class") (io_size_class o) else io_size_class o in
  let propulsor := if activated then Journal.ev_device event else io_propulsor o in
  only_incoming_object (observed event (set_object o size_class (diversion_status event (io_status o)) propulsor
    (extra (Journal.ev_payload event) ["object_designation"; "size_class"; "outcome"] ∪ io_extra o))).

(** [projection_automation_primitives] *)
Definition projection_automation_primitives (client : View) (event : Event) : Batch :=
  let narrow := projection_reconciliation_only client event in
  match Journal.ev_realm event with
  | None => narrow
  | Some realm =>
      let with_str key (f : string → Batch) := match payload_str event key with Some s => f s | None => narrow end in
      if named event "salvage.discovered" then
        with_str "designation" (λ designation, only_locations [] [observed event (salvage_site event realm designation)] [])
      else if named event "salvage.depleted" then
        with_str "site" (λ site, deleting [gone realm "resource_site" site "salvage.depleted"] [])
      else if named event "system.object_detected" then
        with_str "object_designation" (λ designation, only_incoming_object (observed event (detected_object event realm designation)))
      else if String.prefix "diversion." (Journal.ev_name event) then
        if named event "diversion.deactivated"
        then with_str "device_code" (λ code, project_deactivation client event (in_realm realm code))
        else with_str "object_designation" (λ designation, project_diversion client event (in_realm realm designation))
      else narrow
  end.

(** ** Operations *)

(** ["ami.adopted"] and ["ami.released"]: one child *)
Definition adopt_child (client : View) (event : Event) (controller_key : WorldKey)
    (state : Batch * Observation Device) (child_key : WorldKey) : Batch * Observation Device :=
  let '(batch, controller) := state in
  let '(known, batch) := require_device client child_key batch in
  match known with
  | None => (batch, controller)
  | Some child =>
      let adopted := named event "ami.adopted" in
      let change keys := if adopted
        then (if decide (child_key ∈ keys) then keys else keys ++ [child_key]) else exclude_key child_key keys in
      (push_device (reobserved event (set_relationships (set_controller
          (if adopted then Some controller_key else None))) child) batch,
       {| ob_value := set_relationships (on_controlled change) (ob_value controller); ob_metadata := ob_metadata controller |})
  end.
Definition project_adoption (client : View) (event : Event) (realm : Realm) (controller_key : WorldKey) : Batch :=
  let children := in_realm realm <$> omap (λ o, object_str o "device_code") (objects (payload_field event "devices")) in
  let '(known, batch) := require_device client controller_key no_effects in
  match known with
  | None => batch
  | Some controller =>
      let '(batch, controller) := foldl (adopt_child client event controller_key) (batch, controller) children in
      let batch := push_device (reobserved event (set_relationships (on_controlled (sort_by key_leb))) controller) batch in
      if decide (length (eb_devices batch) = S (length children)) then clear_reconciliation batch else batch
  end.

(** The events whose name starts with ["directive."] *)
Definition directive_status (event : Event) : string :=
  if named event "directive.completed" then "completed"
  else if named event "directive.paused" then "paused"
  else if named event "directive.resumed" || named event "directive.set" then "active" else "unknown".
Definition project_directive (client : View) (event : Event) (key : WorldKey) : Batch :=
  let '(known, batch) := require_device client key no_effects in
  match known with
  | None => batch
  | Some o =>
      let directive := if named event "directive.cleared" then None else
        Some {| ad_directive := payload_str event "directive"; ad_status := Some (directive_status event);
                ad_details := object_map (payload_field event "configuration") |} in
      clear_reconciliation (push_device (reobserved event (set_directive directive) o) batch)
  end.

(** ["print.completed"] *)
Definition project_print (event : Event) (realm : Realm) : Batch :=
  deleting ((λ code, gone realm "device" code "print.completed") <$> strings (payload_field event "consumed_device_codes"))
    (option_list (device_reconciliation <$> Journal.ev_device event)
     ++ option_list ((λ code, device_reconciliation (in_realm realm code)) <$> payload_str event "new_device_code")).

(** ["simulation.started"], and the three ends of a simulation *)
Definition started_simulation (event : Event) (id : Z) : SimulationRun :=
  {| si_id := id; si_scenario_code := payload_str event "scenario_code"; si_scenario_name := None;
     si_starting_location := None; si_starting_star := in_realm (Simulation id) <$> payload_str event "starting_star";
     si_is_mine := true; si_started_at := Some (Journal.ev_occurred_at event); si_completed_at := None;
     si_lifecycle := Active; si_seed_failures := []; si_replicant_code := wk_id <$> Journal.ev_replicant event |}.
Definition ended_simulation (event : Event) (s : SimulationRun) : SimulationRun :=
  {| si_id := si_id s; si_scenario_code := si_scenario_code s; si_scenario_name := si_scenario_name s;
     si_starting_location := si_starting_location s; si_starting_star := si_starting_star s;
     si_is_mine := si_is_mine s; si_started_at := si_started_at s;
     si_completed_at := Some (Journal.ev_occurred_at event); si_lifecycle := Ended;
     si_seed_failures := si_seed_failures s; si_replicant_code := si_replicant_code s |}.
Definition project_simulation_end (client : View) (event : Event) (id : Z) : Batch :=
  let batch := deleting ((λ o, gone (Simulation id) "device" (wk_id (dv_key (ob_value o))) "simulation-terminal-event") <$>
    List.filter (λ o : Observation Device, bool_decide (wk_realm (dv_key (ob_value o)) = Simulation id))
      (map_to_list (en_devices (vw_engine client))).*2) [] in
  match List.find (λ o : Observation SimulationRun, bool_decide (si_id (ob_value o) = id))
          (map_to_list (en_simulations (vw_engine client))).*2 with
  | Some o => with_simulation (reobserved event (ended_simulation event) o) batch
  | None => batch
  end.

(** ["transport.collected"] and ["transport.delivered"] *)
Definition move_cargo (event : Event) (cargo : gmap string Z) : gmap string Z :=
  let change := if named event "transport.collected" then saturating_add_i64 else saturating_sub_i64 in
  map_fold (λ resource quantity cargo, <[resource := change (default 0 (cargo !! resource)) quantity]> cargo)
    cargo (integer_map (payload_field event "resources")).
Definition project_cargo (client : View) (event : Event) (key : WorldKey) : Batch :=
  let '(known, batch) := require_device client key no_effects in
  match known with
  | None => batch
  | Some o => clear_reconciliation (push_device (reobserved event (λ d,
      set_cargo (move_cargo event (dv_cargo d)) (preserve (payload_i64 event "cargo_capacity") (dv_cargo_capacity d)) d) o) batch)
  end.

(** [projection_operational_lifecycle] *)
Definition projection_operational_lifecycle (client : View) (event : Event) : Batch :=
  let narrow := projection_reconciliation_only client event in
  let realm := or_live (Journal.ev_realm event) in
  let at_device (f : WorldKey → Batch) := match Journal.ev_device event with Some key => f key | None => narrow end in
  let with_simulation_id (f : Z → Batch) := match payload_i64 event "simulation_id" with Some id => f id | None => narrow end in
  if named event "ami.adopted" || named event "ami.released" then at_device (project_adoption client event realm)
  else if String.prefix "directive." (Journal.ev_name event) then at_device (project_directive client event)
  else if named event "print.completed" then project_print event realm
  else if named event "simulation.started" then
    with_simulation_id (λ id, with_simulation (observed event (started_simulation event id)) no_effects)
  else if named event "simulation.abandoned" || named event "simulation.completed" || named event "simulation.expired" then
    with_simulation_id (project_simulation_end client event)
  else if named event "transport.collected" || named event "transport.delivered" then at_device (project_cargo client event)
  else narrow.

(** ** The treatment of each event name *)

Inductive EventProjectionKind := Upsert | Delete | ReconciliationOnly | HistoryOnly.
Inductive EventReplayKind := Rebuild | Reconcile | ForwardOnly | NotApplicable.
#[global] Instance EventProjectionKind_eq : EqDecision EventProjectionKind.
Proof. solve_decision. Defined.
#[global] Instance EventReplayKind_eq : EqDecision EventReplayKind.
Proof. solve_decision. Defined.

Record EventTreatment := {
  et_projection : EventProjectionKind;
  et_replay : EventReplayKind;
  et_reduce : View → Event → Batch;
}.

Definition EVENT_TREATMENTS : list (string * EventTreatment) :=
  let treat projection replay reduce := {| et_projection := projection; et_replay := replay; et_reduce := reduce |} in
  [
    ("ami.adopted", treat Upsert ForwardOnly projection_operational_lifecycle);
    ("ami.assembled", treat ReconciliationOnly Reconcile projection_reconciliation_only);
    ("ami.launched", treat ReconciliationOnly Reconcile projection_reconciliation_only);
    ("ami.mining.digest", treat HistoryOnly NotApplicable projection_history_only);
    ("ami.released", treat Upsert ForwardOnly projection_operational_lifecycle);
    ("ami.survey.digest", treat Upsert Rebuild projection_world_lifecycle);
    ("ami.transport.digest", treat HistoryOnly NotApplicable projection_history_only);
    ("ami.withdrawn", treat ReconciliationOnly Reconcile projection_reconciliation_only);
    ("blueprint.unlocked", treat Upsert ForwardOnly projection_account_content);
    ("bobnet.new", treat HistoryOnly NotApplicable projection_history_only);
    ("device.attached", treat Upsert ForwardOnly projection_device_movement);
    ("device.changed_owner", treat Upsert ForwardOnly projection_device_movement);
    ("device.compacted", treat ReconciliationOnly Reconcile projection_reconciliation_only);
    ("device.compacting", treat ReconciliationOnly Reconcile projection_reconciliation_only);
    ("device.decommissioned", treat Delete ForwardOnly projection_device_movement);
    ("device.deployed", treat Upsert ForwardOnly projection_device_movement);
    ("device.detached", treat Upsert ForwardOnly projection_device_movement);
    ("device.stowed", treat Upsert ForwardOnly projection_device_movement);
    ("device.unfurled", treat ReconciliationOnly Reconcile projection_reconciliation_only);
    ("device.unfurling", treat ReconciliationOnly Reconcile projection_reconciliation_only);
    ("directive.cleared", treat Upsert ForwardOnly projection_operational_lifecycle);
    ("directive.completed", treat Upsert ForwardOnly projection_operational_lifecycle);
    ("directive.paused", treat Upsert ForwardOnly projection_operational_lifecycle);
    ("directive.resumed", treat Upsert ForwardOnly projection_operational_lifecycle);
    ("directive.set", treat Upsert ForwardOnly projection_operational_lifecycle);
    ("diversion.activated", treat Upsert Rebuild projection_automation_primitives);
    ("diversion.deactivated", treat Upsert Rebuild projection_automation_primitives);
    ("diversion.diverted", treat Upsert Rebuild projection_automation_primitives);
    ("diversion.impacted", treat Upsert Rebuild projection_automation_primitives);
    ("diversion.partial", treat Upsert Rebuild projection_automation_primitives);
    ("event.completed", treat Delete Rebuild projection_world_lifecycle);
    ("event.discovered", treat Upsert Rebuild projection_world_lifecycle);
    ("experience.gained", treat ReconciliationOnly Reconcile projection_reconciliation_only);
    ("hub.activated", treat Upsert ForwardOnly projection_world_lifecycle);
    ("hub.destroyed", treat Upsert ForwardOnly projection_world_lifecycle);
    ("hub.maintained", treat Upsert ForwardOnly projection_world_lifecycle);
    ("hub.warning", treat Upsert ForwardOnly projection_world_lifecycle);
    ("megastructure.contributed", treat Delete ForwardOnly projection_account_content);
    ("message.new", treat Upsert ForwardOnly projection_account_content);
    ("mining.relocated", treat ReconciliationOnly Reconcile projection_reconciliation_only);
    ("mining.retargeted", treat ReconciliationOnly Reconcile projection_reconciliation_only);
    ("mining.started", treat ReconciliationOnly Reconcile projection_reconciliation_only);
    ("mining.stopped", treat ReconciliationOnly Reconcile projection_reconciliation_only);
    ("multiplayer.replicant_entered", treat HistoryOnly NotApplicable projection_history_only);
    ("multiplayer.replicant_left", treat HistoryOnly NotApplicable projection_history_only);
    ("print.completed", treat Upsert ForwardOnly projection_operational_lifecycle);
    ("print.started", treat HistoryOnly NotApplicable projection_history_only);
    ("prospect.completed", treat ReconciliationOnly Reconcile projection_reconciliation_only);
    ("relay.activated", treat ReconciliationOnly Reconcile projection_reconciliation_only);
    ("replicant.transferred", treat Upsert ForwardOnly projection_device_movement);
    ("salvage.depleted", treat Delete Rebuild projection_automation_primitives);
    ("salvage.discovered", treat Upsert Rebuild projection_automation_primitives);
    ("scan.completed", treat Upsert Rebuild projection_world_lifecycle);
    ("scan.started", treat HistoryOnly NotApplicable projection_history_only);
    ("search.completed", treat Upsert Rebuild projection_world_lifecycle);
    ("search.started", treat HistoryOnly NotApplicable projection_history_only);
    ("simulation.abandoned", treat Delete ForwardOnly projection_operational_lifecycle);
    ("simulation.completed", treat Delete ForwardOnly projection_operational_lifecycle);
    ("simulation.expired", treat Delete ForwardOnly projection_operational_lifecycle);
    ("simulation.started", treat Upsert ForwardOnly projection_operational_lifecycle);
    ("site.depleted", treat Delete Rebuild projection_world_lifecycle);
    ("story.awakened", treat ReconciliationOnly Reconcile projection_reconciliation_only);
    ("story.hint", treat HistoryOnly NotApplicable projection_history_only);
    ("system.body_renamed", treat Upsert ForwardOnly projection_world_lifecycle);
    ("system.devices_halted", treat ReconciliationOnly Reconcile projection_reconciliation_only);
    ("system.entry_point_set", treat Upsert ForwardOnly projection_world_lifecycle);
    ("system.object_detected", treat Upsert Rebuild projection_automation_primitives);
    ("teleport.completed", treat Upsert ForwardOnly projection_device_movement);
    ("teleport.failed", treat HistoryOnly NotApplicable projection_history_only);
    ("teleport.started", treat HistoryOnly NotApplicable projection_history_only);
    ("trade.completed", treat Upsert ForwardOnly projection_account_content);
    ("trade.created", treat Upsert ForwardOnly projection_account_content);
    ("trade.deleted", treat Delete ForwardOnly projection_account_content);
    ("transport.collected", treat Upsert ForwardOnly projection_operational_lifecycle);
    ("transport.delivered", treat Upsert ForwardOnly projection_operational_lifecycle);
    ("travel.arrived", treat Upsert ForwardOnly projection_device_movement);
    ("travel.cancelled", treat Upsert ForwardOnly projection_device_movement);
    ("travel.departed", treat Upsert ForwardOnly projection_device_movement);
    ("triangulation.complete", treat HistoryOnly NotApplicable projection_history_only);
    ("triangulation.failed", treat HistoryOnly NotApplicable projection_history_only);
    ("triangulation.started", treat HistoryOnly NotApplicable projection_history_only);
    ("ward.activated", treat Upsert ForwardOnly projection_world_lifecycle);
    ("ward.deactivated", treat Upsert ForwardOnly projection_world_lifecycle)
  ].

(** [event_treatment] *)
Definition event_treatment (name : string) : option EventTreatment :=
  snd <$> List.find (λ t : string * EventTreatment, bool_decide (t.1 = name)) EVENT_TREATMENTS.

(** The reduction of [apply_event]: an event without a treatment asks for a refresh. *)
Definition reduce (client : View) (event : Event) : Batch :=
  match event_treatment (Journal.ev_name event) with
  | Some treatment => et_reduce treatment client event
  | None => projection_reconciliation_only client event
  end.

End Reducers.
