(* ===== verification/EventPipeline.v ===== *)
(** * The event pipeline of the managed client

    [src/managed/events.rs], with the part of [src/managed/state.rs] that publishes an
    applied event and [account_event] of [src/domain/adapters.rs]: the one applier, the
    catch-up over the unfiltered log, and what the filtered stream and the process do to
    them.

    An application has three parts, each of which can be the last one before a crash: the
    store commits the event with its effects and the cursor, the operation journal is shown
    the event, the watchers are told.  [apply_event] is their composition; [step] takes them
    apart and adds failed store calls, crashes and restarts. *)

From S2P Require Import Prelude Float64 Json Observations Entities Locations.
From S2P Require Import ManagedState Mutations Operations EventLog EventReducers.

Section Pipeline.
Context `{JN : JsonNumber} {Atmosphere : Type}.

Abbreviation Device := (Entities.Device Value).
Abbreviation Location := (Locations.Location Value Atmosphere).
Abbreviation Engine := (ManagedState.Engine (Json := Value) (Atmosphere := Atmosphere)).
Abbreviation Event := Journal.Event.
Abbreviation Batch := (EventProjectionBatch Atmosphere).

Variable parse_rfc3339 : string → option Z.
Variable scan_report_location :
  string → string → Object_ → Realm → Z → string → option (Observation Location).
(** [Display] of a store error, which quotes the libraries' errors *)
Variable display : StoreError → string.

(** ** Events of the wire *)

(** [raw::events::GameEvent] *)
Record GameEvent := {
  ge_id : string;
  ge_version : Z;
  ge_category : string;
  ge_event : string;
  ge_replicant_code : option string;
  ge_device_code : option string;
  ge_device_type : option string;
  ge_star : option string;
  ge_location : option string;
  ge_payload : Object_;
  ge_created_at : string;
  ge_extra : Object_;
}.

(** [sort] and [dedup] of realms, when there is exactly one *)
Definition single_realm (realms : list Realm) : option Realm :=
  match elements (list_to_set (C := gset Realm) realms) with [realm] => Some realm | _ => None end.

(** [resolve_realm] *)
Definition resolve_realm (e : Engine) (raw : GameEvent) : option Realm :=
  match (v ← get_field (ge_payload raw ++ ge_extra raw) "simulation_id"; value_as_i64 v) with
  | Some id => Some (Simulation id)
  | None =>
      let by_device := code ← ge_device_code raw;
        single_realm ((λ k, wk_realm k) <$>
          List.filter (λ k, bool_decide (wk_id k = code)) ((λ o, dv_key (ob_value o)) <$> (map_to_list (en_devices e)).*2)) in
      let by_replicant := code ← ge_replicant_code raw;
        single_realm ((λ s, Simulation (si_id s)) <$>
          List.filter (λ s, bool_decide (si_replicant_code s = Some code)
              && match si_lifecycle s with Ended => false | _ => true end)
            (ob_value <$> (map_to_list (en_simulations e)).*2)) in
      match by_device, by_replicant with
      | Some realm, _ => Some realm
      | None, Some realm => Some realm
      | None, None =>
          match ge_location raw, ge_star raw with None, None => None | _, _ => Some Live end
      end
  end.

(** [account_event] *)
Definition account_event (raw : GameEvent) (realm : option Realm) : Event :=
  let key code := realm ← realm; id ← code; Some {| wk_realm := realm; wk_id := id |} in
  {| Journal.ev_id := ge_id raw; Journal.ev_realm := realm; Journal.ev_name := ge_event raw;
     Journal.ev_category := ge_category raw; Journal.ev_device := key (ge_device_code raw);
     Journal.ev_replicant := key (ge_replicant_code raw); Journal.ev_location := key (ge_location raw);
     Journal.ev_star := key (ge_star raw); Journal.ev_occurred_at := ge_created_at raw;
     Journal.ev_payload := ge_payload raw |}.

(** ** Publication *)

(** The engine and the store it writes through; the primary database of the store is the
    durable part of the engine. *)
Record Managed := { mg_engine : Engine; mg_store : LogStore Atmosphere }.

(** The merge of the incoming locations, in the batch and in the snapshot. *)
Definition merge_location (state : list (Observation Location) * gmap WorldKey (Observation Location))
    (o : Observation Location) : list (Observation Location) * gmap WorldKey (Observation Location) :=
  let '(out, known) := state in
  let o := match known !! lo_key (ob_value o) with
           | Some existing => {| ob_value := merge_from (ob_value existing) (ob_value o); ob_metadata := ob_metadata o |}
           | None => o
           end in
  (out ++ [o], <[lo_key (ob_value o) := o]> known).
Definition with_locations (locations : list (Observation Location)) (b : Batch) : Batch :=
  {| eb_devices := eb_devices b; eb_replicants := eb_replicants b; eb_locations := locations;
     eb_stars := eb_stars b; eb_resource_sites := eb_resource_sites b; eb_location_events := eb_location_events b;
     eb_incoming_objects := eb_incoming_objects b; eb_messages := eb_messages b; eb_blueprints := eb_blueprints b;
     eb_trades := eb_trades b; eb_simulations := eb_simulations b; eb_deletions := eb_deletions b;
     eb_reconciliation := eb_reconciliation b |}.

(** The published catalogue merges a star where the store replaces it. *)
Definition merge_event_star (catalogue : gmap WorldKey (Observation Star)) (incoming : Observation Star)
    : gmap WorldKey (Observation Star) :=
  let key := sr_key (ob_value incoming) in
  <[key := match catalogue !! key with
           | Some current => merged (merge_star current incoming)
           | None => incoming
           end]> catalogue.

Definition is_device_deletion (d : ProjectionTombstone) : bool := bool_decide (pt_kind d = "device").
Definition nonempty {A} (l : list A) : bool := match l with [] => false | _ => true end.
Definition is_true_Z (b : bool) : Z := if b then 1 else 0.

Definition publish_event (previous : Engine) (batch : Batch) (durable : Durable) : Engine :=
  let galaxy_changed := nonempty (eb_devices batch) || nonempty (eb_locations batch) || nonempty (eb_stars batch)
                        || existsb is_device_deletion (eb_deletions batch) in
  {| en_revision := en_revision previous + 1;
     en_galaxy_revision := en_galaxy_revision previous + is_true_Z galaxy_changed;
     en_galaxy_projection_revision := en_galaxy_projection_revision previous + is_true_Z (nonempty (eb_stars batch));
     en_devices := foldl (λ m d, delete (in_realm (pt_realm d) (pt_item_id d)) m)
       (upsert dv_key (eb_devices batch) (en_devices previous)) (List.filter is_device_deletion (eb_deletions batch));
     en_replicants := upsert re_key (eb_replicants batch) (en_replicants previous);
     en_locations := upsert lo_key (eb_locations batch) (en_locations previous);
     en_simulations := upsert si_id (eb_simulations batch) (en_simulations previous);
     en_catalogue := foldl merge_event_star (en_catalogue previous) (eb_stars batch);
     en_generated_at := en_generated_at previous; en_durable := durable |}.

(** [StateEngine::apply_event_projection] *)
Definition apply_event_projection (outcomes : Outcomes) (event : Event) (cursor : string) (batch : Batch)
    (m : Managed) : result StoreError bool * Managed :=
  let batch := with_locations (foldl merge_location ([], en_locations (mg_engine m)) (eb_locations batch)).1 batch in
  match store_apply_event_projection outcomes event cursor batch (mg_store m) with
  | (Ok true, s) => (Ok true, {| mg_engine := publish_event (mg_engine m) batch (ls_primary s).1; mg_store := s |})
  | (r, s) => (r, {| mg_engine := mg_engine m; mg_store := s |})
  end.

(** ** The applier *)

(** Where an application stands, and what the applications so far did: the events that were
    committed, shown to the journal, and published to the watchers. *)
Inductive Phase := Idle | Committed (event : Event) | Resolved (event : Event).
Record Pipeline := {
  pl_managed : Managed;
  pl_phase : Phase;
  pl_committed : list string;
  pl_resolved : list string;
  pl_published : list Event;
}.
Definition in_phase (phase : Phase) (p : Pipeline) : Pipeline :=
  {| pl_managed := pl_managed p; pl_phase := phase; pl_committed := pl_committed p; pl_resolved := pl_resolved p;
     pl_published := pl_published p |}.
Definition on_managed (m : Managed) (p : Pipeline) : Pipeline :=
  {| pl_managed := m; pl_phase := pl_phase p; pl_committed := pl_committed p; pl_resolved := pl_resolved p;
     pl_published := pl_published p |}.
Definition store_of (p : Pipeline) : LogStore Atmosphere := mg_store (pl_managed p).
Definition cursor_of (p : Pipeline) : option string := ls_cursor (store_of p).

Inductive ApplyOutcome := Applied | Duplicate.

Definition persistence_error (error : StoreError) : Journal.Error := Journal.Persistence (display error).

Definition view_of (m : Managed) : View :=
  {| vw_engine := mg_engine m; vw_incoming_objects := ta_incoming_objects (ls_primary (mg_store m)).2 |}.

(** The first part of [apply_event]: reduction and commit. *)
Definition commit_event (outcomes : Outcomes) (raw : GameEvent) (p : Pipeline) : result Journal.Error bool * Pipeline :=
  let m := pl_managed p in
  let event := account_event raw (resolve_realm (mg_engine m) raw) in
  let batch := reduce parse_rfc3339 scan_report_location (view_of m) event in
  match apply_event_projection outcomes event (ge_id raw) batch m with
  | (Err error, m) => (Err (persistence_error error), on_managed m p)
  | (Ok false, m) => (Ok false, on_managed m p)
  | (Ok true, m) =>
      (Ok true, {| pl_managed := m; pl_phase := Committed event; pl_committed := pl_committed p ++ [ge_id raw];
                   pl_resolved := pl_resolved p; pl_published := pl_published p |})
  end.

(** The second: [resolve_awaiting_evidence], whose outcome is an argument, for an event of a
    known realm. *)
Definition resolve_event (evidence : result Journal.Error unit) (event : Event) (p : Pipeline)
    : result Journal.Error unit * Pipeline :=
  match Journal.ev_realm event, evidence with
  | None, _ => (Ok tt, in_phase (Resolved event) p)
  | Some _, Err error => (Err error, in_phase Idle p)
  | Some _, Ok _ =>
      (Ok tt, {| pl_managed := pl_managed p; pl_phase := Resolved event; pl_committed := pl_committed p;
                 pl_resolved := pl_resolved p ++ [Journal.ev_id event]; pl_published := pl_published p |})
  end.

(** The third: [notify]. *)
Definition publish (event : Event) (p : Pipeline) : Pipeline :=
  {| pl_managed := pl_managed p; pl_phase := Idle; pl_committed := pl_committed p; pl_resolved := pl_resolved p;
     pl_published := pl_published p ++ [event] |}.

(** [apply_event] *)
Definition apply_event (outcomes : Outcomes) (evidence : result Journal.Error unit) (raw : GameEvent) (p : Pipeline)
    : result Journal.Error ApplyOutcome * Pipeline :=
  match commit_event outcomes raw p with
  | (Err error, p) => (Err error, p)
  | (Ok false, p) => (Ok Duplicate, p)
  | (Ok true, p) =>
      match pl_phase p with
      | Committed event =>
          match resolve_event evidence event p with
          | (Err error, p) => (Err error, p)
          | (Ok _, p) => (Ok Applied, publish event p)
          end
      | _ => (Ok Applied, p)
      end
  end.

(** ** Continuity *)

Definition EVENT_CONTINUITY_WORK_ID : string := "account:event-continuity".
(** [schedule_continuity_reconciliation] *)
Definition schedule_continuity_reconciliation (p : Pipeline) : Pipeline :=
  let m := pl_managed p in
  on_managed {| mg_engine := mg_engine m;
                mg_store := enqueue_work EVENT_CONTINUITY_WORK_ID Live "account" (Object [("id", Text "account")]) (mg_store m) |} p.

(** ** Catch-up *)

(** The world an application meets, by the number of the call: the outcomes of its store
    calls and of the journal; and the answers of the event log. *)
Record World := {
  wd_outcomes : nat → Outcomes;
  wd_evidence : nat → result Journal.Error unit;
  wd_list : nat → option string → result Journal.Error (list GameEvent * option string);
}.

Inductive CatchUpOutcome := Complete | BoundHit.

(** One request of [run_applier], as [enqueue] sees it: a failure schedules a reconciliation. *)
Definition run_applier (outcomes : Outcomes) (evidence : result Journal.Error unit) (raw : GameEvent) (p : Pipeline)
    : result Journal.Error unit * Pipeline :=
  match apply_event outcomes evidence raw p with
  | (Err error, p) => (Err error, schedule_continuity_reconciliation p)
  | (Ok _, p) => (Ok tt, p)
  end.

(** The loop over the events of a page: a failure of the applier ends the catch-up. *)
Fixpoint apply_page (world : World) (n : nat) (events : list GameEvent) (p : Pipeline)
    : result Journal.Error nat * Pipeline :=
  match events with
  | [] => (Ok n, p)
  | raw :: events =>
      match run_applier (wd_outcomes world n) (wd_evidence world n) raw p with
      | (Err error, p) => (Err error, p)
      | (Ok _, p) => apply_page world (S n) events p
      end
  end.

(** [catch_up_unfiltered]; [remaining] is the number of pages it may still read, at least one. *)
Fixpoint catch_up_pages (world : World) (remaining page n : nat) (cursor : option string) (p : Pipeline)
    : result Journal.Error CatchUpOutcome * Pipeline :=
  match wd_list world page cursor with
  | Err error => (Err error, p)
  | Ok (events, next_cursor) =>
      let last_event_id := ge_id <$> last events in
      match apply_page world n events p with
      | (Err error, p) => (Err error, p)
      | (Ok n, p) =>
          match next_cursor with
          | None => (Ok Complete, p)
          | Some next =>
              if bool_decide (last_event_id = Some next) || bool_decide (cursor = Some next) then (Ok Complete, p)
              else match remaining with
                   | O | S O => (Ok BoundHit, p)
                   | S remaining => catch_up_pages world remaining (S page) n (Some next) p
                   end
          end
      end
  end.
Definition catch_up_unfiltered (world : World) (from_cursor : option string) (max_pages : nat) (p : Pipeline)
    : result Journal.Error CatchUpOutcome * Pipeline :=
  catch_up_pages world (Nat.max 1 max_pages) 0 0 from_cursor p.

(** One round of [run_log_poll_loop], and [EventsGateway::catch_up] *)
Definition poll_round (world : World) (max_pages : nat) (p : Pipeline) : Pipeline :=
  match catch_up_unfiltered world (cursor_of p) max_pages p with
  | (Ok Complete, p) => p
  | (_, p) => schedule_continuity_reconciliation p
  end.

(** What [run_startup] does with the log, between the recovery of the operations and the
    background tasks: after a stale or missing cursor it does not replay.  [watermark] is the
    answer of [fetch_baseline_watermark] and [baseline] the synchronisation of the
    collections, whose error only degrades the readiness. *)
Definition startup_events (world : World) (stale : bool) (watermark : result Journal.Error (option string))
    (baseline : Pipeline → Pipeline) (max_pages : nat) (p : Pipeline) : Pipeline :=
  match cursor_of p with
  | Some applied =>
      if stale then baseline (schedule_continuity_reconciliation p)
      else match catch_up_unfiltered world (Some applied) max_pages p with
           | (Ok Complete, p) => baseline p
           | (_, p) => baseline (schedule_continuity_reconciliation p)
           end
  | None =>
      let from := match watermark with Ok watermark => watermark | Err _ => None end in
      match catch_up_unfiltered world from max_pages (baseline p) with
      | (Ok Complete, p) => p
      | (_, p) => schedule_continuity_reconciliation p
      end
  end.

(** ** Restarts and interleaving *)

(** The opening of a store: [Store::open] and [StateEngine::from_store]; what the process had
    not done with the last event is forgotten. *)
Definition reopen (now : Z) (p : Pipeline) : result StoreError Pipeline :=
  s ← reconcile_history_visibility (store_of p);
  let s := recover_orphaned_reconciliation_work now s in
  e ← from_store (ls_primary s).1;
  Ok {| pl_managed := {| mg_engine := e; mg_store := s |}; pl_phase := Idle; pl_committed := pl_committed p;
        pl_resolved := pl_resolved p; pl_published := pl_published p |}.

(** What happens to the pipeline.  Either source, the log and the stream, may deliver any
    event at any time; other operations of the client write neither cursor nor history. *)
Inductive step (p : Pipeline) : Pipeline → Prop :=
| step_deliver outcomes raw : pl_phase p = Idle → step p (commit_event outcomes raw p).2
| step_resolve evidence event : pl_phase p = Committed event → step p (resolve_event evidence event p).2
| step_publish event : pl_phase p = Resolved event → step p (publish event p)
| step_others m : ls_cursor (mg_store m) = cursor_of p → ls_history (mg_store m) = ls_history (store_of p) →
    step p (on_managed m p)
| step_restart now p' : reopen now p = Ok p' → step p p'.

Definition started (m : Managed) : Pipeline :=
  {| pl_managed := m; pl_phase := Idle; pl_committed := []; pl_resolved := []; pl_published := [] |}.
Definition fresh_log (m : Managed) : Prop := ls_cursor (mg_store m) = None ∧ ls_history (mg_store m) = ∅.
Definition reaches : Pipeline → Pipeline → Prop := rtc step.
End Pipeline.
