(* ===== verification/EventLogFacts.v ===== *)
(** * Facts of the event log

    The order of the stream identifiers, what a projection writes, and what
    [apply_event_projection] of the store does to the cursor and to the history. *)

From S2P Require Import Prelude Float64 Json Observations Entities Locations.
From S2P Require Import ManagedState ManagedStateFacts Mutations Operations EventLog.

(** ** The order of the stream *)

Lemma stream_cmp_eq a b : stream_cmp a b = Eq ↔ a = b.
Proof.
  destruct a as [a1 a2], b as [b1 b2]. unfold stream_cmp. simpl.
  destruct (Z.compare_spec a1 b1), (Z.compare_spec a2 b2); split; congruence || intros [= ]; subst; lia.
Qed.

Lemma stream_cmp_lt a b : stream_cmp a b = Lt ↔ a.1 < b.1 ∨ a.1 = b.1 ∧ a.2 < b.2.
Proof.
  unfold stream_cmp. destruct (Z.compare_spec a.1 b.1), (Z.compare_spec a.2 b.2); split; (done || lia).
Qed.

Lemma stream_cmp_gt a b : stream_cmp a b = Gt ↔ stream_cmp b a = Lt.
Proof.
  unfold stream_cmp.
  destruct (Z.compare_spec a.1 b.1), (Z.compare_spec b.1 a.1), (Z.compare_spec a.2 b.2), (Z.compare_spec b.2 a.2);
    split; (done || lia).
Qed.

(** Both identifiers are well formed, and the first is earlier. *)
Definition earlier (left right : string) : Prop :=
  ∃ l r, parse_event_id left = Ok l ∧ parse_event_id right = Ok r ∧ stream_cmp l r = Lt.

#[global] Instance earlier_transitive : Transitive earlier.
Proof.
  intros a b c (x&y&Ha&Hb&Hxy) (y'&z&Hb'&Hc&Hyz). rewrite Hb in Hb'. injection Hb' as <-.
  exists x, z. split_and!; [done..|]. apply stream_cmp_lt in Hxy, Hyz. apply stream_cmp_lt. lia.
Qed.

Lemma earlier_irreflexive id : ¬ earlier id id.
Proof. intros (x&y&Ha&Hb&Hxy). rewrite Ha in Hb. injection Hb as <-. apply stream_cmp_lt in Hxy. lia. Qed.

Lemma earlier_asymmetric a b : earlier a b → ¬ earlier b a.
Proof. intros Hab Hba. apply (earlier_irreflexive a). by trans b. Qed.

Lemma compare_event_ids_refl id : compare_event_ids id id = Ok Eq.
Proof. unfold compare_event_ids. by rewrite decide_True. Qed.

Lemma compare_event_ids_later id cursor :
  compare_event_ids id cursor = Ok Gt ↔ earlier cursor id.
Proof.
  unfold compare_event_ids, earlier. destruct (decide (id = cursor)) as [<-|Hne].
  - split; [done|]. by intros []%earlier_irreflexive.
  - destruct (parse_event_id id) as [l|], (parse_event_id cursor) as [r|]; simpl;
      [|by split; [|intros (?&?&?&?&?)]..].
    split.
    + intros [= Hc]. exists r, l. by rewrite <-stream_cmp_gt.
    + intros (r'&l'&[= <-]&[= <-]&Hc). by rewrite (proj2 (stream_cmp_gt l r)).
Qed.

(** An identifier that is not later than a cursor is not the identifier of a later one. *)
Lemma compare_event_ids_passed id cursor c next :
  compare_event_ids id cursor = Ok c → is_gt c = false → earlier cursor next → id ≠ next.
Proof.
  intros Hc Hgt He <-. apply compare_event_ids_later in He. rewrite He in Hc. by injection Hc as <-.
Qed.

Lemma compare_event_ids_trans id cursor c next :
  compare_event_ids id cursor = Ok c → is_gt c = false → earlier cursor next →
  ∃ c', compare_event_ids id next = Ok c' ∧ is_gt c' = false.
Proof.
  intros Hc Hgt He. assert (Hlt : earlier id next).
  { unfold compare_event_ids in Hc. destruct (decide (id = cursor)) as [->|]; [done|].
    destruct He as (x&y&Hx&Hy&Hxy). rewrite Hx in Hc. destruct (parse_event_id id) as [l|] eqn:El; [|done].
    simpl in Hc. injection Hc as <-. exists l, y. split_and!; [done..|].
    destruct (stream_cmp l x) eqn:E; [|apply stream_cmp_lt in E, Hxy; apply stream_cmp_lt; lia|done].
    apply stream_cmp_eq in E as ->. done. }
  apply compare_event_ids_later in Hlt as Hgt'. revert Hgt'. unfold compare_event_ids.
  destruct (decide (next = id)) as [->|]; [done|]. rewrite decide_False by done.
  destruct (parse_event_id next) as [r|], (parse_event_id id) as [l|]; simpl; try done.
  intros [= H]. exists (stream_cmp l r). split; [done|]. apply stream_cmp_gt in H. by rewrite H.
Qed.

Lemma has_event_false {JN : JsonNumber} {Atmosphere} event_id (s : LogStore Atmosphere) :
  has_event event_id s = Ok false ↔ ∀ cursor, ls_cursor s = Some cursor → earlier cursor event_id.
Proof.
  unfold has_event. destruct (ls_cursor s) as [cursor|]; [|by split].
  destruct (compare_event_ids event_id cursor) as [c|error] eqn:E; simpl.
  - split.
    + intros [= Hc] ? [= <-]. apply compare_event_ids_later. rewrite E. by destruct c.
    + intros He. specialize (He _ eq_refl). apply compare_event_ids_later in He. rewrite He in E. by injection E as <-.
  - split; [done|]. intros He. specialize (He _ eq_refl). apply compare_event_ids_later in He. congruence.
Qed.

Lemma has_event_true {JN : JsonNumber} {Atmosphere} event_id (s : LogStore Atmosphere) :
  has_event event_id s = Ok true ↔
  ∃ cursor c, ls_cursor s = Some cursor ∧ compare_event_ids event_id cursor = Ok c ∧ is_gt c = false.
Proof.
  unfold has_event. destruct (ls_cursor s) as [cursor|]; [|split; [done|by intros (?&?&?&?)]].
  destruct (compare_event_ids event_id cursor) as [c|error] eqn:E; simpl.
  - split.
    + intros [= Hc]. exists cursor, c. split_and!; [done..|]. by apply negb_true_iff.
    + intros (cursor'&c'&[= <-]&Hc&Hgt). rewrite E in Hc. injection Hc as <-. by rewrite Hgt.
  - split; [done|]. intros (cursor'&c'&[= <-]&Hc&_). congruence.
Qed.

Lemma advance_later cursor previous :
  (∀ p, previous = Some p → earlier p cursor) → advance_event_cursor cursor previous = Ok (Some cursor).
Proof.
  intros He. unfold advance_event_cursor. destruct previous as [p|]; [|done].
  specialize (He _ eq_refl). apply compare_event_ids_later in He. by rewrite He.
Qed.

(** ** The history *)

Section History.
Context `{JN : JsonNumber} {Atmosphere : Type}.
Implicit Types (s : LogStore Atmosphere) (event : Journal.Event) (batch : EventProjectionBatch Atmosphere).

(** The rows are keyed by their events, none is an archived one, and their stream columns
    are those of the key. *)
Definition row_ok (id : string) (row : HistoryRow) : Prop :=
  Journal.ev_id (hi_event row) = id ∧ hi_archived row = false ∧ hi_stream row = to_option (parse_event_id id).
Definition at_or_before (id cursor : string) : Prop :=
  ∃ c, compare_event_ids id cursor = Ok c ∧ is_gt c = false.

(** What the history always is, for a cursor. *)
Record history_ok (cursor : option string) (history : gmap string HistoryRow) : Prop := {
  ho_rows : ∀ id row, history !! id = Some row → row_ok id row;
  ho_visible : ∀ id row, history !! id = Some row → visible row = true →
    ∃ c, cursor = Some c ∧ at_or_before id c;
}.

Lemma at_or_before_refl id : at_or_before id id.
Proof. exists Eq. by rewrite compare_event_ids_refl. Qed.

Lemma history_ok_advance cursor next history :
  history_ok cursor history → (∀ c, cursor = Some c → c = next ∨ earlier c next) → history_ok (Some next) history.
Proof.
  intros [Hr Hv] Hn. split; [done|]. intros id row Hrow Hvis.
  destruct (Hv _ _ Hrow Hvis) as (c&Hc&d&Hd&Hgt). exists next. split; [done|].
  destruct (Hn c Hc) as [->|He]; [by exists d|]. by eapply compare_event_ids_trans.
Qed.

Lemma history_ok_append event s :
  history_ok (ls_cursor s) (ls_history s) →
  history_ok (ls_cursor (append_history_event event s)) (ls_history (append_history_event event s)).
Proof.
  intros [Hr Hv]. unfold append_history_event. simpl.
  destruct (ls_history s !! Journal.ev_id event) eqn:E; [by split|].
  split; intros id row; (destruct (decide (id = Journal.ev_id event)) as [->|Hne];
    [rewrite lookup_insert_eq; intros [= <-]; try done|rewrite lookup_insert_ne by done; eauto]).
Qed.

Lemma history_ok_mark event_id s cursor :
  history_ok cursor (ls_history s) → (is_Some (ls_history s !! event_id) → ∃ c, cursor = Some c ∧ at_or_before event_id c) →
  history_ok cursor (ls_history (mark_history_event_applied event_id s)).
Proof.
  intros [Hr Hv] Hp. unfold mark_history_event_applied. simpl.
  split; intros id row; (destruct (decide (id = event_id)) as [->|Hne];
    [rewrite lookup_alter_eq, fmap_Some; intros (row'&Hrow&->)|rewrite lookup_alter_ne by done; eauto]).
  - apply Hr in Hrow. done.
  - intros _. apply Hp. by eexists.
Qed.

Lemma mark_dom event_id s id :
  is_Some (ls_history (mark_history_event_applied event_id s) !! id) ↔ is_Some (ls_history s !! id).
Proof. unfold mark_history_event_applied. simpl. by rewrite lookup_alter_is_Some. Qed.

Lemma append_dom event s id :
  is_Some (ls_history (append_history_event event s) !! id) ↔ id = Journal.ev_id event ∨ is_Some (ls_history s !! id).
Proof.
  unfold append_history_event. simpl. destruct (ls_history s !! Journal.ev_id event) eqn:E.
  - split; [by right|]. intros [->|?]; [by rewrite E|done].
  - destruct (decide (id = Journal.ev_id event)) as [->|Hne].
    + rewrite lookup_insert_eq. split; [by left|by eexists].
    + rewrite lookup_insert_ne by done. split; [by right|]. by intros [?|?].
Qed.

(** ** The application of a projection *)

(** What a call of [store_apply_event_projection] can have done. *)
Inductive store_change event s : result StoreError bool → LogStore Atmosphere → Prop :=
| change_none error : store_change event s (Err error) s
| change_staged error : has_event (Journal.ev_id event) s = Ok false →
    store_change event s (Err error) (append_history_event event s)
| change_duplicate s' : has_event (Journal.ev_id event) s = Ok true →
    s' = s ∨ s' = mark_history_event_applied (Journal.ev_id event) s → store_change event s (Ok false) s'
| change_committed primary s' : has_event (Journal.ev_id event) s = Ok false →
    let done := with_cursor (Some (Journal.ev_id event)) (with_primary primary (append_history_event event s)) in
    s' = done ∨ s' = mark_history_event_applied (Journal.ev_id event) done → store_change event s (Ok true) s'.

Lemma store_apply_change outcomes event batch s r s' :
  store_apply_event_projection outcomes event (Journal.ev_id event) batch s = (r, s') → store_change event s r s'.
Proof.
  unfold store_apply_event_projection, mark_best_effort.
  destruct (has_event (Journal.ev_id event) s) as [[]|error] eqn:Eh.
  - intros [= <- <-]. apply change_duplicate; [done|]. destruct (oc_visible outcomes); auto.
  - destruct (oc_append outcomes); [|intros [= <- <-]; constructor].
    destruct (oc_maintain outcomes); [|intros [= <- <-]; by constructor].
    rewrite (advance_later (Journal.ev_id event) (ls_cursor (append_history_event event s)))
      by (by apply has_event_false).
    destruct (persist_projection_batch _ _) as [primary|]; [|intros [= <- <-]; by constructor].
    destruct (oc_commit outcomes); intros [= <- <-]; [|by constructor].
    apply (change_committed _ _ primary); [done|]. destruct (oc_visible outcomes); auto.
  - intros [= <- <-]. constructor.
Qed.

(** Whatever a call did, the history stays well formed and nothing is removed from it. *)
Lemma store_change_history event s r s' :
  store_change event s r s' → history_ok (ls_cursor s) (ls_history s) →
  history_ok (ls_cursor s') (ls_history s') ∧
  ∀ id, is_Some (ls_history s !! id) → is_Some (ls_history s' !! id).
Proof.
  intros Hc Hok. destruct Hc as [error|error Hh|s' Hh Hs|primary s' Hh done Hs].
  - done.
  - split; [by apply history_ok_append|]. intros id ?. apply append_dom. by right.
  - destruct Hs as [->| ->]; [done|]. split; [|intros id; apply mark_dom].
    apply history_ok_mark; [done|]. intros _. apply has_event_true in Hh as (c&x&?&?&?). by exists c; split; [|exists x].
  - assert (Hd : history_ok (ls_cursor done) (ls_history done)).
    { apply (history_ok_advance (ls_cursor s)); [by apply history_ok_append|].
      intros c Hcur. right. by apply (proj1 (has_event_false _ _) Hh). }
    assert (Hdom : ∀ id, is_Some (ls_history s !! id) → is_Some (ls_history done !! id)).
    { intros id ?. apply (append_dom event s id). by right. }
    destruct Hs as [->| ->]; [done|]. split; [|intros id ?; by apply mark_dom, Hdom].
    apply history_ok_mark; [done|]. intros _. eexists. split; [done|apply at_or_before_refl].
Qed.

(** ** Reopening *)

Lemma elem_of_passed cursor ids result id :
  passed cursor ids = Ok result → id ∈ result ↔ id ∈ ids ∧ at_or_before id cursor.
Proof.
  revert result. induction ids as [|x ids IH]; intros result; simpl.
  { intros [= <-]. set_solver. }
  destruct (compare_event_ids x cursor) as [c|] eqn:Ec; [|done]. simpl.
  destruct (passed cursor ids) as [rest|] eqn:Er; [|done]. simpl. intros [= <-].
  specialize (IH rest eq_refl).
  assert (Hx : at_or_before x cursor ↔ is_gt c = false).
  { split; [intros (c'&Hc'&?); congruence|]. intros ?. by exists c. }
  destruct (is_gt c); rewrite ?elem_of_cons, IH; naive_solver.
Qed.

Lemma foldr_mark_lookup s ids id :
  ls_history (foldr mark_history_event_applied s ids) !! id =
  (if bool_decide (id ∈ ids) then applied else λ row, row) <$> ls_history s !! id.
Proof.
  induction ids as [|x ids IH].
  { rewrite bool_decide_eq_false_2 by apply not_elem_of_nil. simpl. by destruct (_ !! id). }
  cbn [foldr]. unfold mark_history_event_applied at 1. simpl.
  destruct (decide (x = id)) as [->|Hne].
  - rewrite lookup_alter_eq, IH, (bool_decide_eq_true_2 (id ∈ id :: ids)) by by left.
    destruct (ls_history s !! id) as [row|]; [|done]. simpl. by destruct (bool_decide _).
  - rewrite lookup_alter_ne, IH by done.
    by rewrite (bool_decide_ext (id ∈ x :: ids) (id ∈ ids)) by (rewrite elem_of_cons; naive_solver).
Qed.

Lemma foldr_mark_rest s ids :
  ls_cursor (foldr mark_history_event_applied s ids) = ls_cursor s ∧
  ls_primary (foldr mark_history_event_applied s ids) = ls_primary s.
Proof. induction ids as [|x ids IH]; [done|]. by destruct IH. Qed.

Lemma reconcile_visibility_rest s s' :
  reconcile_history_visibility s = Ok s' → ls_cursor s' = ls_cursor s ∧ ls_primary s' = ls_primary s.
Proof.
  unfold reconcile_history_visibility. destruct (ls_cursor s) as [cursor|] eqn:Ec; [|by intros [= <-]].
  destruct (passed cursor _) as [ids|]; [|done]. simpl. intros [= <-]. rewrite <-Ec. apply foldr_mark_rest.
Qed.

Lemma elem_of_staged s id :
  id ∈ (select (λ _ row, staged row) (ls_history s)).*1 ↔ ∃ row, ls_history s !! id = Some row ∧ staged row = true.
Proof.
  rewrite list_elem_of_fmap. split.
  - intros ([k row]&->&Hin). apply elem_of_select in Hin as [??]. by exists row.
  - intros (row&Hrow&Hs). exists (id, row). split; [done|]. by apply elem_of_select.
Qed.

(** After a reopening the rows up to the cursor, and only those, are visible. *)
Lemma reconcile_visibility_spec s s' :
  reconcile_history_visibility s = Ok s' → history_ok (ls_cursor s) (ls_history s) →
  history_ok (ls_cursor s') (ls_history s') ∧
  (∀ id, is_Some (ls_history s !! id) → is_Some (ls_history s' !! id)) ∧
  (∀ id row c, ls_cursor s = Some c → at_or_before id c → ls_history s' !! id = Some row → visible row = true).
Proof.
  intros Hs Hok. destruct (reconcile_visibility_rest _ _ Hs) as [Hcur _]. rewrite Hcur. revert Hs.
  unfold reconcile_history_visibility. destruct (ls_cursor s) as [cursor|] eqn:Ec.
  2: { intros [= <-]. split_and!; [done..|]. by intros ???. }
  destruct (passed cursor _) as [ids|] eqn:Ep; [|done]. simpl. intros [= <-].
  assert (Hids : ∀ id, id ∈ ids ↔ (∃ row, ls_history s !! id = Some row ∧ staged row = true) ∧ at_or_before id cursor).
  { intros id. by rewrite (elem_of_passed _ _ _ _ Ep), elem_of_staged. }
  split_and!.
  - split; intros id row; rewrite foldr_mark_lookup, fmap_Some; intros (row'&Hrow&->).
    + pose proof (ho_rows _ _ Hok _ _ Hrow). by case_bool_decide.
    + case_bool_decide as Hin; [|by apply Hok with (id := id)]. intros _. exists cursor. split; [done|]. by apply Hids.
  - intros id [row Hrow]. rewrite foldr_mark_lookup, Hrow. by eexists.
  - intros id row c [= <-] Hle. rewrite foldr_mark_lookup, fmap_Some. intros (row'&Hrow&->).
    case_bool_decide as Hin; [done|]. destruct (staged row') eqn:Es; [by destruct Hin; apply Hids; eauto|].
    revert Es. unfold staged, visible. by destruct (hi_applied row'), (hi_archived row').
Qed.
End History.
