(* ===== verification/EventReducerFacts.v ===== *)
(** * The reach of a reducer

    Every effect of a batch lies in the realm of its event, and its deletions are of the
    kinds the store can delete. *)

From S2P Require Import Prelude Float64 Json Observations Entities Locations.
From S2P Require Import ManagedState Mutations Operations EventLog EventReducers.

Create HintDb confined.

Section Confinement.
Context `{JN : JsonNumber} {Atmosphere : Type}.
Variable parse_rfc3339 : string → option Z.
Variable scan_report_location : string → string → Object_ → Realm → Z → string →
  option (Observation (Locations.Location Value Atmosphere)).

Local Abbreviation Batch := (EventProjectionBatch Atmosphere).
Local Abbreviation Device := (Entities.Device Value).
Local Abbreviation Replicant := (Entities.Replicant Value).
Local Abbreviation Location := (Locations.Location Value Atmosphere).
Local Abbreviation View := (EventReducers.View (Atmosphere := Atmosphere)).
Local Abbreviation observed := (EventReducers.observed parse_rfc3339).
Local Abbreviation reobserved := (EventReducers.reobserved parse_rfc3339).
Implicit Types (b : Batch) (event : Journal.Event) (client : View) (realm : Realm).

(** The location a scan report describes is in the realm of the scan. *)
Hypothesis scan_in_realm : ∀ target scan_type report realm at_ id o,
  scan_report_location target scan_type report realm at_ id = Some o → wk_realm (lo_key (ob_value o)) = realm.

(** ** What is in a realm *)

Definition key_in realm (key : option WorldKey) : Prop := ∀ k, key = Some k → wk_realm k = realm.

Definition device_in realm (d : Device) : Prop :=
  wk_realm (dv_key d) = realm ∧ key_in realm (dr_hosting_replicant (dv_relationships d)).
Definition object_in realm (o : IncomingObject) : Prop :=
  wk_realm (io_key o) = realm ∧ key_in realm (io_propulsor o).

(** The kinds of [persist_deletion] *)
Definition deletable (kind : string) : Prop :=
  kind ∈ ["device"; "resource_site"; "location_event"; "incoming_object"; "trade"].

Record confined realm b : Prop := {
  cf_devices : Forall (λ o, device_in realm (ob_value o)) (eb_devices b);
  cf_replicants : Forall (λ o, wk_realm (re_key (ob_value o)) = realm) (eb_replicants b);
  cf_locations : Forall (λ o, wk_realm (lo_key (ob_value o)) = realm) (eb_locations b);
  cf_stars : Forall (λ o, wk_realm (sr_key (ob_value o)) = realm) (eb_stars b);
  cf_resource_sites : Forall (λ o, wk_realm (rs_key (ob_value o)) = realm) (eb_resource_sites b);
  cf_location_events : Forall (λ o, wk_realm (lv_key (ob_value o)) = realm) (eb_location_events b);
  cf_incoming_objects : Forall (λ o, object_in realm (ob_value o)) (eb_incoming_objects b);
  cf_trades : Forall (λ o, wk_realm (td_key (ob_value o)) = realm) (eb_trades b);
  cf_simulations : Forall (λ o, Simulation (si_id (ob_value o)) = realm) (eb_simulations b);
  cf_deletions : Forall (λ d, pt_realm d = realm ∧ deletable (pt_kind d)) (eb_deletions b);
}.

(** What the client holds is keyed by itself, and points into its own realm. *)
Record native client : Prop := {
  na_devices : ∀ k o, en_devices (vw_engine client) !! k = Some o →
    dv_key (ob_value o) = k ∧ device_in (wk_realm k) (ob_value o);
  na_replicants : ∀ k o, en_replicants (vw_engine client) !! k = Some o → re_key (ob_value o) = k;
  na_locations : ∀ k o, en_locations (vw_engine client) !! k = Some o → lo_key (ob_value o) = k;
  na_objects : ∀ k o, vw_incoming_objects client !! k = Some o →
    io_key (ob_value o) = k ∧ object_in (wk_realm k) (ob_value o);
}.

(** The keys of an event are in its realm, and an event that names a simulation is of it. *)
Record event_in realm event : Prop := {
  ei_realm : or_live (Journal.ev_realm event) = realm;
  ei_device : key_in realm (Journal.ev_device event);
  ei_replicant : key_in realm (Journal.ev_replicant event);
  ei_location : key_in realm (Journal.ev_location event);
  ei_star : key_in realm (Journal.ev_star event);
  ei_simulation : ∀ id, payload_i64 event "simulation_id" = Some id → realm = Simulation id;
}.

(** ** The ways to build a batch *)

Lemma confined_none realm : confined realm no_effects.
Proof. split; constructor. Qed.
Lemma confined_with_reconciliation realm f b : confined realm b → confined realm (with_reconciliation f b).
Proof. by intros []; split. Qed.
Lemma confined_reconciling realm targets : confined realm (reconciling targets).
Proof. apply confined_with_reconciliation, confined_none. Qed.
Lemma confined_clear realm b : confined realm b → confined realm (clear_reconciliation b).
Proof. apply confined_with_reconciliation. Qed.
Lemma confined_push_device realm o b :
  device_in realm (ob_value o) → confined realm b → confined realm (push_device o b).
Proof.
  intros Ho [Hd]. split; try done. simpl. clear -Ho Hd. induction Hd as [|d devices Hd Hds IH]; cbn [replace_device].
  - by constructor.
  - case_decide; by constructor.
Qed.
Lemma confined_with_replicant realm o b :
  wk_realm (re_key (ob_value o)) = realm → confined realm b → confined realm (with_replicant o b).
Proof. intros Ho []; split; try done. simpl. apply Forall_app_2; [done|by constructor]. Qed.
Lemma confined_with_simulation realm o b :
  Simulation (si_id (ob_value o)) = realm → confined realm b → confined realm (with_simulation o b).
Proof. intros Ho []; split; try done. simpl. apply Forall_app_2; [done|by constructor]. Qed.
Lemma confined_trading realm o b :
  wk_realm (td_key (ob_value o)) = realm → confined realm b → confined realm (trading o b).
Proof. intros Ho []; split; try done. simpl. apply Forall_app_2; [done|by constructor]. Qed.
Lemma confined_locations realm locations sites targets :
  Forall (λ o, wk_realm (lo_key (ob_value o)) = realm) locations →
  Forall (λ o, wk_realm (rs_key (ob_value o)) = realm) sites → confined realm (only_locations locations sites targets).
Proof. intros; split; try done; constructor. Qed.
Lemma confined_star realm o : wk_realm (sr_key (ob_value o)) = realm → confined realm (only_star o).
Proof. intros; split; try constructor; done. Qed.
Lemma confined_location_event realm o : wk_realm (lv_key (ob_value o)) = realm → confined realm (only_location_event o).
Proof. intros; split; try constructor; done. Qed.
Lemma confined_incoming_object realm o : object_in realm (ob_value o) → confined realm (only_incoming_object o).
Proof. intros; split; try constructor; done. Qed.
Lemma confined_message realm o : confined realm (only_message o).
Proof. split; constructor. Qed.
Lemma confined_blueprint realm o : confined realm (only_blueprint o).
Proof. split; constructor. Qed.
Lemma confined_deleting realm deletions targets :
  Forall (λ d, pt_realm d = realm ∧ deletable (pt_kind d)) deletions → confined realm (deleting deletions targets).
Proof. intros; split; try done; constructor. Qed.
Lemma confined_deleting_all {A} realm (f : A → string) (l : list A) kind evidence targets :
  deletable kind → confined realm (deleting ((λ x, gone realm kind (f x) evidence) <$> l) targets).
Proof. intros Hk. apply confined_deleting, Forall_fmap, Forall_true. by intros x. Qed.
Lemma confined_deleting_one realm kind item_id evidence targets :
  deletable kind → confined realm (deleting [gone realm kind item_id evidence] targets).
Proof. intros Hk. apply confined_deleting. constructor; [done|constructor]. Qed.

#[local] Hint Resolve confined_none confined_reconciling confined_with_reconciliation confined_clear confined_push_device
  confined_with_replicant confined_with_simulation confined_trading confined_star confined_location_event
  confined_incoming_object confined_message confined_blueprint confined_deleting_one confined_deleting_all : confined.
#[local] Hint Extern 1 (deletable _) => unfold deletable; rewrite !elem_of_cons; tauto : confined.
#[local] Hint Extern 1 (confined _ (match ?x with _ => _ end)) => destruct x eqn:? : confined.

(** ** The reducers *)

Section Reducers.
Context (realm : Realm) (client : View) (event : Journal.Event).
Hypothesis Hclient : native client.
Hypothesis Hevent : event_in realm event.

Lemma confined_narrow : confined realm (projection_reconciliation_only client event).
Proof. unfold projection_reconciliation_only. auto with confined. Qed.
#[local] Hint Resolve confined_narrow : confined.

Lemma device_at_event key : Journal.ev_device event = Some key → wk_realm key = realm.
Proof. apply Hevent. Qed.
Lemma replicant_at_event key : Journal.ev_replicant event = Some key → wk_realm key = realm.
Proof. apply Hevent. Qed.
Lemma realm_of_event r : Journal.ev_realm event = Some r → r = realm.
Proof. pose proof (ei_realm _ _ Hevent) as H. intros Hr. by rewrite Hr in H. Qed.

(** A device that is required is one of the realm. *)
Lemma require_device_spec key b o b' :
  require_device client key b = (o, b') → wk_realm key = realm → confined realm b →
  confined realm b' ∧ ∀ d, o = Some d → dv_key (ob_value d) = key ∧ device_in realm (ob_value d).
Proof.
  unfold require_device, known_device. intros Hr Hk Hb.
  destruct (en_devices (vw_engine client) !! key) as [d|] eqn:E; injection Hr as <- <-.
  - split; [done|]. intros ? [= <-]. rewrite <-Hk. by apply Hclient.
  - split; [|done]. by destruct (existsb _ _); auto with confined.
Qed.

(** What a device keeps under the assignments *)
Lemma device_in_same d d' :
  device_in realm d → dv_key d' = dv_key d → dr_hosting_replicant (dv_relationships d') = dr_hosting_replicant (dv_relationships d) →
  device_in realm d'.
Proof. unfold device_in. by intros ? -> ->. Qed.

Lemma confined_attachment carrier target :
  wk_realm carrier = realm → confined realm (project_attachment parse_rfc3339 client event realm carrier target).
Proof.
  intros Hc. unfold project_attachment.
  destruct (require_device client carrier _) as [o b] eqn:E1.
  destruct (require_device client _ b) as [o' b'] eqn:E2.
  apply require_device_spec in E1 as [Hb Ho]; [|auto with confined..].
  apply require_device_spec in E2 as [Hb' Ho']; [|auto with confined..].
  destruct o as [o|], o' as [o'|]; [|done..].
  destruct (Ho _ eq_refl) as [_ Hd], (Ho' _ eq_refl) as [_ Hd'].
  apply confined_clear. apply confined_push_device; [|apply confined_push_device; [|done]].
  - eapply device_in_same; [exact Hd'| |]; simpl; by case_match.
  - by eapply device_in_same; [exact Hd|..].
Qed.

Lemma confined_stowage child carrier_code :
  wk_realm child = realm → confined realm (project_stowage parse_rfc3339 client event realm child carrier_code).
Proof.
  intros Hc. unfold project_stowage.
  destruct (require_device client child _) as [o b] eqn:E1.
  destruct (require_device client _ b) as [o' b'] eqn:E2.
  apply require_device_spec in E1 as [Hb Ho]; [|auto with confined..].
  apply require_device_spec in E2 as [Hb' Ho']; [|auto with confined..].
  destruct o as [o|], o' as [o'|]; [|done..].
  destruct (Ho _ eq_refl) as [_ Hd], (Ho' _ eq_refl) as [_ Hd'].
  destruct (named event "device.stowed"); apply confined_clear;
    (apply confined_push_device; [|apply confined_push_device; [|done]];
      [by eapply device_in_same; [exact Hd'|..]|by eapply device_in_same; [exact Hd|..]]).
Qed.

Lemma confined_move_device b key :
  wk_realm key = realm → confined realm b → confined realm (move_device parse_rfc3339 client event realm b key).
Proof.
  intros Hk Hb. unfold move_device. destruct (require_device client key b) as [o b'] eqn:E.
  apply require_device_spec in E as [Hb' Ho]; [|done..]. destruct o as [o|]; [|done].
  destruct (Ho _ eq_refl) as [_ Hd]. destruct (after_travel event realm) as [place travel].
  apply confined_push_device; [|done]. by eapply device_in_same; [exact Hd|..].
Qed.

Lemma confined_foldl {A} (f : Batch → A → Batch) (P : A → Prop) l b :
  (∀ b x, P x → confined realm b → confined realm (f b x)) → Forall P l → confined realm b →
  confined realm (foldl f b l).
Proof. intros Hf Hl. revert b. induction Hl; intros b Hb; [done|]. cbn [foldl]. auto. Qed.

Lemma confined_move_replicant key b :
  wk_realm key = realm → confined realm b → confined realm (move_replicant parse_rfc3339 client event realm key b).
Proof.
  intros Hk Hb. unfold move_replicant. destruct (en_replicants _ !! key) as [o|] eqn:E; [|auto with confined].
  destruct (after_travel event realm) as [place travel]. apply confined_with_replicant; [|done].
  simpl. by rewrite (na_replicants _ Hclient _ _ E).
Qed.

Lemma confined_travel carrier :
  wk_realm carrier = realm → confined realm (project_travel parse_rfc3339 client event realm carrier).
Proof.
  intros Hc. unfold project_travel.
  assert (Hb : confined realm (foldl (move_device parse_rfc3339 client event realm) no_effects (travelling event realm carrier))).
  { apply (confined_foldl _ (λ k, wk_realm k = realm)); [|apply Forall_forall; intros k|auto with confined].
    - intros b x Hx Hb. by apply confined_move_device.
    - unfold travelling. rewrite elem_of_sort_by, elem_of_elements, elem_of_list_to_set, elem_of_cons, list_elem_of_fmap.
      by intros [->|(id&->&_)]. }
  revert Hb. generalize (foldl (move_device parse_rfc3339 client event realm) no_effects (travelling event realm carrier)).
  intros b Hb. assert (confined realm (match eb_devices b with [] => b | _ => clear_reconciliation b end))
    by (destruct (eb_devices b); auto with confined).
  unfold known_device. destruct (en_devices (vw_engine client) !! carrier) as [o|] eqn:E; [|done]. simpl.
  destruct (dr_hosting_replicant _) as [key|] eqn:Eh; [|done]. apply confined_move_replicant; [|done].
  rewrite <-Hc. by apply (na_devices _ Hclient _ _ E).
Qed.

Lemma confined_transfer replicant host_code :
  wk_realm replicant = realm → confined realm (project_transfer parse_rfc3339 client event realm replicant host_code).
Proof.
  intros Hr. unfold project_transfer.
  assert (Hb : confined realm (match en_replicants (vw_engine client) !! replicant with
    | Some o => with_replicant (reobserved event (λ r, set_replicant (re_location r) (Some (in_realm realm host_code)) (re_travel r) (re_status r) r) o) no_effects
    | None => reconciling [narrow_reconciliation event]
    end)).
  { destruct (_ !! replicant) as [o|] eqn:E; [|auto with confined]. apply confined_with_replicant; [|auto with confined].
    simpl. by rewrite (na_replicants _ Hclient _ _ E). }
  unfold known_device. destruct (en_devices _ !! in_realm realm host_code) as [o|] eqn:E; [|auto with confined].
  apply confined_push_device; [|done]. apply Hclient in E as [_ [Hk _]]. split; [done|]. by intros k [= <-].
Qed.

(** A change to one required device *)
Lemma confined_update key f :
  wk_realm key = realm →
  (∀ d, dv_key (f d) = dv_key d ∧ dr_hosting_replicant (dv_relationships (f d)) = dr_hosting_replicant (dv_relationships d)) →
  confined realm (let '(known, batch) := require_device client key no_effects in
    match known with None => batch | Some o => clear_reconciliation (push_device (reobserved event f o) batch) end).
Proof.
  intros Hk Hf. destruct (require_device client key _) as [o b] eqn:E.
  apply require_device_spec in E as [Hb Ho]; [|auto with confined..]. destruct o as [o|]; [|done].
  destruct (Ho _ eq_refl) as [_ Hd]. apply confined_clear, confined_push_device; [|done].
  eapply device_in_same; [exact Hd|apply Hf..].
Qed.

Lemma confined_movement : confined realm (projection_device_movement parse_rfc3339 client event).
Proof.
  unfold projection_device_movement. destruct (Journal.ev_realm event) as [r|] eqn:Er; [|auto with confined].
  apply realm_of_event in Er as ->.
  destruct (Journal.ev_device event) as [key|] eqn:Ed; [apply device_at_event in Ed|];
    (destruct (Journal.ev_replicant event) as [rep|] eqn:Ep; [apply replicant_at_event in Ep|]);
    cbv zeta; repeat (case_match; [|]);
    eauto using confined_attachment, confined_stowage, confined_travel, confined_transfer with confined.
  all: by apply (confined_update key (set_relationships (set_assigned (in_realm realm <$> payload_str event "to_replicant")))).
Qed.

(** ** The world *)

Lemma confined_resource_site location value o :
  resource_site parse_rfc3339 event realm location value = Some o → wk_realm (rs_key (ob_value o)) = realm.
Proof.
  unfold resource_site. destruct (match get_field value "designation" with Some v => Some v | None => _ end) as [v|]; [|done].
  simpl. destruct (Json.as_str v); [|done]. by intros [= <-].
Qed.

Lemma confined_scan : confined realm (project_scan parse_rfc3339 scan_report_location client event realm).
Proof.
  unfold project_scan. destruct (scan_projection _ _ _ _) as [locations fallbacks] eqn:Es.
  assert (Hl : Forall (λ o, wk_realm (lo_key (ob_value o)) = realm) locations).
  { injection Es as <- _. apply Forall_forall. intros o (entry&_&Ho)%list_elem_of_omap. revert Ho. unfold scanned.
    destruct (object_str entry "scan_target"), (object_str entry "scan_type"); try done. simpl.
    destruct (get_field entry "report" ≫= as_object); [|done]. simpl. apply scan_in_realm. }
  assert (Hs : Forall (λ o, wk_realm (rs_key (ob_value o)) = realm) (scan_entries event ≫= scan_sites parse_rfc3339 event realm)).
  { apply Forall_bind, Forall_true. intros scan. apply Forall_forall. unfold scan_sites.
    intros o (value&_&Ho)%list_elem_of_omap. by eapply confined_resource_site. }
  destruct (if terminal_survey_system_digest event then _ else None) as [star|]; [|by apply confined_locations].
  destruct (en_locations _ !! in_realm realm star) as [o|] eqn:E; apply confined_locations; try done.
  apply Forall_app_2; [done|]. constructor; [|done]. simpl. by rewrite (na_locations _ Hclient _ _ E).
Qed.

Lemma confined_star_flag star hub ward entry :
  confined realm (update_star_flag parse_rfc3339 client event star hub ward entry).
Proof.
  unfold update_star_flag. rewrite (ei_realm _ _ Hevent).
  destruct (List.find _ _) as [o|] eqn:E; [|auto with confined]. apply confined_star.
  apply List.find_some in E as [_ E%bool_decide_eq_true]. simpl. by rewrite E.
Qed.

Lemma confined_world : confined realm (projection_world_lifecycle parse_rfc3339 scan_report_location client event).
Proof.
  unfold projection_world_lifecycle. destruct (Journal.ev_realm event) as [r|] eqn:Er; [|auto with confined].
  apply realm_of_event in Er as ->. cbv zeta.
  repeat (case_match; [|]); eauto using confined_scan, confined_star_flag with confined.
  - apply confined_locations; [constructor|]. constructor; [|constructor].
    match goal with H : (_ ≫= _) = Some _ |- _ => apply bind_Some in H as (object&_&H); by eapply confined_resource_site end.
  - apply confined_locations; [|constructor]. constructor; [|constructor].
    match goal with H : en_locations _ !! _ = Some _ |- _ => apply (na_locations _ Hclient) in H; simpl; by rewrite H end.
  - match goal with |- context [set_operational_capacity ?c] => apply (confined_update _ (set_operational_capacity c)); [|done] end.
    by apply device_at_event.
Qed.

(** ** Account content *)

Lemma confined_content : confined realm (projection_account_content parse_rfc3339 client event).
Proof.
  unfold projection_account_content. rewrite (ei_realm _ _ Hevent). cbv zeta.
  repeat (case_match; [|]); auto with confined.
Qed.

(** ** Salvage and incoming objects *)

Lemma confined_incoming o : In o (incoming_objects client) → object_in (wk_realm (io_key o)) o.
Proof.
  intros Hin%list_elem_of_In. unfold incoming_objects in Hin.
  apply elem_of_sort_by, list_elem_of_fmap in Hin as (x&->&Hx). apply list_elem_of_fmap in Hx as ([k y]&->&Hx).
  apply elem_of_map_to_list, Hclient in Hx as [<- Ho]. exact Ho.
Qed.

Lemma confined_deactivation key : wk_realm key = realm → confined realm (project_deactivation parse_rfc3339 client event key).
Proof.
  intros Hk. unfold project_deactivation. destruct (deactivated_objects client key) as [|o [|]] eqn:E; auto with confined.
  apply confined_incoming_object.
  assert (Hin : In o (deactivated_objects client key)) by (rewrite E; by left).
  unfold deactivated_objects in Hin. apply List.filter_In in Hin as [Hin Hp].
  apply confined_incoming in Hin as [_ Ho]. apply andb_prop in Hp as [Hp%bool_decide_eq_true _].
  split; [|done]. simpl. by rewrite <-(Ho _ Hp).
Qed.

Lemma confined_diversion key : wk_realm key = realm → confined realm (project_diversion parse_rfc3339 client event key).
Proof.
  intros Hk. unfold project_diversion. apply confined_incoming_object.
  assert (Ho : object_in realm (default (unseen_object event key)
    (List.find (λ o, bool_decide (io_key o = key)) (incoming_objects client)))).
  { destruct (List.find _ _) as [o|] eqn:E; [|done]. apply List.find_some in E as [Hin E%bool_decide_eq_true].
    simpl. rewrite <-Hk, <-E. by apply confined_incoming. }
  destruct Ho as [Ho Hp]. split; [exact Ho|]. simpl. destruct (named event "diversion.activated"); [|exact Hp].
  apply Hevent.
Qed.

Lemma confined_automation : confined realm (projection_automation_primitives parse_rfc3339 client event).
Proof.
  unfold projection_automation_primitives. destruct (Journal.ev_realm event) as [r|] eqn:Er; [|auto with confined].
  apply realm_of_event in Er as ->. cbv zeta.
  repeat (case_match; [|]); eauto using confined_deactivation, confined_diversion with confined.
  - by apply confined_locations; repeat constructor.
  - by apply confined_incoming_object.
Qed.

(** ** Operations *)

Lemma confined_adoption controller :
  wk_realm controller = realm → confined realm (project_adoption parse_rfc3339 client event realm controller).
Proof.
  intros Hc. unfold project_adoption. destruct (require_device client controller _) as [o b] eqn:E.
  apply require_device_spec in E as [Hb Ho]; [|auto with confined..]. destruct o as [o|]; [|done].
  destruct (Ho _ eq_refl) as [_ Hd]. clear Ho.
  set (children := in_realm realm <$> _).
  assert (Hch : Forall (λ k, wk_realm k = realm) children) by (by apply Forall_fmap, Forall_true; intros x).
  destruct (foldl (adopt_child parse_rfc3339 client event controller) (b, o) children) as [b' o'] eqn:Ef.
  assert (H' : confined realm b' ∧ device_in realm (ob_value o')).
  { clearbody children. revert b o Hb Hd Ef. induction Hch as [|k children Hk _ IH]; intros b o Hb Hd; cbn [foldl].
    { by intros [= <- <-]. }
    unfold adopt_child at 2. destruct (require_device client k b) as [x b2] eqn:Ex.
    apply require_device_spec in Ex as [Hb2 Hx]; [|done..]. destruct x as [x|]; [|by apply IH].
    destruct (Hx _ eq_refl) as [_ Hdx]. apply IH.
    - apply confined_push_device; [|done]. by eapply device_in_same; [exact Hdx|..].
    - by eapply device_in_same; [exact Hd|..]. }
  destruct H' as [Hb' Hd'].
  assert (confined realm (push_device (reobserved event (set_relationships (on_controlled (sort_by key_leb))) o') b')).
  { apply confined_push_device; [|done]. by eapply device_in_same; [exact Hd'|..]. }
  case_decide; auto with confined.
Qed.

Lemma confined_simulation_end id :
  realm = Simulation id → confined realm (project_simulation_end parse_rfc3339 client event id).
Proof.
  intros Hr. unfold project_simulation_end. rewrite <-Hr.
  destruct (List.find _ _) as [o|] eqn:E; [|auto with confined].
  apply confined_with_simulation; [|auto with confined].
  apply List.find_some in E as [_ E%bool_decide_eq_true]. simpl. by rewrite E.
Qed.

Lemma confined_operational : confined realm (projection_operational_lifecycle parse_rfc3339 client event).
Proof.
  unfold projection_operational_lifecycle. rewrite (ei_realm _ _ Hevent). cbv zeta.
  destruct (payload_i64 event "simulation_id") as [id|] eqn:Ei; [apply Hevent in Ei|].
  all: repeat (case_match; [|]);
    eauto using confined_adoption, confined_simulation_end, confined_update, device_at_event with confined.
Qed.

(** ** Every treatment *)

Lemma confined_reduce : confined realm (reduce parse_rfc3339 scan_report_location client event).
Proof.
  pose proof confined_movement. pose proof confined_world. pose proof confined_content.
  pose proof confined_automation. pose proof confined_operational. pose proof confined_narrow.
  assert (confined realm (projection_history_only client event)) by apply confined_none.
  assert (Hall : Forall (λ t, confined realm (et_reduce t.2 client event))
    (EVENT_TREATMENTS parse_rfc3339 scan_report_location)).
  { unfold EVENT_TREATMENTS. cbv zeta. repeat (apply Forall_cons; split; [assumption|]). constructor. }
  unfold reduce, event_treatment. destruct (List.find _ _) as [t|] eqn:E; [|done]. simpl.
  apply List.find_some in E as [Hin%list_elem_of_In _]. by eapply Forall_forall in Hall.
Qed.
End Reducers.
End Confinement.
