(* ===== verification/EventEffectFacts.v ===== *)
(** * The effects of an event on the store and the engine

    What the application of a batch changes: nothing outside the realm of its event, and
    nothing in the engine that a restart would not bring back. *)

From S2P Require Import Prelude Float64 Json Observations Entities Locations.
From S2P Require Import ManagedState ManagedStateFacts Mutations Operations.
From S2P Require Import EventLog EventReducers EventPipeline EventLogFacts EventReducerFacts.

Section Effects.
Context `{JN : JsonNumber} {Atmosphere : Type}.
Local Abbreviation Primary := (Durable (Json := Value) (Atmosphere := Atmosphere) * Tables)%type.
Local Abbreviation Batch := (EventProjectionBatch Atmosphere).
Local Abbreviation Engine := (ManagedState.Engine (Json := Value) (Atmosphere := Atmosphere)).
Implicit Types (b : Batch) (p : Primary) (e : Engine) (realm : Realm).

(** ** Tables *)

Lemma upsert_lookup_other {K A} `{Countable K} (key : A → K) rows (table : gmap K (Observation A)) k :
  Forall (λ o, key (ob_value o) ≠ k) rows → upsert key rows table !! k = table !! k.
Proof.
  unfold upsert. intros Hr. revert table. induction Hr as [|o rows Ho _ IH]; intros table; [done|].
  cbn [foldl]. rewrite IH. by apply lookup_insert_ne.
Qed.

Lemma upsert_keyed {K A} `{Countable K} (key : A → K) (P : K → A → Prop) rows (table : gmap K (Observation A)) :
  (∀ k o, table !! k = Some o → key (ob_value o) = k ∧ P k (ob_value o)) →
  Forall (λ o, P (key (ob_value o)) (ob_value o)) rows →
  ∀ k o, upsert key rows table !! k = Some o → key (ob_value o) = k ∧ P k (ob_value o).
Proof.
  unfold upsert. intros Ht Hr. revert table Ht. induction Hr as [|x rows Hx _ IH]; intros table Ht; [done|].
  cbn [foldl]. apply IH. intros k o [[<- <-]|[_ Ho]]%lookup_insert_Some; auto.
Qed.

Lemma persist_devices_lookup_other (rows : gmap WorldKey (DeviceRow (Json := Value))) devices k :
  Forall (λ o, dv_key (ob_value o) ≠ k) devices → foldl persist_device rows devices !! k = rows !! k.
Proof.
  intros Hr. revert rows. induction Hr as [|o devices Ho _ IH]; intros rows; [done|].
  cbn [foldl]. rewrite IH. by apply lookup_insert_ne.
Qed.

(** A row of another realm has another key. *)
Lemma other_realm {A} (key : A → WorldKey) realm (rows : list (Observation A)) k :
  Forall (λ o, wk_realm (key (ob_value o)) = realm) rows → wk_realm k ≠ realm →
  Forall (λ o, key (ob_value o) ≠ k) rows.
Proof. intros Hr Hk. eapply Forall_impl; [exact Hr|]. intros o Ho <-. done. Qed.

(** ** Outside a realm *)

(** The rows of the other realms are the same. *)
Record same_rows_outside realm p p' : Prop := {
  so_devices : ∀ k, wk_realm k ≠ realm → du_devices p'.1 !! k = du_devices p.1 !! k;
  so_replicants : ∀ k, wk_realm k ≠ realm → du_replicants p'.1 !! k = du_replicants p.1 !! k;
  so_locations : ∀ k, wk_realm k ≠ realm → du_locations p'.1 !! k = du_locations p.1 !! k;
  so_stars : ∀ k, wk_realm k ≠ realm → du_stars p'.1 !! k = du_stars p.1 !! k;
  so_simulations : ∀ id, Simulation id ≠ realm → du_simulations p'.1 !! id = du_simulations p.1 !! id;
  so_resource_sites : ∀ k, wk_realm k ≠ realm → ta_resource_sites p'.2 !! k = ta_resource_sites p.2 !! k;
  so_location_events : ∀ k, wk_realm k ≠ realm → ta_location_events p'.2 !! k = ta_location_events p.2 !! k;
  so_incoming_objects : ∀ k, wk_realm k ≠ realm → ta_incoming_objects p'.2 !! k = ta_incoming_objects p.2 !! k;
  so_trades : ∀ k, wk_realm k ≠ realm → ta_trades p'.2 !! k = ta_trades p.2 !! k;
}.
#[global] Instance same_rows_outside_preorder realm : PreOrder (same_rows_outside realm).
Proof.
  split; [by split|]. intros p1 p2 p3 [] []. split; intros k Hk;
    (etrans; [|match goal with H : _ |- _ => by apply H end]); auto.
Qed.

Lemma persist_observations_outside realm b p :
  confined realm b → same_rows_outside realm p (persist_observations b p).
Proof.
  intros []. split; intros k Hk; simpl; try (apply upsert_lookup_other; by eapply other_realm).
  - apply persist_devices_lookup_other. apply (other_realm dv_key realm); [|done].
    eapply Forall_impl; [exact cf_devices|]. by intros o [].
  - apply upsert_lookup_other. eapply Forall_impl; [exact cf_simulations|]. intros o Ho <-. done.
  - apply upsert_lookup_other. apply (other_realm io_key realm); [|done].
    eapply Forall_impl; [exact cf_incoming_objects|]. by intros o [].
Qed.

(** ** Deletions *)

(** The rows of the primary database that a restart reads, after some deletions *)
Definition without_devices {A} (deletions : list ProjectionTombstone) (m : gmap WorldKey A) : gmap WorldKey A :=
  foldl (λ m d, delete (in_realm (pt_realm d) (pt_item_id d)) m) m (List.filter is_device_deletion deletions).

Record deleted (deletions : list ProjectionTombstone) p p' : Prop := {
  de_devices : du_devices p'.1 = without_devices deletions (du_devices p.1);
  de_replicants : du_replicants p'.1 = du_replicants p.1;
  de_locations : du_locations p'.1 = du_locations p.1;
  de_simulations : du_simulations p'.1 = du_simulations p.1;
  de_stars : du_stars p'.1 = du_stars p.1;
  de_metadata : du_catalogue_metadata p'.1 = du_catalogue_metadata p.1;
  de_incoming_objects : ta_incoming_objects p'.2 ⊆ ta_incoming_objects p.2;
}.

Lemma persist_deletion_spec realm d p :
  pt_realm d = realm ∧ deletable (pt_kind d) →
  ∃ p', persist_deletion d p = Ok p' ∧ same_rows_outside realm p p' ∧ deleted [d] p p'.
Proof.
  destruct d as [r kind item_id evidence]. simpl. intros [-> Hk]. unfold persist_deletion, tombstone. simpl.
  unfold deletable in Hk. rewrite !elem_of_cons, elem_of_nil in Hk. simpl.
  assert (Hne : ∀ k, wk_realm k ≠ realm → in_realm realm item_id ≠ k) by (by intros k Hk' <-).
  destruct Hk as [-> |[-> |[-> |[-> |[-> |[]]]]]]; simpl; eexists; (split; [reflexivity|]);
    split; split; simpl; try done; try (intros k Hk; by rewrite lookup_delete_ne by auto); try apply delete_subseteq.
Qed.

Lemma persist_deletions_spec realm deletions p :
  Forall (λ d, pt_realm d = realm ∧ deletable (pt_kind d)) deletions →
  ∃ p', persist_deletions deletions p = Ok p' ∧ same_rows_outside realm p p' ∧ deleted deletions p p'.
Proof.
  intros Hd. revert p. induction Hd as [|d deletions Hd _ IH]; intros p; cbn [persist_deletions].
  { exists p. split_and!; [done..|]. by split. }
  destruct (persist_deletion_spec realm d p Hd) as (p1&->&Hs1&H1). simpl.
  destruct (IH p1) as (p2&->&Hs2&H2). exists p2. split_and!; [done|by trans p1|].
  destruct H1, H2. split; try congruence; [|by trans (ta_incoming_objects p1.2)].
  rewrite de_devices1, de_devices0. unfold without_devices. simpl. by destruct (is_device_deletion d).
Qed.

(** ** A whole batch *)

Record written b p p' : Prop := {
  wr_devices : du_devices p'.1 = without_devices (eb_deletions b) (foldl persist_device (du_devices p.1) (eb_devices b));
  wr_replicants : du_replicants p'.1 = upsert re_key (eb_replicants b) (du_replicants p.1);
  wr_locations : du_locations p'.1 = upsert lo_key (eb_locations b) (du_locations p.1);
  wr_simulations : du_simulations p'.1 = upsert si_id (eb_simulations b) (du_simulations p.1);
  wr_stars : du_stars p'.1 = upsert sr_key (eb_stars b) (du_stars p.1);
  wr_metadata : du_catalogue_metadata p'.1 = du_catalogue_metadata p.1;
  wr_incoming_objects : ta_incoming_objects p'.2 ⊆ upsert io_key (eb_incoming_objects b) (ta_incoming_objects p.2);
}.

Lemma persist_batch_spec realm b p :
  confined realm b →
  ∃ p', persist_projection_batch b p = Ok p' ∧ same_rows_outside realm p p' ∧ written b p p'.
Proof.
  intros Hb. unfold persist_projection_batch.
  destruct (persist_deletions_spec realm (eb_deletions b) (persist_observations b p)) as (p1&->&Hs&Hd); [by apply Hb|].
  simpl. eexists. split; [reflexivity|].
  assert (same_rows_outside realm p p1) as [] by (etrans; [by apply persist_observations_outside|done]).
  destruct Hd. split; split; done.
Qed.

(** ** The locations are merged in the realm *)

Lemma merge_locations_in realm locations known out :
  (∀ k o, known !! k = Some o → lo_key (ob_value o) = k) →
  Forall (λ o, wk_realm (lo_key (ob_value o)) = realm) locations →
  Forall (λ o, wk_realm (lo_key (ob_value o)) = realm) out →
  Forall (λ o, wk_realm (lo_key (ob_value o)) = realm)
    (foldl (merge_location (Atmosphere := Atmosphere)) (out, known) locations).1.
Proof.
  intros Hk Hl. revert known out Hk. induction Hl as [|o locations Ho _ IH]; intros known out Hk Hout; [done|].
  cbn [foldl merge_location].
  set (o' := match known !! lo_key (ob_value o) with Some _ => _ | None => o end).
  assert (Ho' : lo_key (ob_value o') = lo_key (ob_value o)).
  { subst o'. destruct (known !! lo_key (ob_value o)) as [x|] eqn:E; [|done]. simpl. by apply Hk. }
  apply IH.
  - intros k x [[<- <-]|[_ Hx]]%lookup_insert_Some; auto.
  - apply Forall_app_2; [done|]. constructor; [|done]. by rewrite Ho'.
Qed.

Lemma confined_with_locations realm locations b :
  Forall (λ o, wk_realm (lo_key (ob_value o)) = realm) locations → confined realm b →
  confined realm (with_locations locations b).
Proof. by intros ? []; split. Qed.

(** ** The published engine *)

Record same_engine_outside realm e e' : Prop := {
  se_devices : ∀ k, wk_realm k ≠ realm → en_devices e' !! k = en_devices e !! k;
  se_replicants : ∀ k, wk_realm k ≠ realm → en_replicants e' !! k = en_replicants e !! k;
  se_locations : ∀ k, wk_realm k ≠ realm → en_locations e' !! k = en_locations e !! k;
  se_catalogue : ∀ k, wk_realm k ≠ realm → en_catalogue e' !! k = en_catalogue e !! k;
  se_simulations : ∀ id, Simulation id ≠ realm → en_simulations e' !! id = en_simulations e !! id;
}.

Lemma without_devices_outside {A} realm deletions (m : gmap WorldKey A) k :
  Forall (λ d, pt_realm d = realm ∧ deletable (pt_kind d)) deletions → wk_realm k ≠ realm →
  without_devices deletions m !! k = m !! k.
Proof.
  unfold without_devices. intros Hd Hk. revert m. induction Hd as [|d deletions [Hd _] _ IH]; intros m; [done|].
  simpl. destruct (is_device_deletion d); [|done]. cbn [foldl]. rewrite IH, lookup_delete_ne; [done|]. by intros <-.
Qed.

Lemma without_devices_deleted {A} deletions (m : gmap WorldKey A) d :
  d ∈ deletions → pt_kind d = "device" → without_devices deletions m !! in_realm (pt_realm d) (pt_item_id d) = None.
Proof.
  unfold without_devices. intros Hd Hk. assert (Hin : d ∈ List.filter is_device_deletion deletions).
  { apply list_elem_of_In, List.filter_In. split; [by apply list_elem_of_In|]. unfold is_device_deletion. by rewrite Hk. }
  clear Hd. revert m. induction (List.filter _ deletions) as [|x l IH]; intros m; [by apply not_elem_of_nil in Hin|].
  cbn [foldl]. apply elem_of_cons in Hin as [<-|Hin]; [|by apply IH].
  generalize (lookup_delete_eq m (in_realm (pt_realm d) (pt_item_id d))).
  generalize (delete (in_realm (pt_realm d) (pt_item_id d)) m). clear. induction l as [|x l IH]; intros m Hm; [done|].
  cbn [foldl]. apply IH. destruct (decide (in_realm (pt_realm x) (pt_item_id x) = in_realm (pt_realm d) (pt_item_id d))) as [->|].
  - apply lookup_delete_eq.
  - by rewrite lookup_delete_ne.
Qed.

Lemma without_devices_subseteq {A} deletions (m : gmap WorldKey A) : without_devices deletions m ⊆ m.
Proof.
  unfold without_devices. revert m. induction (List.filter _ deletions) as [|d l IH]; intros m; [done|].
  cbn [foldl]. etrans; [apply IH|apply delete_subseteq].
Qed.

Lemma merge_event_stars_outside realm stars catalogue k :
  Forall (λ o, wk_realm (sr_key (ob_value o)) = realm) stars → wk_realm k ≠ realm →
  foldl merge_event_star catalogue stars !! k = catalogue !! k.
Proof.
  intros Hs Hk. revert catalogue. induction Hs as [|o stars Ho _ IH]; intros catalogue; [done|].
  cbn [foldl]. rewrite IH. apply lookup_insert_ne. by intros <-.
Qed.

Lemma publish_event_outside realm e b durable :
  confined realm b → same_engine_outside realm e (publish_event e b durable).
Proof.
  intros []. split; intros k Hk; simpl.
  - etrans; [by apply (without_devices_outside realm)|]. apply upsert_lookup_other, (other_realm dv_key realm); [|done].
    eapply Forall_impl; [exact cf_devices|]. by intros o [].
  - apply upsert_lookup_other. by eapply other_realm.
  - apply upsert_lookup_other. by eapply other_realm.
  - by apply (merge_event_stars_outside realm).
  - apply upsert_lookup_other. eapply Forall_impl; [exact cf_simulations|]. intros o Ho <-. done.
Qed.

(** ** The invariant of the views *)

Lemma native_publish realm e b durable objects objects' :
  native {| vw_engine := e; vw_incoming_objects := objects |} → confined realm b →
  objects' ⊆ upsert io_key (eb_incoming_objects b) objects →
  native {| vw_engine := publish_event e b durable; vw_incoming_objects := objects' |}.
Proof.
  intros [Hd Hr Hl Ho] [] Hsub. split; simpl in *.
  - intros k o Hk. eapply lookup_weaken in Hk; [|apply without_devices_subseteq]. revert k o Hk.
    apply (upsert_keyed dv_key (λ k, device_in (wk_realm k))); [done|].
    eapply Forall_impl; [exact cf_devices|]. by intros o [<- H].
  - intros k o Hk. by apply (upsert_keyed re_key (λ _ _, True) _ _ (λ k o H, conj (Hr k o H) I)) in Hk as [? _];
      [|by apply Forall_true].
  - intros k o Hk. by apply (upsert_keyed lo_key (λ _ _, True) _ _ (λ k o H, conj (Hl k o H) I)) in Hk as [? _];
      [|by apply Forall_true].
  - intros k o Hk. eapply lookup_weaken in Hk; [|exact Hsub]. revert k o Hk.
    apply (upsert_keyed io_key (λ k, object_in (wk_realm k))); [done|].
    eapply Forall_impl; [exact cf_incoming_objects|]. by intros o [<- H].
Qed.

(** ** A restart *)

Lemma foldl_persist_keyed (devices : list (Observation (Entities.Device Value))) rows :
  keyed rows → keyed (foldl persist_device rows devices).
Proof. revert rows. induction devices as [|o devices IH]; intros rows Hk; [done|]. cbn [foldl]. auto using keyed_persist. Qed.

Lemma foldl_persist_restores (devices : list (Observation (Entities.Device Value))) rows m :
  restores rows m → restores (foldl persist_device rows devices) (upsert dv_key devices m).
Proof.
  unfold upsert. revert rows m. induction devices as [|o devices IH]; intros rows m Hr; [done|].
  cbn [foldl]. by apply IH, restores_persist.
Qed.

Lemma without_devices_restores deletions rows m :
  restores (Json := Value) rows m → restores (without_devices deletions rows) (without_devices deletions m).
Proof.
  unfold without_devices. revert rows m. induction (List.filter _ deletions) as [|d l IH]; intros rows m Hr; [done|].
  cbn [foldl]. apply IH. intros k. destruct (decide (in_realm (pt_realm d) (pt_item_id d) = k)) as [<-|].
  - by rewrite !lookup_delete_eq.
  - by rewrite !lookup_delete_ne.
Qed.

(** The engine published with a batch that has no stars mirrors the rows that were written. *)
Lemma mirror_publish_event e b d t p' :
  mirror e → en_durable e = d → eb_stars b = [] → written b (d, t) p' → mirror (publish_event e b p'.1).
Proof.
  intros [] <- Hs []. simpl in *. split; simpl.
  - rewrite wr_devices0. intros k row Hrow. eapply lookup_weaken in Hrow; [|apply without_devices_subseteq].
    by eapply foldl_persist_keyed.
  - rewrite wr_devices0. by apply without_devices_restores, foldl_persist_restores.
  - congruence.
  - congruence.
  - congruence.
  - rewrite wr_stars0, Hs. exact mi_catalogue.
  - by rewrite wr_metadata0.
Qed.
End Effects.
