(* ===== verification/EventPipelineFacts.v ===== *)
(** * Facts of the event pipeline

    The invariants of the applications through every interleaving of deliveries, failures,
    crashes and restarts. *)

From S2P Require Import Prelude Float64 Json Observations Entities Locations.
From S2P Require Import ManagedState ManagedStateFacts Mutations Operations.
From S2P Require Import EventLog EventReducers EventPipeline.
From S2P Require Import EventLogFacts EventReducerFacts EventEffectFacts.

Section Applications.
Context `{JN : JsonNumber} {Atmosphere : Type}.
Variable parse_rfc3339 : string → option Z.
Variable scan_report_location : string → string → Object_ → Realm → Z → string →
  option (Observation (Locations.Location Value Atmosphere)).
Variable display : StoreError → string.

Local Abbreviation Pipeline := (EventPipeline.Pipeline (Atmosphere := Atmosphere)).
Local Abbreviation step := (EventPipeline.step parse_rfc3339 scan_report_location display).
Local Abbreviation reaches := (EventPipeline.reaches parse_rfc3339 scan_report_location display).
Local Abbreviation commit_event := (EventPipeline.commit_event parse_rfc3339 scan_report_location display).
Implicit Types (p q : Pipeline) (m : Managed (Atmosphere := Atmosphere)) (raw : GameEvent) (event : Journal.Event).

(** ** One step *)

(** A delivery is one call of the store, and what became of it. *)
Lemma commit_event_change outcomes raw p :
  ∃ event r s', Journal.ev_id event = ge_id raw ∧ store_change event (store_of p) r s' ∧
  store_of (commit_event outcomes raw p).2 = s' ∧
  match r with
  | Ok true => commit_event outcomes raw p =
      (Ok true, {| pl_managed := pl_managed (commit_event outcomes raw p).2; pl_phase := Committed event;
                   pl_committed := pl_committed p ++ [ge_id raw]; pl_resolved := pl_resolved p;
                   pl_published := pl_published p |})
  | Ok false => ∃ m, commit_event outcomes raw p = (Ok false, on_managed m p)
  | Err error => ∃ m, commit_event outcomes raw p = (Err (persistence_error display error), on_managed m p)
  end.
Proof.
  unfold EventPipeline.commit_event, apply_event_projection.
  set (event := account_event raw _). set (batch := with_locations _ _).
  destruct (store_apply_event_projection outcomes event (ge_id raw) batch (mg_store (pl_managed p))) as [r s'] eqn:E.
  exists event, r, s'. split; [done|]. split; [by eapply store_apply_change|].
  destruct r as [[]|error]; simpl; eauto.
Qed.

Lemma reopen_rest now p p' : reopen now p = Ok p' →
  pl_phase p' = Idle ∧ pl_committed p' = pl_committed p ∧ pl_resolved p' = pl_resolved p ∧
  pl_published p' = pl_published p ∧ cursor_of p' = cursor_of p ∧
  ∃ s, reconcile_history_visibility (store_of p) = Ok s ∧ ls_history (store_of p') = ls_history s.
Proof.
  unfold reopen. destruct (reconcile_history_visibility _) as [s|] eqn:Es; [|done]. simpl.
  destruct (from_store _) as [e|]; [|done]. simpl. intros [= <-]. split_and!; try done.
  - apply reconcile_visibility_rest in Es as [Hc _]. unfold cursor_of, store_of in *. simpl. rewrite <-Hc.
    unfold recover_orphaned_reconciliation_work. destruct (ls_leader s) as [[]|]; [case_decide|]; done.
  - exists s. split; [done|]. simpl. unfold recover_orphaned_reconciliation_work.
    destruct (ls_leader s) as [[]|]; [case_decide|]; done.
Qed.

(** ** What was applied *)

Definition unresolved (phase : Phase) : list string :=
  match phase with Committed event => [Journal.ev_id event] | _ => [] end.
Definition unpublished (phase : Phase) : list string :=
  match phase with Idle => [] | Committed event | Resolved event => [Journal.ev_id event] end.

(** What has happened to the events since [p]: [new] were committed, [resolved] shown to the
    journal and [published] announced. *)
Record since p q (new resolved : list string) (published : list Journal.Event) : Prop := {
  sn_committed : pl_committed q = pl_committed p ++ new;
  sn_resolved : pl_resolved q = pl_resolved p ++ resolved;
  sn_published : pl_published q = pl_published p ++ published;
  sn_cursor : cursor_of q = last (option_list (cursor_of p) ++ new);
  sn_sorted : StronglySorted earlier (option_list (cursor_of p) ++ new);
  sn_resolved_in : resolved ++ unresolved (pl_phase q) `sublist_of` new;
  sn_published_in : (Journal.ev_id <$> published) ++ unpublished (pl_phase q) `sublist_of` new;
}.

(** Only the last element must be earlier than the next. *)
Lemma sorted_snoc l id :
  StronglySorted earlier l → (∀ c, last l = Some c → earlier c id) → StronglySorted earlier (l ++ [id]).
Proof.
  induction l as [|x l IH]; intros Hs Hl; [by repeat constructor|].
  apply StronglySorted_inv in Hs as [Hs Hx]. cbn [app]. constructor.
  - apply IH; [done|]. intros c Hc. apply Hl. destruct l; [done|]. exact Hc.
  - apply Forall_app. split; [done|]. apply Forall_singleton.
    destruct (last l) as [c|] eqn:E.
    + assert (earlier c id) by (apply Hl; destruct l; [done|exact E]).
      trans c; [|done]. eapply Forall_forall; [exact Hx|]. by apply last_Some_elem_of.
    + apply Hl. by apply last_None in E as ->.
Qed.

Lemma sorted_no_duplicates l : StronglySorted earlier l → NoDup l.
Proof.
  induction 1 as [|x l _ IH Hx]; [constructor|]. constructor; [|done]. intros Hin.
  eapply Forall_forall in Hx; [|done]. by eapply earlier_irreflexive.
Qed.

Lemma last_of_sorted l id :
  StronglySorted earlier l → id ∈ l → ∃ c, last l = Some c ∧ at_or_before id c.
Proof.
  intros Hs Hin. destruct l as [|c l _] using rev_ind; [by apply not_elem_of_nil in Hin|].
  exists c. rewrite last_snoc. split; [done|].
  apply elem_of_app in Hin as [Hin|Hin]; [|apply list_elem_of_singleton in Hin as ->; apply at_or_before_refl].
  assert (He : earlier id c) by (eapply StronglySorted_app_1_elem_of; [done..|by left]).
  exact (compare_event_ids_trans _ _ _ _ (compare_event_ids_refl id) eq_refl He).
Qed.

Lemma since_idle p : pl_phase p = Idle → since p p [] [] [].
Proof.
  intros Hp. split; rewrite ?app_nil_r, ?Hp; try done.
  - by destruct (cursor_of p).
  - destruct (cursor_of p); repeat constructor.
Qed.

Lemma sublist_without {A} (l k new : list A) : l ++ k `sublist_of` new → l `sublist_of` new.
Proof. intros H. etrans; [|exact H]. by apply sublist_inserts_r. Qed.

(** A step that leaves the lists, the phase and the cursor alone. *)
Lemma since_still p q q' new resolved published :
  since p q new resolved published → pl_committed q' = pl_committed q → pl_resolved q' = pl_resolved q →
  pl_published q' = pl_published q → cursor_of q' = cursor_of q → pl_phase q' = pl_phase q ∨ pl_phase q' = Idle →
  since p q' new resolved published.
Proof.
  intros [Hc Hr Hp Hcur Hs Hrs Hps] Hc' Hr' Hp' Hcur' Hph. split; try congruence; destruct Hph as [->| ->]; try done;
    simpl; rewrite app_nil_r; by eapply sublist_without.
Qed.

Lemma since_step p q q' new resolved published :
  since p q new resolved published → step q q' → ∃ new resolved published, since p q' new resolved published.
Proof.
  intros Hs Hq. destruct Hq as [outcomes raw Hi|evidence event He|event He|m Hcur _|now q' Ho].
  - destruct (commit_event_change outcomes raw q) as (event&r&s'&Hid&Hch&Hst&Hr).
    assert (Hcursor : cursor_of (commit_event outcomes raw q).2 = ls_cursor s') by (unfold cursor_of; by rewrite Hst).
    destruct Hch as [error|error _|s' Hh Hs'|primary s' Hh done Hs'].
    + destruct Hr as [m Hr]. rewrite Hr in Hcursor |- *. exists new, resolved, published.
      by eapply since_still; [done..| |left].
    + destruct Hr as [m Hr]. rewrite Hr in Hcursor |- *. exists new, resolved, published.
      by eapply since_still; [done..| |left].
    + destruct Hr as [m Hr]. rewrite Hr in Hcursor |- *. exists new, resolved, published.
      eapply since_still; [done..| |by left]. etrans; [exact Hcursor|]. by destruct Hs' as [->| ->].
    + rewrite Hr. assert (Hl : ls_cursor s' = Some (ge_id raw)) by (rewrite <-Hid; by destruct Hs' as [->| ->]).
      rewrite Hl, Hr in Hcursor. destruct Hs as [Hc Hre Hp Hcur Hso Hrs Hps]. rewrite Hi in Hrs, Hps. simpl in *.
      rewrite app_nil_r in Hrs, Hps. exists (new ++ [ge_id raw]), resolved, published. split; simpl.
      * by rewrite Hc, app_assoc.
      * done.
      * done.
      * rewrite app_assoc, last_snoc. exact Hcursor.
      * rewrite app_assoc. apply sorted_snoc; [done|]. rewrite <-Hcur, <-Hid.
        by apply (proj1 (has_event_false _ _) Hh).
      * rewrite Hid. by apply sublist_app.
      * rewrite Hid. by apply sublist_app.
  - destruct Hs as [Hc Hre Hp Hcur Hso Hrs Hps]. rewrite He in Hrs, Hps. simpl in Hrs, Hps.
    unfold resolve_event. destruct (Journal.ev_realm event); [destruct evidence|]; simpl.
    + exists new, (resolved ++ [Journal.ev_id event]), published. split; try done; simpl.
      * by rewrite Hre, app_assoc.
      * by rewrite app_nil_r.
    + exists new, resolved, published. split; try done; simpl; rewrite app_nil_r;
        by eapply sublist_without.
    + exists new, resolved, published. split; try done; simpl. rewrite app_nil_r.
      by eapply sublist_without.
  - destruct Hs as [Hc Hre Hp Hcur Hso Hrs Hps]. rewrite He in Hrs, Hps. simpl in Hrs, Hps.
    exists new, resolved, (published ++ [event]). split; try done; simpl.
    + by rewrite Hp, app_assoc.
    + by rewrite fmap_app, app_nil_r.
  - exists new, resolved, published. eapply since_still; [done..|by left].
  - apply reopen_rest in Ho as (Hph&Hc&Hr&Hp&Hcur&_). exists new, resolved, published.
    eapply since_still; [done..|by right].
Qed.

Lemma since_reaches p q : pl_phase p = Idle → reaches p q → ∃ new resolved published, since p q new resolved published.
Proof.
  intros Hp. revert q. apply rtc_ind_r.
  - exists [], [], []. by apply since_idle.
  - intros q q' _ Hs (new&resolved&published&IH). by eapply since_step.
Qed.

(** ** The history *)

Record logged p : Prop := {
  lg_history : history_ok (cursor_of p) (ls_history (store_of p));
  lg_committed : ∀ id, id ∈ pl_committed p → is_Some (ls_history (store_of p) !! id);
}.

Lemma logged_step p q : logged p → step p q → logged q.
Proof.
  intros [Hh Hc] Hs. destruct Hs as [outcomes raw _|evidence event _|event _|m Hcur Hhist|now q Ho].
  - destruct (commit_event_change outcomes raw p) as (event&r&s'&Hid&Hch&Hst&Hr).
    destruct (store_change_history _ _ _ _ Hch Hh) as [Hok Hdom].
    split; [unfold cursor_of; by rewrite Hst|]. rewrite Hst. intros id Hin.
    destruct r as [[]|error]; [|by destruct Hr as [m Hr]; rewrite Hr in Hin; auto..].
    rewrite Hr in Hin. simpl in Hin. apply elem_of_app in Hin as [Hin|Hin]; [by auto|].
    apply list_elem_of_singleton in Hin as ->. rewrite <-Hid. inversion Hch as [| | |primary s'' _ done Hs'']; subst.
    assert (is_Some (ls_history done !! Journal.ev_id event)) by (apply (append_dom event (store_of p)); by left).
    destruct Hs'' as [->| ->]; [done|by apply mark_dom].
  - unfold resolve_event. by destruct (Journal.ev_realm event), evidence.
  - done.
  - split; unfold cursor_of, store_of in *; simpl; rewrite ?Hcur, Hhist; auto.
  - apply reopen_rest in Ho as (_&Hcm&_&_&Hcur&s&Hs&Hhist).
    destruct (reconcile_visibility_spec _ _ Hs Hh) as (Hok&Hdom&_).
    apply reconcile_visibility_rest in Hs as [Hcs _].
    split; rewrite ?Hcm, Hhist, ?Hcur; [|auto]. unfold cursor_of. by rewrite <-Hcs.
Qed.

Lemma logged_reaches p q : logged p → reaches p q → logged q.
Proof. intros Hp Hr. induction Hr; [done|]. eauto using logged_step. Qed.

Lemma logged_fresh m : fresh_log m → logged (started m).
Proof.
  intros [Hc Hh]. split; [split|]; unfold cursor_of, store_of; simpl; rewrite ?Hh;
    try (intros ??; by rewrite lookup_empty). by intros ? ?%not_elem_of_nil.
Qed.

(** A passed event is none of those that come later. *)
Lemma passed_not_new p q new resolved published id :
  since p q new resolved published → has_event id (store_of p) = Ok true → id ∉ new.
Proof.
  intros Hs Hid Hin. apply has_event_true in Hid as (cursor&c&Hc&Hcmp&Hgt).
  pose proof (sn_sorted _ _ _ _ _ Hs) as Hsort. unfold cursor_of in Hsort. rewrite Hc in Hsort.
  apply StronglySorted_inv in Hsort as [_ Hall]. eapply Forall_forall in Hall; [|exact Hin].
  by eapply compare_event_ids_passed.
Qed.

(** ** The batch of an event *)

(** The location a scan report describes is in the realm of the scan. *)
Definition scans_in_realm : Prop := ∀ target scan_type report realm at_ id o,
  scan_report_location target scan_type report realm at_ id = Some o → wk_realm (lo_key (ob_value o)) = realm.

Definition realm_of p raw : Realm := or_live (resolve_realm (mg_engine (pl_managed p)) raw).
Definition event_of p raw : Journal.Event := account_event raw (resolve_realm (mg_engine (pl_managed p)) raw).
(** The batch of the reducer, and the one the store is given *)
Definition reduced p raw : EventProjectionBatch Atmosphere :=
  reduce parse_rfc3339 scan_report_location (view_of (pl_managed p)) (event_of p raw).
Definition merged_batch p raw : EventProjectionBatch Atmosphere :=
  with_locations (foldl merge_location ([], en_locations (mg_engine (pl_managed p))) (eb_locations (reduced p raw))).1 (reduced p raw).

Lemma get_field_app l l' key v : get_field l key = Some v → get_field (l ++ l') key = Some v.
Proof. induction l as [|[k w] l IH]; [done|]. simpl. case_decide; auto. Qed.

(** An event that names its simulation is of that simulation. *)
Lemma resolve_realm_simulation e raw id :
  (v ← get_field (ge_payload raw) "simulation_id"; value_as_i64 v) = Some id →
  resolve_realm (Atmosphere := Atmosphere) e raw = Some (Simulation id).
Proof.
  intros (v&Hv&Hid)%bind_Some. unfold resolve_realm. by rewrite (get_field_app _ _ _ _ Hv); simpl; rewrite Hid.
Qed.

Lemma event_of_in p raw : event_in (realm_of p raw) (event_of p raw).
Proof.
  assert (Hs : ∀ id, payload_i64 (event_of p raw) "simulation_id" = Some id → realm_of p raw = Simulation id).
  { intros id Hid. unfold realm_of. by rewrite (resolve_realm_simulation _ _ id Hid). }
  revert Hs. unfold realm_of, event_of. destruct (resolve_realm (mg_engine (pl_managed p)) raw) as [r|]; intros Hs.
  - split; try done; intros k (id&_&[= <-])%bind_Some; done.
  - by split.
Qed.

Lemma confined_reduced p raw : scans_in_realm → native (view_of (pl_managed p)) → confined (realm_of p raw) (reduced p raw).
Proof. intros Hs Hn. apply confined_reduce; [done..|apply event_of_in]. Qed.

Lemma confined_merged p raw :
  scans_in_realm → native (view_of (pl_managed p)) → confined (realm_of p raw) (merged_batch p raw).
Proof.
  intros Hs Hn. pose proof (confined_reduced p raw Hs Hn) as Hc. apply confined_with_locations; [|done].
  apply merge_locations_in; [apply Hn|apply Hc|constructor].
Qed.

(** What a delivery writes, when it commits: the batch, which the store can always write. *)
Lemma commit_event_effects outcomes raw p :
  scans_in_realm → native (view_of (pl_managed p)) →
  ∃ primary, persist_projection_batch (merged_batch p raw) (ls_primary (store_of p)) = Ok primary ∧
  same_rows_outside (realm_of p raw) (ls_primary (store_of p)) primary ∧
  written (merged_batch p raw) (ls_primary (store_of p)) primary ∧
  let p' := (commit_event outcomes raw p).2 in
  ((commit_event outcomes raw p).1 ≠ Ok true ∧
   mg_engine (pl_managed p') = mg_engine (pl_managed p) ∧ ls_primary (store_of p') = ls_primary (store_of p) ∨
   mg_engine (pl_managed p') = publish_event (mg_engine (pl_managed p)) (merged_batch p raw) primary.1 ∧
   ls_primary (store_of p') = primary).
Proof.
  intros Hs Hn. destruct (persist_batch_spec _ _ (ls_primary (store_of p)) (confined_merged p raw Hs Hn)) as (primary&Hp&Ho&Hw).
  exists primary. split_and!; [done..|]. unfold EventPipeline.commit_event, apply_event_projection. cbv zeta.
  fold (event_of p raw). fold (reduced p raw). fold (merged_batch p raw).
  unfold store_apply_event_projection, mark_best_effort. fold (store_of p).
  destruct (has_event (ge_id raw) (store_of p)) as [[]|]; [by destruct (oc_visible outcomes); left| |by left].
  destruct (oc_append outcomes); [|by left]. destruct (oc_maintain outcomes); [|by left]. simpl in *. rewrite Hp.
  destruct (advance_event_cursor _ _); [|by left]. destruct (oc_commit outcomes); [|by left].
  right. by destruct (oc_visible outcomes).
Qed.

(** The calls of the store succeed. *)
Definition clean (outcomes : Outcomes) : Prop :=
  oc_append outcomes = Ok tt ∧ oc_maintain outcomes = Ok tt ∧ oc_commit outcomes = Ok tt.

(** A new event commits when the calls of the store succeed. *)
Lemma commit_event_succeeds outcomes raw p :
  scans_in_realm → native (view_of (pl_managed p)) →
  clean outcomes → has_event (ge_id raw) (store_of p) = Ok false →
  ∃ m, commit_event outcomes raw p =
    (Ok true, {| pl_managed := m; pl_phase := Committed (event_of p raw); pl_committed := pl_committed p ++ [ge_id raw];
                 pl_resolved := pl_resolved p; pl_published := pl_published p |}) ∧
    ls_cursor (mg_store m) = Some (ge_id raw) ∧ native (view_of m).
Proof.
  intros Hs Hn (Ha&Hmt&Hcm) Hh. pose proof (confined_merged p raw Hs Hn) as Hc.
  destruct (persist_batch_spec _ _ (ls_primary (store_of p)) Hc) as (primary&Hp&Ho&Hw).
  unfold EventPipeline.commit_event, apply_event_projection. cbv zeta.
  fold (event_of p raw). fold (reduced p raw). fold (merged_batch p raw).
  unfold store_apply_event_projection, mark_best_effort. fold (store_of p). rewrite Hh, Ha, Hmt. simpl in *.
  rewrite Hp, advance_later by (by apply has_event_false). rewrite Hcm.
  destruct (oc_visible outcomes); (eexists; split_and!; [reflexivity|done|]);
    (eapply native_publish; [exact Hn|exact Hc|apply Hw]).
Qed.

(** ** A page of the log *)

Lemma apply_page_spec (world : World) n events p :
  scans_in_realm → native (view_of (pl_managed p)) → pl_phase p = Idle →
  (∀ n, clean (wd_outcomes world n) ∧ wd_evidence world n = Ok tt) →
  StronglySorted earlier (option_list (cursor_of p) ++ (ge_id <$> events)) →
  ∃ n' p', apply_page parse_rfc3339 scan_report_location display world n events p = (Ok n', p') ∧
  pl_committed p' = pl_committed p ++ (ge_id <$> events) ∧
  (Journal.ev_id <$> pl_published p') = (Journal.ev_id <$> pl_published p) ++ (ge_id <$> events) ∧
  cursor_of p' = last (option_list (cursor_of p) ++ (ge_id <$> events)).
Proof.
  intros Hs. revert n p. induction events as [|raw events IH]; intros n p Hn Hi Hw Hso; cbn [apply_page].
  { exists n, p. simpl. rewrite !app_nil_r. split_and!; [done..|]. by destruct (cursor_of p). }
  rewrite fmap_cons in *. destruct (Hw n) as [Hc Hev].
  assert (Hh : has_event (ge_id raw) (store_of p) = Ok false).
  { apply has_event_false. intros c Hcur. eapply (StronglySorted_app_1_elem_of _ _ _ _ _ Hso); [|by left].
    unfold cursor_of. rewrite Hcur. by left. }
  destruct (commit_event_succeeds (wd_outcomes world n) raw p Hs Hn Hc Hh) as (m&Hm&Hcur&Hn').
  unfold run_applier, apply_event. rewrite Hm. cbn [pl_phase].
  set (p1 := {| pl_managed := m; pl_phase := _; pl_committed := _; pl_resolved := _; pl_published := _ |}).
  assert (Hr : ∃ p2, resolve_event (wd_evidence world n) (event_of p raw) p1 = (Ok tt, p2) ∧
    pl_managed p2 = m ∧ pl_committed p2 = pl_committed p1 ∧ pl_published p2 = pl_published p1).
  { unfold resolve_event. rewrite Hev. destruct (Journal.ev_realm _); eexists; by split. }
  destruct Hr as (p2&->&Hm2&Hc2&Hp2).
  destruct (IH (S n) (publish (event_of p raw) p2)) as (n'&p'&Happ&Hcm&Hpub&Hlast).
  - simpl. by rewrite Hm2.
  - done.
  - done.
  - unfold cursor_of, store_of. simpl. rewrite Hm2, Hcur. simpl. by apply StronglySorted_app_1_r in Hso.
  - exists n', p'. split; [exact Happ|]. rewrite Hcm, Hpub, Hlast. simpl. rewrite Hc2, Hp2, fmap_app. simpl.
    split_and!; [by rewrite <-app_assoc|by rewrite <-app_assoc|].
    unfold cursor_of, store_of. simpl. rewrite Hm2, Hcur.
    rewrite !last_app, last_cons. by destruct (last (ge_id <$> events)).
Qed.

(** * The claims *)

(** C7: Whatever the log and the stream deliver, and whatever fails or crashes between, each
    event is committed at most once and in the order of the stream, the cursor is the last
    committed event, and the journal and the watchers see committed events only, in that
    order and at most once. *)
Theorem events_apply_once_in_order m p :
  reaches (started m) p →
  let ids := option_list (cursor_of (started m)) ++ pl_committed p in
  StronglySorted earlier ids ∧ cursor_of p = last ids ∧
  pl_resolved p `sublist_of` pl_committed p ∧
  (Journal.ev_id <$> pl_published p) `sublist_of` pl_committed p.
Proof.
  intros Hr. apply since_reaches in Hr as (new&resolved&published&[Hc Hre Hp Hcur Hso Hrs Hps]); [|done].
  simpl in *. rewrite Hc, Hre, Hp. simpl. split_and!; [done..| |]; by eapply sublist_without.
Qed.


(** C10: Once the cursor is at or past an event and no application is under way, its fate is
    settled: whatever is delivered later, it is not committed, not shown to the journal and
    not published any more.  So an event that is muted in the filtered stream, and older
    than an event that the stream delivered, never reaches the state through the log. *)
Theorem passed_events_are_settled p q id :
  pl_phase p = Idle → has_event id (store_of p) = Ok true → reaches p q →
  (id ∈ pl_committed q ↔ id ∈ pl_committed p) ∧ (id ∈ pl_resolved q ↔ id ∈ pl_resolved p) ∧
  (id ∈ (Journal.ev_id <$> pl_published q) ↔ id ∈ (Journal.ev_id <$> pl_published p)).
Proof.
  intros Hp Hid Hr. apply since_reaches in Hr as (new&resolved&published&Hs); [|done].
  pose proof (passed_not_new _ _ _ _ _ _ Hs Hid) as Hnew. destruct Hs as [Hc Hre Hpu _ _ Hrs Hps].
  rewrite Hc, Hre, Hpu, fmap_app. apply sublist_without in Hrs, Hps.
  assert (id ∉ resolved) by (intros Hin; by eapply Hnew, elem_of_sublist).
  assert (id ∉ (Journal.ev_id <$> published)) by (intros Hin; by eapply Hnew, elem_of_sublist).
  rewrite !elem_of_app. naive_solver.
Qed.

(** A process that dies after an event was committed and before the operation journal
    was shown the event leaves the journal without it for good: no delivery shows it the
    event after the restart. *)
Theorem crash_loses_the_evidence m p event now p' q :
  reaches (started m) p → pl_phase p = Committed event → reopen now p = Ok p' → reaches p' q →
  Journal.ev_id event ∈ pl_committed q ∧ Journal.ev_id event ∉ pl_resolved q.
Proof.
  intros Hr Hph Ho Hq. apply since_reaches in Hr as (new&resolved&published&Hs); [|done].
  apply reopen_rest in Ho as (Hp'&Hc&Hre&_&Hcur&_).
  apply since_reaches in Hq as (new'&resolved'&published'&Hs'); [|done].
  assert (Hin : Journal.ev_id event ∈ new ∧ Journal.ev_id event ∉ resolved).
  { pose proof (sn_resolved_in _ _ _ _ _ Hs) as Hsub. rewrite Hph in Hsub. simpl in Hsub.
    pose proof (sorted_no_duplicates _ (sn_sorted _ _ _ _ _ Hs)) as Hnd. apply NoDup_app in Hnd as (_&_&Hnd).
    apply (sublist_NoDup _ _ Hnd) in Hsub as Hnd'. apply NoDup_app in Hnd' as (_&Hdis&_).
    split; [eapply elem_of_sublist; [|exact Hsub]; set_solver|]. intros Hin. apply (Hdis _ Hin). by left. }
  destruct Hin as [Hin Hnot].
  assert (Hnew : Journal.ev_id event ∉ new').
  { apply (passed_not_new _ _ _ _ _ _ Hs'). apply has_event_true.
    destruct (last_of_sorted _ _ (sn_sorted _ _ _ _ _ Hs) (proj2 (elem_of_app _ _ _) (or_intror Hin))) as (c&Hl&d&?&?).
    exists c, d. split_and!; [|done..]. rewrite <-Hl, <-(sn_cursor _ _ _ _ _ Hs). exact Hcur. }
  destruct Hs as [Hsc Hsr _ _ _ _ _], Hs' as [Hsc' Hsr' _ _ _ Hrs' _]. apply sublist_without in Hrs'.
  rewrite Hsc', Hsr', Hc, Hre, Hsc, Hsr. simpl. split; [set_solver|].
  intros [|Hr]%elem_of_app; [done|]. by eapply Hnew, elem_of_sublist.
Qed.

(** C8: An event changes nothing outside its realm: whatever the event is and however its
    application ends, the devices, replicants, locations, stars, sites, events, objects,
    trades and simulations of the other realms are the same in the engine and in the store;
    and what the client holds keeps being keyed by itself. *)
Theorem events_stay_in_their_realm outcomes raw p :
  scans_in_realm → native (view_of (pl_managed p)) →
  let p' := (commit_event outcomes raw p).2 in
  native (view_of (pl_managed p')) ∧
  same_engine_outside (realm_of p raw) (mg_engine (pl_managed p)) (mg_engine (pl_managed p')) ∧
  same_rows_outside (realm_of p raw) (ls_primary (store_of p)) (ls_primary (store_of p')).
Proof.
  intros Hs Hn. destruct (commit_event_effects outcomes raw p Hs Hn) as (primary&_&Ho&Hw&[(_&He&Hl)|[He Hl]]); simpl.
  - unfold view_of. fold (store_of (commit_event outcomes raw p).2). rewrite He, Hl. by split_and!.
  - unfold view_of. fold (store_of (commit_event outcomes raw p).2). rewrite He, Hl.
    pose proof (confined_merged p raw Hs Hn) as Hc.
    split_and!; [eapply native_publish; [exact Hn|done|apply Hw]|by apply publish_event_outside|done].
Qed.

(** C13: The realm of an event that no part of it tells is that of the game: a finished print
    of which neither the device nor the place is known deletes the devices of the game that
    have the codes it consumed, although an unknown realm is not supposed to be the game's. *)
Theorem unresolved_print_deletes_live_devices outcomes raw p code :
  scans_in_realm → native (view_of (pl_managed p)) →
  resolve_realm (mg_engine (pl_managed p)) raw = None → ge_event raw = "print.completed" →
  code ∈ strings (get_field (ge_payload raw) "consumed_device_codes") →
  (commit_event outcomes raw p).1 = Ok true →
  en_devices (mg_engine (pl_managed (commit_event outcomes raw p).2)) !! in_realm Live code = None.
Proof.
  intros Hs Hn Hr Hname Hcode Hok.
  destruct (commit_event_effects outcomes raw p Hs Hn) as (primary&_&_&_&[(Hne&_&_)|[He _]]); [done|].
  rewrite He. cbn [publish_event en_devices].
  change (foldl _ _ (List.filter is_device_deletion (eb_deletions (merged_batch p raw))))
    with (without_devices (eb_deletions (merged_batch p raw)) (upsert dv_key (eb_devices (merged_batch p raw)) (en_devices (mg_engine (pl_managed p))))).
  assert (Hin : gone Live "device" code "print.completed" ∈ eb_deletions (merged_batch p raw)).
  { change (eb_deletions (merged_batch p raw)) with (eb_deletions (reduced p raw)).
    unfold reduced, event_of, reduce. rewrite Hr. cbn [account_event Journal.ev_name]. rewrite Hname.
    change (event_treatment parse_rfc3339 scan_report_location "print.completed")
      with (Some {| et_projection := Upsert; et_replay := ForwardOnly; et_reduce := projection_operational_lifecycle parse_rfc3339 |}
        : option (EventTreatment (Atmosphere := Atmosphere))).
    cbn [et_reduce]. unfold projection_operational_lifecycle, named. cbn [account_event Journal.ev_name]. rewrite Hname.
    cbn. apply list_elem_of_fmap. by exists code. }
  by apply (without_devices_deleted _ _ _ Hin).
Qed.

(** C9: What an event without a star published is what was written: a client that opens the
    store after the event shows the same state, and keeps doing so. *)
Theorem applied_effects_survive_restart outcomes raw p now p'' :
  scans_in_realm → native (view_of (pl_managed p)) →
  mirror (mg_engine (pl_managed p)) → en_durable (mg_engine (pl_managed p)) = (ls_primary (store_of p)).1 →
  eb_stars (reduced p raw) = [] →
  let p' := (commit_event outcomes raw p).2 in
  mirror (mg_engine (pl_managed p')) ∧ en_durable (mg_engine (pl_managed p')) = (ls_primary (store_of p')).1 ∧
  (reopen now p' = Ok p'' → mg_engine (pl_managed p'') ≡ mg_engine (pl_managed p')).
Proof.
  intros Hs Hn Hm Hd Hstars. simpl. set (p' := (commit_event outcomes raw p).2).
  assert (Hm' : mirror (mg_engine (pl_managed p')) ∧ en_durable (mg_engine (pl_managed p')) = (ls_primary (store_of p')).1).
  { destruct (commit_event_effects outcomes raw p Hs Hn) as (primary&_&_&Hw&[(_&He&Hl)|[He Hl]]); fold p' in He, Hl; rewrite He, Hl.
    - done.
    - split; [|done]. destruct (ls_primary (store_of p)) as [d t]. by eapply mirror_publish_event. }
  destruct Hm' as [Hm' Hd']. split_and!; [done..|]. intros Ho. unfold reopen in Ho.
  destruct (reconcile_history_visibility (store_of p')) as [s|] eqn:Es; [|done]. simpl in Ho.
  apply reconcile_visibility_rest in Es as [_ Hprim].
  assert (Hp1 : (ls_primary (recover_orphaned_reconciliation_work now s)).1 = en_durable (mg_engine (pl_managed p'))).
  { rewrite Hd', <-Hprim. unfold recover_orphaned_reconciliation_work.
    destruct (ls_leader s) as [[]|]; [case_decide|]; done. }
  rewrite Hp1 in Ho. pose proof (restart_mirror _ Hm') as Hr.
  destruct (from_store (en_durable (mg_engine (pl_managed p')))) as [e|]; [|done]. simpl in Ho.
  by injection Ho as <-.
Qed.

(** C11: A page whose next cursor is its last event is the last page that is read.  The
    catch-up applies it in full and in order, moves the cursor to its end, and is complete:
    it asks for no further page, although the event log announces more events with exactly
    such a cursor. *)
Theorem catch_up_reads_one_page (world : World) max_pages events raw p :
  scans_in_realm → native (view_of (pl_managed p)) → pl_phase p = Idle →
  (∀ n, clean (wd_outcomes world n) ∧ wd_evidence world n = Ok tt) →
  wd_list world 0 (cursor_of p) = Ok (events, Some (ge_id raw)) → last events = Some raw →
  StronglySorted earlier (option_list (cursor_of p) ++ (ge_id <$> events)) →
  ∃ p', catch_up_unfiltered parse_rfc3339 scan_report_location display world (cursor_of p) max_pages p = (Ok Complete, p') ∧
  pl_committed p' = pl_committed p ++ (ge_id <$> events) ∧
  (Journal.ev_id <$> pl_published p') = (Journal.ev_id <$> pl_published p) ++ (ge_id <$> events) ∧
  cursor_of p' = Some (ge_id raw).
Proof.
  intros Hs Hn Hi Hw Hl Hlast Hso. unfold catch_up_unfiltered.
  destruct (apply_page_spec world 0 events p Hs Hn Hi Hw Hso) as (n'&p'&Happ&Hcm&Hpub&Hcur).
  exists p'. split_and!; [|done..|].
  - destruct (Nat.max 1 max_pages) as [|k]; cbn [catch_up_pages]; rewrite Hl, Happ, Hlast; simpl;
      by rewrite bool_decide_eq_true_2.
  - by rewrite Hcur, last_app, fmap_last, Hlast.
Qed.

(** A star event that is older than what the catalogue knows of the star is written to
    the store but not published: the change is shown only after a restart. *)
Theorem late_star_event_waits_for_restart outcomes raw p current o now p'' :
  scans_in_realm → native (view_of (pl_managed p)) →
  let p' := (commit_event outcomes raw p).2 in
  let key := sr_key (ob_value o) in
  (commit_event outcomes raw p).1 = Ok true → eb_stars (reduced p raw) = [o] →
  en_catalogue (mg_engine (pl_managed p)) !! key = Some current →
  is_lt (metadata_order (ob_metadata o) (ob_metadata current)) = true → reopen now p' = Ok p'' →
  en_catalogue (mg_engine (pl_managed p')) !! key = Some current ∧
  en_catalogue (mg_engine (pl_managed p'')) !! key = Some o.
Proof.
  intros Hs Hn p' key Hok Hstars Hcat Hlt Ho.
  destruct (commit_event_effects outcomes raw p Hs Hn) as (primary&_&_&Hw&[(Hne&_&_)|[He Hl]]); [done|].
  fold p' in He, Hl. split.
  - rewrite He. simpl. rewrite Hstars. cbn [foldl]. unfold merge_event_star. fold key. rewrite Hcat, lookup_insert_eq.
    unfold merge_star. by rewrite Hlt.
  - unfold reopen in Ho. destruct (reconcile_history_visibility (store_of p')) as [s|] eqn:Es; [|done]. simpl in Ho.
    apply reconcile_visibility_rest in Es as [_ Hprim].
    assert (Hp1 : (ls_primary (recover_orphaned_reconciliation_work now s)).1 = primary.1).
    { unfold recover_orphaned_reconciliation_work. rewrite <-Hl, <-Hprim. by destruct (ls_leader s) as [[]|]; [case_decide|]. }
    rewrite Hp1 in Ho. unfold from_store, restore_catalogue in Ho.
    assert (Hstar : du_stars primary.1 !! key = Some o).
    { rewrite (wr_stars _ _ _ Hw). simpl. rewrite Hstars. unfold upsert. cbn [foldl]. apply lookup_insert_eq. }
    destruct (du_catalogue_metadata primary.1) as [[g|]|]; simpl in Ho; [|done|]; injection Ho as <-; exact Hstar.
Qed.
End Applications.
