(* ===== verification/EventPipelineWitnesses.v ===== *)
(** * Concrete events

    The theorems on the event pipeline applied to a client with one probe, in the game and
    in a simulation, and to an event log of two pages. *)

From S2P Require Import Prelude Float64 Json Observations Entities Locations.
From S2P Require Import ManagedState ManagedStateFacts Mutations Operations.
From S2P Require Import EventLog EventReducers EventPipeline.
From S2P Require Import EventLogFacts EventReducerFacts EventEffectFacts EventPipelineFacts.

#[local] Existing Instance integer_numbers.

(** ** A client *)

Definition snapshot (t : Z) : ObservationMetadata :=
  {| om_source := RestDetail; om_authority := EntitySnapshot; om_observed_at := t;
     om_access := Owned; om_reachability := Reachable; om_stale := false;
     om_source_document := {| so_operation := "GET /v1/devices"; so_request_id := None; so_document_id := None |} |}.

Definition probe_key : WorldKey := in_realm Live "PROBE".
Definition probe : Observation (Device Value) :=
  {| ob_metadata := snapshot 1;
     ob_value := {| dv_key := probe_key; dv_device_type := Some "probe"; dv_status := Some "idle";
       dv_location := None; dv_deployed_at := None; dv_in_control_range := None; dv_features := [];
       dv_available_commands := []; dv_available_directives := []; dv_tags := []; dv_settings := ∅;
       dv_relationships := {| dr_attached_to := None; dr_stowed_in := None; dr_controller := None;
         dr_linked_device := None; dr_attached_devices := []; dr_controlled_devices := [];
         dr_stowed_devices := []; dr_assigned_replicant := None; dr_hosting_replicant := None |};
       dv_cargo := ∅; dv_cargo_capacity := None; dv_attach_capacity := None;
       dv_stow_capacity := None; dv_stow_used := None; dv_operational_capacity := None;
       dv_grace_period_remaining := None; dv_upkeep_requirements := []; dv_system_status := None;
       dv_active_directive := None; dv_travel := None;
       dv_runtime := {| ru_created_at := None; ru_short_description := None; ru_description := None;
         ru_printing := None; ru_mining := None; ru_prospect := None; ru_repair := None;
         ru_scan := None; ru_waiting_for := None; ru_print_queue := []; ru_queue_size := None;
         ru_taxi_mode := None; ru_tracking_site_id := None; ru_beacon_only := None;
         ru_welcome_message := None; ru_repair_paid_pct := None |};
       dv_access := Owned |} |}.

Definition probe_rows : Durable (Json := Value) (Atmosphere := unit) :=
  {| du_devices := {[ probe_key := {| dw_observation := probe; dw_observed_at := 1; dw_access_scope := Owned |} ]};
     du_replicants := ∅; du_locations := ∅; du_simulations := ∅; du_stars := ∅;
     du_catalogue_metadata := None; du_device_tombstones := ∅ |}.
Definition probe_engine : Engine (Json := Value) (Atmosphere := unit) :=
  {| en_revision := 0; en_galaxy_revision := 0; en_galaxy_projection_revision := 0;
     en_devices := {[ probe_key := probe ]}; en_replicants := ∅; en_locations := ∅; en_simulations := ∅;
     en_catalogue := ∅; en_generated_at := None; en_durable := probe_rows |}.
Definition no_rows : Tables :=
  {| ta_resource_sites := ∅; ta_location_events := ∅; ta_incoming_objects := ∅; ta_messages := ∅;
     ta_blueprints := ∅; ta_trades := ∅; ta_tombstones := ∅; ta_queue := [] |}.
Definition new_client : Managed (Atmosphere := unit) :=
  {| mg_engine := probe_engine;
     mg_store := {| ls_primary := (probe_rows, no_rows); ls_cursor := None; ls_history := ∅; ls_leader := None |} |}.

Definition no_time (_ : string) : option Z := None.
(** A scan report tells where it was made. *)
Definition unseen {A} : Knowledge A := Unknown.
Definition scan_place (target _ : string) (_ : Object_) (realm : Realm) (t : Z) (_ : string)
    : option (Observation (Location Value unit)) :=
  Some {| ob_metadata := snapshot t;
    ob_value := {| lo_key := in_realm realm target; lo_location_type := None; lo_scanned := Some true;
      lo_system_scanned := None; lo_system_tags := []; lo_system := None; lo_parent := None; lo_custom_name := None;
      lo_survey_progress := {| lp_planets_total := None; lp_planets_scanned := None; lp_moons_total := None;
        lp_moons_scanned := None; lp_moons_total_estimated := None; lp_survey_system_complete := None |};
      lo_environment := {| le_atmosphere := unseen; le_magnetic_field := unseen; le_gravity_g := unseen;
        le_surface_temp_c := unseen; le_surface_temp_k := unseen; le_atmo_pressure_atm := unseen;
        le_atmo_o2_pct := unseen; le_atmo_toxicity := unseen; le_hydrosphere_pct := unseen; le_tectonic_index := unseen;
        le_biosphere_index := unseen; le_has_subsurface_ocean := unseen; le_in_habitable_zone := unseen;
        le_life_stage := unseen; le_axial_tilt_deg := unseen; le_rotation_state := unseen;
        le_star_spectral_type := unseen; le_nearby_belt_richness := unseen; le_distance_from_sol_ly := unseen |};
      lo_unknown := ∅ |} |}.
Definition show (_ : StoreError) : string := "store error".

(** ** Events *)

Definition wire (id name : string) (device : option string) (location : option string) (payload : Object_) : GameEvent :=
  {| ge_id := id; ge_version := 1; ge_category := "account"; ge_event := name; ge_replicant_code := None;
     ge_device_code := device; ge_device_type := None; ge_star := None; ge_location := location;
     ge_payload := payload; ge_created_at := "5"; ge_extra := [] |}.
Definition arrived : GameEvent := wire "9-1" "travel.arrived" (Some "PROBE") None [("destination", Text "SOL-3")].
Definition scanned_place : GameEvent :=
  wire "10-0" "scan.completed" (Some "PROBE") None
    [("scan_target", Text "SOL-3"); ("scan_type", Text "full"); ("report", Object [])].
Definition simulated : GameEvent :=
  wire "11-0" "simulation.started" None None [("simulation_id", Number 7); ("scenario_code", Text "tutorial")].

Definition well (visible : bool) : Outcomes := {| oc_append := Ok tt; oc_maintain := Ok tt; oc_commit := Ok tt; oc_visible := visible |}.
Abbreviation deliver := (commit_event no_time scan_place show).
Abbreviation reaches_here := (reaches no_time scan_place show).

(** Commit, journal and publication of one delivery. *)
Definition fully (visible : bool) (raw : GameEvent) (p : Pipeline) : Pipeline :=
  (apply_event no_time scan_place show (well visible) (Ok tt) raw p).2.
Definition after_arrival : Pipeline := fully true arrived (started new_client).
Definition after_scan : Pipeline := fully false scanned_place after_arrival.

Definition is_committed (phase : Phase) : bool := match phase with Committed _ => true | _ => false end.
Lemma fully_reaches visible raw p :
  pl_phase p = Idle → is_committed (pl_phase (deliver (well visible) raw p).2) = true →
  (deliver (well visible) raw p).1 = Ok true → reaches_here p (fully visible raw p).
Proof.
  intros Hi Hc Hok. destruct (pl_phase (deliver (well visible) raw p).2) as [|event|] eqn:Hph; [done| |done].
  clear Hc. rename Hph into Hc. unfold fully, apply_event. pose proof (step_deliver no_time scan_place show p (well visible) raw Hi) as H1.
  destruct (deliver (well visible) raw p) as [r p1]. simpl in *. subst r. rewrite Hc.
  pose proof (step_resolve no_time scan_place show p1 (Ok tt) event Hc) as H2.
  assert (Hr : ∃ p2, resolve_event (Ok tt) event p1 = (Ok tt, p2) ∧ pl_phase p2 = Resolved event).
  { unfold resolve_event. destruct (Journal.ev_realm event); eexists; by split. }
  destruct Hr as (p2&Hr&Hp2). rewrite Hr in H2 |- *. simpl in *.
  pose proof (step_publish no_time scan_place show p2 event Hp2) as H3.
  eapply rtc_l; [exact H1|]. eapply rtc_l; [exact H2|]. eapply rtc_l; [exact H3|]. constructor.
Qed.

Lemma arrival_reached : reaches_here (started new_client) after_arrival.
Proof. unfold after_arrival. apply fully_reaches; [reflexivity|vm_compute; reflexivity..]. Qed.
Lemma scan_reached : reaches_here (started new_client) after_scan.
Proof.
  etrans; [exact arrival_reached|]. unfold after_scan. apply (fully_reaches false scanned_place after_arrival); [reflexivity|vm_compute; reflexivity..].
Qed.

Lemma new_client_scans : scans_in_realm scan_place.
Proof. by intros target scan_type report realm t id o [= <-]. Qed.
Lemma new_client_native : native (view_of new_client).
Proof.
  split; simpl; intros k o; [|by rewrite lookup_empty..].
  intros [<- <-]%lookup_singleton_Some. split; [done|]. by split.
Qed.
Lemma new_client_mirror : mirror (mg_engine new_client).
Proof.
  split; try done; simpl.
  - by intros k row [<- <-]%lookup_singleton_Some.
  - intros k. simpl. destruct (decide (k = probe_key)) as [->|Hne].
    + by rewrite !lookup_singleton_eq.
    + by rewrite !lookup_singleton_ne by congruence.
Qed.

(** ** The claims *)

Lemma events_apply_once_in_order_witness :
  pl_committed after_scan = ["9-1"; "10-0"] ∧ cursor_of after_scan = Some "10-0" ∧
  pl_resolved after_scan `sublist_of` ["9-1"; "10-0"].
Proof.
  split; [vm_compute; reflexivity|].
  destruct (events_apply_once_in_order no_time scan_place show new_client after_scan scan_reached) as (_&_&Hr&_).
  split; [vm_compute; reflexivity|exact Hr].
Defined.

(** The row of the scan is made visible by the restart only. *)
Definition reopened : Pipeline := match reopen 0 after_scan with Ok p => p | Err _ => after_scan end.

(** The stream delivered the scan first; the log brings the muted arrival too late. *)
Definition after_stream : Pipeline := fully true scanned_place (started new_client).
Lemma passed_events_are_settled_witness :
  reaches_here after_stream (fully true arrived after_stream) ∧
  "9-1" ∉ pl_committed (fully true arrived after_stream).
Proof.
  assert (Hr : reaches_here after_stream (fully true arrived after_stream)).
  { apply rtc_once. pose proof (step_deliver no_time scan_place show after_stream (well true) arrived) as H.
    assert (Hd : match (deliver (well true) arrived after_stream).1 with Ok false => true | _ => false end = true)
      by (vm_compute; reflexivity).
    unfold fully, apply_event. destruct (deliver (well true) arrived after_stream) as [[[]|] p]; try discriminate Hd.
    apply H. reflexivity. }
  split; [exact Hr|].
  destruct (passed_events_are_settled no_time scan_place show after_stream (fully true arrived after_stream) "9-1") as [Hc _];
    [reflexivity|vm_compute; reflexivity|exact Hr|].
  rewrite Hc. apply (bool_decide_unpack (_ ∉ _)). vm_compute. exact I.
Defined.

Lemma events_stay_in_their_realm_witness :
  let p := (deliver (well true) simulated (started new_client)).2 in
  realm_of (started new_client) simulated = Simulation 7 ∧
  is_Some (en_simulations (mg_engine (pl_managed p)) !! 7) ∧
  en_devices (mg_engine (pl_managed p)) !! probe_key = Some probe.
Proof.
  split; [vm_compute; reflexivity|]. split; [vm_compute; eexists; reflexivity|].
  destruct (events_stay_in_their_realm no_time scan_place show (well true) simulated (started new_client)
    new_client_scans new_client_native) as (_&He&_).
  rewrite (se_devices _ _ _ He); [|by vm_compute]. simpl. apply lookup_singleton_eq.
Defined.

Lemma applied_effects_survive_restart_witness :
  mirror (mg_engine (pl_managed (deliver (well true) arrived (started new_client)).2)).
Proof.
  apply (applied_effects_survive_restart no_time scan_place show (well true) arrived (started new_client) 0 (started new_client));
    [exact new_client_scans|exact new_client_native|exact new_client_mirror|reflexivity|vm_compute; reflexivity].
Defined.

(** A log that announces more than it returned *)
Definition calm : World :=
  {| wd_outcomes := λ _, well true; wd_evidence := λ _, Ok tt;
     wd_list := λ page _, match page with
       | O => Ok ([arrived; scanned_place], Some "10-0")
       | _ => Ok ([simulated], None)
       end |}.
Lemma catch_up_reads_one_page_witness : ∃ p,
  catch_up_unfiltered no_time scan_place show calm None 5 (started new_client) = (Ok Complete, p) ∧
  pl_committed p = ["9-1"; "10-0"].
Proof.
  destruct (catch_up_reads_one_page no_time scan_place show calm 5 [arrived; scanned_place] scanned_place (started new_client))
    as (p&Hp&Hc&_).
  - exact new_client_scans.
  - exact new_client_native.
  - reflexivity.
  - by intros n.
  - reflexivity.
  - reflexivity.
  - repeat constructor. exists (9, 1), (10, 0). split_and!; vm_compute; reflexivity.
  - exists p. split; [exact Hp|exact Hc].
Defined.

(** A print of a printer that is not known *)
Definition printed : GameEvent :=
  wire "12-0" "print.completed" (Some "PRINTER") None [("consumed_device_codes", Array [Text "PROBE"])].
Lemma unresolved_print_deletes_live_devices_witness :
  en_devices (mg_engine new_client) !! probe_key = Some probe ∧
  en_devices (mg_engine (pl_managed (deliver (well true) printed (started new_client)).2)) !! probe_key = None.
Proof.
  split; [apply lookup_singleton_eq|].
  apply (unresolved_print_deletes_live_devices no_time scan_place show (well true) printed (started new_client) "PROBE");
    [exact new_client_scans|exact new_client_native|vm_compute; reflexivity|reflexivity| |vm_compute; reflexivity].
  vm_compute. by left.
Defined.
