(* ===== verification/Transport.v ===== *)
(** * The transport planner

    [crates/replicant-transport/src/lib.rs]: the resolution of a delivery request into
    pickups, payload devices and transports; the concurrent cargo trips that carry the
    pickups out; and the identities and recovery decisions of a restarted delivery.

    What the client answers is an argument: the pages of the inventory, the blueprints, the
    owned devices, and the detail of a device.  A text of an error is a structured reason. *)

From stdpp Require Import pretty.
From S2P Require Import Prelude Registry Observations Entities Printing Json Mutations Operations.

Import Mutation Journal.

Module Transport.

Abbreviation ResourceMap := (gmap string Z).

(** ** Requests and plans *)

Record DeviceRequest := { dr_quantity : Z; dr_device_type : string }.
Record CarrierPreference := { cp_quantity : nat; cp_device_type : string }.
Record DeliveryRequest := {
  de_origin : string;
  de_destination : string;
  de_resources : ResourceMap;
  de_devices : list DeviceRequest;
  de_device_codes : list string;
  de_device_tags : list string;
  de_carrier : option CarrierPreference;
  de_allow_transport_staging : bool;
}.
Record ResourcePickup := { rp_location : string; rp_resources : ResourceMap }.
Record PayloadDevice := { pd_code : string; pd_device_type : string; pd_origin : string }.
Record DeliveryPlan := {
  pl_origin : string;
  pl_destination : string;
  pl_resource_pickups : list ResourcePickup;
  pl_payload_devices : list PayloadDevice;
  pl_cargo_transports : list string;
  pl_device_carriers : list string;
  pl_transport_origins : gmap string string;
}.
#[global] Instance CarrierPreference_eq : EqDecision CarrierPreference.
Proof. solve_decision. Defined.
#[global] Instance PayloadDevice_eq : EqDecision PayloadDevice.
Proof. solve_decision. Defined.

(** [DeliveryOptions]: the limit of the selection *)
Definition DEFAULT_TRANSPORT_LIMIT : nat := 3.

Inductive InvalidReason :=
| OriginEmpty | DestinationEmpty | NoPayload | ResourceQuantities | DeviceQuantities
| CodesEmpty | DuplicateCodes | TagsEmpty | CarrierInvalid
| InventoryPages
| NoLocation (code : string) | OutsideOrigin (code location : string) | NoDeviceType (code : string)
| QuantityTooLarge (device_type : string)
| NoProgress (remaining : ResourceMap) | Controlled (code : string) | NoCargoCapacity (code : string)
| NoReturnLocation.
Inductive NotFoundReason :=
| Stock (resource : string) (available requested : Z)
| NotOwned (code : string) | NotTagged (tag : string) | TooFewDevices (device_type : string) (available : nat) (requested : Z)
| TooFewTransports (needed found : nat).
Inductive PayloadReason := NotFree (code : string) | ReservedPayload (code : string).

Inductive TransportError (E : Type) :=
| Client (error : E)
| Invalid (reason : InvalidReason)
| NotFound (reason : NotFoundReason)
| PayloadUnavailable (reason : PayloadReason)
| StaleResourcePickup (location resource : string) (required present : Z)
(** a panic: an [i64] sum that leaves its range *)
| Panicked.
#[global] Arguments Client {E} error.
#[global] Arguments Invalid {E} reason.
#[global] Arguments NotFound {E} reason.
#[global] Arguments PayloadUnavailable {E} reason.
#[global] Arguments StaleResourcePickup {E} location resource required present.
#[global] Arguments Panicked {E}.

(** ** Designations *)

Definition eq_ignore_ascii_case (a b : string) : bool := bool_decide (to_ascii_lowercase a = to_ascii_lowercase b).

(** [str::split] at one character *)
Fixpoint split_at (at_ : Ascii.ascii) (s : string) : list string :=
  match s with
  | EmptyString => [""]
  | String.String c s =>
      if decide (c = at_) then "" :: split_at at_ s
      else match split_at at_ s with p :: ps => String.String c p :: ps | [] => [] end
  end.
Definition split_hyphen : string → list string := split_at (Ascii.ascii_of_N 45).
Definition contains_hyphen (s : string) : bool := match split_hyphen s with _ :: _ :: _ => true | _ => false end.

(** [system_designation] *)
Definition system_designation (location : string) : string :=
  match split_hyphen location with
  | system :: _ => if decide (system = "") then location else system
  | [] => location
  end.

(** [same_location] and [same_system] *)
Definition same_location (a b : string) : bool := eq_ignore_ascii_case (trim a) (trim b).
Definition same_system (a b : string) : bool := eq_ignore_ascii_case (system_designation a) (system_designation b).

(** [scope_matches] *)
Definition scope_matches (origin location : string) : bool :=
  let origin := trim origin in
  if eq_ignore_ascii_case origin "account" then true
  else if contains_hyphen origin then eq_ignore_ascii_case location origin
  else eq_ignore_ascii_case (system_designation location) origin.

Definition REMOTE_TRANSPORT_RANK : Z := 3.
(** [transport_scope_matches] *)
Definition transport_scope_matches (origin location : string) : bool :=
  let origin := trim origin in
  eq_ignore_ascii_case origin "account"
  || eq_ignore_ascii_case (system_designation location) (system_designation origin).
(** [origin_location_rank] and [transport_origin_rank] *)
Definition origin_location_rank (origin location : string) : Z :=
  if eq_ignore_ascii_case origin location then 0
  else if existsb (λ component, eq_ignore_ascii_case component "belt") (split_hyphen location) then 1
  else 2.
Definition transport_origin_rank (origin location : string) : Z :=
  if transport_scope_matches origin location then origin_location_rank origin location else REMOTE_TRANSPORT_RANK.

(** [is_exact_location] *)
Definition is_exact_location (location : string) : bool :=
  let location := trim location in
  negb (bool_decide (location = "")) && negb (eq_ignore_ascii_case location "account") && contains_hyphen location.

(** [return_location_for_transport] *)
Definition return_location_for_transport (plan : DeliveryPlan) (code : string) : option string :=
  match pl_transport_origins plan !! code with
  | Some location => if is_exact_location location then Some location else None
  | None => let origin := trim (pl_origin plan) in if is_exact_location origin then Some origin else None
  end.
(** [return_location_at_execution]; [authoritative] is the answer of the location endpoint. *)
Definition return_location_at_execution {E} (authoritative : string → result E (option string)) (plan : DeliveryPlan) (code : string)
    : result (TransportError E) string :=
  match return_location_for_transport plan code with
  | None => Err (Invalid NoReturnLocation)
  | Some location =>
      if bool_decide (is_Some (pl_transport_origins plan !! code)) then Ok location
      else match authoritative location with
           | Err error => Err (Client error)
           | Ok answer =>
               if match answer with Some a => same_location a location | None => false end then Ok location
               else Err (Invalid NoReturnLocation)
           end
  end.

(** ** Reservations *)

(** [RESERVED_WORKFLOW_TAG_PREFIXES] and [workflow_reserved] of [crates/replicant-protocol] *)
Definition RESERVED_WORKFLOW_TAG_PREFIXES : list string :=
  ["evt-m:"; "evt-r:"; "boot-m:"; "boot-r:"; "region:"; "mine-m:"; "mine-b:"; "mine-r:";
   "mine-s:"; "relay-m:"; "relay-b:"; "relay-s:"; "infra-r:"; "infra-s:"].
Definition workflow_tag_reserved (tag : string) : bool :=
  existsb (λ prefix, String.prefix prefix tag) RESERVED_WORKFLOW_TAG_PREFIXES.
Definition workflow_reserved (tags : list string) : bool := existsb workflow_tag_reserved tags.

(** ** The request *)

(** [validate_request] *)
Definition validate_request {E} (request : DeliveryRequest) : result (TransportError E) unit :=
  if decide (trim (de_origin request) = "") then Err (Invalid OriginEmpty)
  else if decide (trim (de_destination request) = "") then Err (Invalid DestinationEmpty)
  else if decide (de_resources request = ∅ ∧ de_devices request = [] ∧ de_device_codes request = [] ∧ de_device_tags request = [])
  then Err (Invalid NoPayload)
  else if existsb (λ e : string * Z, bool_decide (e.2 ≤ 0)) (entries (de_resources request)) then Err (Invalid ResourceQuantities)
  else if existsb (λ r, bool_decide (dr_quantity r ≤ 0)) (de_devices request) then Err (Invalid DeviceQuantities)
  else if existsb (λ code, bool_decide (trim code = "")) (de_device_codes request) then Err (Invalid CodesEmpty)
  else if decide (size (list_to_set (C := gset string) ((λ code, to_ascii_uppercase (trim code)) <$> de_device_codes request))
                  ≠ length (de_device_codes request)) then Err (Invalid DuplicateCodes)
  else if existsb (λ tag, bool_decide (trim tag = "")) (de_device_tags request) then Err (Invalid TagsEmpty)
  else if match de_carrier request with
          | Some carrier => bool_decide (cp_quantity carrier = 0%nat) || bool_decide (trim (cp_device_type carrier) = "")
          | None => false
          end then Err (Invalid CarrierInvalid)
  else Ok tt.
#[global] Instance DeviceRequest_eq : EqDecision DeviceRequest.
Proof. solve_decision. Defined.

(** ** Stock *)

Record InventoryItem := { ii_resource : string; ii_quantity : Z }.
Inductive InventoryOwner := Account (id : string) | OfReplicant (key : WorldKey) | OfLocation (key : WorldKey).
Record Inventory := { iv_owner : InventoryOwner; iv_location : option WorldKey; iv_items : list InventoryItem }.

(** The loop of [fetch_inventories]: at most one hundred pages *)
Fixpoint fetch_pages {E C} (pages : nat) (list_page : option C → result E (list Inventory * option C)) (cursor : option C)
    (inventories : list Inventory) : result (TransportError E) (list Inventory) :=
  match pages with
  | O => Err (Invalid InventoryPages)
  | S pages =>
      match list_page cursor with
      | Err error => Err (Client error)
      | Ok (page, None) => Ok (inventories ++ page)
      | Ok (page, Some next) => fetch_pages pages list_page (Some next) (inventories ++ page)
      end
  end.
Definition fetch_inventories {E C} (list_page : option C → result E (list Inventory * option C))
    : result (TransportError E) (list Inventory) := fetch_pages 100 list_page None [].

Definition at_origin (origin destination : string) (inventory : Inventory) : option (string * list InventoryItem) :=
  match iv_owner inventory with
  | OfLocation key =>
      let location := wk_id key in
      if scope_matches origin location && negb (eq_ignore_ascii_case location destination)
      then Some (location, iv_items inventory) else None
  | _ => None
  end.
Definition sources (origin destination : string) (inventories : list Inventory) : list (string * list InventoryItem) :=
  sort_by (leb_of (λ a b : string * list InventoryItem,
      lex (origin_location_rank origin a.1 ?= origin_location_rank origin b.1) (String.compare a.1 b.1)))
    (omap (at_origin origin destination) inventories).

Definition available_of (resource : string) (items : list InventoryItem) : Z :=
  Z.max 0 (match List.find (λ item, eq_ignore_ascii_case (ii_resource item) resource) items with
           | Some item => ii_quantity item
           | None => 0
           end).

(** [pickups.entry(location).or_default().insert(resource, take)] *)
Definition insert_pickup (location resource : string) (take_ : Z) (pickups : gmap string ResourceMap) : gmap string ResourceMap :=
  <[location := <[resource := take_]> (default ∅ (pickups !! location))]> pickups.

(** The inner loop of [allocate_resources]: what is left to find, the stock that was seen, and
    the pickups. *)
Fixpoint take_from (resource : string) (candidates : list (string * list InventoryItem)) (remaining available_total : Z)
    (pickups : gmap string ResourceMap) : Z * Z * gmap string ResourceMap :=
  match candidates with
  | [] => (remaining, available_total, pickups)
  | (location, items) :: candidates =>
      let available := available_of resource items in
      let available_total := saturating_add_i64 available_total available in
      if bool_decide (remaining = 0) || bool_decide (available = 0)
      then take_from resource candidates remaining available_total pickups
      else
        let take_ := Z.min remaining available in
        take_from resource candidates (remaining - take_) available_total (insert_pickup location resource take_ pickups)
  end.
Fixpoint allocate_each {E} (candidates : list (string * list InventoryItem)) (requested : list (string * Z))
    (pickups : gmap string ResourceMap) : result (TransportError E) (gmap string ResourceMap) :=
  match requested with
  | [] => Ok pickups
  | (resource, quantity) :: requested =>
      let '(remaining, available_total, pickups) := take_from resource candidates quantity 0 pickups in
      if decide (0 < remaining) then Err (NotFound (Stock resource available_total quantity))
      else allocate_each candidates requested pickups
  end.
(** [allocate_resources] *)
Definition allocate_resources {E} (origin destination : string) (requested : ResourceMap) (inventories : list Inventory)
    : result (TransportError E) (list ResourcePickup) :=
  if decide (requested = ∅) then Ok []
  else
    pickups ← allocate_each (sources origin destination inventories) (entries requested) ∅;
    Ok ((λ e : string * ResourceMap, {| rp_location := e.1; rp_resources := e.2 |}) <$> entries pickups).

Fixpoint try_fold {E A B} (f : A → B → result E A) (a : A) (l : list B) : result E A :=
  match l with [] => Ok a | b :: l => a ← f a b; try_fold f a l end.

(** The stock of an inventory by resource, without case; an [i64] sum panics out of range. *)
Definition add_item {E} (stock : ResourceMap) (item : InventoryItem) : result (TransportError E) ResourceMap :=
  let resource := to_ascii_lowercase (ii_resource item) in
  let sum := default 0 (stock !! resource) + Z.max 0 (ii_quantity item) in
  if decide (in_i64 sum) then Ok (<[resource := sum]> stock) else Err Panicked.
(** The stock by place and resource of [validate_resource_pickups] *)
Definition add_inventory {E} (stock : gmap string ResourceMap) (inventory : Inventory)
    : result (TransportError E) (gmap string ResourceMap) :=
  match iv_owner inventory with
  | OfLocation key =>
      let location := to_ascii_uppercase (wk_id key) in
      resources ← try_fold add_item (default ∅ (stock !! location)) (iv_items inventory);
      Ok (<[location := resources]> stock)
  | _ => Ok stock
  end.
Definition stock_of {E} (inventories : list Inventory) : result (TransportError E) (gmap string ResourceMap) :=
  try_fold add_inventory ∅ inventories.
Fixpoint check_stock {E} (available : ResourceMap) (location : string) (manifest : list (string * Z))
    : result (TransportError E) unit :=
  match manifest with
  | [] => Ok tt
  | (resource, required) :: manifest =>
      let present := default 0 (available !! to_ascii_lowercase resource) in
      if decide (present < required) then Err (StaleResourcePickup location resource required present)
      else check_stock available location manifest
  end.
Fixpoint check_pickups {E} (stock : gmap string ResourceMap) (pickups : list ResourcePickup) : result (TransportError E) unit :=
  match pickups with
  | [] => Ok tt
  | pickup :: pickups =>
      _ ← check_stock (default ∅ (stock !! to_ascii_uppercase (rp_location pickup))) (rp_location pickup) (entries (rp_resources pickup));
      check_pickups stock pickups
  end.
(** [validate_resource_pickups] *)
Definition validate_resource_pickups {E C} (list_page : option C → result E (list Inventory * option C)) (plan : DeliveryPlan)
    : result (TransportError E) unit :=
  match pl_resource_pickups plan with
  | [] => Ok tt
  | pickups => inventories ← fetch_inventories list_page; stock ← stock_of inventories; check_pickups stock pickups
  end.
(** [validate_resource_manifest_at_location]; [list_at] is the first page of the inventories of
    one location. *)
Definition validate_resource_manifest_at_location {E} (list_at : string → result E (list Inventory)) (location : string)
    (manifest : ResourceMap) : result (TransportError E) unit :=
  if decide (manifest = ∅) then Ok tt
  else
    match list_at location with
    | Err error => Err (Client error)
    | Ok inventories =>
        available ← try_fold (λ stock inventory,
          match iv_owner inventory with
          | OfLocation key => if eq_ignore_ascii_case (wk_id key) location then try_fold add_item stock (iv_items inventory) else Ok stock
          | _ => Ok stock
          end) ∅ inventories;
        check_stock available location (entries manifest)
    end.

(** ** Payload *)

Section Devices.
Context {Json : Type}.
Abbreviation Device := (Entities.Device Json).

Definition code_of (d : Device) : string := wk_id (dv_key d).
Definition location_of (d : Device) : option string := wk_id <$> dv_location d.

(** [inactive_payload] and [eligible_payload] *)
Definition inactive_payload (d : Device) : bool :=
  match dv_status d with
  | Some status =>
      bool_decide (to_ascii_lowercase status ∈
        ["inactive"; "deactivated"; "idle"; "stowed"; "recalled"; "compacted"; "out_of_range"; "monitoring"])
  | None => false
  end && bool_decide (dv_travel d = None).
Definition uncommitted (d : Device) : bool :=
  let r := dv_relationships d in
  bool_decide (dr_attached_to r = None) && bool_decide (dr_stowed_in r = None) && bool_decide (dr_controller r = None).
Definition eligible_payload (d : Device) : bool := inactive_payload d && uncommitted d.

Definition in_scope (origin : string) (d : Device) : bool :=
  match location_of d with Some location => scope_matches origin location | None => false end.

(** The order of the devices a selector takes *)
Definition by_origin (origin : string) (a b : Device) : comparison :=
  let rank d := origin_location_rank origin (default "" (location_of d)) in
  lex (rank a ?= rank b) (String.compare (code_of a) (code_of b)).

Abbreviation Selection := (list PayloadDevice * gset string)%type.
Definition select (d : Device) (device_type location : string) (s : Selection) : Selection :=
  (s.1 ++ [{| pd_code := code_of d; pd_device_type := device_type; pd_origin := location |}], {[code_of d]} ∪ s.2).

(** One exact code *)
Definition select_code {E} (origin : string) (devices : list Device) (s : Selection) (requested : string)
    : result (TransportError E) Selection :=
  let requested := trim requested in
  match List.find (λ d, eq_ignore_ascii_case (code_of d) requested) devices with
  | None => Err (NotFound (NotOwned requested))
  | Some d =>
      match location_of d with
      | None => Err (Invalid (NoLocation (code_of d)))
      | Some location =>
          if negb (scope_matches origin location) then Err (Invalid (OutsideOrigin (code_of d) location))
          else if negb (eligible_payload d) then Err (PayloadUnavailable (NotFree (code_of d)))
          else if workflow_reserved (dv_tags d) then Err (PayloadUnavailable (ReservedPayload (code_of d)))
          else match dv_device_type d with
               | None => Err (Invalid (NoDeviceType (code_of d)))
               | Some device_type => Ok (select d device_type location s)
               end
      end
  end.

(** One device of a tag *)
Definition select_tagged {E} (s : Selection) (d : Device) : result (TransportError E) Selection :=
  if decide (code_of d ∈ s.2) then Ok s
  else if negb (eligible_payload d) then Err (PayloadUnavailable (NotFree (code_of d)))
  else if workflow_reserved (dv_tags d) then Err (PayloadUnavailable (ReservedPayload (code_of d)))
  else match dv_device_type d, location_of d with
       | None, _ => Err (Invalid (NoDeviceType (code_of d)))
       | Some _, None => Err (Invalid (NoLocation (code_of d)))
       | Some device_type, Some location => Ok (select d device_type location s)
       end.
Definition select_tag {E} (origin : string) (devices : list Device) (s : Selection) (tag : string)
    : result (TransportError E) Selection :=
  let tag := trim tag in
  match sort_by (leb_of (by_origin origin))
          (List.filter (λ d, bool_decide (tag ∈ dv_tags d) && in_scope origin d) devices) with
  | [] => Err (NotFound (NotTagged tag))
  | matching => try_fold select_tagged s matching
  end.

(** One device type *)
Definition free_of_type (origin device_type : string) (used : gset string) (d : Device) : bool :=
  match dv_device_type d with Some t => eq_ignore_ascii_case t device_type | None => false end
  && in_scope origin d && eligible_payload d && negb (workflow_reserved (dv_tags d)) && negb (bool_decide (code_of d ∈ used)).
Definition select_typed {E} (device_type : string) (s : Selection) (d : Device) : result (TransportError E) Selection :=
  match location_of d with
  | None => Err (Invalid (NoLocation (code_of d)))
  | Some location => Ok (select d device_type location s)
  end.
Definition select_request {E} (origin : string) (devices : list Device) (s : Selection) (request : DeviceRequest)
    : result (TransportError E) Selection :=
  let candidates := sort_by (leb_of (by_origin origin)) (List.filter (free_of_type origin (dr_device_type request) s.2) devices) in
  if decide (dr_quantity request < 0) then Err (Invalid (QuantityTooLarge (dr_device_type request)))
  else
    let needed := Z.to_nat (dr_quantity request) in
    if decide (length candidates < needed)%nat
    then Err (NotFound (TooFewDevices (dr_device_type request) (length candidates) (dr_quantity request)))
    else try_fold (select_typed (dr_device_type request)) s (take needed candidates).

Definition payload_cmp (origin : string) (a b : PayloadDevice) : comparison :=
  lex (origin_location_rank origin (pd_origin a) ?= origin_location_rank origin (pd_origin b))
    (lex (String.compare (pd_origin a) (pd_origin b))
       (lex (String.compare (pd_device_type a) (pd_device_type b)) (String.compare (pd_code a) (pd_code b)))).
(** [select_payload_devices] *)
Definition select_payload_devices {E} (origin : string) (codes : list string) (requests : list DeviceRequest) (tags : list string)
    (devices : list Device) : result (TransportError E) (list PayloadDevice) :=
  s ← try_fold (select_code origin devices) ([], ∅) codes;
  s ← try_fold (select_tag origin devices) s tags;
  s ← try_fold (select_request origin devices) s requests;
  Ok (sort_by (leb_of (payload_cmp origin)) s.1).

(** ** Transports *)

Record TransportCandidate := {
  tc_code : string;
  tc_device_type : string;
  tc_location : string;
  tc_origin_rank : Z;
  tc_cargo_capacity : Z;
  tc_attach_capacity : Z;
}.

Definition free_transport (origin : string) (payload_codes : gset string) (allow_transport_staging : bool) (d : Device) : bool :=
  match location_of d with
  | Some location => allow_transport_staging || transport_scope_matches origin location
  | None => false
  end
  && bool_decide (dv_travel d = None) && uncommitted d && negb (workflow_reserved (dv_tags d))
  && negb (bool_decide (code_of d ∈ payload_codes)).
Definition transport_candidate (origin : string) (blueprints : gmap string (Z * Z)) (d : Device) : option TransportCandidate :=
  match dv_device_type d, location_of d with
  | Some device_type, Some location =>
      let '(blueprint_cargo, blueprint_attach) := default (0, 0) (blueprints !! device_type) in
      if decide (dr_attached_devices (dv_relationships d) ≠ []) then None
      else Some {| tc_code := code_of d; tc_device_type := device_type; tc_location := location;
                   tc_origin_rank := transport_origin_rank origin location;
                   tc_cargo_capacity := Z.max 0 blueprint_cargo;
                   tc_attach_capacity := Z.max 0 (default blueprint_attach (dv_attach_capacity d)) |}
  | _, _ => None
  end.
Definition carries (c : TransportCandidate) : bool :=
  bool_decide (0 < tc_cargo_capacity c) || bool_decide (0 < tc_attach_capacity c).
(** [transport_candidates] *)
Definition transport_candidates (origin : string) (devices : list Device) (blueprints : gmap string (Z * Z))
    (payload_codes : gset string) (allow_transport_staging : bool) : list TransportCandidate :=
  sort_by (λ a b, String.leb (tc_code a) (tc_code b))
    (List.filter carries
       (omap (transport_candidate origin blueprints)
          (List.filter (free_transport origin payload_codes allow_transport_staging) devices))).
End Devices.

(** [CapacityKind] *)
Inductive CapacityKind := Cargo | Attachment.
Definition capacity_of (kind : CapacityKind) (c : TransportCandidate) : Z :=
  match kind with Cargo => tc_cargo_capacity c | Attachment => tc_attach_capacity c end.
#[global] Instance CapacityKind_eq : EqDecision CapacityKind.
Proof. solve_decision. Defined.

(** [capacity_rank]: the hulls that carry the demand at once, the smallest first; then the
    others, the largest first. *)
Definition capacity_rank (capacity demand : Z) : Z * Z :=
  if decide (Z.max demand 1 ≤ capacity) then (0, capacity - Z.max demand 1) else (1, - capacity).

(** What the planner reads of the detail of a device; [cargo_map] keeps the positive
    quantities, of two of a resource the last. *)
Record DeviceDetail := {
  dd_controller_device_code : option string;
  dd_cargo : list (option string * option Z);
  dd_cargo_capacity : option Z;
}.
Definition cargo_map (detail : DeviceDetail) : ResourceMap :=
  foldl (λ m item,
    match item with
    | (Some resource, quantity) => if decide (0 < default 0 quantity) then <[resource := default 0 quantity]> m else m
    | (None, _) => m
    end) ∅ (dd_cargo detail).

Definition remote (c : TransportCandidate) : bool := bool_decide (REMOTE_TRANSPORT_RANK ≤ tc_origin_rank c).
Definition candidate_cmp (kind : CapacityKind) (demand : Z) (a b : TransportCandidate) : comparison :=
  let rank c := capacity_rank (capacity_of kind c) demand in
  lex (Z.b2z (remote a) ?= Z.b2z (remote b))
    (lex (lex ((rank a).1 ?= (rank b).1) ((rank a).2 ?= (rank b).2))
       (lex (tc_origin_rank a ?= tc_origin_rank b) (String.compare (tc_code a) (tc_code b)))).
Definition eligible_transports (candidates : list TransportCandidate) (demand : Z) (kind : CapacityKind)
    (preference : option CarrierPreference) : list TransportCandidate :=
  sort_by (leb_of (candidate_cmp kind demand))
    (List.filter (λ c, bool_decide (0 < capacity_of kind c) &&
        match preference with Some p => eq_ignore_ascii_case (tc_device_type c) (cp_device_type p) | None => true end)
      candidates).

(** The loop of [select_transports]: the codes selected so far and their capacity; [detail]
    reads one device. *)
Section Selecting.
Context {E : Type} (detail : string → result E DeviceDetail).
Context (demand : Z) (kind : CapacityKind) (preference : option CarrierPreference) (transport_limit : nat).

Definition enough (selected : list string) (selected_capacity : Z) : bool :=
  match preference with
  | Some preference => bool_decide (cp_quantity preference ≤ length selected)%nat
  | None => negb (bool_decide (selected = [])) &&
            (bool_decide (Z.max demand 1 ≤ selected_capacity) || bool_decide (Nat.max transport_limit 1 ≤ length selected)%nat)
  end.
Fixpoint select_each (eligible : list TransportCandidate) (selected : list string) (selected_capacity : Z)
    : result (TransportError E) (list string) :=
  match eligible with
  | [] => Ok selected
  | candidate :: eligible =>
      if bool_decide (preference = None) && negb (bool_decide (selected = [])) && remote candidate then Ok selected
      else if enough selected selected_capacity then Ok selected
      else
        let selects := select_each eligible (selected ++ [tc_code candidate])
                         (saturating_add_i64 selected_capacity (capacity_of kind candidate)) in
        match kind with
        | Attachment => selects
        | Cargo =>
            match detail (tc_code candidate) with
            | Err error => Err (Client error)
            | Ok detail =>
                if bool_decide (is_Some (dd_controller_device_code detail)) || negb (bool_decide (cargo_map detail = ∅))
                then select_each eligible selected selected_capacity
                else selects
            end
        end
  end.
(** [select_transports] *)
Definition select_transports (candidates : list TransportCandidate) : result (TransportError E) (list string) :=
  let quantity := match preference with Some preference => cp_quantity preference | None => 1%nat end in
  selected ← select_each (eligible_transports candidates demand kind preference) [] 0;
  if decide (length selected < quantity)%nat then Err (NotFound (TooFewTransports quantity (length selected)))
  else Ok selected.
End Selecting.
(** [selected_transport_origins] *)
Definition selected_transport_origins (candidates : list TransportCandidate) (cargo_transports device_carriers : list string)
    : gmap string string :=
  foldl (λ m c, <[tc_code c := tc_location c]> m) ∅
    (List.filter (λ c, bool_decide (tc_code c ∈ cargo_transports ++ device_carriers)) candidates).

(** ** The plan *)

(** The sum of the quantities of a pickup: an [i64] sum panics out of range. *)
Fixpoint sum_i64 {E} (acc : Z) (l : list Z) : result (TransportError E) Z :=
  match l with
  | [] => Ok acc
  | z :: l => if decide (in_i64 (acc + z)) then sum_i64 (acc + z) l else Err Panicked
  end.
Fixpoint largest_pickup {E} (pickups : list ResourcePickup) (largest : Z) : result (TransportError E) Z :=
  match pickups with
  | [] => Ok largest
  | pickup :: pickups => total ← sum_i64 0 (snd <$> entries (rp_resources pickup)); largest_pickup pickups (Z.max largest total)
  end.
Definition resource_demand {E} (pickups : list ResourcePickup) : result (TransportError E) Z :=
  match pickups with
  | [] => Ok 0
  | pickup :: pickups => total ← sum_i64 0 (snd <$> entries (rp_resources pickup)); largest_pickup pickups total
  end.
Definition device_demand (payload : list PayloadDevice) : Z :=
  foldl Z.max 0 ((λ p, Z.of_nat (length (List.filter (λ q, bool_decide (pd_origin q = pd_origin p)) payload))) <$> payload).

(** [fetch_transport_capacities]: of the blueprints, the cargo and attachment capacity *)
Definition transport_capacities (blueprints : list (option string * option Z * option Z)) : gmap string (Z * Z) :=
  foldl (λ m b,
    match b with
    | (Some device_type, cargo, attach) => <[device_type := (default 0 cargo, default 0 attach)]> m
    | (None, _, _) => m
    end) ∅ blueprints.

(** The answers of the client a plan is made of *)
Record ClientAnswers (Json E C : Type) := {
  ca_inventories : option C → result E (list Inventory * option C);
  ca_blueprints : result E (list (option string * option Z * option Z));
  ca_devices : result E (list (Entities.Device Json));
  ca_detail : string → result E DeviceDetail;
}.
#[global] Arguments ca_inventories {Json E C} _ _.
#[global] Arguments ca_blueprints {Json E C} _.
#[global] Arguments ca_devices {Json E C} _.
#[global] Arguments ca_detail {Json E C} _ _.
Definition client {E A} (answer : result E A) : result (TransportError E) A :=
  match answer with Ok a => Ok a | Err error => Err (Client error) end.

(** [plan_delivery_with] *)
Definition plan_delivery_with {Json E C} (answers : ClientAnswers Json E C) (transport_limit : nat) (request : DeliveryRequest)
    : result (TransportError E) DeliveryPlan :=
  _ ← validate_request request;
  inventories ← fetch_inventories (ca_inventories answers);
  resource_pickups ← allocate_resources (de_origin request) (de_destination request) (de_resources request) inventories;
  blueprints ← client (ca_blueprints answers);
  devices ← client (ca_devices answers);
  payload_devices ← select_payload_devices (de_origin request) (de_device_codes request) (de_devices request)
                      (de_device_tags request) devices;
  let candidates := transport_candidates (de_origin request) devices (transport_capacities blueprints)
                      (list_to_set (pd_code <$> payload_devices)) (de_allow_transport_staging request) in
  demand ← resource_demand resource_pickups;
  cargo_transports ←
    (if decide (de_resources request = ∅) then Ok []
     else select_transports (ca_detail answers) demand Cargo (de_carrier request) transport_limit candidates);
  device_carriers ←
    (if decide (payload_devices = []) then Ok []
     else select_transports (ca_detail answers) (device_demand payload_devices) Attachment (de_carrier request) transport_limit candidates);
  Ok {| pl_origin := to_ascii_uppercase (trim (de_origin request));
        pl_destination := to_ascii_uppercase (trim (de_destination request));
        pl_resource_pickups := resource_pickups; pl_payload_devices := payload_devices;
        pl_cargo_transports := cargo_transports; pl_device_carriers := device_carriers;
        pl_transport_origins := selected_transport_origins candidates cargo_transports device_carriers |}.
(** [plan_delivery] *)
Definition plan_delivery {Json E C} (answers : ClientAnswers Json E C) (request : DeliveryRequest)
    : result (TransportError E) DeliveryPlan := plan_delivery_with answers DEFAULT_TRANSPORT_LIMIT request.

(** ** Identities of the mutations *)

(** [u64::to_le_bytes] *)
Fixpoint le_bytes (n : nat) (z : Z) : string :=
  match n with
  | O => ""
  | S n => String.String (Ascii.ascii_of_N (Z.to_N (z mod 256))) (le_bytes n (z / 256))
  end.
Definition length_prefixed (component : string) : string :=
  le_bytes 8 (Z.of_nat (String.length component)) +:+ component.

(** [canonical_device_code], [canonical_payload_codes] and [canonical_payload_key] *)
Definition canonical_device_code (code : string) : string := to_ascii_uppercase (trim code).
Definition canonical_payload_codes (codes : list string) : list string :=
  sort_by String.leb (elements (list_to_set (C := gset string) (canonical_device_code <$> codes))).
Definition canonical_payload_key (codes : list string) : string := String.concat "," (canonical_payload_codes codes).

(** The four canonical components of an identity and the name made of them *)
Definition canonical_components (action target destination payload : string) : list string :=
  [to_ascii_lowercase (trim action); canonical_device_code target; canonical_device_code destination;
   if decide (trim payload = "") then "" else canonical_payload_key (split_at (Ascii.ascii_of_N 44) payload)].
Definition operation_name (components : list string) : string := foldr String.append "" (length_prefixed <$> components).
(** [managed_operation_id]; [new_v5] is the version five UUID of a namespace and a name. *)
Definition managed_operation_id (new_v5 : string → string → string) (operation_namespace : option string)
    (action target destination payload : string) : option string :=
  (λ namespace, new_v5 namespace (operation_name (canonical_components action target destination payload))) <$> operation_namespace.

(** [travel_operation_leg] *)
Definition travel_operation_leg (leg : string) (current_location : option string) (destination : string) : string :=
  match current_location with
  | Some location =>
      if negb (same_location location destination) && same_system location destination
      then leg +:+ ":local-from:" +:+ canonical_device_code location else leg
  | None => leg
  end.
Definition travel_identity (new_v5 : string → string → string) (operation_namespace : option string)
    (code destination : string) (current_location : option string) (leg : string) : option string :=
  managed_operation_id new_v5 operation_namespace "travel" code destination (travel_operation_leg leg current_location destination).
(** The command of [dispatch_transport_travel]; [via] is the route the client planned. *)
Definition dispatch_transport_travel `{JN : JsonNumber} (from_value : Value → result string MutationAdapter.t)
    (from_str : string → option Value) (new_v5 : string → string → string) (operation_namespace : option string)
    (code destination : string) (current_location : option string) (leg : string) (via : option Value) : Prog string :=
  create_with_id from_value from_str (MutationAdapter.DeviceCommand code (DeviceCommand.Travel destination None via))
    (travel_identity new_v5 operation_namespace code destination current_location leg).

(** ** Resources on the way *)

(** [format_resources] *)
Definition format_resources (resources : ResourceMap) : string :=
  String.concat ", " ((λ e : string * Z, pretty e.2 +:+ " " +:+ e.1) <$> entries resources).

(** [take_manifest] *)
Fixpoint take_each (resources : list (string * Z)) (free : Z) (result : ResourceMap) : ResourceMap :=
  match resources with
  | [] => result
  | (resource, quantity) :: resources =>
      if decide (free = 0) then result
      else
        let amount := Z.min quantity free in
        if decide (0 < amount) then take_each resources (free - amount) (<[resource := amount]> result)
        else take_each resources free result
  end.
Definition take_manifest (resources : ResourceMap) (capacity : Z) : ResourceMap :=
  take_each (entries resources) (Z.max 0 capacity) ∅.

(** [subtract_resources] *)
Definition subtract_entry (target : ResourceMap) (e : string * Z) : ResourceMap :=
  match target !! e.1 with
  | Some quantity =>
      let quantity := saturating_sub_i64 quantity e.2 in
      if decide (quantity = 0) then delete e.1 target else <[e.1 := quantity]> target
  | None => target
  end.
Definition subtract_resources (target subtraction : ResourceMap) : ResourceMap :=
  foldl subtract_entry target (entries subtraction).

(** [merge_resources]: an [i64] sum panics out of range. *)
Fixpoint merge_each {E} (target : ResourceMap) (addition : list (string * Z)) : result (TransportError E) ResourceMap :=
  match addition with
  | [] => Ok target
  | (resource, amount) :: addition =>
      let sum := default 0 (target !! resource) + amount in
      if decide (in_i64 sum) then merge_each (<[resource := sum]> target) addition else Err Panicked
  end.
Definition merge_resources {E} (target addition : ResourceMap) : result (TransportError E) ResourceMap :=
  merge_each target (entries addition).

(** ** Cargo trips *)

Section Trips.
Context {E : Type}.

(** Where [run_cargo_trips] of one transport stands: at the head of its loop; on the way to the
    pickup, with the leg it named; with the manifest it reserved; returned. *)
Inductive Phase := Head | Staging (leg : string) | Carrying (manifest : ResourceMap) | Returned.
(** What the awaits answer: the stay at the pickup, the settlement of the transport, its empty
    hold and its detail; and the collection, the journey and the deposit of a manifest. *)
Record Answers := {
  an_staged : result (TransportError E) DeviceDetail;
  an_deposited : result (TransportError E) unit;
}.

(** One turn of [run_cargo_trips], from one await to the next: the next phase, and what the
    two shared maps become. *)
Definition run_cargo_trip (code : string) (answers : Answers) (phase : Phase) (remaining delivered : ResourceMap)
    : result (TransportError E) (Phase * ResourceMap * ResourceMap) :=
  match phase with
  | Head =>
      if decide (remaining = ∅) then Ok (Returned, remaining, delivered)
      else Ok (Staging (format_resources remaining), remaining, delivered)
  | Staging _ =>
      detail ← an_staged answers;
      if decide (is_Some (dd_controller_device_code detail)) then Err (Invalid (Controlled code))
      else
        let capacity := default 0 (dd_cargo_capacity detail) in
        if decide (capacity ≤ 0) then Err (Invalid (NoCargoCapacity code))
        else
          let manifest := take_manifest remaining capacity in
          let remaining := subtract_resources remaining manifest in
          if decide (manifest = ∅) then Ok (Returned, remaining, delivered)
          else Ok (Carrying manifest, remaining, delivered)
  | Carrying manifest =>
      _ ← an_deposited answers;
      delivered ← merge_resources delivered manifest;
      Ok (Head, remaining, delivered)
  | Returned => Ok (Returned, remaining, delivered)
  end.

(** One pickup: the shared maps, the transports and, once a transport failed, its error. *)
Record Pickup := {
  pk_remaining : ResourceMap;
  pk_delivered : ResourceMap;
  pk_workers : list (string * Phase);
  pk_failed : option (TransportError E);
}.
Definition start_pickup (pickup : ResourcePickup) (transports : list string) : Pickup :=
  {| pk_remaining := rp_resources pickup; pk_delivered := ∅; pk_workers := (λ code, (code, Head)) <$> transports; pk_failed := None |}.
Definition after_turn (i : nat) (code : string) (outcome : result (TransportError E) (Phase * ResourceMap * ResourceMap))
    (p : Pickup) : Pickup :=
  match outcome with
  | Ok (phase, remaining, delivered) =>
      {| pk_remaining := remaining; pk_delivered := delivered; pk_workers := <[i := (code, phase)]> (pk_workers p); pk_failed := None |}
  | Err error => {| pk_remaining := pk_remaining p; pk_delivered := pk_delivered p; pk_workers := pk_workers p; pk_failed := Some error |}
  end.
(** Any transport that has not returned may take the next turn, until one has failed
    ([try_join_all]). *)
Inductive turn (p : Pickup) : Pickup → Prop :=
| turn_of i code phase answers :
    pk_failed p = None → pk_workers p !! i = Some (code, phase) → phase ≠ Returned →
    turn p (after_turn i code (run_cargo_trip code answers phase (pk_remaining p) (pk_delivered p)) p).
Definition returned (w : string * Phase) : Prop := w.2 = Returned.

(** The end of one pickup in [deliver_resource_pickups] *)
Definition pickup_result (p : Pickup) : result (TransportError E) ResourceMap :=
  match pk_failed p with
  | Some error => Err error
  | None => if decide (pk_remaining p = ∅) then Ok (pk_delivered p) else Err (Invalid (NoProgress (pk_remaining p)))
  end.
Definition ended (p : Pickup) : Prop := is_Some (pk_failed p) ∨ Forall returned (pk_workers p).

(** The pickups of [deliver_resource_pickups], one after the other, with what was delivered *)
Inductive deliver_each (transports : list string) : list ResourcePickup → ResourceMap → result (TransportError E) ResourceMap → Prop :=
| deliver_done delivered : deliver_each transports [] delivered (Ok delivered)
| deliver_failed pickup pickups delivered p error :
    rtc turn (start_pickup pickup transports) p → ended p → pickup_result p = Err error →
    deliver_each transports (pickup :: pickups) delivered (Err error)
| deliver_panicked pickup pickups delivered p delivered' error :
    rtc turn (start_pickup pickup transports) p → ended p → pickup_result p = Ok delivered' →
    (merge_resources delivered delivered' : result (TransportError E) ResourceMap) = Err error →
    deliver_each transports (pickup :: pickups) delivered (Err error)
| deliver_next pickup pickups delivered p delivered' total r :
    rtc turn (start_pickup pickup transports) p → ended p → pickup_result p = Ok delivered' →
    (merge_resources delivered delivered' : result (TransportError E) ResourceMap) = Ok total → deliver_each transports pickups total r →
    deliver_each transports (pickup :: pickups) delivered r.
(** [deliver_resource_pickups] *)
Inductive deliver_resource_pickups (pickups : list ResourcePickup) (transports : list string)
    : result (TransportError E) ResourceMap → Prop :=
| deliver_nothing : pickups = [] → deliver_resource_pickups pickups transports (Ok ∅)
| deliver_no_transports : pickups ≠ [] → transports = [] →
    deliver_resource_pickups pickups transports (Err (NotFound (TooFewTransports 1 0)))
| deliver_pickups r : pickups ≠ [] → transports ≠ [] → deliver_each transports pickups ∅ r →
    deliver_resource_pickups pickups transports r.
End Trips.
#[global] Arguments Answers : clear implicits.
#[global] Arguments Pickup : clear implicits.

(** ** Recovery of a delivery *)

(** [ensure_only_delivery_attachments]: the codes that do not belong *)
Definition unexpected_attachments (attached : list string) (payload_codes : gset string) : list string :=
  List.filter (λ code, negb (bool_decide (code ∈ payload_codes))) attached.

(** [payload_resume_state]: where the payload starts from, and whether it has arrived *)
Definition payload_resume_state (current_location : option string) (free_and_stationary : bool) (planned_origin destination : string)
    : string * bool :=
  if negb free_and_stationary then (planned_origin, false)
  else match current_location with
       | None => (planned_origin, false)
       | Some current_location =>
           if same_location current_location destination then (planned_origin, true)
           else if same_system current_location destination then (current_location, false)
           else (planned_origin, false)
       end.

(** [attached_delivery_state] *)
Inductive AttachedDeliveryState := AtOrigin | AtDestination | TravelingToOrigin | TravelingToDestination.
Definition attached_delivery_state (location travel_destination : option string) (origin destination : string)
    : option AttachedDeliveryState :=
  match travel_destination with
  | Some travel_destination =>
      if same_location travel_destination origin then Some TravelingToOrigin
      else if same_location travel_destination destination then Some TravelingToDestination else None
  | None =>
      match location with
      | Some location =>
          if same_location location origin then Some AtOrigin
          else if same_location location destination then Some AtDestination else None
      | None => None
      end
  end.

(** [settle_transport_between]: the end of the delivery a travelling transport is sent on to *)
Definition settle_endpoint (planned origin destination : string) : option string :=
  if same_location planned origin || same_system planned origin then Some origin
  else if same_location planned destination || same_system planned destination then Some destination
  else None.

(** [travel_poll_interval], in milliseconds *)
Definition travel_poll_interval (eta_seconds : option Z) (configured : Z) : Z :=
  let eta := default 0 eta_seconds in
  Z.max (if decide (300 ≤ eta) then 60000 else if decide (60 ≤ eta) then 30000 else if decide (0 < eta) then 10000 else configured)
    configured.
End Transport.
