(* ===== verification/TransportFacts.v ===== *)
(** * The transport planner, verified

    The concurrent cargo trips of a pickup (nothing is carried twice, nothing is left, every
    run ends), the allocation of a request to pickups and the two together, the selection of
    transports, and the identities a restarted delivery sends its mutations under. *)

From stdpp Require Import pretty.
From S2P Require Import Prelude Registry RegistryFacts Observations Entities Printing PrintingFacts PrintScheduleFacts.
From S2P Require Import Json Mutations Operations OperationLogic OperationOutcomes Transport.
Import Mutation Journal Transport.

(** ** Resource maps *)

Section Resources.
Implicit Types (m s : gmap string Z) (l : list (string * Z)) (r : string).

Definition amount m r : Z := default 0 (m !! r).
(** Every quantity is a positive [i64]. *)
Definition stocked m : Prop := map_Forall (λ _ q, 0 < q ≤ i64_max) m.
Definition total m : Z := map_sum (λ _ q, q) m.

Lemma amount_empty r : amount ∅ r = 0.
Proof. unfold amount. by rewrite lookup_empty. Qed.
Lemma amount_insert m r q r' : amount (<[r := q]> m) r' = if decide (r = r') then q else amount m r'.
Proof. unfold amount. case_decide; subst; by simplify_map_eq. Qed.
Lemma amount_delete m r r' : amount (delete r m) r' = if decide (r = r') then 0 else amount m r'.
Proof. unfold amount. case_decide; subst; by simplify_map_eq. Qed.
Lemma amount_stocked m r : stocked m → 0 ≤ amount m r ≤ i64_max.
Proof.
  intros Hm. unfold amount. destruct (m !! r) eqn:E; simpl; [|unfold i64_max; lia]. specialize (Hm _ _ E). simpl in Hm. lia.
Qed.
Lemma stocked_eq m s : stocked m → stocked s → (∀ r, amount m r = amount s r) → m = s.
Proof.
  intros Hm Hs H. apply map_eq. intros r. specialize (H r). unfold amount in H.
  destruct (m !! r) as [x|] eqn:E, (s !! r) as [y|] eqn:E'; simpl in H; try apply Hm in E as Hx; try apply Hs in E' as Hy;
    simpl in *; try done; try lia. by subst.
Qed.
Lemma stocked_total m : stocked m → 0 ≤ total m.
Proof. intros Hm. apply map_sum_nonneg. intros r q Hq. specialize (Hm _ _ Hq). simpl in Hm. lia. Qed.

(** *** Taking *)

Lemma take_each_spec l free m0 :
  0 ≤ free → NoDup l.*1 → Forall (λ e : string * Z, 0 < e.2) l → Forall (λ e : string * Z, m0 !! e.1 = None) l →
  let m := take_each l free m0 in
  (∀ r a, m !! r = Some a → m0 !! r = Some a ∨ ∃ q, (r, q) ∈ l ∧ 0 < a ≤ q) ∧
  total m ≤ total m0 + free ∧ (0 < free → l ≠ [] → m ≠ ∅) ∧ (m = ∅ → m0 = ∅).
Proof.
  revert free m0. induction l as [|[r q] l IH]; intros free m0 Hf Hnd Hpos Hm0; cbn -[decide].
  - split_and!; [auto|lia|done|done].
  - rewrite fmap_cons in Hnd. apply NoDup_cons in Hnd as [Hr Hnd]. apply Forall_cons in Hpos as [Hq Hpos]. apply Forall_cons in Hm0 as [Hmr Hm0].
    cbn [fst snd] in *. case_decide as H0; [split_and!; [auto|lia|lia|done]|]. rewrite decide_True by lia.
    destruct (IH (free - Z.min q free) (<[r := Z.min q free]> m0)) as (H1&H2&H3&H4); [lia|done|done| |].
    { apply Forall_forall. intros [r' q'] Hin. rewrite Forall_forall in Hm0. cbn. rewrite lookup_insert_ne; [by apply (Hm0 (r', q'))|].
      intros <-. apply Hr. apply list_elem_of_fmap. by exists (r, q'). }
    split_and!.
    + intros r' a [Ha|(q'&Hin&?)]%H1; [|right; exists q'; split; [by right|done]].
      apply lookup_insert_Some in Ha as [[<- <-]|[? ?]]; [right; exists q; split; [by left|lia]|by left].
    + unfold total in *. rewrite map_sum_insert in H2 by done. lia.
    + intros _ _ E. apply H4 in E. by apply insert_non_empty in E.
    + intros E. apply H4 in E. by apply insert_non_empty in E.
Qed.

Lemma entries_empty m : entries m = [] → m = ∅.
Proof. intros E. apply map_empty. intros r. apply eq_None_not_Some. intros [q Hq]. apply elem_of_entries in Hq. rewrite E in Hq. by apply elem_of_nil in Hq. Qed.

(** A manifest is a part of what remains, within the capacity, and not empty as long as there
    is something to take. *)
Lemma take_manifest_spec m capacity :
  stocked m → 0 ≤ capacity →
  (∀ r a, take_manifest m capacity !! r = Some a → 0 < a ≤ amount m r) ∧ stocked (take_manifest m capacity) ∧
  total (take_manifest m capacity) ≤ capacity ∧ (0 < capacity → take_manifest m capacity = ∅ → m = ∅).
Proof.
  intros Hm Hc. destruct (entries_map m) as [Hnd Hl].
  destruct (take_each_spec (entries m) (Z.max 0 capacity) ∅) as (H1&H2&H3&_); [lia|done| | |].
  { apply Forall_forall. intros [r q] Hq%elem_of_entries. specialize (Hm _ _ Hq). simpl in *. lia. }
  { apply Forall_forall. intros ? ?. apply lookup_empty. }
  fold (take_manifest m capacity) in *.
  assert (Hpart : ∀ r a, take_manifest m capacity !! r = Some a → 0 < a ≤ amount m r).
  { intros r a [Ha|(q&Hq&?)]%H1; [by rewrite lookup_empty in Ha|]. apply elem_of_entries in Hq. unfold amount. by rewrite Hq. }
  split_and!; [done| |unfold total in *; rewrite map_sum_empty in H2; lia|].
  - intros r a Ha%Hpart. pose proof (amount_stocked m r Hm). lia.
  - intros Hpos E. destruct (entries m) eqn:El; [by apply entries_empty|]. exfalso. by apply H3; [lia|..].
Qed.

(** *** Subtracting and merging *)

Lemma subtract_each l : ∀ m, stocked m → NoDup l.*1 → Forall (λ e : string * Z, 0 < e.2 ≤ amount m e.1) l →
  let m' := foldl subtract_entry m l in
  stocked m' ∧ (∀ r, amount m' r = amount m r - amount (list_to_map l) r) ∧ total m' = total m - sum_by snd l.
Proof.
  induction l as [|[r a] l IH]; intros m Hm Hnd Hl; cbn -[decide].
  - split_and!; [done|intros r; rewrite amount_empty; lia|unfold sum_by; simpl; lia].
  - rewrite fmap_cons in Hnd. apply NoDup_cons in Hnd as [Hr Hnd]. apply Forall_cons in Hl as [Ha Hl]. cbn [fst snd] in *.
    assert (∃ m', subtract_entry m (r, a) = m' ∧ stocked m' ∧ (∀ r', amount m' r' = if decide (r = r') then amount m r - a else amount m r') ∧
      total m' = total m - a) as (m'&E&Hm'&Ham&Htot).
    { unfold subtract_entry. cbn [fst snd]. unfold amount in Ha. destruct (m !! r) as [q|] eqn:Eq; simpl in Ha; [|lia].
      pose proof (Hm _ _ Eq) as Hq. cbn in Hq.
      assert (saturating_sub_i64 q a = q - a) as -> by (unfold saturating_sub_i64, clamp_i64, i64_min, i64_max in *; lia).
      eexists. split; [reflexivity|]. case_decide as E0.
      - split_and!.
        + intros r' q' [_ Hq']%lookup_delete_Some. by apply Hm in Hq'.
        + intros r'. rewrite amount_delete. case_decide; [|done]. subst. unfold amount. rewrite Eq. simpl. lia.
        + unfold total. rewrite <-(insert_delete_id _ _ _ Eq) at 2. rewrite map_sum_insert by apply lookup_delete_eq. lia.
      - split_and!.
        + intros r' q' [[<- <-]|[_ Hq']]%lookup_insert_Some; [simpl; lia|by apply Hm in Hq'].
        + intros r'. rewrite amount_insert. case_decide; [|done]. subst. unfold amount. by rewrite Eq.
        + unfold total. rewrite map_sum_update, Eq. simpl. lia. }
    rewrite E. destruct (IH m') as (H1&H2&H3); [done|done| |].
    { apply Forall_forall. intros [r' a'] Hin. rewrite Forall_forall in Hl. rewrite Ham. specialize (Hl _ Hin). cbn in Hl |- *.
      rewrite decide_False; [done|]. intros <-. apply Hr. apply list_elem_of_fmap. by exists (r, a'). }
    split_and!; [done| |rewrite H3, Htot; unfold sum_by; simpl; lia].
    intros r'. rewrite H2, Ham, amount_insert. case_decide; [|done]. subst.
    unfold amount at 2. rewrite not_elem_of_list_to_map_1 by done. simpl. lia.
Qed.

Lemma subtract_resources_spec m s :
  stocked m → (∀ r a, s !! r = Some a → 0 < a ≤ amount m r) →
  stocked (subtract_resources m s) ∧ (∀ r, amount (subtract_resources m s) r = amount m r - amount s r) ∧
  total (subtract_resources m s) = total m - total s.
Proof.
  intros Hm Hs. destruct (entries_map s) as [Hnd Hl]. unfold subtract_resources.
  destruct (subtract_each (entries s) m Hm Hnd) as (H1&H2&H3).
  { apply Forall_forall. intros [r a] Ha%elem_of_entries. by apply Hs. }
  split_and!; [done|intros r; by rewrite H2, Hl|]. rewrite H3. unfold total. f_equal.
  rewrite <-(sum_by_entries (λ _ q, q)). reflexivity.
Qed.

Lemma merge_each_Ok {E} l : ∀ m, NoDup l.*1 → (∀ r, in_i64 (amount m r + amount (list_to_map l) r)) →
  ∃ m', merge_each (E := E) m l = Ok m' ∧ (∀ r, amount m' r = amount m r + amount (list_to_map l) r) ∧
    (stocked m → Forall (λ e : string * Z, 0 < e.2) l → stocked m').
Proof.
  induction l as [|[r a] l IH]; intros m Hnd Hin; cbn -[decide].
  - exists m. split_and!; [done|intros r; rewrite amount_empty; lia|done].
  - rewrite fmap_cons in Hnd. apply NoDup_cons in Hnd as [Hr Hnd].
    assert (Hl : amount (list_to_map l) r = 0) by (unfold amount; by rewrite not_elem_of_list_to_map_1).
    pose proof (Hin r) as Hinr. cbn in Hinr. rewrite amount_insert, decide_True in Hinr by done.
    fold (amount m r). rewrite decide_True by done.
    destruct (IH (<[r := amount m r + a]> m)) as (m'&E1&H1&H2); [done| |].
    { intros r'. specialize (Hin r'). cbn in Hin. rewrite amount_insert in Hin |- *. case_decide; [subst; by rewrite Hl, Z.add_0_r|done]. }
    exists m'. split_and!; [done| |].
    + intros r'. rewrite H1, !amount_insert. case_decide; [subst; lia|done].
    + intros Hm Hl'. apply Forall_cons in Hl' as [Ha Hl']. simpl in Ha. apply H2; [|done].
      intros r' q [[<- <-]|[_ Hq]]%lookup_insert_Some; [|by apply Hm in Hq].
      pose proof (amount_stocked m r Hm). destruct Hinr. lia.
Qed.
Lemma merge_resources_sums {E} m s :
  stocked m → stocked s → (∀ r, amount m r + amount s r ≤ i64_max) →
  ∃ m', merge_resources (E := E) m s = Ok m' ∧ (∀ r, amount m' r = amount m r + amount s r) ∧ stocked m'.
Proof.
  intros Hm Hs Hmax. destruct (entries_map s) as [Hnd Hl]. destruct (merge_each_Ok (E := E) (entries s) m Hnd) as (m'&E1&H1&H2).
  { intros r. rewrite Hl. specialize (Hmax r). pose proof (amount_stocked m r Hm). pose proof (amount_stocked s r Hs).
    unfold in_i64, i64_min, i64_max in *. lia. }
  exists m'. split_and!; [done|intros r; by rewrite H1, Hl|]. apply H2; [done|]. apply Forall_forall.
  intros [r q] Hq%elem_of_entries. specialize (Hs _ _ Hq). simpl in *. lia.
Qed.
End Resources.

(** ** Cargo trips *)

Section Trips.
Context {E : Type}.
Implicit Types (p : Pickup E) (r : string) (ws : list (string * Phase)).

Definition aboard r (w : string * Phase) : Z := match w.2 with Carrying manifest => amount manifest r | _ => 0 end.
Definition carried r ws : Z := sum_by (aboard r) ws.

(** Every unit of the pickup is where it was, on one transport, or delivered. *)
Definition worker_ok (remaining : ResourceMap) (w : string * Phase) : Prop :=
  match w.2 with Carrying manifest => stocked manifest | Returned => remaining = ∅ | _ => True end.
Definition conserved (manifest : ResourceMap) p : Prop :=
  stocked (pk_remaining p) ∧ stocked (pk_delivered p) ∧ Forall (worker_ok (pk_remaining p)) (pk_workers p) ∧
  ∀ r, amount (pk_remaining p) r + carried r (pk_workers p) + amount (pk_delivered p) r = amount manifest r.

Lemma sum_by_update {A} (f : A → Z) l i x y : l !! i = Some x → sum_by f (<[i := y]> l) = sum_by f l - f x + f y.
Proof.
  revert i. induction l as [|z l IH]; intros [|i] Hi; simplify_eq/=; [rewrite !sum_by_cons; lia|].
  rewrite !sum_by_cons, IH by done. lia.
Qed.
Lemma carried_nonneg remaining ws r : Forall (worker_ok remaining) ws → 0 ≤ carried r ws.
Proof.
  unfold carried. induction 1 as [|[c ph] ws Hw _ IH]; [done|]. rewrite sum_by_cons.
  destruct ph as [| |m|]; cbn in *; try lia. pose proof (amount_stocked m r Hw). lia.
Qed.
Lemma carried_at remaining ws i c m r :
  Forall (worker_ok remaining) ws → ws !! i = Some (c, Carrying m) → amount m r ≤ carried r ws.
Proof.
  intros Hws Hi. unfold carried. rewrite <-(list_insert_id ws i (c, Carrying m) Hi).
  rewrite (sum_by_update _ ws i (c, Carrying m)) by done. enough (amount m r ≤ carried r ws) by (unfold carried in *; lia).
  unfold carried. revert i Hi. induction Hws as [|w ws Hw Hws IH]; intros i Hi; [done|]. rewrite sum_by_cons. destruct i as [|i]; simplify_eq/=.
  - pose proof (carried_nonneg remaining ws r Hws). unfold carried in *. cbn. lia.
  - specialize (IH _ Hi). destruct w as [c' [| |m'|]]; cbn in *; try lia. pose proof (amount_stocked m' r Hw). lia.
Qed.

(** What one turn does in a conserved state: a panic is never its own. *)
Inductive turned (code : string) (answers : Answers E) (remaining delivered : ResourceMap) :
    Phase → result (TransportError E) (Phase * ResourceMap * ResourceMap) → Prop :=
| turned_away : remaining = ∅ → turned code answers remaining delivered Head (Ok (Returned, remaining, delivered))
| turned_to_stage : remaining ≠ ∅ →
    turned code answers remaining delivered Head (Ok (Staging (format_resources remaining), remaining, delivered))
| turned_empty leg : remaining = ∅ → turned code answers remaining delivered (Staging leg) (Ok (Returned, remaining, delivered))
| turned_reserve leg manifest remaining' :
    stocked manifest → stocked remaining' → (∀ r, amount remaining r = amount remaining' r + amount manifest r) →
    0 < total manifest → total remaining = total remaining' + total manifest →
    turned code answers remaining delivered (Staging leg) (Ok (Carrying manifest, remaining', delivered))
| turned_deposit manifest delivered' :
    stocked delivered' → (∀ r, amount delivered' r = amount delivered r + amount manifest r) →
    turned code answers remaining delivered (Carrying manifest) (Ok (Head, remaining, delivered'))
| turned_failed phase error :
    phase ≠ Returned →
    (an_staged answers = Err error ∨ an_deposited answers = Err error ∨
     error = Invalid (Controlled code) ∨ error = Invalid (NoCargoCapacity code)) →
    turned code answers remaining delivered phase (Err error).

Lemma run_cargo_trip_turned code answers phase remaining delivered :
  stocked remaining → stocked delivered → phase ≠ Returned →
  (∀ m, phase = Carrying m → stocked m ∧ ∀ r, amount delivered r + amount m r ≤ i64_max) →
  turned code answers remaining delivered phase (run_cargo_trip code answers phase remaining delivered).
Proof.
  intros Hr Hd Hph Hm. destruct phase as [|leg|m|]; cbn -[decide]; [| | |done].
  - case_decide; by constructor.
  - destruct (an_staged answers) as [detail|error] eqn:E1; [|constructor; [done|by left]]. cbn -[decide].
    case_decide; [constructor; auto|]. case_decide as Hc; [constructor; auto|].
    destruct (take_manifest_spec remaining (default 0 (dd_cargo_capacity detail)) Hr) as (H1&H2&_&H4); [lia|].
    set (m := take_manifest _ _) in *. destruct (subtract_resources_spec remaining m Hr H1) as (S1&S2&S3).
    case_decide as E0.
    + rewrite E0. assert (remaining = ∅) as -> by (apply H4; [lia|done]). by constructor.
    + constructor; [done|done|intros r; rewrite S2; lia| |lia].
      unfold total. destruct (map_choose m) as (r&a&Ha); [done|]. rewrite <-(insert_delete_id _ _ _ Ha), map_sum_insert by apply lookup_delete_eq.
      pose proof (H2 _ _ Ha) as Hpos. cbn in Hpos. apply Z.add_pos_nonneg; [lia|]. apply map_sum_nonneg.
      intros r' a' [_ Ha']%lookup_delete_Some. specialize (H2 _ _ Ha'). simpl in H2. lia.
  - destruct (an_deposited answers) as [[]|error] eqn:E1; [|constructor; auto]. cbn.
    destruct (Hm m eq_refl) as [Hsm Hmax]. destruct (merge_resources_sums (E := E) delivered m Hd Hsm Hmax) as (d'&->&H1&H2). by constructor.
Qed.

Lemma conserved_room manifest p i code m :
  stocked manifest → conserved manifest p → pk_workers p !! i = Some (code, Carrying m) →
  stocked m ∧ ∀ r, amount (pk_delivered p) r + amount m r ≤ i64_max.
Proof.
  intros HM (Hr&Hd&Hw&Hsum) Hi. split.
  { rewrite Forall_forall in Hw. apply (Hw (code, Carrying m)). by eapply list_elem_of_lookup_2. }
  intros r. pose proof (carried_at _ _ _ _ _ r Hw Hi). pose proof (amount_stocked _ r Hr). pose proof (amount_stocked _ r HM).
  specialize (Hsum r). lia.
Qed.

Lemma workers_keep remaining remaining' ws i w :
  (remaining = ∅ → remaining' = ∅) → Forall (worker_ok remaining) ws → worker_ok remaining' w → Forall (worker_ok remaining') (<[i := w]> ws).
Proof.
  intros He Hws Hw. apply Forall_insert; [|done]. eapply Forall_impl; [exact Hws|]. intros [c [| | |]]; cbn; auto.
Qed.

(** Where a transport is in its trip *)
Definition weight (w : string * Phase) : Z := match w.2 with Head => 2 | Staging _ => 1 | Carrying _ => 3 | Returned => 0 end.
Definition effort p : Z :=
  match pk_failed p with Some _ => 0 | None => 1 + 4 * total (pk_remaining p) + sum_by weight (pk_workers p) end.

Lemma weights_nonneg ws : 0 ≤ sum_by weight ws.
Proof. induction ws as [|[c ph] ws IH]; [done|]. rewrite sum_by_cons. destruct ph; cbn; lia. Qed.
Lemma effort_nonneg manifest p : conserved manifest p → 0 ≤ effort p.
Proof.
  intros (Hr&_). unfold effort. destruct (pk_failed p); [lia|]. pose proof (stocked_total _ Hr). pose proof (weights_nonneg (pk_workers p)). lia.
Qed.

(** Every turn keeps the units and brings the end nearer. *)
Lemma turn_conserves manifest p p' : stocked manifest → conserved manifest p → turn p p' → conserved manifest p' ∧ effort p' < effort p.
Proof.
  intros HM Hp Ht. pose proof Hp as (Hr&Hd&Hw&Hsum). destruct Ht as [i code phase answers Hf Hi Hph].
  assert (Hrun := run_cargo_trip_turned code answers phase (pk_remaining p) (pk_delivered p) Hr Hd Hph).
  specialize (Hrun ltac:(intros m ->; eapply (conserved_room manifest); eauto)).
  assert (Hwe : ∀ ph, sum_by weight (<[i := (code, ph)]> (pk_workers p)) = sum_by weight (pk_workers p) - weight (code, phase) + weight (code, ph))
    by (intros; by apply sum_by_update).
  assert (Hca : ∀ ph r, carried r (<[i := (code, ph)]> (pk_workers p)) = carried r (pk_workers p) - aboard r (code, phase) + aboard r (code, ph))
    by (intros; by apply sum_by_update).
  destruct Hrun as [He|He|leg He|leg m rem' H1 H2 H3 H4 H5|m d' H1 H2|ph error Hne _]; unfold conserved, effort; cbn [after_turn pk_remaining pk_delivered pk_workers pk_failed]; rewrite ?Hf, ?Hwe.
  1-3: split; [split_and!; [done|done|by eapply workers_keep; [|done|]|intros r; rewrite Hca; cbn; specialize (Hsum r); lia]|cbn; lia].
  - split; [|cbn; lia]. split_and!; [done|done| |intros r; rewrite Hca; cbn; specialize (Hsum r); specialize (H3 r); lia].
    eapply workers_keep; [|done|done]. intros E0. rewrite E0 in H5. pose proof (stocked_total _ H2). unfold total in H5 at 1. rewrite map_sum_empty in H5. lia.
  - split; [|cbn; lia]. split_and!; [done|done|by eapply workers_keep; [|done|]|intros r; rewrite Hca; cbn; specialize (Hsum r); specialize (H2 r); lia].
  - split; [split_and!; done|]. pose proof (stocked_total _ Hr). pose proof (weights_nonneg (pk_workers p)). lia.
Qed.

Lemma start_conserved pickup transports : stocked (rp_resources pickup) → conserved (rp_resources pickup) (start_pickup (E := E) pickup transports).
Proof.
  intros Hp. split_and!; cbn; [done|by intros ??|apply Forall_fmap, Forall_true; by intros ?|].
  intros r. rewrite amount_empty. match goal with |- _ + ?c + _ = _ => enough (c = 0) as -> by lia end.
  unfold carried. induction transports as [|code transports IH]; [done|]. exact IH.
Qed.
Lemma turns_conserve manifest p p' : stocked manifest → conserved manifest p → rtc turn p p' → conserved manifest p'.
Proof. intros HM Hp Ht. induction Ht as [|p p1 p2 Hone _ IH]; [done|]. apply IH. by eapply turn_conserves. Qed.
Lemma turns_keep_workers p p' : rtc turn p p' → length (pk_workers p') = length (pk_workers p).
Proof.
  induction 1 as [|p p1 p2 [i code phase answers _ _ _] _ IH]; [done|]. rewrite IH.
  destruct (run_cargo_trip code answers phase _ _) as [[[? ?] ?]|]; cbn; [apply length_insert|done].
Qed.

#[global] Instance returned_dec (w : string * Phase) : Decision (returned w).
Proof. destruct w as [c []]; unfold returned; cbn; (by left) || by right. Defined.

(** No run of a conserved pickup is infinite. *)
Lemma conserved_terminates manifest p : stocked manifest → conserved manifest p → Acc (λ p' p, turn p p') p.
Proof.
  intros HM. remember (Z.to_nat (effort p)) as n eqn:Hn. revert p Hn.
  induction n as [n IH] using lt_wf_ind. intros p -> Hp. constructor. intros p' Ht.
  destruct (turn_conserves _ _ _ HM Hp Ht) as [Hp' He]. eapply IH; [|done|done].
  pose proof (effort_nonneg _ _ Hp'). lia.
Qed.

(** When every transport has returned there is nothing left and everything is delivered. *)
Lemma returned_delivered manifest p :
  stocked manifest → conserved manifest p → pk_workers p ≠ [] → Forall returned (pk_workers p) →
  pk_remaining p = ∅ ∧ pk_delivered p = manifest.
Proof.
  intros HM (Hr&Hd&Hw&Hsum) Hne Hret.
  assert (He : pk_remaining p = ∅).
  { destruct (pk_workers p) as [|[c ph] ws]; [done|]. apply Forall_cons in Hw as [Hw _]. apply Forall_cons in Hret as [Hret _].
    unfold returned in Hret. cbn in Hret. by subst ph. }
  split; [done|]. apply stocked_eq; [done..|]. intros r. specialize (Hsum r). rewrite He, amount_empty in Hsum.
  enough (carried r (pk_workers p) = 0) by lia. clear -Hret. unfold carried.
  induction Hret as [|[c ph] ws Hw _ IH]; [done|]. rewrite sum_by_cons, IH. unfold returned in Hw. cbn in *. by subst.
Qed.

(** A transport that has not returned has a turn that does not fail. *)
Definition willing : Answers E :=
  {| an_staged := Ok {| dd_controller_device_code := None; dd_cargo := []; dd_cargo_capacity := Some 1 |}; an_deposited := Ok tt |}.
Lemma willing_turn manifest p :
  stocked manifest → conserved manifest p → pk_failed p = None → ¬ Forall returned (pk_workers p) →
  ∃ p', turn p p' ∧ pk_failed p' = None.
Proof.
  intros HM Hp Hf Hnot. pose proof Hp as (Hr&Hd&Hw&Hsum).
  assert (∃ i code phase, pk_workers p !! i = Some (code, phase) ∧ phase ≠ Returned) as (i&code&phase&Hi&Hph).
  { apply not_Forall_Exists in Hnot; [|apply _].
    apply Exists_exists in Hnot as ([c ph]&Hin&Hnr). apply list_elem_of_lookup in Hin as [i Hi]. by exists i, c, ph. }
  exists (after_turn i code (run_cargo_trip code willing phase (pk_remaining p) (pk_delivered p)) p). split; [by constructor|].
  destruct phase as [|leg|m|]; [| | |done].
  - cbn -[decide]. by case_decide.
  - cbn -[decide]. rewrite decide_False by by intros [? ?]. rewrite decide_False by (cbn; lia). by case_decide.
  - destruct (conserved_room manifest p i code m HM Hp Hi) as [Hm Hmax].
    destruct (merge_resources_sums (E := E) _ _ Hd Hm Hmax) as (d'&Ed&_). cbn. by rewrite Ed.
Qed.
End Trips.

(** ** Allocation *)

Section Allocation.
Implicit Types (P : gmap string (gmap string Z)) (cs : list (string * list InventoryItem)) (l r : string) (q : Z).

(** What is picked up at one location, and everywhere *)
Definition pick P l r : Z := amount (default ∅ (P !! l)) r.
Definition picked P r : Z := map_sum (λ _ m, amount m r) P.
Definition stock_available cs r : Z := sum_by (λ c : string * list InventoryItem, available_of r c.2) cs.
(** The stock of every candidate is respected, and only candidates are visited. *)
Definition within_stock cs P : Prop :=
  map_Forall (λ l m, stocked m ∧ ∃ items, (l, items) ∈ cs ∧ ∀ r, amount m r ≤ available_of r items) P.

Lemma available_nonneg r items : 0 ≤ available_of r items.
Proof. unfold available_of. lia. Qed.
Lemma stock_nonneg cs r : 0 ≤ stock_available cs r.
Proof.
  unfold stock_available. induction cs as [|c cs IH]; [done|]. rewrite sum_by_cons. pose proof (available_nonneg r c.2). lia.
Qed.

Lemma pick_insert P l r q l' r' :
  pick (insert_pickup l r q P) l' r' = if decide (l = l' ∧ r = r') then q else pick P l' r'.
Proof.
  unfold pick, insert_pickup. destruct (decide (l = l')) as [<-|Hl].
  - rewrite lookup_insert_eq. cbn. rewrite amount_insert. destruct (decide (r = r')); [by rewrite decide_True|]. rewrite decide_False by tauto. done.
  - rewrite lookup_insert_ne, decide_False by tauto. done.
Qed.
Lemma picked_insert P l r q r' :
  picked (insert_pickup l r q P) r' = if decide (r = r') then picked P r' + q - pick P l r' else picked P r'.
Proof.
  unfold picked, insert_pickup. rewrite map_sum_update, amount_insert.
  assert (from_option (λ m, amount m r') 0 (P !! l) = pick P l r') as -> by (unfold pick; destruct (P !! l); cbn; by rewrite ?amount_empty).
  case_decide; [lia|]. unfold pick. lia.
Qed.

(** One resource: it is taken where it is, and what is missing is not there. *)
Lemma take_from_spec all r cs : ∀ remaining avail P rem' avail' P',
  cs ⊆ all → 0 ≤ remaining ≤ i64_max → 0 ≤ avail → NoDup cs.*1 → Forall (λ c : string * list InventoryItem, pick P c.1 r = 0) cs →
  NoDup all.*1 → within_stock all P →
  take_from r cs remaining avail P = (rem', avail', P') →
  rem' = Z.max 0 (remaining - stock_available cs r) ∧ (avail + stock_available cs r ≤ i64_max → avail' = avail + stock_available cs r) ∧
  picked P' r = picked P r + (remaining - rem') ∧ (∀ r', r ≠ r' → picked P' r' = picked P r' ∧ ∀ l, pick P' l r' = pick P l r') ∧
  within_stock all P'.
Proof.
  induction cs as [|[l items] cs IH]; intros remaining avail P rem' avail' P' Hsub Hrem Hav Hnd Hz Hall Hst; cbn [take_from].
  { intros [= <- <- <-]. unfold stock_available, sum_by. simpl. split_and!; try lia; auto. }
  rewrite fmap_cons in Hnd. apply NoDup_cons in Hnd as [Hl Hnd]. apply Forall_cons in Hz as [Hzl Hz]. cbn [fst snd] in *.
  pose proof (available_nonneg r items) as Ha. pose proof (stock_nonneg cs r) as Hs.
  assert (Hcons : stock_available ((l, items) :: cs) r = available_of r items + stock_available cs r)
    by (unfold stock_available; by rewrite sum_by_cons).
  assert (Hsat : 0 ≤ saturating_add_i64 avail (available_of r items) ∧
    (avail + available_of r items ≤ i64_max → saturating_add_i64 avail (available_of r items) = avail + available_of r items))
    by (unfold saturating_add_i64, clamp_i64, i64_min, i64_max; lia).
  destruct Hsat as [Hsat0 Hsat]. rewrite Hcons. intros Htake.
  destruct (bool_decide (remaining = 0) || bool_decide (available_of r items = 0)) eqn:Eb.
  - apply IH in Htake as (H1&H2&H3&H4&H5); [|set_solver|done..].
    apply orb_true_iff in Eb as [Eb|Eb]; apply bool_decide_eq_true in Eb; split_and!; auto; lia.
  - apply orb_false_iff in Eb as [Eb1 Eb2]. apply bool_decide_eq_false in Eb1, Eb2.
    apply IH in Htake as (H1&H2&H3&H4&H5); [|set_solver|lia|done|done| |done|].
    + rewrite picked_insert, decide_True, Hzl in H3 by done. split_and!; try lia; [|done].
      intros r' Hr'. destruct (H4 r' Hr') as [-> H4']. rewrite picked_insert, decide_False by done. split; [done|].
      intros l'. by rewrite H4', pick_insert, decide_False by tauto.
    + apply Forall_forall. intros [l' items'] Hin. rewrite Forall_forall in Hz. rewrite pick_insert, decide_False; [by apply (Hz (l', items'))|].
      intros [-> _]. apply Hl. apply list_elem_of_fmap. by exists (l', items').
    + unfold insert_pickup. apply map_Forall_insert_2; [|done].
      assert (stocked (default ∅ (P !! l)) ∧ ∀ r', amount (default ∅ (P !! l)) r' ≤ available_of r' items) as [Ho1 Ho2].
      { destruct (P !! l) as [m|] eqn:Em; cbn.
        - destruct (Hst _ _ Em) as [Hm (items'&Hin&Hle)]. split; [done|].
          enough (items' = items) as -> by done. assert (Hin2 : (l, items) ∈ all) by set_solver.
          apply list_elem_of_lookup in Hin as [i Hi]. apply list_elem_of_lookup in Hin2 as [j Hj].
          assert (i = j) as -> by (eapply (NoDup_lookup all.*1); [done|by rewrite list_lookup_fmap, Hi|by rewrite list_lookup_fmap, Hj]). congruence.
        - split; [by intros ??|]. intros r'. rewrite amount_empty. apply available_nonneg. }
      split.
      * intros r' q' [[<- <-]|[_ Hq]]%lookup_insert_Some; [lia|by apply Ho1 in Hq].
      * exists items. split; [set_solver|]. intros r'. rewrite amount_insert. case_decide; [subst; lia|done].
Qed.

Lemma allocate_each_spec {E} cs : NoDup cs.*1 → ∀ requested P,
  NoDup requested.*1 → Forall (λ e : string * Z, 0 < e.2 ≤ i64_max) requested →
  (∀ r q l, (r, q) ∈ requested → pick P l r = 0) → (∀ r q, (r, q) ∈ requested → picked P r = 0) → within_stock cs P →
  match allocate_each (E := E) cs requested P with
  | Ok P' => (∀ r, picked P' r = picked P r + amount (list_to_map requested) r) ∧ within_stock cs P' ∧
      (∀ r q, (r, q) ∈ requested → q ≤ stock_available cs r)
  | Err e => ∃ r q, (r, q) ∈ requested ∧ stock_available cs r < q ∧ e = NotFound (Stock r (stock_available cs r) q)
  end.
Proof.
  intros Hcs. induction requested as [|[r q] requested IH]; intros P Hnd Hpos Hpick Hpicked Hst; cbn -[decide].
  { split_and!; [|done|by intros ? ? ?%elem_of_nil]. intros r. rewrite amount_empty. lia. }
  rewrite fmap_cons in Hnd. apply NoDup_cons in Hnd as [Hr Hnd]. apply Forall_cons in Hpos as [Hq Hpos]. cbn [fst snd] in *.
  assert (Hne : ∀ r' q', (r', q') ∈ requested → r ≠ r').
  { intros r' q' Hin <-. apply Hr. apply list_elem_of_fmap. by exists (r, q'). }
  destruct (take_from r cs q 0 P) as [[rem' avail'] P'] eqn:Et.
  apply (take_from_spec cs) in Et as (H1&H2&H3&H4&H5); [|done|lia|lia|done| |done|done].
  2: { apply Forall_forall. intros [l items] _. apply (Hpick r q l). by left. }
  rewrite (Hpicked r q) in H3 by by left. case_decide as Hc.
  - exists r, q. split; [by left|]. split; [lia|]. do 2 f_equal. rewrite H2; lia.
  - specialize (IH P' Hnd Hpos). destruct (allocate_each cs requested P') as [P''|e].
    + destruct IH as (IH1&IH2&IH3); [| |done|].
      * intros r' q' l Hin. destruct (H4 r') as [_ H4']; [by eapply Hne|]. rewrite H4'. eapply Hpick. by right.
      * intros r' q' Hin. destruct (H4 r') as [-> _]; [by eapply Hne|]. eapply Hpicked. by right.
      * split_and!; [|done|intros r' q' [[= -> ->]|Hin]%elem_of_cons; [lia|by eapply IH3]]. intros r'. rewrite IH1, amount_insert. case_decide as E'.
        -- subst r'. unfold amount at 1. rewrite not_elem_of_list_to_map_1 by done. cbn.
           rewrite (Hpicked r q) by by left. lia.
        -- by destruct (H4 r' E') as [-> _].
    + destruct IH as (r'&q'&Hin&?&?); [| |done|].
      * intros r' q' l Hin. destruct (H4 r') as [_ H4']; [by eapply Hne|]. rewrite H4'. eapply Hpick. by right.
      * intros r' q' Hin. destruct (H4 r') as [-> _]; [by eapply Hne|]. eapply Hpicked. by right.
      * exists r', q'. split; [by right|done].
Qed.

Lemma source_in_scope origin destination inventories l items :
  (l, items) ∈ sources origin destination inventories →
  scope_matches origin l = true ∧ eq_ignore_ascii_case l destination = false.
Proof.
  unfold sources. rewrite elem_of_sort_by, list_elem_of_omap. intros (inventory&_&Hat). unfold at_origin in Hat.
  destruct (iv_owner inventory); [done..|]. destruct (scope_matches _ _ && negb _) eqn:Eb; [|done]. simplify_eq.
  by apply andb_true_iff in Eb as [? ?%negb_true_iff].
Qed.
End Allocation.

(** A pickup of at least one transport that ended without a failure delivered its manifest. *)
Lemma ended_pickup {E} pickup transports (p : Pickup E) :
  stocked (rp_resources pickup) → transports ≠ [] → rtc turn (start_pickup pickup transports) p → ended p → pk_failed p = None →
  pk_remaining p = ∅ ∧ pk_delivered p = rp_resources pickup.
Proof.
  intros HM Hne Hrun Hend Hf. destruct Hend as [[e He]|Hret]; [by rewrite Hf in He|].
  pose proof (turns_conserve _ _ _ HM (start_conserved pickup transports HM) Hrun) as Hp.
  apply (returned_delivered _ _ HM Hp); [|done].
  intros E0. apply turns_keep_workers in Hrun. rewrite E0 in Hrun. cbn in Hrun. rewrite length_fmap in Hrun. by destruct transports.
Qed.
Lemma ended_pickup_result {E} pickup transports (p : Pickup E) :
  stocked (rp_resources pickup) → transports ≠ [] → rtc turn (start_pickup pickup transports) p → ended p → pk_failed p = None →
  pickup_result p = Ok (rp_resources pickup).
Proof.
  intros HM Hne Hrun Hend Hf. destruct (ended_pickup pickup transports p) as [Hr Hd]; [done..|].
  unfold pickup_result. by rewrite Hf, Hr, Hd, decide_True.
Qed.

(** ** The properties of a delivery *)

(** C36: the transports of a pickup run their trips at the same time, one turn of any of them
    after the other.  For every manifest of positive quantities and at least one transport: no
    order of turns and no answers make a run infinite; in every state each unit of a resource is
    in the remaining manifest, on exactly one transport, or delivered; as long as the pickup has
    not ended some transport has a turn that does not fail; and when all transports have
    returned the pickup delivers exactly its manifest, so the error that no transport made
    progress cannot occur. *)
Theorem cargo_trips_deliver_everything {E} pickup transports :
  stocked (rp_resources pickup) → transports ≠ [] →
  Acc (λ p' p : Pickup E, turn p p') (start_pickup pickup transports) ∧
  ∀ p : Pickup E, rtc turn (start_pickup pickup transports) p →
    (∀ r, amount (pk_remaining p) r + carried r (pk_workers p) + amount (pk_delivered p) r = amount (rp_resources pickup) r) ∧
    (¬ ended p → ∃ p', turn p p' ∧ pk_failed p' = None) ∧
    (ended p → pk_failed p = None → pickup_result p = Ok (rp_resources pickup)).
Proof.
  intros HM Hne. pose proof (start_conserved (E := E) pickup transports HM) as Hst.
  split; [by eapply conserved_terminates|]. intros p Hrun.
  pose proof (turns_conserve _ _ _ HM Hst Hrun) as Hp. split_and!; [apply Hp| |].
  - intros Hnot. unfold ended in Hnot. eapply willing_turn; [done|done| |tauto].
    destruct (pk_failed p); [exfalso; apply Hnot; left; by eexists|done].
  - intros Hend Hf. by eapply ended_pickup_result.
Qed.

Lemma pickup_success {E} pickup transports (p : Pickup E) delivered :
  stocked (rp_resources pickup) → transports ≠ [] → rtc turn (start_pickup pickup transports) p → ended p →
  pickup_result p = Ok delivered → delivered = rp_resources pickup.
Proof.
  intros HM Hne Hrun Hend Hr. destruct (pk_failed p) eqn:Hf; [unfold pickup_result in Hr; by rewrite Hf in Hr|].
  rewrite (ended_pickup_result pickup transports) in Hr by done. by simplify_eq.
Qed.

Definition pickup_amount (r : string) (pickup : ResourcePickup) : Z := amount (rp_resources pickup) r.
Lemma pickup_amounts_nonneg r pickups : Forall (λ p, stocked (rp_resources p)) pickups → 0 ≤ sum_by (pickup_amount r) pickups.
Proof.
  induction 1 as [|p pickups Hp _ IH]; [done|]. rewrite sum_by_cons. pose proof (amount_stocked _ r Hp). unfold pickup_amount at 1. lia.
Qed.
Lemma deliver_each_sums {E} transports pickups delivered (r : result (TransportError E) ResourceMap) :
  deliver_each transports pickups delivered r → transports ≠ [] → Forall (λ p, stocked (rp_resources p)) pickups → stocked delivered →
  (∀ res, amount delivered res + sum_by (pickup_amount res) pickups ≤ i64_max) →
  ∀ total, r = Ok total → stocked total ∧ ∀ res, amount total res = amount delivered res + sum_by (pickup_amount res) pickups.
Proof.
  induction 1 as [delivered|? ? ? ? ? ? ? ?|? ? ? ? ? ? ? ? ? ?|pickup pickups delivered p delivered' total r Hrun Hend Hres Hmerge _ IH];
    intros Hne Hps Hd Hmax; try done.
  { intros total [= <-]. split; [done|]. intros res. unfold sum_by. simpl. lia. }
  apply Forall_cons in Hps as [Hp Hps]. apply (pickup_success pickup transports) in Hres as ->; [|done..].
  destruct (merge_resources_sums (E := E) delivered (rp_resources pickup) Hd Hp) as (d'&Hm&Ham&Hsd).
  { intros res. specialize (Hmax res). rewrite sum_by_cons in Hmax. pose proof (pickup_amounts_nonneg res pickups Hps). unfold pickup_amount at 1 in Hmax. lia. }
  rewrite Hm in Hmerge. simplify_eq. intros total' ->. destruct (IH Hne Hps Hsd) with (total := total') as [H1 H2]; [|done|].
  - intros res. specialize (Hmax res). rewrite sum_by_cons in Hmax. rewrite Ham. unfold pickup_amount at 1 in Hmax. lia.
  - split; [done|]. intros res. rewrite H2, Ham, sum_by_cons. unfold pickup_amount at 2. lia.
Qed.

Lemma pickups_of (P : gmap string ResourceMap) r :
  sum_by (pickup_amount r) ((λ e : string * ResourceMap, {| rp_location := e.1; rp_resources := e.2 |}) <$> entries P) = picked P r.
Proof.
  unfold picked. rewrite <-(sum_by_entries (λ _ m, amount m r)). unfold sum_by. rewrite <-list_fmap_compose. done.
Qed.
Lemma requested_entries (requested : ResourceMap) :
  stocked requested → NoDup (entries requested).*1 ∧ Forall (λ e : string * Z, 0 < e.2 ≤ i64_max) (entries requested).
Proof.
  intros Hr. split; [apply entries_map|]. apply Forall_forall. intros [r q] Hq%elem_of_entries. by apply Hr in Hq.
Qed.

(** The allocation of a request to the stock of its origin, when the inventories name each
    location once.  It succeeds exactly when the locations in scope, the destination apart,
    hold enough of every resource; the pickups then ask for exactly the requested quantities,
    each at a location in scope and within what that location holds.  Otherwise it names a
    resource that is short, with the stock that was found. *)
Lemma allocation_spec {E} origin destination requested inventories :
  stocked requested → NoDup (sources origin destination inventories).*1 →
  match allocate_resources (E := E) origin destination requested inventories with
  | Ok pickups =>
      (∀ r, sum_by (pickup_amount r) pickups = amount requested r) ∧
      (∀ r q, requested !! r = Some q → q ≤ stock_available (sources origin destination inventories) r) ∧
      Forall (λ p, stocked (rp_resources p) ∧ scope_matches origin (rp_location p) = true ∧
        eq_ignore_ascii_case (rp_location p) destination = false ∧
        ∃ items, (rp_location p, items) ∈ sources origin destination inventories ∧ ∀ r, pickup_amount r p ≤ available_of r items) pickups
  | Err e => ∃ r q, requested !! r = Some q ∧ stock_available (sources origin destination inventories) r < q ∧
      e = NotFound (Stock r (stock_available (sources origin destination inventories) r) q)
  end.
Proof.
  intros Hreq Hnd. unfold allocate_resources. case_decide as E0.
  { subst. split_and!; [intros r; by rewrite amount_empty|intros r q; by rewrite lookup_empty|done]. }
  destruct (requested_entries requested Hreq) as [Hk Hpos]. destruct (entries_map requested) as [_ Hm].
  assert (Hspec := allocate_each_spec (E := E) (sources origin destination inventories) Hnd (entries requested) ∅ Hk Hpos).
  destruct (allocate_each _ _ ∅) as [P|e]; cbn.
  - destruct Hspec as (Hsum&Hst&Hen); [by intros; unfold pick; rewrite lookup_empty; apply amount_empty|done|by intros ??|].
    assert (Hsum' : ∀ r, picked P r = amount requested r) by (intros r; rewrite Hsum, Hm; unfold picked; rewrite map_sum_empty; lia).
    split_and!; [intros r; by rewrite pickups_of| |].
    + intros r q Hq. apply Hen. by apply elem_of_entries.
    + apply Forall_fmap, Forall_forall. intros [l m] Hlm%elem_of_entries. destruct (Hst _ _ Hlm) as [Hs (items&Hin&Hle)]. cbn.
      destruct (source_in_scope _ _ _ _ _ Hin) as [? ?]. split_and!; [done..|]. by exists items.
  - destruct Hspec as (r&q&Hin&Hlt&->); [by intros; unfold pick; rewrite lookup_empty; apply amount_empty|done|by intros ??|].
    exists r, q. apply elem_of_entries in Hin. done.
Qed.
Lemma allocation_sound {E} origin destination requested inventories pickups :
  stocked requested → NoDup (sources origin destination inventories).*1 →
  allocate_resources (E := E) origin destination requested inventories = Ok pickups →
  (∀ r, sum_by (pickup_amount r) pickups = amount requested r) ∧ Forall (λ p, stocked (rp_resources p)) pickups.
Proof.
  intros Hreq Hnd Hal. pose proof (allocation_spec (E := E) origin destination requested inventories Hreq Hnd) as H. rewrite Hal in H.
  destruct H as (H1&_&H3). split; [done|]. eapply Forall_impl; [exact H3|]. by intros p [? _].
Qed.

Lemma conserved_run {E} manifest (p : Pickup E) :
  stocked manifest → conserved manifest p → pk_failed p = None → ∃ p', rtc turn p p' ∧ ended p' ∧ pk_failed p' = None.
Proof.
  intros HM Hp Hf. pose proof (conserved_terminates _ _ HM Hp) as Hacc. induction Hacc as [p _ IH].
  destruct (decide (Forall returned (pk_workers p))) as [Hret|Hnot]; [exists p; split_and!; [done|by right|done]|].
  destruct (willing_turn _ _ HM Hp Hf Hnot) as (p'&Ht&Hf').
  destruct (IH p' Ht) as (p''&H1&H2&H3); [by eapply turn_conserves|done|]. exists p''. split_and!; [by eapply rtc_l|done..].
Qed.
Lemma deliver_each_possible {E} transports pickups : transports ≠ [] → Forall (λ p, stocked (rp_resources p)) pickups → ∀ delivered, stocked delivered →
  (∀ res, amount delivered res + sum_by (pickup_amount res) pickups ≤ i64_max) →
  ∃ total, deliver_each (E := E) transports pickups delivered (Ok total).
Proof.
  intros Hne. induction 1 as [|pickup pickups Hp Hps IH]; intros delivered Hd Hmax; [exists delivered; constructor|].
  pose proof (start_conserved (E := E) pickup transports Hp) as Hst.
  destruct (conserved_run _ _ Hp Hst eq_refl) as (p&Hrun&Hend&Hf).
  pose proof (ended_pickup_result pickup transports p Hp Hne Hrun Hend Hf) as Hres.
  destruct (merge_resources_sums (E := E) delivered (rp_resources pickup) Hd Hp) as (d'&Hm&Ham&Hsd).
  { intros res. specialize (Hmax res). rewrite sum_by_cons in Hmax. pose proof (pickup_amounts_nonneg res pickups Hps). unfold pickup_amount at 1 in Hmax. lia. }
  destruct (IH d' Hsd) as [total Ht].
  { intros res. specialize (Hmax res). rewrite sum_by_cons in Hmax. rewrite Ham. unfold pickup_amount at 1 in Hmax. lia. }
  exists total. by eapply deliver_next.
Qed.


(** ** Identities *)

Lemma append_inj (a a' b b' : string) :
  String.length a = String.length a' → a +:+ b = a' +:+ b' → a = a' ∧ b = b'.
Proof.
  revert a'. induction a as [|c a IH]; intros [|c' a'] Hl H; simplify_eq/=; [done|]. destruct (IH a') as [-> ->]; auto.
Qed.
Lemma append_assoc (a b c : string) : (a +:+ b) +:+ c = a +:+ (b +:+ c).
Proof. induction a as [|x a IH]; [done|]. change (String.String x ((a +:+ b) +:+ c) = String.String x (a +:+ (b +:+ c))). by rewrite IH. Qed.
Lemma le_bytes_length n z : String.length (le_bytes n z) = n.
Proof. revert z. induction n as [|n IH]; intros z; cbn; [done|]. by rewrite IH. Qed.
Lemma le_bytes_inj n : ∀ z z', 0 ≤ z < 256 ^ Z.of_nat n → 0 ≤ z' < 256 ^ Z.of_nat n → le_bytes n z = le_bytes n z' → z = z'.
Proof.
  induction n as [|n IH]; intros z z' Hz Hz'; [cbn in *; lia|].
  rewrite Nat2Z.inj_succ, Z.pow_succ_r in * by lia. cbn [le_bytes]. intros [= Hb Hrest].
  apply IH in Hrest; [|split; [apply Z.div_pos; lia|apply Z.div_lt_upper_bound; lia]..].
  apply (f_equal Ascii.N_of_ascii) in Hb. pose proof (Z.mod_pos_bound z 256 ltac:(lia)). pose proof (Z.mod_pos_bound z' 256 ltac:(lia)).
  rewrite !Ascii.N_ascii_embedding in Hb by (apply N2Z.inj_lt; rewrite Z2N.id by lia; change (Z.of_N 256) with 256; lia).
  apply Z2N.inj in Hb; [|lia..]. rewrite (Z.div_mod z 256), (Z.div_mod z' 256) by lia. by rewrite Hrest, Hb.
Qed.

(** A [usize] length fits the prefix. *)
Definition short (component : string) : Prop := Z.of_nat (String.length component) < 2 ^ 64.
Lemma operation_name_inj cs : ∀ cs', length cs = length cs' → Forall short cs → Forall short cs' → operation_name cs = operation_name cs' → cs = cs'.
Proof.
  induction cs as [|c cs IH]; intros [|c' cs'] Hl Hs Hs' H; try done. injection Hl as Hl.
  apply Forall_cons in Hs as [Hc Hs]. apply Forall_cons in Hs' as [Hc' Hs'].
  change (length_prefixed c +:+ operation_name cs = length_prefixed c' +:+ operation_name cs') in H.
  unfold length_prefixed in H. rewrite !append_assoc in H.
  apply append_inj in H as [Hp H]; [|by rewrite !le_bytes_length].
  apply le_bytes_inj in Hp; [|split; [lia|exact Hc]|split; [lia|exact Hc']].
  apply append_inj in H as [-> H]; [|lia]. f_equal. by apply IH.
Qed.

(** The name an operation identity is derived from is unambiguous: two mutations have the
    same name exactly when their canonical action, target, destination and payload are the
    same, whatever characters the components contain. *)
Lemma operation_name_is_unambiguous action target destination payload action' target' destination' payload' :
  Forall short (canonical_components action target destination payload) →
  Forall short (canonical_components action' target' destination' payload') →
  operation_name (canonical_components action target destination payload)
    = operation_name (canonical_components action' target' destination' payload') ↔
  canonical_components action target destination payload = canonical_components action' target' destination' payload'.
Proof. intros Hs Hs'. split; [by apply operation_name_inj|by intros ->]. Qed.

(** Of one resource a transport takes a full load as long as there is one. *)
Lemma entries_singleton r q : entries ({[r := q]} : gmap string Z) = [(r, q)].
Proof. unfold entries. by rewrite map_to_list_singleton. Qed.
Lemma take_manifest_full r q capacity : 0 < capacity → capacity ≤ q → take_manifest {[r := q]} capacity = {[r := capacity]}.
Proof.
  intros Hc Hq. unfold take_manifest. rewrite entries_singleton. cbn -[decide]. rewrite decide_False by lia.
  rewrite decide_True by lia. by replace (Z.min q (Z.max 0 capacity)) with capacity by lia.
Qed.
Lemma subtract_full r q capacity :
  0 < capacity < q → q ≤ i64_max → subtract_resources {[r := q]} {[r := capacity]} = {[r := q - capacity]}.
Proof.
  intros Hc Hq. unfold subtract_resources. rewrite entries_singleton. cbn -[decide]. unfold subtract_entry. cbn [fst snd]. rewrite lookup_singleton_eq.
  replace (saturating_sub_i64 q capacity) with (q - capacity) by (unfold saturating_sub_i64, clamp_i64, i64_min, i64_max in *; lia).
  rewrite decide_False by lia. by rewrite insert_singleton_eq.
Qed.

(** C37: a delivery with an operation namespace cannot make the same journey twice.  A pickup of
    two full loads of one resource makes its transport reserve the same manifest on its second
    trip; the journey to the destination then has the identity of the first, and once the first
    left the prepared state the journal answers the second with it, and sends and records
    nothing. *)
Theorem second_load_is_never_sent `{JN : JsonNumber} env (from_value : Value → result string MutationAdapter.t)
    (from_str : string → option Value) new_v5 namespace code origin destination via resource quantity capacity intent id row w :
  let command := MutationAdapter.DeviceCommand code (DeviceCommand.Travel destination None via) in
  let first := take_manifest {[resource := quantity]} capacity in
  let second := take_manifest (subtract_resources {[resource := quantity]} first) capacity in
  let travel manifest := dispatch_transport_travel from_value from_str new_v5 (Some namespace) code destination (Some origin)
                           (format_resources manifest) via in
  0 < capacity → 2 * capacity ≤ quantity ≤ i64_max →
  travel_identity new_v5 (Some namespace) code destination (Some origin) (format_resources first) = Some id →
  env_open env = true → intent_of command = Ok intent →
  st_rows (w_store w) !! id = Some row → oj_state (jr_entry row) ≠ "prepared" → oj_intent (jr_entry row) = intent →
  (oj_target_realm (jr_entry row), oj_target_kind (jr_entry row), oj_target_id (jr_entry row)) = target_columns command →
  second = first ∧ second ≠ ∅ ∧ run env (travel second) w = (Ok id, w).
Proof.
  intros command first second travel Hc Hq Hid Hopen Hintent Hrow Hst Hi Ht.
  assert (Hfirst : first = {[resource := capacity]}) by (apply take_manifest_full; lia).
  assert (Hsecond : second = first).
  { unfold second. rewrite Hfirst, subtract_full by lia. apply take_manifest_full; lia. }
  split_and!; [done|rewrite Hsecond, Hfirst; apply map_non_empty_singleton|].
  unfold travel, dispatch_transport_travel. rewrite Hsecond, Hid. fold command.
  rewrite (create_reuses_identity env from_value from_str command id intent row w) by done. by rewrite decide_True.
Qed.

(** ** Selection *)

(** Comparisons that are total preorders; their lexicographic composition is one. *)
Class Ordering {A} (cmp : A → A → comparison) := {
  cmp_antisym : ∀ x y, cmp y x = CompOpp (cmp x y);
  cmp_trans : ∀ x y z, cmp x y ≠ Gt → cmp y z ≠ Gt → cmp x z ≠ Gt;
}.
#[global] Arguments cmp_antisym {A} cmp {_} x y.
#[global] Arguments cmp_trans {A} cmp {_} x y z _ _.
#[global] Instance ordering_total {A} (cmp : A → A → comparison) `{!Ordering cmp} : TotalLeb (leb_of cmp).
Proof.
  assert (Hl : ∀ x y, leb_of cmp x y = true ↔ cmp x y ≠ Gt) by (intros x y; unfold leb_of; by destruct (cmp x y)).
  split.
  - intros x y. rewrite !Hl, (cmp_antisym cmp x y). destruct (cmp x y); [by left|by left|by right].
  - intros x y z. rewrite !Hl. apply (cmp_trans cmp).
Qed.
Lemma ordering_lt {A} (cmp : A → A → comparison) `{!Ordering cmp} x y z :
  cmp x y ≠ Gt → cmp y z ≠ Gt → cmp x y = Lt ∨ cmp y z = Lt → cmp x z = Lt.
Proof.
  intros Hxy Hyz Hlt. pose proof (cmp_trans cmp x y z Hxy Hyz) as Hxz. destruct (cmp x z) eqn:E; [exfalso|done|done].
  assert (Hzx : cmp z x ≠ Gt) by (rewrite (cmp_antisym cmp x z), E; done).
  pose proof (cmp_trans cmp z x y Hzx Hxy) as Hzy. pose proof (cmp_trans cmp y z x Hyz Hzx) as Hyx.
  rewrite (cmp_antisym cmp y z) in Hzy. rewrite (cmp_antisym cmp x y) in Hyx. destruct Hlt as [Hlt|Hlt]; rewrite Hlt in *; done.
Qed.
#[global] Instance ordering_lex {A} (f g : A → A → comparison) `{!Ordering f, !Ordering g} : Ordering (λ x y, lex (f x y) (g x y)).
Proof.
  split.
  - intros x y. rewrite (cmp_antisym f x y), (cmp_antisym g x y). by destruct (f x y).
  - intros x y z Hxy Hyz.
    assert (Hfxy : f x y ≠ Gt) by (by destruct (f x y)). assert (Hfyz : f y z ≠ Gt) by (by destruct (f y z)).
    pose proof (cmp_trans f x y z Hfxy Hfyz) as Hfxz. destruct (f x z) eqn:E; [|done|done]. cbn.
    destruct (f x y) eqn:E1, (f y z) eqn:E2; try done.
    + by eapply (cmp_trans g).
    + by rewrite (ordering_lt f x y z) in E by (rewrite ?E1, ?E2; auto).
    + by rewrite (ordering_lt f x y z) in E by (rewrite ?E1, ?E2; auto).
    + by rewrite (ordering_lt f x y z) in E by (rewrite ?E1, ?E2; auto).
Qed.
#[global] Instance ordering_Z {A} (key : A → Z) : Ordering (λ x y, key x ?= key y).
Proof.
  split; [intros; apply Z.compare_antisym|]. intros x y z. rewrite !Z.compare_gt_iff. lia.
Qed.
#[global] Instance ordering_string {A} (key : A → string) : Ordering (λ x y, String.compare (key x) (key y)).
Proof.
  split; [intros; apply String.compare_antisym|]. intros x y z Hxy Hyz E.
  assert (Hle : ∀ a b, String.compare a b ≠ Gt ↔ String.leb a b = true) by (intros a b; unfold String.leb; by destruct (String.compare a b)).
  rewrite Hle in *. pose proof (leb_trans (leb := String.leb) _ _ _ Hxy Hyz) as H. apply Hle in H. done.
Qed.
#[global] Instance ordering_candidates kind demand : Ordering (candidate_cmp kind demand).
Proof. unfold candidate_cmp. apply _. Qed.

Section Selection.
Context {E : Type} (detail : string → result E DeviceDetail).
Context (demand : Z) (kind : CapacityKind) (preference : option CarrierPreference) (transport_limit : nat).
Implicit Types (c : TransportCandidate) (selected : list string).

(** A transport a selection may use: an empty hold and no controller, where cargo is carried. *)
Definition usable c : Prop :=
  kind = Cargo → ∃ d, detail (tc_code c) = Ok d ∧ dd_controller_device_code d = None ∧ cargo_map d = ∅.
Definition limit_of : nat := match preference with Some p => cp_quantity p | None => Nat.max transport_limit 1 end.

(** The outcome of the loop: what it chose of the eligible, in order and within the limit; a
    remote transport only as the first, when nothing before it could be used. *)
Definition selects (eligible : list TransportCandidate) selected (out : list string) : Prop :=
  ∃ chosen, out = selected ++ (tc_code <$> chosen) ∧ chosen `sublist_of` eligible ∧ Forall usable chosen ∧
    (chosen ≠ [] → length out ≤ limit_of)%nat ∧
    (preference = None → selected ≠ [] → Forall (λ c, remote c = false) chosen) ∧
    (∀ c cs, preference = None → selected = [] → chosen = c :: cs →
       Forall (λ c, remote c = false) cs ∧ ∃ before after, eligible = before ++ c :: after ∧ Forall (λ c, ¬ usable c) before).

Lemma select_each_spec eligible : ∀ selected capacity out,
  select_each detail demand kind preference transport_limit eligible selected capacity = Ok out →
  selects eligible selected out.
Proof.
  induction eligible as [|c eligible IH]; intros selected capacity out; cbn [select_each].
  { intros [= <-]. exists []. rewrite app_nil_r. split_and!; done. }
  destruct (bool_decide (preference = None) && negb (bool_decide (selected = [])) && remote c) eqn:Estop.
  { intros [= <-]. exists []. rewrite app_nil_r. split_and!; try done. apply sublist_nil_l. }
  destruct (enough demand preference transport_limit selected capacity) eqn:Een.
  { intros [= <-]. exists []. rewrite app_nil_r. split_and!; try done. apply sublist_nil_l. }
  assert (Hlen : (S (length selected) ≤ limit_of)%nat).
  { unfold enough, limit_of in *. destruct preference as [p|].
    - apply bool_decide_eq_false in Een. lia.
    - apply andb_false_iff in Een as [Een|Een].
      + apply negb_false_iff, bool_decide_eq_true in Een as ->. cbn. lia.
      + apply orb_false_iff in Een as [_ Een]. apply bool_decide_eq_false in Een. lia. }
  assert (Hlocal : preference = None → selected ≠ [] → remote c = false).
  { intros Hp Hs. rewrite bool_decide_true, bool_decide_false in Estop by done. exact Estop. }
  assert (Htake : ∀ out, select_each detail demand kind preference transport_limit eligible (selected ++ [tc_code c])
      (saturating_add_i64 capacity (capacity_of kind c)) = Ok out → usable c →
    selects (c :: eligible) selected out).
  { intros out' Hout Hu. apply IH in Hout as (chosen&->&Hsub&Hall&Hlim&Hloc&_). exists (c :: chosen).
    split_and!; [by rewrite <-app_assoc|by apply sublist_skip|by constructor| | |].
    - intros _. destruct chosen; [rewrite !length_app; cbn [length fmap list_fmap]; lia|by apply Hlim].
    - intros Hp Hs. constructor; [auto|]. apply Hloc; [done|]. by destruct selected.
    - intros c0 cs Hp Hs [= <- <-]. split; [apply Hloc; [done|by destruct selected]|]. by exists [], eligible. }
  assert (Hskip : ∀ out, select_each detail demand kind preference transport_limit eligible selected capacity = Ok out → ¬ usable c →
    selects (c :: eligible) selected out).
  { intros out' Hout Hu. apply IH in Hout as (chosen&->&Hsub&Hall&Hlim&Hloc&Hfirst). exists chosen.
    split_and!; [done|by apply sublist_cons|done..|]. intros c0 cs Hp Hs Hch.
    destruct (Hfirst c0 cs Hp Hs Hch) as [? (before&after&->&Hb)]. split; [done|]. exists (c :: before), after. split; [done|by constructor]. }
  destruct kind eqn:Ek; [|intros Hout; apply (Htake out Hout); unfold usable; by rewrite Ek].
  destruct (detail (tc_code c)) as [d|error] eqn:Ed; [|done].
  destruct (bool_decide (is_Some (dd_controller_device_code d)) || negb (bool_decide (cargo_map d = ∅))) eqn:Eu; intros Hout.
  - apply (Hskip out Hout). intros (d'&Ed'&Hc&Hm); [done|]. rewrite Ed in Ed'. simplify_eq.
    apply orb_true_iff in Eu as [Eu|Eu]; [apply bool_decide_eq_true in Eu; rewrite Hc in Eu; by destruct Eu|].
    by apply negb_true_iff, bool_decide_eq_false in Eu.
  - apply (Htake out Hout). intros _. exists d. apply orb_false_iff in Eu as [Eu1 Eu2].
    apply bool_decide_eq_false in Eu1. apply negb_false_iff, bool_decide_eq_true in Eu2.
    split_and!; [done| |done]. by apply eq_None_not_Some.
Qed.
End Selection.

Lemma remote_sorted kind demand c cs c' :
  StronglySorted (λ x y, leb_of (candidate_cmp kind demand) x y = true) (c :: cs) → remote c = true → c' ∈ cs → remote c' = true.
Proof.
  intros Hs Hc Hin. apply StronglySorted_inv in Hs as [_ Hall]. rewrite Forall_forall in Hall. specialize (Hall c' Hin).
  unfold leb_of, candidate_cmp in Hall. rewrite Hc in Hall. by destruct (remote c').
Qed.
Lemma suffix_sorted {A} (R : A → A → Prop) l k : StronglySorted R (l ++ k) → StronglySorted R k.
Proof. induction l as [|x l IH]; [done|]. intros Hs. apply IH. by apply StronglySorted_inv in Hs as [? _]. Qed.

Lemma sublist_codes {A B} (f : A → B) l k : l `sublist_of` k → (f <$> l) `sublist_of` (f <$> k).
Proof. induction 1; cbn; by constructor. Qed.
Lemma sublist_kept {A} (p : A → bool) l : List.filter p l `sublist_of` l.
Proof. induction l as [|x l IH]; cbn; [done|]. destruct (p x); by constructor. Qed.


(** ** Concrete deliveries *)

Section Examples.
#[local] Existing Instance integer_numbers.

Definition iron (quantity : Z) : ResourceMap := {["iron" := quantity]}.
Definition at_belt : ResourcePickup := {| rp_location := "SOL-BELT-1"; rp_resources := iron 30 |}.

Lemma iron_stocked quantity : 0 < quantity ≤ i64_max → stocked (iron quantity).
Proof. intros Hq. by apply map_Forall_singleton. Qed.

Lemma cargo_trips_deliver_everything_witness :
  stocked (iron 30) ∧ Acc (λ p' p : Pickup unit, turn p p') (start_pickup at_belt ["T1"; "T2"]) ∧
  (ended (start_pickup (E := unit) at_belt ["T1"; "T2"]) → pickup_result (start_pickup (E := unit) at_belt ["T1"; "T2"]) = Ok (iron 30)).
Proof.
  assert (stocked (iron 30)) as Hs by (apply iron_stocked; unfold i64_max; lia).
  destruct (cargo_trips_deliver_everything (E := unit) at_belt ["T1"; "T2"] Hs ltac:(done)) as [H1 H2].
  split_and!; [done|done|]. intros Hend. by apply (H2 _ (rtc_refl _ _)).
Defined.

Definition stock_at (location : string) (quantity : Z) : Inventory :=
  {| iv_owner := OfLocation {| wk_realm := Live; wk_id := location |}; iv_location := None;
     iv_items := [{| ii_resource := "Iron"; ii_quantity := quantity |}] |}.
Definition sol_stock : list Inventory := [stock_at "SOL-3" 100; stock_at "SOL-BELT-1" 20; stock_at "SOL-4" 50].


(** When the inventories name a location twice, the second entry takes the place of the first
    and the plan falls short. *)
Lemma split_stock_loses_units :
  ∃ pickups, allocate_resources (E := unit) "SOL" "SOL-3" (iron 30) [stock_at "SOL-4" 20; stock_at "SOL-4" 20] = Ok pickups ∧
    sum_by (pickup_amount "iron") pickups = 10.
Proof. eexists. split; reflexivity. Qed.

Definition namespaced (namespace name : string) : string := namespace +:+ name.
Definition to_earth : MutationAdapter.t := MutationAdapter.DeviceCommand "T1" (DeviceCommand.Travel "SOL-3" None None).
Definition to_earth_intent : Value := match intent_of to_earth with Ok v => v | Err _ => Null end.
Definition decode_to_earth (v : Value) : result string MutationAdapter.t := Ok to_earth.
Definition no_text (_ : string) : option Value := None.
Definition accepting : Environment :=
  {| env_open := true; env_uuid := λ _, "uuid"; env_submit := λ _ _, Ok Null; env_refresh_devices := true;
     env_device := λ _, None; env_replicant := λ _, None |}.
Definition first_identity : string :=
  default "" (travel_identity namespaced (Some "workflow:") "T1" "SOL-3" (Some "SOL-BELT-1") (format_resources (iron 10))).
Definition first_journey : Prog string :=
  dispatch_transport_travel decode_to_earth no_text namespaced (Some "workflow:") "T1" "SOL-3" (Some "SOL-BELT-1") (format_resources (iron 10)) None.
Definition delivered_once : World := (run accepting first_journey empty_world).2.
Definition first_row : JournalRow := default (new_row to_earth to_earth_intent 0) (st_rows (w_store delivered_once) !! first_identity).

Lemma first_lookup : st_rows (w_store delivered_once) !! first_identity = Some first_row.
Proof. reflexivity. Qed.
Lemma first_awaits : oj_state (jr_entry first_row) = "awaiting_evidence".
Proof. reflexivity. Qed.
Lemma first_intent : oj_intent (jr_entry first_row) = to_earth_intent.
Proof. reflexivity. Qed.
Lemma first_target :
  (oj_target_realm (jr_entry first_row), oj_target_kind (jr_entry first_row), oj_target_id (jr_entry first_row)) = target_columns to_earth.
Proof. reflexivity. Qed.
Lemma first_dispatched : run accepting first_journey empty_world = (Ok first_identity, delivered_once).
Proof. reflexivity. Qed.

Lemma second_load_is_never_sent_witness :
  run accepting first_journey empty_world = (Ok first_identity, delivered_once) ∧
  run accepting (dispatch_transport_travel decode_to_earth no_text namespaced (Some "workflow:") "T1" "SOL-3" (Some "SOL-BELT-1")
    (format_resources (take_manifest (subtract_resources {["iron" := 30]} (take_manifest {["iron" := 30]} 10)) 10)) None) delivered_once
  = (Ok first_identity, delivered_once).
Proof.
  split; [exact first_dispatched|].
  assert (travel_identity namespaced (Some "workflow:") "T1" "SOL-3" (Some "SOL-BELT-1")
    (format_resources (take_manifest {["iron" := 30]} 10)) = Some first_identity) as Hid by (by rewrite take_manifest_full by lia).
  assert (10 * 2 ≤ 30 ≤ i64_max) as Hq by (unfold i64_max; lia).
  assert (oj_state (jr_entry first_row) ≠ "prepared") as Hstate by by rewrite first_awaits.
  exact (proj2 (proj2 (second_load_is_never_sent accepting decode_to_earth no_text namespaced "workflow:" "T1" "SOL-BELT-1" "SOL-3" None
           "iron" 30 10 to_earth_intent first_identity first_row delivered_once
           eq_refl Hq Hid eq_refl eq_refl first_lookup Hstate first_intent first_target))).
Defined.

Definition hull (code : string) (rank capacity : Z) : TransportCandidate :=
  {| tc_code := code; tc_device_type := "freighter"; tc_location := "SOL-4"; tc_origin_rank := rank;
     tc_cargo_capacity := capacity; tc_attach_capacity := 0 |}.
Definition empty_hold (_ : string) : result unit DeviceDetail :=
  Ok {| dd_controller_device_code := None; dd_cargo := []; dd_cargo_capacity := Some 10 |}.

End Examples.
