(* ===== verification/EventPlanner.v ===== *)
(** * The event planner

    [crates/replicant-event-planner/src/lib.rs]: the open-shaped description of a
    civilisation event, what is still missing at its body, and for each way to complete it
    the devices that are reused or printed, the transports, the beacon, the print schedule
    and the verdict. *)

From stdpp Require Import pretty.
From S2P Require Import Prelude Float64 Json Printing MiningPlanner BootstrapPlanner.

Module Events.
Import Mining Bootstrap.

Definition MAX_TAG_CHARACTERS : nat := 32.
Definition CARGO_FREIGHTER : string := "cargo_freighter".
Definition SURGE_CARRIER : string := "surge_carrier".
Definition FTL_BEACON : string := "ftl_beacon".

Abbreviation ResourceMap := (gmap string Z).

(** ** Data *)

Record DeviceRequirement := { dr_device_type : string; dr_count : Z (* i64 *) }.

Record EventCriterion := {
  ec_name : string;
  ec_resources : ResourceMap;
  ec_devices : list DeviceRequirement;
}.

Record EventRewards := {
  er_resources : ResourceMap;
  er_xp : option Z;
  er_civilisation_points : option Z;
  er_completion_achievement : option string;
}.
Definition default_rewards : EventRewards :=
  {| er_resources := ∅; er_xp := None; er_civilisation_points := None; er_completion_achievement := None |}.

Record EventDefinition `{JN : JsonNumber} := {
  ed_designation : string;
  ed_location : string;
  ed_title : string;
  ed_description : option string;
  ed_event_type : option string;
  ed_tier : option Z;
  ed_status : option string;
  ed_criteria : list EventCriterion;
  ed_progress : option Value;
  ed_rewards : EventRewards;
}.

Record OpenEventFields `{JN : JsonNumber} := {
  of_designation : string;
  of_location : string;
  of_title : string;
  of_description : option string;
  of_event_type : option string;
  of_tier : option Z;
  of_status : option string;
  of_criteria : list Object_;
  of_progress : option Object_;
  of_rewards : option Object_;
}.

Record BlueprintSpec := {
  eb_device_type : string;
  eb_print_time_seconds : F64.t;
  eb_cargo_capacity : Z;
  eb_attach_capacity : Z;
  eb_stow_capacity : Z;
  eb_resources : ResourceMap;
  eb_components : gmap string Z;
  eb_features : gset string;
}.

Record DeviceStock := {
  ds_code : string;
  ds_device_type : string;
  ds_status : option string;
  ds_location : option string;
  ds_assigned_replicant : option string;
  ds_tags : gset string;
  ds_cargo_capacity : Z;
  ds_attach_capacity : Z;
  ds_attach_used : Z;
  ds_attached_to_device_code : option string;
  ds_stowed_in_device_code : option string;
  ds_controlled_by_ami : bool;
  ds_travelling : bool;
}.

Record PrintUnit := { pu_device_type : string; pu_duration_seconds : F64.t }.

Record SelectedTransport := {
  st_code : string;
  st_device_type : string;
  st_capacity : Z;
  st_must_print : bool;
}.

Record TransportPlan := {
  tp_transports : list SelectedTransport;
  tp_capacity_per_trip : Z;
  tp_inbound_trips : Z;
  tp_outbound_trips : Z;
}.
Definition no_transport : TransportPlan :=
  {| tp_transports := []; tp_capacity_per_trip := 0; tp_inbound_trips := 0; tp_outbound_trips := 0 |}.

Inductive BeaconAction := AlreadyActive | DeployExisting | TransportExisting | PrintAndTransport | Unavailable.
#[global] Instance BeaconAction_eq : EqDecision BeaconAction.
Proof. solve_decision. Defined.

Inductive Recommendation :=
| Fastest | LowestManufacturingCost | LowestRareResourceUse | FewestPrints | FewestTrips | UsesExistingStockBest.
#[global] Instance Recommendation_eq : EqDecision Recommendation.
Proof. solve_decision. Defined.

(** The text of [InvalidEvent] is a structured reason.  [Panicked] is a panic: an [i64]
    addition out of range in a build with overflow checks, or the capacity of a trip that
    is not positive.  [OutOfFuel] is the bound of the expansion of blueprints. *)
Inductive InvalidReason :=
| EmptyDesignation
| EmptyLocation
| NoCriteria (designation : string)
| CriterionNotPresent (criterion designation : string)
| DevicesNotArray
| DeviceNotObject
| DeviceTypeMissing.

Inductive PlannerError :=
| InvalidEvent (reason : InvalidReason)
| MissingBlueprint (device_type : string)
| ComponentCycle (device_type : string)
| NoAutofactory
| InvalidTransportBlueprint (device_type capacity_kind : string)
| Panicked
| OutOfFuel.

Abbreviation eres := (result PlannerError).

(** The messages of a plan, with the data they show. *)
Inductive Message :=
| BeaconBlueprintLocked
| BeaconSkipped (error : PlannerError)
| BeaconWithoutAutofactory
| HomeShort (shortages : ResourceMap)
| BeaconShort (shortages : ResourceMap)
| Failed (error : PlannerError).

Record BeaconPlan := {
  bp_action : BeaconAction;
  bp_device_code : option string;
  bp_transport_slots : Z;
  bp_warning : option Message;
}.

Record CriterionAssessment := {
  ca_criterion_name : string;
  ca_remaining_resources : ResourceMap;
  ca_remaining_devices : list DeviceRequirement;
  ca_reused_devices : list string;
  ca_print_devices : list DeviceRequirement;
  ca_manufacturing_resources : ResourceMap;
  ca_print_schedule : PrintSchedule;
  ca_cargo : TransportPlan;
  ca_carriers : TransportPlan;
  ca_beacon : BeaconPlan;
  ca_feasible : bool;
  ca_blockers : list Message;
  ca_recommendations : list Recommendation;
  ca_warnings : list Message;
}.

Record EventPlan `{JN : JsonNumber} := {
  ep_event : EventDefinition;
  ep_grants_unearned_achievement : bool;
  ep_criteria : list CriterionAssessment;
}.

Record RemainingRequirements := {
  rr_resources : ResourceMap;
  rr_devices : list DeviceRequirement;
}.

Record PlanningContext := {
  pc_home_inventory : ResourceMap;
  pc_event_inventory : ResourceMap;
  pc_blueprints : gmap string BlueprintSpec;
  pc_devices : list DeviceStock;
  pc_factories : list FactoryWorkload;
  pc_earned_achievements : gset string;
  pc_home_location : string;
  pc_mission_tag_prefix : string;
  pc_event_mission_tag : option string;
}.

(** ** Quantities *)

Definition add_i64 (a b : Z) : eres Z := if decide (in_i64 (a + b)) then Ok (a + b) else Err Panicked.

(** [*target.entry(key).or_default() += amount], for every entry of [addition] *)
Fixpoint merge_entries (target : ResourceMap) (addition : list (string * Z)) : eres ResourceMap :=
  match addition with
  | [] => Ok target
  | (key, amount) :: addition =>
      total ← add_i64 (default 0 (target !! key)) amount;
      merge_entries (<[key := total]> target) addition
  end.
Definition merge_resources (target addition : ResourceMap) : eres ResourceMap :=
  merge_entries target (entries addition).
Definition merge_device_counts (target addition : gmap string Z) : eres (gmap string Z) :=
  merge_entries target (entries addition).

(** [Iterator::sum] *)
Fixpoint sum_i64 (total : Z) (l : list Z) : eres Z :=
  match l with
  | [] => Ok total
  | z :: l => total ← add_i64 total z; sum_i64 total l
  end.
Definition sum_resources (resources : ResourceMap) : eres Z := sum_i64 0 (snd <$> entries resources).

Definition positive (e : string * Z) : Prop := 0 < e.2.
#[global] Instance positive_dec e : Decision (positive e).
Proof. unfold positive. apply _. Defined.

Definition subtract_resources (required progress inventory : ResourceMap) : ResourceMap :=
  filter positive (map_imap (λ resource quantity,
    Some (saturating_sub_i64 quantity
      (Z.max (default 0 (progress !! resource)) (default 0 (inventory !! resource))))) required).

Definition subtract_device_requirements (required : list DeviceRequirement)
    (progress event_stock : gmap string Z) : list DeviceRequirement :=
  omap (λ item,
    let satisfied := Z.max (default 0 (progress !! dr_device_type item))
                       (default 0 (event_stock !! dr_device_type item)) in
    let remaining := saturating_sub_i64 (dr_count item) satisfied in
    if decide (0 < remaining)
    then Some {| dr_device_type := dr_device_type item; dr_count := remaining |} else None) required.

Definition subtract_resource_map (total subtraction : ResourceMap) : ResourceMap :=
  filter positive (map_imap (λ resource quantity,
    Some (saturating_sub_i64 quantity (default 0 (subtraction !! resource)))) total).

Definition resource_shortages (available event_resources manufacturing_resources : ResourceMap)
  : eres ResourceMap :=
  required ← merge_resources event_resources manufacturing_resources;
  Ok (subtract_resource_map required available).

(** [existing.count += count] on the first entry of the type, or a new entry *)
Fixpoint increment_requirement (requirements : list DeviceRequirement) (device_type : string) (count : Z)
  : eres (list DeviceRequirement) :=
  match requirements with
  | [] => Ok [{| dr_device_type := device_type; dr_count := count |}]
  | item :: requirements =>
      if decide (dr_device_type item = device_type) then
        total ← add_i64 (dr_count item) count;
        Ok ({| dr_device_type := dr_device_type item; dr_count := total |} :: requirements)
      else
        requirements ← increment_requirement requirements device_type count;
        Ok (item :: requirements)
  end.

Fixpoint increment_requirements (requirements additions : list DeviceRequirement) : eres (list DeviceRequirement) :=
  match additions with
  | [] => Ok requirements
  | item :: additions =>
      requirements ← increment_requirement requirements (dr_device_type item) (dr_count item);
      increment_requirements requirements additions
  end.

(** The subtraction on the first entry of the type. *)
Fixpoint decrement_first (requirements : list DeviceRequirement) (device_type : string) (count : Z)
  : list DeviceRequirement :=
  match requirements with
  | [] => []
  | item :: requirements =>
      if decide (dr_device_type item = device_type)
      then {| dr_device_type := dr_device_type item; dr_count := saturating_sub_i64 (dr_count item) count |} :: requirements
      else item :: decrement_first requirements device_type count
  end.
Definition remove_requirement (requirements : list DeviceRequirement) (device_type : string) (count : Z)
  : list DeviceRequirement :=
  filter (λ item, 0 < dr_count item) (decrement_first requirements device_type count).

(** The [expect]s of [trips] are panics. *)
Definition trips (quantity capacity : Z) : eres Z :=
  if decide (quantity ≤ 0) then Ok 0
  else if decide (0 < capacity) then Ok ((quantity + capacity - 1) / capacity)
  else Err Panicked.

(** ** Devices *)

(** [location.split('-').next()], when it is not empty *)
Fixpoint before_hyphen (s : string) : string :=
  match s with
  | String c s' => if decide (Ascii.nat_of_ascii c = 45%nat) then "" else String c (before_hyphen s')
  | EmptyString => ""
  end.
Definition system_designation (location : string) : string :=
  let system := before_hyphen location in if decide (system = "") then location else system.
Definition same_system (left right : string) : bool :=
  eq_ignore_ascii_case (system_designation left) (system_designation right).

Definition status_in (statuses : list string) (device : DeviceStock) : bool :=
  match ds_status device with
  | Some status => bool_decide (to_ascii_lowercase status ∈ statuses)
  | None => false
  end.

Definition is_inactive (self : DeviceStock) : bool :=
  status_in ["inactive"; "deactivated"; "idle"; "stowed"; "recalled"; "compacted"] self
  && negb (ds_travelling self).

Definition is_free_standing (self : DeviceStock) : bool :=
  bool_decide (ds_attached_to_device_code self = None) && bool_decide (ds_stowed_in_device_code self = None).

Definition is_in_same_system_as (self : DeviceStock) (location : string) : bool :=
  match ds_location self with
  | Some device_location => same_system device_location location
  | None => false
  end.

Definition RESERVED_PREFIXES : list string :=
  ["boot-m:"; "boot-r:"; "region:"; "mine-m:"; "mine-b:"; "mine-r:"; "mine-s:";
   "relay-m:"; "relay-b:"; "relay-s:"; "infra-r:"; "infra-s:"].

Definition is_reserved_for_workflow (self : DeviceStock) (mission_tag_prefix : string)
    (allowed_event_mission : option string) : bool :=
  existsb (λ tag,
    if String.prefix mission_tag_prefix tag then bool_decide (allowed_event_mission ≠ Some tag)
    else existsb (λ prefix, String.prefix prefix tag) RESERVED_PREFIXES) (elements (ds_tags self)).

Definition is_transport_eligible (self : DeviceStock) (mission_tag_prefix : string)
    (allowed_event_mission : option string) : bool :=
  negb (ds_controlled_by_ami self) && negb (ds_travelling self) && is_free_standing self
  && negb (is_reserved_for_workflow self mission_tag_prefix allowed_event_mission).

(** [Ordering]s in sequence. *)
Definition location_rank (location : option string) (home : string) : Z :=
  match location with
  | Some location => if decide (location = home) then 0 else 1
  | None => 2
  end.
Definition carrier_rank (device_type : string) : Z := if decide (device_type = SURGE_CARRIER) then 0 else 1.

(** [*counts.entry(device_type).or_default() += 1], for the devices that qualify *)
Definition count_types (qualifies : DeviceStock → bool) (devices : list DeviceStock) : gmap string Z :=
  foldl (λ counts device,
    <[ds_device_type device := default 0 (counts !! ds_device_type device) + 1]> counts) ∅
    (List.filter qualifies devices).

Definition inactive_devices_at (devices : list DeviceStock) (location mission_tag_prefix : string)
    (allowed_event_mission : option string) : gmap string Z :=
  count_types (λ device, bool_decide (ds_location device = Some location) && is_inactive device
    && is_free_standing device
    && negb (is_reserved_for_workflow device mission_tag_prefix allowed_event_mission)) devices.

(** ** Open-shaped fields *)

Section Parse.
Context `{JN : JsonNumber}.

Definition or_else {A} (a b : option A) : option A := match a with Some _ => a | None => b end.

Definition value_to_i64 (value : Value) : option Z :=
  match value with
  | Number n =>
      or_else (as_i64 n) (or_else (n ← as_u64 n; i64_try_from n)
        ((λ x, clamp_i64 (F64.round_Z x)) <$> as_f64 n))
  | _ => None
  end.

Definition integer_field (object : Object_) (key : string) : option Z := v ← get_field object key; value_to_i64 v.

(** [keys.find_map(|key| ..)] *)
Fixpoint find_field {A} (f : Value → option A) (object : Object_) (keys : list string) : option A :=
  match keys with
  | [] => None
  | key :: keys => or_else (v ← get_field object key; f v) (find_field f object keys)
  end.

(** [collect::<BTreeMap>]: the last entry of a key *)
Definition collect_map (l : list (string * Z)) : gmap string Z := foldl (λ m e, <[e.1 := e.2]> m) ∅ l.

Definition numeric_entries (object : Object_) : list (string * Z) :=
  omap (λ e : string * Value, (λ z, (e.1, z)) <$> value_to_i64 e.2) object.

Definition numeric_map (value : option Value) : ResourceMap :=
  match value with
  | Some (Object object) => collect_map (filter positive (numeric_entries object))
  | _ => ∅
  end.

(** The positive counts of a list of objects, by the first of the keys that name a type and
    the first of the keys that hold a number. *)
Definition counted_items (type_keys count_keys : list string) (items : list Value) : list (string * Z) :=
  omap (λ item,
    object ← as_object item;
    name ← find_field as_str object type_keys;
    let quantity := default 0 (find_field value_to_i64 object count_keys) in
    if decide (0 < quantity) then Some (name, quantity) else None) items.

Definition progress_resource_map (value : Value) : ResourceMap :=
  match value with
  | Object _ => numeric_map (Some value)
  | Array items =>
      collect_map (counted_items ["resource_type"; "resource"; "type"]
                     ["current"; "quantity"; "count"; "delivered"] items)
  | _ => ∅
  end.

(** The loop of [parse_device_requirements]. *)
Fixpoint count_devices (items : list Value) (counts : gmap string Z) : eres (gmap string Z) :=
  match items with
  | [] => Ok counts
  | Object object :: items =>
      device_type ← ok_or (v ← get_field object "device_type"; as_str v) (InvalidEvent DeviceTypeMissing);
      let count := default 1 (integer_field object "count") in
      counts ← (if decide (0 < count)
                then total ← add_i64 (default 0 (counts !! device_type)) count; Ok (<[device_type := total]> counts)
                else Ok counts);
      count_devices items counts
  | _ => Err (InvalidEvent DeviceNotObject)
  end.

Definition parse_device_requirements (value : Value) : eres (list DeviceRequirement) :=
  match value with
  | Array items =>
      counts ← count_devices items ∅;
      Ok ((λ e : string * Z, {| dr_device_type := e.1; dr_count := e.2 |}) <$> entries counts)
  | _ => Err (InvalidEvent DevicesNotArray)
  end.

(** [unwrap_or_default], which a panic passes *)
Definition unwrap_or_default {A} (d : A) (r : eres A) : eres A :=
  match r with Err Panicked => Err Panicked | Err _ => Ok d | Ok a => Ok a end.

Definition device_count_map (value : Value) : eres (gmap string Z) :=
  match value with
  | Array _ =>
      items ← unwrap_or_default [] (parse_device_requirements value);
      Ok (collect_map ((λ item, (dr_device_type item, dr_count item)) <$> items))
  | Object object => Ok (collect_map (numeric_entries object))
  | _ => Ok ∅
  end.

Definition progress_device_map (value : Value) : eres (gmap string Z) :=
  match value with
  | Array items =>
      Ok (collect_map (counted_items ["device_type"; "type"] ["current"; "count"; "quantity"; "delivered"] items))
  | _ => device_count_map value
  end.

Record ProgressValues := { pv_resources : ResourceMap; pv_devices : gmap string Z }.
Definition no_progress : ProgressValues := {| pv_resources := ∅; pv_devices := ∅ |}.
Record ProgressSnapshot := { ps_global : ProgressValues; ps_criteria : gmap string ProgressValues }.

(** The values of the keys that are present, merged. *)
Fixpoint merge_fields (read : Value → eres (gmap string Z)) (object : Object_) (keys : list string)
    (target : gmap string Z) : eres (gmap string Z) :=
  match keys with
  | [] => Ok target
  | key :: keys =>
      target ← (match get_field object key with
                | Some value => addition ← read value; merge_resources target addition
                | None => Ok target
                end);
      merge_fields read object keys target
  end.

Definition parse_progress_values (object : Object_) : eres ProgressValues :=
  resources ← merge_fields (λ value, Ok (progress_resource_map value)) object
    ["resources"; "contributed_resources"; "consumed_resources"; "delivered_resources"] ∅;
  devices ← merge_fields progress_device_map object
    ["devices"; "contributed_devices"; "consumed_devices"; "delivered_devices"] ∅;
  Ok {| pv_resources := resources; pv_devices := devices |}.

(** [snapshot.criteria.insert(name, parsed)], when it says anything *)
Definition record_criterion (name : string) (object : Object_) (criteria : gmap string ProgressValues)
  : eres (gmap string ProgressValues) :=
  parsed ← parse_progress_values object;
  Ok (if decide (pv_resources parsed = ∅ ∧ pv_devices parsed = ∅) then criteria
      else <[name := parsed]> criteria).

Fixpoint nested_progress (fields : list (string * Value)) (criteria : gmap string ProgressValues)
  : eres (gmap string ProgressValues) :=
  match fields with
  | [] => Ok criteria
  | (key, value) :: fields =>
      criteria ← (match value with Object specific => record_criterion key specific criteria | _ => Ok criteria end);
      nested_progress fields criteria
  end.

Fixpoint listed_progress (items : list Value) (criteria : gmap string ProgressValues)
  : eres (gmap string ProgressValues) :=
  match items with
  | [] => Ok criteria
  | item :: items =>
      criteria ← (match as_object item with
                  | Some criterion =>
                      match v ← get_field criterion "name"; as_str v with
                      | Some name => record_criterion name criterion criteria
                      | None => Ok criteria
                      end
                  | None => Ok criteria
                  end);
      listed_progress items criteria
  end.

Definition listed_under (object : Object_) (key : string) : list Value :=
  match get_field object key with Some (Array items) => items | _ => [] end.

Definition extract_progress (progress : option Value) : eres ProgressSnapshot :=
  match progress with
  | Some (Object object) =>
      global ← parse_progress_values object;
      criteria ← nested_progress object ∅;
      criteria ← listed_progress (listed_under object "criteria") criteria;
      criteria ← listed_progress (listed_under object "options") criteria;
      Ok {| ps_global := global; ps_criteria := criteria |}
  | _ => Ok {| ps_global := no_progress; ps_criteria := ∅ |}
  end.

Definition for_criterion (self : ProgressSnapshot) (name : string) : eres ProgressValues :=
  match ps_criteria self !! name with
  | Some specific =>
      resources ← merge_resources (pv_resources (ps_global self)) (pv_resources specific);
      devices ← merge_device_counts (pv_devices (ps_global self)) (pv_devices specific);
      Ok {| pv_resources := resources; pv_devices := devices |}
  | None => Ok (ps_global self)
  end.

(** [format!("option_{}", index + 1)] *)
Definition parse_criterion (object : Object_) (index : nat) : eres EventCriterion :=
  let name := default ("option_" +:+ pretty (S index)) (v ← get_field object "name"; as_str v) in
  let resources := numeric_map (get_field object "resources") in
  devices ← (match get_field object "devices" with
             | Some value => parse_device_requirements value
             | None => Ok []
             end);
  Ok {| ec_name := name; ec_resources := resources; ec_devices := devices |}.

Definition parse_rewards (object : Object_) : EventRewards :=
  {| er_resources := numeric_map (get_field object "resources");
     er_xp := integer_field object "xp";
     er_civilisation_points := integer_field object "civilisation_points";
     er_completion_achievement := v ← get_field object "completion_achievement"; as_str v |}.

(** [s.trim().is_empty()]: only white space, in UTF-8 *)
Fixpoint is_blank (bytes : list Z) : bool :=
  match bytes with
  | [] => true
  | b :: bytes =>
      if bool_decide (9 ≤ b ≤ 13) || bool_decide (b = 32) then is_blank bytes
      else
        match bytes with
        | c :: bytes1 =>
            if bool_decide (b = 0xC2) && (bool_decide (c = 0x85) || bool_decide (c = 0xA0)) then is_blank bytes1
            else
              match bytes1 with
              | d :: bytes2 =>
                  if (bool_decide (b = 0xE1) && bool_decide (c = 0x9A) && bool_decide (d = 0x80))
                     || (bool_decide (b = 0xE2) && bool_decide (c = 0x80)
                         && (bool_decide (0x80 ≤ d ≤ 0x8A) || bool_decide (d ∈ [0xA8; 0xA9; 0xAF])))
                     || (bool_decide (b = 0xE2) && bool_decide (c = 0x81) && bool_decide (d = 0x9F))
                     || (bool_decide (b = 0xE3) && bool_decide (c = 0x80) && bool_decide (d = 0x80))
                  then is_blank bytes2 else false
              | [] => false
              end
        | [] => false
        end
  end.
Definition bytes_of (s : string) : list Z := (λ c, Z.of_nat (Ascii.nat_of_ascii c)) <$> String.list_ascii_of_string s.

Fixpoint parse_criteria (index : nat) (criteria : list Object_) : eres (list EventCriterion) :=
  match criteria with
  | [] => Ok []
  | object :: criteria =>
      criterion ← parse_criterion object index;
      rest ← parse_criteria (S index) criteria;
      Ok (criterion :: rest)
  end.

Definition from_open_fields (fields : OpenEventFields) : eres EventDefinition :=
  if is_blank (bytes_of (of_designation fields)) then Err (InvalidEvent EmptyDesignation)
  else if is_blank (bytes_of (of_location fields)) then Err (InvalidEvent EmptyLocation)
  else
    criteria ← parse_criteria 0 (of_criteria fields);
    if decide (length criteria = 0%nat) then Err (InvalidEvent (NoCriteria (of_designation fields)))
    else
      Ok {| ed_designation := of_designation fields; ed_location := of_location fields;
            ed_title := of_title fields; ed_description := of_description fields;
            ed_event_type := of_event_type fields; ed_tier := of_tier fields;
            ed_status := of_status fields; ed_criteria := criteria;
            ed_progress := Object <$> of_progress fields;
            ed_rewards := default default_rewards (parse_rewards <$> of_rewards fields) |}.

Definition remaining_requirements (event : EventDefinition) (criterion_name : string)
    (event_inventory : ResourceMap) (event_devices : list DeviceStock) : eres RemainingRequirements :=
  criterion ← ok_or (List.find (λ criterion, eq_ignore_ascii_case (ec_name criterion) criterion_name)
                       (ed_criteria event))
                (InvalidEvent (CriterionNotPresent criterion_name (ed_designation event)));
  snapshot ← extract_progress (ed_progress event);
  progress ← for_criterion snapshot (ec_name criterion);
  let event_stock := count_types (λ device,
    bool_decide (ds_location device = Some (ed_location event)) && is_inactive device) event_devices in
  Ok {| rr_resources := subtract_resources (ec_resources criterion) (pv_resources progress) event_inventory;
        rr_devices := subtract_device_requirements (ec_devices criterion) (pv_devices progress) event_stock |}.
End Parse.

(** ** Costs *)

(** The loop of [expand_blueprint_resources_inner] over the components: a component
    without a blueprint is a resource. *)
Fixpoint add_components (blueprints : gmap string BlueprintSpec) (expand : string → Z → eres ResourceMap)
    (quantity : Z) (components : list (string * Z)) (result : ResourceMap) : eres ResourceMap :=
  match components with
  | [] => Ok result
  | (component, count) :: components =>
      let required := saturating_mul_i64 count quantity in
      result ← (match blueprints !! component with
                | Some _ => component_resources ← expand component required;
                            merge_resources result component_resources
                | None => merge_entries result [(component, required)]
                end);
      add_components blueprints expand quantity components result
  end.

Fixpoint expand_blueprint_resources_inner (blueprints : gmap string BlueprintSpec) (fuel : nat)
    (visiting : gset string) (device_type : string) (quantity : Z) : eres ResourceMap :=
  match fuel with
  | O => Err OutOfFuel
  | S fuel =>
      blueprint ← ok_or (blueprints !! device_type) (MissingBlueprint device_type);
      if decide (device_type ∈ visiting) then Err (ComponentCycle device_type)
      else
        add_components blueprints
          (expand_blueprint_resources_inner blueprints fuel ({[device_type]} ∪ visiting)) quantity
          (entries (eb_components blueprint))
          ((λ amount, saturating_mul_i64 amount quantity) <$> eb_resources blueprint)
  end.

Definition blueprint_resource_cost (device_type : string) (quantity : Z) (blueprints : gmap string BlueprintSpec)
  : eres ResourceMap :=
  expand_blueprint_resources_inner blueprints (S (size blueprints)) ∅ device_type quantity.
Definition expand_blueprint_resources := blueprint_resource_cost.

(** ** The print schedule *)

(** [a.partial_cmp(&b).unwrap_or(Ordering::Equal)] *)
Definition cmp_or_equal (a b : F64.t) : comparison := default Eq (F64.partial_cmp a b).

(** Longer units first, then by type; and the least load, then by code. *)
Definition unit_before (a b : PrintUnit) : bool :=
  match cmp_or_equal (pu_duration_seconds b) (pu_duration_seconds a) with
  | Lt => true
  | Gt => false
  | Eq => String.leb (pu_device_type a) (pu_device_type b)
  end.
Definition load_before (a b : string * F64.t) : bool :=
  match cmp_or_equal a.2 b.2 with
  | Lt => true
  | Gt => false
  | Eq => String.leb a.1 b.1
  end.

Fixpoint distribute (units : list PrintUnit) (fs : Factories) : eres Factories :=
  match units with
  | [] => Ok fs
  | unit :: units =>
      factory ← ok_or (fst <$> min_by load_before (entries (loads fs))) NoAutofactory;
      let finish := F64.add (default F64.zero (loads fs !! factory)) (F64.max (pu_duration_seconds unit) F64.zero) in
      distribute units
        {| loads := <[factory := finish]> (loads fs);
           assigned := <[factory := push_unit (pu_device_type unit) finish (default [] (assigned fs !! factory))]>
                         (assigned fs) |}
  end.

Definition no_schedule : PrintSchedule := {| sc_batches := []; sc_projected_finish_seconds := F64.zero |}.

Definition schedule_print_units (factories : list FactoryWorkload) (units : list PrintUnit) : eres PrintSchedule :=
  if decide (length units = 0%nat) then Ok no_schedule
  else if decide (length factories = 0%nat) then Err NoAutofactory
  else
    fs ← distribute (sort_by unit_before units) {| loads := initial_loads factories; assigned := ∅ |};
    let batches := entries (assigned fs) ≫= factory_batches in
    Ok {| sc_batches := batches;
          sc_projected_finish_seconds :=
            foldl F64.max F64.zero (pb_projected_finish_seconds <$> batches) |}.

(** ** Transport *)

(** The loop over the candidates, until the capacity is reached. *)
Fixpoint select_transports (capacity_of : DeviceStock → Z) (target : Z) (candidates : list DeviceStock)
    (selected : list SelectedTransport) (capacity : Z) : eres (list SelectedTransport * Z) :=
  match candidates with
  | [] => Ok (selected, capacity)
  | device :: candidates =>
      let selected := selected ++ [{| st_code := ds_code device; st_device_type := ds_device_type device;
                                      st_capacity := capacity_of device; st_must_print := false |}] in
      capacity ← add_i64 capacity (capacity_of device);
      if decide (target ≤ capacity) then Ok (selected, capacity)
      else select_transports capacity_of target candidates selected capacity
  end.

(** A list of comparisons, the first that decides. *)
Fixpoint lex_le (l : list comparison) : bool :=
  match l with [] => true | Lt :: _ => true | Gt :: _ => false | Eq :: l => lex_le l end.

(** The transport that is printed when none is found. *)
Definition printed_transport (device_type placeholder kind : string) (capacity_of : BlueprintSpec → Z)
    (blueprints : gmap string BlueprintSpec) : eres (list SelectedTransport * Z) :=
  blueprint ← ok_or (blueprints !! device_type) (MissingBlueprint device_type);
  if decide (capacity_of blueprint ≤ 0) then Err (InvalidTransportBlueprint device_type kind)
  else Ok ([{| st_code := placeholder; st_device_type := device_type;
               st_capacity := capacity_of blueprint; st_must_print := true |}], capacity_of blueprint).

Section Context_.
Variable context : PlanningContext.

Definition reserved (device : DeviceStock) : bool :=
  is_reserved_for_workflow device (pc_mission_tag_prefix context) (pc_event_mission_tag context).
Definition transport_eligible (device : DeviceStock) : bool :=
  is_transport_eligible device (pc_mission_tag_prefix context) (pc_event_mission_tag context).

Definition rank_cmp (left right : DeviceStock) : comparison :=
  location_rank (ds_location left) (pc_home_location context)
  ?= location_rank (ds_location right) (pc_home_location context).

Definition cargo_candidate (device : DeviceStock) : bool :=
  bool_decide (ds_device_type device = CARGO_FREIGHTER) && bool_decide (0 < ds_cargo_capacity device)
  && is_in_same_system_as device (pc_home_location context) && transport_eligible device.
Definition cargo_leb (left right : DeviceStock) : bool :=
  lex_le [rank_cmp left right; ds_cargo_capacity right ?= ds_cargo_capacity left;
          String.compare (ds_code left) (ds_code right)].

(** The plan and the devices to print for it. *)
Definition plan_cargo_transport (rewards remaining_resources : ResourceMap)
  : eres (TransportPlan * list DeviceRequirement) :=
  inbound ← sum_resources remaining_resources;
  outbound ← sum_resources rewards;
  if decide (inbound = 0 ∧ outbound = 0) then Ok (no_transport, [])
  else
    let candidates := sort_by cargo_leb (List.filter cargo_candidate (pc_devices context)) in
    found ← select_transports ds_cargo_capacity (Z.max inbound outbound) candidates [] 0;
    chosen ← (if decide (length found.1 = 0%nat)
              then printed_transport CARGO_FREIGHTER "<print:cargo_freighter>" "cargo" eb_cargo_capacity
                     (pc_blueprints context)
              else Ok found);
    inbound_trips ← trips inbound chosen.2;
    outbound_trips ← trips outbound chosen.2;
    Ok ({| tp_transports := chosen.1; tp_capacity_per_trip := chosen.2; tp_inbound_trips := inbound_trips;
           tp_outbound_trips := outbound_trips |},
        if decide (length found.1 = 0%nat)
        then [{| dr_device_type := CARGO_FREIGHTER; dr_count := 1 |}] else []).

Definition carrier_candidate (device : DeviceStock) : bool :=
  bool_decide (0 < ds_attach_capacity device) && bool_decide (ds_attach_used device = 0)
  && is_in_same_system_as device (pc_home_location context) && transport_eligible device.
Definition carrier_leb (left right : DeviceStock) : bool :=
  lex_le [carrier_rank (ds_device_type left) ?= carrier_rank (ds_device_type right); rank_cmp left right;
          ds_attach_capacity right ?= ds_attach_capacity left; String.compare (ds_code left) (ds_code right)].

Definition plan_device_transport (slots : Z) : eres (TransportPlan * list DeviceRequirement) :=
  if decide (slots ≤ 0) then Ok (no_transport, [])
  else
    let candidates := sort_by carrier_leb (List.filter carrier_candidate (pc_devices context)) in
    found ← select_transports ds_attach_capacity slots candidates [] 0;
    chosen ← (if decide (length found.1 = 0%nat)
              then printed_transport SURGE_CARRIER "<print:surge_carrier>" "attachment" eb_attach_capacity
                     (pc_blueprints context)
              else Ok found);
    inbound_trips ← trips slots chosen.2;
    Ok ({| tp_transports := chosen.1; tp_capacity_per_trip := chosen.2; tp_inbound_trips := inbound_trips;
           tp_outbound_trips := 0 |},
        if decide (length found.1 = 0%nat)
        then [{| dr_device_type := SURGE_CARRIER; dr_count := 1 |}] else []).

(** ** The beacon *)

Definition code_leb (left right : DeviceStock) : bool := String.leb (ds_code left) (ds_code right).

Definition with_beacon (action : BeaconAction) (beacon : DeviceStock) (slots : Z) : BeaconPlan :=
  {| bp_action := action; bp_device_code := Some (ds_code beacon); bp_transport_slots := slots;
     bp_warning := None |}.

Definition plan_beacon (event_location : string) : BeaconPlan :=
  let beacons := sort_by code_leb
    (List.filter (λ device, bool_decide (ds_device_type device = FTL_BEACON)) (pc_devices context)) in
  let at_ (location : string) (device : DeviceStock) := bool_decide (ds_location device = Some location) in
  let free device := is_inactive device && is_free_standing device && negb (reserved device) in
  match List.find (λ device, at_ event_location device && status_in ["active"; "beaconing"; "monitoring"] device)
          beacons with
  | Some beacon => with_beacon AlreadyActive beacon 0
  | None =>
      match List.find (λ device, at_ event_location device && free device) beacons with
      | Some beacon => with_beacon DeployExisting beacon 0
      | None =>
          match List.find (λ device, at_ (pc_home_location context) device && free device) beacons with
          | Some beacon => with_beacon TransportExisting beacon 1
          | None =>
              match pc_blueprints context !! FTL_BEACON with
              | None => {| bp_action := Unavailable; bp_device_code := None; bp_transport_slots := 0;
                           bp_warning := Some BeaconBlueprintLocked |}
              | Some _ => {| bp_action := PrintAndTransport; bp_device_code := None; bp_transport_slots := 1;
                             bp_warning := None |}
              end
          end
      end
  end.

(** ** Reuse *)

Definition reusable_device (event_location : string) (device : DeviceStock) : bool :=
  is_inactive device && is_free_standing device
  && bool_decide (ds_location device = Some (pc_home_location context))
  && bool_decide (ds_location device ≠ Some event_location) && negb (reserved device).
Definition pool_leb (left right : DeviceStock) : bool :=
  lex_le [rank_cmp left right; String.compare (ds_code left) (ds_code right)].
Definition reusable_pool (event_location : string) : list DeviceStock :=
  sort_by pool_leb (List.filter (reusable_device event_location) (pc_devices context)).

(** A tag of another event mission. *)
Definition foreign_mission (device : DeviceStock) : bool :=
  existsb (λ tag, String.prefix (pc_mission_tag_prefix context) tag
    && bool_decide (pc_event_mission_tag context ≠ Some tag)) (elements (ds_tags device)).

(** The inner loop: what is still needed of the type, and the codes that are reused. *)
Fixpoint reuse_from (pool : list DeviceStock) (device_type : string) (needed : Z) (reused : list string)
  : Z * list string :=
  match pool with
  | [] => (needed, reused)
  | device :: pool =>
      if decide (needed = 0) then (needed, reused)
      else if bool_decide (ds_device_type device ≠ device_type) || bool_decide (ds_code device ∈ reused)
              || foreign_mission device
      then reuse_from pool device_type needed reused
      else reuse_from pool device_type (needed - 1) (reused ++ [ds_code device])
  end.

Fixpoint reuse_devices (pool : list DeviceStock) (remaining : list DeviceRequirement) (reused : list string)
    (prints : list DeviceRequirement) : list string * list DeviceRequirement :=
  match remaining with
  | [] => (reused, prints)
  | requirement :: remaining =>
      let '(needed, reused) := reuse_from pool (dr_device_type requirement) (dr_count requirement) reused in
      reuse_devices pool remaining reused
        (if decide (0 < needed)
         then prints ++ [{| dr_device_type := dr_device_type requirement; dr_count := needed |}] else prints)
  end.

(** ** Manufacturing *)

Fixpoint manufacture (prints : list DeviceRequirement) (units : list PrintUnit) (resources : ResourceMap)
  : eres (list PrintUnit * ResourceMap) :=
  match prints with
  | [] => Ok (units, resources)
  | requirement :: prints =>
      blueprint ← ok_or (pc_blueprints context !! dr_device_type requirement)
                    (MissingBlueprint (dr_device_type requirement));
      cost ← expand_blueprint_resources (dr_device_type requirement) (dr_count requirement) (pc_blueprints context);
      resources ← merge_resources resources cost;
      manufacture prints
        (units ++ replicate (Z.to_nat (dr_count requirement))
           {| pu_device_type := dr_device_type requirement;
              pu_duration_seconds := eb_print_time_seconds blueprint |}) resources
  end.

Definition requirement_leb (left right : DeviceRequirement) : bool :=
  String.leb (dr_device_type left) (dr_device_type right).

(** The schedule; without an autofactory a lone beacon is given up. *)
Record Scheduled := {
  sd_schedule : PrintSchedule;
  sd_beacon : BeaconPlan;
  sd_prints : list DeviceRequirement;
  sd_resources : ResourceMap;
}.
Definition lone_beacon (prints : list DeviceRequirement) : bool :=
  match prints with
  | [item] => bool_decide (dr_device_type item = FTL_BEACON) && bool_decide (dr_count item = 1)
  | _ => false
  end.
Definition schedule_or_skip_beacon (prints : list DeviceRequirement) (units : list PrintUnit)
    (resources : ResourceMap) (beacon : BeaconPlan) : eres Scheduled :=
  match schedule_print_units (pc_factories context) units with
  | Ok schedule =>
      Ok {| sd_schedule := schedule; sd_beacon := beacon; sd_prints := prints; sd_resources := resources |}
  | Err NoAutofactory =>
      if lone_beacon prints then
        Ok {| sd_schedule := no_schedule;
              sd_beacon := {| bp_action := Unavailable; bp_device_code := None; bp_transport_slots := 0;
                              bp_warning := Some BeaconWithoutAutofactory |};
              sd_prints := []; sd_resources := ∅ |}
      else Err NoAutofactory
  | Err error => Err error
  end.

(** The carriers; when only the beacon needs one and none is found, the beacon is given up. *)
Definition carriers_or_skip_beacon (event_device_slots : Z) (beacon : BeaconPlan) (prints : list DeviceRequirement)
  : eres (TransportPlan * BeaconPlan * list DeviceRequirement) :=
  slots ← add_i64 event_device_slots (bp_transport_slots beacon);
  match plan_device_transport slots with
  | Ok (plan, carrier_print) =>
      prints ← increment_requirements prints carrier_print;
      Ok (plan, beacon, prints)
  | Err Panicked => Err Panicked
  | Err error =>
      if decide (event_device_slots = 0 ∧ 0 < bp_transport_slots beacon) then
        Ok (no_transport,
            {| bp_action := Unavailable; bp_device_code := bp_device_code beacon; bp_transport_slots := 0;
               bp_warning := Some (BeaconSkipped error) |},
            remove_requirement prints FTL_BEACON 1)
      else Err error
  end.

Definition option_list {A} (o : option A) : list A := match o with Some a => [a] | None => [] end.

Section Criterion.
Context `{JN : JsonNumber}.
Variable event : EventDefinition.
Variable criterion : EventCriterion.
Variable progress : ProgressSnapshot.
Variable beacon0 : BeaconPlan.

Definition event_stock : gmap string Z :=
  inactive_devices_at (pc_devices context) (ed_location event) (pc_mission_tag_prefix context)
    (pc_event_mission_tag context).

Definition assess_criterion : eres CriterionAssessment :=
  criterion_progress ← for_criterion progress (ec_name criterion);
  let remaining_resources := subtract_resources (ec_resources criterion) (pv_resources criterion_progress)
                               (pc_event_inventory context) in
  let remaining_devices := sort_by requirement_leb
    (subtract_device_requirements (ec_devices criterion) (pv_devices criterion_progress) event_stock) in
  let '(reused_devices, prints) :=
    reuse_devices (reusable_pool (ed_location event)) remaining_devices [] [] in
  prints ← (if decide (bp_action beacon0 = PrintAndTransport)
            then increment_requirement prints FTL_BEACON 1 else Ok prints);
  cargo ← plan_cargo_transport (er_resources (ed_rewards event)) remaining_resources;
  prints ← increment_requirements prints cargo.2;
  event_device_slots ← sum_i64 0 (dr_count <$> remaining_devices);
  transport ← carriers_or_skip_beacon event_device_slots beacon0 prints;
  let '(carriers, beacon, prints) := transport in
  work ← manufacture prints [] ∅;
  let print_devices := sort_by requirement_leb prints in
  scheduled ← schedule_or_skip_beacon print_devices work.1 work.2 beacon;
  let beacon := sd_beacon scheduled in
  optional_beacon_resources ← (if decide (bp_action beacon = PrintAndTransport)
                               then expand_blueprint_resources FTL_BEACON 1 (pc_blueprints context)
                               else Ok ∅);
  let critical_manufacturing := subtract_resource_map (sd_resources scheduled) optional_beacon_resources in
  critical_shortages ← resource_shortages (pc_home_inventory context) remaining_resources critical_manufacturing;
  total_shortages ← resource_shortages (pc_home_inventory context) remaining_resources (sd_resources scheduled);
  let blockers := if decide (critical_shortages = ∅) then [] else [HomeShort critical_shortages] in
  let warnings := option_list (bp_warning beacon)
    ++ (if decide (critical_shortages = ∅ ∧ total_shortages ≠ ∅) then [BeaconShort total_shortages] else []) in
  Ok {| ca_criterion_name := ec_name criterion; ca_remaining_resources := remaining_resources;
        ca_remaining_devices := remaining_devices; ca_reused_devices := reused_devices;
        ca_print_devices := sd_prints scheduled; ca_manufacturing_resources := sd_resources scheduled;
        ca_print_schedule := sd_schedule scheduled; ca_cargo := cargo.1; ca_carriers := carriers;
        ca_beacon := beacon; ca_feasible := bool_decide (blockers = []); ca_blockers := blockers;
        ca_recommendations := []; ca_warnings := warnings |}.

Definition blocked_assessment (error : PlannerError) : eres CriterionAssessment :=
  criterion_progress ← for_criterion progress (ec_name criterion);
  Ok {| ca_criterion_name := ec_name criterion;
        ca_remaining_resources := subtract_resources (ec_resources criterion)
          (pv_resources criterion_progress) (pc_event_inventory context);
        ca_remaining_devices := subtract_device_requirements (ec_devices criterion)
          (pv_devices criterion_progress) event_stock;
        ca_reused_devices := []; ca_print_devices := []; ca_manufacturing_resources := ∅;
        ca_print_schedule := no_schedule; ca_cargo := no_transport; ca_carriers := no_transport;
        ca_beacon := beacon0; ca_feasible := false; ca_blockers := [Failed error];
        ca_recommendations := []; ca_warnings := option_list (bp_warning beacon0) |}.
End Criterion.
End Context_.

(** ** Comparison *)

Definition print_count (self : CriterionAssessment) : eres Z := sum_i64 0 (dr_count <$> ca_print_devices self).
Definition total_trips (self : CriterionAssessment) : eres Z :=
  a ← add_i64 (tp_inbound_trips (ca_cargo self)) (tp_outbound_trips (ca_cargo self));
  b ← add_i64 a (tp_inbound_trips (ca_carriers self));
  add_i64 b (tp_outbound_trips (ca_carriers self)).

Definition rare_cost_key (item : CriterionAssessment) : eres (list Z) :=
  consumed ← merge_resources (ca_manufacturing_resources item) (ca_remaining_resources item);
  total ← sum_resources consumed;
  Ok [default 0 (consumed !! "rares"); default 0 (consumed !! "volatiles");
      default 0 (consumed !! "conductive"); total].

(** The order of a tuple. *)
Fixpoint tuple_leb (a b : list Z) : bool :=
  match a, b with
  | x :: a, y :: b => match x ?= y with Lt => true | Gt => false | Eq => tuple_leb a b end
  | _, _ => true
  end.

(** The keys of the feasible criteria, with their positions. *)
Fixpoint feasible_keys {T} (key : CriterionAssessment → eres T) (index : nat) (criteria : list CriterionAssessment)
  : eres (list (nat * T)) :=
  match criteria with
  | [] => Ok []
  | criterion :: criteria =>
      if ca_feasible criterion then
        k ← key criterion;
        rest ← feasible_keys key (S index) criteria;
        Ok ((index, k) :: rest)
      else feasible_keys key (S index) criteria
  end.

(** [min_indices], and [max_indices] with the reverse order *)
Definition min_indices {T} (leb eqb : T → T → bool) (key : CriterionAssessment → eres T)
    (criteria : list CriterionAssessment) : eres (list nat) :=
  keys ← feasible_keys key 0 criteria;
  Ok (match min_by leb (snd <$> keys) with
      | None => []
      | Some minimum => omap (λ e : nat * T, if eqb e.2 minimum then Some e.1 else None) keys
      end).

(** [recommendations.insert(recommendation)] *)
Definition with_badge (recommendation : Recommendation) (item : CriterionAssessment) : CriterionAssessment :=
  {| ca_criterion_name := ca_criterion_name item; ca_remaining_resources := ca_remaining_resources item;
     ca_remaining_devices := ca_remaining_devices item; ca_reused_devices := ca_reused_devices item;
     ca_print_devices := ca_print_devices item; ca_manufacturing_resources := ca_manufacturing_resources item;
     ca_print_schedule := ca_print_schedule item; ca_cargo := ca_cargo item; ca_carriers := ca_carriers item;
     ca_beacon := ca_beacon item; ca_feasible := ca_feasible item; ca_blockers := ca_blockers item;
     ca_recommendations := if decide (recommendation ∈ ca_recommendations item) then ca_recommendations item
                           else ca_recommendations item ++ [recommendation];
     ca_warnings := ca_warnings item |}.
Definition add_badge (criteria : list CriterionAssessment) (indices : list nat) (recommendation : Recommendation)
  : list CriterionAssessment :=
  foldl (λ criteria index, alter (with_badge recommendation) index criteria) criteria indices.

Definition assign_recommendations (criteria : list CriterionAssessment) : eres (list CriterionAssessment) :=
  if existsb ca_feasible criteria then
    fastest ← min_indices F64.total_leb F64.eqb
      (λ item, Ok (sc_projected_finish_seconds (ca_print_schedule item))) criteria;
    lowest_cost ← min_indices Z.leb Z.eqb (λ item, sum_resources (ca_manufacturing_resources item)) criteria;
    lowest_rare ← min_indices tuple_leb (λ a b, bool_decide (a = b)) rare_cost_key criteria;
    fewest_prints ← min_indices Z.leb Z.eqb print_count criteria;
    fewest_trips ← min_indices Z.leb Z.eqb total_trips criteria;
    best_stock ← min_indices Z.geb Z.eqb (λ item, Ok (Z.of_nat (length (ca_reused_devices item)))) criteria;
    let criteria := add_badge criteria fastest Fastest in
    let criteria := add_badge criteria lowest_cost LowestManufacturingCost in
    let criteria := add_badge criteria lowest_rare LowestRareResourceUse in
    let criteria := add_badge criteria fewest_prints FewestPrints in
    let criteria := add_badge criteria fewest_trips FewestTrips in
    Ok (add_badge criteria best_stock UsesExistingStockBest)
  else Ok criteria.

Section Plan.
Context `{JN : JsonNumber}.

(** A panic is not caught. *)
Fixpoint assess_all (context : PlanningContext) (event : EventDefinition) (progress : ProgressSnapshot)
    (beacon : BeaconPlan) (criteria : list EventCriterion) : eres (list CriterionAssessment) :=
  match criteria with
  | [] => Ok []
  | criterion :: criteria =>
      item ← (match assess_criterion context event criterion progress beacon with
              | Ok item => Ok item
              | Err Panicked => Err Panicked
              | Err error => blocked_assessment context event criterion progress beacon error
              end);
      rest ← assess_all context event progress beacon criteria;
      Ok (item :: rest)
  end.

Definition plan_event (event : EventDefinition) (context : PlanningContext) : eres EventPlan :=
  let beacon := plan_beacon context (ed_location event) in
  progress ← extract_progress (ed_progress event);
  criteria ← assess_all context event progress beacon (ed_criteria event);
  criteria ← assign_recommendations criteria;
  Ok {| ep_event := event;
        ep_grants_unearned_achievement :=
          match er_completion_achievement (ed_rewards event) with
          | Some key => bool_decide (key ∉ pc_earned_achievements context)
          | None => false
          end;
        ep_criteria := criteria |}.
End Plan.

(** ** Tags *)

(** [evt-m:] and [evt-role:] *)
Definition MISSION_PREFIX : list Z := [101; 118; 116; 45; 109; 58].
Definition ROLE_PREFIX : list Z := [101; 118; 116; 45; 114; 111; 108; 101; 58].
Definition HASH_CHARS : nat := 6.

(** [{hash:016x}] *)
Definition hex16 (z : Z) : list Z :=
  (λ i : nat, hex_char (Z.land (Z.shiftr z (4 * (15 - Z.of_nat i))) 15)) <$> seq 0 16.
Definition short_hash (value : list Z) : list Z := hex16 (fnv1a value).

Definition normalize_tag_component (value : list Z) : list Z := tag_char <$> value.

(** [-evt-] *)
Definition EVT : list Z := [45; 101; 118; 116; 45].

(** [normalized.rfind(pattern)] *)
Definition starts_at (pattern l : list Z) (i : nat) : bool :=
  bool_decide (take (length pattern) (drop i l) = pattern).
Definition rfind (pattern l : list Z) : option nat :=
  last (List.filter (starts_at pattern l) (seq 0 (S (length l)))).

Definition preserved_event_suffix (normalized : list Z) : list Z :=
  match rfind EVT normalized with
  | None => []
  | Some evt_index => drop (default 0%nat (rfind [hyphen] (take evt_index normalized))) normalized
  end.

(** [if head.is_empty() { head.push('e') }] *)
Definition or_e (head : list Z) : list Z := match head with [] => [101] | _ => head end.

Definition mission_tag (event_designation : list Z) : list Z :=
  let normalized := trim (normalize_tag_component event_designation) in
  let direct := MISSION_PREFIX ++ normalized in
  if decide (length direct ≤ MAX_TAG_CHARACTERS)%nat then direct
  else
    let suffix := preserved_event_suffix normalized in
    let identity_head := trim_end (take (length normalized - length suffix) normalized) in
    let hash := take HASH_CHARS (short_hash identity_head) in
    let fixed := (length MISSION_PREFIX + 1 + HASH_CHARS + length suffix)%nat in
    let head_budget := Nat.max (MAX_TAG_CHARACTERS - fixed) 1 in
    let head := or_e (trim_end (take head_budget identity_head)) in
    MISSION_PREFIX ++ head ++ [hyphen] ++ hash ++ suffix.

(** The hash is of the UTF-8 bytes of the role. *)
Definition role_tag (role role_bytes : list Z) : list Z :=
  let direct := ROLE_PREFIX ++ normalize_tag_component role in
  if decide (length direct ≤ MAX_TAG_CHARACTERS)%nat then direct
  else ROLE_PREFIX ++ short_hash role_bytes.

End Events.
