(* ===== verification/EventFacts.v ===== *)
(** * What an event assessment guarantees

    For [crates/replicant-event-planner/src/lib.rs]: the resources that are still missing,
    the devices that are reused and printed, the capacity and the trips of the transports,
    and when a criterion is feasible. *)

From S2P Require Import Prelude Float64 Json Printing PrintingFacts PrintScheduleFacts MiningPlanner.
From S2P Require Import BootstrapPlanner EventPlanner.
Import Events.

(** ** Results *)

Lemma eres_bind_Ok {A B} (m : eres A) (f : A → eres B) b :
  m ≫= f = Ok b ↔ ∃ a, m = Ok a ∧ f a = Ok b.
Proof. destruct m; simpl; naive_solver. Qed.

(** Splits the first result of a hypothesis [m ≫= f = Ok b]. *)
Tactic Notation "ok_step" hyp(H) simple_intropattern(x) simple_intropattern(Hx) :=
  apply eres_bind_Ok in H as (x & Hx & H).

Lemma add_i64_Ok a b c : add_i64 a b = Ok c ↔ c = a + b ∧ in_i64 c.
Proof. unfold add_i64. case_decide; naive_solver. Qed.

Lemma add_i64_Err a b e : add_i64 a b = Err e → e = Panicked.
Proof. unfold add_i64. case_decide; naive_solver. Qed.

(** ** Quantities *)

Definition amount (m : gmap string Z) (r : string) : Z := default 0 (m !! r).

Lemma merge_entries_Ok l target m :
  NoDup l.*1 → merge_entries target l = Ok m →
  ∀ r, amount m r = amount target r + amount (list_to_map l) r.
Proof.
  revert target. induction l as [|[k n] l IH]; intros target Hnd; cbn [merge_entries].
  { intros [= <-] r. unfold amount. simpl. rewrite lookup_empty. simpl. lia. }
  rewrite fmap_cons in Hnd. apply NoDup_cons in Hnd as [Hk Hnd]. intros H r.
  ok_step H total Ht. apply add_i64_Ok in Ht as [-> _]. rewrite (IH _ Hnd H r). unfold amount.
  simpl. destruct (decide (k = r)) as [<-|].
  - rewrite !lookup_insert_eq. simpl. rewrite not_elem_of_list_to_map_1 by done. simpl. lia.
  - by rewrite !lookup_insert_ne by done.
Qed.

Lemma merge_resources_Ok target addition m :
  merge_resources target addition = Ok m → ∀ r, amount m r = amount target r + amount addition r.
Proof.
  intros H r. destruct (entries_map addition) as [Hnd Hm]. unfold merge_resources in H.
  by rewrite (merge_entries_Ok _ _ _ Hnd H), Hm.
Qed.

Lemma merge_entries_dom l target m k :
  merge_entries target l = Ok m → is_Some (m !! k) ↔ is_Some (target !! k) ∨ k ∈ l.*1.
Proof.
  revert target. induction l as [|[k' n] l IH]; intros target; cbn [merge_entries].
  { intros [= <-]. simpl. rewrite elem_of_nil. tauto. }
  intros H. ok_step H total Ht. rewrite (IH _ H), fmap_cons, elem_of_cons. simpl.
  destruct (decide (k' = k)) as [<-|]; [rewrite lookup_insert_eq|rewrite lookup_insert_ne by done]; naive_solver.
Qed.

Lemma clamp_i64_pos z : 0 < clamp_i64 z ↔ 0 < z.
Proof. machine_ints. lia. Qed.

Lemma subtract_amount total subtraction r :
  in_i64 (amount total r - amount subtraction r) →
  amount (subtract_resource_map total subtraction) r =
  match total !! r with Some q => Z.max 0 (q - amount subtraction r) | None => 0 end.
Proof.
  intros Hin. unfold subtract_resource_map, amount in *. rewrite map_lookup_filter, map_lookup_imap.
  destruct (total !! r) as [q|]; simpl in *; [|done]. unfold positive. simpl.
  revert Hin. machine_ints. intros Hin. case_guard; simpl; lia.
Qed.

Lemma subtract_empty total subtraction :
  subtract_resource_map total subtraction = ∅ ↔ ∀ r q, total !! r = Some q → q ≤ amount subtraction r.
Proof.
  unfold subtract_resource_map. split.
  - intros H r q Hq. destruct (decide (q ≤ amount subtraction r)) as [|Hn]; [done|].
    assert (Hl : (∅ : ResourceMap) !! r ≠ None); [|done]. rewrite <- H.
    rewrite map_lookup_filter, map_lookup_imap, Hq. simpl. rewrite option_guard_True; [done|].
    unfold positive. simpl. apply clamp_i64_pos. unfold amount in *. lia.
  - intros H. apply map_empty. intros r. rewrite map_lookup_filter, map_lookup_imap.
    destruct (total !! r) as [q|] eqn:Hq; [|done]. simpl. rewrite option_guard_False; [done|].
    unfold positive. simpl. unfold saturating_sub_i64. rewrite clamp_i64_pos.
    specialize (H r q Hq). unfold amount in *. lia.
Qed.

(** Nothing is short when the stock covers both demands. *)
Lemma resource_shortages_empty available demand1 demand2 s :
  resource_shortages available demand1 demand2 = Ok s →
  (∀ r q, demand1 !! r = Some q → 0 < q) → (∀ r q, demand2 !! r = Some q → 0 < q) →
  s = ∅ ↔ ∀ r, 0 < amount demand1 r + amount demand2 r → amount demand1 r + amount demand2 r ≤ amount available r.
Proof.
  intros H H1 H2. unfold resource_shortages in H. ok_step H required Hr. injection H as <-.
  rewrite subtract_empty. pose proof (merge_resources_Ok _ _ _ Hr) as Ha.
  assert (∀ r, is_Some (required !! r) ↔ 0 < amount demand1 r + amount demand2 r) as Hdom.
  { intros r. rewrite (merge_entries_dom _ _ _ r Hr). unfold amount. split.
    - intros [[q Hq]|Hin].
      + pose proof (H1 r q Hq). rewrite Hq. simpl. destruct (demand2 !! r) as [q2|] eqn:E; [|simpl; lia].
        pose proof (H2 _ _ E). simpl. lia.
      + apply list_elem_of_fmap in Hin as ([k q]&->&Hin). apply elem_of_entries in Hin. simpl.
        pose proof (H2 _ _ Hin). rewrite Hin. simpl. destruct (demand1 !! k) as [q1|] eqn:E; [|simpl; lia].
        pose proof (H1 _ _ E). simpl. lia.
    - intros Hpos. destruct (demand1 !! r) as [q|] eqn:E; [by left|]. right.
      destruct (demand2 !! r) as [q|] eqn:E2; [|simpl in Hpos; lia].
      apply list_elem_of_fmap. exists (r, q). split; [done|]. by apply elem_of_entries. }
  split.
  - intros Hs r Hpos. apply Hdom in Hpos as [q Hq]. specialize (Hs r q Hq). rewrite <- Ha. unfold amount at 1.
    by rewrite Hq.
  - intros Hs r q Hq. specialize (Hs r). rewrite <- Ha in Hs. unfold amount at 1 2 in Hs. rewrite Hq in Hs.
    apply Hs. simpl. assert (0 < amount required r); [rewrite Ha; apply Hdom; eauto|].
    unfold amount in *. by rewrite Hq in *.
Qed.

Lemma subtract_resources_pos required progress inventory r q :
  subtract_resources required progress inventory !! r = Some q → 0 < q.
Proof. unfold subtract_resources. intros [_ Hp]%map_lookup_filter_Some. exact Hp. Qed.

Lemma subtract_resource_map_pos total subtraction r q :
  subtract_resource_map total subtraction !! r = Some q → 0 < q.
Proof. unfold subtract_resource_map. intros [_ Hp]%map_lookup_filter_Some. exact Hp. Qed.

(** ** Transports *)

(** [n] trips of a capacity carry a quantity, and one trip fewer does not. *)
Definition trips_for (quantity capacity n : Z) : Prop :=
  if decide (quantity ≤ 0) then n = 0 else (n - 1) * capacity < quantity ≤ n * capacity.

Lemma trips_Ok quantity capacity n : trips quantity capacity = Ok n → trips_for quantity capacity n.
Proof.
  unfold trips, trips_for. case_decide; [by intros [= <-]|]. case_decide as Hc; [|done]. intros [= <-].
  pose proof (Z.div_mod (quantity + capacity - 1) capacity ltac:(lia)) as Hd.
  pose proof (Z.mod_pos_bound (quantity + capacity - 1) capacity Hc). nia.
Qed.

Definition as_transport (capacity_of : DeviceStock → Z) (device : DeviceStock) : SelectedTransport :=
  {| st_code := ds_code device; st_device_type := ds_device_type device;
     st_capacity := capacity_of device; st_must_print := false |}.

(** The selection is the shortest prefix of the candidates that reaches the target, or all. *)
Lemma select_transports_Ok capacity_of target candidates selected capacity selected' capacity' :
  select_transports capacity_of target candidates selected capacity = Ok (selected', capacity') →
  ∃ some rest, candidates = some ++ rest ∧ selected' = selected ++ (as_transport capacity_of <$> some)
    ∧ capacity' = capacity + sum_by capacity_of some
    ∧ (rest = [] ∨ target ≤ capacity') ∧ (some = [] → candidates = []).
Proof.
  revert selected capacity. induction candidates as [|device candidates IH]; intros selected capacity H; simpl in H.
  { injection H as <- <-. exists [], []. simpl. rewrite app_nil_r. split_and!; auto. unfold sum_by. simpl. lia. }
  ok_step H c Hc. apply add_i64_Ok in Hc as [-> _]. case_decide as Ht.
  - injection H as <- <-. exists [device], candidates. split_and!; auto; [|done]. unfold sum_by. simpl. lia.
  - destruct (IH _ _ H) as (some&rest&->&->&->&Hend&_). exists (device :: some), rest.
    rewrite <- app_assoc, sum_by_cons. split_and!; auto; [|done]. lia.
Qed.

(** A plan for some of the eligible devices. *)
Record transport_ok (devices : list DeviceStock) (eligible : DeviceStock → bool) (capacity_of : DeviceStock → Z)
    (inbound outbound : Z) (plan : TransportPlan) : Prop := {
  (** the capacity is that of the transports *)
  to_capacity : tp_capacity_per_trip plan = sum_by st_capacity (tp_transports plan);
  (** that are eligible devices, each taken once, or one that is printed *)
  to_transports : (∃ chosen rest, tp_transports plan = as_transport capacity_of <$> chosen
                     ∧ chosen ++ rest ≡ₚ List.filter eligible devices ∧ (0 < length chosen)%nat
                     ∧ (rest = [] ∨ Z.max inbound outbound ≤ tp_capacity_per_trip plan))
                  ∨ (∃ t, tp_transports plan = [t] ∧ st_must_print t = true ∧ List.filter eligible devices = []);
  (** and just enough trips for what goes in and comes out *)
  to_inbound : trips_for inbound (tp_capacity_per_trip plan) (tp_inbound_trips plan);
  to_outbound : trips_for outbound (tp_capacity_per_trip plan) (tp_outbound_trips plan);
}.

(** What has to be printed of a type for the transports of a plan. *)
Definition printed_transports (plan : TransportPlan) (d : string) : Z :=
  sum_by (λ t, if st_must_print t && bool_decide (st_device_type t = d) then 1 else 0) (tp_transports plan).

Definition printed (prints : list DeviceRequirement) (d : string) : Z :=
  sum_by (λ item, if decide (dr_device_type item = d) then dr_count item else 0) prints.

Lemma printed_cons item l d :
  printed (item :: l) d = (if decide (dr_device_type item = d) then dr_count item else 0) + printed l d.
Proof. apply sum_by_cons. Qed.
Lemma printed_app l1 l2 d : printed (l1 ++ l2) d = printed l1 d + printed l2 d.
Proof. apply sum_by_app. Qed.
Lemma printed_nil d : printed [] d = 0.
Proof. done. Qed.
#[global] Instance printed_perm : Proper ((≡ₚ) ==> (=) ==> (=)) printed.
Proof. intros l1 l2 Hl d ? <-. unfold printed. by rewrite Hl. Qed.

Lemma no_printed_transports capacity_of chosen d :
  sum_by (λ t, if st_must_print t && bool_decide (st_device_type t = d) then 1 else 0)
    (as_transport capacity_of <$> chosen) = 0.
Proof. induction chosen as [|x l IH]; [done|]. rewrite fmap_cons, sum_by_cons, IH. done. Qed.

Lemma sum_as_transport capacity_of chosen :
  sum_by st_capacity (as_transport capacity_of <$> chosen) = sum_by capacity_of chosen.
Proof. induction chosen as [|x l IH]; [done|]. by rewrite fmap_cons, !sum_by_cons, IH. Qed.

(** The transports that are chosen, and the prints for them. *)
Lemma chosen_transports context devices eligible leb capacity_of device_type placeholder kind blueprint_capacity target
    found chosen :
  select_transports capacity_of target (sort_by leb (List.filter eligible devices)) [] 0 = Ok found →
  (if decide (length found.1 = 0%nat)
   then printed_transport device_type placeholder kind blueprint_capacity (pc_blueprints context) else Ok found) = Ok chosen →
  chosen.2 = sum_by st_capacity chosen.1
  ∧ ((∃ some rest, chosen.1 = as_transport capacity_of <$> some ∧ some ++ rest ≡ₚ List.filter eligible devices
        ∧ (0 < length some)%nat ∧ (rest = [] ∨ target ≤ chosen.2))
     ∨ (∃ t, chosen.1 = [t] ∧ st_must_print t = true ∧ List.filter eligible devices = []))
  ∧ ∀ d, printed (if decide (length found.1 = 0%nat) then [{| dr_device_type := device_type; dr_count := 1 |}] else []) d
         = sum_by (λ t, if st_must_print t && bool_decide (st_device_type t = d) then 1 else 0) chosen.1.
Proof.
  intros Hf Hc. destruct found as [found capacity].
  apply select_transports_Ok in Hf as (some&rest&Hl&->&->&Hend&Hnil). cbn [fst snd] in *.
  rewrite app_nil_l, length_fmap in *. case_decide as Hz.
  - apply length_zero_iff_nil in Hz. specialize (Hnil Hz). subst some.
    unfold printed_transport in Hc. ok_step Hc b Hb. case_decide; [done|]. injection Hc as <-. simpl.
    split_and!; [unfold sum_by; simpl; lia| |intros d; unfold printed, sum_by; simpl; by repeat case_decide].
    right. eexists. split_and!; [done..|]. apply Permutation_nil_r. rewrite <- Hnil. symmetry. apply sort_by_perm.
  - injection Hc as <-. cbn [fst snd]. split_and!; [by rewrite sum_as_transport| |intros d; by rewrite no_printed_transports].
    left. exists some, rest. split_and!; [done| |lia|destruct Hend; auto].
    rewrite <- Hl. apply sort_by_perm.
Qed.

Definition total_resources (m : ResourceMap) : Z := map_sum (λ _ q, q) m.

Lemma sum_i64_Ok acc l n : sum_i64 acc l = Ok n → n = acc + sum_by id l.
Proof.
  revert acc. induction l as [|z l IH]; intros acc; simpl.
  { intros [= <-]. unfold sum_by. simpl. lia. }
  intros H. ok_step H t Ht. apply add_i64_Ok in Ht as [-> _]. rewrite (IH _ H), sum_by_cons. simpl. lia.
Qed.

Lemma sum_resources_Ok m n : sum_resources m = Ok n → n = total_resources m.
Proof.
  intros ->%sum_i64_Ok. unfold total_resources. rewrite <- (sum_by_entries (λ _ q, q)).
  unfold sum_by. by rewrite list_fmap_id.
Qed.

(** No transport, or one of the eligible devices. *)
Definition transports_for devices eligible capacity_of inbound outbound (plan : TransportPlan) : Prop :=
  (plan = no_transport ∧ inbound ≤ 0 ∧ outbound ≤ 0) ∨ transport_ok devices eligible capacity_of inbound outbound plan.

Lemma plan_cargo_transport_Ok context rewards remaining plan prints :
  plan_cargo_transport context rewards remaining = Ok (plan, prints) →
  transports_for (pc_devices context) (cargo_candidate context) ds_cargo_capacity
    (total_resources remaining) (total_resources rewards) plan
  ∧ ∀ d, printed prints d = printed_transports plan d.
Proof.
  unfold plan_cargo_transport. intros H. ok_step H inbound Hin. ok_step H outbound Hout.
  apply sum_resources_Ok in Hin as ->, Hout as ->. case_decide as Hz.
  { injection H as <- <-. split; [left; split; [done|lia]|done]. }
  ok_step H found Hf. ok_step H chosen Hc. ok_step H tin Htin. ok_step H tout Htout. injection H as <- <-.
  apply trips_Ok in Htin, Htout.
  destruct (chosen_transports _ _ _ _ _ _ _ _ _ _ _ _ Hf Hc) as (Hcap&Hch&Hp).
  split; [right; by split|]. exact Hp.
Qed.

Lemma plan_device_transport_Ok context slots plan prints :
  plan_device_transport context slots = Ok (plan, prints) →
  transports_for (pc_devices context) (carrier_candidate context) ds_attach_capacity slots 0 plan
  ∧ ∀ d, printed prints d = printed_transports plan d.
Proof.
  unfold plan_device_transport. case_decide as Hz.
  { intros [= <- <-]. split; [left; split; [done|lia]|done]. }
  intros H. ok_step H found Hf. ok_step H chosen Hc. ok_step H tin Htin. injection H as <- <-.
  apply trips_Ok in Htin. destruct (chosen_transports _ _ _ _ _ _ _ _ _ _ _ _ Hf Hc) as (Hcap&Hch&Hp).
  split; [|exact Hp]. right. split; try done. rewrite Z.max_l by lia. exact Hch.
Qed.

(** ** Reuse *)

Lemma existsb_impl {A} (f g : A → bool) l : (∀ x, f x = true → g x = true) → existsb f l = true → existsb g l = true.
Proof. intros Hfg. rewrite !existsb_exists. naive_solver. Qed.

Lemma not_reserved_not_foreign context device :
  reserved context device = false → foreign_mission context device = false.
Proof.
  intros Hr. apply not_true_iff_false. intros Hf. apply not_true_iff_false in Hr. apply Hr.
  unfold reserved, is_reserved_for_workflow. revert Hf. apply existsb_impl. intros tag Ht.
  by destruct (String.prefix _ tag).
Qed.

Lemma reusable_pool_elem context location device :
  device ∈ reusable_pool context location ↔
  device ∈ pc_devices context ∧ reusable_device context location device = true.
Proof.
  unfold reusable_pool. rewrite elem_of_sort_by, list_elem_of_In, filter_In, <- list_elem_of_In. tauto.
Qed.

Section Reuse.
Context (context : PlanningContext) (pool : list DeviceStock).
Context (Hcodes : NoDup (ds_code <$> pool)) (Hforeign : ∀ device, device ∈ pool → foreign_mission context device = false).

Lemma same_code device device' :
  device ∈ pool → device' ∈ pool → ds_code device = ds_code device' → device = device'.
Proof.
  intros [i Hi]%list_elem_of_lookup [j Hj]%list_elem_of_lookup Hc.
  assert (i = j) as ->; [|congruence].
  eapply (NoDup_lookup (ds_code <$> pool)); [done|..]; rewrite list_lookup_fmap; [by rewrite Hi|].
  rewrite Hj. simpl. congruence.
Qed.

(** How many devices of a type are among the reused codes. *)
Definition reused_of (reused : list string) (d : string) : Z :=
  Z.of_nat (length (filter (λ device, ds_device_type device = d ∧ ds_code device ∈ reused) pool)).

Lemma reuse_from_Ok l d needed reused needed' reused' :
  reuse_from context l d needed reused = (needed', reused') → 0 ≤ needed → l ⊆ pool →
  ∃ taken, reused' = reused ++ taken ∧ needed' = needed - Z.of_nat (length taken) ∧ 0 ≤ needed'
    ∧ (NoDup reused → NoDup reused')
    ∧ (∀ code, code ∈ taken → ∃ device, device ∈ l ∧ ds_code device = code ∧ ds_device_type device = d)
    ∧ (0 < needed' → ∀ device, device ∈ l → ds_device_type device = d → ds_code device ∈ reused').
Proof.
  revert needed reused. induction l as [|device l IH]; intros needed reused H Hn Hl; simpl in H.
  { injection H as <- <-. exists []. rewrite app_nil_r. split_and!; try done; [simpl; lia|set_solver..]. }
  case_decide as Hz.
  { injection H as <- <-. exists []. rewrite app_nil_r. split_and!; try done; [simpl; lia|set_solver|lia]. }
  destruct (bool_decide _ || _ || _) eqn:Hskip.
  - destruct (IH _ _ H Hn) as (taken&->&->&Hpos&Hnd&Htaken&Hall); [set_solver|].
    exists taken. split_and!; try done; [set_solver|]. intros Hp x [->|Hx]%elem_of_cons Hd; [|auto].
    rewrite Hforeign in Hskip by set_solver. rewrite orb_false_r in Hskip.
    apply orb_true_iff in Hskip as [?%bool_decide_eq_true|?%bool_decide_eq_true]; [done|set_solver].
  - rewrite !orb_false_iff, !bool_decide_eq_false in Hskip. destruct Hskip as [[Hd Hc] _].
    destruct (IH _ _ H ltac:(lia)) as (taken&->&->&Hpos&Hnd&Htaken&Hall); [set_solver|].
    exists (ds_code device :: taken). rewrite <- app_assoc. simpl. split_and!; try done.
    + lia.
    + intros Hr. rewrite <- app_assoc in Hnd. apply Hnd. apply NoDup_app. split_and!; [done|set_solver|apply NoDup_singleton].
    + intros code [->|Hcode]%elem_of_cons; [|set_solver]. exists device. split_and!; [set_solver|done|].
      by destruct (decide (ds_device_type device = d)).
    + intros Hp x [->|Hx]%elem_of_cons Hxd; [set_solver|]. rewrite <- app_assoc in Hall. by apply Hall.
Qed.

Lemma reused_of_app reused taken d d' :
  NoDup (reused ++ taken) →
  (∀ code, code ∈ taken → ∃ device, device ∈ pool ∧ ds_code device = code ∧ ds_device_type device = d) →
  reused_of (reused ++ taken) d' = reused_of reused d' + (if decide (d = d') then Z.of_nat (length taken) else 0).
Proof.
  intros Hnd Ht. apply NoDup_app in Hnd as (_&Hdisj&Hnd). unfold reused_of.
  assert (∀ device, device ∈ pool → ds_code device ∈ taken → ds_device_type device = d) as Htype.
  { intros device Hin Hc. destruct (Ht _ Hc) as (device'&Hin'&Hc'&<-). f_equal. by apply same_code. }
  assert (length (filter (λ device, ds_device_type device = d' ∧ ds_code device ∈ reused ++ taken) pool)
    = (length (filter (λ device, ds_device_type device = d' ∧ ds_code device ∈ reused) pool)
       + length (filter (λ device, ds_device_type device = d' ∧ ds_code device ∈ taken) pool))%nat) as ->.
  { clear Hcodes Hforeign Ht Htype. induction pool as [|x l IH]; [done|]. rewrite !filter_cons.
    repeat case_decide; simpl; rewrite ?IH; set_solver by lia. }
  rewrite Nat2Z.inj_add. f_equal. case_decide as Hd.
  - subst d'. f_equal. rewrite <- (length_fmap ds_code). apply Permutation_length, NoDup_Permutation; [|done|].
    + eapply sublist_NoDup; [exact Hcodes|]. apply (fmap_sublist ds_code), sublist_filter.
    + intros code. rewrite list_elem_of_fmap. setoid_rewrite list_elem_of_filter. split.
      * by intros (device&->&[_ ?]&_).
      * intros Hc. destruct (Ht _ Hc) as (device&Hin&<-&Hty). eauto.
  - destruct (filter _ pool) as [|x l] eqn:E; [done|]. exfalso.
    assert (x ∈ filter (λ device, ds_device_type device = d' ∧ ds_code device ∈ taken) pool) as Hx
      by (rewrite E; by left).
    apply list_elem_of_filter in Hx as [[Hty Hc] Hin]. apply Hd. rewrite <- Hty. symmetry. by apply Htype.
Qed.

Lemma reused_of_mono reused reused' d : reused ⊆ reused' → reused_of reused d ≤ reused_of reused' d.
Proof.
  intros Hsub. unfold reused_of. apply inj_le. clear Hcodes Hforeign. induction pool as [|x l IH]; [done|].
  rewrite !filter_cons. repeat case_decide; simpl; try lia. exfalso. naive_solver.
Qed.

Lemma reuse_devices_Ok remaining reused prints reused' prints' :
  reuse_devices context pool remaining reused prints = (reused', prints') →
  NoDup (dr_device_type <$> remaining) → Forall (λ item, 0 < dr_count item) remaining →
  NoDup reused → (∀ device, device ∈ pool → ds_code device ∈ reused → ds_device_type device ∉ dr_device_type <$> remaining) →
  NoDup reused' ∧ reused ⊆ reused'
  ∧ (∀ code, code ∈ reused' → code ∈ reused ∨ ∃ device, device ∈ pool ∧ ds_code device = code
       ∧ ds_device_type device ∈ dr_device_type <$> remaining)
  ∧ (∀ d, printed prints' d = printed prints d + printed remaining d - (reused_of reused' d - reused_of reused d))
  ∧ (∀ d, reused_of reused' d - reused_of reused d ≤ printed remaining d)
  ∧ (∀ d, reused_of reused' d - reused_of reused d < printed remaining d →
      ∀ device, device ∈ pool → ds_device_type device = d → ds_code device ∈ reused').
Proof.
  revert reused prints. induction remaining as [|item remaining IH]; intros reused prints H Hnd Hpos Hr Hfree; simpl in H.
  { injection H as <- <-. split_and!; try done; [by left|intros d; unfold printed, sum_by; simpl; lia..]. }
  rewrite fmap_cons in Hnd, Hfree. apply NoDup_cons in Hnd as [Hi Hnd]. apply Forall_cons in Hpos as [Hp Hpos].
  destruct (reuse_from _ _ _ _ _) as [needed reused1] eqn:E.
  destruct (reuse_from_Ok _ _ _ _ _ _ E ltac:(lia) ltac:(done)) as (taken&->&Hneed&Hn0&Hnd1&Htaken&Hall).
  specialize (Hnd1 Hr). pose proof (λ d, reused_of_app _ _ _ d Hnd1 Htaken) as Happ.
  destruct (IH _ _ H Hnd Hpos Hnd1) as (Hnd'&Hsub&Hcode&Hprint&Hle&Hout).
  { intros device Hin [Hc|Hc]%elem_of_app; [set_solver|]. destruct (Htaken _ Hc) as (device'&Hin'&Hc'&Hty).
    by rewrite (same_code device device'), Hty. }
  assert (∀ d, printed (item :: remaining) d = printed remaining d + (if decide (dr_device_type item = d) then dr_count item else 0)) as Hcons.
  { intros d. rewrite printed_cons. lia. }
  assert (∀ d, d ∉ dr_device_type <$> remaining → printed remaining d = 0) as Hzero.
  { clear. intros d. induction remaining as [|x l IH]; [done|]. rewrite fmap_cons, not_elem_of_cons, printed_cons.
    intros [Hx Hl]. rewrite IH, decide_False by congruence. done. }
  split_and!; [done|set_solver|..].
  - intros code [Hc|(device&Hin&Hc&Hty)]%Hcode; [|right; set_solver].
    apply elem_of_app in Hc as [Hc|Hc]; [by left|]. right. destruct (Htaken _ Hc) as (device&?&?&Hty).
    exists device. rewrite Hty. set_solver.
  - intros d. rewrite Hprint, Hcons, Happ.
    assert (printed (if decide (0 < needed) then prints ++ [{| dr_device_type := dr_device_type item; dr_count := needed |}]
      else prints) d = printed prints d + (if decide (dr_device_type item = d) then needed else 0)) as ->;
      [|destruct (decide (dr_device_type item = d)); lia].
    destruct (decide (0 < needed)).
    + rewrite printed_app, printed_cons, printed_nil. simpl. lia.
    + destruct (decide (dr_device_type item = d)); lia.
  - intros d. specialize (Hle d). rewrite Hcons. rewrite Happ in Hle. case_decide; lia.
  - intros d Hlt device Hin Hty. specialize (Hle d). specialize (Hout d). rewrite Hcons in Hlt. rewrite Happ in Hle, Hout.
    destruct (decide (dr_device_type item = d)) as [Hd|Hd]; [|apply Hout; [lia|done..]].
    apply Hsub, Hall; [|done|congruence]. pose proof (reused_of_mono _ _ d Hsub) as Hm. rewrite Happ in Hm.
    rewrite decide_True in Hm by done. rewrite Hzero in * by congruence. lia.
Qed.
End Reuse.

(** ** Prints *)

Lemma increment_requirement_Ok l d n l' :
  increment_requirement l d n = Ok l' → ∀ d', printed l' d' = printed l d' + (if decide (d = d') then n else 0).
Proof.
  revert l'. induction l as [|item l IH]; intros l' H d'; simpl in H.
  { injection H as <-. rewrite printed_cons, printed_nil. simpl. lia. }
  case_decide as Hd.
  - ok_step H n' Hn. apply add_i64_Ok in Hn as [-> _]. injection H as <-. rewrite !printed_cons. simpl.
    subst d. case_decide; lia.
  - ok_step H l1 Hl. injection H as <-. rewrite !printed_cons, (IH _ Hl). lia.
Qed.

Lemma increment_requirements_Ok l additions l' :
  increment_requirements l additions = Ok l' → ∀ d, printed l' d = printed l d + printed additions d.
Proof.
  revert l. induction additions as [|item additions IH]; intros l H d; simpl in H.
  { injection H as <-. rewrite printed_nil. lia. }
  ok_step H l1 Hl. rewrite (IH _ H), (increment_requirement_Ok _ _ _ _ Hl), printed_cons. lia.
Qed.

Lemma cargo_prints context rewards remaining plan prints :
  plan_cargo_transport context rewards remaining = Ok (plan, prints) →
  prints = [] ∨ prints = [{| dr_device_type := CARGO_FREIGHTER; dr_count := 1 |}].
Proof.
  unfold plan_cargo_transport. intros H. ok_step H i Hi. ok_step H o Ho. case_decide; [injection H as <- <-; by left|].
  ok_step H f Hf. ok_step H c Hc. ok_step H ti Hti. ok_step H to Hto. injection H as _ <-. case_decide; auto.
Qed.

(** When no device is needed, giving up the beacon leaves the prints for the cargo. *)
Lemma give_up_beacon (b : bool) cargo prints1 prints :
  cargo = [] ∨ cargo = [{| dr_device_type := CARGO_FREIGHTER; dr_count := 1 |}] →
  (if b then increment_requirement [] FTL_BEACON 1 else Ok []) = Ok prints1 →
  increment_requirements prints1 cargo = Ok prints → remove_requirement prints FTL_BEACON 1 = cargo.
Proof. by intros [->| ->] H1 H2; destruct b; injection H1 as <-; vm_compute in H2; injection H2 as <-. Qed.

Lemma counts_zero l : Forall (λ item, 0 < dr_count item) l → sum_by id (dr_count <$> l) ≤ 0 → l = [].
Proof.
  intros Hl Hs. destruct l as [|item l]; [done|]. exfalso. apply Forall_cons in Hl as [Hi Hl].
  rewrite fmap_cons, sum_by_cons in Hs. simpl in Hs.
  assert (0 ≤ sum_by id (dr_count <$> l)); [|lia]. clear Hs. induction Hl as [|x l Hx Hl IH]; [done|].
  rewrite fmap_cons, sum_by_cons. simpl. lia.
Qed.

(** ** An assessment *)

Lemma subtract_devices_pos required progress stock :
  Forall (λ item, 0 < dr_count item) (subtract_device_requirements required progress stock).
Proof.
  apply Forall_forall. unfold subtract_device_requirements. intros x (item&_&Hx)%list_elem_of_omap.
  case_decide; [|done]. by injection Hx as <-.
Qed.

Lemma subtract_devices_types required progress stock :
  dr_device_type <$> subtract_device_requirements required progress stock `sublist_of` (dr_device_type <$> required).
Proof.
  unfold subtract_device_requirements. induction required as [|item l IH]; [done|]. rewrite fmap_cons. simpl.
  case_decide; simpl; by constructor.
Qed.

Lemma carriers_Ok context slots beacon prints plan beacon' prints' :
  carriers_or_skip_beacon context slots beacon prints = Ok (plan, beacon', prints') →
  (beacon' = beacon
     ∧ transports_for (pc_devices context) (carrier_candidate context) ds_attach_capacity
         (slots + bp_transport_slots beacon) 0 plan
     ∧ ∀ d, printed prints' d = printed prints d + printed_transports plan d)
  ∨ (slots = 0 ∧ plan = no_transport ∧ bp_action beacon' = Unavailable ∧ bp_transport_slots beacon' = 0
     ∧ prints' = remove_requirement prints FTL_BEACON 1).
Proof.
  unfold carriers_or_skip_beacon. intros H. ok_step H s Hs. apply add_i64_Ok in Hs as [-> _].
  destruct (plan_device_transport context _) as [[p cp]|e] eqn:E.
  - ok_step H pr Hp. injection H as <- <- <-. left. apply plan_device_transport_Ok in E as [Ht Hcp].
    split_and!; [done..|]. intros d. by rewrite (increment_requirements_Ok _ _ _ Hp), Hcp.
  - destruct e; try done; (case_decide as Hz; [|done]; injection H as <- <- <-; right; destruct Hz; by split_and!).
Qed.

Lemma schedule_Ok context prints units resources beacon sd :
  schedule_or_skip_beacon context prints units resources beacon = Ok sd →
  (sd_beacon sd = beacon ∧ sd_prints sd = prints ∧ sd_resources sd = resources
     ∧ schedule_print_units (pc_factories context) units = Ok (sd_schedule sd))
  ∨ bp_warning (sd_beacon sd) = Some BeaconWithoutAutofactory.
Proof.
  unfold schedule_or_skip_beacon. destruct (schedule_print_units _ _) as [x|e]; [intros [= <-]; by left|].
  destruct e; try done. destruct (lone_beacon prints); [|done]. intros [= <-]. by right.
Qed.

Section Assess.
Context `{JN : JsonNumber} (context : PlanningContext) (event : EventDefinition) (criterion : EventCriterion).
Context (progress : ProgressSnapshot).
Context (Hcodes : NoDup (ds_code <$> pc_devices context)) (Htypes : NoDup (dr_device_type <$> ec_devices criterion)).
Abbreviation pool := (reusable_pool context (ed_location event)).
Abbreviation beacon0 := (plan_beacon context (ed_location event)).

Definition devices_needed (a : CriterionAssessment) (d : string) : Z := printed (ca_remaining_devices a) d.
Definition devices_reused (a : CriterionAssessment) (d : string) : Z := reused_of pool (ca_reused_devices a) d.
Definition beacon_printed (a : CriterionAssessment) (d : string) : Z :=
  if decide (bp_action (ca_beacon a) = PrintAndTransport ∧ d = FTL_BEACON) then 1 else 0.
Definition gave_up_printing (a : CriterionAssessment) : Prop :=
  bp_warning (ca_beacon a) = Some BeaconWithoutAutofactory.

(** What an assessment promises about devices. *)
Record devices_ok (a : CriterionAssessment) : Prop := {
  (** the reused devices are distinct, reusable, and of a type that is needed *)
  do_distinct : NoDup (ca_reused_devices a);
  do_reusable code : code ∈ ca_reused_devices a → ∃ device, device ∈ pc_devices context ∧ ds_code device = code
    ∧ reusable_device context (ed_location event) device = true ∧ 0 < devices_needed a (ds_device_type device);
  (** no more than are needed *)
  do_bounded d : devices_reused a d ≤ devices_needed a d;
  (** and all there are before any is printed *)
  do_exhausted d : devices_reused a d < devices_needed a d → ∀ device, device ∈ pc_devices context →
    reusable_device context (ed_location event) device = true → ds_device_type device = d → ds_code device ∈ ca_reused_devices a;
  (** the rest is printed, with the beacon and the transports *)
  do_printed d : ¬ gave_up_printing a → printed (ca_print_devices a) d = devices_needed a d - devices_reused a d
    + beacon_printed a d + printed_transports (ca_cargo a) d + printed_transports (ca_carriers a) d;
}.

(** What it promises about transports. *)
Record carriage_ok (a : CriterionAssessment) : Prop := {
  cy_cargo : transports_for (pc_devices context) (cargo_candidate context) ds_cargo_capacity
    (total_resources (ca_remaining_resources a)) (total_resources (er_resources (ed_rewards event))) (ca_cargo a);
  cy_carriers : ¬ gave_up_printing a → transports_for (pc_devices context) (carrier_candidate context) ds_attach_capacity
    (sum_by id (dr_count <$> ca_remaining_devices a) + bp_transport_slots (ca_beacon a)) 0 (ca_carriers a);
}.

(** And about resources: the stock at home covers the event and the prints, the beacon apart. *)
Definition resources_ok (a : CriterionAssessment) : Prop :=
  ∃ beacon_cost,
    (bp_action (ca_beacon a) = PrintAndTransport →
       blueprint_resource_cost FTL_BEACON 1 (pc_blueprints context) = Ok beacon_cost)
    ∧ (bp_action (ca_beacon a) ≠ PrintAndTransport → beacon_cost = ∅)
    ∧ let need r := amount (ca_remaining_resources a) r
                    + amount (subtract_resource_map (ca_manufacturing_resources a) beacon_cost) r in
      (ca_feasible a = true ↔ ∀ r, 0 < need r → need r ≤ amount (pc_home_inventory context) r).

Lemma pool_codes : NoDup (ds_code <$> pool).
Proof.
  unfold reusable_pool. rewrite sort_by_perm.
  eapply sublist_NoDup; [exact Hcodes|]. apply (fmap_sublist ds_code). clear.
  induction (pc_devices context) as [|x l IH]; simpl; [done|]. destruct (reusable_device _ _ x); by constructor.
Qed.

Lemma pool_not_foreign device : device ∈ pool → foreign_mission context device = false.
Proof.
  intros [_ Hr]%reusable_pool_elem. apply not_reserved_not_foreign. unfold reusable_device in Hr.
  apply andb_prop in Hr as [_ Hr]. by apply negb_true_iff.
Qed.

Lemma reused_of_nil d : reused_of pool [] d = 0.
Proof.
  unfold reused_of. induction pool as [|x l IH]; [done|]. rewrite filter_cons, decide_False; [done|]. set_solver.
Qed.

(** The facts about the reuse and the prints for it, before the beacon and the transports. *)
Lemma reuse_Ok a prints :
  reuse_devices context pool (ca_remaining_devices a) [] [] = (ca_reused_devices a, prints) →
  Forall (λ item, 0 < dr_count item) (ca_remaining_devices a) → NoDup (dr_device_type <$> ca_remaining_devices a) →
  (∀ d, ¬ gave_up_printing a → printed (ca_print_devices a) d = printed prints d
    + beacon_printed a d + printed_transports (ca_cargo a) d + printed_transports (ca_carriers a) d) →
  devices_ok a.
Proof.
  intros H Hpos Hnd Hprint.
  destruct (reuse_devices_Ok _ _ pool_codes pool_not_foreign _ _ _ _ _ H Hnd Hpos) as (Hd&_&Hc&Hp&Hle&Hall);
    [apply NoDup_nil_2|set_solver|].
  assert (∀ d, printed prints d = devices_needed a d - devices_reused a d) as Hpr.
  { intros d. rewrite Hp, reused_of_nil, printed_nil. unfold devices_needed, devices_reused. lia. }
  assert (∀ d, devices_reused a d ≤ devices_needed a d) as Hb.
  { intros d. specialize (Hle d). rewrite reused_of_nil in Hle. unfold devices_needed, devices_reused. lia. }
  split; [done| |done| |intros d Hg; rewrite Hprint, Hpr by done; done].
  - intros code [?|(device&Hin&<-&Hty)]%Hc; [set_solver|]. apply reusable_pool_elem in Hin as [Hin Hr].
    exists device. split_and!; [done..|]. unfold devices_needed.
    apply list_elem_of_fmap in Hty as (item&->&Hitem). revert Hpos Hitem. clear.
    induction (ca_remaining_devices a) as [|x l IH]; [set_solver|]. intros [Hx Hl]%Forall_cons.
    assert (0 ≤ printed l (dr_device_type item)).
    { clear -Hl. induction Hl as [|y l Hy Hl IH]; [done|]. rewrite printed_cons. case_decide; lia. }
    rewrite printed_cons. intros [->|Hin]%elem_of_cons; [rewrite decide_True by done; lia|].
    specialize (IH Hl Hin). case_decide; lia.
  - intros d Hlt device Hin Hr Hty. apply (Hall d); [|by apply reusable_pool_elem|done].
    rewrite reused_of_nil. unfold devices_needed, devices_reused in Hlt. lia.
Qed.

(** The prints for the beacon and the transports. *)
Lemma transport_prints remaining reused prints0 prints1 cargo cargo_print prints2 slots carriers beacon prints3 rewards resources :
  reuse_devices context pool remaining [] [] = (reused, prints0) →
  Forall (λ item, 0 < dr_count item) remaining → slots = sum_by id (dr_count <$> remaining) →
  (if decide (bp_action beacon0 = PrintAndTransport) then increment_requirement prints0 FTL_BEACON 1 else Ok prints0)
    = Ok prints1 →
  plan_cargo_transport context rewards resources = Ok (cargo, cargo_print) →
  increment_requirements prints1 cargo_print = Ok prints2 →
  carriers_or_skip_beacon context slots beacon0 prints2 = Ok (carriers, beacon, prints3) →
  transports_for (pc_devices context) (carrier_candidate context) ds_attach_capacity (slots + bp_transport_slots beacon) 0 carriers
  ∧ ∀ d, printed prints3 d = printed prints0 d
      + (if decide (bp_action beacon = PrintAndTransport ∧ d = FTL_BEACON) then 1 else 0)
      + printed_transports cargo d + printed_transports carriers d.
Proof.
  intros Hreuse Hpos Hs H1 Hcargo H2 Hc. pose proof (proj2 (plan_cargo_transport_Ok _ _ _ _ _ Hcargo)) as Hcp.
  apply carriers_Ok in Hc as [(->&Ht&Hp)|(Hz&->&Hact&Hts&->)].
  - split; [done|]. intros d. rewrite Hp, (increment_requirements_Ok _ _ _ H2), Hcp.
    assert (printed prints1 d = printed prints0 d
      + (if decide (bp_action beacon0 = PrintAndTransport ∧ d = FTL_BEACON) then 1 else 0)); [|lia].
    destruct (decide (bp_action beacon0 = PrintAndTransport)) as [Ha|Ha].
    + rewrite (increment_requirement_Ok _ _ _ _ H1). repeat case_decide; naive_solver lia.
    + injection H1 as <-. rewrite decide_False by tauto. lia.
  - assert (remaining = []) as -> by (apply counts_zero; [done|lia]). simpl in Hreuse. injection Hreuse as <- <-.
    rewrite (give_up_beacon (bool_decide (bp_action beacon0 = PrintAndTransport)) cargo_print prints1 prints2);
      [|by eapply cargo_prints|by case_bool_decide; case_decide|done].
    split; [left; split; [done|lia]|]. intros d. rewrite decide_False by (intros [? _]; congruence).
    rewrite Hcp, printed_nil. change (printed_transports no_transport d) with 0. lia.
Qed.

Lemma assess_criterion_Ok a :
  assess_criterion context event criterion progress beacon0 = Ok a →
  devices_ok a ∧ carriage_ok a ∧ resources_ok a.
Proof.
  unfold assess_criterion. intros H. ok_step H cp Hcp.
  set (remaining := sort_by requirement_leb _) in H.
  set (resources := subtract_resources _ _ _) in H.
  destruct (reuse_devices _ _ _ _ _) as [reused prints0] eqn:Ereuse.
  ok_step H prints1 Hp1. ok_step H cargo Hcargo. destruct cargo as [cargo cargo_print].
  ok_step H prints2 Hp2. ok_step H slots Hslots. ok_step H transport Ht.
  destruct transport as [[carriers beacon] prints3]. ok_step H work Hw. ok_step H sd Hsd.
  ok_step H cost Hcost. ok_step H critical Hcrit. ok_step H total Htotal. injection H as <-.
  assert (Forall (λ item, 0 < dr_count item) remaining) as Hpos.
  { unfold remaining. rewrite sort_by_perm. apply subtract_devices_pos. }
  assert (NoDup (dr_device_type <$> remaining)) as Hnd.
  { unfold remaining. rewrite sort_by_perm. eapply sublist_NoDup; [exact Htypes|]. apply subtract_devices_types. }
  apply sum_i64_Ok in Hslots. rewrite Z.add_0_l in Hslots.
  destruct (transport_prints _ _ _ _ _ _ _ _ _ _ _ _ _ Ereuse Hpos Hslots Hp1 Hcargo Hp2 Ht) as [Hcarry Hprint].
  apply plan_cargo_transport_Ok in Hcargo as [Hcar _]. split_and!.
  - eapply reuse_Ok; [exact Ereuse|done..|]. intros d Hg. unfold gave_up_printing, beacon_printed in *.
    cbn [ca_print_devices ca_beacon ca_cargo ca_carriers] in *.
    apply schedule_Ok in Hsd as [(->&->&_)|?]; [|done]. by rewrite sort_by_perm, Hprint.
  - split; [done|]. intros Hg. unfold gave_up_printing in Hg. cbn [ca_beacon ca_remaining_devices ca_carriers] in *.
    apply schedule_Ok in Hsd as [(->&_)|?]; [|done]. by rewrite <- Hslots.
  - exists cost. cbn [ca_beacon ca_remaining_resources ca_manufacturing_resources ca_feasible]. split_and!.
    + intros Ha. by rewrite decide_True in Hcost by done.
    + intros Ha. rewrite decide_False in Hcost by done. by injection Hcost as <-.
    + rewrite bool_decide_eq_true. rewrite <- (resource_shortages_empty _ _ _ _ Hcrit).
      * destruct (decide (critical = ∅)) as [->|Hn]; by split.
      * apply subtract_resources_pos.
      * apply subtract_resource_map_pos.
Qed.
End Assess.

(** ** A plan *)

(** The parts of an assessment apart from its badges. *)
Definition same_but_badges (a b : CriterionAssessment) : Prop :=
  ∃ badges, b = {| ca_criterion_name := ca_criterion_name a; ca_remaining_resources := ca_remaining_resources a;
     ca_remaining_devices := ca_remaining_devices a; ca_reused_devices := ca_reused_devices a;
     ca_print_devices := ca_print_devices a; ca_manufacturing_resources := ca_manufacturing_resources a;
     ca_print_schedule := ca_print_schedule a; ca_cargo := ca_cargo a; ca_carriers := ca_carriers a;
     ca_beacon := ca_beacon a; ca_feasible := ca_feasible a; ca_blockers := ca_blockers a;
     ca_recommendations := badges; ca_warnings := ca_warnings a |}.

#[global] Instance same_but_badges_preorder : PreOrder same_but_badges.
Proof.
  split.
  - intros []. by eexists.
  - intros a b c [bs ->] [cs ->]. by eexists.
Qed.

Lemma add_badge_same criteria indices badge : Forall2 same_but_badges criteria (add_badge criteria indices badge).
Proof.
  unfold add_badge. revert criteria. induction indices as [|i indices IH]; intros criteria; simpl; [done|].
  etrans; [|apply IH]. apply Forall2_lookup. intros j. destruct (decide (i = j)) as [->|].
  - rewrite list_lookup_alter_eq. destruct (criteria !! j); constructor. by eexists.
  - rewrite list_lookup_alter_ne by done. destruct (criteria !! j); by constructor.
Qed.

Lemma assign_recommendations_same criteria criteria' :
  assign_recommendations criteria = Ok criteria' → Forall2 same_but_badges criteria criteria'.
Proof.
  unfold assign_recommendations. destruct (existsb _ _); [|by intros [= <-]].
  intros H. do 6 ok_step H ? ?. injection H as <-. do 5 (etrans; [|apply add_badge_same]). apply add_badge_same.
Qed.

(** A criterion that is blocked by an error. *)
Definition blocked (a : CriterionAssessment) : Prop := ca_feasible a = false ∧ ∃ e, ca_blockers a = [Failed e].

Section Plans.
Context `{JN : JsonNumber} (context : PlanningContext) (event : EventDefinition).
Context (Hcodes : NoDup (ds_code <$> pc_devices context)).
Context (Htypes : Forall (λ criterion, NoDup (dr_device_type <$> ec_devices criterion)) (ed_criteria event)).

Lemma assess_all_Ok progress criteria items :
  assess_all context event progress (plan_beacon context (ed_location event)) criteria = Ok items →
  Forall (λ criterion, NoDup (dr_device_type <$> ec_devices criterion)) criteria →
  Forall2 (λ criterion a, ca_criterion_name a = ec_name criterion
    ∧ (blocked a ∨ devices_ok context event a ∧ carriage_ok context event a ∧ resources_ok context a)) criteria items.
Proof.
  revert items. induction criteria as [|criterion criteria IH]; intros items H Hc; simpl in H.
  { injection H as <-. constructor. }
  apply Forall_cons in Hc as [Hc Hcs]. ok_step H a Ha. ok_step H rest Hrest. injection H as <-.
  constructor; [|by apply IH]. destruct (assess_criterion _ _ _ _ _) as [a'|e] eqn:E.
  - injection Ha as <-. split; [|right; by eapply assess_criterion_Ok].
    revert E. unfold assess_criterion. clear. intros H. ok_step H ? ?. destruct (reuse_devices _ _ _ _ _).
    ok_step H ? ?. ok_step H ? ?. ok_step H ? ?. ok_step H ? ?. ok_step H t ?. destruct t as [[]].
    do 5 ok_step H ? ?. by injection H as <-.
  - assert (blocked_assessment context event criterion progress (plan_beacon context (ed_location event)) e = Ok a) as Hb
      by (by destruct e).
    unfold blocked_assessment in Hb. ok_step Hb ? ?. injection Hb as <-. split; [done|]. left. split; [done|]. by eexists.
Qed.

Lemma plan_event_Ok plan :
  plan_event event context = Ok plan →
  Forall2 (λ criterion a, ca_criterion_name a = ec_name criterion
    ∧ (blocked a ∨ devices_ok context event a ∧ carriage_ok context event a ∧ resources_ok context a))
    (ed_criteria event) (ep_criteria plan).
Proof.
  unfold plan_event. intros H. ok_step H progress Hp. ok_step H items Hitems. ok_step H items' Hr. injection H as <-.
  apply assess_all_Ok in Hitems; [|done]. apply assign_recommendations_same in Hr. simpl.
  clear Htypes. revert items' Hr. induction Hitems as [|criterion a l items Ha Hitems IH]; intros items' Hr.
  { apply Forall2_nil_inv_l in Hr as ->. constructor. }
  apply Forall2_cons_inv_l in Hr as (b&items''&[badges ->]&Hr&->). constructor; [|by apply IH].
  destruct Ha as [Hn Ha]. split; [done|]. destruct Ha as [Hb|([]&[]&Hres)]; [by left|right]. split_and!; [by split..|exact Hres].
Qed.
End Plans.


(** in an assessment that is not blocked by an error, the transports are eligible
    devices, or one that is printed when there is none, with as many trips as their capacity
    takes and no more; and the criterion is feasible exactly when the stock at home covers
    what the event still needs with the cost of the prints, that of the beacon apart. *)
Theorem event_plan_carries_and_pays `{JN : JsonNumber} context event plan :
  plan_event event context = Ok plan → NoDup (ds_code <$> pc_devices context) →
  Forall (λ criterion, NoDup (dr_device_type <$> ec_devices criterion)) (ed_criteria event) →
  Forall (λ a, blocked a ∨ carriage_ok context event a ∧ resources_ok context a) (ep_criteria plan).
Proof.
  intros H Hc Ht. pose proof (plan_event_Ok _ _ Hc Ht _ H) as Hp. clear H Ht.
  apply Forall_lookup. intros i a Ha. destruct (Forall2_lookup_r _ _ _ _ _ Hp Ha) as (criterion&_&_&?). tauto.
Qed.
