(* ===== verification/EventScheduleFacts.v ===== *)
(** * The event planner schedules prints as the printing crate does

    [schedule_print_units] of [crates/replicant-event-planner/src/lib.rs] repeats the list
    scheduling of [schedule_prints] of [crates/replicant-printing/src/lib.rs] with
    [partial_cmp] in the place of [total_cmp].  On times that are numbers, none of them
    negative, both give the same batches. *)

From Stdlib Require Import Floats.SpecFloat.
From S2P Require Import Prelude Float64 Json Printing PrintingFacts PrintScheduleFacts EventPlanner EventFacts.
From S2P Require Import MiningPlanner BootstrapPlanner BootstrapFacts.
Import Events.

(** ** Times *)

(** A number that is not negative, nor the negative zero. *)
Definition ordinary (x : F64.t) : Prop :=
  match x with S754_zero false | S754_infinity false | S754_finite false _ _ => True | _ => False end.

Lemma shr_1_nonneg mrs : 0 ≤ shr_m mrs → 0 ≤ shr_m (shr_1 mrs).
Proof. destruct mrs as [[|[]|[]] r s]; simpl; lia. Qed.

Lemma iter_pos_inv {A} (P : A → Prop) f n x : (∀ x, P x → P (f x)) → P x → P (SpecFloat.iter_pos f n x).
Proof. intros Hf. revert x. induction n as [n IH|n IH|]; intros x Hx; simpl; auto. Qed.

Lemma shr_fexp_nonneg m e l : 0 ≤ m → 0 ≤ shr_m (shr_fexp 53 1024 m e l).1.
Proof.
  intros Hm. unfold shr_fexp, shr.
  assert (0 ≤ shr_m (shr_record_of_loc m l)) by (destruct l as [|[]]; done).
  destruct (_ - e); simpl; try done. apply (iter_pos_inv (λ mrs, 0 ≤ shr_m mrs)); [apply shr_1_nonneg|done].
Qed.

Lemma binary_round_ordinary m e : ordinary (binary_round 53 1024 false m e).
Proof.
  unfold binary_round. destruct (shl_align _ _ _) as [mz ez]. unfold binary_round_aux.
  pose proof (shr_fexp_nonneg (Zpos mz) ez loc_Exact ltac:(lia)) as H1. destruct (shr_fexp _ _ _ ez _) as [mrs1 e1].
  assert (0 ≤ round_nearest_even (shr_m mrs1) (loc_of_shr_record mrs1)) as H2.
  { unfold round_nearest_even. simpl in H1. destruct (loc_of_shr_record mrs1) as [|[]]; [lia| |lia..]. destruct (Z.even _); lia. }
  pose proof (shr_fexp_nonneg _ e1 loc_Exact H2) as H3. destruct (shr_fexp _ _ _ e1 _) as [mrs2 e2]. simpl in H3.
  destruct (shr_m mrs2); [done| |lia]. by destruct (_ <=? _).
Qed.

Lemma add_ordinary x y : ordinary x → ordinary y → ordinary (F64.add x y).
Proof.
  unfold F64.add, ordinary. destruct x as [[]|[]| |[] m e], y as [[]|[]| |[] m' e']; try done. intros _ _.
  unfold SFadd, binary_normalize, cond_Zopp. destruct (shl_align m _ _) as [m1 e1], (shl_align m' _ _) as [m2 e2]. simpl.
  apply binary_round_ordinary.
Qed.

Lemma max_ordinary x : ordinary x → F64.max x F64.zero = x.
Proof. by destruct x as [[]|[]| |[]]. Qed.

Lemma max_zero_ordinary x : x ≠ F64.negative_zero → ordinary (F64.max x F64.zero).
Proof. by destruct x as [[]|[]| |[]]. Qed.

(** On ordinary numbers the two orders agree. *)
Lemma cmp_ordinary x y :
  ordinary x → ordinary y →
  match cmp_or_equal x y with
  | Eq => x = y
  | Lt => x ≠ y ∧ F64.total_leb x y = true
  | Gt => x ≠ y ∧ F64.total_leb x y = false
  end.
Proof.
  intros Hx Hy. unfold cmp_or_equal, F64.partial_cmp, F64.total_leb.
  destruct x as [[]|[]| |[] m e], y as [[]|[]| |[] m' e']; try done; simpl.
  destruct (Z.compare_spec e e') as [->|He|He].
  - change (Pos.compare_cont Eq m m') with (Pos.compare m m'). destruct (Pos.compare_spec m m') as [->|Hm|Hm].
    + done.
    + split; [intros [= ->]; lia|]. lia.
    + split; [intros [= ->]; lia|]. lia.
  - split; [intros [= _ ->]; lia|lia].
  - split; [intros [= _ ->]; lia|lia].
Qed.

Lemma load_before_eq a b : ordinary a.2 → ordinary b.2 → load_before a b = load_leb a b.
Proof.
  intros Ha Hb. pose proof (cmp_ordinary _ _ Ha Hb) as Hc. unfold load_before, load_leb.
  destruct (cmp_or_equal a.2 b.2).
  - by rewrite decide_True.
  - destruct Hc. by rewrite decide_False.
  - destruct Hc as [? ->]. by rewrite decide_False.
Qed.

Definition unit_pair (u : PrintUnit) : string * F64.t := (pu_device_type u, pu_duration_seconds u).

Lemma unit_before_eq a b :
  ordinary (pu_duration_seconds a) → ordinary (pu_duration_seconds b) →
  unit_before a b = unit_leb (unit_pair a) (unit_pair b).
Proof.
  intros Ha Hb. pose proof (cmp_ordinary _ _ Hb Ha) as Hc. unfold unit_before, unit_leb. simpl.
  destruct (cmp_or_equal _ _).
  - by rewrite decide_True.
  - destruct Hc. by rewrite decide_False by congruence.
  - destruct Hc as [? ->]. by rewrite decide_False by congruence.
Qed.

#[global] Instance unit_leb_total : TotalLeb unit_leb.
Proof.
  assert (T : TotalLeb (λ x y : F64.t, F64.total_leb y x)).
  { split; intros; [apply F64.total_le_total|]. eapply (transitivity (R := F64.total_le)); eassumption. }
  assert (A : AntisymLeb (λ x y : F64.t, F64.total_leb y x)).
  { intros x y ? ?. by apply (anti_symm F64.total_le). }
  apply (lex_leb_total snd _ _ T A _).
Qed.
#[global] Instance unit_leb_antisym : AntisymLeb unit_leb.
Proof.
  intros [a x] [b y]. unfold unit_leb. simpl. destruct (decide (x = y)) as [->|Hn].
  - rewrite decide_True by done. intros ? ?. f_equal. by apply leb_antisym.
  - rewrite decide_False by congruence. intros ? ?. destruct Hn. by apply (anti_symm F64.total_le).
Qed.

(** ** Sorting *)

(** A list sorts in one way when the order tells its elements apart. *)
Lemma sorted_unique {A} (leb : A → A → bool) l1 l2 :
  (∀ x y, x ∈ l1 → y ∈ l1 → leb x y = true → leb y x = true → x = y) →
  StronglySorted (λ x y, leb x y = true) l1 → StronglySorted (λ x y, leb x y = true) l2 → l1 ≡ₚ l2 → l1 = l2.
Proof.
  intros Ha H1. revert l2. induction H1 as [|x l1 H1 IH Hx]; intros l2 H2 Hp.
  { symmetry. by apply Permutation_nil_r. }
  destruct l2 as [|y l2]; [by apply Permutation_nil_r in Hp|]. apply StronglySorted_inv in H2 as [H2 Hy].
  assert (x = y) as ->.
  { rewrite Forall_forall in Hx, Hy. assert (x ∈ y :: l2) as Hi by (rewrite <- Hp; by left).
    assert (y ∈ x :: l1) as Hj by (rewrite Hp; by left).
    apply elem_of_cons in Hi as [?|Hi]; [done|]. apply elem_of_cons in Hj as [?|Hj]; [done|].
    apply Ha; [by left|by right|auto..]. }
  f_equal. apply IH; [set_solver|done|]. by apply Permutation_cons_inv in Hp.
Qed.

Lemma Sorted_fmap_on {A B} (R : A → A → Prop) (S : B → B → Prop) (f : A → B) l :
  (∀ x y, x ∈ l → y ∈ l → R x y → S (f x) (f y)) → Sorted R l → Sorted S (f <$> l).
Proof.
  intros HRS. induction 1 as [|x l Hl IH Hx]; simpl; constructor.
  - apply IH. set_solver.
  - destruct Hx; simpl; constructor. apply HRS; set_solver.
Qed.

Lemma unit_before_total a b : unit_before a b = true ∨ unit_before b a = true.
Proof.
  unfold unit_before, cmp_or_equal. rewrite F64.partial_cmp_swap.
  destruct (F64.partial_cmp _ _) as [[]|]; simpl; auto; apply leb_total.
Qed.

Definition ordinary_units (units : list PrintUnit) : Prop := Forall (λ u, ordinary (pu_duration_seconds u)) units.

Lemma sort_units units :
  ordinary_units units → unit_pair <$> sort_by unit_before units = sort_by unit_leb (unit_pair <$> units).
Proof.
  intros Ho. apply (sorted_unique unit_leb); [intros x y _ _; apply leb_antisym| |apply StronglySorted_sort_by, _|by rewrite !sort_by_perm].
  apply Sorted_StronglySorted; [exact leb_trans|].
  eapply Sorted_fmap_on; [|apply Sorted_sort_by, unit_before_total].
  unfold ordinary_units in Ho. rewrite Forall_forall in Ho. intros x y Hx Hy. apply elem_of_sort_by in Hx, Hy.
  rewrite unit_before_eq; auto.
Qed.

(** ** Distribution *)

Definition ordinary_loads (fs : Factories) : Prop := map_Forall (λ _, ordinary) (loads fs).

Lemma min_by_ext {A} (leb1 leb2 : A → A → bool) l :
  (∀ x y, x ∈ l → y ∈ l → leb1 x y = leb2 x y) → min_by leb1 l = min_by leb2 l.
Proof.
  unfold min_by. assert (∀ l o, (∀ x y, x ∈ option_list o ++ l → y ∈ option_list o ++ l → leb1 x y = leb2 x y) →
    foldl (λ best x, match best with None => Some x | Some y => if leb1 y x then Some y else Some x end) o l
    = foldl (λ best x, match best with None => Some x | Some y => if leb2 y x then Some y else Some x end) o l) as Hf.
  { clear l. induction l as [|x l IH]; intros o Ho; [done|]. simpl. destruct o as [y|]; simpl in *.
    - rewrite <- (Ho y x) by set_solver. destruct (leb1 y x); apply IH; intros; apply Ho; set_solver.
    - apply IH. intros; apply Ho; set_solver. }
  intros Hl. apply (Hf l None). exact Hl.
Qed.

Lemma distribute_eq units fs :
  ordinary_units units → ordinary_loads fs →
  match distribute units fs, assign_units (unit_pair <$> units) fs with
  | Ok fs1, Ok fs2 => fs1 = fs2
  | Err e1, Err e2 => e1 = NoAutofactory ∧ e2 = Printing.NoAutofactory
  | _, _ => False
  end.
Proof.
  intros Hu. revert fs. induction Hu as [|u units Hu Hus IH]; intros fs Hl; simpl; [done|].
  rewrite (min_by_ext load_before load_leb).
  2:{ intros [f x] [g y] Hx%elem_of_entries Hy%elem_of_entries. apply load_before_eq; [by apply (Hl f)|by apply (Hl g)]. }
  unfold assign_unit. destruct (min_by load_leb _) as [[f x]|] eqn:E; simpl; [|done].
  rewrite max_ordinary by done. apply IH. unfold ordinary_loads. simpl. apply map_Forall_insert_2; [|done].
  apply add_ordinary; [|done]. pose proof (min_by_spec load_leb (entries (loads fs))) as Hm. rewrite E in Hm.
  destruct Hm as [Hin%elem_of_entries _]. rewrite Hin. by apply (Hl f).
Qed.

(** ** Batches *)

Lemma StronglySorted_app_2 {A} (R : A → A → Prop) l1 l2 :
  StronglySorted R l1 → StronglySorted R l2 → (∀ x y, x ∈ l1 → y ∈ l2 → R x y) → StronglySorted R (l1 ++ l2).
Proof.
  intros H1 H2 H. induction H1 as [|x l1 H1 IH Hx]; simpl; [done|]. constructor; [apply IH; set_solver|].
  apply Forall_app. split; [done|]. rewrite Forall_forall. set_solver.
Qed.

Lemma factory_batches_sorted e : StronglySorted (λ a b, batch_leb a b = true) (factory_batches e).
Proof.
  destruct e as [f queue]. unfold factory_batches. simpl.
  assert (∀ k, StronglySorted (λ a b, batch_leb a b = true)
    (imap (λ i (q : QueueEntry), {| pb_factory_code := f; pb_device_type := q.1.1; pb_quantity := q.1.2;
       pb_sequence := (k + i)%nat; pb_projected_finish_seconds := q.2 |}) queue)) as H; [|apply (H 0%nat)].
  induction queue as [|q queue IH]; intros k; simpl; constructor.
  - rewrite (imap_ext _ (λ i q, {| pb_factory_code := f; pb_device_type := q.1.1; pb_quantity := q.1.2;
       pb_sequence := (S k + i)%nat; pb_projected_finish_seconds := q.2 |})); [apply IH|].
    intros i x _. unfold compose. f_equal. lia.
  - apply Forall_forall. intros b (i&x&->&_)%elem_of_lookup_imap. unfold batch_leb. simpl.
    rewrite decide_True by done. apply Nat.leb_le. lia.
Qed.

Lemma batches_sorted (m : gmap string (list QueueEntry)) :
  StronglySorted (λ a b, batch_leb a b = true) (entries m ≫= factory_batches).
Proof.
  assert (StronglySorted (λ a b : string * list QueueEntry, String.leb a.1 b.1 = true) (entries m)) as Hs.
  { apply StronglySorted_sort_by. apply by_code_total. }
  destruct (entries_map m) as [Hnd _]. revert Hs Hnd. induction (entries m) as [|e l IH]; simpl; [constructor|].
  intros [Hs He]%StronglySorted_inv [Hn Hnd]%NoDup_cons. apply StronglySorted_app_2; [apply factory_batches_sorted|auto|].
  intros a b Ha Hb. destruct e as [f q]. apply elem_of_factory_batches in Ha as [<- _].
  apply list_elem_of_bind in Hb as ([g q']&Hb&Hin). apply elem_of_factory_batches in Hb as [<- _].
  rewrite Forall_forall in He. specialize (He _ Hin). simpl in *. unfold batch_leb. rewrite decide_False; [done|].
  intros E. apply Hn. rewrite E. apply list_elem_of_fmap. by exists (pb_factory_code b, q').
Qed.

Lemma sort_batches fs :
  sort_by batch_leb (entries (assigned fs) ≫= factory_batches) = entries (assigned fs) ≫= factory_batches.
Proof.
  apply (sorted_unique batch_leb); [|apply StronglySorted_sort_by, _|apply batches_sorted|apply sort_by_perm].
  intros a b. rewrite !elem_of_sort_by, !elem_of_batches. intros (q&Ha&Hqa) (q'&Hb&Hqb) Hab Hba.
  assert (pb_factory_code a = pb_factory_code b) as Ef.
  { unfold batch_leb in Hab, Hba. destruct (decide (pb_factory_code a = pb_factory_code b)); [done|].
    rewrite decide_False in Hba by congruence. by apply leb_antisym. }
  unfold batch_leb in Hab, Hba. rewrite !decide_True, !Nat.leb_le in * by done.
  assert (pb_sequence a = pb_sequence b) as Es by lia. rewrite Ef in Ha. rewrite Es in Hqa. simplify_eq.
  destruct a, b; simpl in *. congruence.
Qed.

Lemma initial_loads_ordinary factories :
  Forall (λ f, fw_remaining_seconds f ≠ F64.negative_zero) factories → map_Forall (λ _, ordinary) (initial_loads factories).
Proof.
  unfold initial_loads. assert (map_Forall (λ _, ordinary) (∅ : gmap string F64.t)) as H by apply map_Forall_empty.
  revert H. generalize (∅ : gmap string F64.t). induction factories as [|f l IH]; intros m Hm; simpl; [done|].
  intros [Hf Hl]%Forall_cons. apply IH; [|done]. apply map_Forall_insert_2; [|done]. by apply max_zero_ordinary.
Qed.

Lemma print_units_nil times required units :
  print_units times required = Ok units → units = [] ↔ forallb (λ e : string * Z, bool_decide (e.2 ≤ 0)) required = true.
Proof.
  revert units. induction required as [|[d n] required IH]; intros units; simpl; [by intros [= <-]|].
  case_decide as Hn.
  - intros H. rewrite (IH _ H), bool_decide_true by done. done.
  - rewrite bool_decide_false by done. unfold mbind, result_bind, ok_or. destruct (times !! d); [|done].
    destruct (print_units times required); [|done]. intros [= <-]. split; [|done].
    destruct (Z.to_nat n) eqn:E; [lia|done].
Qed.

(** the list scheduling of the event planner is that of the printing crate: for the same
    units on the same factories both give the same batches, or both report that there is no
    autofactory, when the times are numbers and none is negative. *)
Theorem event_schedule_is_print_schedule factories required times units pairs :
  print_units times (entries required) = Ok pairs → unit_pair <$> units ≡ₚ pairs → ordinary_units units →
  Forall (λ f, fw_remaining_seconds f ≠ F64.negative_zero) factories →
  match schedule_print_units factories units, schedule_prints required times factories with
  | Ok s1, Ok s2 => sc_batches s1 = sc_batches s2
  | Err e1, Err e2 => e1 = NoAutofactory ∧ e2 = Printing.NoAutofactory ∧ factories = []
  | _, _ => False
  end.
Proof.
  intros Hp Hperm Ho Hf. pose proof (print_units_nil _ _ _ Hp) as Hnil.
  unfold schedule_print_units, schedule_prints. destruct units as [|u units].
  { apply Permutation_nil_l in Hperm. rewrite (proj1 Hnil) by done. done. }
  simpl. destruct (forallb _ _).
  { assert (pairs = []) as -> by (by apply Hnil). by apply Permutation_nil_r in Hperm. }
  destruct factories as [|w factories]; [done|]. simpl. rewrite Hp. cbn [mbind result_bind].
  pose proof (distribute_eq (sort_by unit_before (u :: units))
    {| loads := initial_loads (w :: factories); assigned := ∅ |}) as Hd.
  rewrite sort_units in Hd by done.
  rewrite (sorted_unique unit_leb (sort_by unit_leb (unit_pair <$> u :: units)) (sort_by unit_leb pairs)) in Hd;
    [|intros x y _ _; apply leb_antisym|apply StronglySorted_sort_by, _..|by rewrite !sort_by_perm].
  specialize (Hd ltac:(unfold ordinary_units; by rewrite sort_by_perm) ltac:(by apply initial_loads_ordinary)).
  destruct (distribute _ _) as [fs1|e1], (assign_units _ _) as [fs2|e2] eqn:E; simpl; try done.
  - subst fs2. by rewrite sort_batches.
  - exfalso. destruct (assign_units_spec (sort_by unit_leb pairs)
      {| loads := initial_loads (w :: factories); assigned := ∅ |}) as (fs'&E'&_); [| |congruence].
    + split; simpl; intros f; rewrite lookup_empty; [by intros []|done].
    + intros He. assert (Hw : fw_code w ∈ dom (initial_loads (w :: factories)))
        by (apply initial_loads_dom, list_elem_of_fmap_2; by left).
      simpl in He. rewrite He, dom_empty_L in Hw. set_solver.
Qed.

(** * Mission tags

    What the characters of [mission_tag] are, and when it fits the limit of the server. *)

(** The characters that a designation is reduced to. *)
Definition normalized (designation : list Z) : list Z := Bootstrap.trim (normalize_tag_component designation).

Lemma normalized_allowed designation : Forall tag_allowed (normalized designation).
Proof. apply Forall_trim, Forall_fmap, Forall_forall. intros c _. apply tag_char_allowed. Qed.

Lemma short_hash_allowed value : Forall tag_allowed (short_hash value).
Proof.
  unfold short_hash, hex16. apply Forall_fmap, Forall_forall. intros i _. simpl.
  assert (0 ≤ Z.land (Z.shiftr (fnv1a value) (4 * (15 - Z.of_nat i))) 15 < 16).
  { change 15 with (Z.ones 4). rewrite Z.land_ones by lia. apply Z.mod_pos_bound. lia. }
  unfold Bootstrap.hex_char, tag_allowed. case_decide; lia.
Qed.

Lemma event_head_allowed l : Forall tag_allowed l →
  Forall tag_allowed (or_e (Bootstrap.trim_end l))
  ∧ (length (or_e (Bootstrap.trim_end l)) ≤ Nat.max 1 (length l))%nat.
Proof.
  intros Hl. pose proof (trim_end_prefix l) as Hp. destruct (Bootstrap.trim_end l) as [|c h].
  - split; [repeat constructor; unfold tag_allowed; lia|simpl; lia].
  - split; [|apply prefix_length in Hp; unfold or_e; lia]. destruct Hp as [k Hk]. rewrite Hk in Hl.
    by apply Forall_app in Hl as [? _].
Qed.

Lemma preserved_suffix l : ∃ k, preserved_event_suffix l = drop k l.
Proof.
  unfold preserved_event_suffix. destruct (rfind EVT l); [by eexists|]. exists (length l). by rewrite drop_all.
Qed.

(** The tag is the prefix and allowed characters; a designation that fits appears in it
    whole; and a longer one gives a tag within the limit when the part that is preserved,
    from its location on, has at most 18 characters. *)
Theorem event_mission_tag_bounded designation :
  (∃ rest, mission_tag designation = MISSION_PREFIX ++ rest ∧ Forall tag_allowed rest)
  ∧ ((length (normalized designation) ≤ 26)%nat → mission_tag designation = MISSION_PREFIX ++ normalized designation)
  ∧ ((length (preserved_event_suffix (normalized designation)) ≤ 18)%nat →
     (length (mission_tag designation) ≤ MAX_TAG_CHARACTERS)%nat).
Proof.
  pose proof (normalized_allowed designation) as Hn. unfold mission_tag. fold (normalized designation).
  set (l := normalized designation) in *. split_and!.
  - case_decide; [by eexists|]. eexists. split; [done|]. apply Forall_app. split.
    { apply event_head_allowed. apply Forall_take. eapply Forall_take in Hn.
      destruct (trim_end_prefix (take (length l - length (preserved_event_suffix l)) l)) as [k Hk].
      rewrite Hk in Hn. by apply Forall_app in Hn as [? _]. }
    constructor; [unfold tag_allowed, Bootstrap.hyphen; lia|]. apply Forall_app. split; [apply Forall_take, short_hash_allowed|].
    destruct (preserved_suffix l) as [k ->]. by apply Forall_drop.
  - intros Hl. rewrite decide_True; [done|]. rewrite length_app. simpl. unfold MAX_TAG_CHARACTERS. lia.
  - intros Hs. case_decide as Hd; [done|]. set (h := take (_ `max` _) _).
    assert (length h ≤ (MAX_TAG_CHARACTERS - (length MISSION_PREFIX + 1 + HASH_CHARS + length (preserved_event_suffix l))) `max` 1)%nat
      by (unfold h; rewrite length_take; lia).
    assert (Forall tag_allowed h) as [_ Hh]%event_head_allowed.
    { apply Forall_take. eapply Forall_take in Hn.
      destruct (trim_end_prefix (take (length l - length (preserved_event_suffix l)) l)) as [k Hk].
      rewrite Hk in Hn. by apply Forall_app in Hn as [? _]. }
    rewrite !length_app, length_take. change (length MISSION_PREFIX) with 6%nat in *. unfold MAX_TAG_CHARACTERS, HASH_CHARS in *.
    simpl in *. lia.
Qed.
