(* ===== verification/EventWitnesses.v ===== *)
(** * Concrete event plans

    The hypotheses of the theorems on the event planner hold on a concrete event; and the
    inputs on which the planner departs from its documentation. *)

From S2P Require Import Prelude Float64 Json Printing PrintingFacts PrintScheduleFacts EventPlanner.
From S2P Require Import EventFacts EventScheduleFacts.
Import Events.

#[global] Existing Instance integer_numbers.

(** ** A plan *)

Definition stock (code type status location : string) : DeviceStock :=
  {| ds_code := code; ds_device_type := type; ds_status := Some status; ds_location := Some location;
     ds_assigned_replicant := None; ds_tags := ∅; ds_cargo_capacity := 0; ds_attach_capacity := 0;
     ds_attach_used := 0; ds_attached_to_device_code := None; ds_stowed_in_device_code := None;
     ds_controlled_by_ami := false; ds_travelling := false |}.

Definition freighter : DeviceStock :=
  {| ds_code := "F1"; ds_device_type := CARGO_FREIGHTER; ds_status := Some "active"; ds_location := Some "SOL-2";
     ds_assigned_replicant := None; ds_tags := ∅; ds_cargo_capacity := 40; ds_attach_capacity := 0;
     ds_attach_used := 0; ds_attached_to_device_code := None; ds_stowed_in_device_code := None;
     ds_controlled_by_ami := false; ds_travelling := false |}.

Definition blueprint (type : string) (attach : Z) (resources : list (string * Z)) : string * BlueprintSpec :=
  (type, {| eb_device_type := type; eb_print_time_seconds := F64.of_Z 60; eb_cargo_capacity := 0;
            eb_attach_capacity := attach; eb_stow_capacity := 0; eb_resources := list_to_map resources;
            eb_components := ∅; eb_features := ∅ |}).

(** A hundred units of metal and three drones, of which one was delivered and one is at home. *)
Definition relief : EventDefinition :=
  {| ed_designation := "KHUX-3-EVT-008"; ed_location := "KHUX-3"; ed_title := "Relief"; ed_description := None;
     ed_event_type := None; ed_tier := None; ed_status := None;
     ed_criteria := [{| ec_name := "aid"; ec_resources := list_to_map [("metal", 100)];
                        ec_devices := [{| dr_device_type := "drone"; dr_count := 3 |}] |}];
     ed_progress := Some (Object [("delivered_devices", Object [("drone", Number 1)])]);
     ed_rewards := default_rewards |}.

Definition home : PlanningContext :=
  {| pc_home_inventory := list_to_map [("metal", 150); ("alloy", 20)]; pc_event_inventory := ∅;
     pc_blueprints := list_to_map [blueprint "drone" 0 [("alloy", 5)]; blueprint SURGE_CARRIER 4 [("alloy", 7)]];
     pc_devices := [freighter; stock "D1" "drone" "Idle" "SOL-1"; stock "D2" "drone" "active" "SOL-1";
                    stock "B1" FTL_BEACON "active" "KHUX-3"];
     pc_factories := [{| fw_code := "A1"; fw_remaining_seconds := F64.zero |}];
     pc_earned_achievements := ∅; pc_home_location := "SOL-1"; pc_mission_tag_prefix := "evt-m:";
     pc_event_mission_tag := None |}.

(** The assessments of a plan. *)
Definition assessments (event : EventDefinition) (context : PlanningContext) : list CriterionAssessment :=
  match plan_event event context with Ok plan => ep_criteria plan | Err _ => [] end.

Lemma plan_of_assessments event context a l :
  assessments event context = a :: l → ∃ plan, plan_event event context = Ok plan ∧ ep_criteria plan = a :: l.
Proof. unfold assessments. destruct (plan_event event context) as [plan|]; [eauto|done]. Qed.


Lemma event_plan_carries_and_pays_witness :
  ∃ plan a, plan_event relief home = Ok plan ∧ ep_criteria plan = [a]
    ∧ tp_inbound_trips (ca_cargo a) = 3 ∧ ca_feasible a = true
    ∧ (blocked a ∨ carriage_ok home relief a ∧ resources_ok home a).
Proof.
  edestruct (plan_of_assessments relief home) as (plan&Hplan&Ha); [vm_compute; reflexivity|].
  eexists plan, _. split; [exact Hplan|]. split; [exact Ha|]. split; [reflexivity|]. split; [reflexivity|].
  pose proof (event_plan_carries_and_pays home relief plan Hplan) as H. rewrite Ha in H.
  refine (proj1 (Forall_cons_1 _ _ _ (H _ _))).
  - apply (bool_decide_unpack _). vm_compute. reflexivity.
  - apply (bool_decide_unpack _). vm_compute. reflexivity.
Defined.

(** ** A schedule *)

Definition three_units : list PrintUnit :=
  [{| pu_device_type := "drone"; pu_duration_seconds := F64.of_Z 60 |};
   {| pu_device_type := "beacon"; pu_duration_seconds := F64.of_Z 90 |};
   {| pu_device_type := "drone"; pu_duration_seconds := F64.of_Z 60 |}].
Definition two_factories : list FactoryWorkload :=
  [{| fw_code := "A1"; fw_remaining_seconds := F64.of_Z 10 |}; {| fw_code := "A2"; fw_remaining_seconds := F64.zero |}].

Lemma event_schedule_is_print_schedule_witness :
  match schedule_print_units two_factories three_units,
        schedule_prints (list_to_map [("drone", 2); ("beacon", 1)])
          (list_to_map [("drone", F64.of_Z 60); ("beacon", F64.of_Z 90)]) two_factories with
  | Ok s1, Ok s2 => sc_batches s1 = sc_batches s2 ∧ length (sc_batches s1) = 2%nat
  | _, _ => False
  end.
Proof.
  pose proof (event_schedule_is_print_schedule two_factories (list_to_map [("drone", 2); ("beacon", 1)])
    (list_to_map [("drone", F64.of_Z 60); ("beacon", F64.of_Z 90)]) three_units
    [("beacon", F64.of_Z 90); ("drone", F64.of_Z 60); ("drone", F64.of_Z 60)]) as H.
  specialize (H ltac:(vm_compute; reflexivity)).
  specialize (H ltac:(apply (Permutation_swap ("beacon", F64.of_Z 90) ("drone", F64.of_Z 60) [("drone", F64.of_Z 60)]))).
  specialize (H ltac:(repeat constructor)). specialize (H ltac:(repeat constructor; discriminate)).
  vm_compute in H |- *. split; [exact H|reflexivity].
Defined.

(** ** Tags *)

Example event_mission_tag_readable :
  mission_tag (bytes_of "REALLYLONGSYSTEMNAMEHERE-3-EVT-002") = bytes_of "evt-m:reallylon-70faea-3-evt-002".
Proof. vm_compute. reflexivity. Qed.

(** The documentation promises a bounded tag; a designation without a location keeps all of
    itself as the suffix. *)
Example event_mission_tag_exceeds_limit :
  length (mission_tag (bytes_of "REALLYLONGSYSTEMNAMEHERE-EVT-002")) = 46%nat.
Proof. vm_compute. reflexivity. Qed.

(** ** A required beacon is taken for the optional one *)

(** The event needs a beacon device, and no autofactory is there to print it. *)
Definition beacon_event : EventDefinition :=
  {| ed_designation := "KHUX-3-EVT-009"; ed_location := "KHUX-3"; ed_title := "Light"; ed_description := None;
     ed_event_type := None; ed_tier := None; ed_status := None;
     ed_criteria := [{| ec_name := "light"; ec_resources := ∅;
                        ec_devices := [{| dr_device_type := FTL_BEACON; dr_count := 1 |}] |}];
     ed_progress := None; ed_rewards := default_rewards |}.

Definition carrier : DeviceStock :=
  {| ds_code := "C1"; ds_device_type := SURGE_CARRIER; ds_status := Some "active"; ds_location := Some "SOL-1";
     ds_assigned_replicant := None; ds_tags := ∅; ds_cargo_capacity := 0; ds_attach_capacity := 4;
     ds_attach_used := 0; ds_attached_to_device_code := None; ds_stowed_in_device_code := None;
     ds_controlled_by_ami := false; ds_travelling := false |}.

Definition home_without_factory (devices : list DeviceStock) : PlanningContext :=
  {| pc_home_inventory := list_to_map [("alloy", 20)]; pc_event_inventory := ∅;
     pc_blueprints := list_to_map [blueprint FTL_BEACON 0 [("alloy", 5)]]; pc_devices := devices;
     pc_factories := []; pc_earned_achievements := ∅; pc_home_location := "SOL-1";
     pc_mission_tag_prefix := "evt-m:"; pc_event_mission_tag := None |}.

Example required_beacon_given_up_as_feasible :
  ∃ a, assessments beacon_event (home_without_factory [carrier; stock "B1" FTL_BEACON "active" "KHUX-3"]) = [a] ∧ ca_feasible a = true ∧ ca_reused_devices a = [] ∧ ca_print_devices a = []
      ∧ ca_remaining_devices a = [{| dr_device_type := FTL_BEACON; dr_count := 1 |}].
Proof. eexists. split; [vm_compute; reflexivity|]. split_and!; reflexivity. Qed.

(** A beacon at home is both delivered for the event and deployed at its body. *)
Example beacon_claimed_twice :
  ∃ a, assessments beacon_event (home_without_factory [carrier; stock "B1" FTL_BEACON "idle" "SOL-1"]) = [a] ∧ ca_feasible a = true ∧ ca_reused_devices a = ["B1"]
      ∧ bp_action (ca_beacon a) = TransportExisting ∧ bp_device_code (ca_beacon a) = Some "B1".
Proof. eexists. split; [vm_compute; reflexivity|]. split_and!; reflexivity. Qed.
